(* ===== verification/_CoqProject ===== *)
-Q . S2P
Prelude.v
Qos.v
SequenceNumber.v
DisjointSequence.v
Bitmap.v
MessageBlock.v
Serializer.v
DataSampleHeader.v
TransportReassembly.v
SampleLists.v
WriteDataContainer.v
WriteDataContainerProps.v
InstanceState.v
Ownership.v
OwnershipProps.v
GuidUtils.v
ReaderWriters.v
TransportSendStrategy.v
TransportSendProps.v
TransportRemove.v
TransportSendBuffer.v
TransportHeader.v
TransportReceiveStrategy.v
ReceiveStrategies.v
ReceiveBuffers.v
ReceiveDerived.v
ReceiveDelivery.v
ReceiveProps.v
Transfer.v
Yard.v
FilterExpressionGrammar.v
FilterValue.v
FilterEvaluator.v
FilterTree.v
FilterSyntax.v
FilterTyping.v
FilterProps.v
ContentFilters.v
InfoRepo.v
InfoRepoLogic.v
InfoRepoAssoc.v
InfoRepoInv.v
InfoRepoOps.v
InfoRepoAdd.v
InfoRepoChange.v
InfoRepoProps.v
Multicast.v
MulticastLemmas.v
MulticastNaks.v
MulticastSteps.v
MulticastProps.v
MulticastFailures.v
