(* ===== verification/Prelude.v ===== *)
(** * OpenDDS DCPS core: a verification development

    OpenDDS is a C++ implementation of the OMG Data Distribution Service.  A
    data writer keeps samples in a container and hands them to the transport;
    the transport packs them, sends them, receives and reassembles them on the
    other side; a data reader tracks the writers it is associated with, the
    instances it receives and who owns them; whether a writer and a reader are
    associated at all is decided by their quality of service, and a reader may
    ask for the samples only that pass a filter expression; the information
    repository keeps the entities of a domain and tells writers and readers of
    each other.  This development models these parts of src/dds/DCPS and
    src/dds/InfoRepo as Rocq functions and proves what makes them correct.

    ** Files, and the code they model

    - Prelude: outcomes of C++ code, machine-width integers, shared lemmas and
      tactics.
    - Qos: src/dds/DCPS/DCPS_Utils.cpp and the comparisons of durations of
      Qos_Helper.inl ([compatibleQOS], [matching_partitions], [is_wildcard]).
    - SequenceNumber: the class of Definitions.h, on its two words.
    - DisjointSequence, Bitmap: DisjointSequence.{h,inl,cpp}; the [std::set] of
      ranges is the list of its elements, an iterator an index of it.
    - MessageBlock: the interface of [ACE_Message_Block], a class of the ACE
      library, as a type class with laws.
    - Serializer: Serializer.{h,inl,cpp} on chains of message blocks.
    - DataSampleHeader: DataSampleHeader.{h,inl,cpp}, with [split] and [join].
    - TransportReassembly: transport/framework/TransportReassembly.{h,cpp}.
    - SampleLists: the intrusive lists SendStateDataSampleList,
      WriterDataSampleList, InstanceDataSampleList over DataSampleElement, in a
      heap of samples.
    - WriteDataContainer, WriteDataContainerProps: WriteDataContainer.{h,cpp} and
      PublicationInstance.h: one definition per operation, on the heap of
      SampleLists.
    - InstanceState: InstanceState.{h,inl,cpp}.
    - Ownership, OwnershipProps: OwnershipManager.{h,cpp}, with [filter_instance]
      and the ownership members of DataReaderImpl.cpp and WriterInfo.cpp.
    - GuidUtils: the order of GUIDs of GuidUtils.h and the maps it keys.
    - ReaderWriters: WriterInfo.{h,cpp} and the operations of DataReaderImpl.cpp
      that drive it ([writer_activity], [handle_timeout], [writer_became_alive],
      [writer_became_dead], [writer_removed], the REQUEST_ACK message).
    - TransportSendStrategy, TransportSendProps: the send side of
      transport/framework/TransportSendStrategy.{h,inl,cpp} with the queue
      visitors it uses.
    - TransportRemove: [remove_sample] and [remove_all_msgs] of the same class,
      QueueRemoveVisitor.cpp, PacketRemoveVisitor.cpp, TransportReplacedElement.inl
      and [clone_mb] of TransportQueueElement.cpp.
    - TransportSendBuffer: TransportSendBuffer.{h,inl,cpp}, the packets a reliable
      transport keeps for a resend, with CopyChainVisitor.cpp.
    - TransportHeader: the packet header of
      transport/framework/TransportHeader.{h,inl,cpp}.
    - TransportReceiveStrategy: TransportReceiveStrategy_T.{h,inl,cpp}: the whole of
      [handle_dds_input] with its ring of receive buffers, one definition per part
      of the function.
    - ReceiveStrategies: what tcp/TcpReceiveStrategy.cpp and
      udp/UdpReceiveStrategy.{h,cpp} override of it.
    - ReceiveBuffers, ReceiveDerived, ReceiveDelivery, ReceiveProps: the lemmas and
      theorems of receiving, on the buffers, on one call and on a stream.
    - Transfer: the send strategy of one side and the receive strategy of the other.
    - Yard: the parser combinators and character sets of yard/*.hpp.
    - FilterExpressionGrammar: FilterExpressionGrammar.h, rule by rule.
    - FilterValue: the class [Value] of FilterEvaluator.{h,cpp}, its conversions and
      comparisons; FilterEvaluator: the evaluation tree, its construction from the
      tree of the parser, and its evaluation on samples.
    - FilterTree, FilterSyntax, FilterTyping, FilterProps: the trees of accepted
      expressions, the texts of conditions, their type check, and the theorems of
      filters.
    - ContentFilters: ContentFilteredTopicImpl.{h,cpp}, QueryConditionImpl.{h,cpp},
      the filter cache of DomainParticipantImpl.cpp, and [ReaderInfo] and
      [filter_out] of DataWriterImpl.{h,cpp}.
    - InfoRepo: the objects of src/dds/InfoRepo (DCPS_IR_Domain, DCPS_IR_Participant,
      DCPS_IR_Topic, DCPS_IR_Topic_Description, DCPS_IR_Publication and
      DCPS_IR_Subscription .{h,cpp}) in heaps, and the operations of clients of
      DCPSInfo_i.cpp, in a monad of state and exceptions.  Publications and
      subscriptions, which mirror each other in the code, are one definition with
      the side as an argument.
    - InfoRepoLogic: weakest preconditions of these operations, and the view of a
      domain as its objects, the set of its associations, and the set of those that
      were told.
    - InfoRepoAssoc: what the operations on associations do to these sets;
      InfoRepoInv: the invariant of a domain; InfoRepoOps, InfoRepoAdd,
      InfoRepoChange: the operations that remove, make and change objects keep it;
      InfoRepoProps: runs of requests, errors, and runs outside of the contract.
    - Multicast: the reliable and best-effort sessions of transport/multicast
      (MulticastSession.cpp, ReliableSession.cpp, BestEffortSession.cpp), the link
      that keeps them (MulticastDataLink.cpp, [start_session] of
      MulticastTransport.cpp) and their timers (DataLinkWatchdog_T.h), over the
      sets of DisjointSequence, the reassembly and the send buffer.
    - MulticastLemmas: the bodies of control samples and what is read back of them;
      MulticastNaks: what a session asks for; MulticastSteps: the operations of a
      session keep its invariant; MulticastProps: runs of a link, the handshake and
      a round of repair; MulticastFailures: concrete runs that go wrong.

    A class is a [Record] of its members; a member function is a function from
    the state and the arguments to the new state and the result, in the [outcome]
    monad where it can throw or meet undefined behaviour.  Functions keep their
    C++ names (with a prefix where a name is overloaded).  What a function calls
    outside of the model (listeners, reactor, the other layer) is recorded, in
    order, in a list of calls that is part of the state or of the result; what
    such a call answers is an argument.  Locks make an operation one step, so
    that the interleavings of a component are the sequences of its operations;
    the theorems over sequences ([container_simulation], [instance_lifecycle],
    [elections_refine], [liveliness_run], [wire_is_packets], [samples_transferred],
    [filters_shared], [repository_associations], [multicast_exactly_once],
    [repair_round]) quantify over all of them.  Where an
    operation releases its lock to wait, the effect of the other threads is an
    argument ([obtain_buffer], [wait_pending]).

    ** What the theorems show

    - Numbers and sets: the word-wise comparisons and the increment agree with
      the 64-bit value; [insert] keeps the ranges disjoint and adds exactly the
      values; the queries, the missing ranges and the bitmaps agree with the set
      of values.
    - Marshaling: what the serializer writes it reads back, in both byte orders
      and across block boundaries; a short chain clears the good bit; headers
      round-trip, [partial] is exact, and joining the two parts of [split]
      restores the header and the payload.
    - Reassembly: fragments received once each, in any order, are delivered when
      the last arrives, in transport order.
    - Sample lists: each list operation implements the operation on sequences
      and leaves the links of the other lists alone.
    - Container: every sequence of operations is simulated by an abstract
      container and keeps its invariant; what delivery, dispose, resending and
      obtaining a buffer do on every branch.
    - Quality of service: partition matching and the association test against
      independent definitions.
    - Reader side: the life cycle of instances and their generations; elections
      simulated by a table of strengths, and a filter that passes the owner only;
      liveliness counts and the lease timer over all runs; sequence numbers and
      ack requests.
    - Sending: the bytes on the wire are the packets, in the order of the
      elements accepted, each notified once; backpressure ends; taking a sample
      back changes nothing of what is sent; a resend sends the packets kept and
      records the others.
    - Receiving: the packet header round-trips; a stream of packets, however the
      reads cut it, is delivered sample by sample, when no read finds data behind a
      drained buffer; end to end, what is given to the send strategy comes out of
      the receive strategy of the peer.  What is lost when a sample is rejected, is
      longer than its packet, or arrives in the wrong cut.
    - Content filtering: the text of a condition, in the form of [expr_text] (a
      space after every token, a negation only where the code supports one), is
      parsed and evaluated to what the condition means; the constructor ends on
      every text; a condition that passes the type check never throws; comparisons of integers are exact, [LIKE]
      matches as SQL says (patterns without brackets and backslashes), fields are
      read from serialized samples at their places.
    - Filter cache: readers with the same filter share one evaluator, which lives
      as long as the last of them.
    - Information repository: over all runs of requests that keep the contract
      ([allowed]: new identifiers, endpoints on topics of their own participant,
      only changeable policies changed), with no failed remote call and an update
      manager, writers and readers are associated exactly when topic, policies,
      partitions and what is ignored say so, both sides agree and both were told;
      every such request returns, without exceptions and without the use of a
      deleted object.  Requests with unknown entities throw and change nothing.
      What goes wrong outside of the contract is shown on concrete runs.
    - Multicast: over all runs of a link with valid inputs a reliable session
      accepts each datagram of its peer at most once, and the only exception is that
      of a NAKACK below everything the session has seen; a NAK asks for exactly what
      is missing and not suppressed; the handshake completes in one exchange; when
      the answer to a NAK, resent from the writer's buffer, arrives, in whatever
      order and among whatever else, everything asked for is received or given up,
      but for the number offered when the buffer was full.

    Theorems whose statement is a failure of the code on concrete inputs are
    named after it ([insert_gaps_wrong], [to_bitmap_stale_bits],
    [insert_bitmap_failures], [duplicate_fragment_blocks_delivery],
    [read_at_end_dereferences_null], [reenqueue_leaks_filtered_sample],
    [blocked_writer_outcomes], [returning_writer_locked_out],
    [later_request_lost], [element_lost_on_disconnect],
    [terminate_dereferences_null], [terminate_reports_unsent_delivered],
    [remove_all_stops_at_released], [remove_all_leaves_packet],
    [remove_all_visits_released_block], [resend_from_empty_throws],
    [blocked_resend_reported], [hollow_element_sent_twice],
    [offset_removal_loses_byte], [remove_owner_unchecked], [ignored_ids_unchecked],
    [fragment_evicts_fragment], [fragment_request_past_end],
    [retain_all_loses_packets], [stranded_sample_lost], [stranded_ring_is_cyclic],
    [rejected_sample_delivered], [oversized_sample_stops_link],
    [udp_loss_unnoticed], [misplaced_not_undefined], [double_negation_undefined],
    [char_field_throws], [one_character_pattern_throws], [literal_out_of_range],
    [parameter_not_a_number], [parameter_index_unchecked],
    [exponent_without_point_rejected], [non_ascii_undefined],
    [null_filter_cached], [two_failed_calls_undefined],
    [failed_qos_update_undefined], [failed_removal_undefined],
    [foreign_topic_undefined], [topics_left_without_manager_undefined],
    [remove_by_owner_undefined], [defunct_association_undefined],
    [qos_change_counted_three_times], [nak_delay_not_applied],
    [nak_max_without_delay], [expire_gives_up_early], [clock_set_back_throws],
    [nakack_of_others_throws], [short_control_undefined], [second_session_misreads],
    [offer_evicts_what_it_offers], [peer_requests_misplaced]).

    ** Parameters and their laws

    Code outside of the repository is a parameter: message blocks
    ([MessageBlock], [MessageBlockLaws]), the marshaling of GUIDs the IDL
    compiler generates ([GuidMarshal]), [std::sort] ([StdSort]), the allocators and the transport as the container
    calls it ([WriterEnvironment]), what a concrete transport overrides
    ([Transport], [StreamTransport]), the clock, the reactor and the answers of
    the socket (arguments), floating point arithmetic ([FloatOps], [FloatLaws]),
    the extraction of a field by the [MetaStruct] the IDL compiler generates
    ([getValue]), and [ACE::wild_match] ([WildMatch]).  The answers of the
    remote writers and readers of the repository are part of its state
    ([answers_]), the federation id and whether there is an update manager are
    arguments of its operations.  The header types and the
    virtual functions of the receive strategy are the classes [ReceiveHeaders] and
    [ReceiveHooks], its buffer sizes [ReceiveSizes], with the code's own as
    instances.  Each has an instance with which the theorems are
    applied to a concrete run.

    ** Bounds and fuel

    Integers have the width of the code where it matters ([swrap], [uwrap]);
    counters that cannot come near their bound are plain.  Loops over linked
    lists take the number of objects in the heap plus one as fuel, loops over a
    chain of blocks its length plus two, [is_wildcard] the length of the string
    plus one, the bitmap loops the number of bits and the resend loop one more
    than the sequence numbers asked for; the loop over received packets two more
    than the bytes in the buffers; the recursive rules of the grammar and [Star]
    one more than the characters left; the digits of a number are at most twenty.
    The removal of dead participants takes the number of participants, listed and
    dead: one that was removed cannot be marked again without undefined behaviour.
    Every step consumes one of these, and the
    theorems are about [Ret], so running out of fuel ([Fuel]) is excluded where
    they apply.

    ** Not modelled

    The entities of the DDS interface (PublisherImpl, SubscriberImpl, TopicImpl
    and the rest of DomainParticipantImpl, DataWriterImpl and DataReaderImpl) and
    their listeners; the concrete transports but for the receive strategies of tcp
    and udp and the sessions of multicast, with their sockets and threads; the
    lengths of the timer intervals (random, exponential); RTPS discovery; of the InfoRepo server
    the federation of repositories, persistence, the contents of the built-in
    topics, the policies of participants, and the creation of domains;
    Service_Participant and configuration files; the durability cache (file
    system); floating point and wide strings of the serializer; the IDL compiler, the language bindings,
    monitoring, tools and tests. *)

From stdpp Require Export prelude list gmap strings sorting.
From Stdlib Require Export ZArith Lia.

(** ** Scopes, hint databases *)

Declare Scope dds_scope.
Delimit Scope dds_scope with dds.
#[global] Open Scope Z_scope.

(* [naive_solver] clears hypotheses it has already used. *)
#[export] Set Warnings "-clear-no-such-hyp".

Create HintDb dds.

(** ** Outcomes of C++ code

    [Ret] is a normal return, [Throw] a [std::runtime_error] that leaves the
    function, [UB] an access the C++ standard gives no meaning to (the
    dereference of an [end()] iterator or of a null pointer, an index past the
    end of an array), [Fuel] that the recursion bound of the model was too
    small. *)

Inductive outcome (A : Type) : Type :=
| Ret (a : A)
| Throw
| UB
| Fuel.
Arguments Ret {A} _.
Arguments Throw {A}.
Arguments UB {A}.
Arguments Fuel {A}.

#[export] Instance outcome_ret : MRet outcome := fun A a => Ret a.
#[export] Instance outcome_bind : MBind outcome := fun A B k m =>
  match m with
  | Ret a => k a
  | Throw => Throw
  | UB => UB
  | Fuel => Fuel
  end.

(** Reading through a pointer or an iterator: absence is undefined behaviour. *)
Definition deref {A} (o : option A) : outcome A :=
  match o with Some a => Ret a | None => UB end.

Lemma outcome_bind_Ret {A B} (m : outcome A) (k : A -> outcome B) (b : B) :
  (m ≫= k) = Ret b <-> exists a, m = Ret a /\ k a = Ret b.
Proof.
  destruct m; cbn; naive_solver.
Qed.

(** ** Machine integers *)

(** Conversion to an unsigned and to a two's complement signed [w]-bit type. *)
Definition uwrap (w z : Z) : Z := z mod 2 ^ w.
Definition swrap (w z : Z) : Z := (z + 2 ^ (w - 1)) mod 2 ^ w - 2 ^ (w - 1).

Definition is_u (w z : Z) : Prop := 0 <= z < 2 ^ w.
Definition is_s (w z : Z) : Prop := - 2 ^ (w - 1) <= z < 2 ^ (w - 1).

Lemma uwrap_small w z : is_u w z -> uwrap w z = z.
Proof. intros H. apply Z.mod_small, H. Qed.

Lemma uwrap_is_u w z : 0 <= w -> is_u w (uwrap w z).
Proof. intros Hw. apply Z.mod_pos_bound. apply Z.pow_pos_nonneg; lia. Qed.

Lemma pow2_half w : 1 <= w -> 2 ^ w = 2 * 2 ^ (w - 1).
Proof. intros Hw. rewrite <- Z.pow_succ_r by lia. f_equal. lia. Qed.

Lemma swrap_small w z : 1 <= w -> is_s w z -> swrap w z = z.
Proof.
  unfold swrap, is_s. intros Hw H. rewrite Z.mod_small; [lia|].
  rewrite (pow2_half w Hw). lia.
Qed.

Lemma swrap_is_s w z : 1 <= w -> is_s w (swrap w z).
Proof.
  unfold swrap, is_s. intros Hw. rewrite (pow2_half w Hw).
  pose proof (Z.mod_pos_bound (z + 2 ^ (w - 1)) (2 * 2 ^ (w - 1))).
  pose proof (Z.pow_pos_nonneg 2 (w - 1)). lia.
Qed.

Lemma swrap_uwrap w z : 1 <= w -> is_s w z -> swrap w (uwrap w z) = z.
Proof.
  intros Hw H. unfold swrap, uwrap.
  rewrite Z.add_mod_idemp_l by (apply Z.pow_nonzero; lia).
  exact (swrap_small w z Hw H).
Qed.

#[export] Hint Resolve uwrap_is_u swrap_is_s : dds.

(** ** Little-endian byte images *)

Fixpoint le_bytes (n : nat) (z : Z) : list Z :=
  match n with
  | O => []
  | S n' => z mod 256 :: le_bytes n' (z / 256)
  end.

Fixpoint le_value (bs : list Z) : Z :=
  match bs with
  | [] => 0
  | b :: bs' => b + 256 * le_value bs'
  end.

Definition is_byte (b : Z) : Prop := is_u 8 b.

Lemma le_bytes_length n z : length (le_bytes n z) = n.
Proof. revert z. induction n as [|n IH]; intros z; cbn; [done|]. by rewrite IH. Qed.

Lemma le_bytes_byte n z : Forall is_byte (le_bytes n z).
Proof.
  revert z. induction n as [|n IH]; intros z; cbn; constructor; [|apply IH].
  apply (uwrap_is_u 8). lia.
Qed.

Lemma le_value_bytes n z : le_value (le_bytes n z) = z mod 2 ^ (8 * Z.of_nat n).
Proof.
  revert z. induction n as [|n IH]; intros z; cbn [le_bytes le_value].
  { by rewrite Z.mod_1_r. }
  rewrite IH. replace (8 * Z.of_nat (S n)) with (8 + 8 * Z.of_nat n) by lia.
  rewrite Z.pow_add_r by lia. change (2 ^ 8) with 256.
  rewrite Z.rem_mul_r by (try apply Z.pow_pos_nonneg; lia). lia.
Qed.

Lemma le_bytes_mod n z : le_bytes n (uwrap (8 * Z.of_nat n) z) = le_bytes n z.
Proof.
  unfold uwrap. revert z. induction n as [|n IH]; intros z; cbn [le_bytes]; [done|].
  replace (8 * Z.of_nat (S n)) with (8 + 8 * Z.of_nat n) by lia.
  rewrite Z.pow_add_r by lia. change (2 ^ 8) with 256.
  rewrite Z.rem_mul_r by (try apply Z.pow_pos_nonneg; lia).
  rewrite (Z.mul_comm 256), Z.mod_add, Z.mod_mod, Z.div_add by lia.
  rewrite (Z.div_small (z mod 256) 256) by (apply Z.mod_pos_bound; lia). by rewrite Z.add_0_l, IH.
Qed.

Lemma le_value_bound bs :
  Forall is_byte bs -> 0 <= le_value bs < 2 ^ (8 * Z.of_nat (length bs)).
Proof.
  induction 1 as [|b bs Hb _ IH]; cbn [le_value length]; [cbn; lia|].
  replace (8 * Z.of_nat (S (length bs))) with (8 + 8 * Z.of_nat (length bs)) by lia.
  rewrite Z.pow_add_r by lia. unfold is_byte, is_u in Hb. lia.
Qed.

#[export] Hint Resolve le_bytes_byte : dds.

(** ** Lists *)

Lemma take_drop_middle_app {A} (l1 l2 : list A) n :
  n = length l1 -> take n (l1 ++ l2) = l1 /\ drop n (l1 ++ l2) = l2.
Proof. intros ->. split; [apply take_app_length | apply drop_app_length]. Qed.

Lemma last_cons_default {A} (x : A) l : exists y, last (x :: l) = Some y.
Proof.
  revert x. induction l as [|y l IH]; intros x; [by exists x|].
  destruct (IH y) as [z Hz]. exists z. cbn in *. exact Hz.
Qed.

Lemma lookup_app_head {A} (l1 l2 : list A) : (l1 ++ l2) !! length l1 = head l2.
Proof. rewrite lookup_app_r by lia. rewrite Nat.sub_diag. by destruct l2. Qed.

(** ** Tactics *)

(** Case analysis on the first [if] or [match] of the goal, keeping equations. *)
Ltac case_goal :=
  match goal with
  | |- context [if ?b then _ else _] => destruct b eqn:?
  | |- context [match ?x with _ => _ end] => destruct x eqn:?
  end.

(** Turn the boolean comparisons of the hypotheses into propositions. *)
Ltac bool_hyps :=
  repeat match goal with
  | H : _ && _ = true |- _ => apply andb_true_iff in H as [? ?]
  | H : _ || _ = false |- _ => apply orb_false_iff in H as [? ?]
  | H : negb _ = true |- _ => apply negb_true_iff in H
  | H : negb _ = false |- _ => apply negb_false_iff in H
  | H : (_ <? _)%Z = true |- _ => apply Z.ltb_lt in H
  | H : (_ <? _)%Z = false |- _ => apply Z.ltb_ge in H
  | H : (_ <=? _)%Z = true |- _ => apply Z.leb_le in H
  | H : (_ <=? _)%Z = false |- _ => apply Z.leb_gt in H
  | H : (_ =? _)%Z = true |- _ => apply Z.eqb_eq in H
  | H : (_ =? _)%Z = false |- _ => apply Z.eqb_neq in H
  end.

(** Closed conjunctions of comparisons, by evaluation. *)
Ltac solve_concrete :=
  vm_compute; repeat match goal with
  | |- _ /\ _ => split
  | |- True => exact I
  | |- _ = _ => reflexivity
  | |- _ -> False => discriminate
  | |- _ <> _ => discriminate
  end.
