(* ===== verification/Qos.v ===== *)
(** * Quality of service (dds/DCPS/DCPS_Utils.cpp, dds/DCPS/Qos_Helper.inl)

    The requested-versus-offered test that decides whether a data writer and a
    data reader are associated, the record of the policies that failed it, and
    the matching of partition names.  The enumerations and structures are those
    of DdsDcpsInfrastructure.idl and DdsDcpsInfoUtils.idl, with the members these
    functions read.  The pattern matcher [ACE::wild_match] is a function of the
    ACE library and a parameter. *)

From Stdlib Require Import Ascii.
From S2P Require Import Prelude.

Module Qos.

(** ** Durations *)

Record Duration := mkDur { dur_sec : Z; dur_nanosec : Z }.
Definition DURATION_INFINITE_SEC : Z := 0x7fffffff.
Definition DURATION_INFINITE_NSEC : Z := 0x7fffffff.

Definition DURATION_INFINITY : Duration := mkDur DURATION_INFINITE_SEC DURATION_INFINITE_NSEC.

Definition dur_eq (t1 t2 : Duration) : bool :=
  (dur_sec t1 =? dur_sec t2) && (dur_nanosec t1 =? dur_nanosec t2).
Definition dur_ne (t1 t2 : Duration) : bool := negb (dur_eq t1 t2).
Definition dur_lt (t1 t2 : Duration) : bool :=
  dur_ne t1 DURATION_INFINITY
  && (dur_eq t2 DURATION_INFINITY || (dur_sec t1 <? dur_sec t2)
      || ((dur_sec t1 =? dur_sec t2) && (dur_nanosec t1 <? dur_nanosec t2))).
Definition dur_le (t1 t2 : Duration) : bool := negb (dur_lt t2 t1).
Definition dur_gt (t1 t2 : Duration) : bool := dur_lt t2 t1.
Definition dur_ge (t1 t2 : Duration) : bool := dur_le t2 t1.

(** ** Policies *)

(** Strings are the characters before the terminating null. *)
Abbreviation cstring := (list ascii).

Inductive DurabilityKind :=
| VOLATILE_DURABILITY | TRANSIENT_LOCAL_DURABILITY | TRANSIENT_DURABILITY | PERSISTENT_DURABILITY.
Inductive AccessScopeKind := INSTANCE_PRESENTATION | TOPIC_PRESENTATION | GROUP_PRESENTATION.
Inductive OwnershipKind := SHARED_OWNERSHIP | EXCLUSIVE_OWNERSHIP.
Inductive LivelinessKind := AUTOMATIC_LIVELINESS | MANUAL_BY_PARTICIPANT_LIVELINESS | MANUAL_BY_TOPIC_LIVELINESS.
Inductive ReliabilityKind := BEST_EFFORT_RELIABILITY | RELIABLE_RELIABILITY.

(** The numbers of the enumerators. *)
Definition durability_no (k : DurabilityKind) : Z :=
  match k with VOLATILE_DURABILITY => 0 | TRANSIENT_LOCAL_DURABILITY => 1 | TRANSIENT_DURABILITY => 2 | PERSISTENT_DURABILITY => 3 end.
Definition scope_no (k : AccessScopeKind) : Z :=
  match k with INSTANCE_PRESENTATION => 0 | TOPIC_PRESENTATION => 1 | GROUP_PRESENTATION => 2 end.
Definition ownership_no (k : OwnershipKind) : Z := match k with SHARED_OWNERSHIP => 0 | EXCLUSIVE_OWNERSHIP => 1 end.
Definition liveliness_no (k : LivelinessKind) : Z :=
  match k with AUTOMATIC_LIVELINESS => 0 | MANUAL_BY_PARTICIPANT_LIVELINESS => 1 | MANUAL_BY_TOPIC_LIVELINESS => 2 end.
Definition reliability_no (k : ReliabilityKind) : Z := match k with BEST_EFFORT_RELIABILITY => 0 | RELIABLE_RELIABILITY => 1 end.

(** The members of [DataWriterQos] and [DataReaderQos] that are compared. *)
Record EndpointQos := mkEQ {
  durability : DurabilityKind;
  deadline : Duration;
  latency_budget : Duration;
  liveliness : LivelinessKind;
  lease_duration : Duration;
  reliability : ReliabilityKind;
  ownership : OwnershipKind }.

(** The members of [PublisherQos] and [SubscriberQos] that are compared. *)
Record GroupQos := mkGQ {
  access_scope : AccessScopeKind;
  coherent_access : bool;
  ordered_access : bool;
  partition : list cstring }.

Record TransportLocator := mkTL { transport_type : cstring; locator_data : list Z }.

Definition DURABILITY_ID : Z := 2.
Definition PRESENTATION_ID : Z := 3.
Definition DEADLINE_ID : Z := 4.
Definition LATENCYBUDGET_ID : Z := 5.
Definition OWNERSHIP_ID : Z := 6.
Definition LIVELINESS_ID : Z := 8.
Definition RELIABILITY_ID : Z := 11.
Definition TRANSPORTTYPE_ID : Z := 2147483647.

Record QosPolicyCount := mkPC { policy_id : Z; count : Z }.
Record IncompatibleQosStatus := mkIQ {
  total_count : Z; count_since_last_send : Z; last_policy_id : Z; policies : list QosPolicyCount }.

(** [++] on a [CORBA::Long]: overflow of a signed integer is undefined. *)
Definition incr (x : Z) : outcome Z := if x <? 2147483647 then Ret (x + 1) else UB.

(** The loop over [status->policies] and the entry appended when it finds none. *)
Fixpoint count_policy (id : Z) (ps : list QosPolicyCount) : outcome (list QosPolicyCount) :=
  match ps with
  | [] => Ret [mkPC id 1]
  | p :: ps' =>
      if policy_id p =? id then c ← incr (count p); Ret (mkPC (policy_id p) c :: ps')
      else ps'' ← count_policy id ps'; Ret (p :: ps'')
  end.

Definition increment_incompatibility_count (status : IncompatibleQosStatus) (incompatible_policy : Z)
    : outcome IncompatibleQosStatus :=
  t ← incr (total_count status);
  s ← incr (count_since_last_send status);
  ps ← count_policy incompatible_policy (policies status);
  Ret (mkIQ t s incompatible_policy ps).

Definition compatibleTransports (s1 s2 : list TransportLocator) : bool :=
  existsb (fun a => existsb (fun b => bool_decide (transport_type a = transport_type b)) s2) s1.

(** A failed test: [compatible = false] and both statuses count the policy. *)
Definition check_policy (failed : bool) (id : Z) (st : bool * IncompatibleQosStatus * IncompatibleQosStatus)
    : outcome (bool * IncompatibleQosStatus * IncompatibleQosStatus) :=
  let '(compatible, ws, rs) := st in
  if failed then
    ws ← increment_incompatibility_count ws id;
    rs ← increment_incompatibility_count rs id;
    Ret (false, ws, rs)
  else Ret (compatible, ws, rs).

Definition compatible_groups (pubQos subQos : GroupQos) (ws rs : IncompatibleQosStatus)
    : outcome (bool * IncompatibleQosStatus * IncompatibleQosStatus) :=
  check_policy ((scope_no (access_scope pubQos) <? scope_no (access_scope subQos))
         || (bool_decide (coherent_access pubQos = false) && bool_decide (coherent_access subQos = true))
         || (bool_decide (ordered_access pubQos = false) && bool_decide (ordered_access subQos = true)))
    PRESENTATION_ID (true, ws, rs).

Definition compatible_endpoints (writerQos readerQos : EndpointQos) (ws rs : IncompatibleQosStatus)
    : outcome (bool * IncompatibleQosStatus * IncompatibleQosStatus) :=
  st ← check_policy (reliability_no (reliability writerQos) <? reliability_no (reliability readerQos)) RELIABILITY_ID (true, ws, rs);
  st ← check_policy (durability_no (durability writerQos) <? durability_no (durability readerQos)) DURABILITY_ID st;
  st ← check_policy ((liveliness_no (liveliness writerQos) <? liveliness_no (liveliness readerQos))
              || dur_gt (lease_duration writerQos) (lease_duration readerQos)) LIVELINESS_ID st;
  st ← check_policy (dur_gt (deadline writerQos) (deadline readerQos)) DEADLINE_ID st;
  st ← check_policy (dur_lt (latency_budget readerQos) (latency_budget writerQos)) LATENCYBUDGET_ID st;
  check_policy (negb (ownership_no (ownership writerQos) =? ownership_no (ownership readerQos))) OWNERSHIP_ID st.

(** ** Partitions *)

Definition is_wild (c : ascii) : bool := bool_decide (c ∈ ["?"; "*"; "["]%char).

(** [strcspn(str, "?*[")]. *)
Fixpoint strcspn (str : cstring) : nat :=
  match str with
  | [] => 0
  | c :: rest => if is_wild c then 0 else S (strcspn rest)
  end.

Fixpoint is_wildcard_loop (fuel : nat) (str : cstring) : outcome bool :=
  match fuel with
  | O => Fuel
  | S fuel =>
      match str with
      | [] => Ret false
      | _ :: _ =>
          let i := strcspn str in
          match str !! i with
          | None => Ret false
          | Some _ =>
              if (0 <? i)%nat && bool_decide (str !! (i - 1)%nat = Some "\"%char)
              then is_wildcard_loop fuel (drop (i + 1) str)
              else Ret true
          end
      end
  end.
Definition is_wildcard (str : cstring) : outcome bool := is_wildcard_loop (S (length str)) str.

Section partitions.

(** [ACE::wild_match(str, pattern, true, true)]. *)
Context (wild_match : cstring -> cstring -> bool).

(** [PartitionName::matches], the receiver first. *)
Definition matches (name n : cstring) : outcome bool :=
  wildcard ← is_wildcard name;
  n_wildcard ← is_wildcard n;
  Ret (if wildcard && n_wildcard then false
       else if wildcard then wild_match n name
       else if n_wildcard then wild_match name n
       else bool_decide (name = n)).

Fixpoint matches_name (qos : list cstring) (name : cstring) : outcome bool :=
  match qos with
  | [] => Ret false
  | q :: qos => b ← matches q name; if (b : bool) then Ret true else matches_name qos name
  end.

Definition matches_default (qos : list cstring) : bool :=
  (length qos =? 0)%nat || existsb (fun q => (length q =? 0)%nat) qos.

(** The loop of [matching_partitions]. *)
Fixpoint some_name_matches (pub sub : list cstring) : outcome bool :=
  match pub with
  | [] => Ret false
  | name :: pub => b ← matches_name sub name; if (b : bool) then Ret true else some_name_matches pub sub
  end.

Definition matching_partitions (pub sub : list cstring) : outcome bool :=
  if matches_default pub then
    if matches_default sub then Ret true
    else if (length pub =? 0)%nat then matches_name sub []
    else some_name_matches pub sub
  else some_name_matches pub sub.

Definition compatibleQOS (ws rs : IncompatibleQosStatus) (pubTLS subTLS : list TransportLocator)
    (writerQos readerQos : EndpointQos) (pubQos subQos : GroupQos)
    : outcome (bool * IncompatibleQosStatus * IncompatibleQosStatus) :=
  '(compatible, ws, rs) ← check_policy (negb (compatibleTransports pubTLS subTLS)) TRANSPORTTYPE_ID (true, ws, rs);
  '(compatible, ws, rs) ← (if (compatible : bool) then compatible_endpoints writerQos readerQos ws rs else Ret (false, ws, rs));
  '(compatible, ws, rs) ← (if (compatible : bool) then compatible_groups pubQos subQos ws rs else Ret (false, ws, rs));
  compatible ← (if (compatible : bool) then matching_partitions (partition pubQos) (partition subQos) else Ret false);
  Ret (compatible, ws, rs).

End partitions.

(** [should_check_association_upon_change] for endpoints and for groups. *)
Definition endpoint_change_checked (qos1 qos2 : EndpointQos) : bool :=
  negb (dur_eq (deadline qos1) (deadline qos2) && dur_eq (latency_budget qos1) (latency_budget qos2)).
Definition group_change_checked (qos1 qos2 : GroupQos) : bool :=
  negb (bool_decide (partition qos1 = partition qos2)).

(** ** Durations are compared as times *)

(** The infinite duration is above every other. *)
Definition dur_value (t : Duration) : Z :=
  if dur_eq t DURATION_INFINITY then 2 ^ 63 else dur_sec t * 1000000000 + dur_nanosec t.
Definition dur_ok (t : Duration) : Prop :=
  is_s 32 (dur_sec t) /\ (0 <= dur_nanosec t < 1000000000 \/ t = DURATION_INFINITY).

Lemma dur_eq_spec t1 t2 : dur_eq t1 t2 = true <-> t1 = t2.
Proof.
  unfold dur_eq. split.
  - intros H. bool_hyps. destruct t1, t2; cbn in *; congruence.
  - intros ->. by rewrite !Z.eqb_refl.
Qed.

Lemma dur_value_bound t : dur_ok t -> t <> DURATION_INFINITY ->
  dur_value t = dur_sec t * 1000000000 + dur_nanosec t /\ dur_value t < 2 ^ 63 /\ 0 <= dur_nanosec t < 1000000000.
Proof.
  intros [H1 H2] Hne. unfold dur_value.
  destruct (dur_eq t DURATION_INFINITY) eqn:E; [by apply dur_eq_spec in E|].
  destruct H2 as [H2|]; [|done]. unfold is_s in H1. lia.
Qed.

Lemma dur_lt_spec t1 t2 : dur_ok t1 -> dur_ok t2 -> dur_lt t1 t2 = (dur_value t1 <? dur_value t2).
Proof.
  intros H1 H2. unfold dur_lt, dur_ne.
  destruct (dur_eq t1 DURATION_INFINITY) eqn:E1; cbn [negb andb].
  - apply dur_eq_spec in E1 as ->. symmetry. apply Z.ltb_ge.
    destruct (dur_eq t2 DURATION_INFINITY) eqn:E2; [by apply dur_eq_spec in E2 as ->|].
    destruct (dur_value_bound t2) as (_ & B & _); [done| |change (dur_value DURATION_INFINITY) with (2 ^ 63); lia].
    intros ->. done.
  - destruct (dur_value_bound t1) as (V1 & B1 & N1); [done| |].
    { intros ->. done. }
    destruct (dur_eq t2 DURATION_INFINITY) eqn:E2; cbn [orb].
    { apply dur_eq_spec in E2 as ->. symmetry. apply Z.ltb_lt. done. }
    destruct (dur_value_bound t2) as (V2 & B2 & N2); [done| |].
    { intros ->. done. }
    rewrite V1, V2. apply eq_true_iff_eq. rewrite orb_true_iff, andb_true_iff, !Z.ltb_lt, Z.eqb_eq. lia.
Qed.

(** ** Wildcards *)

(** A wildcard character that no backslash precedes. *)
Fixpoint unescaped (after_backslash : bool) (str : cstring) : bool :=
  match str with
  | [] => false
  | c :: rest => (is_wild c && negb after_backslash) || unescaped (bool_decide (c = "\"%char)) rest
  end.

Lemma strcspn_spec str :
  Forall (fun c => is_wild c = false) (take (strcspn str) str)
  /\ match str !! strcspn str with Some c => is_wild c = true | None => strcspn str = length str end.
Proof.
  induction str as [|c str [IH1 IH2]]; [done|]. cbn [strcspn]. destruct (is_wild c) eqn:E; [done|].
  split; [by constructor|]. rewrite lookup_cons_ne_0 by done. cbn [pred length].
  destruct (str !! strcspn str); [done|lia].
Qed.

Lemma unescaped_skip l rest b : Forall (fun c => is_wild c = false) l ->
  unescaped b (l ++ rest) = unescaped (if last l is Some c then bool_decide (c = "\"%char) else b) rest.
Proof.
  intros Hl. revert b. induction Hl as [|c l Hc _ IH]; intros b; [done|].
  cbn [app unescaped]. rewrite Hc. cbn [andb orb]. rewrite IH. destruct l; [done|].
  destruct (last_cons_default a l) as [y Hy]. change (last (c :: a :: l)) with (last (a :: l)). by rewrite Hy.
Qed.

Lemma unescaped_none str b : Forall (fun c => is_wild c = false) str -> unescaped b str = false.
Proof. intros H. rewrite <- (app_nil_r str). by rewrite unescaped_skip. Qed.

Lemma last_take_pred (str : cstring) i c : str !! i = Some c -> (0 < i)%nat -> last (take i str) = str !! (i - 1)%nat.
Proof.
  intros H Hi. pose proof (lookup_lt_Some _ _ _ H). rewrite last_lookup, length_take.
  rewrite lookup_take_lt by lia. f_equal. lia.
Qed.

Lemma is_wildcard_loop_spec fuel str : (length str < fuel)%nat -> is_wildcard_loop fuel str = Ret (unescaped false str).
Proof.
  revert str. induction fuel as [|fuel IH]; intros str Hf; [lia|]. cbn [is_wildcard_loop].
  destruct str as [|c0 str0] eqn:Estr; [done|]. rewrite <- Estr in *. clear c0 str0 Estr.
  destruct (strcspn_spec str) as [Hl Hi]. set (i := strcspn str) in *.
  destruct (str !! i) as [c|] eqn:Ei.
  2:{ rewrite Hi, firstn_all in Hl. by rewrite unescaped_none. }
  rewrite <- (take_drop i str) at 4. rewrite (drop_S _ _ _ Ei), unescaped_skip by done. cbn [unescaped].
  destruct (Nat.ltb_spec 0 i); cbn [andb].
  - erewrite last_take_pred by done. destruct (str !! (i - 1)%nat) as [d|] eqn:Ed.
    2:{ apply lookup_ge_None in Ed. apply lookup_lt_Some in Ei. lia. }
    rewrite Hi. destruct (decide (d = "\"%char)) as [->|Hd].
    + rewrite !bool_decide_eq_true_2 by done. cbn [negb andb orb].
      assert (c <> "\"%char) as Hc by (intros ->; done). rewrite bool_decide_eq_false_2 by done.
      rewrite Nat.add_1_r. apply IH. apply lookup_lt_Some in Ei. rewrite length_drop. lia.
    + rewrite !bool_decide_eq_false_2 by congruence. done.
  - replace i with 0%nat by lia. cbn. by rewrite Hi.
Qed.

Lemma is_wildcard_spec str : is_wildcard str = Ret (unescaped false str).
Proof. apply is_wildcard_loop_spec. lia. Qed.

Lemma unescaped_index b str :
  unescaped b str = true <->
  exists i c, str !! i = Some c /\ is_wild c = true
    /\ (if i is S j then str !! j <> Some "\"%char else b = false).
Proof.
  revert b. induction str as [|d str IH]; intros b; cbn [unescaped].
  { split; [done|]. by intros (i & c & H & _). }
  rewrite orb_true_iff, andb_true_iff, negb_true_iff, IH. split.
  - intros [[H1 H2]|(i & c & H1 & H2 & H3)]; [by exists 0%nat, d|].
    exists (S i), c. split; [done|]. split; [done|].
    destruct i as [|j]; [|done]. apply bool_decide_eq_false in H3. cbn. congruence.
  - intros ([|i] & c & H1 & H2 & H3); [left; by simplify_eq/=|]. right.
    exists i, c. split; [done|]. split; [done|]. destruct i as [|j]; [|done].
    apply bool_decide_eq_false. intros ->. done.
Qed.

(** a name is a pattern exactly when it holds one of the characters [?],
    [*] and [[] that is not directly preceded by a backslash; the scan of the
    string always ends. *)
Theorem is_wildcard_correct (str : cstring) :
  exists b, is_wildcard str = Ret b /\
  (b = true <-> exists i c, str !! i = Some c /\ is_wild c = true
     /\ (if i is S j then str !! j <> Some "\"%char else True)).
Proof.
  exists (unescaped false str). split; [apply is_wildcard_spec|].
  rewrite unescaped_index. by split; intros ([|i] & c & ? & ? & ?); [exists 0%nat|exists (S i)|exists 0%nat|exists (S i)]; exists c.
Qed.

(** ** Partitions *)

Section matching.

Context (wild_match : cstring -> cstring -> bool).

(** Two names match: a pattern and a name it covers, or equal names. *)
Definition name_match (a b : cstring) : bool :=
  if unescaped false a && unescaped false b then false
  else if unescaped false a then wild_match b a
  else if unescaped false b then wild_match a b
  else bool_decide (a = b).

(** No names mean the default partition, whose name is empty. *)
Definition effective (qos : list cstring) : list cstring := if qos is [] then [[]] else qos.

Lemma matches_spec a b : matches wild_match a b = Ret (name_match a b).
Proof. unfold matches. by rewrite !is_wildcard_spec. Qed.

Lemma name_match_comm a b : name_match a b = name_match b a.
Proof.
  unfold name_match. destruct (unescaped false a), (unescaped false b); try done. apply bool_decide_ext. by split.
Qed.

Lemma matches_name_spec qos name :
  matches_name wild_match qos name = Ret (existsb (fun q => name_match q name) qos).
Proof.
  induction qos as [|q qos IH]; [done|]. cbn [matches_name existsb]. rewrite matches_spec.
  cbn [mbind outcome_bind]. by destruct (name_match q name).
Qed.

Lemma some_name_matches_spec pub sub :
  some_name_matches wild_match pub sub = Ret (existsb (fun p => existsb (fun q => name_match q p) sub) pub).
Proof.
  induction pub as [|p pub IH]; [done|]. cbn [some_name_matches existsb]. rewrite matches_name_spec.
  cbn [mbind outcome_bind]. by destruct (existsb _ sub).
Qed.

Lemma matches_default_spec qos : matches_default qos = true <-> [] ∈ effective qos.
Proof.
  unfold matches_default. rewrite orb_true_iff, existsb_exists, Nat.eqb_eq. split.
  - intros [H|(q & H1 & H2)]; [destruct qos; [cbn; set_solver|done]|].
    apply Nat.eqb_eq in H2. destruct q; [|done]. apply list_elem_of_In in H1. destruct qos; set_solver.
  - intros H. destruct qos as [|q qos]; [by left|]. right. exists []. split; [by apply list_elem_of_In|done].
Qed.

Lemma some_match_spec pub sub :
  existsb (fun p => existsb (fun q => name_match q p) sub) pub = true <->
  exists p s, p ∈ pub /\ s ∈ sub /\ name_match p s = true.
Proof.
  rewrite existsb_exists. split.
  - intros (p & H1 & H2). apply existsb_exists in H2 as (s & H2 & H3). exists p, s.
    rewrite name_match_comm, !list_elem_of_In. done.
  - intros (p & s & H1 & H2 & H3). exists p. split; [by apply list_elem_of_In|]. apply existsb_exists.
    exists s. rewrite name_match_comm. split; [by apply list_elem_of_In|done].
Qed.

(** C28: against a subscriber that names partitions, a publisher matches exactly
    when one of its names matches one of the subscriber's, where no names stand
    for the one empty name; against a subscriber without names the publisher has
    to be in the default partition itself.  The two readings differ: with a
    matcher that lets [*] cover the empty name, the publisher partition [*] does
    not match a subscriber without names, although it matches a subscriber with
    the empty name and although a publisher without names matches the subscriber
    partition [*]. *)
Theorem matching_partitions_correct :
  (forall pub sub, exists b, matching_partitions wild_match pub sub = Ret b /\
     (b = true <-> if sub is [] then [] ∈ effective pub
                   else exists p s, p ∈ effective pub /\ s ∈ sub /\ name_match p s = true))
  /\ (wild_match [] ["*"%char] = true ->
      matching_partitions wild_match [["*"%char]] [] = Ret false
      /\ matching_partitions wild_match [["*"%char]] [[]] = Ret true
      /\ matching_partitions wild_match [] [["*"%char]] = Ret true).
Proof.
  split.
  2:{ intros H. split; [done|]. cbn. by rewrite H. }
  intros pub sub. unfold matching_partitions. rewrite matches_name_spec, some_name_matches_spec.
  set (found := existsb (fun p => existsb (fun q => name_match q p) sub) (effective pub)).
  exists (if matches_default pub && matches_default sub then true else found). split.
  - destruct (matches_default pub) eqn:Hp; [|by destruct pub]. destruct (matches_default sub); [done|].
    destruct pub; [|done]. cbn. by rewrite orb_false_r.
  - assert (found = true <-> exists p s, p ∈ effective pub /\ s ∈ sub /\ name_match p s = true) as Hf by apply some_match_spec.
    assert (matches_default pub && matches_default sub = true <-> [] ∈ effective pub /\ [] ∈ effective sub) as Hd.
    { by rewrite andb_true_iff, !matches_default_spec. }
    destruct (matches_default pub && matches_default sub); destruct sub as [|s sub]; cbn [effective] in *; try (rewrite Hf); set_solver.
Qed.

End matching.

Lemma matching_partitions_correct_witness :
  let any_star := fun str pattern => bool_decide (pattern = ["*"%char]) || bool_decide (str = pattern) in
  any_star [] ["*"%char] = true /\ matching_partitions any_star [["*"%char]] [] = Ret false.
Proof.
  split; [done|]. apply (proj2 (matching_partitions_correct (fun str pattern => bool_decide (pattern = ["*"%char]) || bool_decide (str = pattern)))). done.
Defined.

(** ** Requested versus offered *)

(** The recorded number of failures of a policy. *)
Fixpoint count_of (id : Z) (ps : list QosPolicyCount) : Z :=
  match ps with
  | [] => 0
  | p :: ps => if policy_id p =? id then count p else count_of id ps
  end.

Definition times (id : Z) (ids : list Z) : Z := Z.of_nat (count_occ Z.eq_dec ids id).

(** [n] more failures can be counted without overflow. *)
Definition room (n : Z) (st : IncompatibleQosStatus) : Prop :=
  total_count st + n <= 2147483647 /\ count_since_last_send st + n <= 2147483647
  /\ (forall id, count_of id (policies st) + n <= 2147483647) /\ NoDup (policy_id <$> policies st).

(** The failures [ids] were added to the record, in order. *)
Definition noted (ids : list Z) (st st' : IncompatibleQosStatus) : Prop :=
  total_count st' = total_count st + Z.of_nat (length ids)
  /\ count_since_last_send st' = count_since_last_send st + Z.of_nat (length ids)
  /\ last_policy_id st' = default (last_policy_id st) (last ids)
  /\ forall id, count_of id (policies st') = count_of id (policies st) + times id ids.

Lemma times_app id l1 l2 : times id (l1 ++ l2) = times id l1 + times id l2.
Proof. unfold times. rewrite count_occ_app. lia. Qed.

Lemma noted_nil st : noted [] st st.
Proof. unfold noted, times. cbn. repeat split; intros; lia. Qed.

Lemma noted_app ids1 ids2 st1 st2 st3 : noted ids1 st1 st2 -> noted ids2 st2 st3 -> noted (ids1 ++ ids2) st1 st3.
Proof.
  intros (A1 & A2 & A3 & A4) (B1 & B2 & B3 & B4). unfold noted. rewrite length_app.
  repeat split; [lia|lia| |intros id; rewrite B4, A4, times_app; lia].
  rewrite B3, A3, last_app. by destruct (last ids2).
Qed.

Lemma count_policy_spec id ps :
  (forall i, count_of i ps < 2147483647) -> NoDup (policy_id <$> ps) ->
  exists ps', count_policy id ps = Ret ps' /\ NoDup (policy_id <$> ps')
    /\ (forall i, count_of i ps' = count_of i ps + times i [id])
    /\ (forall i, i ∈ policy_id <$> ps' -> i = id \/ i ∈ policy_id <$> ps).
Proof.
  unfold times. induction ps as [|p ps IH]; intros Hc Hn; cbn [count_policy].
  { eexists. split; [done|]. cbn. split; [apply NoDup_singleton|]. split; [|set_solver].
    intros i. destruct (Z.eqb_spec id i), (Z.eq_dec id i); lia. }
  cbn in Hn. apply NoDup_cons in Hn as [Hp Hn]. destruct (Z.eqb_spec (policy_id p) id) as [E|E].
  - pose proof (Hc id) as Hi. cbn in Hi. rewrite (proj2 (Z.eqb_eq _ _) E) in Hi. unfold incr.
    rewrite (proj2 (Z.ltb_lt _ _)) by lia. cbn [mbind outcome_bind]. eexists. split; [done|]. cbn.
    split; [by apply NoDup_cons|]. split; [|set_solver]. intros i.
    destruct (Z.eqb_spec (policy_id p) i), (Z.eq_dec id i); try lia; congruence.
  - destruct IH as (ps' & E' & N' & C' & S'); [|done|].
    { intros i. destruct (Z.eqb_spec (policy_id p) i) as [Ei|Ei]; [|by specialize (Hc i); cbn in Hc; rewrite (proj2 (Z.eqb_neq _ _) Ei) in Hc].
      assert (count_of i ps = 0) as ->; [|lia]. subst i. clear - Hp. induction ps as [|q ps IH]; [done|]. cbn in *.
      destruct (Z.eqb_spec (policy_id q) (policy_id p)); [set_solver|]. apply IH. set_solver. }
    rewrite E'. cbn [mbind outcome_bind]. eexists. split; [done|]. cbn. split; [|split; [|set_solver]].
    + apply NoDup_cons. split; [|done]. intros Hin. destruct (S' _ Hin); congruence.
    + intros i. destruct (Z.eqb_spec (policy_id p) i) as [Ei|Ei]; [|apply C'].
      destruct (Z.eq_dec id i); [congruence|]. lia.
Qed.

Lemma increment_spec n id st : 0 <= n -> room (1 + n) st ->
  exists st', increment_incompatibility_count st id = Ret st' /\ noted [id] st st' /\ room n st'.
Proof.
  intros Hn (R1 & R2 & R3 & R4). unfold increment_incompatibility_count, incr.
  rewrite !(proj2 (Z.ltb_lt _ _)) by lia. cbn [mbind outcome_bind].
  destruct (count_policy_spec id (policies st)) as (ps' & E & N & C & _); [intros i; specialize (R3 i); lia|done|].
  rewrite E. cbn [mbind outcome_bind]. eexists. split; [done|]. unfold noted, room. cbn.
  repeat split; try lia; [exact C| |exact N]. intros i. rewrite C. specialize (R3 i).
  assert (times i [id] <= 1); [|lia]. unfold times. cbn. destruct (Z.eq_dec id i); lia.
Qed.

Lemma check_policy_spec n failed id b ws rs : 0 <= n -> room (1 + n) ws -> room (1 + n) rs ->
  exists ws' rs', check_policy failed id (b, ws, rs) = Ret (b && negb failed, ws', rs')
    /\ noted (if failed then [id] else []) ws ws' /\ noted (if failed then [id] else []) rs rs'
    /\ room n ws' /\ room n rs'.
Proof.
  intros Hn Hw Hr. unfold check_policy. destruct failed.
  - destruct (increment_spec n id ws) as (ws' & E1 & N1 & R1); [done..|].
    destruct (increment_spec n id rs) as (rs' & E2 & N2 & R2); [done..|].
    rewrite E1. cbn [mbind outcome_bind]. rewrite E2. cbn [mbind outcome_bind negb]. rewrite andb_false_r. eauto 10.
  - exists ws, rs. cbn [negb]. rewrite andb_true_r. split; [done|]. split; [apply noted_nil|]. split; [apply noted_nil|].
    destruct Hw as (W1 & W2 & W3 & W4), Hr as (Q1 & Q2 & Q3 & Q4).
    split; (split; [lia|]; split; [lia|]; split; [|done]); intros i; [specialize (W3 i)|specialize (Q3 i)]; lia.
Qed.

(** The policies an endpoint's offer fails, and those of the groups, in the
    order they are tested; durations compare as times. *)
Definition offence (failed : bool) (id : Z) : list Z := if failed then [id] else [].
Definition endpoint_offences (w r : EndpointQos) : list Z :=
  offence (reliability_no (reliability w) <? reliability_no (reliability r)) RELIABILITY_ID
  ++ offence (durability_no (durability w) <? durability_no (durability r)) DURABILITY_ID
  ++ offence ((liveliness_no (liveliness w) <? liveliness_no (liveliness r))
              || (dur_value (lease_duration r) <? dur_value (lease_duration w))) LIVELINESS_ID
  ++ offence (dur_value (deadline r) <? dur_value (deadline w)) DEADLINE_ID
  ++ offence (dur_value (latency_budget r) <? dur_value (latency_budget w)) LATENCYBUDGET_ID
  ++ offence (negb (ownership_no (ownership w) =? ownership_no (ownership r))) OWNERSHIP_ID.
Definition group_offences (p s : GroupQos) : list Z :=
  offence ((scope_no (access_scope p) <? scope_no (access_scope s))
           || (negb (coherent_access p) && coherent_access s) || (negb (ordered_access p) && ordered_access s)) PRESENTATION_ID.

(** What a failed association reports: the transports alone, else the endpoint
    policies alone, else the presentation. *)
Definition reported (pubTLS subTLS : list TransportLocator) (w r : EndpointQos) (p s : GroupQos) : list Z :=
  if decide (Exists (fun a => Exists (fun b => transport_type a = transport_type b) subTLS) pubTLS)
  then match endpoint_offences w r with [] => group_offences p s | l => l end
  else [TRANSPORTTYPE_ID].

Lemma room_le n m st : m <= n -> room n st -> room m st.
Proof.
  intros Hm (R1 & R2 & R3 & R4). split; [lia|]. split; [lia|]. split; [|done]. intros i. specialize (R3 i). lia.
Qed.

Lemma offence_nil b id : b = false <-> offence b id = [].
Proof. by destruct b. Qed.

Definition durations_ok (q : EndpointQos) : Prop :=
  dur_ok (deadline q) /\ dur_ok (latency_budget q) /\ dur_ok (lease_duration q).

(** One test of the sequence, from the statuses reached so far. *)
Ltac next_check n :=
  match goal with
  | H1 : room _ ?w, H2 : room _ ?r |- context [check_policy ?f ?id (?b, ?w, ?r)] =>
      let w' := fresh "ws" in let r' := fresh "rs" in
      destruct (check_policy_spec n f id b w r) as (w' & r' & -> & ? & ? & ? & ?); [lia|exact H1|exact H2|];
      clear H1 H2; cbn [mbind outcome_bind]
  end.

Lemma compatible_endpoints_spec n w r ws rs : 0 <= n -> durations_ok w -> durations_ok r ->
  room (1 + (1 + (1 + (1 + (1 + (1 + n)))))) ws -> room (1 + (1 + (1 + (1 + (1 + (1 + n)))))) rs ->
  exists ws' rs', compatible_endpoints w r ws rs = Ret (bool_decide (endpoint_offences w r = []), ws', rs')
    /\ noted (endpoint_offences w r) ws ws' /\ noted (endpoint_offences w r) rs rs' /\ room n ws' /\ room n rs'.
Proof.
  intros Hn (D1 & D2 & D3) (E1 & E2 & E3) Hw Hr. unfold compatible_endpoints, dur_gt. rewrite !dur_lt_spec by done.
  next_check (1 + (1 + (1 + (1 + (1 + n))))). next_check (1 + (1 + (1 + (1 + n)))). next_check (1 + (1 + (1 + n))).
  next_check (1 + (1 + n)). next_check (1 + n). next_check n.
  eexists _, _. split; [f_equal; f_equal; f_equal; [|reflexivity..]|].
  2:{ split; [|split; [|by split]]; unfold endpoint_offences, offence; repeat (eapply noted_app; [eassumption|]); eassumption. }
  symmetry. apply eq_true_iff_eq. rewrite bool_decide_eq_true, !andb_true_iff, !negb_true_iff.
  unfold endpoint_offences. rewrite !app_nil, <- !offence_nil. tauto.
Qed.

Lemma compatibleTransports_spec s1 s2 : compatibleTransports s1 s2 = true <->
  Exists (fun a => Exists (fun b => transport_type a = transport_type b) s2) s1.
Proof.
  unfold compatibleTransports. rewrite existsb_exists, List.Exists_exists.
  apply exist_proper. intros a. rewrite existsb_exists, List.Exists_exists. apply and_iff_compat_l.
  apply exist_proper. intros b. by rewrite bool_decide_eq_true.
Qed.

Lemma compatible_groups_spec n p s ws rs : 0 <= n -> room (1 + n) ws -> room (1 + n) rs ->
  exists ws' rs', compatible_groups p s ws rs = Ret (bool_decide (group_offences p s = []), ws', rs')
    /\ noted (group_offences p s) ws ws' /\ noted (group_offences p s) rs rs' /\ room n ws' /\ room n rs'.
Proof.
  intros Hn Hw Hr. unfold compatible_groups, group_offences. next_check n.
  destruct (coherent_access p), (coherent_access s), (ordered_access p), (ordered_access s);
    destruct (scope_no (access_scope p) <? scope_no (access_scope s)); cbn in *; eauto 10.
Qed.

Section association.
Context (wild_match : cstring -> cstring -> bool).

Lemma compatibleQOS_spec n (ws rs : IncompatibleQosStatus) (pubTLS subTLS : list TransportLocator)
    (w r : EndpointQos) (p s : GroupQos) : 0 <= n ->
  room (8 + n) ws -> room (8 + n) rs -> durations_ok w -> durations_ok r ->
  exists b ws' rs', compatibleQOS wild_match ws rs pubTLS subTLS w r p s = Ret (b, ws', rs')
    /\ noted (reported pubTLS subTLS w r p s) ws ws' /\ noted (reported pubTLS subTLS w r p s) rs rs'
    /\ room n ws' /\ room n rs'
    /\ (b = true <-> reported pubTLS subTLS w r p s = []
                     /\ matching_partitions wild_match (partition p) (partition s) = Ret true).
Proof.
  intros Hn Hw Hr Dw Dr. unfold compatibleQOS, reported. destruct (compatibleTransports pubTLS subTLS) eqn:Ht.
  2:{ rewrite decide_False by (rewrite <- compatibleTransports_spec; congruence). cbn [negb].
      apply (room_le _ (1 + n)) in Hw, Hr; [|lia..]. next_check n. eexists _, _, _. split; [done|]. naive_solver. }
  rewrite decide_True by (by apply compatibleTransports_spec). cbn [negb check_policy mbind outcome_bind].
  destruct (compatible_endpoints_spec (2 + n) w r ws rs) as (ws1 & rs1 & -> & N1 & N2 & R1 & R2);
    [lia|done|done|eapply room_le; [|eassumption]; lia..|].
  cbn [mbind outcome_bind]. destruct (endpoint_offences w r) as [|o os] eqn:Eo.
  2:{ cbn [bool_decide mbind outcome_bind]. rewrite bool_decide_eq_false_2 by done. cbn [mbind outcome_bind].
      apply (room_le _ n) in R1, R2; [|lia..]. eexists _, _, _. split; [done|]. naive_solver. }
  rewrite bool_decide_eq_true_2 by done.
  destruct (compatible_groups_spec (1 + n) p s ws1 rs1) as (ws2 & rs2 & -> & N3 & N4 & R3 & R4);
    [lia|eapply room_le; [|eassumption]; lia..|]. cbn [mbind outcome_bind].
  apply (room_le _ n) in R3, R4; [|lia..].
  pose proof (noted_app _ _ _ _ _ N1 N3) as M1. pose proof (noted_app _ _ _ _ _ N2 N4) as M2. cbn [app] in M1, M2.
  case_bool_decide as Hg.
  - destruct (matching_partitions wild_match (partition p) (partition s)) as [b| | |] eqn:Em.
    { cbn [mbind outcome_bind]. eexists _, _, _. split; [done|]. split; [done|]. split; [done|]. naive_solver. }
    all: unfold matching_partitions in Em; rewrite matches_name_spec, some_name_matches_spec in Em; by repeat case_match.
  - cbn [mbind outcome_bind]. eexists _, _, _. split; [done|]. naive_solver.
Qed.

(** C29: a writer and a reader are associated exactly when some transport type
    is common, no endpoint policy and no presentation policy is offered below
    the request, and the partitions match; durations are compared as times with
    the infinite one on top.  Otherwise both statuses record every failed policy
    of the first group of tests that fails (transports, endpoint policies,
    presentation) once, in the order of the tests; a partition mismatch is not
    recorded. *)
Theorem compatibleQOS_correct (ws rs : IncompatibleQosStatus) (pubTLS subTLS : list TransportLocator)
    (w r : EndpointQos) (p s : GroupQos) :
  room 8 ws -> room 8 rs -> durations_ok w -> durations_ok r ->
  exists b ws' rs', compatibleQOS wild_match ws rs pubTLS subTLS w r p s = Ret (b, ws', rs')
    /\ noted (reported pubTLS subTLS w r p s) ws ws' /\ noted (reported pubTLS subTLS w r p s) rs rs'
    /\ (b = true <-> reported pubTLS subTLS w r p s = []
                     /\ matching_partitions wild_match (partition p) (partition s) = Ret true).
Proof.
  intros Hw Hr Dw Dr. destruct (compatibleQOS_spec 0 ws rs pubTLS subTLS w r p s) as (b & ws' & rs' & E & N1 & N2 & _ & _ & Hb); [done..|].
  by exists b, ws', rs'.
Qed.

End association.

Definition ex_offer (rel : ReliabilityKind) (dl : Duration) : EndpointQos :=
  mkEQ VOLATILE_DURABILITY dl (mkDur 0 0) AUTOMATIC_LIVELINESS DURATION_INFINITY rel SHARED_OWNERSHIP.
Definition ex_group : GroupQos := mkGQ INSTANCE_PRESENTATION false false [].
Definition ex_status : IncompatibleQosStatus := mkIQ 1 0 RELIABILITY_ID [mkPC RELIABILITY_ID 1].
Definition ex_tcp : list TransportLocator := [mkTL ["t"; "c"; "p"]%char []].

Lemma compatibleQOS_correct_witness :
  (room 8 ex_status /\ durations_ok (ex_offer BEST_EFFORT_RELIABILITY DURATION_INFINITY)
   /\ durations_ok (ex_offer RELIABLE_RELIABILITY (mkDur 1 500))) /\
  exists b ws' rs', compatibleQOS (fun _ _ => false) ex_status ex_status ex_tcp ex_tcp
      (ex_offer BEST_EFFORT_RELIABILITY DURATION_INFINITY) (ex_offer RELIABLE_RELIABILITY (mkDur 1 500)) ex_group ex_group
      = Ret (b, ws', rs') /\ noted [RELIABILITY_ID; DEADLINE_ID] ex_status ws'.
Proof.
  assert (room 8 ex_status) as H1.
  { split; [cbn; lia|]. split; [cbn; lia|]. split; [|apply NoDup_singleton]. intros i. cbn [ex_status policies count_of count]. destruct (policy_id _ =? i); lia. }
  assert (durations_ok (ex_offer BEST_EFFORT_RELIABILITY DURATION_INFINITY)) as H2.
  { unfold durations_ok, dur_ok, is_s. split_and!; first [by vm_compute|by right|left; by vm_compute]. }
  assert (durations_ok (ex_offer RELIABLE_RELIABILITY (mkDur 1 500))) as H3.
  { unfold durations_ok, dur_ok, is_s. split_and!; first [by vm_compute|by right|left; by vm_compute]. }
  split; [done|].
  destruct (compatibleQOS_correct (fun _ _ => false) ex_status ex_status ex_tcp ex_tcp
      (ex_offer BEST_EFFORT_RELIABILITY DURATION_INFINITY) (ex_offer RELIABLE_RELIABILITY (mkDur 1 500)) ex_group ex_group H1 H1 H2 H3)
    as (b & ws' & rs' & E & N & _).
  exists b, ws', rs'. split; [exact E|exact N].
Defined.

End Qos.
Export Qos.
