(* ===== verification/SequenceNumber.v ===== *)
(** * Sequence numbers (dds/DCPS/Definitions.h, class SequenceNumber)

    A sequence number is the pair of a signed 32-bit high word and an unsigned
    32-bit low word, as the class stores it.  [getValue] is the 64-bit number
    they denote; every comparison, the increment and the decrement of the
    class work on the two words and are related to [getValue] here.  The later
    files reason about sequence numbers only through these lemmas. *)

From S2P Require Import Prelude.

Module SequenceNumber.

Record SequenceNumber := mkSN { high_ : Z; low_ : Z }.

#[export] Instance SequenceNumber_eq_dec : EqDecision SequenceNumber.
Proof. solve_decision. Defined.

Definition LOW_BASE : Z := 4294967296.
Definition MIN_VALUE : Z := 1.
Definition MAX_VALUE : Z := 9223372036854775807.
Definition ACE_UINT32_MAX : Z := 4294967295.
Definition ACE_INT32_MAX : Z := 2147483647.

Definition getValue (s : SequenceNumber) : Z := LOW_BASE * high_ s + low_ s.

(** [SequenceNumber(Value)] and [setValue(Value)]; the C++ division truncates,
    which on the clamped (positive) argument is the floor division. *)
Definition of_value (value : Z) : SequenceNumber :=
  let value := if value <? MIN_VALUE then MIN_VALUE else value in
  mkSN (swrap 32 (value / LOW_BASE)) (uwrap 32 (value mod LOW_BASE)).

(** [setValue(ACE_INT32 high, ACE_UINT32 low)]. *)
Definition setValue (high low : Z) : SequenceNumber :=
  let s := mkSN high low in
  if getValue s <? MIN_VALUE then of_value MIN_VALUE else s.

(** [operator++]. *)
Definition next (s : SequenceNumber) : SequenceNumber :=
  if low_ s =? ACE_UINT32_MAX then
    if high_ s =? ACE_INT32_MAX then mkSN 0 1
    else mkSN (high_ s + 1) 0
  else mkSN (high_ s) (low_ s + 1).

Definition previous (s : SequenceNumber) : SequenceNumber :=
  if (low_ s =? 1) && (high_ s =? 0) then mkSN ACE_INT32_MAX ACE_UINT32_MAX
  else if low_ s =? 0 then mkSN (high_ s - 1) ACE_UINT32_MAX
  else mkSN (high_ s) (low_ s - 1).

Definition sn_lt (a b : SequenceNumber) : bool :=
  (high_ a <? high_ b) || ((high_ a =? high_ b) && (low_ a <? low_ b)).
Definition sn_eq (a b : SequenceNumber) : bool :=
  (high_ a =? high_ b) && (low_ a =? low_ b).
Definition sn_ne (a b : SequenceNumber) : bool :=
  negb (high_ a =? high_ b) || negb (low_ a =? low_ b).
Definition sn_ge (a b : SequenceNumber) : bool := negb (sn_lt a b).
Definition sn_le (a b : SequenceNumber) : bool := negb (sn_lt b a).
Definition sn_gt (a b : SequenceNumber) : bool := sn_lt b a && sn_ne a b.

Definition SEQUENCENUMBER_UNKNOWN : SequenceNumber := mkSN (-1) 0.
Definition SN_ZERO : SequenceNumber := mkSN 0 0.

(** [operator+(const SequenceNumber&, int)]. *)
Definition sn_add (a : SequenceNumber) (n : Z) : SequenceNumber := of_value (getValue a + n).

(** [SequenceRange] is the source's [typedef]. *)
Abbreviation SequenceRange := (prod SequenceNumber SequenceNumber) (only parsing).

(** ** The two words and the value *)

(** The machine ranges of the two members. *)
Definition sn_ok (s : SequenceNumber) : Prop := is_s 32 (high_ s) /\ is_u 32 (low_ s).

(** A sequence number the class calls valid: "only allows positive 64 bit
    values". *)
Definition sn_valid (s : SequenceNumber) : Prop := sn_ok s /\ MIN_VALUE <= getValue s.

Ltac sn_unfold :=
  unfold sn_valid, sn_ok, is_s, is_u, getValue, LOW_BASE, MIN_VALUE, MAX_VALUE,
    ACE_UINT32_MAX, ACE_INT32_MAX in *; cbn [high_ low_] in *;
  change (2 ^ (32 - 1)) with 2147483648 in *; change (2 ^ 32) with 4294967296 in *.

Lemma sn_valid_ok s : sn_valid s -> sn_ok s.
Proof. by intros [H _]. Qed.
#[export] Hint Resolve sn_valid_ok : dds.

Lemma getValue_bounds s : sn_ok s -> - MAX_VALUE - 1 <= getValue s <= MAX_VALUE.
Proof. intros H. sn_unfold. lia. Qed.

Lemma getValue_inj a b : sn_ok a -> sn_ok b -> getValue a = getValue b -> a = b.
Proof.
  destruct a as [ha la], b as [hb lb]. intros Ha Hb H. sn_unfold.
  assert (ha = hb) as -> by lia. f_equal. lia.
Qed.

Lemma sn_lt_value a b : sn_ok a -> sn_ok b -> sn_lt a b = (getValue a <? getValue b).
Proof.
  intros Ha Hb. apply eq_bool_prop_intro. unfold sn_lt.
  rewrite !Is_true_true, orb_true_iff, andb_true_iff, !Z.ltb_lt, Z.eqb_eq.
  sn_unfold. lia.
Qed.

Lemma sn_eq_value a b : sn_ok a -> sn_ok b -> sn_eq a b = (getValue a =? getValue b).
Proof.
  intros Ha Hb. apply eq_bool_prop_intro. unfold sn_eq.
  rewrite !Is_true_true, andb_true_iff, !Z.eqb_eq. sn_unfold. lia.
Qed.

Lemma sn_eq_true a b : sn_eq a b = true <-> a = b.
Proof.
  unfold sn_eq. rewrite andb_true_iff, !Z.eqb_eq.
  destruct a, b; cbn; naive_solver.
Qed.

Lemma sn_ne_negb a b : sn_ne a b = negb (sn_eq a b).
Proof. unfold sn_ne, sn_eq. by rewrite negb_andb. Qed.

Lemma sn_le_value a b : sn_ok a -> sn_ok b -> sn_le a b = (getValue a <=? getValue b).
Proof. intros. unfold sn_le. rewrite sn_lt_value by done. by rewrite Z.leb_antisym. Qed.

Lemma sn_ge_value a b : sn_ok a -> sn_ok b -> sn_ge a b = (getValue b <=? getValue a).
Proof. intros. unfold sn_ge. rewrite sn_lt_value by done. by rewrite Z.leb_antisym. Qed.

Lemma sn_gt_value a b : sn_ok a -> sn_ok b -> sn_gt a b = (getValue b <? getValue a).
Proof.
  intros. unfold sn_gt. rewrite sn_ne_negb, sn_eq_value, sn_lt_value by done.
  apply eq_bool_prop_intro.
  rewrite !Is_true_true, andb_true_iff, negb_true_iff, Z.eqb_neq, !Z.ltb_lt. lia.
Qed.

Lemma of_value_words v :
  v <= MAX_VALUE -> sn_valid (of_value v) /\ getValue (of_value v) = Z.max MIN_VALUE v.
Proof.
  intros Hv. unfold of_value. case_match; cbn zeta; bool_hyps.
  - rewrite Z.max_l by lia. by vm_compute.
  - assert (0 <= v / LOW_BASE <= ACE_INT32_MAX) as Hq.
    { sn_unfold. split; [apply Z.div_pos; lia|]. apply Z.lt_succ_r, Z.div_lt_upper_bound; lia. }
    pose proof (Z.mod_pos_bound v LOW_BASE).
    pose proof (Z.div_mod v LOW_BASE).
    rewrite swrap_small, uwrap_small by (sn_unfold; lia). sn_unfold. lia.
Qed.

Lemma of_value_valid v : v <= MAX_VALUE -> sn_valid (of_value v).
Proof. intros. by apply of_value_words. Qed.

Lemma getValue_of_value v : v <= MAX_VALUE -> getValue (of_value v) = Z.max MIN_VALUE v.
Proof. intros. by apply of_value_words. Qed.

Lemma of_value_getValue s : sn_valid s -> of_value (getValue s) = s.
Proof.
  intros H. pose proof (getValue_bounds s (sn_valid_ok _ H)).
  apply getValue_inj; eauto with dds.
  - apply sn_valid_ok, of_value_valid. lia.
  - rewrite getValue_of_value by lia. destruct H. lia.
Qed.

Lemma next_valid s : sn_valid s -> sn_valid (next s).
Proof.
  destruct s as [h l]. intros H. unfold next. cbn [high_ low_].
  repeat case_match; bool_hyps; sn_unfold; lia.
Qed.

Lemma getValue_next s :
  sn_ok s -> getValue (next s) = if getValue s =? MAX_VALUE then 1 else getValue s + 1.
Proof.
  destruct s as [h l]. intros H. unfold next. cbn [high_ low_].
  repeat case_match; bool_hyps; sn_unfold; lia.
Qed.

Lemma previous_ok s : sn_valid s -> sn_valid (previous s).
Proof.
  destruct s as [h l]. intros H. unfold previous. cbn [high_ low_].
  destruct ((l =? 1) && (h =? 0)) eqn:E; [bool_hyps; sn_unfold; lia|].
  apply andb_false_iff in E. rewrite !Z.eqb_neq in E.
  case_match; bool_hyps; sn_unfold; lia.
Qed.

Lemma getValue_previous s :
  sn_valid s -> getValue (previous s) = if getValue s =? 1 then MAX_VALUE else getValue s - 1.
Proof.
  destruct s as [h l]. intros H. unfold previous. cbn [high_ low_].
  destruct ((l =? 1) && (h =? 0)) eqn:E.
  { bool_hyps. subst. by vm_compute. }
  apply andb_false_iff in E. rewrite !Z.eqb_neq in E.
  repeat case_match; bool_hyps; sn_unfold; lia.
Qed.

#[export] Hint Resolve next_valid previous_ok : dds.

(** ** Properties *)

(** C16: the comparison operators of the class are the order of the 64-bit
    values the two words denote: [<], [<=], [>], [>=], [==] and [!=] on any
    two sequence numbers agree with the comparison of [getValue], and [<] is a
    strict total order. *)
Theorem comparisons_agree_with_value a b :
  sn_ok a -> sn_ok b ->
  (sn_lt a b = true <-> getValue a < getValue b) /\
  (sn_le a b = true <-> getValue a <= getValue b) /\
  (sn_gt a b = true <-> getValue a > getValue b) /\
  (sn_ge a b = true <-> getValue a >= getValue b) /\
  (sn_eq a b = true <-> getValue a = getValue b) /\
  (sn_ne a b = true <-> getValue a <> getValue b) /\
  (sn_lt a b = true \/ a = b \/ sn_lt b a = true).
Proof.
  intros Ha Hb.
  rewrite sn_ne_negb, sn_eq_value, sn_gt_value, sn_ge_value, sn_le_value, !sn_lt_value by done.
  rewrite negb_true_iff, !Z.ltb_lt, !Z.leb_le, Z.eqb_eq, Z.eqb_neq.
  repeat split; try lia.
  destruct (Z.lt_trichotomy (getValue a) (getValue b)) as [?|[?|?]];
    [left | right; left; by apply getValue_inj | right; right]; done.
Qed.

Lemma comparisons_agree_with_value_witness :
  sn_ok (mkSN 0 7) /\ (sn_lt (mkSN 0 7) (mkSN 1 0) = true <-> 7 < 4294967296).
Proof.
  assert (sn_ok (mkSN 0 7)) as H1 by (sn_unfold; lia).
  assert (sn_ok (mkSN 1 0)) as H2 by (sn_unfold; lia).
  split; [exact H1|].
  exact (proj1 (comparisons_agree_with_value (mkSN 0 7) (mkSN 1 0) H1 H2)).
Defined.

(** on valid sequence numbers the increment and the decrement are inverse
    permutations of the positive 64-bit values: [++] adds one and wraps from
    the largest value to 1, [previous] subtracts one and wraps from 1 to the
    largest value, both stay valid and each undoes the other. *)
Theorem next_previous_inverse s :
  sn_valid s ->
  sn_valid (next s) /\ sn_valid (previous s) /\
  previous (next s) = s /\ next (previous s) = s /\
  getValue (next s) = (if getValue s =? MAX_VALUE then 1 else getValue s + 1) /\
  getValue (previous s) = (if getValue s =? 1 then MAX_VALUE else getValue s - 1).
Proof.
  intros H. pose proof (next_valid s H) as Hn. pose proof (previous_ok s H) as Hp.
  pose proof (getValue_bounds s (sn_valid_ok _ H)) as Hb.
  assert (1 <= getValue s) by (by destruct H).
  assert (1 < MAX_VALUE) by (by vm_compute).
  split; [done|]. split; [done|].
  split; [|split; [|split; [by apply getValue_next, sn_valid_ok | by apply getValue_previous]]];
    apply getValue_inj; auto with dds.
  - rewrite getValue_previous, getValue_next by auto with dds. repeat case_match; bool_hyps; lia.
  - rewrite getValue_next, getValue_previous by auto with dds. repeat case_match; bool_hyps; lia.
Qed.

Lemma next_previous_inverse_witness :
  sn_valid (mkSN 0 4294967295) /\
  previous (next (mkSN 0 4294967295)) = mkSN 0 4294967295 /\
  next (mkSN 0 4294967295) = mkSN 1 0.
Proof.
  assert (sn_valid (mkSN 0 4294967295)) as H by (sn_unfold; lia).
  split; [exact H|]. split; [|reflexivity].
  exact (proj1 (proj2 (proj2 (next_previous_inverse (mkSN 0 4294967295) H)))).
Defined.

End SequenceNumber.
Export SequenceNumber.
