(* ===== verification/DisjointSequence.v ===== *)
(** * Sets of sequence numbers (dds/DCPS/DisjointSequence.{h,inl,cpp})

    The class keeps a [std::set<SequenceRange>] ordered by the upper ends of
    the ranges.  Here the set is the list of its elements in that order, an
    iterator is an index of the list and [end()] its length; a dereference of
    [end()] is [UB].  The abstraction of a list of ranges is the set of the
    64-bit values its ranges cover ([covers]). *)

From S2P Require Import Prelude SequenceNumber.

Module DisjointSequence.

(** ** Operations *)

Definition SequenceRange_LessThan (lhs rhs : SequenceRange) : bool := sn_lt lhs.2 rhs.2.

(** [std::set::lower_bound]: the first element not less than [key]. *)
Fixpoint lower_bound (seqs : list SequenceRange) (key : SequenceRange) : nat :=
  match seqs with
  | [] => 0%nat
  | r :: seqs' =>
      if SequenceRange_LessThan r key then S (lower_bound seqs' key) else 0%nat
  end.

(** [std::set::erase(first, last)]. *)
Definition set_erase (seqs : list SequenceRange) (i j : nat) : list SequenceRange :=
  take i seqs ++ drop j seqs.

(** [std::set::insert]: nothing happens when an equivalent element is there. *)
Definition set_insert (seqs : list SequenceRange) (r : SequenceRange) : list SequenceRange :=
  let i := lower_bound seqs r in
  match seqs !! i with
  | Some r' => if SequenceRange_LessThan r r' then take i seqs ++ r :: drop i seqs else seqs
  | None => seqs ++ [r]
  end.

Definition validate (range : SequenceRange) : outcome unit :=
  if sn_gt range.1 range.2 then Throw else Ret tt.

Definition ds_empty (seqs : list SequenceRange) : bool :=
  match seqs with [] => true | _ => false end.
Definition disjoint (seqs : list SequenceRange) : bool := (1 <? Z.of_nat (length seqs)).
Definition ds_reset : list SequenceRange := [].

Definition ds_low (seqs : list SequenceRange) : outcome SequenceNumber :=
  r ← deref (head seqs); Ret r.1.
Definition ds_high (seqs : list SequenceRange) : outcome SequenceNumber :=
  r ← deref (last seqs); Ret r.2.

Definition cumulative_ack (seqs : list SequenceRange) : SequenceNumber :=
  match seqs with [] => SEQUENCENUMBER_UNKNOWN | r :: _ => r.2 end.
Definition last_ack (seqs : list SequenceRange) : SequenceNumber :=
  match last seqs with None => SEQUENCENUMBER_UNKNOWN | Some r => r.1 end.

Definition contains (seqs : list SequenceRange) (value : SequenceNumber) : bool :=
  match seqs !! lower_bound seqs (of_value 0, value) with
  | Some r => sn_le r.1 value
  | None => false
  end.

(** The [for (; gap_iter != range_above; ++gap_iter)] loop of [insert_i]. *)
Fixpoint gap_loop (fuel : nat) (seqs : list SequenceRange) (range : SequenceRange)
    (gap_iter range_above : nat) (last_gap : SequenceNumber) (gaps : list SequenceRange)
    : outcome (SequenceNumber * list SequenceRange) :=
  match fuel with
  | O => Fuel
  | S fuel' =>
      if bool_decide (gap_iter = range_above) then Ret (last_gap, gaps)
      else
        g ← deref (seqs !! gap_iter);
        let in_range := of_value (Z.min (getValue (previous g.1)) (getValue range.2)) in
        gap_loop fuel' seqs range (S gap_iter) range_above g.2
          (gaps ++ [(next last_gap, in_range)])
  end.

(** The [if (gaps)] block of [insert_i]. *)
Definition collect_gaps (seqs : list SequenceRange) (range : SequenceRange)
    (range_below range_above : nat) : outcome (list SequenceRange) :=
  b ← deref (seqs !! range_below);
  let gaps := if sn_lt range.1 b.2 then [(range.1, previous b.2)] else [] in
  '(last_gap, gaps) ← gap_loop (S (length seqs)) seqs range (S range_below) range_above b.2 gaps;
  Ret (if sn_lt last_gap range.2 then gaps ++ [(next last_gap, range.2)] else gaps).

(** [insert_i]: the result is the returned flag, the new set and what was
    pushed to [gaps] (nothing when the caller passes a null pointer,
    [want_gaps = false]). *)
Definition insert_i (seqs : list SequenceRange) (range : SequenceRange) (want_gaps : bool)
    : outcome (bool * list SequenceRange * list SequenceRange) :=
  _ ← validate range;
  let range_above := lower_bound seqs range in
  if match seqs !! range_above with Some a => sn_le a.1 range.1 | None => false end
  then Ret (false, seqs, [])
  else
    let '(newRange, range_above) :=
      match seqs !! range_above with
      | Some a =>
          if sn_ge (next range.2) a.1 then ((range.1, a.2), S range_above) else (range, range_above)
      | None => (range, range_above)
      end in
    let prev := getValue range.1 - 1 in
    let range_below :=
      lower_bound seqs (of_value 1, if 0 <? prev then of_value prev else SN_ZERO) in
    match seqs !! range_below with
    | Some b =>
        let newRange := if sn_gt newRange.1 b.1 then (b.1, newRange.2) else newRange in
        gaps ← (if want_gaps then collect_gaps seqs range range_below range_above else Ret []);
        Ret (true, set_insert (set_erase seqs range_below range_above) newRange, gaps)
    | None => Ret (true, set_insert seqs newRange, [])
    end.

Definition insert_range (seqs : list SequenceRange) (range : SequenceRange)
    : outcome (bool * list SequenceRange) :=
  '(b, seqs, _) ← insert_i seqs range false; Ret (b, seqs).
Definition insert_value (seqs : list SequenceRange) (value : SequenceNumber)
    : outcome (bool * list SequenceRange) :=
  '(b, seqs, _) ← insert_i seqs (value, value) false; Ret (b, seqs).
Definition insert_gaps (seqs : list SequenceRange) (range : SequenceRange)
    : outcome (bool * list SequenceRange * list SequenceRange) := insert_i seqs range true.

Fixpoint missing_loop (prev : SequenceRange) (rest : list SequenceRange) : list SequenceRange :=
  match rest with
  | [] => []
  | r :: rest' =>
      let missingLow := next prev.2 in
      let missingHigh := previous r.1 in
      (if sn_le missingLow missingHigh then [(missingLow, missingHigh)] else [])
        ++ missing_loop r rest'
  end.

Definition missing_sequence_ranges (seqs : list SequenceRange) : list SequenceRange :=
  if disjoint seqs then
    match seqs with [] => [] | r :: rest => missing_loop r rest end
  else [].

Definition present_sequence_ranges (seqs : list SequenceRange) : list SequenceRange := seqs.

(** ** The set a list of ranges stands for *)

Definition in_range (v : Z) (r : SequenceRange) : Prop := getValue r.1 <= v <= getValue r.2.
Definition covers (seqs : list SequenceRange) (v : Z) : Prop := Exists (in_range v) seqs.

(** The invariant: valid bounds, each range non-empty, and at least one missing
    value between consecutive ranges.  [lo] bounds the first range from below,
    [hi] is the largest value a range may reach; it is below [MAX_VALUE], at
    which the increment of the class wraps. *)
Definition range_ok (r : SequenceRange) : Prop :=
  sn_valid r.1 /\ sn_valid r.2 /\ getValue r.1 <= getValue r.2 < MAX_VALUE.

Fixpoint wf_from (lo : Z) (seqs : list SequenceRange) : Prop :=
  match seqs with
  | [] => True
  | r :: seqs' => range_ok r /\ lo < getValue r.1 /\ wf_from (getValue r.2 + 1) seqs'
  end.
Definition wf (seqs : list SequenceRange) : Prop := wf_from 0 seqs.

(** ** Lemmas on the invariant *)

Lemma range_ok_fst r : range_ok r -> sn_ok r.1.
Proof. intros (?&?&?). by apply sn_valid_ok. Qed.
Lemma range_ok_snd r : range_ok r -> sn_ok r.2.
Proof. intros (?&?&?). by apply sn_valid_ok. Qed.
#[export] Hint Resolve range_ok_fst range_ok_snd : dds.

Fixpoint top (lo : Z) (seqs : list SequenceRange) : Z :=
  match seqs with [] => lo | r :: seqs' => top (getValue r.2 + 1) seqs' end.

Lemma wf_from_app lo l1 l2 :
  wf_from lo (l1 ++ l2) <-> wf_from lo l1 /\ wf_from (top lo l1) l2.
Proof.
  revert lo. induction l1 as [|r l1 IH]; intros lo; cbn; [tauto|].
  rewrite IH. tauto.
Qed.

Lemma wf_from_weaken lo lo' seqs : lo' <= lo -> wf_from lo seqs -> wf_from lo' seqs.
Proof. destruct seqs; cbn; [done|]. intros ? (?&?&?). split_and!; [done|lia|done]. Qed.

Lemma wf_from_ok lo seqs : wf_from lo seqs -> Forall range_ok seqs.
Proof.
  revert lo. induction seqs as [|r seqs IH]; intros lo; cbn; [constructor|].
  intros (? & _ & ?). constructor; [done|]. by eapply IH.
Qed.

Lemma wf_from_above lo seqs :
  wf_from lo seqs -> Forall (fun r => lo < getValue r.1) seqs.
Proof.
  revert lo. induction seqs as [|r seqs IH]; intros lo; cbn; [constructor|].
  intros (Hr & Hlo & Hw). constructor; [done|].
  eapply Forall_impl; [exact (IH _ Hw)|]. destruct Hr as (_&_&?). cbn. intros; lia.
Qed.

(** Where the lists of [lower_bound] split. *)
Definition head_ge (v : Z) (seqs : list SequenceRange) : Prop :=
  match seqs with [] => True | r :: _ => v <= getValue r.2 end.

Lemma lower_bound_split seqs key :
  Forall range_ok seqs -> sn_ok key.2 ->
  exists l1 l2, seqs = l1 ++ l2 /\ lower_bound seqs key = length l1 /\
    Forall (fun r => getValue r.2 < getValue key.2) l1 /\ head_ge (getValue key.2) l2.
Proof.
  intros Hs Hk. induction Hs as [|r seqs Hr Hs IH]; [exists [], []; done|].
  cbn [lower_bound]. unfold SequenceRange_LessThan.
  rewrite sn_lt_value by auto with dds.
  destruct (Z.ltb_spec (getValue r.2) (getValue key.2)).
  - destruct IH as (l1 & l2 & -> & -> & ? & ?). exists (r :: l1), l2. auto.
  - exists [], (r :: seqs). auto.
Qed.

Lemma lower_bound_app l1 l2 key :
  Forall range_ok (l1 ++ l2) -> sn_ok key.2 ->
  Forall (fun r => getValue r.2 < getValue key.2) l1 -> head_ge (getValue key.2) l2 ->
  lower_bound (l1 ++ l2) key = length l1.
Proof.
  intros Hok Hk H1 H2. induction H1 as [|r l1 Hr H1 IH]; cbn in Hok |- *.
  - destruct l2 as [|r l2]; [done|]. inversion Hok; subst. cbn in *.
    unfold SequenceRange_LessThan. rewrite sn_lt_value by auto with dds.
    by rewrite (proj2 (Z.ltb_ge _ _)).
  - inversion Hok; subst. unfold SequenceRange_LessThan.
    rewrite sn_lt_value by auto with dds.
    rewrite (proj2 (Z.ltb_lt _ _)) by done. by rewrite IH.
Qed.

Lemma covers_app l1 l2 v : covers (l1 ++ l2) v <-> covers l1 v \/ covers l2 v.
Proof. unfold covers. by rewrite Exists_app. Qed.

Lemma covers_cons r l v : covers (r :: l) v <-> in_range v r \/ covers l v.
Proof. unfold covers. by rewrite Exists_cons. Qed.

Lemma covers_above lo seqs v : wf_from lo seqs -> covers seqs v -> lo < v.
Proof.
  intros Hw Hc. apply wf_from_above in Hw. unfold covers in Hc.
  apply Exists_exists in Hc as (r & Hin & Hr).
  rewrite Forall_forall in Hw. specialize (Hw r Hin). unfold in_range in Hr. cbn in Hw. lia.
Qed.

Lemma covers_below lo seqs b v :
  wf_from lo seqs -> Forall (fun r => getValue r.2 < b) seqs -> covers seqs v -> v < b.
Proof.
  intros _ Hw Hc. unfold covers in Hc. apply Exists_exists in Hc as (r & Hin & Hr).
  rewrite Forall_forall in Hw. specialize (Hw r Hin). unfold in_range in Hr. cbn in Hw. lia.
Qed.

Lemma top_le lo seqs : wf_from lo seqs -> lo <= top lo seqs.
Proof.
  revert lo. induction seqs as [|x seqs IH]; intros lo Hw; cbn; [lia|].
  destruct Hw as ((_&_&?) & ? & Hw). specialize (IH _ Hw). lia.
Qed.

Lemma covers_top lo seqs v : wf_from lo seqs -> covers seqs v -> v < top lo seqs.
Proof.
  revert lo. induction seqs as [|r seqs IH]; intros lo Hw Hc; [by apply Exists_nil in Hc|].
  cbn in *. destruct Hw as (Hr & Hlo & Hw). rewrite covers_cons in Hc. unfold in_range in Hc.
  destruct Hc as [Hc|Hc]; [pose proof (top_le _ _ Hw); lia | by apply IH].
Qed.

Lemma set_insert_app l1 l2 r :
  Forall range_ok (l1 ++ l2) -> range_ok r ->
  Forall (fun x => getValue x.2 < getValue r.2) l1 ->
  match l2 with [] => True | x :: _ => getValue r.2 < getValue x.2 end ->
  set_insert (l1 ++ l2) r = l1 ++ r :: l2.
Proof.
  intros Hok Hr H1 H2. unfold set_insert.
  assert (sn_ok r.2) by auto with dds.
  rewrite (lower_bound_app l1 l2 r); auto.
  2: { destruct l2; [done|]. cbn. lia. }
  rewrite lookup_app_r, Nat.sub_diag by lia. destruct l2 as [|x l2]; cbn; [by rewrite app_nil_r|].
  unfold SequenceRange_LessThan. rewrite sn_lt_value.
  2: done.
  2: { apply Forall_app in Hok as [_ Hok]. inversion Hok; subst. auto with dds. }
  rewrite (proj2 (Z.ltb_lt _ _)) by done.
  by rewrite take_app_length, drop_app_length.
Qed.

(** ** Insertion of a range *)

Definition head_gt (v : Z) (seqs : list SequenceRange) : Prop :=
  match seqs with [] => True | r :: _ => v < getValue r.1 end.

Lemma wf_from_head_gt lo lo' seqs : head_gt lo' seqs -> wf_from lo seqs -> wf_from lo' seqs.
Proof. destruct seqs; cbn; [done|]. tauto. Qed.

Lemma Forall_wf_top lo (b : Z) seqs :
  Forall (fun r => getValue r.2 < b) seqs -> lo <= b -> top lo seqs <= b.
Proof.
  revert lo. induction seqs as [|r seqs IH]; intros lo H ?; cbn; [lia|].
  inversion H; subst. apply IH; [done|lia].
Qed.

Lemma head_ge_Forall lo v seqs :
  wf_from lo seqs -> head_ge v seqs -> Forall (fun r => v <= getValue r.2) seqs.
Proof.
  destruct seqs as [|r seqs]; [constructor|]. cbn. intros (Hr & _ & Hw) Hv.
  constructor; [done|]. pose proof (wf_from_above _ _ Hw) as Ha. apply wf_from_ok in Hw.
  rewrite Forall_forall in Ha, Hw |- *. intros x Hx. specialize (Ha x Hx).
  destruct (Hw x Hx) as (_&_&?). cbn in *. lia.
Qed.

(** Both binary searches of [insert_i] together cut the set in three: the
    ranges too low to touch [range] widened by one on the left, those that end
    inside it, and those that end at or above its end. *)
Lemma insert_split seqs range :
  wf seqs -> range_ok range ->
  exists A M R, seqs = A ++ M ++ R /\
    lower_bound seqs range = length (A ++ M) /\
    lower_bound seqs (of_value 1,
      if 0 <? getValue range.1 - 1 then of_value (getValue range.1 - 1) else SN_ZERO) = length A /\
    Forall (fun r => getValue r.2 < getValue range.1 - 1) A /\
    Forall (fun r => getValue range.1 - 1 <= getValue r.2 < getValue range.2) M /\
    head_ge (getValue range.2) R /\ head_ge (getValue range.1 - 1) (M ++ R).
Proof.
  intros Hw Hr. pose proof (wf_from_ok _ _ Hw) as Hok.
  set (key := if 0 <? getValue range.1 - 1 then of_value (getValue range.1 - 1) else SN_ZERO).
  assert (sn_ok key /\ getValue key = getValue range.1 - 1) as [Hk1 Hk2].
  { destruct Hr as ([Hs1 Hv1] & _ & Hlt). pose proof (getValue_bounds _ Hs1).
    subst key. unfold MIN_VALUE in Hv1. destruct (Z.ltb_spec 0 (getValue range.1 - 1)).
    - split; [apply sn_valid_ok, of_value_valid; lia|]. rewrite getValue_of_value by lia.
      unfold MIN_VALUE. lia.
    - split; [by vm_compute|]. assert (getValue range.1 = 1) as -> by lia. by vm_compute. }
  destruct (lower_bound_split seqs range Hok) as (L & R & -> & HL & HLs & HR); [auto with dds|].
  destruct (lower_bound_split (L ++ R) (of_value 1, key) Hok) as (A & T & HA & HAl & HAs & HT); [done|].
  cbn in HAs, HT. rewrite Hk2 in *.
  assert (exists M, L = A ++ M) as [M ->].
  { apply app_eq_app in HA as (k & [[? ?]|[? ?]]); subst; [by eexists|].
    exists []. destruct k as [|x k]; [by rewrite !app_nil_r|]. exfalso.
    apply Forall_app in HAs as [_ HAs]. inversion HAs; subst.
    cbn in HR. destruct Hr as (_&_&?). lia. }
  rewrite <- app_assoc in HA. apply app_inv_head in HA as <-.
  apply Forall_app in HLs as [_ HMs].
  rewrite <- app_assoc in *. exists A, M, R. split_and!; auto.
  unfold wf in Hw. rewrite wf_from_app in Hw. destruct Hw as [_ Hw].
  pose proof (head_ge_Forall _ _ _ Hw HT) as HF. apply Forall_app in HF as [HF _].
  rewrite Forall_forall in HF, HMs |- *. intros x Hx.
  specialize (HF x Hx). specialize (HMs x Hx). cbn in *. lia.
Qed.

(** What an inserting call does to the three parts. *)
Record inserted (seqs : list SequenceRange) (range : SequenceRange)
    (A M R : list SequenceRange) (new : SequenceRange) : Prop := {
  ins_split : seqs = A ++ M ++ R;
  ins_new_ok : range_ok new;
  ins_new : forall v, in_range v new <-> in_range v range \/ covers M v;
  ins_low : Forall (fun r => getValue r.2 < getValue new.1 - 1) A;
  ins_high : head_gt (getValue new.2 + 1) R;
  ins_fresh : ~ (forall v, in_range v range -> covers seqs v);
}.

Definition widen (range : SequenceRange) (hi : SequenceNumber) (M : list SequenceRange)
    : SequenceRange :=
  match M with
  | m :: _ => if sn_gt range.1 m.1 then (m.1, hi) else (range.1, hi)
  | [] => (range.1, hi)
  end.

Lemma widen_spec lo range hi M :
  wf_from lo M -> range_ok (range.1, hi) -> getValue range.2 <= getValue hi ->
  Forall (fun r => getValue range.1 - 1 <= getValue r.2 <= getValue hi) M ->
  (forall v, getValue range.2 < v <= getValue hi -> covers M v) ->
  range_ok (widen range hi M) /\
  getValue (widen range hi M).1 <= getValue range.1 /\
  (widen range hi M).2 = hi /\
  (match M with [] => True | m :: _ => getValue (widen range hi M).1 <= getValue m.1 end) /\
  (getValue (widen range hi M).1 = getValue range.1 \/ lo < getValue (widen range hi M).1) /\
  (forall v, in_range v (widen range hi M) <-> in_range v range \/ covers M v).
Proof.
  intros Hw Hr Hhi HM Hcov.
  assert (forall v, covers M v -> v <= getValue hi) as Hup.
  { intros v Hv. unfold covers in Hv. apply Exists_exists in Hv as (x & Hx & Hv).
    rewrite Forall_forall in HM. specialize (HM x Hx). unfold in_range in Hv. cbn in HM. lia. }
  destruct M as [|m M]; cbn [widen].
  { cbn [fst snd]. split_and!; [done|lia|done|done|by left|].
    intros v. specialize (Hcov v). unfold covers in *. rewrite Exists_nil in *.
    unfold in_range; cbn [fst snd]. lia. }
  inversion HM as [|? ? Hm HM']; subst. destruct Hw as (Hmok & Hmlo & Hw).
  assert (forall v, covers M v -> getValue m.2 + 1 < v) as Hdn.
  { intros v Hv. by eapply covers_above. }
  pose proof Hmok as (Hm1 & Hm2 & Hm12). pose proof Hr as (Hr1 & Hr2 & Hr12). cbn in Hr1, Hr2, Hr12.
  rewrite sn_gt_value by auto with dds.
  destruct (Z.ltb_spec (getValue m.1) (getValue range.1)); cbn [fst snd];
    (split_and!; [split_and!; cbn; [done|done|lia|lia]|lia|done|lia|lia|]); intros v;
    specialize (Hcov v); specialize (Hup v); specialize (Hdn v); rewrite covers_cons in *;
    unfold in_range in *; cbn [fst snd] in *; destruct (Z.le_gt_cases v (getValue range.2)), (Z.le_gt_cases (getValue range.1) v);
    naive_solver lia.
Qed.

Lemma insert_finish A M R range hi :
  wf (A ++ M ++ R) -> range_ok (range.1, hi) -> getValue range.2 <= getValue hi ->
  Forall (fun r => getValue r.2 < getValue range.1 - 1) A ->
  Forall (fun r => getValue range.1 - 1 <= getValue r.2 <= getValue hi) M ->
  (forall v, getValue range.2 < v <= getValue hi -> covers M v) ->
  head_gt (getValue hi + 1) R ->
  ~ (forall v, in_range v range -> covers (A ++ M ++ R) v) ->
  inserted (A ++ M ++ R) range A M R (widen range hi M) /\
  set_insert (set_erase (A ++ M ++ R) (length A) (length (A ++ M))) (widen range hi M)
    = A ++ widen range hi M :: R.
Proof.
  intros Hw Hr Hhi HA HM Hcov HR Hfresh. unfold wf in Hw.
  pose proof (wf_from_ok _ _ Hw) as Hok.
  rewrite wf_from_app in Hw. destruct Hw as [HwA Hw]. rewrite wf_from_app in Hw.
  destruct Hw as [HwM HwR].
  destruct (widen_spec _ range hi M HwM Hr Hhi HM Hcov) as (Hok' & Hle & Hsnd & Hmm & Hlow & Hiff).
  assert (Forall (fun r => getValue r.2 < getValue (widen range hi M).1 - 1) A) as HA'.
  { destruct Hlow as [->|Hlow]; [done|]. clear -HwA Hlow HA.
    revert HwA Hlow. generalize (widen range hi M).1. generalize 0.
    induction HA as [|r A Hr HA IH]; intros lo s Hw Hlow; [constructor|].
    cbn in Hw, Hlow. destruct Hw as (Hro & _ & Hw). constructor; [|by eapply IH].
    pose proof (top_le _ _ Hw). lia. }
  split; [split; auto; by rewrite Hsnd|].
  unfold set_erase. rewrite take_app_length, (app_assoc A M R), drop_app_length.
  apply Forall_app in Hok as [HokA Hok]. apply Forall_app in Hok as [_ HokR].
  apply set_insert_app; auto.
  - by apply Forall_app.
  - eapply Forall_impl; [exact HA'|]. destruct Hok' as (_&_&?). cbn. lia.
  - destruct R as [|x R]; [done|]. cbn in HR. inversion HokR; subst.
    destruct H1 as (_&_&?). rewrite Hsnd. lia.
Qed.

Lemma set_erase_nothing (l : list SequenceRange) : set_erase l (length l) (length l) = l.
Proof. unfold set_erase. by rewrite take_ge, drop_ge, app_nil_r by lia. Qed.

(** [insert_i] once the two searches have cut the set. *)
Lemma insert_i_cut A M R range :
  Forall range_ok (A ++ M ++ R) -> range_ok range ->
  lower_bound (A ++ M ++ R) range = length (A ++ M) ->
  lower_bound (A ++ M ++ R) (of_value 1,
    if 0 <? getValue range.1 - 1 then of_value (getValue range.1 - 1) else SN_ZERO) = length A ->
  let result M' R' hi :=
    Ret (true, set_insert (set_erase (A ++ M' ++ R') (length A) (length (A ++ M'))) (widen range hi M'), []) in
  match R with
  | r :: R' =>
      if getValue r.1 <=? getValue range.1 then
        forall g, insert_i (A ++ M ++ R) range g = Ret (false, A ++ M ++ R, [])
      else insert_i (A ++ M ++ R) range false =
        if getValue r.1 <=? getValue range.2 + 1 then result (M ++ [r]) R' r.2
        else result M R range.2
  | [] => insert_i (A ++ M ++ R) range false = result M R range.2
  end.
Proof.
  intros Hok Hr Habove Hbelow result. subst result. cbn zeta.
  pose proof Hr as (Hr1 & Hr2 & Hr12).
  assert (sn_gt range.1 range.2 = false) as Hval.
  { rewrite sn_gt_value by auto with dds. apply Z.ltb_ge. lia. }
  unfold insert_i, validate. rewrite Hval, Habove, Hbelow. cbn [mbind outcome_bind].
  rewrite (app_assoc A M R), (lookup_app_r (A ++ M)), Nat.sub_diag, <- app_assoc by lia.
  rewrite (lookup_app_r A (M ++ R)), Nat.sub_diag by lia.
  destruct R as [|r R].
  - destruct M as [|m M]; cbn -[set_insert length next previous sn_gt].
    + rewrite !app_nil_r, set_erase_nothing. by destruct range.
    + destruct range; cbn. by case_match.
  - assert (range_ok r) as Hrok.
    { rewrite !Forall_app, Forall_cons in Hok. tauto. }
    cbn [lookup list_lookup].
    rewrite sn_le_value by auto with dds.
    destruct (Z.leb_spec (getValue r.1) (getValue range.1)); [done|].
    rewrite sn_ge_value, getValue_next by auto with dds.
    rewrite (proj2 (Z.eqb_neq _ MAX_VALUE)) by lia.
    assert (sn_gt range.1 r.1 = false) as Hgt.
    { rewrite sn_gt_value by auto with dds. apply Z.ltb_ge. lia. }
    destruct (Z.leb_spec (getValue r.1) (getValue range.2 + 1)).
    + rewrite (app_assoc A (M ++ [r])), !(app_assoc A M), <- !app_assoc, !length_app.
      cbn [length app]. replace (length A + (length M + 1))%nat with (S (length A + length M)) by lia.
      destruct M as [|m M]; cbn [app lookup list_lookup widen fst snd]; [by rewrite Hgt|].
      by case_match.
    + destruct M as [|m M]; cbn [app lookup list_lookup widen fst snd].
      * rewrite Hgt. by destruct range.
      * case_match; by destruct range.
Qed.

Lemma insert_i_cases seqs range :
  wf seqs -> range_ok range ->
  (exists r, r ∈ seqs /\ getValue r.1 <= getValue range.1 /\ getValue range.2 <= getValue r.2 /\
     forall g, insert_i seqs range g = Ret (false, seqs, [])) \/
  (exists A M R new, inserted seqs range A M R new /\
     insert_i seqs range false = Ret (true, A ++ new :: R, [])).
Proof.
  intros Hw Hr.
  destruct (insert_split seqs range Hw Hr) as (A & M & R & -> & Habove & Hbelow & HA & HM & HR & HMR).
  pose proof Hr as (Hr1 & Hr2 & Hr12). pose proof Hw as Hw'. unfold wf in Hw'.
  pose proof (insert_i_cut A M R range (wf_from_ok _ _ Hw) Hr Habove Hbelow) as Hcut.
  rewrite !wf_from_app in Hw'. destruct Hw' as (HwA & HwM & HwR).
  assert (forall v, covers A v -> v < getValue range.1 - 1) as HcA by (intros v; by eapply covers_below).
  assert (forall v, covers M v -> v < getValue range.2) as HcM.
  { intros v. eapply covers_below; [done|]. eapply Forall_impl; [exact HM|]. intros x Hx; cbv beta in *; lia. }
  assert (range_ok (range.1, range.2)) as Hr' by (by destruct range).
  assert (Forall (fun r => getValue range.1 - 1 <= getValue r.2 <= getValue range.2) M) as HM'.
  { eapply Forall_impl; [exact HM|]. intros x Hx; cbv beta in *; lia. }
  destruct R as [|r R]; [|destruct (Z.leb_spec (getValue r.1) (getValue range.1))].
  - right. exists A, M, [], (widen range range.2 M).
    destruct (insert_finish A M [] range range.2) as [Hins Hset]; try done; [intros; lia| |].
    + intros Hall. specialize (Hall (getValue range.2)). rewrite !covers_app in Hall.
      destruct Hall as [Hc|[Hc|Hc]]; [unfold in_range; lia|apply HcA in Hc; lia|apply HcM in Hc; lia|].
      by apply Exists_nil in Hc.
    + by rewrite Hcut, Hset.
  - left. exists r. split_and!; [set_solver|done|done|done].
  - right. destruct HwR as (Hrok & Hlo & HwR). cbn in HR.
    assert (~ (forall v, in_range v range -> covers (A ++ M ++ r :: R) v)) as Hfresh.
    { intros Hall. specialize (Hall (Z.min (getValue range.2) (getValue r.1 - 1))).
      rewrite !covers_app, covers_cons in Hall. unfold in_range in Hall.
      destruct Hall as [Hc|[Hc|[Hc|Hc]]]; [lia|apply HcA in Hc; lia| |lia|].
      - pose proof (HcM _ Hc). pose proof (covers_top _ _ _ HwM Hc). lia.
      - apply (covers_above _ _ _ HwR) in Hc. destruct Hrok as (_&_&?). lia. }
    destruct (Z.leb_spec (getValue r.1) (getValue range.2 + 1)).
    + exists A, (M ++ [r]), R, (widen range r.2 (M ++ [r])).
      destruct (insert_finish A (M ++ [r]) R range r.2) as [Hins Hset]; rewrite <- ?app_assoc; auto.
      * destruct Hrok as (?&?&?). split_and!; cbn; auto; lia.
      * apply Forall_app; split; [|constructor; [lia|constructor]].
        eapply Forall_impl; [exact HM|]. intros x Hx; cbv beta in *; lia.
      * intros v Hv. rewrite covers_app, covers_cons. unfold in_range. lia.
      * destruct R as [|x R]; [done|]. cbn in HwR |- *. tauto.
      * rewrite <- app_assoc in Hins. cbn [app] in Hins. split; [done|]. by rewrite Hcut, Hset.
    + exists A, M, (r :: R), (widen range range.2 M).
      destruct (insert_finish A M (r :: R) range range.2) as [Hins Hset]; try done; [intros; lia|].
      split; [done|]. by rewrite Hcut, Hset.
Qed.

Lemma inserted_wf seqs range A M R new :
  wf seqs -> inserted seqs range A M R new ->
  wf (A ++ new :: R) /\
  forall v, covers (A ++ new :: R) v <-> covers seqs v \/ in_range v range.
Proof.
  intros Hw [-> Hok Hnew Hlow Hhigh _]. unfold wf in *. rewrite !wf_from_app in *.
  destruct Hw as (HwA & HwM & HwR). split.
  - split; [done|]. cbn. split_and!; [done| |by eapply wf_from_head_gt].
    assert (top 0 A <= getValue new.1 - 1); [|lia]. apply Forall_wf_top; [done|].
    destruct Hok as ([_ ?] & _ & _). unfold MIN_VALUE in *. lia.
  - intros v. rewrite !covers_app, covers_cons, Hnew. tauto.
Qed.

(** The ranges of a well-formed set are the maximal runs of covered values, so
    an interval is covered only inside one range. *)
Lemma covers_range_one lo seqs a b :
  wf_from lo seqs -> a <= b -> (forall v, a <= v <= b -> covers seqs v) ->
  exists r, r ∈ seqs /\ getValue r.1 <= a /\ b <= getValue r.2.
Proof.
  revert lo. induction seqs as [|r seqs IH]; intros lo Hw Hab Hall.
  { specialize (Hall a). destruct (proj1 (Exists_nil _) (Hall ltac:(lia))). }
  destruct Hw as (Hr & Hlo & Hw). destruct (Z.le_gt_cases a (getValue r.2)).
  - exists r. split; [left|].
    assert (getValue r.1 <= a).
    { specialize (Hall a ltac:(lia)). rewrite covers_cons in Hall. unfold in_range in Hall.
      destruct Hall as [?|Hc]; [lia|]. apply (covers_above _ _ _ Hw) in Hc. lia. }
    split; [done|]. destruct (Z.le_gt_cases b (getValue r.2)); [done|exfalso].
    specialize (Hall (getValue r.2 + 1) ltac:(lia)). rewrite covers_cons in Hall.
    unfold in_range in Hall. destruct Hall as [?|Hc]; [lia|].
    apply (covers_above _ _ _ Hw) in Hc. lia.
  - destruct (IH _ Hw Hab) as (r' & ? & ?); [|exists r'; split; [by right|done]].
    intros v Hv. specialize (Hall v Hv). rewrite covers_cons in Hall. unfold in_range in Hall.
    destruct Hall as [?|?]; [lia|done].
Qed.

Lemma insert_range_spec seqs range :
  wf seqs -> range_ok range ->
  exists changed seqs',
    insert_range seqs range = Ret (changed, seqs') /\ wf seqs' /\
    (forall v, covers seqs' v <-> covers seqs v \/ in_range v range) /\
    (changed = false <-> forall v, in_range v range -> covers seqs v) /\
    (changed = false -> seqs' = seqs).
Proof.
  intros Hw Hr. unfold insert_range.
  destruct (insert_i_cases seqs range Hw Hr) as [(r & Hin & H1 & H2 & Hi)|(A & M & R & new & Hins & Hi)];
    rewrite Hi; cbn [mbind outcome_bind]; eexists _, _; (split; [done|]).
  - assert (forall v, in_range v range -> covers seqs v) as Hall.
    { intros v Hv. apply Exists_exists. exists r. unfold in_range in *. split; [done|lia]. }
    split_and!; [done| |done|done]. intros v. specialize (Hall v). tauto.
  - destruct (inserted_wf _ _ _ _ _ _ Hw Hins) as [? ?]. split_and!; [done|done| |done].
    split; [done|]. intros Hall. by destruct (ins_fresh _ _ _ _ _ _ Hins).
Qed.

(** ** Properties *)

(** C17: inserting a range into a well-formed set never throws or reads past the
    end, keeps the set well formed (ordered, non-empty, pairwise separated
    ranges) and makes it stand for exactly the old values and the values of
    the range; it returns [false] exactly when every value was already there,
    and then leaves the set as it was. *)
Theorem insert_range_correct seqs range :
  wf seqs -> range_ok range ->
  exists changed seqs',
    insert_range seqs range = Ret (changed, seqs') /\ wf seqs' /\
    (forall v, covers seqs' v <-> covers seqs v \/ in_range v range) /\
    (changed = false <-> forall v, in_range v range -> covers seqs v) /\
    (changed = false -> seqs' = seqs).
Proof. exact (insert_range_spec seqs range). Qed.

Definition ex_seqs : list SequenceRange :=
  [(mkSN 0 1, mkSN 0 2); (mkSN 0 5, mkSN 0 5); (mkSN 0 9, mkSN 0 9)].

Lemma insert_range_correct_witness :
  wf ex_seqs /\
  insert_range ex_seqs (mkSN 0 4, mkSN 0 12)
    = Ret (true, [(mkSN 0 1, mkSN 0 2); (mkSN 0 4, mkSN 0 12)]) /\
  exists changed seqs', insert_range ex_seqs (mkSN 0 4, mkSN 0 12) = Ret (changed, seqs') /\ wf seqs'.
Proof.
  assert (wf ex_seqs) as Hw by solve_concrete.
  assert (range_ok (mkSN 0 4, mkSN 0 12)) as Hr by solve_concrete.
  split; [exact Hw|]. split; [reflexivity|].
  destruct (insert_range_correct ex_seqs (mkSN 0 4, mkSN 0 12) Hw Hr) as (c & s & H1 & H2 & _).
  exists c, s. split; [exact H1 | exact H2].
Defined.

Lemma contains_covers seqs value :
  wf seqs -> sn_ok value -> contains seqs value = true <-> covers seqs (getValue value).
Proof.
  intros Hw Hv. pose proof (wf_from_ok _ _ Hw) as Hok. unfold contains.
  destruct (lower_bound_split seqs (of_value 0, value) Hok Hv) as (l1 & l2 & -> & -> & H1 & H2).
  cbn [snd] in *. unfold wf in Hw. rewrite wf_from_app in Hw. destruct Hw as [Hw1 Hw2].
  rewrite lookup_app_head, covers_app.
  assert (~ covers l1 (getValue value)) as Hno.
  { intros Hc. apply (covers_below _ _ _ _ Hw1 H1), Z.lt_irrefl in Hc. done. }
  destruct l2 as [|r l2]; cbn [head].
  { unfold covers at 2. rewrite Exists_nil. naive_solver. }
  cbn in H2, Hw2. destruct Hw2 as (Hr & _ & Hw2).
  rewrite sn_le_value, Z.leb_le, covers_cons by auto with dds. unfold in_range.
  change (getValue value <= getValue r.2) in H2.
  split; [intros; right; left; lia|]. intros [?|[?|Hc]]; [done|lia|].
  apply (covers_above _ _ _ Hw2) in Hc. destruct Hr as (_&_&?). lia.
Qed.

Lemma last_top lo seqs r :
  last seqs = Some r -> top lo seqs = getValue r.2 + 1.
Proof.
  revert lo. induction seqs as [|x seqs IH]; intros lo H; [done|].
  destruct seqs as [|y seqs]; cbn in *; [by inversion H|]. by apply IH.
Qed.

(** on a well-formed set the queries answer what the class documents:
    [contains] is membership, [low] and [high] are the smallest and the largest
    member, [cumulative_ack] is the upper end of the run of members that
    starts at [low], [last_ack] the lower end of the run that ends at [high],
    and [disjoint] holds exactly when a value between [low] and [high] is
    missing. *)
Theorem queries_correct seqs r rest :
  seqs = r :: rest -> wf seqs ->
  exists lo hi,
    ds_low seqs = Ret lo /\ ds_high seqs = Ret hi /\
    (forall value, sn_ok value -> contains seqs value = true <-> covers seqs (getValue value)) /\
    (forall v, covers seqs v -> getValue lo <= v <= getValue hi) /\
    covers seqs (getValue lo) /\ covers seqs (getValue hi) /\
    (forall v, getValue lo <= v <= getValue (cumulative_ack seqs) -> covers seqs v) /\
    ~ covers seqs (getValue (cumulative_ack seqs) + 1) /\
    (forall v, getValue (last_ack seqs) <= v <= getValue hi -> covers seqs v) /\
    ~ covers seqs (getValue (last_ack seqs) - 1) /\
    (disjoint seqs = true <-> exists v, getValue lo < v < getValue hi /\ ~ covers seqs v).
Proof.
  intros -> Hw. destruct (last_cons_default r rest) as [z Hz].
  pose proof (proj1 (last_Some _ _) Hz) as [front Hfront].
  exists r.1, z.2. unfold ds_low, ds_high, last_ack. cbn [head]. rewrite Hz. cbn [deref mbind outcome_bind].
  pose proof Hw as (Hr & Hlo & Hwr).
  assert (range_ok z) as Hzok.
  { pose proof (wf_from_ok _ _ Hw) as Hok. rewrite Hfront, Forall_app, Forall_cons in Hok. tauto. }
  assert (forall v, covers (r :: rest) v -> getValue r.1 <= v <= getValue z.2) as Hbnd.
  { intros v Hv. split.
    - rewrite covers_cons in Hv. unfold in_range in Hv. destruct Hv as [?|Hv]; [lia|].
      apply (covers_above _ _ _ Hwr) in Hv. destruct Hr as (_&_&?). lia.
    - apply (covers_top _ _ _ Hw) in Hv. rewrite (last_top _ _ _ Hz) in Hv. lia. }
  assert (forall v, in_range v z -> covers (r :: rest) v) as Hcz.
  { intros v Hv. rewrite Hfront, covers_app, covers_cons. auto. }
  pose proof Hr as (_&_&?). pose proof Hzok as (_&_&?).
  split_and!; try done.
  - intros. by apply contains_covers.
  - apply covers_cons. left. unfold in_range. lia.
  - apply Hcz. unfold in_range. lia.
  - intros v Hv. apply covers_cons. left. exact Hv.
  - cbn [cumulative_ack]. rewrite covers_cons. unfold in_range. intros [?|Hc]; [lia|].
    apply (covers_above _ _ _ Hwr) in Hc. lia.
  - rewrite Hfront, covers_app, covers_cons. unfold in_range.
    rewrite Hfront in Hw. unfold wf in Hw. rewrite wf_from_app in Hw. destruct Hw as [Hw1 (_&Hz1&_)].
    intros [Hc|[?|Hc]]; [|lia|by apply Exists_nil in Hc]. apply (covers_top _ _ _ Hw1) in Hc. lia.
  - unfold disjoint. rewrite Z.ltb_lt. destruct rest as [|r2 rest].
    + cbn. inversion Hz; subst. split; [lia|]. intros (v & ? & Hn). destruct Hn.
      apply covers_cons. left. unfold in_range. lia.
    + split; [intros _|cbn; lia]. exists (getValue r.2 + 1).
      destruct Hwr as (Hr2 & ? & Hwr). split.
      * split; [lia|]. apply Z.lt_le_trans with (getValue r2.1); [done|].
        apply Hbnd. rewrite !covers_cons. unfold in_range. destruct Hr2 as (_&_&?). lia.
      * rewrite !covers_cons. unfold in_range. intros [?|[?|Hc]]; [lia|lia|].
        apply (covers_above _ _ _ Hwr) in Hc. destruct Hr2 as (_&_&?). lia.
Qed.

Lemma queries_correct_witness :
  wf ex_seqs /\ exists lo hi, ds_low ex_seqs = Ret lo /\ ds_high ex_seqs = Ret hi /\
    getValue lo = 1 /\ getValue hi = 9.
Proof.
  assert (wf ex_seqs) as Hw by solve_concrete. split; [exact Hw|].
  destruct (queries_correct ex_seqs (mkSN 0 1, mkSN 0 2)
    [(mkSN 0 5, mkSN 0 5); (mkSN 0 9, mkSN 0 9)] eq_refl Hw) as (lo & hi & H1 & H2 & _).
  exists lo, hi. split; [exact H1|]. split; [exact H2|].
  cbn in H1, H2. injection H1 as <-. injection H2 as <-. split; reflexivity.
Defined.

Lemma missing_loop_spec r rest v :
  wf_from 0 (r :: rest) ->
  covers (missing_loop r rest) v <->
  getValue r.2 < v < top (getValue r.2 + 1) rest /\ ~ covers rest v.
Proof.
  intros Hw. cbn in Hw. destruct Hw as (Hr & _ & Hw). revert r Hr Hw.
  induction rest as [|r2 rest IH]; intros r Hr Hw; cbn [missing_loop top].
  { unfold covers. rewrite !Exists_nil. lia. }
  destruct Hw as (Hr2 & Hlt & Hw).
  rewrite covers_app, (IH r2 Hr2 Hw), covers_cons.
  pose proof Hr as (? & ? & ?). pose proof Hr2 as (Hv2 & ? & ?).
  assert (getValue (next r.2) = getValue r.2 + 1) as Hn.
  { rewrite getValue_next by auto with dds. by rewrite (proj2 (Z.eqb_neq _ _)) by lia. }
  assert (getValue (previous r2.1) = getValue r2.1 - 1) as Hp.
  { rewrite getValue_previous by auto with dds. rewrite (proj2 (Z.eqb_neq _ _)); [done|].
    destruct H as [_ ?]. unfold MIN_VALUE in *. lia. }
  rewrite sn_le_value by auto with dds. rewrite (proj2 (Z.leb_le _ _)) by lia.
  rewrite covers_cons. unfold covers at 1. rewrite Exists_nil. unfold in_range. cbn [fst snd].
  rewrite Hn, Hp. pose proof (top_le _ _ Hw).
  assert (covers rest v -> getValue r2.2 + 1 < v) by (intros; by eapply covers_above).
  destruct (Z.le_gt_cases v (getValue r2.2)), (Z.le_gt_cases (getValue r2.1) v); naive_solver lia.
Qed.

Lemma missing_ranges_spec seqs lo hi v :
  wf seqs -> ds_low seqs = Ret lo -> ds_high seqs = Ret hi ->
  (covers (missing_sequence_ranges seqs) v <->
     getValue lo < v < getValue hi /\ ~ covers seqs v) /\
  (covers (present_sequence_ranges seqs) v <-> covers seqs v).
Proof.
  intros Hw Hlo Hhi. split; [|done]. unfold ds_low, ds_high in *.
  destruct seqs as [|r rest]; [done|]. cbn in Hlo. injection Hlo as <-.
  destruct (last (r :: rest)) as [z|] eqn:Hz; [|done]. cbn in Hhi. injection Hhi as <-.
  pose proof (last_top 0 _ _ Hz) as Ht. cbn [top] in Ht. pose proof Hw as (Hr & _ & Hwr).
  pose proof Hr as (_&_&?).
  unfold missing_sequence_ranges, disjoint. case_match; bool_hyps.
  - rewrite (missing_loop_spec r rest v Hw), Ht, covers_cons.
    assert (covers rest (getValue z.2) \/ z = r) as Hzr.
    { destruct rest as [|r2 rest]; [right; by inversion Hz|left].
      pose proof (proj1 (last_Some _ _) Hz) as [front Hf]. destruct front as [|f front]; [by inversion Hf|].
      cbn in Hf. injection Hf as _ Hf. rewrite Hf, covers_app, covers_cons. right; left.
      pose proof (wf_from_ok _ _ Hwr) as Hok. rewrite Hf, Forall_app, Forall_cons in Hok.
      destruct Hok as (_ & (_&_&?) & _). unfold in_range. lia. }
    assert (v = getValue z.2 -> covers rest v \/ z = r) by (intros ->; exact Hzr).
    unfold in_range. split.
    + intros [? Hn]. split; [|naive_solver lia].
      destruct (Z.eq_dec v (getValue z.2)) as [->|]; [|lia]. destruct Hzr as [?| ->]; [done|lia].
    + intros [? Hn]. split; [|tauto]. split; [|lia].
      destruct (Z.lt_ge_cases (getValue r.2) v); [done|]. exfalso. apply Hn. left. lia.
  - destruct rest; [|cbn in *; lia]. inversion Hz; subst z. unfold covers at 1. rewrite Exists_nil.
    rewrite covers_cons. unfold in_range. split; [done|]. intros [? []]. left. lia.
Qed.

(** The missing ranges are themselves a well-formed set. *)
Lemma missing_wf seqs : wf seqs -> wf (missing_sequence_ranges seqs).
Proof.
  assert (forall rest r lo, wf_from lo (r :: rest) -> wf_from (getValue r.2) (missing_loop r rest)) as Hl.
  { induction rest as [|x rest IH]; intros r lo (Hr & _ & Hw); cbn [missing_loop]; [done|]. specialize (IH x _ Hw).
    destruct Hr as (_ & Hr2 & Hr3). destruct Hw as ((Hx1 & Hx2 & Hx3) & Hlt & _).
    assert (getValue (next r.2) = getValue r.2 + 1) as Hn by (rewrite getValue_next by auto with dds; by rewrite (proj2 (Z.eqb_neq _ _)) by lia).
    assert (getValue (previous x.1) = getValue x.1 - 1) as Hp.
    { rewrite getValue_previous by auto with dds. rewrite (proj2 (Z.eqb_neq _ _)); [done|]. destruct Hr2. unfold MIN_VALUE in *. lia. }
    destruct (sn_le _ _) eqn:E; cbn [app]; [|eapply wf_from_weaken; [|exact IH]; lia]. split_and!; [split_and!; cbn; [by apply next_valid|by apply previous_ok|lia..]|cbn; lia|].
    cbn [snd]. eapply wf_from_weaken; [|exact IH]. lia. }
  intros Hw. unfold missing_sequence_ranges. destruct (disjoint seqs); [|done]. destruct seqs as [|r rest]; [done|].
  eapply wf_from_weaken; [|by eapply Hl]. destruct Hw as ((_ & [_ ?] & _) & _). unfold MIN_VALUE in *. lia.
Qed.

(** C18: [missing_sequence_ranges] lists the ranges of the values strictly between
    the lowest and the highest member that are not members: in ascending order,
    without overlaps and not adjacent, and covering exactly those values.
    [present_sequence_ranges] does the same for the members. *)
Theorem missing_ranges_correct seqs lo hi :
  wf seqs -> ds_low seqs = Ret lo -> ds_high seqs = Ret hi ->
  wf (missing_sequence_ranges seqs) /\ wf (present_sequence_ranges seqs) /\
  (forall v, covers (missing_sequence_ranges seqs) v <-> getValue lo < v < getValue hi /\ ~ covers seqs v) /\
  (forall v, covers (present_sequence_ranges seqs) v <-> covers seqs v).
Proof.
  intros Hw Hlo Hhi. split_and!; [by apply missing_wf|done| |done]. intros v. apply (missing_ranges_spec seqs lo hi v Hw Hlo Hhi).
Qed.

Lemma missing_ranges_correct_witness :
  wf ex_seqs /\ wf (missing_sequence_ranges ex_seqs) /\ (covers (missing_sequence_ranges ex_seqs) 7 <-> 1 < 7 < 9 /\ ~ covers ex_seqs 7).
Proof.
  assert (wf ex_seqs) as Hw by solve_concrete. split; [exact Hw|].
  destruct (missing_ranges_correct ex_seqs (mkSN 0 1) (mkSN 0 9) Hw eq_refl eq_refl) as (H1 & _ & H2 & _).
  split; [exact H1|exact (H2 7)].
Defined.

(** the gap-reporting form of [insert] does not report "a list of
    sub-ranges of 'range' that were not already in the DisjointSequence": it
    reports present values as added, reports nothing for a range added above
    every other (or into the empty set), and walks past [end()] when the range
    lies strictly below a stored range it does not touch. *)
Theorem insert_gaps_wrong :
  insert_gaps [(mkSN 0 5, mkSN 0 7)] (mkSN 0 4, mkSN 0 5)
    = Ret (true, [(mkSN 0 4, mkSN 0 7)], [(mkSN 0 4, mkSN 0 6)]) /\
  insert_gaps [] (mkSN 0 4, mkSN 0 5) = Ret (true, [(mkSN 0 4, mkSN 0 5)], []) /\
  insert_gaps [(mkSN 0 10, mkSN 0 12)] (mkSN 0 2, mkSN 0 3) = UB /\
  insert_gaps ex_seqs (mkSN 0 4, mkSN 0 12)
    = Ret (true, [(mkSN 0 1, mkSN 0 2); (mkSN 0 4, mkSN 0 12)],
        [(mkSN 0 4, mkSN 0 4); (mkSN 0 6, mkSN 0 8); (mkSN 0 10, mkSN 0 12)]).
Proof. by vm_compute. Qed.

End DisjointSequence.
Export DisjointSequence.
