(* ===== verification/Bitmap.v ===== *)
(** * Bitmaps of sequence numbers (dds/DCPS/DisjointSequence.cpp)

    The RTPS compact form of a set: [to_bitmap] writes the ranges above
    [cumulative_ack] into an array of 32-bit words, most significant bit first,
    and the bitmap form of [insert] adds the values of such an array.  A word
    is the unsigned 32-bit image of the [CORBA::Long] the array holds; an index
    outside the array is [UB]. *)

From S2P Require Import Prelude SequenceNumber DisjointSequence.

Module Bitmap.

(** ** Operations *)

Definition arr_read (a : list Z) (i : Z) : outcome Z := deref (a !! Z.to_nat i).
Definition arr_write (a : list Z) (i x : Z) : outcome (list Z) :=
  if i <? Z.of_nat (length a) then Ret (<[Z.to_nat i := x]> a) else UB.

(** [for (i = from; i < to; ++i) body(i)] on a state [S]. *)
Definition count_up (from to : Z) : list Z :=
  (fun k => from + Z.of_nat k) <$> seq 0 (Z.to_nat (to - from)).

Definition write_words (from to : Z) (x : Z) (bitmap : list Z) : outcome (list Z) :=
  foldl (fun m i => a ← m; arr_write a i x) (Ret bitmap) (count_up from to).

Definition clear_bit (x m : Z) : Z := Z.land x (Z.lnot (Z.shiftl 1 (31 - m))).
Definition set_bit (x b : Z) : Z := Z.lor x (Z.shiftl 1 (31 - b)).

(** [fill_bitmap_range]: the returned flag, the array and [num_bits]. *)
Definition fill_bitmap_range (low high : Z) (bitmap : list Z) (len num_bits : Z)
    : outcome (bool * list Z * Z) :=
  let idx_low := low / 32 in
  let bit_low := low mod 32 in
  if len <=? idx_low then Ret (false, bitmap, num_bits)
  else
    let clamped := len <=? high / 32 in
    let high := if clamped then uwrap 32 (len * 32 - 1) else high in
    let idx_high := if clamped then len - 1 else high / 32 in
    let bit_high := high mod 32 in
    bitmap ← write_words (uwrap 32 (num_bits + 31) / 32) idx_low 0 bitmap;
    x ← arr_read bitmap idx_low;
    let x :=
      if 0 <? num_bits then
        let bit_last := if (num_bits - 1) / 32 =? idx_low then (num_bits - 1) mod 32 + 1 else 0 in
        foldl clear_bit x (count_up bit_last bit_low)
      else 0 in
    let limit := if idx_high =? idx_low then bit_high else 31 in
    let x := foldl set_bit x (count_up bit_low (limit + 1)) in
    bitmap ← arr_write bitmap idx_low x;
    bitmap ← write_words (idx_low + 1) idx_high 4294967295 bitmap;
    bitmap ← (if idx_low <? idx_high then
                arr_write bitmap idx_high (foldl set_bit 0 (count_up 0 (bit_high + 1)))
              else Ret bitmap);
    Ret (negb clamped, bitmap, uwrap 32 (high + 1)).

(** The loop of [to_bitmap] over adjacent ranges. *)
Fixpoint to_bitmap_loop (base : SequenceNumber) (invert : bool) (prev : SequenceRange)
    (rest : list SequenceRange) (bitmap : list Z) (len num_bits : Z)
    : outcome (bool * list Z * Z) :=
  match rest with
  | [] => Ret (true, bitmap, num_bits)
  | it :: rest' =>
      let low := uwrap 32 (if invert then getValue prev.2 + 1 - getValue base
                           else getValue it.1 - getValue base) in
      let high := uwrap 32 (if invert then getValue it.1 - 1 - getValue base
                            else getValue it.2 - getValue base) in
      '(ok, bitmap, num_bits) ← fill_bitmap_range low high bitmap len num_bits;
      if (ok : bool) then to_bitmap_loop base invert it rest' bitmap len num_bits
      else Ret (false, bitmap, num_bits)
  end.

Definition to_bitmap (seqs : list SequenceRange) (bitmap : list Z) (len : Z) (invert : bool)
    : outcome (bool * list Z * Z) :=
  if negb (disjoint seqs) then Ret (true, bitmap, 0)
  else
    let base := next (cumulative_ack seqs) in
    match seqs with
    | [] => Ret (true, bitmap, 0)
    | r :: rest => to_bitmap_loop base invert r rest bitmap len 0
    end.

(** [for (; iter != end() && iter->second < bound; ++iter)]. *)
Fixpoint skip_below (bound : SequenceNumber) (rest : list SequenceRange) (iter : nat) : nat :=
  match rest with
  | [] => iter
  | r :: rest' => if sn_lt r.2 bound then skip_below bound rest' (S iter) else iter
  end.

(** [insert_bitmap_range]: the returned flag, the set and the iterator. *)
Definition insert_bitmap_range (seqs : list SequenceRange) (iter : nat) (range : SequenceRange)
    : outcome (bool * list SequenceRange * nat) :=
  let previous := of_value (getValue range.1 - 1) in
  let next := of_value (getValue range.2 + 1) in
  let iter :=
    if ds_empty seqs then iter
    else if bool_decide (iter = length seqs) then lower_bound seqs (of_value 1, previous)
    else skip_below previous (drop iter seqs) iter in
  match seqs !! iter with
  | None => let seqs' := set_insert seqs range in Ret (true, seqs', lower_bound seqs' range)
  | Some it =>
      if sn_gt it.1 next then
        let seqs' := set_insert seqs range in Ret (true, seqs', lower_bound seqs' range)
      else if sn_le it.1 range.1 && sn_ge it.2 range.2 then Ret (false, seqs, iter)
      else
        let right_ := skip_below next (drop iter seqs) iter in
        let '(high, right_) :=
          match seqs !! right_ with
          | Some r => if sn_le r.1 next && sn_gt r.1 range.1 then (r.2, S right_)
                      else (range.2, right_)
          | None => (range.2, right_)
          end in
        (* std::min(iter->first, range.first) *)
        let low := if sn_lt range.1 it.1 then range.1 else it.1 in
        let seqs' := set_insert (set_erase seqs iter right_) (low, high) in
        Ret (true, seqs', lower_bound seqs' (low, high))
  end.

(** The loop variables of the bitmap form of [insert]. *)
Record bm_state := mkBM {
  bm_i : Z; bm_x : Z; bm_bit : Z;
  bm_iter : nat; bm_start : Z; bm_inserted : bool; bm_seqs : list SequenceRange }.

(** One iteration of the loop, the increments of the [for] header included. *)
Definition bm_body (val : Z) (bits : list Z) (st : bm_state) : outcome bm_state :=
  let '(mkBM i x bit iter range_start inserted seqs) := st in
  let bit := if bit =? 32 then 0 else bit in
  x ← (if bit =? 0 then arr_read bits (i / 32) else Ret x);
  if (bit =? 0) && (x =? 0) then
    Ret (mkBM (uwrap 32 (i + 31 + 1)) x 32 iter range_start inserted seqs)
  else if Z.testbit x (31 - bit) then
    Ret (mkBM (uwrap 32 (i + 1)) x (bit + 1) iter
           (if range_start =? 0 then val + i else range_start) inserted seqs)
  else if range_start =? 0 then
    Ret (mkBM (uwrap 32 (i + 1)) x (bit + 1) iter range_start inserted seqs)
  else
    let to_insert := val + i - 1 in
    '(ins, seqs, iter) ← insert_bitmap_range seqs iter (of_value range_start, of_value to_insert);
    let inserted := if (ins : bool) then true else inserted in
    match seqs !! iter with
    | Some r =>
        if negb (getValue r.2 =? to_insert) then
          let next_i := uwrap 32 (getValue r.2 - val) in
          x ← (if negb (next_i / 32 =? i / 32) then arr_read bits (next_i / 32) else Ret x);
          Ret (mkBM (uwrap 32 (next_i + 1)) x (next_i mod 32 + 1) iter 0 inserted seqs)
        else Ret (mkBM (uwrap 32 (i + 1)) x (bit + 1) iter 0 inserted seqs)
    | None => Ret (mkBM (uwrap 32 (i + 1)) x (bit + 1) iter 0 inserted seqs)
    end.

Fixpoint bm_loop (fuel : nat) (val num_bits : Z) (bits : list Z) (st : bm_state)
    : outcome bm_state :=
  match fuel with
  | O => Fuel
  | S fuel' =>
      if bm_i st <? num_bits then st ← bm_body val bits st; bm_loop fuel' val num_bits bits st
      else Ret st
  end.

(** [insert(value, num_bits, bits)]. *)
Definition insert_bitmap (fuel : nat) (seqs : list SequenceRange) (value : SequenceNumber)
    (num_bits : Z) (bits : list Z) : outcome (bool * list SequenceRange) :=
  let val := getValue value in
  st ← bm_loop fuel val num_bits bits (mkBM 0 0 0 (length seqs) 0 false seqs);
  if negb (bm_start st =? 0) then
    let range_end := previous (sn_add value (swrap 32 num_bits)) in
    '(ins, seqs, _) ← insert_bitmap_range (bm_seqs st) (bm_iter st)
                        (of_value (bm_start st), range_end);
    Ret (if (ins : bool) then true else bm_inserted st, seqs)
  else Ret (bm_inserted st, bm_seqs st).

(** ** Insertion from a remembered position *)

(** The list of a well-formed set is determined by its members. *)
Lemma wf_from_ext lo a b :
  wf_from lo a -> wf_from lo b -> (forall v, covers a v <-> covers b v) -> a = b.
Proof.
  revert lo b. induction a as [|r a IH]; intros lo [|s b] Ha Hb Hab.
  - done.
  - destruct Hb as ((_&_&?)&_). destruct (proj1 (Exists_nil (in_range (getValue s.1)))).
    apply Hab, covers_cons. left. unfold in_range. lia.
  - destruct Ha as ((_&_&?)&_). destruct (proj1 (Exists_nil (in_range (getValue r.1)))).
    apply Hab, covers_cons. left. unfold in_range. lia.
  - destruct Ha as (Hr & Hlr & Ha), Hb as (Hs & Hls & Hb).
    pose proof Hr as (?&?&?). pose proof Hs as (?&?&?).
    assert (forall v, covers a v -> getValue r.2 + 1 < v) as Ha' by (intros; by eapply covers_above).
    assert (forall v, covers b v -> getValue s.2 + 1 < v) as Hb' by (intros; by eapply covers_above).
    assert (forall v, in_range v r \/ covers a v <-> in_range v s \/ covers b v) as Hv.
    { intros v. by rewrite <- !covers_cons. }
    unfold in_range in Hv.
    assert (r.1 = s.1) as E1.
    { apply getValue_inj; auto with dds.
      pose proof (Hv (getValue r.1)). pose proof (Hv (getValue s.1)).
      pose proof (Ha' (getValue s.1)). pose proof (Hb' (getValue r.1)). naive_solver lia. }
    assert (r.2 = s.2) as E2.
    { apply getValue_inj; auto with dds. rewrite <- E1 in *.
      pose proof (Hv (getValue r.2 + 1)). pose proof (Hv (getValue s.2 + 1)).
      pose proof (Ha' (getValue r.2 + 1)). pose proof (Hb' (getValue s.2 + 1)).
      destruct (Z.lt_trichotomy (getValue r.2) (getValue s.2)) as [?|[?|?]]; naive_solver lia. }
    assert (r = s) as -> by (destruct r, s; cbn in *; congruence). f_equal.
    apply (IH (getValue s.2 + 1)); auto. intros v. specialize (Hv v).
    specialize (Ha' v). specialize (Hb' v). naive_solver lia.
Qed.

Lemma skip_below_lower_bound (T : list SequenceRange) bound n :
  skip_below bound T n = (n + lower_bound T (of_value 1, bound))%nat.
Proof.
  revert n. induction T as [|r T IH]; intros n; cbn [skip_below lower_bound]; [lia|].
  unfold SequenceRange_LessThan. cbn [snd]. case_match; [|lia]. rewrite IH. lia.
Qed.

(** The search for the ranges that can touch [range]. *)
Lemma prev_split seqs (range : SequenceRange) :
  wf seqs -> range_ok range ->
  exists A T, seqs = A ++ T /\
    lower_bound seqs (of_value 1, of_value (getValue range.1 - 1)) = length A /\
    Forall (fun r => getValue r.2 < getValue range.1 - 1) A /\
    head_ge (getValue range.1 - 1) T.
Proof.
  intros Hw Hr. pose proof (wf_from_ok _ _ Hw) as Hok.
  assert (getValue range.1 - 1 <= MAX_VALUE) as Hmax by (destruct Hr as (_&_&?); lia).
  destruct (lower_bound_split seqs (of_value 1, of_value (getValue range.1 - 1)) Hok)
    as (A & T & -> & -> & HA & HT); [by apply sn_valid_ok, of_value_valid|].
  cbn [snd] in HA, HT. rewrite getValue_of_value in HA, HT by done. unfold MIN_VALUE in *.
  exists A, T. split_and!; [done|done| |].
  - unfold wf in Hw. rewrite wf_from_app in Hw. destruct Hw as [Hw _].
    pose proof (wf_from_above _ _ Hw) as Hab. apply wf_from_ok in Hw.
    rewrite Forall_forall in HA, Hw, Hab |- *. intros x Hx. specialize (HA x Hx). specialize (Hab x Hx).
    destruct (Hw x Hx) as (_&_&?). cbv beta in *. lia.
  - destruct T; [done|]. cbn [head_ge] in *. lia.
Qed.

Lemma lower_bound_below (B C : list SequenceRange) key :
  Forall range_ok B -> sn_ok key.2 -> Forall (fun r => getValue r.2 < getValue key.2) B ->
  lower_bound (B ++ C) key = (length B + lower_bound C key)%nat.
Proof.
  intros Hok Hk H. induction H as [|r B Hr _ IH]; [done|]. inversion Hok; subst.
  cbn [app lower_bound length]. unfold SequenceRange_LessThan at 1.
  rewrite sn_lt_value by auto with dds. rewrite (proj2 (Z.ltb_lt _ _)) by done. by rewrite IH.
Qed.

(** The position the caller remembers is only a starting point of the same
    search. *)
Lemma start_is_lower_bound seqs iter (range : SequenceRange) :
  wf seqs -> range_ok range -> (iter <= length seqs)%nat ->
  iter = length seqs \/ Forall (fun r => getValue r.2 < getValue range.1 - 1) (take iter seqs) ->
  (if ds_empty seqs then iter
   else if bool_decide (iter = length seqs)
     then lower_bound seqs (of_value 1, of_value (getValue range.1 - 1))
     else skip_below (of_value (getValue range.1 - 1)) (drop iter seqs) iter)
  = lower_bound seqs (of_value 1, of_value (getValue range.1 - 1)).
Proof.
  intros Hw Hr Hle Hit. destruct (ds_empty seqs) eqn:He.
  { destruct seqs; [|done]. cbn in *. lia. }
  case_bool_decide as Hend; [done|]. destruct Hit as [?|Hit]; [done|].
  assert (length (take iter seqs) = iter) as Hl by (rewrite length_take; lia).
  assert (getValue range.1 - 1 <= MAX_VALUE) as Hmax by (destruct Hr as (_&_&?); lia).
  rewrite skip_below_lower_bound. rewrite <- Hl at 1.
  rewrite <- (take_drop iter seqs) at 3. rewrite lower_bound_below; [done| | |].
  - apply Forall_take. by eapply wf_from_ok.
  - by apply sn_valid_ok, of_value_valid.
  - cbn [snd]. rewrite getValue_of_value by done.
    eapply Forall_impl; [exact Hit|]. intros x Hx; cbv beta in *. lia.
Qed.

Lemma insert_range_unique seqs range seqs' c :
  wf seqs -> range_ok range -> wf seqs' ->
  (forall v, covers seqs' v <-> covers seqs v \/ in_range v range) ->
  (c = false <-> forall v, in_range v range -> covers seqs v) ->
  insert_range seqs range = Ret (c, seqs').
Proof.
  intros Hw Hr Hw' Hcov Hc.
  destruct (insert_range_spec seqs range Hw Hr) as (c2 & s2 & -> & Hw2 & Hcov2 & Hc2 & _).
  assert (c2 = c) as -> by (destruct c, c2; naive_solver). do 2 f_equal.
  apply (wf_from_ext 0); [done|done|]. intros v. by rewrite Hcov, Hcov2.
Qed.

(** What a call leaves behind: the set [insert_range] computes and an iterator
    to the range that holds [range]. *)
Definition bitmap_inserted (seqs : list SequenceRange) (range : SequenceRange)
    (out : outcome (bool * list SequenceRange * nat)) : Prop :=
  exists c A r R, out = Ret (c, A ++ r :: R, length A) /\
    wf (A ++ r :: R) /\
    insert_range seqs range = Ret (c, A ++ r :: R) /\
    getValue r.1 <= getValue range.1 /\ getValue range.2 <= getValue r.2 /\
    Forall (fun x => getValue x.2 < getValue range.1 - 1) A.

Lemma not_covered_at A T range :
  wf (A ++ T) -> range_ok range ->
  Forall (fun r => getValue r.2 < getValue range.1 - 1) A -> head_ge (getValue range.1 - 1) T ->
  match T with
  | [] => True
  | h :: _ => ~ (getValue h.1 <= getValue range.1 /\ getValue range.2 <= getValue h.2)
  end ->
  ~ (forall v, in_range v range -> covers (A ++ T) v).
Proof.
  intros Hw (_&_&Hr) HA HT Hh Hall.
  destruct (covers_range_one _ _ (getValue range.1) (getValue range.2) Hw) as (r & Hin & H1 & H2);
    [lia|exact Hall|].
  unfold wf in Hw. rewrite wf_from_app in Hw. destruct Hw as [_ Hw].
  apply elem_of_app in Hin as [Hin|Hin].
  { rewrite Forall_forall in HA. specialize (HA r Hin). cbv beta in HA. lia. }
  destruct T as [|h T]; [by apply elem_of_nil in Hin|]. destruct Hw as (_ & _ & Hw).
  apply elem_of_cons in Hin as [->|Hin]; [tauto|]. cbn [head_ge] in HT.
  apply wf_from_above in Hw. rewrite Forall_forall in Hw. specialize (Hw r Hin). cbv beta in Hw. lia.
Qed.

Lemma set_insert_fresh A T range :
  wf (A ++ T) -> range_ok range ->
  Forall (fun r => getValue r.2 < getValue range.1 - 1) A ->
  head_gt (getValue range.2 + 1) T ->
  ~ (forall v, in_range v range -> covers (A ++ T) v) ->
  bitmap_inserted (A ++ T) range
    (Ret (true, set_insert (A ++ T) range, lower_bound (set_insert (A ++ T) range) range)).
Proof.
  intros Hw Hr HA HT Hfresh. pose proof (wf_from_ok _ _ Hw) as Hok.
  destruct (insert_finish A [] T range range.2) as [Hins Hset];
    [done|by destruct range|lia|done|constructor|lia|done|done|].
  destruct (inserted_wf _ _ _ _ _ _ Hw Hins) as [Hw' Hcov].
  cbn [app widen] in *. rewrite app_nil_r in Hset.
  assert (set_erase (A ++ T) (length A) (length A) = A ++ T) as E.
  { unfold set_erase. by rewrite take_app_length, drop_app_length. }
  rewrite E in Hset. assert ((range.1, range.2) = range) as Er by (by destruct range).
  rewrite Er in *. exists true, A, range, T. rewrite Hset.
  split_and!; [|done| |lia|lia|done].
  - do 2 f_equal. apply lower_bound_app; [by eapply wf_from_ok|auto with dds| |cbn; lia].
    eapply Forall_impl; [exact HA|]. destruct Hr as (_&_&?). intros x Hx; cbv beta in *; lia.
  - apply insert_range_unique; try done.
Qed.

Lemma widen_low (range h : SequenceRange) hi M :
  sn_ok h.1 -> sn_ok range.1 ->
  (if sn_lt range.1 h.1 then range.1 else h.1, hi) = widen range hi (h :: M).
Proof.
  intros H1 H2. cbn [widen]. rewrite sn_lt_value, sn_gt_value by done.
  destruct (Z.ltb_spec (getValue range.1) (getValue h.1)),
    (Z.ltb_spec (getValue h.1) (getValue range.1)); try lia; try done.
  f_equal. apply getValue_inj; [done|done|lia].
Qed.

Lemma set_replace (A : list SequenceRange) (h : SequenceRange) (M T : list SequenceRange)
    (range : SequenceRange) (hi : SequenceNumber) :
  wf (A ++ (h :: M) ++ T) -> range_ok (range.1, hi) -> getValue range.1 <= getValue range.2 ->
  sn_ok range.2 -> getValue range.2 <= getValue hi ->
  Forall (fun r => getValue r.2 < getValue range.1 - 1) A ->
  Forall (fun r => getValue range.1 - 1 <= getValue r.2 <= getValue hi) (h :: M) ->
  (forall v, getValue range.2 < v <= getValue hi -> covers (h :: M) v) ->
  head_gt (getValue hi + 1) T ->
  ~ (forall v, in_range v range -> covers (A ++ (h :: M) ++ T) v) ->
  let new : SequenceRange := (if sn_lt range.1 h.1 then range.1 else h.1, hi) in
  let s' := set_insert (set_erase (A ++ (h :: M) ++ T) (length A) (length (A ++ h :: M))) new in
  range_ok range ->
  bitmap_inserted (A ++ (h :: M) ++ T) range (Ret (true, s', lower_bound s' new)).
Proof.
  intros Hw Hok' H12 Hs2 Hhi HA HM Hcov HT Hfresh new s' Hr. subst new s'.
  assert (range_ok h) as Hh.
  { pose proof (wf_from_ok _ _ Hw) as Hok. rewrite !Forall_app, Forall_cons in Hok. tauto. }
  rewrite (widen_low range h hi M) by auto with dds.
  destruct (insert_finish A (h :: M) T range hi) as [Hins Hset]; try done.
  destruct (inserted_wf _ _ _ _ _ _ Hw Hins) as [Hw' Hcov'].
  rewrite Hset. destruct Hins as [_ Hnok Hnew Hnlow _ _].
  assert (in_range (getValue range.1) (widen range hi (h :: M))) as Hin1
    by (apply Hnew; left; unfold in_range; lia).
  assert (in_range (getValue range.2) (widen range hi (h :: M))) as Hin2
    by (apply Hnew; left; unfold in_range; lia).
  unfold in_range in Hin1, Hin2. pose proof Hnok as (_&_&?).
  eexists true, A, _, T. split_and!; [|done| |lia|lia|done].
  - do 2 f_equal. apply lower_bound_app; [by eapply wf_from_ok|auto with dds| |cbn; lia].
    eapply Forall_impl; [exact Hnlow|]. intros x Hx; cbv beta in *; lia.
  - by apply insert_range_unique.
Qed.

Lemma top_snoc lo l (r : SequenceRange) : top lo (l ++ [r]) = getValue r.2 + 1.
Proof. revert lo. induction l; intros; cbn; auto. Qed.

(** The merge that goes on into the next range [r], which starts inside [range] or
    right after it. *)
Lemma bitmap_extend (A : list SequenceRange) (h : SequenceRange) (T M R : list SequenceRange) (r range : SequenceRange) :
  wf (A ++ h :: T) -> wf_from (top 0 A) (h :: T) -> range_ok range -> range_ok r ->
  Forall (fun r => getValue r.2 < getValue range.1 - 1) A ->
  ~ (forall v, in_range v range -> covers (A ++ h :: T) v) ->
  h :: T = M ++ r :: R -> Forall (fun r => getValue range.1 - 1 <= getValue r.2 <= getValue range.2) M ->
  getValue range.2 + 1 <= getValue r.2 -> getValue r.1 <= getValue range.2 + 1 ->
  let new : SequenceRange := (if sn_lt range.1 h.1 then range.1 else h.1, r.2) in
  let s' := set_insert (set_erase (A ++ h :: T) (length A) (S (length A + length M))) new in
  bitmap_inserted (A ++ h :: T) range (Ret (true, s', lower_bound s' new)).
Proof.
  intros Hw HwT Hr Hrok HA Hfresh HMR HM' HR Hle. pose proof Hr as (Hr1 & Hr2 & Hr12). pose proof Hrok as (?&?&?).
  assert (exists M', M ++ [r] = h :: M' /\ T = M' ++ R) as (M' & HM1 & ->).
  { destruct M as [|h' M]; injection HMR as <- ->; [by exists []|].
    exists (M ++ [r]). by rewrite <- app_assoc. }
  assert (S (length A + length M) = length (A ++ h :: M')) as ->.
  { rewrite <- HM1, !length_app. cbn. lia. }
  apply (set_replace A h M' R range r.2); auto with dds; try lia.
  - split_and!; cbn; auto; lia.
  - rewrite <- HM1. apply Forall_app. split; [|constructor; [lia|constructor]].
    eapply Forall_impl; [exact HM'|]. intros x Hx; cbv beta in *; lia.
  - intros v Hv. rewrite <- HM1, covers_app, covers_cons. unfold in_range. lia.
  - change (h :: M' ++ R) with ((h :: M') ++ R) in HwT. rewrite <- HM1, wf_from_app, top_snoc in HwT.
    destruct HwT as [_ HwR]. destruct R as [|x R]; [done|]. destruct HwR as (_&HwR&_). cbn [head_gt]. lia.
Qed.

(** The branch that merges [range] with the ranges it touches: [h] is the
    first of them, [M] those that end inside [range], [R] the rest. *)
Lemma bitmap_combine (A : list SequenceRange) (h : SequenceRange) (T M R : list SequenceRange)
    (range : SequenceRange) :
  wf (A ++ h :: T) -> wf_from (top 0 A) (h :: T) -> range_ok range ->
  Forall (fun r => getValue r.2 < getValue range.1 - 1) A ->
  getValue range.1 - 1 <= getValue h.2 -> getValue h.1 <= getValue range.2 + 1 ->
  getValue range.1 < getValue h.1 \/ getValue h.2 < getValue range.2 ->
  ~ (forall v, in_range v range -> covers (A ++ h :: T) v) ->
  h :: T = M ++ R -> Forall (fun r => getValue r.2 < getValue range.2 + 1) M ->
  head_ge (getValue range.2 + 1) R ->
  let nxt := of_value (getValue range.2 + 1) in
  bitmap_inserted (A ++ h :: T) range
    (let '(high, right_) :=
       match (A ++ h :: T) !! (length A + length M)%nat with
       | Some r => if sn_le r.1 nxt && sn_gt r.1 range.1 then (r.2, S (length A + length M))
                   else (range.2, (length A + length M)%nat)
       | None => (range.2, (length A + length M)%nat)
       end in
     let low := if sn_lt range.1 h.1 then range.1 else h.1 in
     let seqs' := set_insert (set_erase (A ++ h :: T) (length A) right_) (low, high) in
     Ret (true, seqs', lower_bound seqs' (low, high))).
Proof.
  intros Hw HwT Hr HA Hh2 Hh1 Hcase Hfresh HMR HM HR nxt.
  pose proof Hr as (Hr1 & Hr2 & Hr12).
  assert (getValue nxt = getValue range.2 + 1 /\ sn_ok nxt) as [Hnext Hnok].
  { subst nxt. rewrite getValue_of_value by lia. destruct Hr2. unfold MIN_VALUE in *.
    split; [lia|]. apply sn_valid_ok, of_value_valid. lia. }
  pose proof (head_ge_Forall _ (getValue range.1 - 1) _ HwT Hh2) as HTge.
  pose proof (wf_from_ok _ _ HwT) as HokT.
  assert ((A ++ h :: T) !! (length A + length M)%nat = head R) as ->.
  { rewrite HMR, app_assoc, <- length_app. apply lookup_app_head. }
  assert (Forall (fun r => getValue range.1 - 1 <= getValue r.2 <= getValue range.2) M) as HM'.
  { rewrite HMR in HTge. apply Forall_app in HTge as [HTge _].
    rewrite Forall_forall in HM, HTge |- *. intros x Hx. specialize (HM x Hx). specialize (HTge x Hx).
    cbv beta in *. lia. }
  (* without an extension on the right *)
  assert (head_gt (getValue range.2 + 1) R -> M <> [] ->
    let low := if sn_lt range.1 h.1 then range.1 else h.1 in
    let seqs' := set_insert (set_erase (A ++ h :: T) (length A) (length A + length M)) (low, range.2) in
    bitmap_inserted (A ++ h :: T) range (Ret (true, seqs', lower_bound seqs' (low, range.2)))) as Hno.
  { intros HR' HMne. destruct M as [|h' M]; [done|]. injection HMR as <- ->.
    rewrite <- length_app. apply (set_replace A h M R range range.2); auto with dds; try lia. }
  destruct R as [|r R]; cbn [head].
  { apply Hno; [done|]. intros ->. discriminate. }
  assert (range_ok r) as Hrok.
  { rewrite HMR, Forall_app, Forall_cons in HokT. tauto. }
  pose proof Hrok as (?&?&?). cbn [head_ge] in HR.
  rewrite sn_le_value, sn_gt_value, Hnext by auto with dds.
  destruct (Z.leb_spec (getValue r.1) (getValue range.2 + 1)).
  2: { apply Hno; [done|]. intros ->. injection HMR as -> ->. lia. }
  assert (getValue range.1 < getValue r.1) as Hlt.
  { destruct M as [|h' M]; injection HMR as <- ->; [lia|].
    destruct HwT as (_&_&HwT). rewrite wf_from_app in HwT. destruct HwT as [HwM (_&?&_)].
    pose proof (top_le _ _ HwM). lia. }
  rewrite (proj2 (Z.ltb_lt _ _) Hlt). cbn [andb].
  by apply (bitmap_extend A h T M R r range).
Qed.

(** [insert_bitmap_range] after its search for the starting point. *)
Lemma insert_bitmap_range_at (A T : list SequenceRange) range :
  wf (A ++ T) -> range_ok range ->
  Forall (fun r => getValue r.2 < getValue range.1 - 1) A -> head_ge (getValue range.1 - 1) T ->
  forall iter,
  (if ds_empty (A ++ T) then iter
   else if bool_decide (iter = length (A ++ T))
     then lower_bound (A ++ T) (of_value 1, of_value (getValue range.1 - 1))
     else skip_below (of_value (getValue range.1 - 1)) (drop iter (A ++ T)) iter) = length A ->
  bitmap_inserted (A ++ T) range (insert_bitmap_range (A ++ T) iter range).
Proof.
  intros Hw Hr HA HT iter Hstart. unfold insert_bitmap_range. rewrite Hstart, lookup_app_head.
  pose proof Hr as (Hr1 & Hr2 & Hr12).
  assert (getValue (of_value (getValue range.2 + 1)) = getValue range.2 + 1) as Hnext.
  { rewrite getValue_of_value by lia. destruct Hr2. unfold MIN_VALUE in *. lia. }
  assert (sn_ok (of_value (getValue range.2 + 1))) as Hnok by (apply sn_valid_ok, of_value_valid; lia).
  destruct T as [|h T]; cbn [head].
  { apply set_insert_fresh; auto. by apply not_covered_at. }
  assert (range_ok h) as Hh.
  { pose proof (wf_from_ok _ _ Hw) as Hok. rewrite Forall_app, Forall_cons in Hok. tauto. }
  cbn [head_ge] in HT. rewrite sn_gt_value, Hnext by auto with dds.
  destruct (Z.ltb_spec (getValue range.2 + 1) (getValue h.1)) as [Hfar|Hnear].
  { apply set_insert_fresh; auto. apply not_covered_at; auto. lia. }
  rewrite sn_le_value, sn_ge_value by auto with dds.
  destruct ((getValue h.1 <=? getValue range.1) && (getValue range.2 <=? getValue h.2)) eqn:Hcase.
  { bool_hyps. exists false, A, h, T. split_and!; [done|done| |lia|lia|done].
    assert (forall v, in_range v range -> covers (A ++ h :: T) v) as Hall.
    { intros v Hv. rewrite covers_app, covers_cons. unfold in_range in *. lia. }
    apply insert_range_unique; try done. intros v. specialize (Hall v). tauto. }
  apply andb_false_iff in Hcase. rewrite !Z.leb_gt in Hcase.
  rewrite drop_app_length, skip_below_lower_bound.
  assert (~ (forall v, in_range v range -> covers (A ++ h :: T) v)) as Hfresh
    by (apply not_covered_at; auto; cbv beta; lia).
  pose proof Hw as Hw'. unfold wf in Hw'. rewrite wf_from_app in Hw'. destruct Hw' as [HwA HwT].
  destruct (lower_bound_split (h :: T) (of_value 1, of_value (getValue range.2 + 1)))
    as (M & R & HMR & -> & HM & HR); [by eapply wf_from_ok|done|].
  cbn [snd] in HM, HR. rewrite Hnext in HM, HR.
  apply (bitmap_combine A h T M R range); auto.
Qed.

Lemma insert_bitmap_range_spec seqs iter range :
  wf seqs -> range_ok range -> (iter <= length seqs)%nat ->
  iter = length seqs \/ Forall (fun r => getValue r.2 < getValue range.1 - 1) (take iter seqs) ->
  bitmap_inserted seqs range (insert_bitmap_range seqs iter range).
Proof.
  intros Hw Hr Hle Hit. pose proof (start_is_lower_bound seqs iter range Hw Hr Hle Hit) as Hs.
  destruct (prev_split seqs range Hw Hr) as (A & T & -> & Hlb & HA & HT).
  apply insert_bitmap_range_at; [done..|]. by rewrite Hs.
Qed.

(** ** Bits of an array of words *)

Definition bit_at (bitmap : list Z) (i : Z) : bool :=
  Z.testbit (default 0 (bitmap !! Z.to_nat (i / 32))) (31 - i mod 32).

Lemma elem_of_count_up a b x : x ∈ count_up a b <-> a <= x < b.
Proof.
  unfold count_up. rewrite list_elem_of_fmap. split.
  - intros (k & -> & Hk). apply elem_of_seq in Hk. lia.
  - intros Hx. exists (Z.to_nat (x - a)). rewrite elem_of_seq. lia.
Qed.

Lemma shiftl_1_bit b m : 0 <= b <= 31 -> 0 <= m <= 31 ->
  Z.testbit (Z.shiftl 1 (31 - b)) (31 - m) = bool_decide (m = b).
Proof.
  intros. rewrite Z.shiftl_1_l, Z.pow2_bits_eqb by lia.
  symmetry. destruct (Z.eqb_spec (31 - b) (31 - m)); [apply bool_decide_eq_true|apply bool_decide_eq_false]; lia.
Qed.

Lemma foldl_set_bit x l m :
  Forall (fun b => 0 <= b <= 31) l -> 0 <= m <= 31 ->
  Z.testbit (foldl set_bit x l) (31 - m) = Z.testbit x (31 - m) || bool_decide (m ∈ l).
Proof.
  intros Hl Hm. revert x. induction Hl as [|b l Hb _ IH]; intros x; cbn [foldl].
  { by rewrite orb_false_r. }
  rewrite IH. unfold set_bit. rewrite Z.lor_spec, shiftl_1_bit by done.
  rewrite <- orb_assoc. f_equal. rewrite <- bool_decide_or. apply bool_decide_ext. set_solver.
Qed.

Lemma foldl_clear_bit x l m :
  Forall (fun b => 0 <= b <= 31) l -> 0 <= m <= 31 ->
  Z.testbit (foldl clear_bit x l) (31 - m) = Z.testbit x (31 - m) && bool_decide (m ∉ l).
Proof.
  intros Hl Hm. revert x. induction Hl as [|b l Hb _ IH]; intros x; cbn [foldl].
  { by rewrite bool_decide_true, andb_true_r by set_solver. }
  rewrite IH. unfold clear_bit. rewrite Z.land_spec, Z.lnot_spec, shiftl_1_bit by lia.
  rewrite <- andb_assoc, <- bool_decide_not. f_equal.
  rewrite <- bool_decide_and. apply bool_decide_ext. set_solver.
Qed.

Lemma write_words_spec from to x a :
  0 <= from -> to <= Z.of_nat (length a) ->
  exists a', write_words from to x a = Ret a' /\ length a' = length a /\
    forall j, 0 <= j < Z.of_nat (length a) ->
      default 0 (a' !! Z.to_nat j) = if (from <=? j) && (j <? to) then x else default 0 (a !! Z.to_nat j).
Proof.
  intros Hf Ht. unfold write_words, count_up.
  assert (from + Z.of_nat (Z.to_nat (to - from)) = Z.max from to) as Hmax by lia.
  assert (forall n, from + Z.of_nat n <= Z.of_nat (length a) \/ n = 0%nat ->
    exists a', foldl (fun m i => a ← m; arr_write a i x) (Ret a)
                 ((fun k => from + Z.of_nat k) <$> seq 0 n) = Ret a' /\ length a' = length a /\
      forall j, 0 <= j < Z.of_nat (length a) ->
        default 0 (a' !! Z.to_nat j) =
          if (from <=? j) && (j <? from + Z.of_nat n) then x else default 0 (a !! Z.to_nat j)) as Hn.
  { induction n as [|n IH]; intros Hle.
    - exists a. split_and!; [done|done|]. intros j Hj. case_match; [|done]. bool_hyps. lia.
    - destruct IH as (a' & Ha' & Hl & Hj); [lia|].
      rewrite seq_S, fmap_app, foldl_app, Ha'. cbn. unfold arr_write.
      rewrite (proj2 (Z.ltb_lt _ _)) by lia. eexists. split_and!; [done|by rewrite length_insert|].
      intros j Hjb. destruct (decide (j = from + Z.of_nat n)) as [->|Hne].
      + rewrite list_lookup_insert_eq by lia. cbn.
        by rewrite (proj2 (Z.leb_le _ _)), (proj2 (Z.ltb_lt _ _)) by lia.
      + rewrite list_lookup_insert_ne, Hj by lia.
        destruct (Z.leb_spec from j); [|done]. cbn [andb].
        by destruct (Z.ltb_spec j (from + Z.of_nat n)), (Z.ltb_spec j (from + Z.of_nat (S n))); try lia. }
  destruct (Hn (Z.to_nat (to - from))) as (a' & ? & ? & Hj); [lia|].
  exists a'. split_and!; [done|done|]. intros j Hjb. rewrite Hj by done. rewrite Hmax.
  destruct (Z.leb_spec from j); [|done]. cbn [andb].
  by destruct (Z.ltb_spec j (Z.max from to)), (Z.ltb_spec j to); try lia.
Qed.

Lemma arr_read_ok a i : 0 <= i < Z.of_nat (length a) -> arr_read a i = Ret (default 0 (a !! Z.to_nat i)).
Proof.
  intros Hi. unfold arr_read. destruct (lookup_lt_is_Some_2 a (Z.to_nat i)) as [x Hx]; [lia|].
  by rewrite Hx.
Qed.

Lemma arr_write_ok a i x :
  0 <= i < Z.of_nat (length a) -> exists a', arr_write a i x = Ret a' /\ length a' = length a /\
    forall j, 0 <= j < Z.of_nat (length a) ->
      default 0 (a' !! Z.to_nat j) = if j =? i then x else default 0 (a !! Z.to_nat j).
Proof.
  intros Hi. unfold arr_write. rewrite (proj2 (Z.ltb_lt _ _)) by lia.
  eexists. split_and!; [done|by rewrite length_insert|]. intros j Hj.
  destruct (Z.eqb_spec j i) as [->|]; [by rewrite list_lookup_insert_eq by lia|].
  by rewrite list_lookup_insert_ne by lia.
Qed.

Lemma count_up_bits a b :
  0 <= a -> b <= 32 -> Forall (fun m => 0 <= m <= 31) (count_up a b).
Proof. intros. apply Forall_forall. intros x Hx. apply elem_of_count_up in Hx. lia. Qed.

Lemma bool_decide_count_up m a b : bool_decide (m ∈ count_up a b) = (a <=? m) && (m <? b).
Proof.
  apply eq_bool_prop_intro. rewrite bool_decide_spec, elem_of_count_up, Is_true_true.
  rewrite andb_true_iff, Z.leb_le, Z.ltb_lt. tauto.
Qed.

(** All bits of the array from [from] on are zero. *)
Definition clear_from (bitmap : list Z) (from : Z) : Prop :=
  forall i, from <= i < 32 * Z.of_nat (length bitmap) -> bit_at bitmap i = false.

Lemma bit_at_word a w m : 0 <= m <= 31 -> bit_at a (32 * w + m) = Z.testbit (default 0 (a !! Z.to_nat w)) (31 - m).
Proof.
  intros. unfold bit_at. replace (32 * w + m) with (m + w * 32) by lia.
  by rewrite Z.div_add, Z.mod_add, Z.div_small, Z.mod_small, Z.add_0_l by lia.
Qed.

(** The word written at [idx_low]. *)
Lemma low_word_bits bitmap num_bits idx bit_low limit m :
  0 <= num_bits <= 32 * idx + bit_low -> 0 <= bit_low <= 31 -> 0 <= limit <= 31 -> 0 <= m <= 31 ->
  0 <= idx < Z.of_nat (length bitmap) -> clear_from bitmap num_bits ->
  let x := default 0 (bitmap !! Z.to_nat idx) in
  let x1 := if 0 <? num_bits then
      let bit_last := if (num_bits - 1) / 32 =? idx then (num_bits - 1) mod 32 + 1 else 0 in
      foldl clear_bit x (count_up bit_last bit_low)
    else 0 in
  Z.testbit (foldl set_bit x1 (count_up bit_low (limit + 1))) (31 - m)
  = bit_at bitmap (32 * idx + m) || ((bit_low <=? m) && (m <=? limit)).
Proof.
  intros Hn Hb Hl Hm Hi Hc x x1.
  rewrite foldl_set_bit, bool_decide_count_up by (try apply count_up_bits; lia).
  f_equal; [|f_equal; apply eq_bool_prop_intro; rewrite !Is_true_true, Z.ltb_lt, Z.leb_le; lia].
  subst x1 x. destruct (Z.ltb_spec 0 num_bits).
  - set (bl := if (num_bits - 1) / 32 =? idx then (num_bits - 1) mod 32 + 1 else 0).
    assert (0 <= bl /\ num_bits <= 32 * idx + bl) as [Hbl1 Hbl2].
    { subst bl. pose proof (Z.mod_pos_bound (num_bits - 1) 32). pose proof (Z.div_mod (num_bits - 1) 32).
      destruct (Z.eqb_spec ((num_bits - 1) / 32) idx); [lia|].
      assert ((num_bits - 1) / 32 <= idx); [|lia]. apply Z.lt_succ_r, Z.div_lt_upper_bound; lia. }
    cbn zeta. rewrite foldl_clear_bit by (try apply count_up_bits; lia).
    rewrite <- bit_at_word by lia.
    destruct (Z.le_gt_cases bl m).
    + rewrite (Hc (32 * idx + m)) by lia. done.
    + rewrite bool_decide_true, andb_true_r; [done|]. rewrite elem_of_count_up. lia.
  - rewrite Z.testbit_0_l. symmetry. apply Hc. lia.
Qed.

Lemma testbit_ones32 m : 0 <= m <= 31 -> Z.testbit 4294967295 (31 - m) = true.
Proof.
  intros. change 4294967295 with (Z.ones 32). rewrite Z.testbit_ones_nonneg by lia.
  apply Z.ltb_lt. lia.
Qed.

(** The words of the array after the first word, those between and the last word
    were written. *)
Definition filled_words (a a' : list Z) (il ih x2 x3 : Z) : Prop :=
  length a' = length a /\ forall j, 0 <= j < Z.of_nat (length a) ->
    default 0 (a' !! Z.to_nat j) = if j =? il then x2 else if (il <? j) && (j <? ih) then 4294967295
      else if j =? ih then x3 else default 0 (a !! Z.to_nat j).

Lemma fill_words_spec {A} (a : list Z) il ih x2 x3 (k : list Z -> outcome A) :
  0 <= il <= ih -> ih < Z.of_nat (length a) ->
  exists a', filled_words a a' il ih x2 x3 /\
    (a2 ← arr_write a il x2; a3 ← write_words (il + 1) ih 4294967295 a2; a4 ← (if il <? ih then arr_write a3 ih x3 else Ret a3); k a4) = k a'.
Proof.
  intros Hil Hih. destruct (arr_write_ok a il x2) as (a2 & -> & Hl2 & Ha2); [lia|]. cbn [mbind outcome_bind].
  destruct (write_words_spec (il + 1) ih 4294967295 a2) as (a3 & -> & Hl3 & Ha3); [lia|lia|]. cbn [mbind outcome_bind].
  destruct (Z.ltb_spec il ih).
  - destruct (arr_write_ok a3 ih x3) as (a4 & -> & Hl4 & Ha4); [lia|]. exists a4. split; [|done]. split; [lia|].
    intros j Hj. rewrite Ha4, Ha3, Ha2 by lia.
    destruct (Z.eqb_spec j ih), (Z.eqb_spec j il), (Z.leb_spec (il + 1) j), (Z.ltb_spec j ih), (Z.ltb_spec il j); try lia; done.
  - exists a3. split; [|done]. split; [lia|]. intros j Hj. rewrite Ha3, Ha2 by lia.
    destruct (Z.eqb_spec j ih), (Z.eqb_spec j il), (Z.leb_spec (il + 1) j), (Z.ltb_spec j ih), (Z.ltb_spec il j); try lia; done.
Qed.

Lemma filled_bits bitmap a1 a4 num_bits low hi :
  let il := low / 32 in let bl := low mod 32 in let ih := hi / 32 in let bh := hi mod 32 in
  0 <= num_bits <= low -> low <= hi -> hi < 32 * Z.of_nat (length bitmap) -> clear_from bitmap num_bits -> length a1 = length bitmap ->
  (forall j, 0 <= j < Z.of_nat (length bitmap) ->
     default 0 (a1 !! Z.to_nat j) = if ((num_bits + 31) / 32 <=? j) && (j <? il) then 0 else default 0 (bitmap !! Z.to_nat j)) ->
  filled_words a1 a4 il ih
    (let x := default 0 (bitmap !! Z.to_nat il) in
     let x := if 0 <? num_bits
              then foldl clear_bit x (count_up (if (num_bits - 1) / 32 =? il then (num_bits - 1) mod 32 + 1 else 0) bl) else 0 in
     foldl set_bit x (count_up bl ((if ih =? il then bh else 31) + 1)))
    (foldl set_bit 0 (count_up 0 (bh + 1))) ->
  forall i, 0 <= i < 32 * Z.of_nat (length bitmap) -> bit_at a4 i = bit_at bitmap i || ((low <=? i) && (i <=? hi)).
Proof.
  intros il bl ih bh Hn Hlh Hhi Hc Hl1 Ha1 [Hl4 Ha4] i Hi.
  pose proof (Z.div_mod low 32). pose proof (Z.mod_pos_bound low 32). pose proof (Z.div_mod hi 32). pose proof (Z.mod_pos_bound hi 32).
  pose proof (Z.div_mod (num_bits + 31) 32). pose proof (Z.mod_pos_bound (num_bits + 31) 32).
  pose proof (Z.div_mod i 32 ltac:(lia)) as Hi32. pose proof (Z.mod_pos_bound i 32).
  subst il bl ih bh. set (il := low / 32) in *. set (bl := low mod 32) in *. set (ih := hi / 32) in *. set (bh := hi mod 32) in *.
  set (w := i / 32) in *. set (m := i mod 32) in *. clearbody w m. subst i. rewrite (bit_at_word a4), Ha4 by lia.
  destruct (Z.eqb_spec w il) as [->|]; [|destruct ((il <? w) && (w <? ih)) eqn:Hin; [|destruct (Z.eqb_spec w ih) as [->|]]].
  - etransitivity;
      [apply (low_word_bits bitmap num_bits il bl (if ih =? il then bh else 31) m);
       solve [destruct (ih =? il); lia | done]|].
    f_equal. apply eq_bool_prop_intro. rewrite !Is_true_true, !andb_true_iff, !Z.leb_le.
    destruct (Z.eqb_spec ih il); lia.
  - bool_hyps. rewrite testbit_ones32 by lia. symmetry. apply orb_true_iff. right.
    apply andb_true_iff. rewrite !Z.leb_le. lia.
  - apply andb_false_iff in Hin. rewrite !Z.ltb_ge in Hin. rewrite (Hc (32 * ih + m)) by lia.
    rewrite foldl_set_bit, bool_decide_count_up by (try apply count_up_bits; lia).
    rewrite Z.testbit_0_l. cbn [orb]. apply eq_bool_prop_intro.
    rewrite !Is_true_true, !andb_true_iff, !Z.leb_le, Z.ltb_lt. lia.
  - apply andb_false_iff in Hin. rewrite !Z.ltb_ge in Hin.
    assert ((low <=? 32 * w + m) && (32 * w + m <=? hi) = false) as ->.
    { apply andb_false_iff. rewrite !Z.leb_gt. lia. }
    rewrite orb_false_r, Ha1 by lia. destruct ((num_bits + 31) / 32 <=? w) eqn:Hz; cbn [andb]; bool_hyps.
    + destruct (Z.ltb_spec w il); rewrite <- ?bit_at_word by lia; [|done].
      rewrite Z.testbit_0_l. symmetry. apply Hc. lia.
    + by rewrite <- bit_at_word by lia.
Qed.

(** One call on an array whose bits above [num_bits] are zero. *)
Lemma fill_bitmap_range_spec low high bitmap num_bits :
  let len := Z.of_nat (length bitmap) in
  32 * len < 2 ^ 32 -> 0 <= num_bits <= low -> low <= high -> low < 32 * len ->
  clear_from bitmap num_bits ->
  exists bitmap', fill_bitmap_range low high bitmap len num_bits
      = Ret (high <? 32 * len, bitmap', Z.min high (32 * len - 1) + 1) /\
    length bitmap' = length bitmap /\
    forall i, 0 <= i < 32 * len ->
      bit_at bitmap' i = bit_at bitmap i || ((low <=? i) && (i <=? high)).
Proof.
  intros len Hlen Hn Hlh Hlow Hc. unfold fill_bitmap_range.
  change (2 ^ 32) with 4294967296 in Hlen.
  pose proof (Z.div_mod low 32). pose proof (Z.mod_pos_bound low 32).
  pose proof (Z.div_mod high 32). pose proof (Z.mod_pos_bound high 32).
  rewrite (proj2 (Z.leb_gt _ _)) by lia.
  set (clamped := len <=? high / 32).
  set (hi := if clamped then uwrap 32 (len * 32 - 1) else high).
  assert (hi = Z.min high (32 * len - 1) /\ negb clamped = (high <? 32 * len)) as [Hhi ->].
  { subst hi clamped. destruct (Z.leb_spec len (high / 32)).
    - rewrite uwrap_small by (unfold is_u; change (2 ^ 32) with 4294967296; lia).
      split; [lia|]. symmetry. apply Z.ltb_ge. lia.
    - split; [lia|]. symmetry. apply Z.ltb_lt. lia. }
  assert ((if clamped then len - 1 else hi / 32) = hi / 32) as ->.
  { subst clamped. destruct (Z.leb_spec len (high / 32)); [|done].
    apply Z.div_unique with 31; lia. }
  clearbody hi clamped. pose proof (Z.div_mod hi 32). pose proof (Z.mod_pos_bound hi 32).
  rewrite (uwrap_small 32 (num_bits + 31)) by (unfold is_u; change (2 ^ 32) with 4294967296; lia).
  pose proof (Z.div_mod (num_bits + 31) 32). pose proof (Z.mod_pos_bound (num_bits + 31) 32).
  destruct (write_words_spec ((num_bits + 31) / 32) (low / 32) 0 bitmap) as (a1 & -> & Hl1 & Ha1); [lia|lia|].
  cbn [mbind outcome_bind]. rewrite arr_read_ok by lia. cbn [mbind outcome_bind].
  assert (default 0 (a1 !! Z.to_nat (low / 32)) = default 0 (bitmap !! Z.to_nat (low / 32))) as ->.
  { rewrite Ha1 by lia. by rewrite Z.ltb_irrefl, andb_false_r. }
  match goal with |- context [mbind ?k (arr_write a1 _ ?x)] => destruct (fill_words_spec a1 (low / 32) (hi / 32) x
    (foldl set_bit 0 (count_up 0 (hi mod 32 + 1))) (fun a => Ret (high <? 32 * len, a, uwrap 32 (hi + 1)))) as (a4 & Hf & E); [lia|lia|] end.
  exists a4. rewrite (uwrap_small 32 (hi + 1)) in * by (unfold is_u; change (2 ^ 32) with 4294967296; lia).
  rewrite <- Hhi. split; [exact E|]. split; [destruct Hf; lia|]. intros i Hi.
  rewrite (filled_bits bitmap a1 a4 num_bits low hi Hn ltac:(lia) ltac:(lia) Hc Hl1 Ha1 Hf i Hi).
  f_equal. f_equal. apply eq_bool_prop_intro. rewrite !Is_true_true, !Z.leb_le. lia.
Qed.

(** ** The whole bitmap *)

(** The ranges [to_bitmap] writes after [prev]. *)
Definition wanted (invert : bool) (prev : SequenceRange) (rest : list SequenceRange)
    : list SequenceRange := if invert then missing_loop prev rest else rest.

(** The values after [base] that the array represents: [nb] bits so far. *)
Record bitmap_adds (base : Z) (L : list SequenceRange) (bitmap bitmap' : list Z) (nb nb' : Z)
    (ok : bool) : Prop := {
  ba_length : length bitmap' = length bitmap;
  ba_nb : nb <= nb' <= 32 * Z.of_nat (length bitmap);
  ba_clear : clear_from bitmap' nb';
  ba_bits : forall i, 0 <= i < 32 * Z.of_nat (length bitmap) ->
    bit_at bitmap' i = true <-> bit_at bitmap i = true \/ covers L (base + i);
  ba_ok : ok = true <-> forall v, covers L v -> v < base + 32 * Z.of_nat (length bitmap) }.

Lemma bitmap_adds_nil base bitmap nb :
  0 <= nb <= 32 * Z.of_nat (length bitmap) -> clear_from bitmap nb ->
  bitmap_adds base [] bitmap bitmap nb nb true.
Proof.
  intros. split; auto; [lia| |].
  - intros i Hi. unfold covers. rewrite Exists_nil. tauto.
  - split; [|done]. intros _ v Hv. by apply Exists_nil in Hv.
Qed.

Lemma covers_single lo hi v : covers [(lo, hi)] v <-> getValue lo <= v <= getValue hi.
Proof. rewrite covers_cons. unfold covers. rewrite Exists_nil. unfold in_range. cbn [fst snd]. tauto. Qed.

(** One [fill_bitmap_range] of the loop, for the range of values [ql..qh]. *)
Lemma bitmap_adds_one base ql qh bitmap nb :
  let len := Z.of_nat (length bitmap) in
  32 * len < 2 ^ 32 -> 0 <= nb <= 32 * len -> clear_from bitmap nb ->
  base + nb <= getValue ql <= getValue qh -> getValue qh - base < 2 ^ 32 ->
  exists ok bitmap' nb',
    fill_bitmap_range (uwrap 32 (getValue ql - base)) (uwrap 32 (getValue qh - base)) bitmap len nb
      = Ret (ok, bitmap', nb') /\
    bitmap_adds base [(ql, qh)] bitmap bitmap' nb nb' ok /\
    nb' <= getValue qh + 1 - base.
Proof.
  intros len Hlen Hnb Hc Hq Hq32.
  rewrite !uwrap_small by (unfold is_u; lia).
  destruct (Z.lt_ge_cases (getValue ql - base) (32 * len)) as [Hlt|Hge].
  - destruct (fill_bitmap_range_spec (getValue ql - base) (getValue qh - base) bitmap nb)
      as (bm' & Hf & Hl & Hb); [done|lia|lia|done|done|].
    eexists _, bm', _. split; [exact Hf|]. split; [|lia]. fold len in Hb |- *. split.
    + done.
    + fold len. lia.
    + intros i. rewrite Hl. fold len. intros Hi. rewrite Hb by lia.
      rewrite (Hc i) by (fold len; lia). cbn [orb]. apply andb_false_iff. rewrite !Z.leb_gt. lia.
    + fold len. intros i Hi. rewrite Hb, orb_true_iff, andb_true_iff, !Z.leb_le, covers_single by lia.
      split; (intros [?|?]; [by left|right; lia]).
    + fold len. rewrite Z.ltb_lt. setoid_rewrite covers_single. split; [lia|].
      intros Hall. specialize (Hall (getValue qh)). lia.
  - exists false, bitmap, nb. split_and!; [|split|lia].
    + unfold fill_bitmap_range. rewrite (proj2 (Z.leb_le _ _)); [done|].
      apply Z.div_le_lower_bound; lia.
    + done.
    + fold len. lia.
    + done.
    + fold len. intros i Hi. rewrite covers_single. split; [by left|]. intros [?|?]; [done|lia].
    + fold len. split; [done|]. setoid_rewrite covers_single. intros Hall.
      specialize (Hall (getValue ql)). lia.
Qed.

Lemma bitmap_adds_app base L1 L2 b b1 b2 nb nb1 nb2 ok :
  bitmap_adds base L1 b b1 nb nb1 true -> bitmap_adds base L2 b1 b2 nb1 nb2 ok ->
  bitmap_adds base (L1 ++ L2) b b2 nb nb2 ok.
Proof.
  intros [Hl1 Hn1 _ Hb1 Ho1] [Hl2 Hn2 Hc2 Hb2 Ho2]. rewrite Hl1 in *. split; auto; [lia| |].
  - intros i Hi. rewrite Hb2, Hb1, covers_app by done. tauto.
  - rewrite Ho2. pose proof (proj1 Ho1 eq_refl). setoid_rewrite covers_app. naive_solver.
Qed.

Lemma bitmap_adds_stop base ql qh L2 b b1 nb nb1 :
  bitmap_adds base [(ql, qh)] b b1 nb nb1 false -> (forall v, covers L2 v -> getValue qh < v) ->
  bitmap_adds base ((ql, qh) :: L2) b b1 nb nb1 false.
Proof.
  intros [Hl Hn Hc Hb Ho] HL. change ((ql, qh) :: L2) with ([(ql, qh)] ++ L2).
  assert (~ forall v, covers [(ql, qh)] v -> v < base + 32 * Z.of_nat (length b)) as Hno
    by (intros Hall; by apply Ho in Hall).
  assert (base + 32 * Z.of_nat (length b) <= getValue qh) as Hfar.
  { destruct (Z.le_gt_cases (base + 32 * Z.of_nat (length b)) (getValue qh)); [done|].
    destruct Hno. intros v. rewrite covers_single. lia. }
  split; auto.
  - intros i Hi. rewrite Hb, covers_app by done. specialize (HL (base + i)). naive_solver lia.
  - split; [done|]. intros Hall. destruct Hno. intros v Hv. apply Hall, covers_app. by left.
Qed.

(** The next range written by the loop and those after it. *)
Lemma wanted_cons lo invert prev it rest :
  wf_from lo (prev :: it :: rest) -> exists ql qh,
    wanted invert prev (it :: rest) = (ql, qh) :: wanted invert it rest /\
    getValue prev.2 + 1 <= getValue ql <= getValue qh /\ getValue qh <= getValue it.2 /\
    getValue ql = (if invert then getValue prev.2 + 1 else getValue it.1) /\
    getValue qh = (if invert then getValue it.1 - 1 else getValue it.2) /\
    forall v, covers (wanted invert it rest) v -> getValue qh < v.
Proof.
  intros (Hp & _ & (Hi & Hlt & Hw)). pose proof Hp as (Hp1&?&?).
  assert (1 <= getValue prev.1) by (by destruct Hp1). pose proof Hi as (Hi1&?&?).
  assert (1 <= getValue it.1) by (by destruct Hi1). destruct invert; cbn [wanted].
  - assert (getValue (next prev.2) = getValue prev.2 + 1) as Hn.
    { rewrite getValue_next by auto with dds. by rewrite (proj2 (Z.eqb_neq _ _)) by lia. }
    assert (getValue (previous it.1) = getValue it.1 - 1) as Hpr.
    { rewrite getValue_previous by auto with dds. rewrite (proj2 (Z.eqb_neq _ _)); [done|lia]. }
    exists (next prev.2), (previous it.1). cbn [missing_loop].
    rewrite sn_le_value, (proj2 (Z.leb_le _ _)) by (auto with dds; lia).
    split_and!; try done; try lia. intros v Hv.
    apply missing_loop_spec in Hv; [lia|]. cbn. split_and!; [done|lia|done].
  - exists it.1, it.2. split_and!; try lia; [by destruct it|]. intros v Hv.
    pose proof (covers_above _ _ _ Hw Hv). lia.
Qed.

Lemma to_bitmap_loop_spec base invert rest : forall lo prev bitmap nb,
  let len := Z.of_nat (length bitmap) in
  wf_from lo (prev :: rest) -> 32 * len < 2 ^ 32 -> 0 <= nb <= 32 * len ->
  getValue base + nb <= getValue prev.2 + 1 -> clear_from bitmap nb ->
  (forall v, covers rest v -> v - getValue base < 2 ^ 32) ->
  exists ok bitmap' nb', to_bitmap_loop base invert prev rest bitmap len nb = Ret (ok, bitmap', nb') /\
    bitmap_adds (getValue base) (wanted invert prev rest) bitmap bitmap' nb nb' ok.
Proof.
  induction rest as [|it rest IH]; intros lo prev bitmap nb len Hw Hlen Hnb Hbase Hc Hfit.
  { exists true, bitmap, nb. split; [done|].
    assert (wanted invert prev [] = []) as -> by (by destruct invert). by apply bitmap_adds_nil. }
  destruct (wanted_cons lo invert prev it rest Hw) as (ql & qh & -> & Hq & Hqi & Eql & Eqh & Hafter).
  destruct Hw as (Hp & _ & Hw). pose proof Hw as (Hi & _ & Hw'). pose proof Hi as (_&_&?).
  pose proof (Hfit (getValue it.2)
    ltac:(apply covers_cons; left; unfold in_range; lia)) as Hfit2.
  destruct (bitmap_adds_one (getValue base) ql qh bitmap nb) as (ok & bm1 & nb1 & Hf & Hadd & Hnb1);
    [done|done|done|lia|lia|].
  cbn [to_bitmap_loop]. rewrite Eql, Eqh in Hf. fold len in Hf. 
  replace (if invert then getValue prev.2 + 1 - getValue base else getValue it.1 - getValue base)
    with ((if invert then getValue prev.2 + 1 else getValue it.1) - getValue base) by (by destruct invert).
  replace (if invert then getValue it.1 - 1 - getValue base else getValue it.2 - getValue base)
    with ((if invert then getValue it.1 - 1 else getValue it.2) - getValue base) by (by destruct invert).
  rewrite Hf. cbn [mbind outcome_bind]. destruct ok.
  - assert (length bm1 = length bitmap) as Hl by (by destruct Hadd).
    destruct (IH _ it bm1 nb1 Hw) as (ok & bm2 & nb2 & Hloop & Hadd2); rewrite ?Hl; try done.
    + destruct Hadd as [_ ? _ _ _]. lia.
    + lia.
    + by destruct Hadd.
    + intros v Hv. apply Hfit, covers_cons. by right.
    + exists ok, bm2, nb2. unfold len. rewrite <- Hl at 1. split; [done|].
      by apply (bitmap_adds_app _ [(ql, qh)] _ bitmap bm1 bm2 nb nb1 nb2 ok).
  - exists false, bm1, nb1. split; [done|]. by apply bitmap_adds_stop.
Qed.

(** ** Insertion of a bitmap *)

Lemma range_ok_of_value a b :
  1 <= a <= b -> b < MAX_VALUE ->
  range_ok (of_value a, of_value b) /\ getValue (of_value a) = a /\ getValue (of_value b) = b.
Proof.
  intros Ha Hb. unfold range_ok. cbn [fst snd].
  rewrite !getValue_of_value by lia. unfold MIN_VALUE.
  split_and!; try lia; apply of_value_valid; lia.
Qed.

Lemma covers_Forall_top lo l b :
  wf_from lo l -> (forall v, covers l v -> v < b) <-> Forall (fun r => getValue r.2 < b) l.
Proof.
  intros Hw. split; [|intros HF v; by apply (covers_below lo)].
  intros Hc. apply wf_from_ok in Hw. rewrite Forall_forall in Hw |- *. intros r Hr.
  apply Hc, Exists_exists. exists r. split; [done|]. destruct (Hw r Hr) as (_&_&?). unfold in_range. lia.
Qed.

Section insert_bitmap.
Context (seqs : list SequenceRange) (val num_bits : Z) (bits : list Z).

Definition nbits : Z := 32 * Z.of_nat (length bits).

(** The value the bitmap holds among its first [n] bits. *)
Definition has_bit (n v : Z) : Prop :=
  exists j, 0 <= j < n /\ j < num_bits /\ bit_at bits j = true /\ v = val + j.

(** The bits whose values are in the set already. *)
Definition processed (st : bm_state) : Z :=
  if bm_start st =? 0 then bm_i st else bm_start st - val.

Record bm_inv (st : bm_state) : Prop := {
  inv_wf : wf (bm_seqs st);
  inv_top : Forall (fun r => getValue r.2 < val + nbits) (bm_seqs st);
  inv_i : 0 <= bm_i st <= nbits;
  inv_bit : bm_bit st = bm_i st mod 32 \/ bm_bit st = 32 /\ bm_i st mod 32 = 0;
  inv_x : bm_bit st <> 0 -> bm_bit st <> 32 -> bits !! Z.to_nat (bm_i st / 32) = Some (bm_x st);
  inv_start : bm_start st <> 0 ->
    val <= bm_start st < val + bm_i st /\ bm_i st <= num_bits /\
    forall j, bm_start st - val <= j < bm_i st -> bit_at bits j = true;
  inv_covers : forall v, covers (bm_seqs st) v <-> covers seqs v \/ has_bit (processed st) v;
  inv_iter : (bm_iter st <= length (bm_seqs st))%nat /\ (bm_iter st = length (bm_seqs st) \/
    Forall (fun r => getValue r.2 < val + processed st - 1) (take (bm_iter st) (bm_seqs st)));
  inv_inserted : if bm_inserted st then ~ (forall v, covers (bm_seqs st) v -> covers seqs v)
                 else bm_seqs st = seqs }.

Hypothesis Hval : 1 <= val.
Hypothesis Hmax : val + nbits < MAX_VALUE.
Hypothesis Hsmall : nbits < 2 ^ 31.
Hypothesis Hnum : 0 <= num_bits <= nbits.
Hypothesis Hzero : forall w, 1 <= w -> bits !! Z.to_nat w = Some 0 -> bit_at bits (32 * w - 1) = false.

Lemma has_bit_step n v : has_bit (n + 1) v <->
  has_bit n v \/ (0 <= n < num_bits /\ bit_at bits n = true /\ v = val + n).
Proof.
  unfold has_bit. split.
  - intros (j & Hj & ? & ? & ->). destruct (decide (j = n)) as [->|].
    + right. split_and!; (lia || done).
    + left. exists j. split_and!; (lia || done).
  - intros [(j & ? & ? & ? & ->)|(? & ? & ->)]; [exists j|exists n]; split_and!; (lia || done).
Qed.

Lemma bm_word st :
  bm_inv st -> bm_i st < num_bits ->
  let bit := if bm_bit st =? 32 then 0 else bm_bit st in
  bit = bm_i st mod 32 /\
  exists x, bits !! Z.to_nat (bm_i st / 32) = Some x /\
    (if bit =? 0 then arr_read bits (bm_i st / 32) else Ret (bm_x st)) = Ret x /\
    Z.testbit x (31 - bit) = bit_at bits (bm_i st).
Proof.
  intros Hinv Hi bit. destruct (inv_i _ Hinv) as [Hi0 Hi1].
  assert (bit = bm_i st mod 32) as Hbit.
  { subst bit. destruct (inv_bit _ Hinv) as [->|[-> ->]]; [|done].
    pose proof (Z.mod_pos_bound (bm_i st) 32). by rewrite (proj2 (Z.eqb_neq _ _)) by lia. }
  split; [done|].
  destruct (lookup_lt_is_Some_2 bits (Z.to_nat (bm_i st / 32))) as [x Hx].
  { apply Nat2Z.inj_lt. rewrite Z2Nat.id by (apply Z.div_pos; lia).
    apply Z.div_lt_upper_bound; unfold nbits in *; lia. }
  exists x. split; [done|]. split.
  - destruct (Z.eqb_spec bit 0) as [|Hb0]; [unfold arr_read; by rewrite Hx|].
    assert (bm_bit st <> 0 /\ bm_bit st <> 32) as [? ?].
    { subst bit. destruct (Z.eqb_spec (bm_bit st) 32); [done|]. split; done. }
    pose proof (inv_x _ Hinv). naive_solver.
  - rewrite Hbit. unfold bit_at. by rewrite Hx.
Qed.
(** The insertion of the open range of a state. *)
Lemma bm_insert st :
  bm_inv st -> bm_start st <> 0 ->
  exists c A r R,
    insert_bitmap_range (bm_seqs st) (bm_iter st)
      (of_value (bm_start st), of_value (val + bm_i st - 1)) = Ret (c, A ++ r :: R, length A) /\
    wf (A ++ r :: R) /\ Forall (fun r => getValue r.2 < val + nbits) (A ++ r :: R) /\
    (forall v, covers (A ++ r :: R) v <-> covers seqs v \/ has_bit (bm_i st) v) /\
    getValue r.1 <= bm_start st /\ val + bm_i st - 1 <= getValue r.2 /\
    Forall (fun x => getValue x.2 < bm_start st - 1) A /\
    (if (if c then true else bm_inserted st) then ~ (forall v, covers (A ++ r :: R) v -> covers seqs v)
     else A ++ r :: R = seqs).
Proof.
  intros Hinv Hs. destruct (inv_start _ Hinv Hs) as (Hs1 & Hs2 & Hs3).
  destruct (inv_i _ Hinv) as [Hi0 Hi1].
  destruct (range_ok_of_value (bm_start st) (val + bm_i st - 1)) as (Hr & E1 & E2); [lia|lia|].
  assert (processed st = bm_start st - val) as Hp.
  { unfold processed. by rewrite (proj2 (Z.eqb_neq _ _)). }
  destruct (inv_iter _ Hinv) as [Hit1 Hit2].
  destruct (insert_bitmap_range_spec (bm_seqs st) (bm_iter st) _ (inv_wf _ Hinv) Hr Hit1)
    as (c & A & r & R & Hib & Hw & Hins & Hr1 & Hr2 & HA).
  { destruct Hit2 as [?|Hit2]; [by left|right]. cbn [fst]. rewrite E1.
    eapply Forall_impl; [exact Hit2|]. rewrite Hp. intros x Hx; cbv beta in *; lia. }
  cbn [fst snd] in Hr1, Hr2, HA. rewrite E1 in Hr1, HA. rewrite E2 in Hr2.
  destruct (insert_range_spec _ _ (inv_wf _ Hinv) Hr) as (c' & s' & Hins' & _ & Hcov & Hc & Hsame).
  rewrite Hins in Hins'. injection Hins' as <- <-.
  assert (forall v, in_range v (of_value (bm_start st), of_value (val + bm_i st - 1)) <->
    bm_start st <= v < val + bm_i st) as Hin.
  { intros v. unfold in_range. cbn [fst snd]. rewrite E1, E2. lia. }
  setoid_rewrite Hin in Hcov. setoid_rewrite Hin in Hc.
  exists c, A, r, R. split_and!; try done.
  - apply (covers_Forall_top 0); [done|]. intros v Hv. apply Hcov in Hv as [Hv|?]; [|lia].
    revert v Hv. apply (covers_Forall_top 0); [apply Hinv|]. apply Hinv.
  - intros v. rewrite Hcov, (inv_covers _ Hinv), Hp. unfold has_bit. split.
    + intros [[?|(j & ? & ? & ? & ->)]|?]; [by left|right..].
      * exists j. split_and!; (lia || done).
      * exists (v - val). split_and!; [lia|lia|lia| |lia]. apply Hs3. lia.
    + intros [?|(j & ? & ? & ? & ->)]; [by left; left|].
      destruct (Z.lt_ge_cases j (bm_start st - val)); [left; right|right; lia].
      exists j. split_and!; (lia || done).
  - pose proof (inv_inserted _ Hinv) as Hi. destruct c.
    + assert (~ forall v, bm_start st <= v < val + bm_i st -> covers (bm_seqs st) v) as Hnot.
      { intros Hall. by apply Hc in Hall. }
      intros Hall. apply Hnot. intros v Hv. apply (inv_covers _ Hinv). left.
      apply Hall, Hcov. by right.
    + rewrite (Hsame eq_refl). exact Hi.
Qed.

Lemma uwrap_i i : 0 <= i <= nbits -> uwrap 32 i = i.
Proof.
  intros. apply uwrap_small. unfold is_u. change (2 ^ 31) with 2147483648 in Hsmall.
  change (2 ^ 32) with 4294967296. lia.
Qed.

Lemma next_bit i : 0 <= i -> i mod 32 + 1 = (i + 1) mod 32 \/ i mod 32 + 1 = 32 /\ (i + 1) mod 32 = 0.
Proof.
  intros. pose proof (Z.mod_pos_bound i 32). rewrite Z.add_mod by lia. change (1 mod 32) with 1.
  destruct (decide (i mod 32 = 31)) as [->|]; [by right|left]. symmetry. apply Z.mod_small. lia.
Qed.

Lemma next_word i x : 0 <= i ->
  bits !! Z.to_nat (i / 32) = Some x -> i mod 32 + 1 <> 32 -> bits !! Z.to_nat ((i + 1) / 32) = Some x.
Proof.
  intros Hi Hx Hne. pose proof (Z.mod_pos_bound i 32). pose proof (Z.div_mod i 32).
  replace ((i + 1) / 32) with (i / 32); [done|]. apply Z.div_unique with (i mod 32 + 1); lia.
Qed.

(** A bit is read: the range opens, stays open, or there is none. *)
Lemma bm_inv_bit i x bit iter start ins sq x' :
  let st := mkBM i x bit iter start ins sq in
  let st' := mkBM (i + 1) x' (i mod 32 + 1) iter
    (if bit_at bits i then if start =? 0 then val + i else start else start) ins sq in
  bm_inv st -> i < num_bits -> bits !! Z.to_nat (i / 32) = Some x' ->
  bit_at bits i = true \/ start = 0 -> bm_inv st'.
Proof.
  intros st st' [Hw Ht Hi _ _ Hs Hcov Hit Hins] Hlt Hx' Hbit. subst st st'. cbn in *.
  unfold processed in *. cbn [bm_start bm_i] in *.
  split; cbn [bm_i bm_x bm_bit bm_iter bm_start bm_inserted bm_seqs]; auto.
  - lia.
  - apply next_bit. lia.
  - intros _ ?. apply next_word; (lia || done).
  - destruct (bit_at bits i) eqn:Hb; [|naive_solver]. intros _.
    destruct (Z.eqb_spec start 0) as [->|Hs0].
    + split_and!; try lia. intros j Hj. assert (j = i) as -> by lia. done.
    + destruct (Hs Hs0) as (? & ? & Hall). split_and!; try lia. intros j Hj.
      destruct (decide (j = i)) as [->|]; [done|]. apply Hall. lia.
  - intros v. rewrite Hcov. unfold processed. cbn [bm_start bm_i].
    destruct (bit_at bits i) eqn:Hb.
    + destruct (Z.eqb_spec start 0) as [->|Hs0]; [|by rewrite (proj2 (Z.eqb_neq start 0))].
      rewrite (proj2 (Z.eqb_neq (val + i) 0)) by lia. by replace (val + i - val) with i by lia.
    + destruct Hbit as [?| ->]; [done|]. cbn. rewrite has_bit_step. rewrite Hb. naive_solver.
  - destruct Hit as [? [?|Hit]]; [auto|]. split; [done|]. right.
    unfold processed. cbn [bm_start bm_i]. eapply Forall_impl; [exact Hit|]. intros r Hr. cbv beta in *.
    destruct (bit_at bits i), (Z.eqb_spec start 0) as [->|]; cbn; try lia.
    all: rewrite (proj2 (Z.eqb_neq _ 0)) by lia; lia.
Qed.

(** A word of zeros is skipped. *)
Lemma bm_inv_zero i x bit iter start ins sq x' :
  let st := mkBM i x bit iter start ins sq in
  bm_inv st -> i < num_bits -> i mod 32 = 0 -> bits !! Z.to_nat (i / 32) = Some 0 ->
  bm_inv (mkBM (i + 32) x' 32 iter start ins sq) /\ i + 32 <= nbits.
Proof.
  intros st Hinv Hlt Hmod Hx. pose proof Hinv as [Hw Ht Hi _ _ Hs Hcov Hit Hins]. subst st. cbn in *.
  pose proof (Z.div_mod i 32 ltac:(lia)) as Hdiv. rewrite Hmod in Hdiv.
  assert (i + 32 <= nbits) as Hle by (unfold nbits in *; lia).
  assert (start = 0) as ->.
  { destruct (decide (start = 0)); [done|]. destruct (Hs n) as (? & ? & Hall).
    assert (bit_at bits (32 * (i / 32) - 1) = false); [apply Hzero; [lia|done]|].
    rewrite Hall in H1; [done|lia]. }
  assert (forall v, has_bit (i + 32) v <-> has_bit i v) as Hsame.
  { intros v. unfold has_bit. split; intros (j & ? & ? & Hb & ->); [|exists j; split_and!; (lia || done)].
    destruct (Z.lt_ge_cases j i); [exists j; split_and!; (lia || done)|].
    replace j with (32 * (i / 32) + (j - i)) in Hb by lia. rewrite bit_at_word, Hx in Hb by lia.
    cbn in Hb. by rewrite Z.testbit_0_l in Hb. }
  split; [|done]. unfold processed in *. cbn [bm_start bm_i] in *.
  split; cbn [bm_i bm_x bm_bit bm_iter bm_start bm_inserted bm_seqs]; auto; try done.
  - lia.
  - right. split; [done|]. rewrite Z.add_mod, Hmod by lia. done.
  - intros v. unfold processed. cbn. by rewrite Hcov, Hsame.
  - unfold processed. cbn in *. destruct Hit as [? [?|Hit]]; [auto|]. split; [done|]. right.
    eapply Forall_impl; [exact Hit|]. intros r Hr; cbv beta in *; lia.
Qed.

(** The range was closed and inserted; the loop goes on at [n + 1]. *)
Lemma bm_inv_after i start A (r : SequenceRange) R n x' ins :
  val <= start < val + i -> i <= n < nbits -> bits !! Z.to_nat (n / 32) = Some x' ->
  wf (A ++ r :: R) -> Forall (fun r => getValue r.2 < val + nbits) (A ++ r :: R) ->
  (forall v, covers (A ++ r :: R) v <-> covers seqs v \/ has_bit i v) ->
  Forall (fun x => getValue x.2 < start - 1) A ->
  (forall j, i <= j <= n -> bit_at bits j = true -> covers (A ++ r :: R) (val + j)) ->
  (if ins : bool then ~ (forall v, covers (A ++ r :: R) v -> covers seqs v) else A ++ r :: R = seqs) ->
  bm_inv (mkBM (n + 1) x' (n mod 32 + 1) (length A) 0 ins (A ++ r :: R)).
Proof.
  intros Hs Hn Hx' Hw Ht Hcov HA Hj Hins.
  split; cbn [bm_i bm_x bm_bit bm_iter bm_start bm_inserted bm_seqs]; auto.
  - lia.
  - apply next_bit. lia.
  - intros _ ?. apply next_word; (lia || done).
  - intros []. done.
  - intros v. unfold processed. cbn [bm_start bm_i]. rewrite Hcov. split.
    + intros [?|(j & ? & ? & ? & ->)]; [by left|right]. cbn. exists j. split_and!; (lia || done).
    + intros [?|(j & ? & ? & ? & ->)]; [by left|]. cbn in *.
      destruct (Z.lt_ge_cases j i); [right; exists j; split_and!; (lia || done)|].
      apply Hcov, Hj; [lia|done].
  - unfold processed. cbn [bm_start bm_i]. split; [rewrite length_app; lia|right].
    rewrite take_app_length. eapply Forall_impl; [exact HA|]. intros x Hx; cbn; cbv beta in *; lia.
Qed.

Lemma bm_body_spec st :
  bm_inv st -> bm_i st < num_bits ->
  exists st', bm_body val bits st = Ret st' /\ bm_inv st' /\ bm_i st < bm_i st'.
Proof.
  intros Hinv Hlt. destruct (bm_word st Hinv Hlt) as (Hbit & x' & Hx' & Hload & Htb).
  pose proof (inv_i _ Hinv) as Hi.
  destruct st as [i x bit iter start ins sq]. unfold bm_body. cbn [bm_i bm_x bm_bit] in *.
  rewrite Hload. cbn [mbind outcome_bind]. set (b := if bit =? 32 then 0 else bit) in *.
  destruct ((b =? 0) && (x' =? 0)) eqn:Hz.
  { bool_hyps. subst x'. destruct (bm_inv_zero i x bit iter start ins sq 0 Hinv) as [Hinv' ?]; [done|lia|done|].
    replace (i + 31 + 1) with (i + 32) by lia. rewrite uwrap_i by lia. eexists. split_and!; [done|done|cbn; lia]. }
  rewrite Htb. pose proof (bm_inv_bit i x bit iter start ins sq x' Hinv Hlt Hx') as Hnext.
  assert (uwrap 32 (i + 1) = i + 1) as Hu by (apply uwrap_i; lia).
  rewrite Hu, Hbit. destruct (bit_at bits i) eqn:Hb.
  { eexists. split_and!; [done|by apply Hnext; left|cbn; lia]. }
  destruct (Z.eqb_spec start 0) as [->|Hs0].
  { eexists. split_and!; [done|by apply Hnext; right|cbn; lia]. }
  destruct (bm_insert _ Hinv Hs0) as (c & A & r & R & Hib & Hw & Ht & Hcov & Hr1 & Hr2 & HA & Hins).
  destruct (inv_start _ Hinv Hs0) as (Hs1 & _ & _). cbn [bm_i bm_start bm_seqs bm_iter bm_inserted] in *.
  rewrite Hib. cbn [mbind outcome_bind]. rewrite lookup_app_head. cbn [head].
  destruct (Z.eqb_spec (getValue r.2) (val + i - 1)) as [He|Hne]; cbn [negb].
  - eexists. split_and!; [done| |cbn; lia].
    apply (bm_inv_after i start); auto; try lia. intros j Hj Hbj.
    assert (j = i) as -> by lia. congruence.
  - assert (getValue r.2 < val + nbits) as Hrt by (rewrite Forall_app, Forall_cons in Ht; tauto).
    set (n := getValue r.2 - val). rewrite (uwrap_i n), (uwrap_i (n + 1)) by lia.
    assert (exists y, (if negb (n / 32 =? i / 32) then arr_read bits (n / 32) else Ret x') = Ret y /\
      bits !! Z.to_nat (n / 32) = Some y) as (y & -> & Hy).
    { destruct (Z.eqb_spec (n / 32) (i / 32)) as [->|]; cbn [negb]; [by exists x'|].
      destruct (lookup_lt_is_Some_2 bits (Z.to_nat (n / 32))) as [y Hy].
      - apply Nat2Z.inj_lt. rewrite Z2Nat.id by (apply Z.div_pos; lia).
        apply Z.div_lt_upper_bound; unfold nbits in *; lia.
      - exists y. unfold arr_read. by rewrite Hy. }
    cbn [mbind outcome_bind]. eexists. split_and!; [done| |cbn; lia].
    apply (bm_inv_after i start); auto; try lia. intros j Hj _.
    rewrite covers_app, covers_cons. right; left. unfold in_range. lia.
Qed.

Lemma bm_loop_spec fuel st :
  bm_inv st -> Z.max 0 (num_bits - bm_i st) < Z.of_nat fuel ->
  exists st', bm_loop fuel val num_bits bits st = Ret st' /\ bm_inv st' /\ num_bits <= bm_i st'.
Proof.
  revert st. induction fuel as [|fuel IH]; intros st Hinv Hf; cbn [bm_loop]; [lia|].
  destruct (Z.ltb_spec (bm_i st) num_bits) as [Hlt|Hge]; [|by exists st].
  destruct (bm_body_spec st Hinv Hlt) as (st1 & -> & Hinv1 & Hlt1). cbn [mbind outcome_bind].
  apply IH; [done|lia].
Qed.
End insert_bitmap.

Lemma insert_bitmap_spec seqs value num_bits bits :
  let val := getValue value in
  let nbits := 32 * Z.of_nat (length bits) in
  wf seqs -> sn_valid value -> val + nbits < MAX_VALUE -> nbits < 2 ^ 31 -> 0 <= num_bits <= nbits ->
  Forall (fun r => getValue r.2 < val + nbits) seqs ->
  (forall w, 1 <= w -> bits !! Z.to_nat w = Some 0 -> bit_at bits (32 * w - 1) = false) ->
  exists changed seqs',
    insert_bitmap (S (Z.to_nat num_bits)) seqs value num_bits bits = Ret (changed, seqs') /\
    wf seqs' /\
    (forall v, covers seqs' v <->
       covers seqs v \/ exists j, 0 <= j < num_bits /\ bit_at bits j = true /\ v = val + j) /\
    (changed = false <-> seqs' = seqs).
Proof.
  intros val nb Hw Hv Hmax Hsmall Hnum Htop Hzero.
  assert (1 <= val) as Hval by (by destruct Hv).
  assert (forall n v, num_bits <= n -> has_bit val num_bits bits n v <->
    exists j, 0 <= j < num_bits /\ bit_at bits j = true /\ v = val + j) as Hhas.
  { intros n v Hn. unfold has_bit. split; intros (j & ?); exists j; intuition lia. }
  assert (forall c s, (if c : bool then ~ (forall v, covers s v -> covers seqs v) else s = seqs) ->
    c = false <-> s = seqs) as Hch.
  { intros [] s H; [|tauto]. split; [done|]. intros ->. by destruct H. }
  unfold insert_bitmap. fold val.
  destruct (bm_loop_spec seqs val num_bits bits Hval Hmax Hsmall Hnum Hzero (S (Z.to_nat num_bits))
    (mkBM 0 0 0 (length seqs) 0 false seqs)) as (st & -> & Hinv & Hend).
  { split; cbn; auto; try done; try (unfold Bitmap.nbits; lia).
    intros v. unfold processed, has_bit. cbn. split; [by left|]. intros [?|(j & ? & _)]; [done|lia]. }
  { cbn. lia. }
  cbn [mbind outcome_bind]. destruct (Z.eqb_spec (bm_start st) 0) as [Hs|Hs]; cbn [negb].
  - exists (bm_inserted st), (bm_seqs st). split_and!; [done|apply Hinv| |by apply Hch, Hinv].
    intros v. rewrite (inv_covers _ _ _ _ _ Hinv). unfold processed. rewrite Hs. cbn.
    by rewrite Hhas.
  - destruct (inv_start _ _ _ _ _ Hinv Hs) as (Hs1 & Hs2 & _).
    assert (bm_i st = num_bits) as Hi by lia.
    assert (previous (sn_add value (swrap 32 num_bits)) = of_value (val + bm_i st - 1)) as ->.
    { rewrite swrap_small by (unfold is_s; change (2 ^ (32 - 1)) with (2 ^ 31); lia).
      assert (sn_valid (sn_add value num_bits)) by (apply of_value_valid; fold val; lia).
      apply getValue_inj; [auto with dds|apply sn_valid_ok, of_value_valid; lia|].
      rewrite getValue_previous by done. unfold sn_add. fold val.
      rewrite !getValue_of_value by lia. unfold MIN_VALUE. rewrite (proj2 (Z.eqb_neq _ 1)) by lia. lia. }
    destruct (bm_insert seqs val num_bits bits Hval Hmax st Hinv Hs)
      as (c & A & r & R & -> & Hw' & _ & Hcov & _ & _ & _ & Hins).
    cbn [mbind outcome_bind]. eexists _, _. split_and!; [done|done| |by apply Hch].
    intros v. by rewrite Hcov, Hhas by lia.
Qed.

(** ** Properties *)

(** C19: [to_bitmap] into a zeroed array of [length] words writes exactly the
    values above [cumulative_ack() + 1] that it should: bit [i] is one exactly
    when [base + i] is a member of a range above the first one (a missing
    value when [invert]); no bit at or above [num_bits] is set and the result
    is [true] exactly when every such value fitted in the array. *)
Theorem to_bitmap_correct (r : SequenceRange) (rest : list SequenceRange) (bitmap : list Z)
    (invert : bool) :
  let seqs := r :: rest in
  let base := getValue (next (cumulative_ack seqs)) in
  let len := Z.of_nat (length bitmap) in
  let wanted := if invert then missing_sequence_ranges seqs else rest in
  wf seqs -> 32 * len < 2 ^ 32 -> clear_from bitmap 0 ->
  (forall v, covers seqs v -> v - base < 2 ^ 32) ->
  exists ok bitmap' num_bits, to_bitmap seqs bitmap len invert = Ret (ok, bitmap', num_bits) /\
    0 <= num_bits <= 32 * len /\ clear_from bitmap' num_bits /\
    (forall i, 0 <= i < 32 * len -> bit_at bitmap' i = true <-> covers wanted (base + i)) /\
    (ok = true <-> forall v, covers wanted v -> v - base < 32 * len).
Proof.
  intros seqs base len wt Hw Hlen Hc Hfit. pose proof Hw as (Hr & _ & _). pose proof Hr as (?&?&?).
  assert (base = getValue r.2 + 1) as Hb.
  { subst base seqs. cbn [cumulative_ack]. rewrite getValue_next by auto with dds.
    by rewrite (proj2 (Z.eqb_neq _ _)) by lia. }
  destruct (to_bitmap_loop_spec (next r.2) invert rest 0 r bitmap 0) as (ok & bm' & nb & Hl & Hadd);
    [done|done|lia|subst base seqs; cbn [cumulative_ack] in *; lia|done| |].
  { intros v Hv. apply Hfit, covers_cons. by right. }
  change (getValue (next r.2)) with base in Hadd. fold len in Hl.
  assert (to_bitmap seqs bitmap len invert = Ret (ok, bm', nb) /\ wt = wanted invert r rest) as [Ht Hwt].
  { destruct rest as [|r2 rest]; [split; [exact Hl|by destruct invert]|].
    assert (disjoint (r :: r2 :: rest) = true) as Hd by (apply Z.ltb_lt; cbn [length]; lia).
    subst wt seqs. unfold to_bitmap, missing_sequence_ranges, wanted. rewrite Hd. done. }
  exists ok, bm', nb. rewrite Ht, Hwt. destruct Hadd as [Hlen' Hnb Hcl Hbits Hok].
  split_and!; try done; try (fold len in Hnb; lia).
  - intros i Hi. rewrite Hbits, (Hc i) by done. naive_solver.
  - rewrite Hok. fold len. split; intros Hall v Hv; specialize (Hall v Hv); lia.
Qed.

Definition ex_bm_seqs : list SequenceRange :=
  [(mkSN 0 1, mkSN 0 1); (mkSN 0 3, mkSN 0 3); (mkSN 0 40, mkSN 0 41); (mkSN 0 80, mkSN 0 80)].

Lemma to_bitmap_correct_witness :
  wf ex_bm_seqs /\
  to_bitmap ex_bm_seqs [0; 0; 0] 3 false = Ret (true, [1073741824; 50331648; 131072], 79) /\
  exists ok bitmap' num_bits, to_bitmap ex_bm_seqs [0; 0; 0] 3 false = Ret (ok, bitmap', num_bits) /\
    0 <= num_bits <= 96.
Proof.
  assert (wf ex_bm_seqs) as Hw by solve_concrete.
  split; [exact Hw|]. split; [by vm_compute|].
  destruct (to_bitmap_correct (mkSN 0 1, mkSN 0 1)
    [(mkSN 0 3, mkSN 0 3); (mkSN 0 40, mkSN 0 41); (mkSN 0 80, mkSN 0 80)] [0; 0; 0] false Hw)
    as (ok & bm & nb & Ht & Hnb & _).
  - by vm_compute.
  - intros i Hi. unfold bit_at. destruct (Z.to_nat (i / 32)) as [|[|[|?]]]; apply Z.testbit_0_l.
  - intros v Hv. rewrite !covers_cons in Hv. change (2 ^ 32) with 4294967296.
    cbn [cumulative_ack snd]. change (getValue (next (mkSN 0 1))) with 2.
    unfold in_range, getValue, LOW_BASE in Hv. cbn [fst snd high_ low_] in Hv.
    destruct Hv as [Hv|[Hv|[Hv|[Hv|Hv]]]]; [lia..|]. by apply Exists_nil in Hv.
  - exists ok, bm, nb. split; [exact Ht|exact Hnb].
Defined.

(** [to_bitmap] leaves bits of the caller's array in the result: with the
    ranges 1, 3, 40-41 and 80 and an array that is not zeroed, the bits for
    the values 42 to 65, which are inside [num_bits] and not members, keep what
    the second word held before the call. *)
Theorem to_bitmap_stale_bits :
  to_bitmap ex_bm_seqs [0; 4294967295; 0] 3 false = Ret (true, [1073741824; 67108863; 131072], 79) /\
  bit_at [1073741824; 67108863; 131072] (42 - 2) = true /\
  contains ex_bm_seqs (mkSN 0 42) = false.
Proof. by vm_compute. Qed.

(** Inserting a bitmap of [num_bits] bits whose words are in the array adds
    to a well-formed set exactly the values [value + j] of its one bits and
    keeps it well formed; it reports a change exactly when the set changed.
    Needed for this: every stored range ends inside the array, and no zero
    word comes directly after a word whose last bit is one.  The loop ends
    after at most [num_bits] iterations. *)
Theorem insert_bitmap_correct seqs value num_bits bits :
  let val := getValue value in
  let nbits := 32 * Z.of_nat (length bits) in
  wf seqs -> sn_valid value -> val + nbits < MAX_VALUE -> nbits < 2 ^ 31 -> 0 <= num_bits <= nbits ->
  Forall (fun r => getValue r.2 < val + nbits) seqs ->
  (forall w, 1 <= w -> bits !! Z.to_nat w = Some 0 -> bit_at bits (32 * w - 1) = false) ->
  exists changed seqs',
    insert_bitmap (S (Z.to_nat num_bits)) seqs value num_bits bits = Ret (changed, seqs') /\
    wf seqs' /\
    (forall v, covers seqs' v <->
       covers seqs v \/ exists j, 0 <= j < num_bits /\ bit_at bits j = true /\ v = val + j) /\
    (changed = false <-> seqs' = seqs).
Proof. exact (insert_bitmap_spec seqs value num_bits bits). Qed.

Definition ex_bits : list Z := [1073741824; 50331648].

Lemma insert_bitmap_correct_witness :
  insert_bitmap 41 ex_seqs (mkSN 0 2) 40 ex_bits
    = Ret (true, [(mkSN 0 1, mkSN 0 3); (mkSN 0 5, mkSN 0 5); (mkSN 0 9, mkSN 0 9); (mkSN 0 40, mkSN 0 41)]) /\
  exists changed seqs', insert_bitmap 41 ex_seqs (mkSN 0 2) 40 ex_bits = Ret (changed, seqs') /\ wf seqs'.
Proof.
  split; [by vm_compute|].
  destruct (insert_bitmap_correct ex_seqs (mkSN 0 2) 40 ex_bits) as (c & s & H1 & H2 & _).
  - solve_concrete.
  - solve_concrete.
  - by vm_compute.
  - by vm_compute.
  - solve_concrete.
  - repeat constructor.
  - intros w Hw Hx. destruct (Z.to_nat w) as [|[|?]]; discriminate.
  - exists c, s. split; [exact H1|exact H2].
Defined.

(** [k] iterations that do not leave the loop. *)
Fixpoint bm_steps (k : nat) (val num_bits : Z) (bits : list Z) (st : bm_state) : outcome bm_state :=
  match k with
  | O => Ret st
  | S k' => if bm_i st <? num_bits then st ← bm_body val bits st; bm_steps k' val num_bits bits st
            else UB
  end.

Lemma bm_loop_steps k val num_bits bits st st' n :
  bm_steps k val num_bits bits st = Ret st' ->
  bm_loop (k + n) val num_bits bits st = bm_loop n val num_bits bits st'.
Proof.
  revert st. induction k as [|k IH]; intros st; cbn [bm_steps bm_loop Nat.add]; [by intros [= ->]|].
  case_match; [|done]. destruct (bm_body val bits st); cbn; [apply IH|done..].
Qed.

Lemma bm_loop_cycle k val num_bits bits st :
  bm_loop k val num_bits bits st = Fuel ->
  (forall n, bm_loop (k + n) val num_bits bits st = bm_loop n val num_bits bits st) ->
  (0 < k)%nat -> forall fuel, bm_loop fuel val num_bits bits st = Fuel.
Proof.
  intros Hk Hc Hpos fuel.
  assert (forall n, bm_loop (n * k) val num_bits bits st = Fuel) as Hn.
  { induction n as [|n IH]; [done|]. change (S n * k)%nat with (k + n * k)%nat. by rewrite Hc. }
  assert (forall a b s, bm_loop (a + b) val num_bits bits s = Fuel -> bm_loop a val num_bits bits s = Fuel) as Hm.
  { clear. induction a as [|a IH]; intros b s H; [done|]. cbn [Nat.add bm_loop] in *.
    case_match; [|done]. destruct (bm_body val bits s); cbn in *; [by eapply IH|done..]. }
  apply (Hm fuel (fuel * k - fuel)%nat). replace (fuel + (fuel * k - fuel))%nat with (fuel * k)%nat by nia.
  apply Hn.
Qed.

(** outside those conditions the bitmap form of [insert] goes wrong in
    three ways.  A zero word after an open run of ones is skipped without
    closing the run, so values whose bits are zero are inserted (here 34 to 65
    after the single one bit for 33).  When a stored range reaches past the
    end of the array the skip-ahead reads outside [bits].  When it reaches
    2^32 past [value] the skip-ahead index wraps and the loop never ends. *)
Theorem insert_bitmap_failures :
  insert_bitmap 65 [] (mkSN 0 2) 64 [1; 0] = Ret (true, [(mkSN 0 33, mkSN 0 65)]) /\
  bit_at [1; 0] (40 - 2) = false /\
  insert_bitmap 9 [(mkSN 0 5, mkSN 0 1000)] (mkSN 0 1) 8 [268435456] = UB /\
  forall fuel, insert_bitmap fuel [(mkSN 0 1, mkSN 1 5)] (mkSN 0 1) 64 [4194304; 0] = Fuel.
Proof.
  split; [by vm_compute|]. split; [by vm_compute|]. split; [by vm_compute|]. intros fuel.
  unfold insert_bitmap.
  enough (bm_loop fuel 1 64 [4194304; 0] (mkBM 0 0 0 1 0 false [(mkSN 0 1, mkSN 1 5)]) = Fuel) as H
    by (cbn [length]; change (getValue (mkSN 0 1)) with 1; by rewrite H).
  set (st5 := mkBM 5 4194304 5 0 0 false [(mkSN 0 1, mkSN 1 5)]).
  assert (forall n, bm_loop n 1 64 [4194304; 0] st5 = Fuel) as Hcyc.
  { apply (bm_loop_cycle 6); [by vm_compute| |lia]. intros n. apply bm_loop_steps. by vm_compute. }
  destruct (Nat.lt_ge_cases fuel 11) as [Hlt|Hge].
  { do 11 (destruct fuel as [|fuel]; [by vm_compute|]). lia. }
  replace fuel with (11 + (fuel - 11))%nat by lia. rewrite (bm_loop_steps 11 _ _ _ _ st5) by (by vm_compute).
  apply Hcyc.
Qed.

End Bitmap.
Export Bitmap.
