(* ===== verification/MessageBlock.v ===== *)
(** * Message blocks

    [ACE_Message_Block] is a class of the ACE library, not of this repository.
    The components that work on chains of blocks use it only through the
    operations of the class [MessageBlock] below and rely only on the documented
    behaviour stated in [MessageBlockLaws]: a block is a buffer with a read and
    a write pointer, the bytes between them are its content, and the room after
    the write pointer is its space.  A chain linked by [cont()] is the list of
    its blocks.  [SimpleBlock] is an instance: a buffer of bytes at an address. *)

From S2P Require Import Prelude.

Class MessageBlock (MB : Type) := {
  mb_rd_ptr : MB -> Z;
  mb_wr_ptr : MB -> Z;
  mb_bytes : MB -> list Z;                  (* from rd_ptr() up to wr_ptr() *)
  mb_space : MB -> nat;
  mb_advance_rd : nat -> MB -> MB;          (* rd_ptr(n) *)
  mb_advance_wr : nat -> MB -> MB;          (* wr_ptr(n) *)
  mb_copy : list Z -> MB -> MB;             (* memcpy at wr_ptr(), then wr_ptr(n) *)
  mb_truncate : nat -> MB -> MB;            (* wr_ptr(rd_ptr() + n) *)
  mb_new : nat -> MB;                       (* a new block with a buffer of n bytes *)
  mb_base : MB -> list Z;                   (* from base() up to end() *)
  mb_rd_off : MB -> nat;                    (* rd_ptr() - base() *)
}.

Definition mb_length `{MessageBlock MB} (b : MB) : nat := length (mb_bytes b).

Class MessageBlockLaws (MB : Type) `{MessageBlock MB} := {
  mb_ptrs : forall b, mb_wr_ptr b = mb_rd_ptr b + Z.of_nat (mb_length b);
  mb_advance_rd_bytes : forall n b, (n <= mb_length b)%nat ->
    mb_bytes (mb_advance_rd n b) = drop n (mb_bytes b);
  mb_advance_rd_ptr : forall n b, mb_rd_ptr (mb_advance_rd n b) = mb_rd_ptr b + Z.of_nat n;
  mb_advance_rd_space : forall n b, mb_space (mb_advance_rd n b) = mb_space b;
  mb_advance_wr_length : forall n b, (n <= mb_space b)%nat ->
    mb_length (mb_advance_wr n b) = (mb_length b + n)%nat;
  mb_advance_wr_bytes : forall n b, (n <= mb_space b)%nat ->
    take (mb_length b) (mb_bytes (mb_advance_wr n b)) = mb_bytes b;
  mb_advance_wr_space : forall n b, (n <= mb_space b)%nat ->
    mb_space (mb_advance_wr n b) = (mb_space b - n)%nat;
  mb_advance_wr_rd : forall n b, mb_rd_ptr (mb_advance_wr n b) = mb_rd_ptr b;
  mb_copy_bytes : forall l b, (length l <= mb_space b)%nat ->
    mb_bytes (mb_copy l b) = mb_bytes b ++ l;
  mb_copy_space : forall l b, (length l <= mb_space b)%nat ->
    mb_space (mb_copy l b) = (mb_space b - length l)%nat;
  mb_copy_rd : forall l b, mb_rd_ptr (mb_copy l b) = mb_rd_ptr b;
  mb_truncate_bytes : forall n b, (n <= mb_length b)%nat -> mb_bytes (mb_truncate n b) = take n (mb_bytes b);
  mb_new_bytes : forall n, mb_bytes (mb_new n) = [];
  mb_new_space : forall n, mb_space (mb_new n) = n;
  mb_new_off : forall n, mb_rd_off (mb_new n) = 0%nat;
  mb_advance_wr_off : forall n b, mb_rd_off (mb_advance_wr n b) = mb_rd_off b;
  mb_copy_off : forall l b, mb_rd_off (mb_copy l b) = mb_rd_off b;
  mb_advance_rd_off : forall n b, (n <= mb_length b)%nat -> mb_rd_off (mb_advance_rd n b) = (mb_rd_off b + n)%nat;
  mb_advance_rd_0 : forall b, mb_advance_rd 0 b = b;
  mb_advance_rd_add : forall n m b, (n + m <= mb_length b)%nat -> mb_advance_rd m (mb_advance_rd n b) = mb_advance_rd (n + m) b;
  mb_truncate_rd : forall n b, mb_rd_ptr (mb_truncate n b) = mb_rd_ptr b;
  mb_truncate_off : forall n b, mb_rd_off (mb_truncate n b) = mb_rd_off b;
  mb_base_bytes : forall b, mb_bytes b = take (mb_length b) (drop (mb_rd_off b) (mb_base b));
}.

(** The content of a chain, and the room in it. *)
Definition chain_bytes `{MessageBlock MB} (c : list MB) : list Z := concat (mb_bytes <$> c).
Definition chain_space `{MessageBlock MB} (c : list MB) : nat := sum_list (mb_space <$> c).

(** The chain after [k] bytes were read from its front. *)
Fixpoint consume `{MessageBlock MB} (k : nat) (c : list MB) : list MB :=
  match c with
  | [] => []
  | b :: c => mb_advance_rd (Nat.min k (mb_length b)) b :: consume (k - mb_length b) c
  end.

Section chain.
Context `{MessageBlockLaws MB}.

Lemma chain_bytes_app (c1 c2 : list MB) : chain_bytes (c1 ++ c2) = chain_bytes c1 ++ chain_bytes c2.
Proof. unfold chain_bytes. by rewrite fmap_app, concat_app. Qed.

Lemma chain_bytes_cons (b : MB) c : chain_bytes (b :: c) = mb_bytes b ++ chain_bytes c.
Proof. done. Qed.

Lemma chain_space_cons (b : MB) c : chain_space (b :: c) = (mb_space b + chain_space c)%nat.
Proof. done. Qed.

Lemma mb_advance_rd_length n (b : MB) : (n <= mb_length b)%nat ->
  mb_length (mb_advance_rd n b) = (mb_length b - n)%nat.
Proof. intros. unfold mb_length at 1. by rewrite mb_advance_rd_bytes, length_drop. Qed.

Lemma mb_copy_length l (b : MB) : (length l <= mb_space b)%nat ->
  mb_length (mb_copy l b) = (mb_length b + length l)%nat.
Proof. intros. unfold mb_length at 1. by rewrite mb_copy_bytes, length_app. Qed.

Lemma chain_bytes_length_cons (b : MB) c : length (chain_bytes (b :: c)) = (mb_length b + length (chain_bytes c))%nat.
Proof. rewrite chain_bytes_cons, length_app. done. Qed.

Lemma consume_length k (c : list MB) : length (consume k c) = length c.
Proof. revert k. induction c as [|b c IH]; intros k; cbn [consume length]; [done|]. by rewrite IH. Qed.

Lemma consume_0 (c : list MB) : consume 0 c = c.
Proof. induction c as [|b c IH]; [done|]. cbn [consume]. by rewrite Nat.min_0_l, mb_advance_rd_0, Nat.sub_0_l, IH. Qed.

Lemma consume_bytes k (c : list MB) : chain_bytes (consume k c) = drop k (chain_bytes c).
Proof.
  revert k. induction c as [|b c IH]; intros k; [by destruct k|]. cbn [consume]. rewrite !chain_bytes_cons, IH, mb_advance_rd_bytes by lia.
  rewrite drop_app. f_equal. destruct (Nat.le_gt_cases k (mb_length b)); [by rewrite Nat.min_l|].
  rewrite Nat.min_r by lia. unfold mb_length in *. rewrite !drop_ge by lia. done.
Qed.

Lemma consume_add n m (c : list MB) : consume m (consume n c) = consume (n + m) c.
Proof.
  revert n m. induction c as [|b c IH]; intros n m; [done|]. cbn [consume].
  rewrite mb_advance_rd_length, IH by lia. f_equal; [|f_equal; lia].
  rewrite mb_advance_rd_add by lia. f_equal. lia.
Qed.

(** Reading within the first block that is not drained. *)
Lemma consume_front n (d : list MB) b c : chain_bytes d = [] -> (n <= mb_length b)%nat ->
  consume n (d ++ b :: c) = d ++ mb_advance_rd n b :: c.
Proof.
  intros Hd Hn. induction d as [|x d IH]; cbn [app consume].
  - rewrite Nat.min_l by done. replace (n - mb_length b)%nat with 0%nat by lia. by rewrite consume_0.
  - rewrite chain_bytes_cons in Hd. apply app_eq_nil in Hd as [Hx Hd]. assert (mb_length x = 0%nat) as -> by (unfold mb_length; by rewrite Hx).
    rewrite Nat.min_0_r, mb_advance_rd_0, Nat.sub_0_r. by rewrite IH.
Qed.

Lemma consume_app k (c1 c2 : list MB) : consume k (c1 ++ c2) = consume k c1 ++ consume (k - length (chain_bytes c1)) c2.
Proof.
  revert k. induction c1 as [|b c1 IH]; intros k; cbn [app consume]; [cbn; by rewrite Nat.sub_0_r|].
  rewrite IH, chain_bytes_length_cons. do 3 f_equal. lia.
Qed.

Lemma consume_space k (c : list MB) : mb_space <$> consume k c = mb_space <$> c.
Proof. revert k. induction c as [|b c IH]; intros k; [done|]. cbn [consume]. rewrite !fmap_cons. by rewrite mb_advance_rd_space, IH. Qed.
End chain.

(** ** An instance *)

Module SimpleBlock.

Record block := mkBlock {
  bl_addr : Z; bl_used : list Z; bl_content : list Z; bl_room : list Z }.

#[export] Instance block_ops : MessageBlock block := {
  mb_rd_ptr b := bl_addr b + Z.of_nat (length (bl_used b));
  mb_wr_ptr b := bl_addr b + Z.of_nat (length (bl_used b)) + Z.of_nat (length (bl_content b));
  mb_bytes := bl_content;
  mb_space b := length (bl_room b);
  mb_advance_rd n b :=
    mkBlock (bl_addr b + (Z.of_nat n - Z.of_nat (Nat.min n (length (bl_content b)))))
      (bl_used b ++ take n (bl_content b)) (drop n (bl_content b)) (bl_room b);
  mb_advance_wr n b :=
    mkBlock (bl_addr b) (bl_used b) (bl_content b ++ take n (bl_room b)) (drop n (bl_room b));
  mb_copy l b :=
    mkBlock (bl_addr b) (bl_used b) (bl_content b ++ l) (drop (length l) (bl_room b));
  mb_truncate n b :=
    mkBlock (bl_addr b) (bl_used b) (take n (bl_content b)) (drop n (bl_content b) ++ bl_room b);
  mb_new n := mkBlock 0 [] [] (replicate n 0);
  mb_base b := bl_used b ++ bl_content b ++ bl_room b;
  mb_rd_off b := length (bl_used b) }.

#[export] Instance block_laws : MessageBlockLaws block.
Proof.
  split; unfold mb_length; cbn; intros; auto.
  - rewrite length_app, length_take. lia.
  - rewrite length_app, length_take. lia.
  - by rewrite take_app_length.
  - by rewrite length_drop.
  - by rewrite length_drop.
  - by rewrite length_replicate.
  - rewrite length_app, length_take. unfold mb_length in *. cbn in *. lia.
  - destruct b as [a u c r]. cbn. rewrite take_0, drop_0, app_nil_r. f_equal. lia.
  - destruct b as [a u c r]. unfold mb_length in *. cbn in *. rewrite length_drop, drop_drop.
    rewrite <- (assoc_L (++)), take_take_drop. f_equal. lia.
  - by rewrite drop_app_length, take_app_length.
Qed.

Definition empty_block (addr : Z) (size : nat) : block := mkBlock addr [] [] (replicate size 0).
Definition full_block (addr : Z) (bs : list Z) : block := mkBlock addr [] bs [].

End SimpleBlock.
Export SimpleBlock.
