(* ===== verification/Serializer.v ===== *)
(** * The CDR serializer (dds/DCPS/Serializer.{h,inl,cpp})

    A serializer is a position in a chain of message blocks, a byte-swap flag,
    a good bit and the alignment state.  Values in memory are the bytes of a
    little-endian host; [swap_bytes] reverses them.  A null [current_] is the
    empty list of remaining blocks, and its dereference is [UB]. *)

From S2P Require Import Prelude MessageBlock SequenceNumber.

Module Serializer.

Inductive Alignment := ALIGN_NONE | ALIGN_INITIALIZE | ALIGN_CDR.
#[export] Instance Alignment_eq_dec : EqDecision Alignment.
Proof. solve_decision. Defined.

Definition MAX_ALIGN : Z := 8.

Section serializer.
Context {MB : Type} `{MessageBlock MB}.

(** [ser_done] are the blocks before [current_]; the head of [ser_cur] is
    [current_]. *)
Record Serializer := mkSer {
  ser_done : list MB; ser_cur : list MB;
  swap_bytes_ : bool; good_bit_ : bool; alignment_ : Alignment;
  align_rshift_ : Z; align_wshift_ : Z }.

Definition mk_serializer (chain : list MB) (swap_bytes : bool) (align : Alignment) : Serializer :=
  mkSer [] chain swap_bytes true align
    (match chain with [] => 0 | b :: _ => mb_rd_ptr b mod MAX_ALIGN end)
    (match chain with [] => 0 | b :: _ => mb_wr_ptr b mod MAX_ALIGN end).

Definition set_good (s : Serializer) (g : bool) : Serializer :=
  mkSer (ser_done s) (ser_cur s) (swap_bytes_ s) g (alignment_ s) (align_rshift_ s) (align_wshift_ s).
Definition set_cur (s : Serializer) (b : MB) (rest : list MB) : Serializer :=
  mkSer (ser_done s) (b :: rest) (swap_bytes_ s) (good_bit_ s) (alignment_ s)
    (align_rshift_ s) (align_wshift_ s).

(** [to[k] = from[n - 1 - k]] for every [k < n]; only up to 16 bytes. *)
Definition swapcpy (from : list Z) (n : nat) : option (list Z) :=
  if (n <=? 16)%nat then Some ((fun k => nth (n - 1 - k) from 0) <$> seq 0 n) else None.

(** [memcpy(dest + at, bs, length bs)]. *)
Definition poke (dest : list Z) (pos : nat) (bs : list Z) : list Z :=
  take pos dest ++ bs ++ drop (pos + length bs) dest.

(** [current_ = current_->cont()]. *)
Definition cont (s : Serializer) : Serializer :=
  match ser_cur s with
  | [] => s
  | b :: rest => mkSer (ser_done s ++ [b]) rest (swap_bytes_ s) (good_bit_ s) (alignment_ s)
                   (align_rshift_ s) (align_wshift_ s)
  end.

Definition set_rshift (s : Serializer) (r : Z) : Serializer :=
  mkSer (ser_done s) (ser_cur s) (swap_bytes_ s) (good_bit_ s) (alignment_ s) r (align_wshift_ s).
Definition set_wshift (s : Serializer) (w : Z) : Serializer :=
  mkSer (ser_done s) (ser_cur s) (swap_bytes_ s) (good_bit_ s) (alignment_ s) (align_rshift_ s) w.

Definition align_cont_r (s : Serializer) : outcome Serializer :=
  b ← deref (head (ser_cur s));
  let thisblock := uwrap 64 (mb_rd_ptr b - align_rshift_ s) mod MAX_ALIGN in
  let s := cont s in
  Ret (match ser_cur s with
       | [] => s
       | c :: _ => set_rshift s (uwrap 64 (mb_rd_ptr c - thisblock) mod MAX_ALIGN)
       end).

Definition align_cont_w (s : Serializer) : outcome Serializer :=
  b ← deref (head (ser_cur s));
  let thisblock := uwrap 64 (mb_wr_ptr b - align_wshift_ s) mod MAX_ALIGN in
  let s := cont s in
  Ret (match ser_cur s with
       | [] => s
       | c :: _ => set_wshift s (uwrap 64 (mb_wr_ptr c - thisblock) mod MAX_ALIGN)
       end).

(** [doread]: the new state, destination and offset. *)
Definition doread (s : Serializer) (dest : list Z) (size : nat) (swap : bool) (offset : nat)
    : outcome (Serializer * list Z * nat) :=
  match ser_cur s with
  | [] => Ret (set_good s false, dest, size)
  | b :: rest =>
      let len := mb_length b in
      let remainder := if (len <? size - offset)%nat then (size - offset - len)%nat else 0%nat in
      let initial := (size - offset - remainder)%nat in
      let '(s, dest) :=
        if swap then
          match swapcpy (mb_bytes b) initial with
          | Some bs => (s, poke dest remainder bs)
          | None => (set_good s false, dest)
          end
        else (s, poke dest offset (take initial (mb_bytes b))) in
      let b := mb_advance_rd initial b in
      let s := set_cur s b rest in
      s ← (if (mb_length b =? 0)%nat then
             if decide (alignment_ s = ALIGN_NONE) then Ret (cont s) else align_cont_r s
           else Ret s);
      Ret (s, dest, (offset + initial)%nat)
  end.

Fixpoint read_loop (fuel : nat) (s : Serializer) (dest : list Z) (size : nat) (swap : bool)
    (offset : nat) : outcome (Serializer * list Z) :=
  match fuel with
  | O => Fuel
  | S fuel' =>
      if (offset <? size)%nat then
        '(s, dest, offset) ← doread s dest size swap offset;
        read_loop fuel' s dest size swap offset
      else Ret (s, dest)
  end.

(** [buffer_read]; every iteration leaves a block behind or ends the loop. *)
Definition buffer_read (s : Serializer) (dest : list Z) (size : nat) (swap : bool)
    : outcome (Serializer * list Z) :=
  read_loop (2 + length (ser_cur s)) s dest size swap 0.

Definition dowrite (s : Serializer) (src : list Z) (size : nat) (swap : bool) (offset : nat)
    : outcome (Serializer * nat) :=
  match ser_cur s with
  | [] => Ret (set_good s false, size)
  | b :: rest =>
      let spc := mb_space b in
      let remainder := if (spc <? size - offset)%nat then (size - offset - spc)%nat else 0%nat in
      let initial := (size - offset - remainder)%nat in
      let '(s, b) :=
        if swap then
          match swapcpy (drop remainder src) initial with
          | Some bs => (s, mb_copy bs b)
          | None => (set_good s false, mb_advance_wr initial b)
          end
        else (s, mb_copy (take initial (drop offset src)) b) in
      let s := set_cur s b rest in
      s ← (if (mb_space b =? 0)%nat then
             if decide (alignment_ s = ALIGN_NONE) then Ret (cont s) else align_cont_w s
           else Ret s);
      Ret (s, (offset + initial)%nat)
  end.

Fixpoint write_loop (fuel : nat) (s : Serializer) (src : list Z) (size : nat) (swap : bool)
    (offset : nat) : outcome Serializer :=
  match fuel with
  | O => Fuel
  | S fuel' =>
      if (offset <? size)%nat then
        '(s, offset) ← dowrite s src size swap offset;
        write_loop fuel' s src size swap offset
      else Ret s
  end.

Definition buffer_write (s : Serializer) (src : list Z) (size : nat) (swap : bool)
    : outcome Serializer :=
  write_loop (2 + length (ser_cur s)) s src size swap 0.

(** The [for (len = n * size; len;)] loop of [skip]. *)
Fixpoint skip_loop (fuel : nat) (s : Serializer) (len : nat) : outcome Serializer :=
  match fuel with
  | O => Fuel
  | S fuel' =>
      if (len =? 0)%nat then Ret s
      else
        match ser_cur s with
        | [] => Ret (set_good s false)
        | b :: rest =>
            let cur_len := mb_length b in
            if (cur_len <=? len)%nat then
              s ← align_cont_r (set_cur s (mb_advance_rd cur_len b) rest);
              skip_loop fuel' s (len - cur_len)
            else Ret (set_cur s (mb_advance_rd len b) rest)
        end
  end.

Definition skip1 (s : Serializer) (n : nat) : outcome Serializer :=
  skip_loop (2 + length (ser_cur s)) s n.

Definition align_r (s : Serializer) (al : Z) : outcome Serializer :=
  b ← deref (head (ser_cur s));
  let len := uwrap 64 (al - mb_rd_ptr b + align_rshift_ s) mod al in
  skip1 s (Z.to_nat (uwrap 16 len)).

Definition skip (s : Serializer) (n size : Z) : outcome (Serializer * bool) :=
  s ← (if (1 <? size) && negb (bool_decide (alignment_ s = ALIGN_NONE)) then
         align_r s (if MAX_ALIGN <? size then MAX_ALIGN else size)
       else Ret s);
  s ← skip1 s (Z.to_nat (n * size));
  Ret (s, good_bit_ s).

(** The padding loop of [align_w]. *)
Fixpoint pad_loop (fuel : nat) (s : Serializer) (len : nat) : outcome Serializer :=
  match fuel with
  | O => Fuel
  | S fuel' =>
      if (len =? 0)%nat then Ret s
      else
        match ser_cur s with
        | [] => Ret (set_good s false)
        | b :: rest =>
            let pad n := if decide (alignment_ s = ALIGN_INITIALIZE)
                         then mb_copy (replicate n 0) b else mb_advance_wr n b in
            let cur_spc := mb_space b in
            if (cur_spc <=? len)%nat then
              s ← align_cont_w (set_cur s (pad cur_spc) rest);
              pad_loop fuel' s (len - cur_spc)
            else Ret (set_cur s (pad len) rest)
        end
  end.

Definition align_w (s : Serializer) (al : Z) : outcome Serializer :=
  b ← deref (head (ser_cur s));
  let len := uwrap 64 (al - mb_wr_ptr b + align_wshift_ s) mod al in
  pad_loop (2 + length (ser_cur s)) s (Z.to_nat len).

(** ** Typed operations *)

(** [operator<<] of the integer types of [n] bytes; the value is written as
    the [n] bytes of its machine representation. *)
Definition write_int (n : nat) (s : Serializer) (x : Z) : outcome Serializer :=
  s ← (if decide (alignment_ s = ALIGN_NONE) then Ret s else align_w s (Z.of_nat n));
  buffer_write s (le_bytes n x) n (swap_bytes_ s).

(** [operator>>] of the unsigned integer types of [n] bytes, into a variable
    that holds [old]. *)
Definition read_uint (n : nat) (s : Serializer) (old : Z) : outcome (Serializer * Z) :=
  s ← (if decide (alignment_ s = ALIGN_NONE) then Ret s else align_r s (Z.of_nat n));
  '(s, dest) ← buffer_read s (le_bytes n old) n (swap_bytes_ s);
  Ret (s, le_value dest).

Definition read_sint (n : nat) (s : Serializer) (old : Z) : outcome (Serializer * Z) :=
  '(s, x) ← read_uint n s old;
  Ret (s, swrap (8 * Z.of_nat n) x).

(** [from_boolean], [from_char], [from_octet] and their readers: one byte,
    never aligned. *)
Definition write_octet (s : Serializer) (x : Z) : outcome Serializer :=
  buffer_write s (le_bytes 1 x) 1 false.
Definition read_octet (s : Serializer) (old : Z) : outcome (Serializer * Z) :=
  '(s, dest) ← buffer_read s (le_bytes 1 old) 1 false;
  Ret (s, le_value dest).
Definition write_boolean (s : Serializer) (x : bool) : outcome Serializer :=
  buffer_write s (le_bytes 1 (if x then 1 else 0)) 1 (swap_bytes_ s).
Definition read_boolean (s : Serializer) (old : bool) : outcome (Serializer * bool) :=
  '(s, dest) ← buffer_read s (le_bytes 1 (if old then 1 else 0)) 1 (swap_bytes_ s);
  Ret (s, negb (le_value dest =? 0)).

(** [operator<<] and [operator>>] of a [Char]. *)
Definition write_char (s : Serializer) (x : Z) : outcome Serializer :=
  buffer_write s (le_bytes 1 x) 1 (swap_bytes_ s).
Definition read_char (s : Serializer) (old : Z) : outcome (Serializer * Z) :=
  '(s, dest) ← buffer_read s (le_bytes 1 old) 1 (swap_bytes_ s);
  Ret (s, swrap 8 (le_value dest)).

(** The element loops of [write_array] and [read_array]. *)
Fixpoint write_elements (n : nat) (s : Serializer) (size : nat) (x : list Z) : outcome Serializer :=
  match n with
  | O => Ret s
  | S n' => s ← buffer_write s (take size x) size true; write_elements n' s size (drop size x)
  end.
Definition write_array (s : Serializer) (x : list Z) (size n : nat) (swap : bool) : outcome Serializer :=
  if negb swap || (size =? 1)%nat then buffer_write s x (size * n) false
  else write_elements n s size x.

Fixpoint read_elements (n : nat) (s : Serializer) (size : nat) (x : list Z)
    : outcome (Serializer * list Z) :=
  match n with
  | O => Ret (s, x)
  | S n' =>
      '(s, d) ← buffer_read s (take size x) size true;
      '(s, ds) ← read_elements n' s size (drop size x);
      Ret (s, d ++ ds)
  end.
Definition read_array (s : Serializer) (x : list Z) (size n : nat) (swap : bool)
    : outcome (Serializer * list Z) :=
  if negb swap || (size =? 1)%nat then buffer_read s x (size * n) false
  else read_elements n s size x.

(** [operator<<] of a narrow string: a null pointer is [None],
    a string its bytes without the terminating zero. *)
Definition write_string (s : Serializer) (x : option (list Z)) : outcome Serializer :=
  match x with
  | Some str =>
      let stringlen := uwrap 32 (1 + Z.of_nat (length str)) in
      s ← write_int 4 s stringlen;
      buffer_write s (str ++ [0]) (Z.to_nat stringlen) false
  | None => write_int 4 s 0
  end.

(** [read_string] of a narrow string: [None] is a null [dest]; an allocation does not
    fail.  [total_length()] sums the blocks from [current_] on. *)
Definition read_string (s : Serializer) : outcome (Serializer * option (list Z)) :=
  s ← (if decide (alignment_ s = ALIGN_NONE) then Ret s else align_r s 4);
  '(s, dest) ← buffer_read s [0; 0; 0; 0] 4 (swap_bytes_ s);
  let len := le_value dest in
  if negb (good_bit_ s) then Ret (s, None)
  else
    _ ← deref (head (ser_cur s));
    if len <=? Z.of_nat (length (chain_bytes (ser_cur s))) then
      '(s, dest) ← read_array s (replicate (Z.to_nat len) 0) 1 (Z.to_nat len) (swap_bytes_ s);
      if negb (good_bit_ s) then Ret (s, None) else Ret (s, Some dest)
    else Ret (s, None).

(** [operator<<] and [operator>>] of [SequenceNumber] (Definitions.h); the
    reader answers whether it succeeded and changes [x] only then. *)
Definition write_SequenceNumber (s : Serializer) (x : SequenceNumber) : outcome Serializer :=
  s ← write_int 4 s (high_ x); write_int 4 s (low_ x).
Definition read_SequenceNumber (s : Serializer) (x : SequenceNumber)
    : outcome (Serializer * SequenceNumber * bool) :=
  '(s, high) ← read_sint 4 s 0;
  if negb (good_bit_ s) then Ret (s, x, false)
  else
    '(s, low) ← read_uint 4 s 0;
    if negb (good_bit_ s) then Ret (s, x, false)
    else Ret (s, mkSN high low, true).
End serializer.

(** [find_size_ulong] and [gen_find_size] of a sequence number: the
    accumulated size and padding. *)
Definition find_size_ulong (size padding : Z) : Z * Z :=
  let padding :=
    if negb ((size + padding) mod 4 =? 0) then padding + (4 - (size + padding) mod 4) else padding in
  (size + 4, padding).
Definition find_size_SequenceNumber (size padding : Z) : Z * Z :=
  let '(size, padding) := find_size_ulong size padding in (size + 4, padding).
Arguments Serializer MB : clear implicits.

(** ** Reading as a function of the bytes ahead *)

Lemma swapcpy_reverse from n :
  (n <= 16)%nat -> (n <= length from)%nat -> swapcpy from n = Some (reverse (take n from)).
Proof.
  intros Hn Hl. unfold swapcpy. rewrite (proj2 (Nat.leb_le _ _) Hn). f_equal.
  apply list_eq. intros k. rewrite list_lookup_fmap.
  destruct (Nat.lt_ge_cases k n) as [Hk|Hk].
  - rewrite lookup_seq_lt by done. cbn. rewrite reverse_lookup by (rewrite length_take; lia).
    rewrite length_take, lookup_take_lt by lia. replace (n `min` length from - S k)%nat with (n - 1 - k)%nat by lia.
    destruct (lookup_lt_is_Some_2 from (n - 1 - k)) as [z Hz]; [lia|]. rewrite Hz.
    f_equal. by apply nth_lookup_Some.
  - rewrite lookup_seq_ge by done. cbn. symmetry. apply lookup_ge_None. rewrite length_reverse, length_take. lia.
Qed.

Lemma poke_end dest pos bs :
  (pos + length bs = length dest)%nat -> poke dest pos bs = take pos dest ++ bs.
Proof. intros Hl. unfold poke. rewrite drop_ge by lia. by rewrite app_nil_r. Qed.

Section streams.
Context {MB : Type} `{MessageBlockLaws MB}.
Implicit Types (s : Serializer MB) (b : MB).

Definition rd_stream s : list Z := chain_bytes (ser_cur s).

(** The parts of the state no operation changes. *)
Definition same_mode s s' : Prop :=
  swap_bytes_ s' = swap_bytes_ s /\ alignment_ s' = alignment_ s.

(** [align_rshift_] is consistent with [p] bytes read since construction. *)
Definition rd_pos s (p : Z) : Prop :=
  match ser_cur s with
  | [] => True
  | b :: _ => exists k, mb_rd_ptr b - align_rshift_ s = p + 8 * k
  end.

Lemma uwrap_mod8 z : exists q, uwrap 64 z mod MAX_ALIGN = z + 8 * q.
Proof.
  unfold uwrap, MAX_ALIGN. exists (- (2 ^ 61 * (z / 2 ^ 64)) - ((z mod 2 ^ 64) / 8)).
  pose proof (Z.div_mod z (2 ^ 64) ltac:(done)). pose proof (Z.div_mod (z mod 2 ^ 64) 8 ltac:(done)).
  change (2 ^ 64) with (8 * 2 ^ 61) in *. lia.
Qed.

Lemma align_cont_r_spec s b rest p :
  ser_cur s = b :: rest -> rd_pos s p ->
  exists s', align_cont_r s = Ret s' /\ ser_cur s' = rest /\ rd_pos s' p /\
    same_mode s s' /\ good_bit_ s' = good_bit_ s.
Proof.
  intros Hc Hp. unfold align_cont_r. rewrite Hc. cbn [head deref mbind outcome_bind].
  unfold rd_pos in Hp. rewrite Hc in Hp. destruct Hp as [k Hp]. unfold cont. rewrite Hc. cbn [ser_cur].
  destruct rest as [|c rest]; eexists; (split; [done|]); cbn; split_and!; try done.
  destruct (uwrap_mod8 (mb_rd_ptr b - align_rshift_ s)) as [q1 ->].
  destruct (uwrap_mod8 (mb_rd_ptr c - (mb_rd_ptr b - align_rshift_ s + 8 * q1))) as [q2 ->].
  exists (k + q1 - q2). lia.
Qed.

(** Leaving a spent block, as [doread] does it. *)
Lemma leave_block_r s b rest p :
  ser_cur s = b :: rest -> (alignment_ s = ALIGN_NONE \/ rd_pos s p) ->
  exists s', (if decide (alignment_ s = ALIGN_NONE) then Ret (cont s) else align_cont_r s) = Ret s' /\
    ser_cur s' = rest /\ (alignment_ s = ALIGN_NONE \/ rd_pos s' p) /\ same_mode s s' /\
    good_bit_ s' = good_bit_ s.
Proof.
  intros Hc Hp. case_decide as Ha.
  - eexists. split; [done|]. unfold cont. rewrite Hc. cbn. split_and!; try done. by left.
  - destruct Hp as [?|Hp]; [done|].
    destruct (align_cont_r_spec s b rest p Hc Hp) as (s' & ? & ? & ? & ? & ?).
    exists s'. split_and!; try done. by right.
Qed.

Lemma doread_spec s b rest dest size swap offset p :
  ser_cur s = b :: rest -> (offset < size)%nat -> (swap = true -> (size <= 16)%nat) ->
  length dest = size ->
  (alignment_ s = ALIGN_NONE \/ rd_pos s p) ->
  let initial := Nat.min (size - offset) (mb_length b) in
  exists s', doread s dest size swap offset =
      Ret (s', if swap then poke dest (size - offset - initial) (reverse (take initial (mb_bytes b)))
               else poke dest offset (take initial (mb_bytes b)), (offset + initial)%nat) /\
    rd_stream s' = drop initial (rd_stream s) /\
    (alignment_ s = ALIGN_NONE \/ rd_pos s' (p + Z.of_nat initial)) /\ same_mode s s' /\
    good_bit_ s' = good_bit_ s /\
    (ser_cur s' = rest /\ initial = mb_length b \/
     (length (ser_cur s') = length (ser_cur s) /\ initial = (size - offset)%nat)).
Proof.
  intros Hc Ho Hsw Hd Hp initial. unfold doread. rewrite Hc.
  set (rem := if (mb_length b <? size - offset)%nat then (size - offset - mb_length b)%nat else 0%nat).
  assert (size - offset - rem = initial /\ rem = size - offset - initial)%nat as [-> ->].
  { subst rem initial. destruct (Nat.ltb_spec (mb_length b) (size - offset)); lia. }
  assert (initial <= mb_length b)%nat as Hi by lia.
  assert ((if swap then match swapcpy (mb_bytes b) initial with
      | Some bs => (s, poke dest (size - offset - initial) bs)
      | None => (set_good s false, dest) end
    else (s, poke dest offset (take initial (mb_bytes b))))
    = (s, if swap then poke dest (size - offset - initial) (reverse (take initial (mb_bytes b)))
          else poke dest offset (take initial (mb_bytes b)))) as ->.
  { destruct swap; [|done]. rewrite swapcpy_reverse; [done| |exact Hi]. specialize (Hsw eq_refl). lia. }
  set (s1 := set_cur s (mb_advance_rd initial b) rest).
  assert (alignment_ s1 = ALIGN_NONE \/ rd_pos s1 (p + Z.of_nat initial)) as Hp1.
  { destruct Hp as [?|Hp]; [by left|right]. unfold rd_pos in *. rewrite Hc in Hp. cbn.
    destruct Hp as [k Hp]. exists k. rewrite mb_advance_rd_ptr. lia. }
  assert (rd_stream s1 = drop initial (rd_stream s)) as Hstr.
  { unfold rd_stream, s1, set_cur. cbn [ser_cur]. rewrite Hc, !chain_bytes_cons, mb_advance_rd_bytes by done.
    by rewrite drop_app_le by done. }
  destruct (Nat.eqb_spec (mb_length (mb_advance_rd initial b)) 0) as [Hz|Hz];
    rewrite mb_advance_rd_length in Hz by done.
  - destruct (leave_block_r s1 _ rest _ eq_refl Hp1) as (s2 & -> & Hc2 & Hp2 & Hm2 & Hg2).
    cbn [mbind outcome_bind]. exists s2. split_and!; try done; [|left; split; [done|lia]].
    rewrite <- Hstr. unfold rd_stream, s1, set_cur. cbn [ser_cur]. rewrite Hc2, chain_bytes_cons.
    rewrite mb_advance_rd_bytes, drop_ge by (try done; unfold mb_length in *; lia). done.
  - cbn [mbind outcome_bind]. exists s1. split_and!; try done. right. cbn. rewrite ?Hc. split; [done|lia].
Qed.

Lemma poke_take_swap dest k n (data : list Z) :
  (n <= k)%nat -> (k <= length dest)%nat -> length data = k ->
  reverse (drop n data) ++ drop (k - n) (poke dest (k - n) (reverse (take n data)))
  = reverse data ++ drop k dest.
Proof.
  intros Hn Hk Hl. unfold poke. rewrite length_reverse, length_take.
  rewrite drop_app_length' by (rewrite length_take; lia).
  rewrite app_assoc, <- reverse_app, take_drop. f_equal. f_equal. lia.
Qed.

(** The destination after one step and the rest of the loop. *)
Lemma read_step_dest (dest strm : list Z) size offset n (swap : bool) :
  (offset < size)%nat -> (n <= size - offset)%nat -> length dest = size ->
  (size - offset <= length strm)%nat ->
  (if swap then reverse (take (size - offset - n) (drop n strm)) ++
     drop (size - offset - n) (if swap then poke dest (size - offset - n) (reverse (take n strm))
                               else poke dest offset (take n strm))
   else take (offset + n) (if swap then poke dest (size - offset - n) (reverse (take n strm))
                           else poke dest offset (take n strm)) ++ take (size - offset - n) (drop n strm))
  = if swap then reverse (take (size - offset) strm) ++ drop (size - offset) dest
    else take offset dest ++ take (size - offset) strm.
Proof.
  intros Ho Hn Hd Hl.
  assert (take (size - offset - n) (drop n strm) = drop n (take (size - offset) strm)) as ->.
  { rewrite take_drop_commute. by replace (n + (size - offset - n))%nat with (size - offset)%nat by lia. }
  assert (take n strm = take n (take (size - offset) strm)) as -> by (by rewrite take_take, Nat.min_l by lia).
  set (data := take (size - offset) strm).
  assert (length data = size - offset)%nat as Hld by (subst data; rewrite length_take; lia).
  destruct swap; [apply poke_take_swap; lia|].
  unfold poke. rewrite take_app_ge by (rewrite length_take; lia).
  rewrite length_take, Nat.min_l by lia.
  rewrite take_app_le by (rewrite length_take; lia).
  rewrite take_take, <- app_assoc. f_equal.
  replace ((offset + n - offset) `min` n)%nat with n by lia. apply take_drop.
Qed.

Lemma read_loop_spec fuel : forall s dest size swap offset p,
  (offset <= size)%nat -> (swap = true -> (size <= 16)%nat) -> length dest = size ->
  (size - offset <= length (rd_stream s))%nat ->
  (0 < fuel)%nat -> (offset = size \/ (length (ser_cur s) + 1 < fuel)%nat) ->
  (alignment_ s = ALIGN_NONE \/ rd_pos s p) ->
  exists s', read_loop fuel s dest size swap offset =
      Ret (s', if swap then reverse (take (size - offset) (rd_stream s)) ++ drop (size - offset) dest
               else take offset dest ++ take (size - offset) (rd_stream s)) /\
    rd_stream s' = drop (size - offset) (rd_stream s) /\
    (alignment_ s = ALIGN_NONE \/ rd_pos s' (p + Z.of_nat (size - offset))) /\
    same_mode s s' /\ good_bit_ s' = good_bit_ s.
Proof.
  induction fuel as [|fuel IH]; intros s dest size swap offset p Ho Hsw Hd Hlen Hf0 Hf Hp; [lia|].
  cbn [read_loop]. destruct (Nat.ltb_spec offset size) as [Hlt|Hge].
  2: { replace (size - offset)%nat with 0%nat by lia. exists s. rewrite !drop_0, Z.add_0_r. cbn [take reverse].
       split_and!; try done. f_equal. f_equal. destruct swap; [done|].
       by rewrite app_nil_r, take_ge by lia. }
  destruct (ser_cur s) as [|b rest] eqn:Hc.
  { unfold rd_stream in Hlen. rewrite Hc in Hlen. cbn in Hlen. lia. }
  destruct (doread_spec s b rest dest size swap offset p Hc Hlt Hsw Hd Hp)
    as (s1 & -> & Hs1 & Hp1 & Hm1 & Hg1 & Hcase). cbn [mbind outcome_bind].
  set (n := Nat.min (size - offset) (mb_length b)) in *.
  assert (take n (mb_bytes b) = take n (rd_stream s)) as Htk.
  { unfold rd_stream. rewrite Hc, chain_bytes_cons. symmetry. apply take_app_le. unfold mb_length in *. lia. }
  assert (n <= length (rd_stream s))%nat as Hnl by lia. rewrite Htk.
  set (dest1 := if swap then _ else _).
  assert (length dest1 = size) as Hd1.
  { subst dest1. unfold poke. destruct swap; rewrite !length_app, ?length_reverse, !length_take, length_drop; lia. }
  destruct Hm1 as [Hms Hma].
  destruct (IH s1 dest1 size swap (offset + n)%nat (p + Z.of_nat n)) as (s2 & -> & Hs2 & Hp2 & [Hm2 Hm2'] & Hg2);
    try done; [lia|rewrite Hs1, length_drop; lia|cbn in Hf; lia| |by rewrite Hma|].
  { destruct Hcase as [[-> ?]|[? ?]]; cbn in Hf; lia. }
  exists s2. replace (size - (offset + n))%nat with (size - offset - n)%nat in * by lia.
  rewrite Hs1 in *. split_and!; [| | |split; congruence|congruence].
  - f_equal. f_equal. subst dest1. apply read_step_dest; lia.
  - rewrite Hs2, drop_drop. f_equal. lia.
  - destruct Hp2 as [?|Hp2]; [left; congruence|right].
    replace (p + Z.of_nat (size - offset)) with (p + Z.of_nat n + Z.of_nat (size - offset - n)) by lia.
    exact Hp2.
Qed.

Lemma buffer_read_ok s dest size swap p :
  (swap = true -> (size <= 16)%nat) -> length dest = size ->
  (size <= length (rd_stream s))%nat -> (alignment_ s = ALIGN_NONE \/ rd_pos s p) ->
  exists s', buffer_read s dest size swap =
      Ret (s', if swap then reverse (take size (rd_stream s)) else take size (rd_stream s)) /\
    rd_stream s' = drop size (rd_stream s) /\
    (alignment_ s = ALIGN_NONE \/ rd_pos s' (p + Z.of_nat size)) /\
    same_mode s s' /\ good_bit_ s' = good_bit_ s.
Proof.
  intros Hsw Hd Hl Hp. unfold buffer_read.
  destruct (read_loop_spec (2 + length (ser_cur s)) s dest size swap 0 p) as (s' & -> & Hr);
    try done; try lia. exists s'. rewrite Nat.sub_0_r in *. split; [|done].
  do 2 f_equal. destruct swap; [|done]. by rewrite drop_ge, app_nil_r by lia.
Qed.

(** A read past the end of the chain clears the good bit. *)
Lemma read_loop_short fuel : forall s dest size swap offset,
  (offset < size)%nat -> (swap = true -> (size <= 16)%nat) -> length dest = size ->
  (length (rd_stream s) < size - offset)%nat -> (length (ser_cur s) + 1 < fuel)%nat ->
  alignment_ s = ALIGN_NONE ->
  exists s' dest', read_loop fuel s dest size swap offset = Ret (s', dest') /\ good_bit_ s' = false.
Proof.
  induction fuel as [|fuel IH]; intros s dest size swap offset Ho Hsw Hd Hlen Hf Ha; [lia|].
  cbn [read_loop]. rewrite (proj2 (Nat.ltb_lt _ _) Ho).
  destruct (ser_cur s) as [|b rest] eqn:Hc.
  { unfold doread. rewrite Hc. cbn [mbind outcome_bind]. destruct fuel; [lia|].
    cbn [read_loop]. rewrite Nat.ltb_irrefl. by eexists _, _. }
  destruct (doread_spec s b rest dest size swap offset 0 Hc Ho Hsw Hd (or_introl Ha))
    as (s1 & -> & Hs1 & _ & [Hms Hma] & _ & Hcase). cbn [mbind outcome_bind].
  assert (mb_length b <= length (rd_stream s))%nat.
  { unfold rd_stream. rewrite Hc, chain_bytes_cons, length_app. unfold mb_length. lia. }
  rewrite Nat.min_r in * by lia.
  destruct Hcase as [[Hc1 _]|[_ ?]]; [|lia]. apply IH; [lia|done| | | |congruence].
  - unfold poke. destruct swap; rewrite !length_app, ?length_reverse, !length_take, length_drop;
      unfold mb_length in *; lia.
  - rewrite Hs1, length_drop. lia.
  - rewrite Hc1. cbn in Hf. lia.
Qed.

Lemma skip_loop_spec fuel : forall s len p,
  (len <= length (rd_stream s))%nat -> (length (ser_cur s) + 1 < fuel)%nat -> rd_pos s p ->
  exists s', skip_loop fuel s len = Ret s' /\ rd_stream s' = drop len (rd_stream s) /\
    rd_pos s' (p + Z.of_nat len) /\ same_mode s s' /\ good_bit_ s' = good_bit_ s.
Proof.
  induction fuel as [|fuel IH]; intros s len p Hl Hf Hp; [lia|]. cbn [skip_loop].
  destruct (Nat.eqb_spec len 0) as [->|Hne].
  { exists s. rewrite drop_0, Z.add_0_r. by split_and!. }
  destruct (ser_cur s) as [|b rest] eqn:Hc.
  { unfold rd_stream in Hl. rewrite Hc in Hl. cbn in Hl. lia. }
  assert (rd_stream s = mb_bytes b ++ chain_bytes rest) as Hstr by (unfold rd_stream; by rewrite Hc).
  assert (forall n, rd_pos (set_cur s (mb_advance_rd n b) rest) (p + Z.of_nat n)) as Hp1.
  { intros n. unfold rd_pos in *. rewrite Hc in Hp. cbn. destruct Hp as [k Hp].
    exists k. rewrite mb_advance_rd_ptr. lia. }
  destruct (Nat.leb_spec (mb_length b) len).
  - destruct (align_cont_r_spec (set_cur s (mb_advance_rd (mb_length b) b) rest) _ rest _ eq_refl (Hp1 (mb_length b)))
      as (s1 & -> & Hc1 & Hp1' & [Hm1 Hm1'] & Hg1). cbn [mbind outcome_bind].
    assert (rd_stream s1 = drop (mb_length b) (rd_stream s)) as Hs1.
    { unfold rd_stream at 1. rewrite Hc1, Hstr. unfold mb_length. by rewrite drop_app_length. }
    destruct (IH s1 (len - mb_length b)%nat (p + Z.of_nat (mb_length b)))
      as (s2 & -> & Hs2 & Hp2 & [Hm2 Hm2'] & Hg2); [| |exact Hp1'|].
    { rewrite Hs1, length_drop. lia. } { rewrite Hc1. cbn in Hf. lia. }
    exists s2. split_and!; [done| | |split; cbn in *; congruence|cbn in *; congruence].
    + rewrite Hs2, Hs1, drop_drop. f_equal. lia.
    + replace (p + Z.of_nat len) with (p + Z.of_nat (mb_length b) + Z.of_nat (len - mb_length b)) by lia.
      exact Hp2.
  - eexists. split; [done|]. split_and!; [|apply Hp1|done|done].
    unfold rd_stream at 1, set_cur. cbn [ser_cur].
    rewrite chain_bytes_cons, mb_advance_rd_bytes, Hstr by lia.
    by rewrite drop_app_le by (unfold mb_length in *; lia).
Qed.

(** ** Writing as appending to the chain *)

Definition wr_out s : list Z := chain_bytes (ser_done s ++ ser_cur s).
Definition wr_space s : nat := chain_space (ser_cur s).

Definition wr_pos s (p : Z) : Prop :=
  match ser_cur s with
  | [] => True
  | b :: _ => exists k, mb_wr_ptr b - align_wshift_ s = p + 8 * k
  end.

(** The blocks after [current_] have no content yet. *)
Definition wr_fresh s : Prop := Forall (fun b => mb_bytes b = []) (tail (ser_cur s)).

Definition wr_ok s (p : Z) : Prop := wr_fresh s /\ (alignment_ s = ALIGN_NONE \/ wr_pos s p).

(** [s'] is [s] with the bytes [bs] written. *)
Record wrote s (bs : list Z) s' : Prop := {
  wrote_out : wr_out s' = wr_out s ++ bs;
  wrote_space : (wr_space s' + length bs)%nat = wr_space s;
  wrote_mode : same_mode s s';
  wrote_good : good_bit_ s' = good_bit_ s }.

Lemma wrote_nil s : wrote s [] s.
Proof. split; rewrite ?app_nil_r; cbn; try done; lia. Qed.

Lemma wrote_eq s bs bs' s' : wrote s bs s' -> bs = bs' -> wrote s bs' s'.
Proof. by intros ? <-. Qed.

Lemma wrote_app s bs1 s1 bs2 s2 : wrote s bs1 s1 -> wrote s1 bs2 s2 -> wrote s (bs1 ++ bs2) s2.
Proof.
  intros [Ho1 Hs1 [Hm1 Ha1] Hg1] [Ho2 Hs2 [Hm2 Ha2] Hg2]. split; [| |split; congruence|congruence].
  - by rewrite Ho2, Ho1, app_assoc.
  - rewrite length_app. lia.
Qed.

Lemma chain_bytes_fresh (c : list MB) : Forall (fun b => mb_bytes b = []) c -> chain_bytes c = [].
Proof. induction 1 as [|b c Hb _ IH]; [done|]. by rewrite chain_bytes_cons, Hb, IH. Qed.

Lemma align_cont_w_spec s b rest p :
  ser_cur s = b :: rest -> wr_pos s p ->
  exists s', align_cont_w s = Ret s' /\ ser_done s' = ser_done s ++ [b] /\ ser_cur s' = rest /\
    wr_pos s' p /\ same_mode s s' /\ good_bit_ s' = good_bit_ s.
Proof.
  intros Hc Hp. unfold align_cont_w. rewrite Hc. cbn [head deref mbind outcome_bind].
  unfold wr_pos in Hp. rewrite Hc in Hp. destruct Hp as [k Hp]. unfold cont. rewrite Hc. cbn [ser_cur].
  destruct rest as [|c rest]; eexists; (split; [done|]); cbn; split_and!; try done.
  destruct (uwrap_mod8 (mb_wr_ptr b - align_wshift_ s)) as [q1 ->].
  destruct (uwrap_mod8 (mb_wr_ptr c - (mb_wr_ptr b - align_wshift_ s + 8 * q1))) as [q2 ->].
  exists (k + q1 - q2). lia.
Qed.

(** Replacing [current_] by the block with [bs] added, and leaving it when it
    is full. *)
Lemma put_block s b b' rest p bs (leave : bool) :
  ser_cur s = b :: rest -> wr_ok s p ->
  mb_bytes b' = mb_bytes b ++ bs -> mb_rd_ptr b' = mb_rd_ptr b ->
  (mb_space b' + length bs)%nat = mb_space b -> (leave = true -> mb_space b' = 0%nat) ->
  exists s', (if leave then
      if decide (alignment_ (set_cur s b' rest) = ALIGN_NONE) then Ret (cont (set_cur s b' rest))
      else align_cont_w (set_cur s b' rest)
    else Ret (set_cur s b' rest)) = Ret s' /\
    wrote s bs s' /\ wr_ok s' (p + Z.of_nat (length bs)) /\
    ser_cur s' = if leave then rest else b' :: rest.
Proof.
  intros Hc [Hfr Hp] Hb Hrd Hsp Hlv. unfold wr_fresh in Hfr. rewrite Hc in Hfr. cbn in Hfr.
  assert (chain_bytes rest = []) as Hrest by (by apply chain_bytes_fresh).
  assert (alignment_ s = ALIGN_NONE \/ wr_pos (set_cur s b' rest) (p + Z.of_nat (length bs))) as Hp1.
  { destruct Hp as [?|Hp]; [by left|right]. unfold wr_pos in *. rewrite Hc in Hp. cbn.
    destruct Hp as [k Hp]. exists k. rewrite !mb_ptrs in *. unfold mb_length in *.
    rewrite Hb, Hrd, length_app. lia. }
  assert (forall s', ser_done s' ++ ser_cur s' = ser_done s ++ b' :: rest -> wr_out s' = wr_out s ++ bs) as Hout.
  { intros s' Hs'. unfold wr_out. rewrite Hs', Hc, !chain_bytes_app, !chain_bytes_cons, Hrest, Hb.
    by rewrite !app_nil_r, app_assoc. }
  assert (forall r, Forall (fun b => mb_bytes b = []) r -> Forall (fun b : MB => mb_bytes b = []) (tail r)) as Htl.
  { intros r [|? ? ? ?]; [constructor|done]. }
  destruct leave; [case_decide as Ha|].
  - eexists. split; [done|]. cbn in *. split_and!; [|split|done].
    + split; [apply Hout; cbn; by rewrite <- app_assoc| |done|done].
      unfold wr_space. cbn [ser_cur]. rewrite Hc, chain_space_cons. specialize (Hlv eq_refl). lia.
    + unfold wr_fresh. cbn. by apply Htl.
    + by left.
  - cbn in Ha. destruct Hp1 as [?|Hp1]; [done|].
    destruct (align_cont_w_spec (set_cur s b' rest) b' rest _ eq_refl Hp1) as (s' & -> & Hd' & Hc' & Hp' & Hm & Hg).
    exists s'. split; [done|]. split_and!; [|split|done].
    + split; [apply Hout; rewrite Hd', Hc'; cbn; by rewrite <- app_assoc| |done|done].
      unfold wr_space. rewrite Hc', Hc, chain_space_cons. specialize (Hlv eq_refl). lia.
    + unfold wr_fresh. rewrite Hc'. by apply Htl.
    + by right.
  - eexists. split; [done|]. split_and!; [|split|done].
    + split; [by apply Hout| |done|done]. unfold wr_space, set_cur. cbn [ser_cur].
      rewrite Hc, !chain_space_cons. lia.
    + done.
    + done.
Qed.

Lemma dowrite_spec s b rest src size (swap : bool) offset p :
  ser_cur s = b :: rest -> (offset < size)%nat -> (swap = true -> (size <= 16)%nat) ->
  length src = size -> wr_ok s p ->
  let n := Nat.min (size - offset) (mb_space b) in
  let bs := if swap then reverse (take n (drop (size - offset - n) src)) else take n (drop offset src) in
  exists s', dowrite s src size swap offset = Ret (s', (offset + n)%nat) /\
    wrote s bs s' /\ wr_ok s' (p + Z.of_nat n) /\ length bs = n /\
    (ser_cur s' = rest \/ length (ser_cur s') = length (ser_cur s) /\ n = (size - offset)%nat).
Proof.
  intros Hc Ho Hsw Hl Hok n bs. unfold dowrite. rewrite Hc.
  set (rem := if (mb_space b <? size - offset)%nat then (size - offset - mb_space b)%nat else 0%nat).
  assert (size - offset - rem = n /\ rem = size - offset - n)%nat as [-> ->].
  { subst rem n. destruct (Nat.ltb_spec (mb_space b) (size - offset)); lia. }
  assert (n <= mb_space b)%nat as Hn by lia.
  assert (length bs = n) as Hbs.
  { subst bs. destruct swap; rewrite ?length_reverse, length_take, length_drop; lia. }
  assert ((if swap then match swapcpy (drop (size - offset - n) src) n with
      | Some bs => (s, mb_copy bs b)
      | None => (set_good s false, mb_advance_wr n b) end
    else (s, mb_copy (take n (drop offset src)) b)) = (s, mb_copy bs b)) as ->.
  { subst bs. destruct swap; [|done]. specialize (Hsw eq_refl).
    rewrite swapcpy_reverse; [done|lia|rewrite length_drop; lia]. }
  destruct (put_block s b (mb_copy bs b) rest p bs (mb_space (mb_copy bs b) =? 0)%nat)
    as (s' & -> & Hw & Hok' & Hcur); try done.
  - by rewrite mb_copy_bytes by lia.
  - by rewrite mb_copy_rd.
  - rewrite mb_copy_space by lia. lia.
  - by intros ?%Nat.eqb_eq.
  - cbn [mbind outcome_bind]. rewrite Hbs in Hok'. exists s'. split_and!; try done.
    destruct (Nat.eqb_spec (mb_space (mb_copy bs b)) 0) as [|Hz]; [by left|right].
    rewrite Hcur. split; [done|]. rewrite mb_copy_space in Hz by lia. lia.
Qed.

Lemma write_loop_spec fuel : forall s src size (swap : bool) offset p,
  (offset <= size)%nat -> (swap = true -> (size <= 16)%nat) -> length src = size -> wr_ok s p ->
  (size - offset <= wr_space s)%nat ->
  (0 < fuel)%nat -> (offset = size \/ (length (ser_cur s) + 1 < fuel)%nat) ->
  exists s', write_loop fuel s src size swap offset = Ret s' /\
    wrote s (if swap then reverse (take (size - offset) src) else drop offset src) s' /\
    wr_ok s' (p + Z.of_nat (size - offset)).
Proof.
  induction fuel as [|fuel IH]; intros s src size swap offset p Ho Hsw Hl Hok Hsp Hf0 Hf; [lia|].
  cbn [write_loop]. destruct (Nat.ltb_spec offset size) as [Hlt|Hge].
  2: { replace (size - offset)%nat with 0%nat by lia. exists s. rewrite Z.add_0_r.
       split_and!; try done. rewrite drop_ge by lia. destruct swap; apply wrote_nil. }
  destruct (ser_cur s) as [|b rest] eqn:Hc.
  { unfold wr_space in Hsp. rewrite Hc in Hsp. cbn in Hsp. lia. }
  destruct (dowrite_spec s b rest src size swap offset p Hc Hlt Hsw Hl Hok)
    as (s1 & -> & Hw1 & Hok1 & Hn1 & Hcase). cbn [mbind outcome_bind].
  set (n := Nat.min (size - offset) (mb_space b)) in *.
  destruct (IH s1 src size swap (offset + n)%nat (p + Z.of_nat n)) as (s2 & -> & Hw2 & Hok2); try done; try lia.
  { destruct Hw1 as [_ Hs1 _ _]. rewrite Hn1 in Hs1. lia. }
  { destruct Hcase as [-> |[? ?]]; cbn in Hf; lia. }
  exists s2. split_and!; [done| |].
  - pose proof (wrote_app _ _ _ _ _ Hw1 Hw2) as Hw. refine (wrote_eq _ _ _ _ Hw _).
    clear Hw. destruct swap.
    + rewrite <- reverse_app. f_equal. rewrite take_drop_commute.
      replace (size - offset - n + n)%nat with (size - offset)%nat by lia.
      replace (size - (offset + n))%nat with (size - offset - n)%nat by lia.
      rewrite <- (take_drop (size - offset - n) (take (size - offset) src)) at 2.
      by rewrite take_take, Nat.min_l by lia.
    + rewrite <- (drop_drop src n offset). by rewrite take_drop.
  - replace (p + Z.of_nat (size - offset)) with (p + Z.of_nat n + Z.of_nat (size - (offset + n))) by lia.
    exact Hok2.
Qed.

Lemma buffer_write_ok s src size (swap : bool) p :
  (swap = true -> (size <= 16)%nat) -> length src = size -> wr_ok s p -> (size <= wr_space s)%nat ->
  exists s', buffer_write s src size swap = Ret s' /\
    wrote s (if swap then reverse src else src) s' /\ wr_ok s' (p + Z.of_nat size).
Proof.
  intros Hsw Hl Hok Hsp. unfold buffer_write.
  destruct (write_loop_spec (2 + length (ser_cur s)) s src size swap 0 p) as (s' & -> & Hw & Hok');
    try done; try lia. exists s'. rewrite Nat.sub_0_r, take_ge, drop_0 in * by lia. done.
Qed.

(** Padding bytes: zeros or what the buffer held. *)
Lemma pad_loop_spec fuel : forall s len p,
  wr_ok s p -> alignment_ s <> ALIGN_NONE -> (len <= wr_space s)%nat ->
  (length (ser_cur s) + 1 < fuel)%nat ->
  exists s' bs, pad_loop fuel s len = Ret s' /\ wrote s bs s' /\ length bs = len /\
    (alignment_ s = ALIGN_INITIALIZE -> bs = replicate len 0) /\ wr_ok s' (p + Z.of_nat len).
Proof.
  induction fuel as [|fuel IH]; intros s len p Hok Ha Hsp Hf; [lia|]. cbn [pad_loop].
  destruct (Nat.eqb_spec len 0) as [->|Hne].
  { exists s, []. rewrite Z.add_0_r. split_and!; try done. apply wrote_nil. }
  destruct (ser_cur s) as [|b rest] eqn:Hc.
  { unfold wr_space in Hsp. rewrite Hc in Hsp. cbn in Hsp. lia. }
  set (pad n := if decide (alignment_ s = ALIGN_INITIALIZE) then mb_copy (replicate n 0) b else mb_advance_wr n b).
  assert (forall n, (n <= mb_space b)%nat -> exists bs, length bs = n /\
    mb_bytes (pad n) = mb_bytes b ++ bs /\ mb_rd_ptr (pad n) = mb_rd_ptr b /\
    mb_space (pad n) = (mb_space b - n)%nat /\ (alignment_ s = ALIGN_INITIALIZE -> bs = replicate n 0)) as Hpad.
  { intros n Hn. subst pad. cbn beta. case_decide.
    - exists (replicate n 0). rewrite mb_copy_bytes, mb_copy_rd, mb_copy_space, length_replicate
        by (rewrite length_replicate; lia). done.
    - exists (drop (mb_length b) (mb_bytes (mb_advance_wr n b))).
      rewrite mb_advance_wr_rd, mb_advance_wr_space, length_drop by done.
      pose proof (mb_advance_wr_length n b Hn) as Hwl. unfold mb_length at 1 in Hwl.
      split_and!; [lia| |done|done|done]. rewrite <- (mb_advance_wr_bytes n b) at 1 by done.
      by rewrite take_drop. }
  destruct (Nat.leb_spec (mb_space b) len) as [Hle|Hgt].
  - destruct (Hpad (mb_space b)) as (bs & Hlb & Hbb & Hrd & Hsb & Hini); [done|].
    destruct (put_block s b (pad (mb_space b)) rest p bs true Hc Hok Hbb Hrd) as (s1 & Hs1 & Hw1 & Hok1 & Hc1); [lia|lia|].
    rewrite decide_False in Hs1 by done. subst pad. cbn beta zeta in *. rewrite Hs1. cbn [mbind outcome_bind].
    assert (alignment_ s1 = alignment_ s) as Ha1 by (destruct Hw1 as [_ _ [_ ?] _]; done).
    destruct (IH s1 (len - mb_space b)%nat _ Hok1) as (s2 & bs2 & -> & Hw2 & Hl2 & Hini2 & Hok2).
    { by rewrite Ha1. } { destruct Hw1 as [_ Hs _ _]. lia. } { rewrite Hc1. cbn in Hf. lia. }
    exists s2, (bs ++ bs2). split_and!; [done|by eapply wrote_app|rewrite length_app; lia| |].
    + intros Hi. rewrite Hini, Hini2 by congruence. rewrite <- replicate_add. f_equal. lia.
    + replace (p + Z.of_nat len) with (p + Z.of_nat (length bs) + Z.of_nat (len - mb_space b)) by lia. exact Hok2.
  - destruct (Hpad len) as (bs & Hlb & Hbb & Hrd & Hsb & Hini); [lia|].
    destruct (put_block s b (pad len) rest p bs false Hc Hok Hbb Hrd) as (s1 & Hs1 & Hw1 & Hok1 & Hc1); [lia|done|].
    injection Hs1 as <-. rewrite Hlb in Hok1. eexists _, bs. split_and!; done.
Qed.

(** ** Typed values *)

Definition pad_len (a : Alignment) (p al : Z) : Z :=
  match a with ALIGN_NONE => 0 | _ => (- p) mod al end.

(** The alignments of CDR. *)
Definition cdr_size (n : nat) : Prop := n = 1%nat \/ n = 2%nat \/ n = 4%nat \/ n = 8%nat.

Lemma pad_len_bound a p n : cdr_size n -> 0 <= pad_len a p (Z.of_nat n) < Z.of_nat n.
Proof.
  intros Hn. unfold pad_len. destruct a; [destruct Hn; lia|..];
    apply Z.mod_pos_bound; destruct Hn as [->|[->|[->| ->]]]; lia.
Qed.

Lemma align_amount n ptr shift p k :
  cdr_size n -> ptr - shift = p + 8 * k ->
  uwrap 64 (Z.of_nat n - ptr + shift) mod Z.of_nat n = (- p) mod Z.of_nat n.
Proof.
  intros Hn Hp. replace (Z.of_nat n - ptr + shift) with (Z.of_nat n - p - 8 * k) by lia.
  unfold uwrap. set (al := Z.of_nat n).
  assert (exists m, 8 = al * m /\ 0 < al) as (m & Hm & Hal).
  { subst al. destruct Hn as [->|[->|[->| ->]]]; [exists 8|exists 4|exists 2|exists 1]; lia. }
  rewrite Z.mod_mod_divide.
  2: { exists (m * 2 ^ 61). change (2 ^ 64) with (8 * 2 ^ 61). lia. }
  rewrite Hm. replace (al - p - al * m * k) with (- p + (1 - m * k) * al) by lia.
  by rewrite Z.mod_add by lia.
Qed.

(** The alignment step before a read and before a write. *)
Lemma align_step_r s n p :
  cdr_size n -> (alignment_ s = ALIGN_NONE \/ rd_pos s p) ->
  let pl := pad_len (alignment_ s) p (Z.of_nat n) in
  (Z.to_nat pl < length (rd_stream s))%nat ->
  exists s', (if decide (alignment_ s = ALIGN_NONE) then Ret s else align_r s (Z.of_nat n)) = Ret s' /\
    rd_stream s' = drop (Z.to_nat pl) (rd_stream s) /\
    (alignment_ s = ALIGN_NONE \/ rd_pos s' (p + pl)) /\ same_mode s s' /\ good_bit_ s' = good_bit_ s.
Proof.
  intros Hn Hp pl Hl. pose proof (pad_len_bound (alignment_ s) p n Hn) as Hb. fold pl in Hb.
  case_decide as Ha.
  { exists s. subst pl. rewrite Ha. cbn. rewrite drop_0. split_and!; try done. by left. }
  destruct Hp as [?|Hp]; [done|]. unfold align_r.
  destruct (ser_cur s) as [|b rest] eqn:Hc.
  { unfold rd_stream in Hl. rewrite Hc in Hl. cbn in Hl. lia. }
  cbn [head deref mbind outcome_bind].
  assert (uwrap 64 (Z.of_nat n - mb_rd_ptr b + align_rshift_ s) mod Z.of_nat n = pl) as ->.
  { pose proof Hp as Hp'. unfold rd_pos in Hp'. rewrite Hc in Hp'. destruct Hp' as [k Hk].
    rewrite (align_amount n _ _ p k) by done. subst pl. unfold pad_len. by destruct (alignment_ s). }
  rewrite uwrap_small.
  2: { unfold is_u. change (2 ^ 16) with 65536. destruct Hn as [->|[->|[->| ->]]]; lia. }
  destruct (skip_loop_spec (2 + length (ser_cur s)) s (Z.to_nat pl) p) as (s' & Hs' & Hr & Hpos & Hm & Hg);
    [lia|lia|done|].
  exists s'. unfold skip1. rewrite Hs', Hr. split_and!; try done. right.
  by rewrite Z2Nat.id in Hpos by lia.
Qed.

Lemma align_step_w s n p :
  cdr_size n -> wr_ok s p ->
  let pl := pad_len (alignment_ s) p (Z.of_nat n) in
  (Z.to_nat pl < wr_space s)%nat ->
  exists s' pad, (if decide (alignment_ s = ALIGN_NONE) then Ret s else align_w s (Z.of_nat n)) = Ret s' /\
    wrote s pad s' /\ length pad = Z.to_nat pl /\ wr_ok s' (p + pl) /\
    (alignment_ s = ALIGN_INITIALIZE -> pad = replicate (Z.to_nat pl) 0).
Proof.
  intros Hn Hok pl Hl. pose proof (pad_len_bound (alignment_ s) p n Hn) as Hb. fold pl in Hb.
  case_decide as Ha.
  { exists s, []. subst pl. rewrite Ha. cbn. rewrite Z.add_0_r. split_and!; try done. apply wrote_nil. }
  unfold align_w. destruct (ser_cur s) as [|b rest] eqn:Hc.
  { unfold wr_space in Hl. rewrite Hc in Hl. cbn in Hl. lia. }
  cbn [head deref mbind outcome_bind].
  assert (uwrap 64 (Z.of_nat n - mb_wr_ptr b + align_wshift_ s) mod Z.of_nat n = pl) as ->.
  { destruct Hok as [_ [?|Hp]]; [done|]. unfold wr_pos in Hp. rewrite Hc in Hp. destruct Hp as [k Hk].
    rewrite (align_amount n _ _ p k) by done. subst pl. unfold pad_len. by destruct (alignment_ s). }
  destruct (pad_loop_spec (2 + length (b :: rest)) s (Z.to_nat pl) p Hok Ha) as (s' & bs & -> & Hw & Hlb & Hini & Hok');
    [lia|rewrite Hc; lia|].
  exists s', bs. rewrite Z2Nat.id in Hok' by lia. by split_and!.
Qed.

Definition wire (swap : bool) (n : nat) (x : Z) : list Z :=
  if swap then reverse (le_bytes n x) else le_bytes n x.

Lemma wire_length swap n x : length (wire swap n x) = n.
Proof. unfold wire. destruct swap; rewrite ?length_reverse; apply le_bytes_length. Qed.

Lemma write_int_ok n s x p :
  cdr_size n -> wr_ok s p ->
  let pl := pad_len (alignment_ s) p (Z.of_nat n) in
  (Z.to_nat pl + n <= wr_space s)%nat ->
  exists s' pad, write_int n s x = Ret s' /\ wrote s (pad ++ wire (swap_bytes_ s) n x) s' /\
    length pad = Z.to_nat pl /\ wr_ok s' (p + pl + Z.of_nat n) /\
    (alignment_ s = ALIGN_INITIALIZE -> pad = replicate (Z.to_nat pl) 0).
Proof.
  intros Hn Hok pl Hsp. unfold write_int.
  assert (1 <= n <= 16)%nat as Hn16 by (destruct Hn as [->|[->|[->| ->]]]; lia).
  destruct (align_step_w s n p Hn Hok) as (s1 & pad & -> & Hw1 & Hlp & Hok1 & Hini); [fold pl; lia|].
  fold pl in Hok1, Hlp, Hini. cbn [mbind outcome_bind].
  destruct (buffer_write_ok s1 (le_bytes n x) n (swap_bytes_ s1) (p + pl)) as (s2 & -> & Hw2 & Hok2);
    [lia|apply le_bytes_length|done| |].
  { destruct Hw1 as [_ Hs _ _]. lia. }
  exists s2, pad. split_and!; try done. refine (wrote_eq _ _ _ _ (wrote_app _ _ _ _ _ Hw1 Hw2) _).
  destruct Hw1 as [_ _ [Hm _] _]. by rewrite Hm.
Qed.

Lemma unwire (swap : bool) n x : le_value (if swap then reverse (wire swap n x) else wire swap n x) = x mod 2 ^ (8 * Z.of_nat n).
Proof. unfold wire. destruct swap; rewrite ?reverse_involutive; apply le_value_bytes. Qed.

Lemma read_uint_ok n s old p pad x rest :
  cdr_size n -> (alignment_ s = ALIGN_NONE \/ rd_pos s p) ->
  let pl := pad_len (alignment_ s) p (Z.of_nat n) in
  rd_stream s = pad ++ wire (swap_bytes_ s) n x ++ rest -> length pad = Z.to_nat pl ->
  exists s', read_uint n s old = Ret (s', x mod 2 ^ (8 * Z.of_nat n)) /\ rd_stream s' = rest /\
    (alignment_ s = ALIGN_NONE \/ rd_pos s' (p + pl + Z.of_nat n)) /\
    same_mode s s' /\ good_bit_ s' = good_bit_ s.
Proof.
  intros Hn Hp pl Hs Hlp. unfold read_uint.
  assert (1 <= n <= 16)%nat as Hn16 by (destruct Hn as [->|[->|[->| ->]]]; lia).
  destruct (align_step_r s n p Hn Hp) as (s1 & -> & Hs1 & Hp1 & [Hm1 Ha1] & Hg1).
  { fold pl. rewrite Hs, !length_app, wire_length. lia. }
  fold pl in Hs1, Hp1. rewrite Hs, <- Hlp, drop_app_length in Hs1. cbn [mbind outcome_bind].
  destruct (buffer_read_ok s1 (le_bytes n old) n (swap_bytes_ s1) (p + pl)) as (s2 & -> & Hs2 & Hp2 & [Hm2 Ha2] & Hg2);
    [lia|apply le_bytes_length|rewrite Hs1, length_app, wire_length; lia|by rewrite Ha1|].
  cbn [mbind outcome_bind]. exists s2. rewrite Hs1 in *.
  rewrite take_app_length' by (by rewrite wire_length). rewrite drop_app_length' in Hs2 by (by rewrite wire_length).
  rewrite Hm1, unwire. split_and!; try done; [|split; congruence|congruence].
  destruct Hp2 as [?|Hp2]; [left; congruence|by right].
Qed.

(** ** Sequences of values *)

Inductive item :=
| IOctet (x : Z)
| IBoolean (x : bool)
| IChar (x : Z)
| IUInt (n : nat) (x : Z)
| ISInt (n : nat) (x : Z)
| IString (str : list Z).

Definition item_ok (i : item) : Prop :=
  match i with
  | IOctet x => is_u 8 x
  | IBoolean _ => True
  | IChar x => is_s 8 x
  | IUInt n x => cdr_size n /\ is_u (8 * Z.of_nat n) x
  | ISInt n x => cdr_size n /\ is_s (8 * Z.of_nat n) x
  | IString str => Z.of_nat (length str) < 2 ^ 32 - 1
  end.

Definition write_item s (i : item) : outcome (Serializer MB) :=
  match i with
  | IOctet x => write_octet s x
  | IBoolean x => write_boolean s x
  | IChar x => write_char s x
  | IUInt n x | ISInt n x => write_int n s x
  | IString str => write_string s (Some str)
  end.

(** Read a value of the type of [i]. *)
Definition read_item s (i : item) : outcome (Serializer MB * option item) :=
  match i with
  | IOctet _ => '(s, x) ← read_octet s 0; Ret (s, Some (IOctet x))
  | IBoolean _ => '(s, x) ← read_boolean s false; Ret (s, Some (IBoolean x))
  | IChar _ => '(s, x) ← read_char s 0; Ret (s, Some (IChar x))
  | IUInt n _ => '(s, x) ← read_uint n s 0; Ret (s, Some (IUInt n x))
  | ISInt n _ => '(s, x) ← read_sint n s 0; Ret (s, Some (ISInt n x))
  | IString _ =>
      '(s, r) ← read_string s;
      Ret (s, match r with
              | Some bs => if bool_decide (last bs = Some 0) then Some (IString (removelast bs)) else None
              | None => None
              end)
  end.

Fixpoint write_items s (l : list item) : outcome (Serializer MB) :=
  match l with [] => Ret s | i :: l' => s ← write_item s i; write_items s l' end.
Fixpoint read_items s (l : list item) : outcome (Serializer MB * list (option item)) :=
  match l with
  | [] => Ret (s, [])
  | i :: l' => '(s, r) ← read_item s i; '(s, rs) ← read_items s l'; Ret (s, r :: rs)
  end.

(** Alignment, size and wire image of an item. *)
Definition item_align (i : item) : nat :=
  match i with IOctet _ | IBoolean _ | IChar _ => 1%nat | IUInt n _ | ISInt n _ => n | IString _ => 4%nat end.
Definition item_bytes (swap : bool) (i : item) : list Z :=
  match i with
  | IOctet x | IChar x => le_bytes 1 x
  | IBoolean x => le_bytes 1 (if x then 1 else 0)
  | IUInt n x | ISInt n x => wire swap n x
  | IString str => wire swap 4 (1 + Z.of_nat (length str)) ++ str ++ [0]
  end.

(** [bs] is the image of [l] at position [p]: padding, then the bytes of each
    item. *)
Fixpoint encodes (a : Alignment) (swap : bool) (p : Z) (l : list item) (bs : list Z) : Prop :=
  match l with
  | [] => bs = []
  | i :: l' =>
      exists pad rest,
        let pl := pad_len a p (Z.of_nat (item_align i)) in
        length pad = Z.to_nat pl /\ bs = pad ++ item_bytes swap i ++ rest /\
        encodes a swap (p + pl + Z.of_nat (length (item_bytes swap i))) l' rest
  end.

Fixpoint items_size (a : Alignment) (p : Z) (l : list item) : Z :=
  match l with
  | [] => 0
  | i :: l' =>
      let n := pad_len a p (Z.of_nat (item_align i)) + Z.of_nat (length (item_bytes false i)) in
      n + items_size a (p + n) l'
  end.

Lemma item_align_ok i : item_ok i -> cdr_size (item_align i).
Proof. unfold cdr_size. destruct i; cbn; (lia || tauto). Qed.

Lemma item_bytes_length swap i : length (item_bytes swap i) = length (item_bytes false i).
Proof. destruct i; cbn [item_bytes]; by rewrite ?length_app, ?wire_length. Qed.

Lemma pad_len_1 a p : pad_len a p 1 = 0.
Proof. unfold pad_len. destruct a; rewrite ?Z.mod_1_r; done. Qed.

(** One byte, which swapping does not change. *)
Lemma write_byte_ok s x (swap : bool) p :
  wr_ok s p -> (1 <= wr_space s)%nat ->
  exists s', buffer_write s (le_bytes 1 x) 1 swap = Ret s' /\ wrote s (le_bytes 1 x) s' /\ wr_ok s' (p + 1).
Proof.
  intros Hok Hsp. destruct (buffer_write_ok s (le_bytes 1 x) 1 swap p) as (s' & Hw & Hwr & Hok'); [lia|done|done|done|].
  exists s'. split_and!; try done. refine (wrote_eq _ _ _ _ Hwr _). by destruct swap; cbn [le_bytes]; rewrite ?reverse_singleton.
Qed.

Lemma read_byte_ok s x old (swap : bool) p rest :
  (alignment_ s = ALIGN_NONE \/ rd_pos s p) -> rd_stream s = le_bytes 1 x ++ rest ->
  exists s' dest, buffer_read s (le_bytes 1 old) 1 swap = Ret (s', dest) /\ le_value dest = x mod 256 /\ rd_stream s' = rest /\
    (alignment_ s = ALIGN_NONE \/ rd_pos s' (p + 1)) /\ same_mode s s' /\ good_bit_ s' = good_bit_ s.
Proof.
  intros Hp Hs. destruct (buffer_read_ok s (le_bytes 1 old) 1 swap p) as (s' & -> & Hs' & Hp' & Hm & Hgg); [lia|done|rewrite Hs; cbn; lia|done|].
  rewrite Hs in *. eexists _, _. split; [done|]. rewrite take_app_length' by done. rewrite drop_app_length' in Hs' by done.
  split_and!; try done. destruct swap; [change (reverse (le_bytes 1 x)) with (le_bytes 1 x)|]; apply (le_value_bytes 1).
Qed.

Lemma write_item_ok s i p :
  item_ok i -> wr_ok s p ->
  let pl := pad_len (alignment_ s) p (Z.of_nat (item_align i)) in
  let bs := item_bytes (swap_bytes_ s) i in
  (Z.to_nat pl + length bs <= wr_space s)%nat ->
  exists s' pad, write_item s i = Ret s' /\ wrote s (pad ++ bs) s' /\ length pad = Z.to_nat pl /\
    wr_ok s' (p + pl + Z.of_nat (length bs)).
Proof.
  intros Hi Hok pl bs Hsp. destruct i as [x|x|x|n x|n x|str]; cbn [write_item item_align item_bytes item_ok] in *.
  1-3: subst pl bs; rewrite pad_len_1 in *;
    edestruct (write_byte_ok s) as (s' & Hw & Hwr & Hok'); [exact Hok|cbn in *; lia|]; exists s', []; cbn [app]; rewrite Z.add_0_r; by split_and!.
  1-2: destruct Hi as [Hn Hx]; subst bs; rewrite wire_length in *;
    destruct (write_int_ok n s x p Hn Hok) as (s' & pad & ? & ? & ? & ? & _); [done|]; by exists s', pad.
  - subst bs. unfold write_string. rewrite uwrap_small by (unfold is_u; lia).
    rewrite length_app, wire_length in *. rewrite length_app in *. cbn [length] in *.
    destruct (write_int_ok 4 s (1 + Z.of_nat (length str)) p) as (s1 & pad & -> & Hw1 & Hlp & Hok1 & _);
      [unfold cdr_size; lia|done|fold pl; change (Z.of_nat 4) with 4 in *; lia|].
    cbn [mbind outcome_bind]. change (Z.of_nat 4) with 4 in *. fold pl in Hlp, Hok1.
    destruct (buffer_write_ok s1 (str ++ [0]) (Z.to_nat (1 + Z.of_nat (length str))) false (p + pl + 4))
      as (s2 & -> & Hw2 & Hok2); [done|rewrite length_app; cbn; lia|done| |].
    { destruct Hw1 as [_ Hs _ _]. rewrite length_app, wire_length in Hs. lia. }
    exists s2, pad. split_and!; [done| |done|].
    + refine (wrote_eq _ _ _ _ (wrote_app _ _ _ _ _ Hw1 Hw2) _). by rewrite <- app_assoc.
    + replace (p + pl + Z.of_nat (4 + (length str + 1))) with (p + pl + 4 + Z.of_nat (Z.to_nat (1 + Z.of_nat (length str)))) by lia.
      exact Hok2.
Qed.

Lemma cur_nonempty s : rd_stream s <> [] -> exists b, head (ser_cur s) = Some b.
Proof. unfold rd_stream. destruct (ser_cur s) as [|b r]; [done|]. by exists b. Qed.

Lemma read_string_ok s str p pad rest :
  Z.of_nat (length str) < 2 ^ 32 - 1 -> (alignment_ s = ALIGN_NONE \/ rd_pos s p) -> good_bit_ s = true ->
  let pl := pad_len (alignment_ s) p 4 in
  rd_stream s = pad ++ (wire (swap_bytes_ s) 4 (1 + Z.of_nat (length str)) ++ str ++ [0]) ++ rest ->
  length pad = Z.to_nat pl ->
  exists s', read_string s = Ret (s', Some (str ++ [0])) /\ rd_stream s' = rest /\
    (alignment_ s = ALIGN_NONE \/ rd_pos s' (p + pl + 4 + Z.of_nat (length str + 1))) /\
    same_mode s s' /\ good_bit_ s' = good_bit_ s.
Proof.
  intros Hlen Hp Hg pl Hs Hlp. unfold read_string. change (align_r s 4) with (align_r s (Z.of_nat 4)).
  destruct (align_step_r s 4 p) as (s1 & -> & Hs1 & Hp1 & [Hm1 Ha1] & Hg1);
    [unfold cdr_size; lia|done| |].
  { change (Z.of_nat 4) with 4. fold pl. rewrite Hs, !length_app, wire_length. lia. }
  change (Z.of_nat 4) with 4 in *. fold pl in Hs1, Hp1. cbn [mbind outcome_bind].
  rewrite Hs, <- Hlp, drop_app_length in Hs1.
  destruct (buffer_read_ok s1 [0; 0; 0; 0] 4 (swap_bytes_ s1) (p + pl)) as (s2 & -> & Hs2 & Hp2 & [Hm2 Ha2] & Hg2);
    [lia|done|rewrite Hs1, !length_app, wire_length; lia|by rewrite Ha1|].
  cbn [mbind outcome_bind]. rewrite Hs1, <- app_assoc in *.
  rewrite take_app_length' by (by rewrite wire_length). rewrite drop_app_length' in Hs2 by (by rewrite wire_length).
  rewrite Hm1, unwire, Z.mod_small by (cbn; lia). rewrite Hg2, Hg1, Hg. cbn [negb].
  destruct (cur_nonempty s2) as [b ->]; [rewrite Hs2; by destruct str|]. cbn [deref mbind outcome_bind].
  fold (rd_stream s2). rewrite Hs2.
  rewrite (proj2 (Z.leb_le _ _)) by (rewrite !length_app; cbn; lia).
  unfold read_array. rewrite orb_true_r, Nat.mul_1_l.
  destruct (buffer_read_ok s2 (replicate (Z.to_nat (1 + Z.of_nat (length str))) 0)
    (Z.to_nat (1 + Z.of_nat (length str))) false (p + pl + 4)) as (s3 & -> & Hs3 & Hp3 & [Hm3 Ha3] & Hg3);
    [done|apply length_replicate|rewrite Hs2, !length_app; cbn; lia| |].
  { rewrite Ha2, Ha1. destruct Hp2 as [?|Hp2]; [left; congruence|by right]. }
  cbn [mbind outcome_bind]. rewrite Hg3, Hg2, Hg1, Hg. cbn [negb]. exists s3. rewrite Hs2 in *.
  rewrite take_app_length' by (rewrite length_app; cbn; lia).
  rewrite drop_app_length' in Hs3 by (rewrite length_app; cbn; lia).
  split_and!; try done; [|split; congruence|congruence].
  destruct Hp3 as [?|Hp3]; [left; congruence|right].
  replace (Z.of_nat (length str + 1)) with (Z.of_nat (Z.to_nat (1 + Z.of_nat (length str)))) by lia. done.
Qed.

Lemma read_item_ok s i p pad rest :
  item_ok i -> (alignment_ s = ALIGN_NONE \/ rd_pos s p) -> good_bit_ s = true ->
  let pl := pad_len (alignment_ s) p (Z.of_nat (item_align i)) in
  let bs := item_bytes (swap_bytes_ s) i in
  rd_stream s = pad ++ bs ++ rest -> length pad = Z.to_nat pl ->
  exists s', read_item s i = Ret (s', Some i) /\ rd_stream s' = rest /\
    (alignment_ s = ALIGN_NONE \/ rd_pos s' (p + pl + Z.of_nat (length bs))) /\
    same_mode s s' /\ good_bit_ s' = good_bit_ s.
Proof.
  intros Hi Hp Hg pl bs Hs Hlp. destruct i as [x|x|x|n x|n x|str]; cbn [read_item item_align item_bytes item_ok] in *.
  1-3: subst pl bs; rewrite pad_len_1 in *; destruct pad; [|done]; cbn [app] in Hs; unfold read_octet, read_boolean, read_char;
    edestruct (read_byte_ok s) as (s' & dest & -> & Hd & Hs' & Hp' & Hm & Hgg); [exact Hp|exact Hs|];
    cbn [mbind outcome_bind]; exists s'; rewrite Hd, Z.add_0_r; (split; [|done]).
  - by rewrite Z.mod_small.
  - by destruct x.
  - change (x mod 256) with (uwrap 8 x). by rewrite swrap_uwrap.
  - destruct Hi as [Hn Hx]. subst bs. rewrite wire_length.
    destruct (read_uint_ok n s 0 p pad x rest Hn Hp Hs Hlp) as (s' & -> & ?). cbn [mbind outcome_bind].
    exists s'. split; [|done]. rewrite Z.mod_small by done. done.
  - destruct Hi as [Hn Hx]. subst bs. rewrite wire_length. unfold read_sint.
    destruct (read_uint_ok n s 0 p pad x rest Hn Hp Hs Hlp) as (s' & -> & ?). cbn [mbind outcome_bind].
    exists s'. split; [|done]. fold (uwrap (8 * Z.of_nat n) x). rewrite swrap_uwrap; [done|destruct Hn as [->|[->|[->| ->]]]; lia|done].
  - subst bs. destruct (read_string_ok s str p pad rest Hi Hp Hg Hs Hlp) as (s' & -> & Hr & Hp' & Hm & Hgg).
    cbn [mbind outcome_bind]. exists s'. rewrite bool_decide_true by apply last_snoc.
    rewrite removelast_last, !length_app, wire_length. cbn [length]. split_and!; try done.
    change (Z.of_nat 4) with 4 in *. fold pl in Hp'.
    replace (p + pl + Z.of_nat (4 + (length str + 1))) with (p + pl + 4 + Z.of_nat (length str + 1)) by lia. done.
Qed.

Lemma write_items_ok l : forall s p,
  Forall item_ok l -> wr_ok s p -> items_size (alignment_ s) p l <= Z.of_nat (wr_space s) ->
  exists s' bs, write_items s l = Ret s' /\ wrote s bs s' /\
    encodes (alignment_ s) (swap_bytes_ s) p l bs.
Proof.
  induction l as [|i l IH]; intros s p Hl Hok Hsp; cbn [write_items encodes items_size] in *.
  { exists s, []. split_and!; try done. apply wrote_nil. }
  inversion Hl as [|? ? Hi Hl']; subst.
  pose proof (pad_len_bound (alignment_ s) p _ (item_align_ok i Hi)) as Hb.
  assert (forall q a, 0 <= items_size a q l) as Hpos.
  { clear -Hl'. induction Hl' as [|j l Hj _ IH]; intros q a; cbn [items_size]; [lia|].
    pose proof (pad_len_bound a q _ (item_align_ok j Hj)). pose proof (IH (q + (pad_len a q (Z.of_nat (item_align j)) + Z.of_nat (length (item_bytes false j)))) a). lia. }
  rewrite <- (item_bytes_length (swap_bytes_ s)) in Hsp.
  destruct (write_item_ok s i p Hi Hok) as (s1 & pad & -> & Hw1 & Hlp & Hok1).
  { match type of Hsp with context [items_size ?a ?q l] => specialize (Hpos q a) end. lia. }
  cbn [mbind outcome_bind]. pose proof Hw1 as [_ Hs1 [Hm1 Ha1] _].
  destruct (IH s1 _ Hl' Hok1) as (s2 & bs & -> & Hw2 & He).
  { rewrite Ha1. rewrite length_app in Hs1.
    rewrite <- Z.add_assoc. lia. }
  exists s2, (pad ++ item_bytes (swap_bytes_ s) i ++ bs). split_and!; [done| |].
  - refine (wrote_eq _ _ _ _ (wrote_app _ _ _ _ _ Hw1 Hw2) _). by rewrite <- app_assoc.
  - exists pad, bs. rewrite Ha1, Hm1 in He. by split_and!.
Qed.

Lemma read_items_ok l : forall s p bs tl,
  Forall item_ok l -> (alignment_ s = ALIGN_NONE \/ rd_pos s p) -> good_bit_ s = true ->
  encodes (alignment_ s) (swap_bytes_ s) p l bs -> rd_stream s = bs ++ tl ->
  exists s', read_items s l = Ret (s', Some <$> l) /\ rd_stream s' = tl /\ good_bit_ s' = true.
Proof.
  induction l as [|i l IH]; intros s p bs tl Hl Hp Hg He Hs; cbn [read_items encodes] in *.
  { subst bs. by exists s. }
  inversion Hl as [|? ? Hi Hl']; subst. destruct He as (pad & rest & Hlp & -> & He).
  rewrite <- !app_assoc in Hs.
  destruct (read_item_ok s i p pad (rest ++ tl) Hi Hp Hg Hs Hlp) as (s1 & -> & Hs1 & Hp1 & [Hm1 Ha1] & Hg1).
  cbn [mbind outcome_bind]. rewrite <- Ha1, <- Hm1 in He. rewrite <- Ha1 in Hp1 at 1.
  destruct (IH s1 _ rest tl Hl' ltac:(by rewrite <- Ha1 in Hp1) ltac:(congruence) ltac:(by rewrite Ha1, Hm1 in He |- *) Hs1) as (s2 & -> & Hs2 & Hg2).
  cbn [mbind outcome_bind]. by exists s2.
Qed.
End streams.

Section properties.
Context {MB : Type} `{MessageBlockLaws MB}.

Lemma mk_serializer_rd (chain : list MB) sw al : rd_pos (mk_serializer chain sw al) 0.
Proof.
  unfold rd_pos, mk_serializer. cbn. destruct chain as [|b r]; [done|]. exists (mb_rd_ptr b / 8).
  unfold MAX_ALIGN. pose proof (Z.div_mod (mb_rd_ptr b) 8 ltac:(done)). lia.
Qed.

Lemma mk_serializer_wr (chain : list MB) sw al :
  Forall (fun b => mb_bytes b = []) chain -> wr_ok (mk_serializer chain sw al) 0.
Proof.
  intros Hc. split; [destruct Hc; [constructor|done]|right]. unfold wr_pos, mk_serializer. cbn.
  destruct chain as [|b r]; [done|]. exists (mb_wr_ptr b / 8).
  unfold MAX_ALIGN. pose proof (Z.div_mod (mb_wr_ptr b) 8 ltac:(done)). lia.
Qed.

Lemma items_roundtrip (chain : list MB) sw al l :
  Forall item_ok l -> Forall (fun b => mb_bytes b = []) chain ->
  items_size al 0 l <= Z.of_nat (chain_space chain) ->
  exists s, write_items (mk_serializer chain sw al) l = Ret s /\ good_bit_ s = true /\
    forall (chain2 : list MB) tl,
      chain_bytes chain2 = chain_bytes (ser_done s ++ ser_cur s) ++ tl ->
      exists s2, read_items (mk_serializer chain2 sw al) l = Ret (s2, Some <$> l) /\
        rd_stream s2 = tl /\ good_bit_ s2 = true.
Proof.
  intros Hl Hc Hsp.
  destruct (write_items_ok l (mk_serializer chain sw al) 0 Hl) as (s & bs & Hw & Hwr & He);
    [by apply mk_serializer_wr|done|].
  exists s. destruct Hwr as [Hout _ _ Hg]. split_and!; [done|done|]. intros chain2 tl Hb.
  apply (read_items_ok l (mk_serializer chain2 sw al) 0 bs tl); try done.
  - right. apply mk_serializer_rd.
  - unfold rd_stream, mk_serializer. cbn [ser_cur]. rewrite Hb. fold (wr_out s). rewrite Hout.
    unfold wr_out, mk_serializer. cbn [ser_done ser_cur app]. by rewrite chain_bytes_fresh.
Qed.

(** C20: what the serializer writes it reads back.  Octets, booleans,
    characters, signed and unsigned integers of 1, 2, 4 or 8 bytes and strings,
    in any order, written with any byte order and any alignment mode into empty blocks with enough room, are read back
    unchanged by a serializer with the same settings from any chain that
    holds the same bytes, however these are split into blocks; both good
    bits stay set, and the reader stops exactly at the end of the data. *)
Theorem serializer_roundtrip (chain : list MB) sw al l :
  Forall item_ok l -> Forall (fun b => mb_bytes b = []) chain ->
  items_size al 0 l <= Z.of_nat (chain_space chain) ->
  exists s, write_items (mk_serializer chain sw al) l = Ret s /\ good_bit_ s = true /\
    forall (chain2 : list MB) tl,
      chain_bytes chain2 = chain_bytes (ser_done s ++ ser_cur s) ++ tl ->
      exists s2, read_items (mk_serializer chain2 sw al) l = Ret (s2, Some <$> l) /\
        rd_stream s2 = tl /\ good_bit_ s2 = true.
Proof. exact (items_roundtrip chain sw al l). Qed.

(** without alignment a read of more bytes than the chain has left is
    detected: it returns, with the good bit cleared. *)
Theorem short_read_detected (chain : list MB) sw n old :
  cdr_size n -> (length (chain_bytes chain) < n)%nat ->
  exists s x, read_uint n (mk_serializer chain sw ALIGN_NONE) old = Ret (s, x) /\ good_bit_ s = false.
Proof.
  intros Hn Hl. unfold read_uint. cbn [alignment_ mk_serializer]. rewrite decide_True by done.
  cbn [mbind outcome_bind]. unfold buffer_read.
  assert (1 <= n <= 16)%nat by (destruct Hn as [->|[->|[->| ->]]]; lia).
  destruct (read_loop_short (2 + length chain) (mk_serializer chain sw ALIGN_NONE) (le_bytes n old) n sw 0)
    as (s & dest & Hr & Hg); [lia|lia|apply le_bytes_length|unfold rd_stream; cbn [ser_cur mk_serializer]; lia
    |cbn; lia|done|].
  exists s, (le_value dest). split; [|done]. cbn [swap_bytes_ ser_cur mk_serializer] in *. by rewrite Hr.
Qed.
End properties.

Definition ex_chain : list block := [empty_block 100 3; empty_block 203 0; empty_block 302 2; empty_block 405 20].
Definition ex_items : list item := [IOctet 7; IUInt 4 16909060; IString [65; 66]; ISInt 2 (-2); IBoolean true; IChar (-1)].

Lemma serializer_roundtrip_witness :
  exists s, write_items (mk_serializer ex_chain true ALIGN_INITIALIZE) ex_items = Ret s /\
    map mb_bytes (ser_done s ++ ser_cur s) = [[7; 0; 0]; []; [0; 1]; [2; 3; 4; 0; 0; 0; 3; 65; 66; 0; 0; 255; 254; 1; 255]].
Proof.
  destruct (serializer_roundtrip ex_chain true ALIGN_INITIALIZE ex_items) as (s & Hs & _ & _).
  - repeat constructor; try (vm_compute; congruence); right; right; left; reflexivity.
  - repeat constructor.
  - vm_compute. discriminate.
  - exists s. split; [exact Hs|]. vm_compute in Hs. injection Hs as <-. reflexivity.
Defined.

Lemma short_read_detected_witness :
  exists s x, read_uint 4 (mk_serializer [full_block 0 [1; 2]; full_block 8 [3]] false ALIGN_NONE) 0 = Ret (s, x) /\
    good_bit_ s = false.
Proof.
  apply (short_read_detected [full_block 0 [1; 2]; full_block 8 [3]] false 4 0).
  - right; right; left; reflexivity.
  - vm_compute. lia.
Defined.

(** at the end of the chain the reader dereferences the null [current_]
    instead of clearing the good bit: an aligned read after the last byte, and
    a string whose length field is the end of the data (as written for a null
    string).  A string length larger than the data gives a null string with
    the good bit still set. *)
Theorem read_at_end_dereferences_null :
  ('(s, _) ← read_uint 4 (mk_serializer [full_block 0 [1; 2; 3; 4]] false ALIGN_CDR) 0; read_uint 4 s 0) = UB /\
  ('(s, _) ← read_uint 4 (mk_serializer [full_block 0 [1; 2; 3; 4]] false ALIGN_NONE) 0;
   '(s, x) ← read_uint 4 s 0; Ret (good_bit_ s, x)) = Ret (false, 0) /\
  (s ← write_string (mk_serializer [empty_block 0 4] false ALIGN_NONE) None;
   read_string (mk_serializer (ser_done s ++ ser_cur s) false ALIGN_NONE)) = UB /\
  ('(s, r) ← read_string (mk_serializer [full_block 0 [9; 0; 0; 0; 65; 0]] false ALIGN_NONE);
   Ret (good_bit_ s, r)) = Ret (true, None).
Proof. by vm_compute. Qed.

End Serializer.
Export Serializer.
