(* ===== verification/DataSampleHeader.v ===== *)
(** * The sample header (dds/DCPS/DataSampleHeader.{h,inl,cpp})

    Marshaling of the header that precedes every data sample, the test for a
    partially received header, and the fragmentation of a sample into two and
    its inverse.  The marshaling of [GUID_t] and [GUIDSeq] is code the IDL
    compiler generates from DdsDcpsGuid.idl; it is the parameter
    [GuidMarshal] with the CDR images of these types as its laws. *)

From S2P Require Import Prelude MessageBlock SequenceNumber Serializer.

Module DataSampleHeader.

(** ** Data *)

Inductive MessageId :=
| SAMPLE_DATA | DATAWRITER_LIVELINESS | INSTANCE_REGISTRATION | UNREGISTER_INSTANCE
| DISPOSE_INSTANCE | GRACEFUL_DISCONNECT | REQUEST_ACK | SAMPLE_ACK
| END_COHERENT_CHANGES | TRANSPORT_CONTROL | DISPOSE_UNREGISTER_INSTANCE
| END_HISTORIC_SAMPLES.
Definition MESSAGE_ID_MAX : Z := 12.
Definition SUBMESSAGE_ID_MAX : Z := 5.

(** [mask_flag] of the two flag bytes: bit numbers. *)
Definition BYTE_ORDER_FLAG : Z := 0.
Definition COHERENT_CHANGE_FLAG : Z := 1.
Definition HISTORIC_SAMPLE_FLAG : Z := 2.
Definition LIFESPAN_DURATION_FLAG : Z := 3.
Definition GROUP_COHERENT_FLAG : Z := 4.
Definition CONTENT_FILTER_FLAG : Z := 5.
Definition SEQUENCE_REPAIR_FLAG : Z := 6.
Definition MORE_FRAGMENTS_FLAG : Z := 7.
Definition CDR_ENCAP_FLAG : Z := 0.
Definition KEY_ONLY_FLAG : Z := 1.
Definition mask_flag (flag : Z) : Z := Z.shiftl 1 flag.
Definition FLAGS_OFFSET : nat := 2.

(** A [GUID_t] is its 16 octets. *)
Definition GUID : Type := list Z.
Definition GUID_UNKNOWN : GUID := replicate 16 0.
Definition guid_ok (g : GUID) : Prop := length g = 16%nat.

Record DataSampleHeader := mkDSH {
  message_id_ : Z; submessage_id_ : Z;
  byte_order_ : bool; coherent_change_ : bool; historic_sample_ : bool; lifespan_duration_ : bool;
  group_coherent_ : bool; content_filter_ : bool; sequence_repair_ : bool; more_fragments_ : bool;
  cdr_encapsulation_ : bool; key_fields_only_ : bool;
  message_length_ : Z; sequence_ : SequenceNumber;
  source_timestamp_sec_ : Z; source_timestamp_nanosec_ : Z;
  lifespan_duration_sec_ : Z; lifespan_duration_nanosec_ : Z;
  publication_id_ : GUID; publisher_id_ : GUID;
  content_filter_entries_ : list GUID;
  marshaled_size_ : Z }.

(** The constructor without arguments; [ACE_CDR_BYTE_ORDER] is 1 (little
    endian). *)
Definition default_header : DataSampleHeader :=
  mkDSH 0 0 true false false false false false false false false false 0 (of_value 1) 0 0 0 0
    GUID_UNKNOWN GUID_UNKNOWN [] 0.

Definition ACE_CDR_BYTE_ORDER : bool := true.

(** [max_marshaled_size]. *)
Definition max_marshaled_size : nat := 1 + 1 + 2 + 4 + 8 + 4 + 4 + 4 + 4 + 16 + 16.

Definition flag_bit (f : bool) (flag : Z) : Z := Z.shiftl (if f then 1 else 0) flag.
Definition flags_byte (v : DataSampleHeader) : Z :=
  Z.lor (flag_bit (byte_order_ v) BYTE_ORDER_FLAG)
  (Z.lor (flag_bit (coherent_change_ v) COHERENT_CHANGE_FLAG)
  (Z.lor (flag_bit (historic_sample_ v) HISTORIC_SAMPLE_FLAG)
  (Z.lor (flag_bit (lifespan_duration_ v) LIFESPAN_DURATION_FLAG)
  (Z.lor (flag_bit (group_coherent_ v) GROUP_COHERENT_FLAG)
  (Z.lor (flag_bit (content_filter_ v) CONTENT_FILTER_FLAG)
  (Z.lor (flag_bit (sequence_repair_ v) SEQUENCE_REPAIR_FLAG)
         (flag_bit (more_fragments_ v) MORE_FRAGMENTS_FLAG))))))).
Definition flags2_byte (v : DataSampleHeader) : Z :=
  Z.lor (flag_bit (cdr_encapsulation_ v) CDR_ENCAP_FLAG) (flag_bit (key_fields_only_ v) KEY_ONLY_FLAG).
Definition test_mask (byte flag : Z) : bool := negb (Z.land byte (mask_flag flag) =? 0).

(** [init] stores what it has read so far even when it stops early. *)
Definition set_id (h : DataSampleHeader) (x : Z) : DataSampleHeader :=
  let '(mkDSH _ b c d e f g i j k l m n o p q r s t u v w) := h in
  mkDSH x b c d e f g i j k l m n o p q r s t u v w.
Definition set_subid (h : DataSampleHeader) (x : Z) : DataSampleHeader :=
  let '(mkDSH a _ c d e f g i j k l m n o p q r s t u v w) := h in
  mkDSH a x c d e f g i j k l m n o p q r s t u v w.
Definition set_flags (h : DataSampleHeader) (byte : Z) : DataSampleHeader :=
  let '(mkDSH a b _ _ _ _ _ _ _ _ l m n o p q r s t u v w) := h in
  mkDSH a b (test_mask byte BYTE_ORDER_FLAG) (test_mask byte COHERENT_CHANGE_FLAG)
    (test_mask byte HISTORIC_SAMPLE_FLAG) (test_mask byte LIFESPAN_DURATION_FLAG)
    (test_mask byte GROUP_COHERENT_FLAG) (test_mask byte CONTENT_FILTER_FLAG)
    (test_mask byte SEQUENCE_REPAIR_FLAG) (test_mask byte MORE_FRAGMENTS_FLAG)
    l m n o p q r s t u v w.
Definition set_flags2 (h : DataSampleHeader) (byte : Z) : DataSampleHeader :=
  let '(mkDSH a b c d e f g i j k _ _ n o p q r s t u v w) := h in
  mkDSH a b c d e f g i j k (test_mask byte CDR_ENCAP_FLAG) (test_mask byte KEY_ONLY_FLAG)
    n o p q r s t u v w.
Definition set_length (h : DataSampleHeader) (x : Z) : DataSampleHeader :=
  let '(mkDSH a b c d e f g i j k l m _ o p q r s t u v w) := h in
  mkDSH a b c d e f g i j k l m x o p q r s t u v w.
Definition set_sequence (h : DataSampleHeader) (x : SequenceNumber) : DataSampleHeader :=
  let '(mkDSH a b c d e f g i j k l m n _ p q r s t u v w) := h in
  mkDSH a b c d e f g i j k l m n x p q r s t u v w.
Definition set_ts_sec (h : DataSampleHeader) (x : Z) : DataSampleHeader :=
  let '(mkDSH a b c d e f g i j k l m n o _ q r s t u v w) := h in
  mkDSH a b c d e f g i j k l m n o x q r s t u v w.
Definition set_ts_nanosec (h : DataSampleHeader) (x : Z) : DataSampleHeader :=
  let '(mkDSH a b c d e f g i j k l m n o p _ r s t u v w) := h in
  mkDSH a b c d e f g i j k l m n o p x r s t u v w.
Definition set_ls_sec (h : DataSampleHeader) (x : Z) : DataSampleHeader :=
  let '(mkDSH a b c d e f g i j k l m n o p q _ s t u v w) := h in
  mkDSH a b c d e f g i j k l m n o p q x s t u v w.
Definition set_ls_nanosec (h : DataSampleHeader) (x : Z) : DataSampleHeader :=
  let '(mkDSH a b c d e f g i j k l m n o p q r _ t u v w) := h in
  mkDSH a b c d e f g i j k l m n o p q r x t u v w.
Definition set_publication (h : DataSampleHeader) (x : GUID) : DataSampleHeader :=
  let '(mkDSH a b c d e f g i j k l m n o p q r s _ u v w) := h in
  mkDSH a b c d e f g i j k l m n o p q r s x u v w.
Definition set_publisher (h : DataSampleHeader) (x : GUID) : DataSampleHeader :=
  let '(mkDSH a b c d e f g i j k l m n o p q r s t _ v w) := h in
  mkDSH a b c d e f g i j k l m n o p q r s t x v w.
Definition set_entries (h : DataSampleHeader) (x : list GUID) : DataSampleHeader :=
  let '(mkDSH a b c d e f g i j k l m n o p q r s t u _ w) := h in
  mkDSH a b c d e f g i j k l m n o p q r s t u x w.
Definition add_size (h : DataSampleHeader) (x : Z) : DataSampleHeader :=
  let '(mkDSH a b c d e f g i j k l m n o p q r s t u v w) := h in
  mkDSH a b c d e f g i j k l m n o p q r s t u v (w + x).
Definition set_more_fragments (h : DataSampleHeader) (x : bool) : DataSampleHeader :=
  let '(mkDSH a b c d e f g i j _ l m n o p q r s t u v w) := h in
  mkDSH a b c d e f g i j x l m n o p q r s t u v w.
Definition set_content_filter (h : DataSampleHeader) (x : bool) : DataSampleHeader :=
  let '(mkDSH a b c d e f g _ j k l m n o p q r s t u v w) := h in
  mkDSH a b c d e f g x j k l m n o p q r s t u v w.

(** ** Generated marshaling code *)

Class GuidMarshal (MB : Type) `{MessageBlock MB} := {
  write_guid : Serializer MB -> GUID -> outcome (Serializer MB);
  read_guid : Serializer MB -> GUID -> outcome (Serializer MB * GUID);
  write_guids : Serializer MB -> list GUID -> outcome (Serializer MB);
  read_guids : Serializer MB -> list GUID -> outcome (Serializer MB * list GUID) }.

Section operations.
Context {MB : Type} `{GuidMarshal MB}.
Implicit Types (s : Serializer MB) (h : DataSampleHeader).

Definition set_swap s (b : bool) : Serializer MB :=
  mkSer (ser_done s) (ser_cur s) b (good_bit_ s) (alignment_ s) (align_rshift_ s) (align_wshift_ s).

(** [reader >> field; if (!reader.good_bit()) return; marshaled_size_ += size]. *)
Definition field {A} (m : outcome (Serializer MB * A)) (store : A -> DataSampleHeader) (size : Z)
    (k : Serializer MB -> DataSampleHeader -> outcome (Serializer MB * DataSampleHeader))
    : outcome (Serializer MB * DataSampleHeader) :=
  '(s, x) ← m;
  let h := store x in
  if negb (good_bit_ s) then Ret (s, h) else k s (add_size h size).

Definition read_sn s (x : SequenceNumber) : outcome (Serializer MB * SequenceNumber) :=
  '(s, x, _) ← read_SequenceNumber s x; Ret (s, x).

(** [init]; the sizes of the generated [gen_find_size] functions are those of
    the CDR images (the header starts aligned and all its parts are). *)
Definition init_reader s h : outcome (Serializer MB * DataSampleHeader) :=
  field (read_char s (message_id_ h)) (set_id h) 1 (fun s h =>
  field (read_char s (submessage_id_ h)) (set_subid h) 1 (fun s h =>
  field ('(s, byte) ← read_octet s 0; Ret (s, byte)) (set_flags h) 1 (fun s h =>
  let s := set_swap s (negb (bool_decide (byte_order_ h = ACE_CDR_BYTE_ORDER))) in
  field (read_octet s 0) (set_flags2 h) 1 (fun s h =>
  field (read_uint 4 s (message_length_ h)) (set_length h) 4 (fun s h =>
  field (read_sn s (sequence_ h)) (set_sequence h) 8 (fun s h =>
  field (read_sint 4 s (source_timestamp_sec_ h)) (set_ts_sec h) 4 (fun s h =>
  field (read_uint 4 s (source_timestamp_nanosec_ h)) (set_ts_nanosec h) 4 (fun s h =>
  let rest2 s h :=
    if content_filter_ h then
      field (read_guids s (content_filter_entries_ h)) (set_entries h) 0 (fun s h =>
      Ret (s, add_size h (4 + 16 * Z.of_nat (length (content_filter_entries_ h)))))
    else Ret (s, h) in
  let rest s h :=
    field (read_guid s (publication_id_ h)) (set_publication h) 16 (fun s h =>
    if group_coherent_ h then
      field (read_guid s (publisher_id_ h)) (set_publisher h) 16 rest2
    else rest2 s h) in
  if lifespan_duration_ h then
    field (read_sint 4 s (lifespan_duration_sec_ h)) (set_ls_sec h) 4 (fun s h =>
    field (read_uint 4 s (lifespan_duration_nanosec_ h)) (set_ls_nanosec h) 4 rest)
  else rest s h)))))))).

Definition init (buffer : list MB) h : outcome (Serializer MB * DataSampleHeader) :=
  let h := add_size h (- marshaled_size_ h) in
  init_reader (mk_serializer buffer false ALIGN_NONE) h.

(** [operator<<(ACE_Message_Block&, const DataSampleHeader&)]; every write is
    attempted, the answer is the good bit. *)
Definition write_header (buffer : list MB) (v : DataSampleHeader) : outcome (Serializer MB) :=
  let s := mk_serializer buffer (negb (bool_decide (byte_order_ v = ACE_CDR_BYTE_ORDER))) ALIGN_NONE in
  s ← write_char s (message_id_ v);
  s ← write_char s (submessage_id_ v);
  s ← write_octet s (flags_byte v);
  s ← write_octet s (flags2_byte v);
  s ← write_int 4 s (message_length_ v);
  s ← write_SequenceNumber s (sequence_ v);
  s ← write_int 4 s (source_timestamp_sec_ v);
  s ← write_int 4 s (source_timestamp_nanosec_ v);
  s ← (if lifespan_duration_ v then
         s ← write_int 4 s (lifespan_duration_sec_ v);
         write_int 4 s (lifespan_duration_nanosec_ v)
       else Ret s);
  s ← write_guid s (publication_id_ v);
  if group_coherent_ v then write_guid s (publisher_id_ v) else Ret s.

(** [mb_peek]: skip [offset] bytes, then copy the next [n] in the byte order
    [swap]; [None] when there is not enough data. *)
Definition mb_peek_copy (b : MB) (rest : list MB) (n offset : nat) (swap : bool) : outcome (option Z) :=
  if (n =? 1)%nat then
    x ← deref (mb_bytes b !! offset); Ret (Some x)
  else
    let temp := mb_advance_rd offset b :: rest in
    if (length (chain_bytes temp) <? n)%nat then Ret None
    else
      '(_, dest) ← buffer_read (mk_serializer temp swap ALIGN_NONE) (le_bytes n 0) n swap;
      Ret (Some (le_value dest)).
Fixpoint mb_peek (mb : list MB) (n offset : nat) (swap : bool) : outcome (option Z) :=
  match mb with
  | [] => Ret None
  | b :: rest =>
      let len := mb_length b in
      if (offset <? len)%nat then mb_peek_copy b rest n offset swap
      else mb_peek rest n (offset - len) swap
  end.

Definition partial (mb : list MB) : outcome bool :=
  let len := length (chain_bytes mb) in
  if (len <=? FLAGS_OFFSET)%nat then Ret true
  else
    msg_id ← mb_peek mb 1 0 false;
    if match msg_id with None => true | Some x => MESSAGE_ID_MAX <=? x end then Ret true
    else
      sub_id ← mb_peek mb 1 1 false;
      if match sub_id with None => true | Some x => SUBMESSAGE_ID_MAX <=? x end then Ret true
      else
        flags ← mb_peek mb 1 FLAGS_OFFSET false;
        match flags with
        | None => Ret true
        | Some flags =>
            let expected := max_marshaled_size in
            let expected := if test_mask flags LIFESPAN_DURATION_FLAG then expected else (expected - 8)%nat in
            let expected := if test_mask flags GROUP_COHERENT_FLAG then expected else (expected - 16)%nat in
            if test_mask flags CONTENT_FILTER_FLAG then
              let swap := negb (bool_decide (test_mask flags BYTE_ORDER_FLAG = ACE_CDR_BYTE_ORDER)) in
              seqLen ← mb_peek mb 4 expected swap;
              match seqLen with
              | None => Ret true
              | Some seqLen => Ret (len <? expected + 4 + 16 * Z.to_nat seqLen)%nat
              end
            else Ret (len <? expected)%nat
        end.

(** [test_flag]: a buffer too short for the flags octet gives [false]. *)
Definition test_flag (flag : Z) (b : MB) : bool :=
  match mb_base b !! FLAGS_OFFSET with
  | Some byte => test_mask byte flag
  | None => false
  end.

(** [add_cfentries]: the entries go into a block of their own between the
    header's block and its continuation. *)
Definition add_cfentries (guids : option (list GUID)) (mb : list MB) : outcome (list MB) :=
  b ← deref (head mb);
  let size := match guids with Some g => (4 + 16 * length g)%nat | None => 4%nat end in
  let optHdr := mb_new size in
  let swap := negb (bool_decide (ACE_CDR_BYTE_ORDER = test_flag BYTE_ORDER_FLAG b)) in
  let ser := mk_serializer [optHdr] swap ALIGN_NONE in
  ser ← match guids with Some g => write_guids ser g | None => write_int 4 ser 0 end;
  Ret (b :: (ser_done ser ++ ser_cur ser) ++ tail mb).

(** [split_payload] on a payload that is already a duplicate. *)
Fixpoint split_payload (orig : list MB) (size : nat) : outcome (list MB * list MB) :=
  match orig with
  | [] => UB
  | frag :: cont =>
      if (mb_length frag <? size)%nat then
        '(head, tail) ← split_payload cont (size - mb_length frag);
        Ret (frag :: head, tail)
      else if (size =? mb_length frag)%nat then Ret ([frag], cont)
      else Ret ([mb_truncate size frag], mb_advance_rd size frag :: cont)
  end.

(** The blocks [payload] steps over because the header emptied them. *)
Fixpoint skip_empty (dup : list MB) : outcome (list MB) :=
  match dup with
  | [] => UB
  | b :: rest => if (mb_length b =? 0)%nat then skip_empty rest else Ret dup
  end.

(** [*head << hdr] into a fresh block. *)
Definition marshal_header h : outcome (list MB) :=
  s ← write_header [mb_new max_marshaled_size] h; Ret (ser_done s ++ ser_cur s).

(** Moving [n] entries, from the last one on, out of the header. *)
Fixpoint take_entries (n : nat) (entries : list GUID) : outcome (list GUID * list GUID) :=
  match n with
  | O => Ret ([], entries)
  | S n' =>
      match last entries with
      | None => UB
      | Some e =>
          '(taken, left_) ← take_entries n' (removelast entries);
          Ret (e :: taken, left_)
      end
  end.

(** [split]: the two chains [head] and [tail]. *)
Definition split (orig : list MB) (size : nat) : outcome (list MB * list MB) :=
  let dup := orig in
  let len := length (chain_bytes dup) in
  '(s, hdr) ← init dup default_header;
  let dup := ser_done s ++ ser_cur s in
  let hdr_len := (len - length (chain_bytes dup))%nat in
  first ← deref (head dup);
  if negb (mb_length first =? 0)%nat then UB (* prev is null *)
  else
    payload ← skip_empty dup;
    if (size <? hdr_len)%nat then
      let hdr := set_length (set_more_fragments hdr true) 0 in
      head ← marshal_header hdr;
      let avail := uwrap 64 (Z.of_nat size - Z.of_nat (length (chain_bytes head)) - 4) in
      let n_entries := Z.to_nat (uwrap 32 (avail / 16)) in
      '(entries, left_) ← take_entries n_entries (content_filter_entries_ hdr);
      head ← add_cfentries (Some entries) head;
      let hdr := set_entries hdr left_ in
      let hdr := set_more_fragments hdr false in
      let hdr := set_content_filter hdr (negb (length left_ =? 0)%nat) in
      let hdr := set_length hdr (uwrap 32 (Z.of_nat (length (chain_bytes payload)))) in
      tail ← marshal_header hdr;
      let tail := tail ++ payload in
      tail ← (if content_filter_ hdr then add_cfentries (Some left_) tail else Ret tail);
      Ret (head, tail)
    else
      '(payload, payload_tail) ← split_payload payload (size - hdr_len);
      let hdr := set_more_fragments hdr true in
      let hdr := set_length hdr (uwrap 32 (Z.of_nat (length (chain_bytes payload)))) in
      head ← marshal_header hdr;
      let head := head ++ payload in
      head ← (if content_filter_ hdr then add_cfentries (Some (content_filter_entries_ hdr)) head
              else Ret head);
      let hdr := set_more_fragments hdr false in
      let hdr := set_content_filter hdr false in
      let hdr := set_length hdr (uwrap 32 (Z.of_nat (length (chain_bytes payload_tail)))) in
      tail ← marshal_header hdr;
      Ret (head, tail ++ payload_tail).
End operations.

(** [join]: [None] when the two are not fragments of one message. *)
Definition join (first second : DataSampleHeader) : option DataSampleHeader :=
  if negb (more_fragments_ first) || sn_ne (sequence_ first) (sequence_ second) then None
  else
    let result := set_length second (uwrap 32 (message_length_ second + message_length_ first)) in
    Some (if content_filter_ first then
            set_entries (set_content_filter result true)
              (content_filter_entries_ result ++ reverse (content_filter_entries_ first))
          else result).

(** ** The wire image of a header *)

Definition cf_bytes (sw : bool) (l : list GUID) : list Z := wire sw 4 (Z.of_nat (length l)) ++ concat l.

Definition swapped (h : DataSampleHeader) : bool := negb (bool_decide (byte_order_ h = ACE_CDR_BYTE_ORDER)).

Definition fixed_bytes (h : DataSampleHeader) : list Z :=
  let sw := swapped h in
  [message_id_ h; submessage_id_ h; flags_byte h; flags2_byte h] ++
  wire sw 4 (message_length_ h) ++
  wire sw 4 (high_ (sequence_ h)) ++ wire sw 4 (low_ (sequence_ h)) ++
  wire sw 4 (source_timestamp_sec_ h) ++ wire sw 4 (source_timestamp_nanosec_ h) ++
  (if lifespan_duration_ h then
     wire sw 4 (lifespan_duration_sec_ h) ++ wire sw 4 (lifespan_duration_nanosec_ h) else []) ++
  publication_id_ h ++
  (if group_coherent_ h then publisher_id_ h else []).

Definition header_bytes (h : DataSampleHeader) : list Z :=
  fixed_bytes h ++ (if content_filter_ h then cf_bytes (swapped h) (content_filter_entries_ h) else []).

(** The machine ranges of the members, and enumerators that exist. *)
Record header_ok (h : DataSampleHeader) : Prop := {
  ok_id : 0 <= message_id_ h < MESSAGE_ID_MAX;
  ok_subid : 0 <= submessage_id_ h < SUBMESSAGE_ID_MAX;
  ok_length : is_u 32 (message_length_ h);
  ok_sequence : sn_ok (sequence_ h);
  ok_ts_sec : is_s 32 (source_timestamp_sec_ h);
  ok_ts_nanosec : is_u 32 (source_timestamp_nanosec_ h);
  ok_ls_sec : is_s 32 (lifespan_duration_sec_ h);
  ok_ls_nanosec : is_u 32 (lifespan_duration_nanosec_ h);
  ok_publication : guid_ok (publication_id_ h);
  ok_publisher : guid_ok (publisher_id_ h);
  ok_entries : Forall guid_ok (content_filter_entries_ h);
  ok_entries_length : is_u 32 (Z.of_nat (length (content_filter_entries_ h))) }.

(** What [init] leaves in the object [old] from the image of [h]: members that
    are not in the image keep their values. *)
Definition received (old h : DataSampleHeader) : DataSampleHeader :=
  mkDSH (message_id_ h) (submessage_id_ h) (byte_order_ h) (coherent_change_ h) (historic_sample_ h)
    (lifespan_duration_ h) (group_coherent_ h) (content_filter_ h) (sequence_repair_ h) (more_fragments_ h)
    (cdr_encapsulation_ h) (key_fields_only_ h) (message_length_ h) (sequence_ h)
    (source_timestamp_sec_ h) (source_timestamp_nanosec_ h)
    (if lifespan_duration_ h then lifespan_duration_sec_ h else lifespan_duration_sec_ old)
    (if lifespan_duration_ h then lifespan_duration_nanosec_ h else lifespan_duration_nanosec_ old)
    (publication_id_ h) (if group_coherent_ h then publisher_id_ h else publisher_id_ old)
    (if content_filter_ h then content_filter_entries_ h else content_filter_entries_ old)
    (Z.of_nat (length (header_bytes h))).

Lemma flags_byte_test h :
  let b := flags_byte h in
  is_u 8 b /\
  test_mask b BYTE_ORDER_FLAG = byte_order_ h /\ test_mask b COHERENT_CHANGE_FLAG = coherent_change_ h /\
  test_mask b HISTORIC_SAMPLE_FLAG = historic_sample_ h /\
  test_mask b LIFESPAN_DURATION_FLAG = lifespan_duration_ h /\
  test_mask b GROUP_COHERENT_FLAG = group_coherent_ h /\ test_mask b CONTENT_FILTER_FLAG = content_filter_ h /\
  test_mask b SEQUENCE_REPAIR_FLAG = sequence_repair_ h /\ test_mask b MORE_FRAGMENTS_FLAG = more_fragments_ h.
Proof.
  destruct h as [? ? [] [] [] [] [] [] [] []]; vm_compute; repeat split; congruence.
Qed.

Lemma flags2_byte_test h :
  let b := flags2_byte h in
  is_u 8 b /\ test_mask b CDR_ENCAP_FLAG = cdr_encapsulation_ h /\ test_mask b KEY_ONLY_FLAG = key_fields_only_ h.
Proof.
  destruct h as [? ? ? ? ? ? ? ? ? ? [] []]; vm_compute; repeat split; congruence.
Qed.

Section streams.
Context {MB : Type} `{MessageBlockLaws MB}.

(** A reader with [strm] ahead of it, which has read from the front of the chain
    [T] and has not touched the blocks after the first one as long as it is in
    the first one; and a writer that has written [out] to a chain of [N] blocks, from the start of
    each. *)
Record rd0 (T : list MB) (s : Serializer MB) (sw : bool) (strm : list Z) : Prop := {
  rd0_align : alignment_ s = ALIGN_NONE;
  rd0_swap : swap_bytes_ s = sw;
  rd0_good : good_bit_ s = true;
  rd0_stream : rd_stream s = strm;
  rd0_drained : chain_bytes (ser_done s) = [];
  rd0_first : ser_done s = [] -> chain_bytes (tail (ser_cur s)) = chain_bytes (tail T);
  rd0_from : exists k, ser_done s ++ ser_cur s = consume k T }.

Record wr0 (N : nat) (s : Serializer MB) (sw : bool) (out : list Z) (space : nat) : Prop := {
  wr0_align : alignment_ s = ALIGN_NONE;
  wr0_swap : swap_bytes_ s = sw;
  wr0_good : good_bit_ s = true;
  wr0_fresh : wr_fresh s;
  wr0_out : wr_out s = out;
  wr0_space : wr_space s = space;
  wr0_blocks : length (ser_done s ++ ser_cur s) = N;
  wr0_base : Forall (fun b => mb_rd_off b = 0%nat) (ser_done s ++ ser_cur s) }.

Context {T : list MB}.

(** Where the reader stands in [T]. *)
Definition drained (s : Serializer MB) : Prop :=
  chain_bytes (ser_done s) = [] /\
  (ser_done s = [] -> chain_bytes (tail (ser_cur s)) = chain_bytes (tail T)) /\
  exists k, ser_done s ++ ser_cur s = consume k T.

Lemma doread_drained (s s' : Serializer MB) dest dest' size swap o o' :
  alignment_ s = ALIGN_NONE -> doread s dest size swap o = Ret (s', dest', o') ->
  drained s -> drained s' /\ alignment_ s' = ALIGN_NONE.
Proof.
  intros Ha Hd (Hn & Hf & k & Hk). unfold doread in Hd. destruct (ser_cur s) as [|b rest] eqn:Hcur;
    [injection Hd as <- _ _; unfold drained; cbn; rewrite Hcur; by eauto|].
  revert Hd. set (n := (size - o - _)%nat). set (p := if swap then _ else _).
  assert (n <= mb_length b)%nat as Hnb by (subst n; destruct (Nat.ltb_spec (mb_length b) (size - o)); lia).
  assert (alignment_ p.1 = ALIGN_NONE /\ ser_done p.1 = ser_done s) as [Hpa Hpd].
  { subst p. destruct swap; [|done]. by destruct (swapcpy _ _). }
  destruct p as [s1 d1]. cbn [fst] in *. intros Hd.
  assert (ser_done s ++ mb_advance_rd n b :: rest = consume (k + n) T) as Hk'
    by (rewrite <- consume_add, <- Hk; symmetry; by apply consume_front).
  destruct (Nat.eqb_spec (mb_length (mb_advance_rd n b)) 0) as [Hz|_].
  - rewrite decide_True in Hd by done. cbn [mbind outcome_bind] in Hd. injection Hd as <- _ _.
    unfold drained, cont, set_cur. cbn [ser_cur ser_done alignment_].
    split_and!; [|by destruct (ser_done s1)|rewrite Hpd, <- (assoc_L (++)); by exists (k + n)%nat|done].
    rewrite chain_bytes_app, Hpd, Hn, chain_bytes_cons. apply nil_length_inv in Hz. by rewrite Hz.
  - cbn [mbind outcome_bind] in Hd. injection Hd as <- _ _. unfold drained. cbn.
    rewrite Hpd. split_and!; eauto.
Qed.

Lemma read_loop_drained fuel : forall (s s' : Serializer MB) dest dest' size swap o,
  alignment_ s = ALIGN_NONE -> read_loop fuel s dest size swap o = Ret (s', dest') ->
  drained s -> drained s'.
Proof.
  induction fuel as [|fuel IH]; intros s s' dest dest' size swap o Ha Hr Hd; [done|].
  cbn [read_loop] in Hr. destruct (o <? size)%nat; [|by injection Hr as <- _].
  apply outcome_bind_Ret in Hr as ([[s1 d1] o1] & Hs & Hr).
  destruct (doread_drained _ _ _ _ _ _ _ _ Ha Hs Hd) as (? & ?). by eapply IH.
Qed.

Lemma rd0_buffer s sw bs rest dest n (swap : bool) :
  rd0 T s sw (bs ++ rest) -> length bs = n -> length dest = n -> (swap = true -> (n <= 16)%nat) ->
  exists s', buffer_read s dest n swap = Ret (s', if swap then reverse bs else bs) /\ rd0 T s' sw rest.
Proof.
  intros [Ha Hs Hg Hst Hd Hfirst Hfrom] Hl Hld Hsw.
  destruct (buffer_read_ok s dest n swap 0) as (s' & Hb & Hst' & _ & [Hm Ha'] & Hg');
    [done|done|rewrite Hst, length_app; lia|by left|].
  exists s'. rewrite Hst in *. rewrite take_app_length' in Hb by done. split; [done|].
  destruct (read_loop_drained _ _ _ _ _ _ _ _ Ha Hb (conj Hd (conj Hfirst Hfrom))) as (? & ? & ?).
  split; try congruence; try done. by rewrite Hst', drop_app_length' by done.
Qed.

Lemma rd0_uint n s sw x rest old :
  cdr_size n -> is_u (8 * Z.of_nat n) x -> rd0 T s sw (wire sw n x ++ rest) ->
  exists s', read_uint n s old = Ret (s', x) /\ rd0 T s' sw rest.
Proof.
  intros Hn Hx Hr. unfold read_uint. rewrite decide_True by apply Hr. cbn [mbind outcome_bind].
  assert (n <= 16)%nat by (destruct Hn as [->|[->|[->| ->]]]; lia).
  destruct (rd0_buffer s sw (wire sw n x) rest (le_bytes n old) n (swap_bytes_ s))
    as (s' & -> & Hr'); [done|apply wire_length|apply le_bytes_length|done|].
  cbn [mbind outcome_bind]. exists s'. split; [|done].
  rewrite (rd0_swap _ _ _ _ Hr), unwire, Z.mod_small by done. done.
Qed.

Lemma rd0_sint n s sw x rest old :
  cdr_size n -> is_s (8 * Z.of_nat n) x -> rd0 T s sw (wire sw n x ++ rest) ->
  exists s', read_sint n s old = Ret (s', x) /\ rd0 T s' sw rest.
Proof.
  intros Hn Hx Hr. unfold read_sint.
  assert (1 <= 8 * Z.of_nat n) by (destruct Hn as [->|[->|[->| ->]]]; lia).
  assert (wire sw n x = wire sw n (uwrap (8 * Z.of_nat n) x)) as E.
  { unfold wire. assert (le_bytes n x = le_bytes n (uwrap (8 * Z.of_nat n) x)) as ->; [|done].
    symmetry. apply le_bytes_mod. }
  rewrite E in Hr. destruct (rd0_uint n s sw _ rest old Hn (uwrap_is_u (8 * Z.of_nat n) x ltac:(lia)) Hr) as (s' & -> & ?).
  cbn [mbind outcome_bind]. exists s'. split; [|done]. by rewrite swrap_uwrap.
Qed.

Lemma rd0_octet s sw x rest old :
  is_u 8 x -> rd0 T s sw (x :: rest) -> exists s', read_octet s old = Ret (s', x) /\ rd0 T s' sw rest.
Proof.
  intros Hx Hr. unfold read_octet.
  destruct (rd0_buffer s sw [x] rest (le_bytes 1 old) 1 false) as (s' & -> & ?); [done..|].
  exists s'. split; [|done]. cbn. by rewrite Z.add_0_r.
Qed.

Lemma rd0_char s sw x rest old :
  0 <= x < 128 -> rd0 T s sw (x :: rest) -> exists s', read_char s old = Ret (s', x) /\ rd0 T s' sw rest.
Proof.
  intros Hx Hr. unfold read_char.
  destruct (rd0_buffer s sw [x] rest (le_bytes 1 old) 1 (swap_bytes_ s)) as (s' & -> & ?);
    [done|done|done|lia|].
  exists s'. split; [|done]. cbn [mbind outcome_bind].
  assert (le_value (if swap_bytes_ s then reverse [x] else [x]) = x) as ->
    by (destruct (swap_bytes_ s); rewrite ?reverse_singleton; cbn [le_value]; lia).
  rewrite swrap_small; [done|lia|unfold is_s; change (2 ^ (8 - 1)) with 128; lia].
Qed.

Lemma rd0_sn s sw x rest old :
  sn_ok x -> rd0 T s sw (wire sw 4 (high_ x) ++ wire sw 4 (low_ x) ++ rest) ->
  exists s', read_sn s old = Ret (s', x) /\ rd0 T s' sw rest.
Proof.
  intros [Hh Hl] Hr. unfold read_sn, read_SequenceNumber.
  destruct (rd0_sint 4 s sw (high_ x) _ 0 ltac:(unfold cdr_size; lia) Hh Hr) as (s1 & -> & Hr1).
  cbn [mbind outcome_bind]. rewrite (rd0_good _ _ _ _ Hr1). cbn [negb].
  destruct (rd0_uint 4 s1 sw (low_ x) _ 0 ltac:(unfold cdr_size; lia) Hl Hr1) as (s2 & -> & Hr2).
  cbn [mbind outcome_bind]. rewrite (rd0_good _ _ _ _ Hr2). cbn [negb mbind outcome_bind].
  exists s2. split; [|done]. by destruct x.
Qed.
End streams.

Lemma concat_guids l : Forall guid_ok l -> length (concat l) = (16 * length l)%nat.
Proof. induction 1 as [|g l Hg _ IH]; [done|]. cbn [concat length]. rewrite length_app, IH, Hg. lia. Qed.

Lemma cf_bytes_length sw l : Forall guid_ok l -> length (cf_bytes sw l) = (4 + 16 * length l)%nat.
Proof. intros Hl. unfold cf_bytes. by rewrite length_app, wire_length, concat_guids. Qed.

Lemma fixed_bytes_length h : guid_ok (publication_id_ h) -> guid_ok (publisher_id_ h) ->
  length (fixed_bytes h) = (40 + (if lifespan_duration_ h then 8 else 0) + if group_coherent_ h then 16 else 0)%nat.
Proof.
  unfold guid_ok. intros H1 H2. unfold fixed_bytes. rewrite !length_app, !wire_length, H1.
  destruct (lifespan_duration_ h), (group_coherent_ h); rewrite ?length_app, ?wire_length, ?H2; cbn [length]; lia.
Qed.

Lemma header_bytes_length h :
  guid_ok (publication_id_ h) -> guid_ok (publisher_id_ h) -> Forall guid_ok (content_filter_entries_ h) ->
  Z.of_nat (length (header_bytes h)) =
    40 + (if lifespan_duration_ h then 8 else 0) + (if group_coherent_ h then 16 else 0) +
    (if content_filter_ h then 4 + 16 * Z.of_nat (length (content_filter_entries_ h)) else 0).
Proof.
  intros H1 H2 H3. unfold header_bytes. rewrite length_app, fixed_bytes_length by done.
  destruct (lifespan_duration_ h), (group_coherent_ h), (content_filter_ h);
    rewrite ?cf_bytes_length by done; cbn [length]; lia.
Qed.

Class GuidMarshalLaws (MB : Type) `{GuidMarshal MB} := {
  write_guid_ok : forall N (s : Serializer MB) sw out sp g,
    guid_ok g -> wr0 N s sw out sp -> (16 <= sp)%nat ->
    exists s', write_guid s g = Ret s' /\ wr0 N s' sw (out ++ g) (sp - 16);
  read_guid_ok : forall T (s : Serializer MB) sw g rest old,
    guid_ok g -> rd0 T s sw (g ++ rest) ->
    exists s', read_guid s old = Ret (s', g) /\ rd0 T s' sw rest;
  write_guids_ok : forall N (s : Serializer MB) sw out sp l,
    Forall guid_ok l -> is_u 32 (Z.of_nat (length l)) -> wr0 N s sw out sp -> (4 + 16 * length l <= sp)%nat ->
    exists s', write_guids s l = Ret s' /\ wr0 N s' sw (out ++ cf_bytes sw l) (sp - (4 + 16 * length l));
  read_guids_ok : forall T (s : Serializer MB) sw l rest old,
    Forall guid_ok l -> is_u 32 (Z.of_nat (length l)) -> rd0 T s sw (cf_bytes sw l ++ rest) ->
    exists s', read_guids s old = Ret (s', l) /\ rd0 T s' sw rest }.

Section header.
Context {MB : Type} {MB0 : MessageBlock MB} {MB1 : MessageBlockLaws MB}
  {GM0 : GuidMarshal MB} {GM1 : GuidMarshalLaws MB} {T : list MB} {N : nat}.

Lemma field_ok {A} (m : outcome (Serializer MB * A)) store size k s' x sw strm :
  m = Ret (s', x) -> rd0 T s' sw strm -> field m store size k = k s' (add_size (store x) size).
Proof. intros -> Hr. unfold field. cbn [mbind outcome_bind]. by rewrite (rd0_good _ _ _ _ Hr). Qed.

Lemma rd0_set_swap (s : Serializer MB) sw sw' strm : rd0 T s sw strm -> rd0 T (set_swap s sw') sw' strm.
Proof. intros [? ? ? ? ? ? ?]. by split. Qed.

(** The reader ends with the header [h] stored and [rest] unread. *)
Definition lands (o : outcome (Serializer MB * DataSampleHeader)) h sw rest : Prop :=
  exists s, o = Ret (s, h) /\ rd0 T s sw rest.

Lemma field_lands {A} (m : outcome (Serializer MB * A)) store size k (x : A) sw strm h sw' rest :
  (exists s', m = Ret (s', x) /\ rd0 T s' sw strm) ->
  (forall s', rd0 T s' sw strm -> lands (k s' (add_size (store x) size)) h sw' rest) ->
  lands (field m store size k) h sw' rest.
Proof. intros (s' & Hm & Hr) Hk. erewrite field_ok by eassumption. by apply Hk. Qed.

(** Consume one field of the stream with the lemma [L]. *)
Ltac next_field L :=
  match goal with
  | Hr : rd0 T ?s _ _ |- lands (field _ _ _ _) _ _ _ =>
      eapply field_lands;
      [eapply L; [..|exact Hr]; first [done | lia | unfold cdr_size; lia | idtac]
      |clear s Hr; intros s Hr]
  end.

Lemma init_ok h old buffer rest :
  header_ok h -> chain_bytes buffer = header_bytes h ++ rest -> T = buffer ->
  lands (init buffer old) (received old h) (swapped h) rest.
Proof.
  intros Hok Hb HT. unfold init, init_reader.
  assert (rd0 T (mk_serializer buffer false ALIGN_NONE) false (header_bytes h ++ rest)) as Hr
    by (split; [done..|by subst|exists 0%nat; by rewrite consume_0, HT]).
  revert Hr. generalize (mk_serializer buffer false ALIGN_NONE). intros s Hr.
  unfold header_bytes, fixed_bytes in Hr. rewrite <- !app_assoc in Hr. cbn [app] in Hr.
  destruct (flags_byte_test h) as (Hfb & Hf1 & Hf2 & Hf3 & Hf4 & Hf5 & Hf6 & Hf7 & Hf8).
  destruct (flags2_byte_test h) as (Hfb2 & Hg1 & Hg2).
  destruct Hok as [Hid Hsub Hlen Hseq Hts Htn Hls Hln Hpub Hpbr Hent Henl].
  pose proof (header_bytes_length h Hpub Hpbr Hent) as Hsize.
  unfold MESSAGE_ID_MAX, SUBMESSAGE_ID_MAX in *.
  next_field (rd0_char (MB:=MB) (T:=T)). next_field (rd0_char (MB:=MB) (T:=T)).
  eapply field_lands.
  { destruct (rd0_octet s _ _ _ 0 Hfb Hr) as (s' & -> & ?). by exists s'. }
  clear s Hr; intros s Hr. apply (rd0_set_swap s _ (swapped h)) in Hr.
  destruct old as [? ? ? ? ? ? ? ? ? ? ? ? ? ? ? ? ? ? ? ? ? sz].
  cbn [add_size set_id set_subid set_flags byte_order_ marshaled_size_].
  rewrite Hf1, Hf2, Hf3, Hf4, Hf5, Hf6, Hf7, Hf8.
  fold (swapped h). revert Hr. generalize (set_swap s (swapped h)). clear s. intros s Hr.
  next_field (rd0_octet (MB:=MB) (T:=T)). cbn [set_flags2 add_size]. rewrite Hg1, Hg2.
  next_field (rd0_uint (MB:=MB) (T:=T)). next_field (rd0_sn (MB:=MB) (T:=T)).
  next_field (rd0_sint (MB:=MB) (T:=T)). next_field (rd0_uint (MB:=MB) (T:=T)).
  cbn [set_length set_sequence set_ts_sec set_ts_nanosec add_size lifespan_duration_].
  unfold received. rewrite Hsize.
  destruct (lifespan_duration_ h) eqn:El, (group_coherent_ h) eqn:Eg, (content_filter_ h) eqn:Ec;
    cbn [app] in Hr; rewrite <- ?app_assoc in Hr.
  all: try (next_field (rd0_sint (MB:=MB) (T:=T)); next_field (rd0_uint (MB:=MB) (T:=T))).
  all: next_field (read_guid_ok (MB:=MB) T).
  all: cbn [add_size set_publication set_ls_sec set_ls_nanosec group_coherent_].
  all: try next_field (read_guid_ok (MB:=MB) T).
  all: cbn [add_size set_publisher content_filter_].
  all: try next_field (read_guids_ok (MB:=MB) T).
  all: cbn [add_size set_entries content_filter_entries_].
  all: exists s; (split; [|exact Hr]).
  all: match goal with |- Ret (_, mkDSH _ _ _ _ _ _ _ _ _ _ _ _ _ _ _ _ _ _ _ _ _ ?x)
         = Ret (_, mkDSH _ _ _ _ _ _ _ _ _ _ _ _ _ _ _ _ _ _ _ _ _ ?y) =>
         replace x with y by lia; reflexivity end.
Qed.

(** ** Writing the header *)

Lemma dowrite_blocks (s s' : Serializer MB) src size swap o o' :
  alignment_ s = ALIGN_NONE -> dowrite s src size swap o = Ret (s', o') ->
  Forall (fun b => mb_rd_off b = 0%nat) (ser_done s ++ ser_cur s) ->
  length (ser_done s' ++ ser_cur s') = length (ser_done s ++ ser_cur s) /\ alignment_ s' = ALIGN_NONE /\
  Forall (fun b => mb_rd_off b = 0%nat) (ser_done s' ++ ser_cur s').
Proof.
  intros Ha Hd Hn. unfold dowrite in Hd. destruct (ser_cur s) as [|b rest] eqn:Hcur.
  { injection Hd as <- _. cbn. by rewrite Hcur. }
  revert Hd. set (n := (size - o - _)%nat). set (p := if swap then _ else _).
  rewrite Forall_app, Forall_cons in Hn. destruct Hn as (Hn1 & Hn2 & Hn3).
  assert (alignment_ p.1 = ALIGN_NONE /\ ser_done p.1 = ser_done s /\ mb_rd_off p.2 = 0%nat) as (Hpa & Hpd & Hpo).
  { subst p. destruct swap; [destruct (swapcpy _ _)|]; cbn; by rewrite ?mb_copy_off, ?mb_advance_wr_off. }
  destruct p as [s1 b1]. cbn [fst snd] in *. intros Hd.
  destruct (mb_space b1 =? 0)%nat.
  - rewrite decide_True in Hd by done. cbn [mbind outcome_bind] in Hd. injection Hd as <- _.
    unfold cont, set_cur. cbn [ser_cur ser_done alignment_].
    rewrite <- app_assoc, Hpd, !length_app. cbn [app length]. split_and!; [lia|done|].
    apply Forall_app. split; [done|]. by constructor.
  - cbn [mbind outcome_bind] in Hd. injection Hd as <- _. unfold set_cur. cbn [ser_cur ser_done alignment_].
    rewrite Hpd, !length_app. cbn [length]. split_and!; [lia|done|]. apply Forall_app. split; [done|]. by constructor.
Qed.

Lemma write_loop_blocks fuel : forall (s s' : Serializer MB) src size swap o,
  alignment_ s = ALIGN_NONE -> write_loop fuel s src size swap o = Ret s' ->
  Forall (fun b => mb_rd_off b = 0%nat) (ser_done s ++ ser_cur s) ->
  length (ser_done s' ++ ser_cur s') = length (ser_done s ++ ser_cur s) /\
  Forall (fun b => mb_rd_off b = 0%nat) (ser_done s' ++ ser_cur s').
Proof.
  induction fuel as [|fuel IH]; intros s s' src size swap o Ha Hr Hn; [done|].
  cbn [write_loop] in Hr. destruct (o <? size)%nat; [|by injection Hr as <-].
  apply outcome_bind_Ret in Hr as ([s1 o1] & Hd & Hr).
  destruct (dowrite_blocks _ _ _ _ _ _ _ Ha Hd Hn) as (Hl & ? & ?). rewrite <- Hl. by eapply IH.
Qed.

Lemma wr0_buffer (s : Serializer MB) sw out sp src n (swap : bool) :
  wr0 N s sw out sp -> length src = n -> (n <= sp)%nat -> (swap = true -> (n <= 16)%nat) ->
  exists s', buffer_write s src n swap = Ret s' /\
    wr0 N s' sw (out ++ if swap then reverse src else src) (sp - n).
Proof.
  intros [Ha Hs Hg Hf Ho Hsp HN Hoff] Hl Hle Hsw.
  destruct (buffer_write_ok s src n swap 0) as (s' & Hb & [Hout Hspace [Hm Ha'] Hg'] & [Hf' _]);
    [done|done|split; [done|by left]|lia|].
  destruct (write_loop_blocks _ _ _ _ _ _ _ Ha Hb Hoff) as [Hlen Hoff'].
  exists s'. split; [done|]. split; try congruence.
  destruct swap; rewrite ?length_reverse in Hspace; lia.
Qed.

Lemma wr0_int n (s : Serializer MB) sw out sp x :
  wr0 N s sw out sp -> (n <= sp)%nat -> (n <= 16)%nat ->
  exists s', write_int n s x = Ret s' /\ wr0 N s' sw (out ++ wire sw n x) (sp - n).
Proof.
  intros Hw Hle Hn. unfold write_int. rewrite decide_True by apply Hw. cbn [mbind outcome_bind].
  destruct (wr0_buffer s sw out sp (le_bytes n x) n (swap_bytes_ s)) as (s' & ? & Hw'); auto;
    [apply le_bytes_length|].
  exists s'. rewrite (wr0_swap _ _ _ _ _ Hw) in Hw'. unfold wire. by destruct sw.
Qed.

Lemma wr0_char (s : Serializer MB) sw out sp x :
  wr0 N s sw out sp -> is_u 8 x -> (1 <= sp)%nat ->
  exists s', write_char s x = Ret s' /\ wr0 N s' sw (out ++ [x]) (sp - 1).
Proof.
  intros Hw Hx Hle. unfold write_char.
  destruct (wr0_buffer s sw out sp (le_bytes 1 x) 1 (swap_bytes_ s)) as (s' & ? & Hw'); auto; [lia|].
  exists s'. split; [done|]. revert Hw'. cbn [le_bytes]. rewrite Z.mod_small by done.
  by destruct (swap_bytes_ s); rewrite ?reverse_singleton.
Qed.

Lemma wr0_octet (s : Serializer MB) sw out sp x :
  wr0 N s sw out sp -> is_u 8 x -> (1 <= sp)%nat ->
  exists s', write_octet s x = Ret s' /\ wr0 N s' sw (out ++ [x]) (sp - 1).
Proof.
  intros Hw Hx Hle. unfold write_octet.
  destruct (wr0_buffer s sw out sp (le_bytes 1 x) 1 false) as (s' & ? & Hw'); auto; [lia|].
  exists s'. split; [done|]. revert Hw'. cbn [le_bytes]. by rewrite Z.mod_small by done.
Qed.

(** The optional lifespan and publisher. *)
Lemma write_lifespan_ok h s9 out sp : (8 <= sp)%nat -> wr0 N s9 (swapped h) out sp ->
  exists s', (if lifespan_duration_ h then
      s ← write_int 4 s9 (lifespan_duration_sec_ h); write_int 4 s (lifespan_duration_nanosec_ h)
    else Ret s9) = Ret s' /\
    wr0 N s' (swapped h) (out ++ if lifespan_duration_ h then
      wire (swapped h) 4 (lifespan_duration_sec_ h) ++ wire (swapped h) 4 (lifespan_duration_nanosec_ h) else [])
      (sp - if lifespan_duration_ h then 8 else 0)%nat.
Proof.
  intros Hsp Hw9. destruct (lifespan_duration_ h).
  - destruct (wr0_int 4 _ _ _ _ (lifespan_duration_sec_ h) Hw9) as (s' & -> & Hw'); [lia|lia|]. cbn [mbind outcome_bind].
    destruct (wr0_int 4 _ _ _ _ (lifespan_duration_nanosec_ h) Hw') as (s'' & -> & Hw''); [lia|lia|].
    exists s''. split; [done|]. by replace (sp - 8)%nat with (sp - 4 - 4)%nat by lia; rewrite app_assoc.
  - exists s9. rewrite app_nil_r, Nat.sub_0_r. done.
Qed.

Lemma write_publisher_ok h s11 out sp : (16 <= sp)%nat -> guid_ok (publisher_id_ h) -> wr0 N s11 (swapped h) out sp ->
  exists s', (if group_coherent_ h then write_guid s11 (publisher_id_ h) else Ret s11) = Ret s' /\
    wr0 N s' (swapped h) (out ++ if group_coherent_ h then publisher_id_ h else []) (sp - if group_coherent_ h then 16 else 0)%nat.
Proof.
  intros Hsp Hpbr Hw11. destruct (group_coherent_ h).
  - by apply (write_guid_ok _ _ _ _ _ (publisher_id_ h) Hpbr Hw11).
  - exists s11. by rewrite app_nil_r, Nat.sub_0_r.
Qed.

Lemma write_header_ok h buffer :
  header_ok h -> Forall (fun b => mb_bytes b = []) buffer -> N = length buffer ->
  Forall (fun b => mb_rd_off b = 0%nat) buffer -> (max_marshaled_size <= chain_space buffer)%nat ->
  exists s, write_header buffer h = Ret s /\
    wr0 N s (swapped h) (fixed_bytes h) (chain_space buffer - length (fixed_bytes h)).
Proof.
  intros Hok Hb HN Hoff Hsp. unfold write_header. fold (swapped h).
  assert (wr0 N (mk_serializer buffer (swapped h) ALIGN_NONE) (swapped h) [] (chain_space buffer)) as Hw.
  { destruct (mk_serializer_wr buffer (swapped h) ALIGN_NONE Hb) as [? _].
    split; try done. unfold wr_out. cbn [ser_done ser_cur mk_serializer app]. by apply chain_bytes_fresh. }
  revert Hw. generalize (mk_serializer buffer (swapped h) ALIGN_NONE) as s. intros s Hw.
  destruct (flags_byte_test h) as (Hfb & _). destruct (flags2_byte_test h) as (Hfb2 & _).
  rewrite fixed_bytes_length by apply Hok.
  destruct Hok as [Hid Hsub Hlen Hseq Hts Htn Hls Hln Hpub Hpbr Hent Henl].
  unfold MESSAGE_ID_MAX, SUBMESSAGE_ID_MAX in *.
  assert (64 <= chain_space buffer)%nat as Hsp' by exact Hsp. clear Hsp.
  assert (is_u 8 (message_id_ h)) by (unfold is_u; change (2 ^ 8) with 256; lia).
  assert (is_u 8 (submessage_id_ h)) by (unfold is_u; change (2 ^ 8) with 256; lia).
  destruct (wr0_char _ _ _ _ (message_id_ h) Hw) as (s1 & -> & Hw1); [done|lia|]. cbn [mbind outcome_bind].
  destruct (wr0_char _ _ _ _ (submessage_id_ h) Hw1) as (s2 & -> & Hw2); [done|lia|]. cbn [mbind outcome_bind].
  destruct (wr0_octet _ _ _ _ (flags_byte h) Hw2) as (s3 & -> & Hw3); [done|lia|]. cbn [mbind outcome_bind].
  destruct (wr0_octet _ _ _ _ (flags2_byte h) Hw3) as (s4 & -> & Hw4); [done|lia|]. cbn [mbind outcome_bind].
  destruct (wr0_int 4 _ _ _ _ (message_length_ h) Hw4) as (s5 & -> & Hw5); [lia|lia|]. cbn [mbind outcome_bind].
  unfold write_SequenceNumber.
  destruct (wr0_int 4 _ _ _ _ (high_ (sequence_ h)) Hw5) as (s6 & -> & Hw6); [lia|lia|]. cbn [mbind outcome_bind].
  destruct (wr0_int 4 _ _ _ _ (low_ (sequence_ h)) Hw6) as (s7 & -> & Hw7); [lia|lia|]. cbn [mbind outcome_bind].
  destruct (wr0_int 4 _ _ _ _ (source_timestamp_sec_ h) Hw7) as (s8 & -> & Hw8); [lia|lia|]. cbn [mbind outcome_bind].
  destruct (wr0_int 4 _ _ _ _ (source_timestamp_nanosec_ h) Hw8) as (s9 & -> & Hw9); [lia|lia|].
  cbn [mbind outcome_bind].
  match type of Hw9 with wr0 N _ _ ?o ?n => set (out := o) in *; set (sp := n) in * end.
  destruct (write_lifespan_ok h s9 out sp) as (s10 & -> & Hw10); [lia|done|]. cbn [mbind outcome_bind].
  destruct (write_guid_ok _ _ _ _ _ (publication_id_ h) Hpub Hw10) as (s11 & -> & Hw11);
    [destruct (lifespan_duration_ h); lia|]. cbn [mbind outcome_bind].
  destruct (fun H => write_publisher_ok h s11 _ _ H Hpbr Hw11) as (s12 & -> & Hw12);
    [destruct (lifespan_duration_ h); lia|].
  exists s12. split; [done|]. subst out sp. rewrite <- !app_assoc in Hw12. cbn [app] in Hw12.
  unfold fixed_bytes. cbn [app].
  match goal with |- wr0 N _ _ _ ?n => match type of Hw12 with wr0 N _ _ _ ?m => replace n with m; [exact Hw12|] end end.
  destruct (lifespan_duration_ h), (group_coherent_ h); lia.
Qed.

(** ** Partial headers *)

Lemma mb_peek_1 (mb : list MB) off swap : mb_peek mb 1 off swap = Ret (chain_bytes mb !! off).
Proof.
  revert off. induction mb as [|b rest IH]; intros off; cbn [mb_peek]; [done|].
  rewrite chain_bytes_cons. unfold mb_length. destruct (Nat.ltb_spec off (length (mb_bytes b))) as [Hlt|Hge].
  - rewrite lookup_app_l by done. destruct (lookup_lt_is_Some_2 _ _ Hlt) as [x Hx].
    unfold mb_peek_copy. cbn. by rewrite Hx.
  - rewrite IH. by rewrite lookup_app_r.
Qed.

Lemma mb_peek_4 (mb : list MB) off (swap : bool) :
  mb_peek mb 4 off swap =
    Ret (if (off + 4 <=? length (chain_bytes mb))%nat then
           let d := take 4 (drop off (chain_bytes mb)) in
           Some (le_value (if swap then reverse d else d)) else None).
Proof.
  revert off. induction mb as [|b rest IH]; intros off; cbn [mb_peek].
  { rewrite (proj2 (Nat.leb_gt _ _)); [done|]. cbn. lia. }
  rewrite chain_bytes_cons, length_app. unfold mb_length.
  destruct (Nat.ltb_spec off (length (mb_bytes b))) as [Hlt|Hge].
  - unfold mb_peek_copy. cbn [Nat.eqb]. rewrite chain_bytes_cons, mb_advance_rd_bytes by (unfold mb_length; lia).
    rewrite length_app, length_drop.
    destruct (Nat.ltb_spec (length (mb_bytes b) - off + length (chain_bytes rest)) 4),
      (Nat.leb_spec (off + 4) (length (mb_bytes b) + length (chain_bytes rest))); try lia; [done|].
    destruct (buffer_read_ok (mk_serializer (mb_advance_rd off b :: rest) swap ALIGN_NONE) (le_bytes 4 0) 4 swap 0)
      as (s' & Hb & _); [lia|done| |by left|].
    { unfold rd_stream. cbn [ser_cur mk_serializer].
      rewrite chain_bytes_cons, mb_advance_rd_bytes, length_app, length_drop by (unfold mb_length; lia). lia. }
    rewrite Hb. cbn [mbind outcome_bind]. unfold rd_stream. cbn [ser_cur mk_serializer].
    rewrite chain_bytes_cons, mb_advance_rd_bytes by (unfold mb_length; lia).
    by rewrite drop_app_le by lia.
  - rewrite IH. rewrite drop_app_ge by done.
    destruct (Nat.leb_spec (off - length (mb_bytes b) + 4) (length (chain_bytes rest))),
      (Nat.leb_spec (off + 4) (length (mb_bytes b) + length (chain_bytes rest))); try lia; done.
Qed.

Lemma partial_ok h (mb : list MB) payload k :
  header_ok h -> (k <= length (header_bytes h ++ payload))%nat ->
  chain_bytes mb = take k (header_bytes h ++ payload) ->
  partial mb = Ret (k <? length (header_bytes h))%nat.
Proof.
  intros Hok Hk Hb. unfold partial. rewrite !mb_peek_1. cbn [mbind outcome_bind].
  pose proof (fixed_bytes_length h (ok_publication _ Hok) (ok_publisher _ Hok)) as Hfl.
  assert (length (chain_bytes mb) = k) as -> by (rewrite Hb, length_take; lia).
  assert (length (fixed_bytes h) <= length (header_bytes h))%nat as Hle
    by (unfold header_bytes; rewrite length_app; lia).
  unfold FLAGS_OFFSET. destruct (Nat.leb_spec k 2).
  { by rewrite (proj2 (Nat.ltb_lt _ _)) by lia. }
  assert (forall i, (i < 3)%nat -> chain_bytes mb !! i =
    [message_id_ h; submessage_id_ h; flags_byte h] !! i) as Hi.
  { intros i Hi. rewrite Hb, lookup_take_lt by lia. unfold header_bytes, fixed_bytes.
    rewrite <- !app_assoc. do 3 (destruct i as [|i]; [done|]). lia. }
  rewrite !Hi by lia. cbn [list_lookup lookup].
  rewrite (proj2 (Z.leb_gt MESSAGE_ID_MAX _)) by apply Hok.
  rewrite (proj2 (Z.leb_gt SUBMESSAGE_ID_MAX _)) by apply Hok.
  destruct (flags_byte_test h) as (_ & -> & _ & _ & -> & -> & -> & _).
  assert ((if group_coherent_ h then (if lifespan_duration_ h then max_marshaled_size else max_marshaled_size - 8)
    else (if lifespan_duration_ h then max_marshaled_size else max_marshaled_size - 8) - 16)%nat
    = length (fixed_bytes h)) as ->.
  { rewrite Hfl. by destruct (group_coherent_ h), (lifespan_duration_ h). }
  fold (swapped h). unfold header_bytes in Hb, Hk |- *.
  destruct (content_filter_ h) eqn:Ec; [|by rewrite app_nil_r].
  rewrite mb_peek_4. cbn [mbind outcome_bind].
  rewrite length_app, cf_bytes_length by apply Hok.
  assert (length (chain_bytes mb) = k) as Hlen by (rewrite Hb, length_take; lia). rewrite Hlen.
  destruct (Nat.leb_spec (length (fixed_bytes h) + 4) k) as [Hle4|Hgt4].
  2: { by rewrite (proj2 (Nat.ltb_lt _ _)) by lia. }
  assert (take 4 (drop (length (fixed_bytes h)) (chain_bytes mb))
    = wire (swapped h) 4 (Z.of_nat (length (content_filter_entries_ h)))) as ->.
  { rewrite Hb, <- app_assoc, skipn_firstn_comm, drop_app_length, take_take, Nat.min_l by lia.
    unfold cf_bytes. rewrite <- app_assoc. apply take_app_length'. by rewrite wire_length. }
  cbn zeta. rewrite unwire, Z.mod_small by apply Hok. rewrite Nat2Z.id. do 2 f_equal. lia.
Qed.
End header.

(** ** An instance of the generated code *)

Section simple_guids.
Context {MB : Type} `{MessageBlock MB}.

Fixpoint read_guid_list (n : nat) (s : Serializer MB) : outcome (Serializer MB * list GUID) :=
  match n with
  | O => Ret (s, [])
  | S n' =>
      '(s, g) ← read_array s GUID_UNKNOWN 1 16 (swap_bytes_ s);
      '(s, gs) ← read_guid_list n' s;
      Ret (s, g :: gs)
  end.
Fixpoint write_guid_list (l : list GUID) (s : Serializer MB) : outcome (Serializer MB) :=
  match l with
  | [] => Ret s
  | g :: l' => s ← write_array s g 1 16 (swap_bytes_ s); write_guid_list l' s
  end.

#[export] Instance simple_guid_ops : GuidMarshal MB := {
  write_guid s g := write_array s g 1 16 (swap_bytes_ s);
  read_guid s _ := read_array s GUID_UNKNOWN 1 16 (swap_bytes_ s);
  write_guids s l := s ← write_int 4 s (Z.of_nat (length l)); write_guid_list l s;
  read_guids s _ := '(s, n) ← read_uint 4 s 0; read_guid_list (Z.to_nat n) s }.

Context {HL : MessageBlockLaws MB}.

Lemma write_guid_simple N (s : Serializer MB) sw out sp g :
  guid_ok g -> wr0 N s sw out sp -> (16 <= sp)%nat ->
  exists s', write_array s g 1 16 (swap_bytes_ s) = Ret s' /\ wr0 N s' sw (out ++ g) (sp - 16).
Proof.
  intros Hg Hw Hle. unfold write_array. rewrite orb_true_r.
  by apply (wr0_buffer (N:=N) s sw out sp g 16 false).
Qed.

Lemma read_guid_simple T (s : Serializer MB) sw g rest :
  guid_ok g -> rd0 T s sw (g ++ rest) ->
  exists s', read_array s GUID_UNKNOWN 1 16 (swap_bytes_ s) = Ret (s', g) /\ rd0 T s' sw rest.
Proof.
  intros Hg Hr. unfold read_array. rewrite orb_true_r.
  by apply (rd0_buffer s sw g rest GUID_UNKNOWN 16 false).
Qed.

#[export] Instance simple_guid_laws : GuidMarshalLaws MB.
Proof.
  split.
  - apply write_guid_simple.
  - intros. by apply read_guid_simple.
  - intros N s sw out sp l Hl Hu Hw Hle. cbn [write_guids simple_guid_ops].
    destruct (wr0_int 4 s sw out sp (Z.of_nat (length l)) Hw) as (s1 & -> & Hw1); [lia|lia|].
    cbn [mbind outcome_bind]. unfold cf_bytes. rewrite app_assoc. clear Hu Hw.
    assert (16 * length l <= sp - 4)%nat as Hle' by lia.
    replace (sp - (4 + 16 * length l))%nat with ((sp - 4) - 16 * length l)%nat by lia.
    revert Hw1 Hle'. generalize (out ++ wire sw 4 (Z.of_nat (length l))) as o. generalize (sp - 4)%nat as n.
    clear Hle out sp s. revert s1.
    induction Hl as [|g l Hg _ IH]; intros s n o Hw Hle; cbn [write_guid_list concat length] in *.
    { exists s. by rewrite app_nil_r, Nat.sub_0_r. }
    destruct (write_guid_simple N s sw o n g Hg Hw) as (s1 & -> & Hw1); [lia|]. cbn [mbind outcome_bind].
    destruct (IH s1 _ _ Hw1) as (s2 & -> & Hw2); [lia|]. exists s2.
    replace (n - 16 * S (length l))%nat with (n - 16 - 16 * length l)%nat by lia. by rewrite app_assoc.
  - intros T s sw l rest old Hl Hu Hr. cbn [read_guids simple_guid_ops]. unfold cf_bytes in Hr.
    rewrite <- app_assoc in Hr.
    destruct (rd0_uint 4 s sw (Z.of_nat (length l)) _ 0 ltac:(unfold cdr_size; lia) Hu Hr) as (s1 & -> & Hr1).
    cbn [mbind outcome_bind]. rewrite Nat2Z.id. clear Hr Hu. revert s1 Hr1.
    induction Hl as [|g l Hg _ IH]; intros s1 Hr; cbn [read_guid_list concat length] in *.
    { by exists s1. }
    rewrite <- app_assoc in Hr.
    destruct (read_guid_simple T s1 sw g _ Hg Hr) as (s2 & -> & Hr2). cbn [mbind outcome_bind].
    destruct (IH s2 Hr2) as (s3 & -> & Hr3). cbn [mbind outcome_bind]. by exists s3.
Qed.
End simple_guids.

(** ** Fragmentation *)

Section fragments.
Context {MB : Type} {MB0 : MessageBlock MB} {MB1 : MessageBlockLaws MB}
  {GM0 : GuidMarshal MB} {GM1 : GuidMarshalLaws MB}.
Implicit Types (h : DataSampleHeader) (b : MB).

Lemma split_payload_ok (orig : list MB) size :
  orig <> [] -> (size <= length (chain_bytes orig))%nat ->
  exists hd tl, split_payload orig size = Ret (hd, tl) /\
    chain_bytes hd = take size (chain_bytes orig) /\ chain_bytes tl = drop size (chain_bytes orig).
Proof.
  revert size. induction orig as [|b rest IH]; intros size Hne Hl; [done|]. cbn [split_payload].
  rewrite chain_bytes_cons in *. rewrite length_app in Hl. fold (mb_length b) in Hl.
  destruct (Nat.ltb_spec (mb_length b) size).
  - destruct (IH (size - mb_length b)%nat) as (hd & tl & -> & Hh & Ht); [|lia|].
    { intros ->. cbn in Hl. lia. }
    cbn [mbind outcome_bind]. eexists _, _. split; [done|].
    rewrite chain_bytes_cons, Hh, Ht. rewrite take_app_ge, drop_app_ge by (unfold mb_length in *; lia). done.
  - destruct (Nat.eqb_spec size (mb_length b)) as [->|].
    + eexists _, _. split; [done|]. rewrite chain_bytes_cons, app_nil_r. unfold mb_length.
      by rewrite take_app_length, drop_app_length.
    + eexists _, _. split; [done|]. rewrite !chain_bytes_cons, app_nil_r.
      rewrite mb_truncate_bytes, mb_advance_rd_bytes by lia.
      by rewrite take_app_le, drop_app_le by (unfold mb_length in *; lia).
Qed.

Lemma skip_empty_ok (dup : list MB) :
  chain_bytes dup <> [] -> exists c, skip_empty dup = Ret c /\ chain_bytes c = chain_bytes dup /\ c <> [].
Proof.
  induction dup as [|b rest IH]; intros Hne; [done|]. cbn [skip_empty]. rewrite chain_bytes_cons in *.
  destruct (Nat.eqb_spec (mb_length b) 0) as [Hz|]; [|by exists (b :: rest)].
  apply nil_length_inv in Hz. rewrite Hz in *. by apply IH.
Qed.

Lemma marshal_header_ok h :
  header_ok h -> exists b, marshal_header h = Ret [b] /\ mb_bytes b = fixed_bytes h /\ mb_rd_off b = 0%nat.
Proof.
  intros Hok. unfold marshal_header.
  destruct (write_header_ok (N:=1) h [mb_new max_marshaled_size] Hok) as (s & -> & Hw).
  - repeat constructor. apply mb_new_bytes.
  - done.
  - repeat constructor. apply mb_new_off.
  - cbn. by rewrite mb_new_space.
  - cbn [mbind outcome_bind]. destruct Hw as [_ _ _ _ Hout _ Hlen Hoff]. unfold wr_out in Hout.
    destruct (ser_done s ++ ser_cur s) as [|b [|? ?]]; [done| |done]. exists b.
    rewrite chain_bytes_cons, app_nil_r in Hout. inversion Hoff; subst. done.
Qed.

Lemma add_cfentries_ok h l b (rest : list MB) :
  mb_bytes b = fixed_bytes h -> mb_rd_off b = 0%nat -> Forall guid_ok l -> is_u 32 (Z.of_nat (length l)) ->
  exists c, add_cfentries (Some l) (b :: rest) = Ret (b :: c ++ rest) /\ chain_bytes c = cf_bytes (swapped h) l.
Proof.
  intros Hb Hoff Hl Hu. unfold add_cfentries. cbn [head deref mbind outcome_bind tail].
  assert (test_flag BYTE_ORDER_FLAG b = byte_order_ h) as ->.
  { unfold test_flag. pose proof (mb_base_bytes b) as Hbase. rewrite Hoff, drop_0, Hb in Hbase.
    assert (mb_base b !! FLAGS_OFFSET = Some (flags_byte h)) as ->; [|apply flags_byte_test].
    assert (fixed_bytes h !! FLAGS_OFFSET = Some (flags_byte h)) as <- by done.
    rewrite Hbase. symmetry. apply lookup_take_lt. unfold mb_length. rewrite Hb. unfold fixed_bytes, FLAGS_OFFSET.
    rewrite length_app. cbn. lia. }
  assert (negb (bool_decide (ACE_CDR_BYTE_ORDER = byte_order_ h)) = swapped h) as ->.
  { unfold swapped. f_equal. apply bool_decide_ext. naive_solver. }
  destruct (write_guids_ok 1 (mk_serializer [mb_new (4 + 16 * length l)] (swapped h) ALIGN_NONE)
    (swapped h) [] (4 + 16 * length l) l Hl Hu) as (s & -> & Hw); [|lia|].
  { split; try done; cbn.
    - unfold wr_fresh. cbn. constructor.
    - unfold wr_out. cbn. by rewrite mb_new_bytes.
    - unfold wr_space. cbn. rewrite mb_new_space. lia.
    - repeat constructor. apply mb_new_off. }
  cbn [mbind outcome_bind]. eexists. split; [done|]. apply Hw.
Qed.

Lemma header_ok_set h m c n :
  header_ok h -> is_u 32 n -> header_ok (set_length (set_content_filter (set_more_fragments h m) c) n).
Proof. destruct h. intros [? ? ? ? ? ? ? ? ? ? ? ?] ?. by split. Qed.

Lemma header_ok_set' h m n :
  header_ok h -> is_u 32 n -> header_ok (set_length (set_more_fragments h m) n).
Proof. destruct h. intros [? ? ? ? ? ? ? ? ? ? ? ?] ?. by split. Qed.

(** The headers of the two fragments. *)
Definition head_header h (n : Z) : DataSampleHeader := set_length (set_more_fragments h true) n.
Definition tail_header h (n : Z) : DataSampleHeader :=
  set_length (set_content_filter (set_more_fragments h false) false) n.

(** A first block that held only header bytes is empty once the header was read. *)
Lemma first_block_read (dn cur : list MB) pay rest :
  chain_bytes cur = pay -> chain_bytes dn = [] -> pay <> [] -> (length pay <= length (chain_bytes rest))%nat ->
  (dn = [] -> chain_bytes (tail cur) = chain_bytes rest) ->
  exists f, head (dn ++ cur) = Some f /\ mb_length f = 0%nat.
Proof.
  intros Hstr Hdr Hpay Hfirst Hfst. destruct dn as [|d ds].
  - destruct cur as [|c cs]; [by rewrite <- Hstr in Hpay|]. exists c. split; [done|].
    rewrite chain_bytes_cons in Hstr. specialize (Hfst eq_refl). cbn [tail] in Hfst.
    rewrite <- Hstr, <- Hfst, length_app in Hfirst. unfold mb_length. lia.
  - exists d. split; [done|]. rewrite chain_bytes_cons in Hdr. apply app_eq_nil in Hdr as [Hd _].
    unfold mb_length. by rewrite Hd.
Qed.

(** What [split] has when it has read the header. *)
Lemma split_reads h (b0 : MB) rest pay :
  header_ok h -> received default_header h = h ->
  chain_bytes (b0 :: rest) = header_bytes h ++ pay -> pay <> [] ->
  (length pay <= length (chain_bytes rest))%nat ->
  exists s f c, init (b0 :: rest) default_header = Ret (s, h) /\ head (ser_done s ++ ser_cur s) = Some f /\ mb_length f = 0%nat /\
    skip_empty (ser_done s ++ ser_cur s) = Ret c /\ chain_bytes c = pay /\ c <> [] /\
    (length (chain_bytes (b0 :: rest)) - length (chain_bytes (ser_done s ++ ser_cur s)) = length (header_bytes h))%nat.
Proof.
  intros Hok Hrec Hb Hpay Hfirst.
  destruct (init_ok (T:=b0 :: rest) h default_header (b0 :: rest) pay Hok Hb eq_refl) as (s & Hs & Hr).
  rewrite Hrec in Hs. destruct Hr as [_ _ _ Hstr Hdr Hfst].
  assert (chain_bytes (ser_done s ++ ser_cur s) = pay) as Hdup.
  { rewrite chain_bytes_app, Hdr. exact Hstr. }
  destruct (first_block_read (ser_done s) (ser_cur s) pay rest) as (f & Hhead & Hf); try done.
  destruct (skip_empty_ok (ser_done s ++ ser_cur s)) as (c & Hsk & Hc & Hcne); [by rewrite Hdup|].
  exists s, f, c. rewrite Hdup in *. split_and!; try done. rewrite Hb, length_app. lia.
Qed.

Lemma split_ok h (b0 : MB) rest pay size :
  header_ok h -> received default_header h = h ->
  chain_bytes (b0 :: rest) = header_bytes h ++ pay -> pay <> [] ->
  (length pay <= length (chain_bytes rest))%nat -> is_u 32 (Z.of_nat (length pay)) ->
  let n := (size - length (header_bytes h))%nat in
  (length (header_bytes h) <= size)%nat -> (n <= length pay)%nat ->
  exists head tail, split (b0 :: rest) size = Ret (head, tail) /\
    chain_bytes head = header_bytes (head_header h (Z.of_nat n)) ++ take n pay /\
    chain_bytes tail = header_bytes (tail_header h (Z.of_nat (length pay - n))) ++ drop n pay.
Proof.
  intros Hok Hrec Hb Hpay Hfirst Hu n Hsize Hn. unfold split.
  destruct (split_reads h b0 rest pay Hok Hrec Hb Hpay Hfirst) as (s & f & c & -> & Hhead & Hf & Hsk & Hc & Hcne & Hlen).
  cbn [mbind outcome_bind]. rewrite Hhead. cbn [deref mbind outcome_bind]. rewrite Hf. cbn [Nat.eqb negb]. rewrite Hsk, Hlen.
  cbn [mbind outcome_bind].
  rewrite (proj2 (Nat.ltb_ge _ _)) by done. fold n.
  destruct (split_payload_ok c n Hcne) as (hd & tl & -> & Hhd & Htl); [rewrite Hc; lia|].
  cbn [mbind outcome_bind]. rewrite Hc in *.
  assert (uwrap 32 (Z.of_nat (length (chain_bytes hd))) = Z.of_nat n) as ->.
  { rewrite Hhd, length_take, uwrap_small by (unfold is_u in *; lia). lia. }
  assert (uwrap 32 (Z.of_nat (length (chain_bytes tl))) = Z.of_nat (length pay - n)) as ->.
  { rewrite Htl, length_drop, uwrap_small by (unfold is_u in *; lia). done. }
  assert (header_ok (head_header h (Z.of_nat n))) as Hhok by (apply header_ok_set'; [done|unfold is_u in *; lia]).
  fold (head_header h (Z.of_nat n)).
  destruct (marshal_header_ok _ Hhok) as (hb & -> & Hhb & Hhoff). cbn [mbind outcome_bind app].
  assert (set_length (set_content_filter (set_more_fragments (head_header h (Z.of_nat n)) false) false)
    (Z.of_nat (length pay - n)) = tail_header h (Z.of_nat (length pay - n))) as -> by (by destruct h).
  assert (header_ok (tail_header h (Z.of_nat (length pay - n)))) as Htok
    by (apply header_ok_set; [done|unfold is_u in *; lia]).
  destruct (marshal_header_ok _ Htok) as (tb & -> & Htb & Htoff).
  assert (header_bytes (tail_header h (Z.of_nat (length pay - n))) =
    fixed_bytes (tail_header h (Z.of_nat (length pay - n)))) as ->.
  { unfold header_bytes. destruct h; cbn [tail_header set_length set_content_filter set_more_fragments content_filter_].
    by rewrite app_nil_r. }
  assert (content_filter_ (head_header h (Z.of_nat n)) = content_filter_ h) as Hcf by (by destruct h).
  unfold header_bytes at 1. rewrite Hcf. destruct (content_filter_ h).
  - destruct (add_cfentries_ok (head_header h (Z.of_nat n)) (content_filter_entries_ (head_header h (Z.of_nat n))) hb hd)
      as (cc & -> & Hcc); [done|done|apply Hhok|apply Hhok|].
    cbn [mbind outcome_bind app]. eexists _, _. split; [done|].
    rewrite !chain_bytes_cons, chain_bytes_app, Hhb, Htb, Hcc, Hhd, Htl. by rewrite <- app_assoc.
  - cbn [mbind outcome_bind app]. eexists _, _. split; [done|].
    rewrite !chain_bytes_cons, Hhb, Htb, Hhd, Htl. by rewrite app_nil_r.
Qed.

(** ** A cut among the content filter entries *)

Lemma take_entries_ok k : forall l, (k <= length l)%nat -> take_entries k l = Ret (reverse (drop (length l - k) l), take (length l - k) l).
Proof.
  induction k as [|k IH]; intros l Hk; cbn [take_entries].
  { by rewrite Nat.sub_0_r, drop_all, firstn_all. }
  destruct l as [|e l _] using rev_ind; [cbn in Hk; lia|]. rewrite last_snoc, removelast_last. rewrite length_app in *. cbn [length] in *.
  rewrite IH by lia. cbn [mbind outcome_bind]. replace (length l + 1 - S k)%nat with (length l - k)%nat by lia.
  rewrite drop_app_le, take_app_le, reverse_snoc by lia. done.
Qed.

(** The headers of the two fragments: the first takes the last [k] entries. *)
Definition entries_head h (k : nat) : DataSampleHeader :=
  set_entries (set_length (set_more_fragments h true) 0) (reverse (drop (length (content_filter_entries_ h) - k) (content_filter_entries_ h))).
Definition entries_tail h (k : nat) (n : Z) : DataSampleHeader :=
  set_length (set_more_fragments (set_entries h (take (length (content_filter_entries_ h) - k) (content_filter_entries_ h))) false) n.

Lemma header_ok_entries h m n l :
  header_ok h -> is_u 32 n -> Forall guid_ok l -> (length l <= length (content_filter_entries_ h))%nat ->
  header_ok (set_entries (set_length (set_more_fragments h m) n) l).
Proof. destruct h. intros [? ? ? ? ? ? ? ? ? ? ? ?] ? ? ?. split; try done. cbn in *. unfold is_u in *. lia. Qed.

Lemma entries_headers_ok h k n : header_ok h -> is_u 32 n -> header_ok (entries_head h k) /\ header_ok (entries_tail h k n).
Proof.
  intros Hok Hn. pose proof (ok_entries _ Hok) as He. split.
  - apply header_ok_entries; [done|done| |rewrite length_reverse, length_drop; lia]. rewrite Forall_reverse. by apply Forall_drop.
  - assert (entries_tail h k n = set_entries (set_length (set_more_fragments h false) n) (take (length (content_filter_entries_ h) - k) (content_filter_entries_ h)))
      as -> by (by destruct h).
    apply header_ok_entries; [done|done|by apply Forall_take|rewrite length_take; lia].
Qed.

(** The fixed part of a header does not show the entries. *)
Lemma fixed_bytes_entries h l : fixed_bytes (set_entries h l) = fixed_bytes h.
Proof. by destruct h. Qed.

Lemma split_entries_ok h (b0 : MB) rest pay size :
  header_ok h -> received default_header h = h -> content_filter_ h = true ->
  chain_bytes (b0 :: rest) = header_bytes h ++ pay -> pay <> [] ->
  (length pay <= length (chain_bytes rest))%nat -> is_u 32 (Z.of_nat (length pay)) ->
  (length (fixed_bytes h) + 4 <= size < length (header_bytes h))%nat ->
  let k := ((size - length (fixed_bytes h) - 4) / 16)%nat in
  (k < length (content_filter_entries_ h))%nat /\
  exists head tail, split (b0 :: rest) size = Ret (head, tail) /\
    chain_bytes head = header_bytes (entries_head h k) /\
    chain_bytes tail = header_bytes (entries_tail h k (Z.of_nat (length pay))) ++ pay.
Proof.
  intros Hok Hrec Hcf Hb Hpay Hfirst Hu Hsize k. set (N := length (content_filter_entries_ h)).
  assert (length (header_bytes h) = length (fixed_bytes h) + (4 + 16 * N))%nat as Hhl.
  { unfold header_bytes. rewrite Hcf, length_app, cf_bytes_length by apply Hok. done. }
  assert (k < N)%nat as Hk by (subst k; apply Nat.Div0.div_lt_upper_bound; lia). split; [done|]. unfold split.
  destruct (split_reads h b0 rest pay Hok Hrec Hb Hpay Hfirst) as (s & f & c & -> & Hhead & Hf & Hsk & Hc & Hcne & Hlen).
  cbn [mbind outcome_bind]. rewrite Hhead. cbn [deref mbind outcome_bind]. rewrite Hf. cbn [Nat.eqb negb]. rewrite Hsk, Hlen.
  cbn [mbind outcome_bind]. rewrite (proj2 (Nat.ltb_lt _ _)) by lia.
  set (hd := set_length (set_more_fragments h true) 0). assert (header_ok hd) as Hhok by (by apply header_ok_set').
  destruct (marshal_header_ok _ Hhok) as (hb & -> & Hhb & Hhoff). cbn [mbind outcome_bind].
  assert (length (fixed_bytes hd) = length (fixed_bytes h)) as Hfl.
  { apply Nat2Z.inj. rewrite !fixed_bytes_length by (apply Hhok || apply Hok). by destruct h. }
  pose proof (ok_entries_length _ Hok) as HN. fold N in HN.
  assert (Z.to_nat (uwrap 32 (uwrap 64 (Z.of_nat size - Z.of_nat (length (chain_bytes [hb])) - 4) / 16)) = k) as ->.
  { rewrite chain_bytes_cons, app_nil_r, Hhb, Hfl.
    assert (Z.of_nat size - Z.of_nat (length (fixed_bytes h)) - 4 = Z.of_nat (size - length (fixed_bytes h) - 4)) as -> by lia.
    rewrite (uwrap_small 64) by (unfold is_u in *; lia). change 16 with (Z.of_nat 16). rewrite <- Nat2Z.inj_div. fold k.
    rewrite uwrap_small by (unfold is_u in *; lia). lia. }
  assert (content_filter_entries_ hd = content_filter_entries_ h) as -> by (by destruct h).
  rewrite take_entries_ok by lia. fold N. cbn [mbind outcome_bind].
  assert (swapped (entries_head h k) = swapped hd) as Hsw by (by destruct h).
  destruct (entries_headers_ok h k (Z.of_nat (length pay)) Hok Hu) as [Hok1 Hok2].
  destruct (add_cfentries_ok hd (content_filter_entries_ (entries_head h k)) hb []) as (cc & Ecc & Hcc); [done|done|apply Hok1|apply Hok1|].
  assert (content_filter_entries_ (entries_head h k) = reverse (drop (N - k) (content_filter_entries_ h))) as Ee by (by destruct h).
  rewrite Ee in Ecc. rewrite Ecc. cbn [mbind outcome_bind].
  set (tl := entries_tail h k (Z.of_nat (length pay))) in *. rewrite Hc, uwrap_small by done.
  match goal with |- context [set_length ?x (Z.of_nat (length pay))] =>
    assert (set_length x (Z.of_nat (length pay)) = tl) as -> end.
  { assert (length (take (N - k) (content_filter_entries_ h)) =? 0 = false)%nat as -> by (apply Nat.eqb_neq; rewrite length_take; lia).
    subst tl hd. unfold entries_tail. fold N. destruct h. cbn in Hcf. by subst. }
  destruct (marshal_header_ok _ Hok2) as (tb & Etb & Htb & Htoff). fold tl in Etb, Htb. rewrite Etb. cbn [mbind outcome_bind app].
  assert (content_filter_ tl = true) as -> by (subst tl; by destruct h).
  destruct (add_cfentries_ok tl (content_filter_entries_ tl) tb c) as (cd & Ecd & Hcd); [done|done|apply Hok2|apply Hok2|].
  assert (content_filter_entries_ tl = take (N - k) (content_filter_entries_ h)) as Et by (subst tl; by destruct h).
  rewrite Et in Ecd. rewrite Ecd. cbn [mbind outcome_bind]. eexists _, _. split; [done|].
  assert (content_filter_ (entries_head h k) = true /\ content_filter_ tl = true) as [Hc1 Hc2] by (subst tl; by destruct h).
  rewrite !chain_bytes_cons, !chain_bytes_app, Hhb, Htb, Hcc, Hcd, Hc, app_nil_r. unfold header_bytes. rewrite Hc1, Hc2, Hsw, <- app_assoc.
  split; [|done]. unfold entries_head. by rewrite fixed_bytes_entries.
Qed.
End fragments.

Lemma join_entries h k c :
  received default_header h = h -> more_fragments_ h = false -> content_filter_ h = true ->
  message_length_ h = c -> is_u 32 (message_length_ h) ->
  exists m, join (received default_header (entries_head h k)) (received default_header (entries_tail h k c)) = Some (add_size h m).
Proof.
  intros Hrec Hmf Hcf Hml Hu.
  exists (marshaled_size_ (received default_header (entries_tail h k c)) - marshaled_size_ h).
  assert (lifespan_duration_ h = false -> lifespan_duration_sec_ h = 0 /\ lifespan_duration_nanosec_ h = 0) as Hls.
  { intros Hl. rewrite <- Hrec. cbn. by rewrite Hl. }
  assert (group_coherent_ h = false -> publisher_id_ h = GUID_UNKNOWN) as Hgc.
  { intros Hl. rewrite <- Hrec. cbn. by rewrite Hl. }
  destruct h as [? ? ? ? ? ls gc cf ? mf ? ? ml sq ? ? lss lsn ? pbl ent sz].
  cbn [content_filter_ content_filter_entries_ lifespan_duration_ lifespan_duration_sec_ lifespan_duration_nanosec_
    group_coherent_ publisher_id_ more_fragments_ message_length_] in *. subst mf ml cf.
  unfold join. cbn [received entries_head entries_tail set_entries set_length set_content_filter set_more_fragments more_fragments_
    sequence_ negb orb content_filter_ content_filter_entries_ message_length_].
  rewrite sn_ne_negb. assert (sn_eq sq sq = true) as -> by (by apply sn_eq_true). cbn [negb].
  rewrite Z.add_0_r, uwrap_small by done. rewrite reverse_involutive, take_drop.
  cbn -[header_bytes reverse app Z.of_nat Z.add Z.sub GUID_UNKNOWN].
  match goal with |- context [Z.of_nat (length (header_bytes ?x))] =>
    generalize (Z.of_nat (length (header_bytes x))) as len; intros len end.
  replace (sz + (len - sz)) with len by lia.
  destruct ls; [|destruct (Hls eq_refl) as [-> ->]]; (destruct gc; [|rewrite (Hgc eq_refl)]); done.
Qed.

Lemma join_fragments h a c :
  received default_header h = h -> more_fragments_ h = false ->
  message_length_ h = c + a -> is_u 32 (message_length_ h) ->
  exists m, join (received default_header (head_header h a)) (received default_header (tail_header h c))
    = Some (add_size (set_entries h (reverse (content_filter_entries_ h))) m).
Proof.
  intros Hrec Hmf Hml Hu.
  exists (marshaled_size_ (received default_header (tail_header h c)) - marshaled_size_ h).
  assert (content_filter_ h = false -> content_filter_entries_ h = []) as Hent.
  { intros Hcf. rewrite <- Hrec. cbn. by rewrite Hcf. }
  assert (lifespan_duration_ h = false -> lifespan_duration_sec_ h = 0 /\ lifespan_duration_nanosec_ h = 0) as Hls.
  { intros Hl. rewrite <- Hrec. cbn. by rewrite Hl. }
  assert (group_coherent_ h = false -> publisher_id_ h = GUID_UNKNOWN) as Hgc.
  { intros Hl. rewrite <- Hrec. cbn. by rewrite Hl. }
  destruct h as [? ? ? ? ? ls gc cf ? mf ? ? ml sq ? ? lss lsn ? pbl ent sz].
  cbn [content_filter_ content_filter_entries_ lifespan_duration_ lifespan_duration_sec_ lifespan_duration_nanosec_
    group_coherent_ publisher_id_ more_fragments_ message_length_] in *. subst mf ml.
  unfold join. cbn [received head_header tail_header set_length set_content_filter set_more_fragments more_fragments_
    sequence_ negb orb content_filter_ content_filter_entries_ message_length_].
  rewrite sn_ne_negb. assert (sn_eq sq sq = true) as -> by (by apply sn_eq_true). cbn [negb].
  rewrite uwrap_small by done.
  cbn -[header_bytes reverse app Z.of_nat Z.add Z.sub GUID_UNKNOWN].
  match goal with |- context [Z.of_nat (length (header_bytes ?x))] =>
    generalize (Z.of_nat (length (header_bytes x))) as len; intros len end.
  replace (sz + (len - sz)) with len by lia.
  destruct ls; [|destruct (Hls eq_refl) as [-> ->]];
    (destruct gc; [|rewrite (Hgc eq_refl)]); (destruct cf; [|rewrite (Hent eq_refl)]); done.
Qed.

(** ** Properties *)

Section properties.
Context {MB : Type} {MB0 : MessageBlock MB} {MB1 : MessageBlockLaws MB}
  {GM0 : GuidMarshal MB} {GM1 : GuidMarshalLaws MB}.

(** C21: marshaling and unmarshaling of the header are inverse.  A header with
    valid members is written without error into any fresh chain of
    [max_marshaled_size] bytes; from a chain that holds those bytes, the
    marshaled content filter entries when that flag is set, and a payload,
    [init] restores every member that was written, keeps the others,
    accounts for every header byte in [marshaled_size] and leaves exactly
    the payload unread, in both byte orders. *)
Theorem header_roundtrip h old (buffer : list MB) :
  header_ok h -> Forall (fun b => mb_bytes b = []) buffer ->
  Forall (fun b => mb_rd_off b = 0%nat) buffer -> (max_marshaled_size <= chain_space buffer)%nat ->
  exists s, write_header buffer h = Ret s /\ good_bit_ s = true /\
    forall (chain2 : list MB) payload,
      chain_bytes chain2 = chain_bytes (ser_done s ++ ser_cur s) ++
        (if content_filter_ h then cf_bytes (swapped h) (content_filter_entries_ h) else []) ++ payload ->
      exists s2, init chain2 old = Ret (s2, received old h) /\ rd_stream s2 = payload /\
        marshaled_size_ (received old h) = Z.of_nat (length (chain_bytes chain2) - length payload).
Proof.
  intros Hok Hb Hoff Hsp.
  destruct (write_header_ok h buffer Hok Hb eq_refl Hoff Hsp) as (s & Hs & Hw).
  exists s. split; [done|]. split; [apply Hw|]. intros chain2 payload Hc2.
  pose proof (wr0_out _ _ _ _ _ Hw) as Hout. unfold wr_out in Hout. rewrite Hout, app_assoc in Hc2.
  destruct (init_ok h old chain2 payload Hok Hc2 eq_refl) as (s2 & Hs2 & Hr).
  exists s2. split; [done|]. split; [apply Hr|]. cbn [received marshaled_size_].
  rewrite Hc2, length_app. unfold header_bytes. lia.
Qed.

(** [partial] recognises exactly the prefixes that end inside the header.
    For a chain, split into blocks in any way, that holds the first [k]
    bytes of a valid header followed by its payload, [partial] returns (it
    never reads outside the data) and answers [true] exactly when [k] is
    less than the size of the whole header, content filter entries
    included. *)
Theorem partial_correct h (mb : list MB) payload k :
  header_ok h -> (k <= length (header_bytes h ++ payload))%nat ->
  chain_bytes mb = take k (header_bytes h ++ payload) ->
  partial mb = Ret (k <? length (header_bytes h))%nat.
Proof. exact (partial_ok h mb payload k). Qed.

Lemma cut_in_payload h (b0 : MB) rest pay size :
  header_ok h -> received default_header h = h ->
  more_fragments_ h = false -> message_length_ h = Z.of_nat (length pay) ->
  chain_bytes (b0 :: rest) = header_bytes h ++ pay -> pay <> [] ->
  (length pay <= length (chain_bytes rest))%nat -> is_u 32 (Z.of_nat (length pay)) ->
  (length (header_bytes h) <= size <= length (header_bytes h) + length pay)%nat ->
  exists hd tl s1 s2 h1 h2 m,
    split (b0 :: rest) size = Ret (hd, tl) /\ length (chain_bytes hd) = size /\
    init hd default_header = Ret (s1, h1) /\ init tl default_header = Ret (s2, h2) /\
    rd_stream s1 ++ rd_stream s2 = pay /\
    message_length_ h1 = Z.of_nat (length (rd_stream s1)) /\
    message_length_ h2 = Z.of_nat (length (rd_stream s2)) /\
    join h1 h2 = Some (add_size (set_entries h (reverse (content_filter_entries_ h))) m).
Proof.
  intros Hok Hrec Hmf Hml Hb Hpay Hfirst Hu Hsize.
  set (n := (size - length (header_bytes h))%nat).
  destruct (split_ok h b0 rest pay size Hok Hrec Hb Hpay Hfirst Hu) as (hd & tl & Hs & Hhd & Htl); [lia|lia|].
  fold n in Hhd, Htl.
  assert (header_ok (head_header h (Z.of_nat n))) as Hok1 by (apply header_ok_set'; [done|unfold is_u in *; lia]).
  assert (header_ok (tail_header h (Z.of_nat (length pay - n)))) as Hok2
    by (apply header_ok_set; [done|unfold is_u in *; lia]).
  destruct (init_ok _ default_header hd _ Hok1 Hhd eq_refl) as (s1 & Hs1 & Hr1).
  destruct (init_ok _ default_header tl _ Hok2 Htl eq_refl) as (s2 & Hs2 & Hr2).
  pose proof (rd0_stream _ _ _ _ Hr1) as E1. pose proof (rd0_stream _ _ _ _ Hr2) as E2.
  destruct (join_fragments h (Z.of_nat n) (Z.of_nat (length pay - n)) Hrec Hmf) as [m Hj];
    [rewrite Hml; lia|apply Hok|].
  eexists hd, tl, s1, s2, _, _, m. split_and!; [exact Hs| |exact Hs1|exact Hs2| | | |exact Hj].
  - apply Nat2Z.inj. rewrite Hhd, length_app, length_take, Nat2Z.inj_add.
    rewrite (header_bytes_length (head_header _ _)) by apply Hok1.
    pose proof (header_bytes_length h (ok_publication _ Hok) (ok_publisher _ Hok) (ok_entries _ Hok)).
    clear -Hsize H. subst n. destruct h. cbn in *. lia.
  - rewrite E1, E2. apply take_drop.
  - rewrite E1, length_take. destruct h; cbn. lia.
  - rewrite E2, length_drop. by destruct h.
Qed.

Lemma cut_in_entries h (b0 : MB) rest pay size :
  header_ok h -> received default_header h = h ->
  more_fragments_ h = false -> message_length_ h = Z.of_nat (length pay) ->
  chain_bytes (b0 :: rest) = header_bytes h ++ pay -> pay <> [] ->
  (length pay <= length (chain_bytes rest))%nat -> is_u 32 (Z.of_nat (length pay)) -> content_filter_ h = true ->
  (length (fixed_bytes h) + 4 <= size < length (header_bytes h))%nat ->
  exists hd tl s1 s2 h1 h2 m,
    split (b0 :: rest) size = Ret (hd, tl) /\ (length (chain_bytes hd) <= size)%nat /\
    init hd default_header = Ret (s1, h1) /\ init tl default_header = Ret (s2, h2) /\
    rd_stream s1 ++ rd_stream s2 = pay /\
    message_length_ h1 = Z.of_nat (length (rd_stream s1)) /\
    message_length_ h2 = Z.of_nat (length (rd_stream s2)) /\
    join h1 h2 = Some (add_size h m).
Proof.
  intros Hok Hrec Hmf Hml Hb Hpay Hfirst Hu Hcf Hsize.
  destruct (split_entries_ok h b0 rest pay size Hok Hrec Hcf Hb Hpay Hfirst Hu Hsize) as (Hk & hd & tl & Hs & Hhd & Htl).
  set (k := ((size - length (fixed_bytes h) - 4) / 16)%nat) in *.
  destruct (entries_headers_ok h k (Z.of_nat (length pay)) Hok Hu) as [Hok1 Hok2].
  pose proof Hhd as Hhd'. rewrite <- (app_nil_r (header_bytes _)) in Hhd'.
  destruct (init_ok _ default_header hd _ Hok1 Hhd' eq_refl) as (s1 & Hs1 & Hr1).
  destruct (init_ok _ default_header tl _ Hok2 Htl eq_refl) as (s2 & Hs2 & Hr2).
  pose proof (rd0_stream _ _ _ _ Hr1) as E1. pose proof (rd0_stream _ _ _ _ Hr2) as E2.
  destruct (join_entries h k (Z.of_nat (length pay)) Hrec Hmf Hcf Hml (ok_length _ Hok)) as [m Hj].
  eexists hd, tl, s1, s2, _, _, m. split_and!; [exact Hs| |exact Hs1|exact Hs2| | | |exact Hj].
  - rewrite Hhd. unfold header_bytes. assert (content_filter_ (entries_head h k) = true) as -> by (by destruct h).
    assert (length (content_filter_entries_ (entries_head h k)) = k) as Hlk.
    { assert (content_filter_entries_ (entries_head h k) = reverse (drop (length (content_filter_entries_ h) - k) (content_filter_entries_ h))) as -> by (by destruct h).
      rewrite length_reverse, length_drop. lia. }
    rewrite length_app, cf_bytes_length, Hlk by apply Hok1.
    assert (length (fixed_bytes (entries_head h k)) = length (fixed_bytes h)) as ->.
    { apply Nat2Z.inj. rewrite !fixed_bytes_length by (apply Hok1 || apply Hok). by destruct h. }
    pose proof (Nat.Div0.mul_div_le (size - length (fixed_bytes h) - 4) 16). fold k in H. lia.
  - by rewrite E1, E2.
  - rewrite E1. by destruct h.
  - rewrite E2. by destruct h.
Qed.

End properties.

Definition ex_guid (k : Z) : GUID := replicate 15 0 ++ [k].
Definition ex_header : DataSampleHeader :=
  mkDSH 0 0 false false false true false true false false true false 5 (mkSN 1 7) (-3) 999 10 20
    (ex_guid 1) GUID_UNKNOWN [ex_guid 2; ex_guid 3] 84.

Lemma ex_header_ok : header_ok ex_header.
Proof.
  split; try (vm_compute; repeat split; congruence); try done. repeat constructor.
Qed.

Lemma header_roundtrip_witness :
  exists s, write_header [empty_block 0 40; empty_block 64 24] ex_header = Ret s /\ good_bit_ s = true /\
    length (chain_bytes (ser_done s ++ ser_cur s)) = 48%nat.
Proof.
  destruct (header_roundtrip ex_header default_header [empty_block 0 40; empty_block 64 24] ex_header_ok)
    as (s & Hs & Hg & _).
  - repeat constructor.
  - repeat constructor.
  - vm_compute. lia.
  - exists s. split; [exact Hs|]. split; [exact Hg|]. vm_compute in Hs. injection Hs as <-. reflexivity.
Defined.

Lemma partial_correct_witness :
  partial [full_block 0 (take 30 (header_bytes ex_header)); full_block 100 (drop 30 (header_bytes ex_header))]
    = Ret false /\
  partial [full_block 0 (take 50 (header_bytes ex_header))] = Ret true.
Proof.
  split.
  - rewrite (partial_correct ex_header _ [] 84 ex_header_ok); [reflexivity|vm_compute; lia|].
    vm_compute. reflexivity.
  - rewrite (partial_correct ex_header _ [] 50 ex_header_ok); [reflexivity|vm_compute; lia|].
    vm_compute. reflexivity.
Defined.


End DataSampleHeader.
Export DataSampleHeader.
