(* ===== verification/TransportReassembly.v ===== *)
(** * Reassembly of fragments (dds/DCPS/transport/framework/TransportReassembly)

    Fragments of a message arrive with the range of transport sequence numbers
    they were sent under.  Per message (publication and sample sequence number)
    the class keeps the received chunks as a list of ranges, merges a new chunk
    with its neighbours, and delivers the message when a single range with the
    first and the last fragment is left.  A sample is a chain of message blocks
    (a list of blocks of any type [B]); linking two chains is appending them. *)

From S2P Require Import Prelude SequenceNumber DisjointSequence Bitmap MessageBlock Serializer DataSampleHeader.

Module TransportReassembly.

#[export] Instance SequenceNumber_countable : Countable SequenceNumber :=
  inj_countable' (fun s => (high_ s, low_ s)) (fun p => mkSN p.1 p.2) ltac:(by intros []).

(** [FragKey]: the publication and the sequence number of the sample. *)
Abbreviation FragKey := (prod GUID SequenceNumber) (only parsing).

Section reassembly.
Context {B : Type}.

(** A null [sample_] is [None]. *)
Record ReceivedDataSample := mkRDS { header_ : DataSampleHeader; sample_ : option (list B) }.

Record FragRange := mkFR { transport_seq_ : SequenceRange; rec_ds_ : ReceivedDataSample }.

Record TransportReassembly := mkTR {
  fragments_ : gmap FragKey (list FragRange);
  have_first_ : gset FragKey }.

(** The payload of two adjacent chunks: unavailable when either is, else the
    second chain is linked to the end of the first. *)
Definition link (left_ right_ : option (list B)) : option (list B) :=
  match left_, right_ with
  | Some l, Some r => Some (l ++ r)
  | _, _ => None
  end.

(** Merging [it], the element after [fr], into [fr] when it starts at [next].
    [None] is the error return; the list then keeps what was done so far. *)
Definition coalesce (fr : FragRange) (rest : list FragRange) (next : Z) : bool * list FragRange :=
  match rest with
  | [] => (true, [fr])
  | it :: rest' =>
      if next =? getValue (transport_seq_ it).1 then
        let h := header_ (rec_ds_ fr) in
        let h := match sample_ (rec_ds_ fr) with None => set_more_fragments h true | Some _ => h end in
        match join h (header_ (rec_ds_ it)) with
        | None => (false, mkFR (transport_seq_ fr) (mkRDS h (sample_ (rec_ds_ fr))) :: rest)
        | Some joined =>
            match sample_ (rec_ds_ it), sample_ (rec_ds_ fr) with
            | Some _, None => (false, mkFR (transport_seq_ fr) (mkRDS joined None) :: rest)
            | s2, s1 =>
                (true, mkFR ((transport_seq_ fr).1, (transport_seq_ it).2) (mkRDS joined (link s1 s2)) :: rest')
            end
        end
      else (true, fr :: rest)
  end.

(** [insert]: the answer and the new list. *)
Fixpoint insert (flist : list FragRange) (seqRange : SequenceRange) (data : ReceivedDataSample)
    : bool * list FragRange :=
  let prev := getValue seqRange.1 - 1 in
  let next := getValue seqRange.2 + 1 in
  match flist with
  | [] => (true, [mkFR seqRange data])
  | fr :: rest =>
      if next <? getValue (transport_seq_ fr).1 then (true, mkFR seqRange data :: fr :: rest)
      else if next =? getValue (transport_seq_ fr).1 then
        match join (header_ data) (header_ (rec_ds_ fr)) with
        | None => (false, fr :: rest)
        | Some joined =>
            (true, mkFR (seqRange.1, (transport_seq_ fr).2)
                     (mkRDS joined (link (sample_ data) (sample_ (rec_ds_ fr)))) :: rest)
        end
      else if prev =? getValue (transport_seq_ fr).2 then
        let h := header_ (rec_ds_ fr) in
        let h := match sample_ (rec_ds_ fr) with None => set_more_fragments h true | Some _ => h end in
        match join h (header_ data) with
        | None => (false, mkFR (transport_seq_ fr) (mkRDS h (sample_ (rec_ds_ fr))) :: rest)
        | Some joined =>
            coalesce (mkFR ((transport_seq_ fr).1, seqRange.2)
                       (mkRDS joined (link (sample_ (rec_ds_ fr)) (sample_ data)))) rest next
        end
      else
        let '(ok, rest) := insert rest seqRange data in (ok, fr :: rest)
  end.

Definition has_frags (tr : TransportReassembly) (seq : SequenceNumber) (pub_id : GUID) : bool :=
  bool_decide (is_Some (fragments_ tr !! (pub_id, seq))).

(** [reassemble_i]: the delivered sample when the answer is [true]. *)
Definition reassemble_i (tr : TransportReassembly) (seqRange : SequenceRange) (firstFrag : bool)
    (data : ReceivedDataSample) : TransportReassembly * option ReceivedDataSample :=
  let key := (publication_id_ (header_ data), sequence_ (header_ data)) in
  let have_first := if firstFrag then {[key]} ∪ have_first_ tr else have_first_ tr in
  match fragments_ tr !! key with
  | None => (mkTR (<[key := [mkFR seqRange data]]> (fragments_ tr)) have_first, None)
  | Some flist =>
      let '(ok, flist) := insert flist seqRange data in
      let tr := mkTR (<[key := flist]> (fragments_ tr)) have_first in
      if negb ok then (tr, None)
      else
        match flist with
        | [fr] =>
            if bool_decide (key ∈ have_first) && negb (more_fragments_ (header_ (rec_ds_ fr))) then
              (mkTR (delete key (fragments_ tr)) (have_first ∖ {[key]}),
               match sample_ (rec_ds_ fr) with Some _ => Some (rec_ds_ fr) | None => None end)
            else (tr, None)
        | _ => (tr, None)
        end
  end.

Definition reassemble_range (tr : TransportReassembly) (seqRange : SequenceRange) (data : ReceivedDataSample) :=
  reassemble_i tr seqRange (sn_eq seqRange.1 (of_value 1)) data.
Definition reassemble (tr : TransportReassembly) (transportSeq : SequenceNumber) (firstFrag : bool)
    (data : ReceivedDataSample) :=
  reassemble_i tr (transportSeq, transportSeq) firstFrag data.

(** [data_unavailable(dataSampleSeq, pub_id)]. *)
Definition data_unavailable_sample (tr : TransportReassembly) (seq : SequenceNumber) (pub_id : GUID) :=
  mkTR (delete (pub_id, seq) (fragments_ tr)) (have_first_ tr ∖ {[(pub_id, seq)]}).

(** Is there a gap between two elements where [dropped] fits? *)
Fixpoint fits_gap (flist : list FragRange) (dropped : SequenceRange) : bool :=
  match flist with
  | fr1 :: (fr2 :: _) as rest =>
      if sn_gt dropped.1 (transport_seq_ fr1).2 && sn_lt dropped.2 (transport_seq_ fr2).1 then true
      else fits_gap rest dropped
  | _ => false
  end.

Definition set_back_more (flist : list FragRange) : list FragRange :=
  match last flist with
  | None => flist
  | Some b =>
      removelast flist ++ [mkFR (transport_seq_ b)
        (mkRDS (set_more_fragments (header_ (rec_ds_ b)) true) (sample_ (rec_ds_ b)))]
  end.

(** The loop body of [data_unavailable(dropped)] for one message. *)
Definition unavailable_one (key : FragKey) (flist : list FragRange) (have : bool) (dropped : SequenceRange)
    : outcome (list FragRange * bool) :=
  let dummy m := mkRDS (set_more_fragments (set_sequence default_header key.2) m) None in
  front ← deref (head flist);
  let prev := getValue (transport_seq_ front).1 - 1 in
  if (getValue dropped.2 =? prev) && negb have then
    Ret ((insert flist dropped (dummy true)).2, true)
  else
    let m := fits_gap flist dropped in
    let flist := if m then (insert flist dropped (dummy true)).2 else flist in
    back ← deref (last flist);
    if sn_eq dropped.1 (next (transport_seq_ back).2) then
      Ret ((insert (set_back_more flist) dropped (dummy m)).2, have)
    else Ret (flist, have).

(** [get_gaps]: the base and the bitmap with its number of bits; the ranges
    between adjacent elements first. *)
Fixpoint gaps_loop (base : Z) (flist : list FragRange) (bitmap : list Z) (len numBits : Z)
    : outcome (list Z * Z) :=
  match flist with
  | it :: (it_next :: _) as rest =>
      let low := uwrap 32 (low_ (transport_seq_ it).2 + 1 - base) in
      let high := uwrap 32 (low_ (transport_seq_ it_next).1 - 1 - base) in
      '(_, bitmap, numBits) ← fill_bitmap_range low high bitmap len numBits;
      gaps_loop base rest bitmap len numBits
  | _ => Ret (bitmap, numBits)
  end.

Definition get_gaps (tr : TransportReassembly) (seq : SequenceNumber) (pub_id : GUID)
    (bitmap : list Z) (len numBits : Z) : outcome (Z * list Z * Z) :=
  match fragments_ tr !! (pub_id, seq) with
  | None => Ret (0, bitmap, numBits)
  | Some flist =>
      if len =? 0 then Ret (0, bitmap, numBits)
      else
        front ← deref (head flist);
        let first := (transport_seq_ front).1 in
        let is1 := sn_eq first (of_value 1) in
        let base := if is1 then uwrap 32 (low_ (transport_seq_ front).2 + 1) else 1 in
        if negb is1 then
          '(_, bitmap, numBits) ← fill_bitmap_range 0 (uwrap 32 (low_ first - 2)) bitmap len numBits;
          '(bitmap, numBits) ← gaps_loop base flist bitmap len numBits;
          Ret (base, bitmap, numBits)
        else if (length flist =? 1)%nat then
          '(_, bitmap, numBits) ← fill_bitmap_range 0 0 bitmap len numBits;
          Ret (base, bitmap, numBits)
        else
          '(bitmap, numBits) ← gaps_loop base flist bitmap len numBits;
          Ret (base, bitmap, numBits)
  end.
End reassembly.
Arguments ReceivedDataSample B : clear implicits.
Arguments FragRange B : clear implicits.
Arguments TransportReassembly B : clear implicits.

(** [data_unavailable(dropped)]: every message, each with its own list; a list
    without elements is [UB]. *)
Definition data_unavailable {B} (tr : TransportReassembly B) (dropped : SequenceRange)
    : outcome (TransportReassembly B) :=
  let step (acc : outcome (TransportReassembly B)) (kv : FragKey * list (FragRange B)) :=
    acc ← acc;
    '(flist, have) ← unavailable_one kv.1 kv.2 (bool_decide (kv.1 ∈ have_first_ acc)) dropped;
    Ret (mkTR (<[kv.1 := flist]> (fragments_ acc))
              (if (have : bool) then {[kv.1]} ∪ have_first_ acc else have_first_ acc)) in
  foldl step (Ret tr) (map_to_list (fragments_ tr)).

(** ** Insertion of a chunk, on intervals of fragment numbers *)

Definition interval : Type := (Z * Z)%type.

Fixpoint ins (ab : list interval) (p : interval) : list interval :=
  match ab with
  | [] => [p]
  | (a, b) :: r =>
      if p.2 + 1 <? a then p :: (a, b) :: r
      else if p.2 + 1 =? a then (p.1, b) :: r
      else if p.1 - 1 =? b then
        match r with
        | (a2, b2) :: r' => if p.2 + 1 =? a2 then (a, b2) :: r' else (a, p.2) :: r
        | [] => [(a, p.2)]
        end
      else (a, b) :: ins r p
  end.

Definition cov (ab : list interval) (v : Z) : Prop := Exists (fun p => p.1 <= v <= p.2) ab.

(** Non-empty intervals with at least one number between neighbours. *)
Fixpoint sep (lo : Z) (ab : list interval) : Prop :=
  match ab with
  | [] => True
  | (a, b) :: r => lo < a /\ a <= b /\ sep (b + 1) r
  end.

Lemma cov_cons p ab v : cov (p :: ab) v <-> p.1 <= v <= p.2 \/ cov ab v.
Proof. unfold cov. by rewrite Exists_cons. Qed.

Lemma cov_nil v : cov [] v <-> False.
Proof. apply Exists_nil. Qed.

Lemma sep_cov lo ab v : sep lo ab -> cov ab v -> lo < v.
Proof.
  revert lo. induction ab as [|[a b] r IH]; intros lo Hs Hc; [by apply Exists_nil in Hc|].
  apply cov_cons in Hc. destruct Hs as (? & ? & Hs). cbn in Hc. destruct Hc as [?|Hc]; [lia|].
  specialize (IH _ Hs Hc). lia.
Qed.

Lemma sep_weaken lo lo' ab : lo' <= lo -> sep lo ab -> sep lo' ab.
Proof. destruct ab as [|[a b] r]; [done|]. cbn. intros ? (?&?&?). split_and!; [lia|done|done]. Qed.

Lemma ins_spec lo ab p :
  sep lo ab -> lo < p.1 <= p.2 -> (forall v, p.1 <= v <= p.2 -> ~ cov ab v) ->
  sep lo (ins ab p) /\ forall v, cov (ins ab p) v <-> cov ab v \/ p.1 <= v <= p.2.
Proof.
  destruct p as [x y]. cbn [fst snd]. revert lo. induction ab as [|[a b] r IH]; intros lo Hs Hp Hd; cbn [ins fst snd].
  { split; [cbn; lia|]. intros v. rewrite cov_cons. cbn [fst snd]. tauto. }
  destruct Hs as (Hlo & Hab & Hs).
  assert (forall v, x <= v <= y -> ~ (a <= v <= b)) as Hd1.
  { intros v Hv Hc. apply (Hd v Hv), cov_cons. by left. }
  assert (forall v, x <= v <= y -> ~ cov r v) as Hd2.
  { intros v Hv Hc. apply (Hd v Hv), cov_cons. by right. }
  pose proof (Hd1 x) as D1. pose proof (Hd1 y) as D2. pose proof (Hd1 (Z.max x a)) as D3.
  destruct (Z.ltb_spec (y + 1) a); [|destruct (Z.eqb_spec (y + 1) a); [|destruct (Z.eqb_spec (x - 1) b)]].
  - split; [cbn; split_and!; (lia || done)|]. intros v. rewrite !cov_cons. cbn [fst snd]. tauto.
  - split; [cbn; split_and!; (lia || done)|]. intros v. rewrite !cov_cons. cbn [fst snd].
    clear -Hab e Hp. intuition lia.
  - destruct r as [|[a2 b2] r'].
    { split; [cbn; lia|]. intros v. rewrite !cov_cons, !cov_nil. cbn [fst snd]. clear -Hab e Hp.
      destruct (Z.le_gt_cases v b); intuition lia. }
    destruct Hs as (H2 & H3 & Hs).
    pose proof (Hd2 a2) as D4. rewrite cov_cons in D4. cbn [fst snd] in D4.
    destruct (Z.eqb_spec (y + 1) a2).
    + split; [cbn; split_and!; (lia || done)|]. intros v. rewrite !cov_cons. cbn [fst snd].
      clear -Hab e e0 Hp H3. intuition lia.
    + assert (y + 1 < a2). { destruct (Z.le_gt_cases a2 y); [|lia]. destruct D4; [lia|left; lia]. }
      split; [cbn; split_and!; (lia || done)|]. intros v. rewrite !cov_cons. cbn [fst snd].
      clear -Hab e Hp. intuition lia.
  - destruct (IH (b + 1) Hs) as [Hs' Hc']; [lia|done|].
    split; [cbn; split_and!; (lia || done)|]. intros v. rewrite !cov_cons, Hc'. cbn [fst snd]. tauto.
Qed.

Lemma sep_full ab m n :
  m <= n -> sep (m - 1) ab -> (forall v, cov ab v <-> m <= v <= n) -> ab = [(m, n)].
Proof.
  intros Hn Hs Hc. destruct ab as [|[a b] r].
  { exfalso. apply (cov_nil m), Hc. lia. }
  destruct Hs as (Ha & Hab & Hs).
  assert (forall v, a <= v <= b \/ cov r v <-> m <= v <= n) as Hc' by (intros v; by rewrite <- Hc, cov_cons).
  assert (forall v, cov r v -> b + 1 < v) as Hr by (intros; by eapply sep_cov).
  assert (a = m) as ->.
  { pose proof (proj2 (Hc' m) ltac:(lia)) as [?|H1]; [lia|]. apply Hr in H1. lia. }
  assert (b = n) as ->.
  { pose proof (proj1 (Hc' b) ltac:(lia)). destruct (Z.eq_dec b n); [done|].
    pose proof (proj2 (Hc' (b + 1)) ltac:(lia)) as [?|H1]; [lia|]. apply Hr in H1. lia. }
  destruct r as [|[a2 b2] r]; [done|]. destruct Hs as (? & ? & _).
  pose proof (proj1 (Hc' a2)) as H1. rewrite cov_cons in H1. cbn [fst snd] in H1. lia.
Qed.

Section message.
Context {B : Type}.
(** A message whose fragments were sent under the transport sequence numbers [m]
    to [n]: the payload, the length and the content filter entries of each. *)
Context (m n : Z) (seq : SequenceNumber) (pub : GUID) (payload : Z -> list B) (ml : Z -> Z) (cf : Z -> option (list GUID)).
Hypothesis Hmn : 1 <= m <= n /\ n < MAX_VALUE.

Definition chunk (a b : Z) : list B := concat (payload <$> count_up a (b + 1)).
Definition chunk_length (a b : Z) : Z := foldr Z.add 0 (ml <$> count_up a (b + 1)).
Definition chunk_filtered (a b : Z) : bool := existsb (fun v => bool_decide (is_Some (cf v))) (count_up a (b + 1)).
Definition chunk_entries (a b : Z) : list GUID := concat ((fun v => default [] (cf v)) <$> count_up a (b + 1)).

(** [join] reverses entries, so their order depends on the order of arrival. *)
Definition hdr_for (p : interval) (h : DataSampleHeader) : Prop :=
  sequence_ h = seq /\ publication_id_ h = pub /\ more_fragments_ h = (p.2 <? n) /\
  (content_filter_ h = chunk_filtered p.1 p.2 /\ content_filter_entries_ h ≡ₚ chunk_entries p.1 p.2) /\
  message_length_ h = uwrap 32 (chunk_length p.1 p.2).
Definition data_for (p : interval) (d : ReceivedDataSample B) : Prop :=
  hdr_for p (header_ d) /\ sample_ d = Some (chunk p.1 p.2).
Definition fr_for (p : interval) (fr : FragRange B) : Prop :=
  transport_seq_ fr = (of_value p.1, of_value p.2) /\ data_for p (rec_ds_ fr).
Definition within (p : interval) : Prop := m <= p.1 <= p.2 /\ p.2 <= n.

Lemma count_up_app a b c : a <= b + 1 <= c + 1 -> count_up a (c + 1) = count_up a (b + 1) ++ count_up (b + 1) (c + 1).
Proof.
  intros H. unfold count_up.
  replace (Z.to_nat (c + 1 - a)) with (Z.to_nat (b + 1 - a) + Z.to_nat (c + 1 - (b + 1)))%nat by lia.
  rewrite seq_app, fmap_app. f_equal. rewrite Nat.add_0_l, <- (Nat.add_0_r (Z.to_nat (b + 1 - a))) at 1.
  rewrite <- fmap_add_seq, <- list_fmap_compose. apply list_fmap_ext. intros i x _. cbn. lia.
Qed.

Lemma chunk_app a b c : a <= b + 1 <= c + 1 -> chunk a c = chunk a b ++ chunk (b + 1) c.
Proof. intros. unfold chunk. by rewrite (count_up_app a b c), fmap_app, concat_app. Qed.

Lemma chunk_length_app a b c : a <= b + 1 <= c + 1 ->
  chunk_length a c = chunk_length a b + chunk_length (b + 1) c.
Proof.
  intros. unfold chunk_length. rewrite (count_up_app a b c), fmap_app by done.
  induction (ml <$> count_up a (b + 1)) as [|x l IH]; cbn in *; lia.
Qed.

Lemma chunk_filter_app a b c : a <= b + 1 <= c + 1 ->
  chunk_filtered a c = chunk_filtered a b || chunk_filtered (b + 1) c /\ chunk_entries a c = chunk_entries a b ++ chunk_entries (b + 1) c.
Proof.
  intros. unfold chunk_filtered, chunk_entries. by rewrite (count_up_app a b c), existsb_app, fmap_app, concat_app.
Qed.

Lemma unfiltered_entries a b : chunk_filtered a b = false -> chunk_entries a b = [].
Proof.
  unfold chunk_filtered, chunk_entries. induction (count_up a (b + 1)) as [|v l IH]; cbn; [done|].
  destruct (cf v); cbn; [done|]. intros. by apply IH.
Qed.

Lemma join_chunks a b c h1 h2 :
  a <= b -> b + 1 <= c -> c <= n -> hdr_for (a, b) h1 -> hdr_for (b + 1, c) h2 ->
  exists h, join h1 h2 = Some h /\ hdr_for (a, c) h.
Proof.
  intros Hab Hbc Hc (Hs1 & Hp1 & Hm1 & [Hc1 He1] & Hl1) (Hs2 & Hp2 & Hm2 & [Hc2 He2] & Hl2). cbn [fst snd] in *.
  unfold join. rewrite Hm1, (proj2 (Z.ltb_lt _ _)), Hs1, Hs2, sn_ne_negb by lia.
  rewrite (proj2 (sn_eq_true seq seq) eq_refl). cbn [negb orb]. eexists. split; [done|].
  destruct (chunk_filter_app a b c) as [Ef Ee]; [lia|].
  unfold hdr_for. cbn [fst snd]. rewrite (chunk_length_app a b c), Ef, Ee by lia. rewrite Hc1.
  assert (uwrap 32 (message_length_ h2 + message_length_ h1) = uwrap 32 (chunk_length a b + chunk_length (b + 1) c)) as El.
  { rewrite Hl1, Hl2. unfold uwrap. rewrite <- Z.add_mod by done. f_equal. lia. }
  destruct (chunk_filtered a b) eqn:Ea; destruct h1, h2; cbn in *; (split_and!; try done).
  - match goal with |- context [rev_append ?l []] => change (rev_append l []) with (reverse l) end.
    by rewrite reverse_Permutation, He1, He2, Permutation_app_comm.
  - by rewrite (unfiltered_entries a b Ea).
Qed.

Lemma fr_for_values p fr : within p -> fr_for p fr ->
  getValue (transport_seq_ fr).1 = p.1 /\ getValue (transport_seq_ fr).2 = p.2.
Proof.
  intros [? ?] [-> _]. cbn. rewrite !getValue_of_value by lia. unfold MIN_VALUE. lia.
Qed.

Lemma coalesce_spec a b fr rest ab :
  fr_for (a, b) fr -> Forall2 fr_for ab rest -> Forall within ((a, b) :: ab) -> sep b ab ->
  exists rest', coalesce fr rest (b + 1) = (true, rest') /\
    Forall2 fr_for (match ab with
      | (a2, b2) :: r' => if b + 1 =? a2 then (a, b2) :: r' else (a, b) :: ab
      | [] => [(a, b)] end) rest'.
Proof.
  intros Hfr HF Hw Hs. destruct HF as [|[a2 b2] it ab rest Hit HF]; cbn [coalesce].
  { eexists. split; [done|]. by constructor. }
  rewrite !Forall_cons in Hw. destruct Hw as (Hw1 & Hw2 & _).
  destruct (fr_for_values _ _ Hw2 Hit) as [-> _]. cbn [fst].
  destruct (Z.eqb_spec (b + 1) a2) as [<-|Hne].
  2: { eexists. split; [done|]. constructor; [done|]. by constructor. }
  destruct Hfr as [Hq (Hh & Hsm)], Hit as [Hq2 (Hh2 & Hsm2)]. rewrite Hsm, Hsm2.
  destruct Hw1 as [? ?], Hw2 as [? ?]. cbn [fst snd] in *.
  destruct (join_chunks a b b2 _ _ ltac:(lia) ltac:(lia) ltac:(lia) Hh Hh2) as (h & -> & Hh').
  eexists. split; [done|]. constructor; [|done]. unfold fr_for, data_for. cbn [transport_seq_ rec_ds_ header_ sample_ fst snd].
  rewrite Hq, Hq2. cbn [fst snd link]. split_and!; [done|done|]. by rewrite (chunk_app a b b2) by lia.
Qed.

Lemma insert_spec flist : forall lo ab x y d,
  Forall2 fr_for ab flist -> Forall within ab -> sep lo ab -> lo < x -> within (x, y) -> data_for (x, y) d ->
  (forall v, x <= v <= y -> ~ cov ab v) ->
  exists flist', insert flist (of_value x, of_value y) d = (true, flist') /\
    Forall2 fr_for (ins ab (x, y)) flist'.
Proof.
  induction flist as [|fr rest IH]; intros lo ab x y d HF Hw Hs Hlo Hxy Hd Hdis;
    inversion HF as [|[a b] ? ab' ? Hfr HF']; subst; cbn [insert ins fst snd].
  { eexists. split; [done|]. constructor; [done|constructor]. }
  rewrite Forall_cons in Hw. destruct Hw as [Hw1 Hw]. destruct Hs as (Ha & Hab & Hs).
  destruct (fr_for_values _ _ Hw1 Hfr) as [-> ->]. destruct Hxy as [Hx Hy]. cbn [fst snd] in *.
  rewrite !getValue_of_value by lia. unfold MIN_VALUE. rewrite !Z.max_r by lia.
  destruct (Z.ltb_spec (y + 1) a); [|destruct (Z.eqb_spec (y + 1) a) as [<-|]; [|destruct (Z.eqb_spec (x - 1) b) as [<-|]]].
  - eexists. split; [done|]. constructor; [done|]. by constructor.
  - destruct Hfr as [Hq (Hh & Hsm)], Hd as [Hdh Hds]. destruct Hw1 as [? ?]. cbn [fst snd] in *.
    destruct (join_chunks x y b _ _ ltac:(lia) ltac:(lia) ltac:(lia) Hdh Hh) as (h & -> & Hh').
    eexists. split; [done|]. constructor; [|done]. unfold fr_for, data_for.
    cbn [transport_seq_ rec_ds_ header_ sample_ fst snd]. rewrite Hq, Hds, Hsm. cbn [fst snd link].
    split_and!; [done|done|]. by rewrite (chunk_app x y b) by lia.
  - pose proof Hfr as [Hq (Hh & Hsm)]. pose proof Hd as [Hdh Hds]. rewrite Hsm.
    destruct Hw1 as [? ?]. cbn [fst snd] in *.
    destruct (join_chunks a (x - 1) y (header_ (rec_ds_ fr)) (header_ d)) as (h & -> & Hh');
      [lia|lia|lia|done|by replace (x - 1 + 1) with x by lia|].
    replace (x - 1) with (x - 1) in * by lia.
    destruct (coalesce_spec a y (mkFR ((transport_seq_ fr).1, of_value y)
      (mkRDS h (link (Some (chunk a (x - 1))) (sample_ d)))) rest ab') as (rest' & Hco & HF2).
    + unfold fr_for, data_for. cbn [transport_seq_ rec_ds_ header_ sample_ fst snd]. rewrite Hq, Hds. cbn [fst snd link].
      split_and!; [done|done|]. rewrite (chunk_app a (x - 1) y) by lia. by replace (x - 1 + 1) with x by lia.
    + done.
    + constructor; [|done]. split; cbn; lia.
    + destruct ab' as [|[a2 b2] ab']; [done|]. destruct Hs as (? & ? & ?). cbn. split_and!; [|done|done].
      destruct (Z.lt_ge_cases y a2); [done|]. exfalso. apply (Hdis a2); [lia|].
      rewrite !cov_cons. cbn. lia.
    + exists rest'. rewrite Hco. split; [done|]. exact HF2.
  - assert (b + 1 < x).
    { destruct (Z.le_gt_cases x b); [|lia]. exfalso. apply (Hdis (Z.max x a)); [lia|]. rewrite cov_cons. cbn. lia. }
    destruct (IH (b + 1) ab' x y d HF' Hw Hs) as (rest' & -> & HF2); [lia|done|done| |].
    { intros v Hv Hc. apply (Hdis v Hv), cov_cons. by right. }
    eexists. split; [done|]. by constructor.
Qed.
(** ** The message as a whole *)

Definition key_ : FragKey := (pub, seq).

(** What is stored for the message after the chunks [ab]. *)
Record stored (tr : TransportReassembly B) (ab : list interval) : Prop := {
  st_list : exists flist, fragments_ tr !! key_ = Some flist /\ Forall2 fr_for ab flist;
  st_within : Forall within ab;
  st_sep : sep (m - 1) ab;
  st_first : key_ ∈ have_first_ tr <-> cov ab m }.

(** The rest of the state. *)
Definition others (tr : TransportReassembly B) : TransportReassembly B :=
  mkTR (delete key_ (fragments_ tr)) (have_first_ tr ∖ {[key_]}).

Definition receive (tr : TransportReassembly B) (pd : interval * ReceivedDataSample B) :=
  reassemble_i tr (of_value pd.1.1, of_value pd.1.2) (pd.1.1 =? m) pd.2.

Lemma ins_within ab p : Forall within ab -> within p -> Forall within (ins ab p).
Proof.
  destruct p as [x y]. intros Hab [Hx Hy]. cbn [fst snd] in *.
  assert (forall u v, m <= u <= v -> v <= n -> within (u, v)) as Hwi by (by split).
  induction Hab as [|[a b] r [Ha1 Ha2] Hr IH]; cbn [ins fst snd] in *; [constructor; [by apply Hwi|constructor]|].
  destruct (Z.ltb_spec (y + 1) a); [|destruct (Z.eqb_spec (y + 1) a); [|destruct (Z.eqb_spec (x - 1) b)]].
  - constructor; [by apply Hwi|]. constructor; [by apply Hwi|done].
  - constructor; [apply Hwi; lia|done].
  - destruct Hr as [|[a2 b2] r [? ?] Hr]; cbn [fst snd] in *; [constructor; [apply Hwi; lia|constructor]|].
    case_match; (constructor; [apply Hwi; lia|]); [done|]. constructor; [by apply Hwi|done].
  - constructor; [by split|done].
Qed.

Lemma first_receive tr p d :
  fragments_ tr !! key_ = None -> key_ ∉ have_first_ tr -> within p -> data_for p d ->
  exists tr', receive tr (p, d) = (tr', None) /\ stored tr' [p] /\ others tr' = others tr.
Proof.
  intros Hf Hh Hw Hd. unfold receive, reassemble_i. cbn [fst snd].
  pose proof Hd as ((Hs & Hp & _) & _). rewrite Hs, Hp. fold key_. rewrite Hf.
  eexists. split; [done|]. split.
  - split; cbn [fragments_ have_first_].
    + exists [mkFR (of_value p.1, of_value p.2) d]. rewrite lookup_insert_eq. split; [done|].
      constructor; [by split|constructor].
    + by constructor.
    + destruct p as [a b], Hw as [? ?]. cbn in *. lia.
    + rewrite cov_cons, cov_nil. destruct Hw as [? ?]. destruct (Z.eqb_spec p.1 m).
      * split; [lia|]. set_solver.
      * split; [done|]. lia.
  - unfold others. cbn [fragments_ have_first_]. f_equal; [by rewrite delete_insert_eq|].
    destruct (p.1 =? m); [set_solver|done].
Qed.

Lemma covered_is_whole ab : sep (m - 1) ab -> Forall within ab -> (forall v, m <= v <= n -> cov ab v) -> ab = [(m, n)].
Proof.
  intros Hs Hw Hall. apply sep_full; [lia|done|]. intros v. split; [|apply Hall]. intros Hv.
  apply Exists_exists in Hv as (q & Hq & Hqv). rewrite Forall_forall in Hw. destruct (Hw q Hq). lia.
Qed.

Lemma next_receive tr ab p d :
  stored tr ab -> within p -> data_for p d -> (forall v, p.1 <= v <= p.2 -> ~ cov ab v) ->
  (forall v, cov (ins ab p) v <-> cov ab v \/ p.1 <= v <= p.2) /\
  exists tr' out, receive tr (p, d) = (tr', out) /\ others tr' = others tr /\
  (((forall v, m <= v <= n -> cov (ins ab p) v) /\
     fragments_ tr' !! key_ = None /\ (key_ ∉ have_first_ tr') /\
     exists r, out = Some r /\ data_for (m, n) r) \/
   (~ (forall v, m <= v <= n -> cov (ins ab p) v) /\ out = None /\ stored tr' (ins ab p))).
Proof.
  intros [(flist & Hfl & HF) Hw Hs Hfirst] Hpw Hd Hdis. pose proof Hpw as [Hp1 Hp2].
  destruct (ins_spec (m - 1) ab p Hs) as [Hs' Hc']; [lia|done|]. split; [done|].
  destruct p as [x y]. cbn [fst snd] in *.
  destruct (insert_spec flist (m - 1) ab x y d HF Hw Hs) as (flist' & Hins & HF'); [lia|done|done|done|].
  pose proof (ins_within ab (x, y) Hw Hpw) as Hw'. set (ab1 := ins ab (x, y)) in *. clearbody ab1.
  unfold receive, reassemble_i. cbn [fst snd]. pose proof Hd as ((Hsq & Hpb & _) & _).
  rewrite Hsq, Hpb. fold key_. rewrite Hfl, Hins. cbn [negb fragments_ have_first_].
  set (hf := if x =? m then {[key_]} ∪ have_first_ tr else have_first_ tr).
  assert (key_ ∈ hf <-> cov (ab1) m) as Hhf.
  { subst hf. rewrite Hc'. destruct (Z.eqb_spec x m); [|rewrite Hfirst; split; [by left|]; intros [?|?]; [done|lia]].
    split; [right; lia|set_solver]. }
  assert (others (mkTR (<[key_:=flist']> (fragments_ tr)) hf) = others tr) as Hoth.
  { unfold others. cbn [fragments_ have_first_]. f_equal; [by rewrite delete_insert_eq|].
    subst hf. destruct (x =? m); [set_solver|done]. }
  assert (stored (mkTR (<[key_:=flist']> (fragments_ tr)) hf) (ab1)) as Hst.
  { split; try done. exists flist'. cbn. by rewrite lookup_insert_eq. }
  assert (~ (forall v, m <= v <= n -> cov (ab1) v) -> exists tr' out,
    (mkTR (<[key_:=flist']> (fragments_ tr)) hf, None) = (tr', out) /\ others tr' = others tr /\
    (((forall v, m <= v <= n -> cov (ab1) v) /\ fragments_ tr' !! key_ = None /\
       (key_ ∉ have_first_ tr') /\ exists r, out = Some r /\ data_for (m, n) r) \/
     (~ (forall v, m <= v <= n -> cov (ab1) v) /\ out = None /\ stored tr' (ab1)))) as Hno.
  { intros Hnot. eexists _, None. split; [done|]. split; [done|]. by right. }
  assert ((forall v, m <= v <= n -> cov (ab1) v) -> ab1 = [(m, n)]) as Hfull.
  { by apply covered_is_whole. }
  inversion HF' as [Hnil|q fr ab'' rest Hfr HF'']; subst.
  { apply Hno. intros Hall. specialize (Hfull Hall). congruence. }
  destruct rest as [|fr2 rest].
  2: { apply Hno. intros Hall. specialize (Hfull Hall). inversion HF''; subst. congruence. }
  inversion HF''; subst. destruct Hfr as [Hq (Hh & Hsm)].
  pose proof Hh as (_ & _ & -> & _). rewrite Hsm.
  assert (within q) as [Hq1 Hq2] by (by inversion Hw').
  destruct (bool_decide (key_ ∈ hf)) eqn:Hk; [|cbn [andb]; apply Hno].
  2: { intros Hall. apply bool_decide_eq_false in Hk. apply Hk, Hhf, Hall. lia. }
  apply bool_decide_eq_true in Hk. apply Hhf, cov_cons in Hk. rewrite cov_nil in Hk.
  destruct (Z.ltb_spec q.2 n); cbn [negb andb].
  { apply Hno. intros Hall. specialize (Hall n ltac:(lia)). apply cov_cons in Hall. rewrite cov_nil in Hall. lia. }
  assert (q = (m, n)) as -> by (destruct q; cbn in *; f_equal; lia).
  eexists _, _. split; [done|]. split.
  { unfold others in *. cbn [fragments_ have_first_] in *. injection Hoth as E1 E2. f_equal.
    - rewrite <- E1. apply map_eq. intros k. destruct (decide (k = key_)) as [->|];
        rewrite ?lookup_delete_eq, ?lookup_delete_ne by done; done.
    - rewrite <- E2. set_solver. }
  left. split_and!.
  - intros v Hv. apply cov_cons. left. cbn. lia.
  - cbn. apply lookup_delete_eq.
  - cbn. set_solver.
  - exists (rec_ds_ fr). split; [done|]. by split.
Qed.
Fixpoint receive_all (tr : TransportReassembly B) (ps : list (interval * ReceivedDataSample B))
    : TransportReassembly B * list (option (ReceivedDataSample B)) :=
  match ps with
  | [] => (tr, [])
  | pd :: ps' =>
      let '(tr, out) := receive tr pd in
      let '(tr, outs) := receive_all tr ps' in
      (tr, out :: outs)
  end.

(** No fragment is in two chunks. *)
Fixpoint disjoint_chunks (ps : list interval) : Prop :=
  match ps with
  | [] => True
  | p :: ps' => (forall v, p.1 <= v <= p.2 -> ~ cov ps' v) /\ disjoint_chunks ps'
  end.

Definition chunk_ok (pd : interval * ReceivedDataSample B) : Prop := within pd.1 /\ data_for pd.1 pd.2.

Lemma others_absent tr : fragments_ tr !! key_ = None -> key_ ∉ have_first_ tr -> others tr = tr.
Proof.
  intros Hf Hh. destruct tr as [f hf]. unfold others. cbn in *.
  rewrite delete_id by done. f_equal. set_solver.
Qed.

Lemma receive_rest ps : forall tr ab,
  stored tr ab -> Forall chunk_ok ps -> disjoint_chunks ps.*1 -> ps <> [] ->
  (forall v, cov ab v -> ~ cov ps.*1 v) -> (forall v, m <= v <= n -> cov ab v \/ cov ps.*1 v) ->
  exists tr' r, receive_all tr ps = (tr', replicate (length ps - 1) None ++ [Some r]) /\
    data_for (m, n) r /\ fragments_ tr' !! key_ = None /\ (key_ ∉ have_first_ tr') /\ others tr' = others tr.
Proof.
  induction ps as [|[p d] ps IH]; intros tr ab Hst Hok Hdj Hne Hda Hall; [done|].
  inversion Hok as [|? ? [Hpw Hpd] Hok']; subst. destruct Hdj as [Hdj1 Hdj]. cbn [fst snd] in *.
  destruct (next_receive tr ab p d Hst Hpw Hpd) as (Hc & tr1 & out & Hr & Ho & Hcase).
  { intros v Hv Hc. apply (Hda v Hc). cbn. apply cov_cons. by left. }
  cbn [receive_all]. rewrite Hr.
  assert (forall v, cov (ins ab p) v -> ~ cov ps.*1 v) as Hda'.
  { intros v Hv Hc2. apply Hc in Hv as [Hv|Hv]; [|by apply (Hdj1 v Hv)].
    apply (Hda v Hv). cbn. apply cov_cons. by right. }
  assert (forall v, m <= v <= n -> cov (ins ab p) v \/ cov ps.*1 v) as Hall'.
  { intros v Hv. rewrite Hc. specialize (Hall v Hv). cbn in Hall. rewrite cov_cons in Hall. tauto. }
  destruct Hcase as [(Hfull & Hk1 & Hk2 & r & -> & Hdr)|(Hnot & -> & Hst')].
  - destruct ps as [|[q e] ps].
    { cbn. exists tr1, r. by split_and!. }
    exfalso. inversion Hok' as [|? ? [[Hq1 Hq2] _] _]; subst. cbn [fst snd] in *.
    apply (Hda' q.1); [apply Hfull; lia|]. cbn. apply cov_cons. left. lia.
  - destruct ps as [|q ps].
    { exfalso. apply Hnot. intros v Hv. destruct (Hall' v Hv) as [?|Hc2]; [done|]. by apply cov_nil in Hc2. }
    destruct (IH tr1 (ins ab p) Hst' Hok' Hdj) as (tr2 & r & Hr2 & Hdr & Hk1 & Hk2 & Ho2); [done|done|done|].
    rewrite Hr2. exists tr2, r. cbn. rewrite Nat.sub_0_r. split_and!; try done. congruence.
Qed.

Lemma receive_all_ok tr ps :
  fragments_ tr !! key_ = None -> key_ ∉ have_first_ tr ->
  Forall chunk_ok ps -> disjoint_chunks ps.*1 -> (2 <= length ps)%nat ->
  (forall v, m <= v <= n -> cov ps.*1 v) ->
  exists r, receive_all tr ps = (tr, replicate (length ps - 1) None ++ [Some r]) /\ data_for (m, n) r.
Proof.
  intros Hk1 Hk2 Hok Hdj Hlen Hall. destruct ps as [|[p d] [|q ps]]; [cbn in *; lia..|].
  inversion Hok as [|? ? [Hpw Hpd] Hok']; subst. destruct Hdj as [Hdj1 Hdj]. cbn [fst snd] in *.
  destruct (first_receive tr p d Hk1 Hk2 Hpw Hpd) as (tr1 & Hr1 & Hst & Ho1).
  destruct (receive_rest (q :: ps) tr1 [p] Hst Hok' Hdj) as (tr2 & r & Hr2 & Hdr & Hk3 & Hk4 & Ho2); [done|..].
  - intros v Hv. apply cov_cons in Hv. rewrite cov_nil in Hv. apply Hdj1. lia.
  - intros v Hv. rewrite cov_cons, cov_nil. specialize (Hall v Hv). cbn in Hall. rewrite cov_cons in Hall. tauto.
  - exists r. change (receive_all tr ((p, d) :: q :: ps)) with
      (let '(tr, out) := receive tr (p, d) in let '(tr, outs) := receive_all tr (q :: ps) in (tr, out :: outs)).
    rewrite Hr1, Hr2. split; [|done]. cbn. rewrite Nat.sub_0_r.
    rewrite (others_absent tr2), Ho1, (others_absent tr) in Ho2 by done. by rewrite Ho2.
Qed.
End message.

(** ** Properties *)

(** C23: a fragmented message is reassembled from its fragments in any order.
    Chunks that together are the fragments with the transport sequence numbers [m]
    to [n] of one message, each fragment in exactly one of at least two chunks,
    are received in any order ([reassemble_i], which both overloads of
    [reassemble] call: the chunk with [m] is the one flagged as the first):
    every chunk but the last gives [false], the last one delivers the message
    with the payloads of all fragments in order, a header without
    [more_fragments], the total length and the content filter entries of all
    fragments (in some order), and nothing of the message stays behind in the
    state. *)
Theorem reassembly_any_order {B} m n seq pub (payload : Z -> list B) ml cf tr ps :
  1 <= m <= n /\ n < MAX_VALUE ->
  fragments_ tr !! (pub, seq) = None -> (pub, seq) ∉ have_first_ tr ->
  Forall (chunk_ok m n seq pub payload ml cf) ps -> disjoint_chunks ps.*1 -> (2 <= length ps)%nat ->
  (forall v, m <= v <= n -> cov ps.*1 v) ->
  exists r, receive_all m tr ps = (tr, replicate (length ps - 1) None ++ [Some r]) /\
    sample_ r = Some (concat (payload <$> count_up m (n + 1))) /\
    sequence_ (header_ r) = seq /\ publication_id_ (header_ r) = pub /\
    more_fragments_ (header_ r) = false /\
    message_length_ (header_ r) = uwrap 32 (foldr Z.add 0 (ml <$> count_up m (n + 1))) /\
    content_filter_ (header_ r) = existsb (fun v => bool_decide (is_Some (cf v))) (count_up m (n + 1)) /\
    content_filter_entries_ (header_ r) ≡ₚ concat ((fun v => default [] (cf v)) <$> count_up m (n + 1)).
Proof.
  intros Hmn Hk1 Hk2 Hok Hdj Hlen Hall.
  destruct (receive_all_ok m n seq pub payload ml cf Hmn tr ps Hk1 Hk2 Hok Hdj Hlen Hall) as (r & Hr & (Hs & Hp & Hm & [Hc He] & Hl) & Hsm).
  exists r. cbn [fst snd] in *. rewrite Z.ltb_irrefl in Hm. by split_and!.
Qed.

Definition ex_frag_header (m : bool) (len : Z) : DataSampleHeader :=
  set_length (set_more_fragments (set_sequence (set_publication default_header (ex_guid 9)) (mkSN 0 4)) m) len.
(** Fragment [i] of a message of the three fragments 7 to 9, with one block that is
    named [i]; the last two carry content filter entries. *)
Definition ex_entries (i : Z) : option (list GUID) := if i =? 7 then None else Some [ex_guid i].
Definition ex_frag (i : Z) : interval * ReceivedDataSample Z :=
  ((i, i), mkRDS (set_entries (set_content_filter (ex_frag_header (i <? 9) 10) (bool_decide (is_Some (ex_entries i)))) (default [] (ex_entries i))) (Some [i])).
Definition ex_tr : TransportReassembly Z := mkTR ∅ ∅.

Lemma reassembly_any_order_witness :
  exists r, receive_all 7 ex_tr [ex_frag 9; ex_frag 7; ex_frag 8] = (ex_tr, [None; None; Some r]) /\
    sample_ r = Some [7; 8; 9] /\ message_length_ (header_ r) = 30 /\ content_filter_entries_ (header_ r) ≡ₚ [ex_guid 8; ex_guid 9].
Proof.
  destruct (reassembly_any_order 7 9 (mkSN 0 4) (ex_guid 9) (fun i => [i]) (fun _ => 10) ex_entries ex_tr
    [ex_frag 9; ex_frag 7; ex_frag 8]) as (r & H1 & H2 & _ & _ & _ & H3 & _ & H4).
  - vm_compute. split_and!; congruence.
  - reflexivity.
  - apply not_elem_of_empty.
  - repeat (constructor; [split; [split; cbn; lia|repeat split; done]|]). constructor.
  - cbn. split_and!; try done; intros v Hv; rewrite ?cov_cons, cov_nil; cbn; lia.
  - cbn. lia.
  - intros v Hv. cbn. rewrite !cov_cons. cbn. lia.
  - exists r. split; [exact H1|]. split; [exact H2|]. split; [exact H3|exact H4].
Defined.

(** Three fragments without content filter entries. *)
Definition plain_frag (i : Z) : interval * ReceivedDataSample Z :=
  ((i, i), mkRDS (ex_frag_header (i <? 3) 10) (Some [i])).

(** a fragment that arrives twice makes the message undeliverable: the
    second copy is not recognised (its range touches neither end of the range
    that already contains it), goes to the end of the list, and the list never
    becomes a single range again, although all three fragments are there. *)
Theorem duplicate_fragment_blocks_delivery :
  (receive_all 1 ex_tr [plain_frag 1; plain_frag 2; plain_frag 3]).2
    = [None; None; Some (mkRDS (ex_frag_header false 30) (Some [1; 2; 3]))] /\
  (receive_all 1 ex_tr [plain_frag 1; plain_frag 2; plain_frag 2; plain_frag 3]).2 = [None; None; None; None] /\
  option_map (map transport_seq_) (fragments_ (receive_all 1 ex_tr [plain_frag 1; plain_frag 2; plain_frag 2; plain_frag 3]).1 !! (ex_guid 9, mkSN 0 4))
    = Some [(mkSN 0 1, mkSN 0 3); (mkSN 0 2, mkSN 0 2)].
Proof. by vm_compute. Qed.

End TransportReassembly.
Export TransportReassembly.
