(* ===== verification/SampleLists.v ===== *)
(** * Intrusive sample lists (dds/DCPS/DataSampleElement, SendStateDataSampleList,
    WriterDataSampleList, InstanceDataSampleList)

    A data writer threads every sample it holds on three kinds of lists whose
    links are members of the sample itself.  The model keeps the samples in a
    heap and the lists as head pointer, tail pointer and size; a dereference of
    a null pointer or of a freed sample is undefined behaviour.  The theorems
    show that on well-formed lists the operations are those of plain sequences
    and that each touches only its own kind of link. *)

From S2P Require Import Prelude SequenceNumber DataSampleHeader.

Module SampleLists.

(** ** Samples *)

(** The message of a sample is a reference to a (shared, reference counted)
    data block; [handle_] is the address of the instance.  The send listener,
    the allocators and the content-filter bookkeeping ([filter_out_],
    [filter_per_link_]) are not used by the code modelled here. *)
Record DataSampleElement := mkDSE {
  header_ : DataSampleHeader;
  sample_ : option positive;
  pub_id_ : GUID;
  num_subs_ : Z;
  subscription_ids_ : list GUID;
  space_available_ : bool;
  handle_ : option positive;
  previous_writer_sample_ : option positive;
  next_writer_sample_ : option positive;
  next_instance_sample_ : option positive;
  next_send_sample_ : option positive;
  previous_send_sample_ : option positive }.

Abbreviation heap := (gmap positive DataSampleElement).

(** The constructor from the publication and the instance; the header is the
    default one. *)
Definition new_element (publication_id : GUID) (handle : option positive) (readers : nat)
    : DataSampleElement :=
  mkDSE default_header None publication_id 0 (replicate readers GUID_UNKNOWN) false handle
    None None None None None.

(** The copy constructor, link members included.  The message block is
    duplicated, which copies the reference (a null message is dereferenced),
    and only [num_subs_] of the subscription ids are copied. *)
Definition copy_element (e : DataSampleElement) (uninit : list GUID) : outcome DataSampleElement :=
  block ← deref (sample_ e);
  Ret (mkDSE (header_ e) (Some block) (pub_id_ e) (num_subs_ e)
         (take (Z.to_nat (num_subs_ e)) (subscription_ids_ e) ++ drop (Z.to_nat (num_subs_ e)) uninit)
         (space_available_ e) (handle_ e)
         (previous_writer_sample_ e) (next_writer_sample_ e) (next_instance_sample_ e)
         (next_send_sample_ e) (previous_send_sample_ e)).

Definition set_num_subs (n : Z) (e : DataSampleElement) : DataSampleElement :=
  mkDSE (header_ e) (sample_ e) (pub_id_ e) n (subscription_ids_ e) (space_available_ e)
    (handle_ e) (previous_writer_sample_ e) (next_writer_sample_ e)
    (next_instance_sample_ e) (next_send_sample_ e) (previous_send_sample_ e).
Definition set_sub_id (k : nat) (g : GUID) (e : DataSampleElement) : DataSampleElement :=
  mkDSE (header_ e) (sample_ e) (pub_id_ e) (num_subs_ e) (<[k := g]> (subscription_ids_ e)) (space_available_ e)
    (handle_ e) (previous_writer_sample_ e) (next_writer_sample_ e)
    (next_instance_sample_ e) (next_send_sample_ e) (previous_send_sample_ e).
Definition set_sample (s : option positive) (e : DataSampleElement) : DataSampleElement :=
  mkDSE (header_ e) s (pub_id_ e) (num_subs_ e) (subscription_ids_ e) (space_available_ e)
    (handle_ e) (previous_writer_sample_ e) (next_writer_sample_ e)
    (next_instance_sample_ e) (next_send_sample_ e) (previous_send_sample_ e).
Definition set_space_available (b : bool) (e : DataSampleElement) : DataSampleElement :=
  mkDSE (header_ e) (sample_ e) (pub_id_ e) (num_subs_ e) (subscription_ids_ e) b
    (handle_ e) (previous_writer_sample_ e) (next_writer_sample_ e)
    (next_instance_sample_ e) (next_send_sample_ e) (previous_send_sample_ e).
Definition set_prev_writer (q : option positive) (e : DataSampleElement) : DataSampleElement :=
  mkDSE (header_ e) (sample_ e) (pub_id_ e) (num_subs_ e) (subscription_ids_ e) (space_available_ e)
    (handle_ e) q (next_writer_sample_ e)
    (next_instance_sample_ e) (next_send_sample_ e) (previous_send_sample_ e).
Definition set_next_writer (q : option positive) (e : DataSampleElement) : DataSampleElement :=
  mkDSE (header_ e) (sample_ e) (pub_id_ e) (num_subs_ e) (subscription_ids_ e) (space_available_ e)
    (handle_ e) (previous_writer_sample_ e) q
    (next_instance_sample_ e) (next_send_sample_ e) (previous_send_sample_ e).
Definition set_next_instance (q : option positive) (e : DataSampleElement) : DataSampleElement :=
  mkDSE (header_ e) (sample_ e) (pub_id_ e) (num_subs_ e) (subscription_ids_ e) (space_available_ e)
    (handle_ e) (previous_writer_sample_ e) (next_writer_sample_ e)
    q (next_send_sample_ e) (previous_send_sample_ e).
Definition set_next_send (q : option positive) (e : DataSampleElement) : DataSampleElement :=
  mkDSE (header_ e) (sample_ e) (pub_id_ e) (num_subs_ e) (subscription_ids_ e) (space_available_ e)
    (handle_ e) (previous_writer_sample_ e) (next_writer_sample_ e)
    (next_instance_sample_ e) q (previous_send_sample_ e).
Definition set_prev_send (q : option positive) (e : DataSampleElement) : DataSampleElement :=
  mkDSE (header_ e) (sample_ e) (pub_id_ e) (num_subs_ e) (subscription_ids_ e) (space_available_ e)
    (handle_ e) (previous_writer_sample_ e) (next_writer_sample_ e)
    (next_instance_sample_ e) (next_send_sample_ e) q.

(** [p->member] and [p->member = ...]. *)
Definition load (h : heap) (p : option positive) : outcome DataSampleElement :=
  match p with Some a => deref (h !! a) | None => UB end.
Definition store (h : heap) (p : option positive) (f : DataSampleElement -> DataSampleElement)
    : outcome heap :=
  match p with
  | Some a => e ← deref (h !! a); Ret (<[a := f e]> h)
  | None => UB
  end.

(** The three list classes have the same three members. *)
Record SampleList := mkSL { head_ : option positive; tail_ : option positive; size_ : Z }.

(** The constructor and [reset]. *)
Definition empty_list : SampleList := mkSL None None 0.

(** A loop over a list makes at most as many steps as there are samples, unless
    the links are cyclic; one more step is the test that ends the loop. *)
Definition loop_fuel (h : heap) : nat := S (size h).

(** Is [stale] on the chain of [next] links that starts at [item]? *)
Fixpoint find_from (next : DataSampleElement -> option positive) (fuel : nat) (h : heap)
    (item : option positive) (stale : positive) : outcome bool :=
  match fuel with
  | O => Fuel
  | S fuel =>
      match item with
      | None => Ret false
      | Some a =>
          if decide (a = stale) then Ret true
          else e ← load h item; find_from next fuel h (next e) stale
      end
  end.

(** ** SendStateDataSampleList *)

Definition send_enqueue_tail (h : heap) (l : SampleList) (sample : positive)
    : outcome (heap * SampleList) :=
  match head_ l with
  | None => Ret (h, mkSL (Some sample) (Some sample) (size_ l + 1))
  | Some _ =>
      h ← store h (Some sample) (set_prev_send (tail_ l));
      h ← store h (tail_ l) (set_next_send (Some sample));
      Ret (h, mkSL (head_ l) (Some sample) (size_ l + 1))
  end.

Definition send_dequeue_head (h : heap) (l : SampleList)
    : outcome (heap * SampleList * option positive) :=
  match head_ l with
  | None => Ret (h, l, None)
  | Some stale =>
      e ← load h (head_ l);
      let hd := next_send_sample_ e in
      h ← (match hd with None => Ret h | Some _ => store h hd (set_prev_send None) end);
      h ← store h (Some stale) (set_next_send None);
      h ← store h (Some stale) (set_prev_send None);
      Ret (h, mkSL hd (match hd with None => None | Some _ => tail_ l end) (size_ l - 1), Some stale)
  end.

Definition send_dequeue (h : heap) (l : SampleList) (stale : positive)
    : outcome (heap * SampleList * bool) :=
  match head_ l with
  | None => Ret (h, l, false)
  | Some hd =>
      if decide (stale = hd) then
        '(h, l, s) ← send_dequeue_head h l; Ret (h, l, bool_decide (s ≠ None))
      else
        e ← load h (Some hd);
        found ← find_from next_send_sample_ (loop_fuel h) h (next_send_sample_ e) stale;
        if negb found then Ret (h, l, false)
        else
          r ← load h (Some stale);
          let prev := previous_send_sample_ r in
          let next := next_send_sample_ r in
          h ← store h prev (set_next_send next);
          '(h, tl) ← (match next with
                      | Some _ => h ← store h next (set_prev_send prev); Ret (h, tail_ l)
                      | None => h ← store h prev (set_next_send None); Ret (h, prev)
                      end);
          h ← store h (Some stale) (set_next_send None);
          h ← store h (Some stale) (set_prev_send None);
          Ret (h, mkSL (head_ l) tl (size_ l - 1), true)
  end.

(** [enqueue_tail(SendStateDataSampleList)]: the samples of [other] are linked
    after those of [l]. *)
Definition send_enqueue_list (h : heap) (l other : SampleList) : outcome (heap * SampleList) :=
  match head_ l with
  | None => Ret (h, other)
  | Some _ =>
      h ← store h (tail_ l) (set_next_send (head_ other));
      h ← store h (head_ other) (set_prev_send (tail_ l));
      Ret (h, mkSL (head_ l) (tail_ other) (size_ l + size_ other))
  end.

Fixpoint first_of_chain (fuel : nat) (h : heap) (a : positive) : outcome positive :=
  match fuel with
  | O => Fuel
  | S fuel =>
      e ← load h (Some a);
      match previous_send_sample_ e with
      | None => Ret a
      | Some p => first_of_chain fuel h p
      end
  end.

(** The position in [send_lists] of the list whose head is the start of the
    element's chain; [None] is the null result. *)
Fixpoint list_with_head (hd : positive) (send_lists : list SampleList) : option nat :=
  match send_lists with
  | [] => None
  | l :: ls => if decide (head_ l = Some hd) then Some O else S <$> list_with_head hd ls
  end.
Definition send_list_containing_element (h : heap) (element : positive) (send_lists : list SampleList)
    : outcome (option nat) :=
  hd ← first_of_chain (loop_fuel h) h element;
  Ret (list_with_head hd send_lists).

(** Iterators. *)
Record SendIterator := mkIt { it_head_ : option positive; it_tail_ : option positive; current_ : option positive }.
Definition send_begin (l : SampleList) : SendIterator := mkIt (head_ l) (tail_ l) (head_ l).
Definition send_end (l : SampleList) : SendIterator := mkIt (head_ l) (tail_ l) None.
Definition it_next (h : heap) (it : SendIterator) : outcome SendIterator :=
  match current_ it with
  | Some _ => e ← load h (current_ it); Ret (mkIt (it_head_ it) (it_tail_ it) (next_send_sample_ e))
  | None => Ret it
  end.
Definition it_prev (h : heap) (it : SendIterator) : outcome SendIterator :=
  match current_ it with
  | Some _ => e ← load h (current_ it); Ret (mkIt (it_head_ it) (it_tail_ it) (previous_send_sample_ e))
  | None => Ret (mkIt (it_head_ it) (it_tail_ it) (it_tail_ it))
  end.
Definition it_eq (a b : SendIterator) : bool :=
  bool_decide (it_head_ a = it_head_ b) && bool_decide (it_tail_ a = it_tail_ b)
  && bool_decide (current_ a = current_ b).

(** The samples visited by [for (it = begin(); it != end(); ++it)]. *)
Fixpoint visit_from (fuel : nat) (h : heap) (it last_ : SendIterator) : outcome (list positive) :=
  match fuel with
  | O => Fuel
  | S fuel =>
      if it_eq it last_ then Ret []
      else
        a ← deref (current_ it);
        it ← it_next h it;
        rest ← visit_from fuel h it last_;
        Ret (a :: rest)
  end.
Definition visited (h : heap) (l : SampleList) : outcome (list positive) :=
  visit_from (loop_fuel h) h (send_begin l) (send_end l).

(** The samples visited backwards from [end()], down to [begin()]. *)
Fixpoint visit_back (fuel : nat) (h : heap) (it first_ : SendIterator) : outcome (list positive) :=
  match fuel with
  | O => Fuel
  | S fuel =>
      if it_eq it first_ then Ret []
      else
        it ← it_prev h it;
        a ← deref (current_ it);
        rest ← visit_back fuel h it first_;
        Ret (a :: rest)
  end.
Definition visited_back (h : heap) (l : SampleList) : outcome (list positive) :=
  visit_back (loop_fuel h) h (send_end l) (send_begin l).

(** ** WriterDataSampleList *)

Definition writer_enqueue_tail (h : heap) (l : SampleList) (sample : positive)
    : outcome (heap * SampleList) :=
  match head_ l with
  | None => Ret (h, mkSL (Some sample) (Some sample) (size_ l + 1))
  | Some _ =>
      h ← store h (tail_ l) (set_next_writer (Some sample));
      h ← store h (Some sample) (set_prev_writer (tail_ l));
      Ret (h, mkSL (head_ l) (Some sample) (size_ l + 1))
  end.

Definition writer_dequeue_head (h : heap) (l : SampleList)
    : outcome (heap * SampleList * option positive) :=
  match head_ l with
  | None => Ret (h, l, None)
  | Some stale =>
      e ← load h (head_ l);
      let hd := next_writer_sample_ e in
      h ← (match hd with None => Ret h | Some _ => store h hd (set_prev_writer None) end);
      h ← store h (Some stale) (set_next_writer None);
      h ← store h (Some stale) (set_prev_writer None);
      Ret (h, mkSL hd (match hd with None => None | Some _ => tail_ l end) (size_ l - 1), Some stale)
  end.

Definition writer_dequeue (h : heap) (l : SampleList) (stale : positive)
    : outcome (heap * SampleList * bool) :=
  match head_ l with
  | None => Ret (h, l, false)
  | Some hd =>
      if decide (stale = hd) then
        '(h, l, s) ← writer_dequeue_head h l; Ret (h, l, bool_decide (s ≠ None))
      else
        e ← load h (Some hd);
        found ← find_from next_writer_sample_ (loop_fuel h) h (next_writer_sample_ e) stale;
        if negb found then Ret (h, l, false)
        else
          r ← load h (Some stale);
          let prev := previous_writer_sample_ r in
          let next := next_writer_sample_ r in
          '(h, hd) ← (match prev with
                      | Some _ => h ← store h prev (set_next_writer next); Ret (h, head_ l)
                      | None =>
                          h ← (match next with None => Ret h | Some _ => store h next (set_prev_writer None) end);
                          Ret (h, next)
                      end);
          '(h, tl) ← (match next with
                      | Some _ => h ← store h next (set_prev_writer prev); Ret (h, tail_ l)
                      | None => Ret (h, prev)
                      end);
          h ← store h (Some stale) (set_next_writer None);
          h ← store h (Some stale) (set_prev_writer None);
          Ret (h, mkSL hd tl (size_ l - 1), true)
  end.

(** ** InstanceDataSampleList *)

Definition inst_enqueue_tail (h : heap) (l : SampleList) (sample : positive)
    : outcome (heap * SampleList) :=
  h ← store h (Some sample) (set_next_instance None);
  match head_ l with
  | None => Ret (h, mkSL (Some sample) (Some sample) (size_ l + 1))
  | Some _ =>
      h ← store h (tail_ l) (set_next_instance (Some sample));
      Ret (h, mkSL (head_ l) (Some sample) (size_ l + 1))
  end.

Definition inst_dequeue_head (h : heap) (l : SampleList)
    : outcome (heap * SampleList * option positive) :=
  match head_ l with
  | None => Ret (h, l, None)
  | Some stale =>
      e ← load h (head_ l);
      let hd := next_instance_sample_ e in
      h ← store h (Some stale) (set_next_instance None);
      Ret (h, mkSL hd (match hd with None => None | Some _ => tail_ l end) (size_ l - 1), Some stale)
  end.

Fixpoint inst_dequeue_from (fuel : nat) (h : heap) (l : SampleList) (previous : positive)
    (item : option positive) (stale : positive) : outcome (heap * SampleList * bool) :=
  match fuel with
  | O => Fuel
  | S fuel =>
      match item with
      | None => Ret (h, l, false)
      | Some a =>
          e ← load h item;
          if decide (a = stale) then
            h ← store h (Some previous) (set_next_instance (next_instance_sample_ e));
            let tl := match next_instance_sample_ e with None => Some previous | Some _ => tail_ l end in
            h ← store h item (set_next_instance None);
            Ret (h, mkSL (head_ l) tl (size_ l - 1), true)
          else inst_dequeue_from fuel h l a (next_instance_sample_ e) stale
      end
  end.

Definition inst_dequeue (h : heap) (l : SampleList) (stale : positive)
    : outcome (heap * SampleList * bool) :=
  match head_ l with
  | None => Ret (h, l, false)
  | Some hd =>
      if decide (stale = hd) then
        '(h, l, s) ← inst_dequeue_head h l; Ret (h, l, bool_decide (s ≠ None))
      else
        e ← load h (Some hd);
        inst_dequeue_from (loop_fuel h) h l hd (next_instance_sample_ e) stale
  end.

(** ** Chains of links

    A view gives the (previous, next) links of an address.  [seg v p xs n]: the
    samples [xs] are linked in this order, the first one back to [p] and the
    last one on to [n]. *)

Abbreviation view := (positive -> option (option positive * option positive)).

Definition hd_or (xs : list positive) (n : option positive) : option positive :=
  match xs with [] => n | x :: _ => Some x end.
Definition lst_or (xs : list positive) (p : option positive) : option positive :=
  match last xs with Some x => Some x | None => p end.

Fixpoint seg (v : view) (p : option positive) (xs : list positive) (n : option positive) : Prop :=
  match xs with
  | [] => True
  | x :: xs' => v x = Some (p, hd_or xs' n) /\ seg v (Some x) xs' n
  end.

Lemma lst_or_cons x xs p : lst_or (x :: xs) p = lst_or xs (Some x).
Proof. unfold lst_or. rewrite last_cons. by destruct (last xs). Qed.
Lemma hd_or_app xs ys n : hd_or (xs ++ ys) n = hd_or xs (hd_or ys n).
Proof. by destruct xs. Qed.
Lemma hd_or_None xs : hd_or xs None = head xs.
Proof. by destruct xs. Qed.
Lemma lst_or_None xs : lst_or xs None = last xs.
Proof. unfold lst_or. by destruct (last xs). Qed.
Lemma lst_or_snoc xs x p : lst_or (xs ++ [x]) p = Some x.
Proof. unfold lst_or. by rewrite last_snoc. Qed.

Lemma seg_app v p xs ys n :
  seg v p (xs ++ ys) n <-> seg v p xs (hd_or ys n) /\ seg v (lst_or xs p) ys n.
Proof.
  revert p. induction xs as [|x xs IH]; intros p; cbn [app seg]; [tauto|].
  rewrite IH, hd_or_app, lst_or_cons. tauto.
Qed.

Lemma seg_frame (v v' : view) p xs n :
  (forall x, x ∈ xs -> v' x = v x) -> seg v p xs n -> seg v' p xs n.
Proof.
  revert p. induction xs as [|x xs IH]; intros p Hv; cbn [seg]; [done|].
  intros [Hx Hs]. split; [rewrite Hv by set_solver; done|]. apply IH; [|done]. set_solver.
Qed.

(** Redirecting the outgoing links of a chain. *)
Lemma seg_new_next (v v' : view) p xs n n' :
  NoDup xs ->
  (forall x, x ∈ xs -> last xs <> Some x -> v' x = v x) ->
  (forall t q, last xs = Some t -> v t = Some (q, n) -> v' t = Some (q, n')) ->
  seg v p xs n -> seg v' p xs n'.
Proof.
  revert p. induction xs as [|x xs IH]; intros p Hnd Hv Ht; cbn [seg]; [done|].
  intros [Hx Hs]. apply NoDup_cons in Hnd as [Hni Hnd].
  destruct xs as [|y xs].
  { split; [|done]. apply (Ht x); done. }
  split.
  - rewrite Hv; [done|set_solver|]. intros Hl. apply Hni. change (last (y :: xs) = Some x) in Hl.
    by apply last_Some_elem_of.
  - apply IH; [done| |by intros t q Hl; apply Ht|done].
    intros z Hz Hl. apply Hv; [set_solver|done].
Qed.

Lemma seg_new_prev (v v' : view) p p' xs n :
  NoDup xs ->
  (forall x, x ∈ xs -> head xs <> Some x -> v' x = v x) ->
  (forall t q, head xs = Some t -> v t = Some (p, q) -> v' t = Some (p', q)) ->
  seg v p xs n -> seg v' p' xs n.
Proof.
  destruct xs as [|x xs]; intros Hnd Hv Ht; cbn [seg]; [done|].
  intros [Hx Hs]. apply NoDup_cons in Hnd as [Hni _]. split; [by apply Ht|].
  apply (seg_frame v); [|done]. intros y Hy. apply Hv; [set_solver|]. cbn. naive_solver.
Qed.

Lemma seg_lookup v p xs n x : seg v p xs n -> x ∈ xs -> is_Some (v x).
Proof.
  revert p. induction xs as [|y xs IH]; intros p; cbn [seg]; [set_solver|].
  intros [Hy Hs] [->|Hx]%elem_of_cons; eauto.
Qed.

(** The samples of a list, in order. *)
Definition dl_rep (v : view) (l : SampleList) (xs : list positive) : Prop :=
  head_ l = head xs /\ tail_ l = last xs /\ size_ l = Z.of_nat (length xs) /\ NoDup xs
  /\ seg v None xs None.

Definition remove_elt (x : positive) (xs : list positive) : list positive :=
  filter (fun y => y <> x) xs.

Lemma remove_elt_notin x xs : x ∉ xs -> remove_elt x xs = xs.
Proof.
  unfold remove_elt. induction xs as [|y xs IH]; intros H; [done|].
  rewrite filter_cons_True by set_solver. f_equal. apply IH. set_solver.
Qed.

Lemma remove_elt_middle x a b : x ∉ a -> x ∉ b -> remove_elt x (a ++ x :: b) = a ++ b.
Proof.
  intros Ha Hb. unfold remove_elt. rewrite filter_app, filter_cons_False by tauto.
  fold (remove_elt x a) (remove_elt x b). by rewrite !remove_elt_notin.
Qed.

Lemma elem_of_remove_elt y x xs : y ∈ remove_elt x xs <-> y ∈ xs /\ y <> x.
Proof. unfold remove_elt. rewrite list_elem_of_filter. tauto. Qed.

Lemma remove_elt_app x xs ys : remove_elt x (xs ++ ys) = remove_elt x xs ++ remove_elt x ys.
Proof. apply filter_app. Qed.

Lemma NoDup_remove_elt x xs : NoDup xs -> NoDup (remove_elt x xs).
Proof. apply NoDup_filter. Qed.

Lemma length_remove_elt x xs :
  NoDup xs -> x ∈ xs -> Z.of_nat (length (remove_elt x xs)) = Z.of_nat (length xs) - 1.
Proof.
  intros Hnd Hx. apply list_elem_of_split in Hx as (a & b & ->).
  apply NoDup_app in Hnd as (Ha & Hab & Hb%NoDup_cons).
  rewrite remove_elt_middle; [|intros H; apply (Hab x H); set_solver|apply Hb].
  rewrite !length_app. cbn. lia.
Qed.

(** Appending a sample, concatenating two lists and unlinking a sample, as
    changes of the view. *)

Lemma dl_append (v v' : view) l xs p :
  dl_rep v l xs -> p ∉ xs ->
  (forall y, y ∈ xs -> last xs <> Some y -> v' y = v y) ->
  (forall t q, last xs = Some t -> v t = Some (q, None) -> v' t = Some (q, Some p)) ->
  v' p = Some (last xs, None) ->
  dl_rep v' (mkSL (head (xs ++ [p])) (Some p) (size_ l + 1)) (xs ++ [p]).
Proof.
  intros (Hh & Ht & Hsz & Hnd & Hs) Hp Hfr Hl Hv'.
  split; [done|]. split; [by rewrite last_snoc|]. split.
  { cbn. rewrite length_app. cbn. lia. }
  split.
  { apply NoDup_app. split; [done|]. split; [set_solver|]. apply NoDup_singleton. }
  apply seg_app. split.
  - apply (seg_new_next v _ _ _ None); auto.
  - cbn. by rewrite lst_or_None.
Qed.

Lemma dl_concat (v v' : view) l1 l2 xs ys :
  dl_rep v l1 xs -> dl_rep v l2 ys -> (forall y, y ∈ xs -> y ∉ ys) ->
  (forall y, y ∈ xs -> last xs <> Some y -> v' y = v y) ->
  (forall t q, last xs = Some t -> v t = Some (q, None) -> v' t = Some (q, head ys)) ->
  (forall y, y ∈ ys -> head ys <> Some y -> v' y = v y) ->
  (forall t q, head ys = Some t -> v t = Some (None, q) -> v' t = Some (last xs, q)) ->
  dl_rep v' (mkSL (head (xs ++ ys)) (last (xs ++ ys)) (size_ l1 + size_ l2)) (xs ++ ys).
Proof.
  intros (_ & _ & Hsz & Hnd & Hs) (_ & _ & Hsz' & Hnd' & Hs') Hd Hf1 Hf2 Hf3 Hf4.
  split; [done|]. split; [done|]. split.
  { cbn. rewrite length_app. lia. }
  split; [by apply NoDup_app|].
  apply seg_app. rewrite hd_or_None, lst_or_None. split.
  - apply (seg_new_next v _ _ _ None); auto.
  - apply (seg_new_prev v _ None); auto.
Qed.

Lemma dl_unlink (v v' : view) l a x b :
  dl_rep v l (a ++ x :: b) ->
  (forall y, y ∈ a -> last a <> Some y -> v' y = v y) ->
  (forall t q, last a = Some t -> v t = Some (q, Some x) -> v' t = Some (q, head b)) ->
  (forall y, y ∈ b -> head b <> Some y -> v' y = v y) ->
  (forall t q, head b = Some t -> v t = Some (Some x, q) -> v' t = Some (last a, q)) ->
  dl_rep v' (mkSL (head (a ++ b)) (last (a ++ b)) (size_ l - 1)) (a ++ b).
Proof.
  intros (_ & _ & Hsz & Hnd & Hs) Hf1 Hf2 Hf3 Hf4.
  apply NoDup_app in Hnd as (Ha & Hab & [Hxb Hb]%NoDup_cons).
  apply seg_app in Hs as [Hsa [Hx Hsb]].
  split; [done|]. split; [done|]. split.
  { cbn. rewrite Hsz, !length_app. cbn. lia. }
  split.
  { apply NoDup_app. split; [done|]. split; [|done]. intros y Hy Hy'. apply (Hab y Hy). set_solver. }
  apply seg_app. rewrite hd_or_None, lst_or_None. split.
  - apply (seg_new_next v _ _ _ (Some x)); auto.
  - apply (seg_new_prev v _ (Some x)); auto.
Qed.

(** The links of a sample of a list. *)
Lemma dl_links v l a x b :
  dl_rep v l (a ++ x :: b) -> v x = Some (last a, head b).
Proof.
  intros (_ & _ & _ & _ & Hs). apply seg_app in Hs as [_ [Hx _]].
  by rewrite lst_or_None, hd_or_None in Hx.
Qed.

Lemma dl_frame (v v' : view) l xs :
  (forall x, x ∈ xs -> v' x = v x) -> dl_rep v l xs -> dl_rep v' l xs.
Proof. intros Hv (H1 & H2 & H3 & H4 & H5). repeat (split; [done|]). by apply (seg_frame v). Qed.

(** ** Views of the heap *)

(** One kind of double link: its members and the sample without them. *)
Record linkage := mkLk {
  lk_next : DataSampleElement -> option positive; lk_prev : DataSampleElement -> option positive;
  lk_set_next : option positive -> DataSampleElement -> DataSampleElement;
  lk_set_prev : option positive -> DataSampleElement -> DataSampleElement;
  lk_erase : DataSampleElement -> DataSampleElement }.

Class LinkageLaws (L : linkage) : Prop := {
  lk_next_set_next q e : lk_next L (lk_set_next L q e) = q;
  lk_prev_set_next q e : lk_prev L (lk_set_next L q e) = lk_prev L e;
  lk_next_set_prev q e : lk_next L (lk_set_prev L q e) = lk_next L e;
  lk_prev_set_prev q e : lk_prev L (lk_set_prev L q e) = q;
  lk_erase_set_next q e : lk_erase L (lk_set_next L q e) = lk_erase L e;
  lk_erase_set_prev q e : lk_erase L (lk_set_prev L q e) = lk_erase L e }.

Definition erase_send (e : DataSampleElement) := set_prev_send None (set_next_send None e).
Definition erase_writer (e : DataSampleElement) := set_prev_writer None (set_next_writer None e).
Definition erase_inst (e : DataSampleElement) := set_next_instance None e.

Definition send_lk : linkage :=
  mkLk next_send_sample_ previous_send_sample_ set_next_send set_prev_send erase_send.
Definition writer_lk : linkage :=
  mkLk next_writer_sample_ previous_writer_sample_ set_next_writer set_prev_writer erase_writer.
#[export] Instance send_lk_laws : LinkageLaws send_lk.
Proof. done. Qed.
#[export] Instance writer_lk_laws : LinkageLaws writer_lk.
Proof. done. Qed.

Definition lview (L : linkage) (h : heap) : view :=
  fun x => (fun e => (lk_prev L e, lk_next L e)) <$> h !! x.

(** [h'] is [h] up to the links of one kind, of the samples [xs] only. *)
Definition upto (erase : DataSampleElement -> DataSampleElement) (xs : list positive) (h h' : heap) : Prop :=
  (forall x, x ∉ xs -> h' !! x = h !! x) /\ (forall x, erase <$> h' !! x = erase <$> h !! x).

Lemma upto_refl erase xs h : upto erase xs h h.
Proof. done. Qed.
Lemma upto_trans erase xs h1 h2 h3 : upto erase xs h1 h2 -> upto erase xs h2 h3 -> upto erase xs h1 h3.
Proof.
  intros [A1 A2] [B1 B2]. split.
  - intros x Hx. by rewrite B1, A1.
  - intros x. by rewrite B2, A2.
Qed.
Lemma upto_mono erase xs ys h h' : (forall x, x ∈ xs -> x ∈ ys) -> upto erase xs h h' -> upto erase ys h h'.
Proof. intros Hs [A1 A2]. split; [|done]. intros x Hx. apply A1. auto. Qed.
Lemma upto_alter erase xs h h' a f :
  upto erase xs h h' -> a ∈ xs -> (forall e, erase (f e) = erase e) -> upto erase xs h (alter f a h').
Proof.
  intros [A1 A2] Hin He. split.
  - intros x Hx. rewrite lookup_alter_ne by set_solver. auto.
  - intros x. rewrite <- A2. rewrite lookup_alter. case_decide as Hax; [|done]. subst.
    destruct (h' !! x); cbn; [|done]. by rewrite He.
Qed.

(** What does not depend on the erased links is kept. *)
Lemma upto_field {A} (f : DataSampleElement -> A) erase xs h h' x :
  (forall e, f (erase e) = f e) -> upto erase xs h h' -> f <$> h' !! x = f <$> h !! x.
Proof.
  intros Hf [_ H]. specialize (H x).
  destruct (h' !! x), (h !! x); cbn in *; try done. injection H as H. f_equal.
  by rewrite <- Hf, H, Hf.
Qed.
Lemma upto_dom erase xs h h' x : upto erase xs h h' -> is_Some (h' !! x) <-> is_Some (h !! x).
Proof.
  intros H. apply (upto_field (fun _ => tt)) with (x := x) in H; [|done].
  destruct (h' !! x), (h !! x); cbn in *; try done; split; intros []; done.
Qed.

(** Loads and stores through a pointer to a live sample. *)
Lemma store_alter h a f : is_Some (h !! a) -> store h (Some a) f = Ret (alter f a h).
Proof.
  intros [e He]. cbn. rewrite He. cbn. f_equal. apply map_eq. intros i. rewrite lookup_alter.
  case_decide as Hi; subst; [by rewrite lookup_insert_eq, He|by rewrite lookup_insert_ne].
Qed.
Lemma alter_dom (h : heap) f a b : is_Some (alter f a h !! b) <-> is_Some (h !! b).
Proof. rewrite lookup_alter. case_decide; subst; [by rewrite fmap_is_Some|done]. Qed.

Section views.
Context (L : linkage) `{!LinkageLaws L}.

Lemma lview_Some h x p n :
  lview L h x = Some (p, n) <-> exists e, h !! x = Some e /\ lk_prev L e = p /\ lk_next L e = n.
Proof. unfold lview. destruct (h !! x); cbn; naive_solver. Qed.
Lemma lview_dom h x : is_Some (lview L h x) <-> is_Some (h !! x).
Proof. unfold lview. by rewrite fmap_is_Some. Qed.
Lemma lview_set_next h a q x :
  lview L (alter (lk_set_next L q) a h) x
  = if decide (a = x) then (fun pn => (pn.1, q)) <$> lview L h x else lview L h x.
Proof.
  unfold lview. rewrite lookup_alter. case_decide; subst; [|done]. destruct (h !! x); cbn; [|done].
  by rewrite lk_next_set_next, lk_prev_set_next.
Qed.
Lemma lview_set_prev h a q x :
  lview L (alter (lk_set_prev L q) a h) x
  = if decide (a = x) then (fun pn => (q, pn.2)) <$> lview L h x else lview L h x.
Proof.
  unfold lview. rewrite lookup_alter. case_decide; subst; [|done]. destruct (h !! x); cbn; [|done].
  by rewrite lk_next_set_prev, lk_prev_set_prev.
Qed.
End views.

Lemma dl_rep_nil_inv v l xs : dl_rep v l xs -> head_ l = None -> xs = [].
Proof. intros (Hh & _) Hn. rewrite Hn in Hh. by destruct xs. Qed.
Lemma dl_rep_cons_inv v l xs a : dl_rep v l xs -> head_ l = Some a -> exists b, xs = a :: b.
Proof. intros (Hh & _) Ha. rewrite Ha in Hh. destruct xs; [done|]. injection Hh as ->. eauto. Qed.
Lemma head_app_some (a b : list positive) x : head a = Some x -> head (a ++ b) = Some x.
Proof. by destruct a. Qed.
Lemma alter_idem (f : DataSampleElement -> DataSampleElement) a (h : heap) :
  (forall e, f (f e) = f e) -> alter f a (alter f a h) = alter f a h.
Proof.
  intros Hf. apply map_eq. intros i. destruct (decide (a = i)) as [<-|Hi].
  - rewrite !lookup_alter_eq. destruct (h !! a); cbn; [|done]. by rewrite Hf.
  - by rewrite !lookup_alter_ne.
Qed.

Lemma alter_swap (f g : DataSampleElement -> DataSampleElement) a b (h : heap) :
  a <> b -> alter f a (alter g b h) = alter g b (alter f a h).
Proof.
  intros Hne. apply map_eq. intros i. rewrite !lookup_alter.
  repeat case_decide; simplify_eq; done.
Qed.

(** The neighbours of a sample that is not the first one. *)
Lemma split_not_head (hd x : positive) xs :
  head xs = Some hd -> x <> hd -> x ∈ xs ->
  exists a t b, xs = (a ++ [t]) ++ x :: b /\ head (a ++ [t]) = Some hd.
Proof.
  intros Hh Hne (a & b & ->)%list_elem_of_split.
  destruct a as [|t a _] using rev_ind; [cbn in Hh; congruence|].
  exists a, t, b. split; [done|]. by destruct a.
Qed.

Section surgery.
Context (L : linkage) `{!LinkageLaws L}.

Lemma dl_rep_loop h l xs : dl_rep (lview L h) l xs -> (length xs < loop_fuel h)%nat.
Proof.
  intros (_ & _ & _ & Hnd & Hs). unfold loop_fuel.
  assert (list_to_set (C := gset positive) xs ⊆ dom h) as Hsub.
  { intros x Hx. apply elem_of_list_to_set in Hx. apply elem_of_dom, (lview_dom L). by eapply seg_lookup. }
  apply subseteq_size in Hsub. rewrite size_list_to_set, size_dom in Hsub by done. lia.
Qed.

Lemma dl_rep_live h l xs x : dl_rep (lview L h) l xs -> x ∈ xs -> is_Some (h !! x).
Proof. intros (_ & _ & _ & _ & Hs) Hx. apply (lview_dom L). by eapply seg_lookup. Qed.

Lemma find_from_seg h p xs stale fuel :
  seg (lview L h) p xs None -> (length xs < fuel)%nat ->
  find_from (lk_next L) fuel h (head xs) stale = Ret (bool_decide (stale ∈ xs)).
Proof.
  revert p fuel. induction xs as [|x xs IH]; intros p fuel Hs Hf;
    (destruct fuel as [|fuel]; [cbn in Hf; lia|]); [done|].
  cbn [head find_from]. destruct (decide (x = stale)) as [Hx|Hx].
  { subst. f_equal. symmetry. apply bool_decide_eq_true_2. set_solver. }
  destruct Hs as [(e & He & _ & Hn)%lview_Some Hs]. cbn [load]. rewrite He. cbn [deref mbind outcome_bind].
  rewrite Hn, hd_or_None, (IH (Some x)); [|done|cbn in Hf; lia].
  f_equal. apply bool_decide_ext. set_solver.
Qed.

(** The search of [dequeue] for a sample that is not the first one. *)
Lemma dl_find h l hd b x :
  dl_rep (lview L h) l (hd :: b) ->
  exists e, h !! hd = Some e
    /\ find_from (lk_next L) (loop_fuel h) h (lk_next L e) x = Ret (bool_decide (x ∈ b)).
Proof.
  intros Hrep. pose proof (dl_rep_loop _ _ _ Hrep) as Hf. cbn in Hf.
  pose proof (dl_links _ _ [] hd b Hrep) as (e & He & _ & Hn)%lview_Some.
  exists e. split; [done|]. rewrite Hn.
  destruct Hrep as (_ & _ & _ & _ & [_ Hs]). apply (find_from_seg _ (Some hd)); [done|lia].
Qed.

(** The heap after appending [p] to a list that ends in [t]. *)
Definition appended (t p : positive) (h : heap) : heap :=
  alter (lk_set_next L (Some p)) t (alter (lk_set_prev L (Some t)) p h).

Lemma appended_spec h l ys t p :
  dl_rep (lview L h) l (ys ++ [t]) -> p ∉ ys ++ [t] -> lview L h p = Some (None, None) ->
  dl_rep (lview L (appended t p h)) (mkSL (head_ l) (Some p) (size_ l + 1)) ((ys ++ [t]) ++ [p])
  /\ upto (lk_erase L) (p :: ys ++ [t]) h (appended t p h).
Proof.
  intros Hrep Hp Hvp. pose proof Hrep as (Hh & _). unfold appended. split.
  - rewrite Hh. replace (head (ys ++ [t])) with (head ((ys ++ [t]) ++ [p])) by (by destruct ys).
    apply (dl_append (lview L h)); [done|done|..].
    + intros y Hy Hly. rewrite last_snoc in Hly. rewrite lview_set_next, lview_set_prev by done.
      rewrite !decide_False by set_solver. done.
    + intros t' q. rewrite last_snoc. intros [= <-] Hq. rewrite lview_set_next, lview_set_prev by done.
      rewrite decide_True, decide_False by set_solver. by rewrite Hq.
    + rewrite last_snoc, lview_set_next, lview_set_prev by done.
      rewrite decide_False, decide_True by set_solver. by rewrite Hvp.
  - apply upto_alter; [|set_solver|apply lk_erase_set_next].
    apply upto_alter; [apply upto_refl|set_solver|apply lk_erase_set_prev].
Qed.

(** The heap after unlinking [x], which lies between [t] and [n]. *)
Definition unlinked (t x : positive) (n : option positive) (h : heap) : heap :=
  let h := alter (lk_set_next L n) t h in
  let h := match n with Some y => alter (lk_set_prev L (Some t)) y h | None => h end in
  alter (lk_set_prev L None) x (alter (lk_set_next L None) x h).

Lemma unlinked_view h t x n y :
  x <> t -> n <> Some x -> n <> Some t ->
  lview L (unlinked t x n h) y
  = if decide (x = y) then (fun _ => (None, None)) <$> lview L h y
    else if decide (t = y) then (fun pn => (pn.1, n)) <$> lview L h y
    else if decide (n = Some y) then (fun pn => (Some t, pn.2)) <$> lview L h y
    else lview L h y.
Proof.
  intros Hxt Hnx Hnt. unfold unlinked.
  rewrite lview_set_prev, lview_set_next by done.
  destruct n as [z|]; rewrite ?lview_set_prev, ?lview_set_next by done;
    repeat case_decide; simplify_eq; try done; by destruct (lview L h y).
Qed.

Lemma unlinked_spec h l a t x b :
  dl_rep (lview L h) l ((a ++ [t]) ++ x :: b) ->
  let h' := unlinked t x (head b) h in
  dl_rep (lview L h')
    (mkSL (head_ l) (match head b with Some _ => tail_ l | None => Some t end) (size_ l - 1)) ((a ++ [t]) ++ b)
  /\ lview L h' x = Some (None, None) /\ upto (lk_erase L) ((a ++ [t]) ++ x :: b) h h'.
Proof.
  intros Hrep h'. pose proof Hrep as (Hh & Ht & _ & Hnd & _).
  apply NoDup_app in Hnd as (Hna & Hd & [Hxb Hnb]%NoDup_cons).
  assert (x <> t) as Hxt by (intros ->; apply (Hd t); set_solver).
  assert (head b <> Some x) as Hbx by (destruct b; set_solver).
  assert (head b <> Some t) as Hbt.
  { intros Hb. apply (Hd t); [set_solver|]. destruct b; [done|]. cbn in Hb. set_solver. }
  assert (forall y, lview L h' y = _) as Hv by (intros y; by apply unlinked_view). split; [|split].
  - rewrite Hh, Ht.

    replace (head ((a ++ [t]) ++ x :: b)) with (head ((a ++ [t]) ++ b)) by (by destruct a).
    replace (match head b with Some _ => last ((a ++ [t]) ++ x :: b) | None => Some t end)
      with (last ((a ++ [t]) ++ b))
      by (destruct b as [|y b']; cbn [head]; [by rewrite app_nil_r, last_snoc|];
          rewrite !last_app, !last_cons; by destruct (last b')).
    apply (dl_unlink (lview L h) _ l (a ++ [t]) x b); [done|..].
    + intros y Hy Hly. rewrite last_snoc in Hly. rewrite Hv, !decide_False; [done|..].
      * intros Hb. apply (Hd y Hy). destruct b; [done|]. cbn in Hb. set_solver.
      * congruence.
      * intros ->. apply (Hd y); set_solver.
    + intros t' q. rewrite last_snoc. intros [= <-] Hq.
      rewrite Hv, decide_False, decide_True by done. by rewrite Hq.
    + intros y Hy Hhy. rewrite Hv, !decide_False; [done|done| |].
      * intros ->. apply (Hd y); set_solver.
      * intros ->. done.
    + intros y q Hhy Hq. rewrite last_snoc. rewrite Hv, decide_False, decide_False, decide_True by congruence.
      by rewrite Hq.
  - rewrite Hv, decide_True by done. by rewrite (dl_links _ _ _ _ _ Hrep).
  - unfold h', unlinked.
    apply upto_alter; [|set_solver|apply lk_erase_set_prev].
    apply upto_alter; [|set_solver|apply lk_erase_set_next].
    destruct b as [|y b]; cbn [head].
    + apply upto_alter; [apply upto_refl|set_solver|apply lk_erase_set_next].
    + apply upto_alter; [|set_solver|apply lk_erase_set_prev].
      apply upto_alter; [apply upto_refl|set_solver|apply lk_erase_set_next].
Qed.
(** The heap after removing the first sample [x], which is followed by [n]. *)
Definition beheaded (x : positive) (n : option positive) (h : heap) : heap :=
  let h := match n with Some y => alter (lk_set_prev L None) y h | None => h end in
  alter (lk_set_prev L None) x (alter (lk_set_next L None) x h).

Lemma beheaded_spec h l x b :
  dl_rep (lview L h) l (x :: b) ->
  let h' := beheaded x (head b) h in
  dl_rep (lview L h') (mkSL (head b) (match head b with None => None | Some _ => tail_ l end) (size_ l - 1)) b
  /\ lview L h' x = Some (None, None) /\ upto (lk_erase L) (x :: b) h h'.
Proof.
  intros Hrep h'. pose proof Hrep as (_ & Ht & _ & [Hxb _]%NoDup_cons & _).
  assert (forall y, lview L h' y
    = if decide (x = y) then (fun _ => (None, None)) <$> lview L h y
      else if decide (head b = Some y) then (fun pn => (None, pn.2)) <$> lview L h y else lview L h y) as Hv.
  { intros y. unfold h', beheaded. rewrite lview_set_prev, lview_set_next by done.
    destruct (head b) as [z|]; rewrite ?lview_set_prev by done;
      repeat case_decide; simplify_eq; try done; by destruct (lview L h y). }
  split; [|split].
  - replace (match head b with None => None | Some _ => tail_ l end) with (last ([] ++ b))
      by (rewrite Ht; destruct b as [|y b']; [done|]; cbn [head app]; rewrite !last_cons; by destruct (last b')).
    apply (dl_unlink (lview L h) _ l [] x b); [done|set_solver|done|..].
    + intros y Hy Hhy. rewrite Hv, !decide_False; [done|done|]. intros ->. done.
    + intros y q Hhy Hq. rewrite Hv, decide_False, decide_True; [by rewrite Hq|done|].
      intros ->. destruct b; set_solver.
  - rewrite Hv, decide_True by done. by rewrite (dl_links _ _ [] _ _ Hrep).
  - unfold h', beheaded.
    apply upto_alter; [|set_solver|apply lk_erase_set_prev].
    apply upto_alter; [|set_solver|apply lk_erase_set_next].
    destruct b as [|y b]; cbn [head]; [apply upto_refl|].
    apply upto_alter; [apply upto_refl|set_solver|apply lk_erase_set_prev].
Qed.

(** The heap after linking a list that starts with [y] to one that ends in [t]. *)
Definition joined (t y : positive) (h : heap) : heap :=
  alter (lk_set_prev L (Some t)) y (alter (lk_set_next L (Some y)) t h).

Lemma joined_spec h l1 l2 a t y b :
  dl_rep (lview L h) l1 (a ++ [t]) -> dl_rep (lview L h) l2 (y :: b) ->
  (forall z, z ∈ a ++ [t] -> z ∉ y :: b) ->
  dl_rep (lview L (joined t y h)) (mkSL (head_ l1) (tail_ l2) (size_ l1 + size_ l2)) ((a ++ [t]) ++ y :: b)
  /\ upto (lk_erase L) ((a ++ [t]) ++ y :: b) h (joined t y h).
Proof.
  intros H1 H2 Hd. pose proof H1 as (Hh & _ & _ & Hnd & _). pose proof H2 as (_ & Ht & _).
  assert (forall z, lview L (joined t y h) z
    = if decide (y = z) then (fun pn => (Some t, pn.2)) <$> lview L h z
      else if decide (t = z) then (fun pn => (pn.1, Some y)) <$> lview L h z else lview L h z) as Hv.
  { intros z. unfold joined. rewrite lview_set_prev, lview_set_next by done.
    repeat case_decide; simplify_eq; try done. exfalso. apply (Hd z); set_solver. }
  split.
  - rewrite Hh, Ht.
    replace (head (a ++ [t])) with (head ((a ++ [t]) ++ y :: b)) by (by destruct a).
    replace (last (y :: b)) with (last ((a ++ [t]) ++ y :: b))
      by (rewrite last_app; destruct (last (y :: b)) eqn:E; [done|]; by rewrite last_cons in E; destruct (last b)).
    apply (dl_concat (lview L h)); [done|done|done|..].
    + intros z Hz Hl. rewrite last_snoc in Hl. rewrite Hv, !decide_False; [done|congruence|].
      intros ->. apply (Hd z); set_solver.
    + intros t' q. rewrite last_snoc. intros [= <-] Hq. rewrite Hv, decide_False, decide_True; [by rewrite Hq|done|].
      intros ->. apply (Hd t); set_solver.
    + intros z Hz Hhz. cbn in Hhz. rewrite Hv, !decide_False; [done| |congruence].
      intros ->. apply (Hd z); set_solver.
    + intros z q [= <-] Hq. rewrite last_snoc, Hv, decide_True by done. by rewrite Hq.
  - unfold joined. apply upto_alter; [|set_solver|apply lk_erase_set_prev].
    apply upto_alter; [apply upto_refl|set_solver|apply lk_erase_set_next].
Qed.
End surgery.

(** ** The operations on well-formed lists *)

Definition send_rep (h : heap) (l : SampleList) (xs : list positive) : Prop := dl_rep (lview send_lk h) l xs.
Definition writer_rep (h : heap) (l : SampleList) (xs : list positive) : Prop := dl_rep (lview writer_lk h) l xs.

(** The links of a sample that is on no list of the kind. *)
Definition send_free (h : heap) (x : positive) : Prop := lview send_lk h x = Some (None, None).
Definition writer_free (h : heap) (x : positive) : Prop := lview writer_lk h x = Some (None, None).

(** Runs the stores of an operation; the addresses are live by [H]. *)
Ltac run_stores H :=
  repeat (first [ rewrite store_alter by (rewrite ?alter_dom; apply H; set_solver)
                | progress cbn [mbind outcome_bind] ]).

Lemma load_live h x : is_Some (h !! x) -> exists e, load h (Some x) = Ret e /\ h !! x = Some e.
Proof. intros [e He]. exists e. cbn. by rewrite He. Qed.

Lemma send_enqueue_tail_spec h l xs p :
  send_rep h l xs -> p ∉ xs -> send_free h p ->
  exists h' l', send_enqueue_tail h l p = Ret (h', l')
    /\ send_rep h' l' (xs ++ [p]) /\ upto erase_send (p :: xs) h h'.
Proof.
  intros Hrep Hp Hvp. pose proof Hrep as (Hh & Ht & _). unfold send_enqueue_tail.
  assert (forall z, z ∈ p :: xs -> is_Some (h !! z)) as Hlive.
  { intros z [->|Hz]%elem_of_cons; [apply (lview_dom send_lk); by rewrite Hvp|by eapply dl_rep_live]. }
  destruct xs as [|t ys _] using rev_ind.
  - rewrite Hh. eexists _, _. split; [reflexivity|]. split; [|apply upto_refl].
    apply (dl_append (lview send_lk h) (lview send_lk h) l [] p); done.
  - rewrite last_snoc in Ht. assert (exists y, head_ l = Some y) as [y Hy] by (rewrite Hh; destruct ys; eauto).
    rewrite Hy, Ht. run_stores Hlive.
    destruct (appended_spec send_lk h l ys t p Hrep Hp Hvp) as [H1 H2]. rewrite Hy in H1.
    eexists _, _. split; [reflexivity|exact (conj H1 H2)].
Qed.

Lemma writer_enqueue_tail_spec h l xs p :
  writer_rep h l xs -> p ∉ xs -> writer_free h p ->
  exists h' l', writer_enqueue_tail h l p = Ret (h', l')
    /\ writer_rep h' l' (xs ++ [p]) /\ upto erase_writer (p :: xs) h h'.
Proof.
  intros Hrep Hp Hvp. pose proof Hrep as (Hh & Ht & _). unfold writer_enqueue_tail.
  assert (forall z, z ∈ p :: xs -> is_Some (h !! z)) as Hlive.
  { intros z [->|Hz]%elem_of_cons; [apply (lview_dom writer_lk); by rewrite Hvp|by eapply dl_rep_live]. }
  destruct xs as [|t ys _] using rev_ind.
  - rewrite Hh. eexists _, _. split; [reflexivity|]. split; [|apply upto_refl].
    apply (dl_append (lview writer_lk h) (lview writer_lk h) l [] p); done.
  - rewrite last_snoc in Ht. assert (exists y, head_ l = Some y) as [y Hy] by (rewrite Hh; destruct ys; eauto).
    rewrite Hy, Ht. run_stores Hlive. rewrite alter_swap by set_solver.
    destruct (appended_spec writer_lk h l ys t p Hrep Hp Hvp) as [H1 H2]. rewrite Hy in H1.
    eexists _, _. split; [reflexivity|exact (conj H1 H2)].
Qed.

Lemma send_dequeue_head_spec h l x b :
  send_rep h l (x :: b) ->
  exists h' l', send_dequeue_head h l = Ret (h', l', Some x)
    /\ send_rep h' l' b /\ send_free h' x /\ upto erase_send (x :: b) h h'.
Proof.
  intros Hrep. pose proof Hrep as (Hh & _). cbn in Hh.
  assert (forall z, z ∈ x :: b -> is_Some (h !! z)) as Hlive by (intros; by eapply dl_rep_live).
  pose proof (dl_links _ _ [] x b Hrep) as (ex & Hex & _ & Hxn)%lview_Some. cbn in Hxn.
  pose proof (beheaded_spec send_lk h l x b Hrep) as (H1 & H2 & H3).
  unfold send_dequeue_head. rewrite Hh. cbn [load]. rewrite Hex. cbn [deref mbind outcome_bind]. rewrite Hxn.
  destruct b as [|y b]; cbn [head] in *; run_stores Hlive;
    (eexists _, _; split; [reflexivity|exact (conj H1 (conj H2 H3))]).
Qed.

Lemma writer_dequeue_head_spec h l x b :
  writer_rep h l (x :: b) ->
  exists h' l', writer_dequeue_head h l = Ret (h', l', Some x)
    /\ writer_rep h' l' b /\ writer_free h' x /\ upto erase_writer (x :: b) h h'.
Proof.
  intros Hrep. pose proof Hrep as (Hh & _). cbn in Hh.
  assert (forall z, z ∈ x :: b -> is_Some (h !! z)) as Hlive by (intros; by eapply dl_rep_live).
  pose proof (dl_links _ _ [] x b Hrep) as (ex & Hex & _ & Hxn)%lview_Some. cbn in Hxn.
  pose proof (beheaded_spec writer_lk h l x b Hrep) as (H1 & H2 & H3).
  unfold writer_dequeue_head. rewrite Hh. cbn [load]. rewrite Hex. cbn [deref mbind outcome_bind]. rewrite Hxn.
  destruct b as [|y b]; cbn [head] in *; run_stores Hlive;
    (eexists _, _; split; [reflexivity|exact (conj H1 (conj H2 H3))]).
Qed.

Lemma send_dequeue_notin h l xs x :
  send_rep h l xs -> x ∉ xs -> send_dequeue h l x = Ret (h, l, false).
Proof.
  intros Hrep Hx. unfold send_dequeue. destruct (head_ l) as [a|] eqn:Ha; [|done].
  destruct (dl_rep_cons_inv _ _ _ _ Hrep Ha) as [b ->]. rewrite decide_False by set_solver.
  destruct (dl_find send_lk h l a b x Hrep) as (e & He & Hf). cbn [load]. rewrite He.
  cbn [deref mbind outcome_bind]. cbn [send_lk lk_next] in Hf. rewrite Hf. cbn [mbind outcome_bind].
  by rewrite bool_decide_eq_false_2 by set_solver.
Qed.

Lemma writer_dequeue_notin h l xs x :
  writer_rep h l xs -> x ∉ xs -> writer_dequeue h l x = Ret (h, l, false).
Proof.
  intros Hrep Hx. unfold writer_dequeue. destruct (head_ l) as [a|] eqn:Ha; [|done].
  destruct (dl_rep_cons_inv _ _ _ _ Hrep Ha) as [b ->]. rewrite decide_False by set_solver.
  destruct (dl_find writer_lk h l a b x Hrep) as (e & He & Hf). cbn [load]. rewrite He.
  cbn [deref mbind outcome_bind]. cbn [writer_lk lk_next] in Hf. rewrite Hf. cbn [mbind outcome_bind].
  by rewrite bool_decide_eq_false_2 by set_solver.
Qed.

Lemma remove_elt_split x a b : NoDup (a ++ x :: b) -> remove_elt x (a ++ x :: b) = a ++ b.
Proof.
  intros (_ & Hd & [Hb _]%NoDup_cons)%NoDup_app. apply remove_elt_middle; [|done].
  intros Ha. apply (Hd x Ha). set_solver.
Qed.

Lemma send_dequeue_spec h l xs x :
  send_rep h l xs -> x ∈ xs ->
  exists h' l', send_dequeue h l x = Ret (h', l', true)
    /\ send_rep h' l' (remove_elt x xs) /\ send_free h' x /\ upto erase_send xs h h'.
Proof.
  intros Hrep Hx. pose proof Hrep as (Hh & Ht & _ & Hnd & _).
  assert (forall z, z ∈ xs -> is_Some (h !! z)) as Hlive by (intros; by eapply dl_rep_live).
  unfold send_dequeue. destruct (head_ l) as [hd|] eqn:Hhd; [|by destruct xs; set_solver].
  destruct (dl_rep_cons_inv _ _ _ _ Hrep Hhd) as [b0 ->].
  destruct (decide (x = hd)) as [->|Hne].
  { destruct (send_dequeue_head_spec _ _ _ _ Hrep) as (h' & l' & -> & H).
    exists h', l'. by rewrite (remove_elt_split hd [] b0 Hnd : remove_elt hd (hd :: b0) = b0). }
  destruct (dl_find send_lk h l hd b0 x Hrep) as (e & He & Hf). cbn [load]. rewrite He.
  cbn [deref mbind outcome_bind]. cbn [send_lk lk_next] in Hf. rewrite Hf. cbn [mbind outcome_bind].
  rewrite bool_decide_eq_true_2 by set_solver. cbn [negb].
  destruct (split_not_head hd x (hd :: b0)) as (a & t & b & Heq & Hha); [done..|].
  rewrite Heq in *. rewrite remove_elt_split by done.
  pose proof (dl_links _ _ _ x b Hrep) as (ex & Hex & Hxp & Hxn)%lview_Some.
  rewrite last_snoc in Hxp. cbn in Hxp, Hxn. rewrite Hex. cbn [deref mbind outcome_bind]. rewrite Hxp, Hxn.
  pose proof (unlinked_spec send_lk h l a t x b Hrep) as (H1 & H2 & H3). rewrite Hhd in H1.
  destruct b as [|y b]; cbn [head] in *; run_stores Hlive;
    [rewrite (alter_idem (set_next_send None)) by done|];
    (eexists _, _; split; [reflexivity|exact (conj H1 (conj H2 H3))]).
Qed.

Lemma writer_dequeue_spec h l xs x :
  writer_rep h l xs -> x ∈ xs ->
  exists h' l', writer_dequeue h l x = Ret (h', l', true)
    /\ writer_rep h' l' (remove_elt x xs) /\ writer_free h' x /\ upto erase_writer xs h h'.
Proof.
  intros Hrep Hx. pose proof Hrep as (Hh & Ht & _ & Hnd & _).
  assert (forall z, z ∈ xs -> is_Some (h !! z)) as Hlive by (intros; by eapply dl_rep_live).
  unfold writer_dequeue. destruct (head_ l) as [hd|] eqn:Hhd; [|by destruct xs; set_solver].
  destruct (dl_rep_cons_inv _ _ _ _ Hrep Hhd) as [b0 ->].
  destruct (decide (x = hd)) as [->|Hne].
  { destruct (writer_dequeue_head_spec _ _ _ _ Hrep) as (h' & l' & -> & H).
    exists h', l'. by rewrite (remove_elt_split hd [] b0 Hnd : remove_elt hd (hd :: b0) = b0). }
  destruct (dl_find writer_lk h l hd b0 x Hrep) as (e & He & Hf). cbn [load]. rewrite He.
  cbn [deref mbind outcome_bind]. cbn [writer_lk lk_next] in Hf. rewrite Hf. cbn [mbind outcome_bind].
  rewrite bool_decide_eq_true_2 by set_solver. cbn [negb].
  destruct (split_not_head hd x (hd :: b0)) as (a & t & b & Heq & Hha); [done..|].
  rewrite Heq in *. rewrite remove_elt_split by done.
  pose proof (dl_links _ _ _ x b Hrep) as (ex & Hex & Hxp & Hxn)%lview_Some.
  rewrite last_snoc in Hxp. cbn in Hxp, Hxn. rewrite Hex. cbn [deref mbind outcome_bind]. rewrite Hxp, Hxn.
  pose proof (unlinked_spec writer_lk h l a t x b Hrep) as (H1 & H2 & H3). rewrite Hhd in H1.
  destruct b as [|y b]; cbn [head] in *; run_stores Hlive;
    (eexists _, _; split; [reflexivity|exact (conj H1 (conj H2 H3))]).
Qed.

Lemma send_enqueue_list_spec h l1 l2 xs ys :
  send_rep h l1 xs -> send_rep h l2 ys -> (forall z, z ∈ xs -> z ∉ ys) -> xs = [] \/ ys <> [] ->
  exists h' l', send_enqueue_list h l1 l2 = Ret (h', l')
    /\ send_rep h' l' (xs ++ ys) /\ upto erase_send (xs ++ ys) h h'.
Proof.
  intros H1 H2 Hd Hne. pose proof H1 as (Hh1 & Ht1 & _). pose proof H2 as (Hh2 & _). unfold send_enqueue_list.
  assert (forall z, z ∈ xs ++ ys -> is_Some (h !! z)) as Hlive.
  { intros z [Hz|Hz]%elem_of_app; [by apply (dl_rep_live _ _ _ _ z H1)|by apply (dl_rep_live _ _ _ _ z H2)]. }
  destruct xs as [|t a _] using rev_ind.
  { rewrite Hh1. eexists _, _. split; [reflexivity|]. split; [done|apply upto_refl]. }
  destruct ys as [|y b]; [destruct Hne as [Hne|]; [by destruct a|done]|].
  rewrite last_snoc in Ht1. assert (exists z, head_ l1 = Some z) as [z Hz] by (rewrite Hh1; destruct a; eauto).
  rewrite Hz, Ht1, Hh2. cbn [head]. run_stores Hlive.
  destruct (joined_spec send_lk h l1 l2 a t y b H1 H2 Hd) as [H3 H4]. rewrite Hz in H3.
  eexists _, _. split; [reflexivity|exact (conj H3 H4)].
Qed.

(** Appending an empty list to a non-empty one dereferences its null head. *)
Lemma send_enqueue_list_empty h l1 xs l2 :
  send_rep h l1 xs -> xs <> [] -> head_ l2 = None -> send_enqueue_list h l1 l2 = UB.
Proof.
  intros H1 Hne H2. pose proof H1 as (Hh1 & Ht1 & _). unfold send_enqueue_list. rewrite H2.
  destruct xs as [|t a _] using rev_ind; [done|].
  rewrite last_snoc in Ht1. assert (exists z, head_ l1 = Some z) as [z ->] by (rewrite Hh1; destruct a; eauto).
  rewrite Ht1, store_alter; [done|]. apply (dl_rep_live _ _ _ _ t H1). set_solver.
Qed.

Lemma first_of_chain_spec h l a x b fuel :
  send_rep h l (a ++ x :: b) -> (length a < fuel)%nat ->
  exists y, head (a ++ x :: b) = Some y /\ first_of_chain fuel h x = Ret y.
Proof.
  revert x b fuel. induction a as [|t a IH] using rev_ind; intros x b fuel Hrep Hf;
    (destruct fuel as [|fuel]; [lia|]); cbn [first_of_chain load].
  - pose proof (dl_links _ _ [] x b Hrep) as (e & He & Hp & _)%lview_Some. cbn in Hp.
    rewrite He. cbn [deref mbind outcome_bind]. rewrite Hp. exists x. done.
  - pose proof (dl_links _ _ _ x b Hrep) as (e & He & Hp & _)%lview_Some. cbn in Hp. rewrite last_snoc in Hp.
    rewrite He. cbn [deref mbind outcome_bind]. rewrite Hp.
    rewrite <- app_assoc in *. apply IH; [done|]. rewrite length_app in Hf. cbn in Hf. lia.
Qed.

(** The list that contains an element is found among disjoint lists. *)
Lemma list_with_head_spec (ls : list SampleList) (xss : list (list positive)) i xs y :
  Forall2 (fun l xs => head_ l = head xs) ls xss -> NoDup (concat xss) ->
  xss !! i = Some xs -> head xs = Some y -> list_with_head y ls = Some i.
Proof.
  intros H. revert i. induction H as [|l zs ls xss Hl _ IH]; intros i Hnd Hi Hy; [done|]. cbn in Hnd.
  apply NoDup_app in Hnd as (_ & Hd & Hnd). destruct i as [|i]; cbn in Hi |- *.
  - injection Hi as ->. rewrite decide_True; [done|congruence].
  - rewrite decide_False, (IH i); [done|done|done|done|]. rewrite Hl. intros Hz. apply (Hd y).
    + destruct zs; [done|]. cbn in Hz. set_solver.
    + apply list_elem_of_In, in_concat. exists xs. split; apply list_elem_of_In.
      * by eapply list_elem_of_lookup_2.
      * destruct xs; [done|]. cbn in Hy. set_solver.
Qed.

Lemma send_list_containing_spec h ls xss i xs x :
  Forall2 (send_rep h) ls xss -> NoDup (concat xss) -> xss !! i = Some xs -> x ∈ xs ->
  send_list_containing_element h x ls = Ret (Some i).
Proof.
  intros HF Hnd Hi Hx. destruct (Forall2_lookup_r _ _ _ _ _ HF Hi) as (l & _ & Hrep).
  pose proof (dl_rep_loop _ _ _ _ Hrep) as Hf.
  apply list_elem_of_split in Hx as (a & b & ->). rewrite length_app in Hf. cbn in Hf.
  destruct (first_of_chain_spec h l a x b (loop_fuel h) Hrep) as (y & Hy & He); [lia|].
  unfold send_list_containing_element. rewrite He. cbn [mbind outcome_bind]. f_equal.
  apply (list_with_head_spec ls xss i (a ++ x :: b)); [|done|done|done].
  eapply Forall2_impl; [exact HF|]. intros l' zs (Hh & _). exact Hh.
Qed.

(** *** Iteration *)

Lemma it_eq_spec a b c d : it_eq (mkIt a b c) (mkIt a b d) = bool_decide (c = d).
Proof. unfold it_eq. cbn. by rewrite !bool_decide_true by done. Qed.

Lemma visit_from_spec h l p xs fuel :
  seg (lview send_lk h) p xs None -> (length xs < fuel)%nat ->
  visit_from fuel h (mkIt (head_ l) (tail_ l) (head xs)) (send_end l) = Ret xs.
Proof.
  revert p fuel. induction xs as [|x xs IH]; intros p fuel Hs Hf; (destruct fuel as [|fuel]; [cbn in Hf; lia|]);
    cbn [visit_from]; unfold send_end; rewrite it_eq_spec; cbn [head].
  { by rewrite bool_decide_true. }
  rewrite bool_decide_false by done. destruct Hs as [(e & He & _ & Hn)%lview_Some Hs]. cbn in Hn.
  cbn [current_ deref mbind outcome_bind it_next load it_head_ it_tail_]. rewrite He. cbn [deref mbind outcome_bind].
  rewrite Hn, hd_or_None. fold (send_end l). rewrite (IH (Some x) fuel); [done|done|cbn in Hf; lia].
Qed.

Lemma visit_back_spec h l xs a b fuel :
  send_rep h l xs -> xs = a ++ b -> (length a < fuel)%nat ->
  visit_back fuel h (mkIt (head_ l) (tail_ l) (head b)) (send_begin l) = Ret (reverse a).
Proof.
  intros Hrep. pose proof Hrep as (Hh & Ht & _ & Hnd & _).
  revert b fuel. induction a as [|x a IH] using rev_ind; intros b fuel -> Hf; (destruct fuel as [|fuel]; [lia|]);
    cbn [visit_back]; unfold send_begin; rewrite it_eq_spec, Hh.
  { by rewrite bool_decide_true. }
  rewrite bool_decide_false.
  2:{ intros Hb. destruct b as [|y b]; [by destruct a|]. apply NoDup_app in Hnd as (_ & Hd & _).
      apply (Hd y); [|set_solver]. destruct a; cbn in Hb; set_solver. }
  assert (it_prev h (mkIt (head ((a ++ [x]) ++ b)) (tail_ l) (head b))
          = Ret (mkIt (head ((a ++ [x]) ++ b)) (tail_ l) (Some x))) as ->.
  { destruct b as [|y b]; cbn [it_prev current_ head it_head_ it_tail_ load].
    - rewrite Ht, app_nil_r, last_snoc. done.
    - pose proof (dl_links _ _ _ y b Hrep) as (e & He & Hp & _)%lview_Some. cbn in Hp. rewrite last_snoc in Hp.
      rewrite He. cbn [deref mbind outcome_bind]. by rewrite Hp. }
  cbn [deref mbind outcome_bind current_]. rewrite <- Hh. fold (send_begin l).
  rewrite (IH (x :: b)); [|by rewrite <- app_assoc|rewrite length_app in Hf; cbn in Hf; lia].
  cbn [mbind outcome_bind]. by rewrite reverse_snoc.
Qed.

(** ** InstanceDataSampleList: single links *)

Definition iview (h : heap) (x : positive) : option (option positive) := next_instance_sample_ <$> h !! x.

Fixpoint iseg (h : heap) (xs : list positive) (n : option positive) : Prop :=
  match xs with
  | [] => True
  | x :: xs' => iview h x = Some (hd_or xs' n) /\ iseg h xs' n
  end.

Definition inst_rep (h : heap) (l : SampleList) (xs : list positive) : Prop :=
  head_ l = head xs /\ tail_ l = last xs /\ size_ l = Z.of_nat (length xs) /\ NoDup xs /\ iseg h xs None.

Lemma iview_Some h x n : iview h x = Some n <-> exists e, h !! x = Some e /\ next_instance_sample_ e = n.
Proof. unfold iview. destruct (h !! x); cbn; naive_solver. Qed.

Lemma iview_set h a q x :
  iview (alter (set_next_instance q) a h) x
  = if decide (a = x) then (fun _ => q) <$> iview h x else iview h x.
Proof.
  unfold iview. rewrite lookup_alter. case_decide; subst; [|done]. by destruct (h !! x).
Qed.

Lemma iseg_app h xs ys n : iseg h (xs ++ ys) n <-> iseg h xs (hd_or ys n) /\ iseg h ys n.
Proof. induction xs as [|x xs IH]; cbn [app iseg]; [tauto|]. rewrite IH, hd_or_app. tauto. Qed.

Lemma iseg_frame h h' xs n : (forall x, x ∈ xs -> iview h' x = iview h x) -> iseg h xs n -> iseg h' xs n.
Proof.
  induction xs as [|x xs IH]; intros Hv; cbn [iseg]; [done|].
  intros [Hx Hs]. split; [rewrite Hv by set_solver; done|]. apply IH; [|done]. set_solver.
Qed.

Lemma iseg_live h xs n x : iseg h xs n -> x ∈ xs -> is_Some (h !! x).
Proof.
  induction xs as [|y xs IH]; cbn [iseg]; [set_solver|].
  intros [(e & He & _)%iview_Some Hs] [->|Hx]%elem_of_cons; eauto.
Qed.

Lemma iseg_set_last h a t q : t ∉ a -> iseg h (a ++ [t]) None -> iseg (alter (set_next_instance q) t h) (a ++ [t]) q.
Proof.
  intros Ht. rewrite !iseg_app. intros [Ha [Hvt _]]. split.
  - eapply iseg_frame; [|exact Ha]. intros x Hx. rewrite iview_set, decide_False by set_solver. done.
  - split; [|done]. rewrite iview_set, decide_True by done. by rewrite Hvt.
Qed.

Lemma inst_rep_live h l xs x : inst_rep h l xs -> x ∈ xs -> is_Some (h !! x).
Proof. intros (_ & _ & _ & _ & Hs). by eapply iseg_live. Qed.

Lemma inst_rep_loop h l xs : inst_rep h l xs -> (length xs < loop_fuel h)%nat.
Proof.
  intros (_ & _ & _ & Hnd & Hs). unfold loop_fuel.
  assert (list_to_set (C := gset positive) xs ⊆ dom h) as Hsub.
  { intros x Hx. apply elem_of_list_to_set in Hx. apply elem_of_dom. by eapply iseg_live. }
  apply subseteq_size in Hsub. rewrite size_list_to_set, size_dom in Hsub by done. lia.
Qed.

Lemma inst_enqueue_tail_spec h l xs p :
  inst_rep h l xs -> p ∉ xs -> is_Some (h !! p) ->
  exists h' l', inst_enqueue_tail h l p = Ret (h', l')
    /\ inst_rep h' l' (xs ++ [p]) /\ upto erase_inst (p :: xs) h h'.
Proof.
  intros Hrep Hp Hlp. pose proof Hrep as (Hh & Ht & Hsz & Hnd & Hs). unfold inst_enqueue_tail.
  assert (forall z, z ∈ p :: xs -> is_Some (h !! z)) as Hlive.
  { intros z [->|Hz]%elem_of_cons; [done|by eapply inst_rep_live]. }
  assert (NoDup (xs ++ [p])) as Hnd'.
  { apply NoDup_app. split; [done|]. split; [set_solver|apply NoDup_singleton]. }
  set (h1 := alter (set_next_instance None) p h).
  assert (iview h1 p = Some None) as Hv1.
  { unfold h1. rewrite iview_set, decide_True by done. unfold iview. destruct Hlp as [e ->]. done. }
  assert (iseg h1 xs None) as Hs1.
  { eapply iseg_frame; [|exact Hs]. intros x Hx. unfold h1. rewrite iview_set, decide_False by set_solver. done. }
  assert (upto erase_inst (p :: xs) h h1) as Hu1 by (apply upto_alter; [apply upto_refl|set_solver|done]).
  rewrite store_alter by done. cbn [mbind outcome_bind]. fold h1.
  destruct xs as [|t ys _] using rev_ind.
  - rewrite Hh. eexists _, _. split; [reflexivity|]. split; [|done].
    repeat (split; [cbn in Hsz |- *; first [done|lia]|]). done.
  - rewrite last_snoc in Ht. assert (exists y, head_ l = Some y) as [y Hy] by (rewrite Hh; destruct ys; eauto).
    rewrite Hy, Ht, store_alter by (unfold h1; rewrite alter_dom; apply Hlive; set_solver). cbn [mbind outcome_bind].
    eexists _, _. split; [reflexivity|]. split; [|apply upto_alter; [done|set_solver|done]].
    split; [cbn; rewrite <- Hy, Hh; by destruct ys|]. split; [by rewrite last_snoc|].
    split; [cbn; rewrite Hsz, !length_app; cbn; lia|]. split; [done|].
    apply iseg_app. split; [apply iseg_set_last; [|done]|].
    + apply NoDup_app in Hnd as (_ & Hd & _). intros Hi. apply (Hd t Hi). set_solver.
    + split; [|done]. rewrite iview_set, decide_False by set_solver. done.
Qed.

Lemma inst_dequeue_head_spec h l x b :
  inst_rep h l (x :: b) ->
  exists h' l', inst_dequeue_head h l = Ret (h', l', Some x)
    /\ inst_rep h' l' b /\ upto erase_inst (x :: b) h h'.
Proof.
  intros Hrep. pose proof Hrep as (Hh & Ht & Hsz & [Hxb Hnd]%NoDup_cons & [(e & He & Hn)%iview_Some Hs]).
  unfold inst_dequeue_head. rewrite Hh. cbn [head load]. rewrite He. cbn [deref mbind outcome_bind]. rewrite Hn, hd_or_None.
  rewrite store_alter by eauto. cbn [mbind outcome_bind].
  eexists _, _. split; [reflexivity|]. split; [|apply upto_alter; [apply upto_refl|set_solver|done]].
  split; [done|]. split.
  { rewrite Ht. destruct b as [|y b]; [done|]. cbn [head tail_]. rewrite !last_cons. by destruct (last b). }
  split; [cbn in Hsz |- *; lia|]. split; [done|].
  eapply iseg_frame; [|exact Hs]. intros z Hz. rewrite iview_set, decide_False by set_solver. done.
Qed.

Lemma inst_dequeue_from_notin h l p xs x fuel :
  iseg h xs None -> x ∉ xs -> (length xs < fuel)%nat ->
  inst_dequeue_from fuel h l p (head xs) x = Ret (h, l, false).
Proof.
  revert p fuel. induction xs as [|y xs IH]; intros p fuel Hs Hx Hf; (destruct fuel as [|fuel]; [cbn in Hf; lia|]); [done|].
  cbn [inst_dequeue_from head load]. destruct Hs as [(e & He & Hn)%iview_Some Hs].
  rewrite He. cbn [deref mbind outcome_bind]. rewrite decide_False by set_solver.
  rewrite Hn, hd_or_None. apply IH; [done|set_solver|cbn in Hf; lia].
Qed.

Lemma inst_dequeue_notin h l xs x : inst_rep h l xs -> x ∉ xs -> inst_dequeue h l x = Ret (h, l, false).
Proof.
  intros Hrep Hx. pose proof (inst_rep_loop _ _ _ Hrep) as Hf. destruct Hrep as (Hh & _ & _ & _ & Hs).
  unfold inst_dequeue. rewrite Hh. destruct xs as [|y xs]; [done|]. cbn [head].
  rewrite decide_False by set_solver. destruct Hs as [(e & He & Hn)%iview_Some Hs]. cbn [load]. rewrite He.
  cbn [deref mbind outcome_bind]. rewrite Hn, hd_or_None.
  apply inst_dequeue_from_notin; [done|set_solver|cbn in Hf; lia].
Qed.

(** The loop of [dequeue] reaches [x] with the sample before it in [previous]. *)
Lemma inst_dequeue_from_spec h l p a x b fuel :
  NoDup (p :: a ++ x :: b) -> iseg h (p :: a ++ x :: b) None -> (length a < fuel)%nat ->
  exists q, last (p :: a) = Some q /\
  inst_dequeue_from fuel h l p (head (a ++ x :: b)) x
  = Ret (alter (set_next_instance None) x (alter (set_next_instance (head b)) q h),
         mkSL (head_ l) (match head b with None => Some q | Some _ => tail_ l end) (size_ l - 1), true).
Proof.
  revert p fuel. induction a as [|y a IH]; intros p fuel Hnd Hs Hf; (destruct fuel as [|fuel]; [lia|]);
    apply NoDup_cons in Hnd as [Hp Hnd]; destruct Hs as [(ep & Hep & _)%iview_Some Hs];
    cbn [app head inst_dequeue_from load].
  - cbn [app iseg] in Hs. destruct Hs as [(e & He & Hn)%iview_Some Hs]. rewrite He. cbn [deref mbind outcome_bind].
    rewrite decide_True by done. rewrite Hn, hd_or_None.
    rewrite store_alter by eauto. cbn [mbind outcome_bind].
    rewrite store_alter by (rewrite alter_dom; eauto). cbn [mbind outcome_bind]. exists p. done.
  - pose proof Hs as [(e & He & Hn)%iview_Some _]. rewrite He. cbn [deref mbind outcome_bind].
    rewrite decide_False by (apply NoDup_cons in Hnd as [Hy _]; set_solver).
    rewrite Hn. rewrite hd_or_None. destruct (IH y fuel) as (q & Hq & ->); [done|done|cbn in Hf; lia|].
    exists q. split; [|done]. rewrite last_cons. by rewrite Hq.
Qed.

Lemma inst_dequeue_spec h l xs x :
  inst_rep h l xs -> x ∈ xs ->
  exists h' l', inst_dequeue h l x = Ret (h', l', true)
    /\ inst_rep h' l' (remove_elt x xs) /\ upto erase_inst xs h h'.
Proof.
  intros Hrep Hx. pose proof (inst_rep_loop _ _ _ Hrep) as Hf. pose proof Hrep as (Hh & Ht & Hsz & Hnd & Hs).
  unfold inst_dequeue. rewrite Hh. destruct xs as [|hd xs]; [set_solver|]. cbn [head].
  destruct (decide (x = hd)) as [->|Hne].
  { destruct (inst_dequeue_head_spec _ _ _ _ Hrep) as (h' & l' & -> & H).
    exists h', l'. by rewrite (remove_elt_split hd [] xs Hnd : remove_elt hd (hd :: xs) = xs). }
  assert (x ∈ xs) as (a & b & ->)%list_elem_of_split by set_solver. clear Hx Hne.
  pose proof Hs as [(e & He & Hn)%iview_Some _]. cbn [load]. rewrite He. cbn [deref mbind outcome_bind].
  rewrite Hn, hd_or_None.
  destruct (inst_dequeue_from_spec h l hd a x b (loop_fuel h) Hnd Hs) as (q & Hq & ->).
  { cbn in Hf. rewrite length_app in Hf. lia. }
  eexists _, _. split; [reflexivity|]. rewrite app_comm_cons in *. rewrite remove_elt_split by done.
  apply last_Some in Hq as [c Hc]. rewrite Hc in *.
  assert ((x ∉ c ++ [q]) /\ (q ∉ c) /\ (q ∉ b) /\ (x ∉ b)) as (Hxc & Hqc & Hqb & Hxb).
  { apply NoDup_app in Hnd as (Hnc & Hd & [Hxb _]%NoDup_cons). apply NoDup_app in Hnc as (_ & Hqc & _). set_solver. }
  split; [|apply upto_alter; [apply upto_alter; [apply upto_refl|set_solver|done]|set_solver|done]].
  split; [cbn; rewrite Hh; by destruct c|]. split; [|split; [|split]].
  - cbn [tail_]. rewrite Ht. destruct b as [|y b]; cbn [head]; [by rewrite app_nil_r, last_snoc|].
    rewrite !last_app, !last_cons. by destruct (last b).
  - cbn. rewrite Hsz, !length_app. cbn. lia.
  - apply NoDup_app in Hnd as (Hnc & Hd & [_ Hnb]%NoDup_cons). apply NoDup_app. set_solver.
  - apply iseg_app in Hs as [Hsc [_ Hsb]]. apply iseg_app. rewrite hd_or_None. split.
    + eapply iseg_frame; [intros z Hz; rewrite iview_set, decide_False by set_solver; reflexivity|].
      apply iseg_app in Hsc as [Hsc [Hvq _]]. apply iseg_app. split; [|split; [|done]].
      * eapply iseg_frame; [|exact Hsc]. intros z Hz. rewrite iview_set, decide_False by set_solver. done.
      * rewrite iview_set, decide_True by done. by rewrite Hvq.
    + eapply iseg_frame; [|exact Hsb]. intros z Hz. rewrite !iview_set, !decide_False by set_solver. done.
Qed.

(** ** Properties *)


(** On well-formed lists of the writer (double links) and of an instance
    (single links) the operations are those of sequences, terminate, and change
    only the links of their own kind. *)
Theorem writer_and_instance_lists_refine (h : heap) (l : SampleList) (xs : list positive) :
  (writer_rep h l xs ->
     (forall p, p ∉ xs -> writer_free h p ->
        exists h' l', writer_enqueue_tail h l p = Ret (h', l')
          /\ writer_rep h' l' (xs ++ [p]) /\ upto erase_writer (p :: xs) h h')
     /\ (forall x, exists h' l', writer_dequeue h l x = Ret (h', l', bool_decide (x ∈ xs))
          /\ writer_rep h' l' (remove_elt x xs) /\ upto erase_writer xs h h'))
  /\ (inst_rep h l xs ->
     (forall p, p ∉ xs -> is_Some (h !! p) ->
        exists h' l', inst_enqueue_tail h l p = Ret (h', l')
          /\ inst_rep h' l' (xs ++ [p]) /\ upto erase_inst (p :: xs) h h')
     /\ (forall x, exists h' l', inst_dequeue h l x = Ret (h', l', bool_decide (x ∈ xs))
          /\ inst_rep h' l' (remove_elt x xs) /\ upto erase_inst xs h h')
     /\ (exists h' l', inst_dequeue_head h l = Ret (h', l', head xs)
          /\ inst_rep h' l' (tail xs) /\ upto erase_inst xs h h')).
Proof.
  split; intros Hrep.
  - split; [intros p; by apply writer_enqueue_tail_spec|].
    intros x. destruct (decide (x ∈ xs)) as [Hx|Hx].
    + destruct (writer_dequeue_spec _ _ _ _ Hrep Hx) as (h' & l' & -> & H1 & _ & H3).
      rewrite bool_decide_true by done. exists h', l'. auto.
    + rewrite (writer_dequeue_notin _ _ _ _ Hrep Hx), bool_decide_false, remove_elt_notin by done.
      exists h, l. split; [done|]. split; [done|apply upto_refl].
  - split; [intros p; by apply inst_enqueue_tail_spec|]. split.
    + intros x. destruct (decide (x ∈ xs)) as [Hx|Hx].
      * destruct (inst_dequeue_spec _ _ _ _ Hrep Hx) as (h' & l' & -> & H).
        rewrite bool_decide_true by done. exists h', l'. auto.
      * rewrite (inst_dequeue_notin _ _ _ _ Hrep Hx), bool_decide_false, remove_elt_notin by done.
        exists h, l. split; [done|]. split; [done|apply upto_refl].
    + destruct xs as [|x b].
      * unfold inst_dequeue_head. destruct Hrep as (Hh & Hr). rewrite Hh. exists h, l.
        split; [done|]. split; [done|apply upto_refl].
      * destruct (inst_dequeue_head_spec _ _ _ _ Hrep) as (h' & l' & -> & H). exists h', l'. auto.
Qed.

(** the list a sample is on is found by walking its links back to the
    first sample: among disjoint well-formed lists the answer is the position
    of the list that contains it. *)
Theorem containing_list_found (h : heap) (ls : list SampleList) (xss : list (list positive)) (i : nat)
    (xs : list positive) (x : positive) :
  Forall2 (send_rep h) ls xss -> NoDup (concat xss) -> xss !! i = Some xs -> x ∈ xs ->
  send_list_containing_element h x ls = Ret (Some i).
Proof. exact (send_list_containing_spec h ls xss i xs x). Qed.

(** ** Witnesses *)

(** Three samples; the first two are on one send-state list, the third on
    another; all are on one writer and one instance list. *)
Definition ex_element (pw nw ni ns ps : option positive) : DataSampleElement :=
  mkDSE default_header None GUID_UNKNOWN 0 [] false None pw nw ni ns ps.
Definition ex_heap : heap :=
  {[ 1%positive := ex_element None (Some 2%positive) (Some 2%positive) (Some 2%positive) None;
     2%positive := ex_element (Some 1%positive) (Some 3%positive) (Some 3%positive) None (Some 1%positive);
     3%positive := ex_element (Some 2%positive) None None None None ]}.
Definition ex_list (a b : positive) (n : Z) : SampleList := mkSL (Some a) (Some b) n.

Ltac solve_rep := repeat split; try reflexivity; apply (bool_decide_unpack _); vm_compute; exact I.

Lemma ex_send_1 : send_rep ex_heap (ex_list 1 2 2) [1; 2]%positive.
Proof. solve_rep. Qed.
Lemma ex_send_2 : send_rep ex_heap (ex_list 3 3 1) [3]%positive.
Proof. solve_rep. Qed.


Lemma writer_and_instance_lists_refine_witness :
  (exists h' l', writer_dequeue ex_heap (ex_list 1 3 3) 2 = Ret (h', l', true) /\ writer_rep h' l' [1; 3]%positive)
  /\ (exists h' l', inst_dequeue ex_heap (ex_list 1 3 3) 2 = Ret (h', l', true) /\ inst_rep h' l' [1; 3]%positive).
Proof.
  destruct (writer_and_instance_lists_refine ex_heap (ex_list 1 3 3) [1; 2; 3]%positive) as [Hw Hi]. split.
  - destruct Hw as [_ Hw]; [solve_rep|]. destruct (Hw 2%positive) as (h' & l' & H1 & H2 & _). exists h', l'. done.
  - destruct Hi as (_ & Hi & _); [solve_rep|]. destruct (Hi 2%positive) as (h' & l' & H1 & H2 & _). exists h', l'. done.
Defined.

Lemma containing_list_found_witness :
  send_list_containing_element ex_heap 2 [ex_list 3 3 1; ex_list 1 2 2] = Ret (Some 1%nat).
Proof.
  apply (containing_list_found ex_heap _ [[3]; [1; 2]]%positive 1 [1; 2]%positive 2).
  - constructor; [exact ex_send_2|]. constructor; [exact ex_send_1|constructor].
  - apply (bool_decide_unpack _). vm_compute. exact I.
  - reflexivity.
  - set_solver.
Defined.

End SampleLists.
Export SampleLists.
