(* ===== verification/WriteDataContainer.v ===== *)
(** * The writer's sample container (dds/DCPS/WriteDataContainer,
    PublicationInstance)

    The container of a data writer keeps every sample on one of the lists
    unsent, sending, sent and released (or, for copies made for a late-joining
    reader, resend), the history of every instance, and the list of all
    samples.  The samples themselves, the data blocks of their messages and the
    instances live in heaps that are part of the state.

    Every operation runs under [lock_], so an operation is one step on the
    state; where the code waits on a condition variable the other threads run,
    which is an explicit argument of the model (a list of wake-ups, each with
    the effect of the other threads).  The allocators, the clock, the handle
    generator and the writer's calls into the transport ([remove_sample],
    [remove_all_msgs]) and its content filter are parameters. *)

From S2P Require Import Prelude Qos SequenceNumber DataSampleHeader SampleLists.

Module WriteDataContainer.

(** ** Data *)

Definition HANDLE_NIL : Z := 0.

Inductive ReturnCode :=
| RETCODE_OK | RETCODE_ERROR | RETCODE_PRECONDITION_NOT_MET | RETCODE_OUT_OF_RESOURCES | RETCODE_TIMEOUT.
#[export] Instance ReturnCode_eq_dec : EqDecision ReturnCode.
Proof. solve_decision. Defined.

(** Times are in microseconds. *)
Record PublicationInstance := mkPI {
  sequence_ : SequenceNumber;
  group_id_ : Z;
  registered_sample_ : positive;
  samples_ : SampleList;
  waiting_list_ : SampleList;
  unregistered_ : bool;
  instance_handle_ : Z;
  last_sample_tv_ : Z;
  cur_sample_tv_ : Z;
  deadline_timer_id_ : Z }.

Definition new_instance (registered_sample : positive) : PublicationInstance :=
  mkPI (of_value 1) 0 registered_sample empty_list empty_list false 0 0 0 (-1).

Definition with_samples (v : SampleList) (i : PublicationInstance) : PublicationInstance :=
  mkPI (sequence_ i) (group_id_ i) (registered_sample_ i) v (waiting_list_ i) (unregistered_ i)
    (instance_handle_ i) (last_sample_tv_ i) (cur_sample_tv_ i) (deadline_timer_id_ i).
Definition with_waiting_list (v : SampleList) (i : PublicationInstance) : PublicationInstance :=
  mkPI (sequence_ i) (group_id_ i) (registered_sample_ i) (samples_ i) v (unregistered_ i)
    (instance_handle_ i) (last_sample_tv_ i) (cur_sample_tv_ i) (deadline_timer_id_ i).
Definition with_unregistered (v : bool) (i : PublicationInstance) : PublicationInstance :=
  mkPI (sequence_ i) (group_id_ i) (registered_sample_ i) (samples_ i) (waiting_list_ i) v
    (instance_handle_ i) (last_sample_tv_ i) (cur_sample_tv_ i) (deadline_timer_id_ i).
Definition with_instance_handle (v : Z) (i : PublicationInstance) : PublicationInstance :=
  mkPI (sequence_ i) (group_id_ i) (registered_sample_ i) (samples_ i) (waiting_list_ i) (unregistered_ i)
    v (last_sample_tv_ i) (cur_sample_tv_ i) (deadline_timer_id_ i).
Definition with_sample_times (last_ cur : Z) (i : PublicationInstance) : PublicationInstance :=
  mkPI (sequence_ i) (group_id_ i) (registered_sample_ i) (samples_ i) (waiting_list_ i) (unregistered_ i)
    (instance_handle_ i) last_ cur (deadline_timer_id_ i).

(** The calls the container makes to other objects. *)
Inductive call :=
| WatchdogExecute (instance : positive)
| ScheduleTimer (instance : positive)
| CancelTimer (instance : positive)
| ResetTimerInterval (timer : Z)
| Unregistered (handle : Z).

(** [instances_] is a [std::map]: sorted by handle.  [watchdog_] and
    [durability_cache_] say whether the pointers are set;
    [condition_signals_] and [empty_signals_] count the broadcasts on the two
    condition variables. *)
Record WriteDataContainer := mkWDC {
  heap_ : heap;
  blocks_ : gmap positive (list Z);
  insts_ : gmap positive PublicationInstance;
  unsent_data_ : SampleList;
  sending_data_ : SampleList;
  sent_data_ : SampleList;
  released_data_ : SampleList;
  data_holder_ : SampleList;
  resend_data_ : SampleList;
  instances_ : list (Z * positive);
  wdc_publication_id_ : GUID;
  depth_ : Z;
  max_num_instances_ : Z;
  max_num_samples_ : Z;
  should_block_ : bool;
  max_blocking_time_ : Duration;
  waiting_on_release_ : bool;
  shutdown_ : bool;
  watchdog_ : bool;
  durability_cache_ : bool;
  condition_signals_ : Z;
  empty_signals_ : Z;
  calls_ : list call }.

Definition with_heap (v : heap) (c : WriteDataContainer) : WriteDataContainer :=
  mkWDC v (blocks_ c) (insts_ c) (unsent_data_ c) (sending_data_ c) (sent_data_ c)
    (released_data_ c) (data_holder_ c) (resend_data_ c) (instances_ c) (wdc_publication_id_ c) (depth_ c)
    (max_num_instances_ c) (max_num_samples_ c) (should_block_ c) (max_blocking_time_ c) (waiting_on_release_ c) (shutdown_ c)
    (watchdog_ c) (durability_cache_ c) (condition_signals_ c) (empty_signals_ c) (calls_ c).
Definition with_blocks (v : gmap positive (list Z)) (c : WriteDataContainer) : WriteDataContainer :=
  mkWDC (heap_ c) v (insts_ c) (unsent_data_ c) (sending_data_ c) (sent_data_ c)
    (released_data_ c) (data_holder_ c) (resend_data_ c) (instances_ c) (wdc_publication_id_ c) (depth_ c)
    (max_num_instances_ c) (max_num_samples_ c) (should_block_ c) (max_blocking_time_ c) (waiting_on_release_ c) (shutdown_ c)
    (watchdog_ c) (durability_cache_ c) (condition_signals_ c) (empty_signals_ c) (calls_ c).
Definition with_insts (v : gmap positive PublicationInstance) (c : WriteDataContainer) : WriteDataContainer :=
  mkWDC (heap_ c) (blocks_ c) v (unsent_data_ c) (sending_data_ c) (sent_data_ c)
    (released_data_ c) (data_holder_ c) (resend_data_ c) (instances_ c) (wdc_publication_id_ c) (depth_ c)
    (max_num_instances_ c) (max_num_samples_ c) (should_block_ c) (max_blocking_time_ c) (waiting_on_release_ c) (shutdown_ c)
    (watchdog_ c) (durability_cache_ c) (condition_signals_ c) (empty_signals_ c) (calls_ c).
Definition with_unsent_data (v : SampleList) (c : WriteDataContainer) : WriteDataContainer :=
  mkWDC (heap_ c) (blocks_ c) (insts_ c) v (sending_data_ c) (sent_data_ c)
    (released_data_ c) (data_holder_ c) (resend_data_ c) (instances_ c) (wdc_publication_id_ c) (depth_ c)
    (max_num_instances_ c) (max_num_samples_ c) (should_block_ c) (max_blocking_time_ c) (waiting_on_release_ c) (shutdown_ c)
    (watchdog_ c) (durability_cache_ c) (condition_signals_ c) (empty_signals_ c) (calls_ c).
Definition with_sending_data (v : SampleList) (c : WriteDataContainer) : WriteDataContainer :=
  mkWDC (heap_ c) (blocks_ c) (insts_ c) (unsent_data_ c) v (sent_data_ c)
    (released_data_ c) (data_holder_ c) (resend_data_ c) (instances_ c) (wdc_publication_id_ c) (depth_ c)
    (max_num_instances_ c) (max_num_samples_ c) (should_block_ c) (max_blocking_time_ c) (waiting_on_release_ c) (shutdown_ c)
    (watchdog_ c) (durability_cache_ c) (condition_signals_ c) (empty_signals_ c) (calls_ c).
Definition with_sent_data (v : SampleList) (c : WriteDataContainer) : WriteDataContainer :=
  mkWDC (heap_ c) (blocks_ c) (insts_ c) (unsent_data_ c) (sending_data_ c) v
    (released_data_ c) (data_holder_ c) (resend_data_ c) (instances_ c) (wdc_publication_id_ c) (depth_ c)
    (max_num_instances_ c) (max_num_samples_ c) (should_block_ c) (max_blocking_time_ c) (waiting_on_release_ c) (shutdown_ c)
    (watchdog_ c) (durability_cache_ c) (condition_signals_ c) (empty_signals_ c) (calls_ c).
Definition with_released_data (v : SampleList) (c : WriteDataContainer) : WriteDataContainer :=
  mkWDC (heap_ c) (blocks_ c) (insts_ c) (unsent_data_ c) (sending_data_ c) (sent_data_ c)
    v (data_holder_ c) (resend_data_ c) (instances_ c) (wdc_publication_id_ c) (depth_ c)
    (max_num_instances_ c) (max_num_samples_ c) (should_block_ c) (max_blocking_time_ c) (waiting_on_release_ c) (shutdown_ c)
    (watchdog_ c) (durability_cache_ c) (condition_signals_ c) (empty_signals_ c) (calls_ c).
Definition with_data_holder (v : SampleList) (c : WriteDataContainer) : WriteDataContainer :=
  mkWDC (heap_ c) (blocks_ c) (insts_ c) (unsent_data_ c) (sending_data_ c) (sent_data_ c)
    (released_data_ c) v (resend_data_ c) (instances_ c) (wdc_publication_id_ c) (depth_ c)
    (max_num_instances_ c) (max_num_samples_ c) (should_block_ c) (max_blocking_time_ c) (waiting_on_release_ c) (shutdown_ c)
    (watchdog_ c) (durability_cache_ c) (condition_signals_ c) (empty_signals_ c) (calls_ c).
Definition with_resend_data (v : SampleList) (c : WriteDataContainer) : WriteDataContainer :=
  mkWDC (heap_ c) (blocks_ c) (insts_ c) (unsent_data_ c) (sending_data_ c) (sent_data_ c)
    (released_data_ c) (data_holder_ c) v (instances_ c) (wdc_publication_id_ c) (depth_ c)
    (max_num_instances_ c) (max_num_samples_ c) (should_block_ c) (max_blocking_time_ c) (waiting_on_release_ c) (shutdown_ c)
    (watchdog_ c) (durability_cache_ c) (condition_signals_ c) (empty_signals_ c) (calls_ c).
Definition with_instances (v : list (Z * positive)) (c : WriteDataContainer) : WriteDataContainer :=
  mkWDC (heap_ c) (blocks_ c) (insts_ c) (unsent_data_ c) (sending_data_ c) (sent_data_ c)
    (released_data_ c) (data_holder_ c) (resend_data_ c) v (wdc_publication_id_ c) (depth_ c)
    (max_num_instances_ c) (max_num_samples_ c) (should_block_ c) (max_blocking_time_ c) (waiting_on_release_ c) (shutdown_ c)
    (watchdog_ c) (durability_cache_ c) (condition_signals_ c) (empty_signals_ c) (calls_ c).
Definition with_waiting_on_release (v : bool) (c : WriteDataContainer) : WriteDataContainer :=
  mkWDC (heap_ c) (blocks_ c) (insts_ c) (unsent_data_ c) (sending_data_ c) (sent_data_ c)
    (released_data_ c) (data_holder_ c) (resend_data_ c) (instances_ c) (wdc_publication_id_ c) (depth_ c)
    (max_num_instances_ c) (max_num_samples_ c) (should_block_ c) (max_blocking_time_ c) v (shutdown_ c)
    (watchdog_ c) (durability_cache_ c) (condition_signals_ c) (empty_signals_ c) (calls_ c).
Definition with_shutdown (v : bool) (c : WriteDataContainer) : WriteDataContainer :=
  mkWDC (heap_ c) (blocks_ c) (insts_ c) (unsent_data_ c) (sending_data_ c) (sent_data_ c)
    (released_data_ c) (data_holder_ c) (resend_data_ c) (instances_ c) (wdc_publication_id_ c) (depth_ c)
    (max_num_instances_ c) (max_num_samples_ c) (should_block_ c) (max_blocking_time_ c) (waiting_on_release_ c) v
    (watchdog_ c) (durability_cache_ c) (condition_signals_ c) (empty_signals_ c) (calls_ c).
Definition with_condition_signals (v : Z) (c : WriteDataContainer) : WriteDataContainer :=
  mkWDC (heap_ c) (blocks_ c) (insts_ c) (unsent_data_ c) (sending_data_ c) (sent_data_ c)
    (released_data_ c) (data_holder_ c) (resend_data_ c) (instances_ c) (wdc_publication_id_ c) (depth_ c)
    (max_num_instances_ c) (max_num_samples_ c) (should_block_ c) (max_blocking_time_ c) (waiting_on_release_ c) (shutdown_ c)
    (watchdog_ c) (durability_cache_ c) v (empty_signals_ c) (calls_ c).
Definition with_empty_signals (v : Z) (c : WriteDataContainer) : WriteDataContainer :=
  mkWDC (heap_ c) (blocks_ c) (insts_ c) (unsent_data_ c) (sending_data_ c) (sent_data_ c)
    (released_data_ c) (data_holder_ c) (resend_data_ c) (instances_ c) (wdc_publication_id_ c) (depth_ c)
    (max_num_instances_ c) (max_num_samples_ c) (should_block_ c) (max_blocking_time_ c) (waiting_on_release_ c) (shutdown_ c)
    (watchdog_ c) (durability_cache_ c) (condition_signals_ c) v (calls_ c).
Definition with_calls (v : list call) (c : WriteDataContainer) : WriteDataContainer :=
  mkWDC (heap_ c) (blocks_ c) (insts_ c) (unsent_data_ c) (sending_data_ c) (sent_data_ c)
    (released_data_ c) (data_holder_ c) (resend_data_ c) (instances_ c) (wdc_publication_id_ c) (depth_ c)
    (max_num_instances_ c) (max_num_samples_ c) (should_block_ c) (max_blocking_time_ c) (waiting_on_release_ c) (shutdown_ c)
    (watchdog_ c) (durability_cache_ c) (condition_signals_ c) (empty_signals_ c) v.

Definition log_call (k : call) (c : WriteDataContainer) : WriteDataContainer := with_calls (calls_ c ++ [k]) c.
Definition set_inst (ip : positive) (i : PublicationInstance) (c : WriteDataContainer) : WriteDataContainer :=
  with_insts (<[ip := i]> (insts_ c)) c.

(** The constructor. *)
Definition new_container (depth : Z) (should_block : bool) (max_blocking_time : Duration)
    (watchdog durability_cache : bool) (max_instances max_total_samples : Z) : WriteDataContainer :=
  mkWDC ∅ ∅ ∅ empty_list empty_list empty_list empty_list empty_list empty_list [] GUID_UNKNOWN
    depth max_instances max_total_samples should_block max_blocking_time false false watchdog durability_cache
    0 0 [].

(** [find], [bind] and [unbind] of the handle map. *)
Fixpoint find_handle (m : list (Z * positive)) (handle : Z) : option positive :=
  match m with
  | [] => None
  | (k, ip) :: m' => if k =? handle then Some ip else find_handle m' handle
  end.
Fixpoint bind_handle (m : list (Z * positive)) (handle : Z) (ip : positive) : option (list (Z * positive)) :=
  match m with
  | [] => Some [(handle, ip)]
  | (k, jp) :: m' =>
      if handle <? k then Some ((handle, ip) :: m)
      else if handle =? k then None
      else (fun m'' => (k, jp) :: m'') <$> bind_handle m' handle ip
  end.
Definition unbind_handle (m : list (Z * positive)) (handle : Z) : list (Z * positive) :=
  filter (fun kp => kp.1 <> handle) m.

(** [get_handle_instance]; a null result is [None]. *)
Definition get_handle_instance (c : WriteDataContainer) (handle : Z) : option positive :=
  find_handle (instances_ c) handle.
Definition instance_at (c : WriteDataContainer) (ip : option positive) : outcome PublicationInstance :=
  match ip with Some ip => deref (insts_ c !! ip) | None => UB end.

(** ** Lifespan *)

(** [resend_data_expired]: the sum of the signed seconds must not overflow, the
    unsigned nanoseconds wrap; [time_to_time_value] drops the part of the
    nanoseconds below a microsecond. *)
Definition resend_data_expired (now : Z) (element : DataSampleElement) (lifespan : Duration) : outcome bool :=
  if negb (dur_sec lifespan =? DURATION_INFINITE_SEC) || negb (dur_nanosec lifespan =? DURATION_INFINITE_NSEC) then
    let sec := source_timestamp_sec_ (header_ element) + dur_sec lifespan in
    let nanosec := uwrap 32 (source_timestamp_nanosec_ (header_ element) + dur_nanosec lifespan) in
    if (- 2 ^ 31 <=? sec) && (sec <? 2 ^ 31)
    then Ret (sec * 1000000 + nanosec / 1000 <=? now)
    else UB
  else Ret false.

(** ** Elementary operations *)

Definition pending_data (c : WriteDataContainer) : bool :=
  negb (size_ (sending_data_ c) =? 0) || negb (size_ (unsent_data_ c) =? 0) || negb (size_ (released_data_ c) =? 0).

(** [if (!pending_data()) empty_condition_.broadcast();] *)
Definition signal_empty (c : WriteDataContainer) : WriteDataContainer :=
  if pending_data c then c else with_empty_signals (empty_signals_ c + 1) c.

(** The sample leaves the list of all samples and is freed. *)
Definition release_buffer (c : WriteDataContainer) (element : positive) : outcome WriteDataContainer :=
  '(h, holder, _) ← writer_dequeue (heap_ c) (data_holder_ c) element;
  _ ← deref (h !! element);
  Ret (with_heap (delete element h) (with_data_holder holder c)).

Definition wakeup_blocking_writers (c : WriteDataContainer) (stale instance : option positive)
    : outcome WriteDataContainer :=
  match stale with
  | None => Ret c
  | Some _ =>
      i ← instance_at c instance;
      ip ← deref instance;
      match head_ (waiting_list_ i) with
      | None => Ret c
      | Some w =>
          h ← store (heap_ c) (Some w) (set_space_available true);
          '(h, wl, waiting) ← inst_dequeue_head h (waiting_list_ i);
          let c := set_inst ip (with_waiting_list wl i) (with_heap h c) in
          match waiting with
          | None => Ret c
          | Some _ =>
              if waiting_on_release_ c
              then Ret (with_waiting_on_release false (with_condition_signals (condition_signals_ c + 1) c))
              else Ret c
          end
      end
  end.

(** [DataSampleHeader::set_flag] on the data block of a message. *)
Definition set_flag (flag : Z) (bytes : list Z) : list Z :=
  match bytes !! FLAGS_OFFSET with
  | Some b => <[FLAGS_OFFSET := Z.lor b (mask_flag flag)]> bytes
  | None => bytes
  end.
Definition set_block_flag (flag : Z) (c : WriteDataContainer) (sample : option positive) : outcome WriteDataContainer :=
  a ← deref sample;
  bytes ← deref (blocks_ c !! a);
  Ret (with_blocks (<[a := set_flag flag bytes]> (blocks_ c)) c).

(** ** Moving samples between the lists *)

(** This method presumes that the instance list has space for the sample. *)
Definition enqueue (now : Z) (c : WriteDataContainer) (sample : positive) (instance_handle : Z)
    : outcome (WriteDataContainer * ReturnCode) :=
  ip ← deref (get_handle_instance c instance_handle);
  i ← instance_at c (Some ip);
  let '(c, i) :=
    if watchdog_ c then
      let i := with_sample_times (cur_sample_tv_ i) now i in
      (log_call (WatchdogExecute ip) (set_inst ip i c), i)
    else (c, i) in
  '(h, unsent) ← send_enqueue_tail (heap_ c) (unsent_data_ c) sample;
  '(h, samples) ← inst_enqueue_tail h (samples_ i) sample;
  Ret (set_inst ip (with_samples samples i) (with_heap h (with_unsent_data unsent c)), RETCODE_OK).

(** The list handed to the transport shares its samples with [sending_data_]. *)
Definition get_unsent_data (c : WriteDataContainer) : outcome (WriteDataContainer * SampleList) :=
  let l := unsent_data_ c in
  '(h, sending) ← send_enqueue_list (heap_ c) (sending_data_ c) l;
  Ret (signal_empty (with_heap h (with_sending_data sending (with_unsent_data empty_list c))), l).

Definition get_resend_data (c : WriteDataContainer) : outcome (WriteDataContainer * SampleList) :=
  let l := resend_data_ c in
  '(h, released) ← (if size_ l =? 0 then Ret (heap_ c, released_data_ c)
                    else send_enqueue_list (heap_ c) (released_data_ c) l);
  Ret (with_heap h (with_released_data released (with_resend_data empty_list c)), l).

(** The part of [data_delivered] after the sample was found on [sending_data_].
    [None] for the error return, else the [stale] of the caller. *)
Definition deliver_sending (c : WriteDataContainer) (sample : positive) (instance : option positive)
    : outcome (WriteDataContainer * option (option positive)) :=
  i ← instance_at c instance;
  ip ← deref instance;
  match head_ (waiting_list_ i) with
  | Some _ =>
      '(h, samples, found) ← inst_dequeue (heap_ c) (samples_ i) sample;
      let c := set_inst ip (with_samples samples i) (with_heap h c) in
      if negb found then Ret (c, None)
      else c ← release_buffer c sample; Ret (c, Some None)
  | None =>
      e ← load (heap_ c) (Some sample);
      c ← set_block_flag HISTORIC_SAMPLE_FLAG c (sample_ e);
      '(h, sent) ← send_enqueue_tail (heap_ c) (sent_data_ c) sample;
      Ret (with_heap h (with_sent_data sent c), Some (Some sample))
  end.

Definition data_delivered (c : WriteDataContainer) (sample : positive) : outcome WriteDataContainer :=
  e ← load (heap_ c) (Some sample);
  let instance := handle_ e in
  '(h, released, dequeued) ← send_dequeue (heap_ c) (released_data_ c) sample;
  let c := with_heap h (with_released_data released c) in
  if (dequeued : bool) then
    c ← release_buffer c sample;
    c ← wakeup_blocking_writers c None instance;
    Ret (signal_empty c)
  else
    '(h, sending, found) ← send_dequeue (heap_ c) (sending_data_ c) sample;
    let c := with_heap h (with_sending_data sending c) in
    if negb found then Ret c
    else
      '(c, stale) ← deliver_sending c sample instance;
      match stale with
      | None => Ret c
      | Some stale =>
          c ← wakeup_blocking_writers c stale instance;
          Ret (signal_empty c)
      end.

Definition data_dropped (c : WriteDataContainer) (sample : positive) (dropped_by_transport : bool)
    : outcome WriteDataContainer :=
  if dropped_by_transport then data_delivered c sample
  else
    '(h, sending, found) ← send_dequeue (heap_ c) (sending_data_ c) sample;
    let c := with_heap h (with_sending_data sending c) in
    '(c, instance) ←
      (if (found : bool) then
         '(h, unsent) ← send_enqueue_tail (heap_ c) (unsent_data_ c) sample;
         e ← load h (Some sample);
         Ret (with_heap h (with_unsent_data unsent c), handle_ e)
       else
         '(h, released, found) ← send_dequeue (heap_ c) (released_data_ c) sample;
         let c := with_heap h (with_released_data released c) in
         if (found : bool) then
           e ← load h (Some sample);
           c ← release_buffer c sample;
           Ret (c, handle_ e)
         else Ret (c, None));
    c ← wakeup_blocking_writers c None instance;
    Ret (signal_empty c).

(** The oldest sample of the instance at [ip]; [released] is the reference
    parameter. *)
Definition remove_oldest_sample (c : WriteDataContainer) (ip : positive) (released : bool)
    : outcome (WriteDataContainer * ReturnCode * bool) :=
  i ← instance_at c (Some ip);
  '(h, samples, stale) ← inst_dequeue_head (heap_ c) (samples_ i);
  let c := set_inst ip (with_samples samples i) (with_heap h c) in
  match stale with
  | None => Ret (c, RETCODE_ERROR, released)
  | Some stale =>
      containing ← send_list_containing_element (heap_ c) stale [sending_data_ c; sent_data_ c; unsent_data_ c];
      match containing with
      | Some 0%nat =>
          '(h, sending, result) ← send_dequeue (heap_ c) (sending_data_ c) stale;
          '(h, rel) ← send_enqueue_tail h (released_data_ c) stale;
          let c := signal_empty (with_heap h (with_sending_data sending (with_released_data rel c))) in
          Ret (c, if (result : bool) then RETCODE_OK else RETCODE_ERROR, false)
      | Some 1%nat =>
          '(h, sent, result) ← send_dequeue (heap_ c) (sent_data_ c) stale;
          c ← release_buffer (with_heap h (with_sent_data sent c)) stale;
          Ret (signal_empty c, if (result : bool) then RETCODE_OK else RETCODE_ERROR, true)
      | Some _ =>
          '(h, unsent, result) ← send_dequeue (heap_ c) (unsent_data_ c) stale;
          c ← release_buffer (with_heap h (with_unsent_data unsent c)) stale;
          Ret (signal_empty c, if (result : bool) then RETCODE_OK else RETCODE_ERROR, true)
      | None => Ret (c, RETCODE_ERROR, released)
      end
  end.

(** ** Parameters *)

(** The allocator of samples (a null result is [None]) and the content of
    fresh memory for the subscription ids; the writer's calls into the
    transport, whose callbacks may change the container; the content filter of
    a reader ([DataWriterImpl::filter_out]). *)
Class WriterEnvironment := {
  malloc : heap -> option positive;
  uninit_ids : list GUID;
  remove_sample : WriteDataContainer -> positive -> outcome WriteDataContainer;
  remove_all_msgs : WriteDataContainer -> outcome WriteDataContainer;
  filter_out : DataSampleElement -> bool }.

(** One return from [condition_.wait]: the time read before the wait, what the
    other threads did to the container while the lock was released, and the
    result of the wait. *)
Inductive wait_result := Signaled | TimedOut | WaitError.
Record wait_event := mkWE {
  we_now : Z; we_others : WriteDataContainer -> WriteDataContainer; we_result : wait_result }.

Definition MAX_READERS_PER_ELEM : nat := 5.

(** [duration_to_absolute_time_value], in microseconds; a [time_t] has 64 bits. *)
Definition duration_to_absolute_time_value (t : Duration) (now : Z) : Z :=
  let tv := dur_sec t * 1000000 + dur_nanosec t / 1000 + now in
  if 2 ^ 63 - 1 <? tv / 1000000 then (2 ^ 63 - 1) * 1000000 + 999999 else tv.

Section operations.
Context `{WriterEnvironment}.

(** ** Durability: copies for a late-joining reader *)

(** The loop over [appended]: [cur] is the iterator, [last_] its end. *)
Fixpoint copy_loop (fuel : nat) (now : Z) (c : WriteDataContainer) (lst : SampleList)
    (cur last_ : SendIterator) (reader_id : GUID) (lifespan : Duration) (eval : bool)
    : outcome (WriteDataContainer * SampleList) :=
  match fuel with
  | O => Fuel
  | S fuel =>
      if it_eq cur last_ then Ret (c, lst)
      else
        e ← load (heap_ c) (current_ cur);
        expired ← resend_data_expired now e lifespan;
        if expired || (eval && filter_out e) then
          cur ← it_next (heap_ c) cur;
          copy_loop fuel now c lst cur last_ reader_id lifespan eval
        else
          match malloc (heap_ c) with
          | None => Ret (c, lst)
          | Some a =>
              copy ← copy_element e uninit_ids;
              let copy := set_sub_id 0 reader_id (set_num_subs 1 copy) in
              '(h, lst) ← send_enqueue_tail (<[a := copy]> (heap_ c)) lst a;
              cur ← it_next h cur;
              copy_loop fuel now (with_heap h c) lst cur last_ reader_id lifespan eval
          end
  end.
Definition copy_and_append (now : Z) (c : WriteDataContainer) (lst appended : SampleList) (reader_id : GUID)
    (lifespan : Duration) (eval : bool) : outcome (WriteDataContainer * SampleList) :=
  copy_loop (loop_fuel (heap_ c)) now c lst (send_begin appended) (send_end appended) reader_id lifespan eval.

Definition reenqueue_all (now : Z) (c : WriteDataContainer) (reader_id : GUID) (lifespan : Duration) (eval : bool)
    : outcome (WriteDataContainer * ReturnCode) :=
  c ← (if 0 <? size_ (sending_data_ c) then
         '(c, l) ← copy_and_append now c (resend_data_ c) (sending_data_ c) reader_id lifespan eval;
         Ret (with_resend_data l c)
       else Ret c);
  c ← (if 0 <? size_ (sent_data_ c) then
         '(c, l) ← copy_and_append now c (resend_data_ c) (sent_data_ c) reader_id lifespan eval;
         Ret (with_resend_data l c)
       else Ret c);
  Ret (c, RETCODE_OK).

(** ** Instances *)

(** [next_handle] is the result of [writer_->get_next_handle()], [fresh_ip]
    the address of the new [PublicationInstance].  The results are the
    container, the return code, the handle and the registered sample. *)
Definition register_instance (c : WriteDataContainer) (instance_handle : Z) (registered_sample : positive)
    (next_handle : Z) (fresh_ip : positive) : outcome (WriteDataContainer * ReturnCode * Z * positive) :=
  let finish (c : WriteDataContainer) (ip : positive) (handle : Z) :=
    i ← instance_at c (Some ip);
    let c := if watchdog_ c then log_call (ScheduleTimer ip) c else c in
    Ret (c, RETCODE_OK, handle, registered_sample_ i) in
  if instance_handle =? HANDLE_NIL then
    if (0 <? max_num_instances_ c) && (max_num_instances_ c <=? swrap 32 (Z.of_nat (length (instances_ c))))
    then Ret (c, RETCODE_OUT_OF_RESOURCES, instance_handle, registered_sample)
    else
      match bind_handle (instances_ c) next_handle fresh_ip with
      | None => Ret (c, RETCODE_ERROR, next_handle, registered_sample)
      | Some m =>
          finish (set_inst fresh_ip (with_instance_handle next_handle (new_instance registered_sample))
                    (with_instances m c)) fresh_ip next_handle
      end
  else
    match find_handle (instances_ c) instance_handle with
    | None => Ret (c, RETCODE_ERROR, instance_handle, registered_sample)
    | Some ip =>
        i ← instance_at c (Some ip);
        finish (set_inst ip (with_unregistered false i) c) ip instance_handle
    end.

(** The last result is the registered sample when it was asked for. *)
Definition unregister (c : WriteDataContainer) (instance_handle : Z) (dup_registered_sample : bool)
    : outcome (WriteDataContainer * ReturnCode * option positive) :=
  match find_handle (instances_ c) instance_handle with
  | None => Ret (c, RETCODE_PRECONDITION_NOT_MET, None)
  | Some ip =>
      i ← instance_at c (Some ip);
      let c := log_call (Unregistered instance_handle) (set_inst ip (with_unregistered true i) c) in
      let c := if watchdog_ c then log_call (CancelTimer ip) c else c in
      Ret (c, RETCODE_OK, if dup_registered_sample then Some (registered_sample_ i) else None)
  end.

(** [while (instance_list.size() > 0) remove_oldest_sample(...)]. *)
Fixpoint dispose_loop (fuel : nat) (c : WriteDataContainer) (ip : positive)
    : outcome (WriteDataContainer * ReturnCode) :=
  match fuel with
  | O => Fuel
  | S fuel =>
      i ← instance_at c (Some ip);
      if 0 <? size_ (samples_ i) then
        '(c, ret, _) ← remove_oldest_sample c ip false;
        if decide (ret = RETCODE_OK) then dispose_loop fuel c ip else Ret (c, ret)
      else Ret (c, RETCODE_OK)
  end.

Definition dispose (c : WriteDataContainer) (instance_handle : Z) (dup_registered_sample : bool)
    : outcome (WriteDataContainer * ReturnCode * option positive) :=
  match find_handle (instances_ c) instance_handle with
  | None => Ret (c, RETCODE_PRECONDITION_NOT_MET, None)
  | Some ip =>
      i ← instance_at c (Some ip);
      let registered := if dup_registered_sample then Some (registered_sample_ i) else None in
      '(c, ret) ← dispose_loop (loop_fuel (heap_ c)) c ip;
      if decide (ret = RETCODE_OK)
      then Ret (if watchdog_ c then log_call (CancelTimer ip) c else c, RETCODE_OK, registered)
      else Ret (c, ret, registered)
  end.

(** The size is an output only when the handle is known. *)
Definition num_samples (c : WriteDataContainer) (handle : Z) : outcome (ReturnCode * option Z) :=
  match find_handle (instances_ c) handle with
  | None => Ret (RETCODE_ERROR, None)
  | Some ip => i ← instance_at c (Some ip); Ret (RETCODE_OK, Some (size_ (samples_ i)))
  end.

Fixpoint sum_samples (c : WriteDataContainer) (m : list (Z * positive)) : outcome Z :=
  match m with
  | [] => Ret 0
  | (_, ip) :: m' => i ← instance_at c (Some ip); n ← sum_samples c m'; Ret (size_ (samples_ i) + n)
  end.
Definition num_all_samples (c : WriteDataContainer) : outcome Z := sum_samples c (instances_ c).

Fixpoint handles_of (c : WriteDataContainer) (m : list (Z * positive)) : outcome (list Z) :=
  match m with
  | [] => Ret []
  | (_, ip) :: m' => i ← instance_at c (Some ip); hs ← handles_of c m'; Ret (instance_handle_ i :: hs)
  end.
Definition get_instance_handles (c : WriteDataContainer) (handles : list Z) : outcome (list Z) :=
  hs ← handles_of c (instances_ c); Ret (handles ++ hs).

Fixpoint reset_timers (c : WriteDataContainer) (m : list (Z * positive)) : outcome WriteDataContainer :=
  match m with
  | [] => Ret c
  | (_, ip) :: m' =>
      i ← instance_at c (Some ip);
      reset_timers (if deadline_timer_id_ i =? -1 then c else log_call (ResetTimerInterval (deadline_timer_id_ i)) c) m'
  end.
Definition reschedule_deadline (c : WriteDataContainer) : outcome WriteDataContainer :=
  reset_timers c (instances_ c).

(** ** Obtaining a buffer *)

(** A loop over the instances that removes the oldest sample of those that
    satisfy [test] until one was released. *)
Fixpoint remove_from_others (test : Z -> bool) (c : WriteDataContainer) (m : list (Z * positive))
    (released : bool) (ret : ReturnCode) : outcome (WriteDataContainer * bool * ReturnCode) :=
  match m with
  | [] => Ret (c, released, ret)
  | (_, ip) :: m' =>
      if released then Ret (c, released, ret)
      else
        i ← instance_at c (Some ip);
        '(c, released, ret) ←
          (if test (size_ (samples_ i)) then
             '(c, ret, released) ← remove_oldest_sample c ip released; Ret (c, released, ret)
           else Ret (c, released, ret));
        remove_from_others test c m' released ret
  end.

(** The two wait loops; [enough] is the condition waited for, [recheck] says
    whether it is tested again after a failed wait.  Each pass consumes one
    event; the events left are returned. *)
Fixpoint wait_loop (script : list wait_event) (abs_timeout : Z) (enough : WriteDataContainer -> outcome bool)
    (recheck : bool) (c : WriteDataContainer) (waited : bool)
    : outcome (WriteDataContainer * list wait_event * bool * ReturnCode) :=
  match script with
  | [] => Fuel
  | ev :: script' =>
      if shutdown_ c || negb (we_now ev <? abs_timeout) then Ret (c, script', waited, RETCODE_OK)
      else
        let c := we_others ev (with_waiting_on_release true c) in
        match we_result ev with
        | Signaled =>
            ok ← enough c;
            if (ok : bool) then Ret (c, script', true, RETCODE_OK)
            else wait_loop script' abs_timeout enough recheck c true
        | TimedOut => Ret (c, script', true, RETCODE_TIMEOUT)
        | WaitError =>
            ok ← (if recheck then enough c else Ret false);
            Ret (c, script', true, if (ok : bool) then RETCODE_OK else RETCODE_ERROR)
        end
  end.

(** [max_num_samples_ < (max_num_instances_ * depth_)]; the product must not
    overflow. *)
Definition fewer_than_product (c : WriteDataContainer) : outcome bool :=
  let p := max_num_instances_ c * depth_ c in
  if (- 2 ^ 31 <=? p) && (p <? 2 ^ 31) then Ret (max_num_samples_ c <? p) else UB.
Definition too_many_samples (c : WriteDataContainer) : outcome bool :=
  n ← num_all_samples c; Ret (max_num_samples_ c <=? swrap 32 n).

(** The oldest sample of a full instance makes room. *)
Definition make_room (c : WriteDataContainer) (ip : positive)
    : outcome (WriteDataContainer * ReturnCode * bool) :=
  i ← instance_at c (Some ip);
  if depth_ c <? size_ (samples_ i) then Ret (c, RETCODE_ERROR, true)
  else if size_ (samples_ i) =? depth_ c then remove_oldest_sample c ip true
  else Ret (c, RETCODE_OK, true).

(** The resource limit on all samples: first take samples of other instances,
    then wait.  The results are the container, the code, whether the code
    waited, the deadline of the wait and the events left. *)
Definition limit_samples (now : Z) (script : list wait_event) (c : WriteDataContainer)
    : outcome (WriteDataContainer * ReturnCode * bool * Z * list wait_event) :=
  over ← (if 0 <? max_num_samples_ c then too_many_samples c else Ret false);
  if negb over then Ret (c, RETCODE_OK, false, 0, script)
  else
    can_remove ← (if 0 <? max_num_instances_ c then fewer_than_product c else Ret false);
    '(c, ret) ←
      (if (can_remove : bool) then
         '(c, released, ret) ← remove_from_others (fun n => n =? depth_ c) c (instances_ c) false RETCODE_OK;
         if (released : bool) then Ret (c, ret)
         else
           '(c, _, ret) ← remove_from_others (fun n => 1 <? n) c (instances_ c) released ret; Ret (c, ret)
       else Ret (c, RETCODE_OK));
    over ← too_many_samples c;
    must_wait ← (if over : bool
                 then if max_num_instances_ c =? 0 then Ret true else fewer_than_product c
                 else Ret false);
    if negb must_wait then Ret (c, ret, false, 0, script)
    else
      let abs_timeout := duration_to_absolute_time_value (max_blocking_time_ c) now in
      '(c, script, waited, wret) ←
        wait_loop script abs_timeout (fun c => b ← too_many_samples c; Ret (negb b)) false c false;
      let ret := if negb waited then RETCODE_TIMEOUT else if decide (wret = RETCODE_OK) then ret else wret in
      Ret (c, ret, true, abs_timeout, script).

(** Waiting until a sample that the transport still uses is delivered. *)
Definition wait_for_space (abs_timeout : Z) (script : list wait_event) (c : WriteDataContainer)
    (ip element : positive) : outcome (WriteDataContainer * ReturnCode * bool) :=
  i ← instance_at c (Some ip);
  '(h, wl) ← inst_enqueue_tail (heap_ c) (waiting_list_ i) element;
  let c := set_inst ip (with_waiting_list wl i) (with_heap h c) in
  '(c, _, waited, ret) ←
    wait_loop script abs_timeout (fun c => e ← load (heap_ c) (Some element); Ret (space_available_ e)) true c false;
  let ret := if negb waited then RETCODE_TIMEOUT else ret in
  if decide (ret = RETCODE_OK) then Ret (c, RETCODE_OK, true)
  else
    i ← instance_at c (Some ip);
    '(h, wl, found) ← inst_dequeue (heap_ c) (waiting_list_ i) element;
    Ret (set_inst ip (with_waiting_list wl i) (with_heap h c), ret, found).

(** [now1] and [now2] are the times read when the deadline of the first and
    of the second wait is computed.  The results are the container, the
    element (null after a failed allocation) and the code. *)
Definition obtain_buffer (now1 now2 : Z) (script : list wait_event) (c : WriteDataContainer) (handle : Z)
    : outcome (WriteDataContainer * option positive * ReturnCode) :=
  let instance := get_handle_instance c handle in
  match malloc (heap_ c) with
  | None => Ret (c, None, RETCODE_ERROR)
  | Some element =>
      let c := with_heap (<[element := new_element (wdc_publication_id_ c) instance MAX_READERS_PER_ELEM]> (heap_ c)) c in
      ip ← deref instance;
      i ← instance_at c instance;
      let stale := head_ (samples_ i) in
      '(c, ret, oldest_released) ← make_room c ip;
      if negb (bool_decide (ret = RETCODE_OK)) then c ← release_buffer c element; Ret (c, Some element, ret)
      else
        '(c, ret, limit_waited, abs_timeout, script) ← limit_samples now1 script c;
        if negb (bool_decide (ret = RETCODE_OK)) then c ← release_buffer c element; Ret (c, Some element, ret)
        else
          i ← instance_at c instance;
          '(c, ret, kept) ←
            (if should_block_ c then
               if bool_decide (head_ (waiting_list_ i) <> None) || negb oldest_released then
                 wait_for_space
                   (if (limit_waited : bool) then abs_timeout else duration_to_absolute_time_value (max_blocking_time_ c) now2)
                   script c ip element
               else Ret (c, RETCODE_OK, true)
             else if negb oldest_released then s ← deref stale; c ← remove_sample c s; Ret (c, RETCODE_OK, true)
             else Ret (c, RETCODE_OK, true));
          if negb kept then Ret (c, Some element, RETCODE_ERROR)
          else if negb (bool_decide (ret = RETCODE_OK)) then c ← release_buffer c element; Ret (c, Some element, ret)
          else
            '(h, holder) ← writer_enqueue_tail (heap_ c) (data_holder_ c) element;
            Ret (with_heap h (with_data_holder holder c), Some element, RETCODE_OK)
  end.

(** ** Shutting down *)

Fixpoint unregister_loop (fuel : nat) (c : WriteDataContainer) : outcome WriteDataContainer :=
  match instances_ c with
  | [] => Ret c
  | (handle, ip) :: _ =>
      match fuel with
      | O => Fuel
      | S fuel =>
          '(c, _, _) ← dispose c handle false;
          '(c, _, _) ← unregister c handle false;
          unregister_loop fuel (with_instances (unbind_handle (instances_ c) handle) (with_insts (delete ip (insts_ c)) c))
      end
  end.

Definition unregister_all (c : WriteDataContainer) : outcome WriteDataContainer :=
  let c := with_shutdown true c in
  c ← remove_all_msgs c;
  let c := if waiting_on_release_ c then with_condition_signals (condition_signals_ c + 1) c else c in
  unregister_loop (length (instances_ c)) c.

(** [durability_cache_->insert] is the parameter [insert]. *)
Definition persist_data (insert : heap -> SampleList -> bool) (c : WriteDataContainer) : bool :=
  if durability_cache_ c then insert (heap_ c) (sent_data_ c) else true.

(** [wait_pending]: each element of the script is what the other threads did
    during one wait on [empty_condition_], and whether that wait failed. *)
Fixpoint wait_pending (script : list ((WriteDataContainer -> WriteDataContainer) * bool)) (c : WriteDataContainer)
    : outcome WriteDataContainer :=
  if pending_data c then
    match script with
    | [] => Fuel
    | (others, failed) :: script' =>
        let c := others c in
        if failed && pending_data c then Ret c else wait_pending script' c
    end
  else Ret c.
End operations.

(** ** Abstract container

    A sample is on one of five lists; the history of an instance and its
    blocked writers are sequences of samples. *)

Inductive place := Unsent | Sending | Sent | Released | Resend.
#[export] Instance place_eq_dec : EqDecision place.
Proof. solve_decision. Defined.

(** The places of the samples that count as the history of their instance. *)
Definition in_history (k : place) : bool :=
  match k with Unsent | Sending | Sent => true | Released | Resend => false end.

Record astate := mkA {
  lists : place -> list positive;
  holder : list positive;
  samples : gmap positive (list positive);
  waiting : gmap positive (list positive) }.

Definition fupd {A} (k : place) (v : A) (f : place -> A) : place -> A :=
  fun k' => if decide (k = k') then v else f k'.

Definition put (k : place) (xs : list positive) (a : astate) : astate :=
  mkA (fupd k xs (lists a)) (holder a) (samples a) (waiting a).
Definition append (k : place) (x : positive) (a : astate) : astate := put k (lists a k ++ [x]) a.
Definition take_out (k : place) (x : positive) (a : astate) : astate := put k (remove_elt x (lists a k)) a.
Definition with_history (ip : positive) (ys : list positive) (a : astate) : astate :=
  mkA (lists a) (holder a) (<[ip := ys]> (samples a)) (waiting a).
Definition unhold (x : positive) (a : astate) : astate :=
  mkA (lists a) (remove_elt x (holder a)) (samples a) (waiting a).
Definition history (ip : positive) (a : astate) : list positive := default [] (samples a !! ip).
Definition blocked (ip : positive) (a : astate) : list positive := default [] (waiting a !! ip).

(** The operations of the container on the abstract state. *)
Definition a_enqueue (x ip : positive) (a : astate) : astate :=
  with_history ip (history ip a ++ [x]) (append Unsent x a).
Definition a_get_unsent_data (a : astate) : astate :=
  put Unsent [] (put Sending (lists a Sending ++ lists a Unsent) a).
Definition a_get_resend_data (a : astate) : astate :=
  put Resend [] (put Released (lists a Released ++ lists a Resend) a).
Definition a_data_delivered (x ip : positive) (a : astate) : astate :=
  if decide (x ∈ lists a Released) then unhold x (take_out Released x a)
  else if decide (x ∈ lists a Sending) then
    let a := take_out Sending x a in
    if decide (blocked ip a = []) then append Sent x a
    else unhold x (with_history ip (remove_elt x (history ip a)) a)
  else a.
Definition a_data_dropped (x : positive) (a : astate) : astate :=
  if decide (x ∈ lists a Sending) then append Unsent x (take_out Sending x a)
  else if decide (x ∈ lists a Released) then unhold x (take_out Released x a)
  else a.
Definition a_remove_oldest (ip : positive) (a : astate) : astate :=
  match history ip a with
  | [] => a
  | x :: ys =>
      let a := with_history ip ys a in
      if decide (x ∈ lists a Sending) then append Released x (take_out Sending x a)
      else if decide (x ∈ lists a Sent) then unhold x (take_out Sent x a)
      else unhold x (take_out Unsent x a)
  end.
Fixpoint a_remove_all (n : nat) (ip : positive) (a : astate) : astate :=
  match n with O => a | S n => a_remove_all n ip (a_remove_oldest ip a) end.
Definition a_dispose (ip : positive) (a : astate) : astate := a_remove_all (length (history ip a)) ip a.

(** ** Representation *)

Definition list_of (c : WriteDataContainer) (k : place) : SampleList :=
  match k with
  | Unsent => unsent_data_ c | Sending => sending_data_ c | Sent => sent_data_ c
  | Released => released_data_ c | Resend => resend_data_ c
  end.

Record links (h : heap) (L : place -> SampleList) (hold : SampleList)
    (insts : gmap positive PublicationInstance) (a : astate) : Prop := mkLinks {
  l_send k : send_rep h (L k) (lists a k);
  l_holder : writer_rep h hold (holder a);
  l_samples : map_Forall2 (fun _ i ys => inst_rep h (samples_ i) ys) insts (samples a);
  l_waiting : map_Forall2 (fun _ i zs => inst_rep h (waiting_list_ i) zs) insts (waiting a) }.

(** The instance of a sample. *)
Definition handle_of (h : heap) (x : positive) : option positive := h !! x ≫= handle_.

(** Every sample is at one place; the history of an instance is exactly its
    unsent, sending and sent samples; the element of a blocked writer is on no
    list. *)
Record wf (hnd : positive -> option positive) (a : astate) : Prop := mkWf {
  wf_place k k' x : x ∈ lists a k -> x ∈ lists a k' -> k = k';
  wf_history ip ys x : samples a !! ip = Some ys ->
    x ∈ ys <-> (exists k, in_history k = true /\ x ∈ lists a k) /\ hnd x = Some ip;
  wf_waiting ip zs x : waiting a !! ip = Some zs -> x ∈ zs ->
    (forall k, x ∉ lists a k) /\ hnd x = Some ip;
  wf_owner k x : in_history k = true -> x ∈ lists a k ->
    exists ip, hnd x = Some ip /\ is_Some (samples a !! ip) }.

(** The message of a sample of a history is in the block store. *)
Definition has_block (h : heap) (blocks : gmap positive (list Z)) (x : positive) : Prop :=
  exists e b bytes, h !! x = Some e /\ sample_ e = Some b /\ blocks !! b = Some bytes.

Record Rep (c : WriteDataContainer) (a : astate) : Prop := mkRep {
  rep_links : links (heap_ c) (list_of c) (data_holder_ c) (insts_ c) a;
  rep_wf : wf (handle_of (heap_ c)) a;
  rep_blocks k x : in_history k = true -> x ∈ lists a k -> has_block (heap_ c) (blocks_ c) x;
  rep_map handle ip : find_handle (instances_ c) handle = Some ip -> is_Some (insts_ c !! ip) }.

(** ** Frames: what a change of the heap keeps *)

Lemma fupd_eq {A} k (v : A) f : fupd k v f k = v.
Proof. unfold fupd. by rewrite decide_True. Qed.
Lemma fupd_ne {A} k k' (v : A) f : k <> k' -> fupd k v f k' = f k'.
Proof. intros. unfold fupd. by rewrite decide_False. Qed.

Lemma send_rep_same h h' l xs :
  (forall x, x ∈ xs -> lview send_lk h' x = lview send_lk h x) -> send_rep h l xs -> send_rep h' l xs.
Proof. apply dl_frame. Qed.
Lemma writer_rep_same h h' l xs :
  (forall x, x ∈ xs -> lview writer_lk h' x = lview writer_lk h x) -> writer_rep h l xs -> writer_rep h' l xs.
Proof. apply dl_frame. Qed.
Lemma inst_rep_same h h' l xs :
  (forall x, x ∈ xs -> iview h' x = iview h x) -> inst_rep h l xs -> inst_rep h' l xs.
Proof. intros Hv (H1 & H2 & H3 & H4 & H5). repeat (split; [done|]). by eapply iseg_frame. Qed.

Lemma lview_lookup L h h' x : h' !! x = h !! x -> lview L h' x = lview L h x.
Proof. unfold lview. by intros ->. Qed.
Lemma iview_lookup h h' x : h' !! x = h !! x -> iview h' x = iview h x.
Proof. unfold iview. by intros ->. Qed.

(** A change of one kind of link keeps the other kinds, the instance and the
    message of every sample. *)
Lemma upto_lview (L : linkage) erase zs h h' x :
  (forall e, lk_prev L (erase e) = lk_prev L e) -> (forall e, lk_next L (erase e) = lk_next L e) ->
  upto erase zs h h' -> lview L h' x = lview L h x.
Proof.
  intros Hp Hn. apply (upto_field (fun e => (lk_prev L e, lk_next L e))).
  intros e. by rewrite Hp, Hn.
Qed.
Lemma upto_iview erase zs h h' x :
  (forall e, next_instance_sample_ (erase e) = next_instance_sample_ e) ->
  upto erase zs h h' -> iview h' x = iview h x.
Proof. apply (upto_field next_instance_sample_). Qed.
Lemma upto_handle erase zs h h' x :
  (forall e, handle_ (erase e) = handle_ e) -> upto erase zs h h' -> handle_of h' x = handle_of h x.
Proof.
  intros He Hu. unfold handle_of. pose proof (upto_field handle_ erase zs h h' x He Hu) as H.
  destruct (h' !! x), (h !! x); cbn in *; congruence.
Qed.
Lemma upto_has_block erase zs h h' blocks x :
  (forall e, sample_ (erase e) = sample_ e) -> upto erase zs h h' -> has_block h blocks x -> has_block h' blocks x.
Proof.
  intros He Hu (e & b & bytes & Hx & Hb & Hbs). pose proof (upto_field sample_ erase zs h h' x He Hu) as H.
  rewrite Hx in H. destruct (h' !! x) as [e'|] eqn:He'; cbn in H; [|done].
  exists e', b, bytes. split; [done|]. split; [congruence|done].
Qed.

(** ** Changes of one part of the links *)

Section links.
Context (h h' : heap) (L : place -> SampleList) (hold : SampleList)
  (insts : gmap positive PublicationInstance) (a : astate).
Context (Hl : links h L hold insts a).

Lemma links_ext L' : (forall k, L' k = L k) -> links h L' hold insts a.
Proof using Hl. intros HL. destruct Hl as [H1 H2 H3 H4]. split; [|done..]. intros k. rewrite HL. apply H1. Qed.

Lemma links_send k zs l' ys :
  upto erase_send zs h h' -> (forall k' x, k' <> k -> x ∈ lists a k' -> x ∉ zs) -> send_rep h' l' ys ->
  links h' (fupd k l' L) hold insts (put k ys a).
Proof using Hl.
  intros Hu Hd Hys. destruct Hl as [H1 H2 H3 H4]. split; cbn.
  - intros k'. destruct (decide (k = k')) as [<-|Hk]; [by rewrite !fupd_eq|]. rewrite !fupd_ne by done.
    eapply send_rep_same; [|apply H1]. intros x Hx. apply lview_lookup, Hu. by eapply Hd.
  - eapply writer_rep_same; [|exact H2]. intros x _. by apply (upto_lview writer_lk erase_send zs).
  - eapply map_Forall2_impl; [exact H3|]. intros ip i xs Hi.
    eapply inst_rep_same; [|exact Hi]. intros x _. by apply (upto_iview erase_send zs).
  - eapply map_Forall2_impl; [exact H4|]. intros ip i xs Hi.
    eapply inst_rep_same; [|exact Hi]. intros x _. by apply (upto_iview erase_send zs).
Qed.

Lemma links_holder zs hold' ws :
  upto erase_writer zs h h' -> writer_rep h' hold' ws ->
  links h' L hold' insts (mkA (lists a) ws (samples a) (waiting a)).
Proof using Hl.
  intros Hu Hws. destruct Hl as [H1 H2 H3 H4]. split; cbn; [|done|..].
  - intros k. eapply send_rep_same; [|apply H1]. intros x _. by apply (upto_lview send_lk erase_writer zs).
  - eapply map_Forall2_impl; [exact H3|]. intros ip i xs Hi.
    eapply inst_rep_same; [|exact Hi]. intros x _. by apply (upto_iview erase_writer zs).
  - eapply map_Forall2_impl; [exact H4|]. intros ip i xs Hi.
    eapply inst_rep_same; [|exact Hi]. intros x _. by apply (upto_iview erase_writer zs).
Qed.

Lemma links_free p :
  (forall k, p ∉ lists a k) -> p ∉ holder a ->
  (forall ip ys, samples a !! ip = Some ys -> p ∉ ys) -> (forall ip zs, waiting a !! ip = Some zs -> p ∉ zs) ->
  (forall x, x <> p -> h' !! x = h !! x) ->
  links h' L hold insts a.
Proof using Hl.
  intros Hp1 Hp2 Hp3 Hp4 Hh. destruct Hl as [H1 H2 H3 H4]. split.
  - intros k. eapply send_rep_same; [|apply H1]. intros x Hx. apply lview_lookup, Hh. set_solver.
  - eapply writer_rep_same; [|exact H2]. intros x Hx. apply lview_lookup, Hh. set_solver.
  - intros ip. specialize (H3 ip). destruct (insts !! ip), (samples a !! ip) eqn:E; inversion H3; constructor.
    eapply inst_rep_same; [|done]. intros v Hv. apply iview_lookup, Hh. intros ->. by eapply Hp3.
  - intros ip. specialize (H4 ip). destruct (insts !! ip), (waiting a !! ip) eqn:E; inversion H4; constructor.
    eapply inst_rep_same; [|done]. intros v Hv. apply iview_lookup, Hh. intros ->. by eapply Hp4.
Qed.

Lemma links_history ip i zs l' ys :
  insts !! ip = Some i ->
  upto erase_inst zs h h' -> (forall jp xs x, jp <> ip -> samples a !! jp = Some xs -> x ∈ xs -> x ∉ zs) ->
  (forall jp xs x, waiting a !! jp = Some xs -> x ∈ xs -> x ∉ zs) -> inst_rep h' l' ys ->
  links h' L hold (<[ip := with_samples l' i]> insts) (with_history ip ys a).
Proof using Hl.
  intros Hip Hu Hd1 Hd2 Hys. destruct Hl as [H1 H2 H3 H4]. split; cbn.
  - intros k. eapply send_rep_same; [|apply H1]. intros x _. by apply (upto_lview send_lk erase_inst zs).
  - eapply writer_rep_same; [|exact H2]. intros x _. by apply (upto_lview writer_lk erase_inst zs).
  - intros jp. destruct (decide (ip = jp)) as [<-|Hj].
    { rewrite !lookup_insert_eq. by constructor. }
    rewrite !lookup_insert_ne by done. specialize (H3 jp).
    destruct (insts !! jp), (samples a !! jp) eqn:E; inversion H3; constructor.
    eapply inst_rep_same; [|done]. intros v Hv. apply iview_lookup, Hu. by eapply Hd1.
  - intros jp.
    assert (option_Forall2 (fun j zs => inst_rep h (waiting_list_ j) zs) (<[ip:=with_samples l' i]> insts !! jp) (waiting a !! jp)) as Hj.
    { specialize (H4 jp). destruct (decide (ip = jp)) as [<-|Hj]; [|by rewrite lookup_insert_ne].
      rewrite lookup_insert_eq. rewrite Hip in H4. destruct (waiting a !! ip); inversion H4; by constructor. }
    destruct (<[ip:=with_samples l' i]> insts !! jp), (waiting a !! jp) eqn:E; inversion Hj; constructor.
    eapply inst_rep_same; [|done]. intros v Hv. apply iview_lookup, Hu. by eapply Hd2.
Qed.

(** An instance field other than the two lists. *)
Lemma links_inst ip i i' :
  insts !! ip = Some i -> samples_ i' = samples_ i -> waiting_list_ i' = waiting_list_ i ->
  links h L hold (<[ip := i']> insts) a.
Proof using Hl.
  intros Hip Hs Hw. destruct Hl as [H1 H2 H3 H4]. split; [done|done|..]; intros jp.
  - specialize (H3 jp). destruct (decide (ip = jp)) as [<-|Hj]; [|by rewrite lookup_insert_ne].
    rewrite lookup_insert_eq. rewrite Hip in H3. destruct (samples a !! ip); inversion H3; constructor. by rewrite Hs.
  - specialize (H4 jp). destruct (decide (ip = jp)) as [<-|Hj]; [|by rewrite lookup_insert_ne].
    rewrite lookup_insert_eq. rewrite Hip in H4. destruct (waiting a !! ip); inversion H4; constructor. by rewrite Hw.
Qed.

Lemma links_instance ip i :
  insts !! ip = Some i ->
  exists ys zs, samples a !! ip = Some ys /\ inst_rep h (samples_ i) ys
    /\ waiting a !! ip = Some zs /\ inst_rep h (waiting_list_ i) zs.
Proof using Hl.
  intros Hip. destruct Hl as [_ _ H3 H4]. specialize (H3 ip). specialize (H4 ip). rewrite Hip in H3, H4.
  inversion H3 as [? ys ? E1 E2|]. inversion H4 as [? zs ? E3 E4|]. subst. eauto 10.
Qed.
Lemma links_instance_inv ip ys : samples a !! ip = Some ys -> exists i, insts !! ip = Some i.
Proof using Hl.
  intros Hs. destruct Hl as [_ _ H3 _]. specialize (H3 ip). rewrite Hs in H3. inversion H3. eauto.
Qed.
End links.

(** ** The abstract operations keep the invariant *)

Lemma elem_of_fupd k (xs : list positive) f k' x :
  x ∈ fupd k xs f k' <-> (k = k' /\ x ∈ xs) \/ (k <> k' /\ x ∈ f k').
Proof. unfold fupd. case_decide; naive_solver. Qed.

Lemma wf_ext (hnd hnd' : positive -> option positive) a :
  (forall x k, x ∈ lists a k -> hnd' x = hnd x) ->
  (forall x ip zs, waiting a !! ip = Some zs -> x ∈ zs -> hnd' x = hnd x) ->
  wf hnd a -> wf hnd' a.
Proof.
  intros H1 H2 [W1 W2 W3 W4]. split; [done|..].
  - intros ip ys x Hys. rewrite (W2 ip ys x Hys). split; intros [(k & Hk & Hx) Hh]; (split; [by exists k|]);
      rewrite ?(H1 x k Hx) in *; done.
  - intros ip zs x Hzs Hx. destruct (W3 ip zs x Hzs Hx) as [Hn Hh]. split; [done|]. by rewrite (H2 x ip zs).
  - intros k x Hk Hx. rewrite (H1 x k Hx). eauto.
Qed.

(** A sample that changes its place within or outside the history. *)
Lemma wf_move hnd a k k' x :
  wf hnd a -> x ∈ lists a k -> in_history k' = in_history k -> k <> k' ->
  wf hnd (append k' x (take_out k x a)).
Proof.
  intros [W1 W2 W3 W4] Hx Hk Hne.
  assert (forall j y, y ∈ lists (append k' x (take_out k x a)) j
    <-> (y = x /\ j = k') \/ (y <> x /\ y ∈ lists a j)) as Hin.
  { intros j y. cbn [lists append take_out put with_history]. rewrite elem_of_fupd, (fupd_ne k k') by done. rewrite elem_of_fupd, elem_of_app, elem_of_remove_elt, list_elem_of_singleton.
    assert (forall j', x ∈ lists a j' -> j' = k) as Hu by eauto. clear W1 W2 W3 W4.
    destruct (decide (k' = j)), (decide (k = j)), (decide (y = x)); subst; intuition (try congruence);
      exfalso; match goal with H : x ∈ lists a _ |- _ => apply Hu in H; congruence end. }
  assert (forall y, (exists j, in_history j = true /\ y ∈ lists (append k' x (take_out k x a)) j)
     <-> (exists j, in_history j = true /\ y ∈ lists a j)) as Hhist.
  { intros y. setoid_rewrite Hin. split.
    - intros (j & Hj & [[-> ->]|[Hy Hl]]); [exists k; split; [congruence|done]|eauto].
    - intros (j & Hj & Hl). destruct (decide (y = x)) as [->|]; [|eauto].
      assert (j = k) as -> by eauto. exists k'. split; [congruence|]. by left. }
  split.
  - intros j j' y. rewrite !Hin. clear W2 W3 W4. naive_solver.
  - intros ip ys y Hys. rewrite Hhist. by apply W2.
  - intros ip zs y Hzs Hy. destruct (W3 ip zs y Hzs Hy) as [Hn Hh]. split; [|done].
    intros j. rewrite Hin. intros [[-> ->]|[_ Hl]]; [by apply (Hn k)|by apply (Hn j)].
  - intros j y Hj Hy. apply Hin in Hy as [[-> ->]|[_ Hl]]; [|eauto]. apply (W4 k); [congruence|done].
Qed.

(** A sample that leaves its place and, if it counted, its history. *)
Lemma wf_retire hnd a k x ip ys :
  wf hnd a -> x ∈ lists a k -> in_history k = true -> samples a !! ip = Some ys -> x ∈ ys ->
  wf hnd (take_out k x (with_history ip (remove_elt x ys) a)).
Proof.
  intros [W1 W2 W3 W4] Hx Hk Hys Hxys.
  assert (forall j y, y ∈ lists (take_out k x (with_history ip (remove_elt x ys) a)) j
    <-> y <> x /\ y ∈ lists a j) as Hin.
  { intros j y. cbn [lists append take_out put with_history]. rewrite elem_of_fupd, elem_of_remove_elt.
    assert (forall j', x ∈ lists a j' -> j' = k) as Hu by eauto. clear W1 W2 W3 W4.
    destruct (decide (k = j)), (decide (y = x)); subst; intuition (try congruence);
      exfalso; match goal with H : x ∈ lists a _ |- _ => apply Hu in H; congruence end. }
  split.
  - intros j j' y. rewrite !Hin. clear W2 W3 W4. naive_solver.
  - intros jp zs y. cbn [samples with_history take_out put]. setoid_rewrite Hin.
    destruct (decide (ip = jp)) as [<-|Hj].
    + rewrite lookup_insert_eq. intros [= <-]. rewrite elem_of_remove_elt, (W2 ip ys y Hys). naive_solver.
    + rewrite lookup_insert_ne by done. intros Hzs. rewrite (W2 jp zs y Hzs).
      assert (hnd x = Some ip) by (by apply (W2 ip ys x Hys)). split.
      * intros [(j & Hj' & Hl) Hh]. split; [|done]. exists j. split; [done|]. split; [congruence|done].
      * naive_solver.
  - intros jp zs y Hzs Hy. destruct (W3 jp zs y Hzs Hy) as [Hn Hh]. split; [|done].
    intros j. rewrite Hin. clear - Hn. naive_solver.
  - intros j y Hj [_ Hy]%Hin. destruct (W4 j y Hj Hy) as (jp & Hh & Hs). exists jp. split; [done|].
    cbn. destruct (decide (ip = jp)) as [<-|]; [rewrite lookup_insert_eq|rewrite lookup_insert_ne]; eauto.
Qed.

(** A sample appears, or leaves, outside the history. *)
Lemma wf_append_out hnd a k x :
  wf hnd a -> (forall j, x ∉ lists a j) -> (forall ip zs, waiting a !! ip = Some zs -> x ∉ zs) ->
  in_history k = false -> wf hnd (append k x a).
Proof.
  intros [W1 W2 W3 W4] Hx Hw Hk.
  assert (forall j y, y ∈ lists (append k x a) j <-> (y = x /\ j = k) \/ y ∈ lists a j) as Hin.
  { intros j y. cbn [lists append take_out put with_history]. rewrite elem_of_fupd, elem_of_app, list_elem_of_singleton. clear.
    destruct (decide (k = j)), (decide (y = x)); subst; intuition (try congruence). }
  split.
  - intros j j' y. rewrite !Hin. clear W2 W3 W4. naive_solver.
  - intros ip ys y Hys. rewrite (W2 ip ys y Hys). setoid_rewrite Hin. split; [naive_solver|].
    intros [(j & Hj & [[-> ->]|Hl]) Hh]; [congruence|]. split; [eauto|done].
  - intros ip zs y Hzs Hy. destruct (W3 ip zs y Hzs Hy) as [Hn Hh]. split; [|done].
    intros j. rewrite Hin. intros [[-> _]|Hl]; [by eapply Hw|by eapply Hn].
  - intros j y Hj Hy. apply Hin in Hy as [[-> ->]|Hl]; [congruence|eauto].
Qed.

Lemma wf_take_out hnd a k x : wf hnd a -> in_history k = false -> wf hnd (take_out k x a).
Proof.
  intros [W1 W2 W3 W4] Hk.
  assert (forall j y, y ∈ lists (take_out k x a) j <-> y ∈ lists a j /\ (j = k -> y <> x)) as Hin.
  { intros j y. cbn [lists append take_out put with_history]. rewrite elem_of_fupd, elem_of_remove_elt. clear.
    destruct (decide (k = j)), (decide (y = x)); subst; intuition (try congruence). }
  split.
  - intros j j' y. rewrite !Hin. clear W2 W3 W4. naive_solver.
  - intros ip ys y Hys. rewrite (W2 ip ys y Hys). setoid_rewrite Hin. split; [|naive_solver].
    intros [(j & Hj & Hl) Hh]. split; [|done]. exists j. split; [done|]. split; [done|]. congruence.
  - intros ip zs y Hzs Hy. destruct (W3 ip zs y Hzs Hy) as [Hn Hh]. split; [|done]. intros j. rewrite Hin. clear - Hn. naive_solver.
  - intros j y Hj [Hl _]%Hin. eauto.
Qed.

Lemma wf_unhold hnd a x : wf hnd a -> wf hnd (unhold x a).
Proof. intros [W1 W2 W3 W4]. by split. Qed.

(** All samples of one place move to another. *)
Lemma wf_merge hnd a k k' :
  wf hnd a -> in_history k' = in_history k -> k <> k' ->
  wf hnd (put k [] (put k' (lists a k' ++ lists a k) a)).
Proof.
  intros [W1 W2 W3 W4] Hk Hne.
  assert (forall j y, y ∈ lists (put k [] (put k' (lists a k' ++ lists a k) a)) j
    <-> (j = k' /\ y ∈ lists a k) \/ (j <> k /\ y ∈ lists a j)) as Hin.
  { intros j y. cbn [lists append take_out put with_history]. rewrite !elem_of_fupd, elem_of_app, elem_of_nil. clear -Hne.
    destruct (decide (k' = j)), (decide (k = j)); subst; intuition (try congruence). }
  split.
  - intros j j' y. rewrite !Hin. clear W2 W3 W4. naive_solver.
  - intros ip ys y Hys. rewrite (W2 ip ys y Hys). setoid_rewrite Hin. split; intros [(j & Hj & Hl) Hh]; (split; [|done]).
    + destruct (decide (j = k)) as [->|]; [|eauto]. exists k'. split; [congruence|]. by left.
    + destruct Hl as [[-> Hl]|[_ Hl]]; [exists k; split; [congruence|done]|eauto].
  - intros ip zs y Hzs Hy. destruct (W3 ip zs y Hzs Hy) as [Hn Hh]. split; [|done]. intros j. rewrite Hin. clear - Hn. naive_solver.
  - intros j y Hj Hy. apply Hin in Hy as [[-> Hl]|[_ Hl]]; [|eauto]. apply (W4 k); [congruence|done].
Qed.

Lemma wf_enqueue hnd a x ip ys :
  wf hnd a -> (forall k, x ∉ lists a k) -> (forall jp zs, waiting a !! jp = Some zs -> x ∉ zs) ->
  hnd x = Some ip -> samples a !! ip = Some ys -> wf hnd (a_enqueue x ip a).
Proof.
  intros [W1 W2 W3 W4] Hx Hw Hh Hys. unfold a_enqueue, history. rewrite Hys. cbn [default].
  assert (forall j y, y ∈ lists (append Unsent x a) j <-> (y = x /\ j = Unsent) \/ y ∈ lists a j) as Hin.
  { intros j y. cbn [lists append take_out put with_history]. rewrite elem_of_fupd, elem_of_app, list_elem_of_singleton. clear.
    destruct (decide (Unsent = j)), (decide (y = x)); subst; intuition (try congruence). }
  split.
  - intros j j' y. cbn [lists with_history]. rewrite !Hin. clear W2 W3 W4. naive_solver.
  - intros jp zs y. cbn [lists samples with_history append put]. setoid_rewrite Hin. destruct (decide (ip = jp)) as [<-|Hj].
    + rewrite lookup_insert_eq. intros [= <-]. cbn [id]. rewrite elem_of_app, list_elem_of_singleton, (W2 ip ys y Hys).
      split; [|naive_solver]. intros [[(j & Hj & Hl) Hhy]| ->]; [naive_solver|]. split; [|done]. exists Unsent. auto.
    + rewrite lookup_insert_ne by done. intros Hzs. rewrite (W2 jp zs y Hzs). split; [naive_solver|].
      intros [(j & Hj' & [[-> ->]|Hl]) Hhy]; [congruence|]. split; [eauto|done].
  - intros jp zs y Hzs Hy. destruct (W3 jp zs y Hzs Hy) as [Hn Hhy]. split; [|done].
    intros j. cbn [lists with_history]. rewrite Hin. intros [[-> _]|Hl]; [by eapply Hw|by eapply Hn].
  - intros j y Hj Hy. cbn [lists with_history] in Hy. apply Hin in Hy as [[-> ->]|Hl].
    + exists ip. split; [done|]. cbn. rewrite lookup_insert_eq. eauto.
    + destruct (W4 j y Hj Hl) as (jp & Hhy & Hs). exists jp. split; [done|]. cbn.
      destruct (decide (ip = jp)) as [<-|]; [rewrite lookup_insert_eq|rewrite lookup_insert_ne]; eauto.
Qed.

(** ** The operations implement the abstract ones *)

(** [h'] has no sample that [h] has not, and the flag that tells a blocked
    writer that it may proceed is the same. *)
Definition spaces (h h' : heap) : Prop :=
  forall x e', h' !! x = Some e' -> exists e, h !! x = Some e /\ space_available_ e' = space_available_ e.
Lemma spaces_trans h1 h2 h3 : spaces h1 h2 -> spaces h2 h3 -> spaces h1 h3.
Proof. intros H1 H2 x e Hx. destruct (H2 x e Hx) as (e2 & He2 & ->). by apply H1. Qed.
Lemma spaces_upto erase zs h h' :
  (forall e, space_available_ (erase e) = space_available_ e) -> upto erase zs h h' -> spaces h h'.
Proof.
  intros He Hu x e' Hx. pose proof (upto_field space_available_ erase zs h h' x He Hu) as H.
  rewrite Hx in H. destruct (h !! x) as [e|]; cbn in H; [|done]. exists e. split; [done|congruence].
Qed.

(** A live sample on no list of its instance or of a blocked writer. *)
Definition off_instances (a : astate) (x : positive) : Prop :=
  (forall ip ys, samples a !! ip = Some ys -> x ∉ ys) /\ (forall ip zs, waiting a !! ip = Some zs -> x ∉ zs).

Lemma release_buffer_spec c L a p :
  links (heap_ c) L (data_holder_ c) (insts_ c) a -> is_Some (heap_ c !! p) ->
  (forall k, p ∉ lists a k) -> off_instances a p ->
  exists h' hold', release_buffer c p = Ret (with_heap h' (with_data_holder hold' c))
    /\ links h' L hold' (insts_ c) (unhold p a)
    /\ (forall x, x <> p -> handle_of h' x = handle_of (heap_ c) x)
    /\ (forall bl x, x <> p -> has_block (heap_ c) bl x -> has_block h' bl x) /\ spaces (heap_ c) h'
    /\ (forall y, y <> p -> y ∉ holder a -> h' !! y = heap_ c !! y).
Proof.
  intros Hl Hp Hk [Hs Hw]. unfold release_buffer.
  assert (exists h1 hold' b, writer_dequeue (heap_ c) (data_holder_ c) p = Ret (h1, hold', b)
    /\ writer_rep h1 hold' (remove_elt p (holder a)) /\ upto erase_writer (holder a) (heap_ c) h1)
    as (h1 & hold' & b & -> & Hrep & Hu).
  { destruct Hl as [_ Hh _ _]. destruct (decide (p ∈ holder a)) as [Hin|Hin].
    - destruct (writer_dequeue_spec _ _ _ _ Hh Hin) as (h1 & hold' & E & H1 & _ & H2). eauto 10.
    - rewrite (writer_dequeue_notin _ _ _ _ Hh Hin), remove_elt_notin by done. do 3 eexists.
      split; [reflexivity|]. split; [done|apply upto_refl]. }
  cbn [mbind outcome_bind]. pose proof (proj2 (upto_dom _ _ _ _ p Hu) Hp) as [e He]. rewrite He. cbn [deref mbind outcome_bind].
  eexists _, _. split; [reflexivity|]. split; [|split; [|split; [|split]]].
  - pose proof (links_holder _ _ _ _ _ _ Hl _ _ _ Hu Hrep) as Hl1.
    apply (links_free _ _ _ _ _ _ Hl1 p); cbn; [done| |done|done|].
    + rewrite elem_of_remove_elt. tauto.
    + intros x Hx. by rewrite lookup_delete_ne.
  - intros x Hx. unfold handle_of. rewrite lookup_delete_ne by done. by apply (upto_handle erase_writer (holder a)).
  - intros bl x Hx Hb. pose proof (upto_has_block erase_writer _ _ _ _ _ (fun _ => eq_refl) Hu Hb) as (e' & b' & bs & H1 & H2 & H3).
    exists e', b', bs. by rewrite lookup_delete_ne.
  - eapply spaces_trans; [by apply (spaces_upto erase_writer _ _ _ (fun _ => eq_refl) Hu)|].
    intros x e' Hx. apply lookup_delete_Some in Hx as [_ Hx]. eauto.
  - intros y Hy Hyh. rewrite lookup_delete_ne by done. by apply Hu.
Qed.

(** A sample at a place is in the history of its instance exactly when the
    place counts. *)
Lemma wf_off_history hnd a k x :
  wf hnd a -> x ∈ lists a k -> in_history k = false -> off_instances a x.
Proof.
  intros [W1 W2 W3 W4] Hx Hk. split.
  - intros ip ys Hys Hin. apply (W2 ip ys x Hys) in Hin as [(j & Hj & Hl) _].
    rewrite (W1 k j x Hx Hl) in Hk. congruence.
  - intros ip zs Hzs Hin. destruct (W3 ip zs x Hzs Hin) as [Hn _]. by apply (Hn k).
Qed.

Section moves.
Context (h : heap) (L : place -> SampleList) (hold : SampleList)
  (insts : gmap positive PublicationInstance) (a : astate).
Context (Hl : links h L hold insts a)
  (Hd : forall k k' x, x ∈ lists a k -> x ∈ lists a k' -> k = k').

Lemma send_enqueue_links k x :
  (forall j, x ∉ lists a j) -> send_free h x ->
  exists h' l', send_enqueue_tail h (L k) x = Ret (h', l')
    /\ links h' (fupd k l' L) hold insts (append k x a) /\ upto erase_send (x :: lists a k) h h'.
Proof using Hl Hd.
  intros Hx Hf. destruct (send_enqueue_tail_spec h (L k) (lists a k) x) as (h' & l' & E & Hr & Hu); [apply Hl|done|done|].
  exists h', l'. split; [done|]. split; [|done].
  apply (links_send h h' L hold insts a Hl k (x :: lists a k)); [done| |done].
  intros k' y Hk Hy [->|Hy']%elem_of_cons; [by apply (Hx k')|]. by apply Hk, (Hd k' k y).
Qed.

Lemma send_dequeue_links k x :
  x ∈ lists a k ->
  exists h' l', send_dequeue h (L k) x = Ret (h', l', true)
    /\ links h' (fupd k l' L) hold insts (take_out k x a) /\ send_free h' x /\ upto erase_send (lists a k) h h'.
Proof using Hl Hd.
  intros Hx. destruct (send_dequeue_spec h (L k) (lists a k) x) as (h' & l' & E & Hr & Hf & Hu); [apply Hl|done|].
  exists h', l'. split; [done|]. split; [|done].
  apply (links_send h h' L hold insts a Hl k (lists a k)); [done| |done].
  intros k' y Hk Hy Hy'. by apply Hk, (Hd k' k y).
Qed.

Lemma send_dequeue_links_notin k x : x ∉ lists a k -> send_dequeue h (L k) x = Ret (h, L k, false).
Proof using Hl. intros Hx. eapply send_dequeue_notin; [apply Hl|done]. Qed.

Lemma send_merge_links k k' :
  k <> k' -> lists a k' = [] \/ lists a k <> [] ->
  exists h' l', send_enqueue_list h (L k') (L k) = Ret (h', l')
    /\ links h' (fupd k empty_list (fupd k' l' L)) hold insts (put k [] (put k' (lists a k' ++ lists a k) a))
    /\ upto erase_send (lists a k' ++ lists a k) h h'.
Proof using Hl Hd.
  intros Hne Hc.
  destruct (send_enqueue_list_spec h (L k') (L k) (lists a k') (lists a k)) as (h' & l' & E & Hr & Hu);
    [apply Hl|apply Hl| |done|].
  { intros z Hz Hz'. by apply Hne, (Hd k k' z). }
  exists h', l'. split; [done|]. split; [|done]. destruct Hl as [H1 H2 H3 H4]. split; cbn [lists put holder samples waiting].
  - intros j. destruct (decide (k = j)) as [<-|Hj].
    { rewrite !fupd_eq. repeat split; try done. constructor. }
    rewrite !(fupd_ne k j) by done. destruct (decide (k' = j)) as [<-|Hj']; [by rewrite !fupd_eq|].
    rewrite !fupd_ne by done. eapply send_rep_same; [|apply H1]. intros x Hx. apply lview_lookup, Hu.
    intros [Hy|Hy]%elem_of_app; [apply Hj'|apply Hj]; eauto.
  - eapply writer_rep_same; [|exact H2]. intros x _. by apply (upto_lview writer_lk erase_send _ _ _ _ (fun _ => eq_refl) (fun _ => eq_refl) Hu).
  - eapply map_Forall2_impl; [exact H3|]. intros ip i xs Hi.
    eapply inst_rep_same; [|exact Hi]. intros x _. by apply (upto_iview erase_send _ _ _ _ (fun _ => eq_refl) Hu).
  - eapply map_Forall2_impl; [exact H4|]. intros ip i xs Hi.
    eapply inst_rep_same; [|exact Hi]. intros x _. by apply (upto_iview erase_send _ _ _ _ (fun _ => eq_refl) Hu).
Qed.
End moves.

(** What [upto] gives for the data of the samples. *)
Lemma wf_upto erase zs h h' a :
  (forall e, handle_ (erase e) = handle_ e) -> upto erase zs h h' -> wf (handle_of h) a -> wf (handle_of h') a.
Proof. intros He Hu. apply wf_ext; intros; by eapply upto_handle. Qed.

Lemma rep_fields c c' a :
  Rep c a -> heap_ c' = heap_ c -> blocks_ c' = blocks_ c -> insts_ c' = insts_ c -> instances_ c' = instances_ c ->
  data_holder_ c' = data_holder_ c -> (forall k, list_of c' k = list_of c k) -> Rep c' a.
Proof.
  intros [R1 R2 R3 R4] E1 E2 E3 E4 E5 E6. split; rewrite ?E1, ?E2, ?E3, ?E4, ?E5; [|done..].
  by eapply links_ext.
Qed.

Lemma rep_signal_empty c a : Rep c a -> Rep (signal_empty c) a.
Proof. intros HR. unfold signal_empty. destruct (pending_data c); [done|]. by apply (rep_fields c). Qed.

Lemma rep_place c a k k' x : Rep c a -> x ∈ lists a k -> x ∈ lists a k' -> k = k'.
Proof. intros [_ [H _ _ _] _ _]. apply H. Qed.

(** The hypotheses on a sample that is about to be enqueued. *)
Record ready (c : WriteDataContainer) (a : astate) (x ip : positive) : Prop := mkReady {
  ready_off k : x ∉ lists a k;
  ready_inst : off_instances a x;
  ready_links : send_free (heap_ c) x;
  ready_handle : handle_of (heap_ c) x = Some ip;
  ready_block : has_block (heap_ c) (blocks_ c) x }.

Lemma handle_of_live h x ip : handle_of h x = Some ip -> is_Some (h !! x).
Proof. unfold handle_of. destruct (h !! x); [eauto|done]. Qed.

Lemma enqueue_refines now c a x handle ip :
  Rep c a -> find_handle (instances_ c) handle = Some ip -> ready c a x ip ->
  exists c', enqueue now c x handle = Ret (c', RETCODE_OK) /\ Rep c' (a_enqueue x ip a)
    /\ depth_ c' = depth_ c /\ instances_ c' = instances_ c.
Proof.
  intros [Rl Rw Rb Rm] Hip [Q1 [Q2a Q2b] Q3 Q4 Q5]. unfold enqueue, get_handle_instance. rewrite Hip. cbn [deref mbind outcome_bind].
  destruct (Rm _ _ Hip) as [i Hi]. cbn [instance_at]. rewrite Hi. cbn [deref mbind outcome_bind].
  set (i' := if watchdog_ c then with_sample_times (cur_sample_tv_ i) now i else i).
  set (c1 := if watchdog_ c then log_call (WatchdogExecute ip) (set_inst ip i' c) else c).
  assert ((if watchdog_ c
           then (log_call (WatchdogExecute ip) (set_inst ip (with_sample_times (cur_sample_tv_ i) now i) c),
                 with_sample_times (cur_sample_tv_ i) now i)
           else (c, i)) = (c1, i')) as -> by (unfold c1, i'; by destruct (watchdog_ c)).
  assert (heap_ c1 = heap_ c /\ unsent_data_ c1 = unsent_data_ c /\ samples_ i' = samples_ i) as (-> & -> & ->)
    by (unfold c1, i'; by destruct (watchdog_ c)).
  destruct (send_enqueue_links _ _ _ _ _ Rl (wf_place _ _ Rw) Unsent x Q1 Q3) as (h1 & l1 & E1 & Hl1 & Hu1).
  cbn [list_of] in E1. rewrite E1. cbn [mbind outcome_bind].
  destruct (links_instance _ _ _ _ _ Hl1 ip i Hi) as (ys & zs & Hys & Hri & Hzs & Hrw). cbn in Hys, Hzs.
  destruct (inst_enqueue_tail_spec h1 (samples_ i) ys x) as (h2 & l2 & E2 & Hr2 & Hu2); [done|by eapply Q2a| |].
  { apply (upto_dom _ _ _ _ x Hu1). by eapply handle_of_live. }
  rewrite E2. cbn [mbind outcome_bind].
  pose proof (links_history h1 h2 _ _ _ _ Hl1 ip i (x :: ys) l2 (ys ++ [x]) Hi Hu2) as Hl2.
  assert (forall y, handle_of h2 y = handle_of (heap_ c) y) as Hh.
  { intros y. rewrite (upto_handle erase_inst _ _ _ y (fun _ => eq_refl) Hu2). by apply (upto_handle erase_send _ _ _ y (fun _ => eq_refl) Hu1). }
  eexists. split; [reflexivity|].
  assert (Rep (set_inst ip (with_samples l2 i') (with_heap h2 (with_unsent_data l1 c1))) (a_enqueue x ip a)) as HR.
  { split.
    - eapply (links_ext _ (fupd Unsent l1 (list_of c))); [|intros []; unfold c1; by destruct (watchdog_ c)].
      unfold a_enqueue, history. rewrite Hys. cbn [default id].
      replace (insts_ _) with (<[ip := with_samples l2 i']> (insts_ c))
        by (unfold c1; destruct (watchdog_ c); cbn; [by rewrite insert_insert_eq|done]).
      replace (data_holder_ _) with (data_holder_ c) by (unfold c1; by destruct (watchdog_ c)).
      rewrite <- (insert_insert_eq (insts_ c) ip (with_samples l2 i') (with_samples l2 i)).
      eapply links_inst; [apply Hl2| by rewrite lookup_insert_eq|done|unfold i'; by destruct (watchdog_ c)].
      + cbn. intros jp xs y Hj Hxs Hy [->|Hy']%elem_of_cons; [by eapply Q2a|].
        destruct Rw as [_ W2 _ _]. apply (W2 ip ys y Hys) in Hy' as [_ ?]. apply (W2 jp xs y Hxs) in Hy as [_ ?]. congruence.
      + cbn. intros jp xs y Hxs Hy [->|Hy']%elem_of_cons; [by eapply Q2b|].
        destruct Rw as [_ W2 W3 _]. apply (W2 ip ys y Hys) in Hy' as [(k & _ & Hk) _].
        destruct (W3 jp xs y Hxs Hy) as [Hn _]. by apply (Hn k).
      + done.
    - eapply (wf_ext (handle_of (heap_ c))); [intros; apply Hh|intros; apply Hh|].
      eapply wf_enqueue; done.
    - replace (blocks_ _) with (blocks_ c) by (unfold c1; by destruct (watchdog_ c)). cbn [heap_ set_inst with_insts with_heap].
      intros k y Hk Hy.
      eapply (upto_has_block erase_inst); [done|exact Hu2|]. eapply (upto_has_block erase_send); [done|exact Hu1|].
      unfold a_enqueue in Hy. cbn [lists with_history append put] in Hy.
      apply elem_of_fupd in Hy as [[<- [Hy|Hy]%elem_of_app]|[_ Hy]]; [by eapply (Rb Unsent)| |by eapply Rb].
      apply list_elem_of_singleton in Hy as ->. done.
    - replace (instances_ _) with (instances_ c) by (unfold c1; by destruct (watchdog_ c)).
      intros hd jp Hf. cbn. destruct (decide (ip = jp)) as [<-|Hj]; [rewrite lookup_insert_eq; eauto|].
      rewrite lookup_insert_ne by done. unfold c1. destruct (watchdog_ c); cbn; [rewrite lookup_insert_ne by done|]; eauto. }
  split; [done|]. unfold c1. by destruct (watchdog_ c).
Qed.

Lemma get_unsent_data_refines c a :
  Rep c a -> lists a Sending = [] \/ lists a Unsent <> [] ->
  exists c', get_unsent_data c = Ret (c', unsent_data_ c) /\ Rep c' (a_get_unsent_data a).
Proof.
  intros [Rl Rw Rb Rm] Hc.
  destruct (send_merge_links _ _ _ _ _ Rl (wf_place _ _ Rw) Unsent Sending) as (h' & l' & E & Hl & Hu); [done..|].
  unfold get_unsent_data. cbn [list_of] in E. rewrite E. cbn [mbind outcome_bind]. eexists. split; [reflexivity|].
  apply rep_signal_empty. split.
  - eapply links_ext; [exact Hl|]. by intros [].
  - eapply (wf_upto erase_send); [done|exact Hu|]. by apply wf_merge.
  - intros k x Hk Hx. eapply (upto_has_block erase_send); [done|exact Hu|].
    unfold a_get_unsent_data in Hx. cbn [lists put] in Hx.
    apply elem_of_fupd in Hx as [[_ Hx%elem_of_nil]|[_ Hx]]; [done|].
    apply elem_of_fupd in Hx as [[_ [Hx|Hx]%elem_of_app]|[_ Hx]]; [by eapply (Rb Sending)|by eapply (Rb Unsent)|eauto].
  - done.
Qed.

(** Without new samples while some are being sent, the code dereferences the
    null head of the empty list. *)
Lemma get_unsent_data_empty c a :
  Rep c a -> lists a Unsent = [] -> lists a Sending <> [] -> get_unsent_data c = UB.
Proof.
  intros [[Hs _ _ _] _ _ _] Hu Hn. unfold get_unsent_data. pose proof (Hs Unsent) as Hsu. rewrite Hu in Hsu.
  rewrite (send_enqueue_list_empty _ _ _ _ (Hs Sending) Hn); [done|]. apply Hsu.
Qed.

Lemma get_resend_data_refines c a :
  Rep c a ->
  exists c', get_resend_data c = Ret (c', resend_data_ c) /\ Rep c' (a_get_resend_data a).
Proof.
  intros HR. pose proof HR as [Rl Rw Rb Rm]. unfold get_resend_data.
  pose proof (l_send _ _ _ _ _ Rl Resend) as (Hh & Ht & Hsz & _). cbn [list_of] in *.
  destruct (decide (lists a Resend = [])) as [He|He].
  { rewrite Hsz, He. cbn. eexists. split; [reflexivity|].
    assert (resend_data_ c = empty_list) as Hel.
    { rewrite He in *. unfold empty_list. destruct (resend_data_ c); cbn in *. by subst. }
    assert (forall k, lists (a_get_resend_data a) k = lists a k) as Hls.
    { intros k. unfold a_get_resend_data. cbn. unfold fupd. rewrite He, app_nil_r.
      repeat case_decide; subst; done. }
    split.
    - destruct Rl as [H1 H2 H3 H4]. split; [|done..]. intros k. rewrite Hls.
      replace (list_of _ k) with (list_of c k); [apply H1|]. destruct k; cbn; congruence || done.
    - apply wf_merge; done.
    - intros k x Hk. rewrite Hls. by apply Rb.
    - done. }
  rewrite (proj2 (Z.eqb_neq _ 0)) by (rewrite Hsz; destruct (lists a Resend); cbn; [done|lia]).
  destruct (send_merge_links _ _ _ _ _ Rl (wf_place _ _ Rw) Resend Released) as (h' & l' & E & Hl & Hu); [done|by right|].
  cbn [list_of] in E. rewrite E. cbn [mbind outcome_bind]. eexists. split; [reflexivity|]. split.
  - eapply links_ext; [exact Hl|]. by intros [].
  - eapply (wf_upto erase_send); [done|exact Hu|]. by apply wf_merge.
  - intros k x Hk Hx. eapply (upto_has_block erase_send); [done|exact Hu|].
    unfold a_get_resend_data in Hx. cbn [lists put] in Hx.
    apply elem_of_fupd in Hx as [[_ Hx%elem_of_nil]|[_ Hx]]; [done|].
    apply elem_of_fupd in Hx as [[<- _]|[_ Hx]]; [done|eauto].
  - done.
Qed.

(** The samples that are on no list are not touched. *)
Definition untouched (c : WriteDataContainer) (a : astate) (c' : WriteDataContainer) : Prop :=
  forall y, (forall k, y ∉ lists a k) -> y ∉ holder a -> off_instances a y -> heap_ c' !! y = heap_ c !! y.

Lemma untouched_signal_empty c a c' : untouched c a c' -> untouched c a (signal_empty c').
Proof. unfold untouched, signal_empty. by destruct (pending_data c'). Qed.

(** A sample leaves [released_data_] and is freed. *)
Lemma release_released c a x :
  Rep c a -> x ∈ lists a Released ->
  exists h l c', send_dequeue (heap_ c) (released_data_ c) x = Ret (h, l, true)
    /\ release_buffer (with_heap h (with_released_data l c)) x = Ret c'
    /\ Rep c' (unhold x (take_out Released x a))
    /\ spaces (heap_ c) (heap_ c') /\ condition_signals_ c' = condition_signals_ c /\ untouched c a c'.
Proof.
  intros [Rl Rw Rb Rm] Hx.
  destruct (send_dequeue_links _ _ _ _ _ Rl (wf_place _ _ Rw) Released x Hx) as (h & l & E & Hl & Hf & Hu).
  exists h, l. cbn [list_of] in E. rewrite E.
  assert (forall k, x ∉ lists (take_out Released x a) k) as Hout.
  { intros k Hk. cbn in Hk. apply elem_of_fupd in Hk as [[<- [_ Hk]%elem_of_remove_elt]|[Hk Hk']]; [done|].
    apply Hk. eapply (wf_place _ _ Rw); done. }
  assert (off_instances a x) as Hoff by (by eapply wf_off_history).
  destruct (release_buffer_spec (with_heap h (with_released_data l c)) (fupd Released l (list_of c)) (take_out Released x a) x)
    as (h2 & hold' & E2 & Hl2 & Hh2 & Hb2 & Hsp & Hto); [done| |done|done|].
  { apply (upto_dom _ _ _ _ x Hu). eapply dl_rep_live; [apply (l_send _ _ _ _ _ Rl Released)|done]. }
  eexists. split; [done|]. split; [exact E2|]. split.
  2:{ split; [|split; [done|]].
      - eapply spaces_trans; [by apply (spaces_upto erase_send _ _ _ (fun _ => eq_refl) Hu)|done].
      - intros y Hy Hyh _. cbn. rewrite Hto; [by apply Hu|intros ->; by eapply Hy|done]. }
  split.
  - eapply links_ext; [exact Hl2|]. by intros [].
  - apply wf_unhold. eapply (wf_ext (handle_of h)).
    + intros y k Hy. apply Hh2. intros ->. by eapply Hout.
    + intros y ip zs Hzs Hy. apply Hh2. intros ->. by eapply Hoff.
    + eapply (wf_upto erase_send); [done|exact Hu|]. by apply wf_take_out.
  - intros k y Hk Hy. apply Hb2; [intros ->; by eapply Hout|].
    eapply (upto_has_block erase_send); [done|exact Hu|]. eapply Rb; [done|].
    cbn in Hy. apply elem_of_fupd in Hy as [[<- _]|[_ Hy]]; done.
  - done.
Qed.

(** ** Delivery *)

(** The effect of [data_delivered] and [data_dropped] on blocked writers: none
    is told to proceed and none is woken. *)
Definition no_wakeup (c c' : WriteDataContainer) : Prop :=
  spaces (heap_ c) (heap_ c') /\ condition_signals_ c' = condition_signals_ c.

Lemma no_wakeup_signal_empty c c' : no_wakeup c c' -> no_wakeup c (signal_empty c').
Proof. unfold no_wakeup, signal_empty. by destruct (pending_data c'). Qed.

Lemma with_lists_same c h l k :
  h = heap_ c -> l = list_of c k ->
  forall a, Rep c a ->
  Rep (with_heap h (match k with
                    | Unsent => with_unsent_data l c | Sending => with_sending_data l c | Sent => with_sent_data l c
                    | Released => with_released_data l c | Resend => with_resend_data l c end)) a.
Proof. intros -> -> a HR. apply (rep_fields c); [done|by destruct k..|]. intros j. by destruct k, j. Qed.

(** The sample of a history, found with its instance. *)
Lemma history_sample c a x k ip :
  Rep c a -> x ∈ lists a k -> in_history k = true -> handle_of (heap_ c) x = Some ip ->
  exists i ys zs, insts_ c !! ip = Some i /\ samples a !! ip = Some ys /\ waiting a !! ip = Some zs
    /\ x ∈ ys /\ inst_rep (heap_ c) (samples_ i) ys /\ inst_rep (heap_ c) (waiting_list_ i) zs.
Proof.
  intros [Rl Rw _ _] Hx Hk Hh. destruct (wf_owner _ _ Rw k x Hk Hx) as (jp & Hh' & [ys Hys]).
  assert (jp = ip) as -> by congruence.
  destruct (links_instance_inv _ _ _ _ _ Rl _ _ Hys) as [i Hi].
  destruct (links_instance _ _ _ _ _ Rl _ _ Hi) as (ys' & zs & Hys' & H1 & Hzs & H2).
  rewrite Hys in Hys'. injection Hys' as <-. exists i, ys, zs. repeat (split; [done|]). split; [|done].
  apply (wf_history _ _ Rw ip ys x Hys). eauto.
Qed.

Lemma inst_head_cons h l zs : inst_rep h l zs -> head_ l = None <-> zs = [].
Proof. intros (Hh & _). rewrite Hh. by destruct zs. Qed.

(** A sample on no list is moved to [sent_data_], flagged as historic. *)
Lemma deliver_to_sent c L a x b bytes e :
  links (heap_ c) L (data_holder_ c) (insts_ c) a ->
  (forall k k' x, x ∈ lists a k -> x ∈ lists a k' -> k = k') ->
  (forall k, x ∉ lists a k) -> send_free (heap_ c) x -> L Sent = sent_data_ c ->
  heap_ c !! x = Some e -> sample_ e = Some b -> blocks_ c !! b = Some bytes ->
  exists h l, 
    (e ← load (heap_ c) (Some x);
     c ← set_block_flag HISTORIC_SAMPLE_FLAG c (sample_ e);
     '(h, sent) ← send_enqueue_tail (heap_ c) (sent_data_ c) x;
     Ret (with_heap h (with_sent_data sent c), Some (Some x)))
    = Ret (with_heap h (with_sent_data l (with_blocks (<[b := set_flag HISTORIC_SAMPLE_FLAG bytes]> (blocks_ c)) c)), Some (Some x))
    /\ links h (fupd Sent l L) (data_holder_ c) (insts_ c) (append Sent x a) /\ upto erase_send (x :: lists a Sent) (heap_ c) h.
Proof.
  intros Hl Hd Hx Hf HL He Hb Hbs. cbn [load]. rewrite He. cbn [deref mbind outcome_bind].
  unfold set_block_flag. rewrite Hb. cbn [deref mbind outcome_bind]. rewrite Hbs. cbn [deref mbind outcome_bind].
  destruct (send_enqueue_links _ _ _ _ _ Hl Hd Sent x Hx Hf) as (h' & l' & E & Hl' & Hu).
  rewrite HL in E. cbn [heap_ sent_data_ with_blocks]. rewrite E. eexists _, _. split; [reflexivity|]. done.
Qed.

Lemma has_block_insert h blocks b bytes bytes' x :
  blocks !! b = Some bytes -> has_block h blocks x -> has_block h (<[b := bytes']> blocks) x.
Proof.
  intros Hb (e & b' & bs & H1 & H2 & H3). destruct (decide (b = b')) as [<-|Hne].
  - exists e, b, bytes'. by rewrite lookup_insert_eq.
  - exists e, b', bs. by rewrite lookup_insert_ne.
Qed.

Lemma taken_out hnd a k x : wf hnd a -> x ∈ lists a k -> forall j, x ∉ lists (take_out k x a) j.
Proof.
  intros Hw Hx j Hj. cbn in Hj. apply elem_of_fupd in Hj as [[<- [_ Hj]%elem_of_remove_elt]|[Hk Hj]]; [done|].
  apply Hk. by eapply (wf_place _ _ Hw).
Qed.

Lemma take_out_place hnd a k x :
  wf hnd a -> forall j j' y, y ∈ lists (take_out k x a) j -> y ∈ lists (take_out k x a) j' -> j = j'.
Proof.
  intros Hw j j' y Hy Hy'. cbn in Hy, Hy'. eapply (wf_place _ _ Hw _ _ y).
  - apply elem_of_fupd in Hy as [[<- [Hy _]%elem_of_remove_elt]|[_ Hy]]; done.
  - apply elem_of_fupd in Hy' as [[<- [Hy' _]%elem_of_remove_elt]|[_ Hy']]; done.
Qed.

(** Delivery of a sample that is being sent, no writer being blocked. *)
Lemma deliver_sent c a x ip :
  Rep c a -> x ∈ lists a Sending -> handle_of (heap_ c) x = Some ip -> blocked ip a = [] ->
  exists h l c', send_dequeue (heap_ c) (sending_data_ c) x = Ret (h, l, true)
    /\ deliver_sending (with_heap h (with_sending_data l c)) x (Some ip) = Ret (c', Some (Some x))
    /\ Rep c' (append Sent x (take_out Sending x a)) /\ no_wakeup c c'
    /\ exists i, insts_ c' !! ip = Some i /\ head_ (waiting_list_ i) = None.
Proof.
  intros HR Hx Hh Hb. pose proof HR as [Rl Rw Rb Rm].
  destruct (history_sample _ _ _ Sending ip HR Hx eq_refl Hh) as (i & ys & zs & Hi & Hys & Hzs & _ & _ & Hrw).
  assert (head_ (waiting_list_ i) = None) as Hwn.
  { apply (inst_head_cons _ _ _ Hrw). unfold blocked in Hb. by rewrite Hzs in Hb. }
  destruct (send_dequeue_links _ _ _ _ _ Rl (wf_place _ _ Rw) Sending x Hx) as (h & l & E & Hl & Hf & Hu).
  cbn [list_of] in E. rewrite E. exists h, l.
  destruct (upto_has_block erase_send _ _ _ _ _ (fun _ => eq_refl) Hu (Rb Sending x eq_refl Hx)) as (e & b & bytes & He & Hbk & Hbs).
  unfold deliver_sending. cbn [instance_at insts_ with_heap with_sending_data]. rewrite Hi. cbn [deref mbind outcome_bind]. rewrite Hwn.
  destruct (deliver_to_sent (with_heap h (with_sending_data l c)) (fupd Sending l (list_of c)) (take_out Sending x a) x b bytes e)
    as (h2 & l2 & E2 & Hl2 & Hu2); [done|by eapply take_out_place|by eapply taken_out|done|done|done|done|done|].
  cbn [mbind outcome_bind] in E2 |- *. rewrite E2. eexists. split; [done|]. split; [reflexivity|].
  split; [|split; [split; [|done]|by exists i]].
  2:{ eapply spaces_trans; [by apply (spaces_upto erase_send _ _ _ (fun _ => eq_refl) Hu)|].
      by apply (spaces_upto erase_send _ _ _ (fun _ => eq_refl) Hu2). }
  split.
  - eapply links_ext; [exact Hl2|]. by intros [].
  - eapply (wf_upto erase_send); [done|exact Hu2|]. eapply (wf_upto erase_send); [done|exact Hu|]. by apply wf_move.
  - intros k y Hk Hy. eapply has_block_insert; [done|]. eapply (upto_has_block erase_send); [done|exact Hu2|].
    eapply (upto_has_block erase_send); [done|exact Hu|].
    cbn in Hy. apply elem_of_fupd in Hy as [[<- [Hy| ->%list_elem_of_singleton]%elem_of_app]|[_ Hy]]; [by eapply (Rb Sent)|by eapply (Rb Sending)|].
    eapply Rb; [exact Hk|]. by apply elem_of_fupd in Hy as [[<- [Hy _]%elem_of_remove_elt]|[_ Hy]].
  - done.
Qed.

(** A sample that is on no list any more is freed. *)
Lemma release_rep c a x :
  Rep c a -> (forall k, x ∉ lists a k) -> off_instances a x -> is_Some (heap_ c !! x) ->
  exists c', release_buffer c x = Ret c' /\ Rep c' (unhold x a) /\ no_wakeup c c'
    /\ (forall y, y <> x -> y ∉ holder a -> heap_ c' !! y = heap_ c !! y).
Proof.
  intros [Rl Rw Rb Rm] Hx Hoff Hlive.
  destruct (release_buffer_spec c (list_of c) a x Rl Hlive Hx Hoff) as (h & hold & E & Hl & Hh & Hb & Hsp & Hto).
  eexists. split; [exact E|]. split; [|done]. split.
  - eapply links_ext; [exact Hl|]. by intros [].
  - apply wf_unhold. eapply (wf_ext (handle_of (heap_ c))); [| |exact Rw].
    + intros y k Hy. apply Hh. intros ->. by eapply Hx.
    + intros y ip zs Hzs Hy. apply Hh. intros ->. by eapply Hoff.
  - intros k y Hk Hy. apply Hb; [intros ->; by eapply Hx|]. by eapply Rb.
  - done.
Qed.

Lemma retired_off hnd a k x ip ys :
  wf hnd a -> x ∈ lists a k -> in_history k = true -> samples a !! ip = Some ys -> x ∈ ys ->
  off_instances (take_out k x (with_history ip (remove_elt x ys) a)) x.
Proof.
  intros Hw Hx Hk Hys Hin. pose proof (wf_retire _ _ _ _ _ _ Hw Hx Hk Hys Hin) as [_ W2 W3 _]. split.
  - intros jp zs Hzs Hz. apply (W2 jp zs x Hzs) in Hz as [(j & _ & Hj) _].
    cbn in Hj. apply elem_of_fupd in Hj as [[<- [_ Hj]%elem_of_remove_elt]|[Hj Hj']]; [done|].
    apply Hj. eapply (wf_place _ _ Hw); done.
  - intros jp zs Hzs Hz. cbn in Hzs. destruct (wf_waiting _ _ Hw jp zs x Hzs Hz) as [Hn _]. by apply (Hn k).
Qed.

(** Histories of different instances, and blocked writers, share no sample. *)
Lemma wf_disjoint_history hnd a ip ys :
  wf hnd a -> samples a !! ip = Some ys ->
  (forall jp xs x, jp <> ip -> samples a !! jp = Some xs -> x ∈ xs -> x ∉ ys)
  /\ (forall jp xs x, waiting a !! jp = Some xs -> x ∈ xs -> x ∉ ys).
Proof.
  intros [_ W2 W3 _] Hys. split.
  - intros jp xs x Hj Hxs Hx Hy. apply (W2 ip ys x Hys) in Hy as [_ ?]. apply (W2 jp xs x Hxs) in Hx as [_ ?]. congruence.
  - intros jp xs x Hxs Hx Hy. apply (W2 ip ys x Hys) in Hy as [(k & _ & Hk) _].
    destruct (W3 jp xs x Hxs Hx) as [Hn _]. by apply (Hn k).
Qed.

(** Both orders of taking a sample out of its place and of its history. *)
Lemma retire_rep c a x k ip i ys h l l' c1 :
  Rep c a -> x ∈ lists a k -> in_history k = true -> insts_ c !! ip = Some i -> samples a !! ip = Some ys -> x ∈ ys ->
  links h (fupd k l (list_of c)) (data_holder_ c) (<[ip := with_samples l' i]> (insts_ c))
    (take_out k x (with_history ip (remove_elt x ys) a)) ->
  (forall y, handle_of h y = handle_of (heap_ c) y) ->
  (forall y, has_block (heap_ c) (blocks_ c) y -> has_block h (blocks_ c) y) ->
  heap_ c1 = h -> blocks_ c1 = blocks_ c -> insts_ c1 = <[ip := with_samples l' i]> (insts_ c) ->
  instances_ c1 = instances_ c -> data_holder_ c1 = data_holder_ c ->
  (forall j, list_of c1 j = fupd k l (list_of c) j) ->
  Rep c1 (take_out k x (with_history ip (remove_elt x ys) a)).
Proof.
  intros [Rl Rw Rb Rm] Hx Hk Hi Hys Hin Hl Hh Hb E1 E2 E3 E4 E5 E6. split.
  - rewrite E1, E3, E5. by eapply links_ext.
  - rewrite E1. eapply wf_ext; [intros; apply Hh|intros; apply Hh|]. by apply wf_retire.
  - rewrite E1, E2. intros j y Hj Hy. apply Hb. eapply Rb; [exact Hj|].
    cbn in Hy. by apply elem_of_fupd in Hy as [[<- [Hy _]%elem_of_remove_elt]|[_ Hy]].
  - rewrite E3, E4. intros hd jp Hf. destruct (decide (ip = jp)) as [<-|Hne]; [rewrite lookup_insert_eq; eauto|].
    rewrite lookup_insert_ne by done. eauto.
Qed.

(** Delivery of a sample that is being sent, a writer being blocked. *)
Lemma deliver_blocked c a x ip :
  Rep c a -> x ∈ lists a Sending -> handle_of (heap_ c) x = Some ip -> blocked ip a <> [] ->
  exists h l c', send_dequeue (heap_ c) (sending_data_ c) x = Ret (h, l, true)
    /\ deliver_sending (with_heap h (with_sending_data l c)) x (Some ip) = Ret (c', Some None)
    /\ Rep c' (unhold x (with_history ip (remove_elt x (history ip a)) (take_out Sending x a))) /\ no_wakeup c c'.
Proof.
  intros HR Hx Hh Hb. pose proof HR as [Rl Rw Rb Rm].
  destruct (history_sample _ _ _ Sending ip HR Hx eq_refl Hh) as (i & ys & zs & Hi & Hys & Hzs & Hin & _ & Hrw).
  assert (exists w, head_ (waiting_list_ i) = Some w) as [w Hw].
  { destruct (head_ (waiting_list_ i)) eqn:Hn; [eauto|]. apply (inst_head_cons _ _ _ Hrw) in Hn.
    unfold blocked in Hb. rewrite Hzs, Hn in Hb. done. }
  destruct (send_dequeue_links _ _ _ _ _ Rl (wf_place _ _ Rw) Sending x Hx) as (h & l & E & Hl & Hf & Hu).
  cbn [list_of] in E. rewrite E. exists h, l.
  unfold deliver_sending. cbn [instance_at insts_ with_heap with_sending_data]. rewrite Hi. cbn [deref mbind outcome_bind]. rewrite Hw.
  destruct (links_instance _ _ _ _ _ Hl ip i Hi) as (ys' & zs' & Hys' & Hri & _). cbn in Hys'. assert (ys' = ys) as -> by congruence.
  destruct (inst_dequeue_spec h (samples_ i) ys x Hri Hin) as (h2 & l2 & E2 & Hr2 & Hu2).
  cbn [heap_ with_heap mbind outcome_bind]. rewrite E2. cbn [mbind outcome_bind negb].
  destruct (wf_disjoint_history _ _ _ _ Rw Hys) as [Hd1 Hd2].
  pose proof (links_history h h2 _ _ _ _ Hl ip i ys l2 (remove_elt x ys) Hi Hu2 Hd1 Hd2 Hr2) as Hl2.
  set (c1 := set_inst ip (with_samples l2 i) (with_heap h2 (with_heap h (with_sending_data l c)))).
  assert (Rep c1 (take_out Sending x (with_history ip (remove_elt x ys) a))) as HR1.
  { apply (retire_rep c a x Sending ip i ys h2 l l2 c1); try done; [..|by intros []].
    - intros y. rewrite (upto_handle erase_inst _ _ _ y (fun _ => eq_refl) Hu2). by apply (upto_handle erase_send _ _ _ y (fun _ => eq_refl) Hu).
    - intros y Hy. eapply (upto_has_block erase_inst); [done|exact Hu2|]. by eapply (upto_has_block erase_send); [done|exact Hu|]. }
  destruct (release_rep c1 _ x HR1) as (c' & E3 & HR' & Hnw & _).
  - intros j. by eapply (taken_out _ a).
  - by eapply retired_off.
  - apply (upto_dom _ _ _ _ x Hu2), (upto_dom _ _ _ _ x Hu). by eapply handle_of_live.
  - exists c'. split; [done|]. rewrite E3. cbn [mbind outcome_bind]. split; [done|].
    unfold history. rewrite Hys. cbn [default id]. split; [exact HR'|].
    destruct Hnw as [Hs1 Hs2]. split; [|done]. eapply spaces_trans; [|exact Hs1].
    eapply spaces_trans; [by apply (spaces_upto erase_send _ _ _ (fun _ => eq_refl) Hu)|].
    by apply (spaces_upto erase_inst _ _ _ (fun _ => eq_refl) Hu2).
Qed.

Lemma data_delivered_refines c a x ip :
  Rep c a -> handle_of (heap_ c) x = Some ip ->
  exists c', data_delivered c x = Ret c' /\ Rep c' (a_data_delivered x ip a) /\ no_wakeup c c'.
Proof.
  intros HR Hh. pose proof HR as [Rl Rw _ _]. unfold data_delivered, a_data_delivered.
  unfold handle_of in Hh. destruct (heap_ c !! x) as [e|] eqn:He; [|done]. cbn in Hh. cbn [load]. rewrite He. cbn [deref mbind outcome_bind].
  destruct (decide (x ∈ lists a Released)) as [Hr|Hr].
  { destruct (release_released c a x HR Hr) as (h & l & c' & E1 & E2 & HR' & Hsp & Hcs & Hto).
    rewrite E1. cbn [mbind outcome_bind]. rewrite E2. cbn [mbind outcome_bind wakeup_blocking_writers].
    eexists. split; [reflexivity|]. split; [by apply rep_signal_empty|]. by apply no_wakeup_signal_empty. }
  pose proof (send_dequeue_links_notin _ _ _ _ _ Rl Released x Hr) as E. cbn [list_of] in E. rewrite E. cbn [mbind outcome_bind].
  replace (with_heap (heap_ c) (with_released_data (released_data_ c) c)) with c by (by destruct c).
  destruct (decide (x ∈ lists a Sending)) as [Hs|Hs].
  2:{ pose proof (send_dequeue_links_notin _ _ _ _ _ Rl Sending x Hs) as E'. cbn [list_of] in E'. rewrite E'. cbn [mbind outcome_bind negb].
      eexists. split; [reflexivity|]. replace (with_heap _ _) with c by (by destruct c). split; [done|].
      split; [|done]. intros y e' Hy. eauto. }
  assert (handle_of (heap_ c) x = Some ip) as Hh' by (unfold handle_of; by rewrite He).
  assert (blocked ip (take_out Sending x a) = blocked ip a) as Hbk by done. rewrite Hbk.
  destruct (decide (blocked ip a = [])) as [Hb|Hb].
  - destruct (deliver_sent c a x ip HR Hs Hh' Hb) as (h & l & c' & E1 & E2 & HR' & Hnw & i & Hi & Hw).
    rewrite E1. cbn [mbind outcome_bind negb]. rewrite Hh, E2. cbn [mbind outcome_bind wakeup_blocking_writers instance_at].
    rewrite Hi. cbn [deref mbind outcome_bind]. rewrite Hw. eexists. split; [reflexivity|].
    split; [by apply rep_signal_empty|]. by apply no_wakeup_signal_empty.
  - destruct (deliver_blocked c a x ip HR Hs Hh' Hb) as (h & l & c' & E1 & E2 & HR' & Hnw).
    rewrite E1. cbn [mbind outcome_bind negb]. rewrite Hh, E2. cbn [mbind outcome_bind wakeup_blocking_writers].
    eexists. split; [reflexivity|]. split; [by apply rep_signal_empty|]. by apply no_wakeup_signal_empty.
Qed.

Lemma move_rep c a x k k' h l h' l' c' :
  Rep c a -> x ∈ lists a k -> in_history k' = in_history k -> k <> k' ->
  upto erase_send (lists a k) (heap_ c) h -> upto erase_send (x :: lists (take_out k x a) k') h h' ->
  links h' (fupd k' l' (fupd k l (list_of c))) (data_holder_ c) (insts_ c) (append k' x (take_out k x a)) ->
  heap_ c' = h' -> blocks_ c' = blocks_ c -> insts_ c' = insts_ c -> instances_ c' = instances_ c ->
  data_holder_ c' = data_holder_ c -> (forall j, list_of c' j = fupd k' l' (fupd k l (list_of c)) j) ->
  Rep c' (append k' x (take_out k x a)) /\ spaces (heap_ c) h'.
Proof.
  intros [Rl Rw Rb Rm] Hx Hk Hne Hu Hu2 Hl E1 E2 E3 E4 E5 E6. split.
  - split; rewrite ?E1, ?E2, ?E3, ?E4, ?E5; [by eapply links_ext|..|done].
    + eapply (wf_upto erase_send); [done|exact Hu2|]. eapply (wf_upto erase_send); [done|exact Hu|]. by apply wf_move.
    + intros j y Hj Hy. eapply (upto_has_block erase_send); [done|exact Hu2|]. eapply (upto_has_block erase_send); [done|exact Hu|].
      cbn [lists append take_out put] in Hy. rewrite elem_of_fupd, (fupd_ne k k'), elem_of_app, list_elem_of_singleton in Hy by done.
      destruct Hy as [[<- [Hy| ->]]|[_ Hy]].
      * by eapply Rb.
      * by eapply (Rb k); [congruence|].
      * apply elem_of_fupd in Hy as [[<- [Hy _]%elem_of_remove_elt]|[_ Hy]]; by eapply Rb.
  - eapply spaces_trans; [by apply (spaces_upto erase_send _ _ _ (fun _ => eq_refl) Hu)|].
    by apply (spaces_upto erase_send _ _ _ (fun _ => eq_refl) Hu2).
Qed.

Lemma data_dropped_refines c a x :
  Rep c a ->
  exists c', data_dropped c x false = Ret c' /\ Rep c' (a_data_dropped x a) /\ no_wakeup c c' /\ untouched c a c'.
Proof.
  intros HR. pose proof HR as [Rl Rw _ _]. unfold data_dropped, a_data_dropped.
  destruct (decide (x ∈ lists a Sending)) as [Hs|Hs].
  { destruct (send_dequeue_links _ _ _ _ _ Rl (wf_place _ _ Rw) Sending x Hs) as (h & l & E & Hl & Hf & Hu).
    cbn [list_of] in E. rewrite E. cbn [mbind outcome_bind].
    destruct (send_enqueue_links _ _ _ _ _ Hl (take_out_place _ _ _ _ Rw) Unsent x (taken_out _ _ _ _ Rw Hs) Hf) as (h2 & l2 & E2 & Hl2 & Hu2).
    cbn [heap_ unsent_data_ with_heap with_sending_data]. cbn [fupd] in E2.
    rewrite (E2 : send_enqueue_tail h (unsent_data_ c) x = _). cbn [mbind outcome_bind].
    assert (is_Some (h2 !! x)) as [e He].
    { apply (upto_dom _ _ _ _ x Hu2), (upto_dom _ _ _ _ x Hu).
      eapply dl_rep_live; [apply (l_send _ _ _ _ _ Rl Sending)|done]. }
    cbn [load]. rewrite He. cbn [deref mbind outcome_bind wakeup_blocking_writers].
    destruct (move_rep c a x Sending Unsent h l h2 l2 (with_heap h2 (with_unsent_data l2 (with_heap h (with_sending_data l c)))))
      as [HR' Hsp]; try done; [by intros []|].
    eexists. split; [reflexivity|]. split; [by apply rep_signal_empty|]. split; [by apply no_wakeup_signal_empty|].
    apply untouched_signal_empty. intros y Hy _ _. cbn. rewrite (proj1 Hu2), (proj1 Hu); [done|apply Hy|].
    intros [->|Hy']%elem_of_cons; [by eapply Hy|]. by eapply (Hy Unsent). }
  pose proof (send_dequeue_links_notin _ _ _ _ _ Rl Sending x Hs) as E. cbn [list_of] in E. rewrite E. cbn [mbind outcome_bind].
  replace (with_heap (heap_ c) (with_sending_data (sending_data_ c) c)) with c by (by destruct c).
  destruct (decide (x ∈ lists a Released)) as [Hr|Hr].
  - destruct (release_released c a x HR Hr) as (h & l & c' & E1 & E2 & HR' & Hsp & Hcs & Hto).
    rewrite E1. cbn [mbind outcome_bind].
    assert (is_Some (h !! x)) as [e He].
    { unfold release_buffer in E2. cbn [heap_ with_heap data_holder_ with_released_data] in E2.
      destruct (send_dequeue_links _ _ _ _ _ Rl (wf_place _ _ Rw) Released x Hr) as (h1 & l1 & E' & _ & Hf & _).
      cbn [list_of] in E'. rewrite E1 in E'. injection E' as <- <-. apply (lview_dom send_lk). by rewrite Hf. }
    cbn [load]. rewrite He. cbn [deref mbind outcome_bind]. rewrite E2. cbn [mbind outcome_bind wakeup_blocking_writers].
    eexists. split; [reflexivity|]. split; [by apply rep_signal_empty|].
    split; [by apply no_wakeup_signal_empty|by apply untouched_signal_empty].
  - pose proof (send_dequeue_links_notin _ _ _ _ _ Rl Released x Hr) as E'. cbn [list_of] in E'. rewrite E'.
    cbn [mbind outcome_bind wakeup_blocking_writers].
    replace (with_heap (heap_ c) (with_released_data (released_data_ c) c)) with c by (by destruct c).
    eexists. split; [reflexivity|]. split; [by apply rep_signal_empty|].
    split; [|by apply untouched_signal_empty]. apply no_wakeup_signal_empty. split; [|done]. intros y e Hy. eauto.
Qed.

(** ** Removing the oldest sample of an instance *)

(** What an operation on one instance keeps. *)
Definition same_setup (c c' : WriteDataContainer) : Prop :=
  depth_ c' = depth_ c /\ instances_ c' = instances_ c /\ watchdog_ c' = watchdog_ c
  /\ max_num_samples_ c' = max_num_samples_ c /\ max_num_instances_ c' = max_num_instances_ c
  /\ should_block_ c' = should_block_ c /\ wdc_publication_id_ c' = wdc_publication_id_ c
  /\ max_blocking_time_ c' = max_blocking_time_ c.

Lemma same_setup_signal c c' : same_setup c c' -> same_setup c (signal_empty c').
Proof. unfold signal_empty. by destruct (pending_data c'). Qed.

Lemma release_buffer_setup c x c' : release_buffer c x = Ret c' -> same_setup c c'.
Proof.
  unfold release_buffer. intros (((h, hold), b) & _ & H)%outcome_bind_Ret. cbn in H.
  destruct (h !! x); cbn in H; [|done]. by injection H as <-.
Qed.

(** The search for the list of a sample in the history. *)
Lemma containing_history h c a k x :
  links h (list_of c) (data_holder_ c) (insts_ c) a ->
  (forall k k' x, x ∈ lists a k -> x ∈ lists a k' -> k = k') ->
  in_history k = true -> x ∈ lists a k ->
  send_list_containing_element h x [sending_data_ c; sent_data_ c; unsent_data_ c]
  = Ret (Some (match k with Sending => 0%nat | Sent => 1%nat | _ => 2%nat end)).
Proof.
  intros [Hs _ _ _] Hd Hk Hx.
  apply (send_list_containing_spec h _ [lists a Sending; lists a Sent; lists a Unsent] _ (lists a k)); [| |by destruct k|done].
  - constructor; [apply (Hs Sending)|]. constructor; [apply (Hs Sent)|]. constructor; [apply (Hs Unsent)|constructor].
  - cbn. rewrite app_nil_r. apply NoDup_app. split; [apply (Hs Sending)|]. split.
    + intros y Hy [Hy'|Hy']%elem_of_app; [by pose proof (Hd _ _ _ Hy Hy')|by pose proof (Hd _ _ _ Hy Hy')].
    + apply NoDup_app. split; [apply (Hs Sent)|]. split; [|apply (Hs Unsent)].
      intros y Hy Hy'. by pose proof (Hd _ _ _ Hy Hy').
Qed.

(** The sample was taken out of the history first and then out of its place. *)
Lemma oldest_taken c a ip i x ys k :
  Rep c a -> insts_ c !! ip = Some i -> samples a !! ip = Some (x :: ys) -> in_history k = true -> x ∈ lists a k ->
  exists h1 l1 h2 l2,
    inst_dequeue_head (heap_ c) (samples_ i) = Ret (h1, l1, Some x)
    /\ send_list_containing_element h1 x [sending_data_ c; sent_data_ c; unsent_data_ c]
       = Ret (Some (match k with Sending => 0%nat | Sent => 1%nat | _ => 2%nat end))
    /\ send_dequeue h1 (list_of c k) x = Ret (h2, l2, true)
    /\ (forall c2, heap_ c2 = h2 -> blocks_ c2 = blocks_ c -> insts_ c2 = <[ip := with_samples l1 i]> (insts_ c) ->
         instances_ c2 = instances_ c -> data_holder_ c2 = data_holder_ c ->
         (forall j, list_of c2 j = fupd k l2 (list_of c) j) -> Rep c2 (take_out k x (with_history ip ys a)))
    /\ send_free h2 x /\ off_instances (take_out k x (with_history ip ys a)) x /\ (forall j, x ∉ lists (take_out k x (with_history ip ys a)) j)
    /\ (forall y, (forall k, y ∉ lists a k) -> off_instances a y -> h2 !! y = heap_ c !! y).
Proof.
  intros HR Hi Hys Hk Hx. pose proof HR as [Rl Rw Rb Rm].
  destruct (links_instance _ _ _ _ _ Rl ip i Hi) as (ys' & zs & Hys' & Hri & _). assert (ys' = x :: ys) as -> by congruence.
  destruct (inst_dequeue_head_spec _ _ _ _ Hri) as (h1 & l1 & E1 & Hr1 & Hu1).
  destruct (wf_disjoint_history _ _ _ _ Rw Hys) as [Hd1 Hd2].
  pose proof (links_history _ h1 _ _ _ _ Rl ip i (x :: ys) l1 ys Hi Hu1 Hd1 Hd2 Hr1) as Hl1.
  destruct (send_dequeue_links _ _ _ _ _ Hl1 (wf_place _ _ Rw) k x Hx) as (h2 & l2 & E2 & Hl2 & Hf & Hu2).
  assert (remove_elt x (x :: ys) = ys) as Hrem.
  { apply (remove_elt_split x [] ys). destruct Hri as (_ & _ & _ & Hnd & _). exact Hnd. }
  exists h1, l1, h2, l2. split; [done|]. split.
  { apply (containing_history h1 (with_insts (<[ip := with_samples l1 i]> (insts_ c)) c) (with_history ip ys a));
      [exact Hl1|by apply (wf_place _ _ Rw)|done|done]. }
  split; [done|]. split; [|split; [done|split; [|split; [by eapply (taken_out _ a)|]]]].
  - intros c2 F1 F2 F3 F4 F5 F6. rewrite <- Hrem.
    apply (retire_rep c a x k ip i (x :: ys) h2 l2 l1 c2); try done; [set_solver|by rewrite Hrem|..].
    + intros y. rewrite (upto_handle erase_send _ _ _ y (fun _ => eq_refl) Hu2). by apply (upto_handle erase_inst _ _ _ y (fun _ => eq_refl) Hu1).
    + intros y Hy. eapply (upto_has_block erase_send); [done|exact Hu2|]. by eapply (upto_has_block erase_inst); [done|exact Hu1|].
  - rewrite <- Hrem. eapply retired_off; [exact Rw|done|done|done|set_solver].
  - intros y Hy [Ho _]. rewrite (proj1 Hu2), (proj1 Hu1); [done|by eapply Ho|apply Hy].
Qed.

(** A sample on no list joins [released_data_]. *)
Lemma append_released c a x h l c' :
  Rep c a -> (forall k, x ∉ lists a k) -> off_instances a x -> send_free (heap_ c) x ->
  send_enqueue_tail (heap_ c) (released_data_ c) x = Ret (h, l) ->
  heap_ c' = h -> blocks_ c' = blocks_ c -> insts_ c' = insts_ c -> instances_ c' = instances_ c ->
  data_holder_ c' = data_holder_ c -> (forall j, list_of c' j = fupd Released l (list_of c) j) ->
  Rep c' (append Released x a).
Proof.
  intros [Rl Rw Rb Rm] Hx [Hoff1 Hoff2] Hf E E1 E2 E3 E4 E5 E6.
  destruct (send_enqueue_links _ _ _ _ _ Rl (wf_place _ _ Rw) Released x Hx Hf) as (h' & l' & E' & Hl & Hu).
  cbn [list_of] in E'. rewrite E in E'. injection E' as <- <-.
  split; rewrite ?E1, ?E2, ?E3, ?E4, ?E5; [by eapply links_ext|..|done].
  - eapply (wf_upto erase_send); [done|exact Hu|]. by apply wf_append_out.
  - intros j y Hj Hy. eapply (upto_has_block erase_send); [done|exact Hu|]. eapply Rb; [exact Hj|].
    cbn in Hy. by apply elem_of_fupd in Hy as [[<- _]|[_ Hy]].
Qed.

Lemma wf_history_place hnd a ip ys x :
  wf hnd a -> samples a !! ip = Some ys -> x ∈ ys -> exists k, in_history k = true /\ x ∈ lists a k.
Proof. intros Hw Hys Hx. by apply (wf_history _ _ Hw ip ys x Hys) in Hx as [? _]. Qed.

Lemma a_remove_oldest_place hnd a ip x ys k :
  wf hnd a -> samples a !! ip = Some (x :: ys) -> in_history k = true -> x ∈ lists a k ->
  a_remove_oldest ip a
  = match k with
    | Sending => append Released x (take_out Sending x (with_history ip ys a))
    | _ => unhold x (take_out k x (with_history ip ys a))
    end.
Proof.
  intros Hw Hys Hk Hx. unfold a_remove_oldest, history. rewrite Hys. cbn [default id lists with_history].
  assert (forall k', x ∈ lists a k' -> k' = k) as Hu by (intros k' Hk'; by apply (wf_place _ _ Hw _ _ x)).
  destruct (decide (x ∈ lists a Sending)) as [H1|H1]; [apply Hu in H1; by subst|].
  destruct (decide (x ∈ lists a Sent)) as [H2|H2]; [apply Hu in H2; by subst|].
  destruct k; done.
Qed.

Lemma remove_oldest_refines c a ip x ys r :
  Rep c a -> samples a !! ip = Some (x :: ys) ->
  exists c', remove_oldest_sample c ip r = Ret (c', RETCODE_OK, bool_decide (x ∉ lists a Sending))
    /\ Rep c' (a_remove_oldest ip a) /\ same_setup c c' /\ untouched c a c'.
Proof.
  intros HR Hys. pose proof HR as [Rl Rw Rb Rm].
  destruct (links_instance_inv _ _ _ _ _ Rl _ _ Hys) as [i Hi].
  destruct (wf_history_place _ _ _ _ x Rw Hys) as (k & Hk & Hx); [set_solver|].
  destruct (oldest_taken c a ip i x ys k HR Hi Hys Hk Hx) as (h1 & l1 & h2 & l2 & E1 & E2 & E3 & HR2 & Hf & Hoff & Hout & Hto).
  rewrite (a_remove_oldest_place _ _ _ _ _ _ Rw Hys Hk Hx).
  unfold remove_oldest_sample. cbn [instance_at]. rewrite Hi. cbn [deref mbind outcome_bind]. rewrite E1. cbn [mbind outcome_bind].
  cbn [heap_ with_heap set_inst with_insts sending_data_ sent_data_ unsent_data_]. rewrite E2. cbn [mbind outcome_bind].
  assert (forall c2, heap_ c2 = h2 -> is_Some (heap_ c2 !! x)) as Hlive.
  { intros c2 ->. apply (lview_dom send_lk). by rewrite Hf. }
  destruct k; [|..|done|done]; cbn [list_of] in E3; rewrite E3; cbn [mbind outcome_bind].
  - rewrite bool_decide_true by (intros Hs; by pose proof (wf_place _ _ Rw _ _ _ Hx Hs)).
    set (c2 := with_heap h2 _). destruct (release_rep c2 (take_out Unsent x (with_history ip ys a)) x) as (c' & E4 & HR' & _ & Hr);
      [apply HR2; [done..|by intros []]|done|done|by apply Hlive|].
    rewrite E4. cbn [mbind outcome_bind]. eexists. split; [reflexivity|]. split; [by apply rep_signal_empty|].
    split; [apply same_setup_signal; exact (release_buffer_setup _ _ _ E4)|].
    apply untouched_signal_empty. intros y Hy Hyh Ho. rewrite Hr, <- (Hto y Hy Ho); [done|intros ->; by eapply Hy|done].
  - rewrite bool_decide_false by tauto. set (c2 := with_heap h2 (with_sending_data l2 (set_inst ip (with_samples l1 i) (with_heap h1 c)))).
    pose proof (HR2 c2 eq_refl eq_refl eq_refl eq_refl eq_refl ltac:(by intros [])) as HRc2.
    destruct (send_enqueue_tail_spec h2 (released_data_ c) (lists (take_out Sending x (with_history ip ys a)) Released) x)
      as (h3 & l3 & E4 & _ & Hu3); [apply (l_send _ _ _ _ _ (rep_links _ _ HRc2) Released)|apply Hout|done|].
    cbn [released_data_ with_heap set_inst with_insts]. rewrite E4. cbn [mbind outcome_bind].
    eexists. split; [reflexivity|]. split; [|split; [by apply same_setup_signal|]].
    + apply rep_signal_empty. apply (append_released c2 _ x h3 l3); try done. by intros [].
    + apply untouched_signal_empty. intros y Hy _ Ho. cbn. rewrite (proj1 Hu3), (Hto y Hy Ho); [done|].
      intros [->|Hy']%elem_of_cons; [by eapply Hy|]. by eapply (Hy Released).
  - rewrite bool_decide_true by (intros Hs; by pose proof (wf_place _ _ Rw _ _ _ Hx Hs)).
    set (c2 := with_heap h2 _). destruct (release_rep c2 (take_out Sent x (with_history ip ys a)) x) as (c' & E4 & HR' & _ & Hr);
      [apply HR2; [done..|by intros []]|done|done|by apply Hlive|].
    rewrite E4. cbn [mbind outcome_bind]. eexists. split; [reflexivity|]. split; [by apply rep_signal_empty|].
    split; [apply same_setup_signal; exact (release_buffer_setup _ _ _ E4)|].
    apply untouched_signal_empty. intros y Hy Hyh Ho. rewrite Hr, <- (Hto y Hy Ho); [done|intros ->; by eapply Hy|done].
Qed.

Lemma a_remove_oldest_history ip a x ys :
  samples a !! ip = Some (x :: ys) -> samples (a_remove_oldest ip a) = <[ip := ys]> (samples a).
Proof.
  intros Hys. unfold a_remove_oldest, history. rewrite Hys. cbn [default id].
  case_decide; [done|]. by case_decide.
Qed.
Lemma a_remove_oldest_waiting ip a : waiting (a_remove_oldest ip a) = waiting a.
Proof. unfold a_remove_oldest. destruct (history ip a); [done|]. case_decide; [done|]. by case_decide. Qed.

Lemma same_setup_trans c1 c2 c3 : same_setup c1 c2 -> same_setup c2 c3 -> same_setup c1 c3.
Proof. unfold same_setup. intuition congruence. Qed.

(** The loop of [dispose] empties the history. *)
Lemma dispose_loop_refines fuel c a ip ys :
  Rep c a -> samples a !! ip = Some ys -> (length ys < fuel)%nat ->
  exists c', dispose_loop fuel c ip = Ret (c', RETCODE_OK)
    /\ Rep c' (a_remove_all (length ys) ip a) /\ same_setup c c'
    /\ samples (a_remove_all (length ys) ip a) !! ip = Some [].
Proof.
  revert c a ys. induction fuel as [|fuel IH]; intros c a ys HR Hys Hf; [lia|]. cbn [dispose_loop].
  pose proof HR as [Rl _ _ _]. destruct (links_instance_inv _ _ _ _ _ Rl _ _ Hys) as [i Hi].
  destruct (links_instance _ _ _ _ _ Rl _ _ Hi) as (ys' & zs & Hys' & (_ & _ & Hsz & _) & _).
  assert (ys' = ys) as -> by congruence. cbn [instance_at]. rewrite Hi. cbn [deref mbind outcome_bind]. rewrite Hsz.
  destruct ys as [|x ys]; cbn [length a_remove_all].
  { exists c. by rewrite (Z.ltb_irrefl 0 : (0 <? Z.of_nat 0) = false). }
  rewrite (proj2 (Z.ltb_lt _ _)) by lia.
  destruct (remove_oldest_refines c a ip x ys false HR Hys) as (c1 & -> & HR1 & Hs1 & _). cbn [mbind outcome_bind].
  rewrite decide_True by done.
  destruct (IH c1 (a_remove_oldest ip a) ys HR1) as (c' & E & HR' & Hs' & Hh).
  - by rewrite (a_remove_oldest_history _ _ _ _ Hys), lookup_insert_eq.
  - cbn in Hf. lia.
  - exists c'. split; [done|]. split; [done|]. split; [by eapply same_setup_trans|done].
Qed.

Lemma dispose_refines c a handle ip b :
  Rep c a -> find_handle (instances_ c) handle = Some ip ->
  exists c' r, dispose c handle b = Ret (c', RETCODE_OK, r) /\ Rep c' (a_dispose ip a)
    /\ samples (a_dispose ip a) !! ip = Some [] /\ same_setup c c'.
Proof.
  intros HR Hip. pose proof HR as [Rl Rw Rb Rm]. destruct (Rm _ _ Hip) as [i Hi].
  destruct (links_instance _ _ _ _ _ Rl _ _ Hi) as (ys & zs & Hys & Hri & _).
  unfold dispose. rewrite Hip. cbn [instance_at]. rewrite Hi. cbn [deref mbind outcome_bind].
  destruct (dispose_loop_refines (loop_fuel (heap_ c)) c a ip ys HR Hys (inst_rep_loop _ _ _ Hri)) as (c' & -> & HR' & Hs & Hh).
  cbn [mbind outcome_bind]. rewrite decide_True by done. unfold a_dispose, history. rewrite Hys. cbn [default id].
  eexists _, _. split; [reflexivity|]. destruct (watchdog_ c'); [|done].
  split; [by apply (rep_fields c')|]. done.
Qed.

End WriteDataContainer.
Export WriteDataContainer.
