(* ===== verification/WriteDataContainerProps.v ===== *)
(** * The writer's sample container: theorems

    Copies for late-joining readers, obtaining a buffer, registration, and the
    simulation of sequences of operations by the abstract container. *)

From S2P Require Import Prelude Qos SequenceNumber DataSampleHeader SampleLists WriteDataContainer.

Module WriteDataContainerProps.

(** ** Copies for a late-joining reader *)

(** A list whose last sample is linked on to [n]. *)
Definition open_rep (h : heap) (l : SampleList) (xs : list positive) (n : option positive) : Prop :=
  head_ l = head xs /\ tail_ l = last xs /\ size_ l = Z.of_nat (length xs) /\ NoDup xs
  /\ seg (lview send_lk h) None xs n.

Lemma open_rep_closed h l xs : open_rep h l xs None <-> send_rep h l xs.
Proof. done. Qed.

Lemma open_rep_same h h' l xs n :
  (forall x, x ∈ xs -> h' !! x = h !! x) -> open_rep h l xs n -> open_rep h' l xs n.
Proof.
  intros Hv (H1 & H2 & H3 & H4 & H5). repeat (split; [done|]).
  eapply seg_frame; [|exact H5]. intros x Hx. by apply lview_lookup, Hv.
Qed.

(** Appending a copy, which still carries the links of the original. *)
Lemma enqueue_copy h l rs n p q n' :
  open_rep h l rs n -> p ∉ rs -> lview send_lk h p = Some (q, n') -> (rs = [] -> q = None) ->
  exists h' l', send_enqueue_tail h l p = Ret (h', l') /\ open_rep h' l' (rs ++ [p]) n'
    /\ upto erase_send (p :: rs) h h'.
Proof.
  intros (Hh & Ht & Hsz & Hnd & Hs) Hp Hv Hq. unfold send_enqueue_tail.
  assert (NoDup (rs ++ [p])) as Hnd'.
  { apply NoDup_app. split; [done|]. split; [set_solver|apply NoDup_singleton]. }
  assert (forall z, z ∈ p :: rs -> is_Some (h !! z)) as Hlive.
  { intros z [->|Hz]%elem_of_cons; apply (lview_dom send_lk); [by rewrite Hv|by eapply seg_lookup]. }
  destruct rs as [|t ys _] using rev_ind.
  - rewrite Hh. eexists _, _. split; [reflexivity|]. split; [|apply upto_refl].
    rewrite (Hq eq_refl) in Hv. repeat (split; [cbn in Hsz |- *; first [done|lia]|]). done.
  - rewrite last_snoc in Ht. assert (exists y, head_ l = Some y) as [y Hy] by (rewrite Hh; destruct ys; eauto).
    rewrite Hy, Ht. run_stores Hlive. eexists _, _. split; [reflexivity|].
    assert (t <> p) as Htp by set_solver. split.
    + split; [cbn; rewrite <- Hy, Hh; by destruct ys|]. split; [by rewrite last_snoc|].
      split; [cbn; rewrite Hsz, !length_app; cbn; lia|]. split; [done|].
      apply seg_app. split.
      * apply (seg_new_next (lview send_lk h) _ _ _ n); [done| | |done].
        -- intros x Hx Hl. rewrite last_snoc in Hl.
           rewrite (lview_set_next send_lk _ t (Some p) x), (lview_set_prev send_lk _ p (Some t) x).
           rewrite !decide_False by set_solver. done.
        -- intros t' q'. rewrite last_snoc. intros [= <-] Hq'.
           rewrite (lview_set_next send_lk _ t (Some p) t), (lview_set_prev send_lk _ p (Some t) t).
           rewrite decide_True, decide_False by done. by rewrite Hq'.
      * split; [|done]. rewrite lst_or_snoc.
        rewrite (lview_set_next send_lk _ t (Some p) p), (lview_set_prev send_lk _ p (Some t) p).
        rewrite decide_False, decide_True by done. by rewrite Hv.
    + apply upto_alter; [apply upto_alter; [apply upto_refl|set_solver|done]|set_solver|done].
Qed.

(** The content of a copy made for [reader]. *)
Definition copy_for `{WriterEnvironment} (reader : GUID) (e e' : DataSampleElement) : Prop :=
  exists e0, copy_element e uninit_ids = Ret e0 /\ erase_send e' = erase_send (set_sub_id 0 reader (set_num_subs 1 e0)).

(** Samples that are neither expired nor filtered out and have a message. *)
Definition kept `{WriterEnvironment} (now : Z) (lifespan : Duration) (eval : bool) (h : heap) (x : positive) : Prop :=
  exists e b, h !! x = Some e /\ sample_ e = Some b /\ resend_data_expired now e lifespan = Ret false
    /\ eval && filter_out e = false.

Class MallocLaws `{WriterEnvironment} : Prop := {
  malloc_fresh h : exists p, malloc h = Some p /\ h !! p = None }.

(** [h'] extends [h] and differs from it only in the links of [rs]. *)
Definition extends (rs : list positive) (h h' : heap) : Prop :=
  forall y, is_Some (h !! y) -> y ∉ rs -> h' !! y = h !! y.

Section copies.
Context `{MallocLaws} (now : Z) (reader : GUID) (lifespan : Duration) (eval : bool).

(** One copy: [x] lies between [last done_] and [head rest]. *)
Lemma copy_one h lst xs done_ rest rs n x e b appended :
  send_rep h appended xs -> xs = done_ ++ x :: rest -> open_rep h lst rs n -> (rs = [] -> done_ = []) ->
  (forall x, x ∈ xs -> x ∉ rs) -> h !! x = Some e -> sample_ e = Some b ->
  exists p e0 h1 l1, malloc h = Some p /\ h !! p = None /\ copy_element e uninit_ids = Ret e0
    /\ send_enqueue_tail (<[p := set_sub_id 0 reader (set_num_subs 1 e0)]> h) lst p = Ret (h1, l1)
    /\ open_rep h1 l1 (rs ++ [p]) (head rest) /\ next_send_sample_ e = head rest
    /\ extends rs h h1 /\ (forall y, y <> p -> erase_send <$> h1 !! y = erase_send <$> h !! y)
    /\ erase_send <$> h1 !! p = Some (erase_send (set_sub_id 0 reader (set_num_subs 1 e0))) /\ p ∉ rs.
Proof.
  intros Hrep Hxs Ho Hr Hd He Hb. destruct (malloc_fresh h) as (p & Hm & Hp).
  assert (exists e0, copy_element e uninit_ids = Ret e0 /\ previous_send_sample_ e0 = previous_send_sample_ e
    /\ next_send_sample_ e0 = next_send_sample_ e) as (e0 & Hc & Hc1 & Hc2).
  { unfold copy_element. rewrite Hb. cbn [deref mbind outcome_bind]. eexists. done. }
  rewrite Hxs in Hrep. pose proof (dl_links _ _ _ _ _ Hrep) as Hvx. unfold lview in Hvx. rewrite He in Hvx. cbn in Hvx.
  set (e1 := set_sub_id 0 reader (set_num_subs 1 e0)).
  assert (p ∉ rs) as Hprs.
  { intros Hpr. destruct Ho as (_ & _ & _ & _ & Hs). destruct (seg_lookup _ _ _ _ p Hs Hpr) as [pn Hpn].
    unfold lview in Hpn. by rewrite Hp in Hpn. }
  destruct (enqueue_copy (<[p := e1]> h) lst rs n p (last done_) (head rest)) as (h1 & l1 & E & Ho1 & Hu1); [|done| |intros E; by rewrite (Hr E)|].
  { eapply open_rep_same; [|exact Ho]. intros z Hz. rewrite lookup_insert_ne; [done|]. by intros ->. }
  { unfold lview. rewrite lookup_insert_eq. cbn. rewrite Hc1, Hc2. exact Hvx. }
  exists p, e0, h1, l1. repeat (split; [congruence || done|]). split.
  { intros y Hy Hyr. assert (y <> p) by (intros ->; destruct Hy; congruence).
    rewrite (proj1 Hu1) by set_solver. by rewrite lookup_insert_ne. }
  destruct Hu1 as [_ Hu1]. split; [intros y Hy; by rewrite Hu1, lookup_insert_ne|].
  split; [by rewrite Hu1, lookup_insert_eq|done].
Qed.

(** What the loop over [rest] does to the heap and to the list [lst]. *)
Record copied (h h' : heap) (rest rs ps : list positive) (lst' : SampleList) : Prop := mkCopied {
  cp_rep : send_rep h' lst' (rs ++ ps);
  cp_extends : extends rs h h';
  cp_fresh p : p ∈ ps -> h !! p = None;
  cp_same y : y ∉ ps -> erase_send <$> h' !! y = erase_send <$> h !! y;
  cp_copies : Forall2 (fun x p => exists e e', h !! x = Some e /\ h' !! p = Some e' /\ copy_for reader e e') rest ps }.

Lemma copied_cons h h1 h' rest rs ps lst' x e e0 p :
  copied h1 h' rest (rs ++ [p]) ps lst' -> h !! x = Some e -> copy_element e uninit_ids = Ret e0 ->
  h !! p = None -> extends rs h h1 -> (forall y, y <> p -> erase_send <$> h1 !! y = erase_send <$> h !! y) ->
  erase_send <$> h1 !! p = Some (erase_send (set_sub_id 0 reader (set_num_subs 1 e0))) ->
  (forall z, z ∈ rest -> is_Some (h !! z) /\ z ∉ rs) ->
  copied h h' (x :: rest) rs (p :: ps) lst'.
Proof.
  intros [C1 C2 C3 C4 C5] He Hc Hp Hext Hsame He1 Hrest.
  assert (p ∉ ps) as Hpp. { intros Hpp. apply C3 in Hpp. by rewrite Hpp in He1. }
  split.
  - by rewrite <- app_assoc in C1.
  - intros y Hy Hyr. rewrite C2; [by apply Hext|by rewrite Hext|].
    intros [?|Hyp%list_elem_of_singleton]%elem_of_app; [done|]. subst. destruct Hy. congruence.
  - intros q [->|Hq]%elem_of_cons; [done|]. specialize (C3 q Hq).
    assert (q <> p) as Hqp by (intros ->; done). specialize (Hsame q Hqp). rewrite C3 in Hsame. by destruct (h !! q).
  - intros y Hy. rewrite C4, Hsame by set_solver. done.
  - constructor.
    + exists e. rewrite <- (C4 p Hpp) in He1. destruct (h' !! p) as [e'|]; [|done]. exists e'.
      split; [done|]. split; [done|]. exists e0. cbn in He1. split; [done|congruence].
    + rewrite Forall2_lookup in C5 |- *. intros i. specialize (C5 i).
      destruct (rest !! i) as [z|] eqn:Ez, (ps !! i) as [q|]; inversion C5 as [? ? (ez & eq & Hz & Hq)|]; subst; constructor.
      exists ez, eq. split; [|done]. destruct (Hrest z) as [Hz1 Hz2]; [by eapply list_elem_of_lookup_2|]. by rewrite <- Hext.
Qed.

Lemma copy_loop_spec fuel c lst appended xs done_ rest rs n :
  send_rep (heap_ c) appended xs -> xs = done_ ++ rest -> open_rep (heap_ c) lst rs n ->
  (rest = [] -> n = None) -> (rs = [] -> done_ = []) -> (forall x, x ∈ xs -> x ∉ rs) ->
  (forall x, x ∈ rest -> kept now lifespan eval (heap_ c) x) -> (length rest < fuel)%nat ->
  exists h' lst' ps,
    copy_loop fuel now c lst (mkIt (head_ appended) (tail_ appended) (head rest)) (send_end appended) reader lifespan eval
    = Ret (with_heap h' c, lst') /\ copied (heap_ c) h' rest rs ps lst'.
Proof.
  revert c lst done_ rest rs n. induction fuel as [|fuel IH]; intros c lst done_ rest rs n Hrep Hxs Ho Hn Hr Hd Hk Hf; [lia|].
  cbn [copy_loop]. unfold send_end. rewrite it_eq_spec. destruct rest as [|x rest]; cbn [head].
  { rewrite bool_decide_true by done. exists (heap_ c), lst, []. rewrite (Hn eq_refl) in Ho.
    split; [by destruct c|]. split; [by rewrite app_nil_r|by intros y|set_solver|done|constructor]. }
  rewrite bool_decide_false by done. fold (send_end appended).
  destruct (Hk x) as (e & b & He & Hb & Hexp & Hfil); [set_solver|].
  cbn [current_ load]. rewrite He. cbn [deref mbind outcome_bind]. rewrite Hexp. cbn [mbind outcome_bind]. rewrite Hfil. cbn [orb].
  destruct (copy_one (heap_ c) lst xs done_ rest rs n x e b appended) as (p & e0 & h1 & l1 & -> & Hp & Hc & E1 & Ho1 & Hnx & Hext & Hsame & He1 & Hprs);
    [done..|]. rewrite Hc. cbn [mbind outcome_bind]. rewrite E1. cbn [mbind outcome_bind it_next current_ load].
  assert (forall z, z ∈ xs -> is_Some (heap_ c !! z)) as Hlive by (intros; by eapply dl_rep_live).
  rewrite Hext, He by (try apply Hd; set_solver). cbn [deref mbind outcome_bind it_head_ it_tail_]. rewrite Hnx.
  destruct (IH (with_heap h1 c) l1 (done_ ++ [x]) rest (rs ++ [p]) (head rest)) as (h' & l' & ps & E & HC);
    [..|exists h', l', (p :: ps); split; [exact E|]].
  - cbn. eapply send_rep_same; [|exact Hrep]. intros z Hz. by apply lview_lookup, Hext; [apply Hlive|apply Hd].
  - by rewrite <- app_assoc.
  - done.
  - by intros ->.
  - by destruct rs.
  - intros z Hz [Hzr|Hzp%list_elem_of_singleton]%elem_of_app; [by eapply Hd|]. subst. destruct (Hlive p Hz). congruence.
  - intros z Hz. destruct (Hk z) as (e' & b' & He' & Hrest); [set_solver|]. exists e', b'. split; [|done].
    cbn. rewrite Hext; [done|eauto|]. apply Hd. set_solver.
  - cbn in Hf. lia.
  - eapply copied_cons; [exact HC|done..|]. intros z Hz. split; [apply Hlive|apply Hd]; set_solver.
Qed.

Lemma copy_and_append_spec c lst appended xs rs :
  send_rep (heap_ c) appended xs -> send_rep (heap_ c) lst rs -> (forall x, x ∈ xs -> x ∉ rs) ->
  (forall x, x ∈ xs -> kept now lifespan eval (heap_ c) x) ->
  exists h' lst' ps, copy_and_append now c lst appended reader lifespan eval = Ret (with_heap h' c, lst')
    /\ copied (heap_ c) h' xs rs ps lst'.
Proof.
  intros Hrep Hl Hd Hk. unfold copy_and_append, send_begin. pose proof Hrep as (Hh & _).
  replace (mkIt (head_ appended) (tail_ appended) (head_ appended))
    with (mkIt (head_ appended) (tail_ appended) (head xs)) by (by rewrite Hh).
  eapply (copy_loop_spec _ c lst appended xs [] xs rs None); try done. by eapply dl_rep_loop.
Qed.
End copies.

Lemma wf_extend_out hnd a k ps :
  wf hnd a -> (forall x j, x ∈ ps -> x ∉ lists a j) -> (forall x ip zs, x ∈ ps -> waiting a !! ip = Some zs -> x ∉ zs) ->
  in_history k = false -> wf hnd (put k (lists a k ++ ps) a).
Proof.
  intros [W1 W2 W3 W4] Hx Hw Hk.
  assert (forall j y, y ∈ lists (put k (lists a k ++ ps) a) j <-> (y ∈ ps /\ j = k) \/ y ∈ lists a j) as Hin.
  { intros j y. cbn [lists put]. rewrite elem_of_fupd, elem_of_app. clear.
    destruct (decide (k = j)); subst; intuition (try congruence). }
  split.
  - intros j j' y. rewrite !Hin. clear W2 W3 W4. naive_solver.
  - intros ip ys y Hys. rewrite (W2 ip ys y Hys). setoid_rewrite Hin. split; [naive_solver|].
    intros [(j & Hj & [[Hy ->]|Hl]) Hh]; [congruence|]. split; [eauto|done].
  - intros ip zs y Hzs Hy. destruct (W3 ip zs y Hzs Hy) as [Hn Hh]. split; [|done].
    intros j. rewrite Hin. intros [[Hp _]|Hl]; [by eapply Hw|by eapply Hn].
  - intros j y Hj Hy. apply Hin in Hy as [[_ ->]|Hl]; [congruence|eauto].
Qed.

Lemma rep_ext c a a' :
  Rep c a -> (forall k, lists a' k = lists a k) -> holder a' = holder a -> samples a' = samples a ->
  waiting a' = waiting a -> Rep c a'.
Proof.
  intros [[H1 H2 H3 H4] [W1 W2 W3 W4] Rb Rm] E1 E2 E3 E4. split; [split| |..|done]; rewrite ?E2, ?E3, ?E4; try done.
  - intros k. by rewrite E1.
  - split; rewrite ?E3, ?E4; [intros j j' y|intros ip ys y|intros ip zs y|intros j y]; setoid_rewrite E1; eauto.
  - intros k x. rewrite E1. apply Rb.
Qed.

(** Every sample on a list is live. *)
Lemma rep_live c a :
  Rep c a ->
  (forall k x, x ∈ lists a k -> is_Some (heap_ c !! x)) /\ (forall x, x ∈ holder a -> is_Some (heap_ c !! x))
  /\ (forall ip ys x, samples a !! ip = Some ys -> x ∈ ys -> is_Some (heap_ c !! x))
  /\ (forall ip zs x, waiting a !! ip = Some zs -> x ∈ zs -> is_Some (heap_ c !! x)).
Proof.
  intros [[H1 H2 H3 H4] _ _ _]. split; [|split; [|split]].
  - intros k x Hx. eapply (dl_rep_live send_lk); [apply H1|done].
  - intros x Hx. eapply (dl_rep_live writer_lk); [apply H2|done].
  - intros ip ys x Hys Hx. specialize (H3 ip). rewrite Hys in H3. inversion H3. by eapply inst_rep_live.
  - intros ip zs x Hzs Hx. specialize (H4 ip). rewrite Hzs in H4. inversion H4. by eapply inst_rep_live.
Qed.

(** Fields of live samples other than the send links are kept. *)
Lemma same_field {A} (f : DataSampleElement -> A) (h h' : heap) x :
  (forall e, f (erase_send e) = f e) -> erase_send <$> h' !! x = erase_send <$> h !! x -> f <$> h' !! x = f <$> h !! x.
Proof.
  intros Hf H. destruct (h' !! x) as [d'|], (h !! x) as [d|]; cbn [fmap option_fmap option_map] in *; try done.
  apply (inj Some) in H. f_equal. by rewrite <- Hf, H, Hf.
Qed.

Section reenqueue.
Context `{MallocLaws} (now : Z) (reader : GUID) (lifespan : Duration) (eval : bool).

Lemma copied_rep c a h' xs ps l' :
  Rep c a -> copied reader (heap_ c) h' xs (lists a Resend) ps l' ->
  Rep (with_resend_data l' (with_heap h' c)) (put Resend (lists a Resend ++ ps) a).
Proof.
  intros HR [C1 C2 C3 C4 C5]. destruct (rep_live c a HR) as (V1 & V2 & V3 & V4). destruct HR as [[H1 H2 H3 H4] Rw Rb Rm].
  assert (forall y, is_Some (heap_ c !! y) -> erase_send <$> h' !! y = erase_send <$> heap_ c !! y) as Hs.
  { intros y Hy. apply C4. intros Hp. apply C3 in Hp. destruct Hy. congruence. }
  assert (forall y, is_Some (heap_ c !! y) -> handle_of h' y = handle_of (heap_ c) y) as Hh.
  { intros y Hy. pose proof (same_field handle_ _ _ y (fun _ => eq_refl) (Hs y Hy)) as E. unfold handle_of.
    destruct (h' !! y), (heap_ c !! y); cbn in *; congruence. }
  split; cbn [heap_ data_holder_ insts_ blocks_ instances_ with_resend_data with_heap].
  - split; cbn [lists put holder samples waiting].
    + intros k. destruct (decide (Resend = k)) as [<-|Hk]; [by rewrite fupd_eq|]. rewrite fupd_ne by done.
      eapply (send_rep_same (heap_ c)); [|destruct k;
        first [exact (H1 Unsent)|exact (H1 Sending)|exact (H1 Sent)|exact (H1 Released)|done]]. intros x Hx. apply lview_lookup, C2; [by eapply V1|].
      intros Hx'. by apply Hk, (wf_place _ _ Rw _ _ x).
    + eapply writer_rep_same; [|exact H2]. intros x Hx.
      by apply (same_field (fun e => (previous_writer_sample_ e, next_writer_sample_ e))), Hs, V2.
    + intros ip. specialize (H3 ip). destruct (insts_ c !! ip), (samples a !! ip) eqn:E; inversion H3; constructor.
      eapply inst_rep_same; [|done]. intros v Hv. apply (same_field next_instance_sample_); [done|]. by eapply Hs, V3.
    + intros ip. specialize (H4 ip). destruct (insts_ c !! ip), (waiting a !! ip) eqn:E; inversion H4; constructor.
      eapply inst_rep_same; [|done]. intros v Hv. apply (same_field next_instance_sample_); [done|]. by eapply Hs, V4.
  - assert (forall x j, x ∈ ps -> x ∉ lists a j) as N1.
    { intros x j Hx Hj. apply C3 in Hx. destruct (V1 _ _ Hj). congruence. }
    assert (forall x ip zs, x ∈ ps -> waiting a !! ip = Some zs -> x ∉ zs) as N2.
    { intros x ip zs Hx Hzs Hz. apply C3 in Hx. destruct (V4 _ _ _ Hzs Hz). congruence. }
    apply wf_extend_out; [|done..]. eapply wf_ext; [| |exact Rw].
    + intros x k Hx. by eapply Hh, V1.
    + intros x ip zs Hzs Hx. by eapply Hh, V4.
  - intros k x Hk Hx. cbn in Hx. apply elem_of_fupd in Hx as [[<- _]|[_ Hx]]; [done|].
    destruct (Rb k x Hk Hx) as (e & b & bs & He & Hb & Hbs). pose proof (same_field sample_ _ _ x (fun _ => eq_refl) (Hs x (V1 _ _ Hx))) as E.
    rewrite He in E. destruct (h' !! x) as [e'|] eqn:He'; cbn in E; [|done]. exists e', b, bs. split; [done|]. split; [congruence|done].
  - done.
Qed.

(** What counts as kept depends only on data that copying does not change. *)
Lemma kept_same h h' x :
  h' !! x = h !! x -> kept now lifespan eval h x -> kept now lifespan eval h' x.
Proof. unfold kept. by intros ->. Qed.

Lemma reenqueue_copy c a k :
  Rep c a -> k <> Resend -> (forall x, x ∈ lists a k -> kept now lifespan eval (heap_ c) x) ->
  exists c' ps,
    (if 0 <? size_ (list_of c k) then
       '(c, l) ← copy_and_append now c (resend_data_ c) (list_of c k) reader lifespan eval; Ret (with_resend_data l c)
     else Ret c) = Ret c'
    /\ Rep c' (put Resend (lists a Resend ++ ps) a) /\ same_setup c c'
    /\ (forall j, j <> Resend -> list_of c' j = list_of c j)
    /\ Forall2 (fun x p => exists e e', heap_ c !! x = Some e /\ heap_ c' !! p = Some e' /\ copy_for reader e e') (lists a k) ps
    /\ (forall y, is_Some (heap_ c !! y) -> y ∉ lists a Resend -> heap_ c' !! y = heap_ c !! y)
    /\ (forall y, is_Some (heap_ c !! y) -> erase_send <$> heap_ c' !! y = erase_send <$> heap_ c !! y).
Proof.
  intros HR Hk Hkept. pose proof HR as [Rl Rw _ _]. pose proof (l_send _ _ _ _ _ Rl k) as Hrep. pose proof Hrep as (_ & _ & Hsz & _).
  destruct (decide (lists a k = [])) as [E|E].
  { exists c, []. rewrite Hsz, E. split; [done|]. split; [|done].
    apply (rep_ext c a); [done| |done..]. intros j. cbn. unfold fupd. rewrite app_nil_r. case_decide; by subst. }
  rewrite (proj2 (Z.ltb_lt _ _)) by (rewrite Hsz; destruct (lists a k); [done|cbn; lia]).
  destruct (copy_and_append_spec now reader lifespan eval c (resend_data_ c) (list_of c k) (lists a k) (lists a Resend))
    as (h' & l' & ps & -> & HC); [done|apply (l_send _ _ _ _ _ Rl Resend)| |done|].
  { intros x Hx Hx'. by apply Hk, (wf_place _ _ Rw _ _ x). }
  cbn [mbind outcome_bind]. eexists _, ps. split; [reflexivity|]. split; [by eapply copied_rep|].
  split; [done|]. split; [by intros []|]. split; [apply HC|]. split; [apply HC|].
  intros y Hy. apply HC. intros Hp. apply (cp_fresh _ _ _ _ _ _ _ HC) in Hp. destruct Hy. congruence.
Qed.
End reenqueue.

(** Without skipped samples the resend list gets a copy of every sample that is
    being sent or was sent, in order. *)
Lemma reenqueue_all_refines `{MallocLaws} now reader lifespan eval c a :
  Rep c a -> (forall k x, k = Sending \/ k = Sent -> x ∈ lists a k -> kept now lifespan eval (heap_ c) x) ->
  exists c' ps, reenqueue_all now c reader lifespan eval = Ret (c', RETCODE_OK)
    /\ Rep c' (put Resend (lists a Resend ++ ps) a) /\ same_setup c c'
    /\ Forall2 (fun x p => exists e e', heap_ c !! x = Some e /\ heap_ c' !! p = Some e' /\ copy_for reader e e')
         (lists a Sending ++ lists a Sent) ps.
Proof.
  intros HR Hk. pose proof HR as [_ Rw _ _]. destruct (rep_live c a HR) as (V1 & _).
  destruct (reenqueue_copy now reader lifespan eval c a Sending HR) as (c1 & ps & E1 & HR1 & Hse1 & Hl1 & HF1 & Hx1 & Hs1); [done|by eauto|].
  assert (forall x, x ∈ lists a Sent -> heap_ c1 !! x = heap_ c !! x) as Hsent.
  { intros x Hx. apply Hx1; [by eapply V1|]. intros Hx'. by pose proof (wf_place _ _ Rw _ _ _ Hx Hx'). }
  destruct (reenqueue_copy now reader lifespan eval c1 (put Resend (lists a Resend ++ ps) a) Sent HR1)
    as (c' & qs & E2 & HR' & Hse2 & _ & HF2 & _ & Hs2); [done| |].
  { intros x Hx. eapply kept_same; [by apply Hsent|]. eauto. }
  exists c', (ps ++ qs). unfold reenqueue_all. cbn [list_of] in E1, E2. rewrite E1. cbn [mbind outcome_bind].
  rewrite E2. cbn [mbind outcome_bind]. split; [done|]. split; [|split; [by eapply same_setup_trans|]].
  - eapply rep_ext; [exact HR'|..]; try done. intros k. cbn. unfold fupd.
    repeat case_decide; subst; try done. by rewrite app_assoc.
  - apply Forall2_app.
    + eapply Forall2_impl; [exact HF1|]. intros x p (e & e' & He & He' & Hc). exists e.
      pose proof (Hs2 p (ex_intro _ e' He')) as Hp. rewrite He' in Hp. destruct (heap_ c' !! p) as [e2|]; [|done].
      exists e2. split; [done|]. split; [done|]. destruct Hc as (e0 & Hc0 & Hc1). exists e0. split; [done|].
      apply (inj Some) in Hp. congruence.
    + rewrite Forall2_lookup in HF2 |- *. intros i. specialize (HF2 i). cbn [lists put] in HF2.
      rewrite fupd_ne in HF2 by done.
      destruct (lists a Sent !! i) as [z|] eqn:Ez, (qs !! i) as [q|]; inversion HF2 as [? ? (ez & eq & Hz & Hq)|]; subst; constructor.
      exists ez, eq. split; [|done]. rewrite <- Hsent; [done|]. by eapply list_elem_of_lookup_2.
Qed.

(** ** Obtaining a buffer *)

(** What the container relies on when it asks the transport to drop a sample
    that it no longer holds: the transport reports the drop. *)
Class TransportLaws `{WriterEnvironment} : Prop := {
  remove_sample_drops c a x : Rep c a -> x ∈ lists a Released ->
    exists c', remove_sample c x = Ret c' /\ Rep c' (a_data_dropped x a) /\ same_setup c c' /\ untouched c a c' }.

Lemma rep_alloc c a p e :
  Rep c a -> heap_ c !! p = None -> Rep (with_heap (<[p := e]> (heap_ c)) c) a.
Proof.
  intros HR Hp. destruct (rep_live c a HR) as (V1 & V2 & V3 & V4). destruct HR as [Rl Rw Rb Rm].
  assert (forall x, is_Some (heap_ c !! x) -> x <> p) as Hne by (intros x [? ?] ->; congruence).
  split; cbn; [| |intros k x Hk Hx|done].
  - eapply (links_free _ _ _ _ _ _ Rl p).
    + intros k Hk. by apply (Hne p (V1 _ _ Hk)).
    + intros Hk. by apply (Hne p (V2 _ Hk)).
    + intros ip ys Hys Hk. by apply (Hne p (V3 _ _ _ Hys Hk)).
    + intros ip zs Hzs Hk. by apply (Hne p (V4 _ _ _ Hzs Hk)).
    + intros x Hx. by rewrite lookup_insert_ne.
  - eapply wf_ext; [| |exact Rw]; [intros x k Hx|intros x ip zs Hzs Hx];
      unfold handle_of; (rewrite lookup_insert_ne; [done|]); apply not_eq_sym, Hne; eauto.
  - destruct (Rb k x Hk Hx) as (e' & b & bs & H1 & H2 & H3). exists e', b, bs. split; [|done].
    rewrite lookup_insert_ne; [done|]. apply not_eq_sym, Hne. eauto.
Qed.

(** The abstract effect of obtaining a buffer that replaces the oldest sample
    of a full history; a sample in use by the transport is dropped. *)
Definition a_make_room (depth : Z) (ip : positive) (a : astate) : astate :=
  if Z.of_nat (length (history ip a)) =? depth then
    match history ip a with
    | x :: _ => let a' := a_remove_oldest ip a in
                if decide (x ∈ lists a Sending) then a_data_dropped x a' else a'
    | [] => a
    end
  else a.
Definition hold (p : positive) (a : astate) : astate := mkA (lists a) (holder a ++ [p]) (samples a) (waiting a).

(** A fresh sample that is on no list. *)
Record floating (c : WriteDataContainer) (a : astate) (p : positive) : Prop := mkFloat {
  fl_off k : p ∉ lists a k; fl_holder : p ∉ holder a; fl_inst : off_instances a p }.

Lemma floating_fresh c a p e : Rep c a -> heap_ c !! p = None -> floating (with_heap (<[p := e]> (heap_ c)) c) a p.
Proof.
  intros HR Hp. destruct (rep_live c a HR) as (V1 & V2 & V3 & V4).
  split; [|intros Hx; destruct (V2 _ Hx); congruence|split].
  - intros k Hx. destruct (V1 _ _ Hx). congruence.
  - intros ip ys Hys Hx. destruct (V3 _ _ _ Hys Hx). congruence.
  - intros ip zs Hzs Hx. destruct (V4 _ _ _ Hzs Hx). congruence.
Qed.

(** The operations do not put a floating sample on a list. *)
Lemma remove_oldest_lists hnd ip a x ys :
  wf hnd a -> samples a !! ip = Some (x :: ys) ->
  (forall k y, y ∈ lists (a_remove_oldest ip a) k -> exists j, y ∈ lists a j)
  /\ (forall y, y ∈ holder (a_remove_oldest ip a) -> y ∈ holder a)
  /\ (x ∈ lists a Sending -> x ∈ lists (a_remove_oldest ip a) Released).
Proof.
  intros Hw Hys. destruct (wf_history_place _ _ _ _ x Hw Hys) as (k & Hk & Hx); [set_solver|].
  rewrite (a_remove_oldest_place _ _ _ _ _ _ Hw Hys Hk Hx).
  assert (x ∈ lists a Sending -> k = Sending) as Hs by (intros; by apply (wf_place _ _ Hw _ _ x)).
  split; [|split].
  - intros j y Hy. destruct k; [|..|done|done]; cbn in Hy.
    + apply elem_of_fupd in Hy as [[<- [Hy _]%elem_of_remove_elt]|[_ Hy]]; eauto.
    + apply elem_of_fupd in Hy as [[<- Hy]|[_ Hy]].
      * rewrite fupd_ne in Hy by done. apply elem_of_app in Hy as [Hy| ->%list_elem_of_singleton]; eauto.
      * apply elem_of_fupd in Hy as [[<- [Hy _]%elem_of_remove_elt]|[_ Hy]]; eauto.
    + apply elem_of_fupd in Hy as [[<- [Hy _]%elem_of_remove_elt]|[_ Hy]]; eauto.
  - intros y Hy. destruct k; cbn in Hy; try (apply elem_of_remove_elt in Hy as [Hy _]); done.
  - intros Hxs. rewrite (Hs Hxs). cbn. rewrite fupd_eq. set_solver.
Qed.

Lemma data_dropped_lists x a :
  (forall k y, y ∈ lists (a_data_dropped x a) k -> exists j, y ∈ lists a j)
  /\ (forall y, y ∈ holder (a_data_dropped x a) -> y ∈ holder a)
  /\ samples (a_data_dropped x a) = samples a /\ waiting (a_data_dropped x a) = waiting a.
Proof.
  unfold a_data_dropped. case_decide as H1; [|case_decide as H2]; (split; [|split; [|done]]); try (by eauto).
  - intros k y Hy. cbn in Hy. apply elem_of_fupd in Hy as [[<- Hy]|[_ Hy]].
    + rewrite fupd_ne in Hy by done. apply elem_of_app in Hy as [Hy| ->%list_elem_of_singleton]; eauto.
    + apply elem_of_fupd in Hy as [[<- [Hy _]%elem_of_remove_elt]|[_ Hy]]; eauto.
  - intros k y Hy. cbn in Hy. apply elem_of_fupd in Hy as [[<- [Hy _]%elem_of_remove_elt]|[_ Hy]]; eauto.
  - intros y Hy. cbn in Hy. by apply elem_of_remove_elt in Hy as [Hy _].
Qed.

Definition full (c : WriteDataContainer) (ys : list positive) : bool := Z.of_nat (length ys) =? depth_ c.
Definition oldest_in_use (c : WriteDataContainer) (a : astate) (ys : list positive) : bool :=
  full c ys && match ys with x :: _ => bool_decide (x ∈ lists a Sending) | [] => false end.

Lemma make_room_refines c a ip ys :
  Rep c a -> samples a !! ip = Some ys -> Z.of_nat (length ys) <= depth_ c -> 0 < depth_ c ->
  exists c1, make_room c ip = Ret (c1, RETCODE_OK, negb (oldest_in_use c a ys))
    /\ Rep c1 (if full c ys then a_remove_oldest ip a else a) /\ same_setup c c1 /\ untouched c a c1.
Proof.
  intros HR Hys Hle Hd. pose proof HR as [Rl _ _ _]. destruct (links_instance_inv _ _ _ _ _ Rl _ _ Hys) as [i Hi].
  destruct (links_instance _ _ _ _ _ Rl _ _ Hi) as (ys' & zs & Hys' & (_ & _ & Hsz & _) & _).
  assert (ys' = ys) as -> by congruence. unfold make_room, oldest_in_use, full. cbn [instance_at]. rewrite Hi. cbn [deref mbind outcome_bind].
  rewrite Hsz, (proj2 (Z.ltb_ge _ _)) by lia. destruct (Z.eqb_spec (Z.of_nat (length ys)) (depth_ c)) as [E|E]; cbn [andb negb].
  - destruct ys as [|x ys]; [cbn in E; lia|].
    destruct (remove_oldest_refines c a ip x ys true HR Hys) as (c1 & -> & H1 & H2 & H3).
    exists c1. split; [|done]. do 2 f_equal.
    destruct (decide (x ∈ lists a Sending)) as [Hx|Hx];
      [rewrite (bool_decide_eq_true_2 _ Hx)|rewrite (bool_decide_eq_false_2 (x ∈ _) Hx)];
      [by apply bool_decide_eq_false_2; intros Hn|by apply bool_decide_eq_true_2].
  - exists c. done.
Qed.

Lemma limit_samples_none now script c :
  max_num_samples_ c <= 0 -> limit_samples now script c = Ret (c, RETCODE_OK, false, 0, script).
Proof. intros Hm. unfold limit_samples. by rewrite (proj2 (Z.ltb_ge 0 (max_num_samples_ c)) Hm). Qed.

(** A floating sample stays as it is while room is made and is then added to
    the list of all samples. *)
Lemma hold_rep c a p :
  Rep c a -> p ∉ holder a -> writer_free (heap_ c) p -> (forall k, p ∉ lists a k) ->
  exists h l, writer_enqueue_tail (heap_ c) (data_holder_ c) p = Ret (h, l)
    /\ Rep (with_heap h (with_data_holder l c)) (hold p a) /\ upto erase_writer (p :: holder a) (heap_ c) h.
Proof.
  intros [Rl Rw Rb Rm] Hp Hf Hk.
  destruct (writer_enqueue_tail_spec _ _ _ _ (l_holder _ _ _ _ _ Rl) Hp Hf) as (h & l & E & Hr & Hu).
  exists h, l. split; [done|]. split; [|done]. split; cbn.
  - eapply links_ext; [|by intros []]. eapply (links_holder _ _ _ _ _ _ Rl); done.
  - destruct (wf_upto erase_writer _ _ _ _ (fun _ => eq_refl) Hu Rw) as [W1 W2 W3 W4]. by split.
  - intros k x Hk' Hx. eapply (upto_has_block erase_writer); [done|exact Hu|eauto].
  - done.
Qed.

Lemma make_room_history hnd a ip ys depth :
  wf hnd a -> samples a !! ip = Some ys -> Z.of_nat (length ys) <= depth -> 0 < depth ->
  exists ys', samples (a_make_room depth ip a) !! ip = Some ys' /\ Z.of_nat (length ys') < depth.
Proof.
  intros Hw Hys Hle Hd. unfold a_make_room, history. rewrite Hys. cbn [default id].
  destruct (Z.eqb_spec (Z.of_nat (length ys)) depth) as [E|E]; [|exists ys; split; [done|lia]].
  destruct ys as [|x ys]; [exists []; split; [done|cbn; lia]|].
  exists ys. cbn in E. split; [|lia].
  case_decide; [destruct (data_dropped_lists x (a_remove_oldest ip a)) as (_ & _ & -> & _)|];
    by rewrite (a_remove_oldest_history _ _ _ _ Hys), lookup_insert_eq.
Qed.

Lemma outcome_bind_assoc {A B C} (m : outcome A) (f : A -> outcome B) (g : B -> outcome C) :
  ((m ≫= f) ≫= g) = (m ≫= (fun x => f x ≫= g)).
Proof. by destruct m. Qed.

(** A sample that is on no list stays off the lists of [a_make_room]. *)
Lemma floating_make_room hnd c a ip ys p depth :
  wf hnd a -> samples a !! ip = Some ys -> floating c a p -> floating c (a_make_room depth ip a) p.
Proof.
  intros Hw Hys [F1 F2 [F3 F4]]. unfold a_make_room, history. rewrite Hys. cbn [default id].
  case_match; [|done]. destruct ys as [|x ys]; [done|].
  destruct (remove_oldest_lists _ _ _ _ _ Hw Hys) as (R1 & R2 & _).
  assert (floating c (a_remove_oldest ip a) p) as HF.
  { split; [|by intros Hp%R2|split].
    - intros k Hp. destruct (R1 _ _ Hp) as [j Hj]. by apply (F1 j).
    - rewrite (a_remove_oldest_history _ _ _ _ Hys). intros jp zs Hzs Hp.
      destruct (decide (ip = jp)) as [<-|Hj].
      + rewrite lookup_insert_eq in Hzs. injection Hzs as <-. eapply (F3 ip); [done|]. set_solver.
      + rewrite lookup_insert_ne in Hzs by done. by eapply F3.
    - rewrite a_remove_oldest_waiting. exact F4. }
  case_decide; [|done]. destruct HF as [G1 G2 [G3 G4]]. destruct (data_dropped_lists x (a_remove_oldest ip a)) as (D1 & D2 & D3 & D4).
  split; [|by intros Hp%D2|split].
  - intros k Hp. destruct (D1 _ _ Hp) as [j Hj]. by apply (G1 j).
  - by rewrite D3.
  - by rewrite D4.
Qed.

Section obtain.
Context `{!WriterEnvironment} `{!MallocLaws} `{!TransportLaws}.

(** The oldest sample, when the transport still uses it, is dropped. *)
Lemma drop_in_use c a ip x ys c1 :
  Rep c a -> samples a !! ip = Some (x :: ys) -> full c (x :: ys) = true ->
  Rep c1 (a_remove_oldest ip a) -> same_setup c c1 -> untouched c a c1 -> x ∈ lists a Sending ->
  exists c2, remove_sample c1 x = Ret c2 /\ Rep c2 (a_make_room (depth_ c) ip a) /\ same_setup c c2
    /\ (forall p, floating c a p -> heap_ c2 !! p = heap_ c !! p).
Proof.
  intros HR Hys Hfull HR1 Hs1 Hu1 Hx. pose proof HR as [_ Rw _ _].
  destruct (remove_oldest_lists _ _ _ _ _ Rw Hys) as (R1 & R2 & R3).
  destruct (remove_sample_drops c1 _ x HR1 (R3 Hx)) as (c2 & E & HR2 & Hs2 & Hu2).
  exists c2. split; [done|]. unfold a_make_room, history. rewrite Hys. cbn [default id].
  unfold full in Hfull. rewrite Hfull, decide_True by done. split; [done|]. split; [by eapply same_setup_trans|].
  intros p Hp. pose proof Hp as [F1 F2 F3]. rewrite <- (Hu1 p F1 F2 F3).
  assert (floating c (a_remove_oldest ip a) p) as [G1 G2 G3]; [|by apply Hu2].
  split; [|by intros ?%R2|].
  - intros k Hk. destruct (R1 _ _ Hk) as [j Hj]. by apply (F1 j).
  - destruct F3 as [F3 F4]. split; [|by rewrite a_remove_oldest_waiting].
    rewrite (a_remove_oldest_history _ _ _ _ Hys). intros jp zs Hzs Hpz. destruct (decide (ip = jp)) as [<-|Hj].
    + rewrite lookup_insert_eq in Hzs. injection Hzs as <-. eapply (F3 ip); [done|]. set_solver.
    + rewrite lookup_insert_ne in Hzs by done. by eapply F3.
Qed.

Lemma blocked_make_room c a ip ys i :
  Rep c (if full c ys then a_remove_oldest ip a else a) -> insts_ c !! ip = Some i -> blocked ip a = [] ->
  head_ (waiting_list_ i) = None.
Proof.
  intros [Rl _ _ _] Hi Hb. destruct (links_instance _ _ _ _ _ Rl ip i Hi) as (_ & zs & _ & _ & Hzs & Hrw).
  apply (inst_head_cons _ _ _ Hrw). unfold blocked in Hb.
  destruct (full c ys); [rewrite a_remove_oldest_waiting in Hzs|]; by rewrite Hzs in Hb.
Qed.

Lemma rep_instance c a ip ys :
  Rep c a -> samples a !! ip = Some ys ->
  exists i, insts_ c !! ip = Some i /\ head_ (samples_ i) = head ys.
Proof.
  intros [Rl _ _ _] Hys. destruct (links_instance_inv _ _ _ _ _ Rl _ _ Hys) as [i Hi].
  destruct (links_instance _ _ _ _ _ Rl _ _ Hi) as (ys' & zs & Hys' & (Hh & _) & _). exists i. split; [done|]. congruence.
Qed.

Lemma make_room_samples a ip ys (b : bool) :
  samples a !! ip = Some ys -> exists ys', samples (if b then a_remove_oldest ip a else a) !! ip = Some ys'.
Proof.
  intros Hys. destruct b; [|eauto]. destruct ys as [|x ys].
  - unfold a_remove_oldest, history. rewrite Hys. eauto.
  - rewrite (a_remove_oldest_history _ _ _ _ Hys), lookup_insert_eq. eauto.
Qed.

Lemma obtain_refines now1 now2 script c a handle ip ys :
  Rep c a -> find_handle (instances_ c) handle = Some ip -> samples a !! ip = Some ys ->
  Z.of_nat (length ys) <= depth_ c -> 0 < depth_ c -> max_num_samples_ c <= 0 ->
  should_block_ c = false \/ (blocked ip a = [] /\ oldest_in_use c a ys = false) ->
  exists c' p, obtain_buffer now1 now2 script c handle = Ret (c', Some p, RETCODE_OK)
    /\ Rep c' (hold p (a_make_room (depth_ c) ip a)) /\ same_setup c c' /\ heap_ c !! p = None
    /\ send_free (heap_ c') p /\ handle_of (heap_ c') p = Some ip
    /\ (forall k, p ∉ lists (a_make_room (depth_ c) ip a) k) /\ off_instances (a_make_room (depth_ c) ip a) p.
Proof.
  intros HR Hip Hys Hle Hd Hmax Hblk. destruct (malloc_fresh (heap_ c)) as (p & Hm & Hp).
  unfold obtain_buffer, get_handle_instance. rewrite Hm, Hip. cbn [deref mbind outcome_bind].
  set (e := new_element _ _ _). set (c0 := with_heap (<[p := e]> (heap_ c)) c).
  pose proof (rep_alloc c a p e HR Hp : Rep c0 a) as HR0. pose proof (floating_fresh c a p e HR Hp : floating c0 a p) as HF0.
  destruct (rep_instance c0 a ip ys HR0 Hys) as (i0 & Hi0 & Hh0). cbn [instance_at]. rewrite Hi0. cbn [deref mbind outcome_bind]. rewrite Hh0.
  destruct (make_room_refines c0 a ip ys HR0 Hys Hle Hd) as (c1 & -> & HR1 & Hs1 & Hu1). cbn [mbind outcome_bind].
  rewrite bool_decide_true by done. cbn [negb]. rewrite limit_samples_none by (destruct Hs1 as (_ & _ & _ & -> & _); done).
  cbn [mbind outcome_bind]. rewrite bool_decide_true by done. cbn [negb].
  destruct (make_room_samples a ip ys (full c0 ys) Hys) as [ys1 Hys1].
  destruct (rep_instance c1 _ ip ys1 HR1 Hys1) as (i1 & Hi1 & _). rewrite Hi1. cbn [deref mbind outcome_bind].
  assert (exists c2, (if should_block_ c1 then
       if bool_decide (head_ (waiting_list_ i1) <> None) || negb (negb (oldest_in_use c0 a ys))
       then wait_for_space (duration_to_absolute_time_value (max_blocking_time_ c1) now2) script c1 ip p
       else Ret (c1, RETCODE_OK, true)
     else if negb (negb (oldest_in_use c0 a ys)) then s ← deref (head ys); c ← remove_sample c1 s; Ret (c, RETCODE_OK, true)
     else Ret (c1, RETCODE_OK, true)) = Ret (c2, RETCODE_OK, true)
    /\ Rep c2 (a_make_room (depth_ c) ip a) /\ same_setup c0 c2 /\ (forall q, floating c0 a q -> heap_ c2 !! q = heap_ c0 !! q))
    as (c2 & -> & HR2 & Hs2 & Hfl).
  { rewrite negb_involutive. assert (should_block_ c1 = should_block_ c) as -> by apply Hs1.
    destruct (oldest_in_use c0 a ys) eqn:Hoiu.
    - destruct Hblk as [-> | [_ Hbad]]; [|by rewrite (Hbad : oldest_in_use c0 a ys = false) in Hoiu].
      unfold oldest_in_use in Hoiu. apply andb_true_iff in Hoiu as [Hfull Hx]. destruct ys as [|x ys]; [done|].
      apply bool_decide_eq_true in Hx. rewrite Hfull in HR1. cbn [head deref mbind outcome_bind].
      destruct (drop_in_use c0 a ip x ys c1 HR0 Hys Hfull HR1 Hs1 Hu1 Hx) as (c2 & -> & Hc2). exists c2. done.
    - exists c1. split; [|split; [|split; [done|]]].
      + rewrite orb_false_r. destruct Hblk as [-> | [Hb _]]; [done|].
        rewrite (blocked_make_room c1 a ip ys i1), bool_decide_false; [by destruct (should_block_ c)|tauto| |done|done].
        replace (full c1 ys) with (full c0 ys); [done|]. unfold full. by destruct Hs1 as (-> & _).
      + unfold a_make_room, history. rewrite Hys. cbn [default id]. unfold oldest_in_use, full in *. cbn [depth_ with_heap c0] in *.
        destruct (Z.of_nat (length ys) =? depth_ c); [|done]. destruct ys as [|x ys]; [by unfold a_remove_oldest, history in HR1; rewrite Hys in HR1|].
        cbn [andb] in Hoiu. apply bool_decide_eq_false in Hoiu. by rewrite decide_False.
      + intros q [F1 F2 F3]. by apply Hu1. }
  cbn [mbind outcome_bind negb]. rewrite bool_decide_true by done. cbn [negb].
  pose proof (floating_make_room _ c0 a ip ys p (depth_ c) (rep_wf _ _ HR) Hys HF0) as [G1 G2 G3].
  assert (heap_ c2 !! p = Some e) as He2 by (rewrite (Hfl p HF0); apply lookup_insert_eq).
  destruct (hold_rep c2 _ p HR2 G2) as (h & l & -> & HR3 & Hu3); [unfold writer_free, lview; by rewrite He2|done|].
  cbn [mbind outcome_bind]. eexists _, p. split; [reflexivity|]. split; [done|]. split; [done|]. split; [done|].
  split; [|split; [|done]]; cbn [heap_ with_heap].
  - unfold send_free. rewrite (upto_lview send_lk erase_writer _ _ _ p (fun _ => eq_refl) (fun _ => eq_refl) Hu3). unfold lview. by rewrite He2.
  - rewrite (upto_handle erase_writer _ _ _ p (fun _ => eq_refl) Hu3). unfold handle_of. by rewrite He2.
Qed.
End obtain.

(** ** Registration *)

Definition add_instance (ip : positive) (a : astate) : astate :=
  mkA (lists a) (holder a) (<[ip := []]> (samples a)) (<[ip := []]> (waiting a)).

Lemma bind_find m handle ip m' k jp :
  bind_handle m handle ip = Some m' -> find_handle m' k = Some jp -> (k = handle /\ jp = ip) \/ find_handle m k = Some jp.
Proof.
  revert m'. induction m as [|[k' jp'] m IH]; intros m' Hb Hf; cbn in Hb.
  - injection Hb as <-. cbn in Hf. destruct (handle =? k) eqn:E; bool_hyps; simplify_eq; auto.
  - destruct (handle <? k'); [|destruct (handle =? k'); [done|]].
    + injection Hb as <-. cbn in Hf. destruct (handle =? k) eqn:E; bool_hyps; simplify_eq; auto.
    + destruct (bind_handle m handle ip) as [m''|]; [|done]. cbn in Hb. injection Hb as <-. cbn in Hf |- *.
      destruct (k' =? k); [auto|by apply (IH m'')].
Qed.

Lemma inst_rep_nil h : inst_rep h empty_list [].
Proof. repeat split; try done. constructor. Qed.

(** The address of a new instance is not the instance of any sample. *)
Lemma rep_add_instance c a ip i m :
  Rep c a -> insts_ c !! ip = None -> samples_ i = empty_list -> waiting_list_ i = empty_list ->
  (forall k jp, find_handle m k = Some jp -> jp = ip \/ is_Some (insts_ c !! jp)) ->
  Rep (set_inst ip i (with_instances m c)) (add_instance ip a).
Proof.
  intros [[H1 H2 H3 H4] [W1 W2 W3 W4] Rb Rm] Hip Hs Hw Hm.
  assert (samples a !! ip = None) as Hns.
  { specialize (H3 ip). rewrite Hip in H3. by inversion H3. }
  split; cbn.
  - split; [done|done|..]; intros jp; cbn; destruct (decide (ip = jp)) as [<-|Hj]; rewrite ?lookup_insert_eq, ?lookup_insert_ne by done;
      [|apply H3| |apply H4]; constructor; rewrite ?Hs, ?Hw; apply inst_rep_nil.
  - split; [done|..].
    + intros jp ys x Hys. cbn in Hys. destruct (decide (ip = jp)) as [<-|Hj].
      * rewrite lookup_insert_eq in Hys. injection Hys as <-. split; [set_solver|]. intros [(k & Hk & Hx) Hh]. cbn in Hx.
        destruct (W4 k x Hk Hx) as (jp & Hh' & [ys Hys]). rewrite Hh in Hh'. injection Hh' as <-. congruence.
      * rewrite lookup_insert_ne in Hys by done. by apply W2.
    + intros jp zs x Hzs Hx. cbn in Hzs. destruct (decide (ip = jp)) as [<-|Hj].
      * rewrite lookup_insert_eq in Hzs. injection Hzs as <-. set_solver.
      * rewrite lookup_insert_ne in Hzs by done. by eapply W3.
    + intros k x Hk Hx. destruct (W4 k x Hk Hx) as (jp & Hh & Hs'). exists jp. split; [done|]. cbn.
      destruct (decide (ip = jp)) as [<-|]; [rewrite lookup_insert_eq|rewrite lookup_insert_ne]; eauto.
  - done.
  - intros k jp Hf. destruct (decide (ip = jp)) as [<-|Hj]; [rewrite lookup_insert_eq; eauto|].
    rewrite lookup_insert_ne by done. destruct (Hm k jp Hf) as [->|]; [done|done].
Qed.

Lemma rep_set_inst c a ip i i' :
  Rep c a -> insts_ c !! ip = Some i -> samples_ i' = samples_ i -> waiting_list_ i' = waiting_list_ i ->
  Rep (set_inst ip i' c) a.
Proof.
  intros [Rl Rw Rb Rm] Hi Hs Hw. split; cbn; [|done..|].
  - eapply links_ext; [|by intros []]. by eapply links_inst.
  - intros k jp Hf. destruct (decide (ip = jp)) as [<-|Hj]; [rewrite lookup_insert_eq; eauto|].
    rewrite lookup_insert_ne by done. eauto.
Qed.

(** The abstract effect of [register_instance]. *)
Definition a_register (c : WriteDataContainer) (handle next_handle : Z) (fresh_ip : positive) (a : astate) : astate :=
  if handle =? HANDLE_NIL then
    if (0 <? max_num_instances_ c) && (max_num_instances_ c <=? swrap 32 (Z.of_nat (length (instances_ c)))) then a
    else match bind_handle (instances_ c) next_handle fresh_ip with None => a | Some _ => add_instance fresh_ip a end
  else a.

Lemma register_refines c a handle sample next_handle fresh_ip :
  Rep c a -> insts_ c !! fresh_ip = None ->
  exists c' ret h s, register_instance c handle sample next_handle fresh_ip = Ret (c', ret, h, s)
    /\ Rep c' (a_register c handle next_handle fresh_ip a) /\ depth_ c' = depth_ c.
Proof.
  intros HR Hf. unfold register_instance, a_register. destruct (handle =? HANDLE_NIL).
  - case_match; [by eauto 10|]. destruct (bind_handle _ _ _) as [m|] eqn:Hb; [|by eauto 10].
    set (i := with_instance_handle _ _).
    pose proof (rep_add_instance c a fresh_ip i m HR Hf eq_refl eq_refl) as HR'.
    cbn [instance_at insts_ set_inst with_insts with_instances]. rewrite lookup_insert_eq. cbn [deref mbind outcome_bind].
    eexists _, _, _, _. split; [reflexivity|]. split; [|by case_match].
    assert (Rep (set_inst fresh_ip i (with_instances m c)) (add_instance fresh_ip a)) as HR2.
    { apply HR'. intros k jp Hk. destruct (bind_find _ _ _ _ _ _ Hb Hk) as [[_ ->]|Hk']; [by left|].
      right. by eapply (rep_map _ _ HR). }
    case_match; [by eapply (rep_fields _ _ _ HR2)|done].
  - destruct (find_handle (instances_ c) handle) as [ip|] eqn:Hfind; [|by eauto 10].
    destruct (rep_map _ _ HR _ _ Hfind) as [i Hi]. cbn [instance_at]. rewrite Hi. cbn [deref mbind outcome_bind].
    cbn [instance_at insts_ set_inst with_insts]. rewrite lookup_insert_eq. cbn [deref mbind outcome_bind].
    eexists _, _, _, _. split; [reflexivity|]. split; [|by case_match].
    assert (Rep (set_inst ip (with_unregistered false i) c) a) as HR2 by (by eapply rep_set_inst).
    case_match; [by eapply (rep_fields _ _ _ HR2)|done].
Qed.

Lemma unregister_refines c a handle b :
  Rep c a -> exists c' ret r, unregister c handle b = Ret (c', ret, r) /\ Rep c' a /\ depth_ c' = depth_ c.
Proof.
  intros HR. unfold unregister. destruct (find_handle (instances_ c) handle) as [ip|] eqn:Hfind; [|by eauto 10].
  destruct (rep_map _ _ HR _ _ Hfind) as [i Hi]. cbn [instance_at]. rewrite Hi. cbn [deref mbind outcome_bind].
  eexists _, _, _. split; [reflexivity|]. split; [|by case_match].
  assert (Rep (set_inst ip (with_unregistered true i) c) a) as HR2 by (by eapply rep_set_inst).
  case_match; by eapply (rep_fields _ _ _ HR2).
Qed.

(** ** Sequences of operations *)

(** The operations of the container and of its owner: [OpFill] is the writer
    storing the message in the element it obtained.  [OpObtain] does not wait
    (its script is empty). *)
Inductive op :=
| OpRegister (handle : Z) (sample : positive) (next_handle : Z) (fresh_ip : positive)
| OpUnregister (handle : Z)
| OpObtain (now : Z) (handle : Z)
| OpFill (x b : positive) (bytes : list Z)
| OpEnqueue (now : Z) (x : positive) (handle : Z)
| OpGetUnsent
| OpReenqueue (now : Z) (reader : GUID) (lifespan : Duration) (eval : bool)
| OpGetResend
| OpDelivered (x : positive)
| OpDropped (x : positive)
| OpDispose (handle : Z).

Definition fill (c : WriteDataContainer) (x b : positive) (bytes : list Z) : outcome WriteDataContainer :=
  h ← store (heap_ c) (Some x) (set_sample (Some b));
  Ret (with_heap h (with_blocks (<[b := bytes]> (blocks_ c)) c)).

Definition run `{WriterEnvironment} (o : op) (c : WriteDataContainer) : outcome WriteDataContainer :=
  match o with
  | OpRegister handle sample next_handle fresh_ip =>
      '(c, _, _, _) ← register_instance c handle sample next_handle fresh_ip; Ret c
  | OpUnregister handle => '(c, _, _) ← unregister c handle false; Ret c
  | OpObtain now handle => '(c, _, _) ← obtain_buffer now now [] c handle; Ret c
  | OpFill x b bytes => fill c x b bytes
  | OpEnqueue now x handle => '(c, _) ← enqueue now c x handle; Ret c
  | OpGetUnsent => '(c, _) ← get_unsent_data c; Ret c
  | OpReenqueue now reader lifespan eval => '(c, _) ← reenqueue_all now c reader lifespan eval; Ret c
  | OpGetResend => '(c, _) ← get_resend_data c; Ret c
  | OpDelivered x => data_delivered c x
  | OpDropped x => data_dropped c x false
  | OpDispose handle => '(c, _, _) ← dispose c handle false; Ret c
  end.

Definition instance_of (c : WriteDataContainer) (x : positive) : positive := default 1%positive (handle_of (heap_ c) x).
Definition registered (c : WriteDataContainer) (handle : Z) : positive := default 1%positive (find_handle (instances_ c) handle).

(** What the caller of an operation has to ensure. *)
Definition enabled `{WriterEnvironment} (o : op) (c : WriteDataContainer) (a : astate) : Prop :=
  match o with
  | OpRegister _ _ _ fresh_ip => insts_ c !! fresh_ip = None
  | OpUnregister _ => True
  | OpObtain _ handle =>
      is_Some (find_handle (instances_ c) handle) /\ max_num_samples_ c <= 0
      /\ (should_block_ c = false
          \/ (blocked (registered c handle) a = []
              /\ oldest_in_use c a (history (registered c handle) a) = false))
  | OpFill x b _ => is_Some (heap_ c !! x) /\ floating c (mkA (lists a) [] (samples a) (waiting a)) x
  | OpEnqueue _ x handle =>
      is_Some (find_handle (instances_ c) handle) /\ ready c a x (registered c handle)
      /\ Z.of_nat (length (history (registered c handle) a)) < depth_ c
  | OpGetUnsent => lists a Sending = [] \/ lists a Unsent <> []
  | OpReenqueue now _ lifespan eval =>
      forall k x, k = Sending \/ k = Sent -> x ∈ lists a k -> kept now lifespan eval (heap_ c) x
  | OpGetResend => True
  | OpDelivered x => is_Some (handle_of (heap_ c) x)
  | OpDropped _ => True
  | OpDispose handle => is_Some (find_handle (instances_ c) handle)
  end.

(** The effect on the abstract container; the addresses of new samples are
    chosen by the allocator. *)
Definition astep (o : op) (c : WriteDataContainer) (a a' : astate) : Prop :=
  match o with
  | OpRegister handle _ next_handle fresh_ip => a' = a_register c handle next_handle fresh_ip a
  | OpUnregister _ | OpFill _ _ _ => a' = a
  | OpObtain _ handle =>
      exists p, heap_ c !! p = None /\ a' = hold p (a_make_room (depth_ c) (registered c handle) a)
  | OpEnqueue _ x handle => a' = a_enqueue x (registered c handle) a
  | OpGetUnsent => a' = a_get_unsent_data a
  | OpReenqueue _ _ _ _ =>
      exists ps, length ps = length (lists a Sending ++ lists a Sent) /\ a' = put Resend (lists a Resend ++ ps) a
  | OpGetResend => a' = a_get_resend_data a
  | OpDelivered x => a' = a_data_delivered x (instance_of c x) a
  | OpDropped x => a' = a_data_dropped x a
  | OpDispose handle => a' = a_dispose (registered c handle) a
  end.

(** No history is longer than [depth_]. *)
Definition bounded (c : WriteDataContainer) (a : astate) : Prop :=
  0 < depth_ c /\ forall ip ys, samples a !! ip = Some ys -> Z.of_nat (length ys) <= depth_ c.

Lemma enabled_instance c a handle :
  Rep c a -> is_Some (find_handle (instances_ c) handle) ->
  exists ip ys, find_handle (instances_ c) handle = Some ip /\ registered c handle = ip /\ samples a !! ip = Some ys
    /\ history (registered c handle) a = ys.
Proof.
  intros HR [ip Hip]. destruct (rep_map _ _ HR _ _ Hip) as [i Hi].
  destruct (links_instance _ _ _ _ _ (rep_links _ _ HR) _ _ Hi) as (ys & _ & Hys & _).
  exists ip, ys. unfold registered, history. rewrite Hip. cbn. by rewrite Hys.
Qed.

Lemma fill_refines c a x b bytes :
  Rep c a -> is_Some (heap_ c !! x) -> floating c (mkA (lists a) [] (samples a) (waiting a)) x ->
  exists c', fill c x b bytes = Ret c' /\ Rep c' a /\ depth_ c' = depth_ c.
Proof.
  intros [[H1 H2 H3 H4] Rw Rb Rm] Hx [F1 _ [F2 F3]]. unfold fill. rewrite store_alter by done. cbn [mbind outcome_bind].
  eexists. split; [reflexivity|]. split; [|done].
  set (h := alter (set_sample (Some b)) x (heap_ c)).
  assert (forall {A} (f : DataSampleElement -> A) y, (forall s e, f (set_sample s e) = f e) -> f <$> h !! y = f <$> heap_ c !! y) as Hf.
  { intros A f y Hs. unfold h. rewrite lookup_alter. case_decide; subst; [|done]. destruct (heap_ c !! y); cbn; [by rewrite Hs|done]. }
  assert (forall y, handle_of h y = handle_of (heap_ c) y) as Hh.
  { intros y. pose proof (Hf _ handle_ y (fun _ _ => eq_refl)) as E. unfold handle_of. destruct (h !! y), (heap_ c !! y); cbn in *; congruence. }
  split; cbn; fold h; [split| |..|done].
  - intros k. eapply send_rep_same; [|destruct k; [exact (H1 Unsent)|exact (H1 Sending)|exact (H1 Sent)|exact (H1 Released)|exact (H1 Resend)]].
    intros y _. by apply (Hf _ (fun e => (previous_send_sample_ e, next_send_sample_ e))).
  - eapply writer_rep_same; [|exact H2]. intros y _. by apply (Hf _ (fun e => (previous_writer_sample_ e, next_writer_sample_ e))).
  - eapply map_Forall2_impl; [exact H3|]. intros ip i ys Hi. eapply inst_rep_same; [|exact Hi]. intros y _. by apply (Hf _ next_instance_sample_).
  - eapply map_Forall2_impl; [exact H4|]. intros ip i ys Hi. eapply inst_rep_same; [|exact Hi]. intros y _. by apply (Hf _ next_instance_sample_).
  - eapply wf_ext; [..|exact Rw]; intros; apply Hh.
  - intros k y Hk Hy. destruct (Rb k y Hk Hy) as (e & b' & bs & He & Hb & Hbs).
    assert (y <> x) by (intros ->; by eapply F1). exists e, b'.
    destruct (decide (b = b')) as [<-|Hne]; [exists bytes; rewrite lookup_insert_eq|exists bs; rewrite lookup_insert_ne by done];
      (split; [unfold h; by rewrite lookup_alter_ne|done]).
Qed.

(** The configuration is never changed. *)
Ltac invert_outcome :=
  repeat match goal with
  | H : (_ ≫= _) = Ret _ |- _ => apply outcome_bind_Ret in H as (? & ? & H)
  | H : Ret _ = Ret _ |- _ => injection H as H; subst
  | x : _ * _ |- _ => destruct x
  | H : (if ?b then _ else _) = Ret _ |- _ => destruct b
  | H : match ?x with _ => _ end = Ret _ |- _ => destruct x
  | H : (_, _) = (_, _) |- _ => injection H as H; subst
  | H : UB = Ret _ |- _ => discriminate H
  | H : release_buffer _ _ = Ret _ |- _ => apply release_buffer_setup in H
  end.
Lemma signal_empty_depth c : depth_ (signal_empty c) = depth_ c.
Proof. unfold signal_empty. by destruct (pending_data c). Qed.
Lemma wakeup_depth c s i c' : wakeup_blocking_writers c s i = Ret c' -> depth_ c' = depth_ c.
Proof. unfold wakeup_blocking_writers. intros H. destruct s; invert_outcome; done. Qed.
Lemma data_delivered_depth c x c' : data_delivered c x = Ret c' -> depth_ c' = depth_ c.
Proof.
  unfold data_delivered, deliver_sending, set_block_flag. intros H. invert_outcome; rewrite ?signal_empty_depth;
    repeat match goal with
    | H : wakeup_blocking_writers _ _ _ = Ret _ |- _ => apply wakeup_depth in H as ->
    | H : same_setup _ _ |- _ => destruct H as (-> & _)
    end; done.
Qed.
Lemma data_dropped_depth c x b c' : data_dropped c x b = Ret c' -> depth_ c' = depth_ c.
Proof.
  unfold data_dropped. destruct b; [apply data_delivered_depth|]. intros H. invert_outcome; rewrite ?signal_empty_depth;
    repeat match goal with
    | H : wakeup_blocking_writers _ _ _ = Ret _ |- _ => apply wakeup_depth in H as ->
    | H : same_setup _ _ |- _ => destruct H as (-> & _)
    end; done.
Qed.
Lemma get_data_depth c c' l : get_unsent_data c = Ret (c', l) \/ get_resend_data c = Ret (c', l) -> depth_ c' = depth_ c.
Proof.
  unfold get_unsent_data, get_resend_data. intros [H|H]; invert_outcome; by rewrite ?signal_empty_depth.
Qed.

(** The histories of [a'] are at most as long as those of [a]. *)
Definition shrinks (a a' : astate) : Prop :=
  forall ip ys', samples a' !! ip = Some ys' -> exists ys, samples a !! ip = Some ys /\ (length ys' <= length ys)%nat.

Lemma shrinks_same a a' : samples a' = samples a -> shrinks a a'.
Proof. intros E ip ys Hys. rewrite E in Hys. eauto. Qed.
Lemma shrinks_trans a1 a2 a3 : shrinks a1 a2 -> shrinks a2 a3 -> shrinks a1 a3.
Proof. intros H1 H2 ip ys3 H3. destruct (H2 _ _ H3) as (ys2 & Hs2 & ?). destruct (H1 _ _ Hs2) as (ys1 & ? & ?). exists ys1. split; [done|lia]. Qed.
Lemma shrinks_history a ip ys ys' :
  samples a !! ip = Some ys -> (length ys' <= length ys)%nat -> shrinks a (with_history ip ys' a).
Proof.
  intros Hys Hle jp zs Hzs. cbn in Hzs. destruct (decide (ip = jp)) as [<-|Hj].
  - rewrite lookup_insert_eq in Hzs. injection Hzs as <-. eauto.
  - rewrite lookup_insert_ne in Hzs by done. eauto.
Qed.
Lemma length_remove_elt_le x (ys : list positive) : (length (remove_elt x ys) <= length ys)%nat.
Proof. unfold remove_elt. induction ys as [|y ys IH]; [done|]. rewrite filter_cons. case_decide; cbn; lia. Qed.
Lemma shrinks_remove_oldest ip a ys : samples a !! ip = Some ys -> shrinks a (a_remove_oldest ip a).
Proof.
  intros Hys. destruct ys as [|x ys].
  - unfold a_remove_oldest, history. rewrite Hys. by apply shrinks_same.
  - intros jp zs Hzs. rewrite (a_remove_oldest_history _ _ _ _ Hys) in Hzs.
    eapply shrinks_history; [exact Hys| |exact Hzs]. cbn. lia.
Qed.
Lemma shrinks_delivered x ip a ys : samples a !! ip = Some ys -> shrinks a (a_data_delivered x ip a).
Proof.
  intros Hys. unfold a_data_delivered, history. repeat case_decide; try by apply shrinks_same.
  cbn [samples take_out put]. rewrite Hys. intros jp zs Hzs.
  eapply (shrinks_history a); [exact Hys|apply (length_remove_elt_le x)|exact Hzs].
Qed.
Lemma shrinks_make_room depth ip a ys : samples a !! ip = Some ys -> shrinks a (a_make_room depth ip a).
Proof.
  intros Hys. unfold a_make_room. case_match; [|by apply shrinks_same]. case_match; [by apply shrinks_same|].
  case_decide; [|by eapply shrinks_remove_oldest].
  eapply shrinks_trans; [by eapply shrinks_remove_oldest|]. apply shrinks_same. apply data_dropped_lists.
Qed.
Lemma shrinks_remove_all n ip a ys : samples a !! ip = Some ys -> shrinks a (a_remove_all n ip a).
Proof.
  revert a ys. induction n as [|n IH]; intros a ys Hys; cbn; [by apply shrinks_same|].
  eapply shrinks_trans; [by eapply shrinks_remove_oldest|].
  destruct (make_room_samples a ip ys true Hys) as [ys' Hys']. by eapply IH.
Qed.
Lemma bounded_shrinks c c' a a' : bounded c a -> depth_ c' = depth_ c -> shrinks a a' -> bounded c' a'.
Proof.
  intros [Hd Hb] E Hs. split; [by rewrite E|]. intros ip ys Hys. destruct (Hs _ _ Hys) as (ys0 & Hys0 & Hle).
  specialize (Hb _ _ Hys0). rewrite E. lia.
Qed.

Section simulation.
Context `{!WriterEnvironment} `{!MallocLaws} `{!TransportLaws}.

Lemma step_refines o c a :
  Rep c a -> bounded c a -> enabled o c a ->
  exists c' a', run o c = Ret c' /\ astep o c a a' /\ Rep c' a' /\ bounded c' a'.
Proof.
  intros HR Hb Hen. destruct o; cbn [run enabled astep] in *.
  - destruct (register_refines c a handle sample next_handle fresh_ip HR Hen) as (c' & ret & h & s & -> & HR' & Hd).
    eexists _, _. split; [reflexivity|]. split; [done|]. split; [done|]. destruct Hb as [Hd0 Hb].
    split; [by rewrite Hd|]. intros ip ys Hys. rewrite Hd. unfold a_register in Hys.
    repeat case_match; eauto. cbn in Hys. destruct (decide (fresh_ip = ip)) as [<-|Hne].
    + rewrite lookup_insert_eq in Hys. injection Hys as <-. cbn. lia.
    + rewrite lookup_insert_ne in Hys by done. eauto.
  - destruct (unregister_refines c a handle false HR) as (c' & ret & r & -> & HR' & Hd).
    eexists _, a. split; [reflexivity|]. split; [done|]. split; [done|]. by eapply bounded_shrinks, shrinks_same.
  - destruct Hen as (Hf & Hm & Hw). destruct (enabled_instance c a handle HR Hf) as (ip & ys & Hip & Hreg & Hys & Hhist).
    rewrite Hreg in *. rewrite Hhist in Hw.
    destruct (obtain_refines now now [] c a handle ip ys HR Hip Hys) as (c' & p & -> & HR' & Hs & Hp & _);
      [by eapply Hb|by apply Hb|done|done|].
    eexists _, _. split; [reflexivity|]. split; [by exists p|]. split; [done|].
    eapply bounded_shrinks; [done|apply Hs|]. by eapply (shrinks_trans _ (a_make_room (depth_ c) ip a)); [eapply shrinks_make_room|apply shrinks_same].
  - destruct Hen as [Hx Hfl]. destruct (fill_refines c a x b bytes HR Hx Hfl) as (c' & -> & HR' & Hd).
    exists c', a. split; [done|]. split; [done|]. split; [done|]. by eapply bounded_shrinks, shrinks_same.
  - destruct Hen as (Hf & Hr & Hlen). destruct (enabled_instance c a handle HR Hf) as (ip & ys & Hip & Hreg & Hys & Hhist).
    rewrite Hreg in *. rewrite Hhist in Hlen.
    destruct (enqueue_refines now c a x handle ip HR Hip Hr) as (c' & -> & HR' & Hd & _).
    eexists _, _. split; [reflexivity|]. split; [done|]. split; [done|]. destruct Hb as [Hd0 Hb].
    split; [by rewrite Hd|]. intros jp zs Hzs. rewrite Hd. unfold a_enqueue in Hzs. cbn in Hzs.
    destruct (decide (ip = jp)) as [<-|Hne].
    + rewrite lookup_insert_eq in Hzs. injection Hzs as <-. rewrite length_app, Hhist. cbn. lia.
    + rewrite lookup_insert_ne in Hzs by done. eauto.
  - destruct (get_unsent_data_refines c a HR Hen) as (c' & E & HR'). rewrite E. eexists _, _.
    split; [reflexivity|]. split; [done|]. split; [done|]. eapply bounded_shrinks; [done|eapply get_data_depth; eauto|by apply shrinks_same].
  - destruct (reenqueue_all_refines now reader lifespan eval c a HR Hen) as (c' & ps & -> & HR' & Hs & HF).
    eexists _, _. split; [reflexivity|]. split; [exists ps; split; [by rewrite (Forall2_length _ _ _ HF)|done]|]. split; [done|].
    eapply bounded_shrinks; [done|apply Hs|by apply shrinks_same].
  - destruct (get_resend_data_refines c a HR) as (c' & E & HR'). rewrite E. eexists _, _.
    split; [reflexivity|]. split; [done|]. split; [done|]. eapply bounded_shrinks; [done|eapply get_data_depth; eauto|by apply shrinks_same].
  - destruct Hen as [ip Hip]. destruct (data_delivered_refines c a x ip HR Hip) as (c' & E & HR' & _).
    exists c', (a_data_delivered x ip a). split; [done|]. unfold instance_of. rewrite Hip. cbn. split; [done|]. split; [done|].
    eapply bounded_shrinks; [done|by eapply data_delivered_depth|]. destruct (samples a !! ip) as [ys|] eqn:Hys; [by eapply shrinks_delivered|].
    unfold a_data_delivered. destruct (decide (x ∈ lists a Released)); [by apply shrinks_same|].
    destruct (decide (x ∈ lists a Sending)) as [Hx|]; [|by apply shrinks_same].
    destruct (wf_owner _ _ (rep_wf _ _ HR) Sending x eq_refl Hx) as (jp & Hj & [zs Hzs]). congruence.
  - destruct (data_dropped_refines c a x HR) as (c' & E & HR' & _). exists c', (a_data_dropped x a).
    split; [done|]. split; [done|]. split; [done|]. eapply bounded_shrinks; [done|by eapply data_dropped_depth|].
    apply shrinks_same, data_dropped_lists.
  - destruct (enabled_instance c a handle HR Hen) as (ip & ys & Hip & Hreg & Hys & Hhist). rewrite Hreg.
    destruct (dispose_refines c a handle ip false HR Hip) as (c' & r & -> & HR' & _ & Hs).
    eexists _, _. split; [reflexivity|]. split; [done|]. split; [done|]. eapply bounded_shrinks; [done|apply Hs|].
    by eapply shrinks_remove_all.
Qed.

Fixpoint run_all (os : list op) (c : WriteDataContainer) : outcome WriteDataContainer :=
  match os with [] => Ret c | o :: os => c ← run o c; run_all os c end.

(** Every operation is enabled when its turn comes. *)
Fixpoint allowed (os : list op) (c : WriteDataContainer) (a : astate) : Prop :=
  match os with
  | [] => True
  | o :: os => enabled o c a /\ forall c' a', run o c = Ret c' -> astep o c a a' -> Rep c' a' -> allowed os c' a'
  end.

(** The abstract container goes through the same operations. *)
Inductive asteps : list op -> WriteDataContainer -> astate -> WriteDataContainer -> astate -> Prop :=
| asteps_nil c a : asteps [] c a c a
| asteps_cons o os c a c1 a1 c' a' :
    run o c = Ret c1 -> astep o c a a1 -> asteps os c1 a1 c' a' -> asteps (o :: os) c a c' a'.

Lemma run_all_refines os c a :
  Rep c a -> bounded c a -> allowed os c a ->
  exists c' a', run_all os c = Ret c' /\ asteps os c a c' a' /\ Rep c' a' /\ bounded c' a'.
Proof.
  revert c a. induction os as [|o os IH]; intros c a HR Hb Hal.
  { exists c, a. split; [done|]. split; [constructor|done]. }
  destruct Hal as [Hen Hal]. destruct (step_refines o c a HR Hb Hen) as (c1 & a1 & E1 & Hs1 & HR1 & Hb1).
  destruct (IH c1 a1 HR1 Hb1 (Hal _ _ E1 Hs1 HR1)) as (c' & a' & E & Hs & HR' & Hb').
  exists c', a'. cbn. rewrite E1. cbn. split; [done|]. split; [by econstructor|done].
Qed.
End simulation.

(** The empty container. *)
Definition a_empty : astate := mkA (fun _ => []) [] ∅ ∅.

Lemma new_container_rep depth block mbt wd dc mi ms : Rep (new_container depth block mbt wd dc mi ms) a_empty.
Proof.
  split; cbn; [split| |..|done].
  - intros k. destruct k; repeat split; try done; constructor.
  - repeat split; try done. constructor.
  - apply map_Forall2_empty.
  - apply map_Forall2_empty.
  - split; cbn; [set_solver|intros ip ys x; by rewrite lookup_empty|intros ip ys x; by rewrite lookup_empty|set_solver].
  - set_solver.
Qed.

(** What the transport promises is what [data_dropped] does. *)
Definition direct_environment : WriterEnvironment := {|
  malloc h := Some (fresh (dom h));
  uninit_ids := replicate MAX_READERS_PER_ELEM GUID_UNKNOWN;
  remove_sample c x := data_dropped c x false;
  remove_all_msgs c := Ret c;
  filter_out e := negb (source_timestamp_sec_ (header_ e) =? 0) |}.

#[export] Instance direct_malloc_laws : @MallocLaws direct_environment.
Proof.
  split. intros h. exists (fresh (dom h)). split; [done|]. apply not_elem_of_dom, is_fresh.
Qed.

Lemma data_dropped_setup c x c' : data_dropped c x false = Ret c' -> same_setup c c'.
Proof.
  unfold data_dropped. intros H. invert_outcome; try apply same_setup_signal; cbn in *; simplify_eq; done.
Qed.

#[export] Instance direct_transport_laws : @TransportLaws direct_environment.
Proof.
  split. intros c a x HR Hx. destruct (data_dropped_refines c a x HR) as (c' & E & HR' & _ & Hu).
  exists c'. split; [exact E|]. split; [done|]. split; [|done]. by eapply data_dropped_setup.
Qed.

(** ** The effect of disposing an instance *)

Lemma wf_remove_oldest hnd a ip x ys :
  wf hnd a -> samples a !! ip = Some (x :: ys) -> NoDup (x :: ys) -> wf hnd (a_remove_oldest ip a).
Proof.
  intros Hw Hys Hnd. destruct (wf_history_place _ _ _ _ x Hw Hys) as (k & Hk & Hx); [set_solver|].
  rewrite (a_remove_oldest_place _ _ _ _ _ _ Hw Hys Hk Hx).
  pose proof (remove_elt_split x [] ys Hnd : remove_elt x (x :: ys) = ys) as Hrem.
  assert (x ∈ x :: ys) as Hin by set_solver.
  pose proof (wf_retire _ _ _ _ _ _ Hw Hx Hk Hys Hin) as Hw1. pose proof (retired_off _ _ _ _ _ _ Hw Hx Hk Hys Hin) as [Ho1 Ho2].
  rewrite Hrem in *. destruct k; try done; try (by apply wf_unhold).
  apply wf_append_out; [done|by eapply (taken_out _ a)|done|done].
Qed.

Lemma remove_oldest_lists_iff hnd a ip x ys :
  wf hnd a -> samples a !! ip = Some (x :: ys) ->
  lists (a_remove_oldest ip a) Released = lists a Released ++ filter (fun y => y ∈ lists a Sending) [x]
  /\ (forall k y, in_history k = true -> y ∈ lists (a_remove_oldest ip a) k <-> y ∈ lists a k /\ y <> x).
Proof.
  intros Hw Hys. destruct (wf_history_place _ _ _ _ x Hw Hys) as (k & Hk & Hx); [set_solver|].
  rewrite (a_remove_oldest_place _ _ _ _ _ _ Hw Hys Hk Hx).
  assert (forall j, x ∈ lists a j -> j = k) as Hu by (intros; by apply (wf_place _ _ Hw _ _ x)).
  assert (forall j y, j <> k -> y ∈ lists a j -> y <> x) as Hne by (intros j y Hj Hy ->; by apply Hj, Hu).
  split.
  - rewrite filter_cons, filter_nil. destruct (decide (x ∈ lists a Sending)) as [Hs|Hs].
    + rewrite <- (Hu _ Hs). cbn. by rewrite fupd_eq, fupd_ne.
    + destruct k; cbn; rewrite ?fupd_ne, ?app_nil_r by done; done.
  - intros j y Hj. destruct (decide (k = j)) as [<-|Hkj].
    + destruct k; try done; cbn [lists append unhold take_out put with_history];
        rewrite ?(fupd_ne Released) by done; by rewrite fupd_eq, elem_of_remove_elt.
    + destruct k; try done; cbn [lists append unhold take_out put with_history];
        rewrite ?(fupd_ne Released) by (by destruct j); rewrite fupd_ne by done;
        split; try tauto; (intros Hy; split; [done|by eapply Hne; [apply not_eq_sym|]]).
Qed.

Lemma filter_ext_in (P Q : positive -> Prop) `{!forall x, Decision (P x)} `{!forall x, Decision (Q x)} (ys : list positive) :
  (forall y, y ∈ ys -> P y <-> Q y) -> filter P ys = filter Q ys.
Proof.
  induction ys as [|y ys IH]; intros HPQ; [done|]. rewrite !filter_cons.
  assert (P y <-> Q y) as E by (apply HPQ; set_solver). rewrite IH by (intros; apply HPQ; set_solver).
  repeat case_decide; tauto.
Qed.

Lemma remove_all_effect hnd ip ys a :
  wf hnd a -> samples a !! ip = Some ys -> NoDup ys ->
  lists (a_remove_all (length ys) ip a) Released = lists a Released ++ filter (fun y => y ∈ lists a Sending) ys
  /\ (forall k y, in_history k = true -> y ∈ lists (a_remove_all (length ys) ip a) k <-> y ∈ lists a k /\ y ∉ ys).
Proof.
  revert a. induction ys as [|x ys IH]; intros a Hw Hys Hnd; cbn [length a_remove_all].
  { rewrite filter_nil, app_nil_r. split; [done|]. set_solver. }
  destruct (remove_oldest_lists_iff _ _ _ _ _ Hw Hys) as [H1 H2]. pose proof Hnd as [Hx Hnd']%NoDup_cons.
  destruct (IH (a_remove_oldest ip a)) as [I1 I2]; [by eapply wf_remove_oldest|by rewrite (a_remove_oldest_history _ _ _ _ Hys), lookup_insert_eq|done|].
  split.
  - rewrite I1, H1, <- app_assoc. f_equal. rewrite (filter_cons _ x ys), (filter_cons _ x []), filter_nil.
    assert (filter (fun y => y ∈ lists (a_remove_oldest ip a) Sending) ys = filter (fun y => y ∈ lists a Sending) ys) as ->.
    { apply filter_ext_in. intros y Hy. rewrite (H2 Sending) by done. set_solver. }
    by case_decide.
  - intros k y Hk. rewrite I2, H2 by done. set_solver.
Qed.

(** ** Properties *)

(** C25: simulation.  Any sequence of registrations, buffer requests, writes,
    transfers to the transport, deliveries, drops, resends and disposals in
    which every caller respects its precondition runs without undefined
    behaviour and without an endless loop, goes through the same steps as the
    abstract container, keeps every sample at exactly one place with the history
    of each instance being its unsent, sending and sent samples, and keeps every
    history within the configured depth. *)
Theorem container_simulation `{!WriterEnvironment} `{!MallocLaws} `{!TransportLaws}
    (os : list op) (c : WriteDataContainer) (a : astate) :
  Rep c a -> bounded c a -> allowed os c a ->
  exists c' a', run_all os c = Ret c' /\ asteps os c a c' a' /\ Rep c' a' /\ bounded c' a'.
Proof. exact (run_all_refines os c a). Qed.

(** The writers blocked in the container are left as they are. *)
Definition undisturbed (c c' : WriteDataContainer) (a a' : astate) : Prop :=
  waiting a' = waiting a /\ no_wakeup c c'.

(** The samples of [ys] the transport is still sending. *)
Definition still_in_use (a : astate) (ys : list positive) : list positive :=
  filter (fun y => y ∈ lists a Sending) ys.

(** What a walk with the list's iterator delivers. *)
Definition hands_over (h : heap) (l : SampleList) (xs : list positive) : Prop := visited h l = Ret xs.

(** delivery moves a sample that is being sent to the sent samples (the
    history keeps it) unless a writer of its instance is blocked, in which case
    the sample leaves the history and is freed; a released sample is freed; and a
    drop requested by the container returns a sending sample to the unsent ones.
    None of them tells a blocked writer to proceed or wakes one up, whatever the
    state: the waiting lists, the flags [space_available_] and the broadcasts on
    the condition are unchanged. *)
Theorem delivery_moves_and_wakes_nobody (c : WriteDataContainer) (a : astate) (x ip : positive) :
  Rep c a -> handle_of (heap_ c) x = Some ip ->
  (exists c', data_delivered c x = Ret c' /\ Rep c' (a_data_delivered x ip a)
     /\ undisturbed c c' a (a_data_delivered x ip a))
  /\ (exists c', data_dropped c x false = Ret c' /\ Rep c' (a_data_dropped x a)
     /\ undisturbed c c' a (a_data_dropped x a)).
Proof.
  intros HR Hip. split.
  - destruct (data_delivered_refines c a x ip HR Hip) as (c' & E & HR' & Hn). exists c'. split; [done|]. split; [done|]. split; [|done].
    unfold a_data_delivered. repeat case_decide; done.
  - destruct (data_dropped_refines c a x HR) as (c' & E & HR' & Hn & _). exists c'. split; [done|]. split; [done|]. split; [|done].
    apply data_dropped_lists.
Qed.

(** disposing an instance empties its history: exactly its samples leave
    the unsent, sending and sent lists, and those the transport still uses join
    the released list in history order. *)
Theorem dispose_releases_history (c : WriteDataContainer) (a : astate) (handle : Z) (ip : positive) (b : bool) :
  Rep c a -> find_handle (instances_ c) handle = Some ip ->
  exists c' r ys a', dispose c handle b = Ret (c', RETCODE_OK, r) /\ Rep c' a'
    /\ samples a !! ip = Some ys /\ samples a' !! ip = Some []
    /\ lists a' Released = lists a Released ++ still_in_use a ys
    /\ (forall k y, in_history k = true -> y ∈ lists a' k <-> y ∈ lists a k /\ y ∉ ys).
Proof.
  intros HR Hip. destruct (dispose_refines c a handle ip b HR Hip) as (c' & r & E & HR' & Hs & _).
  destruct (rep_map _ _ HR _ _ Hip) as [i Hi].
  destruct (links_instance _ _ _ _ _ (rep_links _ _ HR) _ _ Hi) as (ys & _ & Hys & (_ & _ & _ & Hnd & _) & _).
  exists c', r, ys, (a_dispose ip a). split; [done|]. split; [done|]. split; [done|]. split; [done|].
  unfold a_dispose, history. rewrite Hys. cbn [default id]. by eapply remove_all_effect; [apply (rep_wf _ _ HR)|..].
Qed.

(** the samples handed to the transport are the unsent ones, in order, and
    they join the end of the sending list; called without new samples while
    others are being sent, the code appends an empty list and dereferences its
    null head. *)
Theorem get_unsent_data_moves_or_crashes (c : WriteDataContainer) (a : astate) :
  Rep c a ->
  (lists a Sending = [] \/ lists a Unsent <> [] ->
     exists c', get_unsent_data c = Ret (c', unsent_data_ c) /\ Rep c' (a_get_unsent_data a)
       /\ hands_over (heap_ c) (unsent_data_ c) (lists a Unsent))
  /\ (lists a Unsent = [] /\ lists a Sending <> [] -> get_unsent_data c = UB).
Proof.
  intros HR. split.
  - intros Hc. destruct (get_unsent_data_refines c a HR Hc) as (c' & E & HR'). exists c'. split; [done|]. split; [done|].
    pose proof (l_send _ _ _ _ _ (rep_links _ _ HR) Unsent) as Hu. pose proof Hu as (Hh & _ & _ & _ & Hs).
    cbn [list_of] in *. unfold hands_over, visited, send_begin. rewrite Hh at 2. apply (visit_from_spec _ _ None); [done|].
    exact (dl_rep_loop send_lk _ _ _ Hu).
  - intros [H1 H2]. by eapply get_unsent_data_empty.
Qed.

(** C26: for a late-joining reader, when no sample is expired or filtered out,
    the resend list is extended by a copy of every sample being sent and every
    sent sample, in order, each addressed to that reader only. *)
Theorem reenqueue_copies_history `{!WriterEnvironment} `{!MallocLaws}
    (now : Z) (reader : GUID) (lifespan : Duration) (eval : bool) (c : WriteDataContainer) (a : astate) :
  Rep c a -> (forall k x, k = Sending \/ k = Sent -> x ∈ lists a k -> kept now lifespan eval (heap_ c) x) ->
  exists c' ps, reenqueue_all now c reader lifespan eval = Ret (c', RETCODE_OK)
    /\ Rep c' (put Resend (lists a Resend ++ ps) a)
    /\ Forall2 (fun x p => exists e e', heap_ c !! x = Some e /\ heap_ c' !! p = Some e' /\ copy_for reader e e')
         (lists a Sending ++ lists a Sent) ps.
Proof.
  intros HR Hk. destruct (reenqueue_all_refines now reader lifespan eval c a HR Hk) as (c' & ps & E & HR' & _ & HF). eauto.
Qed.

(** C27: a buffer for a new sample of an instance, with no limit on the number
    of samples and no need to block: the call succeeds, the element is fresh, on
    no list, linked to its instance and added to the list of all samples; a full
    history loses its oldest sample (which the transport drops when it is still
    sending it), so that the history has room for one more. *)
Theorem obtain_buffer_makes_room `{!WriterEnvironment} `{!MallocLaws} `{!TransportLaws}
    (now1 now2 : Z) (script : list wait_event) (c : WriteDataContainer) (a : astate) (handle : Z) (ip : positive)
    (ys : list positive) :
  Rep c a -> find_handle (instances_ c) handle = Some ip -> samples a !! ip = Some ys ->
  Z.of_nat (length ys) <= depth_ c -> 0 < depth_ c -> max_num_samples_ c <= 0 ->
  should_block_ c = false \/ (blocked ip a = [] /\ oldest_in_use c a ys = false) ->
  exists c' p ys', obtain_buffer now1 now2 script c handle = Ret (c', Some p, RETCODE_OK)
    /\ Rep c' (hold p (a_make_room (depth_ c) ip a)) /\ heap_ c !! p = None
    /\ send_free (heap_ c') p /\ handle_of (heap_ c') p = Some ip
    /\ (forall k, p ∉ lists (a_make_room (depth_ c) ip a) k) /\ off_instances (a_make_room (depth_ c) ip a) p
    /\ samples (a_make_room (depth_ c) ip a) !! ip = Some ys' /\ Z.of_nat (length ys') < depth_ c.
Proof.
  intros HR Hip Hys Hle Hd Hm Hb.
  destruct (obtain_refines now1 now2 script c a handle ip ys HR Hip Hys Hle Hd Hm Hb)
    as (c' & p & E & HR' & _ & Q1 & Q2 & Q3 & Q4 & Q5).
  destruct (make_room_history _ _ _ _ _ (rep_wf _ _ HR) Hys Hle Hd) as (ys' & Q6 & Q7).
  exists c', p, ys'. repeat (split; [done|]). done.
Qed.

(** a sample is expired exactly from the microsecond in which its source
    timestamp plus the lifespan lies; with the infinite lifespan it never is. *)
Theorem resend_data_expired_correct (now : Z) (e : DataSampleElement) (lifespan : Duration) :
  let infinite := mkDur DURATION_INFINITE_SEC DURATION_INFINITE_NSEC in
  let sec := source_timestamp_sec_ (header_ e) + dur_sec lifespan in
  let nanosec := source_timestamp_nanosec_ (header_ e) + dur_nanosec lifespan in
  (lifespan = infinite -> resend_data_expired now e lifespan = Ret false)
  /\ (lifespan <> infinite -> is_s 32 sec ->
      0 <= source_timestamp_nanosec_ (header_ e) < 1000000000 -> 0 <= dur_nanosec lifespan < 1000000000 ->
      resend_data_expired now e lifespan = Ret ((sec * 1000000000 + nanosec) / 1000 <=? now)).
Proof.
  intros infinite sec nanosec. unfold resend_data_expired. split; [by intros ->|]. intros Hne Hs Hts Hd.
  assert (negb (dur_sec lifespan =? DURATION_INFINITE_SEC) || negb (dur_nanosec lifespan =? DURATION_INFINITE_NSEC) = true) as ->.
  { apply not_false_iff_true. intros H. bool_hyps. apply Hne. destruct lifespan; cbn in *. unfold infinite. congruence. }
  fold sec nanosec. unfold is_s in Hs. cbn in Hs.
  rewrite (proj2 (Z.leb_le _ _)), (proj2 (Z.ltb_lt _ _)) by lia. cbn [andb]. f_equal.
  rewrite uwrap_small by (unfold is_u, nanosec; lia). f_equal.
  replace (sec * 1000000000 + nanosec) with (sec * 1000000 * 1000 + nanosec) by lia.
  by rewrite Z.div_add_l by lia.
Qed.

(** ** Concrete runs *)

#[local] Existing Instance direct_environment.

Definition infinite : Duration := mkDur DURATION_INFINITE_SEC DURATION_INFINITE_NSEC.
Definition ex_new : WriteDataContainer := new_container 2 false (mkDur 0 0) false false 0 0.
(** One instance; two samples were written, sent and delivered. *)
Definition ex_writes : list op :=
  [OpRegister 0 9%positive 1 1%positive; OpObtain 0 1; OpFill 1 1 [0; 0; 0; 0]; OpEnqueue 0 1 1;
   OpObtain 0 1; OpFill 2 2 [0; 0; 0; 0]; OpEnqueue 0 2 1; OpGetUnsent; OpDelivered 1; OpDelivered 2].
Definition stamp (sec : Z) (e : DataSampleElement) : DataSampleElement :=
  mkDSE (set_ts_sec (header_ e) sec) (sample_ e) (pub_id_ e) (num_subs_ e) (subscription_ids_ e) (space_available_ e)
    (handle_ e) (previous_writer_sample_ e) (next_writer_sample_ e)
    (next_instance_sample_ e) (next_send_sample_ e) (previous_send_sample_ e).

(** a sample that the reader's filter rejects is still sent when it
    follows the last copy.  Of two sent samples the filter rejects the second
    (the one with a time stamp): the resend list has one element, but the list
    the transport iterates over continues, through the link the copy inherited,
    into the original of the rejected sample. *)
Theorem reenqueue_leaks_filtered_sample :
  (c ← run_all ex_writes ex_new;
   let c := with_heap (alter (stamp 5) 2%positive (heap_ c)) c in
   '(c, _) ← reenqueue_all 0 c GUID_UNKNOWN infinite true;
   '(c, l) ← get_resend_data c;
   Ret (size_ l, visited (heap_ c) l, filter_out <$> heap_ c !! 2%positive))
  = Ret (1, Ret [3; 2]%positive, Some true).
Proof. vm_compute. reflexivity. Qed.

(** A writer that blocks, depth 1, whose only sample is being sent. *)
Definition ex_blocking : outcome WriteDataContainer :=
  run_all [OpRegister 0 9%positive 1 1%positive; OpObtain 0 1; OpFill 1 1 [0; 0; 0; 0]; OpEnqueue 0 1 1; OpGetUnsent]
    (new_container 1 true (mkDur 1 0) false false 0 0).
Definition deliver_meanwhile (x : positive) (c : WriteDataContainer) : WriteDataContainer :=
  match data_delivered c x with Ret c => c | _ => c end.
Definition wait_summary (script : list wait_event) :=
  c ← ex_blocking;
  '(c, p, r) ← obtain_buffer 0 0 script c 1;
  i ← deref (insts_ c !! 1%positive);
  Ret (r, head_ (waiting_list_ i), visited (heap_ c) (released_data_ c)).

(** waiting for space.  When the sample the writer waits for is delivered
    during the wait, nothing tells the writer, which times out; and when a wait
    is interrupted without space and the deadline has passed at the next test,
    the call reports success although the replaced sample is still in use and
    the new element is still queued as waiting. *)
Theorem blocked_writer_outcomes :
  wait_summary [mkWE 10 (deliver_meanwhile 1) TimedOut] = Ret (RETCODE_TIMEOUT, None, Ret [])
  /\ wait_summary [mkWE 10 (fun c => c) Signaled; mkWE 1000000 (fun c => c) Signaled]
     = Ret (RETCODE_OK, Some 2%positive, Ret [1%positive]).
Proof. split; vm_compute; reflexivity. Qed.

(** ** Witnesses *)

(** The first four operations of [ex_writes] and the hand-over to the transport. *)
Definition ex_short : list op :=
  [OpRegister 0 9%positive 1 1%positive; OpObtain 0 1; OpFill 1 1 [0; 0; 0; 0]; OpEnqueue 0 1 1; OpGetUnsent].

Ltac run_step E := vm_compute in E; injection E as <-.
Ltac no_elem := let k := fresh in let Hk := fresh in intros k Hk; destruct k; vm_compute in Hk; inversion Hk.

Lemma ex_bounded : bounded ex_new a_empty.
Proof. split; [done|]. intros ip ys Hys. cbn in Hys. by rewrite lookup_empty in Hys. Qed.
Lemma ex_new_rep : Rep ex_new a_empty.
Proof. apply new_container_rep. Qed.

Lemma ex_off (a : astate) x :
  samples a = {[ 1%positive := [] ]} -> waiting a = {[ 1%positive := [] ]} -> off_instances a x.
Proof.
  intros Hs Hw. split; intros ip ys Hys Hx.
  - rewrite Hs in Hys. apply lookup_singleton_Some in Hys as [_ <-]. set_solver.
  - rewrite Hw in Hys. apply lookup_singleton_Some in Hys as [_ <-]. set_solver.
Qed.

Lemma ex_allowed : allowed ex_short ex_new a_empty.
Proof.
  split; [done|]. intros c1 a1 E1 S1 _. run_step E1. cbn [astep] in S1. subst a1.
  split; [split; [by eexists|]; split; [done|by left]|].
  intros c2 a2 E2 (p & _ & ->) _. run_step E2.
  split. { split; [by eexists|]. split; [no_elem|set_solver|by apply ex_off]. }
  intros c3 a3 E3 S3 _. run_step E3. cbn [astep] in S3. subst a3.
  split.
  { split; [by eexists|]. split; [|done].
    split; [no_elem|by apply ex_off|done|done|]. do 3 eexists. split; [vm_compute; reflexivity|]. split; vm_compute; reflexivity. }
  intros c4 a4 E4 S4 _. run_step E4. cbn [astep] in S4. subst a4.
  split; [by left|]. done.
Qed.

Lemma container_simulation_witness :
  exists c' a', run_all ex_short ex_new = Ret c' /\ asteps ex_short ex_new a_empty c' a' /\ Rep c' a' /\ bounded c' a'.
Proof. apply (container_simulation ex_short ex_new a_empty ex_new_rep ex_bounded ex_allowed). Defined.

(** The state after [ex_short]: sample 1 is being sent. *)
Definition ex_sending : WriteDataContainer := Eval vm_compute in
  match run_all ex_short ex_new with Ret c => c | _ => ex_new end.
Definition ex_sending_a : astate :=
  mkA (fun k => match k with Sending => [1%positive] | _ => [] end) [1%positive]
    {[ 1%positive := [1%positive] ]} {[ 1%positive := [] ]}.

Definition ex_instance : PublicationInstance :=
  match insts_ ex_sending !! 1%positive with Some i => i | None => new_instance 1 end.
Lemma ex_insts (P : PublicationInstance -> list positive -> Prop) ys :
  P ex_instance ys -> map_Forall2 (fun _ => P) (insts_ ex_sending) {[ 1%positive := ys ]}.
Proof.
  intros HP. change (insts_ ex_sending) with ({[ 1%positive := ex_instance ]} : gmap positive PublicationInstance).
  intros ip. destruct (decide (ip = 1%positive)) as [->|Hip].
  - rewrite !lookup_singleton_eq. by constructor.
  - rewrite !lookup_singleton_ne by done. constructor.
Qed.

Lemma ex_sending_rep : Rep ex_sending ex_sending_a.
Proof.
  split.
  - split.
    + intros []; solve_rep.
    + solve_rep.
    + apply (ex_insts (fun i ys => inst_rep (heap_ ex_sending) (samples_ i) ys)). solve_rep.
    + apply (ex_insts (fun i zs => inst_rep (heap_ ex_sending) (waiting_list_ i) zs)). solve_rep.
  - split; cbn.
    + intros [] [] x; set_solver.
    + intros ip ys x [<- <-]%lookup_singleton_Some. split.
      * intros ->%list_elem_of_singleton. split; [|done]. exists Sending. set_solver.
      * intros [([] & _ & Hx) _]; set_solver.
    + intros ip zs x [<- <-]%lookup_singleton_Some. set_solver.
    + intros [] x _ Hx; set_solver.
  - intros [] x _ Hx; cbn in Hx; try set_solver. apply list_elem_of_singleton in Hx as ->.
    do 3 eexists. split; [vm_compute; reflexivity|]. split; vm_compute; reflexivity.
  - intros handle ip. cbn. destruct handle as [|[]|]; cbn; try done. intros [= <-]. by eexists.
Qed.

Lemma delivery_moves_and_wakes_nobody_witness :
  exists c', data_delivered ex_sending 1 = Ret c' /\ Rep c' (a_data_delivered 1 1 ex_sending_a).
Proof.
  destruct (delivery_moves_and_wakes_nobody ex_sending ex_sending_a 1 1 ex_sending_rep) as [(c' & E & HR & _) _].
  - vm_compute. reflexivity.
  - exists c'. split; [exact E|exact HR].
Defined.

Lemma dispose_releases_history_witness :
  exists c' r ys a', dispose ex_sending 1 false = Ret (c', RETCODE_OK, r) /\ Rep c' a'
    /\ samples ex_sending_a !! 1%positive = Some ys /\ samples a' !! 1%positive = Some [].
Proof.
  destruct (dispose_releases_history ex_sending ex_sending_a 1 1 false ex_sending_rep) as (c' & r & ys & a' & H1 & H2 & H3 & H4 & _).
  - vm_compute. reflexivity.
  - exists c', r, ys, a'. split; [exact H1|]. split; [exact H2|]. split; [exact H3|exact H4].
Defined.

Lemma get_unsent_data_moves_or_crashes_witness : get_unsent_data ex_sending = UB.
Proof.
  apply (get_unsent_data_moves_or_crashes ex_sending ex_sending_a ex_sending_rep). split; [reflexivity|discriminate].
Defined.

Lemma reenqueue_copies_history_witness :
  exists c' ps, reenqueue_all 0 ex_sending GUID_UNKNOWN infinite true = Ret (c', RETCODE_OK)
    /\ Rep c' (put Resend (lists ex_sending_a Resend ++ ps) ex_sending_a).
Proof.
  destruct (reenqueue_copies_history 0 GUID_UNKNOWN infinite true ex_sending ex_sending_a ex_sending_rep) as (c' & ps & H1 & H2 & _).
  - intros k x [-> | ->] Hx; cbn in Hx; [|by apply elem_of_nil in Hx]. apply list_elem_of_singleton in Hx as ->.
    do 2 eexists. split; [vm_compute; reflexivity|]. split; [vm_compute; reflexivity|]. split; vm_compute; reflexivity.
  - exists c', ps. split; [exact H1|exact H2].
Defined.

Lemma obtain_buffer_makes_room_witness :
  exists c' p, obtain_buffer 0 0 [] ex_sending 1 = Ret (c', Some p, RETCODE_OK)
    /\ Rep c' (hold p (a_make_room 2 1 ex_sending_a)) /\ heap_ ex_sending !! p = None.
Proof.
  destruct (obtain_buffer_makes_room 0 0 [] ex_sending ex_sending_a 1 1 [1%positive] ex_sending_rep)
    as (c' & p & ys' & H1 & H2 & H3 & _); [reflexivity|reflexivity|vm_compute; discriminate|reflexivity|vm_compute; discriminate|left; reflexivity|].
  exists c', p. split; [exact H1|]. split; [exact H2|exact H3].
Defined.

Lemma resend_data_expired_correct_witness :
  resend_data_expired 5000001 (new_element GUID_UNKNOWN None 0) (mkDur 5 500) = Ret true.
Proof.
  destruct (resend_data_expired_correct 5000001 (new_element GUID_UNKNOWN None 0) (mkDur 5 500)) as [_ H].
  rewrite H; [reflexivity|discriminate|cbn; split; [discriminate|reflexivity]|cbn; split; [discriminate|reflexivity]|cbn; split; [discriminate|reflexivity]].
Defined.

End WriteDataContainerProps.
Export WriteDataContainerProps.
