(* ===== verification/InstanceState.v ===== *)
(** * Received instances (dds/DCPS/InstanceState.{h,inl,cpp})

    The states of an instance a data reader has received data for: the instance
    state, the view state, the generation counts and the scheduled release.  An
    operation takes the state to the next one and to the calls it makes on the
    reader and the reactor, in order ([call]).  What these calls answer is an
    argument: the id the reactor returns for a timer, and whether the ownership
    manager takes the writer for the owner.  The ownership members of the class
    are used by Ownership.v. *)

From S2P Require Import Prelude Qos MessageBlock SequenceNumber Serializer DataSampleHeader.

Module InstanceState.

(** ** Data *)

Definition NEW_VIEW_STATE : Z := Z.shiftl 0x0001 0.
Definition NOT_NEW_VIEW_STATE : Z := Z.shiftl 0x0001 1.
Definition ANY_VIEW_STATE : Z := 0xffff.
Definition ALIVE_INSTANCE_STATE : Z := Z.shiftl 0x0001 0.
Definition NOT_ALIVE_DISPOSED_INSTANCE_STATE : Z := Z.shiftl 0x0001 1.
Definition NOT_ALIVE_NO_WRITERS_INSTANCE_STATE : Z := Z.shiftl 0x0001 2.
Definition NOT_ALIVE_INSTANCE_STATE : Z := 0x006.

Record InstanceState := mkIS {
  instance_state_ : Z;
  view_state_ : Z;
  disposed_generation_count_ : Z;
  no_writers_generation_count_ : Z;
  empty_ : bool;
  release_pending_ : bool;
  release_timer_id_ : Z;
  reader_ : positive;
  is_handle_ : Z;
  writers_ : gset GUID;
  owner_ : GUID;
  exclusive_ : bool;
  registered_ : bool }.

(** The constructor; [exclusive] is the reader's ownership kind. *)
Definition new_instance_state (reader : positive) (handle : Z) (exclusive : bool) : InstanceState :=
  mkIS 0 0 0 0 true false (-1) reader handle ∅ GUID_UNKNOWN exclusive false.

Definition with_instance_state (x : Z) (s : InstanceState) : InstanceState :=
  mkIS x (view_state_ s) (disposed_generation_count_ s) (no_writers_generation_count_ s) (empty_ s)
    (release_pending_ s) (release_timer_id_ s) (reader_ s) (is_handle_ s) (writers_ s) (owner_ s) (exclusive_ s) (registered_ s).
Definition with_view_state (x : Z) (s : InstanceState) : InstanceState :=
  mkIS (instance_state_ s) x (disposed_generation_count_ s) (no_writers_generation_count_ s) (empty_ s)
    (release_pending_ s) (release_timer_id_ s) (reader_ s) (is_handle_ s) (writers_ s) (owner_ s) (exclusive_ s) (registered_ s).
Definition with_counts (d n : Z) (s : InstanceState) : InstanceState :=
  mkIS (instance_state_ s) (view_state_ s) d n (empty_ s)
    (release_pending_ s) (release_timer_id_ s) (reader_ s) (is_handle_ s) (writers_ s) (owner_ s) (exclusive_ s) (registered_ s).
Definition with_empty (x : bool) (s : InstanceState) : InstanceState :=
  mkIS (instance_state_ s) (view_state_ s) (disposed_generation_count_ s) (no_writers_generation_count_ s) x
    (release_pending_ s) (release_timer_id_ s) (reader_ s) (is_handle_ s) (writers_ s) (owner_ s) (exclusive_ s) (registered_ s).
Definition with_release (pending : bool) (timer : Z) (s : InstanceState) : InstanceState :=
  mkIS (instance_state_ s) (view_state_ s) (disposed_generation_count_ s) (no_writers_generation_count_ s) (empty_ s)
    pending timer (reader_ s) (is_handle_ s) (writers_ s) (owner_ s) (exclusive_ s) (registered_ s).
Definition with_writers (x : gset GUID) (s : InstanceState) : InstanceState :=
  mkIS (instance_state_ s) (view_state_ s) (disposed_generation_count_ s) (no_writers_generation_count_ s) (empty_ s)
    (release_pending_ s) (release_timer_id_ s) (reader_ s) (is_handle_ s) x (owner_ s) (exclusive_ s) (registered_ s).
Definition with_ownership (o : GUID) (r : bool) (s : InstanceState) : InstanceState :=
  mkIS (instance_state_ s) (view_state_ s) (disposed_generation_count_ s) (no_writers_generation_count_ s) (empty_ s)
    (release_pending_ s) (release_timer_id_ s) (reader_ s) (is_handle_ s) (writers_ s) o (exclusive_ s) r.

(** The calls on the reader and on its reactor: a timer and the id it got (-1
    for a failure), its cancellation, the release of the instance. *)
Inductive call :=
| ScheduleTimer (delay : Duration) (id : Z)
| CancelTimer (id : Z)
| ReleaseInstance (handle : Z).

(** ** Operations *)

Definition schedule_pending (s : InstanceState) : InstanceState := with_release true (release_timer_id_ s) s.

Definition cancel_release (s : InstanceState) : InstanceState * list call :=
  let s := with_release false (release_timer_id_ s) s in
  if negb (release_timer_id_ s =? -1)
  then (with_release false (-1) s, [CancelTimer (release_timer_id_ s)])
  else (s, []).

(** The reader's autopurge delays, for instances without writers and disposed
    ones. *)
Record Lifecycle := mkLC { autopurge_nowriter : Duration; autopurge_disposed : Duration }.

(** [tid] is the answer of the reactor. *)
Definition schedule_release (qos : Lifecycle) (tid : Z) (s : InstanceState) : InstanceState * list call :=
  let delay :=
    if instance_state_ s =? NOT_ALIVE_NO_WRITERS_INSTANCE_STATE then Some (autopurge_nowriter qos)
    else if instance_state_ s =? NOT_ALIVE_DISPOSED_INSTANCE_STATE then Some (autopurge_disposed qos)
    else None in
  match delay with
  | None => (s, [])
  | Some delay =>
      if negb (dur_sec delay =? DURATION_INFINITE_SEC) && negb (dur_nanosec delay =? DURATION_INFINITE_NSEC) then
        let '(s, calls) := cancel_release s in
        (with_release (release_pending_ s) tid s, calls ++ [ScheduleTimer delay tid])
      else (schedule_pending s, [])
  end.

Definition release (s : InstanceState) : list call := [ReleaseInstance (is_handle_ s)].

Definition release_if_empty (s : InstanceState) : InstanceState * list call * bool :=
  if empty_ s && bool_decide (writers_ s = ∅) then (s, release s, true)
  else (schedule_pending s, [], false).

(** [empty(value)]. *)
Definition set_empty (value : bool) (s : InstanceState) : InstanceState * list call * bool :=
  let s := with_empty value s in
  if value && release_pending_ s then release_if_empty s else (s, [], false).

Definition handle_timeout (s : InstanceState) : list call := release s.

(** A bit of a state mask. *)
Definition in_mask (state mask : Z) : bool := negb (Z.land state mask =? 0).

(** [is_owner] is the answer of the ownership manager, which is asked for an
    exclusive reader only. *)
Definition dispose_was_received (qos : Lifecycle) (tid : Z) (is_owner : bool) (writer_id : GUID) (s : InstanceState)
    : InstanceState * list call * bool :=
  let s := with_writers (writers_ s ∖ {[writer_id]}) s in
  if in_mask (instance_state_ s) ALIVE_INSTANCE_STATE then
    if negb (exclusive_ s) || is_owner then
      let s := with_instance_state NOT_ALIVE_DISPOSED_INSTANCE_STATE s in
      let '(s, calls) := schedule_release qos tid s in (s, calls, true)
    else (s, [], false)
  else (s, [], false).

Definition unregister_was_received (qos : Lifecycle) (tid : Z) (writer_id : GUID) (s : InstanceState)
    : InstanceState * list call * bool :=
  let s := with_writers (writers_ s ∖ {[writer_id]}) s in
  if bool_decide (writers_ s = ∅) && in_mask (instance_state_ s) ALIVE_INSTANCE_STATE then
    let s := with_instance_state NOT_ALIVE_NO_WRITERS_INSTANCE_STATE s in
    let '(s, calls) := schedule_release qos tid s in (s, calls, true)
  else (s, [], false).

Definition writer_became_dead (qos : Lifecycle) (tid : Z) (writer_id : GUID) (s : InstanceState)
    : InstanceState * list call :=
  let s := with_writers (writers_ s ∖ {[writer_id]}) s in
  if bool_decide (writers_ s = ∅) && in_mask (instance_state_ s) ALIVE_INSTANCE_STATE then
    schedule_release qos tid (with_instance_state NOT_ALIVE_NO_WRITERS_INSTANCE_STATE s)
  else (s, []).

Definition accessed (s : InstanceState) : InstanceState :=
  if in_mask (view_state_ s) ANY_VIEW_STATE then with_view_state NOT_NEW_VIEW_STATE s else s.

Definition data_was_received (writer_id : GUID) (s : InstanceState) : InstanceState * list call :=
  let '(s, calls) := cancel_release s in
  let s := with_writers ({[writer_id]} ∪ writers_ s) s in
  let s :=
    if view_state_ s =? NEW_VIEW_STATE then s
    else if view_state_ s =? NOT_NEW_VIEW_STATE then
      if in_mask (instance_state_ s) NOT_ALIVE_INSTANCE_STATE then with_view_state NEW_VIEW_STATE s else s
    else with_view_state NEW_VIEW_STATE s in
  let s :=
    if instance_state_ s =? NOT_ALIVE_DISPOSED_INSTANCE_STATE then
      with_counts (uwrap 64 (disposed_generation_count_ s + 1)) (no_writers_generation_count_ s) s
    else if instance_state_ s =? NOT_ALIVE_NO_WRITERS_INSTANCE_STATE then
      with_counts (disposed_generation_count_ s) (uwrap 64 (no_writers_generation_count_ s + 1)) s
    else s in
  (with_instance_state ALIVE_INSTANCE_STATE s, calls).

Definition lively (writer_id : GUID) (s : InstanceState) : InstanceState * list call :=
  let s := with_writers ({[writer_id]} ∪ writers_ s) s in
  if instance_state_ s =? NOT_ALIVE_NO_WRITERS_INSTANCE_STATE then
    let '(s, calls) := cancel_release s in
    let s := with_counts (disposed_generation_count_ s) (uwrap 64 (no_writers_generation_count_ s + 1)) s in
    (with_instance_state ALIVE_INSTANCE_STATE s, calls)
  else (s, []).

Definition is_last (pub : GUID) (s : InstanceState) : bool :=
  (size (writers_ s) =? 1)%nat && bool_decide (head (elements (writers_ s)) = Some pub).
Definition no_writer (s : InstanceState) : bool := (size (writers_ s) =? 0)%nat.

Definition most_recent_generation (item_disposed item_no_writers : Z) (s : InstanceState) : bool :=
  (item_disposed =? disposed_generation_count_ s) && (item_no_writers =? no_writers_generation_count_ s).

(** [registered()]: reads the flag and sets it. *)
Definition test_registered (s : InstanceState) : bool * InstanceState :=
  (registered_ s, with_ownership (owner_ s) true s).

Definition set_owner (owner : GUID) (s : InstanceState) : InstanceState := with_ownership owner (registered_ s) s.

(** ** Histories *)

(** What can happen to an instance, with the answers of the reactor and of the
    ownership manager. *)
Inductive event :=
| DataReceived (w : GUID)
| Lively (w : GUID)
| Disposed (tid : Z) (is_owner : bool) (w : GUID)
| Unregistered (tid : Z) (w : GUID)
| WriterDead (tid : Z) (w : GUID)
| Accessed
| Emptied (value : bool).

Definition step (qos : Lifecycle) (e : event) (s : InstanceState) : InstanceState * list call :=
  match e with
  | DataReceived w => data_was_received w s
  | Lively w => lively w s
  | Disposed tid o w => (dispose_was_received qos tid o w s).1
  | Unregistered tid w => (unregister_was_received qos tid w s).1
  | WriterDead tid w => writer_became_dead qos tid w s
  | Accessed => (accessed s, [])
  | Emptied b => (set_empty b s).1
  end.

(** The timers of the reactor that will call the instance back. *)
Definition arm (T : gset Z) (c : call) : gset Z :=
  match c with
  | ScheduleTimer _ id => if decide (id = -1) then T else {[id]} ∪ T
  | CancelTimer id => T ∖ {[id]}
  | ReleaseInstance _ => T
  end.

Fixpoint run (qos : Lifecycle) (es : list event) (s : InstanceState) (T : gset Z) : InstanceState * gset Z :=
  match es with
  | [] => (s, T)
  | e :: es => let '(s', calls) := step qos e s in run qos es s' (foldl arm T calls)
  end.

Definition not_alive (s : InstanceState) : Prop :=
  instance_state_ s = NOT_ALIVE_DISPOSED_INSTANCE_STATE \/ instance_state_ s = NOT_ALIVE_NO_WRITERS_INSTANCE_STATE.

Record lifecycle (s : InstanceState) (T : gset Z) : Prop := mkLife {
  (* the values the two states can have; both are unset until data arrives *)
  lc_state : instance_state_ s = 0 \/ instance_state_ s = ALIVE_INSTANCE_STATE \/ not_alive s;
  lc_view : view_state_ s = 0 \/ view_state_ s = NEW_VIEW_STATE \/ view_state_ s = NOT_NEW_VIEW_STATE;
  lc_unset : instance_state_ s = 0 <-> view_state_ s = 0;
  (* the instance state and the known writers agree *)
  lc_no_writers : instance_state_ s = NOT_ALIVE_NO_WRITERS_INSTANCE_STATE -> writers_ s = ∅;
  lc_alive : instance_state_ s = ALIVE_INSTANCE_STATE -> exclusive_ s = false -> writers_ s <> ∅;
  (* at most one timer is armed, and the instance knows it *)
  lc_timer : T = if decide (release_timer_id_ s = -1) then ∅ else {[release_timer_id_ s]};
  (* only an instance that is not alive is going to be released *)
  lc_kept : ~ not_alive s -> release_timer_id_ s = -1 /\ release_pending_ s = false }.

Definition going (s : InstanceState) : Prop := release_timer_id_ s <> -1 \/ release_pending_ s = true.

(** The reactor granted the timer, if one was asked for. *)
Definition granted (e : event) : Prop :=
  match e with
  | Disposed tid _ _ | Unregistered tid _ | WriterDead tid _ => tid <> -1
  | _ => True
  end.

Ltac unfold_states :=
  unfold not_alive, in_mask, NEW_VIEW_STATE, NOT_NEW_VIEW_STATE, ANY_VIEW_STATE, ALIVE_INSTANCE_STATE,
    NOT_ALIVE_DISPOSED_INSTANCE_STATE, NOT_ALIVE_NO_WRITERS_INSTANCE_STATE, NOT_ALIVE_INSTANCE_STATE in *;
  change (Z.shiftl 1 0) with 1 in *; change (Z.shiftl 1 1) with 2 in *; change (Z.shiftl 1 2) with 4 in *.

Lemma cancel_release_spec s T : T = (if decide (release_timer_id_ s = -1) then ∅ else {[release_timer_id_ s]}) ->
  (cancel_release s).1 = with_release false (-1) s /\ foldl arm T (cancel_release s).2 = ∅.
Proof.
  intros ->. unfold cancel_release. cbn. destruct (Z.eqb_spec (release_timer_id_ s) (-1)) as [E|E]; cbn.
  - rewrite decide_True by done. rewrite E. done.
  - rewrite decide_False by done. split; [done|]. set_solver.
Qed.

Lemma schedule_release_spec qos tid s T : not_alive s -> release_timer_id_ s = -1 -> T = ∅ ->
  let '(s', calls) := schedule_release qos tid s in
  (exists b t, s' = with_release b t s /\ foldl arm T calls = (if decide (t = -1) then ∅ else {[t]})) /\ (tid <> -1 -> going s').
Proof.
  intros Hn Ht ->. unfold schedule_release.
  assert (exists d, (if instance_state_ s =? NOT_ALIVE_NO_WRITERS_INSTANCE_STATE then Some (autopurge_nowriter qos)
    else if instance_state_ s =? NOT_ALIVE_DISPOSED_INSTANCE_STATE then Some (autopurge_disposed qos) else None) = Some d)
    as [d ->] by (destruct Hn as [-> | ->]; by eexists).
  destruct (_ && _).
  - unfold cancel_release. cbn. rewrite Ht. cbn. split; [|by left]. exists false, tid. split; [done|].
    case_decide; set_solver.
  - split; [|by right]. exists true, (release_timer_id_ s). split; [done|]. by rewrite decide_True.
Qed.

Lemma lifecycle_init reader handle excl : lifecycle (new_instance_state reader handle excl) ∅.
Proof. split; unfold_states; cbn; try done; try tauto; by left. Qed.

(** A transition to a state that is not alive, with its release. *)
Lemma lifecycle_not_alive qos tid s T x W : lifecycle s T -> instance_state_ s = ALIVE_INSTANCE_STATE ->
  x = NOT_ALIVE_DISPOSED_INSTANCE_STATE \/ (x = NOT_ALIVE_NO_WRITERS_INSTANCE_STATE /\ W = ∅) ->
  let '(s', calls) := schedule_release qos tid (with_instance_state x (with_writers W s)) in
  lifecycle s' (foldl arm T calls) /\ (tid <> -1 -> going s').
Proof.
  intros L Ha Hx. assert (~ not_alive s) as Hn by (unfold_states; lia).
  destruct (lc_kept _ _ L Hn) as [Ht Hp].
  pose proof (schedule_release_spec qos tid (with_instance_state x (with_writers W s)) T) as H.
  destruct (schedule_release _ _ _) as [s' calls]. destruct H as [(b & t & -> & ->) Hg].
  { unfold not_alive. cbn. tauto. } { done. } { rewrite (lc_timer _ _ L). by rewrite decide_True. }
  split; [|done]. pose proof (lc_view _ _ L). pose proof (lc_unset _ _ L).
  split; cbn; try done.
  - right. right. unfold not_alive. cbn. tauto.
  - unfold_states. lia.
  - unfold_states. naive_solver lia.
  - unfold_states. lia.
  - intros Hk. destruct Hk. unfold not_alive. cbn. tauto.
Qed.

Lemma in_mask_alive s T : lifecycle s T -> in_mask (instance_state_ s) ALIVE_INSTANCE_STATE = true ->
  instance_state_ s = ALIVE_INSTANCE_STATE.
Proof. intros L. pose proof (lc_state _ _ L) as H. unfold_states. by destruct H as [-> | [-> | [-> | ->]]]. Qed.

(** Removing a writer that leaves the instance state alone. *)
Lemma lifecycle_writers s T W : lifecycle s T ->
  (instance_state_ s = NOT_ALIVE_NO_WRITERS_INSTANCE_STATE -> W = ∅) ->
  (instance_state_ s = ALIVE_INSTANCE_STATE -> exclusive_ s = false -> W <> ∅) ->
  lifecycle (with_writers W s) T.
Proof. intros [] H1 H2. by split. Qed.

Lemma lifecycle_data w s T : lifecycle s T ->
  lifecycle (data_was_received w s).1 (foldl arm T (data_was_received w s).2).
Proof.
  intros L. destruct (cancel_release_spec s T (lc_timer _ _ L)) as [E1 E2]. unfold data_was_received.
  destruct (cancel_release s) as [s1 calls]. cbn in E1, E2. subst s1. cbn [fst snd]. rewrite E2.
  pose proof (lc_view _ _ L) as Hv.
  set (s1 := with_writers _ _). set (s2 := if view_state_ s1 =? NEW_VIEW_STATE then _ else _).
  assert (view_state_ s2 = NEW_VIEW_STATE \/ view_state_ s2 = NOT_NEW_VIEW_STATE) as Hv2.
  { unfold s2. destruct (Z.eqb_spec (view_state_ s1) NEW_VIEW_STATE); [by left|].
    destruct (Z.eqb_spec (view_state_ s1) NOT_NEW_VIEW_STATE); [|by left]. destruct (in_mask _ _); [by left|by right]. }
  assert (writers_ s2 = {[w]} ∪ writers_ s /\ release_timer_id_ s2 = -1 /\ release_pending_ s2 = false) as (Hw & Ht & Hp).
  { unfold s2. by repeat case_match. }
  set (s3 := if instance_state_ s2 =? _ then _ else _).
  assert (view_state_ s3 = view_state_ s2 /\ writers_ s3 = writers_ s2 /\ release_timer_id_ s3 = release_timer_id_ s2
    /\ release_pending_ s3 = release_pending_ s2) as (Q1 & Q2 & Q3 & Q4) by (unfold s3; by repeat case_match).
  split; cbn; rewrite ?Q1, ?Q2, ?Q3, ?Q4, ?Hw, ?Ht, ?Hp; unfold not_alive; cbn; try done; [by right; left|tauto| |set_solver].
  unfold_states. naive_solver lia.
Qed.

Lemma lifecycle_lively w s T : lifecycle s T -> lifecycle (lively w s).1 (foldl arm T (lively w s).2).
Proof.
  intros L. unfold lively. cbn [with_writers instance_state_].
  destruct (Z.eqb_spec (instance_state_ s) NOT_ALIVE_NO_WRITERS_INSTANCE_STATE) as [E|E].
  - destruct (cancel_release_spec (with_writers ({[w]} ∪ writers_ s) s) T (lc_timer _ _ L)) as [E1 E2].
    destruct (cancel_release _) as [s1 calls]. cbn in E1, E2. subst s1. cbn [fst snd]. rewrite E2.
    pose proof (lc_view _ _ L). pose proof (lc_unset _ _ L).
    split; cbn; try done; [by right; left|unfold_states; naive_solver lia|set_solver].
  - apply lifecycle_writers; [done|done|set_solver].
Qed.

Lemma dead_is_unregister qos tid w s : writer_became_dead qos tid w s = (unregister_was_received qos tid w s).1.
Proof. unfold writer_became_dead, unregister_was_received. destruct (_ && _); [|done]. by destruct (schedule_release _ _ _). Qed.

Lemma lifecycle_unregister qos tid w s T : lifecycle s T ->
  let '(s', calls) := (unregister_was_received qos tid w s).1 in
  lifecycle s' (foldl arm T calls) /\ (tid <> -1 -> (not_alive s -> going s) -> not_alive s' -> going s').
Proof.
  intros L. unfold unregister_was_received. cbn [with_writers instance_state_ writers_].
  case_bool_decide as Hw; cbn [andb]; [destruct (in_mask _ _) eqn:Ha|].
  - pose proof (lifecycle_not_alive qos tid s T NOT_ALIVE_NO_WRITERS_INSTANCE_STATE (writers_ s ∖ {[w]}) L
      (in_mask_alive _ _ L Ha) (or_intror (conj eq_refl Hw))) as H.
    destruct (schedule_release _ _ _) as [s' calls]. naive_solver.
  - split; [|by auto]. apply lifecycle_writers; [done|done|by intros Hx; rewrite Hx in Ha].
  - split; [|by auto]. apply lifecycle_writers; [done| |done]. intros Hx. rewrite (lc_no_writers _ _ L Hx). set_solver.
Qed.

Lemma lifecycle_step qos e s T : lifecycle s T ->
  let '(s', calls) := step qos e s in
  lifecycle s' (foldl arm T calls) /\ (granted e -> (not_alive s -> going s) -> not_alive s' -> going s').
Proof.
  intros L. pose proof (in_mask_alive _ _ L) as Hm. destruct e as [w|w|tid o w|tid w|tid w| |b]; cbn [step granted].
  - pose proof (lifecycle_data w s T L) as H. destruct (data_was_received w s) as [s' calls] eqn:E. split; [exact H|].
    intros _ _ Hn. exfalso. unfold data_was_received in E. destruct (cancel_release s) as [s1 cs].
    injection E as <- <-. unfold_states. cbn in Hn. lia.
  - pose proof (lifecycle_lively w s T L) as H. destruct (lively w s) as [s' calls] eqn:E. split; [exact H|].
    intros _ Hg Hn. unfold lively in E. cbn [with_writers instance_state_] in E.
    destruct (instance_state_ s =? NOT_ALIVE_NO_WRITERS_INSTANCE_STATE).
    + destruct (cancel_release _) as [s1 cs]. injection E as <- <-. unfold_states. cbn in Hn. lia.
    + injection E as <- <-. exact (Hg Hn).
  - unfold dispose_was_received. cbn [with_writers instance_state_ exclusive_].
    destruct (in_mask _ _) eqn:Ha; [destruct (negb (exclusive_ s) || o) eqn:Eo|].
    + pose proof (lifecycle_not_alive qos tid s T NOT_ALIVE_DISPOSED_INSTANCE_STATE (writers_ s ∖ {[w]}) L (Hm eq_refl) (or_introl eq_refl)) as H.
      destruct (schedule_release _ _ _) as [s' calls]. naive_solver.
    + split; [|by auto]. apply lifecycle_writers; [done|by rewrite (Hm eq_refl)|]. intros _ Hx. by rewrite Hx in Eo.
    + split; [|by auto]. apply lifecycle_writers; [done| |by intros Hx; rewrite Hx in Ha].
      intros Hx. rewrite (lc_no_writers _ _ L Hx). set_solver.
  - exact (lifecycle_unregister qos tid w s T L).
  - rewrite dead_is_unregister. exact (lifecycle_unregister qos tid w s T L).
  - unfold accessed. destruct (in_mask (view_state_ s) _) eqn:Hv; [|split; [exact L|by auto]]. split; [|by auto].
    destruct L as [L1 L2 L3 L4 L5 L6 L7]. split; cbn; try done; [by right; right|].
    destruct L2 as [L2|L2]; [by rewrite L2 in Hv|]. unfold_states. naive_solver lia.
  - unfold set_empty, release_if_empty. destruct b; cbn [andb with_empty release_pending_].
    2:{ split; [by destruct L|by auto]. }
    destruct (release_pending_ s) eqn:Hp; [|split; [by destruct L|by auto]].
    destruct (empty_ _ && _); cbn [fst snd foldl arm release]; (split; [|intros; first [by auto|by right]]).
    + by destruct L.
    + destruct L as [L1 L2 L3 L4 L5 L6 L7]. split; cbn; try done. intros Hn. destruct (L7 Hn). congruence.
Qed.

Lemma lifecycle_run qos es s T : lifecycle s T ->
  let '(s', T') := run qos es s T in
  lifecycle s' T' /\ (Forall granted es -> (not_alive s -> going s) -> not_alive s' -> going s').
Proof.
  revert s T. induction es as [|e es IH]; intros s T L; cbn [run]; [by auto|].
  pose proof (lifecycle_step qos e s T L) as H. destruct (step qos e s) as [s1 calls]. destruct H as [L1 H1].
  specialize (IH s1 _ L1). destruct (run _ _ _ _) as [s2 T2]. destruct IH as [L2 H2].
  split; [done|]. intros Hg Hn. apply Forall_cons in Hg as [G1 G2]. auto.
Qed.

(** C30: whatever data, liveliness, dispose and unregister messages, lost
    writers and reader accesses an instance sees, its two states stay among the
    documented values and are unset until the first sample; an instance without
    writers has none recorded, and an instance of a shared reader that is alive
    has at least one; at most one release timer is armed in the reactor and its
    id is known; an instance that is alive is never about to be released; and,
    as long as the reactor grants the timers, one that is not alive always is. *)
Theorem instance_lifecycle (qos : Lifecycle) (es : list event) (reader : positive) (handle : Z) (exclusive : bool) :
  let '(s, T) := run qos es (new_instance_state reader handle exclusive) ∅ in
  lifecycle s T /\ (Forall granted es -> not_alive s -> going s).
Proof.
  pose proof (lifecycle_run qos es _ _ (lifecycle_init reader handle exclusive)) as H.
  destruct (run _ _ _ _) as [s T]. destruct H as [L H]. split; [done|]. intros Hg. apply H; [done|].
  intros Hn. exfalso. unfold_states. cbn in Hn. lia.
Qed.

Definition ex_writer (n : Z) : GUID := replicate 15 0 ++ [n].
Definition ex_qos : Lifecycle := mkLC (mkDur 5 0) DURATION_INFINITY.
Definition ex_history : list event :=
  [DataReceived (ex_writer 1); Accessed; DataReceived (ex_writer 2); Unregistered 7 (ex_writer 1);
   WriterDead 7 (ex_writer 2)].

Lemma instance_lifecycle_witness :
  exists s T, run ex_qos ex_history (new_instance_state 1 3 false) ∅ = (s, T)
    /\ Forall granted ex_history /\ not_alive s /\ release_timer_id_ s = 7 /\ T = {[7]} /\ going s.
Proof.
  pose proof (instance_lifecycle ex_qos ex_history 1 3 false) as H.
  destruct (run ex_qos ex_history (new_instance_state 1 3 false) ∅) as [s T] eqn:E.
  assert (release_timer_id_ s = 7) as Ht by (change s with (s, T).1; rewrite <- E; vm_compute; reflexivity).
  assert (not_alive s) as Hn by (right; change s with (s, T).1; rewrite <- E; vm_compute; reflexivity).
  assert (Forall granted ex_history) as Hg by (repeat constructor; done).
  destruct H as [L H]. exists s, T. split; [done|]. split; [done|]. split; [done|]. split; [done|].
  split; [|exact (H Hg Hn)]. rewrite (lc_timer _ _ L), Ht. reflexivity.
Defined.

(** ** Generations *)

(** The instance states a history goes through, the first one included. *)
Fixpoint states (qos : Lifecycle) (es : list event) (s : InstanceState) : list Z :=
  instance_state_ s :: match es with [] => [] | e :: es => states qos es (step qos e s).1 end.

(** The number of times an instance came back to life from [x]. *)
Fixpoint rebirths (x : Z) (l : list Z) : Z :=
  match l with
  | a :: ((b :: _) as l') => (if (a =? x) && (b =? ALIVE_INSTANCE_STATE) then 1 else 0) + rebirths x l'
  | _ => 0
  end.

Definition after (qos : Lifecycle) (es : list event) (s : InstanceState) : InstanceState :=
  foldl (fun s e => (step qos e s).1) s es.

Definition reborn (s s' : InstanceState) (x : Z) : Z :=
  if (instance_state_ s =? x) && (instance_state_ s' =? ALIVE_INSTANCE_STATE) then 1 else 0.

Lemma schedule_release_counts qos tid s :
  disposed_generation_count_ (schedule_release qos tid s).1 = disposed_generation_count_ s
  /\ no_writers_generation_count_ (schedule_release qos tid s).1 = no_writers_generation_count_ s
  /\ instance_state_ (schedule_release qos tid s).1 = instance_state_ s.
Proof. unfold schedule_release, cancel_release. by repeat case_match; simplify_eq/=. Qed.

(** A step that leaves the counts alone and does not bring the instance back. *)
Lemma counted_same s s' : is_u 64 (disposed_generation_count_ s) -> is_u 64 (no_writers_generation_count_ s) ->
  disposed_generation_count_ s' = disposed_generation_count_ s ->
  no_writers_generation_count_ s' = no_writers_generation_count_ s ->
  instance_state_ s' = instance_state_ s \/ instance_state_ s' <> ALIVE_INSTANCE_STATE ->
  disposed_generation_count_ s' = uwrap 64 (disposed_generation_count_ s + reborn s s' NOT_ALIVE_DISPOSED_INSTANCE_STATE)
  /\ no_writers_generation_count_ s' = uwrap 64 (no_writers_generation_count_ s + reborn s s' NOT_ALIVE_NO_WRITERS_INSTANCE_STATE).
Proof.
  intros H1 H2 -> -> H. unfold reborn.
  assert (forall x, x <> ALIVE_INSTANCE_STATE -> (instance_state_ s =? x) && (instance_state_ s' =? ALIVE_INSTANCE_STATE) = false) as E.
  { intros x Hx. apply andb_false_iff. rewrite !Z.eqb_neq. destruct H as [-> | H]; [|by right].
    destruct (decide (instance_state_ s = x)) as [-> |]; [by right|by left]. }
  rewrite !E by done. by rewrite !Z.add_0_r, !uwrap_small.
Qed.

Definition counted (s s' : InstanceState) : Prop :=
  disposed_generation_count_ s' = uwrap 64 (disposed_generation_count_ s + reborn s s' NOT_ALIVE_DISPOSED_INSTANCE_STATE)
  /\ no_writers_generation_count_ s' = uwrap 64 (no_writers_generation_count_ s + reborn s s' NOT_ALIVE_NO_WRITERS_INSTANCE_STATE).

Lemma cancel_release_shape s : exists p t cs, cancel_release s = (with_release p t s, cs).
Proof. unfold cancel_release. cbn. destruct (negb _); by eexists _, _, _. Qed.

Section counting.
Context (qos : Lifecycle) (s : InstanceState).
Context (Hd : is_u 64 (disposed_generation_count_ s)) (Hn : is_u 64 (no_writers_generation_count_ s)).

Lemma counted_data w : counted s (data_was_received w s).1.
Proof.
  unfold counted, data_was_received. destruct (cancel_release_shape s) as (p & t & cs & ->).
  cbn [with_writers with_release view_state_ fst]. unfold reborn.
  set (s2 := if view_state_ s =? NEW_VIEW_STATE then _ else _).
  assert (instance_state_ s2 = instance_state_ s /\ disposed_generation_count_ s2 = disposed_generation_count_ s
    /\ no_writers_generation_count_ s2 = no_writers_generation_count_ s) as (E1 & E2 & E3) by (unfold s2; by repeat case_match).
  cbn [with_instance_state instance_state_ disposed_generation_count_ no_writers_generation_count_]. rewrite !E1.
  unfold_states. rewrite !andb_true_r.
  destruct (Z.eqb_spec (instance_state_ s) 2) as [E|E]; cbn [with_counts disposed_generation_count_ no_writers_generation_count_].
  { rewrite E, E2, E3. cbn [Z.eqb Pos.eqb]. by rewrite Z.add_0_r, (uwrap_small 64 (no_writers_generation_count_ s)). }
  destruct (Z.eqb_spec (instance_state_ s) 4); cbn [with_counts disposed_generation_count_ no_writers_generation_count_];
    rewrite ?E2, ?E3, ?Z.add_0_r, ?uwrap_small by done; done.
Qed.

Lemma counted_lively w : counted s (lively w s).1.
Proof.
  unfold lively. cbn [with_writers instance_state_].
  destruct (Z.eqb_spec (instance_state_ s) NOT_ALIVE_NO_WRITERS_INSTANCE_STATE) as [E|E].
  2:{ apply counted_same; cbn; by auto. }
  destruct (cancel_release_shape (with_writers ({[w]} ∪ writers_ s) s)) as (p & t & cs & ->).
  unfold counted, reborn. rewrite E. cbn. by rewrite Z.add_0_r, (uwrap_small 64 (disposed_generation_count_ s)).
Qed.

Lemma counted_release tid x W : x <> ALIVE_INSTANCE_STATE ->
  counted s (schedule_release qos tid (with_instance_state x (with_writers W s))).1.
Proof.
  intros Hx. destruct (schedule_release_counts qos tid (with_instance_state x (with_writers W s))) as (E1 & E2 & E3).
  apply counted_same; [done|done|done|done|]. rewrite E3. by right.
Qed.

Lemma counted_unregister tid w : counted s (unregister_was_received qos tid w s).1.1.
Proof.
  unfold unregister_was_received. destruct (_ && _); [|apply counted_same; cbn; by auto].
  pose proof (counted_release tid NOT_ALIVE_NO_WRITERS_INSTANCE_STATE (writers_ s ∖ {[w]})) as H.
  destruct (schedule_release _ _ _) as [s1 cs]. by apply H.
Qed.

Lemma counted_step e : counted s (step qos e s).1.
Proof.
  destruct e as [w|w|tid o w|tid w|tid w| |b]; cbn [step].
  - apply counted_data.
  - apply counted_lively.
  - unfold dispose_was_received. destruct (in_mask _ _); [|apply counted_same; cbn; by auto].
    destruct (_ || _); [|apply counted_same; cbn; by auto].
    pose proof (counted_release tid NOT_ALIVE_DISPOSED_INSTANCE_STATE (writers_ s ∖ {[w]})) as H.
    destruct (schedule_release _ _ _) as [s1 cs]. by apply H.
  - apply counted_unregister.
  - rewrite dead_is_unregister. apply counted_unregister.
  - unfold accessed. destruct (in_mask _ _); apply counted_same; cbn; by auto.
  - unfold set_empty, release_if_empty. destruct (b && _); [destruct (empty_ _ && _)|]; apply counted_same; cbn; by auto.
Qed.

End counting.

Lemma rebirths_step qos e es s x :
  rebirths x (states qos (e :: es) s) = reborn s (step qos e s).1 x + rebirths x (states qos es (step qos e s).1).
Proof. unfold reborn. cbn [states]. by destruct es. Qed.

Lemma rebirths_bound x l : 0 <= rebirths x l <= Z.of_nat (length l).
Proof.
  induction l as [|a l IH]; [done|]. cbn [rebirths]. destruct l as [|b l]; [cbn; lia|].
  rewrite length_cons. case_match; lia.
Qed.

Lemma uwrap_add_l w x y : uwrap w (uwrap w x + y) = uwrap w (x + y).
Proof. unfold uwrap. apply Zplus_mod_idemp_l. Qed.

Lemma counted_run qos es s : is_u 64 (disposed_generation_count_ s) -> is_u 64 (no_writers_generation_count_ s) ->
  disposed_generation_count_ (after qos es s)
    = uwrap 64 (disposed_generation_count_ s + rebirths NOT_ALIVE_DISPOSED_INSTANCE_STATE (states qos es s))
  /\ no_writers_generation_count_ (after qos es s)
    = uwrap 64 (no_writers_generation_count_ s + rebirths NOT_ALIVE_NO_WRITERS_INSTANCE_STATE (states qos es s)).
Proof.
  revert s. induction es as [|e es IH]; intros s H1 H2.
  { cbn. by rewrite !Z.add_0_r, !uwrap_small. }
  destruct (counted_step qos s H1 H2 e) as [E1 E2]. rewrite !rebirths_step. cbn [after foldl].
  destruct (IH (step qos e s).1) as [E3 E4]; [rewrite E1; by apply uwrap_is_u|rewrite E2; by apply uwrap_is_u|].
  unfold after in E3, E4. rewrite E3, E4, E1, E2, !uwrap_add_l. split; f_equal; lia.
Qed.

Lemma after_app qos es1 es2 s : after qos (es1 ++ es2) s = after qos es2 (after qos es1 s).
Proof. apply foldl_app. Qed.

Lemma states_length qos es s : length (states qos es s) = S (length es).
Proof. revert s. induction es as [|e es IH]; intros s; cbn; [done|]. by rewrite IH. Qed.

Lemma uwrap_eq_0 x y : is_u 64 x -> 0 <= y < 2 ^ 64 -> x = uwrap 64 (x + y) <-> y = 0.
Proof.
  intros Hx Hy. split; [|intros ->; by rewrite Z.add_0_r, uwrap_small].
  unfold uwrap, is_u in *. intros E. destruct (decide (x + y < 2 ^ 64)) as [H|H].
  - rewrite Z.mod_small in E; lia.
  - replace (x + y) with (x + y - 2 ^ 64 + 1 * 2 ^ 64) in E by lia. rewrite Z.mod_add, Z.mod_small in E; lia.
Qed.

(** the generation counts are the numbers of times the instance came back
    to life, from disposed and from having no writers (modulo the size of the
    counters); and a sample stored with the counts of its arrival is of the most
    recent generation exactly as long as the instance has not come back to life
    since. *)
Theorem generations_correct (qos : Lifecycle) (es1 es2 : list event) (reader : positive) (handle : Z) (exclusive : bool) :
  let s0 := new_instance_state reader handle exclusive in
  let s1 := after qos es1 s0 in
  let s2 := after qos (es1 ++ es2) s0 in
  disposed_generation_count_ s1 = uwrap 64 (rebirths NOT_ALIVE_DISPOSED_INSTANCE_STATE (states qos es1 s0))
  /\ no_writers_generation_count_ s1 = uwrap 64 (rebirths NOT_ALIVE_NO_WRITERS_INSTANCE_STATE (states qos es1 s0))
  /\ (Z.of_nat (length es2) < 2 ^ 64 - 1 ->
      most_recent_generation (disposed_generation_count_ s1) (no_writers_generation_count_ s1) s2 = true
      <-> rebirths NOT_ALIVE_DISPOSED_INSTANCE_STATE (states qos es2 s1) = 0
          /\ rebirths NOT_ALIVE_NO_WRITERS_INSTANCE_STATE (states qos es2 s1) = 0).
Proof.
  intros s0 s1 s2. destruct (counted_run qos es1 s0) as [E1 E2]; [done|done|]. fold s1 in E1, E2.
  split; [exact E1|]. split; [exact E2|]. intros Hl.
  assert (is_u 64 (disposed_generation_count_ s1) /\ is_u 64 (no_writers_generation_count_ s1)) as [U1 U2].
  { rewrite E1, E2. split; by apply uwrap_is_u. }
  destruct (counted_run qos es2 s1 U1 U2) as [E3 E4]. unfold most_recent_generation, s2. rewrite after_app. fold s1.
  rewrite andb_true_iff, !Z.eqb_eq, E3, E4.
  pose proof (rebirths_bound NOT_ALIVE_DISPOSED_INSTANCE_STATE (states qos es2 s1)) as B1.
  pose proof (rebirths_bound NOT_ALIVE_NO_WRITERS_INSTANCE_STATE (states qos es2 s1)) as B2.
  rewrite states_length in B1, B2. rewrite !uwrap_eq_0 by (done || lia). done.
Qed.

Lemma generations_correct_witness :
  let s0 := new_instance_state 1 3 false in
  let s1 := after ex_qos (ex_history ++ [DataReceived (ex_writer 1)]) s0 in
  Z.of_nat (length [Accessed; Lively (ex_writer 2)]) < 2 ^ 64 - 1
  /\ no_writers_generation_count_ s1 = 1
  /\ most_recent_generation (disposed_generation_count_ s1) (no_writers_generation_count_ s1)
       (after ex_qos ((ex_history ++ [DataReceived (ex_writer 1)]) ++ [Accessed; Lively (ex_writer 2)]) s0) = true.
Proof.
  split; [done|]. split; [vm_compute; reflexivity|].
  apply (generations_correct ex_qos (ex_history ++ [DataReceived (ex_writer 1)]) [Accessed; Lively (ex_writer 2)] 1 3 false);
    [done|]. split; vm_compute; reflexivity.
Defined.

End InstanceState.
Export InstanceState.
