(* ===== verification/Ownership.v ===== *)
(** * Exclusive ownership (dds/DCPS/OwnershipManager.cpp, with the parts of
    DataReaderImpl.cpp and WriterInfo.cpp that use it)

    A participant's ownership manager elects, per instance, the strongest of the
    writers that wrote to it, and tells the election to the instance states of
    all readers that registered with it; a reader passes the samples of the owner
    only.  Instance states and readers are shared objects: they live in heaps and
    the manager holds their addresses.  A dereference of a missing object or of
    an [end()] iterator is [UB].  Every operation runs under [instance_lock_] and
    is one step.

    [std::sort] leaves the order of equal elements open: it is the parameter
    [StdSort], of which only the standard's promise is used ([StdSortLaws]). *)

From S2P Require Import Prelude Qos MessageBlock SequenceNumber Serializer DataSampleHeader InstanceState.

Module Ownership.

(** ** Data *)

(** [OwnershipManager::WriterInfo]. *)
Record OwnerInfo := mkOwner { pub_id_ : GUID; ownership_strength_ : Z }.
#[export] Instance OwnerInfo_eq_dec : EqDecision OwnerInfo.
Proof. solve_decision. Defined.
Definition no_owner : OwnerInfo := mkOwner GUID_UNKNOWN 0.

Record OwnershipWriterInfos := mkInfos {
  info_owner_ : OwnerInfo; candidates_ : list OwnerInfo; instance_states_ : list positive }.

(** The members of [WriterInfo] (WriterInfo.h) a reader keeps for ownership. *)
Record ReaderWriter := mkRW { rw_writer_id_ : GUID; rw_strength_ : Z; owner_evaluated_ : gmap Z bool }.

Record Reader := mkReader {
  is_exclusive_ownership_ : bool; minimum_separation_ : Duration; rd_writers_ : gmap GUID ReaderWriter }.

(** The objects of a participant: instance states (with the time the instance
    last accepted a sample), readers, and the manager's table. *)
Record World := mkW {
  states_ : gmap positive InstanceState;
  accepted_ : gmap positive Z;
  readers_ : gmap positive Reader;
  infos_ : gmap Z OwnershipWriterInfos }.

Definition with_states (x : gmap positive InstanceState) (w : World) : World := mkW x (accepted_ w) (readers_ w) (infos_ w).
Definition with_accepted (x : gmap positive Z) (w : World) : World := mkW (states_ w) x (readers_ w) (infos_ w).
Definition with_readers (x : gmap positive Reader) (w : World) : World := mkW (states_ w) (accepted_ w) x (infos_ w).
Definition with_infos (x : gmap Z OwnershipWriterInfos) (w : World) : World := mkW (states_ w) (accepted_ w) (readers_ w) x.

Definition DescendingOwnershipStrengthSort (w1 w2 : OwnerInfo) : bool :=
  ownership_strength_ w2 <? ownership_strength_ w1.

(** The order a range sorted with the comparison above is in. *)
Definition descending (w1 w2 : OwnerInfo) : Prop := ownership_strength_ w2 <= ownership_strength_ w1.

Class StdSort := std_sort : list OwnerInfo -> list OwnerInfo.
Class StdSortLaws `{StdSort} : Prop := {
  std_sort_perm l : std_sort l ≡ₚ l;
  std_sort_sorted l : StronglySorted descending (std_sort l) }.

(** ** The instance maps of the types

    The map of the instances of a type is created by the first reader that needs
    it and shared by the readers of the type; a reader is listed once per time it
    asked for the map. *)

Record InstanceMap := mkIM { map_ : positive; im_readers_ : list positive }.

(** [get_instance_map]: [None] is the null result. *)
Definition get_instance_map (type_name : cstring) (reader : positive) (t : gmap cstring InstanceMap)
    : gmap cstring InstanceMap * option positive :=
  match t !! type_name with
  | None => (t, None)
  | Some i => (<[type_name := mkIM (map_ i) (im_readers_ i ++ [reader])]> t, Some (map_ i))
  end.

(** [set_instance_map]: [bind] keeps an entry that is there. *)
Definition set_instance_map (type_name : cstring) (instance_map reader : positive) (t : gmap cstring InstanceMap)
    : gmap cstring InstanceMap :=
  match t !! type_name with
  | None => <[type_name := mkIM instance_map [reader]]> t
  | Some _ => t
  end.

Fixpoint erase_reader (reader : positive) (rs : list positive) : list positive :=
  match rs with
  | [] => []
  | r :: rs => if decide (r = reader) then rs else r :: erase_reader reader rs
  end.

(** [unregister_reader], with the map it deletes. *)
Definition unregister_reader (type_name : cstring) (reader : positive) (t : gmap cstring InstanceMap)
    : gmap cstring InstanceMap * option positive :=
  match t !! type_name with
  | None => (t, None)
  | Some i =>
      let rs := erase_reader reader (im_readers_ i) in
      if bool_decide (rs = []) then (delete type_name t, Some (map_ i))
      else (<[type_name := mkIM (map_ i) rs]> t, None)
  end.

Lemma erase_reader_nil reader rs : erase_reader reader rs = [] <-> rs = [] \/ rs = [reader].
Proof. destruct rs as [|r rs]; cbn; [by split; [left|]|]. case_decide; naive_solver. Qed.

(** The shared map survives until its last registration is withdrawn. *)
Lemma unregister_reader_deletes type_name reader t :
  is_Some (unregister_reader type_name reader t).2 <->
  exists i, t !! type_name = Some i /\ (im_readers_ i = [] \/ im_readers_ i = [reader]).
Proof.
  unfold unregister_reader. destruct (t !! type_name) as [i|].
  - case_bool_decide as E; rewrite erase_reader_nil in E.
    + split; [by eauto|]. by intros _.
    + split; [by intros [? ?]|]. intros (i' & [= <-] & ?). done.
  - split; [by intros [? ?]|]. by intros (i & ? & _).
Qed.

(** ** The flags a reader keeps per writer (WriterInfo.cpp) *)

Definition set_owner_evaluated (instance : Z) (flag : bool) (i : ReaderWriter) : ReaderWriter :=
  if flag || (negb flag && bool_decide (is_Some (owner_evaluated_ i !! instance)))
  then mkRW (rw_writer_id_ i) (rw_strength_ i) (<[instance := flag]> (owner_evaluated_ i)) else i.

Definition clear_owner_evaluated (i : ReaderWriter) : ReaderWriter := mkRW (rw_writer_id_ i) (rw_strength_ i) ∅.

Definition is_owner_evaluated (instance : Z) (i : ReaderWriter) : bool * ReaderWriter :=
  match owner_evaluated_ i !! instance with
  | None => (false, mkRW (rw_writer_id_ i) (rw_strength_ i) (<[instance := false]> (owner_evaluated_ i)))
  | Some flag => (flag, i)
  end.

(** [DataReaderImpl::reset_ownership]. *)
Definition reader_reset_ownership (instance : Z) (r : Reader) : Reader :=
  mkReader (is_exclusive_ownership_ r) (minimum_separation_ r) (set_owner_evaluated instance false <$> rd_writers_ r).

(** [DataReaderImpl::update_ownership_strength]. *)
Definition update_ownership_strength (pub_id : GUID) (strength : Z) (r : Reader) : Reader :=
  mkReader (is_exclusive_ownership_ r) (minimum_separation_ r)
    ((fun i => if bool_decide (rw_writer_id_ i = pub_id) && negb (strength =? rw_strength_ i)
               then clear_owner_evaluated (mkRW (rw_writer_id_ i) strength (owner_evaluated_ i)) else i) <$> rd_writers_ r).

(** ** The manager *)

Section manager.
Context `{StdSort}.

Definition state_at (w : World) (p : positive) : outcome InstanceState := deref (states_ w !! p).
Definition set_state (p : positive) (s : InstanceState) (w : World) : World := with_states (<[p := s]> (states_ w)) w.
Definition set_infos (h : Z) (i : OwnershipWriterInfos) (w : World) : World := with_infos (<[h := i]> (infos_ w)) w.

(** [broadcast_new_owner]: the loop over the registered instance states. *)
Fixpoint broadcast_new_owner (ps : list positive) (owner : GUID) (w : World) : outcome World :=
  match ps with
  | [] => Ret w
  | p :: ps => s ← state_at w p; broadcast_new_owner ps owner (set_state p (set_owner owner s) w)
  end.

(** [InstanceState::reset_ownership]. *)
Definition reset_ownership (instance : Z) (p : positive) (w : World) : outcome World :=
  s ← state_at w p;
  let w := set_state p (with_ownership GUID_UNKNOWN false s) w in
  r ← deref (readers_ w !! reader_ s);
  Ret (with_readers (<[reader_ s := reader_reset_ownership instance r]> (readers_ w)) w).

Fixpoint reset_all (instance : Z) (ps : list positive) (w : World) : outcome World :=
  match ps with
  | [] => Ret w
  | p :: ps => w ← reset_ownership instance p w; reset_all instance ps w
  end.

(** [remove_owner(instance_handle, infos, sort)]. *)
Definition remove_owner_of (infos : OwnershipWriterInfos) (sort : bool) (w : World)
    : outcome (World * OwnershipWriterInfos) :=
  '(infos, new_owner) ←
    (match candidates_ infos with
     | [] => Ret (mkInfos no_owner [] (instance_states_ infos), GUID_UNKNOWN)
     | _ =>
         let candidates := if sort then std_sort (candidates_ infos) else candidates_ infos in
         begin ← deref (head candidates);
         Ret (mkInfos begin (tail candidates) (instance_states_ infos), pub_id_ begin)
     end);
  w ← broadcast_new_owner (instance_states_ infos) new_owner w;
  Ret (w, infos).

(** [remove_candidate]: erases the first entry of the writer. *)
Fixpoint erase_candidate (pub_id : GUID) (cs : list OwnerInfo) : list OwnerInfo :=
  match cs with
  | [] => []
  | c :: cs => if decide (pub_id_ c = pub_id) then cs else c :: erase_candidate pub_id cs
  end.
Definition remove_candidate (infos : OwnershipWriterInfos) (pub_id : GUID) : OwnershipWriterInfos :=
  mkInfos (info_owner_ infos) (erase_candidate pub_id (candidates_ infos)) (instance_states_ infos).

(** [remove_writer(instance_handle, infos, pub_id)]. *)
Definition remove_writer_of (infos : OwnershipWriterInfos) (pub_id : GUID) (w : World)
    : outcome (World * OwnershipWriterInfos * bool) :=
  if decide (pub_id_ (info_owner_ infos) = pub_id)
  then '(w, infos) ← remove_owner_of infos false w; Ret (w, infos, true)
  else Ret (w, remove_candidate infos pub_id, false).

(** [remove_writer(instance_handle, pub_id)]. *)
Definition remove_writer (instance_handle : Z) (pub_id : GUID) (w : World) : outcome (World * bool) :=
  match infos_ w !! instance_handle with
  | Some infos =>
      '(w, infos, b) ← remove_writer_of infos pub_id w;
      Ret (set_infos instance_handle infos w, b)
  | None => Ret (w, false)
  end.

(** [remove_writer(pub_id)]: all instances, in the order of the table. *)
Fixpoint remove_writer_loop (hs : list Z) (pub_id : GUID) (w : World) : outcome World :=
  match hs with
  | [] => Ret w
  | h :: hs => '(w, _) ← remove_writer h pub_id w; remove_writer_loop hs pub_id w
  end.
Definition remove_writer_everywhere (pub_id : GUID) (w : World) : outcome World :=
  remove_writer_loop (merge_sort Z.le (elements (dom (infos_ w)))) pub_id w.

(** [remove_writers(instance_handle)]. *)
Definition remove_writers (instance_handle : Z) (w : World) : outcome World :=
  match infos_ w !! instance_handle with
  | Some infos =>
      w ← reset_all instance_handle (instance_states_ infos) w;
      Ret (with_infos (delete instance_handle (infos_ w)) w)
  | None => Ret w
  end.

Definition is_owner (instance_handle : Z) (pub_id : GUID) (w : World) : bool :=
  match infos_ w !! instance_handle with
  | Some infos => bool_decide (pub_id_ (info_owner_ infos) = pub_id)
  | None => false
  end.

(** [remove_owner(instance_handle)]: the iterator is not tested. *)
Definition remove_owner (instance_handle : Z) (w : World) : outcome World :=
  infos ← deref (infos_ w !! instance_handle);
  '(w, infos) ← remove_owner_of infos false w;
  Ret (set_infos instance_handle infos w).

(** [remove_instance]: erases the first occurrence of the address. *)
Fixpoint erase_state (p : positive) (ps : list positive) : list positive :=
  match ps with
  | [] => []
  | q :: ps => if decide (q = p) then ps else q :: erase_state p ps
  end.
Definition remove_instance (p : positive) (w : World) : outcome World :=
  s ← state_at w p;
  Ret (match infos_ w !! is_handle_ s with
       | Some infos => set_infos (is_handle_ s) (mkInfos (info_owner_ infos) (candidates_ infos)
                                                   (erase_state p (instance_states_ infos))) w
       | None => w
       end).

(** The destructor of [InstanceState]. *)
Definition destroy_instance (p : positive) (w : World) : outcome World :=
  s ← state_at w p;
  w ← (if registered_ s then remove_instance p w else Ret w);
  Ret (with_states (delete p (states_ w)) w).

(** The loop of [select_owner] over the candidates: whether the writer was found
    and whether the list has to be sorted. *)
Fixpoint update_candidate (pub_id : GUID) (strength : Z) (cs : list OwnerInfo) : list OwnerInfo * bool * bool :=
  match cs with
  | [] => ([], false, true)
  | c :: cs =>
      if decide (pub_id_ c = pub_id) then
        if negb (ownership_strength_ c =? strength) then (mkOwner pub_id strength :: cs, true, true)
        else (c :: cs, true, false)
      else let '(cs, found, sort) := update_candidate pub_id strength cs in (c :: cs, found, sort)
  end.

(** [if (!instance_state->registered()) { push_back; registered(true); }]. *)
Definition register_state (p : positive) (infos : OwnershipWriterInfos) (w : World)
    : outcome (World * OwnershipWriterInfos) :=
  s ← state_at w p;
  let '(already, s) := test_registered s in
  let w := set_state p s w in
  if (already : bool) then Ret (w, infos)
  else
    let w := set_state p (with_ownership (owner_ s) true s) w in
    Ret (w, mkInfos (info_owner_ infos) (candidates_ infos) (instance_states_ infos ++ [p])).

Definition select_owner (instance_handle : Z) (pub_id : GUID) (strength : Z) (p : positive) (w : World)
    : outcome (World * bool) :=
  match infos_ w !! instance_handle with
  | Some infos =>
      '(w, infos) ← register_state p infos w;
      let owner := info_owner_ infos in
      if decide (pub_id_ owner = GUID_UNKNOWN) then
        let infos := mkInfos (mkOwner pub_id strength) (candidates_ infos) (instance_states_ infos) in
        w ← broadcast_new_owner (instance_states_ infos) pub_id w;
        Ret (set_infos instance_handle infos w, true)
      else if decide (pub_id_ owner = pub_id) then
        if ownership_strength_ owner <=? strength then
          let infos := mkInfos (mkOwner pub_id strength) (candidates_ infos) (instance_states_ infos) in
          Ret (set_infos instance_handle infos w, true)
        else
          let infos := mkInfos owner (candidates_ infos ++ [mkOwner pub_id strength]) (instance_states_ infos) in
          '(w, infos) ← remove_owner_of infos true w;
          Ret (set_infos instance_handle infos w, bool_decide (pub_id_ (info_owner_ infos) = pub_id))
      else
        let replace_owner := ownership_strength_ owner <? strength in
        let candidates := if replace_owner then candidates_ infos ++ [owner] else candidates_ infos in
        let '(candidates, found, sort) := update_candidate pub_id strength candidates in
        let candidates := if (found : bool) then candidates else candidates ++ [mkOwner pub_id strength] in
        let candidates := if (sort : bool) then std_sort candidates else candidates in
        let infos := mkInfos owner candidates (instance_states_ infos) in
        '(w, infos) ← (if replace_owner then remove_owner_of infos false w else Ret (w, infos));
        Ret (set_infos instance_handle infos w, bool_decide (pub_id_ (info_owner_ infos) = pub_id))
  | None =>
      let infos := mkInfos (mkOwner pub_id strength) [] [] in
      '(w, infos) ← register_state p infos w;
      w ← broadcast_new_owner (instance_states_ infos) (pub_id_ (info_owner_ infos)) w;
      Ret (set_infos instance_handle infos w, true)
  end.

(** ** The reader's filter (DataReaderImpl::filter_instance) *)

(** Times are in microseconds. *)
Definition time_value_to_duration (t : Z) : Duration :=
  mkDur (Z.max (- 2 ^ 31) (Z.min (2 ^ 31 - 1) (Z.quot t 1000000))) (uwrap 32 (Z.rem t 1000000 * 1000)).

(** The part before the time based filter: [true] is "filtered". *)
Definition ownership_filter (p : positive) (pubid : GUID) (w : World) : outcome (World * bool) :=
  s ← state_at w p;
  r ← deref (readers_ w !! reader_ s);
  if is_exclusive_ownership_ r then
    match rd_writers_ r !! pubid with
    | None => Ret (w, true)
    | Some info =>
        let set_info (i : ReaderWriter) (w : World) : outcome World :=
          r ← deref (readers_ w !! reader_ s);
          Ret (with_readers (<[reader_ s := mkReader (is_exclusive_ownership_ r) (minimum_separation_ r)
                                             (<[pubid := i]> (rd_writers_ r))]> (readers_ w)) w) in
        '(w, evaluated) ← (if decide (owner_ s = GUID_UNKNOWN) then Ret (w, false)
                           else let '(b, info) := is_owner_evaluated (is_handle_ s) info in
                                w ← set_info info w; Ret (w, b));
        if negb evaluated then
          '(w, owner) ← select_owner (is_handle_ s) (rw_writer_id_ info) (rw_strength_ info) p w;
          w ← set_info (set_owner_evaluated (is_handle_ s) true info) w;
          Ret (w, negb owner)
        else Ret (w, negb (bool_decide (owner_ s = pubid)))
    end
  else Ret (w, false).

Definition filter_instance (now : Z) (p : positive) (pubid : GUID) (w : World) : outcome (World * bool) :=
  '(w, filtered) ← ownership_filter p pubid w;
  if (filtered : bool) then Ret (w, true)
  else
    s ← state_at w p;
    r ← deref (readers_ w !! reader_ s);
    last ← deref (accepted_ w !! p);
    if dur_gt (minimum_separation_ r) (mkDur 0 0)
       && dur_lt (time_value_to_duration (now - last)) (minimum_separation_ r)
    then Ret (w, true)
    else Ret (with_accepted (<[p := now]> (accepted_ w)) w, false).

(** [InstanceState::unregister_was_received] and [dispose_was_received] with
    their calls on the manager, which change no member these read. *)
Definition handle_unregister (qos : Lifecycle) (tid : Z) (writer_id : GUID) (p : positive) (w : World)
    : outcome (World * list call * bool) :=
  s ← state_at w p;
  w ← (if exclusive_ s then '(w, _) ← remove_writer (is_handle_ s) writer_id w; Ret w else Ret w);
  s ← state_at w p;
  let '(s, calls, changed) := unregister_was_received qos tid writer_id s in
  Ret (set_state p s w, calls, changed).

Definition handle_dispose (qos : Lifecycle) (tid : Z) (writer_id : GUID) (p : positive) (w : World)
    : outcome (World * list call * bool) :=
  s ← state_at w p;
  let '(s, calls, changed) := dispose_was_received qos tid (is_owner (is_handle_ s) writer_id w) writer_id s in
  Ret (set_state p s w, calls, changed).

(** The ownership part of [DataReaderImpl::writer_removed] and
    [writer_became_dead]: the writer leaves all elections and its flags are
    cleared. *)
Definition writer_lost (reader : positive) (writer_id : GUID) (w : World) : outcome World :=
  r ← deref (readers_ w !! reader);
  if is_exclusive_ownership_ r then
    w ← remove_writer_everywhere writer_id w;
    r ← deref (readers_ w !! reader);
    Ret (with_readers (<[reader := mkReader (is_exclusive_ownership_ r) (minimum_separation_ r)
                                    (alter clear_owner_evaluated writer_id (rd_writers_ r))]> (readers_ w)) w)
  else Ret w.

End manager.

(** ** A sort *)

#[export] Instance descending_dec w1 w2 : Decision (descending w1 w2).
Proof. unfold descending. apply _. Defined.
#[export] Instance descending_trans : Transitive descending.
Proof. intros a b c. unfold descending. lia. Qed.
#[export] Instance descending_total : Total descending.
Proof. intros a b. unfold descending. lia. Qed.

Definition stable_sort : StdSort := merge_sort descending.
#[export] Instance stable_sort_laws : @StdSortLaws stable_sort.
Proof. split; intros l; [apply merge_sort_Permutation|apply (StronglySorted_merge_sort descending)]. Qed.

(** ** What the manager keeps *)

(** The writers in the election for an instance. *)
Definition known (i : OwnershipWriterInfos) : list OwnerInfo :=
  (if decide (pub_id_ (info_owner_ i) = GUID_UNKNOWN) then [] else [info_owner_ i]) ++ candidates_ i.

Record infos_ok (i : OwnershipWriterInfos) : Prop := mkIO {
  io_nodup : NoDup (pub_id_ <$> known i);
  io_known : Forall (fun c => pub_id_ c <> GUID_UNKNOWN) (candidates_ i);
  io_sorted : StronglySorted descending (candidates_ i);
  io_top : Forall (descending (info_owner_ i)) (candidates_ i);
  io_none : pub_id_ (info_owner_ i) = GUID_UNKNOWN -> candidates_ i = [] }.

(** The writers of [l'] are those of [l], with [pub] at strength [s]. *)
Definition updated (pub : GUID) (s : Z) (l l' : list OwnerInfo) : Prop :=
  forall x, x ∈ l' <-> x = mkOwner pub s \/ (pub_id_ x <> pub /\ x ∈ l).

Lemma descending_nodup_unique (l : list OwnerInfo) x y :
  NoDup (pub_id_ <$> l) -> x ∈ l -> y ∈ l -> pub_id_ x = pub_id_ y -> x = y.
Proof.
  intros Hn Hx Hy E. apply list_elem_of_lookup in Hx as [i Hi]. apply list_elem_of_lookup in Hy as [j Hj].
  assert (i = j) as ->; [|congruence].
  eapply (NoDup_lookup _ i j (pub_id_ x) Hn); rewrite list_lookup_fmap; [by rewrite Hi|by rewrite Hj, E].
Qed.

(** The first of a sorted list becomes the owner. *)
Lemma infos_ok_promote b cs ps : StronglySorted descending (b :: cs) -> NoDup (pub_id_ <$> (b :: cs)) ->
  Forall (fun c => pub_id_ c <> GUID_UNKNOWN) (b :: cs) ->
  infos_ok (mkInfos b cs ps) /\ known (mkInfos b cs ps) = b :: cs.
Proof.
  intros Hs Hn Hk. inversion Hs as [|? ? Hs' Ht]; subst. apply Forall_cons in Hk as [Hb Hk].
  assert (known (mkInfos b cs ps) = b :: cs) as E by (unfold known; cbn; by rewrite decide_False).
  split; [|done]. split; cbn; try done. by rewrite E.
Qed.

Lemma updated_perm pub s l l1 l2 : l1 ≡ₚ l2 -> updated pub s l l1 -> updated pub s l l2.
Proof. intros Hp H x. rewrite <- (H x). by rewrite Hp. Qed.

Lemma updated_snoc pub s l : pub ∉ (pub_id_ <$> l) -> updated pub s l (l ++ [mkOwner pub s]).
Proof.
  intros Hn x. rewrite elem_of_app, list_elem_of_singleton. split; [|naive_solver].
  intros [Hx|Hx]; [|by left]. right. split; [|done]. intros <-. apply Hn. by apply list_elem_of_fmap_2.
Qed.

Lemma NoDup_ids_snoc pub s l : pub ∉ (pub_id_ <$> l) -> NoDup (pub_id_ <$> l) -> NoDup (pub_id_ <$> (l ++ [mkOwner pub s])).
Proof.
  intros H1 H2. rewrite fmap_app. apply NoDup_app. split; [done|]. split; [|apply NoDup_singleton]. set_solver.
Qed.

Lemma update_candidate_spec pub s cs : NoDup (pub_id_ <$> cs) ->
  let '(cs', found, sort) := update_candidate pub s cs in
  (if found then pub_id_ <$> cs' = pub_id_ <$> cs /\ updated pub s cs cs' else (pub ∉ (pub_id_ <$> cs)) /\ cs' = cs /\ sort = true)
  /\ (sort = false -> cs' = cs /\ mkOwner pub s ∈ cs).
Proof.
  induction cs as [|c cs IH]; intros Hn; cbn [update_candidate]; [split; [split; [set_solver|done]|done]|].
  cbn in Hn. apply NoDup_cons in Hn as [Hc Hn]. destruct (decide (pub_id_ c = pub)) as [Ec|Ec].
  - assert (forall x, x ∈ cs -> pub_id_ x <> pub) as Hne.
    { intros x Hx E. apply Hc. rewrite Ec, <- E. by apply list_elem_of_fmap_2. }
    destruct (Z.eqb_spec (ownership_strength_ c) s) as [Es|Es]; cbn [negb].
    + assert (c = mkOwner pub s) as -> by (destruct c; cbn in *; congruence).
      split; [|intros _; split; [done|by left]]. split; [done|]. intros x. rewrite elem_of_cons. naive_solver.
    + split; [|done]. split; [cbn; congruence|]. intros x. rewrite !elem_of_cons. naive_solver.
  - specialize (IH Hn). destruct (update_candidate pub s cs) as [[cs' found] sort]. destruct IH as [IH1 IH2]. split.
    + destruct found.
      * destruct IH1 as [E U]. split; [cbn; congruence|]. intros x. rewrite !elem_of_cons, (U x). naive_solver.
      * destruct IH1 as (E & -> & ->). split; [|done]. cbn. set_solver.
    + intros Hs. destruct (IH2 Hs) as [-> Hin]. split; [done|]. by right.
Qed.

(** ** The shared objects *)

Record world_ok (w : World) : Prop := mkWO {
  wo_infos h i : infos_ w !! h = Some i -> infos_ok i /\ NoDup (instance_states_ i);
  wo_listed h i p : infos_ w !! h = Some i -> p ∈ instance_states_ i ->
    exists s, states_ w !! p = Some s /\ is_handle_ s = h /\ registered_ s = true
      /\ (owner_ s = GUID_UNKNOWN \/ owner_ s = pub_id_ (info_owner_ i));
  wo_registered p s : states_ w !! p = Some s -> registered_ s = true ->
    exists i, infos_ w !! is_handle_ s = Some i /\ p ∈ instance_states_ i;
  wo_unregistered p s : states_ w !! p = Some s -> registered_ s = false -> owner_ s = GUID_UNKNOWN;
  wo_readers p s : states_ w !! p = Some s -> is_Some (readers_ w !! reader_ s) }.

(** The instance states after a broadcast. *)
Definition told (ps : list positive) (o : GUID) (m m' : gmap positive InstanceState) : Prop :=
  forall q, m' !! q = if decide (q ∈ ps) then set_owner o <$> m !! q else m !! q.

Lemma broadcast_spec ps o w : (forall p, p ∈ ps -> is_Some (states_ w !! p)) ->
  exists m, broadcast_new_owner ps o w = Ret (with_states m w) /\ told ps o (states_ w) m.
Proof.
  revert w. induction ps as [|p ps IH]; intros w Hp; cbn [broadcast_new_owner].
  { exists (states_ w). split; [by destruct w|]. intros q. by rewrite decide_False by set_solver. }
  destruct (Hp p) as [s Hs]; [by left|]. unfold state_at. rewrite Hs. cbn [deref mbind outcome_bind].
  destruct (IH (set_state p (set_owner o s) w)) as (m & E & T).
  { intros q Hq. cbn. destruct (decide (q = p)) as [-> |Hne]; [by rewrite lookup_insert_eq|].
    rewrite lookup_insert_ne by done. apply Hp. by right. }
  exists m. split; [exact E|]. intros q. rewrite (T q). cbn.
  destruct (decide (q = p)) as [-> |Hne].
  - rewrite lookup_insert_eq, (decide_True _ _ (list_elem_of_here p ps)), Hs. by case_decide.
  - rewrite lookup_insert_ne by done. destruct (decide (q ∈ ps)) as [H1|H1].
    + by rewrite decide_True by (by right).
    + rewrite decide_False; [done|]. by intros [?|?]%elem_of_cons.
Qed.

Lemma told_lookup ps o m m' q s' : told ps o m m' -> m' !! q = Some s' ->
  exists s, m !! q = Some s /\ s' = (if decide (q ∈ ps) then set_owner o s else s).
Proof. intros T. rewrite (T q). case_decide; [|naive_solver]. destruct (m !! q); naive_solver. Qed.

(** A new result of the election for an instance, told to its instance states. *)
Lemma world_ok_elect w h i i' m' : world_ok w -> infos_ w !! h = Some i -> infos_ok i' ->
  instance_states_ i' = instance_states_ i ->
  told (instance_states_ i) (pub_id_ (info_owner_ i')) (states_ w) m' -> world_ok (set_infos h i' (with_states m' w)).
Proof.
  intros W Hi Hok Hps T. pose proof (wo_infos _ W h i Hi) as [_ Hnd]. split; cbn.
  - intros h1 i1 H1. destruct (decide (h1 = h)) as [-> |Hne].
    + rewrite lookup_insert_eq in H1. simplify_eq. by rewrite Hps.
    + rewrite lookup_insert_ne in H1 by done. exact (wo_infos _ W _ _ H1).
  - intros h1 i1 p H1 Hp. rewrite (T p). destruct (decide (h1 = h)) as [-> |Hne].
    + rewrite lookup_insert_eq in H1. simplify_eq. rewrite Hps in Hp. rewrite decide_True by done.
      destruct (wo_listed _ W _ _ _ Hi Hp) as (s & -> & ? & ? & ?). eexists. split; [done|]. cbn. auto.
    + rewrite lookup_insert_ne in H1 by done. destruct (wo_listed _ W _ _ _ H1 Hp) as (s & Hs & ? & ? & ?).
      rewrite decide_False; [by exists s|]. intros Hp'. destruct (wo_listed _ W _ _ _ Hi Hp') as (s' & ? & ? & _). congruence.
  - intros p s' Hs' Hr. destruct (told_lookup _ _ _ _ _ _ T Hs') as (s & Hs & ->).
    destruct (wo_registered _ W p s Hs) as (i1 & H1 & H2); [by case_decide|].
    assert (is_handle_ (if decide (p ∈ instance_states_ i) then set_owner (pub_id_ (info_owner_ i')) s else s) = is_handle_ s) as ->
      by (by case_decide).
    destruct (decide (is_handle_ s = h)) as [Eh|Eh].
    + rewrite Eh, lookup_insert_eq. rewrite Eh in H1. simplify_eq. exists i'. by rewrite Hps.
    + rewrite lookup_insert_ne by done. by exists i1.
  - intros p s' Hs' Hr. destruct (told_lookup _ _ _ _ _ _ T Hs') as (s & Hs & ->). case_decide as Hp; [|exact (wo_unregistered _ W _ _ Hs Hr)].
    destruct (wo_listed _ W _ _ _ Hi Hp) as (s1 & ? & _ & ? & _). cbn in Hr. congruence.
  - intros p s' Hs'. destruct (told_lookup _ _ _ _ _ _ T Hs') as (s & Hs & ->).
    pose proof (wo_readers _ W _ _ Hs). by case_decide.
Qed.

(** A change of the election that keeps the owner. *)
Lemma world_ok_keep w h i i' : world_ok w -> infos_ w !! h = Some i -> infos_ok i' ->
  instance_states_ i' = instance_states_ i -> pub_id_ (info_owner_ i') = pub_id_ (info_owner_ i) -> world_ok (set_infos h i' w).
Proof.
  intros W Hi Hok Hps Ho. pose proof (wo_infos _ W h i Hi) as [_ Hnd]. split; cbn; try apply W.
  - intros h1 i1 H1. destruct (decide (h1 = h)) as [-> |Hne].
    + rewrite lookup_insert_eq in H1. simplify_eq. by rewrite Hps.
    + rewrite lookup_insert_ne in H1 by done. exact (wo_infos _ W _ _ H1).
  - intros h1 i1 p H1 Hp. destruct (decide (h1 = h)) as [-> |Hne].
    + rewrite lookup_insert_eq in H1. simplify_eq. rewrite Hps in Hp. rewrite Ho. exact (wo_listed _ W _ _ _ Hi Hp).
    + rewrite lookup_insert_ne in H1 by done. exact (wo_listed _ W _ _ _ H1 Hp).
  - intros p s Hs Hr. destruct (wo_registered _ W p s Hs Hr) as (i1 & H1 & H2).
    destruct (decide (is_handle_ s = h)) as [Eh|Eh].
    + rewrite Eh, lookup_insert_eq. rewrite Eh in H1. simplify_eq. exists i'. by rewrite Hps.
    + rewrite lookup_insert_ne by done. by exists i1.
Qed.

(** The first writer of an instance. *)
Lemma world_ok_first w h i : world_ok w -> infos_ w !! h = None -> infos_ok i -> instance_states_ i = [] -> world_ok (set_infos h i w).
Proof.
  intros W Hh Hok Hps. split; cbn; try apply W.
  - intros h1 i1 H1. destruct (decide (h1 = h)) as [-> |Hne].
    + rewrite lookup_insert_eq in H1. simplify_eq. rewrite Hps. split; [done|constructor].
    + rewrite lookup_insert_ne in H1 by done. exact (wo_infos _ W _ _ H1).
  - intros h1 i1 p H1 Hp. destruct (decide (h1 = h)) as [-> |Hne].
    + rewrite lookup_insert_eq in H1. simplify_eq. rewrite Hps in Hp. by apply elem_of_nil in Hp.
    + rewrite lookup_insert_ne in H1 by done. exact (wo_listed _ W _ _ _ H1 Hp).
  - intros p s Hs Hr. destruct (wo_registered _ W p s Hs Hr) as (i1 & H1 & H2).
    rewrite lookup_insert_ne by congruence. by exists i1.
Qed.

Lemma infos_ok_states i ps : infos_ok i -> infos_ok (mkInfos (info_owner_ i) (candidates_ i) ps).
Proof. intros []. by split. Qed.

(** A lookup in a table with one entry replaced, in a hypothesis or the goal. *)
Ltac split_lookup a b H :=
  destruct (decide (a = b)) as [-> |?];
  [rewrite lookup_insert_eq in H; simplify_eq/= | rewrite lookup_insert_ne in H by done].
Ltac split_lookup_goal a b :=
  destruct (decide (a = b)) as [-> |?];
  [rewrite lookup_insert_eq | rewrite lookup_insert_ne by done].

Lemma world_ok_register w h i p s : world_ok (set_infos h i w) -> states_ w !! p = Some s -> is_handle_ s = h ->
  registered_ s = false ->
  world_ok (set_infos h (mkInfos (info_owner_ i) (candidates_ i) (instance_states_ i ++ [p]))
    (with_states (<[p := with_ownership (owner_ s) true s]> (states_ w)) w)).
Proof.
  intros W Hs <- Hr. assert (infos_ (set_infos (is_handle_ s) i w) !! is_handle_ s = Some i) as Hi by apply lookup_insert_eq.
  destruct (wo_infos _ W _ i Hi) as [Hok Hnd]. pose proof (wo_unregistered _ W p s Hs Hr) as Hu.
  assert (forall h1 i1, infos_ (set_infos (is_handle_ s) i w) !! h1 = Some i1 -> p ∉ instance_states_ i1) as Hp.
  { intros h1 i1 H1 Hp. destruct (wo_listed _ W _ _ _ H1 Hp) as (s1 & H2 & _ & H3 & _). cbn in H2. congruence. }
  pose proof (fun h1 i1 H => wo_infos _ W h1 i1 H) as A1. pose proof (fun h1 i1 q H => wo_listed _ W h1 i1 q H) as A2.
  pose proof (fun q s1 H => wo_registered _ W q s1 H) as A3. cbn in A1, A2, A3, Hp, Hi.
  split; cbn.
  - intros h1 i1 H1. split_lookup h1 (is_handle_ s) H1.
    + split; [by apply infos_ok_states|]. apply NoDup_app. split; [done|]. split; [|apply NoDup_singleton].
      intros x Hx ->%list_elem_of_singleton. exact (Hp _ i Hi Hx).
    + apply (A1 h1). by rewrite lookup_insert_ne.
  - intros h1 i1 q H1 Hq. split_lookup_goal q p.
    + eexists. split; [done|]. split_lookup h1 (is_handle_ s) H1; [by auto|]. destruct (Hp h1 i1); [by rewrite lookup_insert_ne|done].
    + split_lookup h1 (is_handle_ s) H1; [|apply (A2 h1); [by rewrite lookup_insert_ne|done]].
      apply elem_of_app in Hq as [Hq|Hq]; [exact (A2 _ _ _ Hi Hq)|]. by apply list_elem_of_singleton in Hq.
  - intros q s1 H1 H2. split_lookup q p H1; [rewrite lookup_insert_eq; eexists; split; [done|cbn; set_solver]|].
    destruct (A3 q s1 H1 H2) as (i1 & H3 & H4). destruct (decide (is_handle_ s1 = is_handle_ s)) as [E|E].
    + rewrite E, lookup_insert_eq in *. simplify_eq. eexists. split; [done|]. cbn. set_solver.
    + rewrite lookup_insert_ne in * by done. by exists i1.
  - intros q s1 H1 H2. split_lookup q p H1. exact (wo_unregistered _ W q s1 H1 H2).
  - intros q s1 H1. split_lookup q p H1; [exact (wo_readers _ W p s Hs)|]. exact (wo_readers _ W q s1 H1).
Qed.

(** Objects keep their handles and readers. *)
Definition same_objects (m m' : gmap positive InstanceState) : Prop :=
  forall q s, m !! q = Some s -> exists s', m' !! q = Some s' /\ reader_ s' = reader_ s /\ is_handle_ s' = is_handle_ s.

Lemma same_objects_refl m : same_objects m m.
Proof. intros q s Hq. by exists s. Qed.
Lemma same_objects_trans m1 m2 m3 : same_objects m1 m2 -> same_objects m2 m3 -> same_objects m1 m3.
Proof.
  intros H1 H2 q s Hq. destruct (H1 q s Hq) as (s1 & E1 & A1 & B1). destruct (H2 q s1 E1) as (s2 & E2 & A2 & B2).
  exists s2. split; [done|]. by rewrite A2, B2.
Qed.
Lemma same_objects_told ps o m m' : told ps o m m' -> same_objects m m'.
Proof. intros T q s Hq. rewrite (T q), Hq. case_decide; by eexists. Qed.
Lemma same_objects_insert m p s s' : m !! p = Some s -> reader_ s' = reader_ s -> is_handle_ s' = is_handle_ s ->
  same_objects m (<[p := s']> m).
Proof.
  intros Hp Hr Hh q t Hq. destruct (decide (q = p)) as [-> |Hne].
  - rewrite lookup_insert_eq. exists s'. by simplify_eq.
  - rewrite lookup_insert_ne by done. by exists t.
Qed.

(** ... and what they know of the owner. *)
Definition same_owners (m m' : gmap positive InstanceState) : Prop :=
  forall q s', m' !! q = Some s' -> exists s, m !! q = Some s /\ owner_ s = owner_ s'.

(** Registration adds the instance state to those told of the election. *)
Lemma register_spec w h i p s : world_ok (set_infos h i w) -> states_ w !! p = Some s -> is_handle_ s = h ->
  exists m ps, register_state p i w = Ret (with_states m w, mkInfos (info_owner_ i) (candidates_ i) ps)
    /\ world_ok (set_infos h (mkInfos (info_owner_ i) (candidates_ i) ps) (with_states m w))
    /\ same_objects (states_ w) m /\ same_owners (states_ w) m.
Proof.
  intros W Hs Hh. unfold register_state, state_at. rewrite Hs. cbn [deref mbind outcome_bind test_registered].
  destruct (registered_ s) eqn:Hr.
  - exists (states_ w), (instance_states_ i). unfold set_state.
    assert (with_ownership (owner_ s) true s = s) as -> by (clear - Hr; destruct s; cbn in *; by subst).
    rewrite insert_id by done.
    assert (with_states (states_ w) w = w) as -> by (by destruct w).
    split; [by destruct i|]. split; [by destruct i|]. split; [apply same_objects_refl|]. intros q t Hq. by exists t.
  - exists (<[p := with_ownership (owner_ s) true s]> (states_ w)), (instance_states_ i ++ [p]).
    split; [unfold set_state; cbn; by rewrite insert_insert_eq|]. split; [by apply world_ok_register|].
    split; [by apply (same_objects_insert _ _ s)|]. intros q t Hq. split_lookup q p Hq; [by exists s|by exists t].
Qed.

(** ** The elections *)

(** An election announced to the instance states it is kept for. *)
Definition elected (i : OwnershipWriterInfos) (m m' : gmap positive InstanceState) (i' : OwnershipWriterInfos) : Prop :=
  instance_states_ i' = instance_states_ i /\ told (instance_states_ i) (pub_id_ (info_owner_ i')) m m'.

(** An election announced, or without a new owner to announce. *)
Definition spread (i : OwnershipWriterInfos) (m m' : gmap positive InstanceState) (i' : OwnershipWriterInfos) : Prop :=
  elected i m m' i' \/ (pub_id_ (info_owner_ i') = pub_id_ (info_owner_ i) /\ instance_states_ i' = instance_states_ i /\ m' = m).

(** After a call every instance state an election is kept for knows its owner,
    except those that did not know it before the call and whose owner the call
    did not change. *)
Definition announced (w w' : World) : Prop :=
  forall h i' p s', infos_ w' !! h = Some i' -> p ∈ instance_states_ i' -> states_ w' !! p = Some s' ->
  owner_ s' = pub_id_ (info_owner_ i')
  \/ (owner_ s' = GUID_UNKNOWN /\ exists i s, infos_ w !! h = Some i /\ pub_id_ (info_owner_ i) = pub_id_ (info_owner_ i')
      /\ states_ w !! p = Some s /\ owner_ s = GUID_UNKNOWN).

(** The same for a call that registers no instance state. *)
Definition passed (w w' : World) : Prop :=
  forall h i' p s', infos_ w' !! h = Some i' -> p ∈ instance_states_ i' -> states_ w' !! p = Some s' ->
  owner_ s' = pub_id_ (info_owner_ i')
  \/ exists i s, infos_ w !! h = Some i /\ p ∈ instance_states_ i /\ pub_id_ (info_owner_ i) = pub_id_ (info_owner_ i')
      /\ states_ w !! p = Some s /\ owner_ s = owner_ s'.

#[export] Instance passed_preorder : PreOrder passed.
Proof.
  split.
  - intros w h i p s Hi Hp Hs. right. by exists i, s.
  - intros w1 w2 w3 P Q h i3 p s3 H1 H2 H3. destruct (Q h i3 p s3 H1 H2 H3) as [?|(i2 & s2 & A1 & A2 & A3 & A4 & A5)]; [by left|].
    destruct (P h i2 p s2 A1 A2 A4) as [?|(i1 & s1 & B1 & B2 & B3 & B4 & B5)]; [left; congruence|].
    right. exists i1, s1. split; [done|]. split; [done|]. split; [congruence|]. split; [done|congruence].
Qed.

Lemma passed_announced w w' : world_ok w' -> passed w w' -> announced w w'.
Proof.
  intros W P h i' p s' Hi Hp Hs. destruct (P h i' p s' Hi Hp Hs) as [?|(i & s & A1 & A2 & A3 & A4 & A5)]; [by left|].
  destruct (wo_listed _ W _ _ _ Hi Hp) as (s1 & H1 & _ & _ & [?|?]); simplify_eq; [|by left].
  right. split; [done|]. exists i, s. split; [done|]. split; [done|]. split; [done|congruence].
Qed.

(** Instance states of another instance are not told. *)
Lemma told_other w h i i' m h1 i1 p : world_ok (set_infos h i' (with_states m w)) -> instance_states_ i' = instance_states_ i ->
  h1 <> h -> infos_ w !! h1 = Some i1 -> p ∈ instance_states_ i1 -> p ∉ instance_states_ i.
Proof.
  intros W' Ep Hne Hi1 Hp Hp'. destruct (wo_listed _ W' h1 i1 p) as (s1 & A & B & _); [cbn; by rewrite lookup_insert_ne|done|].
  destruct (wo_listed _ W' h i' p) as (s2 & C & D & _); [cbn; by rewrite lookup_insert_eq|by rewrite Ep|]. congruence.
Qed.

Lemma spread_passed w h i m i' : world_ok (set_infos h i' (with_states m w)) -> infos_ w !! h = Some i ->
  spread i (states_ w) m i' -> passed w (set_infos h i' (with_states m w)).
Proof.
  intros W' Hi Sp h1 i1 p s' H1 Hp Hs. cbn in H1, Hs. destruct (decide (h1 = h)) as [-> |Hne].
  - rewrite lookup_insert_eq in H1. simplify_eq. destruct Sp as [[Ep T]|(Eo & Ep & ->)].
    + left. rewrite Ep in Hp. rewrite (T p), decide_True in Hs by done. by destruct (states_ w !! p); simplify_eq/=.
    + right. exists i, s'. by rewrite <- Ep.
  - rewrite lookup_insert_ne in H1 by done. right. exists i1, s'. split; [done|]. split; [done|]. split; [done|].
    destruct Sp as [[Ep T]|(Eo & Ep & ->)]; [|done]. rewrite (T p), decide_False in Hs; [done|].
    by apply (told_other w h i i' m h1 i1).
Qed.

(** A call that registers an instance state and holds an election. *)
Lemma spread_announced w h i1 m m' i' : world_ok (set_infos h i' (with_states m' w)) -> same_owners (states_ w) m ->
  elected i1 m m' i' \/ (m' = m /\ exists i, infos_ w !! h = Some i /\ pub_id_ (info_owner_ i') = pub_id_ (info_owner_ i)) ->
  announced w (set_infos h i' (with_states m' w)).
Proof.
  intros W' So Sp h1 i2 p s' H1 Hp Hs.
  destruct (wo_listed _ W' _ _ _ H1 Hp) as (s1 & Hs1 & _ & _ & [Hu|Hu]); rewrite Hs in Hs1; injection Hs1 as <-; [|by left]. cbn in H1, Hs.
  assert (m !! p = Some s' -> exists s, states_ w !! p = Some s /\ owner_ s = GUID_UNKNOWN) as Hw.
  { intros Hm. destruct (So p s' Hm) as (s & A & B). exists s. split; [done|congruence]. }
  destruct (decide (h1 = h)) as [-> |Hne].
  - rewrite lookup_insert_eq in H1. simplify_eq. destruct Sp as [[Ep T]|(-> & i & Hi & Eo)].
    + left. rewrite Ep in Hp. rewrite (T p), decide_True in Hs by done. by destruct (m !! p); simplify_eq/=.
    + right. split; [done|]. destruct (Hw Hs) as (s & ? & ?). by exists i, s.
  - rewrite lookup_insert_ne in H1 by done. right. split; [done|].
    assert (m !! p = Some s') as Hm.
    { destruct Sp as [[Ep T]|[-> _]]; [|done]. rewrite (T p), decide_False in Hs; [done|].
      by apply (told_other w h i1 i' m' h1 i2). }
    destruct (Hw Hm) as (s & ? & ?). by exists i2, s.
Qed.

Section elections.
Context `{StdSortLaws}.

Lemma NoDup_fmap_perm (l1 l2 : list OwnerInfo) : l1 ≡ₚ l2 -> NoDup (pub_id_ <$> l1) -> NoDup (pub_id_ <$> l2).
Proof. intros E H1. by rewrite <- E. Qed.

Lemma remove_owner_of_spec w h i1 cs sort :
  let i := mkInfos (info_owner_ i1) cs (instance_states_ i1) in
  world_ok (set_infos h i1 w) -> NoDup (pub_id_ <$> cs) -> Forall (fun c => pub_id_ c <> GUID_UNKNOWN) cs ->
  (sort = false -> StronglySorted descending cs) ->
  exists m i', remove_owner_of i sort w = Ret (with_states m w, i')
    /\ infos_ok i' /\ world_ok (set_infos h i' (with_states m w)) /\ known i' ≡ₚ cs
    /\ elected i1 (states_ w) m i'.
Proof.
  intros i W Hn Hk Hs. assert (infos_ (set_infos h i1 w) !! h = Some i1) as Hi by apply lookup_insert_eq.
  set (cs' := if sort then std_sort cs else cs).
  assert (cs' ≡ₚ cs) as Hp by (unfold cs'; destruct sort; [apply std_sort_perm|done]).
  assert (StronglySorted descending cs') as Hs' by (unfold cs'; destruct sort; [apply std_sort_sorted|by apply Hs]).
  set (i' := match cs' with [] => mkInfos no_owner [] (instance_states_ i1) | b :: r => mkInfos b r (instance_states_ i1) end).
  assert (infos_ok i' /\ known i' = cs') as [Hok Hkn].
  { unfold i'. destruct cs' as [|b r]; [split; [split; cbn; constructor|done]|].
    apply infos_ok_promote; [done|by eapply NoDup_fmap_perm|by rewrite Hp]. }
  assert (remove_owner_of i sort w = (w' ← broadcast_new_owner (instance_states_ i1) (pub_id_ (info_owner_ i')) w; Ret (w', i'))) as ->.
  { unfold remove_owner_of, i, i', cs'. cbn [candidates_ instance_states_].
    destruct cs as [|c cs]; [|set (l := if sort then _ else _); destruct l as [|b r] eqn:El; [|done]].
    - assert ((if sort then std_sort [] else []) = []) as ->; [|done]. destruct sort; [|done].
      apply Permutation_nil_r. apply std_sort_perm.
    - exfalso. fold cs' in l. unfold l, cs' in *. rewrite El in Hp. by apply Permutation_nil_cons in Hp. }
  destruct (broadcast_spec (instance_states_ i1) (pub_id_ (info_owner_ i')) w) as (m & -> & T).
  { intros p Hp'. destruct (wo_listed _ W _ _ _ Hi Hp') as (s & Hs1 & _). by exists s. }
  assert (instance_states_ i' = instance_states_ i1) as Ep by (unfold i'; by destruct cs').
  cbn [mbind outcome_bind]. exists m, i'. split; [done|]. split; [done|]. split; [|split; [by rewrite Hkn|by split]].
  - pose proof (world_ok_elect _ h i1 i' m W Hi Hok Ep T) as W'. unfold set_infos in W'. cbn in W'. by rewrite insert_insert_eq in W'.
Qed.

(** The candidate list of a writer that is not the owner. *)
Lemma candidates_spec i pub str : infos_ok i -> pub <> GUID_UNKNOWN -> pub_id_ (info_owner_ i) <> GUID_UNKNOWN ->
  pub_id_ (info_owner_ i) <> pub ->
  let c0 := if ownership_strength_ (info_owner_ i) <? str then candidates_ i ++ [info_owner_ i] else candidates_ i in
  let '(c1, found, sort) := update_candidate pub str c0 in
  let c2 := if (found : bool) then c1 else c1 ++ [mkOwner pub str] in
  let c3 := if (sort : bool) then std_sort c2 else c2 in
  NoDup (pub_id_ <$> c3) /\ Forall (fun c => pub_id_ c <> GUID_UNKNOWN) c3 /\ StronglySorted descending c3 /\ updated pub str c0 c3.
Proof.
  intros Hok Hpub Hu Hne c0. pose proof (io_nodup _ Hok) as Hn. unfold known in Hn. rewrite decide_False in Hn by done.
  cbn in Hn. apply NoDup_cons in Hn as [Ho Hn].
  assert (NoDup (pub_id_ <$> c0)) as Hn0.
  { unfold c0. case_match; [|done]. rewrite fmap_app. apply NoDup_app. split; [done|]. split; [|apply NoDup_singleton]. set_solver. }
  assert (Forall (fun c => pub_id_ c <> GUID_UNKNOWN) c0) as Hk0.
  { pose proof (io_known _ Hok). unfold c0. case_match; [|done]. apply Forall_app. split; [done|]. by constructor. }
  pose proof (update_candidate_spec pub str c0 Hn0) as U. destruct (update_candidate pub str c0) as [[c1 found] sort].
  destruct U as [U1 U2]. set (c2 := if found then c1 else c1 ++ [mkOwner pub str]).
  assert (NoDup (pub_id_ <$> c2) /\ updated pub str c0 c2) as [N2 Up2].
  { unfold c2. destruct found; [by destruct U1 as [-> U1]|]. destruct U1 as (U1 & -> & _).
    split; [by apply NoDup_ids_snoc|by apply updated_snoc]. }
  cbn zeta. set (c3 := if sort then std_sort c2 else c2).
  assert (c2 ≡ₚ c3) as P by (unfold c3; destruct sort; [by rewrite std_sort_perm|done]).
  assert (updated pub str c0 c3) as Up3 by (by eapply updated_perm).
  split; [by eapply NoDup_fmap_perm|]. split; [|split; [|done]].
  - apply Forall_forall. intros x [-> |[_ Hx]]%Up3; [done|]. rewrite Forall_forall in Hk0. by apply Hk0.
  - unfold c3. destruct sort; [apply std_sort_sorted|]. destruct (U2 eq_refl) as [-> Hin].
    destruct found; [|by destruct U1 as (_ & _ & ?)]. unfold c2, c0 in *.
    destruct (Z.ltb_spec (ownership_strength_ (info_owner_ i)) str) as [Hlt|_]; [|exact (io_sorted _ Hok)].
    exfalso. apply elem_of_app in Hin as [Hin|Hin]; [|apply list_elem_of_singleton in Hin; by rewrite <- Hin in Hne].
    pose proof (io_top _ Hok) as Ht. rewrite Forall_forall in Ht. specialize (Ht _ Hin). unfold descending in Ht. cbn in Ht. lia.
Qed.

(** The writers in the election for an instance; none before the first. *)
Definition known_at (w : World) (h : Z) : list OwnerInfo := if infos_ w !! h is Some i then known i else [].

(** The incumbent stays unless the other writer is stronger. *)
Definition incumbency (w : World) (h : Z) (pub : GUID) (str : Z) (i' : OwnershipWriterInfos) : Prop :=
  forall i, infos_ w !! h = Some i -> pub_id_ (info_owner_ i) <> GUID_UNKNOWN -> pub_id_ (info_owner_ i) <> pub ->
  info_owner_ i' = if ownership_strength_ (info_owner_ i) <? str then mkOwner pub str else info_owner_ i.

(** What [select_owner] does to the election [i] of an instance whose state is
    registered. *)
Definition selected (w : World) (h : Z) (pub : GUID) (str : Z) (L : list OwnerInfo) (m : gmap positive InstanceState)
    (i' : OwnershipWriterInfos) : Prop :=
  infos_ok i' /\ world_ok (set_infos h i' (with_states m w)) /\ updated pub str L (known i') /\ same_objects (states_ w) m.

Lemma select_unowned w h i pub str : world_ok (set_infos h i w) -> pub <> GUID_UNKNOWN -> candidates_ i = [] ->
  (forall c, known i = [c] -> pub_id_ c = pub) -> exists m,
  broadcast_new_owner (instance_states_ i) pub w = Ret (with_states m w)
  /\ selected w h pub str (known i) m (mkInfos (mkOwner pub str) [] (instance_states_ i))
  /\ told (instance_states_ i) pub (states_ w) m.
Proof.
  intros W Hpub Hc Hk. assert (infos_ (set_infos h i w) !! h = Some i) as Hi by apply lookup_insert_eq.
  destruct (broadcast_spec (instance_states_ i) pub w) as (m & E & T).
  { intros p Hp. destruct (wo_listed _ W _ _ _ Hi Hp) as (s & Hs & _). by exists s. }
  exists m. split; [exact E|]. split; [|exact T]. set (i' := mkInfos (mkOwner pub str) [] (instance_states_ i)).
  destruct (infos_ok_promote (mkOwner pub str) [] (instance_states_ i)) as [Hok Hkn];
    [by repeat constructor|apply NoDup_singleton|by constructor|]. fold i' in Hok, Hkn.
  split; [done|]. split; [|split; [|exact (same_objects_told _ _ _ _ T)]].
  - pose proof (world_ok_elect _ h i i' m W Hi Hok eq_refl T) as W'. unfold set_infos in W'. cbn in W'. by rewrite insert_insert_eq in W'.
  - rewrite Hkn. intros x. rewrite list_elem_of_singleton. split; [by left|]. intros [?|[Hx Hin]]; [done|].
    destruct Hx. unfold known in *. rewrite Hc in *. cbn in *. case_decide; [by apply elem_of_nil in Hin|].
    apply list_elem_of_singleton in Hin as ->. by apply Hk.
Qed.

Section registered.
Context (w : World) (h : Z) (i : OwnershipWriterInfos) (pub : GUID) (str : Z).
Context (W : world_ok (set_infos h i w)) (Hpub : pub <> GUID_UNKNOWN) (Hown : pub_id_ (info_owner_ i) <> GUID_UNKNOWN).

Lemma registered_infos : infos_ (set_infos h i w) !! h = Some i /\ infos_ok i /\ known i = info_owner_ i :: candidates_ i
  /\ (pub_id_ (info_owner_ i) ∉ (pub_id_ <$> candidates_ i)) /\ NoDup (pub_id_ <$> candidates_ i).
Proof.
  assert (infos_ (set_infos h i w) !! h = Some i) as Hi by apply lookup_insert_eq.
  destruct (wo_infos _ W h i Hi) as [Hok _]. split; [done|]. split; [done|].
  assert (known i = info_owner_ i :: candidates_ i) as E by (unfold known; by rewrite decide_False).
  split; [done|]. pose proof (io_nodup _ Hok) as Hn. rewrite E in Hn. cbn in Hn. by apply NoDup_cons in Hn.
Qed.

Lemma keep_selected i' : infos_ok i' -> instance_states_ i' = instance_states_ i ->
  pub_id_ (info_owner_ i') = pub_id_ (info_owner_ i) -> updated pub str (known i) (known i') ->
  selected w h pub str (known i) (states_ w) i'.
Proof.
  intros Hok Hp Ho Hu. destruct registered_infos as (Hi & _).
  split; [done|]. split; [|split; [done|apply same_objects_refl]].
  assert (with_states (states_ w) w = w) as -> by (by destruct w).
  pose proof (world_ok_keep _ h i i' W Hi Hok Hp Ho) as W'. unfold set_infos in W'. cbn in W'. by rewrite insert_insert_eq in W'.
Qed.

Lemma select_stronger : pub_id_ (info_owner_ i) = pub -> ownership_strength_ (info_owner_ i) <= str ->
  selected w h pub str (known i) (states_ w) (mkInfos (mkOwner pub str) (candidates_ i) (instance_states_ i)).
Proof.
  intros Ho Hs. destruct registered_infos as (Hi & Hok & Hk & Hno & Hn).
  destruct (infos_ok_promote (mkOwner pub str) (candidates_ i) (instance_states_ i)) as [Hok' Hkn].
  - constructor; [exact (io_sorted _ Hok)|]. eapply Forall_impl; [exact (io_top _ Hok)|].
    intros x. unfold descending. cbn. lia.
  - cbn. apply NoDup_cons. by rewrite <- Ho.
  - constructor; [done|exact (io_known _ Hok)].
  - apply keep_selected; [done|done|by rewrite Ho|]. rewrite Hk, Hkn. intros x. rewrite !elem_of_cons.
    split; [|naive_solver]. intros [?|Hx]; [by left|]. right. split; [|by right]. intros E. apply Hno. rewrite Ho, <- E. by apply list_elem_of_fmap_2.
Qed.

(** The candidates become the writers of the election. *)
Lemma select_reelect cs sort : NoDup (pub_id_ <$> cs) -> Forall (fun c => pub_id_ c <> GUID_UNKNOWN) cs ->
  (sort = false -> StronglySorted descending cs) -> updated pub str (known i) cs ->
  exists m i', remove_owner_of (mkInfos (info_owner_ i) cs (instance_states_ i)) sort w = Ret (with_states m w, i')
    /\ selected w h pub str (known i) m i' /\ elected i (states_ w) m i'.
Proof.
  intros Hn Hk Hs Hu. destruct (remove_owner_of_spec w h i cs sort W Hn Hk Hs) as (m & i' & E & Hok & W' & P & S).
  exists m, i'. split; [done|]. split; [|done]. split; [done|]. split; [done|]. split; [by eapply updated_perm|].
  destruct S as [_ T]. exact (same_objects_told _ _ _ _ T).
Qed.

Lemma select_weaker : pub_id_ (info_owner_ i) = pub ->
  exists m i', remove_owner_of (mkInfos (info_owner_ i) (candidates_ i ++ [mkOwner pub str]) (instance_states_ i)) true w
    = Ret (with_states m w, i') /\ selected w h pub str (known i) m i' /\ elected i (states_ w) m i'.
Proof.
  intros Ho. destruct registered_infos as (Hi & Hok & Hk & Hno & Hn). rewrite Ho in Hno.
  destruct (select_reelect (candidates_ i ++ [mkOwner pub str]) true) as (m & i' & E & S & T).
  - by apply NoDup_ids_snoc.
  - apply Forall_app. split; [exact (io_known _ Hok)|by constructor].
  - done.
  - intros x. rewrite (updated_snoc pub str _ Hno x), Hk, elem_of_cons. split; [naive_solver|].
    intros [?|[Hx [-> |Hin]]]; [by left|done|by right].
  - by exists m, i'.
Qed.

Lemma known_strength x : x ∈ known i -> ownership_strength_ x <= ownership_strength_ (info_owner_ i).
Proof.
  destruct registered_infos as (_ & Hok & Hk & _). rewrite Hk, elem_of_cons. intros [-> |Hx]; [done|].
  pose proof (io_top _ Hok) as Ht. rewrite Forall_forall in Ht. exact (Ht x Hx).
Qed.

Lemma owner_known i' : infos_ok i' -> known i' <> [] ->
  info_owner_ i' ∈ known i' /\ pub_id_ (info_owner_ i') <> GUID_UNKNOWN
  /\ forall x, x ∈ known i' -> ownership_strength_ x <= ownership_strength_ (info_owner_ i').
Proof.
  intros Hok Hne. unfold known in *. case_decide as E; [by rewrite (io_none _ Hok E) in Hne|].
  split; [by left|]. split; [done|]. intros x [-> |Hx]%elem_of_cons; [done|].
  pose proof (io_top _ Hok) as Ht. rewrite Forall_forall in Ht. exact (Ht x Hx).
Qed.

(** A writer that is not the owner, from the candidate list on. *)
Lemma select_other : pub_id_ (info_owner_ i) <> pub ->
  let c0 := if ownership_strength_ (info_owner_ i) <? str then candidates_ i ++ [info_owner_ i] else candidates_ i in
  let '(c1, found, sort) := update_candidate pub str c0 in
  let c2 := if (found : bool) then c1 else c1 ++ [mkOwner pub str] in
  let c3 := if (sort : bool) then std_sort c2 else c2 in
  let infos := mkInfos (info_owner_ i) c3 (instance_states_ i) in
  exists m i', (if ownership_strength_ (info_owner_ i) <? str then remove_owner_of infos false w else Ret (w, infos))
      = Ret (with_states m w, i')
    /\ selected w h pub str (known i) m i' /\ spread i (states_ w) m i'
    /\ info_owner_ i' = if ownership_strength_ (info_owner_ i) <? str then mkOwner pub str else info_owner_ i.
Proof.
  intros Hne c0. destruct registered_infos as (Hi & Hok & Hk & Hno & Hn).
  pose proof (candidates_spec i pub str Hok Hpub Hown Hne) as C. fold c0 in C. cbv zeta in *.
  destruct (update_candidate pub str c0) as [[c1 found] sort]. set (c3 := if sort then _ else _) in *.
  destruct C as (N3 & K3 & S3 & U3). unfold c0 in U3.
  destruct (Z.ltb_spec (ownership_strength_ (info_owner_ i)) str) as [Hlt|Hge].
  - destruct (select_reelect c3 false) as (m & i' & E & S & T); [done|done|done| |].
    { intros x. rewrite (U3 x), Hk, elem_of_app, list_elem_of_singleton, elem_of_cons. tauto. }
    exists m, i'. split; [exact E|]. split; [exact S|]. split; [by left|]. destruct S as (Hok' & _ & U & _).
    assert (mkOwner pub str ∈ known i') as Hin by (apply U; by left).
    destruct (owner_known i' Hok') as (Ho & _ & Hmax); [intros E0; by rewrite E0, elem_of_nil in Hin|].
    apply U in Ho as [Ho|[_ Ho]]; [done|]. specialize (Hmax _ Hin). pose proof (known_strength _ Ho). cbn in Hmax. lia.
  - exists (states_ w), (mkInfos (info_owner_ i) c3 (instance_states_ i)).
    assert (with_states (states_ w) w = w) as -> by (by destruct w). split; [done|]. split; [|split; [by right|done]].
    assert (pub_id_ (info_owner_ i) ∉ (pub_id_ <$> c3)) as Hno3.
    { intros (x & E & Hx)%list_elem_of_fmap. apply U3 in Hx as [-> |[_ Hx]]; [done|]. apply Hno. rewrite E. by apply list_elem_of_fmap_2. }
    assert (known (mkInfos (info_owner_ i) c3 (instance_states_ i)) = info_owner_ i :: c3) as Hkn by (unfold known; cbn; by rewrite decide_False).
    apply keep_selected; [|done|done|].
    + split; cbn; [rewrite Hkn; cbn; by apply NoDup_cons|done|done| |done].
      apply Forall_forall. intros x [-> |[_ Hx]]%U3; [exact Hge|]. apply known_strength. rewrite Hk. by right.
    + rewrite Hkn, Hk. intros x. rewrite !elem_of_cons, (U3 x). split; [|naive_solver].
      intros [-> |[?|[? ?]]]; [|by left|by right; auto]. right. auto.
Qed.

End registered.

(** [select_owner] on a consistent world. *)
Lemma select_owner_spec w h pub str p s : world_ok w -> states_ w !! p = Some s -> is_handle_ s = h -> pub <> GUID_UNKNOWN ->
  exists m i', select_owner h pub str p w = Ret (set_infos h i' (with_states m w), bool_decide (pub_id_ (info_owner_ i') = pub))
    /\ selected w h pub str (known_at w h) m i' /\ incumbency w h pub str i' /\ announced w (set_infos h i' (with_states m w)).
Proof.
  intros W Hs Hh Hpub. unfold select_owner, known_at, incumbency. destruct (infos_ w !! h) as [i|] eqn:Hi.
  - assert (set_infos h i w = w) as E0 by (unfold set_infos; rewrite insert_id by done; by destruct w).
    destruct (register_spec w h i p s) as (m & ps & -> & W1 & O1 & Q1); [by rewrite E0|done|done|].
    set (w1 := with_states m w) in *. set (i1 := mkInfos (info_owner_ i) (candidates_ i) ps) in *.
    assert (known i1 = known i) as Ek by done. cbn [mbind outcome_bind]. rewrite <- Ek.
    assert (forall m' i', selected w1 h pub str (known i1) m' i' -> selected w h pub str (known i1) m' i') as Lift.
    { intros m' i' (A & B & C & D). split; [done|]. split; [exact B|]. split; [done|]. by eapply same_objects_trans. }
    assert (forall m' i', selected w h pub str (known i1) m' i' -> spread i1 m m' i' ->
      announced w (set_infos h i' (with_states m' w))) as Tell.
    { intros m' i' (_ & B & _) Sp. apply (spread_announced w h i1 m); [done|done|].
      destruct Sp as [?|(? & _ & ->)]; [by left|right]. split; [done|]. by exists i. }
    destruct (wo_infos _ W h i Hi) as [Hok _]. destruct (decide (pub_id_ (info_owner_ i1) = GUID_UNKNOWN)) as [Hu|Hu].
    { destruct (select_unowned w1 h i1 pub str W1 Hpub (io_none _ Hok Hu)) as (m2 & E2 & S2 & T2).
      { intros c. unfold known. rewrite decide_True by done. cbn. by rewrite (io_none _ Hok Hu). }
      cbn [instance_states_] in *. rewrite E2. cbn [mbind outcome_bind]. rewrite (io_none _ Hok Hu : candidates_ i1 = []).
      exists m2, (mkInfos (mkOwner pub str) [] ps). cbn [pub_id_ info_owner_]. rewrite bool_decide_eq_true_2 by done.
      split; [done|]. split; [by apply Lift|]. split; [intros i2 ? Hx; by simplify_eq|].
      apply Tell; [by apply Lift|]. left. by split. }
    destruct (decide (pub_id_ (info_owner_ i1) = pub)) as [Ho|Ho].
    { destruct (Z.leb_spec (ownership_strength_ (info_owner_ i1)) str) as [Hle|Hgt].
      - pose proof (select_stronger w1 h i1 pub str W1 Hpub Hu Ho Hle) as S2. exists (states_ w1), (mkInfos (mkOwner pub str) (candidates_ i) ps).
        cbn [pub_id_ info_owner_]. rewrite bool_decide_eq_true_2 by done. split; [done|]. split; [by apply Lift|].
        split; [intros i2 ? ? Hx; by simplify_eq|]. apply Tell; [by apply Lift|]. right. by rewrite <- Ho.
      - destruct (select_weaker w1 h i1 pub str W1 Hpub Hu Ho) as (m2 & i2 & E2 & S2 & T2). cbv zeta. rewrite E2.
        cbn [mbind outcome_bind]. exists m2, i2. split; [done|]. split; [by apply Lift|].
        split; [intros i3 ? ? Hx; by simplify_eq|]. apply Tell; [by apply Lift|by left]. }
    pose proof (select_other w1 h i1 pub str W1 Hpub Hu Ho) as S. cbv zeta in *.
    destruct (update_candidate _ _ _) as [[c1 found] sort]. destruct S as (m2 & i2 & E2 & S2 & T2 & O2).
    rewrite E2. cbn [mbind outcome_bind]. exists m2, i2. split; [done|]. split; [by apply Lift|].
    split; [intros i3 ? ? Hx; by simplify_eq|]. apply Tell; [by apply Lift|exact T2].
  - set (i0 := mkInfos (mkOwner pub str) [] []).
    destruct (infos_ok_promote (mkOwner pub str) [] []) as [Hok0 _]; [by repeat constructor|apply NoDup_singleton|by constructor|].
    destruct (register_spec w h i0 p s) as (m & ps & -> & W1 & O1 & Q1); [by apply world_ok_first|done|done|].
    cbn [mbind outcome_bind]. set (w1 := with_states m w) in *. set (i1 := mkInfos (info_owner_ i0) (candidates_ i0) ps) in *.
    destruct (select_unowned w1 h i1 pub str W1 Hpub eq_refl) as (m2 & E2 & S2 & T2).
    { intros c. unfold known. cbn. rewrite decide_False by done. by intros [= <-]. }
    cbn [instance_states_ info_owner_ pub_id_ i1 i0] in *. rewrite E2. cbn [mbind outcome_bind]. exists m2, (mkInfos (mkOwner pub str) [] ps).
    cbn [pub_id_ info_owner_]. rewrite bool_decide_eq_true_2 by done. split; [done|]. destruct S2 as (A & B & C & D).
    split; [|split; [done|apply (spread_announced w h i1 m); [exact B|done|left; by split]]].
    split; [done|]. split; [exact B|]. split; [|by eapply same_objects_trans].
    intros x. rewrite (C x). unfold known. cbn. rewrite decide_False by done. set_solver.
Qed.

End elections.

End Ownership.
Export Ownership.
