(* ===== verification/OwnershipProps.v ===== *)
(** * Exclusive ownership: theorems

    The other operations of the manager, the simulation of sequences of calls by
    an abstract election (a table of strengths per instance), and the reader's
    filter. *)

From S2P Require Import Prelude Qos MessageBlock SequenceNumber Serializer DataSampleHeader InstanceState Ownership.

Module OwnershipProps.

(** ** Removing writers *)

Lemma erase_candidate_spec pub cs : NoDup (pub_id_ <$> cs) ->
  (forall x, x ∈ erase_candidate pub cs <-> pub_id_ x <> pub /\ x ∈ cs)
  /\ NoDup (pub_id_ <$> erase_candidate pub cs)
  /\ (StronglySorted descending cs -> StronglySorted descending (erase_candidate pub cs)).
Proof.
  induction cs as [|c cs IH]; intros Hn; cbn [erase_candidate].
  { split; [intros x; set_solver|]. split; [constructor|done]. }
  cbn in Hn. apply NoDup_cons in Hn as [Hc Hn]. destruct (IH Hn) as (I1 & I2 & I3). case_decide as E.
  - split; [|split; [done|by inversion 1]]. intros x. rewrite elem_of_cons. split; [|naive_solver].
    intros Hx. split; [|by right]. intros Ex. apply Hc. rewrite E, <- Ex. by apply list_elem_of_fmap_2.
  - split; [|split].
    + intros x. rewrite !elem_of_cons, I1. naive_solver.
    + cbn. apply NoDup_cons. split; [|done]. intros (x & Ex & Hx)%list_elem_of_fmap. apply I1 in Hx as [_ Hx].
      apply Hc. rewrite Ex. by apply list_elem_of_fmap_2.
    + inversion 1 as [|? ? Hs Hf]; subst. constructor; [by apply I3|]. apply Forall_forall. intros x [_ Hx]%I1.
      rewrite Forall_forall in Hf. by apply Hf.
Qed.

(** The writers of [l'] are those of [l] other than [pub]. *)
Definition without (pub : GUID) (l l' : list OwnerInfo) : Prop := forall x, x ∈ l' <-> pub_id_ x <> pub /\ x ∈ l.

(** The objects other than the elections and the owners told. *)
Definition frame (w w' : World) : Prop :=
  readers_ w' = readers_ w /\ accepted_ w' = accepted_ w /\ same_objects (states_ w) (states_ w').

Lemma frame_refl w : frame w w.
Proof. split; [done|]. split; [done|]. apply same_objects_refl. Qed.
Lemma frame_trans w1 w2 w3 : frame w1 w2 -> frame w2 w3 -> frame w1 w3.
Proof. intros (A & B & C) (D & E & F). split; [congruence|]. split; [congruence|]. by eapply same_objects_trans. Qed.

Section operations.
Context `{StdSortLaws}.

Lemma remove_writer_of_spec w h i pub : world_ok w -> infos_ w !! h = Some i -> pub <> GUID_UNKNOWN ->
  exists m i' b, remove_writer_of i pub w = Ret (with_states m w, i', b) /\ infos_ok i'
    /\ world_ok (set_infos h i' (with_states m w)) /\ without pub (known i) (known i') /\ same_objects (states_ w) m
    /\ (b = true <-> pub_id_ (info_owner_ i) = pub) /\ spread i (states_ w) m i'.
Proof.
  intros W Hi Hpub. destruct (wo_infos _ W h i Hi) as [Hok Hnd]. unfold remove_writer_of.
  assert (set_infos h i w = w) as E0 by (unfold set_infos; rewrite insert_id by done; by destruct w).
  case_decide as Ho.
  - assert (pub_id_ (info_owner_ i) <> GUID_UNKNOWN) as Hu by congruence.
    destruct (registered_infos w h i) as (_ & _ & Hk & Hno & Hn); [by rewrite E0|done|].
    destruct (remove_owner_of_spec w h i (candidates_ i) false) as (m & i' & E & Hok' & W' & P & S);
      [by rewrite E0|done|apply Hok|intros _; apply Hok|].
    replace (mkInfos _ _ _) with i in E by (by destruct i). rewrite E. cbn [mbind outcome_bind].
    exists m, i', true. split; [done|]. split; [done|]. split; [done|].
    split; [|split; [exact (same_objects_told _ _ _ _ (proj2 S))|split; [done|by left]]].
    intros x. rewrite P, Hk, elem_of_cons. split; [|naive_solver]. intros Hx. split; [|by right].
    intros Ex. apply Hno. rewrite Ho, <- Ex. by apply list_elem_of_fmap_2.
  - exists (states_ w), (remove_candidate i pub), false. assert (with_states (states_ w) w = w) as -> by (by destruct w).
    split; [done|].
    assert (NoDup (pub_id_ <$> candidates_ i)) as Hn.
    { pose proof (io_nodup _ Hok) as Hn. unfold known in Hn. rewrite fmap_app in Hn. by apply NoDup_app in Hn as (_ & _ & Hn). }
    destruct (erase_candidate_spec pub (candidates_ i) Hn) as (A1 & A2 & A3).
    assert (without pub (known i) (known (remove_candidate i pub))) as Hw.
    { intros x. unfold known, remove_candidate. cbn. rewrite !elem_of_app, A1. case_decide; set_solver. }
    assert (infos_ok (remove_candidate i pub)) as Hok'.
    { destruct Hok as [O1 O2 O3 O4 O5]. clear Hw. split; cbn [remove_candidate info_owner_ candidates_].
      - unfold known in *. cbn [remove_candidate info_owner_ candidates_]. case_decide; [exact A2|].
        cbn [app fmap list_fmap] in *. apply NoDup_cons in O1 as [O1 _].
        apply NoDup_cons. split; [|done]. intros (x & Ex & Hx)%list_elem_of_fmap. apply A1 in Hx as [_ Hx].
        apply O1. rewrite Ex. by apply list_elem_of_fmap_2.
      - apply Forall_forall. intros x [_ Hx]%A1. rewrite Forall_forall in O2. by apply O2.
      - by apply A3.
      - apply Forall_forall. intros x [_ Hx]%A1. rewrite Forall_forall in O4. by apply O4.
      - intros Hu. by rewrite (O5 Hu). }
    split; [done|]. split; [by apply (world_ok_keep w h i)|]. split; [done|]. split; [apply same_objects_refl|]. split; [done|by right].
Qed.

(** [remove_writer] on one instance. *)
Lemma remove_writer_spec w h pub : world_ok w -> pub <> GUID_UNKNOWN ->
  exists w' b, remove_writer h pub w = Ret (w', b) /\ world_ok w' /\ frame w w'
    /\ dom (infos_ w') = dom (infos_ w)
    /\ (forall h', if decide (h' = h) then without pub (known_at w h') (known_at w' h') else infos_ w' !! h' = infos_ w !! h')
    /\ (b = true <-> is_owner h pub w = true) /\ passed w w'.
Proof.
  intros W Hpub. unfold remove_writer, is_owner. destruct (infos_ w !! h) as [i|] eqn:Hi.
  - destruct (remove_writer_of_spec w h i pub W Hi Hpub) as (m & i' & b & -> & _ & W' & Hw & S & Hb & Sp).
    cbn [mbind outcome_bind]. eexists _, b. split; [done|]. split; [done|]. split; [by split|].
    split; [cbn; rewrite dom_insert_L; assert (h ∈ dom (infos_ w)) by (by apply elem_of_dom); set_solver|].
    split; [|split; [by rewrite bool_decide_eq_true|by apply (spread_passed w h i)]]. intros h'. unfold known_at. cbn. case_decide as E.
    + subst h'. by rewrite lookup_insert_eq, Hi.
    + by rewrite lookup_insert_ne.
  - exists w, false. split; [done|]. split; [done|]. split; [apply frame_refl|]. split; [done|]. split; [|by split].
    intros h'. case_decide as E; [|done]. subst h'. unfold known_at. rewrite Hi. intros x. set_solver.
Qed.

(** [remove_writer] on every instance. *)
Lemma remove_writer_loop_spec hs w pub : world_ok w -> pub <> GUID_UNKNOWN ->
  exists w', remove_writer_loop hs pub w = Ret w' /\ world_ok w' /\ frame w w' /\ dom (infos_ w') = dom (infos_ w)
    /\ (forall h, if decide (h ∈ hs) then without pub (known_at w h) (known_at w' h) else infos_ w' !! h = infos_ w !! h)
    /\ passed w w'.
Proof.
  intros W Hpub. revert w W. induction hs as [|h0 hs IH]; intros w W; cbn [remove_writer_loop].
  { exists w. split; [done|]. split; [done|]. split; [apply frame_refl|]. split; [done|]. split; [|done]. intros h. by rewrite decide_False by set_solver. }
  destruct (remove_writer_spec w h0 pub W Hpub) as (w1 & b & -> & W1 & F1 & D1 & K1 & _ & P1). cbn [mbind outcome_bind].
  destruct (IH w1 W1) as (w2 & E2 & W2 & F2 & D2 & K2 & P2). exists w2. split; [done|]. split; [done|].
  split; [by eapply frame_trans|]. split; [congruence|]. split; [|by transitivity w1]. intros h. specialize (K1 h). specialize (K2 h).
  destruct (decide (h = h0)) as [-> |Hne].
  - rewrite (decide_True _ _ (list_elem_of_here h0 hs)). case_decide.
    + intros x. rewrite (K2 x), (K1 x). tauto.
    + intros x. unfold known_at in *. rewrite K2. apply K1.
  - assert (known_at w1 h = known_at w h) as Ek by (unfold known_at; by rewrite K1).
    destruct (decide (h ∈ hs)) as [Hin|Hin].
    + rewrite decide_True by (by right). by rewrite <- Ek.
    + rewrite decide_False by (by intros [?|?]%elem_of_cons). congruence.
Qed.

(** [remove_owner]: the owner leaves the election. *)
Lemma remove_owner_spec w h i : world_ok w -> infos_ w !! h = Some i ->
  exists m i', remove_owner h w = Ret (set_infos h i' (with_states m w)) /\ world_ok (set_infos h i' (with_states m w))
    /\ without (pub_id_ (info_owner_ i)) (known i) (known i') /\ passed w (set_infos h i' (with_states m w)).
Proof.
  intros W Hi. destruct (wo_infos _ W h i Hi) as [Hok Hnd]. unfold remove_owner. rewrite Hi. cbn [deref mbind outcome_bind].
  assert (set_infos h i w = w) as E0 by (unfold set_infos; rewrite insert_id by done; by destruct w).
  pose proof (io_nodup _ Hok) as Hn. unfold known in Hn. rewrite fmap_app in Hn. apply NoDup_app in Hn as (_ & Hd & Hn).
  destruct (remove_owner_of_spec w h i (candidates_ i) false) as (m & i' & E & Hok' & W' & P & S);
    [by rewrite E0|done|apply Hok|intros _; apply Hok|].
  replace (mkInfos _ _ _) with i in E by (by destruct i). rewrite E. cbn [mbind outcome_bind].
  exists m, i'. split; [done|]. split; [done|]. split; [|apply (spread_passed w h i); [done|done|by left]].
  intros x. rewrite P. unfold known. case_decide as Eu; cbn [app] in *.
  - rewrite Eu. split; [|by intros [_ ?]]. intros Hx. split; [|done]. pose proof (io_known _ Hok) as Hk.
    rewrite Forall_forall in Hk. by apply Hk.
  - rewrite elem_of_cons. split; [|naive_solver]. intros Hx. split; [|by right]. intros Ex.
    apply (Hd (pub_id_ (info_owner_ i))); [set_solver|]. rewrite <- Ex. by apply list_elem_of_fmap_2.
Qed.

(** The reset of the instance states of an election. *)
Lemma reset_all_spec h ps w : (forall p, p ∈ ps -> exists s, states_ w !! p = Some s /\ is_Some (readers_ w !! reader_ s)) ->
  exists m rs, reset_all h ps w = Ret (mkW m (accepted_ w) rs (infos_ w))
    /\ (forall q, m !! q = if decide (q ∈ ps) then with_ownership GUID_UNKNOWN false <$> states_ w !! q else states_ w !! q)
    /\ (forall k, is_Some (readers_ w !! k) -> is_Some (rs !! k)).
Proof.
  revert w. induction ps as [|p ps IH]; intros w Hp; cbn [reset_all].
  { exists (states_ w), (readers_ w). split; [by destruct w|]. split; [|done]. intros q. by rewrite decide_False by set_solver. }
  destruct (Hp p) as (s & Hs & r & Hr); [by left|]. unfold reset_ownership, state_at. rewrite Hs.
  cbn [deref mbind outcome_bind]. cbn [set_state with_states readers_]. rewrite Hr. cbn [deref mbind outcome_bind].
  set (w1 := with_readers _ _). destruct (IH w1) as (m & rs & E & Hm & Hrs).
  { intros q Hq. destruct (Hp q) as (s1 & H1 & H2); [by right|]. unfold w1. cbn.
    assert (forall k, is_Some (readers_ w !! k) -> is_Some (<[reader_ s:=reader_reset_ownership h r]> (readers_ w) !! k)) as Hk
      by (intros k; rewrite lookup_insert_is_Some; destruct (decide (reader_ s = k)); auto).
    destruct (decide (q = p)) as [-> |Hne].
    - rewrite lookup_insert_eq. eexists. split; [done|]. cbn. apply Hk. congruence.
    - rewrite lookup_insert_ne by done. exists s1. auto. }
  exists m, rs. split; [exact E|]. split.
  - intros q. rewrite (Hm q). unfold w1. cbn. destruct (decide (q = p)) as [-> |Hne].
    + rewrite lookup_insert_eq, (decide_True _ _ (list_elem_of_here p ps)), Hs. by case_decide.
    + rewrite lookup_insert_ne by done. destruct (decide (q ∈ ps)).
      * by rewrite decide_True by (by right).
      * rewrite decide_False; [done|]. by intros [?|?]%elem_of_cons.
  - intros k Hk. apply Hrs. unfold w1. cbn. apply lookup_insert_is_Some. destruct (decide (reader_ s = k)); auto.
Qed.

Lemma remove_writers_spec w h : world_ok w ->
  exists w', remove_writers h w = Ret w' /\ world_ok w' /\ infos_ w' = delete h (infos_ w) /\ passed w w'.
Proof.
  intros W. unfold remove_writers. destruct (infos_ w !! h) as [i|] eqn:Hi.
  2:{ exists w. split; [done|]. split; [done|]. split; [by rewrite delete_id|done]. }
  destruct (reset_all_spec h (instance_states_ i) w) as (m & rs & E & Hm & Hrs).
  { intros p Hp. destruct (wo_listed _ W _ _ _ Hi Hp) as (s & Hs & _). exists s. split; [done|]. exact (wo_readers _ W _ _ Hs). }
  rewrite E. cbn [mbind outcome_bind]. eexists. split; [done|]. cbn.
  assert (forall q s', m !! q = Some s' -> exists s, states_ w !! q = Some s /\
    s' = if decide (q ∈ instance_states_ i) then with_ownership GUID_UNKNOWN false s else s) as Hm'.
  { intros q s'. rewrite (Hm q). case_decide; [|naive_solver]. destruct (states_ w !! q); naive_solver. }
  assert (forall h1 i1 q, delete h (infos_ w) !! h1 = Some i1 -> q ∈ instance_states_ i1 -> q ∉ instance_states_ i) as Hoff.
  { intros h1 i1 q [Hne H1]%lookup_delete_Some Hq Hq'. destruct (wo_listed _ W _ _ _ H1 Hq) as (s & Hs & Hh & _).
    destruct (wo_listed _ W _ _ _ Hi Hq') as (s' & ? & ? & _). congruence. }
  split; [|split; [done|]].
  2:{ intros h1 i1 q s' H1 Hq Hs. cbn in H1, Hs. right. rewrite (Hm q), (decide_False _ _ (Hoff _ _ _ H1 Hq)) in Hs.
      apply lookup_delete_Some in H1 as [_ H1]. by exists i1, s'. }
  split; cbn.
  - intros h1 i1 [_ H1]%lookup_delete_Some. exact (wo_infos _ W _ _ H1).
  - intros h1 i1 p [Hne H1]%lookup_delete_Some Hp. destruct (wo_listed _ W _ _ _ H1 Hp) as (s & Hs & Hh & Hr & Ho).
    exists s. rewrite (Hm p), decide_False; [done|]. apply (Hoff h1 i1); [by apply lookup_delete_Some|done].
  - intros p s' Hs' Hr. destruct (Hm' p s' Hs') as (s & Hs & ->). case_decide as Hp; [done|].
    destruct (wo_registered _ W p s Hs Hr) as (i1 & H1 & H2). exists i1. split; [|done]. apply lookup_delete_Some.
    split; [|done]. intros ->. by simplify_eq.
  - intros p s' Hs' Hr. destruct (Hm' p s' Hs') as (s & Hs & ->). case_decide as Hp; [done|]. exact (wo_unregistered _ W _ _ Hs Hr).
  - intros p s' Hs'. destruct (Hm' p s' Hs') as (s & Hs & ->). apply Hrs. pose proof (wo_readers _ W _ _ Hs). by case_decide.
Qed.

Lemma erase_state_spec p ps : NoDup ps -> NoDup (erase_state p ps) /\ forall q, q ∈ erase_state p ps <-> q <> p /\ q ∈ ps.
Proof.
  induction ps as [|a ps IH]; intros Hn; cbn [erase_state]; [split; [done|set_solver]|].
  apply NoDup_cons in Hn as [Ha Hn]. destruct (IH Hn) as [I1 I2]. case_decide as E; [subst a; split; [done|set_solver]|].
  split; [|set_solver]. apply NoDup_cons. split; [|done]. by intros [_ ?]%I2.
Qed.

(** Destruction takes the instance state out of its election. *)
Lemma destroy_spec w p : world_ok w -> is_Some (states_ w !! p) ->
  exists w', destroy_instance p w = Ret w' /\ world_ok w' /\ states_ w' = delete p (states_ w)
    /\ (forall h, known_at w' h = known_at w h) /\ dom (infos_ w') = dom (infos_ w) /\ passed w w'.
Proof.
  intros W [s Hs]. unfold destroy_instance, remove_instance, state_at. rewrite Hs. cbn [deref mbind outcome_bind].
  set (erase := fun i : OwnershipWriterInfos => mkInfos (info_owner_ i) (candidates_ i) (erase_state p (instance_states_ i))).
  set (I := if registered_ s then alter erase (is_handle_ s) (infos_ w) else infos_ w).
  exists (mkW (delete p (states_ w)) (accepted_ w) (readers_ w) I).
  assert (forall h i', I !! h = Some i' -> exists i, infos_ w !! h = Some i /\ info_owner_ i' = info_owner_ i
    /\ candidates_ i' = candidates_ i /\ NoDup (instance_states_ i') /\ forall q, q ∈ instance_states_ i' <-> q <> p /\ q ∈ instance_states_ i) as HI.
  { intros h i' H1. assert (forall i, infos_ w !! h = Some i -> p ∈ instance_states_ i -> registered_ s = true /\ h = is_handle_ s) as Hp.
    { intros i Hi Hp. destruct (wo_listed _ W _ _ _ Hi Hp) as (s1 & ? & ? & ? & _). by simplify_eq. }
    assert (forall i, infos_ w !! h = Some i -> NoDup (instance_states_ i)) as Hnd by (intros i Hi; apply (wo_infos _ W _ _ Hi)).
    unfold I in H1. destruct (registered_ s).
    - apply lookup_alter_Some in H1 as [(Eh & i & Hi & ->)|[Hne Hi]]; [subst h|].
      + exists i. destruct (erase_state_spec p _ (Hnd i Hi)) as [? ?]. done.
      + exists i'. split; [done|]. split; [done|]. split; [done|]. split; [by apply Hnd|]. intros q. split; [|naive_solver].
        intros Hq. split; [|done]. intros ->. destruct (Hp _ Hi Hq). congruence.
    - exists i'. split; [done|]. split; [done|]. split; [done|]. split; [by apply Hnd|]. intros q. split; [|naive_solver].
      intros Hq. split; [|done]. intros ->. by destruct (Hp _ H1 Hq). }
  assert (dom I = dom (infos_ w)) as HD by (unfold I; destruct (registered_ s); [apply dom_alter_L|done]).
  split; [|split; [|split; [done|split; [|split; [exact HD|]]]]].
  4:{ intros h i' q t H1 Hq Ht. cbn in Ht. apply lookup_delete_Some in Ht as [_ Ht]. right. destruct (HI h i' H1) as (i & Hi & Eo & _ & _ & Hm).
      exists i, t. split; [done|]. split; [by apply Hm|]. by rewrite Eo. }
  - unfold I. destruct (registered_ s) eqn:Hr; [|by destruct w]. cbn [mbind outcome_bind].
    destruct (wo_registered _ W p s Hs Hr) as (i & Hi & _). rewrite Hi. unfold set_infos, with_states. cbn.
    do 2 f_equal. apply map_eq. intros h. destruct (decide (h = is_handle_ s)) as [-> |Hne].
    + by rewrite lookup_insert_eq, lookup_alter_eq, Hi.
    + by rewrite lookup_insert_ne, lookup_alter_ne.
  - split; cbn.
    + intros h i' H1. destruct (HI h i' H1) as (i & Hi & E1 & E2 & Hn & _). destruct (wo_infos _ W _ _ Hi) as [Hok _].
      split; [|done]. destruct i' as [o c ps]. cbn in E1, E2. subst. by apply infos_ok_states.
    + intros h i' q H1 Hq. destruct (HI h i' H1) as (i & Hi & -> & _ & _ & Hm).
      destruct (proj1 (Hm q) Hq) as [Hne Hq']. rewrite lookup_delete_ne by done. exact (wo_listed _ W _ _ _ Hi Hq').
    + intros q t [Hne Ht]%lookup_delete_Some Hr. destruct (wo_registered _ W q t Ht Hr) as (i & Hi & Hq).
      assert (is_Some (I !! is_handle_ t)) as [i' Hi'].
      { apply elem_of_dom. rewrite HD. apply elem_of_dom. by exists i. }
      exists i'. split; [done|]. destruct (HI _ _ Hi') as (i2 & Hi2 & _ & _ & _ & Hm). simplify_eq. by apply Hm.
    + intros q t [_ Ht]%lookup_delete_Some. exact (wo_unregistered _ W q t Ht).
    + intros q t [_ Ht]%lookup_delete_Some. exact (wo_readers _ W q t Ht).
  - intros h. unfold known_at. cbn. destruct (I !! h) as [i'|] eqn:H1.
    + destruct (HI h i' H1) as (i & -> & E1 & E2 & _). unfold known. by rewrite E1, E2.
    + apply not_elem_of_dom in H1. rewrite HD in H1. apply not_elem_of_dom in H1. by rewrite H1.
Qed.

(** A new instance state registers with its first sample. *)
Lemma create_spec w p reader h exclusive : world_ok w -> states_ w !! p = None -> is_Some (readers_ w !! reader) ->
  let w' := with_states (<[p := new_instance_state reader h exclusive]> (states_ w)) w in world_ok w' /\ passed w w'.
Proof.
  intros W Hp Hr. split; [|intros h1 i q t H1 Hq Ht; right; exists i, t; cbn in H1, Ht; split_lookup q p Ht; [|done]];
    [|by destruct (wo_listed _ W _ _ _ H1 Hq) as (s & ? & _); simplify_eq]. split; cbn.
  - exact (wo_infos _ W).
  - intros h1 i q H1 Hq. destruct (wo_listed _ W _ _ _ H1 Hq) as (s & Hs & ?). exists s.
    by rewrite lookup_insert_ne by congruence.
  - intros q s H1 H2. split_lookup q p H1. exact (wo_registered _ W q s H1 H2).
  - intros q s H1 H2. split_lookup q p H1; [done|]. exact (wo_unregistered _ W q s H1 H2).
  - intros q s H1. split_lookup q p H1; [done|]. exact (wo_readers _ W q s H1).
Qed.

End operations.

(** ** The abstract elections *)

(** The strengths of the writers of an instance. *)
Definition strengths (l : list OwnerInfo) : gmap GUID Z :=
  list_to_map ((fun x => (pub_id_ x, ownership_strength_ x)) <$> l).
Definition election (w : World) : gmap Z (gmap GUID Z) := (fun i => strengths (known i)) <$> infos_ w.

Lemma strengths_lookup l g s : NoDup (pub_id_ <$> l) -> strengths l !! g = Some s <-> mkOwner g s ∈ l.
Proof.
  intros Hn. unfold strengths. rewrite <- elem_of_list_to_map.
  2:{ by rewrite <- list_fmap_compose. }
  rewrite list_elem_of_fmap. split; [|intros H; by exists (mkOwner g s)].
  intros (x & [= -> ->] & Hx). by destruct x.
Qed.

Lemma strengths_updated pub str l l' : NoDup (pub_id_ <$> l) -> NoDup (pub_id_ <$> l') -> updated pub str l l' ->
  strengths l' = <[pub := str]> (strengths l).
Proof.
  intros N N' U. apply map_eq. intros g. apply option_eq. intros s. rewrite strengths_lookup, (U _) by done.
  destruct (decide (g = pub)) as [-> |Hne].
  - rewrite lookup_insert_eq. cbn. naive_solver.
  - rewrite lookup_insert_ne, strengths_lookup by done. cbn. naive_solver.
Qed.

Lemma strengths_without pub l l' : NoDup (pub_id_ <$> l) -> NoDup (pub_id_ <$> l') -> without pub l l' ->
  strengths l' = delete pub (strengths l).
Proof.
  intros N N' U. apply map_eq. intros g. apply option_eq. intros s.
  rewrite strengths_lookup, (U _), lookup_delete_Some, strengths_lookup by done. cbn. naive_solver.
Qed.

Lemma known_nodup w h : world_ok w -> NoDup (pub_id_ <$> known_at w h).
Proof.
  intros W. unfold known_at. destruct (infos_ w !! h) as [i|] eqn:Hi; [|constructor].
  destruct (wo_infos _ W _ _ Hi) as [Hok _]. exact (io_nodup _ Hok).
Qed.

Lemma election_lookup w h : election w !! h = if infos_ w !! h is Some i then Some (strengths (known i)) else None.
Proof. unfold election. rewrite lookup_fmap. by destruct (infos_ w !! h). Qed.

Lemma lookup_same_dom {A} (m m' : gmap Z A) h : dom m' = dom m ->
  (exists x y, m' !! h = Some x /\ m !! h = Some y) \/ (m' !! h = None /\ m !! h = None).
Proof.
  intros D. destruct (m !! h) as [y|] eqn:Ey.
  - assert (h ∈ dom m') as [x Hx]%elem_of_dom by (rewrite D; apply elem_of_dom; by eexists). left. eauto.
  - right. split; [|done]. apply not_elem_of_dom. rewrite D. by apply not_elem_of_dom.
Qed.

(** Calls on the manager and the life of instance states. *)
Inductive op :=
| Select (h : Z) (pub : GUID) (str : Z) (p : positive)
| Withdraw (h : Z) (pub : GUID)
| WithdrawAll (pub : GUID)
| Purge (h : Z)
| Depose (h : Z) (owner : GUID)
| Create (p reader : positive) (h : Z) (exclusive : bool)
| Destroy (p : positive).

Definition run_op `{StdSort} (o : op) (w : World) : outcome World :=
  match o with
  | Select h pub str p => '(w, _) ← select_owner h pub str p w; Ret w
  | Withdraw h pub => '(w, _) ← remove_writer h pub w; Ret w
  | WithdrawAll pub => remove_writer_everywhere pub w
  | Purge h => remove_writers h w
  | Depose h _ => remove_owner h w
  | Create p reader h exclusive => Ret (with_states (<[p := new_instance_state reader h exclusive]> (states_ w)) w)
  | Destroy p => destroy_instance p w
  end.

(** The callers pass writers that exist and live instance states of the
    instance they name; [remove_owner] takes an instance with an election, and
    the step names the owner it has. *)
Definition enabled (o : op) (w : World) : Prop :=
  match o with
  | Select h pub _ p => pub <> GUID_UNKNOWN /\ exists s, states_ w !! p = Some s /\ is_handle_ s = h
  | Withdraw _ pub | WithdrawAll pub => pub <> GUID_UNKNOWN
  | Purge _ => True
  | Depose h owner => exists i, infos_ w !! h = Some i /\ pub_id_ (info_owner_ i) = owner
  | Create p reader _ _ => states_ w !! p = None /\ is_Some (readers_ w !! reader)
  | Destroy p => is_Some (states_ w !! p)
  end.

Definition abstract_op (a : gmap Z (gmap GUID Z)) (o : op) : gmap Z (gmap GUID Z) :=
  match o with
  | Select h pub str _ => <[h := <[pub := str]> (default ∅ (a !! h))]> a
  | Withdraw h pub | Depose h pub => alter (delete pub) h a
  | WithdrawAll pub => delete pub <$> a
  | Purge h => delete h a
  | Create _ _ _ _ | Destroy _ => a
  end.

Section simulation.
Context `{StdSortLaws}.

Lemma run_op_refines o w : world_ok w -> enabled o w ->
  exists w', run_op o w = Ret w' /\ world_ok w' /\ election w' = abstract_op (election w) o /\ announced w w'.
Proof.
  intros W. destruct o as [h pub str p|h pub|pub|h|h own|p reader h exclusive|p]; cbn [run_op enabled abstract_op].
  - intros (Hpub & s & Hs & Hh). destruct (select_owner_spec w h pub str p s W Hs Hh Hpub) as (m & i' & -> & (Hok & W' & U & _) & _ & A').
    cbn [mbind outcome_bind]. eexists. split; [done|]. split; [done|]. split; [|exact A']. unfold election. cbn. rewrite fmap_insert. f_equal.
    rewrite (strengths_updated pub str (known_at w h)) by (done || apply known_nodup || apply Hok; done).
    rewrite lookup_fmap. unfold known_at. by destruct (infos_ w !! h).
  - intros Hpub. destruct (remove_writer_spec w h pub W Hpub) as (w' & b & -> & W' & _ & D & K & _ & P').
    cbn [mbind outcome_bind]. exists w'. split; [done|]. split; [done|]. split; [|by apply passed_announced]. apply map_eq. intros h'. specialize (K h').
    pose proof (known_nodup w h' W). pose proof (known_nodup w' h' W'). case_decide as E.
    + subst h'. rewrite lookup_alter_eq, !election_lookup. unfold known_at in *.
      destruct (lookup_same_dom _ _ h D) as [(i' & i & E1 & E2)|[E1 E2]]; rewrite E1, E2 in *; [|done].
      cbn. f_equal. by apply strengths_without.
    + rewrite lookup_alter_ne by done. by rewrite !election_lookup, K.
  - intros Hpub. unfold remove_writer_everywhere. set (hs := merge_sort _ _).
    destruct (remove_writer_loop_spec hs w pub W Hpub) as (w' & E & W' & _ & D & K & P'). exists w'. split; [done|]. split; [done|].
    split; [|by apply passed_announced]. apply map_eq. intros h. specialize (K h). pose proof (known_nodup w h W). pose proof (known_nodup w' h W').
    rewrite lookup_fmap, !election_lookup. unfold known_at in *.
    assert (h ∈ hs <-> is_Some (infos_ w !! h)) as Hh.
    { unfold hs. rewrite merge_sort_Permutation, elem_of_elements. apply elem_of_dom. }
    destruct (lookup_same_dom _ _ h D) as [(i' & i & E1 & E2)|[E1 E2]]; rewrite E1, E2 in *; [|done].
    rewrite decide_True in K by (apply Hh; by eexists). cbn. f_equal. by apply strengths_without.
  - intros _. destruct (remove_writers_spec w h W) as (w' & E & W' & EI & P'). exists w'. split; [done|]. split; [done|].
    split; [|by apply passed_announced]. unfold election. by rewrite EI, fmap_delete.
  - intros (i & Hi & <-). destruct (remove_owner_spec w h i W Hi) as (m & i' & E & W' & U & P').
    eexists. split; [exact E|]. split; [done|]. split; [|by apply passed_announced].
    pose proof (known_nodup w h W) as N1. unfold known_at in N1. rewrite Hi in N1.
    destruct (wo_infos _ W' h i') as [Hok' _]; [apply lookup_insert_eq|]. apply map_eq. intros h'.
    rewrite election_lookup. cbn. destruct (decide (h' = h)) as [-> |Hne].
    + rewrite lookup_insert_eq, lookup_alter_eq, election_lookup, Hi. cbn. f_equal.
      apply strengths_without; [done|apply Hok'|done].
    + by rewrite lookup_insert_ne, lookup_alter_ne, election_lookup.
  - intros [Hp Hr]. eexists. split; [done|]. destruct (create_spec w p reader h exclusive W Hp Hr). split; [done|]. split; [done|by apply passed_announced].
  - intros Hp. destruct (destroy_spec w p W Hp) as (w' & E & W' & _ & K & D & P'). exists w'. split; [done|]. split; [done|].
    split; [|by apply passed_announced]. apply map_eq. intros h. rewrite !election_lookup. specialize (K h). unfold known_at in K.
    destruct (lookup_same_dom _ _ h D) as [(i' & i & E1 & E2)|[E1 E2]]; rewrite E1, E2 in *; [by rewrite K|done].
Qed.

(** The owner an election announces: nobody without writers, else one of the
    strongest. *)
Definition leader (i : OwnershipWriterInfos) (m : gmap GUID Z) : Prop :=
  if decide (m = ∅) then pub_id_ (info_owner_ i) = GUID_UNKNOWN
  else m !! pub_id_ (info_owner_ i) = Some (ownership_strength_ (info_owner_ i))
       /\ forall g s, m !! g = Some s -> s <= ownership_strength_ (info_owner_ i).

Lemma leader_ok i : infos_ok i -> leader i (strengths (known i)).
Proof.
  intros Hok. unfold leader. pose proof (io_nodup _ Hok) as Hn. case_decide as E.
  - destruct (decide (pub_id_ (info_owner_ i) = GUID_UNKNOWN)) as [|Hu]; [done|].
    assert (strengths (known i) !! pub_id_ (info_owner_ i) = Some (ownership_strength_ (info_owner_ i))) as Hl.
    { apply strengths_lookup; [done|]. unfold known. rewrite decide_False by done. by destruct (info_owner_ i); left. }
    by rewrite E in Hl.
  - destruct (owner_known i Hok) as (Ho & _ & Hmax); [by intros E1; rewrite E1 in E|]. split.
    + apply strengths_lookup; [done|]. by destruct (info_owner_ i).
    + intros g s Hg. apply strengths_lookup in Hg; [|done]. exact (Hmax _ Hg).
Qed.

Fixpoint run_ops (os : list op) (w : World) : outcome World :=
  match os with [] => Ret w | o :: os => w ← run_op o w; run_ops os w end.

Fixpoint allowed (os : list op) (w : World) : Prop :=
  match os with
  | [] => True
  | o :: os => enabled o w /\ forall w', run_op o w = Ret w' -> allowed os w'
  end.

Lemma run_ops_refines os w : world_ok w -> allowed os w ->
  exists w', run_ops os w = Ret w' /\ world_ok w' /\ election w' = foldl abstract_op (election w) os.
Proof.
  revert w. induction os as [|o os IH]; intros w W Ha; [by exists w|]. destruct Ha as [He Ha].
  destruct (run_op_refines o w W He) as (w1 & E & W1 & A1 & _). cbn [run_ops foldl]. rewrite E. cbn [mbind outcome_bind].
  destruct (IH w1 W1 (Ha w1 E)) as (w2 & E2 & W2 & A2). exists w2. by rewrite A2, A1.
Qed.

(** C31: any sequence of calls on the ownership manager and creations and
    destructions of instance states, with live arguments, runs without undefined
    behaviour and keeps exactly the strengths an abstract table of elections
    keeps; every instance is announced as owned by one of its strongest writers,
    or by nobody when it has none.  The next call leaves every registered
    instance state of an instance told of its owner, except one that did not
    know it before, for an owner the call did not change.  A call of
    [select_owner] answers whether the writer is now the owner, and the previous
    owner keeps the instance unless the other writer is strictly stronger, who
    then gets it. *)
Theorem elections_refine (os : list op) (w : World) :
  world_ok w -> allowed os w ->
  exists w', run_ops os w = Ret w' /\ world_ok w' /\ election w' = foldl abstract_op (election w) os
    /\ (forall h i, infos_ w' !! h = Some i -> leader i (strengths (known i)))
    /\ (forall o, enabled o w' -> exists w'', run_op o w' = Ret w'' /\ announced w' w'')
    /\ (forall h pub str p, enabled (Select h pub str p) w' ->
        exists w'' i', select_owner h pub str p w' = Ret (w'', is_owner h pub w'')
          /\ infos_ w'' !! h = Some i' /\ incumbency w' h pub str i').
Proof.
  intros W Ha. destruct (run_ops_refines os w W Ha) as (w' & E & W' & A). exists w'. split; [done|]. split; [done|].
  split; [done|]. split; [intros h i Hi; apply leader_ok, (wo_infos _ W' h i Hi)|].
  split; [intros o Ho; destruct (run_op_refines o w' W' Ho) as (w'' & ? & _ & _ & ?); by exists w''|].
  intros h pub str p (Hpub & s & Hs & Hh).
  destruct (select_owner_spec w' h pub str p s W' Hs Hh Hpub) as (m & i' & E1 & _ & I1 & _).
  exists (set_infos h i' (with_states m w')), i'. unfold is_owner. cbn [set_infos with_infos infos_].
  rewrite lookup_insert_eq. done.
Qed.

End simulation.

(** ** The reader's filter *)

Lemma world_ok_readers w rs : world_ok w -> (forall k, is_Some (readers_ w !! k) -> is_Some (rs !! k)) -> world_ok (with_readers rs w).
Proof. intros [A B C D E] Hr. split; cbn; try done. intros p s Hs. apply Hr. by apply (E p). Qed.

(** The writers a reader is associated with are filed under their ids. *)
Definition reader_ok (r : Reader) : Prop :=
  forall k i, rd_writers_ r !! k = Some i -> rw_writer_id_ i = k /\ k <> GUID_UNKNOWN.

(** The minimum separation is a duration, and the clock neither went back since
    the last accepted sample nor is it 68 years later. *)
Definition timely (r : Reader) (now last : Z) : Prop :=
  dur_ok (minimum_separation_ r) /\ last <= now < last + 2 ^ 31 * 1000000.

(** The microseconds that passed, in nanoseconds, against the separation; the
    infinite one is above every other. *)
Definition separated (r : Reader) (now last : Z) : Prop := dur_value (minimum_separation_ r) <= (now - last) * 1000.

Lemma time_value_to_duration_spec t : 0 <= t < 2 ^ 31 * 1000000 ->
  dur_ok (time_value_to_duration t) /\ dur_value (time_value_to_duration t) = t * 1000.
Proof.
  intros Ht. unfold time_value_to_duration. rewrite Z.quot_div_nonneg, Z.rem_mod_nonneg by lia.
  pose proof (Z.div_mod t 1000000 ltac:(lia)) as Ed. pose proof (Z.mod_pos_bound t 1000000 ltac:(lia)) as Hm.
  assert (0 <= t / 1000000 < 2 ^ 31) as Hd by (split; [apply Z.div_pos; lia|apply Z.div_lt_upper_bound; lia]).
  rewrite Z.min_r, Z.max_r by lia. rewrite uwrap_small by (unfold is_u; lia).
  set (d := mkDur (t / 1000000) (t mod 1000000 * 1000)). assert (dur_ok d) as Hok.
  { split; cbn; [unfold is_s; lia|left; lia]. }
  split; [done|]. destruct (dur_value_bound d Hok) as (-> & _); [|cbn; lia].
  intros E. injection E as _ E. unfold DURATION_INFINITE_NSEC in E. lia.
Qed.

(** The test of the code is the comparison of the two times. *)
Lemma too_soon_spec r now last : timely r now last ->
  dur_gt (minimum_separation_ r) (mkDur 0 0) && dur_lt (time_value_to_duration (now - last)) (minimum_separation_ r) = false
  <-> separated r now last.
Proof.
  intros [Hok Ht]. destruct (time_value_to_duration_spec (now - last)) as [Hd Hv]; [lia|].
  unfold dur_gt, separated. rewrite !dur_lt_spec, Hv by (done || (split; cbn; [unfold is_s; lia|left; lia])).
  change (dur_value (mkDur 0 0)) with 0. rewrite andb_false_iff, !Z.ltb_ge. lia.
Qed.

(** The objects of the instance after the ownership test. *)
Definition still (w w' : World) (p : positive) (s : InstanceState) (r : Reader) : Prop :=
  accepted_ w' = accepted_ w /\ exists s' r', states_ w' !! p = Some s' /\ reader_ s' = reader_ s /\ is_handle_ s' = is_handle_ s
    /\ readers_ w' !! reader_ s = Some r' /\ minimum_separation_ r' = minimum_separation_ r.

Section filtering.
Context `{StdSortLaws}.

Definition put_writer (pub : GUID) (i : ReaderWriter) (r : Reader) : Reader :=
  mkReader (is_exclusive_ownership_ r) (minimum_separation_ r) (<[pub := i]> (rd_writers_ r)).
Definition file_writer (k : positive) (pub : GUID) (i : ReaderWriter) (r : Reader) (w : World) : World :=
  with_readers (<[k := put_writer pub i r]> (readers_ w)) w.

Lemma world_ok_file k pub i r w : world_ok w -> readers_ w !! k = Some r -> world_ok (file_writer k pub i r w).
Proof.
  intros W Hr. apply world_ok_readers; [done|]. intros k'. rewrite lookup_insert_is_Some. destruct (decide (k = k')); auto.
Qed.

(** The evaluation of a writer and its flag. *)
Lemma evaluate_spec w r p s pub info r1 w1 : pub <> GUID_UNKNOWN -> world_ok w1 -> states_ w1 !! p = Some s ->
  readers_ w1 !! reader_ s = Some r1 -> accepted_ w1 = accepted_ w -> minimum_separation_ r1 = minimum_separation_ r ->
  exists w' b,
    ('(w, owner) ← select_owner (is_handle_ s) pub (rw_strength_ info) p w1;
     w ← (r ← deref (readers_ w !! reader_ s);
          Ret (file_writer (reader_ s) pub (set_owner_evaluated (is_handle_ s) true info) r w)); Ret (w, negb owner))
      = Ret (w', b) /\ world_ok w' /\ still w w' p s r
    /\ (b = false <-> is_Some (Some info) /\ is_owner (is_handle_ s) pub w' = true).
Proof.
  intros Hpub W1 H1 H2 H3 H4.
  destruct (select_owner_spec w1 (is_handle_ s) pub (rw_strength_ info) p s W1 H1 eq_refl Hpub) as (m & i' & -> & (_ & W2 & _ & S2) & _).
  cbn [mbind outcome_bind]. cbn [set_infos with_infos with_states readers_]. rewrite H2. cbn [deref mbind outcome_bind].
  eexists _, _. split; [done|]. split; [by apply world_ok_file|]. split.
  - split; [done|]. destruct (S2 p s H1) as (s' & A & B & C). exists s'. eexists. cbn. rewrite lookup_insert_eq. done.
  - unfold is_owner. cbn. rewrite lookup_insert_eq, negb_false_iff, bool_decide_eq_true. split; [by eauto|by intros [_ ?]].
Qed.

Lemma ownership_filter_spec w p pub s r : world_ok w -> states_ w !! p = Some s -> readers_ w !! reader_ s = Some r ->
  reader_ok r -> is_exclusive_ownership_ r = true ->
  exists w' b, ownership_filter p pub w = Ret (w', b) /\ world_ok w' /\ still w w' p s r
    /\ (b = false <-> is_Some (rd_writers_ r !! pub) /\ is_owner (is_handle_ s) pub w' = true).
Proof.
  intros W Hs Hr Hrd He. unfold ownership_filter, state_at. rewrite Hs. cbn [deref mbind outcome_bind]. rewrite Hr.
  cbn [deref mbind outcome_bind]. destruct r as [ex ms ws]. cbn in He. subst ex. cbn [is_exclusive_ownership_].
  set (r := mkReader true ms ws) in *. destruct (rd_writers_ r !! pub) as [info|] eqn:Hi.
  2:{ exists w, true. split; [done|]. split; [done|]. split; [split; [done|by exists s, r]|]. split; [done|]. by intros [[? ?] _]. }
  destruct (Hrd _ _ Hi) as [Hid Hpub]. rewrite Hid.
  pose proof (fun i => world_ok_file (reader_ s) pub i r w W Hr) as Hfile.
  case_decide as Hu; [exact (evaluate_spec w r p s pub info r w Hpub W Hs Hr eq_refl eq_refl)|].
  unfold is_owner_evaluated. destruct (owner_evaluated_ info !! is_handle_ s) as [[]|] eqn:Ev; cbn [mbind outcome_bind negb];
    rewrite ?Hr; cbn [deref mbind outcome_bind negb].
  - eexists _, _. split; [done|]. split; [exact (Hfile info)|]. split.
    { split; [done|]. exists s. eexists. cbn. rewrite lookup_insert_eq. done. }
    rewrite negb_false_iff, bool_decide_eq_true.
    assert (registered_ s = true) as Hreg by (destruct (registered_ s) eqn:E; [done|by destruct Hu; eapply wo_unregistered]).
    destruct (wo_registered _ W p s Hs Hreg) as (i & Hii & Hp). destruct (wo_listed _ W _ _ _ Hii Hp) as (s1 & Hs1 & _ & _ & [Ho|Ho]);
      simplify_eq. unfold is_owner. cbn. rewrite Hii, bool_decide_eq_true, Ho. split; [by eauto|by intros [_ ?]].
  - exact (evaluate_spec w r p s pub info (put_writer pub info r) _ Hpub (Hfile info) Hs (lookup_insert_eq _ _ _) eq_refl eq_refl).
  - exact (evaluate_spec w r p s pub info (put_writer pub _ r) _ Hpub (Hfile _) Hs (lookup_insert_eq _ _ _) eq_refl eq_refl).
Qed.

(** C32: for an exclusive reader a sample passes the filter exactly when its
    writer is associated with this reader, is the owner of the instance after
    the evaluation the sample itself may cause, and at least the minimum
    separation passed since the last accepted one, both as numbers of
    nanoseconds; the time of an accepted sample is recorded, that of a filtered
    one is not.  The clock did not go back, and the reader files its writers
    under their ids. *)
Theorem filter_passes_owner_only (now last : Z) (w : World) (p : positive) (pub : GUID) (s : InstanceState) (r : Reader) :
  world_ok w -> states_ w !! p = Some s -> readers_ w !! reader_ s = Some r -> accepted_ w !! p = Some last ->
  reader_ok r -> is_exclusive_ownership_ r = true -> timely r now last ->
  exists w' b, filter_instance now p pub w = Ret (w', b) /\ world_ok w'
    /\ (b = false <-> is_Some (rd_writers_ r !! pub) /\ is_owner (is_handle_ s) pub w' = true /\ separated r now last)
    /\ accepted_ w' = if (b : bool) then accepted_ w else <[p := now]> (accepted_ w).
Proof.
  intros W Hs Hr Hl Hrd He Ht. pose proof (too_soon_spec r now last Ht) as Hsep. destruct (ownership_filter_spec w p pub s r W Hs Hr Hrd He) as (w1 & b & E & W1 & S1 & Hb).
  unfold filter_instance. rewrite E. cbn [mbind outcome_bind]. destruct S1 as (A1 & s' & r' & H1 & H2 & H3 & H4 & H5).
  destruct b.
  { exists w1, true. split; [done|]. split; [done|]. split; [|done]. split; [done|]. intros (X & Y & _). by apply Hb. }
  unfold state_at. rewrite H1. cbn [deref mbind outcome_bind]. rewrite H2, H4. cbn [deref mbind outcome_bind].
  rewrite A1, Hl. cbn [deref mbind outcome_bind]. rewrite H5. destruct (proj1 Hb eq_refl) as [X Y].
  destruct (_ && _).
  - exists w1, true. split; [done|]. split; [done|]. split; [|done]. split; [done|]. intros (_ & _ & ?). by apply Hsep.
  - eexists _, false. split; [done|]. split; [by destruct W1; split|]. split; [|done]. split; [|done]. intros _. by rewrite <- Hsep.
Qed.

End filtering.

(** ** Concrete worlds *)

#[local] Existing Instance stable_sort.

Definition ex_guid (n : Z) : GUID := replicate 15 0 ++ [n].
Definition ex_strong : GUID := ex_guid 1.
Definition ex_weak : GUID := ex_guid 2.
Definition ex_reader : Reader :=
  mkReader true (mkDur 0 0) {[ex_strong := mkRW ex_strong 10 ∅; ex_weak := mkRW ex_weak 5 ∅]}.
Definition ex_none : World := mkW ∅ {[1%positive := 0]} {[1%positive := ex_reader]} ∅.
Definition ex_world : World := with_states (<[1%positive := new_instance_state 1 3 true]> (states_ ex_none)) ex_none.

Lemma ex_none_ok : world_ok ex_none.
Proof. split; cbn; intros *; by rewrite lookup_empty. Qed.

Lemma ex_world_ok : world_ok ex_world.
Proof. apply create_spec; [exact ex_none_ok|done|by eexists]. Qed.

Definition ex_ops : list op := [Create 1 1 3 true; Select 3 ex_strong 10 1; Select 3 ex_weak 5 1; Withdraw 3 ex_strong; Depose 3 ex_weak].

Lemma elections_refine_witness :
  (world_ok ex_none /\ allowed ex_ops ex_none)
  /\ exists w', run_ops ex_ops ex_none = Ret w' /\ election w' = {[3 := ∅]}.
Proof.
  assert (allowed ex_ops ex_none) as Ha.
  { split; [split; [done|by eexists]|]. intros w1 [= <-].
    split; [split; [done|eexists; split; [reflexivity|reflexivity]]|]. intros w2 E2. vm_compute in E2. injection E2 as <-.
    split; [split; [done|eexists; split; [reflexivity|reflexivity]]|]. intros w3 E3. vm_compute in E3. injection E3 as <-.
    split; [done|]. intros w4 E4. vm_compute in E4. injection E4 as <-.
    split; [eexists; split; reflexivity|]. intros w5 _. exact I. }
  split; [split; [exact ex_none_ok|exact Ha]|].
  destruct (elections_refine ex_ops ex_none ex_none_ok Ha) as (w' & E & _ & A & _). exists w'. split; [exact E|].
  rewrite A. vm_compute. reflexivity.
Defined.

Lemma filter_passes_owner_only_witness :
  (reader_ok ex_reader /\ world_ok ex_world)
  /\ exists w' b, filter_instance 100 1 ex_strong ex_world = Ret (w', b) /\ world_ok w' /\ b = false.
Proof.
  assert (reader_ok ex_reader) as Hr.
  { intros k i Hk. unfold ex_reader in Hk. cbn [rd_writers_] in Hk. apply lookup_insert_Some in Hk as [[<- <-]|[_ Hk]]; [done|]. apply lookup_singleton_Some in Hk as [<- <-]. done. }
  split; [exact (conj Hr ex_world_ok)|].
  assert (timely ex_reader 100 0) as Ht by (split; [split; [done|left; done]|done]).
  destruct (filter_passes_owner_only 100 0 ex_world 1 ex_strong (new_instance_state 1 3 true) ex_reader ex_world_ok
    eq_refl eq_refl eq_refl Hr eq_refl Ht) as (w' & b & E & W & _).
  exists w', b. split; [exact E|]. split; [exact W|].
  assert (snd <$> Some (w', b) = Some false) as Hb; [|by injection Hb].
  transitivity (match filter_instance 100 1 ex_strong ex_world with Ret x => snd <$> Some x | _ => None end);
    [by rewrite E|vm_compute; reflexivity].
Defined.

(** The stronger writer writes, the weaker one writes, the stronger one
    unregisters the instance and writes again; [reset] is what happens to the
    reader's flags before that. *)
Definition comeback (reset : Reader -> Reader) : outcome (list bool * bool) :=
  '(w, a) ← filter_instance 100 1 ex_strong ex_world;
  '(w, b) ← filter_instance 200 1 ex_weak w;
  '(w, _, _) ← handle_unregister (mkLC DURATION_INFINITY DURATION_INFINITY) 7 ex_strong 1 w;
  let w := with_readers (reset <$> readers_ w) w in
  '(w, c) ← filter_instance 300 1 ex_strong w;
  Ret ([a; b; c], is_owner 3 ex_weak w).

(** a writer that unregisters an instance and writes to it again is locked
    out.  The election forgets it, but the reader's flag that it was evaluated
    stays, so its samples are compared with the weaker owner elected meanwhile
    and filtered, without a new evaluation; with the flag cleared (as a change
    of strength or a lost writer does) the same sample is accepted. *)
Theorem returning_writer_locked_out :
  comeback id = Ret ([false; true; true], true)
  /\ comeback (reader_reset_ownership 3) = Ret ([false; true; false], false).
Proof. split; vm_compute; reflexivity. Qed.

(** [remove_owner] does not test its iterator: for an instance nobody wrote to
    the end of the table is dereferenced. *)
Theorem remove_owner_unchecked `{StdSort} h w : infos_ w !! h = None -> remove_owner h w = UB.
Proof. intros Hi. unfold remove_owner. by rewrite Hi. Qed.

End OwnershipProps.
Export OwnershipProps.
