(* ===== verification/GuidUtils.v ===== *)
(** * GUIDs as keys (dds/DCPS/GuidUtils.h)

    The order that [std::map] and [std::set] use for GUIDs, and the equality the
    code derives from it.  A GUID is its 16 octets: the prefix (0 to 11), the
    entity key (12 to 14) and the entity kind (15). *)

From S2P Require Import Prelude MessageBlock SequenceNumber Serializer DataSampleHeader.

Module GuidUtils.

(** [if (v1[i] < v2[i]) return true; if (v2[i] < v1[i]) return false;] for the
    octets [ix] in this order. *)
Fixpoint less_at (ix : list nat) (v1 v2 : GUID) : bool :=
  match ix with
  | [] => false
  | i :: ix =>
      if nth i v1 0 <? nth i v2 0 then true
      else if nth i v2 0 <? nth i v1 0 then false
      else less_at ix v1 v2
  end.

Definition entity_order : list nat := [14; 13; 12; 15]%nat.
Definition prefix_order : list nat := [11; 10; 9; 8; 7; 6; 5; 4; 3; 2; 1; 0]%nat.

Definition entity_less (v1 v2 : GUID) : bool := less_at entity_order v1 v2.

(** [GUID_tKeyLessThan::operator()]. *)
Definition guid_less (v1 v2 : GUID) : bool := less_at (prefix_order ++ entity_order) v1 v2.

(** [operator==] on GUIDs. *)
Definition guid_eq (lhs rhs : GUID) : bool := negb (guid_less lhs rhs) && negb (guid_less rhs lhs).

(** ** The order is strict and total, the equality is equality *)

Lemma less_at_irrefl ix v : less_at ix v v = false.
Proof. induction ix as [|i ix IH]; [done|]. cbn. by rewrite Z.ltb_irrefl. Qed.

Lemma less_at_trans ix v1 v2 v3 : less_at ix v1 v2 = true -> less_at ix v2 v3 = true -> less_at ix v1 v3 = true.
Proof.
  induction ix as [|i ix IH]; [done|]. cbn. intros H1 H2.
  destruct (Z.ltb_spec (nth i v1 0) (nth i v2 0)), (Z.ltb_spec (nth i v2 0) (nth i v1 0)),
    (Z.ltb_spec (nth i v2 0) (nth i v3 0)), (Z.ltb_spec (nth i v3 0) (nth i v2 0)),
    (Z.ltb_spec (nth i v1 0) (nth i v3 0)), (Z.ltb_spec (nth i v3 0) (nth i v1 0)); auto; try lia; done.
Qed.

Lemma less_at_total ix v1 v2 : less_at ix v1 v2 = false -> less_at ix v2 v1 = false ->
  Forall (fun i => nth i v1 0 = nth i v2 0) ix.
Proof.
  induction ix as [|i ix IH]; [constructor|]. cbn. intros H1 H2.
  destruct (Z.ltb_spec (nth i v1 0) (nth i v2 0)), (Z.ltb_spec (nth i v2 0) (nth i v1 0)); try done.
  constructor; [lia|by apply IH].
Qed.

Lemma guid_eq_spec g1 g2 : guid_ok g1 -> guid_ok g2 -> guid_eq g1 g2 = true <-> g1 = g2.
Proof.
  unfold guid_ok, guid_eq. intros H1 H2. rewrite andb_true_iff, !negb_true_iff. split.
  - intros [L1 L2]. pose proof (less_at_total _ _ _ L1 L2) as Hall. rewrite Forall_forall in Hall.
    apply (nth_ext _ _ 0 0); [congruence|]. intros i Hi. apply Hall. rewrite H1 in Hi.
    do 16 (destruct i as [|i]; [cbv; set_solver|]). lia.
  - intros ->. split; apply less_at_irrefl.
Qed.

#[export] Instance guid_less_strict : StrictOrder (fun g1 g2 => guid_less g1 g2 = true).
Proof. split; [intros g H; unfold guid_less in H; by rewrite less_at_irrefl in H|intros g1 g2 g3; apply less_at_trans]. Qed.

(** ** Maps keyed by GUIDs, as the list of their entries in key order *)

Section maps.
Context {A : Type}.

Fixpoint map_find (k : GUID) (m : list (GUID * A)) : option A :=
  match m with
  | [] => None
  | (k', v) :: m => if decide (k = k') then Some v else map_find k m
  end.

(** Assignment through an iterator or a reference to the entry. *)
Fixpoint map_set (k : GUID) (v : A) (m : list (GUID * A)) : list (GUID * A) :=
  match m with
  | [] => []
  | (k', v') :: m => if decide (k = k') then (k', v) :: m else (k', v') :: map_set k v m
  end.

Fixpoint map_place (k : GUID) (v : A) (m : list (GUID * A)) : list (GUID * A) :=
  match m with
  | [] => [(k, v)]
  | (k', v') :: m' => if guid_less k k' then (k, v) :: m else (k', v') :: map_place k v m'
  end.

(** [insert]: an entry that is there stays. *)
Definition map_add (k : GUID) (v : A) (m : list (GUID * A)) : list (GUID * A) :=
  match map_find k m with Some _ => m | None => map_place k v m end.

Fixpoint map_erase (k : GUID) (m : list (GUID * A)) : list (GUID * A) :=
  match m with
  | [] => []
  | (k', v') :: m => if decide (k = k') then m else (k', v') :: map_erase k m
  end.

Lemma map_find_in k v m : NoDup m.*1 -> map_find k m = Some v <-> (k, v) ∈ m.
Proof.
  induction m as [|[k' v'] m IH]; cbn; intros Hn; [split; [done|set_solver]|]. apply NoDup_cons in Hn as [Hk Hn].
  rewrite elem_of_cons, <- (IH Hn). case_decide as E.
  - subst k'. split; [intros [= ->]; by left|]. intros [[= ->]|H]; [done|]. apply IH in H; [|done]. destruct Hk.
    apply list_elem_of_fmap. by exists (k, v).
  - split; [by right|]. intros [[= -> ->]|H]; done.
Qed.

Lemma map_find_none k m : map_find k m = None <-> k ∉ m.*1.
Proof. induction m as [|[k' v'] m IH]; cbn; [set_solver|]. case_decide; set_solver. Qed.

Lemma map_set_keys k v m : (map_set k v m).*1 = m.*1.
Proof. induction m as [|[k' v'] m IH]; cbn; [done|]. case_decide; cbn; [done|]. by rewrite IH. Qed.

Lemma map_find_set k k' v m : map_find k' (map_set k v m) = if decide (k = k') then (fun _ => v) <$> map_find k m else map_find k' m.
Proof.
  induction m as [|[j w] m IH]; cbn; [by case_decide|].
  destruct (decide (k = j)) as [-> |H1]; cbn; destruct (decide (k' = j)) as [-> |H2]; repeat case_decide; subst; done.
Qed.

Lemma map_set_id k v m : map_find k m = Some v -> map_set k v m = m.
Proof. induction m as [|[j w] m IH]; cbn; [done|]. intros H. case_decide; [by simplify_eq|]. by rewrite IH. Qed.

Lemma map_set_mid k v w m1 m2 : k ∉ m1.*1 -> map_find k (m1 ++ (k, w) :: m2) = Some w /\ map_set k v (m1 ++ (k, w) :: m2) = m1 ++ (k, v) :: m2.
Proof.
  induction m1 as [|[j x] m IH]; cbn; intros Hk; [by rewrite !decide_True|].
  rewrite !decide_False by (intros ->; apply Hk; by left).
  destruct IH as [-> ->]; [|done]. intros H. apply Hk. by right.
Qed.

Lemma map_place_perm k v m : map_place k v m ≡ₚ (k, v) :: m.
Proof.
  induction m as [|[j w] m IH]; cbn [map_place]; [done|]. destruct (guid_less k j); [done|]. rewrite IH. apply perm_swap.
Qed.

Lemma map_add_nodup k v m : NoDup m.*1 -> NoDup (map_add k v m).*1.
Proof.
  intros Hn. unfold map_add. destruct (map_find k m) eqn:E; [done|]. apply map_find_none in E.
  rewrite map_place_perm. cbn. apply NoDup_cons. done.
Qed.

Lemma map_erase_absent k m : map_find k m = None -> map_erase k m = m.
Proof. induction m as [|[j w] m IH]; cbn; [done|]. intros H. case_decide; [done|]. by rewrite IH. Qed.

Lemma map_erase_spec k m : NoDup m.*1 -> NoDup (map_erase k m).*1 /\ forall j w, (j, w) ∈ map_erase k m <-> j <> k /\ (j, w) ∈ m.
Proof.
  induction m as [|[j w] m IH]; cbn; intros Hn; [split; [constructor|set_solver]|]. apply NoDup_cons in Hn as [Hj Hn].
  destruct (IH Hn) as [I1 I2]. case_decide as E.
  - subst j. split; [done|]. intros j w'. rewrite elem_of_cons. split; [|naive_solver]. intros Hin. split; [|by right].
    intros ->. apply Hj. apply list_elem_of_fmap. by exists (k, w').
  - split; [|intros j' w'; rewrite !elem_of_cons, I2; naive_solver]. cbn. apply NoDup_cons. split; [|done].
    intros ([j' w'] & -> & Hin)%list_elem_of_fmap. apply I2 in Hin as [_ Hin]. apply Hj. apply list_elem_of_fmap. by exists (j', w').
Qed.

End maps.

End GuidUtils.
Export GuidUtils.
