(* ===== verification/ReaderWriters.v ===== *)
(** * The writers of a reader (dds/DCPS/WriterInfo.{h,cpp} and the parts of
    DataReaderImpl.cpp that drive it)

    A data reader keeps a [WriterInfo] per associated writer: its liveliness, the
    sequence numbers received from it, the acknowledgements it asked for.  The
    reader counts its live and dead writers and runs one liveliness timer.

    Times are microseconds; [ACE_Time_Value::max_time] is [None].  The clock
    readings of an operation and the id the reactor returns for a timer are
    arguments.  The calls on the listener, the instances, the ownership manager
    and the reactor are recorded in order ([rcall]).  The counters are plain
    integers: they are bounded by the number of writers, and the change counters
    are set back when they are read. *)

From S2P Require Import Prelude MessageBlock SequenceNumber DisjointSequence Serializer DataSampleHeader GuidUtils.

Module ReaderWriters.

(** ** Data *)

Inductive WriterState := NOT_SET | ALIVE | DEAD.
#[export] Instance WriterState_eq_dec : EqDecision WriterState.
Proof. solve_decision. Defined.

Record WriterInfo := mkWI {
  state_ : WriterState;
  last_liveliness_activity_time_ : Z;
  seen_data_ : bool;
  ack_deadlines_ : list (SequenceNumber * Z);
  ack_sequence_ : list SequenceRange;
  handle_ : Z;
  coherent_samples_ : Z;
  coherent_sample_sequence_ : list SequenceRange }.

(** The constructor; [now] is the clock. *)
Definition new_writer (now : Z) : WriterInfo := mkWI NOT_SET now false [] [] 0 0 [].

Record LivelinessChangedStatus := mkLS {
  alive_count : Z; not_alive_count : Z; alive_count_change : Z; not_alive_count_change : Z;
  last_publication_handle : Z }.

Inductive rcall :=
| InstancesDead (writer : GUID)
| OnLivelinessChanged (st : LivelinessChangedStatus)
| StatusChanged (flag : bool)
| OwnershipLost (writer : GUID)
| StartTimer (now relative id : Z)
| StopTimer (id : Z)
| SampleAck (writer : GUID) (sequence : SequenceNumber).

Record ReaderState := mkRS {
  writers_ : list (GUID * WriterInfo);
  liveliness_lease_duration_ : Z;
  liveliness_changed_status_ : LivelinessChangedStatus;
  liveliness_timer_id_ : Z;
  has_listener_ : bool;
  exclusive_ : bool;
  calls_ : list rcall }.

Definition with_writers (x : list (GUID * WriterInfo)) (r : ReaderState) : ReaderState :=
  mkRS x (liveliness_lease_duration_ r) (liveliness_changed_status_ r) (liveliness_timer_id_ r) (has_listener_ r) (exclusive_ r) (calls_ r).
Definition with_status (x : LivelinessChangedStatus) (r : ReaderState) : ReaderState :=
  mkRS (writers_ r) (liveliness_lease_duration_ r) x (liveliness_timer_id_ r) (has_listener_ r) (exclusive_ r) (calls_ r).
Definition with_timer (x : Z) (r : ReaderState) : ReaderState :=
  mkRS (writers_ r) (liveliness_lease_duration_ r) (liveliness_changed_status_ r) x (has_listener_ r) (exclusive_ r) (calls_ r).
Definition log (c : rcall) (r : ReaderState) : ReaderState :=
  mkRS (writers_ r) (liveliness_lease_duration_ r) (liveliness_changed_status_ r) (liveliness_timer_id_ r) (has_listener_ r) (exclusive_ r) (calls_ r ++ [c]).

(** Assignment to the entry of a writer. *)
Definition put (k : GUID) (i : WriterInfo) (r : ReaderState) : ReaderState := with_writers (map_set k i (writers_ r)) r.

Definition with_state (x : WriterState) (i : WriterInfo) : WriterInfo :=
  mkWI x (last_liveliness_activity_time_ i) (seen_data_ i) (ack_deadlines_ i) (ack_sequence_ i) (handle_ i) (coherent_samples_ i) (coherent_sample_sequence_ i).
Definition with_seen (x : bool) (i : WriterInfo) : WriterInfo :=
  mkWI (state_ i) (last_liveliness_activity_time_ i) x (ack_deadlines_ i) (ack_sequence_ i) (handle_ i) (coherent_samples_ i) (coherent_sample_sequence_ i).
Definition with_activity (x : Z) (i : WriterInfo) : WriterInfo :=
  mkWI (state_ i) x (seen_data_ i) (ack_deadlines_ i) (ack_sequence_ i) (handle_ i) (coherent_samples_ i) (coherent_sample_sequence_ i).
Definition with_deadlines (x : list (SequenceNumber * Z)) (i : WriterInfo) : WriterInfo :=
  mkWI (state_ i) (last_liveliness_activity_time_ i) (seen_data_ i) x (ack_sequence_ i) (handle_ i) (coherent_samples_ i) (coherent_sample_sequence_ i).
Definition with_ack_sequence (x : list SequenceRange) (i : WriterInfo) : WriterInfo :=
  mkWI (state_ i) (last_liveliness_activity_time_ i) (seen_data_ i) (ack_deadlines_ i) x (handle_ i) (coherent_samples_ i) (coherent_sample_sequence_ i).
Definition with_coherent (x : list SequenceRange) (i : WriterInfo) : WriterInfo :=
  mkWI (state_ i) (last_liveliness_activity_time_ i) (seen_data_ i) (ack_deadlines_ i) (ack_sequence_ i) (handle_ i) (coherent_samples_ i) x.

(** ** Acknowledgement requests (WriterInfo.cpp) *)

Fixpoint clear_acks (sequence : SequenceNumber) (l : list (SequenceNumber * Z)) : list (SequenceNumber * Z) :=
  match l with
  | [] => []
  | c :: l' => if sn_le c.1 sequence then clear_acks sequence l' else l
  end.

(** [should_ack]: the answer and the list without the expired entries seen. *)
Fixpoint should_ack_loop (now : Z) (acked : list SequenceRange) (l : list (SequenceNumber * Z))
    : bool * list (SequenceNumber * Z) :=
  match l with
  | [] => (false, [])
  | c :: l' =>
      if c.2 <? now then should_ack_loop now acked l'
      else if negb (ds_empty acked) && sn_le c.1 (cumulative_ack acked) then (true, l)
      else let '(b, l'') := should_ack_loop now acked l' in (b, c :: l'')
  end.
Definition should_ack (now : Z) (i : WriterInfo) : bool * WriterInfo :=
  if (length (ack_deadlines_ i) =? 0)%nat then (false, i)
  else let '(b, l) := should_ack_loop now (ack_sequence_ i) (ack_deadlines_ i) in (b, with_deadlines l i).

Definition ack_deadline (sequence : SequenceNumber) (when : Z) (l : list (SequenceNumber * Z)) : list (SequenceNumber * Z) :=
  match l with
  | [] => [(sequence, when)]
  | current :: l' =>
      if sn_lt sequence current.1 then (sequence, when) :: l
      else if sn_eq sequence current.1 then
        (if current.2 <? when then (current.1, when) else current) :: l'
      else l
  end.

(** ** Liveliness (DataReaderImpl.cpp) *)

Definition notify_liveliness_change (r : ReaderState) : ReaderState :=
  if has_listener_ r then
    let st := liveliness_changed_status_ r in
    with_status (mkLS (alive_count st) (not_alive_count st) 0 0 (last_publication_handle st)) (log (OnLivelinessChanged st) r)
  else r.

(** [get_liveliness_changed_status]. *)
Definition get_liveliness_changed_status (r : ReaderState) : LivelinessChangedStatus * ReaderState :=
  let r := log (StatusChanged false) r in
  let st := liveliness_changed_status_ r in
  (st, with_status (mkLS (alive_count st) (not_alive_count st) 0 0 (last_publication_handle st)) r).

(** [++] or [--] on a count and its change. *)
Definition count_alive (d : Z) (st : LivelinessChangedStatus) : LivelinessChangedStatus :=
  mkLS (alive_count st + d) (not_alive_count st) (alive_count_change st + d) (not_alive_count_change st) (last_publication_handle st).
Definition count_not_alive (d : Z) (st : LivelinessChangedStatus) : LivelinessChangedStatus :=
  mkLS (alive_count st) (not_alive_count st + d) (alive_count_change st) (not_alive_count_change st + d) (last_publication_handle st).
Definition set_last_handle (h : Z) (st : LivelinessChangedStatus) : LivelinessChangedStatus :=
  mkLS (alive_count st) (not_alive_count st) (alive_count_change st) (not_alive_count_change st) h.

(** [writer_became_dead(info, when)]; [info] is the entry of [k]. *)
Definition writer_became_dead (k : GUID) (info : WriterInfo) (r : ReaderState) : ReaderState :=
  let r := if exclusive_ r then log (OwnershipLost k) r else r in
  let st := liveliness_changed_status_ r in
  let '(st, changed) := if decide (state_ info = NOT_SET) then (count_not_alive 1 st, true) else (st, false) in
  let '(st, changed) := if decide (state_ info = ALIVE) then (count_not_alive 1 (count_alive (-1) st), true) else (st, changed) in
  let st := set_last_handle (handle_ info) st in
  let r := put k (with_seen false (with_state DEAD info)) (with_status st r) in
  if alive_count st <? 0 then r
  else if not_alive_count st <? 0 then r
  else
    let r := log (InstancesDead k) r in
    if changed then notify_liveliness_change (log (StatusChanged true) r) else r.

(** [writer_removed(info)]. *)
Definition writer_removed (k : GUID) (info : WriterInfo) (r : ReaderState) : ReaderState :=
  let r := if exclusive_ r then log (OwnershipLost k) r else r in
  let st := liveliness_changed_status_ r in
  let '(st, changed) := if decide (state_ info = ALIVE) then (count_alive (-1) st, true) else (st, false) in
  let '(st, changed) := if decide (state_ info = DEAD) then (count_not_alive (-1) st, true) else (st, changed) in
  let r := log (InstancesDead k) (with_status (set_last_handle (handle_ info) st) r) in
  if changed then notify_liveliness_change (log (StatusChanged true) r) else r.

(** [WriterInfo::check_activity]: the time the writer expires. *)
Definition check_activity (now : Z) (k : GUID) (info : WriterInfo) (r : ReaderState) : ReaderState * option Z :=
  if decide (state_ info = ALIVE) then
    if negb (liveliness_lease_duration_ r =? 0) then
      let expires_at := last_liveliness_activity_time_ info + liveliness_lease_duration_ r in
      if expires_at <=? now then (writer_became_dead k info r, None) else (r, Some expires_at)
    else (r, None)
  else (r, None).

(** The loop of [handle_timeout] over the writers: the number of those that
    expire later and the earliest time. *)
Fixpoint check_loop (tv : Z) (ks : list GUID) (alive_writers : Z) (smallest : option Z) (r : ReaderState)
    : ReaderState * Z * option Z :=
  match ks with
  | [] => (r, alive_writers, smallest)
  | k :: ks =>
      match map_find k (writers_ r) with
      | None => check_loop tv ks alive_writers smallest r
      | Some info =>
          let '(r, next_absolute) := check_activity tv k info r in
          match next_absolute with
          | None => check_loop tv ks alive_writers smallest r
          | Some t =>
              let smallest := match smallest with
                              | Some s => if t <? s then Some t else Some s
                              | None => Some t
                              end in
              check_loop tv ks (alive_writers + 1) smallest r
          end
      end
  end.

(** [handle_timeout(tv, arg)]: [from_self] is [arg == this]; [now] is the clock
    after the loop, [tid] the answer of the reactor. *)
Definition handle_timeout (tv : Z) (from_self : bool) (now tid : Z) (r : ReaderState) : ReaderState :=
  let local_timer_id := liveliness_timer_id_ r in
  let r := if negb (local_timer_id =? -1) && from_self
           then with_timer (-1) (log (StopTimer local_timer_id) r) else r in
  let '(r, alive_writers, smallest) := check_loop tv (writers_ r).*1 0 None r in
  let r := if alive_writers =? 0 then with_timer (-1) r else r in
  if negb (alive_writers =? 0) then
    let relative := match smallest with
                    | Some s => if now <? s then s - now else 1
                    | None => 1
                    end in
    with_timer tid (log (StartTimer now relative tid) r)
  else r.

(** [writer_became_alive(info, when)]; [now1], [now2] are the clock before and in
    [handle_timeout]. *)
Definition writer_became_alive (k : GUID) (info : WriterInfo) (now1 now2 tid : Z) (r : ReaderState) : ReaderState :=
  let st := liveliness_changed_status_ r in
  let '(st, changed) := if negb (bool_decide (state_ info = ALIVE)) then (count_alive 1 st, true) else (st, false) in
  let '(st, changed) := if decide (state_ info = DEAD) then (count_not_alive (-1) st, true) else (st, changed) in
  let st := set_last_handle (handle_ info) st in
  let r := log (StatusChanged true) (with_status st r) in
  if alive_count st <? 0 then r
  else if not_alive_count st <? 0 then r
  else
    let r := put k (with_state ALIVE info) r in
    let r := if changed then notify_liveliness_change r else r in
    handle_timeout now1 true now2 tid r.

(** [WriterInfo::received_activity]. *)
Definition received_activity (k : GUID) (info : WriterInfo) (when now1 now2 tid : Z) (r : ReaderState) : ReaderState :=
  let info := with_activity when info in
  let r := put k info r in
  if negb (bool_decide (state_ info = ALIVE)) then writer_became_alive k info now1 now2 tid r else r.

(** What [writer_activity] reads of a header. *)
Record Activity := mkAct {
  act_publication_id : GUID; act_is_data : bool; act_sequence : SequenceNumber;
  act_sequence_repair : bool; act_coherent_change : bool }.

(** The sequence numbers of a data message. *)
Definition track_sequence (h : Activity) (info : WriterInfo) : outcome WriterInfo :=
  let resetRange := (of_value MIN_VALUE, act_sequence h) in
  info ← (if seen_data_ info && negb (act_sequence_repair h) then
            '(_, s) ← insert_value (ack_sequence_ info) (act_sequence h);
            Ret (with_ack_sequence s info)
          else
            '(_, s) ← insert_range ds_reset resetRange;
            Ret (with_ack_sequence s (with_seen true info)));
  if act_coherent_change h then
    '(_, s) ← (if coherent_samples_ info =? 0 then insert_range ds_reset resetRange
               else insert_value (coherent_sample_sequence_ info) (act_sequence h));
    Ret (with_coherent s info)
  else Ret info.

Definition writer_activity (h : Activity) (when now1 now2 tid : Z) (r : ReaderState) : outcome ReaderState :=
  match map_find (act_publication_id h) (writers_ r) with
  | None => Ret r
  | Some info =>
      let r := received_activity (act_publication_id h) info when now1 now2 tid r in
      if act_is_data h then
        info ← deref (map_find (act_publication_id h) (writers_ r));
        info ← track_sequence h info;
        Ret (put (act_publication_id h) info r)
      else Ret r
  end.

(** The acknowledgement of [sequence] when one is due; [sent] is the answer of
    [send_sample_ack] (data_received, REQUEST_ACK and add_association). *)
Definition ack_if_due (k : GUID) (sequence : SequenceNumber) (now : Z) (sent : bool) (r : ReaderState) : ReaderState :=
  match map_find k (writers_ r) with
  | None => r
  | Some info =>
      let '(due, info) := should_ack now info in
      let r := put k info r in
      if due then
        let r := log (SampleAck k sequence) r in
        if sent then put k (with_deadlines (clear_acks sequence (ack_deadlines_ info)) info) r else r
      else r
  end.

(** The REQUEST_ACK case of [data_received], after [writer_activity]. *)
Definition request_ack (k : GUID) (ack : SequenceNumber) (deadline now : Z) (sent : bool) (r : ReaderState) : ReaderState :=
  match map_find k (writers_ r) with
  | None => r
  | Some info =>
      ack_if_due k ack now sent (put k (with_deadlines (ack_deadline ack deadline (ack_deadlines_ info)) info) r)
  end.

(** A writer may have asked for an ack before the association was complete. *)
Definition ack_on_association (k : GUID) (now : Z) (sent : bool) (r : ReaderState) : ReaderState :=
  match map_find k (writers_ r) with
  | None => r
  | Some info => ack_if_due k (cumulative_ack (ack_sequence_ info)) now sent r
  end.

(** The part of [add_association] on the writers and the timer; [associated] is
    the answer of the transport, [now1] to [now4] are the readings of the clock: of
    the new [WriterInfo], for the pending requests, for the timer and in
    [handle_timeout]. *)
Definition add_association (k : GUID) (associated : bool) (now1 now2 now3 now4 tid : Z) (sent : bool) (r : ReaderState) : ReaderState :=
  let r := with_writers (map_add k (new_writer now1) (writers_ r)) r in
  if negb associated then r
  else
    let r := ack_on_association k now2 sent r in
    if negb (liveliness_lease_duration_ r =? 0) then handle_timeout now3 true now4 tid r else r.

(** The part of [remove_associations] for one writer. *)
Definition remove_association (k : GUID) (r : ReaderState) : ReaderState :=
  let r := match map_find k (writers_ r) with
           | None => r
           | Some info => writer_removed k info r
           end in
  with_writers (map_erase k (writers_ r)) r.

(** ** The counts *)

Definition in_state (st : WriterState) (i : WriterInfo) : Z := if decide (state_ i = st) then 1 else 0.

Fixpoint count_state (st : WriterState) (m : list (GUID * WriterInfo)) : Z :=
  match m with [] => 0 | e :: m => in_state st e.2 + count_state st m end.

Lemma count_set st k i i' m : map_find k m = Some i ->
  count_state st (map_set k i' m) = count_state st m - in_state st i + in_state st i'.
Proof.
  induction m as [|[j w] m IH]; cbn; [done|]. intros Hf. case_decide; cbn; [simplify_eq; lia|]. rewrite IH by done. lia.
Qed.

Lemma count_erase st k i m : map_find k m = Some i -> count_state st (map_erase k m) = count_state st m - in_state st i.
Proof. induction m as [|[j w] m IH]; cbn; [done|]. intros Hf. case_decide; cbn; [simplify_eq; lia|]. rewrite IH by done. lia. Qed.

Lemma count_perm st m m' : m ≡ₚ m' -> count_state st m = count_state st m'.
Proof. induction 1; cbn; lia. Qed.

Lemma count_add st k i m : map_find k m = None -> count_state st (map_add k i m) = count_state st m + in_state st i.
Proof. intros Hf. unfold map_add. rewrite Hf, (count_perm st _ _ (map_place_perm k i m)). cbn. lia. Qed.

Lemma count_nonneg st m : 0 <= count_state st m.
Proof. induction m as [|e m IH]; cbn; [done|]. unfold in_state. case_decide; lia. Qed.

(** The state of a reader: the counts are those of the writers. *)
Record reader_ok (r : ReaderState) : Prop := mkRO {
  ro_keys : NoDup (writers_ r).*1;
  ro_alive : alive_count (liveliness_changed_status_ r) = count_state ALIVE (writers_ r);
  ro_dead : not_alive_count (liveliness_changed_status_ r) = count_state DEAD (writers_ r);
  ro_seqs k i : map_find k (writers_ r) = Some i -> wf (ack_sequence_ i) /\ wf (coherent_sample_sequence_ i) }.

(** Two readers that differ in the calls, the change counters and the timer. *)
Definition quiet (r r' : ReaderState) : Prop :=
  writers_ r' = writers_ r /\ alive_count (liveliness_changed_status_ r') = alive_count (liveliness_changed_status_ r)
  /\ not_alive_count (liveliness_changed_status_ r') = not_alive_count (liveliness_changed_status_ r)
  /\ liveliness_lease_duration_ r' = liveliness_lease_duration_ r.

Lemma quiet_ok r r' : quiet r r' -> reader_ok r -> reader_ok r'.
Proof. intros (E1 & E2 & E3 & E4) [A B C D]. split; rewrite ?E1, ?E2, ?E3; done. Qed.

Lemma quiet_log c r : quiet r (log c r).
Proof. done. Qed.

Lemma quiet_trans r1 r2 r3 : quiet r1 r2 -> quiet r2 r3 -> quiet r1 r3.
Proof. unfold quiet. intuition congruence. Qed.

Lemma quiet_notify r : quiet r (notify_liveliness_change r).
Proof. unfold notify_liveliness_change. by destruct (has_listener_ r). Qed.

(** A writer that changes its state, with the counts that follow. *)
Lemma reader_ok_put r k i i' st : reader_ok r -> map_find k (writers_ r) = Some i ->
  alive_count st = alive_count (liveliness_changed_status_ r) - in_state ALIVE i + in_state ALIVE i' ->
  not_alive_count st = not_alive_count (liveliness_changed_status_ r) - in_state DEAD i + in_state DEAD i' ->
  wf (ack_sequence_ i') /\ wf (coherent_sample_sequence_ i') ->
  reader_ok (put k i' (with_status st r)).
Proof.
  intros [A B C D] Hf H1 H2 Hw. split; cbn.
  - by rewrite map_set_keys.
  - rewrite (count_set _ k i) by done. lia.
  - rewrite (count_set _ k i) by done. lia.
  - intros k' j. rewrite map_find_set. case_decide as E; [|exact (D k' j)]. subst k'. rewrite Hf. cbn. by intros [= <-].
Qed.

Lemma with_status_self r : with_status (liveliness_changed_status_ r) r = r.
Proof. by destruct r. Qed.

(** A writer that keeps its state. *)
Lemma reader_ok_same r k i i' : reader_ok r -> map_find k (writers_ r) = Some i -> state_ i' = state_ i ->
  wf (ack_sequence_ i') /\ wf (coherent_sample_sequence_ i') -> reader_ok (put k i' r).
Proof.
  intros R Hf Hs Hw. rewrite <- (with_status_self r). apply (reader_ok_put r k i); [done|done| | |done]; unfold in_state; rewrite Hs; lia.
Qed.

Lemma writer_became_dead_spec r k i : reader_ok r -> map_find k (writers_ r) = Some i ->
  let r' := writer_became_dead k i r in
  reader_ok r' /\ writers_ r' = map_set k (with_seen false (with_state DEAD i)) (writers_ r)
  /\ liveliness_lease_duration_ r' = liveliness_lease_duration_ r /\ liveliness_timer_id_ r' = liveliness_timer_id_ r.
Proof.
  intros R Hf. unfold writer_became_dead. pose proof (ro_seqs _ R _ _ Hf) as Hw.
  set (r0 := if exclusive_ r then _ else _).
  assert (quiet r r0 /\ liveliness_timer_id_ r0 = liveliness_timer_id_ r) as [Q0 T0] by (unfold r0; by destruct (exclusive_ r)).
  pose proof (quiet_ok _ _ Q0 R) as R0. destruct Q0 as (E1 & E2 & E3 & E4). rewrite <- E1, <- E4, <- T0. rewrite <- E1 in Hf. clearbody r0.
  set (p1 := if decide (state_ i = NOT_SET) then _ else _). destruct p1 as [st1 c1] eqn:P1.
  set (p2 := if decide (state_ i = ALIVE) then _ else _). destruct p2 as [st2 c2] eqn:P2.
  set (r1 := put k _ _).
  assert (reader_ok r1) as R1.
  { apply (reader_ok_put r0 k i); [done|done| | |done]; unfold in_state, p1, p2 in *; destruct (state_ i); cbn in *; simplify_eq/=; lia. }
  assert (alive_count (set_last_handle (handle_ i) st2) = count_state ALIVE (writers_ r1)
    /\ not_alive_count (set_last_handle (handle_ i) st2) = count_state DEAD (writers_ r1)) as [-> ->] by (by destruct R1).
  rewrite !(proj2 (Z.ltb_ge _ _)) by apply count_nonneg.
  destruct c2; [|by split; [exact (quiet_ok _ _ (quiet_log (InstancesDead k) r1) R1)|]].
  set (r2 := log (StatusChanged true) (log (InstancesDead k) r1)).
  pose proof (quiet_trans _ _ _ (quiet_log (InstancesDead k) r1) (quiet_log (StatusChanged true) _)) as Q1.
  pose proof (quiet_trans _ _ _ Q1 (quiet_notify r2)) as Q2. split; [exact (quiet_ok _ _ Q2 R1)|].
  destruct Q2 as (F1 & _ & _ & F4). rewrite F1, F4. split; [done|]. split; [done|].
  unfold notify_liveliness_change. cbn. by destruct (has_listener_ r0).
Qed.

Lemma map_find_put k k' i r : is_Some (map_find k (writers_ r)) ->
  map_find k' (writers_ (put k i r)) = if decide (k = k') then Some i else map_find k' (writers_ r).
Proof. intros [x Hx]. cbn. rewrite map_find_set. case_decide; [|done]. by rewrite Hx. Qed.

(** ** The check of the leases against a reference definition *)

(** What [handle_timeout] must do with a writer, and when the writer expires. *)
Definition expired (lease tv : Z) (i : WriterInfo) : bool :=
  bool_decide (state_ i = ALIVE) && negb (lease =? 0) && (last_liveliness_activity_time_ i + lease <=? tv).
Definition settle (lease tv : Z) (i : WriterInfo) : WriterInfo :=
  if expired lease tv i then with_seen false (with_state DEAD i) else i.
Definition expiry (lease : Z) (i : WriterInfo) : option Z :=
  if bool_decide (state_ i = ALIVE) && negb (lease =? 0) then Some (last_liveliness_activity_time_ i + lease) else None.

(** The expiries after the check, in the order of the map. *)
Definition expiries (lease tv : Z) (m : list (GUID * WriterInfo)) : list Z :=
  omap (fun e => expiry lease (settle lease tv e.2)) m.

Definition earlier (s : option Z) (t : Z) : option Z :=
  match s with Some s => if t <? s then Some t else Some s | None => Some t end.

Lemma check_activity_spec r tv k i : reader_ok r -> map_find k (writers_ r) = Some i ->
  let lease := liveliness_lease_duration_ r in
  exists r', check_activity tv k i r = (r', expiry lease (settle lease tv i)) /\ reader_ok r'
    /\ writers_ r' = map_set k (settle lease tv i) (writers_ r) /\ liveliness_lease_duration_ r' = lease
    /\ liveliness_timer_id_ r' = liveliness_timer_id_ r.
Proof.
  intros R Hf. unfold check_activity, settle, expired, expiry. pose proof (map_set_id k i (writers_ r) Hf) as Hid.
  destruct (decide (state_ i = ALIVE)) as [Ha|Ha]; [rewrite (bool_decide_eq_true_2 _ Ha)|rewrite (bool_decide_eq_false_2 _ Ha)]; cbn [andb];
    [|rewrite (bool_decide_eq_false_2 _ Ha); exists r; by rewrite Hid].
  destruct (liveliness_lease_duration_ r =? 0) eqn:El; cbn [negb andb]; [rewrite andb_false_r; exists r; by rewrite Hid|].
  destruct (_ <=? tv); [|rewrite (bool_decide_eq_true_2 _ Ha); exists r; by rewrite Hid].
  exists (writer_became_dead k i r). split; [done|]. exact (writer_became_dead_spec r k i R Hf).
Qed.


Definition settle_all (lease tv : Z) (m : list (GUID * WriterInfo)) : list (GUID * WriterInfo) :=
  (fun e => (e.1, settle lease tv e.2)) <$> m.

Lemma check_loop_spec tv suf : forall pre n s r, reader_ok r -> writers_ r = pre ++ suf ->
  let lease := liveliness_lease_duration_ r in let ex := expiries lease tv suf in
  exists r', check_loop tv suf.*1 n s r = (r', n + Z.of_nat (length ex), foldl earlier s ex) /\ reader_ok r'
    /\ writers_ r' = pre ++ settle_all lease tv suf /\ liveliness_lease_duration_ r' = lease
    /\ liveliness_timer_id_ r' = liveliness_timer_id_ r.
Proof.
  induction suf as [|[k i] suf IH]; intros pre n s r R Hw lease ex.
  { exists r. split; [cbn; by rewrite Z.add_0_r|]. done. }
  assert (k ∉ pre.*1) as Hk.
  { pose proof (ro_keys _ R) as Hn. rewrite Hw, fmap_app in Hn. apply NoDup_app in Hn as (_ & Hd & _).
    intros Hin. apply (Hd k Hin). cbn. by left. }
  destruct (map_set_mid k (settle lease tv i) i pre suf Hk) as [Hf Hs]. rewrite <- Hw in Hf, Hs.
  cbn [check_loop fmap list_fmap fst]. rewrite Hf.
  destruct (check_activity_spec r tv k i R Hf) as (r1 & -> & R1 & W1 & L1 & T1). fold lease in W1, L1 |- *.
  rewrite Hs, (cons_middle _ pre), (assoc_L (++)) in W1. unfold ex, expiries. cbn [omap list_omap snd].
  destruct (IH (pre ++ [(k, settle lease tv i)])
    (match expiry lease (settle lease tv i) with Some _ => n + 1 | None => n end)
    (if expiry lease (settle lease tv i) is Some t then earlier s t else s) r1 R1 W1) as (r' & E & R' & W' & L' & T').
  rewrite L1 in E, W', L'. exists r'. rewrite T', T1, W', <- (assoc_L (++)). split; [|done].
  destruct (expiry lease _) as [t|]; [|exact E]. etrans; [exact E|]. cbn [length foldl]. do 2 f_equal. unfold expiries. lia.
Qed.

Lemma earlier_min ex : forall s, match foldl earlier s ex with
  | Some t => (s = Some t \/ t ∈ ex) /\ (forall u, s = Some u \/ u ∈ ex -> t <= u)
  | None => s = None /\ ex = [] end.
Proof.
  induction ex as [|t ex IH]; intros s; cbn [foldl].
  - destruct s as [s|]; [|done]. split; [by left|]. intros u [[= ->]|Hu]; [lia|]. by apply elem_of_nil in Hu.
  - specialize (IH (earlier s t)). destruct (foldl earlier _ ex) as [u|].
    + destruct IH as [I1 I2]. setoid_rewrite elem_of_cons.
      assert (forall w, earlier s t = Some w -> (w = t \/ s = Some w) /\ w <= t /\ (forall v, s = Some v -> w <= v)) as He.
      { unfold earlier. intros w. destruct s as [s|]; [destruct (Z.ltb_spec t s)|]; intros [= <-]; naive_solver lia. }
      destruct (earlier s t) as [w|] eqn:Ew; [|unfold earlier in Ew; by repeat case_match].
      destruct (He w eq_refl) as (H1 & H2 & H3). pose proof (I2 w (or_introl eq_refl)) as H4.
      split; [destruct I1 as [[= <-]|]; naive_solver|]. intros v [Hv|[-> |Hv]]; [specialize (H3 v Hv); lia|lia|]. apply I2. by right.
    + destruct IH as [I1 _]. unfold earlier in I1. by repeat case_match.
Qed.


(** The timer after the check: armed for the earliest expiry, or not at all. *)
Definition timer_set (ex : list Z) (now tid : Z) (r' : ReaderState) : Prop :=
  (ex = [] /\ liveliness_timer_id_ r' = -1)
  \/ exists s calls, s ∈ ex /\ (forall u, u ∈ ex -> s <= u) /\ liveliness_timer_id_ r' = tid
       /\ calls_ r' = calls ++ [StartTimer now (Z.max 1 (s - now)) tid].

Lemma handle_timeout_spec r tv b now tid : reader_ok r ->
  let lease := liveliness_lease_duration_ r in let r' := handle_timeout tv b now tid r in
  reader_ok r' /\ writers_ r' = settle_all lease tv (writers_ r) /\ liveliness_lease_duration_ r' = lease
  /\ timer_set (expiries lease tv (writers_ r)) now tid r'.
Proof.
  intros R lease. unfold handle_timeout. set (r0 := if negb _ && b then _ else _).
  assert (quiet r r0) as Q0 by (unfold r0; by destruct (negb _ && b)).
  pose proof (quiet_ok _ _ Q0 R) as R0. destruct Q0 as (W0 & _ & _ & L0). rewrite <- W0. clearbody r0.
  destruct (check_loop_spec tv (writers_ r0) [] 0 None r0 R0 eq_refl) as (r1 & -> & R1 & W1 & L1 & _).
  rewrite L0 in W1, L1 |- *. fold lease in W1, L1 |- *. cbn [app] in W1. set (ex := expiries _ _ _).
  pose proof (earlier_min ex None) as Hm. rewrite Z.add_0_l. destruct (foldl earlier None ex) as [s|].
  - destruct Hm as [[[=]|Hs] Hm]. destruct ex as [|t ex'] eqn:Ex; [by apply elem_of_nil in Hs|].
    cbn [length]. rewrite (proj2 (Z.eqb_neq _ _)) by lia. cbn [negb].
    assert ((if now <? s then s - now else 1) = Z.max 1 (s - now)) as -> by (destruct (Z.ltb_spec now s); lia).
    split; [by apply (quiet_ok r1)|]. split; [done|]. split; [done|]. right. exists s, (calls_ r1).
    split; [done|]. split; [|done]. intros u Hu. apply Hm. by right.
  - destruct Hm as [_ ->]. cbn. split; [by apply (quiet_ok r1)|]. split; [done|]. split; [done|]. by left.
Qed.

Lemma map_find_settle lease tv k m : map_find k (settle_all lease tv m) = settle lease tv <$> map_find k m.
Proof. induction m as [|[j w] m IH]; cbn; [done|]. by case_decide. Qed.

Lemma settle_all_expiries lease tv m : omap (fun e => expiry lease e.2) (settle_all lease tv m) = expiries lease tv m.
Proof. unfold expiries. induction m as [|e m IH]; [done|]. cbn [settle_all fmap list_fmap omap list_omap snd]. unfold settle_all in IH. by rewrite IH. Qed.

Lemma writer_became_alive_spec r k i now1 now2 tid : reader_ok r -> map_find k (writers_ r) = Some i -> state_ i <> ALIVE ->
  let lease := liveliness_lease_duration_ r in let r' := writer_became_alive k i now1 now2 tid r in
  let m := map_set k (with_state ALIVE i) (writers_ r) in
  reader_ok r' /\ writers_ r' = settle_all lease now1 m /\ liveliness_lease_duration_ r' = lease
  /\ timer_set (expiries lease now1 m) now2 tid r'.
Proof.
  intros R Hf Ha. unfold writer_became_alive. pose proof (ro_seqs _ R _ _ Hf) as Hw.
  rewrite bool_decide_eq_false_2 by done. cbn [negb].
  set (p2 := if decide (state_ i = DEAD) then _ else _). destruct p2 as [st2 c2] eqn:P2.
  set (r1 := log (StatusChanged true) _).
  assert (reader_ok (put k (with_state ALIVE i) r1)) as R1.
  { apply (quiet_ok (put k (with_state ALIVE i) (with_status (set_last_handle (handle_ i) st2) r))); [done|].
    apply (reader_ok_put r k i); [done|done| | |done]; unfold in_state, p2 in *; destruct (state_ i); cbn in *; simplify_eq/=; lia. }
  assert (alive_count (set_last_handle (handle_ i) st2) = count_state ALIVE (writers_ (put k (with_state ALIVE i) r1))
    /\ not_alive_count (set_last_handle (handle_ i) st2) = count_state DEAD (writers_ (put k (with_state ALIVE i) r1))) as [-> ->] by (by destruct R1).
  rewrite !(proj2 (Z.ltb_ge _ _)) by apply count_nonneg. set (r2 := if c2 then _ else _).
  assert (quiet (put k (with_state ALIVE i) r1) r2) as Q2 by (unfold r2; destruct c2; [apply quiet_notify|done]).
  pose proof (handle_timeout_spec r2 now1 true now2 tid (quiet_ok _ _ Q2 R1)) as H. destruct Q2 as (W2 & _ & _ & L2).
  by rewrite W2, L2 in H.
Qed.


(** ** The pending timer *)

Definition start_of (c : rcall) : option (Z * Z * Z) :=
  match c with StartTimer now relative id => Some (now, relative, id) | _ => None end.

(** The timer id the reader holds and the last timer it scheduled. *)
Definition pend (r : ReaderState) : Z * option (Z * Z * Z) := (liveliness_timer_id_ r, last (omap start_of (calls_ r))).

Lemma pend_log c r : start_of c = None -> pend (log c r) = pend r.
Proof. intros H. unfold pend. cbn [calls_ log liveliness_timer_id_]. rewrite omap_app. cbn [omap list_omap]. by rewrite H, app_nil_r. Qed.

Lemma pend_notify r : pend (notify_liveliness_change r) = pend r.
Proof. unfold notify_liveliness_change. destruct (has_listener_ r); [|done]. exact (pend_log (OnLivelinessChanged _) r eq_refl). Qed.

(** While a writer is alive, a timer is pending that fires when the lease of the
    writer ends at the latest, or a microsecond after it was scheduled. *)
Definition armed (r : ReaderState) : Prop :=
  forall k i e, map_find k (writers_ r) = Some i -> expiry (liveliness_lease_duration_ r) i = Some e ->
    exists now relative id, pend r = (id, Some (now, relative, id)) /\ id <> -1 /\ now + relative <= Z.max e (now + 1).

Record live_ok (t : Z) (r : ReaderState) : Prop := mkLO {
  lo_ok : reader_ok r;
  lo_past k i : map_find k (writers_ r) = Some i -> last_liveliness_activity_time_ i <= t;
  lo_armed : armed r }.

Lemma map_find_elem {A} k (v : A) m : map_find k m = Some v -> (k, v) ∈ m.
Proof. induction m as [|[j w] m IH]; cbn; [done|]. case_decide; [intros [= ->]; subst; by left|right; auto]. Qed.

Lemma timer_set_armed lease tv m now tid r : timer_set (expiries lease tv m) now tid r -> tid <> -1 ->
  writers_ r = settle_all lease tv m -> liveliness_lease_duration_ r = lease -> armed r.
Proof.
  intros HT Ht Hw Hl k i e Hf He. rewrite Hw, map_find_settle in Hf. apply fmap_Some in Hf as (j & Hj%map_find_elem & ->).
  assert (e ∈ expiries lease tv m) as Hin by (apply list_elem_of_omap; exists (k, j); by subst lease).
  destruct HT as [[E _]|(s & calls & _ & Hs & Hid & Hc)]; [rewrite E in Hin; by apply elem_of_nil in Hin|].
  exists now, (Z.max 1 (s - now)), tid. specialize (Hs e Hin). split; [|split; [done|lia]].
  unfold pend. rewrite Hid, Hc, omap_app. cbn [omap list_omap start_of]. by rewrite last_snoc.
Qed.

Lemma handle_timeout_live t r tv b now tid : live_ok t r -> t <= now -> tid <> -1 -> live_ok now (handle_timeout tv b now tid r).
Proof.
  intros [R P _] Ht Hd. destruct (handle_timeout_spec r tv b now tid R) as (R' & W & L & T). split; [done| |exact (timer_set_armed _ _ _ _ _ _ T Hd W L)].
  intros k i. rewrite W, map_find_settle. intros (j & Hj & ->)%fmap_Some. specialize (P _ _ Hj).
  unfold settle. destruct (expired _ _ _); cbn; lia.
Qed.


Lemma live_quiet t t' r r' : quiet r r' -> pend r' = pend r -> t <= t' -> live_ok t r -> live_ok t' r'.
Proof.
  intros Q Hp Ht [R P A]. split; [exact (quiet_ok _ _ Q R)| |]; destruct Q as (W & _ & _ & L).
  - intros k i. rewrite W. intros H. specialize (P _ _ H). lia.
  - intros k i e. rewrite W, L, Hp. apply A.
Qed.

(** A writer that keeps its state, with activity at the same time or later. *)
Lemma live_put t t' r k i i' : live_ok t r -> t <= t' -> map_find k (writers_ r) = Some i -> state_ i' = state_ i ->
  last_liveliness_activity_time_ i <= last_liveliness_activity_time_ i' <= t' ->
  wf (ack_sequence_ i') /\ wf (coherent_sample_sequence_ i') -> live_ok t' (put k i' r).
Proof.
  intros [R P A] Ht Hf Hs Hl Hw. split; [by apply (reader_ok_same r k i)| |].
  - intros k' j. rewrite map_find_put by done. case_decide; [intros [= <-]; lia|]. intros Hj. specialize (P _ _ Hj). lia.
  - intros k' j e. rewrite map_find_put by done. case_decide; [|apply A]. subst k'. intros [= ->] He.
    cbn [liveliness_lease_duration_ put with_writers] in He. unfold expiry in He. rewrite Hs in He.
    destruct (bool_decide (state_ i = ALIVE) && negb (liveliness_lease_duration_ r =? 0)) eqn:E; [|done]. injection He as <-.
    destruct (A k i (last_liveliness_activity_time_ i + liveliness_lease_duration_ r) Hf) as (now & rel & id & H1 & H2 & H3); [unfold expiry; by rewrite E|].
    exists now, rel, id. split; [exact H1|]. split; [done|]. lia.
Qed.

Lemma received_activity_spec t r k i when now1 now2 tid : live_ok t r -> map_find k (writers_ r) = Some i ->
  t <= when -> when <= now1 -> now1 <= now2 -> tid <> -1 ->
  let r' := received_activity k i when now1 now2 tid r in
  live_ok now2 r' /\ liveliness_lease_duration_ r' = liveliness_lease_duration_ r
  /\ exists i', map_find k (writers_ r') = Some i' /\ ack_sequence_ i' = ack_sequence_ i /\ coherent_sample_sequence_ i' = coherent_sample_sequence_ i
    /\ ack_deadlines_ i' = ack_deadlines_ i /\ coherent_samples_ i' = coherent_samples_ i
    /\ (state_ i' = ALIVE /\ seen_data_ i' = seen_data_ i
        \/ liveliness_lease_duration_ r <> 0 /\ when + liveliness_lease_duration_ r <= now1 /\ state_ i' = DEAD /\ seen_data_ i' = false).
Proof.
  intros L Hf H1 H2 H3 Ht. pose proof (ro_seqs _ (lo_ok _ _ L) _ _ Hf) as Hw. pose proof (lo_past _ _ L _ _ Hf) as Hp.
  unfold received_activity. set (i1 := with_activity when i). set (r1 := put k i1 r).
  assert (live_ok when r1) as L1 by (apply (live_put t when r k i); [done|done|done|done|cbn; lia|done]).
  assert (map_find k (writers_ r1) = Some i1) as F1 by (unfold r1; rewrite map_find_put by done; by rewrite decide_True).
  destruct (decide (state_ i1 = ALIVE)) as [Ha|Ha].
  { rewrite bool_decide_eq_true_2 by done. split; [apply (live_quiet when now2 r1); [done|done|lia|done]|].
    split; [done|]. exists i1. split; [done|]. do 4 (split; [done|]). by left. }
  rewrite bool_decide_eq_false_2 by done. cbn [negb].
  destruct (writer_became_alive_spec r1 k i1 now1 now2 tid (lo_ok _ _ L1) F1 Ha) as (R2 & W2 & L2 & T2).
  split; [split; [done| |exact (timer_set_armed _ _ _ _ _ _ T2 Ht W2 L2)]|split; [done|]].
  - intros k' j. rewrite W2, map_find_settle. intros (x & Hx & ->)%fmap_Some. rewrite map_find_set, F1 in Hx.
    assert (last_liveliness_activity_time_ x <= when) by (destruct (decide (k = k')); [by simplify_eq/=|exact (lo_past _ _ L1 _ _ Hx)]).
    unfold settle. destruct (expired _ _ x); cbn; lia.
  - exists (settle (liveliness_lease_duration_ r) now1 (with_state ALIVE i1)).
    split; [rewrite W2, map_find_settle, map_find_set, F1; by rewrite decide_True|].
    unfold settle, expired. cbn [state_ with_state i1 last_liveliness_activity_time_ with_activity].
    rewrite bool_decide_eq_true_2 by done. cbn [andb]. destruct (Z.eqb_spec (liveliness_lease_duration_ r) 0); cbn [negb andb]; [naive_solver|].
    destruct (Z.leb_spec (when + liveliness_lease_duration_ r) now1); naive_solver.
Qed.


(** ** Sequence numbers of a writer *)

Definition seq_ok (s : SequenceNumber) : Prop := sn_valid s /\ getValue s < MAX_VALUE.

Lemma reset_range s : seq_ok s ->
  range_ok (of_value MIN_VALUE, s) /\ forall v, in_range v (of_value MIN_VALUE, s) <-> MIN_VALUE <= v <= getValue s.
Proof.
  intros [Hv Hm]. destruct (of_value_words MIN_VALUE ltac:(done)) as [H1 H2].
  rewrite Z.max_id in H2. unfold in_range, range_ok. cbn [fst snd]. rewrite H2. destruct Hv as [Hv1 Hv2]. done.
Qed.

Lemma value_range s : seq_ok s -> range_ok (s, s) /\ forall v, in_range v (s, s) <-> v = getValue s.
Proof. intros [Hv Hm]. unfold in_range, range_ok. cbn [fst snd]. split; [|intros v]; [split; [done|split; [done|]]|]; lia. Qed.

(** What a data message does to the sequence numbers seen from its writer: the
    first one (after the association or a death) sets the baseline. *)
Lemma track_sequence_spec h i : seq_ok (act_sequence h) -> wf (ack_sequence_ i) -> wf (coherent_sample_sequence_ i) ->
  exists i', track_sequence h i = Ret i' /\ wf (ack_sequence_ i') /\ wf (coherent_sample_sequence_ i') /\ seen_data_ i' = true
    /\ state_ i' = state_ i /\ last_liveliness_activity_time_ i' = last_liveliness_activity_time_ i /\ ack_deadlines_ i' = ack_deadlines_ i
    /\ forall v, covers (ack_sequence_ i') v <->
         if seen_data_ i && negb (act_sequence_repair h) then covers (ack_sequence_ i) v \/ v = getValue (act_sequence h)
         else MIN_VALUE <= v <= getValue (act_sequence h).
Proof.
  intros Hs W1 W2. destruct (reset_range _ Hs) as [R1 R2]. destruct (value_range _ Hs) as [V1 V2].
  destruct (insert_range_spec (ack_sequence_ i) _ W1 V1) as (c1 & s1 & E1 & W1' & C1 & _).
  destruct (insert_range_spec (coherent_sample_sequence_ i) _ W2 V1) as (c2 & s2 & E2 & W2' & _).
  destruct (insert_range_spec ds_reset _ I R1) as (c3 & s3 & E3 & W3' & C3 & _).
  setoid_rewrite V2 in C1. setoid_rewrite R2 in C3.
  assert (forall v, covers s3 v <-> MIN_VALUE <= v <= getValue (act_sequence h)) as C3'.
  { intros v. rewrite C3. split; [|by right]. intros [H|H]; [by apply Exists_nil in H|done]. }
  unfold track_sequence. change (insert_value ?s ?x) with (insert_range s (x, x)). rewrite E1, E3.
  assert (exists i1, (if seen_data_ i && negb (act_sequence_repair h) then Ret (with_ack_sequence s1 i) else Ret (with_ack_sequence s3 (with_seen true i))) = Ret i1
    /\ wf (ack_sequence_ i1) /\ coherent_sample_sequence_ i1 = coherent_sample_sequence_ i /\ coherent_samples_ i1 = coherent_samples_ i
    /\ seen_data_ i1 = true /\ state_ i1 = state_ i /\ last_liveliness_activity_time_ i1 = last_liveliness_activity_time_ i /\ ack_deadlines_ i1 = ack_deadlines_ i
    /\ forall v, covers (ack_sequence_ i1) v <->
         if seen_data_ i && negb (act_sequence_repair h) then covers (ack_sequence_ i) v \/ v = getValue (act_sequence h)
         else MIN_VALUE <= v <= getValue (act_sequence h)) as (i1 & B1 & B2 & B3 & B4 & B5).
  { destruct (seen_data_ i) eqn:Es, (act_sequence_repair h); cbn [andb negb]; eexists; (split; [reflexivity|]); done. }
  cbn [mbind outcome_bind].
  assert (forall f : WriterInfo -> outcome WriterInfo, (x ← (if seen_data_ i && negb (act_sequence_repair h) then Ret (with_ack_sequence s1 i)
    else Ret (with_ack_sequence s3 (with_seen true i))); f x) = f i1) as Hb by (intros f; by rewrite B1).
  rewrite Hb, B3, B4, E2.
  destruct (act_coherent_change h); [|exists i1; rewrite B3; naive_solver].
  destruct (coherent_samples_ i =? 0); cbn [mbind outcome_bind]; eexists; (split; [reflexivity|]); cbn; naive_solver.
Qed.


(** ** Runs of a reader *)

Inductive revent :=
| EvAssociate (k : GUID) (associated : bool) (now1 now2 now3 now4 tid : Z) (sent : bool)
| EvDisassociate (k : GUID)
| EvActivity (h : Activity) (when now1 now2 tid : Z)
| EvAckDue (k : GUID) (sequence : SequenceNumber) (now : Z) (sent : bool)
| EvRequestAck (k : GUID) (ack : SequenceNumber) (deadline now : Z) (sent : bool)
| EvTimeout (tv : Z) (from_self : bool) (now tid : Z)
| EvGetStatus.

Definition rstep (e : revent) (r : ReaderState) : outcome ReaderState :=
  match e with
  | EvAssociate k associated now1 now2 now3 now4 tid sent => Ret (add_association k associated now1 now2 now3 now4 tid sent r)
  | EvDisassociate k => Ret (remove_association k r)
  | EvActivity h when now1 now2 tid => writer_activity h when now1 now2 tid r
  | EvAckDue k sequence now sent => Ret (ack_if_due k sequence now sent r)
  | EvRequestAck k ack deadline now sent => Ret (request_ack k ack deadline now sent r)
  | EvTimeout tv from_self now tid => Ret (handle_timeout tv from_self now tid r)
  | EvGetStatus => Ret (get_liveliness_changed_status r).2
  end.

Fixpoint rrun (es : list revent) (r : ReaderState) : outcome ReaderState :=
  match es with [] => Ret r | e :: es => r ← rstep e r; rrun es r end.

(** The clock readings of an event, and what is assumed of one: timer ids are
    not [-1] (the reactor accepts the timers), the sequence numbers of data
    messages are valid (a heartbeat carries [SEQUENCENUMBER_UNKNOWN]). *)
Definition ev_times (e : revent) : list Z :=
  match e with
  | EvAssociate _ _ now1 now2 now3 now4 _ _ => [now1; now2; now3; now4]
  | EvActivity _ when now1 now2 _ => [when; now1; now2]
  | EvAckDue _ _ now _ | EvRequestAck _ _ _ now _ | EvTimeout _ _ now _ => [now]
  | EvDisassociate _ | EvGetStatus => []
  end.
Definition ev_ok (e : revent) : Prop :=
  match e with
  | EvAssociate _ _ _ _ _ _ tid _ | EvTimeout _ _ _ tid => tid <> -1
  | EvActivity h _ _ _ tid => tid <> -1 /\ (act_is_data h = true -> seq_ok (act_sequence h))
  | _ => True
  end.

(** The clock does not go back: the last reading, when all are in order. *)
Fixpoint clock_from (t : Z) (ts : list Z) : option Z :=
  match ts with [] => Some t | x :: ts => if t <=? x then clock_from x ts else None end.

Lemma ack_if_due_live t k sequence now sent r : live_ok t r -> t <= now -> live_ok now (ack_if_due k sequence now sent r).
Proof.
  intros L Ht. unfold ack_if_due. destruct (map_find k (writers_ r)) as [i|] eqn:Hf; [|by apply (live_quiet t now r)].
  pose proof (ro_seqs _ (lo_ok _ _ L) _ _ Hf) as Hw. pose proof (lo_past _ _ L _ _ Hf) as Hp.
  assert (exists l, (should_ack now i).2 = with_deadlines l i) as [l E].
  { unfold should_ack. destruct (_ =? 0)%nat; [exists (ack_deadlines_ i); by destruct i|]. destruct (should_ack_loop _ _ _). eauto. }
  destruct (should_ack now i) as [due i1]. cbn in E. subst i1.
  assert (live_ok now (put k (with_deadlines l i) r)) as L1 by (apply (live_put t now r k i); [done|done|done|done|cbn; lia|done]).
  destruct due; [|done]. pose proof (live_quiet _ now _ _ (quiet_log (SampleAck k sequence) _) (pend_log (SampleAck k sequence) _ eq_refl) (Z.le_refl _) L1) as L2.
  destruct sent; [|done]. apply (live_put now now _ k (with_deadlines l i)); [done|done| |done|cbn; lia|done].
  change (writers_ (log _ ?x)) with (writers_ x). rewrite map_find_put by done. by rewrite decide_True.
Qed.

Lemma request_ack_live t k ack deadline now sent r : live_ok t r -> t <= now -> live_ok now (request_ack k ack deadline now sent r).
Proof.
  intros L Ht. unfold request_ack. destruct (map_find k (writers_ r)) as [i|] eqn:Hf; [|by apply (live_quiet t now r)].
  pose proof (ro_seqs _ (lo_ok _ _ L) _ _ Hf) as Hw. pose proof (lo_past _ _ L _ _ Hf) as Hp.
  apply (ack_if_due_live t); [|done]. apply (live_put t t r k i); [done|done|done|done|cbn; lia|done].
Qed.

Lemma in_state_new st now : st <> NOT_SET -> in_state st (new_writer now) = 0.
Proof. intros H. unfold in_state. by rewrite decide_False. Qed.

Lemma add_writer_live t k now r : live_ok t r -> t <= now -> live_ok now (with_writers (map_add k (new_writer now) (writers_ r)) r).
Proof.
  intros L Ht. destruct (map_find k (writers_ r)) as [i|] eqn:Hf.
  { unfold map_add. rewrite Hf. by apply (live_quiet t now r). }
  destruct L as [[A B C D] P Ar].
  assert (forall k' j, map_find k' (map_add k (new_writer now) (writers_ r)) = Some j -> j = new_writer now \/ map_find k' (writers_ r) = Some j) as Hj.
  { intros k' j Hj%map_find_elem. unfold map_add in Hj. rewrite Hf, map_place_perm in Hj.
    apply elem_of_cons in Hj as [[= -> ->]|Hj]; [by left|right]. by apply map_find_in. }
  split; [split; cbn| |].
  - by apply map_add_nodup.
  - rewrite count_add, in_state_new by done. lia.
  - rewrite count_add, in_state_new by done. lia.
  - intros k' j [-> |H]%Hj; [done|]. exact (D _ _ H).
  - intros k' j [-> |H]%Hj; [cbn; lia|]. specialize (P _ _ H). lia.
  - intros k' j e [-> |H]%Hj; [done|]. exact (Ar _ _ _ H).
Qed.

Lemma add_association_live t k associated now1 now2 now3 now4 tid sent r : live_ok t r -> t <= now1 -> now1 <= now2 -> now2 <= now3 -> now3 <= now4 -> tid <> -1 ->
  live_ok now4 (add_association k associated now1 now2 now3 now4 tid sent r).
Proof.
  intros L H1 H2 H3 H4 Ht. unfold add_association. pose proof (add_writer_live t k now1 r L H1) as L1.
  set (r1 := with_writers _ r) in *. clearbody r1.
  destruct associated; cbn [negb]; [|apply (live_quiet now1 now4 r1); [done|done|lia|done]]. set (r2 := ack_on_association k now2 sent r1).
  assert (live_ok now2 r2) as L2.
  { unfold r2, ack_on_association. destruct (map_find k (writers_ r1)); [by apply (ack_if_due_live now1)|by apply (live_quiet now1 now2 r1)]. }
  destruct (_ =? 0); cbn [negb]; [apply (live_quiet now2 now4 r2); [done|done|lia|done]|apply (handle_timeout_live now2); [done|lia|done]].
Qed.


Lemma writer_removed_spec k i r : let r' := writer_removed k i r in
  writers_ r' = writers_ r /\ liveliness_lease_duration_ r' = liveliness_lease_duration_ r /\ pend r' = pend r
  /\ alive_count (liveliness_changed_status_ r') = alive_count (liveliness_changed_status_ r) - in_state ALIVE i
  /\ not_alive_count (liveliness_changed_status_ r') = not_alive_count (liveliness_changed_status_ r) - in_state DEAD i.
Proof.
  unfold writer_removed. set (r0 := if exclusive_ r then _ else _).
  assert (quiet r r0 /\ pend r0 = pend r) as [(W0 & A0 & N0 & L0) P0] by (unfold r0; destruct (exclusive_ r); [split; [done|by apply pend_log]|done]).
  rewrite <- W0, <- A0, <- N0, <- L0, <- P0. clearbody r0.
  set (p1 := if decide (state_ i = ALIVE) then _ else _). destruct p1 as [st1 c1] eqn:P1.
  set (p2 := if decide (state_ i = DEAD) then _ else _). destruct p2 as [st2 c2] eqn:P2.
  set (r1 := log _ (with_status _ r0)).
  assert (alive_count st2 = alive_count (liveliness_changed_status_ r0) - in_state ALIVE i
    /\ not_alive_count st2 = not_alive_count (liveliness_changed_status_ r0) - in_state DEAD i) as [S1 S2]
    by (unfold in_state, p1, p2 in *; destruct (state_ i); cbn in *; simplify_eq/=; lia).
  assert (pend r1 = pend r0) as Hp by (exact (pend_log (InstancesDead k) _ eq_refl)).
  destruct c2; [|done].
  destruct (quiet_notify (log (StatusChanged true) r1)) as (-> & -> & -> & ->).
  by rewrite pend_notify, (pend_log (StatusChanged true) _ eq_refl).
Qed.

Lemma remove_association_live t k r : live_ok t r -> live_ok t (remove_association k r).
Proof.
  intros [[A B C D] P Ar]. unfold remove_association.
  set (r1 := match map_find k (writers_ r) with Some _ => _ | None => _ end).
  destruct (map_erase_spec k (writers_ r) A) as [E1 E2].
  assert (forall k' j, map_find k' (map_erase k (writers_ r)) = Some j -> map_find k' (writers_ r) = Some j) as Hj.
  { intros k' j. rewrite !map_find_in by done. rewrite E2. tauto. }
  assert (writers_ r1 = writers_ r /\ liveliness_lease_duration_ r1 = liveliness_lease_duration_ r /\ pend r1 = pend r
    /\ alive_count (liveliness_changed_status_ r1) = count_state ALIVE (map_erase k (writers_ r))
    /\ not_alive_count (liveliness_changed_status_ r1) = count_state DEAD (map_erase k (writers_ r))) as (-> & L1 & P1 & A1 & N1).
  { unfold r1. destruct (map_find k (writers_ r)) as [i|] eqn:Hf.
    - destruct (writer_removed_spec k i r) as (-> & -> & -> & -> & ->). rewrite !(count_erase _ k i) by done. by rewrite B, C.
    - by rewrite map_erase_absent by done. }
  clearbody r1. split; [split; [done|done|done|]| |].
  - intros k' j H%Hj. exact (D _ _ H).
  - intros k' j H%Hj. exact (P _ _ H).
  - intros k' j e H%Hj. cbn [liveliness_lease_duration_ with_writers]. rewrite L1. unfold pend. cbn. fold (pend r1). rewrite P1. exact (Ar _ _ _ H).
Qed.

(** A message of a known writer: the writer is alive, unless its lease ended
    before the reader looked; a data message is entered in the sequence numbers. *)
Lemma writer_activity_spec t h when now1 now2 tid r : live_ok t r -> t <= when -> when <= now1 -> now1 <= now2 -> tid <> -1 ->
  (act_is_data h = true -> seq_ok (act_sequence h)) ->
  exists r', writer_activity h when now1 now2 tid r = Ret r' /\ live_ok now2 r' /\
  match map_find (act_publication_id h) (writers_ r) with
  | None => r' = r
  | Some i => exists i', map_find (act_publication_id h) (writers_ r') = Some i' /\ ack_deadlines_ i' = ack_deadlines_ i
      /\ (state_ i' = ALIVE \/ liveliness_lease_duration_ r <> 0 /\ when + liveliness_lease_duration_ r <= now1 /\ state_ i' = DEAD)
      /\ forall v, covers (ack_sequence_ i') v <->
           if act_is_data h then
             if seen_data_ i && bool_decide (state_ i' = ALIVE) && negb (act_sequence_repair h)
             then covers (ack_sequence_ i) v \/ v = getValue (act_sequence h)
             else MIN_VALUE <= v <= getValue (act_sequence h)
           else covers (ack_sequence_ i) v
  end.
Proof.
  intros L H1 H2 H3 Ht Hs. unfold writer_activity. destruct (map_find (act_publication_id h) (writers_ r)) as [i|] eqn:Hf.
  2:{ exists r. split; [done|]. split; [apply (live_quiet t now2 r); [done|done|lia|done]|done]. }
  destruct (received_activity_spec t r _ i when now1 now2 tid L Hf H1 H2 H3 Ht) as (L1 & Hl & i1 & F1 & E1 & E2 & E3 & _ & Hst).
  set (r1 := received_activity _ i _ _ _ _ r) in *. clearbody r1.
  destruct (act_is_data h) eqn:Hdata.
  2:{ exists r1. split; [done|]. split; [done|]. exists i1. rewrite E1. naive_solver. }
  rewrite F1. cbn [deref mbind outcome_bind]. destruct (ro_seqs _ (lo_ok _ _ L1) _ _ F1) as [Wa Wc].
  destruct (track_sequence_spec h i1 (Hs eq_refl) Wa Wc) as (i2 & -> & W1 & W2 & _ & S2 & A2 & D2 & C2). cbn [mbind outcome_bind].
  exists (put (act_publication_id h) i2 r1). split; [done|]. pose proof (lo_past _ _ L1 _ _ F1).
  split; [apply (live_put now2 now2 r1 _ i1); [done|lia|done|done|lia|done]|].
  exists i2. split; [rewrite map_find_put by done; by rewrite decide_True|]. split; [congruence|]. rewrite S2.
  split; [naive_solver|]. intros v. rewrite C2, E1. destruct Hst as [[-> ->]|(_ & _ & -> & ->)].
  - by rewrite bool_decide_eq_true_2, andb_true_r.
  - by rewrite bool_decide_eq_false_2, andb_false_r.
Qed.


Lemma clock_from_app t ts1 ts2 : clock_from t (ts1 ++ ts2) = t1 ← clock_from t ts1; clock_from t1 ts2.
Proof. revert t. induction ts1 as [|x ts1 IH]; intros t; cbn; [done|]. destruct (t <=? x); [apply IH|done]. Qed.

Lemma rstep_live e t t' r : live_ok t r -> ev_ok e -> clock_from t (ev_times e) = Some t' ->
  exists r', rstep e r = Ret r' /\ live_ok t' r'.
Proof.
  intros L Ho Hc. destruct e; cbn [ev_times clock_from ev_ok rstep] in *; repeat (case_match; bool_hyps; [|done]); simplify_eq.
  - eexists. split; [reflexivity|]. by apply (add_association_live t).
  - eexists. split; [reflexivity|]. by apply remove_association_live.
  - destruct Ho as [Ho1 Ho2]. destruct (writer_activity_spec t h when now1 t' tid r) as (r' & -> & L' & _); eauto.
  - eexists. split; [reflexivity|]. by apply (ack_if_due_live t).
  - eexists. split; [reflexivity|]. by apply (request_ack_live t).
  - eexists. split; [reflexivity|]. by apply (handle_timeout_live t).
  - eexists. split; [reflexivity|]. apply (live_quiet t' t' r); [done| |lia|done]. exact (pend_log (StatusChanged false) r eq_refl).
Qed.

Lemma rrun_live es : forall t t' r, live_ok t r -> Forall ev_ok es -> clock_from t (es ≫= ev_times) = Some t' ->
  exists r', rrun es r = Ret r' /\ live_ok t' r'.
Proof.
  induction es as [|e es IH]; intros t t' r L Ho Hc; [cbn in Hc; simplify_eq; by exists r|].
  apply Forall_cons in Ho as [He Ho]. rewrite bind_cons, clock_from_app in Hc. apply bind_Some in Hc as (t1 & Hc1 & Hc2).
  destruct (rstep_live e t t1 r L He Hc1) as (r1 & E1 & L1). cbn [rrun]. rewrite E1. cbn [mbind outcome_bind].
  exact (IH t1 t' r1 L1 Ho Hc2).
Qed.

Definition new_reader (lease : Z) (has_listener exclusive : bool) : ReaderState :=
  mkRS [] lease (mkLS 0 0 0 0 0) (-1) has_listener exclusive [].

Lemma new_reader_live t lease has_listener exclusive : live_ok t (new_reader lease has_listener exclusive).
Proof. split; [split; cbn; [constructor|done..]|done|done]. Qed.

(** C33: Over every sequence of associations, disassociations, messages, ack
    requests, timeouts and status reads, with valid sequence numbers in the data
    messages, a reactor that accepts the timers and a clock that does not go
    back, the reader never throws; the alive and not-alive
    counts of the status are the numbers of live and dead writers (so the error
    branches for negative counts are never taken), and while a writer is alive
    under a lease other than zero (zero stands for an infinite one) the
    liveliness timer is pending and fires no later than the lease of that writer
    ends, or one microsecond after it was set when the lease had ended by then. *)
Theorem liveliness_run es t t' lease has_listener exclusive :
  Forall ev_ok es -> clock_from t (es ≫= ev_times) = Some t' ->
  exists r, rrun es (new_reader lease has_listener exclusive) = Ret r
    /\ alive_count (liveliness_changed_status_ r) = count_state ALIVE (writers_ r)
    /\ not_alive_count (liveliness_changed_status_ r) = count_state DEAD (writers_ r)
    /\ NoDup (writers_ r).*1 /\ armed r.
Proof.
  intros Ho Hc. destruct (rrun_live es t t' _ (new_reader_live t lease has_listener exclusive) Ho Hc) as (r & E & L).
  exists r. destruct L as [[A B C D] P Ar]. done.
Qed.

Definition exA : GUID := replicate 16 1.
Definition exB : GUID := replicate 16 2.
Definition ex_sample (k : GUID) (n : Z) : Activity := mkAct k true (mkSN 0 n) false false.
Definition ex_heartbeat : Activity := mkAct exB false SEQUENCENUMBER_UNKNOWN false false.
Definition ex_events : list revent :=
  [EvAssociate exB true 100 101 101 102 1 true; EvAssociate exA true 103 103 103 103 1 true;
   EvActivity (ex_sample exA 1) 110 110 111 2; EvActivity (ex_sample exB 1) 120 121 121 3;
   EvActivity (ex_sample exB 2) 150 151 152 4; EvActivity ex_heartbeat 155 155 155 4; EvTimeout 165 false 165 5; EvDisassociate exA].

Lemma liveliness_run_witness : exists r, rrun ex_events (new_reader 50 true false) = Ret r
  /\ alive_count (liveliness_changed_status_ r) = 1 /\ not_alive_count (liveliness_changed_status_ r) = 0
  /\ pend r = (5, Some (165, 40, 5)) /\ armed r.
Proof.
  assert (Forall ev_ok ex_events) as H1 by (repeat constructor; vm_compute; intuition discriminate).
  destruct (liveliness_run ex_events 100 165 50 true false H1 eq_refl) as (r & E & Ha & Hd & _ & Hr).
  assert (rrun ex_events (new_reader 50 true false) = Ret r) as E' by exact E. vm_compute in E'. injection E' as <-. 
  eexists. split; [exact E|]. split; [reflexivity|]. split; [reflexivity|]. split; [reflexivity|exact Hr].
Defined.


(** C34: The lease check of [handle_timeout] leaves each writer as the lease says:
    one whose lease has ended at [tv] becomes dead (its data baseline is
    forgotten), the others are untouched; the counts follow, and the timer is
    scheduled for the earliest lease that still runs, or not at all when no
    writer is alive. *)
Theorem lease_check_correct r tv from_self now tid : reader_ok r ->
  let lease := liveliness_lease_duration_ r in let r' := handle_timeout tv from_self now tid r in
  (forall k, map_find k (writers_ r') = (fun i =>
      if bool_decide (state_ i = ALIVE /\ lease <> 0 /\ last_liveliness_activity_time_ i + lease <= tv)
      then with_seen false (with_state DEAD i) else i) <$> map_find k (writers_ r))
  /\ alive_count (liveliness_changed_status_ r') = count_state ALIVE (writers_ r')
  /\ not_alive_count (liveliness_changed_status_ r') = count_state DEAD (writers_ r')
  /\ timer_set (omap (fun e => expiry lease e.2) (writers_ r')) now tid r'.
Proof.
  intros R lease r'. destruct (handle_timeout_spec r tv from_self now tid R) as (R' & W & L & T). fold lease r' in R', W, L, T.
  split; [|split; [by destruct R'|split; [by destruct R'|]]].
  - intros k. rewrite W, map_find_settle. destruct (map_find k (writers_ r)) as [i|]; [|done]. cbn. f_equal. unfold settle, expired.
    destruct (decide (state_ i = ALIVE)) as [Ha|Ha]; [rewrite (bool_decide_eq_true_2 _ Ha)|rewrite !bool_decide_eq_false_2 by tauto; done].
    destruct (Z.eqb_spec lease 0); cbn [negb andb]; [by rewrite bool_decide_eq_false_2 by tauto|].
    destruct (Z.leb_spec (last_liveliness_activity_time_ i + lease) tv); [by rewrite bool_decide_eq_true_2|by rewrite bool_decide_eq_false_2 by lia].
  - rewrite W. by rewrite settle_all_expiries.
Qed.

Definition ex_reader : ReaderState :=
  mkRS [(exA, mkWI ALIVE 110 true [] [] 7 0 []); (exB, mkWI ALIVE 150 true [] [] 8 0 [])] 50 (mkLS 2 0 0 0 8) 4 true true [].

Lemma lease_check_correct_witness :
  map_find exA (writers_ (handle_timeout 165 false 165 5 ex_reader)) = Some (mkWI DEAD 110 false [] [] 7 0 [])
  /\ timer_set [200] 165 5 (handle_timeout 165 false 165 5 ex_reader).
Proof.
  assert (reader_ok ex_reader) as R.
  { split; [by apply (bool_decide_unpack _); vm_compute|done|done|]. intros k i Hf%map_find_elem. cbn in Hf.
    repeat (apply elem_of_cons in Hf as [[= _ ->]|Hf]; [done|]). by apply elem_of_nil in Hf. }
  destruct (lease_check_correct ex_reader 165 false 165 5 R) as (H & _ & _ & T). split; [exact (H exA)|exact T].
Defined.

(** C35: What a message does.  A message of an unknown writer changes nothing.  One
    of a known writer makes it alive, unless its lease ended before the reader
    looked at the clock again; a data message adds its sequence number to those
    received, or, when it is the first since the association or the death of the
    writer or repairs a gap, makes them all those up to its own; no message
    touches the pending ack requests.  A data message carries a valid sequence
    number below the largest; other messages may carry any. *)
Theorem writer_activity_correct t h when now1 now2 tid r :
  live_ok t r -> t <= when -> when <= now1 -> now1 <= now2 -> tid <> -1 ->
  (act_is_data h = true -> seq_ok (act_sequence h)) ->
  exists r', writer_activity h when now1 now2 tid r = Ret r' /\ live_ok now2 r' /\
  match map_find (act_publication_id h) (writers_ r) with
  | None => r' = r
  | Some i => exists i', map_find (act_publication_id h) (writers_ r') = Some i' /\ ack_deadlines_ i' = ack_deadlines_ i
      /\ (state_ i' = ALIVE \/ liveliness_lease_duration_ r <> 0 /\ when + liveliness_lease_duration_ r <= now1 /\ state_ i' = DEAD)
      /\ forall v, covers (ack_sequence_ i') v <->
           if act_is_data h then
             if seen_data_ i && bool_decide (state_ i' = ALIVE) && negb (act_sequence_repair h)
             then covers (ack_sequence_ i) v \/ v = getValue (act_sequence h)
             else MIN_VALUE <= v <= getValue (act_sequence h)
           else covers (ack_sequence_ i) v
  end.
Proof. exact (writer_activity_spec t h when now1 now2 tid r). Qed.

Lemma writer_activity_correct_witness : exists r', 
  writer_activity (ex_sample exA 5) 120 120 120 2 (add_association exA true 100 100 100 100 1 true (new_reader 50 true false)) = Ret r'
  /\ exists i', map_find exA (writers_ r') = Some i' /\ forall v, covers (ack_sequence_ i') v <-> 1 <= v <= 5.
Proof.
  destruct (writer_activity_correct 100 (ex_sample exA 5) 120 120 120 2 (add_association exA true 100 100 100 100 1 true (new_reader 50 true false)))
    as (r' & E & _ & H); [|lia|lia|lia|lia|vm_compute; intuition discriminate|].
  { apply (add_association_live 100); [apply new_reader_live|lia..]. }
  exists r'. split; [exact E|]. destruct H as (i' & F & _ & _ & H). exists i'. split; [exact F|exact H].
Defined.


(** ** Ack requests *)

(** Requests in the order of their sequence numbers, one per number. *)
Definition requests_ok (l : list (SequenceNumber * Z)) : Prop :=
  StronglySorted (fun a b => getValue a.1 < getValue b.1) l /\ Forall (fun c => sn_ok c.1) l.

Lemma requests_cons c l : requests_ok (c :: l) <-> requests_ok l /\ sn_ok c.1 /\ Forall (fun d => getValue c.1 < getValue d.1) l.
Proof.
  unfold requests_ok. rewrite Forall_cons. split; [intros [H1%StronglySorted_inv H2]; tauto|].
  intros ([H1 H2] & H3 & H4). split; [by constructor|done].
Qed.

Lemma clear_acks_spec sequence l : requests_ok l -> sn_ok sequence ->
  requests_ok (clear_acks sequence l) /\ forall c, c ∈ clear_acks sequence l <-> c ∈ l /\ getValue sequence < getValue c.1.
Proof.
  intros Hl Hs. induction l as [|d l IH]; cbn; [split; [done|set_solver]|].
  pose proof Hl as (H1 & H2 & H3)%requests_cons. destruct (IH H1) as [I1 I2]. rewrite sn_le_value by done.
  destruct (Z.leb_spec (getValue d.1) (getValue sequence)); (split; [done|]); intros c; rewrite ?I2, elem_of_cons.
  - naive_solver lia.
  - rewrite Forall_forall in H3. split; [|tauto]. intros [-> |Hc]; [auto|]. specialize (H3 c Hc). split; [by right|lia].
Qed.

Lemma should_ack_loop_spec now acked l : sn_ok (cumulative_ack acked) -> Forall (fun c => sn_ok c.1) l ->
  (should_ack_loop now acked l).1 = true <->
  exists c, c ∈ l /\ now <= c.2 /\ ds_empty acked = false /\ getValue c.1 <= getValue (cumulative_ack acked).
Proof.
  intros Ha. induction l as [|d l IH]; cbn; intros Hl; [split; [done|set_solver]|]. apply Forall_cons in Hl as [Hd Hl].
  setoid_rewrite elem_of_cons. destruct (Z.ltb_spec d.2 now); [rewrite (IH Hl); naive_solver lia|].
  rewrite sn_le_value by done. destruct (ds_empty acked) eqn:He; cbn [negb andb].
  - destruct (should_ack_loop now acked l) as [b l']. rewrite (IH Hl). naive_solver.
  - destruct (Z.leb_spec (getValue d.1) (getValue (cumulative_ack acked))); cbn [fst]; [naive_solver|].
    destruct (should_ack_loop now acked l) as [b l']. rewrite (IH Hl). naive_solver lia.
Qed.

Lemma ack_deadline_ok sequence when l : requests_ok l -> sn_ok sequence -> requests_ok (ack_deadline sequence when l).
Proof.
  intros Hl Hs. destruct l as [|d l]; cbn; [apply requests_cons; by split_and!|].
  pose proof Hl as (H1 & H2 & H3)%requests_cons. rewrite sn_lt_value, sn_eq_value by done.
  destruct (Z.ltb_spec (getValue sequence) (getValue d.1)).
  - apply requests_cons. split_and!; [done..|]. apply Forall_cons. split; [done|]. eapply Forall_impl; [exact H3|]. cbn. lia.
  - destruct (_ =? _); [|done]. destruct (d.2 <? when); [|done]. by apply requests_cons.
Qed.

(** Ack requests.  The pending requests stay sorted; a request is entered when
    none is pending or its sequence number is the smallest (the later deadline
    wins at the same number) and is otherwise not kept; an ack is due exactly
    when an unexpired request asks for a number up to the cumulative ack; and a
    sent ack clears exactly the requests up to its number. *)
Theorem ack_requests_correct l sequence when now acked :
  requests_ok l -> sn_ok sequence -> sn_ok (cumulative_ack acked) ->
  requests_ok (ack_deadline sequence when l)
  /\ ack_deadline sequence when l = match l with
     | [] => [(sequence, when)]
     | (s, d) :: l' => if getValue sequence <? getValue s then (sequence, when) :: l
                       else if getValue sequence =? getValue s then (s, Z.max d when) :: l' else l end
  /\ ((should_ack_loop now acked l).1 = true <->
      exists c, c ∈ l /\ now <= c.2 /\ ds_empty acked = false /\ getValue c.1 <= getValue (cumulative_ack acked))
  /\ requests_ok (clear_acks sequence l)
  /\ (forall c, c ∈ clear_acks sequence l <-> c ∈ l /\ getValue sequence < getValue c.1).
Proof.
  intros Hl Hs Ha. destruct (clear_acks_spec sequence l Hl Hs) as [C1 C2].
  split_and!; [by apply ack_deadline_ok| |by apply should_ack_loop_spec; [|apply Hl]|done|done].
  destruct l as [|[s d] l]; cbn; [done|]. apply requests_cons in Hl as (_ & Hd & _). cbn in Hd.
  rewrite sn_lt_value, sn_eq_value by done. destruct (_ <? _); [done|]. destruct (_ =? _); [|done].
  destruct (Z.ltb_spec d when); [by rewrite Z.max_r by lia|by rewrite Z.max_l by lia].
Qed.

Lemma ack_requests_correct_witness :
  let l := [(mkSN 0 4, 100); (mkSN 0 9, 90)] in
  ack_deadline (mkSN 0 4) 120 l = [(mkSN 0 4, 120); (mkSN 0 9, 90)]
  /\ ((should_ack_loop 95 [(mkSN 0 1, mkSN 0 5)] l).1 = true) /\ (mkSN 0 4, 100) ∉ clear_acks (mkSN 0 5) l.
Proof.
  intros l. assert (requests_ok l) as Hl by (split; repeat constructor; vm_compute; intuition discriminate).
  destruct (ack_requests_correct l (mkSN 0 5) 120 95 [(mkSN 0 1, mkSN 0 5)] Hl) as (_ & _ & H2 & _ & H3); [done|done|].
  destruct (ack_requests_correct l (mkSN 0 4) 120 95 [(mkSN 0 1, mkSN 0 5)] Hl) as (_ & H1 & _); [done|done|].
  split; [exact H1|]. split; [apply H2; exists (mkSN 0 4, 100); split; [by left|done]|]. rewrite H3. intros [_ H]. by vm_compute in H.
Defined.

(** A request that arrives while one for an earlier sample is pending is lost:
    the writer that asked for sequence number 3 never hears of it, although the
    sample arrives in time. *)
Theorem later_request_lost :
  exists r, rrun [EvAssociate exA true 100 100 100 100 1 true; EvActivity (ex_sample exA 1) 110 110 110 1;
                  EvRequestAck exA (mkSN 0 2) 1000 120 true; EvRequestAck exA (mkSN 0 3) 1000 130 true;
                  EvActivity (ex_sample exA 2) 140 140 140 1; EvAckDue exA (mkSN 0 2) 140 true;
                  EvActivity (ex_sample exA 3) 150 150 150 1; EvAckDue exA (mkSN 0 3) 150 true]
                 (new_reader 0 false false) = Ret r
    /\ omap (fun c => match c with SampleAck k s => Some (getValue s) | _ => None end) (calls_ r) = [2]
    /\ option_map (fun i => (getValue (cumulative_ack (ack_sequence_ i)), ack_deadlines_ i)) (map_find exA (writers_ r)) = Some (3, []).
Proof. eexists. split; [vm_compute; reflexivity|]. by vm_compute. Qed.

End ReaderWriters.
