(* ===== verification/TransportSendStrategy.v ===== *)
(** * Sending (dds/DCPS/transport/framework/TransportSendStrategy, BasicQueue_T,
    QueueRemoveVisitor, RemoveAllVisitor, BuildChainVisitor)

    A send strategy packs queue elements into packets, sends a packet with one
    call on the socket, and falls back to a queue that a thread works off when
    the socket takes only a part or nothing.  A packet in progress is a chain of
    message blocks: a block with the packet header, then duplicates of the
    blocks of its elements (a duplicate shares the buffer, so blocks are compared
    by [base()]).

    The methods a transport overrides ([relink], [max_message_size],
    [marshal_transport_header], [fragment]) are the class [Transport]; the answers
    of the socket are a list in the state, taken one per call, and the bytes it
    accepted are [wire_].  An empty list is a socket that stays blocked.  The
    calls on elements and on the thread are recorded in [calls_].  The queues and
    the array of delayed notifications are the lists of their elements; a null
    chain is the empty list, and its dereference is [UB]. *)

From S2P Require Import Prelude MessageBlock SequenceNumber Serializer DataSampleHeader.

Module TransportSendStrategy.

(** ** Data *)

Inductive SendMode := MODE_NOT_SET | MODE_DIRECT | MODE_QUEUE | MODE_SUSPEND | MODE_TERMINATED.
#[export] Instance SendMode_eq_dec : EqDecision SendMode.
Proof. solve_decision. Defined.

Inductive SendPacketOutcome :=
| OUTCOME_COMPLETE_SEND | OUTCOME_PARTIAL_SEND | OUTCOME_BACKPRESSURE | OUTCOME_PEER_LOST | OUTCOME_SEND_ERROR.

Inductive WorkOutcome :=
| WORK_OUTCOME_MORE_TO_DO | WORK_OUTCOME_NO_MORE_TO_DO | WORK_OUTCOME_CLOGGED_RESOURCE | WORK_OUTCOME_BROKEN_RESOURCE.

Inductive RemoveResult := REMOVE_ERROR | REMOVE_NOT_FOUND | REMOVE_FOUND | REMOVE_RELEASED.
#[export] Instance RemoveResult_eq_dec : EqDecision RemoveResult.
Proof. solve_decision. Defined.

(** A queue element: what the virtual methods of its class answer.  [el_payload]
    is the [rd_ptr()] of [msg_payload()]. *)
Record QueueElement (MB : Type) := mkQE {
  el_id : Z;
  publication_id : GUID;
  msg : list MB;
  el_payload : option Z;
  requires_exclusive_packet : bool;
  owned_by_transport : bool;
  is_fragment : bool }.
Arguments mkQE {MB} _ _ _ _ _ _ _.
Arguments el_id {MB} _.
Arguments publication_id {MB} _.
Arguments msg {MB} _.
Arguments el_payload {MB} _.
Arguments requires_exclusive_packet {MB} _.
Arguments owned_by_transport {MB} _.
Arguments is_fragment {MB} _.

(** The members of the packet header that change from packet to packet. *)
Record TransportHeader := mkTH { length_ : Z; sequence_ : SequenceNumber; first_fragment_ : bool; last_fragment_ : bool }.

Definition set_length (n : Z) (h : TransportHeader) : TransportHeader := mkTH n (sequence_ h) (first_fragment_ h) (last_fragment_ h).
Definition set_sequence (n : SequenceNumber) (h : TransportHeader) : TransportHeader := mkTH (length_ h) n (first_fragment_ h) (last_fragment_ h).
Definition set_first (b : bool) (h : TransportHeader) : TransportHeader := mkTH (length_ h) (sequence_ h) b (last_fragment_ h).
Definition set_last (b : bool) (h : TransportHeader) : TransportHeader := mkTH (length_ h) (sequence_ h) (first_fragment_ h) b.

(** The answer of the socket to a call: it takes up to [n] bytes, it would block,
    the peer is gone, or another error. *)
Inductive answer := Accept (n : positive) | Blocked | Closed | Failed.

Inductive scall (MB : Type) :=
| Delivered (e : QueueElement MB)
| Dropped (e : QueueElement MB) (by_transport : bool)
| WorkAvailable
| BufferInsert (sequence : SequenceNumber) (elems : list (QueueElement MB)) (chain : list MB)
| RetainAll (pub : GUID).
Arguments Delivered {MB} _.
Arguments Dropped {MB} _ _.
Arguments WorkAvailable {MB}.
Arguments BufferInsert {MB} _ _ _.
Arguments RetainAll {MB} _.

Record Strategy (MB : Type) := mkST {
  queue_ : list (QueueElement MB);
  elems_ : list (QueueElement MB);
  header_ : TransportHeader;
  header_sequence_ : SequenceNumber;
  header_block_ : option MB;
  pkt_chain_ : list MB;
  header_complete_ : bool;
  start_counter_ : Z;
  mode_ : SendMode;
  mode_before_suspend_ : SendMode;
  delayed_ : list (QueueElement MB * SendMode);
  graceful_disconnecting_ : bool;
  link_released_ : bool;
  transport_shutdown_ : bool;
  net_ : list answer;
  wire_ : list Z;
  calls_ : list (scall MB) }.
Arguments mkST {MB} _ _ _ _ _ _ _ _ _ _ _ _ _ _ _ _ _.
Arguments queue_ {MB} _.
Arguments elems_ {MB} _.
Arguments header_ {MB} _.
Arguments header_sequence_ {MB} _.
Arguments header_block_ {MB} _.
Arguments pkt_chain_ {MB} _.
Arguments header_complete_ {MB} _.
Arguments start_counter_ {MB} _.
Arguments mode_ {MB} _.
Arguments mode_before_suspend_ {MB} _.
Arguments delayed_ {MB} _.
Arguments graceful_disconnecting_ {MB} _.
Arguments link_released_ {MB} _.
Arguments transport_shutdown_ {MB} _.
Arguments net_ {MB} _.
Arguments wire_ {MB} _.
Arguments calls_ {MB} _.

(** The configuration; [MAX_SEND_BLOCKS] is the length of the [iovec] array. *)
Record SendConfig := mkSC {
  max_samples_ : Z; optimum_size_ : Z; max_size_ : Z; max_header_size_ : Z;
  MAX_SEND_BLOCKS : nat; has_send_buffer_ : bool }.

(** What a transport overrides.  [header_block_of] is a block from the allocator
    with the marshaled header. *)
Class Transport (MB : Type) := {
  header_block_of : TransportHeader -> MB;
  max_message_size : Z;
  fragment : Z -> QueueElement MB -> QueueElement MB * QueueElement MB;
  relink : bool -> Strategy MB -> outcome (Strategy MB) }.

Section operations.
Context {MB : Type}.

Definition set_queue (x : list (QueueElement MB)) (s : Strategy MB) : Strategy MB :=
  mkST x (elems_ s) (header_ s) (header_sequence_ s) (header_block_ s) (pkt_chain_ s) (header_complete_ s) (start_counter_ s) (mode_ s) (mode_before_suspend_ s) (delayed_ s) (graceful_disconnecting_ s) (link_released_ s) (transport_shutdown_ s) (net_ s) (wire_ s) (calls_ s).
Definition set_elems (x : list (QueueElement MB)) (s : Strategy MB) : Strategy MB :=
  mkST (queue_ s) x (header_ s) (header_sequence_ s) (header_block_ s) (pkt_chain_ s) (header_complete_ s) (start_counter_ s) (mode_ s) (mode_before_suspend_ s) (delayed_ s) (graceful_disconnecting_ s) (link_released_ s) (transport_shutdown_ s) (net_ s) (wire_ s) (calls_ s).
Definition set_header (x : TransportHeader) (s : Strategy MB) : Strategy MB :=
  mkST (queue_ s) (elems_ s) x (header_sequence_ s) (header_block_ s) (pkt_chain_ s) (header_complete_ s) (start_counter_ s) (mode_ s) (mode_before_suspend_ s) (delayed_ s) (graceful_disconnecting_ s) (link_released_ s) (transport_shutdown_ s) (net_ s) (wire_ s) (calls_ s).
Definition set_header_sequence (x : SequenceNumber) (s : Strategy MB) : Strategy MB :=
  mkST (queue_ s) (elems_ s) (header_ s) x (header_block_ s) (pkt_chain_ s) (header_complete_ s) (start_counter_ s) (mode_ s) (mode_before_suspend_ s) (delayed_ s) (graceful_disconnecting_ s) (link_released_ s) (transport_shutdown_ s) (net_ s) (wire_ s) (calls_ s).
Definition set_header_block (x : option MB) (s : Strategy MB) : Strategy MB :=
  mkST (queue_ s) (elems_ s) (header_ s) (header_sequence_ s) x (pkt_chain_ s) (header_complete_ s) (start_counter_ s) (mode_ s) (mode_before_suspend_ s) (delayed_ s) (graceful_disconnecting_ s) (link_released_ s) (transport_shutdown_ s) (net_ s) (wire_ s) (calls_ s).
Definition set_pkt_chain (x : list MB) (s : Strategy MB) : Strategy MB :=
  mkST (queue_ s) (elems_ s) (header_ s) (header_sequence_ s) (header_block_ s) x (header_complete_ s) (start_counter_ s) (mode_ s) (mode_before_suspend_ s) (delayed_ s) (graceful_disconnecting_ s) (link_released_ s) (transport_shutdown_ s) (net_ s) (wire_ s) (calls_ s).
Definition set_header_complete (x : bool) (s : Strategy MB) : Strategy MB :=
  mkST (queue_ s) (elems_ s) (header_ s) (header_sequence_ s) (header_block_ s) (pkt_chain_ s) x (start_counter_ s) (mode_ s) (mode_before_suspend_ s) (delayed_ s) (graceful_disconnecting_ s) (link_released_ s) (transport_shutdown_ s) (net_ s) (wire_ s) (calls_ s).
Definition set_start_counter (x : Z) (s : Strategy MB) : Strategy MB :=
  mkST (queue_ s) (elems_ s) (header_ s) (header_sequence_ s) (header_block_ s) (pkt_chain_ s) (header_complete_ s) x (mode_ s) (mode_before_suspend_ s) (delayed_ s) (graceful_disconnecting_ s) (link_released_ s) (transport_shutdown_ s) (net_ s) (wire_ s) (calls_ s).
Definition set_mode (x : SendMode) (s : Strategy MB) : Strategy MB :=
  mkST (queue_ s) (elems_ s) (header_ s) (header_sequence_ s) (header_block_ s) (pkt_chain_ s) (header_complete_ s) (start_counter_ s) x (mode_before_suspend_ s) (delayed_ s) (graceful_disconnecting_ s) (link_released_ s) (transport_shutdown_ s) (net_ s) (wire_ s) (calls_ s).
Definition set_mode_before_suspend (x : SendMode) (s : Strategy MB) : Strategy MB :=
  mkST (queue_ s) (elems_ s) (header_ s) (header_sequence_ s) (header_block_ s) (pkt_chain_ s) (header_complete_ s) (start_counter_ s) (mode_ s) x (delayed_ s) (graceful_disconnecting_ s) (link_released_ s) (transport_shutdown_ s) (net_ s) (wire_ s) (calls_ s).
Definition set_delayed (x : list (QueueElement MB * SendMode)) (s : Strategy MB) : Strategy MB :=
  mkST (queue_ s) (elems_ s) (header_ s) (header_sequence_ s) (header_block_ s) (pkt_chain_ s) (header_complete_ s) (start_counter_ s) (mode_ s) (mode_before_suspend_ s) x (graceful_disconnecting_ s) (link_released_ s) (transport_shutdown_ s) (net_ s) (wire_ s) (calls_ s).
Definition set_graceful_disconnecting (x : bool) (s : Strategy MB) : Strategy MB :=
  mkST (queue_ s) (elems_ s) (header_ s) (header_sequence_ s) (header_block_ s) (pkt_chain_ s) (header_complete_ s) (start_counter_ s) (mode_ s) (mode_before_suspend_ s) (delayed_ s) x (link_released_ s) (transport_shutdown_ s) (net_ s) (wire_ s) (calls_ s).
Definition set_link_released (x : bool) (s : Strategy MB) : Strategy MB :=
  mkST (queue_ s) (elems_ s) (header_ s) (header_sequence_ s) (header_block_ s) (pkt_chain_ s) (header_complete_ s) (start_counter_ s) (mode_ s) (mode_before_suspend_ s) (delayed_ s) (graceful_disconnecting_ s) x (transport_shutdown_ s) (net_ s) (wire_ s) (calls_ s).
Definition set_transport_shutdown (x : bool) (s : Strategy MB) : Strategy MB :=
  mkST (queue_ s) (elems_ s) (header_ s) (header_sequence_ s) (header_block_ s) (pkt_chain_ s) (header_complete_ s) (start_counter_ s) (mode_ s) (mode_before_suspend_ s) (delayed_ s) (graceful_disconnecting_ s) (link_released_ s) x (net_ s) (wire_ s) (calls_ s).
Definition set_net (x : list answer) (s : Strategy MB) : Strategy MB :=
  mkST (queue_ s) (elems_ s) (header_ s) (header_sequence_ s) (header_block_ s) (pkt_chain_ s) (header_complete_ s) (start_counter_ s) (mode_ s) (mode_before_suspend_ s) (delayed_ s) (graceful_disconnecting_ s) (link_released_ s) (transport_shutdown_ s) x (wire_ s) (calls_ s).
Definition set_wire (x : list Z) (s : Strategy MB) : Strategy MB :=
  mkST (queue_ s) (elems_ s) (header_ s) (header_sequence_ s) (header_block_ s) (pkt_chain_ s) (header_complete_ s) (start_counter_ s) (mode_ s) (mode_before_suspend_ s) (delayed_ s) (graceful_disconnecting_ s) (link_released_ s) (transport_shutdown_ s) (net_ s) x (calls_ s).
Definition set_calls (x : list (scall MB)) (s : Strategy MB) : Strategy MB :=
  mkST (queue_ s) (elems_ s) (header_ s) (header_sequence_ s) (header_block_ s) (pkt_chain_ s) (header_complete_ s) (start_counter_ s) (mode_ s) (mode_before_suspend_ s) (delayed_ s) (graceful_disconnecting_ s) (link_released_ s) (transport_shutdown_ s) (net_ s) (wire_ s) x.

Definition call (c : scall MB) (s : Strategy MB) : Strategy MB := set_calls (calls_ s ++ [c]) s.
Definition upd_header (f : TransportHeader -> TransportHeader) (s : Strategy MB) : Strategy MB := set_header (f (header_ s)) s.

Definition queue_put (e : QueueElement MB) (s : Strategy MB) : Strategy MB := set_queue (queue_ s ++ [e]) s.
Definition elems_put (e : QueueElement MB) (s : Strategy MB) : Strategy MB := set_elems (elems_ s ++ [e]) s.

Context `{MessageBlock MB}.

(** [base()]: duplicates of a block have the same. *)
Definition base_addr (b : MB) : Z := mb_rd_ptr b - Z.of_nat (mb_rd_off b).
Definition total_length (c : list MB) : Z := Z.of_nat (length (chain_bytes c)).
Definition el_length (e : QueueElement MB) : Z := total_length (msg e).

(** The [base()] of the last block of an element. *)
Definition elem_tail (e : QueueElement MB) : outcome Z :=
  match last (msg e) with Some b => Ret (base_addr b) | None => UB end.

(** ** Notifications *)

Definition add_delayed_notification (e : QueueElement MB) (s : Strategy MB) : Strategy MB :=
  set_delayed (delayed_ s ++ [(e, mode_ s)]) s.

(** [data_dropped(true)] or [data_delivered()], by the mode. *)
Definition notify (m : SendMode) (e : QueueElement MB) (s : Strategy MB) : Strategy MB :=
  if decide (m = MODE_TERMINATED) then call (Dropped e true) s else call (Delivered e) s.

(** ... unless the transport was shut down and the element is the writer's. *)
Definition notify_delayed (p : QueueElement MB * SendMode) (s : Strategy MB) : Strategy MB :=
  if negb (transport_shutdown_ s) || owned_by_transport p.1 then notify p.2 p.1 s else s.

Definition matches_all (e : QueueElement MB) : bool := true.
Definition MatchOnPubId (pub : GUID) (e : QueueElement MB) : bool :=
  bool_decide (pub = publication_id e) && negb (bool_decide (pub = GUID_UNKNOWN)).
Definition MatchOnDataPayload (data : Z) (e : QueueElement MB) : bool :=
  match el_payload e with Some p => data =? p | None => false end.

Definition send_delayed_notifications (m : QueueElement MB -> bool) (s : Strategy MB) : bool * Strategy MB :=
  let found := filter (fun p => m p.1 = true) (delayed_ s) in
  let s := set_delayed (filter (fun p => m p.1 = false) (delayed_ s)) s in
  match found with
  | [] => (false, s)
  | _ => (true, fold_left (fun s p => notify_delayed p s) found s)
  end.

(** ** A packet in progress *)

(** The loop of [adjust_packet_after_send] over the blocks at the front of the
    chain.  [tail] is the base of the last block of the element at the front, if
    there is one; [now_] are the elements to notify at the end. *)
Record adjust := mkAD {
  ad_chain : list MB; ad_left : Z; ad_sent : Z; ad_complete : bool;
  ad_tail : option Z; ad_elems : list (QueueElement MB);
  ad_delayed : list (QueueElement MB * SendMode); ad_notify : list (QueueElement MB) }.

Definition next_tail (elems : list (QueueElement MB)) : outcome (option Z) :=
  match elems with [] => Ret None | e :: _ => t ← elem_tail e; Ret (Some t) end.

Section packets.
Context (cfg : SendConfig).

(** A block of an element was sent as a whole. *)
Definition block_sent (delay : bool) (mode : SendMode) (b : MB) (a : adjust) : outcome adjust :=
  match ad_tail a with
  | None => UB
  | Some t =>
      let sent := ad_sent a + Z.of_nat (mb_length b) in
      if base_addr b =? t then
        match ad_elems a with
        | [] => UB
        | e :: elems =>
            tail ← next_tail elems;
            if delay && (Z.of_nat (length (ad_delayed a)) <? max_samples_ cfg)
            then Ret (mkAD (ad_chain a) (ad_left a) sent true tail elems (ad_delayed a ++ [(e, mode)]) (ad_notify a))
            else Ret (mkAD (ad_chain a) (ad_left a) sent true tail elems (ad_delayed a) (ad_notify a ++ [e]))
        end
      else Ret (mkAD (ad_chain a) (ad_left a) sent true (Some t) (ad_elems a) (ad_delayed a) (ad_notify a))
  end.

Fixpoint adjust_loop (delay : bool) (mode : SendMode) (chain : list MB) (a : adjust) : outcome adjust :=
  if ad_left a <=? 0 then Ret (mkAD chain (ad_left a) (ad_sent a) (ad_complete a) (ad_tail a) (ad_elems a) (ad_delayed a) (ad_notify a))
  else match chain with
  | [] => UB
  | b :: chain' =>
      let block_length := Z.of_nat (mb_length b) in
      if block_length <=? ad_left a then
        let left := ad_left a - block_length in
        if negb (ad_complete a)
        then adjust_loop delay mode chain' (mkAD chain' left (ad_sent a) true (ad_tail a) (ad_elems a) (ad_delayed a) (ad_notify a))
        else a ← block_sent delay mode b (mkAD chain' left (ad_sent a) true (ad_tail a) (ad_elems a) (ad_delayed a) (ad_notify a));
             adjust_loop delay mode chain' a
      else Ret (mkAD (mb_advance_rd (Z.to_nat (ad_left a)) b :: chain') 0
                     (if ad_complete a then ad_sent a + ad_left a else ad_sent a)
                     (ad_complete a) (ad_tail a) (ad_elems a) (ad_delayed a) (ad_notify a))
  end.

(** Whether the whole packet was sent, and the new state. *)
Definition adjust_packet_after_send (num_bytes_sent : Z) (delay : bool) (s : Strategy MB) : outcome (bool * Strategy MB) :=
  a ← (match elems_ s with
       | [] => Ret (mkAD (pkt_chain_ s) num_bytes_sent 0 (header_complete_ s) None [] (delayed_ s) [])
       | _ => tail ← next_tail (elems_ s);
              adjust_loop delay (mode_ s) (pkt_chain_ s)
                (mkAD (pkt_chain_ s) num_bytes_sent 0 (header_complete_ s) tail (elems_ s) (delayed_ s) [])
       end);
  let s := set_delayed (ad_delayed a) (set_elems (ad_elems a) (set_header_complete (ad_complete a) (set_pkt_chain (ad_chain a) s))) in
  let s := upd_header (set_length (uwrap 32 (length_ (header_ s) - ad_sent a))) s in
  let s' := fold_left (fun s e => notify (mode_ s) e s) (ad_notify a) s in
  Ret (length_ (header_ s) =? 0, s').

(** [BuildChainVisitor]. *)
Fixpoint build_chain (l : list (QueueElement MB)) : outcome (list MB) :=
  match l with
  | [] => Ret []
  | e :: l => match msg e with
              | [] => UB
              | blocks => rest ← build_chain l; Ret (blocks ++ rest)
              end
  end.

Context `{Transport MB}.

Definition prepare_header (s : Strategy MB) : Strategy MB :=
  let seq := next (header_sequence_ s) in
  upd_header (set_sequence seq) (set_header_sequence seq s).

Definition prepare_packet (s : Strategy MB) : outcome (Strategy MB) :=
  let s := prepare_header s in
  let block := header_block_of (header_ s) in
  chain ← build_chain (elems_ s);
  Ret (set_header_complete false (set_pkt_chain (block :: chain) (set_header_block (Some block) s))).

(** [do_send_packet]: the number of bytes and the backpressure flag. *)
Definition do_send_packet (packet : list MB) (s : Strategy MB) : outcome (Z * bool * Strategy MB) :=
  match packet with
  | [] => UB
  | _ =>
      let iov := chain_bytes (take (MAX_SEND_BLOCKS cfg) packet) in
      match net_ s with
      | [] => Ret (-1, true, s)
      | a :: net =>
          let s := set_net net s in
          match a with
          | Accept n =>
              let k := Z.min (Zpos n) (Z.of_nat (length iov)) in
              Ret (k, false, set_wire (wire_ s ++ take (Z.to_nat k) iov) s)
          | Blocked => Ret (-1, true, s)
          | Closed => Ret (0, false, s)
          | Failed => Ret (-1, false, s)
          end
      end
  end.

Definition send_packet (delay : bool) (s : Strategy MB) : outcome (SendPacketOutcome * Strategy MB) :=
  '(num_bytes_sent, bp, s) ← do_send_packet (pkt_chain_ s) s;
  if num_bytes_sent =? 0 then Ret (OUTCOME_PEER_LOST, s)
  else if num_bytes_sent <? 0 then
    Ret (if (bp : bool) then OUTCOME_BACKPRESSURE else OUTCOME_SEND_ERROR, s)
  else
    let s := if has_send_buffer_ cfg then call (BufferInsert (sequence_ (header_ s)) (elems_ s) (pkt_chain_ s)) s else s in
    '(complete, s) ← adjust_packet_after_send num_bytes_sent delay s;
    Ret (if (complete : bool) then OUTCOME_COMPLETE_SEND else OUTCOME_PARTIAL_SEND, s).

Definition space_available (s : Strategy MB) : Z :=
  let used := max_header_size_ cfg + length_ (header_ s) in
  if negb (max_message_size =? 0)
  then Z.min (uwrap 64 (max_size_ cfg - used)) (uwrap 64 (max_message_size - used))
  else uwrap 64 (max_size_ cfg - used).

(** ** Modes *)

Definition suspend_send (s : Strategy MB) : Strategy MB :=
  if negb (bool_decide (mode_ s = MODE_TERMINATED)) && negb (bool_decide (mode_ s = MODE_SUSPEND))
  then set_mode MODE_SUSPEND (set_mode_before_suspend (mode_ s) s) else s.

Definition resume_send (s : Strategy MB) : Strategy MB :=
  if decide (mode_ s = MODE_TERMINATED) then
    set_delayed [] (set_mode_before_suspend MODE_NOT_SET (set_mode MODE_DIRECT (set_start_counter 0
      (set_header_complete false (set_pkt_chain [] (upd_header (set_length 0) s))))))
  else if decide (mode_ s = MODE_SUSPEND) then
    set_mode_before_suspend MODE_NOT_SET (set_mode (mode_before_suspend_ s) s)
  else s.

Definition send_start (s : Strategy MB) : Strategy MB :=
  if negb (link_released_ s) then set_start_counter (uwrap 32 (start_counter_ s + 1)) s else s.

Definition link_released (flag : bool) (s : Strategy MB) : Strategy MB := set_link_released flag s.

(** [RemoveAllVisitor] on a queue. *)
Definition remove_all (l : list (QueueElement MB)) (s : Strategy MB) : Strategy MB :=
  fold_left (fun s e => call (Dropped e true) s) l s.

Definition clear (mode : SendMode) (s : Strategy MB) : outcome (Strategy MB) :=
  let '(_, s) := send_delayed_notifications matches_all s in
  s ← (if 0 <? length_ (header_ s) then
         match pkt_chain_ s with
         | [] => UB
         | chain => '(_, s) ← adjust_packet_after_send (total_length chain) true s; Ret s
         end
       else Ret s);
  let elems := elems_ s in
  let queue := queue_ s in
  let s := set_mode_before_suspend MODE_NOT_SET (set_mode mode (set_start_counter 0 (set_header_complete false
             (set_pkt_chain [] (upd_header (set_length 0) (set_queue [] (set_elems [] s))))))) in
  Ret (remove_all queue (remove_all elems s)).

Definition terminate_send (graceful_disconnecting : bool) (s : Strategy MB) : outcome (Strategy MB) :=
  let reset_flag := negb ((bool_decide (mode_ s = MODE_TERMINATED) || bool_decide (mode_ s = MODE_SUSPEND))
                          && negb (graceful_disconnecting_ s)) in
  s ← clear MODE_TERMINATED s;
  Ret (if reset_flag then set_graceful_disconnecting graceful_disconnecting s else s).

(** ** Sending *)

(** The loop of [direct_send]: it goes round again only after a lost connection
    was re-established, and every round takes an answer of the socket. *)
Fixpoint direct_send_loop (fuel : nat) (relink_ : bool) (s : Strategy MB) : outcome (Strategy MB) :=
  match fuel with
  | O => Fuel
  | S fuel =>
      '(outcome, s) ← send_packet true s;
      match outcome with
      | OUTCOME_BACKPRESSURE | OUTCOME_PARTIAL_SEND => Ret (set_mode MODE_QUEUE s)
      | OUTCOME_PEER_LOST | OUTCOME_SEND_ERROR =>
          let s := if negb (bool_decide (mode_ s = MODE_SUSPEND))
                   then set_mode MODE_SUSPEND (set_mode_before_suspend (mode_ s) s) else s in
          if (relink_ : bool) then
            s ← relink false s;
            if decide (mode_ s = MODE_SUSPEND) then Ret s
            else if decide (mode_ s = MODE_TERMINATED) then Ret s
            else direct_send_loop fuel relink_ s
          else Ret s
      | OUTCOME_COMPLETE_SEND => Ret s
      end
  end.

Definition direct_send (relink_ : bool) (s : Strategy MB) : outcome (Strategy MB) :=
  s ← prepare_packet s;
  direct_send_loop (S (length (net_ s))) relink_ s.

(** The loop of [send] over the element and, when it is fragmented, its parts. *)
Fixpoint send_loop (fuel : nat) (relink_ exclusive first_pkt : bool) (element : QueueElement MB)
    (next_fragment : option (QueueElement MB)) (s : Strategy MB) : outcome (Strategy MB) :=
  match fuel with
  | O => Fuel
  | S fuel =>
      if (first_pkt || bool_decide (is_Some next_fragment))
         && (bool_decide (mode_ s = MODE_DIRECT) || bool_decide (mode_ s = MODE_TERMINATED)) then
        let '(element, s) := match next_fragment with
                             | Some f => (f, upd_header (set_first false) s)
                             | None => (element, s)
                             end in
        let s := upd_header (set_last false) s in
        let '(element, next_fragment, s) :=
          if negb (max_message_size =? 0) then
            let avail := space_available s in
            if avail <? el_length element then
              let ep := fragment avail element in
              (ep.1, Some ep.2, upd_header (set_first first_pkt) s)
            else match next_fragment with
                 | Some _ => (element, None, upd_header (set_last true) s)
                 | None => (element, None, s)
                 end
          else (element, next_fragment, s) in
        let s := elems_put element s in
        let s := upd_header (set_length (uwrap 32 (length_ (header_ s) + el_length element))) s in
        let message_length := length_ (header_ s) in
        s ← (if bool_decide (is_Some next_fragment)
                || (max_samples_ cfg <=? Z.of_nat (length (elems_ s)))
                || (optimum_size_ cfg <? max_header_size_ cfg + message_length)
                || exclusive then
               s ← direct_send relink_ s;
               match next_fragment with
               | Some f =>
                   if negb (bool_decide (mode_ s = MODE_DIRECT)) then
                     if decide (mode_ s = MODE_QUEUE) then Ret (call WorkAvailable (queue_put f s))
                     else Ret (call (Dropped f true) s)
                   else Ret s
               | None => if decide (mode_ s = MODE_QUEUE) then Ret (call WorkAvailable s) else Ret s
               end
             else Ret s);
        send_loop fuel relink_ exclusive false element next_fragment s
      else Ret s
  end.

(** [DataSampleHeader::max_marshaled_size() + MIN_FRAG]. *)
Definition MIN_FRAG : Z := 68.

Definition send (element : QueueElement MB) (relink_ : bool) (s : Strategy MB) : outcome (Strategy MB) :=
  let pub_id := publication_id element in
  let finish (s : Strategy MB) := (send_delayed_notifications (MatchOnPubId pub_id) s).2 in
  if link_released_ s then
    Ret (finish (if Z.of_nat (length (delayed_ s)) <? max_samples_ cfg
                 then add_delayed_notification element s
                 else notify (mode_ s) element s))
  else if bool_decide (mode_ s = MODE_TERMINATED) && negb (graceful_disconnecting_ s) then
    Ret (call (Dropped element true) s)
  else
    let element_length := el_length element in
    if (max_message_size =? 0) && (max_size_ cfg <? max_header_size_ cfg + element_length) then Ret s
    else if bool_decide (mode_ s = MODE_QUEUE) || bool_decide (mode_ s = MODE_SUSPEND) then
      let s := queue_put element s in
      Ret (if negb (bool_decide (mode_ s = MODE_SUSPEND)) then call WorkAvailable s else s)
    else
      let exclusive := requires_exclusive_packet element in
      let space_needed := if 0 <? max_message_size then Z.of_nat max_marshaled_size + MIN_FRAG else element_length in
      if (exclusive && negb (length (elems_ s) =? 0)%nat) || (space_available s <? space_needed) then
        s ← direct_send relink_ s;
        if decide (mode_ s = MODE_QUEUE) then Ret (call WorkAvailable (queue_put element s))
        else s ← send_loop (S (S (Z.to_nat element_length))) relink_ exclusive true element None s; Ret (finish s)
      else s ← send_loop (S (S (Z.to_nat element_length))) relink_ exclusive true element None s; Ret (finish s).

Definition send_stop (repoId : GUID) (s : Strategy MB) : outcome (Strategy MB) :=
  let finish (s : Strategy MB) :=
    if decide (repoId = GUID_UNKNOWN) then (send_delayed_notifications matches_all s).2
    else (send_delayed_notifications (MatchOnPubId repoId) s).2 in
  if link_released_ s then Ret s
  else if start_counter_ s =? 0 then Ret s
  else
    let s := set_start_counter (start_counter_ s - 1) s in
    if negb (start_counter_ s =? 0) then Ret s
    else if bool_decide (mode_ s = MODE_TERMINATED) && negb (graceful_disconnecting_ s) then Ret s
    else if bool_decide (mode_ s = MODE_QUEUE) || bool_decide (mode_ s = MODE_SUSPEND) then Ret s
    else if (0 <? length_ (header_ s)) && negb (length (elems_ s) =? 0)%nat then
      s ← direct_send true s; Ret (finish s)
    else Ret (finish s).

(** ** The thread that works off the queue *)

Fixpoint get_packet_elems_from_queue (fuel : nat) (s : Strategy MB) : outcome (Strategy MB) :=
  match fuel with
  | O => Fuel
  | S fuel =>
      match queue_ s with
      | [] => Ret s
      | element :: queue =>
          let exclusive_packet := requires_exclusive_packet element in
          let avail := space_available s in
          let too_long := avail <? el_length element in
          if too_long && (max_message_size =? 0) then Ret s
          else
            let '(element, frag, s) :=
              if too_long then
                let s := upd_header (set_first (negb (is_fragment element))) s in
                let ep := fragment avail element in
                (ep.1, true, set_queue (ep.2 :: queue) s)
              else (element, false, s) in
            let s :=
              if (exclusive_packet && (length (elems_ s) =? 0)%nat) || negb exclusive_packet then
                let s := if (frag : bool) then elems_put element s else elems_put element (set_queue queue s) in
                let s := if length_ (header_ s) =? 0 then upd_header (set_last (negb frag && is_fragment element)) s else s in
                upd_header (set_length (uwrap 32 (length_ (header_ s) + el_length element))) s
              else s in
            if exclusive_packet || frag || (Z.of_nat (length (elems_ s)) =? max_samples_ cfg)
               || (optimum_size_ cfg <=? length_ (header_ s))
            then Ret s else get_packet_elems_from_queue fuel s
      end
  end.

Definition perform_work (s : Strategy MB) : outcome (WorkOutcome * Strategy MB) :=
  if decide (mode_ s = MODE_TERMINATED) then Ret (WORK_OUTCOME_BROKEN_RESOURCE, s)
  else if negb (bool_decide (mode_ s = MODE_QUEUE)) && negb (bool_decide (mode_ s = MODE_SUSPEND)) then
    Ret (WORK_OUTCOME_NO_MORE_TO_DO, s)
  else if (length_ (header_ s) =? 0) && (length (queue_ s) =? 0)%nat then
    Ret (WORK_OUTCOME_NO_MORE_TO_DO, set_mode MODE_DIRECT s)
  else
    s ← (if length_ (header_ s) =? 0 then
           s ← get_packet_elems_from_queue (S (length (queue_ s))) s; prepare_packet s
         else Ret s);
    '(outcome, s) ← send_packet true s;
    let no_more_work := match outcome with OUTCOME_COMPLETE_SEND => (length (queue_ s) =? 0)%nat | _ => false end in
    let s := if no_more_work then set_mode MODE_DIRECT s else s in
    let s := (send_delayed_notifications matches_all s).2 in
    if no_more_work then Ret (WORK_OUTCOME_NO_MORE_TO_DO, s)
    else
      match outcome with
      | OUTCOME_PEER_LOST | OUTCOME_SEND_ERROR =>
          s ← relink true s;
          if decide (mode_ s = MODE_SUSPEND) then Ret (WORK_OUTCOME_NO_MORE_TO_DO, s)
          else if decide (mode_ s = MODE_TERMINATED) then Ret (WORK_OUTCOME_BROKEN_RESOURCE, s)
          else Ret (WORK_OUTCOME_MORE_TO_DO, call WorkAvailable s)
      | OUTCOME_BACKPRESSURE => Ret (WORK_OUTCOME_CLOGGED_RESOURCE, s)
      | _ => Ret (WORK_OUTCOME_MORE_TO_DO, s)
      end.

End packets.
End operations.

End TransportSendStrategy.
Export TransportSendStrategy.
