(* ===== verification/TransportSendProps.v ===== *)
(** * Sending: theorems

    A packet in progress after a partial send, the sequences of operations on a
    connection that is not lost, and working off the queue. *)

From S2P Require Import Prelude MessageBlock SequenceNumber Serializer DataSampleHeader TransportSendStrategy.

Module TransportSendProps.

Section props.
Context {MB : Type} `{MessageBlockLaws MB}.
Context (cfg : SendConfig).
Implicit Types (s : Strategy MB) (e : QueueElement MB) (nt : list (QueueElement MB)).


Lemma base_advance n (b : MB) : (n <= mb_length b)%nat -> base_addr (mb_advance_rd n b) = base_addr b.
Proof. intros Hn. unfold base_addr. rewrite mb_advance_rd_ptr, mb_advance_rd_off by done. lia. Qed.

(** ** The blocks of an element *)

(** What is left of an element in the chain: its last block is there, and is told
    from the others by its base; no block is empty. *)
Definition cur_ok (t : Z) (cur : list MB) : Prop :=
  exists pre tb, cur = pre ++ [tb] /\ base_addr tb = t /\ Forall (fun b => base_addr b <> t) pre
    /\ Forall (fun b => (0 < mb_length b)%nat) cur.

Definition el_wf (e : QueueElement MB) : Prop := exists t, elem_tail e = Ret t /\ cur_ok t (msg e).

(** [cur] is what is left of the blocks of [e]: the first of them from its [n]-th
    byte on. *)
Definition left_of (e : QueueElement MB) (cur : list MB) : Prop :=
  exists pre b rest n, msg e = pre ++ b :: rest /\ (n < mb_length b)%nat /\ cur = mb_advance_rd n b :: rest.

(** The chain holds what is left of the first element and all of the others. *)
Definition rem_ok (chain : list MB) (elems : list (QueueElement MB)) : Prop :=
  match elems with
  | [] => chain = []
  | e :: es => exists t cur, elem_tail e = Ret t /\ cur_ok t cur /\ left_of e cur /\ chain = cur ++ concat (msg <$> es)
  end.

Lemma rem_ok_start elems : Forall el_wf elems -> rem_ok (concat (msg <$> elems)) elems.
Proof.
  destruct elems as [|e es]; [done|]. intros [(t & Ht & Hc) _]%Forall_cons. exists t, (msg e). split_and!; [done|done| |done].
  destruct Hc as (pre & tb & Hm & _ & _ & Hl). destruct (msg e) as [|b rest] eqn:Em; [by destruct pre|]. apply Forall_cons in Hl as [Hb _].
  exists [], b, rest, 0%nat. rewrite mb_advance_rd_0. done.
Qed.

Lemma rem_ok_pop b chain t e es : elem_tail e = Ret t -> cur_ok t (b :: chain) -> Forall el_wf es ->
  if decide (base_addr b = t) then chain = [] else cur_ok t chain.
Proof.
  intros Ht (pre & tb & E & Hb & Hp & Hl) _. destruct pre as [|b' pre]; injection E as -> ->.
  - by rewrite decide_True.
  - apply Forall_cons in Hp as [Hb' Hp]. rewrite decide_False by done. apply Forall_cons in Hl as [_ Hl]. by exists pre, tb.
Qed.

Lemma cur_ok_advance t b cur n : cur_ok t (b :: cur) -> (n < mb_length b)%nat -> cur_ok t (mb_advance_rd n b :: cur).
Proof.
  intros (pre & tb & E & Hb & Hp & Hl) Hn. apply Forall_cons in Hl as [_ Hl].
  assert (0 < mb_length (mb_advance_rd n b))%nat as Hn' by (rewrite mb_advance_rd_length; lia).
  destruct pre as [|b' pre]; injection E as -> ->.
  - exists [], (mb_advance_rd n tb). rewrite base_advance by lia. split_and!; [done|done|constructor|by constructor].
  - apply Forall_cons in Hp as [Hb' Hp]. exists (mb_advance_rd n b' :: pre), tb.
    split_and!; [done|done|constructor; [by rewrite base_advance by lia|done]|by constructor].
Qed.

Lemma left_of_pop e b cur : left_of e (b :: cur) -> cur <> [] -> Forall (fun b => (0 < mb_length b)%nat) cur -> left_of e cur.
Proof.
  intros (pre & b0 & rest & n & Hm & _ & [= -> ->]) Hne Hl. destruct rest as [|b1 rest]; [done|]. apply Forall_cons in Hl as [Hl _].
  exists (pre ++ [b0]), b1, rest, 0%nat. rewrite mb_advance_rd_0, <- (assoc_L (++)). done.
Qed.

Lemma left_of_advance e b cur k : left_of e (b :: cur) -> (k < mb_length b)%nat -> left_of e (mb_advance_rd k b :: cur).
Proof.
  intros (pre & b0 & rest & n & Hm & Hn & [= -> ->]) Hk. rewrite mb_advance_rd_length in Hk by lia.
  exists pre, b0, rest, (n + k)%nat. rewrite mb_advance_rd_add by lia. split_and!; [done|lia|done].
Qed.

Lemma cur_ok_nonempty t cur : cur_ok t cur -> exists b cur', cur = b :: cur' /\ (0 < mb_length b)%nat.
Proof. intros (pre & tb & -> & _ & _ & Hl). destruct pre as [|b pre]; apply Forall_cons in Hl as [Hl _]; eauto. Qed.

(** ** The loop over the sent blocks *)

Definition tail_of (elems : list (QueueElement MB)) (t : option Z) : Prop := next_tail elems = Ret t.

Lemma next_tail_wf elems : Forall el_wf elems -> exists t, next_tail elems = Ret t.
Proof. destruct elems as [|e es]; [by eexists|]. intros [(t & Ht & _) _]%Forall_cons. cbn. rewrite Ht. by eexists. Qed.

(** How sent elements are noted: on the delayed list as long as there is room. *)
Definition noted (delay : bool) (mode : SendMode) (fin : list (QueueElement MB))
    (dl dl' : list (QueueElement MB * SendMode)) (nt nt' : list (QueueElement MB)) : Prop :=
  exists fin1 fin2, fin ≡ₚ fin1 ++ fin2 /\ dl' = dl ++ ((fun e => (e, mode)) <$> fin1) /\ nt' = nt ++ fin2
    /\ Z.of_nat (length dl') <= Z.max (Z.of_nat (length dl)) (max_samples_ cfg).

Lemma noted_none delay mode dl nt : noted delay mode [] dl dl nt nt.
Proof. exists [], []. cbn. rewrite !app_nil_r. split_and!; [done..|lia]. Qed.

Lemma noted_trans delay mode f1 f2 dl1 dl2 dl3 nt1 nt2 nt3 :
  noted delay mode f1 dl1 dl2 nt1 nt2 -> noted delay mode f2 dl2 dl3 nt2 nt3 -> noted delay mode (f1 ++ f2) dl1 dl3 nt1 nt3.
Proof.
  intros (a1 & a2 & P1 & -> & -> & L1) (b1 & b2 & P2 & -> & -> & L2). exists (a1 ++ b1), (a2 ++ b2).
  split_and!; [|by rewrite fmap_app, (assoc_L (++))|by rewrite (assoc_L (++))|lia].
  rewrite P1, P2. solve_Permutation.
Qed.

Lemma noted_one delay mode e dl nt : exists d1 n1,
  (forall c l sent tail elems, Ret (mkAD c l sent true tail elems d1 n1)
     = if delay && (Z.of_nat (length dl) <? max_samples_ cfg) then Ret (mkAD c l sent true tail elems (dl ++ [(e, mode)]) nt)
       else Ret (mkAD c l sent true tail elems dl (nt ++ [e])))
  /\ noted delay mode [e] dl d1 nt n1.
Proof.
  destruct (delay && (Z.of_nat (length dl) <? max_samples_ cfg)) eqn:Ed.
  - apply andb_true_iff in Ed as [_ Ed%Z.ltb_lt]. exists (dl ++ [(e, mode)]), nt. split; [done|].
    exists [e], []. cbn. rewrite app_nil_r, length_app. cbn. split_and!; [done..|lia].
  - exists dl, (nt ++ [e]). split; [done|]. exists [], [e]. cbn. rewrite app_nil_r. split_and!; [done..|lia].
Qed.

Lemma adjust_loop_spec delay mode chain : forall left sent tail elems dl nt c0,
  rem_ok chain elems -> Forall el_wf elems -> tail_of elems tail -> 0 <= left <= total_length chain ->
  exists chain' tail' fin elems' dl' nt',
    adjust_loop cfg delay mode chain (mkAD c0 left sent true tail elems dl nt) = Ret (mkAD chain' 0 (sent + left) true tail' elems' dl' nt')
    /\ elems = fin ++ elems' /\ rem_ok chain' elems' /\ chain_bytes chain' = drop (Z.to_nat left) (chain_bytes chain)
    /\ noted delay mode fin dl dl' nt nt'.
Proof.
  induction chain as [|b chain IH]; intros left sent tail elems dl nt c0 Hr Hw Ht Hl.
  - unfold total_length in Hl. cbn in Hl. assert (left = 0) as -> by lia. cbn. rewrite Z.add_0_r.
    exists [], tail, [], elems, dl, nt. split_and!; [done..|apply noted_none].
  - destruct elems as [|e es]; [done|]. destruct Hr as (t & cur & Het & Hc & Hlo & Hch).
    unfold tail_of in Ht. cbn in Ht. rewrite Het in Ht. injection Ht as <-.
    destruct (cur_ok_nonempty t cur Hc) as (b' & cur' & -> & Hb). cbn in Hch. injection Hch as <- Hch.
    cbn [adjust_loop ad_left]. destruct (Z.leb_spec left 0).
    { assert (left = 0) as -> by lia. exists (b :: chain), (Some t), [], (e :: es), dl, nt.
      cbn [ad_sent ad_complete ad_tail ad_elems ad_delayed ad_notify]. rewrite Z.add_0_r.
      split_and!; [done|done| |done|apply noted_none]. exists t, (b :: cur'). split_and!; [done|done|done|by rewrite Hch]. }
    destruct (Z.leb_spec (Z.of_nat (mb_length b)) left) as [Hbl|Hbl].
    2:{ exists (mb_advance_rd (Z.to_nat left) b :: chain), (Some t), [], (e :: es), dl, nt.
        cbn [ad_sent ad_complete ad_tail ad_elems ad_delayed ad_notify].
        split_and!; [done|done| | |apply noted_none].
        - exists t, (mb_advance_rd (Z.to_nat left) b :: cur'). split_and!; [done|apply cur_ok_advance; [done|lia]|apply left_of_advance; [done|lia]|by rewrite Hch].
        - rewrite !chain_bytes_cons, mb_advance_rd_bytes by lia. rewrite drop_app_le; [done|]. unfold mb_length in *. lia. }
    cbn [ad_complete negb ad_tail ad_sent ad_elems ad_delayed ad_notify].
    assert (0 <= left - Z.of_nat (mb_length b) <= total_length chain) as Hl'.
    { unfold total_length in *. rewrite chain_bytes_cons, length_app in Hl. unfold mb_length in *. lia. }
    assert (chain_bytes (b :: chain) = mb_bytes b ++ chain_bytes chain) as Hcb by done.
    assert (drop (Z.to_nat left) (chain_bytes (b :: chain)) = drop (Z.to_nat (left - Z.of_nat (mb_length b))) (chain_bytes chain)) as Hd.
    { rewrite Hcb, drop_app_ge by (unfold mb_length in *; lia). f_equal. unfold mb_length in *. lia. }
    apply Forall_cons in Hw as [Hwe Hw]. pose proof (rem_ok_pop b cur' t e es Het Hc Hw) as Hpop.
    unfold block_sent. cbn [ad_tail ad_sent ad_elems ad_delayed ad_notify ad_chain ad_left].
    destruct (decide (base_addr b = t)) as [Hbt|Hbt].
    + subst cur'. cbn in Hch. subst chain. rewrite (proj2 (Z.eqb_eq _ _) Hbt).
      destruct (next_tail_wf es Hw) as [t' Ht']. rewrite Ht'. cbn [mbind outcome_bind].
      destruct (noted_one delay mode e dl nt) as (d1 & n1 & Ed & Hn1). rewrite <- Ed. clear Ed.
      destruct (IH (left - Z.of_nat (mb_length b)) (sent + Z.of_nat (mb_length b)) t' es d1 n1 (concat (msg <$> es)) (rem_ok_start es Hw) Hw Ht' Hl')
        as (chain' & tail' & fin & elems' & dl' & nt' & E & Efin & Hr' & Hb' & Hn').
      exists chain', tail', (e :: fin), elems', dl', nt'. split_and!.
      * cbn [mbind outcome_bind]. rewrite E. do 2 f_equal. lia.
      * by rewrite Efin.
      * done.
      * by rewrite Hb', <- Hd.
      * by apply (noted_trans delay mode [e] fin dl d1 dl' nt n1 nt').
    + rewrite (proj2 (Z.eqb_neq _ _) Hbt). cbn [mbind outcome_bind].
      assert (rem_ok chain (e :: es)) as Hr'.
      { exists t, cur'. split_and!; [done|done| |done]. apply (left_of_pop e b); [done| |].
        - destruct (cur_ok_nonempty _ _ Hpop) as (x & y & -> & _). done.
        - by destruct Hpop as (? & ? & _ & _ & _ & ?). }
      assert (tail_of (e :: es) (Some t)) as Ht' by (unfold tail_of; cbn; by rewrite Het).
      destruct (IH (left - Z.of_nat (mb_length b)) (sent + Z.of_nat (mb_length b)) (Some t) (e :: es) dl nt chain Hr'
        (Forall_cons_2 _ _ _ Hwe Hw) Ht' Hl') as (chain' & tail' & fin & elems' & dl' & nt' & E & Efin & Hr'' & Hb' & Hn').
      exists chain', tail', fin, elems', dl', nt'. split_and!; [|done|done|by rewrite Hb', <- Hd|done].
      rewrite E. do 2 f_equal. lia.
Qed.

(** ** Notifications *)

Definition delivered (l : list (scall MB)) : list (QueueElement MB) :=
  omap (fun c => match c with Delivered e => Some e | _ => None end) l.
Definition dropped (l : list (scall MB)) : list (QueueElement MB) :=
  omap (fun c => match c with Dropped e _ => Some e | _ => None end) l.

(** The elements the writer was told about, or will be: those delivered and those
    on the delayed list. *)
Definition told (s : Strategy MB) : list (QueueElement MB) := delivered (calls_ s) ++ (delayed_ s).*1.

Definition told_ok (s : Strategy MB) : Prop :=
  dropped (calls_ s) = [] /\ Forall (fun p => p.2 <> MODE_TERMINATED) (delayed_ s)
  /\ Z.of_nat (length (delayed_ s)) <= max_samples_ cfg /\ transport_shutdown_ s = false.

(** The members a notification does not change. *)
Definition rest_of (s : Strategy MB) :=
  (queue_ s, elems_ s, header_ s, header_sequence_ s, pkt_chain_ s, header_complete_ s, start_counter_ s,
   mode_ s, link_released_ s, transport_shutdown_ s, net_ s, wire_ s, header_block_ s).

Lemma notify_spec m e s : m <> MODE_TERMINATED -> notify m e s = call (Delivered e) s.
Proof. intros Hm. unfold notify. by rewrite decide_False. Qed.

Lemma notify_fold nt s : mode_ s <> MODE_TERMINATED ->
  fold_left (fun s e => notify (mode_ s) e s) nt s = set_calls (calls_ s ++ (Delivered <$> nt)) s.
Proof.
  revert s. induction nt as [|e nt IH]; intros s Hm; cbn [fold_left fmap list_fmap]; [rewrite app_nil_r; by destruct s|].
  rewrite notify_spec by done. rewrite IH by done. cbn. by rewrite <- (assoc_L (++)).
Qed.

Lemma notify_delayed_fold l s : Forall (fun p => p.2 <> MODE_TERMINATED) l -> transport_shutdown_ s = false ->
  fold_left (fun s p => notify_delayed p s) l s = set_calls (calls_ s ++ (Delivered <$> l.*1)) s.
Proof.
  intros Hl. revert s. induction Hl as [|[e m] l Hm Hl IH]; intros s Hs; cbn [fold_left fmap list_fmap]; [rewrite app_nil_r; by destruct s|].
  unfold notify_delayed at 2. rewrite Hs. cbn [negb orb]. rewrite notify_spec by done. rewrite IH by done. cbn. by rewrite <- (assoc_L (++)).
Qed.

Lemma delivered_app l1 l2 : delivered (l1 ++ l2) = delivered l1 ++ delivered l2.
Proof. apply omap_app. Qed.
Lemma dropped_app l1 l2 : dropped (l1 ++ l2) = dropped l1 ++ dropped l2.
Proof. apply omap_app. Qed.
Lemma delivered_fmap l : delivered (Delivered <$> l) = l.
Proof. induction l as [|e l IH]; [done|]. unfold delivered in *. cbn. by rewrite IH. Qed.
Lemma dropped_fmap l : dropped (Delivered <$> l) = [].
Proof. induction l as [|e l IH]; [done|]. exact IH. Qed.

Lemma filter_bool_perm {A} (f : A -> bool) (l : list A) :
  filter (fun x => f x = true) l ++ filter (fun x => f x = false) l ≡ₚ l.
Proof.
  induction l as [|x l IH]; [done|]. rewrite !filter_cons. destruct (f x) eqn:E.
  - rewrite decide_True, decide_False by done. cbn. by rewrite IH.
  - rewrite decide_False, decide_True by done. by rewrite <- Permutation_middle, IH.
Qed.

Lemma send_delayed_spec m s : told_ok s ->
  let s' := (send_delayed_notifications m s).2 in
  told_ok s' /\ told s' ≡ₚ told s /\ rest_of s' = rest_of s.
Proof.
  intros (D & F & L & Sh). unfold send_delayed_notifications.
  set (found := filter _ (delayed_ s)). set (kept := filter (fun p => m p.1 = false) (delayed_ s)).
  assert (found ++ kept ≡ₚ delayed_ s) as Hp by apply (filter_bool_perm (fun p => m p.1)).
  assert (Forall (fun p => p.2 <> MODE_TERMINATED) (found ++ kept)) as Hf by (by rewrite Hp).
  apply Forall_app in Hf as [Hf Hk]. pose proof (Permutation_length Hp) as Hlen. rewrite length_app in Hlen.
  assert (match found with [] => (false, set_delayed kept s) | _ :: _ => (true, fold_left (fun s p => notify_delayed p s) found (set_delayed kept s)) end.2
    = set_calls (calls_ s ++ (Delivered <$> found.*1)) (set_delayed kept s)) as ->.
  { destruct found as [|p l] eqn:E; [cbn; by rewrite app_nil_r|]. cbn [snd]. rewrite <- E in *. exact (notify_delayed_fold found (set_delayed kept s) Hf Sh). }
  unfold told_ok, told. cbn. rewrite dropped_app, dropped_fmap, D, delivered_app, delivered_fmap.
  split_and!; [done|done|lia|done| |done].
  rewrite <- (assoc_L (++)), <- fmap_app, Hp. done.
Qed.

(** ** A packet in progress *)

Definition body_of (complete : bool) (chain : list MB) : list MB := if complete then chain else tail chain.

Definition in_progress (complete : bool) (chain : list MB) (elems : list (QueueElement MB)) : Prop :=
  elems <> [] /\ Forall el_wf elems
  /\ (complete = false -> exists hb body, chain = hb :: body /\ (0 < mb_length hb)%nat)
  /\ rem_ok (body_of complete chain) elems.

(** The first block is the header, as long as that was not sent. *)
Definition header_first (s : Strategy MB) : Prop :=
  exists h, header_block_ s = Some h
    /\ (header_complete_ s = false -> exists hb body, pkt_chain_ s = hb :: body /\ base_addr hb = base_addr h).

(** The packet, or no packet: [length_] counts the bytes after the header. *)
Definition packet_ok (s : Strategy MB) : Prop :=
  length_ (header_ s) = total_length (body_of (header_complete_ s) (pkt_chain_ s))
  /\ length_ (header_ s) < 2 ^ 32
  /\ (elems_ s = [] /\ pkt_chain_ s = [] \/ in_progress (header_complete_ s) (pkt_chain_ s) (elems_ s) /\ header_first s).

Lemma total_length_nonneg (c : list MB) : 0 <= total_length c.
Proof. unfold total_length. lia. Qed.

Lemma rem_ok_pos chain elems : rem_ok chain elems -> elems <> [] -> 0 < total_length chain.
Proof.
  destruct elems as [|e es]; [done|]. intros (t & cur & _ & Hc & _ & ->) _. destruct (cur_ok_nonempty t cur Hc) as (b & cur' & -> & Hb).
  unfold total_length, mb_length in *. cbn. rewrite length_app. lia.
Qed.

Lemma in_progress_first complete chain elems : in_progress complete chain elems ->
  exists b chain', chain = b :: chain' /\ (0 < mb_length b)%nat.
Proof.
  intros (Hn & _ & Hh & Hr). destruct complete; [|destruct (Hh eq_refl) as (hb & body & -> & Hb); eauto].
  destruct elems as [|e es]; [done|]. destruct Hr as (t & cur & _ & Hc & _ & Hch). cbn in Hch. subst chain.
  destruct (cur_ok_nonempty t cur Hc) as (b & cur' & -> & Hb). eauto.
Qed.

(** The whole loop, the packet header included. *)
Lemma adjust_packet_loop mode complete chain elems n dl :
  in_progress complete chain elems -> 0 < n <= total_length chain ->
  exists t chain' tail' fin elems' dl' nt' complete' sent,
    next_tail elems = Ret t
    /\ adjust_loop cfg true mode chain (mkAD chain n 0 complete t elems dl []) = Ret (mkAD chain' 0 sent complete' tail' elems' dl' nt')
    /\ elems = fin ++ elems' /\ chain_bytes chain' = drop (Z.to_nat n) (chain_bytes chain)
    /\ sent = total_length (body_of complete chain) - total_length (body_of complete' chain') /\ 0 <= sent
    /\ (elems' = [] /\ chain' = [] \/ in_progress complete' chain' elems')
    /\ (complete' = false -> complete = false /\ exists hb hb' body, chain = hb :: body /\ chain' = hb' :: body /\ base_addr hb' = base_addr hb)
    /\ noted true mode fin dl dl' [] nt'.
Proof.
  intros (Hn & Hw & Hh & Hr) Hl. destruct (next_tail_wf elems Hw) as [t Ht]. exists t.
  assert (forall c0 body left sent, rem_ok body elems -> 0 <= left <= total_length body ->
    exists chain' tail' fin elems' dl' nt', adjust_loop cfg true mode body (mkAD c0 left sent true t elems dl []) = Ret (mkAD chain' 0 (sent + left) true tail' elems' dl' nt')
      /\ elems = fin ++ elems' /\ chain_bytes chain' = drop (Z.to_nat left) (chain_bytes body) /\ left = total_length body - total_length chain'
      /\ (elems' = [] /\ chain' = [] \/ in_progress true chain' elems') /\ noted true mode fin dl dl' [] nt') as Hloop.
  { intros c0 body left sent Hb Hlb. destruct (adjust_loop_spec true mode body left sent t elems dl [] c0 Hb Hw Ht Hlb)
      as (chain' & tail' & fin & elems' & dl' & nt' & E & Ef & Hr' & Hbytes & Hnote).
    exists chain', tail', fin, elems', dl', nt'. split_and!; [done|done|done| | |done].
    - unfold total_length. rewrite Hbytes, length_drop. unfold total_length in Hlb. lia.
    - destruct (decide (elems' = [])) as [-> |Hne]; [left; by split|right].
      rewrite Ef in Hw. apply Forall_app in Hw as [_ Hw']. split_and!; [done..|cbn; exact Hr']. }
  destruct complete.
  { destruct (Hloop chain chain n 0 Hr ltac:(lia)) as (chain' & tail' & fin & elems' & dl' & nt' & E & Ef & Hb & Hs & Hp & Hnote).
    exists chain', tail', fin, elems', dl', nt', true, (0 + n). split_and!; try done. lia. }
  destruct (Hh eq_refl) as (hb & body & -> & Hlen). cbn [body_of tail] in Hr |- *.
  assert (total_length (hb :: body) = Z.of_nat (mb_length hb) + total_length body) as Htl.
  { unfold total_length. rewrite chain_bytes_cons, length_app. unfold mb_length. lia. }
  rewrite Htl in Hl. cbn [adjust_loop ad_left ad_complete ad_sent ad_tail ad_elems ad_delayed ad_notify negb].
  rewrite (proj2 (Z.leb_gt n 0)) by lia. destruct (Z.leb_spec (Z.of_nat (mb_length hb)) n).
  - assert (0 <= n - Z.of_nat (mb_length hb) <= total_length body) as Hlb by lia.
    destruct (Hloop body body (n - Z.of_nat (mb_length hb)) 0 Hr Hlb) as (chain' & tail' & fin & elems' & dl' & nt' & E & Ef & Hb & Hs & Hp & Hnote).
    exists chain', tail', fin, elems', dl', nt', true, (0 + (n - Z.of_nat (mb_length hb))). split_and!; try done; [|lia].
    rewrite Hb, chain_bytes_cons, drop_app_ge by (unfold mb_length in *; lia). f_equal. unfold mb_length in *. lia.
  - exists (mb_advance_rd (Z.to_nat n) hb :: body), t, [], elems, dl, [], false, 0. split_and!; [done|done|done| |cbn; lia|done| | |apply noted_none].
    + rewrite !chain_bytes_cons, mb_advance_rd_bytes by lia. rewrite drop_app_le; [done|]. unfold mb_length in *. lia.
    + right. split_and!; [done|done| |done]. intros _. exists (mb_advance_rd (Z.to_nat n) hb), body. split; [done|].
      rewrite mb_advance_rd_length; lia.
    + intros _. split; [done|]. eexists hb, _, body. split_and!; [done|done|]. by rewrite base_advance by lia.
Qed.

(** The members a send does not change. *)
Definition kept_by_send (s : Strategy MB) :=
  (queue_ s, header_sequence_ s, start_counter_ s, mode_ s, link_released_ s, header_block_ s).

Lemma adjust_packet_spec s n : packet_ok s -> elems_ s <> [] -> told_ok s -> mode_ s <> MODE_TERMINATED ->
  0 < n <= total_length (pkt_chain_ s) ->
  exists s' fin, adjust_packet_after_send cfg n true s = Ret (length_ (header_ s') =? 0, s')
    /\ elems_ s = fin ++ elems_ s' /\ chain_bytes (pkt_chain_ s') = drop (Z.to_nat n) (chain_bytes (pkt_chain_ s))
    /\ packet_ok s' /\ told_ok s' /\ told s' ≡ₚ told s ++ fin
    /\ kept_by_send s' = kept_by_send s /\ net_ s' = net_ s /\ wire_ s' = wire_ s.
Proof.
  intros (Hlen & Hsmall & Hp) Hne (D & F & L & Sh) Hm Hn. destruct Hp as [[? _]|[Hp Hhf]]; [done|].
  destruct (adjust_packet_loop (mode_ s) _ _ _ n (delayed_ s) Hp Hn)
    as (t & chain' & tail' & fin & elems' & dl' & nt' & complete' & sent & Ht & E & Ef & Hb & Hs & Hs0 & Hp' & Hfirst & f1 & f2 & Hf & -> & -> & Hdl).
  unfold adjust_packet_after_send. destruct (elems_ s) as [|e es] eqn:Ee; [done|]. rewrite Ht. cbn [mbind outcome_bind]. rewrite E. cbn [mbind outcome_bind].
  cbn [ad_chain ad_complete ad_elems ad_delayed ad_notify ad_sent app].
  set (s1 := upd_header _ _). assert (mode_ s1 = mode_ s) as Hm1 by done. rewrite notify_fold by (by rewrite Hm1).
  assert (length_ (header_ s1) = total_length (body_of complete' chain')) as Hl1.
  { unfold s1. cbn. pose proof (total_length_nonneg (body_of complete' chain')) as H1. rewrite uwrap_small; [lia|]. unfold is_u. lia. }
  exists (set_calls (calls_ s1 ++ (Delivered <$> f2)) s1), fin.
  change (elems_ (set_calls _ s1)) with elems'. change (pkt_chain_ (set_calls _ s1)) with chain'.
  split_and!; [done|done|done| | | |done|done|done].
  - split_and!; [exact Hl1|cbn [header_ set_calls]; lia|]. destruct Hp' as [Hp'|Hp']; [by left|right; split; [exact Hp'|]].
    destruct Hhf as (h & Hh & Hh'). exists h. split; [exact Hh|]. intros Hc. destruct (Hfirst Hc) as (Hc0 & hb & hb' & body & E1 & E2 & Eb).
    destruct (Hh' Hc0) as (x & y & E3 & E4). exists hb', body. split; [exact E2|]. rewrite E1 in E3. injection E3 as <- _. congruence.
  - unfold told_ok, s1. cbn. rewrite dropped_app, dropped_fmap, D. split_and!; [done| |lia|done].
    apply Forall_app. split; [done|]. apply Forall_fmap, Forall_true. intros x. done.
  - unfold told, s1. cbn. rewrite delivered_app, delivered_fmap, fmap_app, <- list_fmap_compose, Hf.
    rewrite (list_fmap_ext (fst ∘ (fun e => (e, mode_ s))) id f1) by done. rewrite list_fmap_id. solve_Permutation.
Qed.

(** A connection that is not lost. *)
Definition net_ok (net : list answer) : Prop := Forall (fun a => a <> Closed /\ a <> Failed) net.

(** What an attempt to send the packet leads to. *)
Record sent_from (s : Strategy MB) (o : SendPacketOutcome) (s' : Strategy MB) (fin : list (QueueElement MB)) : Prop := mkSF {
  sf_elems : elems_ s = fin ++ elems_ s';
  sf_wire : wire_ s' ++ chain_bytes (pkt_chain_ s') = wire_ s ++ chain_bytes (pkt_chain_ s);
  sf_packet : packet_ok s';
  sf_told_ok : told_ok s';
  sf_told : told s' ≡ₚ told s ++ fin;
  sf_kept : kept_by_send s' = kept_by_send s;
  sf_net : net_ s' = tail (net_ s);
  sf_out : o = OUTCOME_COMPLETE_SEND /\ elems_ s' = [] \/ (o = OUTCOME_PARTIAL_SEND \/ o = OUTCOME_BACKPRESSURE) /\ elems_ s' <> [];
  sf_progress n net : net_ s = Accept n :: net -> o <> OUTCOME_BACKPRESSURE /\ total_length (pkt_chain_ s') < total_length (pkt_chain_ s) }.

Lemma packet_length_zero s : packet_ok s -> length_ (header_ s) = 0 <-> elems_ s = [].
Proof.
  intros (Hl & _ & [[He Hc]|[(Hn & _ & _ & Hr) _]]).
  - rewrite Hl, Hc, He. by destruct (header_complete_ s).
  - pose proof (rem_ok_pos _ _ Hr Hn). split; [lia|done].
Qed.

Lemma send_packet_spec s : (0 < MAX_SEND_BLOCKS cfg)%nat -> packet_ok s -> elems_ s <> [] -> told_ok s -> mode_ s <> MODE_TERMINATED ->
  net_ok (net_ s) -> exists o s' fin, send_packet cfg true s = Ret (o, s') /\ sent_from s o s' fin.
Proof.
  intros Hmax Hp Hne Ht Hm Hnet. pose proof Hp as (_ & _ & [[? _]|[Hin _]]); [done|].
  destruct (in_progress_first _ _ _ Hin) as (b & chain' & Hch & Hb).
  assert (forall s1, rest_of s1 = rest_of (set_net (tail (net_ s)) s) -> calls_ s1 = calls_ s -> delayed_ s1 = delayed_ s ->
    (forall n net, net_ s = Accept n :: net -> False) -> sent_from s OUTCOME_BACKPRESSURE s1 []) as Hblock.
  { intros s1 Hrest Hc Hd Hna. unfold rest_of in Hrest. cbn in Hrest. injection Hrest as R1 R2 R3 R4 R5 R6 R7 R8 R9 R10 R11 R12 R13.
    split; unfold packet_ok, header_first, told_ok, told, kept_by_send; rewrite ?R1, ?R2, ?R3, ?R4, ?R5, ?R6, ?R7, ?R8, ?R9, ?R10, ?R11, ?R12, ?R13, ?Hc, ?Hd, ?app_nil_r; try done.
    - by right; split; [right|].
    - intros n net Hn. by destruct (Hna n net). }
  unfold send_packet, do_send_packet. rewrite Hch. set (iov := chain_bytes (take (MAX_SEND_BLOCKS cfg) (b :: chain'))).
  destruct (net_ s) as [|a net] eqn:En; cbn [mbind outcome_bind].
  { exists OUTCOME_BACKPRESSURE, s, []. split; [done|]. apply Hblock; [|done|done|done]. unfold rest_of. cbn. by rewrite En. }
  apply Forall_cons in Hnet as [[Hc Hf] Hnet]. destruct a as [n| | |]; [|exists OUTCOME_BACKPRESSURE, (set_net net s), []; split; [done|by apply Hblock]|done|done].
  set (k := Z.min (Zpos n) (Z.of_nat (length iov))). set (s1 := set_wire _ _).
  assert (exists rest, chain_bytes (b :: chain') = iov ++ rest) as [rest Hrest].
  { exists (chain_bytes (drop (MAX_SEND_BLOCKS cfg) (b :: chain'))). unfold iov. by rewrite <- chain_bytes_app, take_drop. }
  assert (0 < Z.of_nat (length iov)) as Hiov.
  { unfold iov. destruct (MAX_SEND_BLOCKS cfg) as [|m]; [lia|]. cbn [take]. rewrite chain_bytes_cons, length_app. unfold mb_length in Hb. lia. }
  assert (0 < k <= total_length (b :: chain')) as Hk by (unfold total_length; rewrite Hrest, length_app; lia).
  cbn [mbind outcome_bind]. rewrite (proj2 (Z.eqb_neq k 0)), (proj2 (Z.ltb_ge k 0)) by lia.
  set (s2 := if has_send_buffer_ cfg then _ else _).
  assert (rest_of s2 = rest_of s1 /\ told s2 = told s1 /\ dropped (calls_ s2) = dropped (calls_ s1) /\ delayed_ s2 = delayed_ s1) as (Hr2 & Ht2 & Hd2 & Hdl2).
  { unfold s2. destruct (has_send_buffer_ cfg); [|done]. unfold told. cbn. rewrite dropped_app, delivered_app. cbn. by rewrite !app_nil_r. }
  unfold rest_of in Hr2. cbn in Hr2. injection Hr2 as R1 R2 R3 R4 R5 R6 R7 R8 R9 R10 R11 R12 R13. clearbody s2.
  destruct (adjust_packet_spec s2 k) as (s3 & fin & E & Ef & Hb3 & Hp3 & Ht3 & Htold & Hkept & Hn3 & Hw3).
  { unfold packet_ok, header_first. by rewrite R2, R3, R5, R6, R13. }
  { by rewrite R2. }
  { unfold told_ok. rewrite Hd2, Hdl2, R10. exact Ht. }
  { by rewrite R8. }
  { rewrite R5, Hch. exact Hk. }
  rewrite E. cbn [mbind outcome_bind]. rewrite R2 in Ef. rewrite R5, Hch in Hb3.
  eexists _, s3, fin. split; [reflexivity|]. split; [done| |done|done| | | | |].
  - rewrite Hw3, R12, Hb3, Hch, Hrest, <- (assoc_L (++)). f_equal.
    rewrite <- (take_drop (Z.to_nat k) (iov ++ rest)) at 2. f_equal. rewrite take_app_le; [done|lia].
  - rewrite Htold, Ht2. done.
  - rewrite Hkept. unfold kept_by_send. by rewrite R1, R4, R7, R8, R9, R13.
  - by rewrite Hn3, R11, En.
  - pose proof (packet_length_zero s3 Hp3) as Hz. destruct (Z.eqb_spec (length_ (header_ s3)) 0) as [Hz0|Hz0]; [left; tauto|].
    right. split; [by left|]. tauto.
  - intros n' net' _. split; [by destruct (_ =? 0)|]. unfold total_length. rewrite Hch, Hb3, length_drop. unfold total_length in Hk. lia.
Qed.

End props.

(** ** The packets on the wire *)

Record config_ok (cfg : SendConfig) : Prop := mkCO {
  co_samples : 1 <= max_samples_ cfg;
  co_header : 0 <= max_header_size_ cfg <= max_size_ cfg;
  co_size : max_size_ cfg < 2 ^ 32;
  co_blocks : (0 < MAX_SEND_BLOCKS cfg)%nat }.

(** A transport without a limit on messages, whose headers have a length up to
    the configured maximum. *)
Class StreamTransport (MB : Type) `{MessageBlock MB} (TP : Transport MB) (cfg : SendConfig) : Prop := {
  st_whole : max_message_size = 0;
  st_header h : (0 < mb_length (header_block_of h))%nat /\ Z.of_nat (mb_length (header_block_of h)) <= max_header_size_ cfg }.

Section props.
Context {MB : Type} {MBo : MessageBlock MB} {MBl : MessageBlockLaws MB} (cfg : SendConfig).
Context {TP : Transport MB} {ST : StreamTransport MB TP cfg} (CO : config_ok cfg).
Implicit Types (s : Strategy MB) (e : QueueElement MB).

Record packet := mkPK { pk_header : TransportHeader; pk_elems : list (QueueElement MB) }.

Definition el_bytes (e : QueueElement MB) : list Z := chain_bytes (msg e).
Definition pk_bytes (p : packet) : list Z := mb_bytes (header_block_of (pk_header p)) ++ concat (el_bytes <$> pk_elems p).

Definition lengths (l : list (QueueElement MB)) : Z := foldr (fun e n => el_length e + n) 0 l.
Definition alone (l : list (QueueElement MB)) : Prop := forall e, e ∈ l -> requires_exclusive_packet e = true -> l = [e].

(** What the configuration promises of a packet. *)
Record pk_ok (p : packet) : Prop := mkPO {
  po_elems : pk_elems p <> [];
  po_samples : Z.of_nat (length (pk_elems p)) <= max_samples_ cfg;
  po_length : length_ (pk_header p) = lengths (pk_elems p);
  po_size : Z.of_nat (length (pk_bytes p)) <= max_size_ cfg;
  po_alone : alone (pk_elems p);
  po_last : last_fragment_ (pk_header p) = false }.

(** The sequence numbers after [q]. *)
Fixpoint seqs_from (q : SequenceNumber) (n : nat) : list SequenceNumber :=
  match n with O => [] | S n => next q :: seqs_from (next q) n end.

Definition good (e : QueueElement MB) : Prop :=
  el_wf e /\ max_header_size_ cfg + el_length e <= max_size_ cfg /\ is_fragment e = false.

(** The elements accepted so far are those done, those of the current packet and
    those queued, in this order; the elements done and [prep] (the elements of the
    packet in progress) are those of the packets; the packets are on the wire up
    to the unsent rest of the last one. *)
Record core (q0 : SequenceNumber) (acc prep : list (QueueElement MB)) (s : Strategy MB) (done_ : list (QueueElement MB)) (pkts : list packet) : Prop := mkCR {
  cr_acc : acc = done_ ++ elems_ s ++ queue_ s;
  cr_good : Forall good acc;
  cr_told_ok : told_ok cfg s;
  cr_told : told s ≡ₚ done_;
  cr_pkts : Forall pk_ok pkts;
  cr_split : concat (pk_elems <$> pkts) = done_ ++ prep;
  cr_wire : wire_ s ++ chain_bytes (pkt_chain_ s) = concat (pk_bytes <$> pkts);
  cr_seqs : (fun p => sequence_ (pk_header p)) <$> pkts = seqs_from q0 (length pkts);
  cr_seq : header_sequence_ s = Nat.iter (length pkts) next q0;
  cr_net : net_ok (net_ s);
  cr_rel : link_released_ s = false }.

(** Elements that are a packet, not yet prepared. *)
Record ready (s : Strategy MB) : Prop := mkRD {
  rd_chain : pkt_chain_ s = [];
  rd_length : length_ (header_ s) = lengths (elems_ s);
  rd_size : max_header_size_ cfg + length_ (header_ s) <= max_size_ cfg;
  rd_samples : Z.of_nat (length (elems_ s)) <= max_samples_ cfg;
  rd_alone : alone (elems_ s);
  rd_last : elems_ s <> [] -> last_fragment_ (header_ s) = false }.

Lemma chain_concat l : chain_bytes (concat (msg <$> l)) = concat (el_bytes <$> l).
Proof. induction l as [|e l IH]; [done|]. cbn [fmap list_fmap concat]. by rewrite chain_bytes_app, IH. Qed.

Lemma lengths_concat l : total_length (concat (msg <$> l)) = lengths l.
Proof.
  induction l as [|e l IH]; [done|]. cbn [fmap list_fmap concat]. change (lengths (e :: l)) with (el_length e + lengths l). rewrite <- IH.
  unfold el_length, total_length. rewrite chain_bytes_app, length_app. lia.
Qed.

Lemma lengths_app l1 l2 : lengths (l1 ++ l2) = lengths l1 + lengths l2.
Proof. unfold lengths. induction l1 as [|e l1 IH]; cbn [app foldr]; lia. Qed.

Lemma lengths_nonneg l : 0 <= lengths l.
Proof. rewrite <- lengths_concat. apply total_length_nonneg. Qed.

Lemma build_chain_spec l : Forall el_wf l -> build_chain l = Ret (concat (msg <$> l)).
Proof.
  induction 1 as [|e l (t & Ht & Hc) Hl IH]; [done|]. cbn [build_chain fmap list_fmap concat].
  destruct (cur_ok_nonempty _ _ Hc) as (b & m & -> & _). by rewrite IH.
Qed.

Lemma seqs_from_snoc q n : seqs_from q (S n) = seqs_from q n ++ [next (Nat.iter n next q)].
Proof.
  revert q. induction n as [|n IH]; intros q; [done|]. cbn [seqs_from]. cbn [seqs_from] in IH. rewrite (IH (next q)).
  by rewrite Nat.iter_swap.
Qed.

Lemma good_wf l : Forall good l -> Forall el_wf l.
Proof. intros Hl. eapply Forall_impl; [exact Hl|]. by intros e [? _]. Qed.

Lemma prepare_packet_spec q0 acc s done_ pkts : core q0 acc [] s done_ pkts -> ready s -> elems_ s <> [] ->
  exists s' p, prepare_packet s = Ret s' /\ core q0 acc (elems_ s') s' done_ (pkts ++ [p]) /\ packet_ok s'
    /\ elems_ s' = elems_ s /\ queue_ s' = queue_ s /\ mode_ s' = mode_ s /\ net_ s' = net_ s /\ start_counter_ s' = start_counter_ s
    /\ total_length (pkt_chain_ s') <= max_header_size_ cfg + lengths (elems_ s).
Proof.
  intros [A G T1 T2 P S W Q1 Q2 N R] [C L Z M AL LF] Hne. unfold prepare_packet.
  assert (Forall good (elems_ s)) as Hg by (rewrite A, !Forall_app in G; tauto).
  set (s1 := prepare_header s). assert (elems_ s1 = elems_ s) as E1 by done.
  rewrite (build_chain_spec (elems_ s1)) by (rewrite E1; by apply good_wf). cbn [mbind outcome_bind].
  set (h := header_ s1). destruct (st_header h) as [Hh1 Hh2].
  set (s2 := set_header_complete _ _). exists s2, (mkPK h (elems_ s)).
  assert (pkt_chain_ s2 = header_block_of h :: concat (msg <$> elems_ s)) as Hpc by done.
  assert (chain_bytes (pkt_chain_ s2) = pk_bytes (mkPK h (elems_ s))) as Hcb.
  { rewrite Hpc, chain_bytes_cons, chain_concat. done. }
  assert (length_ h = lengths (elems_ s)) as Hlh by done.
  assert (total_length (pkt_chain_ s2) = Z.of_nat (mb_length (header_block_of h)) + lengths (elems_ s)) as Htl.
  { rewrite Hpc, <- lengths_concat. unfold total_length, mb_length. rewrite chain_bytes_cons, length_app. lia. }
  pose proof (lengths_nonneg (elems_ s)) as Hnn. destruct CO as [c1 c2 c3 c4]. rewrite L in Z.
  split; [done|]. split_and!; [|split_and!|done|done|done|done|done|rewrite Htl; lia].
  - assert (Z.of_nat (length (pk_bytes (mkPK h (elems_ s)))) <= max_size_ cfg) as Hsz.
    { rewrite <- Hcb. unfold total_length in Htl. lia. }
    split; [done|done|done|done| | | | | |done|done].
    + apply Forall_app. split; [done|]. apply Forall_singleton. split; try done. by apply LF.
    + rewrite fmap_app, concat_app, S. cbn. by rewrite !app_nil_r.
    + rewrite Hcb, fmap_app, concat_app, <- W, C. cbn. by rewrite !app_nil_r.
    + rewrite fmap_app, Q1, length_app, Nat.add_1_r, seqs_from_snoc. cbn. by rewrite Q2.
    + rewrite length_app, Nat.add_1_r. cbn. by rewrite Q2.
  - rewrite Hpc. change (length_ (header_ s2)) with (length_ h). change (header_complete_ s2) with false. cbn [body_of tail]. by rewrite lengths_concat.
  - change (length_ (header_ s2)) with (length_ h). lia.
  - right. split; [|exists (header_block_of h); split; [done|]; intros _; rewrite Hpc; by eexists _, _].
    split_and!; [done|by apply good_wf| |].
    + intros _. rewrite Hpc. by eexists _, _.
    + rewrite Hpc. apply rem_ok_start. by apply good_wf.
Qed.

Lemma core_sent q0 acc s done_ pkts o s' fin : core q0 acc (elems_ s) s done_ pkts -> sent_from cfg s o s' fin ->
  core q0 acc (elems_ s') s' (done_ ++ fin) pkts.
Proof.
  intros [A G T1 T2 P S W Q1 Q2 N R] [F1 F2 F3 F4 F5 F6 F7 F8 F9]. unfold kept_by_send in F6. injection F6 as K1 K2 K3 K4 K5 K6.
  split; [|done|done| |done| |by rewrite F2|done|by rewrite K2| |by rewrite K5].
  - rewrite A, F1, K1. by rewrite <- !(assoc_L (++)).
  - by rewrite F5, T2.
  - by rewrite S, F1, (assoc_L (++)).
  - rewrite F7. destruct (net_ s); [done|]. by apply Forall_cons in N as [_ N].
Qed.

(** ** The invariant of a connection that is not lost *)

Record direct_ok (s : Strategy MB) : Prop := mkDO {
  do_queue : queue_ s = [];
  do_ready : ready s;
  do_room : Z.of_nat (length (elems_ s)) < max_samples_ cfg;
  do_shared : Forall (fun e => requires_exclusive_packet e = false) (elems_ s) }.

Definition inv (q0 : SequenceNumber) (acc : list (QueueElement MB)) (s : Strategy MB) : Prop := exists done_ pkts,
  mode_ s = MODE_DIRECT /\ core q0 acc [] s done_ pkts /\ direct_ok s
  \/ mode_ s = MODE_QUEUE /\ core q0 acc (elems_ s) s done_ pkts /\ packet_ok s.

Definition fields (s : Strategy MB) :=
  (queue_ s, elems_ s, header_ s, header_sequence_ s, pkt_chain_ s, header_complete_ s, mode_ s, link_released_ s, net_ s, wire_ s, header_block_ s).

Lemma core_fields q0 acc prep s s' done_ pkts : fields s' = fields s -> told_ok cfg s' -> told s' ≡ₚ told s ->
  core q0 acc prep s done_ pkts -> core q0 acc prep s' done_ pkts.
Proof.
  unfold fields. intros F T1 T2 [A G T1' T2' P S W Q1 Q2 N R]. injection F as F1 F2 F3 F4 F5 F6 F7 F8 F9 F10 F11.
  split; rewrite ?F1, ?F2, ?F4, ?F5, ?F8, ?F9, ?F10, ?T2; done.
Qed.

Lemma inv_fields q0 acc s s' : fields s' = fields s -> told_ok cfg s' -> told s' ≡ₚ told s -> inv q0 acc s -> inv q0 acc s'.
Proof.
  intros F T1 T2 (d & pkts & I). exists d, pkts. pose proof (core_fields q0 acc) as Hc. unfold fields in F. injection F as F1 F2 F3 F4 F5 F6 F7 F8 F9 F10 F11.
  destruct I as [(Hm & C & [D1 [r1 r2 r3 r4 r5 r6] D3 D4])|(Hm & C & Hp)]; [left|right]; rewrite F7, ?F2; (split; [done|split]).
  - apply (Hc [] s); [unfold fields; congruence|done|done|done].
  - split; [congruence|split|..]; rewrite ?F2, ?F3, ?F5; done.
  - apply (Hc _ s); [unfold fields; congruence|done|done|done].
  - unfold packet_ok, header_first in *. by rewrite F2, F3, F5, F6, F11.
Qed.

Lemma inv_told_ok q0 acc s : inv q0 acc s -> told_ok cfg s.
Proof. intros (d & pkts & [(_ & C & _)|(_ & C & _)]); exact (cr_told_ok _ _ _ _ _ _ C). Qed.

Lemma inv_finish q0 acc s m : inv q0 acc s -> inv q0 acc (send_delayed_notifications m s).2.
Proof.
  intros I. destruct (send_delayed_spec cfg m s (inv_told_ok _ _ _ I)) as (T1 & T2 & R). apply (inv_fields q0 acc s); [|done|done|done].
  unfold rest_of in R. unfold fields. congruence.
Qed.

Lemma inv_work q0 acc s : inv q0 acc s -> inv q0 acc (call WorkAvailable s).
Proof.
  intros I. pose proof (inv_told_ok _ _ _ I) as (D & F & L & Sh). apply (inv_fields q0 acc s); [done| | |done].
  - unfold told_ok. cbn [calls_ call set_calls]. rewrite dropped_app, D. done.
  - unfold told. cbn [calls_ call set_calls]. rewrite delivered_app, app_nil_r. done.
Qed.

Lemma inv_start q0 acc s n : inv q0 acc s -> inv q0 acc (set_start_counter n s).
Proof. intros I. apply (inv_fields q0 acc s); [done|exact (inv_told_ok _ _ _ I)|done|done]. Qed.

Lemma core_mode q0 acc prep s done_ pkts m : core q0 acc prep s done_ pkts -> core q0 acc prep (set_mode m s) done_ pkts.
Proof. by intros [A G T1 T2 P S W Q1 Q2 N R]. Qed.

Lemma packet_empty s : packet_ok s -> elems_ s = [] -> pkt_chain_ s = [] /\ length_ (header_ s) = 0.
Proof. intros Hp He. pose proof (proj2 (packet_length_zero s Hp) He). destruct Hp as (_ & _ & [[_ ?]|[[? _] _]]); done. Qed.

Lemma direct_ok_empty s : packet_ok s -> elems_ s = [] -> queue_ s = [] -> direct_ok s.
Proof.
  intros Hp He Hq. destruct (packet_empty s Hp He) as [Hc Hl]. destruct CO as [c1 c2 c3 c4].
  split; [done|split|..]; rewrite ?He, ?Hl; cbn; try done; try lia. intros e Hin. by apply elem_of_nil in Hin.
Qed.

Lemma direct_send_spec q0 acc s done_ pkts r : core q0 acc [] s done_ pkts -> mode_ s = MODE_DIRECT -> ready s -> elems_ s <> [] -> queue_ s = [] ->
  exists s', direct_send cfg r s = Ret s' /\ inv q0 acc s' /\ (mode_ s' = MODE_DIRECT -> elems_ s' = []) .
Proof.
  intros C Hm R Hne Hq. unfold direct_send. destruct (prepare_packet_spec q0 acc s done_ pkts C R Hne) as (s1 & p & -> & C1 & P1 & E1 & Q1 & M1 & _).
  cbn [mbind outcome_bind direct_send_loop].
  destruct (send_packet_spec cfg s1) as (o & s2 & fin & -> & SF); [by destruct CO|done|by rewrite E1|exact (cr_told_ok _ _ _ _ _ _ C1)|by rewrite M1, Hm|exact (cr_net _ _ _ _ _ _ C1)|].
  cbn [mbind outcome_bind]. pose proof (core_sent _ _ _ _ _ _ _ _ C1 SF) as C2. destruct SF as [F1 F2 F3 F4 F5 F6 F7 F8 F9].
  unfold kept_by_send in F6. injection F6 as K1 K2 K3 K4 K5 K6. destruct F8 as [[-> He]|[Ho He]].
  - exists s2. split; [done|]. split; [|done]. exists (done_ ++ fin), (pkts ++ [p]). left. split; [congruence|].
    rewrite He in C2. split; [done|]. apply direct_ok_empty; [done|done|congruence].
  - exists (set_mode MODE_QUEUE s2). split; [by destruct Ho as [-> | ->]|]. split; [|done].
    exists (done_ ++ fin), (pkts ++ [p]). right. split; [done|]. split; [by apply core_mode|done].
Qed.

(** ** The operations *)

Lemma el_length_nonneg e : 0 <= el_length e.
Proof. apply total_length_nonneg. Qed.

(** An element that fits is appended to the packet. *)
Definition append (e : QueueElement MB) (s : Strategy MB) : Strategy MB :=
  let s := elems_put e (upd_header (set_last false) s) in
  upd_header (set_length (uwrap 32 (length_ (header_ s) + el_length e))) s.

Lemma append_spec q0 acc s done_ pkts e : core q0 acc [] s done_ pkts -> direct_ok s -> good e ->
  max_header_size_ cfg + length_ (header_ s) + el_length e <= max_size_ cfg -> (requires_exclusive_packet e = true -> elems_ s = []) ->
  core q0 (acc ++ [e]) [] (append e s) done_ pkts /\ ready (append e s) /\ queue_ (append e s) = []
  /\ elems_ (append e s) = elems_ s ++ [e] /\ length_ (header_ (append e s)) = length_ (header_ s) + el_length e.
Proof.
  intros [A G T1 T2 P S W Q1 Q2 N R] [D1 [r1 r2 r3 r4 r5 r6] D3 D4] Hg Hfit Hex. destruct CO as [c1 c2 c3 c4].
  pose proof (lengths_nonneg (elems_ s)) as Hnn. pose proof (el_length_nonneg e) as Hen.
  assert (length_ (header_ (append e s)) = length_ (header_ s) + el_length e) as Hl.
  { unfold append. cbn. apply uwrap_small. unfold is_u. lia. }
  assert (elems_ (append e s) = elems_ s ++ [e]) as He by done.
  split_and!; [split|split|done|done|done]; try done.
  - rewrite He. change (queue_ (append e s)) with (queue_ s). rewrite A, D1, !app_nil_r. by rewrite (assoc_L (++)).
  - apply Forall_app. split; [done|]. by apply Forall_singleton.
  - rewrite Hl, He, lengths_app, r2. change (lengths [e]) with (el_length e + 0). lia.
  - rewrite Hl. lia.
  - rewrite He, length_app. cbn. lia.
  - rewrite He. intros x Hin Hx. apply elem_of_app in Hin as [Hin|Hin].
    + rewrite Forall_forall in D4. rewrite (D4 x Hin) in Hx. done.
    + apply list_elem_of_singleton in Hin as ->. by rewrite Hex.
Qed.

Lemma send_loop_spec q0 acc s done_ pkts r e n : core q0 acc [] s done_ pkts -> mode_ s = MODE_DIRECT -> direct_ok s -> good e ->
  max_header_size_ cfg + length_ (header_ s) + el_length e <= max_size_ cfg -> (requires_exclusive_packet e = true -> elems_ s = []) ->
  exists s', send_loop cfg (S (S n)) r (requires_exclusive_packet e) true e None s = Ret s' /\ inv q0 (acc ++ [e]) s'.
Proof.
  intros C Hm D Hg Hfit Hex. destruct (append_spec q0 acc s done_ pkts e C D Hg Hfit Hex) as (C1 & R1 & Qu1 & E1 & L1).
  assert (forall s2 ex, send_loop cfg (S n) r ex false e None s2 = Ret s2) as Hend by done.
  cbn [send_loop]. rewrite (bool_decide_eq_true_2 _ Hm). cbn [orb andb]. rewrite st_whole. cbn [Z.eqb negb].
  fold (append e s). change (bool_decide (is_Some (@None (QueueElement MB)))) with false. cbn [orb].
  change (upd_header (set_length (uwrap 32 (length_ (header_ (elems_put e (upd_header (set_last false) s))) + el_length e)))
    (elems_put e (upd_header (set_last false) s))) with (append e s).
  assert (mode_ (append e s) = MODE_DIRECT) as Hm1 by done.
  destruct (_ || _ || _) eqn:Ef.
  - destruct (direct_send_spec q0 (acc ++ [e]) (append e s) done_ pkts r C1 Hm1 R1) as (s2 & -> & I2 & _); [rewrite E1; by destruct (elems_ s)|done|].
    cbn [mbind outcome_bind]. destruct (decide (mode_ s2 = MODE_QUEUE)); cbn [mbind outcome_bind].
    + exists (call WorkAvailable s2). split; [done|]. by apply inv_work.
    + by exists s2.
  - cbn [mbind outcome_bind]. exists (append e s). split; [done|]. exists done_, pkts. left. split; [done|]. split; [done|].
    apply orb_false_iff in Ef as [[Ef1%Z.leb_gt _]%orb_false_iff Ef2]. split; [done|done|done|].
    rewrite E1. apply Forall_app. split; [by destruct D|]. by apply Forall_singleton.
Qed.

Lemma queue_put_inv q0 acc s e : inv q0 acc s -> mode_ s = MODE_QUEUE -> good e -> inv q0 (acc ++ [e]) (queue_put e s).
Proof.
  intros (d & pkts & [(Hm & _)|(_ & [A G T1 T2 P S W Q1 Q2 N R] & Hp)]) Hq Hg; [congruence|].
  exists d, pkts. right. split; [done|]. split; [|exact Hp]. split; try done.
  - rewrite A. change (queue_ (queue_put e s)) with (queue_ s ++ [e]). change (elems_ (queue_put e s)) with (elems_ s).
    by rewrite !(assoc_L (++)).
  - apply Forall_app. split; [done|]. by apply Forall_singleton.
Qed.

Definition fits (e : QueueElement MB) : bool := max_header_size_ cfg + el_length e <=? max_size_ cfg.

Lemma space_spec s : 0 <= length_ (header_ s) -> max_header_size_ cfg + length_ (header_ s) <= max_size_ cfg ->
  space_available cfg s = max_size_ cfg - (max_header_size_ cfg + length_ (header_ s)).
Proof.
  intros H1 H2. unfold space_available. rewrite st_whole. cbn. destruct CO as [c1 c2 c3 c4]. rewrite uwrap_small; [done|]. unfold is_u. lia.
Qed.

Lemma space_direct s : direct_ok s -> space_available cfg s = max_size_ cfg - (max_header_size_ cfg + length_ (header_ s)).
Proof. intros [D1 [r1 r2 r3 r4 r5 r6] D3 D4]. pose proof (lengths_nonneg (elems_ s)). apply space_spec; lia. Qed.

Lemma send_direct q0 acc s e r n : inv q0 acc s -> mode_ s = MODE_DIRECT -> good e ->
  max_header_size_ cfg + length_ (header_ s) + el_length e <= max_size_ cfg -> (requires_exclusive_packet e = true -> elems_ s = []) ->
  exists s', send_loop cfg (S (S n)) r (requires_exclusive_packet e) true e None s = Ret s' /\ inv q0 (acc ++ [e]) s'.
Proof.
  intros (d & pkts & [(Hm & C & D)|(Hm & _)]) Hd Hg Hfit Hex; [|congruence]. by apply (send_loop_spec q0 acc s d pkts).
Qed.

Lemma send_inv q0 acc s e r : inv q0 acc s -> el_wf e -> is_fragment e = false ->
  exists s', send cfg e r s = Ret s' /\ inv q0 (acc ++ (if fits e then [e] else [])) s'.
Proof.
  intros I Hw Hfe. unfold send. pose proof I as (d & pkts & Hcase).
  assert (link_released_ s = false) as -> by (destruct Hcase as [(_ & C & _)|(_ & C & _)]; exact (cr_rel _ _ _ _ _ _ C)).
  assert (mode_ s <> MODE_TERMINATED) as Hnt by (destruct Hcase as [(-> & _)|(-> & _)]; done).
  rewrite (bool_decide_eq_false_2 _ Hnt), st_whole. cbn [andb Z.eqb]. unfold fits.
  destruct (Z.leb_spec (max_header_size_ cfg + el_length e) (max_size_ cfg)) as [Hfit|Hfit].
  2:{ rewrite (proj2 (Z.ltb_lt _ _)) by lia. exists s. by rewrite app_nil_r. }
  rewrite (proj2 (Z.ltb_ge _ _)) by lia. assert (good e) as Hg by done.
  destruct Hcase as [(Hm & C & D)|(Hm & C & Hp)].
  2:{ rewrite (bool_decide_eq_true_2 _ Hm). cbn [orb]. change (mode_ (queue_put e s)) with (mode_ s). rewrite Hm. cbn [bool_decide negb].
      eexists. split; [reflexivity|]. apply inv_work. by apply queue_put_inv. }
  rewrite (bool_decide_eq_false_2 (mode_ s = MODE_QUEUE)), (bool_decide_eq_false_2 (mode_ s = MODE_SUSPEND)) by congruence. cbn [orb Z.ltb Z.compare].
  rewrite space_direct by done. pose proof D as [D1 R D3 D4]. pose proof R as [r1 r2 r3 r4 r5 r6].
  destruct ((requires_exclusive_packet e && negb (length (elems_ s) =? 0)%nat)
            || (max_size_ cfg - (max_header_size_ cfg + length_ (header_ s)) <? el_length e)) eqn:Ef.
  - assert (elems_ s <> []) as Hne.
    { intros He. rewrite He in Ef, r2. cbn in Ef, r2. rewrite andb_false_r in Ef. cbn in Ef. apply Z.ltb_lt in Ef. lia. }
    destruct (direct_send_spec q0 acc s d pkts r C Hm R Hne D1) as (s1 & -> & I1 & He1). cbn [mbind outcome_bind].
    destruct (decide (mode_ s1 = MODE_QUEUE)) as [Hq|Hq].
    { eexists. split; [reflexivity|]. apply inv_work. by apply queue_put_inv. }
    pose proof I1 as (d1 & pkts1 & [(Hm1 & C1 & D1')|(Hm1 & _)]); [|congruence].
    destruct (send_direct q0 acc s1 e r (Z.to_nat (el_length e)) I1 Hm1 Hg) as (s2 & E2 & I2); [|by rewrite (He1 Hm1)|].
    { pose proof (rd_length _ (do_ready _ D1')) as Hl1. rewrite (He1 Hm1) in Hl1. rewrite Hl1. cbn. lia. }
    rewrite E2. cbn [mbind outcome_bind]. eexists. split; [reflexivity|]. by apply inv_finish.
  - apply orb_false_iff in Ef as [Ef1 Ef2%Z.ltb_ge].
    destruct (send_direct q0 acc s e r (Z.to_nat (el_length e)) I Hm Hg) as (s2 & E2 & I2); [lia| |].
    { intros Hex. rewrite Hex in Ef1. cbn in Ef1. apply negb_false_iff, Nat.eqb_eq in Ef1. by apply nil_length_inv. }
    rewrite E2. cbn [mbind outcome_bind]. eexists. split; [reflexivity|]. by apply inv_finish.
Qed.

Lemma send_stop_inv q0 acc s pub : inv q0 acc s -> exists s', send_stop cfg pub s = Ret s' /\ inv q0 acc s'.
Proof.
  intros I. unfold send_stop. pose proof I as (d & pkts & Hcase).
  assert (link_released_ s = false) as -> by (destruct Hcase as [(_ & C & _)|(_ & C & _)]; exact (cr_rel _ _ _ _ _ _ C)).
  destruct (start_counter_ s =? 0); [by exists s|]. set (s1 := set_start_counter _ s). assert (inv q0 acc s1) as I1 by (by apply inv_start).
  destruct (negb (start_counter_ s1 =? 0)); [by exists s1|]. assert (mode_ s1 = mode_ s) as Hm1 by done.
  assert (forall s2, inv q0 acc s2 -> exists s', Ret (if decide (pub = GUID_UNKNOWN) then (send_delayed_notifications matches_all s2).2
    else (send_delayed_notifications (MatchOnPubId pub) s2).2) = Ret s' /\ inv q0 acc s') as Hfin.
  { intros s2 I2. eexists. split; [reflexivity|]. destruct (decide _); by apply inv_finish. }
  destruct Hcase as [(Hm & C & D)|(Hm & C & Hp)]; rewrite Hm1, Hm; cbn [bool_decide andb orb negb].
  2:{ by exists s1. }
  destruct ((0 <? length_ (header_ s1)) && negb (length (elems_ s1) =? 0)%nat) eqn:Ef; [|by apply Hfin].
  apply andb_true_iff in Ef as [_ Ef]. destruct I1 as (d1 & pkts1 & [(Hd1 & C1 & D1)|(Hd1 & _)]); [|congruence].
  destruct (direct_send_spec q0 acc s1 d1 pkts1 true C1 Hd1 (do_ready _ D1)) as (s2 & -> & I2 & _); [|by destruct D1|].
  { intros He. by rewrite He in Ef. }
  by apply Hfin.
Qed.

(** ** The queue *)

Lemma alone_app xs e : Forall (fun x => requires_exclusive_packet x = false) xs -> (requires_exclusive_packet e = true -> xs = []) -> alone (xs ++ [e]).
Proof.
  intros Hx He y Hin Hy. apply elem_of_app in Hin as [Hin|Hin].
  - rewrite Forall_forall in Hx. rewrite (Hx y Hin) in Hy. done.
  - apply list_elem_of_singleton in Hin as ->. by rewrite He.
Qed.

Lemma alone_shared xs : Forall (fun x => requires_exclusive_packet x = false) xs -> alone xs.
Proof. rewrite Forall_forall. intros Hx y Hin Hy. by rewrite (Hx y Hin) in Hy. Qed.

(** The elements taken from the queue for a packet. *)
Record taken_from (s : Strategy MB) (taken rest : list (QueueElement MB)) (h : TransportHeader) : Prop := mkTF {
  tf_queue : queue_ s = taken ++ rest;
  tf_length : length_ h = lengths (elems_ s ++ taken);
  tf_size : max_header_size_ cfg + length_ h <= max_size_ cfg;
  tf_samples : Z.of_nat (length (elems_ s ++ taken)) <= max_samples_ cfg;
  tf_alone : alone (elems_ s ++ taken);
  tf_some : elems_ s = [] -> queue_ s <> [] -> taken <> [];
  tf_last : elems_ s ++ taken <> [] -> last_fragment_ h = false }.

Lemma taken_none s : length_ (header_ s) = lengths (elems_ s) -> max_header_size_ cfg + length_ (header_ s) <= max_size_ cfg ->
  Z.of_nat (length (elems_ s)) < max_samples_ cfg -> Forall (fun x => requires_exclusive_packet x = false) (elems_ s) ->
  (elems_ s = [] -> queue_ s <> [] -> False) -> (elems_ s <> [] -> last_fragment_ (header_ s) = false) -> taken_from s [] (queue_ s) (header_ s).
Proof. intros. split; rewrite ?app_nil_r; [done|done|done|lia|by apply alone_shared| |done]. intros. exfalso. auto. Qed.

Lemma get_elems_spec fuel : forall s, (length (queue_ s) < fuel)%nat -> length_ (header_ s) = lengths (elems_ s) ->
  max_header_size_ cfg + length_ (header_ s) <= max_size_ cfg -> Z.of_nat (length (elems_ s)) < max_samples_ cfg ->
  Forall (fun x => requires_exclusive_packet x = false) (elems_ s) -> Forall good (queue_ s) ->
  (elems_ s <> [] -> last_fragment_ (header_ s) = false) ->
  exists taken rest h, get_packet_elems_from_queue cfg fuel s = Ret (set_header h (set_queue rest (set_elems (elems_ s ++ taken) s)))
    /\ taken_from s taken rest h.
Proof.
  destruct CO as [c1 c2 c3 c4].
  induction fuel as [|fuel IH]; intros s Hf Hl Hs Hn Hx Hg Hlf; [lia|]. pose proof (lengths_nonneg (elems_ s)) as Hnn.
  assert (Ret s = Ret (set_header (header_ s) (set_queue (queue_ s) (set_elems (elems_ s ++ []) s)))) as Hself by (rewrite app_nil_r; by destruct s).
  cbn [get_packet_elems_from_queue]. rewrite st_whole, space_spec by lia. cbn [Z.eqb].
  destruct (queue_ s) as [|e queue] eqn:Eq.
  { exists [], (queue_ s), (header_ s). split; [rewrite Eq; exact Hself|]. apply taken_none; try done. }
  rewrite andb_true_r. destruct (Z.ltb_spec (max_size_ cfg - (max_header_size_ cfg + length_ (header_ s))) (el_length e)) as [Hlong|Hlong].
  { exists [], (queue_ s), (header_ s). split; [rewrite Eq; exact Hself|]. apply taken_none; try done. intros He _.
    apply Forall_cons in Hg as [(_ & Hfit & _) _]. rewrite He in Hl. cbn in Hl. lia. }
  cbn [negb andb]. pose proof (el_length_nonneg e) as Hen.
  destruct ((requires_exclusive_packet e && (length (elems_ s) =? 0)%nat) || negb (requires_exclusive_packet e)) eqn:Etake.
  2:{ apply orb_false_iff in Etake as [Et1 Et2%negb_false_iff]. rewrite Et2 in Et1 |- *. cbn in Et1. cbn [orb].
      exists [], (queue_ s), (header_ s). split; [rewrite Eq; exact Hself|]. apply taken_none; try done. intros He. by rewrite He in Et1. }
  set (s1 := upd_header _ _).
  assert (exists h1, s1 = set_header h1 (set_queue queue (set_elems (elems_ s ++ [e]) s)) /\ length_ h1 = length_ (header_ s) + el_length e
    /\ last_fragment_ h1 = false) as (h1 & Es1 & Hl1 & Hlf1).
  { unfold s1. assert (is_fragment e = false) as Hfe by (by apply Forall_cons in Hg as [(_ & _ & ?) _]). destruct (length_ (header_ (elems_put e (set_queue queue s))) =? 0) eqn:Ez; eexists; (split; [reflexivity|]); cbn; (split; [apply uwrap_small; unfold is_u; lia|]);
      rewrite ?Hfe; cbn; [done|]. apply Hlf. intros E. cbn in Ez. rewrite Hl, E in Ez. done. }
  clearbody s1. subst s1. cbn [elems_ queue_ header_ set_header set_queue set_elems].
  assert (requires_exclusive_packet e = true -> elems_ s = []) as Hex.
  { intros He. rewrite He in Etake. rewrite orb_false_r in Etake. cbn in Etake. by apply nil_length_inv, Nat.eqb_eq. }
  assert (taken_from s [e] queue h1) as TF1.
  { split; [done| | | |by apply alone_app|done|done].
    - rewrite lengths_app, Hl1, Hl. change (lengths [e]) with (el_length e + 0). lia.
    - lia.
    - rewrite length_app. cbn. lia. }
  destruct (requires_exclusive_packet e || false || (Z.of_nat (length (elems_ s ++ [e])) =? max_samples_ cfg) || (optimum_size_ cfg <=? length_ h1)) eqn:Estop.
  { exists [e], queue, h1. by split. }
  apply orb_false_iff in Estop as [[[Hshared _]%orb_false_iff Hcount%Z.eqb_neq]%orb_false_iff _].
  set (s1 := set_header h1 (set_queue queue (set_elems (elems_ s ++ [e]) s))). destruct TF1 as [t1 t2 t3 t4 t5 t6 t7].
  destruct (IH s1) as (taken & rest & h & -> & [u1 u2 u3 u4 u5 u6 u7]); [cbn in Hf |- *; lia|exact t2|exact t3|cbn; lia| |by apply Forall_cons in Hg as [_ Hg]|done|].
  { apply Forall_app. split; [done|]. by apply Forall_singleton. }
  cbn [queue_ elems_ s1 set_header set_queue set_elems] in u1, u2, u3, u4, u5, u6, u7.
  exists (e :: taken), rest, h. rewrite <- (assoc_L (++)) in u2, u4, u5, u7. split; [|split; try done; by rewrite Eq, u1].
  unfold s1. cbn [elems_ set_header set_queue set_elems]. by rewrite <- (assoc_L (++)).
Qed.

(** The bytes that wait, with a packet header for every queued element. *)
Definition work (s : Strategy MB) : Z :=
  total_length (pkt_chain_ s) + lengths (queue_ s) + max_header_size_ cfg * Z.of_nat (length (queue_ s)).

(** The part of [perform_work] after the packet is prepared. *)
Definition work_packet (s : Strategy MB) : outcome (WorkOutcome * Strategy MB) :=
  '(outcome, s) ← send_packet cfg true s;
  let no_more_work := match outcome with OUTCOME_COMPLETE_SEND => (length (queue_ s) =? 0)%nat | _ => false end in
  let s := if no_more_work then set_mode MODE_DIRECT s else s in
  let s := (send_delayed_notifications matches_all s).2 in
  if no_more_work then Ret (WORK_OUTCOME_NO_MORE_TO_DO, s)
  else
    match outcome with
    | OUTCOME_PEER_LOST | OUTCOME_SEND_ERROR =>
        s ← relink true s;
        if decide (mode_ s = MODE_SUSPEND) then Ret (WORK_OUTCOME_NO_MORE_TO_DO, s)
        else if decide (mode_ s = MODE_TERMINATED) then Ret (WORK_OUTCOME_BROKEN_RESOURCE, s)
        else Ret (WORK_OUTCOME_MORE_TO_DO, call WorkAvailable s)
    | OUTCOME_BACKPRESSURE => Ret (WORK_OUTCOME_CLOGGED_RESOURCE, s)
    | _ => Ret (WORK_OUTCOME_MORE_TO_DO, s)
    end.

(** What a round of the thread does: the mode, and progress when the socket takes
    something. *)
Record worked (q0 : SequenceNumber) (acc : list (QueueElement MB)) (w : Z) (net : list answer) (o : WorkOutcome) (s' : Strategy MB) : Prop := mkWK {
  wk_inv : inv q0 acc s';
  wk_net : net_ s' = tail net \/ mode_ s' = MODE_DIRECT;
  wk_done : mode_ s' = MODE_DIRECT <-> o = WORK_OUTCOME_NO_MORE_TO_DO;
  wk_empty : mode_ s' = MODE_DIRECT -> elems_ s' = [] /\ queue_ s' = [];
  wk_less n net' : net = Accept n :: net' -> mode_ s' = MODE_QUEUE -> work s' < w }.

Lemma work_packet_spec q0 acc s done_ pkts : mode_ s = MODE_QUEUE -> core q0 acc (elems_ s) s done_ pkts -> packet_ok s -> elems_ s <> [] ->
  exists o s', work_packet s = Ret (o, s') /\ worked q0 acc (work s) (net_ s) o s'.
Proof.
  intros Hm C Hp Hne. unfold work_packet.
  destruct (send_packet_spec cfg s) as (o & s1 & fin & -> & SF); [by destruct CO|done|done|exact (cr_told_ok _ _ _ _ _ _ C)|by rewrite Hm|exact (cr_net _ _ _ _ _ _ C)|].
  pose proof (core_sent _ _ _ _ _ _ _ _ C SF) as C1. destruct SF as [F1 F2 F3 F4 F5 F6 F7 F8 F9].
  unfold kept_by_send in F6. injection F6 as K1 K2 K3 K4 K5 K6. cbn [mbind outcome_bind].
  set (nm := match o with OUTCOME_COMPLETE_SEND => (length (queue_ s1) =? 0)%nat | _ => false end).
  set (s2 := if nm then set_mode MODE_DIRECT s1 else s1).
  assert (nm = true -> o = OUTCOME_COMPLETE_SEND /\ elems_ s1 = [] /\ queue_ s1 = []) as Hnm.
  { unfold nm. destruct F8 as [[-> He]|[[-> | ->] _]]; [|done|done]. intros Hq%Nat.eqb_eq%nil_length_inv. done. }
  assert (inv q0 acc s2) as I2.
  { exists (done_ ++ fin), pkts. unfold s2. destruct nm eqn:En.
    - destruct (Hnm eq_refl) as (_ & He & Hq). left. split; [done|]. rewrite He in C1. split; [by apply core_mode|].
      exact (direct_ok_empty (set_mode MODE_DIRECT s1) F3 He Hq).
    - right. split; [congruence|]. by split. }
  pose proof (inv_finish q0 acc s2 matches_all I2) as I3.
  destruct (send_delayed_spec cfg matches_all s2 (inv_told_ok _ _ _ I2)) as (_ & _ & R3).
  set (s3 := (send_delayed_notifications matches_all s2).2) in *. clearbody s3. unfold rest_of in R3. injection R3 as R1 R2 R3 R4 R5 R6 R7 R8 R9 R10 R11 R12 R13.
  assert (mode_ s2 = if nm then MODE_DIRECT else MODE_QUEUE) as Hm2 by (unfold s2; destruct nm; [done|congruence]).
  assert (forall oo, (nm = true <-> oo = WORK_OUTCOME_NO_MORE_TO_DO) -> worked q0 acc (work s) (net_ s) oo s3) as Hwk.
  { intros oo Hoo. split; [done| | | |].
    - left. rewrite R11. unfold s2. by destruct nm.
    - rewrite R8, Hm2. rewrite <- Hoo. by destruct nm.
    - rewrite R8, Hm2, R1, R2. intros Hd. destruct nm; [|done]. destruct (Hnm eq_refl) as (_ & He & Hq). done.
    - intros n net' Hnet _. destruct (F9 n net' Hnet) as [_ Hlt]. unfold work. rewrite R1, R5.
      assert (queue_ s2 = queue_ s1 /\ pkt_chain_ s2 = pkt_chain_ s1) as [-> ->] by (unfold s2; by destruct nm). rewrite K1. lia. }
  destruct nm eqn:En; [by eexists _, s3; split; [reflexivity|apply Hwk]|].
  destruct F8 as [[-> He]|[[-> | ->] _]]; eexists _, s3; (split; [reflexivity|apply Hwk; done]).
Qed.

Lemma lengths_queue_split taken rest : taken <> [] ->
  max_header_size_ cfg + lengths taken + (lengths rest + max_header_size_ cfg * Z.of_nat (length rest))
  <= lengths (taken ++ rest) + max_header_size_ cfg * Z.of_nat (length (taken ++ rest)).
Proof.
  intros Hne. rewrite lengths_app, length_app. destruct CO as [c1 c2 c3 c4]. destruct taken as [|e l]; [done|]. cbn [length]. nia.
Qed.

Lemma perform_work_spec q0 acc s : inv q0 acc s -> mode_ s = MODE_QUEUE ->
  exists o s', perform_work cfg s = Ret (o, s') /\ worked q0 acc (work s) (net_ s) o s'.
Proof.
  intros (d & pkts & [(Hm' & _)|(_ & C & Hp)]) Hm; [congruence|]. unfold perform_work. rewrite Hm. cbn [decide bool_decide andb negb].
  change (if decide (MODE_QUEUE = MODE_TERMINATED) then ?a else ?b) with b.
  pose proof (packet_length_zero s Hp) as Hz. destruct (Z.eqb_spec (length_ (header_ s)) 0) as [Hl|Hl]; cbn [andb].
  2:{ fold (work_packet s). cbn [mbind outcome_bind]. apply (work_packet_spec q0 acc s d pkts); [done|done|done|]. tauto. }
  assert (elems_ s = []) as He by tauto. destruct (packet_empty s Hp He) as [Hc _].
  destruct (Nat.eqb_spec (length (queue_ s)) 0) as [Hq%nil_length_inv|Hq].
  { eexists _, (set_mode MODE_DIRECT s). split; [reflexivity|]. split; [|by right|done|done|done].
    exists d, pkts. left. split; [done|]. rewrite He in C. split; [by apply core_mode|]. exact (direct_ok_empty (set_mode MODE_DIRECT s) Hp He Hq). }
  destruct (get_elems_spec (S (length (queue_ s))) s) as (taken & rest & h & E & TF); [lia|by rewrite He, Hl|rewrite Hl; destruct CO; lia|rewrite He; cbn; destruct CO; lia|by rewrite He| |by rewrite He|].
  { pose proof (cr_good _ _ _ _ _ _ C) as G. rewrite (cr_acc _ _ _ _ _ _ C), !Forall_app in G. tauto. }
  destruct TF as [t1 t2 t3 t4 t5 t6 t7]. assert (taken <> []) as Htk by (apply t6; [done|intros E0; by rewrite E0 in Hq]).
  rewrite E, He in *. cbn [app] in *. cbn [mbind outcome_bind]. set (s1 := set_header h _).
  assert (core q0 acc [] s1 d pkts) as C1.
  { destruct C as [A G T1 T2 P S W Q1 Q2 N R]. split; try done. rewrite A, He, t1. done. }
  destruct (prepare_packet_spec q0 acc s1 d pkts C1) as (s2 & p & -> & C2 & P2 & E2 & Q2 & M2 & N2 & _ & L2); [by split|done|].
  cbn [mbind outcome_bind]. fold (work_packet s2).
  destruct (work_packet_spec q0 acc s2 d (pkts ++ [p])) as (o & s3 & E3 & [w1 w2 w3 w4 w5]); [by rewrite M2|done|done|by rewrite E2|].
  exists o, s3. split; [exact E3|]. rewrite N2 in *. split; [done|done|done|done|]. intros n net' Hn Hm3.
  specialize (w5 n net' Hn Hm3). unfold work in *. rewrite Q2 in w5. rewrite Hc, t1. change (total_length []) with 0.
  change (queue_ s1) with rest in w5. change (elems_ s1) with taken in L2. pose proof (lengths_queue_split taken rest Htk). lia.
Qed.

(** ** Sequences of operations *)

Inductive sop := OpStart | OpSend (e : QueueElement MB) (relink_ : bool) | OpStop (pub : GUID) | OpWork.

Definition sstep (op : sop) (s : Strategy MB) : outcome (Strategy MB) :=
  match op with
  | OpStart => Ret (send_start s)
  | OpSend e r => send cfg e r s
  | OpStop pub => send_stop cfg pub s
  | OpWork => '(_, s) ← perform_work cfg s; Ret s
  end.

Fixpoint srun (ops : list sop) (s : Strategy MB) : outcome (Strategy MB) :=
  match ops with [] => Ret s | op :: ops => s ← sstep op s; srun ops s end.

(** The elements given to [send] that fit into a packet. *)
Definition accepted_one (op : sop) : list (QueueElement MB) :=
  match op with OpSend e _ => if fits e then [e] else [] | _ => [] end.
Definition accepted (ops : list sop) : list (QueueElement MB) := concat (accepted_one <$> ops).

Definition op_ok (op : sop) : Prop := match op with OpSend e _ => el_wf e /\ is_fragment e = false | _ => True end.

(** A strategy that was started on a link. *)
Definition new_strategy (net : list answer) : Strategy MB :=
  mkST [] [] (mkTH 0 (of_value MIN_VALUE) false false) (of_value MIN_VALUE) None [] false 0 MODE_DIRECT MODE_NOT_SET [] false false false net [] [].

Lemma new_strategy_inv net : net_ok net -> inv (of_value MIN_VALUE) [] (new_strategy net).
Proof.
  intros Hn. destruct CO as [c1 c2 c3 c4]. exists [], []. left. split; [done|]. split; [split; try done|split; try done].
  - split_and!; [done|constructor|cbn; lia|done].
  - split; cbn; try done; try lia. intros e Hin. by apply elem_of_nil in Hin.
  - cbn. lia.
Qed.

Lemma sstep_inv q0 acc s op : inv q0 acc s -> op_ok op -> exists s', sstep op s = Ret s' /\ inv q0 (acc ++ accepted_one op) s'.
Proof.
  intros I Ho. destruct op as [|e r|pub|]; cbn [sstep accepted_one].
  - eexists. split; [reflexivity|]. rewrite app_nil_r. unfold send_start. destruct (negb (link_released_ s)); [by apply inv_start|done].
  - destruct Ho. by apply send_inv.
  - rewrite app_nil_r. by apply send_stop_inv.
  - rewrite app_nil_r. destruct (decide (mode_ s = MODE_QUEUE)) as [Hq|Hq].
    + destruct (perform_work_spec q0 acc s I Hq) as (o & s' & -> & W). exists s'. split; [done|]. by destruct W.
    + exists s. split; [|done]. pose proof I as (d & pkts & [(Hm & _)|(Hm & _)]); [|congruence]. unfold perform_work. by rewrite Hm.
Qed.

Lemma srun_inv ops : forall q0 acc s, inv q0 acc s -> Forall op_ok ops -> exists s', srun ops s = Ret s' /\ inv q0 (acc ++ accepted ops) s'.
Proof.
  induction ops as [|op ops IH]; intros q0 acc s I Ho; [exists s; by rewrite app_nil_r|]. apply Forall_cons in Ho as [Ho1 Ho].
  destruct (sstep_inv q0 acc s op I Ho1) as (s1 & E1 & I1). destruct (IH q0 _ s1 I1 Ho) as (s2 & E2 & I2).
  exists s2. cbn [srun]. rewrite E1. split; [done|]. by rewrite <- (assoc_L (++)) in I2.
Qed.

(** The thread, until it has nothing more to do. *)
Fixpoint work_off (fuel : nat) (s : Strategy MB) : outcome (Strategy MB) :=
  match fuel with
  | O => Fuel
  | S fuel => '(o, s) ← perform_work cfg s;
              match o with WORK_OUTCOME_NO_MORE_TO_DO => Ret s | _ => work_off fuel s end
  end.

Lemma inv_net q0 acc s net : inv q0 acc s -> net_ok net -> inv q0 acc (set_net net s).
Proof.
  intros (d & pkts & [(Hm & [A G T1 T2 P S W Q1 Q2 N R] & [D1 [r1 r2 r3 r4 r5 r6] D3 D4])|(Hm & [A G T1 T2 P S W Q1 Q2 N R] & Hp)]) Hn; exists d, pkts; [left|right]; done.
Qed.

Lemma work_nonneg s : 0 <= work s.
Proof. unfold work. destruct CO as [c1 c2 c3 c4]. pose proof (total_length_nonneg (pkt_chain_ s)). pose proof (lengths_nonneg (queue_ s)). nia. Qed.

Lemma work_off_spec fuel : forall q0 acc s, inv q0 acc s -> mode_ s = MODE_QUEUE -> Forall (fun a => exists n, a = Accept n) (net_ s) ->
  work s < Z.of_nat fuel -> work s < Z.of_nat (length (net_ s)) ->
  exists s', work_off fuel s = Ret s' /\ inv q0 acc s' /\ mode_ s' = MODE_DIRECT /\ elems_ s' = [] /\ queue_ s' = [].
Proof.
  induction fuel as [|fuel IH]; intros q0 acc s I Hm Ha Hf Hl; [pose proof (work_nonneg s); lia|].
  destruct (perform_work_spec q0 acc s I Hm) as (o & s1 & E & [w1 w2 w3 w4 w5]). cbn [work_off]. rewrite E. cbn [mbind outcome_bind].
  destruct (decide (mode_ s1 = MODE_DIRECT)) as [Hd|Hd].
  { rewrite (proj1 w3 Hd). exists s1. destruct (w4 Hd). done. }
  assert (mode_ s1 = MODE_QUEUE) as Hm1 by (destruct w1 as (d & pkts & [(Hm1 & _)|(Hm1 & _)]); [done|done]).
  destruct w2 as [w2|]; [|done]. pose proof (work_nonneg s). destruct (net_ s) as [|a net]; [cbn in Hl; lia|].
  apply Forall_cons in Ha as [[n ->] Ha]. specialize (w5 n net eq_refl Hm1). cbn [tail] in w2.
  assert (o <> WORK_OUTCOME_NO_MORE_TO_DO) as Ho by tauto.
  destruct (IH q0 acc s1 w1 Hm1) as (s' & E' & H'); [by rewrite w2|lia|rewrite w2; cbn [length] in Hl; lia|].
  exists s'. by destruct o.
Qed.

(** C36: On a connection that is not lost, of a transport that does not fragment,
    every sequence of operations sends what it was given; the elements are not
    themselves fragments, have no empty block and a last block of their own.  The elements accepted are, in order, those done, those of the
    current packet and those queued; each element done is reported delivered
    once (or waits on the delayed list), and none is dropped.  The bytes on the
    wire, with the unsent rest of the current packet, are the packets in the
    order of their sequence numbers: each is its header and the bytes of its
    elements, keeps the limits on samples and size, and an exclusive element is
    alone in its packet. *)
Theorem wire_is_packets ops net : Forall op_ok ops -> net_ok net ->
  exists s done_ pkts, srun ops (new_strategy net) = Ret s
    /\ accepted ops = done_ ++ elems_ s ++ queue_ s
    /\ delivered (calls_ s) ++ (delayed_ s).*1 ≡ₚ done_ /\ dropped (calls_ s) = []
    /\ wire_ s ++ chain_bytes (pkt_chain_ s) = concat (pk_bytes <$> pkts)
    /\ concat (pk_elems <$> pkts) = done_ ++ (if decide (mode_ s = MODE_DIRECT) then [] else elems_ s)
    /\ Forall pk_ok pkts /\ (fun p => sequence_ (pk_header p)) <$> pkts = seqs_from (of_value MIN_VALUE) (length pkts)
    /\ (mode_ s = MODE_DIRECT /\ queue_ s = [] /\ pkt_chain_ s = [] \/ mode_ s = MODE_QUEUE).
Proof.
  intros Ho Hn. destruct (srun_inv ops _ [] _ (new_strategy_inv net Hn) Ho) as (s & E & d & pkts & I). exists s, d, pkts.
  destruct I as [(Hm & [A G T1 T2 P S W Q1 Q2 N R] & [D1 [r1 r2 r3 r4 r5 r6] D3 D4])|(Hm & [A G T1 T2 P S W Q1 Q2 N R] & Hp)];
    split_and!; try done; try (by destruct T1); rewrite Hm; [done|by left|done|by right].
Qed.

(** C37: Backpressure ends, for a transport that does not fragment and elements
    as above.  From every state a sequence of operations leads to, once the
    socket takes bytes again (any number at a time), the thread works off the
    packet and the queue in finitely many rounds: it ends in direct mode with
    nothing left, every accepted element is reported or on the delayed list, and
    the wire holds whole packets. *)
Theorem queue_drains ops net s : Forall op_ok ops -> net_ok net -> srun ops (new_strategy net) = Ret s -> mode_ s = MODE_QUEUE ->
  forall net', Forall (fun a => exists n, a = Accept n) net' -> work s < Z.of_nat (length net') ->
  exists s' pkts, work_off (S (Z.to_nat (work s))) (set_net net' s) = Ret s' /\ mode_ s' = MODE_DIRECT /\ elems_ s' = [] /\ queue_ s' = []
    /\ delivered (calls_ s') ++ (delayed_ s').*1 ≡ₚ accepted ops
    /\ wire_ s' = concat (pk_bytes <$> pkts) /\ concat (pk_elems <$> pkts) = accepted ops.
Proof.
  intros Ho Hn E Hm net' Ha Hl. destruct (srun_inv ops _ [] _ (new_strategy_inv net Hn) Ho) as (s1 & E1 & I). rewrite E in E1. injection E1 as <-.
  assert (net_ok net') as Hn' by (eapply Forall_impl; [exact Ha|]; by intros a [n ->]).
  pose proof (work_nonneg s). change (work s) with (work (set_net net' s)) in *.
  destruct (work_off_spec (S (Z.to_nat (work (set_net net' s)))) _ _ (set_net net' s) (inv_net _ _ _ net' I Hn') Hm Ha) as (s' & E' & I' & Hd & He & Hq); [lia|exact Hl|].
  destruct I' as (d & pkts & [(_ & C & D)|(Hm' & _)]); [|congruence]. exists s', pkts.
  pose proof (rd_chain _ (do_ready _ D)) as Hc. destruct C as [A G T1 T2 P S W Q1 Q2 N R]. rewrite He, Hq, !app_nil_r in A. cbn [app] in A.
  rewrite Hc in W. change (chain_bytes []) with (@nil Z) in W. rewrite app_nil_r in W, S. split_and!; try done; by rewrite A.
Qed.

End props.

(** ** A transport and a run *)

Module Example.

(** The bytes of a header: a mark, the length and the sequence number. *)
Definition hdr_bytes (len seq : Z) : list Z := [68; len; seq].
Definition hdr_block (h : TransportHeader) : block :=
  full_block (1000 * getValue (sequence_ h)) (hdr_bytes (length_ h) (getValue (sequence_ h))).

#[export] Instance transport : Transport block := {
  header_block_of := hdr_block;
  max_message_size := 0;
  fragment _ e := (e, e);
  relink _ s := Ret s }.

Definition cfg : SendConfig := mkSC 2 16 40 3 50 false.

#[export] Instance stream : StreamTransport block transport cfg.
Proof. split; [done|]. intros h. cbn. lia. Qed.

Lemma cfg_ok : config_ok cfg.
Proof. split; cbn; lia. Qed.

Definition elem (i : Z) (excl : bool) : QueueElement block :=
  mkQE i (replicate 16 i) [full_block (100 * i) [i; i]; full_block (100 * i + 50) [i; 0; i]] (Some (100 * i + 50)) excl false false.

Lemma elem_ok i excl : el_wf (elem i excl).
Proof.
  exists (100 * i + 50). split; [cbn; unfold base_addr; cbn; f_equal; lia|].
  exists [full_block (100 * i) [i; i]], (full_block (100 * i + 50) [i; 0; i]). unfold base_addr. cbn.
  split_and!; [done|lia| |]; repeat constructor; cbn; lia.
Qed.

Definition ops : list (@sop block) :=
  [OpStart; OpSend (elem 1 false) true; OpSend (elem 2 false) true; OpSend (elem 3 false) true; OpWork;
   OpSend (elem 4 true) true; OpSend (elem 5 false) true; OpWork; OpStop (replicate 16 1)].

Definition net : list answer := [Accept 7; Accept 1; Accept 5].

Lemma ops_ok : Forall op_ok ops.
Proof. repeat constructor; apply elem_ok. Qed.

Lemma net_fine : net_ok net.
Proof. repeat constructor; done. Qed.

(** The bytes on the wire and what is left, for a run with partial sends. *)
Lemma run_computes : exists s, srun cfg ops (new_strategy net) = Ret s
  /\ wire_ s = [68; 10; 2; 1; 1; 1; 0; 1; 2; 2; 2; 0; 2] /\ mode_ s = MODE_QUEUE /\ el_id <$> queue_ s = [3; 4; 5]
  /\ el_id <$> delivered (calls_ s) = [1; 2] /\ work cfg s = 24.
Proof. eexists. split; [vm_compute; reflexivity|]. by vm_compute. Qed.

End Example.
Import Example.

Lemma wire_is_packets_witness : exists s pkts,
  srun Example.cfg Example.ops (new_strategy Example.net) = Ret s
  /\ wire_ s ++ chain_bytes (pkt_chain_ s) = concat (pk_bytes <$> pkts) /\ dropped (calls_ s) = [].
Proof.
  destruct (wire_is_packets Example.cfg Example.cfg_ok Example.ops Example.net Example.ops_ok Example.net_fine)
    as (s & d & pkts & E & _ & _ & D & W & _).
  exists s, pkts. split; [exact E|]. split; [exact W|exact D].
Defined.

Lemma queue_drains_witness : exists s s' pkts,
  srun Example.cfg Example.ops (new_strategy Example.net) = Ret s
  /\ work_off Example.cfg (S (Z.to_nat (work Example.cfg s))) (set_net (replicate 25 (Accept 1)) s) = Ret s'
  /\ mode_ s' = MODE_DIRECT /\ wire_ s' = concat (pk_bytes <$> pkts)
  /\ concat (pk_elems <$> pkts) = [Example.elem 1 false; Example.elem 2 false; Example.elem 3 false; Example.elem 4 true; Example.elem 5 false].
Proof.
  destruct Example.run_computes as (s & E & _ & Hm & _ & _ & Hw).
  destruct (queue_drains Example.cfg Example.cfg_ok Example.ops Example.net s Example.ops_ok Example.net_fine E Hm (replicate 25 (Accept 1)))
    as (s' & pkts & E' & Hd & _ & _ & _ & Hwire & Hel).
  - apply Forall_replicate. by eexists.
  - rewrite Hw. reflexivity.
  - exists s, s', pkts. split; [exact E|]. split; [exact E'|]. split; [exact Hd|]. split; [exact Hwire|]. exact Hel.
Defined.

(** ** An element whose last block is empty *)

Definition hollow : QueueElement block :=
  mkQE 1 (replicate 16 1) [full_block 100 [1; 1]; full_block 150 []] (Some 150) true false false.

(** The adjustment after a send stops with the last byte taken: the empty block
    behind it stays in the chain and its element in the packet, although every
    byte went out.  With the next element the same bytes are sent again, in a
    packet whose header says that it is empty. *)
Theorem hollow_element_sent_twice : exists s,
  srun Example.cfg [OpStart; OpSend hollow true; OpSend (Example.elem 2 true) true] (new_strategy [Accept 100; Accept 100]) = Ret s
  /\ wire_ s = Example.hdr_bytes 2 2 ++ [1; 1] ++ Example.hdr_bytes 0 3 ++ [1; 1]
  /\ delivered (calls_ s) = [] /\ delayed_ s = [].
Proof. eexists. split; [vm_compute; reflexivity|]. by vm_compute. Qed.

(** ** When the connection is lost *)

(** An element that finds the packet to be sent before it, on a connection that
    turns out to be closed, is neither queued nor reported: the strategy is
    suspended and the element is gone. *)
Theorem element_lost_on_disconnect : exists s,
  srun Example.cfg [OpStart; OpSend (Example.elem 1 false) true; OpSend (Example.elem 2 true) true] (new_strategy [Closed]) = Ret s
  /\ mode_ s = MODE_SUSPEND /\ el_id <$> elems_ s ++ queue_ s = [1] /\ delayed_ s = [] /\ calls_ s = [].
Proof. eexists. split; [vm_compute; reflexivity|]. by vm_compute. Qed.

(** Terminating while the packet holds elements that were not sent dereferences
    the null chain. *)
Theorem terminate_dereferences_null : exists s,
  srun Example.cfg [OpStart; OpSend (Example.elem 1 false) true] (new_strategy []) = Ret s
  /\ mode_ s = MODE_DIRECT /\ terminate_send Example.cfg false s = UB.
Proof. eexists. split; [vm_compute; reflexivity|]. by vm_compute. Qed.

(** The elements of a partly sent packet are noted as delivered when the strategy
    is terminated, although the rest of the packet is thrown away. *)
Theorem terminate_reports_unsent_delivered : exists s s',
  srun Example.cfg [OpStart; OpSend (Example.elem 1 true) true] (new_strategy [Accept 1]) = Ret s
  /\ wire_ s = [68] /\ terminate_send Example.cfg false s = Ret s'
  /\ wire_ s' = [68] /\ pkt_chain_ s' = [] /\ delayed_ s' = [(Example.elem 1 true, MODE_QUEUE)].
Proof. eexists _, _. split; [vm_compute; reflexivity|]. split; [vm_compute; reflexivity|]. split; [vm_compute; reflexivity|]. by vm_compute. Qed.

End TransportSendProps.
Export TransportSendProps.
