(* ===== verification/TransportRemove.v ===== *)
(** * Removing samples (dds/DCPS/transport/framework/TransportSendStrategy.cpp,
    QueueRemoveVisitor, PacketRemoveVisitor, TransportReplacedElement)

    A writer may take back a sample it gave to the transport.  An element that is
    queued, or in a packet that was not prepared, is removed; one whose blocks are
    in the chain of a packet in progress is replaced by a copy, and its blocks in
    the chain by those of the copy.

    What [data_dropped()] answers (whether the element was released) is the
    argument [released]; the empty blocks the allocators give for the copy are
    the argument [fresh] (the cached allocators fall back to the heap). *)

From S2P Require Import Prelude MessageBlock SequenceNumber Serializer DataSampleHeader TransportSendStrategy TransportSendProps.

Module TransportRemove.

Section operations.
Context {MB : Type} `{MessageBlock MB}.
Implicit Types (e : QueueElement MB) (s : Strategy MB).

(** ** A queue *)

(** [QueueRemoveVisitor] on a queue: the elements that stay, those dropped, the
    status and the bytes removed. *)
Fixpoint queue_remove (m : QueueElement MB -> bool) (unique : bool) (released : QueueElement MB -> bool) (l : list (QueueElement MB))
    : list (QueueElement MB) * list (QueueElement MB) * RemoveResult * Z :=
  match l with
  | [] => ([], [], REMOVE_NOT_FOUND, 0)
  | e :: l =>
      if m e then
        let status := if released e then REMOVE_RELEASED else REMOVE_FOUND in
        if released e || unique then (l, [e], status, el_length e)
        else
          let '(kept, dropped, later, bytes) := queue_remove m unique released l in
          (kept, e :: dropped, if decide (later = REMOVE_NOT_FOUND) then status else later, el_length e + bytes)
      else
        let '(kept, dropped, status, bytes) := queue_remove m unique released l in
        (e :: kept, dropped, status, bytes)
  end.

(** ** A packet in progress *)

(** [clone_mb]: every block is copied into a new one, pointers included. *)
Definition clone_block (b new : MB) : MB :=
  mb_truncate (mb_length b) (mb_advance_rd (mb_rd_off b) (mb_copy (mb_base b) new)).

Fixpoint clone_mb (fresh blocks : list MB) {struct blocks} : option (list MB) :=
  match blocks with
  | [] => Some []
  | b :: blocks =>
      match fresh with
      | [] => None
      | new :: fresh => cons (clone_block b new) <$> clone_mb fresh blocks
      end
  end.

(** [TransportReplacedElement]. *)
Definition replaced (e : QueueElement MB) (blocks : list MB) : QueueElement MB :=
  mkQE (el_id e) (publication_id e) blocks (mb_rd_ptr <$> (blocks !! 1%nat)) false true false.

(** Where [current_block_] of the visitor is: not set yet, at the first block of
    [cur] with [before] the blocks before it, or at a block that was released. *)
Inductive cursor := NotStarted | At (before cur : list MB) | ReleasedBlock.

(** The first block with the base, and the blocks before it. *)
Fixpoint seek (base : Z) (l : list MB) : option (list MB * list MB) :=
  match l with
  | [] => None
  | b :: l => if base_addr b =? base then Some ([], b :: l)
              else match seek base l with Some (p, r) => Some (b :: p, r) | None => None end
  end.

(** The first part of [visit_element_ref]: the blocks before those of the element,
    and its own with all that follow. *)
Definition locate (header_block : option MB) (chain : list MB) (e : QueueElement MB) (c : cursor) : outcome (list MB * list MB) :=
  let start :=
    match chain, header_block with
    | b :: rest, Some h => if base_addr h =? base_addr b then Ret ([b], rest) else Ret ([], b :: rest)
    | _, _ => UB
    end in
  match c with
  | NotStarted | At _ [] => start
  | At before (b :: rest) =>
      match msg e with
      | [] => UB
      | first :: _ => match seek (base_addr first) rest with
                      | Some (p, r) => Ret (before ++ b :: p, r)
                      | None => UB
                      end
      end
  | ReleasedBlock => UB
  end.

(** The second part, for an element that matches: the new chain and the new
    element, or the chain left by the error "out of sync". *)
Definition replace_blocks (fresh : list MB) (e : QueueElement MB) (before cur : list MB) : outcome (list MB + list MB * QueueElement MB) :=
  match cur with
  | [] => UB
  | orig :: remaining =>
      match seek (base_addr orig) (msg e) with
      | None => Ret (inl (before ++ [orig]))
      | Some (sent, contrib) =>
          let more := (length contrib - 1)%nat in
          if (length remaining <? more)%nat then Ret (inl (before ++ orig :: remaining))
          else match clone_mb fresh (msg e) with
               | None => UB
               | Some blocks =>
                   match drop (length sent) blocks with
                   | [] => UB
                   | r :: rs =>
                       let r := if (0 <? mb_rd_off orig)%nat then mb_advance_rd (mb_rd_off orig) r else r in
                       Ret (inr (before ++ (r :: rs) ++ drop more remaining, replaced e blocks))
                   end
               end
      end
  end.

(** [PacketRemoveVisitor] over the elements of a packet. *)
Fixpoint packet_remove (m : QueueElement MB -> bool) (unique : bool) (released : QueueElement MB -> bool) (fresh : list MB)
    (header_block : option MB) (elems : list (QueueElement MB)) (chain : list MB) (c : cursor)
    : outcome (list (QueueElement MB) * list MB * list (QueueElement MB) * RemoveResult) :=
  match elems with
  | [] => Ret ([], chain, [], REMOVE_NOT_FOUND)
  | e :: es =>
      '(before, cur) ← locate header_block chain e c;
      if m e then
        r ← replace_blocks fresh e before cur;
        match r with
        | inl chain => Ret (e :: es, chain, [], REMOVE_ERROR)
        | inr (chain, e') =>
            let status := if released e then REMOVE_RELEASED else REMOVE_FOUND in
            if released e || unique then Ret (e' :: es, chain, [e], status)
            else
              '(es, chain, dropped, later) ← packet_remove m unique released fresh header_block es chain ReleasedBlock;
              Ret (e' :: es, chain, e :: dropped, if decide (later = REMOVE_NOT_FOUND) then status else later)
        end
      else
        '(es, chain, dropped, status) ← packet_remove m unique released fresh header_block es chain (At before cur);
        Ret (e :: es, chain, dropped, status)
  end.

(** ** The strategy *)

Definition drop_calls (l : list (QueueElement MB)) (s : Strategy MB) : Strategy MB :=
  fold_left (fun s e => call (Dropped e false) s) l s.

Definition do_remove_sample (m : QueueElement MB -> bool) (unique : bool) (released : QueueElement MB -> bool) (fresh : list MB)
    (s : Strategy MB) : outcome (RemoveResult * Strategy MB) :=
  if bool_decide (mode_ s = MODE_DIRECT) || ((length (pkt_chain_ s) =? 0)%nat && (length (queue_ s) =? 0)%nat) then
    let '(kept, dropped, status, bytes) := queue_remove m unique released (elems_ s) in
    let s := drop_calls dropped (set_elems kept s) in
    Ret (status, if decide (status = REMOVE_NOT_FOUND) then s
                 else upd_header (set_length (uwrap 32 (length_ (header_ s) - bytes))) s)
  else
    let '(kept, dropped, status, _) := queue_remove m unique released (queue_ s) in
    let s := drop_calls dropped (set_queue kept s) in
    if decide (status = REMOVE_NOT_FOUND) then
      '(elems, chain, dropped, status) ← packet_remove m unique released fresh (header_block_ s) (elems_ s) (pkt_chain_ s) NotStarted;
      Ret (status, drop_calls dropped (set_pkt_chain chain (set_elems elems s)))
    else Ret (status, s).

(** [payload] is the [rd_ptr()] of the data of the sample. *)
Definition remove_sample (payload : Z) (released : QueueElement MB -> bool) (fresh : list MB) (s : Strategy MB)
    : outcome (RemoveResult * Strategy MB) :=
  let '(found, s) := send_delayed_notifications (MatchOnDataPayload payload) s in
  if found then Ret (REMOVE_RELEASED, s) else do_remove_sample (MatchOnDataPayload payload) true released fresh s.

Definition remove_all_msgs (cfg : SendConfig) (pub_id : GUID) (released : QueueElement MB -> bool) (fresh : list MB) (s : Strategy MB)
    : outcome (Strategy MB) :=
  let '(_, s) := send_delayed_notifications (MatchOnPubId pub_id) s in
  let s := if has_send_buffer_ cfg then call (RetainAll pub_id) s else s in
  '(_, s) ← do_remove_sample (MatchOnPubId pub_id) false released fresh s;
  Ret s.

End operations.

(** ** Copies *)

Section props.
Context {MB : Type} {MBo : MessageBlock MB} {MBl : MessageBlockLaws MB}.
Implicit Types (e : QueueElement MB) (s : Strategy MB) (b : MB).

Lemma seek_here base l1 b l2 : base_addr b = base -> base ∉ (base_addr <$> l1) -> seek base (l1 ++ b :: l2) = Some (l1, b :: l2).
Proof.
  intros Hb. induction l1 as [|x l1 IH]; cbn [app seek fmap list_fmap]; intros Hn; [by rewrite (proj2 (Z.eqb_eq _ _) Hb)|].
  apply not_elem_of_cons in Hn as [Hx Hn]. rewrite (proj2 (Z.eqb_neq _ _)) by congruence. by rewrite (IH Hn).
Qed.

(** A new block with room for a copy of [b]. *)
Definition room_for (b new : MB) : Prop :=
  mb_bytes new = [] /\ mb_rd_off new = 0%nat /\ (length (mb_base b) <= mb_space new)%nat.

Definition fresh_for (fresh blocks : list MB) : Prop :=
  exists used rest, fresh = used ++ rest /\ Forall2 room_for blocks used /\ NoDup (base_addr <$> used).

Definition at_base (e : QueueElement MB) : Prop := Forall (fun b => mb_rd_off b = 0%nat) (msg e).

Lemma clone_block_spec b new : mb_rd_off b = 0%nat -> room_for b new ->
  mb_bytes (clone_block b new) = mb_bytes b /\ mb_rd_off (clone_block b new) = 0%nat /\ base_addr (clone_block b new) = base_addr new.
Proof.
  intros Hb (H1 & H2 & H3). unfold clone_block. rewrite Hb, mb_advance_rd_0.
  pose proof (mb_base_bytes b) as Hbb. rewrite Hb, drop_0 in Hbb.
  assert (mb_length b <= length (mb_base b))%nat as Hlen.
  { unfold mb_length at 1. rewrite Hbb, length_take. lia. }
  assert (mb_bytes (mb_copy (mb_base b) new) = mb_base b) as Hc by (by rewrite mb_copy_bytes, H1 by done).
  split_and!.
  - rewrite mb_truncate_bytes, Hc; [by rewrite <- Hbb|]. unfold mb_length at 2. by rewrite Hc.
  - by rewrite mb_truncate_off, mb_copy_off.
  - unfold base_addr. by rewrite mb_truncate_off, mb_truncate_rd, mb_copy_off, mb_copy_rd.
Qed.

(** The copies have the content of the blocks and the bases of the new ones. *)
Definition copies (blocks new : list MB) : Prop :=
  Forall2 (fun b c => mb_bytes c = mb_bytes b /\ mb_rd_off c = 0%nat) blocks new /\ NoDup (base_addr <$> new).

Lemma clone_mb_spec fresh blocks : fresh_for fresh blocks -> Forall (fun b => mb_rd_off b = 0%nat) blocks ->
  exists new, clone_mb fresh blocks = Some new /\ copies blocks new.
Proof.
  intros (used & rest & -> & Hr & Hnd) Hb.
  assert (exists new, clone_mb (used ++ rest) blocks = Some new /\ Forall2 (fun b c => mb_bytes c = mb_bytes b /\ mb_rd_off c = 0%nat) blocks new
    /\ base_addr <$> new = base_addr <$> used) as (new & E & H1 & H2).
  { clear Hnd. induction Hr as [|b u blocks used Hbu Hr IH]; [by exists []|]. apply Forall_cons in Hb as [Hb0 Hb].
    destruct (IH Hb) as (new & E & H1 & H2). destruct (clone_block_spec b u Hb0 Hbu) as (C1 & C2 & C3).
    exists (clone_block b u :: new). cbn [app clone_mb fmap list_fmap]. rewrite E, C3, H2. split_and!; [done|by constructor|done]. }
  exists new. split; [done|]. split; [done|]. by rewrite H2.
Qed.

Lemma cur_ok_nodup cur tb : last cur = Some tb -> NoDup (base_addr <$> cur) -> Forall (fun b => (0 < mb_length b)%nat) cur -> cur_ok (base_addr tb) cur.
Proof.
  intros Hl Hn Hp. apply last_Some in Hl as [pre ->]. exists pre, tb. split_and!; [done|done| |done].
  rewrite fmap_app in Hn. apply NoDup_app in Hn as (_ & Hd & _). apply Forall_forall. intros b Hin Hb.
  apply (Hd (base_addr b)); [by apply list_elem_of_fmap_2|]. cbn. rewrite Hb. by left.
Qed.

Lemma copies_bytes blocks new : copies blocks new -> chain_bytes new = chain_bytes blocks.
Proof. intros [H _]. induction H as [|b c blocks new [Hb _] H IH]; [done|]. by rewrite !chain_bytes_cons, Hb, IH. Qed.

Lemma copies_positive blocks new : copies blocks new -> Forall (fun b => (0 < mb_length b)%nat) blocks -> Forall (fun b => (0 < mb_length b)%nat) new.
Proof.
  intros [H _]. induction H as [|b c blocks new [Hb _] H IH]; [done|]. intros [H1 H2]%Forall_cons. constructor; [|auto]. unfold mb_length in *. by rewrite Hb.
Qed.

(** ** Replacing one element *)

Lemma replace_blocks_spec fresh e t before cur after : elem_tail e = Ret t -> cur_ok t cur -> left_of e cur -> el_wf e -> at_base e ->
  NoDup (base_addr <$> msg e) -> fresh_for fresh (msg e) ->
  exists e' t' cur', replace_blocks fresh e before (cur ++ after) = Ret (inr (before ++ cur' ++ after, e'))
    /\ el_bytes e' = el_bytes e /\ owned_by_transport e' = true /\ el_wf e' /\ chain_bytes cur' = chain_bytes cur
    /\ elem_tail e' = Ret t' /\ cur_ok t' cur' /\ left_of e' cur' /\ (cur = msg e -> cur' = msg e').
Proof.
  intros Het Hc (pre & b0 & rest & n & Hm & Hn & ->) (t0 & _ & (_ & _ & _ & _ & _ & Hpos)) Hb Hnd Hf.
  unfold at_base in Hb. destruct (clone_mb_spec fresh (msg e) Hf Hb) as (new & Hcl & Hcp). pose proof (copies_bytes _ _ Hcp) as Hbytes.
  pose proof (copies_positive _ _ Hcp Hpos) as Hpn. pose proof Hcp as [Hall Hnn]. rewrite Hm in Hall, Hb, Hnd.
  apply Forall2_app_inv_l in Hall as (prec & c & Hpre & Hall & Hnew). apply Forall2_cons_inv_l in Hall as (b0c & restc & [Hb0 Ho0] & Hrest & ->).
  assert (mb_length b0c = mb_length b0) as Hlen by (unfold mb_length; by rewrite Hb0).
  apply Forall_app in Hb as [_ Hb]. apply Forall_cons in Hb as [Hb _].
  assert (mb_rd_off (mb_advance_rd n b0) = n) as Hoff by (rewrite mb_advance_rd_off by lia; lia).
  assert (base_addr (mb_advance_rd n b0) = base_addr b0) as Hbase by (apply base_advance; lia).
  assert (base_addr (mb_advance_rd n b0c) = base_addr b0c) as Hbasec by (apply base_advance; lia).
  assert (base_addr b0 ∉ (base_addr <$> pre)) as Hni.
  { rewrite fmap_app in Hnd. apply NoDup_app in Hnd as (_ & Hd & _). intros Hin. apply (Hd _ Hin). by left. }
  assert (last new = last (b0c :: restc)) as Hlast by (rewrite Hnew, last_app; by destruct (last (b0c :: restc)) eqn:E; [|apply last_None in E]).
  assert (exists tb, last new = Some tb /\ last (mb_advance_rd n b0c :: restc) = Some (if decide (restc = []) then mb_advance_rd n b0c else tb)
    /\ (restc = [] -> tb = b0c)) as (tb & Htb & Htb' & Htb0).
  { rewrite Hlast, !last_cons. destruct (last restc) as [x|] eqn:El; [exists x|apply last_None in El as ->; by exists b0c].
    split_and!; [done| |by intros ->]. by destruct restc. }
  assert (NoDup (base_addr <$> (b0c :: restc))) as Hnc by (rewrite Hnew, fmap_app in Hnn; by apply NoDup_app in Hnn as (_ & _ & ?)).
  rewrite Hnew in Hpn. apply Forall_app in Hpn as [Hpp Hpn]. pose proof Hpn as [Hp0 Hpr]%Forall_cons.
  exists (replaced e new), (base_addr tb), (mb_advance_rd n b0c :: restc).
  split_and!.
  - unfold replace_blocks. cbn [app]. rewrite Hbase, Hm, (seek_here (base_addr b0) pre b0 rest eq_refl Hni). cbn [length]. rewrite Nat.sub_1_r. cbn [Nat.pred].
    rewrite (proj2 (Nat.ltb_ge _ _)) by (rewrite length_app; lia). rewrite <- Hm, Hcl.
    rewrite Hnew, (Forall2_length _ _ _ Hpre), drop_app_length, Hoff, (Forall2_length _ _ _ Hrest).
    assert ((if (0 <? n)%nat then mb_advance_rd n b0c else b0c) = mb_advance_rd n b0c) as ->.
    { destruct (Nat.ltb_spec 0 n); [done|]. assert (n = 0%nat) as -> by lia. by rewrite mb_advance_rd_0. }
    rewrite <- (Forall2_length _ _ _ Hrest), drop_app_length. done.
  - exact Hbytes.
  - done.
  - exists (base_addr tb). unfold elem_tail. cbn [msg replaced]. rewrite Htb. split; [done|]. apply cur_ok_nodup; [done|done|]. rewrite Hnew. by apply Forall_app.
  - rewrite !chain_bytes_cons, !mb_advance_rd_bytes, Hb0 by lia. f_equal.
    clear -Hrest MBl. induction Hrest as [|x y l k [Hx _] H IH]; [done|]. by rewrite !chain_bytes_cons, Hx, IH.
  - unfold elem_tail. cbn [msg replaced]. by rewrite Htb.
  - assert (base_addr tb = base_addr (if decide (restc = []) then mb_advance_rd n b0c else tb)) as ->.
    { case_decide as Er; [|done]. by rewrite Hbasec, (Htb0 Er). }
    apply cur_ok_nodup; [done|cbn [fmap list_fmap]; by rewrite Hbasec|]. constructor; [rewrite mb_advance_rd_length; lia|done].
  - exists prec, b0c, restc, n. cbn [msg replaced]. split_and!; [done|lia|done].
  - intros Heq. assert (pre = [] /\ n = 0%nat) as [-> ->].
    { rewrite Hm in Heq. assert (pre = []) as ->.
      { apply (f_equal length) in Heq. rewrite length_app in Heq. cbn in Heq. apply nil_length_inv. lia. }
      split; [done|]. injection Heq as Heq. apply (f_equal mb_length) in Heq. rewrite mb_advance_rd_length in Heq by lia. lia. }
    apply Forall2_nil_inv_l in Hpre as ->. cbn [msg replaced]. by rewrite mb_advance_rd_0, Hnew.
Qed.

(** ** The whole packet *)

(** The first element that matches is replaced by a copy, the others stay. *)
Definition replaced_first (m : QueueElement MB -> bool) (released : QueueElement MB -> bool) (l l' dropped_ : list (QueueElement MB)) (st : RemoveResult) : Prop :=
  (Forall (fun x => m x = false) l /\ l' = l /\ dropped_ = [] /\ st = REMOVE_NOT_FOUND)
  \/ exists l1 x x' l2, l = l1 ++ x :: l2 /\ l' = l1 ++ x' :: l2 /\ m x = true /\ Forall (fun x => m x = false) l1 /\ dropped_ = [x]
       /\ st = (if released x then REMOVE_RELEASED else REMOVE_FOUND) /\ el_bytes x' = el_bytes x /\ owned_by_transport x' = true.

Lemma replaced_first_cons m released e l l' d st : m e = false -> replaced_first m released l l' d st -> replaced_first m released (e :: l) (e :: l') d st.
Proof.
  intros He [(H1 & -> & -> & ->)|(l1 & x & x' & l2 & -> & -> & H1 & H2 & -> & -> & H3)]; [left; split_and!; try done; by constructor|right].
  exists (e :: l1), x, x', l2. split_and!; try done; [by constructor|tauto|tauto].
Qed.

Lemma replaced_first_bytes m released l l' d st : replaced_first m released l l' d st -> concat (el_bytes <$> l') = concat (el_bytes <$> l).
Proof.
  intros [(_ & -> & _)|(l1 & x & x' & l2 & -> & -> & _ & _ & _ & _ & Hb & _)]; [done|]. rewrite !fmap_app, !concat_app. cbn. by rewrite Hb.
Qed.

(** What is left of a packet after a removal. *)
Definition removal (m released : QueueElement MB -> bool) (fresh : list MB) (hdr : option MB) (es : list (QueueElement MB)) e (before cur : list MB) (c : cursor) : Prop :=
  exists e' es' t' cur' d st,
    packet_remove m true released fresh hdr (e :: es) (before ++ cur ++ concat (msg <$> es)) c = Ret (e' :: es', before ++ cur' ++ concat (msg <$> es'), d, st)
    /\ replaced_first m released (e :: es) (e' :: es') d st /\ Forall el_wf (e' :: es') /\ chain_bytes cur' = chain_bytes cur
    /\ elem_tail e' = Ret t' /\ cur_ok t' cur' /\ left_of e' cur' /\ (cur = msg e -> cur' = msg e').

Lemma packet_remove_head m released fresh hdr es e t before cur c :
  locate hdr (before ++ cur ++ concat (msg <$> es)) e c = Ret (before, cur ++ concat (msg <$> es)) -> m e = true ->
  elem_tail e = Ret t -> cur_ok t cur -> left_of e cur -> Forall el_wf (e :: es) -> at_base e ->
  NoDup (base_addr <$> msg e) -> fresh_for fresh (msg e) -> removal m released fresh hdr es e before cur c.
Proof.
  intros Hloc Em Ht Hc Hl Hw Hb Hnd Hf. pose proof Hw as [Hwe Hws]%Forall_cons.
  destruct (replace_blocks_spec fresh e t before cur (concat (msg <$> es)) Ht Hc Hl Hwe Hb Hnd Hf)
    as (e' & t' & cur' & E & Hby & Hown & Hwe' & Hcb & Ht' & Hc' & Hl' & Hsame).
  eexists e', es, t', cur', [e], _. split.
  { cbn [packet_remove]. rewrite Hloc. cbn [mbind outcome_bind]. rewrite Em, E. cbn [mbind outcome_bind]. rewrite orb_true_r. reflexivity. }
  split_and!; try done; [|by constructor]. right. exists [], e, e', es. by split_and!.
Qed.

Lemma packet_remove_skip m released fresh hdr e es chain c before cur : locate hdr chain e c = Ret (before, cur) -> m e = false ->
  packet_remove m true released fresh hdr (e :: es) chain c
  = '(es, chain, d, st) ← packet_remove m true released fresh hdr es chain (At before cur); Ret (e :: es, chain, d, st).
Proof. intros Hl Hm. cbn [packet_remove]. rewrite Hl. cbn [mbind outcome_bind]. by rewrite Hm. Qed.

Lemma packet_remove_spec m released fresh hdr es : forall e t before cur c,
  locate hdr (before ++ cur ++ concat (msg <$> es)) e c = Ret (before, cur ++ concat (msg <$> es)) ->
  elem_tail e = Ret t -> cur_ok t cur -> left_of e cur -> Forall el_wf (e :: es) -> Forall at_base (e :: es) ->
  NoDup (base_addr <$> concat (msg <$> e :: es)) -> (forall x, x ∈ e :: es -> m x = true -> fresh_for fresh (msg x)) ->
  removal m released fresh hdr es e before cur c.
Proof.
  induction es as [|e2 es IH]; intros e t before cur c Hloc Ht Hc Hl Hw Hb Hnd Hf;
    pose proof Hw as [Hwe Hws]%Forall_cons; pose proof Hb as [Hbe Hbs]%Forall_cons;
    (destruct (m e) eqn:Em; [apply (packet_remove_head m released fresh hdr _ e t); try done;
       [cbn [fmap list_fmap concat] in Hnd; rewrite fmap_app in Hnd; by apply NoDup_app in Hnd as (? & _)|apply Hf; [by left|done]]|]).
  { eexists e, [], t, cur, [], _. split; [cbn [packet_remove]; rewrite Hloc; cbn [mbind outcome_bind]; by rewrite Em|].
    split_and!; try done. left. split_and!; try done. by constructor. }
  pose proof Hws as [Hw2 _]%Forall_cons. destruct Hw2 as (t2 & Ht2 & Hc2).
  destruct (cur_ok_nonempty _ _ Hc) as (b & cur0 & Ecur & _). destruct (cur_ok_nonempty _ _ Hc2) as (b2 & m2 & Em2 & Hb2).
  assert (left_of e2 (msg e2)) as Hl2 by (exists [], b2, m2, 0%nat; by rewrite mb_advance_rd_0).
  assert (base_addr b2 ∉ (base_addr <$> cur0)) as Hni.
  { destruct Hl as (pre & x & rest & n & Hm & Hn & Ec). rewrite Ecur in Ec. injection Ec as _ ->.
    cbn [fmap list_fmap concat] in Hnd. rewrite Hm, Em2, !fmap_app in Hnd. apply NoDup_app in Hnd as (_ & Hd & _).
    intros Hin. apply (Hd (base_addr b2)); [|by left]. apply elem_of_app. right. by right. }
  destruct (IH e2 t2 (before ++ cur) (msg e2) (At before (cur ++ concat (msg <$> e2 :: es)))) as (e2' & es' & t2' & cur2' & d & st & E & Hrf & Hw' & Hcb & Ht2' & Hc2' & Hl2' & Hsame);
    try done.
  - rewrite Ecur. cbn [app locate fmap list_fmap concat]. rewrite Em2. cbn [app].
    rewrite (seek_here (base_addr b2) cur0 b2 _ eq_refl Hni). done.
  - cbn [fmap list_fmap concat] in Hnd |- *. rewrite fmap_app in Hnd. by apply NoDup_app in Hnd as (_ & _ & ?).
  - intros x Hx. apply Hf. by right.
  - rewrite <- !(assoc_L (++)) in E. exists e, (e2' :: es'), t, cur, d, st. split_and!; try done.
    + rewrite (packet_remove_skip m released fresh hdr e (e2 :: es) _ c before _ Hloc Em).
      change (concat (msg <$> e2 :: es)) with (msg e2 ++ concat (msg <$> es)) in E |- *. rewrite E. cbn [mbind outcome_bind fmap list_fmap concat].
      by rewrite (Hsame eq_refl).
    + by apply replaced_first_cons.
    + by constructor.
Qed.

(** ** The strategy *)

(** What the removal relies on: the blocks of the packet are told apart by their
    bases, and there are blocks for the copy. *)
Record removable (m : QueueElement MB -> bool) (fresh : list MB) (s : Strategy MB) : Prop := mkRV {
  rv_base : Forall at_base (elems_ s);
  rv_bases : NoDup (base_addr <$> option_list (header_block_ s) ++ concat (msg <$> elems_ s));
  rv_fresh x : x ∈ elems_ s -> m x = true -> fresh_for fresh (msg x) }.

Lemma in_progress_split s : in_progress (header_complete_ s) (pkt_chain_ s) (elems_ s) -> header_first s ->
  NoDup (base_addr <$> option_list (header_block_ s) ++ concat (msg <$> elems_ s)) ->
  exists e es t before cur, elems_ s = e :: es /\ pkt_chain_ s = before ++ cur ++ concat (msg <$> es)
    /\ locate (header_block_ s) (pkt_chain_ s) e NotStarted = Ret (before, cur ++ concat (msg <$> es))
    /\ elem_tail e = Ret t /\ cur_ok t cur /\ left_of e cur
    /\ (if header_complete_ s then before = [] else exists hb, before = [hb] /\ (0 < mb_length hb)%nat).
Proof.
  intros (Hne & Hw & Hh & Hr) (h & Hhb & Hf) Hnd. destruct (elems_ s) as [|e es] eqn:Ee; [done|]. destruct Hr as (t & cur & Ht & Hc & Hl & Hch).
  rewrite Hhb in *. cbn [option_list app fmap list_fmap] in Hnd. apply NoDup_cons in Hnd as [Hni Hnd].
  destruct (header_complete_ s) eqn:Ec; cbn [body_of] in Hch.
  - exists e, es, t, [], cur. split_and!; try done. rewrite Hch. pose proof Hl as (pre & b0 & rest & n & Hm & Hn & ->). cbn [app locate].
    rewrite (proj2 (Z.eqb_neq _ _)); [done|]. rewrite base_advance by lia. intros Hb. apply Hni. rewrite Hb. apply list_elem_of_fmap_2. cbn [concat].
    rewrite Hm, !elem_of_app. left. right. by left.
  - destruct (Hf eq_refl) as (hb & body & Hpc & Hbase). destruct (Hh eq_refl) as (hb' & body' & Hpc' & Hlen). rewrite Hpc in Hpc'. injection Hpc' as <- <-.
    rewrite Hpc in Hch |- *. cbn [tail] in Hch. subst body. exists e, es, t, [hb], cur. split_and!; try done; [|by exists hb].
    cbn [locate]. by rewrite (proj2 (Z.eqb_eq _ _)) by congruence.
Qed.

Lemma packet_case m released fresh s : packet_ok s -> elems_ s <> [] -> removable m fresh s ->
  exists elems' chain' d st, packet_remove m true released fresh (header_block_ s) (elems_ s) (pkt_chain_ s) NotStarted = Ret (elems', chain', d, st)
    /\ replaced_first m released (elems_ s) elems' d st /\ chain_bytes chain' = chain_bytes (pkt_chain_ s)
    /\ packet_ok (set_pkt_chain chain' (set_elems elems' s)).
Proof.
  intros (Hlen & Hsm & [[? _]|[Hin Hhf]]) Hne [Hb Hnd Hfr]; [done|].
  destruct (in_progress_split s Hin Hhf Hnd) as (e & es & t & before & cur & Ee & Epc & Hloc & Ht & Hc & Hl & Hbf).
  destruct Hin as (_ & Hw & Hh & _). rewrite Ee in *. rewrite Epc in Hloc.
  assert (NoDup (base_addr <$> concat (msg <$> e :: es))) as Hnd' by (rewrite fmap_app in Hnd; by apply NoDup_app in Hnd as (_ & _ & ?)).
  destruct (packet_remove_spec m released fresh (header_block_ s) es e t before cur NotStarted Hloc Ht Hc Hl Hw Hb Hnd' Hfr)
    as (e' & es' & t' & cur' & d & st & E & Hrf & Hw' & Hcb & Ht' & Hc' & Hl' & Hsame).
  rewrite Epc. eexists _, _, d, st. split; [exact E|]. split; [done|].
  assert (chain_bytes (concat (msg <$> es')) = chain_bytes (concat (msg <$> es))) as Hrest.
  { rewrite !chain_concat. destruct Hrf as [(_ & [= -> ->] & _)|(l1 & x & x' & l2 & E1 & E2 & _ & _ & _ & _ & Hby & _)]; [done|].
    destruct l1 as [|y l1]; injection E1 as -> ->; injection E2 as -> ->; [done|]. rewrite !fmap_app, !concat_app. cbn. by rewrite Hby. }
  assert (chain_bytes (cur' ++ concat (msg <$> es')) = chain_bytes (cur ++ concat (msg <$> es))) as Hbody by (by rewrite !chain_bytes_app, Hcb, Hrest).
  split; [by rewrite !(chain_bytes_app before), Hbody|]. rewrite Epc in Hlen.
  assert (total_length (body_of (header_complete_ s) (before ++ cur' ++ concat (msg <$> es'))) = total_length (body_of (header_complete_ s) (before ++ cur ++ concat (msg <$> es)))
    /\ body_of (header_complete_ s) (before ++ cur' ++ concat (msg <$> es')) = cur' ++ concat (msg <$> es')) as [Htl Hbo].
  { unfold total_length. destruct (header_complete_ s); [subst before; cbn [app body_of]; by rewrite Hbody|]. destruct Hbf as (hb & -> & _). cbn [app body_of tail]. by rewrite Hbody. }
  split_and!; [cbn; by rewrite Htl|done|right]. split.
  - split_and!; [done|done| |cbn; rewrite Hbo; by exists t', cur']. cbn. intros Hcf. rewrite Hcf in Hbf. destruct Hbf as (hb & -> & Hlb). by eexists hb, _.
  - destruct Hhf as (h & Hh1 & Hh2). exists h. split; [done|]. cbn. intros Hcf. destruct (Hh2 Hcf) as (hb & body & Epc' & Hbase). rewrite Hcf in Hbf.
    destruct Hbf as (hb' & -> & Hlb). rewrite Epc in Epc'. injection Epc' as -> _. by eexists hb, _.
Qed.

(** ** Removal from a queue *)

(** The first element that matches is taken out, the others keep their order. *)
Definition removed_first (m released : QueueElement MB -> bool) (l l' dropped_ : list (QueueElement MB)) (st : RemoveResult) : Prop :=
  (Forall (fun x => m x = false) l /\ l' = l /\ dropped_ = [] /\ st = REMOVE_NOT_FOUND)
  \/ exists l1 x l2, l = l1 ++ x :: l2 /\ l' = l1 ++ l2 /\ m x = true /\ Forall (fun x => m x = false) l1 /\ dropped_ = [x]
       /\ st = (if released x then REMOVE_RELEASED else REMOVE_FOUND).

Lemma queue_remove_spec m released l : exists l' d st bytes, queue_remove m true released l = (l', d, st, bytes)
  /\ removed_first m released l l' d st /\ lengths l = lengths l' + bytes /\ (st = REMOVE_NOT_FOUND <-> d = []).
Proof.
  induction l as [|e l (l' & d & st & bytes & E & Hr & Hl & Hd)]; [eexists _, _, _, _; split; [done|]; split; [left; by split_and!|done]|].
  cbn [queue_remove]. destruct (m e) eqn:Em.
  - rewrite orb_true_r. eexists _, _, _, _. split; [done|]. split_and!.
    + right. exists [], e, l. by split_and!.
    + change (lengths (e :: l)) with (el_length e + lengths l). lia.
    + by destruct (released e).
  - rewrite E. eexists _, _, _, _. split; [done|]. split_and!; [|change (el_length e + lengths l = el_length e + lengths l' + bytes); lia|done].
    destruct Hr as [(H1 & -> & -> & ->)|(l1 & x & l2 & -> & -> & H1 & H2 & -> & ->)]; [left; split_and!; try done; by constructor|right].
    exists (e :: l1), x, l2. split_and!; try done. by constructor.
Qed.

Lemma removed_first_sub m released l l' d st : removed_first m released l l' d st -> sublist l' l.
Proof.
  intros [(_ & -> & _)|(l1 & x & l2 & -> & -> & _)]; [done|]. apply sublist_app; [done|]. by apply sublist_cons.
Qed.

(** ** The strategy *)

Lemma drop_calls_spec l s : drop_calls l s = set_calls (calls_ s ++ ((fun e => Dropped e false) <$> l)) s.
Proof.
  unfold drop_calls. revert s. induction l as [|e l IH]; intros s; cbn [fold_left fmap list_fmap]; [rewrite app_nil_r; by destruct s|].
  rewrite IH. cbn. by rewrite <- (assoc_L (++)).
Qed.


Context (cfg : SendConfig) {TP : Transport MB} {ST : StreamTransport MB TP cfg} (CO : config_ok cfg).

(** What a removal does: nothing to what was sent or is to be sent of the packet
    in progress; [l] are the elements told that they were dropped. *)
Record remove_facts (m released : QueueElement MB -> bool) (s s' : Strategy MB) (l : list (QueueElement MB)) (st : RemoveResult) : Prop := mkRF {
  rf_wire : wire_ s' = wire_ s;
  rf_chain : chain_bytes (pkt_chain_ s') = chain_bytes (pkt_chain_ s);
  rf_mode : mode_ s' = mode_ s;
  rf_calls : calls_ s' = calls_ s ++ ((fun e => Dropped e false) <$> l);
  rf_delayed : delayed_ s' = delayed_ s;
  rf_direct : mode_ s = MODE_DIRECT -> removed_first m released (elems_ s) (elems_ s') l st /\ direct_ok cfg s';
  rf_queue : mode_ s = MODE_QUEUE -> packet_ok s'
    /\ (removed_first m released (queue_ s) (queue_ s') l st /\ l <> [] /\ elems_ s' = elems_ s /\ pkt_chain_ s' = pkt_chain_ s
        \/ Forall (fun x => m x = false) (queue_ s) /\ queue_ s' = queue_ s /\ replaced_first m released (elems_ s) (elems_ s') l st) }.

Lemma remove_direct m released fresh s : mode_ s = MODE_DIRECT -> direct_ok cfg s ->
  exists st s' l, do_remove_sample m true released fresh s = Ret (st, s') /\ remove_facts m released s s' l st.
Proof.
  intros Hm [D1 [r1 r2 r3 r4 r5 r6] D3 D4]. destruct CO as [c1 c2 c3 _].
  destruct (queue_remove_spec m released (elems_ s)) as (l' & d & st & bytes & E & Hr & Hl & Hd).
  unfold do_remove_sample. rewrite bool_decide_eq_true_2 by done. cbn [orb]. rewrite E, drop_calls_spec. eexists st, _, d. split; [reflexivity|].
  pose proof (removed_first_sub _ _ _ _ _ _ Hr) as Hsub. pose proof (sublist_length _ _ Hsub). pose proof (lengths_nonneg l').
  assert (Forall (fun e => requires_exclusive_packet e = false) l') as Hs.
  { apply Forall_forall. intros x Hx. rewrite Forall_forall in D4. apply D4. by eapply elem_of_sublist. }
  case_decide as Hst.
  - apply Hd in Hst as Hd0. subst d. destruct Hr as [(H1 & -> & _)|(? & ? & ? & _ & _ & _ & _ & ? & _)]; [|done].
    split; cbn; try done; [|by rewrite Hm]. intros _. split; [left; by split_and!|split; [done|split|..]; done].
  - assert (0 <= bytes) as Hb.
    { destruct Hr as [(_ & -> & _ & ->)|(l1 & x & l2 & E1 & -> & _)]; [done|]. rewrite E1, !lengths_app in Hl.
      change (lengths (x :: l2)) with (el_length x + lengths l2) in Hl. unfold el_length, total_length in *. lia. }
    assert (uwrap 32 (length_ (header_ s) - bytes) = lengths l') as Hu by (rewrite uwrap_small; unfold is_u; lia).
    split; cbn; try done; [|by rewrite Hm]. intros _. split; [done|]. split; [done|split|..]; cbn; try done; try lia; [by apply alone_shared|].
    intros Hne. apply r6. intros E0. rewrite E0 in Hsub. by apply sublist_nil_r in Hsub.
Qed.


Lemma remove_queued m released fresh s : mode_ s = MODE_QUEUE -> packet_ok s -> removable m fresh s ->
  exists st s' l, do_remove_sample m true released fresh s = Ret (st, s') /\ remove_facts m released s s' l st.
Proof.
  intros Hm Hp Hrv. unfold do_remove_sample. rewrite Hm. cbn [bool_decide orb].
  destruct ((length (pkt_chain_ s) =? 0)%nat && (length (queue_ s) =? 0)%nat) eqn:Ee.
  { apply andb_true_iff in Ee as [Hc%Nat.eqb_eq%nil_length_inv Hq%Nat.eqb_eq%nil_length_inv].
    assert (elems_ s = []) as He.
    { destruct Hp as (_ & _ & [[? _]|[Hin _]]); [done|]. destruct (in_progress_first _ _ _ Hin) as (b & c & E & _). congruence. }
    rewrite He. cbn [queue_remove]. rewrite drop_calls_spec, decide_True by done. eexists _, _, []. split; [reflexivity|].
    split; cbn; try done; [by rewrite Hm|]. intros _. rewrite Hq, He.
    split; [unfold packet_ok, header_first in *; cbn; by rewrite He in Hp|]. right. split_and!; [done|done|left; by split_and!]. }
  destruct (queue_remove_spec m released (queue_ s)) as (l' & d & st & bytes & E & Hr & Hl & Hd).
  rewrite E. case_decide as Hst.
  - apply Hd in Hst as ->. destruct Hr as [(H1 & -> & _)|(? & ? & ? & _ & _ & _ & _ & ? & _)]; [|done].
    rewrite drop_calls_spec. cbn [elems_ pkt_chain_ header_block_ set_queue set_calls].
    destruct (decide (elems_ s = [])) as [He|He].
    + rewrite He. cbn [packet_remove mbind outcome_bind]. rewrite drop_calls_spec. eexists _, _, []. split; [reflexivity|].
      split; cbn; rewrite ?app_nil_r; try done; [by rewrite Hm|]. intros _. rewrite He. split; [unfold packet_ok, header_first in *; cbn; by rewrite He in Hp|].
      right. split_and!; [done|done|left; by split_and!].
    + destruct (packet_case m released fresh s Hp He Hrv) as (elems' & chain' & d & st' & -> & Hrf & Hcb & Hp'). cbn [mbind outcome_bind].
      rewrite drop_calls_spec. eexists _, _, d. split; [reflexivity|].
      split; cbn; rewrite ?app_nil_r; try done; [by rewrite Hm|]. intros _. split; [exact Hp'|]. right. by split_and!.
  - rewrite drop_calls_spec. eexists _, _, d. split; [reflexivity|]. split; cbn; try done; [by rewrite Hm|]. intros _. split; [done|].
    left. split_and!; try done. intros ->. tauto.
Qed.

Lemma notify_delayed_keeps l s : delayed_ (fold_left (fun s p => notify_delayed p s) l s) = delayed_ s.
Proof.
  revert s. induction l as [|[e md] l IH]; intros s; [done|]. cbn [fold_left]. rewrite IH. unfold notify_delayed, notify. by repeat case_match.
Qed.

Lemma send_delayed_none m s : ~ Exists (fun p => m p.1 = true) (delayed_ s) -> send_delayed_notifications m s = (false, s).
Proof.
  intros Hex. assert (Forall (fun p => m p.1 = false) (delayed_ s)) as Hf.
  { apply Forall_forall. intros p Hp. destruct (m p.1) eqn:Em; [|done]. exfalso. apply Hex, Exists_exists. by exists p. }
  assert (filter (fun p => m p.1 = true) (delayed_ s) = [] /\ filter (fun p => m p.1 = false) (delayed_ s) = delayed_ s) as [H1 H2].
  { clear Hex. induction Hf as [|p l Hp Hl [IH1 IH2]]; [done|]. rewrite !filter_cons, decide_False, decide_True by congruence. by rewrite IH1, IH2. }
  unfold send_delayed_notifications. rewrite H1, H2. by destruct s.
Qed.

(** C38: Taking a sample back does not damage the stream.  From every state a
    sequence of starts, sends, stops and rounds of work leads to (on a transport
    that does not fragment, without an earlier removal), when the blocks of the
    packet in progress are read from their bases and told apart by them and there
    are new blocks of the sizes of those copied, [remove_sample] returns, and
    neither what was sent nor what is left to be sent of the packet in progress
    changes.  A sample on the
    delayed list is reported to the writer as released and nothing else changes.
    Otherwise only the first element with the data is affected, and is told that
    it was dropped: in direct mode it leaves the packet (whose length is
    adjusted), in queue mode it leaves the queue, or is replaced in the packet by
    a copy with its bytes that the transport owns; if no element has the data,
    nothing changes.  The packet stays well formed. *)
Theorem removal_keeps_stream ops net s payload released fresh : Forall op_ok ops -> net_ok net -> srun cfg ops (new_strategy net) = Ret s ->
  removable (MatchOnDataPayload payload) fresh s ->
  exists st s', remove_sample payload released fresh s = Ret (st, s')
    /\ wire_ s' ++ chain_bytes (pkt_chain_ s') = wire_ s ++ chain_bytes (pkt_chain_ s)
    /\ (if decide (Exists (fun p => MatchOnDataPayload payload p.1 = true) (delayed_ s))
        then st = REMOVE_RELEASED /\ rest_of s' = rest_of s /\ told s' ≡ₚ told s
          /\ Forall (fun p => MatchOnDataPayload payload p.1 = false) (delayed_ s')
        else exists l, remove_facts (MatchOnDataPayload payload) released s s' l st).
Proof.
  intros Ho Hn E Hrv. destruct (srun_inv cfg CO ops _ [] _ (new_strategy_inv cfg CO net Hn) Ho) as (s1 & E1 & I). rewrite E in E1. injection E1 as <-.
  set (m := MatchOnDataPayload payload) in *. unfold remove_sample. fold m.
  destruct (send_delayed_spec cfg m s (inv_told_ok _ _ _ _ I)) as (_ & T & R).
  destruct (send_delayed_notifications m s) as [found s1] eqn:Es. cbn [snd] in *.
  destruct (decide (Exists (fun p => m p.1 = true) (delayed_ s))) as [Hex|Hex].
  - unfold send_delayed_notifications in Es. destruct (filter (fun p => m p.1 = true) (delayed_ s)) as [|p l] eqn:Ef.
    { exfalso. apply Exists_exists in Hex as (p & Hin & Hp). assert (p ∈ filter (fun p => m p.1 = true) (delayed_ s)) as Hf by (by apply list_elem_of_filter).
      rewrite Ef in Hf. by apply elem_of_nil in Hf. }
    injection Es as <- <-. eexists _, _. split; [reflexivity|]. pose proof R as R0. unfold rest_of in R0. injection R0 as _ _ _ _ Hc _ _ _ _ _ _ Hw _. rewrite Hc, Hw.
    split_and!; try done. match goal with |- Forall _ (delayed_ ?x) => change x with (fold_left (fun s p => notify_delayed p s) (p :: l) (set_delayed (filter (fun p => m p.1 = false) (delayed_ s)) s)) end.
    rewrite notify_delayed_keeps. apply Forall_forall. by intros x [? _]%list_elem_of_filter.
  - rewrite (send_delayed_none m s Hex) in Es. injection Es as <- <-. destruct I as (d & pkts & [(Hm & _ & Hd)|(Hm & _ & Hp)]);
      [destruct (remove_direct m released fresh s Hm Hd) as (st & s' & l & E' & F)|destruct (remove_queued m released fresh s Hm Hp Hrv) as (st & s' & l & E' & F)];
      exists st, s'; (split; [done|]; split; [by rewrite (rf_wire _ _ _ _ _ _ F), (rf_chain _ _ _ _ _ _ F)|by exists l]).
Qed.

End props.


(** ** Runs *)

Import Example.

Module RemoveExample.

(** A packet of two elements of which four bytes were sent, and an element that
    waits. *)
Definition ops : list (@sop block) :=
  [OpStart; OpSend (Example.elem 1 false) true; OpSend (Example.elem 2 false) true; OpSend (Example.elem 3 false) true].
Definition net : list answer := [Accept 4].
Definition fresh : list block := [empty_block 7000 2; empty_block 8000 3].

Lemma remove_ops_ok : Forall op_ok ops.
Proof. repeat constructor; apply Example.elem_ok. Qed.
Lemma remove_net_fine : net_ok net.
Proof. repeat constructor; done. Qed.

Lemma copies_fit i excl : fresh_for fresh (msg (Example.elem i excl)).
Proof. exists fresh, []. split; [done|]. split; [|refine (bool_decide_unpack _ _); by vm_compute]. repeat constructor; cbn; lia. Qed.

Lemma run_removable : exists s, srun Example.cfg ops (new_strategy net) = Ret s /\ wire_ s = [68; 10; 2; 1] /\ el_id <$> queue_ s = [3]
  /\ removable (MatchOnDataPayload 250) fresh s.
Proof.
  eexists. split; [vm_compute; reflexivity|]. split; [done|]. split; [done|]. split.
  - repeat constructor.
  - refine (bool_decide_unpack _ _). by vm_compute.
  - intros x Hx _. cbn in Hx. rewrite !elem_of_cons, elem_of_nil in Hx. destruct Hx as [-> |[-> |[]]]; exact (copies_fit _ _).
Qed.

(** Elements of one publication. *)
Definition of_pub (i : Z) : QueueElement block :=
  mkQE i (replicate 16 7) (msg (Example.elem i false)) (Some (100 * i + 50)) false false false.

Definition pub_ops : list (@sop block) :=
  [OpStart; OpSend (of_pub 1) true; OpSend (of_pub 2) true; OpSend (of_pub 3) true; OpSend (of_pub 4) true].

End RemoveExample.

Lemma removal_keeps_stream_witness : exists s st s' l,
  srun Example.cfg RemoveExample.ops (new_strategy RemoveExample.net) = Ret s
  /\ remove_sample 250 (fun _ => false) RemoveExample.fresh s = Ret (st, s')
  /\ wire_ s' ++ chain_bytes (pkt_chain_ s') = [68; 10; 2; 1; 1; 1; 0; 1; 2; 2; 2; 0; 2]
  /\ remove_facts Example.cfg (MatchOnDataPayload 250) (fun _ => false) s s' l st.
Proof.
  destruct RemoveExample.run_removable as (s & E & _ & _ & Hr).
  destruct (removal_keeps_stream Example.cfg Example.cfg_ok RemoveExample.ops RemoveExample.net s 250 (fun _ => false) RemoveExample.fresh
    RemoveExample.remove_ops_ok RemoveExample.remove_net_fine E Hr) as (st & s' & E' & Hw & Hf).
  assert (wire_ s ++ chain_bytes (pkt_chain_ s) = [68; 10; 2; 1; 1; 1; 0; 1; 2; 2; 2; 0; 2] /\ delayed_ s = []) as [Hb Hd].
  { clear - E. vm_compute in E. injection E as <-. by split. }
  rewrite Hd in Hf. destruct Hf as [l Hf]. exists s, st, s', l. split; [exact E|]. split; [exact E'|]. split; [rewrite Hw; exact Hb|exact Hf].
Defined.

(** An element whose first block is not read from its base: the copy starts where
    the block does, and the offset of the block is then added once more. *)
Definition offset_elem : QueueElement block :=
  mkQE 1 (replicate 16 1) [mkBlock 100 [9] [1; 2; 3; 4] []; full_block 150 [5; 6]] (Some 150) false false false.

(** Taking back such an element of a packet in progress loses a byte of the
    stream, at the length its header already announced. *)
Theorem offset_removal_loses_byte : exists s s',
  srun Example.cfg [OpStart; OpSend offset_elem true; OpSend (Example.elem 2 true) true] (new_strategy [Accept 3]) = Ret s
  /\ wire_ s = Example.hdr_bytes 6 2 /\ chain_bytes (pkt_chain_ s) = [1; 2; 3; 4; 5; 6]
  /\ remove_sample 150 (fun _ => false) [empty_block 7000 5; empty_block 8000 2] s = Ret (REMOVE_FOUND, s')
  /\ wire_ s' = wire_ s /\ chain_bytes (pkt_chain_ s') = [2; 3; 4; 5; 6].
Proof. eexists _, _. split; [vm_compute; reflexivity|]. split; [done|]. split; [done|]. split; [vm_compute; reflexivity|]. done. Qed.

(** Removing all the samples of a publication stops at the first one that is
    released: the other stays in the queue. *)
Theorem remove_all_stops_at_released : exists s s',
  srun Example.cfg RemoveExample.pub_ops (new_strategy [Accept 4]) = Ret s /\ el_id <$> queue_ s = [3; 4]
  /\ remove_all_msgs Example.cfg (replicate 16 7) (fun _ => true) RemoveExample.fresh s = Ret s' /\ el_id <$> queue_ s' = [4].
Proof. eexists _, _. split; [vm_compute; reflexivity|]. split; [done|]. split; [vm_compute; reflexivity|]. done. Qed.

(** If one was found in the queue, those of the packet in progress are not
    replaced: they still belong to the writer. *)
Theorem remove_all_leaves_packet : exists s s',
  srun Example.cfg RemoveExample.pub_ops (new_strategy [Accept 4]) = Ret s /\ (publication_id <$> elems_ s) = replicate 2 (replicate 16 7)
  /\ remove_all_msgs Example.cfg (replicate 16 7) (fun _ => false) RemoveExample.fresh s = Ret s'
  /\ queue_ s' = [] /\ elems_ s' = elems_ s /\ (owned_by_transport <$> elems_ s') = [false; false].
Proof. eexists _, _. split; [vm_compute; reflexivity|]. split; [done|]. split; [vm_compute; reflexivity|]. done. Qed.

(** If none is queued, the visit of the packet goes on from a block that was
    released. *)
Theorem remove_all_visits_released_block : exists s,
  srun Example.cfg (take 3 RemoveExample.pub_ops) (new_strategy [Accept 4]) = Ret s /\ queue_ s = []
  /\ remove_all_msgs Example.cfg (replicate 16 7) (fun _ => false) RemoveExample.fresh s = UB.
Proof. eexists. split; [vm_compute; reflexivity|]. by vm_compute. Qed.

End TransportRemove.
Export TransportRemove.
