(* ===== verification/TransportSendBuffer.v ===== *)
(** * Packets kept for a resend (dds/DCPS/transport/framework/TransportSendBuffer.{h,inl,cpp},
    CopyChainVisitor.cpp, TransportRetainedElement.inl)

    A reliable transport keeps copies of the last packets it sent, by sequence
    number, and sends them again when a reader asks.  A packet in fragments has an
    entry with null pointers in [buffers_]; its data is in [fragments_].

    The blocks the allocators give for the copies are the argument [fresh]; a
    [std::map] is the list of its entries in the order of the keys, an iterator
    the entries from it on. *)

From S2P Require Import Prelude MessageBlock SequenceNumber DisjointSequence Serializer DataSampleHeader TransportSendStrategy TransportSendProps TransportRemove.

Module TransportSendBuffer.

(** ** Maps keyed by sequence numbers *)

Section maps.
Context {A : Type}.

Fixpoint seq_find (k : SequenceNumber) (m : list (SequenceNumber * A)) : option A :=
  match m with
  | [] => None
  | (k', v) :: m => if sn_eq k k' then Some v else seq_find k m
  end.

(** Assignment to [m[k]]. *)
Fixpoint seq_set (k : SequenceNumber) (v : A) (m : list (SequenceNumber * A)) : list (SequenceNumber * A) :=
  match m with
  | [] => [(k, v)]
  | (k', v') :: m' => if sn_lt k k' then (k, v) :: m
                      else if sn_eq k k' then (k', v) :: m' else (k', v') :: seq_set k v m'
  end.

Fixpoint seq_erase (k : SequenceNumber) (m : list (SequenceNumber * A)) : list (SequenceNumber * A) :=
  match m with
  | [] => []
  | (k', v') :: m => if sn_eq k k' then m else (k', v') :: seq_erase k m
  end.

Fixpoint lower_bound_from (k : SequenceNumber) (m : list (SequenceNumber * A)) : list (SequenceNumber * A) :=
  match m with
  | [] => []
  | (k', v') :: m' => if sn_lt k' k then lower_bound_from k m' else m
  end.

End maps.

(** ** The buffer *)

Section operations.
Context {MB : Type} `{MessageBlock MB}.
Context (cfg : SendConfig).

(** The elements and the chain; [None] and [[]] are the null pointers. *)
Definition BufferType : Type := option (list (QueueElement MB)) * list MB.
Definition BufferMap : Type := list (SequenceNumber * BufferType).

Record SingleSendBuffer := mkSB {
  capacity_ : nat;
  buffers_ : BufferMap;
  fragments_ : option (list (SequenceNumber * BufferMap)) }.

Definition set_buffers (m : BufferMap) (b : SingleSendBuffer) : SingleSendBuffer := mkSB (capacity_ b) m (fragments_ b).
Definition set_fragments (f : option (list (SequenceNumber * BufferMap))) (b : SingleSendBuffer) : SingleSendBuffer := mkSB (capacity_ b) (buffers_ b) f.

(** [buffer.first && buffer.second]. *)
Definition has_data (x : BufferType) : bool :=
  match x with (Some _, _ :: _) => true | _ => false end.

Definition sb_low (b : SingleSendBuffer) : outcome SequenceNumber :=
  match buffers_ b with [] => Throw | x :: _ => Ret x.1 end.
Definition sb_high (b : SingleSendBuffer) : outcome SequenceNumber :=
  match last (buffers_ b) with None => Throw | Some x => Ret x.1 end.
Definition sb_empty (b : SingleSendBuffer) : bool := match buffers_ b with [] => true | _ => false end.
Definition sb_contains (k : SequenceNumber) (b : SingleSendBuffer) : bool :=
  match seq_find k (buffers_ b) with Some _ => true | None => false end.

(** The copies in the buffer are the transport's own: dropping them tells nobody. *)
Definition sb_release (k : SequenceNumber) (x : BufferType) (b : SingleSendBuffer) : SingleSendBuffer :=
  let b := if has_data x then b else set_fragments (seq_erase k <$> fragments_ b) b in
  set_buffers (seq_erase k (buffers_ b)) b.

Definition release_all (b : SingleSendBuffer) : SingleSendBuffer :=
  fold_left (fun b x => sb_release x.1 x.2 b) (buffers_ b) b.

Definition check_capacity (b : SingleSendBuffer) : SingleSendBuffer :=
  if (length (buffers_ b) =? capacity_ b)%nat then
    match buffers_ b with
    | [] => b
    | (k, x) :: _ => sb_release k x b
    end
  else b.

(** [TransportRetainedElement]: a failed copy leaves a null chain. *)
Definition retained (fresh : list MB) (e : QueueElement MB) : QueueElement MB :=
  replaced e (default [] (clone_mb fresh (msg e))).

(** [CopyChainVisitor] on the elements: the copies and the blocks left. *)
Fixpoint copy_elements (fresh : list MB) (elems : list (QueueElement MB)) : list (QueueElement MB) * list MB :=
  match elems with
  | [] => ([], fresh)
  | e :: elems =>
      let '(copies, rest) := copy_elements (drop (length (msg e)) fresh) elems in
      (retained fresh e :: copies, rest)
  end.

Definition insert_buffer (fresh : list MB) (queue : list (QueueElement MB)) (chain : list MB) : BufferType :=
  let '(elems, fresh) := copy_elements fresh queue in
  (Some elems, default [] (clone_mb fresh chain)).

Definition sb_insert (fresh : list MB) (sequence : SequenceNumber) (queue : list (QueueElement MB)) (chain : list MB)
    (b : SingleSendBuffer) : SingleSendBuffer :=
  let b := check_capacity b in
  set_buffers (seq_set sequence (insert_buffer fresh queue chain) (buffers_ b)) b.

Definition insert_fragment (fresh : list MB) (sequence fragment : SequenceNumber) (queue : list (QueueElement MB)) (chain : list MB)
    (b : SingleSendBuffer) : SingleSendBuffer :=
  let b := check_capacity b in
  let b := set_buffers (seq_set sequence (None, []) (buffers_ b)) b in
  let frags := default [] (fragments_ b) in
  let one := default [] (seq_find sequence frags) in
  set_fragments (Some (seq_set sequence (seq_set fragment (insert_buffer fresh queue chain) one) frags)) b.

(** ** Resending *)

Definition resend_one (x : BufferType) (s : Strategy MB) : outcome (Strategy MB) :=
  '(_, _, s) ← do_send_packet cfg x.2 s;
  Ret s.

Fixpoint resend_each (l : BufferMap) (s : Strategy MB) : outcome (Strategy MB) :=
  match l with
  | [] => Ret s
  | x :: l => s ← resend_one x.2 s; resend_each l s
  end.

(** One sequence number of [resend_i]; [gaps] is [None] for a null pointer. *)
Definition resend_seq (b : SingleSendBuffer) (k : SequenceNumber) (gaps : option (list SequenceRange)) (s : Strategy MB)
    : outcome (option (list SequenceRange) * Strategy MB) :=
  match seq_find k (buffers_ b) with
  | None =>
      match gaps with
      | None => Ret (gaps, s)
      | Some g => '(_, g) ← insert_value g k; Ret (Some g, s)
      end
  | Some x =>
      if has_data x then s ← resend_one x s; Ret (gaps, s)
      else match fragments_ b with
           | None => Ret (gaps, s)
           | Some frags =>
               match seq_find k frags with
               | None => Ret (gaps, s)
               | Some l => s ← resend_each l s; Ret (gaps, s)
               end
           end
  end.

Fixpoint resend_loop (fuel : nat) (b : SingleSendBuffer) (k last_ : SequenceNumber) (gaps : option (list SequenceRange)) (s : Strategy MB)
    : outcome (option (list SequenceRange) * Strategy MB) :=
  match fuel with
  | O => Fuel
  | S fuel =>
      if sn_le k last_ then
        '(gaps, s) ← resend_seq b k gaps s;
        resend_loop fuel b (next k) last_ gaps s
      else Ret (gaps, s)
  end.

Definition resend_i (range : SequenceRange) (gaps : option (list SequenceRange)) (b : SingleSendBuffer) (s : Strategy MB)
    : outcome (bool * option (list SequenceRange) * Strategy MB) :=
  '(gaps, s) ← resend_loop (S (Z.to_nat (getValue range.2 - getValue range.1 + 1))) b range.1 range.2 gaps s;
  low ← sb_low b;
  if sn_ge range.1 low then
    high ← sb_high b;
    Ret (sn_le range.2 high, gaps, s)
  else Ret (false, gaps, s).

(** The [while] loop of [resend_fragments_i] from [it] to [it2]: reading an entry
    at the end of the map is undefined. *)
Fixpoint resend_span (it it2 : BufferMap) (sent : SequenceNumber) (s : Strategy MB) : outcome (SequenceNumber * Strategy MB) :=
  match it with
  | [] => UB
  | (k, x) :: rest =>
      '(sent, s) ← (if sn_lt sent k then s ← resend_one x s; Ret (k, s) else Ret (sent, s));
      if (length it =? length it2)%nat then Ret (sent, s) else resend_span rest it2 sent s
  end.

Fixpoint resend_ranges (psr : list SequenceRange) (l : BufferMap) (sent : SequenceNumber) (s : Strategy MB) : outcome (Strategy MB) :=
  match psr with
  | [] => Ret s
  | r :: psr =>
      match lower_bound_from r.1 l with
      | [] => Ret s
      | it => '(sent, s) ← resend_span it (lower_bound_from r.2 l) sent s; resend_ranges psr l sent s
      end
  end.

Definition resend_fragments_i (seq : SequenceNumber) (requested_frags : list SequenceRange) (b : SingleSendBuffer) (s : Strategy MB)
    : outcome (SingleSendBuffer * Strategy MB) :=
  match fragments_ b with
  | None | Some [] => Ret (b, s)
  | Some frags =>
      if ds_empty requested_frags then Ret (b, s)
      else
        let l := default [] (seq_find seq frags) in
        let b := set_fragments (Some (seq_set seq l frags)) b in
        s ← resend_ranges (present_sequence_ranges requested_frags) l SN_ZERO s;
        Ret (b, s)
  end.

(** ** Retaining *)

(** The first block of the packet is its header; a copy is released when it is
    dropped. *)
Definition retain_buffer (fresh : list MB) (pub_id : GUID) (x : BufferType) : outcome (RemoveResult * BufferType) :=
  '(elems, chain, _, status) ← packet_remove (MatchOnPubId pub_id) false (fun _ => true) fresh (head x.2) (default [] x.1) x.2 NotStarted;
  Ret (status, (Some elems, chain)).

(** [fresh k f] are the blocks for the copy of fragment [f] of packet [k] ([k]
    itself for a packet that is not in fragments).  A fragment that fails is released with an iterator of another map. *)
Fixpoint retain_fragments (fresh : SequenceNumber -> list MB) (pub_id : GUID) (l : BufferMap) : outcome BufferMap :=
  match l with
  | [] => Ret []
  | (k, x) :: l =>
      '(status, x) ← retain_buffer (fresh k) pub_id x;
      if decide (status = REMOVE_ERROR) then UB
      else l ← retain_fragments fresh pub_id l; Ret ((k, x) :: l)
  end.

Definition retain_entry (fresh : SequenceNumber -> SequenceNumber -> list MB) (pub_id : GUID) (k : SequenceNumber) (x : BufferType) (b : SingleSendBuffer) : outcome SingleSendBuffer :=
  if has_data x then
    '(status, x) ← retain_buffer (fresh k k) pub_id x;
    Ret (if decide (status = REMOVE_ERROR) then sb_release k x b else set_buffers (seq_set k x (buffers_ b)) b)
  else
    match fragments_ b with
    | None => Fuel
    | Some frags =>
        match seq_find k frags with
        | None => Ret b
        | Some l => l ← retain_fragments (fresh k) pub_id l; Ret (set_fragments (Some (seq_set k l frags)) b)
        end
    end.

Fixpoint retain_loop (fresh : SequenceNumber -> SequenceNumber -> list MB) (pub_id : GUID) (l : BufferMap) (b : SingleSendBuffer) : outcome SingleSendBuffer :=
  match l with
  | [] => Ret b
  | (k, x) :: l => b ← retain_entry fresh pub_id k x b; retain_loop fresh pub_id l b
  end.

Definition retain_all (fresh : SequenceNumber -> SequenceNumber -> list MB) (pub_id : GUID) (b : SingleSendBuffer) : outcome SingleSendBuffer :=
  retain_loop fresh pub_id (buffers_ b) b.

End operations.
Arguments mkSB {MB} _ _ _.
Arguments capacity_ {MB} _.
Arguments buffers_ {MB} _.
Arguments fragments_ {MB} _.


(** ** Maps *)

Section map_lemmas.
Context {A : Type}.
Implicit Types (m : list (SequenceNumber * A)) (k : SequenceNumber).

Lemma seq_find_some k m v : seq_find k m = Some v -> (k, v) ∈ m.
Proof.
  induction m as [|[k' v'] m IH]; cbn; [done|]. destruct (sn_eq k k') eqn:E; [|right; auto].
  apply sn_eq_true in E as ->. intros [= ->]. by left.
Qed.

Lemma seq_find_none k m : seq_find k m = None <-> k ∉ m.*1.
Proof.
  induction m as [|[k' v'] m IH]; cbn; [set_solver|]. rewrite not_elem_of_cons, <- IH. destruct (sn_eq k k') eqn:E.
  - apply sn_eq_true in E as ->. naive_solver.
  - split; [|naive_solver]. intros Hm. split; [intros ->; by rewrite (proj2 (sn_eq_true _ _) eq_refl) in E|done].
Qed.

Lemma seq_find_fmap {B} (f : A -> B) k m : seq_find k ((fun x => (x.1, f x.2)) <$> m) = f <$> seq_find k m.
Proof. induction m as [|[k' v'] m IH]; cbn; [done|]. by destruct (sn_eq k k'). Qed.

Lemma seq_erase_head k v m : seq_erase k ((k, v) :: m) = m.
Proof. cbn. by rewrite (proj2 (sn_eq_true _ _) eq_refl). Qed.

(** A key after all others goes to the end. *)
Lemma seq_set_last k v m : sn_ok k -> Forall (fun x => sn_ok x.1 /\ getValue x.1 < getValue k) m -> seq_set k v m = m ++ [(k, v)].
Proof.
  intros Hk. induction 1 as [|[k' v'] m [H1 H2] Hm IH]; [done|]. cbn in *. rewrite sn_lt_value, (proj2 (Z.ltb_ge _ _)) by (done || lia).
  rewrite sn_eq_value, (proj2 (Z.eqb_neq _ _)) by (done || lia). by rewrite IH.
Qed.

End map_lemmas.

(** ** Copies *)

Section props.
Context {MB : Type} {MBo : MessageBlock MB} {MBl : MessageBlockLaws MB}.
Context (cfg : SendConfig).
Implicit Types (s : Strategy MB) (b : SingleSendBuffer (MB := MB)).

Lemma clone_block_bytes (b new : MB) : (0 < mb_length b)%nat -> room_for b new -> mb_bytes (clone_block b new) = mb_bytes b.
Proof.
  intros Hp (H1 & _ & H3). unfold clone_block.
  assert (mb_bytes (mb_copy (mb_base b) new) = mb_base b) as Hc by (by rewrite mb_copy_bytes, H1 by done).
  pose proof (mb_base_bytes b) as Hb. pose proof (f_equal length Hb) as Hl. fold (mb_length b) in Hl. rewrite length_take, length_drop in Hl.
  assert (mb_bytes (mb_advance_rd (mb_rd_off b) (mb_copy (mb_base b) new)) = drop (mb_rd_off b) (mb_base b)) as Ha.
  { rewrite mb_advance_rd_bytes, Hc; [done|]. unfold mb_length. rewrite Hc. lia. }
  rewrite mb_truncate_bytes, Ha; [by rewrite <- Hb|]. unfold mb_length at 2. rewrite Ha, length_drop. lia.
Qed.

Lemma clone_mb_bytes fresh (blocks : list MB) : fresh_for fresh blocks -> Forall (fun x => (0 < mb_length x)%nat) blocks ->
  exists new, clone_mb fresh blocks = Some new /\ chain_bytes new = chain_bytes blocks /\ length new = length blocks.
Proof.
  intros (used & rest & -> & Hr & _). induction Hr as [|x u blocks used Hxu Hr IH]; intros Hp; [by exists []|].
  apply Forall_cons in Hp as [Hx Hp]. destruct (IH Hp) as (new & E & Hb & Hl). exists (clone_block x u :: new).
  cbn [app clone_mb]. rewrite E. split_and!; [done| |by cbn; rewrite Hl]. by rewrite !chain_bytes_cons, Hb, clone_block_bytes.
Qed.

(** ** The packets kept *)

(** A packet given to [insert], with the blocks for its copy. *)
Record given := mkGV { gv_seq : SequenceNumber; gv_elems : list (QueueElement MB); gv_chain : list MB; gv_fresh : list MB }.

Definition gv_insert b (p : given) := sb_insert (gv_fresh p) (gv_seq p) (gv_elems p) (gv_chain p) b.
Definition insert_all (ps : list given) b := fold_left gv_insert ps b.
Definition new_buffer (capacity : nat) : SingleSendBuffer (MB := MB) := mkSB capacity [] None.

Record gv_ok (p : given) : Prop := mkGO {
  go_seq : sn_valid (gv_seq p);
  go_chain : gv_chain p <> [];
  go_blocks : Forall (fun x => (0 < mb_length x)%nat) (gv_chain p);
  go_fresh : fresh_for (copy_elements (gv_fresh p) (gv_elems p)).2 (gv_chain p) }.

Definition entry_of (p : given) : SequenceNumber * BufferType := (gv_seq p, insert_buffer (gv_fresh p) (gv_elems p) (gv_chain p)).

(** The last packets, up to the capacity. *)
Definition kept (capacity : nat) (ps : list given) : list given := drop (length ps - capacity) ps.

Definition increasing (ps : list given) : Prop := StronglySorted Z.lt ((fun p => getValue (gv_seq p)) <$> ps).

Lemma kept_snoc capacity ps p : (0 < capacity)%nat ->
  kept capacity (ps ++ [p]) = (if (length (kept capacity ps) =? capacity)%nat then tail (kept capacity ps) else kept capacity ps) ++ [p].
Proof.
  intros Hc. unfold kept. rewrite length_app, length_drop. cbn [length]. destruct (Nat.eqb_spec (length ps - (length ps - capacity)) capacity) as [E|E].
  - assert (length ps + 1 - capacity = S (length ps - capacity))%nat as -> by lia. rewrite drop_app_le by lia.
    destruct (drop (length ps - capacity) ps) as [|x l] eqn:Ed; [apply (f_equal length) in Ed; rewrite length_drop in Ed; cbn in Ed; lia|].
    replace (S (length ps - capacity)) with (length ps - capacity + 1)%nat by lia. by rewrite <- drop_drop, Ed.
  - assert (length ps + 1 - capacity = 0)%nat as -> by lia. assert (length ps - capacity = 0)%nat as -> by lia. by rewrite !drop_0.
Qed.



Lemma kept_app capacity ps : exists old, ps = old ++ kept capacity ps.
Proof. exists (take (length ps - capacity) ps). symmetry. apply take_drop. Qed.

Lemma kept_incl capacity ps x : x ∈ kept capacity ps -> x ∈ ps.
Proof. destruct (kept_app capacity ps) as [old E]. intros Hx. rewrite E. apply elem_of_app. by right. Qed.

Lemma increasing_snoc ps p : increasing (ps ++ [p]) -> increasing ps /\ forall x, x ∈ ps -> getValue (gv_seq x) < getValue (gv_seq p).
Proof.
  unfold increasing. rewrite fmap_app. intros Hs. apply StronglySorted_app in Hs as (Hall & Hs & _). split; [done|].
  intros x Hx. apply Hall; [apply list_elem_of_fmap; by exists x|by left].
Qed.

Lemma has_data_entry p : gv_ok p -> has_data (entry_of p).2 = true /\ chain_bytes (entry_of p).2.2 = chain_bytes (gv_chain p)
  /\ length (entry_of p).2.2 = length (gv_chain p).
Proof.
  intros [_ Hn Hb Hf]. unfold entry_of, insert_buffer. destruct (copy_elements (gv_fresh p) (gv_elems p)) as [copies rest]. cbn [fst snd] in *.
  destruct (clone_mb_bytes rest (gv_chain p) Hf Hb) as (new & -> & Hbytes & Hlen). cbn [default]. split_and!; [|done|done].
  destruct new; [|done]. by destruct (gv_chain p).
Qed.

Lemma insert_all_spec capacity ps : (0 < capacity)%nat -> Forall gv_ok ps -> increasing ps ->
  insert_all ps (new_buffer capacity) = mkSB capacity (entry_of <$> kept capacity ps) None.
Proof.
  intros Hc. induction ps as [|p ps IH] using rev_ind; intros Ho Hi; [done|].
  apply Forall_app in Ho as [Ho [Hp _]%Forall_cons]. apply increasing_snoc in Hi as [Hi Hlt]. unfold insert_all in *. rewrite fold_left_app, (IH Ho Hi).
  cbn [fold_left]. unfold gv_insert, sb_insert, check_capacity. cbn [buffers_ capacity_]. rewrite length_fmap, (kept_snoc capacity ps p Hc).
  assert (forall l, (forall x, x ∈ l -> x ∈ ps) -> seq_set (gv_seq p) (entry_of p).2 (entry_of <$> l) = entry_of <$> l ++ [p]) as Hset.
  { intros l Hl. rewrite fmap_app. apply seq_set_last; [exact (sn_valid_ok _ (go_seq _ Hp))|]. apply Forall_forall.
    intros y (x & -> & Hx)%list_elem_of_fmap. rewrite Forall_forall in Ho. split; [exact (sn_valid_ok _ (go_seq _ (Ho x (Hl x Hx))))|]. by apply Hlt, Hl. }
  pose proof (kept_incl capacity ps) as Hin.
  destruct (length (kept capacity ps) =? capacity)%nat; [|unfold set_buffers; cbn [buffers_ capacity_ fragments_]; f_equal; by apply Hset].
  destruct (kept capacity ps) as [|x l] eqn:Ek; [unfold set_buffers; cbn [buffers_ capacity_ fragments_]; f_equal; by apply (Hset [])|]. cbn [fmap list_fmap tail].
  destruct (has_data_entry x) as [Hd _]; [rewrite Forall_forall in Ho; apply Ho, Hin; by left|].
  change (entry_of x) with (gv_seq x, (entry_of x).2). unfold sb_release. rewrite Hd. unfold set_buffers. cbn [buffers_ capacity_ fragments_].
  rewrite seq_erase_head. f_equal. apply Hset. intros y Hy. apply Hin. by right.
Qed.


(** ** Resending *)

(** A packet the socket takes at once, when it accepts [n] bytes. *)
Definition datagram (n : positive) (c : list MB) : Prop :=
  c <> [] /\ (length c <= MAX_SEND_BLOCKS cfg)%nat /\ Z.of_nat (length (chain_bytes c)) <= Zpos n.

(** The state after the packets were sent. *)
Definition resent (cs : list (list MB)) (net : list answer) s : Strategy MB :=
  set_wire (wire_ s ++ concat (chain_bytes <$> cs)) (set_net net s).

Lemma resent_app c1 c2 net1 net2 s : resent c2 net2 (resent c1 net1 s) = resent (c1 ++ c2) net2 s.
Proof. unfold resent. cbn. by rewrite fmap_app, concat_app, (assoc_L (++)). Qed.

Lemma resent_nil s : resent [] (net_ s) s = s.
Proof. unfold resent. cbn. rewrite app_nil_r. by destruct s. Qed.

Lemma resend_one_spec (x : BufferType) s n net : datagram n x.2 -> net_ s = Accept n :: net -> resend_one cfg x s = Ret (resent [x.2] net s).
Proof.
  intros (Hn & Hl & Hb) Hs. unfold resend_one, do_send_packet. destruct x as [o c]. cbn [snd] in *. destruct c as [|y c]; [done|].
  rewrite Hs, take_ge by lia. cbn [mbind outcome_bind]. rewrite Z.min_r by done. rewrite Nat2Z.id, take_ge by lia.
  unfold resent. cbn [fmap list_fmap concat]. by rewrite app_nil_r.
Qed.

Lemma resend_each_spec (l : BufferMap) s n net : Forall (fun y : SequenceNumber * BufferType => datagram n y.2.2) l -> net_ s = replicate (length l) (Accept n) ++ net ->
  resend_each cfg l s = Ret (resent ((fun y : SequenceNumber * BufferType => y.2.2) <$> l) net s).
Proof.
  revert s. induction l as [|y l IH]; intros s Hd Hs; cbn [resend_each fmap list_fmap]; [cbn in Hs; subst net; by rewrite resent_nil|].
  apply Forall_cons in Hd as [Hy Hd]. rewrite (resend_one_spec _ _ _ _ Hy Hs). cbn [mbind outcome_bind].
  rewrite IH by done. by rewrite resent_app.
Qed.

(** What is kept of a sequence number: a packet, or its fragments in order. *)
Definition packets_of b (k : SequenceNumber) : list (list MB) :=
  match seq_find k (buffers_ b) with
  | None => []
  | Some x => if has_data x then [x.2]
              else match fragments_ b with None => [] | Some f => (fun y : SequenceNumber * BufferType => y.2.2) <$> default [] (seq_find k f) end
  end.

(** The gaps after the values of [missing] were added. *)
Definition gaps_with (missing : Z -> Prop) (gaps gaps' : option (list SequenceRange)) : Prop :=
  match gaps, gaps' with
  | None, None => True
  | Some g, Some g' => wf g' /\ forall v, covers g' v <-> covers g v \/ missing v
  | _, _ => False
  end.

Definition gaps_wf (gaps : option (list SequenceRange)) : Prop := match gaps with None => True | Some g => wf g end.

Lemma resend_seq_spec b k gaps s n net : Forall (datagram n) (packets_of b k) -> net_ s = replicate (length (packets_of b k)) (Accept n) ++ net ->
  gaps_wf gaps -> sn_valid k -> getValue k < MAX_VALUE ->
  exists gaps', resend_seq cfg b k gaps s = Ret (gaps', resent (packets_of b k) net s)
    /\ gaps_with (fun v => v = getValue k /\ seq_find k (buffers_ b) = None) gaps gaps'.
Proof.
  intros Hd Hs Hg Hk Hm. unfold resend_seq, packets_of in *. destruct (seq_find k (buffers_ b)) as [x|].
  - assert (gaps_with (fun v => v = getValue k /\ Some x = None) gaps gaps) as Hsame.
    { destruct gaps as [g|]; cbn in *; [|done]. split; [done|]. intros v. split; [by left|]. by intros [?|[_ ?]]. }
    exists gaps. split; [|exact Hsame]. destruct (has_data x).
    + apply Forall_cons in Hd as [Hx _]. by rewrite (resend_one_spec x s n net Hx Hs).
    + destruct (fragments_ b) as [f|]; [|cbn in Hs; subst net; by rewrite resent_nil].
      destruct (seq_find k f) as [l|]; cbn [default fmap list_fmap] in *; [|cbn in Hs; subst net; by rewrite resent_nil].
      rewrite length_fmap in Hs. rewrite Forall_fmap in Hd. by rewrite (resend_each_spec l s n net Hd Hs).
  - cbn in Hs. subst net. rewrite resent_nil. destruct gaps as [g|]; [|by exists None]. cbn in Hg.
    assert (range_ok (k, k)) as Hr by (split_and!; cbn; [done|done|lia|done]).
    destruct (insert_range_spec g (k, k) Hg Hr) as (c & g' & E & Hw & Hc & _). exists (Some g'). unfold insert_value, insert_range in *. rewrite E. split; [done|].
    split; [done|]. intros v. rewrite Hc. unfold in_range. cbn [fst snd]. split; intros [?|?]; [by left|right; split; [lia|done]|by left|right; lia].
Qed.

Fixpoint seq_span (k : SequenceNumber) (n : nat) : list SequenceNumber :=
  match n with O => [] | S n => k :: seq_span (next k) n end.

Lemma resend_loop_spec count : forall b k hi gaps s n net,
  sn_valid k -> sn_valid hi -> getValue hi < MAX_VALUE -> getValue k + Z.of_nat count = getValue hi + 1 ->
  Forall (datagram n) (concat (packets_of b <$> seq_span k count)) ->
  net_ s = replicate (length (concat (packets_of b <$> seq_span k count))) (Accept n) ++ net -> gaps_wf gaps ->
  exists gaps', resend_loop cfg (S count) b k hi gaps s = Ret (gaps', resent (concat (packets_of b <$> seq_span k count)) net s)
    /\ gaps_with (fun v => getValue k <= v <= getValue hi /\ seq_find (of_value v) (buffers_ b) = None) gaps gaps'.
Proof.
  induction count as [|count IH]; intros b k hi gaps s n net Hk Hh Hm Hc Hd Hs Hg; cbn [resend_loop].
  { rewrite sn_le_value, (proj2 (Z.leb_gt _ _)) by (lia || by apply sn_valid_ok). cbn in Hs |- *. subst net. rewrite resent_nil. exists gaps. split; [done|].
    destruct gaps; [|done]. split; [done|]. intros v. split; [by left|]. intros [?|[? _]]; [done|lia]. }
  rewrite sn_le_value, (proj2 (Z.leb_le _ _)) by (lia || by apply sn_valid_ok).
  cbn [seq_span fmap list_fmap concat] in *. rewrite length_app, replicate_add, <- (assoc_L (++)) in Hs. apply Forall_app in Hd as [Hd1 Hd2].
  destruct (resend_seq_spec b k gaps s n _ Hd1 Hs Hg Hk) as (g1 & -> & Hg1); [lia|]. cbn [mbind outcome_bind].
  assert (getValue (next k) = getValue k + 1) as Hn by (rewrite getValue_next by (by apply sn_valid_ok); destruct (Z.eqb_spec (getValue k) MAX_VALUE); lia).
  destruct (IH b (next k) hi g1 (resent (packets_of b k) (replicate (length (concat (packets_of b <$> seq_span (next k) count))) (Accept n) ++ net) s) n net)
    as (g2 & E2 & Hg2); [by apply next_valid|done|done|lia|done|done|destruct gaps, g1; cbn in *; tauto|].
  rewrite resent_app in E2. exists g2. split; [exact E2|].
  destruct gaps as [g|], g1 as [g1|], g2 as [g2|]; cbn in Hg1, Hg2 |- *; try done. destruct Hg1 as [_ Hg1], Hg2 as [Hw2 Hg2]. split; [done|].
  intros v. rewrite Hg2, Hg1, Hn. assert (of_value (getValue k) = k) as Hov by (by apply of_value_getValue). split.
  - intros [[?|[-> ?]]|[? ?]]; [by left|right; rewrite Hov; split; [lia|done]|right; split; [lia|done]].
  - intros [?|[Hv Hf]]; [by left; left|]. destruct (decide (v = getValue k)) as [-> |?]; [left; right; by rewrite Hov in Hf|right; split; [lia|done]].
Qed.


(** ** The packets of a run of inserts *)

Definition chains (ps : list given) : list (SequenceNumber * list MB) := (fun p => (gv_seq p, gv_chain p)) <$> ps.

(** The packets with the sequence numbers asked for, in order. *)
Definition asked (range : SequenceRange) (ps : list given) : list (list MB) :=
  omap (fun k => seq_find k (chains ps)) (seq_span range.1 (Z.to_nat (getValue range.2 - getValue range.1 + 1))).

Lemma packets_of_kept capacity ps k : Forall gv_ok ps ->
  Forall2 (fun c c' => chain_bytes c' = chain_bytes c /\ length c' = length c)
    (option_list (seq_find k (chains ps))) (packets_of (mkSB capacity (entry_of <$> ps) None) k)
  /\ (seq_find k (chains ps) = None <-> seq_find k (entry_of <$> ps) = None).
Proof.
  unfold packets_of. cbn [buffers_ fragments_]. induction 1 as [|p ps Hp Hps IH]; [by split; [constructor|]|].
  change (chains (p :: ps)) with ((gv_seq p, gv_chain p) :: chains ps). cbn [fmap list_fmap].
  change (entry_of p) with (gv_seq p, (entry_of p).2). cbn [seq_find]. destruct (sn_eq k (gv_seq p)); [|exact IH].
  destruct (has_data_entry p Hp) as (Hd & Hb & Hl). rewrite Hd. split; [|done].
  constructor; [done|constructor].
Qed.

Lemma resend_spans capacity ps range : Forall gv_ok ps ->
  Forall2 (fun c c' => chain_bytes c' = chain_bytes c /\ length c' = length c) (asked range ps)
    (concat (packets_of (mkSB capacity (entry_of <$> ps) None) <$> seq_span range.1 (Z.to_nat (getValue range.2 - getValue range.1 + 1)))).
Proof.
  intros Hp. unfold asked. induction (seq_span _ _) as [|k l IH]; [constructor|]. cbn [fmap list_fmap concat omap list_omap].
  destruct (packets_of_kept capacity ps k Hp) as [Hk _]. destruct (seq_find k (chains ps)); exact (Forall2_app Hk IH).
Qed.

Lemma asked_datagrams n (l l' : list (list MB)) : Forall2 (fun c c' => chain_bytes c' = chain_bytes c /\ length c' = length c) l l' ->
  Forall (datagram n) l -> Forall (datagram n) l' /\ chain_bytes <$> l' = chain_bytes <$> l.
Proof.
  induction 1 as [|c c' l l' [Hb Hl] H IH]; [done|]. intros [(D1 & D2 & D3) D]%Forall_cons. destruct (IH D) as [H1 H2]. cbn [fmap list_fmap]. rewrite Hb, H2.
  split; [|done]. constructor; [|done]. unfold datagram. rewrite Hb, Hl. split_and!; [|done|done]. destruct c'; [|done]. by destruct c.
Qed.

Lemma kept_missing (l : list given) v : Forall gv_ok l -> MIN_VALUE <= v <= MAX_VALUE ->
  seq_find (of_value v) (entry_of <$> l) = None <-> ~ exists p, p ∈ l /\ getValue (gv_seq p) = v.
Proof.
  intros Hl Hv. rewrite seq_find_none. rewrite Forall_forall in Hl. split; intros Hn.
  - intros (p & Hp & <-). apply Hn. rewrite of_value_getValue by (by apply Hl). rewrite <- list_fmap_compose. apply list_elem_of_fmap. by exists p.
  - rewrite <- list_fmap_compose. intros (p & E & Hp)%list_elem_of_fmap. apply Hn. exists p. split; [done|]. cbn in E. rewrite <- E.
    rewrite getValue_of_value; lia.
Qed.

(** What [resend_i] returns. *)
Definition sb_result b (range : SequenceRange) (ok : bool) : Prop := forall (g : option (list SequenceRange)) (s : Strategy MB),
  (low ← sb_low b; if sn_ge range.1 low then high ← sb_high b; Ret (sn_le range.2 high, g, s) else Ret (false, g, s)) = Ret (ok, g, s).

Lemma resend_result capacity ps range : (0 < capacity)%nat -> ps <> [] -> Forall gv_ok ps -> range_ok range ->
  exists ok, sb_result (mkSB capacity (entry_of <$> kept capacity ps) None) range ok
    /\ (ok = true <-> exists p1 p2, head (kept capacity ps) = Some p1 /\ last (kept capacity ps) = Some p2
          /\ getValue (gv_seq p1) <= getValue range.1 /\ getValue range.2 <= getValue (gv_seq p2)).
Proof.
  intros Hc Hne Ho (Hr1 & Hr2 & _). pose proof (kept_incl capacity ps) as Hin. rewrite Forall_forall in Ho.
  assert (kept capacity ps <> []) as Hk.
  { intros E. apply (f_equal length) in E. unfold kept in E. rewrite length_drop in E. cbn in E. apply Hne, nil_length_inv. lia. }
  destruct (head (kept capacity ps)) as [p1|] eqn:E1; [|by apply head_None in E1]. destruct (last (kept capacity ps)) as [p2|] eqn:E2; [|by apply last_None in E2].
  assert (sn_ok (gv_seq p1)) as H1 by (apply sn_valid_ok, go_seq, Ho, Hin; by apply head_Some_elem_of).
  assert (sn_ok (gv_seq p2)) as H2 by (apply sn_valid_ok, go_seq, Ho, Hin; by apply last_Some_elem_of).
  assert (sn_ok range.1 /\ sn_ok range.2) as [? ?] by (by split; apply sn_valid_ok).
  exists ((getValue (gv_seq p1) <=? getValue range.1) && (getValue range.2 <=? getValue (gv_seq p2))). split.
  - intros g s. unfold sb_low, sb_high. cbn [buffers_]. rewrite fmap_last, E2. destruct (kept capacity ps) as [|x l]; [done|]. injection E1 as ->.
    cbn [fmap list_fmap option_fmap option_map mbind outcome_bind fst entry_of]. rewrite sn_ge_value, sn_le_value by done.
    by destruct (getValue (gv_seq p1) <=? getValue range.1).
  - rewrite andb_true_iff, !Z.leb_le. split; [intros [? ?]; by exists p1, p2|]. intros (q1 & q2 & [= <-] & [= <-] & ? & ?). done.
Qed.

(** C39: A reader that asks for a range gets what is kept.  After one or more
    packets were inserted with increasing sequence numbers, when the socket takes
    each datagram whole, [resend_i] sends the
    bytes of exactly those packets of the range that are among the last ones, up
    to the capacity, in the order of their sequence numbers, adds exactly the
    other numbers of the range to the gaps, and returns [true] exactly when the
    range lies between the first and the last packet kept. *)
Theorem resend_sends_kept capacity ps range gaps s n net : (0 < capacity)%nat -> ps <> [] -> Forall gv_ok ps -> increasing ps -> range_ok range -> wf gaps ->
  Forall (datagram n) (asked range (kept capacity ps)) -> net_ s = replicate (length (asked range (kept capacity ps))) (Accept n) ++ net ->
  exists ok gaps' s', resend_i cfg range (Some gaps) (insert_all ps (new_buffer capacity)) s = Ret (ok, Some gaps', s')
    /\ wire_ s' = wire_ s ++ concat (chain_bytes <$> asked range (kept capacity ps)) /\ net_ s' = net
    /\ wf gaps' /\ (forall v, covers gaps' v <-> covers gaps v \/ in_range v range /\ ~ exists p, p ∈ kept capacity ps /\ getValue (gv_seq p) = v)
    /\ (ok = true <-> exists p1 p2, head (kept capacity ps) = Some p1 /\ last (kept capacity ps) = Some p2
          /\ getValue (gv_seq p1) <= getValue range.1 /\ getValue range.2 <= getValue (gv_seq p2)).
Proof.
  intros Hc Hne Ho Hi (Hr1 & Hr2 & Hr3) Hg Hd Hs. rewrite (insert_all_spec capacity ps Hc Ho Hi).
  assert (Forall gv_ok (kept capacity ps)) as Hk by (rewrite Forall_forall in Ho |- *; intros x Hx; by eapply Ho, kept_incl).
  pose proof (resend_spans capacity _ range Hk) as Hsp. destruct (asked_datagrams n _ _ Hsp Hd) as [Hd' Hb].
  rewrite (Forall2_length _ _ _ Hsp) in Hs. unfold resend_i. set (count := Z.to_nat _) in *.
  destruct (resend_loop_spec count (mkSB capacity (entry_of <$> kept capacity ps) None) range.1 range.2 (Some gaps) s n net Hr1 Hr2) as (g' & -> & Hgw); [lia|lia|done|done|done|].
  cbn [mbind outcome_bind]. destruct g' as [g'|]; [|done]. destruct Hgw as [Hw Hcov]. cbn [buffers_] in Hcov.
  assert (forall v, in_range v range -> seq_find (of_value v) (entry_of <$> kept capacity ps) = None <-> ~ exists p, p ∈ kept capacity ps /\ getValue (gv_seq p) = v) as Hmiss.
  { intros v [Hv1 Hv2]. by apply kept_missing; [|destruct Hr1; lia]. }
  destruct (resend_result capacity ps range Hc Hne Ho (conj Hr1 (conj Hr2 Hr3))) as (ok & Hlow & Hok).
  exists ok, g', (resent (concat (packets_of (mkSB capacity (entry_of <$> kept capacity ps) None) <$> seq_span range.1 count)) net s).
  unfold sb_result in Hlow. split; [exact (Hlow _ _)|]. split_and!; [cbn; by rewrite Hb|done|done| |done].
  intros v. rewrite Hcov. specialize (Hmiss v). unfold in_range in *. tauto.
Qed.

End props.


(** ** Runs *)

Import Example.

Module BufferExample.

(** Packet [i] holds the elements [es]; its copies are made in new blocks. *)
Definition packet (i : Z) (es : list (QueueElement block)) : given :=
  mkGV (of_value i) es (full_block (90000 + i) [68; i] :: concat (msg <$> es))
    ((fun j => empty_block (10000 * i + 10 * Z.of_nat j) 3) <$> seq 0 20).

Definition ps : list given := [packet 3 [elem 1 false]; packet 4 [elem 2 false; elem 3 false]; packet 6 [elem 4 false]].

Lemma fresh_blocks i j n : (n <= 10)%nat -> NoDup (base_addr <$> ((fun j => empty_block (10000 * i + 10 * Z.of_nat j) 3) <$> seq j n)).
Proof.
  intros _. rewrite <- list_fmap_compose. apply NoDup_fmap_2_strong; [|apply NoDup_ListNoDup, seq_NoDup].
  intros x y _ _ E. unfold base_addr in E. cbn in E. lia.
Qed.

(** The blocks left after the copies of the elements hold the chain. *)
Lemma packet_fits i es (j : nat) : (copy_elements (gv_fresh (packet i es)) es).2 = (fun j => empty_block (10000 * i + 10 * Z.of_nat j) 3) <$> seq j (20 - j) ->
  Forall (fun b => (0 < mb_length b <= 3)%nat /\ bl_used b = [] /\ bl_room b = []) (gv_chain (packet i es)) ->
  (length (gv_chain (packet i es)) <= 20 - j)%nat -> (length (gv_chain (packet i es)) <= 10)%nat -> 0 < i <= MAX_VALUE -> gv_ok (packet i es).
Proof.
  intros E Hb Hl Hl' Hi. set (c := gv_chain (packet i es)) in *. split; [apply of_value_valid; lia|done| |].
  { eapply Forall_impl; [exact Hb|]. cbn. tauto. }
  cbn [gv_elems packet] in *. rewrite E. fold c. exists ((fun j => empty_block (10000 * i + 10 * Z.of_nat j) 3) <$> seq j (length c)),
    ((fun j => empty_block (10000 * i + 10 * Z.of_nat j) 3) <$> seq (j + length c) (20 - j - length c)).
  split; [rewrite <- fmap_app, <- seq_app; do 2 f_equal; lia|]. split; [|by apply fresh_blocks].
  clear E Hl Hl'. clearbody c. revert j. induction Hb as [|x c (Hx & Hu & Hr) Hc IH]; intros j; [constructor|]. cbn [length seq fmap list_fmap]. constructor; [|apply IH].
  unfold room_for, mb_length in *. cbn in *. rewrite Hu, Hr, app_nil_r. cbn. split_and!; [done|done|lia].
Qed.

Ltac packet_ok j :=
  apply (packet_fits _ _ j); [by vm_compute|refine (bool_decide_unpack _ _); by vm_compute|cbn; lia|cbn; lia|done].

Lemma ps_ok : Forall gv_ok ps.
Proof.
  apply Forall_cons; split; [packet_ok 2%nat|]. apply Forall_cons; split; [packet_ok 4%nat|]. apply Forall_cons; split; [packet_ok 2%nat|constructor].
Qed.

Lemma ps_increasing : increasing ps.
Proof. unfold increasing. cbn. repeat constructor; done. Qed.

End BufferExample.


Lemma resend_sends_kept_witness : exists ok gaps' s',
  resend_i Example.cfg (of_value 3, of_value 7) (Some []) (insert_all BufferExample.ps (new_buffer 2)) (new_strategy (replicate 2 (Accept 30))) = Ret (ok, Some gaps', s')
  /\ wire_ s' = [68; 4; 2; 2; 2; 0; 2; 3; 3; 3; 0; 3; 68; 6; 4; 4; 4; 0; 4]
  /\ ~ covers gaps' 4 /\ covers gaps' 3 /\ covers gaps' 5 /\ covers gaps' 7 /\ ok = false.
Proof.
  destruct (resend_sends_kept Example.cfg 2 BufferExample.ps (of_value 3, of_value 7) [] (new_strategy (replicate 2 (Accept 30))) 30 [])
    as (ok & gaps' & s' & E & Hw & _ & _ & Hg & Hok).
  - lia.
  - done.
  - exact BufferExample.ps_ok.
  - exact BufferExample.ps_increasing.
  - by vm_compute; repeat split.
  - done.
  - refine (bool_decide_unpack _ _). by vm_compute.
  - done.
  - exists ok, gaps', s'. split; [exact E|]. split; [rewrite Hw; by vm_compute|].
    assert (forall v, (exists p, p ∈ kept 2 BufferExample.ps /\ getValue (gv_seq p) = v) <-> v = 4 \/ v = 6) as Hk.
    { intros v. split; [intros (p & Hp & <-); cbn in Hp; rewrite !elem_of_cons, elem_of_nil in Hp; destruct Hp as [-> |[-> |[]]]; by vm_compute; tauto|].
      intros [-> | ->]; [exists (BufferExample.packet 4 [elem 2 false; elem 3 false])|exists (BufferExample.packet 6 [elem 4 false])];
        (split; [|by vm_compute]); [by left|by right; left]. }
    split; [rewrite Hg, Hk; unfold covers; rewrite Exists_nil; tauto|].
    split; [rewrite Hg, Hk; right; split; [by vm_compute|lia]|].
    split; [rewrite Hg, Hk; right; split; [by vm_compute|lia]|].
    split; [rewrite Hg, Hk; right; split; [by vm_compute|lia]|].
    destruct ok; [|done]. exfalso. destruct (proj1 Hok eq_refl) as (p1 & p2 & [= <-] & _ & H1 & _). by vm_compute in H1.
Defined.


(** ** Failures *)

(** [resend] on an empty buffer throws. *)
Theorem resend_from_empty_throws :
  resend_i Example.cfg (of_value 3, of_value 3) None (new_buffer 2) (new_strategy []) = Throw.
Proof. by vm_compute. Qed.

(** The answer of the socket is not looked at: with a socket that would block
    nothing is sent, and the range is reported as resent. *)
Theorem blocked_resend_reported : exists s',
  resend_i Example.cfg (of_value 4, of_value 4) None (insert_all BufferExample.ps (new_buffer 3)) (new_strategy [Blocked]) = Ret (true, None, s')
  /\ wire_ s' = [].
Proof. eexists. split; [vm_compute; reflexivity|]. done. Qed.

(** The fragments of one packet push each other out: with room for one packet the
    second fragment releases the first. *)
Theorem fragment_evicts_fragment :
  let p1 := BufferExample.packet 1 [elem 1 false] in
  let p2 := BufferExample.packet 2 [elem 2 false] in
  let b := insert_fragment (gv_fresh p2) (of_value 5) (of_value 2) (gv_elems p2) (gv_chain p2)
             (insert_fragment (gv_fresh p1) (of_value 5) (of_value 1) (gv_elems p1) (gv_chain p1) (new_buffer 1)) in
  (fun f => (f.1, f.2.*1)) <$> default [] (fragments_ b) = [(of_value 5, [of_value 2])].
Proof. by vm_compute. Qed.

(** A request for fragments beyond the last one reads past the end of the map. *)
Theorem fragment_request_past_end :
  let p1 := BufferExample.packet 1 [elem 1 false] in
  let b := insert_fragment (gv_fresh p1) (of_value 5) (of_value 1) (gv_elems p1) (gv_chain p1) (new_buffer 2) in
  resend_fragments_i Example.cfg (of_value 5) [(of_value 1, of_value 2)] b (new_strategy []) = UB.
Proof. by vm_compute. Qed.

(** The copied elements do not share blocks with the copied chain: retaining the
    samples of a publication releases its packet, and for a packet of two
    elements runs off the end of the chain. *)
Theorem retain_all_loses_packets :
  let b := insert_all (take 1 BufferExample.ps) (new_buffer 2) in
  (gv_seq <$> take 1 BufferExample.ps) = (buffers_ b).*1
  /\ retain_all (fun _ _ => []) (publication_id (elem 1 false)) b = Ret (new_buffer 2)
  /\ retain_all (fun _ _ => []) (replicate 16 9) (insert_all BufferExample.ps (new_buffer 3)) = UB.
Proof. by vm_compute. Qed.

End TransportSendBuffer.
Export TransportSendBuffer.
