(* ===== verification/TransportHeader.v ===== *)
(** * The packet header (dds/DCPS/transport/framework/TransportHeader.{h,inl,cpp})

    Every packet the transport sends starts with this header of 24 octets:
    protocol, flags, a reserved octet, the length of the rest of the packet, the
    sequence number of the packet and the identification of its source. *)

From S2P Require Import Prelude MessageBlock SequenceNumber Serializer DataSampleHeader.

Module TransportHeader.

(** ** Data *)

Definition DCPS_PROTOCOL : list Z := [0x44; 0x43; 0x50; 0x53; 0x02; 0x00].

Record TransportHeader := mkTH {
  protocol_ : list Z;
  th_byte_order_ : bool; first_fragment_ : bool; last_fragment_ : bool;
  reserved_ : Z; length_ : Z; th_sequence_ : SequenceNumber; source_ : Z }.

(** The bits of the flags octet. *)
Definition TH_BYTE_ORDER_FLAG : Z := 0.
Definition FIRST_FRAGMENT_FLAG : Z := 1.
Definition LAST_FRAGMENT_FLAG : Z := 2.

(** The default constructor. *)
Definition default_transport_header : TransportHeader :=
  mkTH DCPS_PROTOCOL ACE_CDR_BYTE_ORDER false false 0 0 (of_value 1) 0.

Definition transport_max_marshaled_size : nat := 6 + 1 + 1 + 4 + 8 + 4.

Definition transport_swap_bytes (h : TransportHeader) : bool :=
  negb (bool_decide (th_byte_order_ h = ACE_CDR_BYTE_ORDER)).

Definition valid (h : TransportHeader) : bool := bool_decide (DCPS_PROTOCOL = protocol_ h).

(** [last_fragment(frag)], and the assignment to [length_]. *)
Definition last_fragment (h : TransportHeader) (frag : bool) : TransportHeader :=
  mkTH (protocol_ h) (th_byte_order_ h) (first_fragment_ h) frag (reserved_ h) (length_ h) (th_sequence_ h) (source_ h).
Definition set_packet_length (h : TransportHeader) (n : Z) : TransportHeader :=
  mkTH (protocol_ h) (th_byte_order_ h) (first_fragment_ h) (last_fragment_ h) (reserved_ h) n (th_sequence_ h) (source_ h).

Definition transport_flags (v : TransportHeader) : Z :=
  Z.lor (flag_bit (th_byte_order_ v) TH_BYTE_ORDER_FLAG)
  (Z.lor (flag_bit (first_fragment_ v) FIRST_FRAGMENT_FLAG) (flag_bit (last_fragment_ v) LAST_FRAGMENT_FLAG)).

Section operations.
Context {MB : Type} `{MessageBlock MB}.

(** [init]: every read is attempted, whatever the good bit says. *)
Definition transport_init (buffer : list MB) (h : TransportHeader)
    : outcome (Serializer MB * TransportHeader) :=
  let s := mk_serializer buffer false ALIGN_NONE in
  '(s, protocol) ← read_array s (protocol_ h) 1 6 (swap_bytes_ s);
  '(s, flags) ← read_octet s 0;
  let byte_order := test_mask flags TH_BYTE_ORDER_FLAG in
  let first := test_mask flags FIRST_FRAGMENT_FLAG in
  let last := test_mask flags LAST_FRAGMENT_FLAG in
  '(s, reserved) ← read_octet s (reserved_ h);
  let s := set_swap s (negb (bool_decide (byte_order = ACE_CDR_BYTE_ORDER))) in
  '(s, len) ← read_uint 4 s (length_ h);
  '(s, sequence) ← read_sn s (th_sequence_ h);
  '(s, source) ← read_sint 4 s (source_ h);
  Ret (s, mkTH protocol byte_order first last reserved len sequence source).

(** [operator<<]; the answer is the good bit of the serializer. *)
Definition write_transport_header (buffer : list MB) (v : TransportHeader) : outcome (Serializer MB) :=
  let s := mk_serializer buffer false ALIGN_NONE in
  s ← write_array s (protocol_ v) 1 6 (swap_bytes_ s);
  s ← write_octet s (transport_flags v);
  s ← write_octet s (reserved_ v);
  s ← write_int 4 s (length_ v);
  s ← write_SequenceNumber s (th_sequence_ v);
  write_int 4 s (source_ v).
End operations.

(** [get_length]: the four octets after protocol, flags and the reserved octet,
    in the host's order. *)
Definition get_length (marshaled_header : list Z) : Z := le_value (take 4 (drop (6 + 1 + 1) marshaled_header)).

(** ** The image of a header *)

Definition transport_swapped (h : TransportHeader) : bool := transport_swap_bytes h.
Definition transport_bytes (h : TransportHeader) : list Z :=
  protocol_ h ++ [transport_flags h; reserved_ h] ++ wire (transport_swapped h) 4 (length_ h) ++
  wire (transport_swapped h) 4 (high_ (th_sequence_ h)) ++ wire (transport_swapped h) 4 (low_ (th_sequence_ h)) ++
  wire (transport_swapped h) 4 (source_ h).

Record transport_ok (h : TransportHeader) : Prop := {
  tok_protocol : length (protocol_ h) = 6%nat;
  tok_reserved : is_u 8 (reserved_ h);
  tok_length : is_u 32 (length_ h);
  tok_sequence : sn_ok (th_sequence_ h);
  tok_source : is_s 32 (source_ h) }.

Lemma transport_bytes_length h : length (protocol_ h) = 6%nat -> length (transport_bytes h) = transport_max_marshaled_size.
Proof. intros Hp. unfold transport_bytes. rewrite !length_app, Hp, !wire_length. done. Qed.

Lemma transport_flags_test h : let b := transport_flags h in
  is_u 8 b /\ test_mask b TH_BYTE_ORDER_FLAG = th_byte_order_ h /\
  test_mask b FIRST_FRAGMENT_FLAG = first_fragment_ h /\ test_mask b LAST_FRAGMENT_FLAG = last_fragment_ h.
Proof. destruct h as [? [] [] [] ? ? ? ?]; vm_compute; repeat split; congruence. Qed.

Section laws.
Context {MB : Type} {MB0 : MessageBlock MB} {MB1 : MessageBlockLaws MB}.

(** [init] on the image of a header stores the header and leaves the rest. *)
Lemma transport_init_ok h old (buffer : list MB) rest :
  transport_ok h -> length (protocol_ old) = 6%nat -> chain_bytes buffer = transport_bytes h ++ rest ->
  exists s, transport_init buffer old = Ret (s, h) /\ rd0 buffer s (transport_swapped h) rest.
Proof.
  intros [Hp Hres Hlen Hseq Hsrc] Hold Hb. unfold transport_init.
  assert (rd0 buffer (mk_serializer buffer false ALIGN_NONE) false (transport_bytes h ++ rest)) as Hr
    by (split; [done..|exists 0%nat; by rewrite consume_0]).
  revert Hr. generalize (mk_serializer buffer false ALIGN_NONE). intros s Hr.
  unfold transport_bytes in Hr. rewrite <- !app_assoc in Hr. cbn [app] in Hr.
  destruct (transport_flags_test h) as (Hf & Hf1 & Hf2 & Hf3).
  unfold read_array. rewrite orb_true_r. change (1 * 6)%nat with 6%nat.
  destruct (rd0_buffer s false (protocol_ h) _ (protocol_ old) 6 false Hr) as (s1 & -> & Hr1); [done..|].
  cbn [mbind outcome_bind].
  destruct (rd0_octet s1 _ _ _ 0 Hf Hr1) as (s2 & -> & Hr2). cbn [mbind outcome_bind].
  destruct (rd0_octet s2 _ _ _ (reserved_ old) Hres Hr2) as (s3 & -> & Hr3). cbn [mbind outcome_bind].
  rewrite Hf1, Hf2, Hf3. apply (rd0_set_swap s3 _ (transport_swapped h)) in Hr3.
  unfold transport_swapped at 1, transport_swap_bytes. fold (transport_swapped h).
  destruct (rd0_uint 4 _ _ (length_ h) _ (length_ old) ltac:(unfold cdr_size; lia) Hlen Hr3) as (s4 & E4 & Hr4).
  change (negb _) with (transport_swapped h). rewrite E4. cbn [mbind outcome_bind].
  destruct (rd0_sn s4 _ (th_sequence_ h) _ (th_sequence_ old) Hseq Hr4) as (s5 & -> & Hr5). cbn [mbind outcome_bind].
  destruct (rd0_sint 4 s5 _ (source_ h) _ (source_ old) ltac:(unfold cdr_size; lia) Hsrc Hr5) as (s6 & -> & Hr6).
  cbn [mbind outcome_bind]. exists s6. split; [by destruct h|done].
Qed.

(** [operator<<] fills a fresh chain with the image of a header of the host's
    byte order. *)
Lemma write_transport_header_ok h (buffer : list MB) :
  transport_ok h -> th_byte_order_ h = ACE_CDR_BYTE_ORDER -> Forall (fun b => mb_bytes b = []) buffer ->
  Forall (fun b => mb_rd_off b = 0%nat) buffer -> (transport_max_marshaled_size <= chain_space buffer)%nat ->
  exists s, write_transport_header buffer h = Ret s /\
    wr0 (length buffer) s false (transport_bytes h) (chain_space buffer - transport_max_marshaled_size).
Proof.
  intros [Hp Hres Hlen Hseq Hsrc] Hbo Hb Hoff Hsp. unfold write_transport_header.
  assert (wr0 (length buffer) (mk_serializer buffer false ALIGN_NONE) false [] (chain_space buffer)) as Hw.
  { destruct (mk_serializer_wr buffer false ALIGN_NONE Hb) as [? _].
    split; try done. unfold wr_out. cbn [ser_done ser_cur mk_serializer app]. by apply chain_bytes_fresh. }
  revert Hw. generalize (mk_serializer buffer false ALIGN_NONE) as s. intros s Hw.
  destruct (transport_flags_test h) as (Hf & _).
  assert (24 <= chain_space buffer)%nat as Hsp' by exact Hsp. clear Hsp.
  unfold write_array. rewrite orb_true_r. change (1 * 6)%nat with 6%nat.
  destruct (wr0_buffer _ _ _ _ (protocol_ h) 6 false Hw) as (s1 & -> & Hw1); [done|lia|done|]. cbn [mbind outcome_bind].
  destruct (wr0_octet _ _ _ _ (transport_flags h) Hw1) as (s2 & -> & Hw2); [done|lia|]. cbn [mbind outcome_bind].
  destruct (wr0_octet _ _ _ _ (reserved_ h) Hw2) as (s3 & -> & Hw3); [done|lia|]. cbn [mbind outcome_bind].
  destruct (wr0_int 4 _ _ _ _ (length_ h) Hw3) as (s4 & -> & Hw4); [lia|lia|]. cbn [mbind outcome_bind].
  unfold write_SequenceNumber.
  destruct (wr0_int 4 _ _ _ _ (high_ (th_sequence_ h)) Hw4) as (s5 & -> & Hw5); [lia|lia|]. cbn [mbind outcome_bind].
  destruct (wr0_int 4 _ _ _ _ (low_ (th_sequence_ h)) Hw5) as (s6 & -> & Hw6); [lia|lia|]. cbn [mbind outcome_bind].
  destruct (wr0_int 4 _ _ _ _ (source_ h) Hw6) as (s7 & -> & Hw7); [lia|lia|].
  exists s7. split; [done|]. rewrite <- !app_assoc in Hw7.
  unfold transport_bytes, transport_swapped, transport_swap_bytes. rewrite Hbo. cbn [app] in *.
  replace (chain_space buffer - transport_max_marshaled_size)%nat with
    (chain_space buffer - 6 - 1 - 1 - 4 - 4 - 4 - 4)%nat by (unfold transport_max_marshaled_size; lia).
  exact Hw7.
Qed.

Lemma get_length_image h rest : transport_ok h -> th_byte_order_ h = ACE_CDR_BYTE_ORDER ->
  get_length (transport_bytes h ++ rest) = length_ h.
Proof.
  intros [Hp _ Hlen _ _] Hbo. unfold get_length, transport_bytes. rewrite <- !app_assoc.
  rewrite drop_app, Hp, drop_ge by lia. rewrite app_nil_l. change (6 + 1 + 1 - 6)%nat with 2%nat.
  rewrite drop_app_length' by done.
  rewrite take_app_length' by (by rewrite wire_length). unfold transport_swapped, transport_swap_bytes. rewrite Hbo.
  pose proof (unwire false 4 (length_ h)) as E. cbn beta iota in E. rewrite bool_decide_eq_true_2 by done.
  cbn [negb]. rewrite E. by apply Z.mod_small.
Qed.

(** What [operator<<] writes for a header of the host's byte order, [init] reads
    back, to the last octet of it, and [get_length] finds its length there. *)
Theorem transport_header_roundtrip h old (buffer : list MB) :
  transport_ok h -> th_byte_order_ h = ACE_CDR_BYTE_ORDER -> length (protocol_ old) = 6%nat ->
  Forall (fun b => mb_bytes b = []) buffer -> Forall (fun b => mb_rd_off b = 0%nat) buffer ->
  (transport_max_marshaled_size <= chain_space buffer)%nat ->
  exists s s', write_transport_header buffer h = Ret s /\ good_bit_ s = true /\
    get_length (chain_bytes (ser_done s ++ ser_cur s)) = length_ h /\
    transport_init (ser_done s ++ ser_cur s) old = Ret (s', h) /\ good_bit_ s' = true /\ rd_stream s' = [].
Proof.
  intros Hok Hbo Hold Hb Hoff Hsp.
  destruct (write_transport_header_ok h buffer Hok Hbo Hb Hoff Hsp) as (s & Hs & Hw).
  pose proof (wr0_out _ _ _ _ _ Hw) as Ho. unfold wr_out in Ho.
  destruct (transport_init_ok h old (ser_done s ++ ser_cur s) []) as (s' & Hs' & Hr); [done|done|by rewrite app_nil_r|].
  exists s, s'. split_and!; [done|apply Hw| |done|apply Hr|apply Hr].
  rewrite Ho, <- (app_nil_r (transport_bytes h)). by apply get_length_image.
Qed.
End laws.

Lemma transport_header_roundtrip_witness :
  let h := mkTH DCPS_PROTOCOL true false true 0 300 (mkSN 1 2) (-7) in
  exists s s', write_transport_header [SimpleBlock.empty_block 100 10; SimpleBlock.empty_block 200 20] h = Ret s /\
    transport_init (ser_done s ++ ser_cur s) default_transport_header = Ret (s', h).
Proof.
  destruct (transport_header_roundtrip (mkTH DCPS_PROTOCOL true false true 0 300 (mkSN 1 2) (-7)) default_transport_header
    [SimpleBlock.empty_block 100 10; SimpleBlock.empty_block 200 20]) as (s & s' & H1 & _ & _ & H2 & _).
  - split; [reflexivity|split; cbn; lia|split; cbn; lia|split; split; cbn; lia|split; cbn; lia].
  - reflexivity.
  - reflexivity.
  - repeat constructor.
  - repeat constructor.
  - cbn. unfold transport_max_marshaled_size. lia.
  - exists s, s'. split; [exact H1|exact H2].
Defined.
End TransportHeader.
Export TransportHeader.
