(* ===== verification/TransportReceiveStrategy.v ===== *)
(** * Receiving (dds/DCPS/transport/framework/TransportReceiveStrategy_T)

    [handle_dds_input] reads what the link has into a ring of receive buffers,
    which are linked with [cont()] so that headers and samples may cross them,
    and takes packets and samples out of them; what is left of an incomplete
    header stays in the buffers until the next call, an incomplete sample in
    [payload_].  The class is a template over the header types, which are the
    class [ReceiveHeaders], and its virtual functions are the class
    [ReceiveHooks]. *)

From S2P Require Import Prelude MessageBlock SequenceNumber Serializer DataSampleHeader TransportReassembly TransportHeader.

Module TransportReceiveStrategy.

(** ** The template parameters and the virtual functions *)

(** [TH] and [DSH].  An assignment from a message block reads from the chain
    that starts there: it gives the chain after it. *)
Class ReceiveHeaders (MB TH DSH : Type) := {
  th_max_marshaled_size : nat;
  th_assign : list MB -> TH -> outcome (list MB * TH);
  th_incomplete : list MB -> list MB;
  th_valid : TH -> bool;
  th_length : TH -> Z;
  th_set_length : TH -> Z -> TH;
  th_last_fragment : TH -> bool;
  th_set_last_fragment : TH -> bool -> TH;
  dsh_partial : list MB -> outcome bool;
  dsh_assign : list MB -> DSH -> outcome (list MB * DSH);
  dsh_pdu_remaining : DSH -> Z -> DSH;
  dsh_message_length : DSH -> Z;
  dsh_marshaled_size : DSH -> Z;
  dsh_more_fragments : DSH -> bool;
  dsh_into_received_data_sample : DSH -> ReceivedDataSample MB -> option (ReceivedDataSample MB) }.

(** The derived class, with its state [D].  [reassemble] gives the sample when
    it answers true; [deliver_sample] may set [gracefully_disconnected_]. *)
Class ReceiveHooks (MB TH DSH D : Type) := {
  check_transport_header : TH -> D -> outcome (bool * D);
  check_sample_header : DSH -> D -> bool * D;
  hook_reassemble : TH -> ReceivedDataSample MB -> D -> outcome (option (ReceivedDataSample MB) * D);
  deliver_sample : ReceivedDataSample MB -> bool -> D -> bool * D;
  relink : D -> D }.

(** The sizes: [RECEIVE_BUFFERS], [BUFFER_LOW_WATER], [RECEIVE_DATA_BUFFER_SIZE]. *)
Class ReceiveSizes := {
  RECEIVE_BUFFERS : nat; BUFFER_LOW_WATER : nat; RECEIVE_DATA_BUFFER_SIZE : nat }.
Definition opendds_sizes : ReceiveSizes :=
  {| RECEIVE_BUFFERS := 16; BUFFER_LOW_WATER := Z.to_nat 4096; RECEIVE_DATA_BUFFER_SIZE := Z.to_nat 65536 |}.

(** ** The receive buffers

    A slot of [receive_buffers_] is null or a block with the slot its [cont()]
    points to: a block is linked to blocks of other slots only, and no link to
    a block is left when its slot is emptied. *)
Abbreviation slot MB := (option (prod MB (option nat))) (only parsing).

Section buffers.
Context {MB : Type} {MB0 : MessageBlock MB} {SZ : ReceiveSizes}.
Implicit Types (bufs : list (slot MB)).

Definition successor_index (index : nat) : nat := (S index mod RECEIVE_BUFFERS)%nat.

(** The block of a slot, and the change of it. *)
Definition slot_at bufs (i : nat) : outcome (MB * option nat) := x ← deref (bufs !! i); deref x.
Definition set_block (i : nat) (b : MB) bufs : list (slot MB) :=
  alter (fun sl : slot MB => match sl with Some (_, c) => Some (b, c) | None => None end) i bufs.
Definition set_cont (i : nat) (c : option nat) bufs : list (slot MB) :=
  alter (fun sl : slot MB => match sl with Some (b, _) => Some (b, c) | None => None end) i bufs.

(** Removing the buffers that are drained and have little room left. *)
Definition unlink (i : nat) (sl : slot MB) : slot MB :=
  match sl with
  | Some (b, Some j) => if decide (j = i) then Some (b, None) else sl
  | _ => sl
  end.
Definition remove_exhausted bufs (i : nat) : list (slot MB) :=
  match bufs !! i with
  | Some (Some (b, _)) =>
      if (mb_length b =? 0)%nat && (mb_space b <? BUFFER_LOW_WATER)%nat then <[i := None]> (unlink i <$> bufs) else bufs
  | _ => bufs
  end.
Definition remove_buffers bufs : list (slot MB) := foldl remove_exhausted bufs (seq 0 RECEIVE_BUFFERS).

(** Allocating a buffer for every empty slot and linking the ring from
    [buffer_index_] on; an allocation does not fail. *)
Fixpoint alloc_loop (fuel : nat) (first previous index : nat) bufs : outcome (list (slot MB)) :=
  match fuel with
  | O => Fuel
  | S fuel' =>
      if decide (successor_index previous = first) then Ret bufs
      else
        sl ← deref (bufs !! index);
        let bufs := match sl with None => <[index := Some (mb_new RECEIVE_DATA_BUFFER_SIZE, None)]> bufs | Some _ => bufs end in
        bufs ← (if decide (previous = index) then Ret bufs
                else _ ← slot_at bufs previous; Ret (set_cont previous (Some index) bufs));
        alloc_loop fuel' first index (successor_index index) bufs
  end.

(** The [iovec]: its buffers with room, [None] when a slot is empty. *)
Fixpoint form_iov (n : nat) (current : nat) bufs : option (list nat) :=
  match n with
  | O => Some []
  | S n' =>
      match bufs !! current with
      | Some (Some (b, _)) =>
          iov ← form_iov n' (successor_index current) bufs;
          Some (if (0 <? mb_space b)%nat then mb_space b :: iov else iov)
      | _ => None
      end
  end.

(** The bytes read, put into the buffers; [false] when there were too many. *)
Fixpoint fill_loop (fuel : nat) (first index : nat) (bytes : list Z) bufs : outcome (bool * list (slot MB)) :=
  match fuel with
  | O => Fuel
  | S fuel' =>
      match bytes with
      | [] => Ret (true, bufs)
      | _ =>
          '(b, _) ← slot_at bufs index;
          let amount := Nat.min (length bytes) (mb_space b) in
          let bufs := set_block index (mb_copy (take amount bytes) b) bufs in
          let bytes := drop amount bytes in
          if negb (bool_decide (bytes = [])) && bool_decide (successor_index index = first) then Ret (false, bufs)
          else fill_loop fuel' first (successor_index index) bytes bufs
      end
  end.

(** The chain that starts at a slot; a chain that does not end within the ring
    is one that [total_length()] never reaches the end of. *)
Fixpoint chain_from (fuel : nat) bufs (i : nat) : outcome (list (nat * MB)) :=
  match fuel with
  | O => Fuel
  | S fuel' =>
      '(b, c) ← slot_at bufs i;
      match c with
      | None => Ret [(i, b)]
      | Some j => rest ← chain_from fuel' bufs j; Ret ((i, b) :: rest)
      end
  end.
Definition put_chain (chain : list (nat * MB)) bufs : list (slot MB) := foldr (fun x => set_block x.1 x.2) bufs chain.

(** Running an operation on the chain that starts at [i]. *)
Definition on_chain {A} (bufs : list (slot MB)) (i : nat) (f : list MB -> outcome (list MB * A)) : outcome (list (slot MB) * A) :=
  chain ← chain_from RECEIVE_BUFFERS bufs i;
  '(blocks, x) ← f chain.*2;
  Ret (put_chain (zip chain.*1 blocks) bufs, x).
End buffers.

(** ** The strategy *)

Section strategy.
Context {MB TH DSH D : Type} {MB0 : MessageBlock MB} {SZ : ReceiveSizes}
  {HD : ReceiveHeaders MB TH DSH} {HK : ReceiveHooks MB TH DSH D}.

Record ReceiveStrategy := mkRS {
  gracefully_disconnected_ : bool;
  receive_sample_remaining_ : Z;
  receive_transport_header_ : TH;
  receive_buffers_ : list (slot MB);
  buffer_index_ : nat;
  data_sample_header_ : DSH;
  payload_ : list MB;                       (* a null pointer is the empty list *)
  good_pdu_ : bool;
  pdu_remaining_ : Z;
  derived_ : D }.
Implicit Types (s : ReceiveStrategy).

Definition set_graceful s x := let '(mkRS _ b c d e f g h i j) := s in mkRS x b c d e f g h i j.
Definition set_sample_remaining s x := let '(mkRS a _ c d e f g h i j) := s in mkRS a x c d e f g h i j.
Definition set_th s x := let '(mkRS a b _ d e f g h i j) := s in mkRS a b x d e f g h i j.
Definition set_receive_buffers s x := let '(mkRS a b c _ e f g h i j) := s in mkRS a b c x e f g h i j.
Definition set_index s x := let '(mkRS a b c d _ f g h i j) := s in mkRS a b c d x f g h i j.
Definition set_dsh s x := let '(mkRS a b c d e _ g h i j) := s in mkRS a b c d e x g h i j.
Definition set_payload s x := let '(mkRS a b c d e f _ h i j) := s in mkRS a b c d e f x h i j.
Definition set_good_pdu s x := let '(mkRS a b c d e f g _ i j) := s in mkRS a b c d e f g x i j.
Definition set_pdu s x := let '(mkRS a b c d e f g h _ j) := s in mkRS a b c d e f g h x j.
Definition set_derived s x := let '(mkRS a b c d e f g h i _) := s in mkRS a b c d e f g h i x.

(** The constructor. *)
Definition new_receive_strategy (th : TH) (dsh : DSH) (d : D) : ReceiveStrategy :=
  mkRS false 0 th (replicate RECEIVE_BUFFERS None) 0 dsh [] true 0 d.

(** [size_t] arithmetic. *)
Definition sub64 (x y : Z) : Z := uwrap 64 (x - y).

(** [update_buffer_index]: the state and [done]. *)
Fixpoint update_loop (fuel : nat) (initial : nat) s : outcome (ReceiveStrategy * bool) :=
  match fuel with
  | O => Fuel
  | S fuel' =>
      '(b, _) ← slot_at (receive_buffers_ s) (buffer_index_ s);
      if (mb_length b =? 0)%nat then
        let s := set_index s (successor_index (buffer_index_ s)) in
        if decide (initial = buffer_index_ s) then Ret (s, true) else update_loop fuel' initial s
      else Ret (s, false)
  end.
Definition update_buffer_index s (done : bool) : outcome (ReceiveStrategy * bool) :=
  '(s, d) ← update_loop (S RECEIVE_BUFFERS) (buffer_index_ s) s;
  Ret (s, done || d).

(** [skip_bad_pdus]: the loop over the buffers ([false]: it ran out of them),
    and the answer 1, 0 or -1. *)
Fixpoint skip_loop_pdus (fuel : nat) (index : nat) s : outcome (ReceiveStrategy * bool) :=
  match fuel with
  | O => Fuel
  | S fuel' =>
      if 0 <? pdu_remaining_ s then
        '(b, _) ← slot_at (receive_buffers_ s) index;
        let amount := Z.min (pdu_remaining_ s) (Z.of_nat (mb_length b)) in
        let s := set_receive_buffers s (set_block index (mb_advance_rd (Z.to_nat amount) b) (receive_buffers_ s)) in
        let s := set_pdu s (sub64 (pdu_remaining_ s) amount) in
        if (0 <? pdu_remaining_ s) && bool_decide (successor_index index = buffer_index_ s) then Ret (s, false)
        else skip_loop_pdus fuel' (successor_index index) s
      else Ret (s, true)
  end.
Definition skip_bad_pdus s : outcome (ReceiveStrategy * Z) :=
  if good_pdu_ s then Ret (s, 1)
  else
    '(s, ok) ← skip_loop_pdus (S RECEIVE_BUFFERS) (buffer_index_ s) s;
    if negb ok then Ret (s, -1)
    else
      let s := set_sample_remaining s 0 in
      '(s, done) ← update_buffer_index s false;
      Ret (s, if (done : bool) then 0 else 1).

(** Where a part of [handle_dds_input] leaves it: it goes on or it returns. *)
Inductive flow := Next (s : ReceiveStrategy) | Return (code : Z) (s : ReceiveStrategy).

Definition skip_step s : outcome flow :=
  '(s, rtn_code) ← skip_bad_pdus s;
  Ret (if rtn_code <=? 0 then Return rtn_code s else Next s).

(** The part of the outer loop before the samples: a packet header when one is
    expected, and the rest of a bad packet. *)
Definition packet_step s : outcome flow :=
  if pdu_remaining_ s =? 0 then
    chain ← chain_from RECEIVE_BUFFERS (receive_buffers_ s) (buffer_index_ s);
    if (length (chain_bytes chain.*2) <? th_max_marshaled_size)%nat then
      Ret (Return 0 (set_receive_buffers s (put_chain (zip chain.*1 (th_incomplete chain.*2)) (receive_buffers_ s))))
    else
      '(bufs, th) ← on_chain (receive_buffers_ s) (buffer_index_ s)
                      (fun c => th_assign c (receive_transport_header_ s));
      let s := set_th (set_receive_buffers s bufs) th in
      if negb (th_valid th) then Ret (Return (-1) s)
      else
        '(good, d) ← check_transport_header th (derived_ s);
        skip_step (set_pdu (set_good_pdu (set_derived s d) good) (th_length th))
  else skip_step s.

(** The header of the next sample, when one is expected. *)
Definition sample_header_step s : outcome flow :=
  if receive_sample_remaining_ s =? 0 then
    chain ← chain_from RECEIVE_BUFFERS (receive_buffers_ s) (buffer_index_ s);
    part ← dsh_partial chain.*2;
    if (part : bool) then Ret (Return 0 s)
    else
      '(bufs, dsh) ← on_chain (receive_buffers_ s) (buffer_index_ s)
                       (fun c => dsh_assign c (dsh_pdu_remaining (data_sample_header_ s) (pdu_remaining_ s)));
      let '(good, d) := check_sample_header dsh (derived_ s) in
      let s := set_good_pdu (set_derived (set_dsh (set_receive_buffers s bufs) dsh) d) good in
      let s := set_sample_remaining s (dsh_message_length dsh) in
      skip_step (set_pdu s (sub64 (pdu_remaining_ s) (dsh_marshaled_size dsh)))
  else Ret (Next s).

(** The data of the current sample that is in the current buffer: a block for
    it at the end of [payload_]. *)
Definition sample_data_step s : outcome ReceiveStrategy :=
  if 0 <? receive_sample_remaining_ s then
    '(b, _) ← slot_at (receive_buffers_ s) (buffer_index_ s);
    let amount := Z.min (receive_sample_remaining_ s) (Z.of_nat (mb_length b)) in
    let n := Z.to_nat amount in
    let s := set_payload s (payload_ s ++ [mb_truncate n b]) in
    let s := set_receive_buffers s (set_block (buffer_index_ s) (mb_advance_rd n b) (receive_buffers_ s)) in
    let s := set_sample_remaining s (sub64 (receive_sample_remaining_ s) amount) in
    Ret (set_pdu s (sub64 (pdu_remaining_ s) amount))
  else Ret s.

(** Handing over a complete sample. *)
Definition deliver s (rds : ReceivedDataSample MB) : ReceiveStrategy :=
  let '(g, d) := deliver_sample rds (gracefully_disconnected_ s) (derived_ s) in
  set_derived (set_graceful s g) d.
Definition dispatch_step s : outcome ReceiveStrategy :=
  if receive_sample_remaining_ s =? 0 then
    let rds := mkRDS default_header (match payload_ s with [] => None | p => Some p end) in
    let s := set_payload s [] in
    s ← match dsh_into_received_data_sample (data_sample_header_ s) rds with
        | None => Ret s
        | Some rds =>
            if dsh_more_fragments (data_sample_header_ s) || th_last_fragment (receive_transport_header_ s) then
              '(r, d) ← hook_reassemble (receive_transport_header_ s) rds (derived_ s);
              let s := set_derived s d in
              Ret (match r with Some rds => deliver s rds | None => s end)
            else Ret (deliver s rds)
        end;
    Ret (set_th s (th_set_last_fragment (receive_transport_header_ s) false))
  else Ret s.

(** One round of the inner loop: after the header, and the whole of it. *)
Definition sample_rest s : outcome flow :=
  '(s, last_buffer) ← update_buffer_index s false;
  s ← sample_data_step s;
  s ← dispatch_step s;
  '(s, last_buffer) ← update_buffer_index s last_buffer;
  Ret (if (last_buffer : bool) then Return 0 s else Next s).
Definition sample_step s : outcome flow :=
  r ← sample_header_step s;
  match r with
  | Return code s => Ret (Return code s)
  | Next s => sample_rest s
  end.

Fixpoint samples_loop (fuel : nat) s : outcome flow :=
  match fuel with
  | O => Fuel
  | S fuel' =>
      if 0 <? pdu_remaining_ s then
        r ← sample_step s;
        match r with
        | Return code s => Ret (Return code s)
        | Next s => samples_loop fuel' s
        end
      else Ret (Next s)
  end.

Fixpoint process_loop (fuel : nat) s : outcome (Z * ReceiveStrategy) :=
  match fuel with
  | O => Fuel
  | S fuel' =>
      r ← packet_step s;
      match r with
      | Return code s => Ret (code, s)
      | Next s =>
          r ← samples_loop fuel' s;
          match r with
          | Return code s => Ret (code, s)
          | Next s => process_loop fuel' s
          end
      end
  end.

(** The number of bytes in the buffers. *)
Definition buffered (bufs : list (slot MB)) : nat :=
  sum_list ((fun sl : slot MB => match sl with Some (b, _) => mb_length b | None => 0%nat end) <$> bufs).

(** Everything before the read. *)
Definition prepare s : outcome ReceiveStrategy :=
  bufs ← alloc_loop (S RECEIVE_BUFFERS) (buffer_index_ s) (buffer_index_ s) (buffer_index_ s)
           (remove_buffers (receive_buffers_ s));
  Ret (set_receive_buffers s bufs).

(** [handle_dds_input]; [input] is what [receive_bytes] does: [None] an error,
    else the bytes it puts into the buffers.  The loops go on for as long as
    there are buffered bytes. *)
Definition handle_dds_input (input : option (list Z)) s : outcome (Z * ReceiveStrategy) :=
  s ← prepare s;
  match form_iov RECEIVE_BUFFERS (buffer_index_ s) (receive_buffers_ s) with
  | None => Ret (-1, s)
  | Some _ =>
      match input with
      | None => Ret (-1, set_derived s (relink (derived_ s)))
      | Some [] =>
          if gracefully_disconnected_ s then Ret (-1, s)
          else Ret (-1, set_derived s (relink (derived_ s)))
      | Some bytes =>
          let s := if pdu_remaining_ s =? 0
                   then set_th s (th_set_length (receive_transport_header_ s) (uwrap 32 (Z.of_nat (length bytes))))
                   else s in
          '(ok, bufs) ← fill_loop (S RECEIVE_BUFFERS) (buffer_index_ s) (buffer_index_ s) bytes (receive_buffers_ s);
          let s := set_receive_buffers s bufs in
          if negb ok then Ret (-1, s) else process_loop (2 + buffered bufs) s
      end
  end.

(** [reset]: a null slot is dereferenced. *)
Fixpoint drain_all (bufs : list (slot MB)) : outcome (list (slot MB)) :=
  match bufs with
  | [] => Ret []
  | sl :: bufs =>
      '(b, c) ← deref sl;
      bufs ← drain_all bufs;
      Ret (Some (mb_advance_rd (mb_length b) b, c) :: bufs)
  end.
Definition reset s : outcome ReceiveStrategy :=
  bufs ← drain_all (receive_buffers_ s);
  Ret (set_receive_buffers (set_pdu (set_good_pdu (set_payload (set_sample_remaining s 0) []) true) 0) bufs).
End strategy.
Arguments ReceiveStrategy MB TH DSH D : clear implicits.

(** ** The default template arguments *)

#[export] Instance dcps_headers {MB} `{GuidMarshal MB} : ReceiveHeaders MB TransportHeader DataSampleHeader := {
  th_max_marshaled_size := transport_max_marshaled_size;
  th_assign c old := '(ser, h) ← transport_init c old; Ret (ser_done ser ++ ser_cur ser, h);
  th_incomplete c := c;
  th_valid := valid;
  th_length := length_;
  th_set_length := set_packet_length;
  th_last_fragment := last_fragment_;
  th_set_last_fragment := last_fragment;
  dsh_partial := partial;
  dsh_assign c old := '(ser, h) ← init c old; Ret (ser_done ser ++ ser_cur ser, h);
  dsh_pdu_remaining h _ := h;
  dsh_message_length := message_length_;
  dsh_marshaled_size := marshaled_size_;
  dsh_more_fragments := more_fragments_;
  dsh_into_received_data_sample h rds := Some (mkRDS h (sample_ rds)) }.
End TransportReceiveStrategy.
Export TransportReceiveStrategy.
