(* ===== verification/ReceiveStrategies.v ===== *)
(** * The receive strategies of tcp and udp
      (dds/DCPS/transport/tcp/TcpReceiveStrategy, udp/UdpReceiveStrategy)

    The virtual functions the two transports override.  What they call on their
    data link is recorded in order. *)

From S2P Require Import Prelude MessageBlock SequenceNumber Serializer DataSampleHeader TransportReassembly TransportHeader TransportReceiveStrategy.

Module ReceiveStrategies.

(** The message ids the strategies distinguish. *)
Definition id_GRACEFUL_DISCONNECT : Z := 5.
Definition id_SAMPLE_ACK : Z := 7.
Definition id_TRANSPORT_CONTROL : Z := 9.

(** A call on the data link. *)
Inductive LinkCall (MB : Type) :=
| DataReceived (rds : ReceivedDataSample MB)
| AckReceived (rds : ReceivedDataSample MB)
| ControlReceived (rds : ReceivedDataSample MB)
| Relink.
Arguments DataReceived {MB} rds.
Arguments AckReceived {MB} rds.
Arguments ControlReceived {MB} rds.
Arguments Relink {MB}.

(** ** Tcp *)

Definition tcp_deliver_sample {MB} (sample : ReceivedDataSample MB) (graceful : bool) (log : list (LinkCall MB))
    : bool * list (LinkCall MB) :=
  if message_id_ (header_ sample) =? id_GRACEFUL_DISCONNECT then (true, log)
  else if message_id_ (header_ sample) =? id_SAMPLE_ACK then (graceful, log ++ [AckReceived sample])
  else (graceful, log ++ [DataReceived sample]).

(** [check_header] and [reassemble] are those of the base class, which does not
    reassemble. *)
#[export] Instance tcp_hooks {MB} : ReceiveHooks MB TransportHeader DataSampleHeader (list (LinkCall MB)) := {
  check_transport_header _ log := Ret (true, log);
  check_sample_header _ log := (true, log);
  hook_reassemble _ _ log := Ret (None, log);
  deliver_sample := tcp_deliver_sample;
  relink log := log ++ [Relink] }.

(** ** Udp *)

Section udp.
Context {MB Addr : Type} `{Countable Addr}.

Record UdpState := mkUdp {
  expected_ : SequenceNumber;
  remote_address_ : option Addr;              (* of the current datagram *)
  reassembly_ : gmap Addr (TransportReassembly MB * SequenceNumber);
  udp_log : list (LinkCall MB) }.

(** The constructor. *)
Definition new_udp : UdpState := mkUdp SEQUENCENUMBER_UNKNOWN None ∅ [].

(** [reassembly_[remote_address_]] makes an entry when there is none. *)
Definition reassembly_info (u : UdpState) (a : Addr) : TransportReassembly MB * SequenceNumber :=
  default (mkTR ∅ ∅, of_value 1) (reassembly_ u !! a).

Definition udp_check_header (header : TransportHeader) (u : UdpState) : outcome (bool * UdpState) :=
  a ← deref (remote_address_ u);
  let '(tr, second) := reassembly_info u a in
  tr ← (if negb (sn_eq (th_sequence_ header) second) && negb (sn_eq (expected_ u) SEQUENCENUMBER_UNKNOWN)
        then data_unavailable tr (second, previous (th_sequence_ header))
        else Ret tr);
  Ret (true, mkUdp (expected_ u) (remote_address_ u)
               (<[a := (tr, next (th_sequence_ header))]> (reassembly_ u)) (udp_log u)).

Definition udp_reassemble (header : TransportHeader) (data : ReceivedDataSample MB) (u : UdpState)
    : outcome (option (ReceivedDataSample MB) * UdpState) :=
  a ← deref (remote_address_ u);
  let '(tr, second) := reassembly_info u a in
  let '(tr, r) := reassemble tr (th_sequence_ header) (first_fragment_ header) data in
  Ret (r, mkUdp (expected_ u) (remote_address_ u) (<[a := (tr, second)]> (reassembly_ u)) (udp_log u)).

Definition udp_deliver_sample (sample : ReceivedDataSample MB) (graceful : bool) (u : UdpState) : bool * UdpState :=
  let call :=
    if message_id_ (header_ sample) =? id_SAMPLE_ACK then AckReceived sample
    else if message_id_ (header_ sample) =? id_TRANSPORT_CONTROL then ControlReceived sample
    else DataReceived sample in
  (graceful, mkUdp (expected_ u) (remote_address_ u) (reassembly_ u) (udp_log u ++ [call])).

#[export] Instance udp_hooks : ReceiveHooks MB TransportHeader DataSampleHeader UdpState := {
  check_transport_header := udp_check_header;
  check_sample_header _ u := (true, u);
  hook_reassemble := udp_reassemble;
  deliver_sample := udp_deliver_sample;
  relink u := u }.

(** [handle_input] on a datagram from [a]: [receive_bytes] notes the address. *)
Definition udp_handle_input `{MessageBlock MB, ReceiveSizes, ReceiveHeaders MB TransportHeader DataSampleHeader}
    (a : Addr) (input : option (list Z)) (s : ReceiveStrategy MB TransportHeader DataSampleHeader UdpState) :=
  let u := derived_ s in
  handle_dds_input input (set_derived s (mkUdp (expected_ u) (Some a) (reassembly_ u) (udp_log u))).
End udp.
Arguments UdpState MB Addr {_ _}.
End ReceiveStrategies.
Export ReceiveStrategies.
