(* ===== verification/ReceiveBuffers.v ===== *)
(** * The ring of receive buffers

    What the operations of TransportReceiveStrategy do to the ring of receive
    buffers, in terms of the bytes it holds ([holds]): buffers are read from the
    front of the chain that starts at [buffer_index_] and written behind the
    data; a buffer that [buffer_index_] has left is drained and full. *)

From S2P Require Import Prelude MessageBlock SequenceNumber Serializer DataSampleHeader TransportReassembly TransportHeader TransportReceiveStrategy.

Module ReceiveBuffers.
Section ring.
Context {MB : Type} {MB0 : MessageBlock MB} {MB1 : MessageBlockLaws MB} {SZ : ReceiveSizes}.
Hypothesis Hbuffers : (2 <= RECEIVE_BUFFERS)%nat.
Hypothesis Hlow : (1 <= BUFFER_LOW_WATER)%nat.
Hypothesis Hsize : (1 <= RECEIVE_DATA_BUFFER_SIZE)%nat.
Implicit Types (bufs : list (slot MB)) (W D E F G : list MB) (w e : MB) (i j b : nat).

(** ** Indices *)

Fixpoint ixs (i n : nat) : list nat :=
  match n with O => [] | S n => i :: ixs (successor_index i) n end.
Definition adv (n i : nat) : nat := Nat.iter n successor_index i.

Lemma successor_lt i : (successor_index i < RECEIVE_BUFFERS)%nat.
Proof. apply Nat.mod_upper_bound. lia. Qed.

Lemma adv_S n i : adv (S n) i = adv n (successor_index i).
Proof. unfold adv. by rewrite Nat.iter_succ_r. Qed.

Lemma adv_mod n i : (i < RECEIVE_BUFFERS)%nat -> adv n i = ((i + n) mod RECEIVE_BUFFERS)%nat.
Proof.
  revert i. induction n as [|n IH]; intros i Hi.
  - rewrite Nat.add_0_r, Nat.mod_small by done. done.
  - rewrite adv_S, IH by apply successor_lt. unfold successor_index.
    rewrite Nat.Div0.add_mod_idemp_l. f_equal. lia.
Qed.

Lemma adv_lt n i : (i < RECEIVE_BUFFERS)%nat -> (adv n i < RECEIVE_BUFFERS)%nat.
Proof. intros. rewrite adv_mod by done. apply Nat.mod_upper_bound. lia. Qed.

Lemma adv_add n m i : adv (n + m) i = adv m (adv n i).
Proof. unfold adv. by rewrite Nat.add_comm, Nat.iter_add. Qed.

Lemma adv_ring i : (i < RECEIVE_BUFFERS)%nat -> adv RECEIVE_BUFFERS i = i.
Proof. intros. rewrite adv_mod by done. rewrite <- Nat.Div0.add_mod_idemp_r, Nat.Div0.mod_same, Nat.add_0_r, Nat.mod_small; done. Qed.

Lemma adv_inj n m i : (i < RECEIVE_BUFFERS)%nat -> (n < RECEIVE_BUFFERS)%nat -> (m < RECEIVE_BUFFERS)%nat ->
  adv n i = adv m i -> n = m.
Proof.
  intros Hi Hn Hm. rewrite !adv_mod by done. intros E.
  pose proof (Nat.div_mod_eq (i + n) RECEIVE_BUFFERS). pose proof (Nat.div_mod_eq (i + m) RECEIVE_BUFFERS).
  assert ((i + n) / RECEIVE_BUFFERS <= 1)%nat by (apply Nat.lt_succ_r, Nat.Div0.div_lt_upper_bound; lia).
  assert ((i + m) / RECEIVE_BUFFERS <= 1)%nat by (apply Nat.lt_succ_r, Nat.Div0.div_lt_upper_bound; lia).
  rewrite E in *. revert H H0 H1 H2. generalize ((i + n) / RECEIVE_BUFFERS)%nat, ((i + m) / RECEIVE_BUFFERS)%nat.
  intros p q ? ? ? ?. destruct p as [|[|]], q as [|[|]]; lia.
Qed.

Lemma ixs_elem i n j : j ∈ ixs i n <-> exists k, (k < n)%nat /\ j = adv k i.
Proof.
  revert i. induction n as [|n IH]; intros i; cbn [ixs].
  - split; [intros H; by apply elem_of_nil in H|intros (k & ? & _); lia].
  - rewrite elem_of_cons, IH. split.
    + intros [->|(k & ? & ->)]; [exists 0%nat; split; [lia|done]|exists (S k); rewrite adv_S; split; [lia|done]].
    + intros (k & ? & ->). destruct k as [|k]; [by left|right; exists k; rewrite adv_S; split; [lia|done]].
Qed.

Lemma ixs_app i n m : ixs i (n + m) = ixs i n ++ ixs (adv n i) m.
Proof. revert i. induction n as [|n IH]; intros i; [done|]. cbn [ixs Nat.add app]. by rewrite IH, adv_S. Qed.

Lemma ixs_length i n : length (ixs i n) = n.
Proof. revert i. induction n as [|n IH]; intros i; [done|]. cbn. by rewrite IH. Qed.

(** Two places of the ring are different. *)
Lemma ixs_fresh i n : (i < RECEIVE_BUFFERS)%nat -> (n < RECEIVE_BUFFERS)%nat -> i ∉ ixs (successor_index i) n.
Proof.
  intros Hi Hn (k & Hk & E)%ixs_elem. rewrite <- adv_S in E.
  assert (0 = S k)%nat; [|lia]. apply (adv_inj _ _ i); [done|lia|lia|done].
Qed.

Lemma ixs_full i j : (i < RECEIVE_BUFFERS)%nat -> (j < RECEIVE_BUFFERS)%nat -> j ∈ ixs i RECEIVE_BUFFERS.
Proof.
  intros Hi Hj. apply ixs_elem. destruct (Nat.le_gt_cases i j).
  - exists (j - i)%nat. split; [lia|]. rewrite adv_mod by done.
    replace (i + (j - i))%nat with j by lia. by rewrite Nat.mod_small.
  - exists (RECEIVE_BUFFERS + j - i)%nat. split; [lia|]. rewrite adv_mod by done.
    replace (i + (RECEIVE_BUFFERS + j - i))%nat with (j + 1 * RECEIVE_BUFFERS)%nat by lia.
    rewrite Nat.Div0.mod_add, Nat.mod_small; done.
Qed.

(** ** The chain from a slot on, and the slots behind it *)

Fixpoint linked (i : nat) bufs W : Prop :=
  match W with
  | [] => True
  | w :: W' =>
      bufs !! i = Some (Some (w, match W' with [] => None | _ => Some (successor_index i) end)) /\
      linked (successor_index i) bufs W'
  end.
Fixpoint held (i : nat) bufs D : Prop :=
  match D with
  | [] => True
  | d :: D' => (exists c, bufs !! i = Some (Some (d, c))) /\ held (successor_index i) bufs D'
  end.
Definition spent (b : MB) : Prop := mb_length b = 0%nat /\ mb_space b = 0%nat.

Lemma linked_frame i bufs bufs' W : (forall j, j ∈ ixs i (length W) -> bufs' !! j = bufs !! j) ->
  linked i bufs W -> linked i bufs' W.
Proof.
  revert i. induction W as [|w W IH]; intros i Hf; [done|]. cbn [linked length ixs] in *. intros [H1 H2].
  split; [by rewrite Hf by left|]. apply IH; [|done]. intros j Hj. apply Hf. by right.
Qed.

Lemma held_frame i bufs bufs' D : (forall j, j ∈ ixs i (length D) -> bufs' !! j = bufs !! j) ->
  held i bufs D -> held i bufs' D.
Proof.
  revert i. induction D as [|d D IH]; intros i Hf; [done|]. cbn [held length ixs] in *. intros [H1 H2].
  split; [by rewrite Hf by left|]. apply IH; [|done]. intros j Hj. apply Hf. by right.
Qed.

Lemma held_app i bufs D1 D2 : held i bufs (D1 ++ D2) <-> held i bufs D1 /\ held (adv (length D1) i) bufs D2.
Proof.
  revert i. induction D1 as [|d D1 IH]; intros i; cbn [held app length]; [unfold adv; cbn; tauto|].
  rewrite IH, adv_S. tauto.
Qed.

Lemma linked_held i bufs W : linked i bufs W -> held i bufs W.
Proof. revert i. induction W as [|w W IH]; intros i; [done|]. intros [H1 H2]. split; [eauto|by apply IH]. Qed.

Record ring (b : nat) bufs W D : Prop := {
  ring_length : length bufs = RECEIVE_BUFFERS;
  ring_index : (b < RECEIVE_BUFFERS)%nat;
  ring_count : (length W + length D = RECEIVE_BUFFERS)%nat;
  ring_chain : W <> [];
  ring_linked : linked b bufs W;
  ring_rest : held (adv (length W) b) bufs D;
  ring_spent : Forall spent D }.

Lemma set_block_other i j w bufs : i <> j -> set_block i w bufs !! j = bufs !! j.
Proof. intros. unfold set_block. by apply list_lookup_alter_ne. Qed.

Lemma set_block_same i w bufs w0 c : bufs !! i = Some (Some (w0, c)) -> set_block i w bufs !! i = Some (Some (w, c)).
Proof. intros E. etrans; [apply list_lookup_alter_eq|]. exact (f_equal (fmap _) E). Qed.

Lemma set_block_length i w bufs : length (set_block i w bufs) = length bufs.
Proof. apply length_alter. Qed.

Lemma chain_from_linked fuel i bufs W : W <> [] -> (length W <= fuel)%nat -> linked i bufs W ->
  chain_from fuel bufs i = Ret (zip (ixs i (length W)) W).
Proof.
  revert i fuel. induction W as [|w W IH]; intros i fuel Hne Hf Hl; [done|]. destruct fuel as [|fuel]; cbn [length] in Hf; [lia|].
  destruct Hl as [H1 H2]. cbn [chain_from]. unfold slot_at. rewrite H1. cbn [mbind outcome_bind deref].
  destruct W as [|w' W']; [done|]. rewrite IH; [done|done|lia|done].
Qed.

Lemma put_chain_cons i w c bufs : put_chain ((i, w) :: c) bufs = set_block i w (put_chain c bufs).
Proof. done. Qed.

Lemma put_chain_lookup i n W bufs j : j ∉ ixs i n -> put_chain (zip (ixs i n) W) bufs !! j = bufs !! j.
Proof.
  revert i W. induction n as [|n IH]; intros i W Hj; [done|]. destruct W as [|w W]; [done|].
  cbn [ixs] in Hj. apply not_elem_of_cons in Hj as [Hj1 Hj2].
  cbn [ixs zip zip_with]. rewrite put_chain_cons, set_block_other by done. by apply IH.
Qed.

Lemma put_chain_length c bufs : length (put_chain c bufs) = length bufs.
Proof. induction c as [|x c IH]; [done|]. cbn [put_chain foldr]. by rewrite set_block_length. Qed.

Lemma put_chain_linked i W W' bufs : (i < RECEIVE_BUFFERS)%nat -> (length W <= RECEIVE_BUFFERS)%nat ->
  length W' = length W -> linked i bufs W -> linked i (put_chain (zip (ixs i (length W)) W') bufs) W'.
Proof.
  revert i W'. induction W as [|w W IH]; intros i W' Hi HN Hl Hw; destruct W' as [|w' W']; try done.
  cbn [length] in *. destruct Hw as [H1 H2]. cbn [ixs zip zip_with linked]. rewrite put_chain_cons.
  assert (i ∉ ixs (successor_index i) (length W)) as Hfr by (apply ixs_fresh; [done|lia]).
  split.
  - erewrite set_block_same by (rewrite put_chain_lookup by done; exact H1).
    destruct W, W'; done.
  - eapply linked_frame; [|apply (IH (successor_index i) W'); [apply successor_lt|lia|lia|done]].
    intros j Hj. apply set_block_other. intros ->. replace (length W') with (length W) in Hj by lia. done.
Qed.

(** An operation on the chain changes its blocks only. *)
Lemma on_chain_ring {A} b bufs W D (f : list MB -> outcome (list MB * A)) W' x :
  ring b bufs W D -> f W = Ret (W', x) -> length W' = length W ->
  exists bufs', on_chain bufs b f = Ret (bufs', x) /\ ring b bufs' W' D.
Proof.
  intros [Hl Hb Hc Hne Hk Hh Hs] Hf Hlen. unfold on_chain.
  rewrite (chain_from_linked _ _ _ W) by (done || lia). cbn [mbind outcome_bind].
  rewrite snd_zip, fst_zip, Hf by (rewrite ixs_length; lia). cbn [mbind outcome_bind].
  eexists. split; [done|]. split; auto.
  - by rewrite put_chain_length.
  - lia.
  - by destruct W, W'.
  - apply put_chain_linked; auto; lia.
  - rewrite Hlen. eapply held_frame; [|done]. intros j Hj. apply put_chain_lookup. intros Hj'.
    apply ixs_elem in Hj as (k & Hk1 & ->), Hj' as (k' & Hk2 & E). rewrite <- adv_add in E.
    apply adv_inj in E; [lia|done|lia|lia].
Qed.

Lemma ring_front b bufs w W D : ring b bufs (w :: W) D -> exists c, slot_at bufs b = Ret (w, c).
Proof. intros [_ _ _ _ [H1 _] _ _]. unfold slot_at. rewrite H1. by eexists. Qed.

Lemma ring_set_front b bufs w w' W D : ring b bufs (w :: W) D -> ring b (set_block b w' bufs) (w' :: W) D.
Proof.
  intros [Hl Hb Hc Hne [H1 H2] Hh Hs]. cbn [length] in *.
  assert (forall j, j ∈ ixs (successor_index b) (length W) \/ j ∈ ixs (adv (length (w' :: W)) b) (length D) -> b <> j) as Hfr.
  { intros j [Hj|Hj] ->; [by apply ixs_fresh in Hj; [|done|lia]|]. cbn [length] in Hj.
    apply ixs_elem in Hj as (k & Hk & E). rewrite <- adv_add in E.
    assert (0 = S (length W) + k)%nat; [|lia]. apply (adv_inj _ _ j); [done|lia|lia|done]. }
  split; auto.
  - by rewrite set_block_length.
  - split; [by eapply set_block_same|]. eapply linked_frame; [|done]. intros j Hj. apply set_block_other. auto.
  - eapply held_frame; [|done]. intros j Hj. apply set_block_other. auto.
Qed.

(** The index leaves a spent buffer. *)
Lemma ring_leave b bufs e W D : ring b bufs (e :: W) D -> W <> [] -> spent e ->
  ring (successor_index b) bufs W (D ++ [e]).
Proof.
  intros [Hl Hb Hc Hne [H1 H2] Hh Hs] HW He. cbn [length] in *. split; auto.
  - apply successor_lt.
  - rewrite length_app. cbn. lia.
  - rewrite <- adv_S. apply held_app. split; [done|]. rewrite <- adv_add.
    cbn [length]. rewrite Hc. rewrite adv_ring by done. split; [eauto|done].
  - apply Forall_app. split; [done|]. by constructor.
Qed.

(** ** Where the data is

    Spent buffers first, then full ones with data, then the one that is being
    written, then empty ones. *)

Definition empty_block (b : MB) : Prop := mb_length b = 0%nat.
Definition full (b : MB) : Prop := mb_length b <> 0%nat /\ mb_space b = 0%nat.
Fixpoint tailed W : Prop :=
  match W with [] => True | w :: W' => full w /\ tailed W' \/ Forall empty_block W' end.
Definition shape W : Prop := exists E T, W = E ++ T /\ Forall spent E /\ tailed T /\ T <> [].

Lemma empty_chain W : Forall empty_block W <-> chain_bytes W = [].
Proof.
  induction W as [|w W IH]; [split; [done|constructor]|]. rewrite chain_bytes_cons, Forall_cons, IH.
  unfold empty_block, mb_length. split.
  - intros [->%nil_length_inv ->]. done.
  - intros [-> ->]%app_eq_nil. done.
Qed.

Lemma spent_chain E : Forall spent E -> chain_bytes E = [].
Proof. intros HE. apply empty_chain. eapply Forall_impl; [done|]. by intros ? []. Qed.

Lemma consume_empty k W : Forall empty_block W -> consume k W = W.
Proof.
  intros HW. revert k. induction HW as [|w W Hw _ IH]; intros k; [done|]. cbn [consume].
  by rewrite Hw, Nat.min_0_r, mb_advance_rd_0, IH.
Qed.

Lemma shape_spent e W : spent e -> shape W -> shape (e :: W).
Proof. intros He (E & T & -> & HE & HT & HN). exists (e :: E), T. split_and!; auto. Qed.

Lemma shape_tailed W : tailed W -> W <> [] -> shape W.
Proof. intros. by exists [], W. Qed.

Lemma tailed_consume k T : tailed T -> T <> [] -> shape (consume k T).
Proof.
  revert k. induction T as [|w T IH]; intros k HT HN; [done|]. cbn [consume]. destruct HT as [[[Hl Hs] HT]|HT].
  - destruct (Nat.le_gt_cases (mb_length w) k) as [Hk|Hk].
    + rewrite Nat.min_r by done. destruct T as [|w' T'].
      { apply shape_tailed; [by right|done]. }
      apply shape_spent; [|by apply IH]. split; [rewrite mb_advance_rd_length; lia|by rewrite mb_advance_rd_space].
    + rewrite Nat.min_l by lia. replace (k - mb_length w)%nat with 0%nat by lia. rewrite consume_0.
      apply shape_tailed; [left; split; [split|done]|done]; [rewrite mb_advance_rd_length; lia|by rewrite mb_advance_rd_space].
  - rewrite consume_empty by done. apply shape_tailed; [by right|done].
Qed.

Lemma shape_consume k W : shape W -> shape (consume k W).
Proof.
  intros (E & T & -> & HE & HT & HN). rewrite consume_app, consume_empty.
  - rewrite spent_chain, Nat.sub_0_r by done. induction HE; [by apply tailed_consume|by apply shape_spent].
  - eapply Forall_impl; [done|]. by intros ? [].
Qed.

(** The first buffer with data. *)
Lemma shape_front W : shape W -> chain_bytes W <> [] ->
  exists E w W', W = E ++ w :: W' /\ Forall spent E /\ mb_length w <> 0%nat /\ tailed (w :: W').
Proof.
  intros (E & T & -> & HE & HT & HN) Hb. rewrite chain_bytes_app, spent_chain in Hb by done.
  destruct T as [|w T]; [done|]. exists E, w, T. split_and!; auto.
  destruct HT as [[[? _] _]|HT]; [done|]. intros Hw. apply Hb.
  assert (Forall empty_block (w :: T)) as Hall by (by constructor). by apply empty_chain in Hall.
Qed.

(** ** Writing *)

Definition usable (b : MB) : Prop := empty_block b /\ mb_space b <> 0%nat.
Fixpoint fillable W : Prop :=
  match W with
  | [] => True
  | w :: W' => full w /\ fillable W' \/ (mb_length w <> 0%nat \/ mb_space w <> 0%nat) /\ Forall usable W'
  end.

Lemma usable_fillable W : Forall usable W -> fillable W.
Proof. induction 1 as [|w W [? ?] HW IH]; [done|]. right. split; [by right|done]. Qed.

Lemma usable_empty W : Forall usable W -> Forall empty_block W.
Proof. intros. eapply Forall_impl; [done|]. by intros ? []. Qed.

Lemma fillable_tailed W : fillable W -> tailed W.
Proof. induction W as [|w W IH]; [done|]. intros [[? ?]|[_ ?%usable_empty]]; [left; auto|by right]. Qed.

(** Writing [bytes] to the first buffer that has room. *)
Lemma fill_front w W bytes (n := Nat.min (length bytes) (mb_space w)) (w1 := mb_copy (take n bytes) w) :
  fillable (w :: W) -> bytes <> [] ->
  chain_bytes [w1] ++ chain_bytes W ++ drop n bytes = chain_bytes (w :: W) ++ bytes /\ fillable W /\
  (full w1 \/ drop n bytes = [] /\ Forall usable W).
Proof.
  intros Hf Hne. assert (length (take n bytes) <= mb_space w)%nat as Hle by (rewrite length_take; subst n; lia).
  assert (full w1 \/ drop n bytes = [] \/ ~ (mb_length w <> 0%nat \/ mb_space w <> 0%nat)) as Hfull.
  { destruct (Nat.le_gt_cases (length bytes) (mb_space w)); [right; left; apply drop_ge; subst n; lia|].
    destruct (Nat.eq_dec (mb_length w) 0), (Nat.eq_dec (mb_space w) 0); [right; right; lia|left..];
    (split; [unfold w1; rewrite mb_copy_length by done|unfold w1; rewrite mb_copy_space by done]); rewrite length_take; subst n; lia. }
  rewrite !chain_bytes_cons. change (chain_bytes []) with (@nil Z). rewrite app_nil_r. subst w1. rewrite mb_copy_bytes by done.
  destruct Hf as [[[Hl Hs] Hf]|[Hw Hf]].
  - assert (n = 0)%nat as -> by (subst n; lia). rewrite take_0, drop_0, app_nil_r, <- (assoc_L (++)). split_and!; [done..|].
    left. split; [rewrite mb_copy_length by (cbn; lia); cbn; lia|rewrite mb_copy_space by (cbn; lia); lia].
  - assert (chain_bytes W = []) as -> by (by apply empty_chain, usable_empty).
    rewrite app_nil_r, app_nil_l, <- (assoc_L (++)), take_drop. split_and!; [done|by apply usable_fillable|].
    destruct Hfull as [?|[?|?]]; [by left|by right|done].
Qed.

Lemma fill_ok W : forall fuel first i bytes bufs,
  (i < RECEIVE_BUFFERS)%nat -> (length W <= RECEIVE_BUFFERS)%nat -> linked i bufs W -> fillable W ->
  (length bytes <= chain_space W)%nat -> adv (length W) i = first ->
  (forall k, (1 <= k < length W)%nat -> adv k i <> first) -> (length W < fuel)%nat ->
  exists bufs' W', fill_loop fuel first i bytes bufs = Ret (true, bufs') /\ length bufs' = length bufs /\
    length W' = length W /\ linked i bufs' W' /\ tailed W' /\ chain_bytes W' = chain_bytes W ++ bytes /\
    forall j, j ∉ ixs i (length W) -> bufs' !! j = bufs !! j.
Proof.
  induction W as [|w W IH]; intros fuel first i bytes bufs Hi HN Hl Hf Hsp Hfirst Hk Hfu; (destruct fuel as [|fuel]; [cbn in *; lia|]).
  { destruct bytes; [|cbn in Hsp; lia]. exists bufs, []. by split_and!. }
  destruct (decide (bytes = [])) as [->|Hne].
  { exists bufs, (w :: W). rewrite app_nil_r. split_and!; try done. by apply fillable_tailed. }
  cbn [fill_loop]. destruct bytes as [|x bytes0]; [done|]. set (bytes := x :: bytes0) in *.
  destruct Hl as [Hc Hl]. unfold slot_at. rewrite Hc. cbn [mbind outcome_bind deref].
  set (n := Nat.min (length bytes) (mb_space w)). set (w1 := mb_copy (take n bytes) w).
  destruct (fill_front w W bytes Hf Hne) as (Hb & HfW & Hfull). fold n in Hb, Hfull. fold w1 in Hb, Hfull.
  rewrite chain_space_cons in Hsp. cbn [length] in *.
  assert (length (drop n bytes) <= chain_space W)%nat as HspW by (rewrite length_drop; subst n; lia).
  assert (negb (bool_decide (drop n bytes = [])) && bool_decide (successor_index i = first) = false) as ->.
  { case_bool_decide as Hd; [done|]. cbn. apply bool_decide_eq_false. intros E. apply (Hk 1%nat); [|exact E].
    destruct W; [|cbn; lia]. destruct (drop n bytes); [done|cbn in HspW; lia]. }
  assert (i ∉ ixs (successor_index i) (length W)) as Hfr by (apply ixs_fresh; [done|lia]).
  destruct (IH fuel first (successor_index i) (drop n bytes) (set_block i w1 bufs)) as (bufs' & W' & -> & E1 & E2 & E3 & E4 & E5 & E6);
    auto.
  - apply successor_lt.
  - lia.
  - eapply linked_frame; [|done]. intros j Hj. apply set_block_other. by intros ->.
  - by rewrite <- adv_S.
  - intros k Hk'. rewrite <- adv_S. apply Hk. lia.
  - lia.
  - exists bufs', (w1 :: W'). split_and!; auto.
    + by rewrite E1, set_block_length.
    + cbn. lia.
    + split; [|done]. rewrite E6 by done. erewrite set_block_same by exact Hc. by destruct W, W'.
    + destruct Hfull as [?|[Hd Hu]]; [by left|]. right. rewrite Hd, app_nil_r in E5. apply empty_chain. rewrite E5.
      by apply empty_chain, usable_empty.
    + rewrite <- Hb, chain_bytes_cons, E5. change (chain_bytes [w1]) with (mb_bytes w1 ++ []). by rewrite app_nil_r.
    + intros j Hj. cbn [ixs] in Hj. apply not_elem_of_cons in Hj as [? ?]. rewrite E6 by done. by apply set_block_other.
Qed.

(** ** Removing and allocating *)

Definition exhausted (b : MB) : bool := (mb_length b =? 0)%nat && (mb_space b <? BUFFER_LOW_WATER)%nat.
(** What removal leaves of a slot: nothing of an exhausted buffer when its turn
    has come ([ex]), and no link that was not there. *)
Definition pruned (ex : bool) (sl sl' : slot MB) : Prop :=
  match sl with
  | None => sl' = None
  | Some (w, c) =>
      if ex && exhausted w then sl' = None else exists c', sl' = Some (w, c') /\ (c = None -> c' = None)
  end.

Lemma remove_exhausted_length bufs i : length (remove_exhausted bufs i) = length bufs.
Proof.
  unfold remove_exhausted. destruct (bufs !! i) as [[[w c]|]|]; [|done..]. destruct (_ && _); [|done].
  by rewrite length_insert, length_fmap.
Qed.

Lemma pruned_unlink ex i sl sl' : pruned ex sl sl' -> pruned ex sl (unlink i sl').
Proof.
  destruct sl as [[w c]|]; cbn; [|by intros ->]. destruct (ex && exhausted w); [by intros ->|].
  intros (c' & -> & Hc). destruct c' as [j|]; cbn; [case_decide|]; naive_solver.
Qed.

Lemma remove_one bufs n j sl sl' : (j < length bufs)%nat ->
  bufs !! j = Some sl' -> pruned (j <? n)%nat sl sl' ->
  exists sl'', remove_exhausted bufs n !! j = Some sl'' /\ pruned (j <? S n)%nat sl sl''.
Proof.
  intros Hj Hb Hp. unfold remove_exhausted.
  destruct (decide (j = n)) as [->|Hjn].
  - rewrite Nat.ltb_irrefl in Hp. rewrite (proj2 (Nat.ltb_lt n (S n))) by lia. rewrite Hb. destruct sl as [[w c]|].
    + destruct Hp as (c' & -> & Hc). fold (exhausted w). destruct (exhausted w) eqn:Ew; cbn [andb pruned].
      * exists None. rewrite list_lookup_insert_eq by (by rewrite length_fmap). cbn. by rewrite Ew.
      * exists (Some (w, c')). cbn. rewrite Ew. eauto.
    + cbn in Hp. subst. by exists None.
  - replace (j <? S n)%nat with (j <? n)%nat by (destruct (Nat.ltb_spec j n), (Nat.ltb_spec j (S n)); auto; lia).
    destruct (bufs !! n) as [[[w c]|]|]; [|eauto..]. destruct (_ && _); [|eauto].
    rewrite list_lookup_insert_ne by done. rewrite list_lookup_fmap, Hb. cbn. eexists. split; [done|]. by apply pruned_unlink.
Qed.

Lemma remove_buffers_spec bufs : length bufs = RECEIVE_BUFFERS ->
  length (remove_buffers bufs) = RECEIVE_BUFFERS /\
  forall j sl, bufs !! j = Some sl -> exists sl', remove_buffers bufs !! j = Some sl' /\ pruned true sl sl'.
Proof.
  intros Hl. unfold remove_buffers.
  assert (forall n, (n <= RECEIVE_BUFFERS)%nat ->
    length (foldl remove_exhausted bufs (seq 0 n)) = RECEIVE_BUFFERS /\
    forall j sl, bufs !! j = Some sl -> exists sl', foldl remove_exhausted bufs (seq 0 n) !! j = Some sl' /\ pruned (j <? n)%nat sl sl') as Hn.
  { induction n as [|n IH]; intros Hn.
    - cbn. split; [done|]. intros j sl Hj. exists sl. split; [done|]. destruct sl as [[w c]|]; cbn; eauto.
    - rewrite seq_S, foldl_app. cbn [foldl Nat.add]. destruct IH as [IH1 IH2]; [lia|]. split; [by rewrite remove_exhausted_length|].
      intros j sl Hj. destruct (IH2 j sl Hj) as (sl' & E & Hp). eapply remove_one; [|done|done].
      rewrite IH1, <- Hl. by eapply lookup_lt_Some. }
  destruct (Hn RECEIVE_BUFFERS) as [H1 H2]; [done|]. split; [done|]. intros j sl Hj.
  destruct (H2 j sl Hj) as (sl' & ? & Hp). exists sl'. split; [done|].
  by rewrite (proj2 (Nat.ltb_lt j RECEIVE_BUFFERS)) in Hp by (rewrite <- Hl; by eapply lookup_lt_Some).
Qed.

(** The slots from [i] on, the last one of which has no link. *)
Fixpoint cells (i : nat) bufs (V : list (option MB)) : Prop :=
  match V with
  | [] => True
  | v :: V' =>
      (exists sl : slot MB, bufs !! i = Some sl /\ fst <$> sl = v /\ (V' = [] -> sl ≫= snd = None)) /\
      cells (successor_index i) bufs V'
  end.
Definition allocated (v : option MB) : MB := default (mb_new RECEIVE_DATA_BUFFER_SIZE) v.

Lemma cells_frame i bufs bufs' V : (forall j, j ∈ ixs i (length V) -> bufs' !! j = bufs !! j) ->
  cells i bufs V -> cells i bufs' V.
Proof.
  revert i. induction V as [|v V IH]; intros i Hf; [done|]. cbn [cells length ixs] in *. intros [H1 H2].
  split; [by rewrite Hf by left|]. apply IH; [|done]. intros j Hj. apply Hf. by right.
Qed.

(** The buffer of a slot, allocated when there is none. *)
Lemma alloc_slot i bufs (sl : slot MB) : bufs !! i = Some sl ->
  let bufs' := match sl with None => <[i := Some (mb_new RECEIVE_DATA_BUFFER_SIZE, None)]> bufs | Some _ => bufs end in
  bufs' !! i = Some (Some (allocated (fst <$> sl), sl ≫= snd)) /\ length bufs' = length bufs /\
  forall j, i <> j -> bufs' !! j = bufs !! j.
Proof.
  intros E. destruct sl as [[w c]|]; cbn; [done|]. split_and!.
  - apply list_lookup_insert_eq. by eapply lookup_lt_Some.
  - apply length_insert.
  - intros j Hj. by apply list_lookup_insert_ne.
Qed.

Lemma alloc_rest V : forall fuel first prev w c bufs,
  (prev < RECEIVE_BUFFERS)%nat -> (S (length V) <= RECEIVE_BUFFERS)%nat ->
  bufs !! prev = Some (Some (w, c)) -> (V = [] -> c = None) -> cells (successor_index prev) bufs V ->
  adv (S (length V)) prev = first -> (forall k, (1 <= k <= length V)%nat -> adv k prev <> first) -> (length V < fuel)%nat ->
  exists bufs', alloc_loop fuel first prev (successor_index prev) bufs = Ret bufs' /\ length bufs' = length bufs /\
    linked prev bufs' (w :: (allocated <$> V)) /\ forall j, j ∉ ixs prev (S (length V)) -> bufs' !! j = bufs !! j.
Proof.
  induction V as [|v V IH]; intros fuel first prev w c bufs Hp HN Hw Hc Hv Hfirst Hk Hfu; (destruct fuel as [|fuel]; [cbn in *; lia|]).
  { cbn [alloc_loop]. rewrite decide_True by (by rewrite <- Hfirst). exists bufs. cbn. rewrite Hw, Hc by done. by split_and!. }
  cbn [alloc_loop length] in *. rewrite decide_False by (apply (Hk 1%nat); lia).
  destruct Hv as [(sl & Hsl & Hv & Hlast) Hcells]. rewrite Hsl. cbn [mbind outcome_bind deref].
  destruct (alloc_slot _ _ _ Hsl) as (E1 & E2 & E3). set (bufs1 := match sl with None => _ | Some _ => _ end) in *.
  assert (prev <> successor_index prev) as Hne by (intros E; apply (ixs_fresh prev 1); [done|lia|]; rewrite <- E; by left).
  rewrite decide_False by done. unfold slot_at. rewrite E3, Hw by done. cbn [mbind outcome_bind deref].
  set (bufs2 := set_cont prev (Some (successor_index prev)) bufs1).
  assert (forall j, prev <> j -> bufs2 !! j = bufs1 !! j) as Ho2 by (intros; by apply list_lookup_alter_ne).
  assert (bufs2 !! prev = Some (Some (w, Some (successor_index prev)))) as Hp2.
  { etrans; [apply list_lookup_alter_eq|]. assert (bufs1 !! prev = Some (Some (w, c))) as Hx by (by rewrite E3).
    exact (f_equal (fmap _) Hx). }
  assert (prev ∉ ixs (successor_index prev) (S (length V))) as Hfr by (apply ixs_fresh; [done|lia]).
  assert (successor_index prev ∉ ixs (successor_index (successor_index prev)) (length V)) as Hfr2
    by (apply ixs_fresh; [apply successor_lt|lia]).
  destruct (IH fuel first (successor_index prev) (allocated v) (sl ≫= snd) bufs2) as (bufs' & -> & F1 & F2 & F3); auto.
  - apply successor_lt.
  - lia.
  - rewrite Ho2 by done. by rewrite E1, Hv.
  - eapply cells_frame; [|done]. intros j Hj. assert (prev <> j) by (intros ->; apply Hfr; by right).
    assert (successor_index prev <> j) by (by intros <-). by rewrite Ho2, E3.
  - by rewrite <- adv_S.
  - intros k Hk'. rewrite <- adv_S. apply Hk. lia.
  - lia.
  - exists bufs'. split_and!; auto.
    + by rewrite F1; unfold bufs2, set_cont; rewrite length_alter.
    + split; [|done]. rewrite F3 by done. by rewrite Hp2.
    + intros j Hj. cbn [ixs] in Hj, F3. apply not_elem_of_cons in Hj as [? Hj]. rewrite F3 by done.
      apply not_elem_of_cons in Hj as [? ?]. rewrite Ho2, E3 by done. done.
Qed.

Lemma alloc_ok b bufs V : (b < RECEIVE_BUFFERS)%nat -> length bufs = RECEIVE_BUFFERS -> length V = RECEIVE_BUFFERS ->
  cells b bufs V ->
  exists bufs', alloc_loop (S RECEIVE_BUFFERS) b b b bufs = Ret bufs' /\ ring b bufs' (allocated <$> V) [].
Proof.
  intros Hb Hl HV Hc. destruct V as [|v V]; [cbn in HV; lia|]. cbn [alloc_loop length] in *.
  assert (successor_index b <> b) as Hne.
  { intros E. apply (ixs_fresh b 1); [done|lia|]. cbn [ixs]. rewrite E. by left. }
  rewrite decide_False by done. destruct Hc as [(sl & Hsl & Hv & Hlast) Hc]. rewrite Hsl. cbn [mbind outcome_bind deref].
  destruct (alloc_slot _ _ _ Hsl) as (E1 & E2 & E3). set (bufs1 := match sl with None => _ | Some _ => _ end) in *.
  rewrite decide_True by done.
  assert (b ∉ ixs (successor_index b) (length V)) as Hfr by (apply ixs_fresh; [done|lia]).
  destruct (alloc_rest V RECEIVE_BUFFERS b b (allocated v) (sl ≫= snd) bufs1) as (bufs' & E & F1 & F2 & F3); auto.
  - lia.
  - by rewrite E1, Hv.
  - eapply cells_frame; [|done]. intros j Hj. apply E3. by intros ->.
  - rewrite HV. by apply adv_ring.
  - intros k Hk Ek. assert (k = 0%nat); [|lia]. apply (adv_inj _ _ b); [done|lia|lia|done].
  - lia.
  - exists bufs'. split; [exact E|]. split; try done.
    + by rewrite F1, E2.
    + cbn [length fmap list_fmap]. rewrite length_fmap. lia.
Qed.

(** Removal and allocation together replace the exhausted buffers. *)
Definition kept w : option MB := if exhausted w then None else Some w.
Definition refresh w : MB := allocated (kept w).

Lemma refresh_data w : mb_length w <> 0%nat -> refresh w = w.
Proof. intros Hw. unfold refresh, kept, exhausted. by apply Nat.eqb_neq in Hw as ->. Qed.

Lemma refresh_empty w : empty_block w -> usable (refresh w).
Proof.
  intros Hw. unfold refresh, kept, exhausted. rewrite Hw. cbn [Nat.eqb andb]. destruct (Nat.ltb_spec (mb_space w) BUFFER_LOW_WATER); cbn.
  - split; [unfold empty_block, mb_length; by rewrite mb_new_bytes|rewrite mb_new_space; lia].
  - split; [done|lia].
Qed.

Lemma refresh_all_empty W : Forall empty_block W -> Forall usable (refresh <$> W).
Proof. intros HW. apply Forall_fmap. eapply Forall_impl; [done|]. apply refresh_empty. Qed.

Lemma refresh_tailed T D : tailed T -> Forall empty_block D -> fillable (refresh <$> (T ++ D)).
Proof.
  intros HT HD. induction T as [|w T IH]; [by apply usable_fillable, refresh_all_empty|].
  cbn [app]. rewrite fmap_cons. destruct HT as [[[Hl Hs] HT]|HT].
  - left. rewrite refresh_data by done. split; [done|]. by apply IH.
  - right. split; [|apply refresh_all_empty, Forall_app; by split].
    destruct (Nat.eq_dec (mb_length w) 0) as [Hw|Hw]; [right; by apply refresh_empty|left; by rewrite refresh_data].
Qed.

Lemma refresh_bytes W : chain_bytes (refresh <$> W) = chain_bytes W.
Proof.
  induction W as [|w W IH]; [done|]. rewrite fmap_cons, !chain_bytes_cons, IH. f_equal.
  destruct (Nat.eq_dec (mb_length w) 0) as [Hw|Hw]; [|by rewrite refresh_data].
  destruct (refresh_empty w Hw) as [Hr _]. apply nil_length_inv in Hr, Hw. by rewrite Hr, Hw.
Qed.

(** The slots after removal. *)
Lemma removed_cells W : forall i bufs bufs', held i bufs W ->
  (forall j sl, bufs !! j = Some sl -> exists sl', bufs' !! j = Some sl' /\ pruned true sl sl') ->
  (forall w, last W = Some w -> spent w \/ bufs !! adv (pred (length W)) i = Some (Some (w, None))) ->
  cells i bufs' (kept <$> W).
Proof.
  induction W as [|w W IH]; intros i bufs bufs' Hh Hp Hlast; [done|]. destruct Hh as [[c Hc] Hh].
  rewrite fmap_cons. cbn [cells]. destruct (Hp _ _ Hc) as (sl' & Hsl & Hpr). cbn in Hpr. split.
  - exists sl'. split; [done|]. unfold kept. destruct (exhausted w) eqn:Ew; [by subst|].
    destruct Hpr as (c' & -> & Hc'). split; [done|]. intros HW. apply fmap_nil_inv in HW as ->. cbn.
    apply Hc'. destruct (Hlast w eq_refl) as [[H1 H2]|Hl].
    + unfold exhausted in Ew. rewrite H1, H2 in Ew. cbn in Ew. destruct BUFFER_LOW_WATER; [lia|done].
    + cbn in Hl. rewrite Hc in Hl. by injection Hl.
  - apply (IH _ bufs); [done|done|]. intros w' Hw'. destruct W as [|w2 W2]; [done|].
    destruct (Hlast w' Hw') as [?|Hl]; [by left|right]. cbn [length pred] in *. by rewrite <- adv_S.
Qed.

Lemma linked_last i bufs W w : linked i bufs W -> last W = Some w -> bufs !! adv (pred (length W)) i = Some (Some (w, None)).
Proof.
  revert i. induction W as [|w0 W IH]; intros i Hl Hw; [done|]. destruct Hl as [H1 H2]. destruct W as [|w1 W].
  - cbn in *. by injection Hw as ->.
  - cbn [length pred]. rewrite adv_S. by apply IH.
Qed.

Lemma prepare_ring b bufs W D : ring b bufs W D ->
  exists bufs', alloc_loop (S RECEIVE_BUFFERS) b b b (remove_buffers bufs) = Ret bufs' /\ ring b bufs' (refresh <$> (W ++ D)) [].
Proof.
  intros [Hl Hb Hc Hne Hk Hh Hs]. destruct (remove_buffers_spec bufs Hl) as [Hl' Hp].
  destruct (alloc_ok b (remove_buffers bufs) (kept <$> (W ++ D))) as (bufs' & E & Hr); [done|done| | |].
  - rewrite length_fmap, length_app. lia.
  - apply (removed_cells _ _ bufs); [apply held_app; split; [by apply linked_held|done]|done|].
    intros w Hw. destruct D as [|d D] using rev_ind.
    + right. rewrite app_nil_r in *. by apply linked_last.
    + left. rewrite app_assoc, last_snoc in Hw. injection Hw as <-. apply Forall_app in Hs as [_ Hs]. by inversion Hs.
  - exists bufs'. split; [done|]. by rewrite <- list_fmap_compose in Hr.
Qed.

Section strategy.
Context {TH DSH X : Type}.
Implicit Types (s : ReceiveStrategy MB TH DSH X).

Lemma update_moves E : forall fuel init s w W D,
  ring (buffer_index_ s) (receive_buffers_ s) (E ++ w :: W) D -> Forall spent E -> mb_length w <> 0%nat ->
  (forall k, (1 <= k <= length E)%nat -> adv k (buffer_index_ s) <> init) -> (length E < fuel)%nat ->
  update_loop fuel init s = Ret (set_index s (adv (length E) (buffer_index_ s)), false) /\
  ring (adv (length E) (buffer_index_ s)) (receive_buffers_ s) (w :: W) (D ++ E).
Proof.
  induction E as [|e E IH]; intros fuel init s w W D Hr HE Hw Hi Hf; (destruct fuel as [|fuel]; [cbn in Hf; lia|]); cbn [update_loop].
  - cbn [app] in Hr. destruct (ring_front _ _ _ _ _ Hr) as [c ->]. cbn [mbind outcome_bind].
    apply Nat.eqb_neq in Hw as ->. rewrite app_nil_r. split; [by destruct s|done].
  - cbn [app] in Hr. destruct (ring_front _ _ _ _ _ Hr) as [c ->]. cbn [mbind outcome_bind].
    inversion HE as [|? ? He HE']; subst. rewrite (proj1 He). cbn [Nat.eqb].
    set (s1 := set_index s (successor_index (buffer_index_ s))).
    assert (buffer_index_ s1 = successor_index (buffer_index_ s)) as Hi1 by (by destruct s).
    assert (receive_buffers_ s1 = receive_buffers_ s) as Hb1 by (by destruct s).
    rewrite decide_False by (intros ->; apply (Hi 1%nat); [cbn; lia|done]).
    apply ring_leave in Hr; [|by destruct E|done]. rewrite <- Hi1, <- Hb1 in Hr.
    destruct (IH fuel init s1 w W (D ++ [e])) as [E1 E2]; auto.
    + intros k Hk. rewrite Hi1, <- adv_S. apply Hi. cbn. lia.
    + cbn in Hf. lia.
    + rewrite E1. rewrite Hi1, Hb1, <- adv_S, <- (assoc_L (++)) in *. cbn [length app]. split; [by destruct s|done].
Qed.

Lemma update_around V : forall fuel init s,
  held (buffer_index_ s) (receive_buffers_ s) V -> Forall empty_block V -> V <> [] ->
  adv (length V) (buffer_index_ s) = init ->
  (forall k, (1 <= k < length V)%nat -> adv k (buffer_index_ s) <> init) -> (length V <= fuel)%nat ->
  update_loop fuel init s = Ret (set_index s init, true).
Proof.
  induction V as [|v V IH]; intros fuel init s Hh HV HN Ha Hi Hf; [done|]. destruct fuel as [|fuel]; [cbn in Hf; lia|].
  cbn [update_loop held] in *. destruct Hh as [[c Hc] Hh]. unfold slot_at. rewrite Hc. cbn [mbind outcome_bind deref].
  inversion HV as [|? ? Hv HV']; subst. rewrite Hv. cbn [Nat.eqb length] in *.
  set (s1 := set_index s (successor_index (buffer_index_ s))).
  assert (buffer_index_ s1 = successor_index (buffer_index_ s)) as Hi1 by (by destruct s).
  assert (receive_buffers_ s1 = receive_buffers_ s) as Hb1 by (by destruct s).
  destruct V as [|v' V'].
  { rewrite decide_True by done. by destruct s. }
  rewrite decide_False by (intros E; apply (Hi 1%nat); [cbn; lia|]; by rewrite E).
  rewrite (IH fuel (adv (S (length (v' :: V'))) (buffer_index_ s)) s1); auto.
  - by destruct s.
  - by rewrite Hi1, Hb1.
  - by rewrite Hi1, <- adv_S.
  - intros k Hk. rewrite Hi1, <- adv_S. apply Hi. cbn in *. lia.
  - lia.
Qed.

(** The bytes in the buffers, in order. *)
Definition holds s (bs : list Z) : Prop :=
  exists W D, ring (buffer_index_ s) (receive_buffers_ s) W D /\ shape W /\ chain_bytes W = bs.
(** The current buffer has data when there are any. *)
Definition front s (bs : list Z) : Prop :=
  bs <> [] -> exists w c, slot_at (receive_buffers_ s) (buffer_index_ s) = Ret (w, c) /\ mb_length w <> 0%nat.

Lemma set_index_same s : set_index s (buffer_index_ s) = s.
Proof. by destruct s. Qed.

Lemma update_holds s bs done : holds s bs ->
  exists i, update_buffer_index s done = Ret (set_index s i, done || bool_decide (bs = [])) /\
    holds (set_index s i) bs /\ front (set_index s i) bs.
Proof.
  intros (W & D & Hr & Hs & <-). unfold update_buffer_index. pose proof Hr as [Hl Hb Hc Hne Hk Hh Hsp].
  destruct (decide (chain_bytes W = [])) as [Hz|Hz].
  - exists (buffer_index_ s). rewrite (update_around (W ++ D)).
    + rewrite bool_decide_eq_true_2 by done. rewrite set_index_same. cbn [mbind outcome_bind]. split; [done|].
      split; [by exists W, D|by intros ?].
    + apply held_app. split; [by apply linked_held|done].
    + apply Forall_app. split; [by apply empty_chain|]. eapply Forall_impl; [exact Hsp|]. by intros ? [].
    + by destruct W.
    + rewrite length_app, Hc. by apply adv_ring.
    + intros k Hk' E. rewrite length_app, Hc in Hk'. assert (k = 0%nat); [|lia].
      apply (adv_inj _ _ (buffer_index_ s)); [done|lia|lia|done].
    + rewrite length_app, Hc. lia.
  - destruct (shape_front W Hs Hz) as (E & w & W' & -> & HE & Hw & HT).
    exists (adv (length E) (buffer_index_ s)). rewrite length_app in Hc. cbn [length] in Hc.
    destruct (update_moves E (S RECEIVE_BUFFERS) (buffer_index_ s) s w W' D Hr HE Hw) as [-> Hr2].
    { intros k Hk' Ek. assert (k = 0%nat); [|lia]. apply (adv_inj _ _ (buffer_index_ s)); [done|lia|lia|done]. }
    { lia. }
    cbn [mbind outcome_bind]. rewrite bool_decide_eq_false_2 by done. split; [done|].
    assert (buffer_index_ (set_index s (adv (length E) (buffer_index_ s))) = adv (length E) (buffer_index_ s)) as Hi by (by destruct s).
    assert (receive_buffers_ (set_index s (adv (length E) (buffer_index_ s))) = receive_buffers_ s) as Hbf by (by destruct s).
    split.
    + exists (w :: W'), (D ++ E). rewrite Hi, Hbf. split_and!; [done|by apply shape_tailed|].
      by rewrite chain_bytes_app, (spent_chain E).
    + intros _. rewrite Hi, Hbf. destruct (ring_front _ _ _ _ _ Hr2) as [c Ec]. by exists w, c.
Qed.

(** The chain that the headers are read from, and reading [k] bytes of it. *)
Lemma holds_chain s bs : holds s bs ->
  exists chain, chain_from RECEIVE_BUFFERS (receive_buffers_ s) (buffer_index_ s) = Ret chain /\ chain_bytes chain.*2 = bs.
Proof.
  intros (W & D & [Hl Hb Hc Hne Hk Hh Hs] & _ & Hw). eexists. split; [apply chain_from_linked; [done|lia|done]|].
  by rewrite snd_zip by (rewrite ixs_length; lia).
Qed.

Lemma holds_same_chain s bs chain : holds s bs ->
  chain_from RECEIVE_BUFFERS (receive_buffers_ s) (buffer_index_ s) = Ret chain ->
  put_chain (zip chain.*1 chain.*2) (receive_buffers_ s) = receive_buffers_ s.
Proof.
  intros (W & D & Hr & _ & _) E. pose proof Hr as [Hl Hb Hc Hne Hk Hh Hs].
  rewrite (chain_from_linked _ _ _ W) in E by (done || lia). injection E as <-.
  rewrite fst_zip, snd_zip by (rewrite ixs_length; lia).
  clear Hr Hl Hb Hc Hne Hh Hs. revert Hk. generalize (buffer_index_ s) as i. induction W as [|w W IH]; intros i Hk; [done|].
  destruct Hk as [H1 H2]. cbn [length ixs zip zip_with]. rewrite put_chain_cons, IH by done.
  apply list_eq. intros j. destruct (decide (i = j)) as [<-|?]; [|by apply set_block_other].
  etrans; [by eapply set_block_same|done].
Qed.

Lemma holds_read {A} s bs (f : list MB -> outcome (list MB * A)) x k :
  holds s bs -> (forall c, chain_bytes c = bs -> exists k', f c = Ret (consume k' c, x) /\ chain_bytes (consume k' c) = drop k bs) ->
  exists bufs, on_chain (receive_buffers_ s) (buffer_index_ s) f = Ret (bufs, x) /\
    holds (set_receive_buffers s bufs) (drop k bs).
Proof.
  intros (W & D & Hr & Hs & Hw) Hf. destruct (Hf W Hw) as (k' & Ef & Hk').
  destruct (on_chain_ring _ _ W D f _ x Hr Ef (consume_length _ _)) as (bufs & -> & Hr').
  exists bufs. split; [done|]. exists (consume k' W), D. split_and!; [by destruct s|by apply shape_consume|done].
Qed.

(** Taking bytes out of the current buffer. *)
Lemma holds_take s bs w c n : holds s bs -> slot_at (receive_buffers_ s) (buffer_index_ s) = Ret (w, c) ->
  (n <= mb_length w)%nat ->
  take n (mb_bytes w) = take n bs /\
  holds (set_receive_buffers s (set_block (buffer_index_ s) (mb_advance_rd n w) (receive_buffers_ s))) (drop n bs).
Proof.
  intros (W & D & Hr & Hs & Hw) Hsl Hn. destruct W as [|w0 W]; [by destruct (ring_chain _ _ _ _ Hr)|].
  destruct (ring_front _ _ _ _ _ Hr) as [c0 E]. rewrite E in Hsl. injection Hsl as -> ->.
  rewrite chain_bytes_cons in Hw. split.
  { rewrite <- Hw, take_app_le; [done|]. exact Hn. }
  apply (ring_set_front _ _ _ (mb_advance_rd n w)) in Hr.
  exists (mb_advance_rd n w :: W), D. split_and!; [by destruct s| |].
  - assert (mb_advance_rd n w :: W = consume n (w :: W)) as ->; [|by apply shape_consume].
    symmetry. by apply (consume_front n [] w W).
  - rewrite chain_bytes_cons, mb_advance_rd_bytes, <- Hw, drop_app_le by done. done.
Qed.

(** The count of the buffered bytes. *)
Lemma held_count i bufs V : held i bufs V ->
  (fun j => match bufs !! j with Some (Some (w, _)) => mb_length w | _ => 0%nat end) <$> ixs i (length V) = mb_length <$> V.
Proof.
  revert i. induction V as [|v V IH]; intros i; [done|]. intros [[c Hc] Hh]. cbn [length ixs].
  rewrite !fmap_cons, IH, Hc by done. done.
Qed.

Lemma ixs_NoDup i n : (i < RECEIVE_BUFFERS)%nat -> (n <= RECEIVE_BUFFERS)%nat -> NoDup (ixs i n).
Proof.
  revert i. induction n as [|n IH]; intros i Hi Hn; [constructor|]. cbn [ixs]. constructor.
  - apply ixs_fresh; [done|lia].
  - apply IH; [apply successor_lt|lia].
Qed.

Lemma ixs_perm i : (i < RECEIVE_BUFFERS)%nat -> Permutation (ixs i RECEIVE_BUFFERS) (seq 0 RECEIVE_BUFFERS).
Proof.
  intros Hi. apply NoDup_Permutation; [by apply ixs_NoDup|apply NoDup_ListNoDup, seq_NoDup|].
  intros j. rewrite elem_of_seq. split; [|intros [_ Hj]; by apply ixs_full].
  intros (k & _ & ->)%ixs_elem. split; [lia|]. cbn. by apply adv_lt.
Qed.

Lemma sum_chain (V : list MB) : sum_list (mb_length <$> V) = length (chain_bytes V).
Proof. induction V as [|v V IH]; [done|]. rewrite fmap_cons, chain_bytes_length_cons. cbn. by rewrite IH. Qed.

Lemma buffered_holds s bs : holds s bs -> buffered (receive_buffers_ s) = length bs.
Proof.
  intros (W & D & [Hl Hb Hc Hne Hk Hh Hs] & _ & <-). unfold buffered.
  assert (held (buffer_index_ s) (receive_buffers_ s) (W ++ D)) as Hheld
    by (apply held_app; split; [by apply linked_held|done]).
  apply held_count in Hheld. rewrite length_app, Hc in Hheld.
  set (f := fun j => match receive_buffers_ s !! j with Some (Some (w, _)) => mb_length w | _ => 0%nat end) in Hheld.
  assert ((fun sl : slot MB => match sl with Some (b, _) => mb_length b | None => 0%nat end) <$> receive_buffers_ s
          = f <$> seq 0 RECEIVE_BUFFERS) as ->.
  { apply list_eq. intros j. rewrite !list_lookup_fmap. unfold f. destruct (decide (j < RECEIVE_BUFFERS)%nat).
    - destruct (lookup_lt_is_Some_2 (receive_buffers_ s) j) as [sl Hsl]; [lia|]. rewrite lookup_seq_lt by done. cbn. rewrite Hsl. cbn.
      by destruct sl as [[w c]|].
    - rewrite lookup_seq_ge, lookup_ge_None_2 by lia. done. }
  rewrite <- (ixs_perm (buffer_index_ s)) by done. by rewrite Hheld, sum_chain, chain_bytes_app, (spent_chain D), app_nil_r.
Qed.

(** The current buffer is drained and another one has data. *)
Definition stranded s : bool :=
  match receive_buffers_ s !! buffer_index_ s with
  | Some (Some (w, _)) => (mb_length w =? 0)%nat && (0 <? buffered (receive_buffers_ s))%nat
  | _ => false
  end.

Lemma not_stranded s bs : holds s bs -> stranded s = false -> front s bs.
Proof.
  intros Hh Hs Hne. pose proof (buffered_holds _ _ Hh) as Hb. unfold stranded in Hs.
  destruct Hh as (W & D & Hr & _ & _). destruct W as [|w W]; [by destruct (ring_chain _ _ _ _ Hr)|].
  destruct (ring_front _ _ _ _ _ Hr) as [c Hc]. exists w, c. split; [done|]. intros Hw.
  destruct (ring_linked _ _ _ _ Hr) as [E _]. rewrite E, Hw, Hb in Hs. cbn in Hs. by destruct bs.
Qed.

(** Before the read: the buffers hold [bs] and the next bytes go behind them. *)
Definition ready s (bs : list Z) (space : nat) : Prop :=
  exists W, ring (buffer_index_ s) (receive_buffers_ s) W [] /\ fillable W /\ chain_bytes W = bs /\ chain_space W = space.

(** Between two calls: the initial state, or one whose data starts in the
    current buffer. *)
Definition idle s (bs : list Z) : Prop :=
  holds s bs /\ front s bs \/ receive_buffers_ s = replicate RECEIVE_BUFFERS None /\ buffer_index_ s = 0%nat /\ bs = [].

(** The room that the [iovec] offers. *)
Definition room s : nat :=
  match prepare s with
  | Ret s => default 0%nat (sum_list <$> form_iov RECEIVE_BUFFERS (buffer_index_ s) (receive_buffers_ s))
  | _ => 0%nat
  end.

Lemma form_iov_linked i bufs W : linked i bufs W ->
  exists iov, form_iov (length W) i bufs = Some iov /\ sum_list iov = chain_space W.
Proof.
  revert i. induction W as [|w W IH]; intros i; [by exists []|]. intros [H1 H2]. cbn [length form_iov]. rewrite H1.
  destruct (IH _ H2) as (iov & -> & Hs). cbn [mbind option_bind]. eexists. split; [done|]. rewrite chain_space_cons.
  destruct (Nat.ltb_spec 0 (mb_space w)); cbn; lia.
Qed.

Lemma ready_iov s bs space : ready s bs space ->
  exists iov, form_iov RECEIVE_BUFFERS (buffer_index_ s) (receive_buffers_ s) = Some iov /\ sum_list iov = space.
Proof.
  intros (W & Hr & _ & _ & <-). pose proof (ring_count _ _ _ _ Hr) as Hc. cbn in Hc. rewrite Nat.add_0_r in Hc. rewrite <- Hc.
  apply form_iov_linked, Hr.
Qed.

Lemma set_buffers_fields s bufs : receive_buffers_ (set_receive_buffers s bufs) = bufs /\ buffer_index_ (set_receive_buffers s bufs) = buffer_index_ s.
Proof. by destruct s. Qed.

Lemma prepare_idle s bs : idle s bs ->
  exists bufs, prepare s = Ret (set_receive_buffers s bufs) /\ ready (set_receive_buffers s bufs) bs (room s).
Proof.
  intros Hidle.
  assert (exists bufs W, prepare s = Ret (set_receive_buffers s bufs) /\
    ring (buffer_index_ (set_receive_buffers s bufs)) (receive_buffers_ (set_receive_buffers s bufs)) W [] /\ fillable W /\ chain_bytes W = bs)
    as (bufs & W & Hp & Hr & Hf & Hb).
  { unfold prepare. destruct Hidle as [[(W & D & Hr & Hsh & Hb) Hfr]|(Hb & Hi & ->)].
    - destruct (prepare_ring _ _ _ _ Hr) as (bufs & -> & Hr'). exists bufs, (refresh <$> (W ++ D)).
      destruct (set_buffers_fields s bufs) as [-> ->]. split_and!; [done|done| |].
      + assert (Forall empty_block D) as HD by (eapply Forall_impl; [apply Hr|]; by intros ? []).
        destruct (decide (bs = [])) as [->|Hne].
        { apply usable_fillable, refresh_all_empty, Forall_app. split; [by apply empty_chain|done]. }
        destruct (Hfr Hne) as (w & c & Hc & Hw). destruct Hsh as (E & T & -> & HE & HT & HN).
        destruct E as [|e E]; [by apply refresh_tailed|]. exfalso. cbn [app] in Hr.
        destruct (ring_front _ _ _ _ _ Hr) as [c' Hc']. rewrite Hc' in Hc. injection Hc as -> ->.
        inversion HE as [|? ? [? ?]]. done.
      + rewrite refresh_bytes, chain_bytes_app, Hb, spent_chain, app_nil_r by apply Hr. done.
    - rewrite Hb, Hi. destruct (remove_buffers_spec (replicate RECEIVE_BUFFERS None)) as [Hl Hp]; [apply length_replicate|].
      destruct (alloc_ok 0 (remove_buffers (replicate RECEIVE_BUFFERS None)) (replicate RECEIVE_BUFFERS None)) as (bufs & -> & Hr).
      + lia.
      + done.
      + apply length_replicate.
      + assert (forall i n, (i < RECEIVE_BUFFERS)%nat -> cells i (remove_buffers (replicate RECEIVE_BUFFERS None)) (replicate n None)) as Hc;
          [|apply Hc; lia]. intros i n. revert i. induction n as [|n IH]; intros i Hi'; [done|]. cbn [replicate cells].
        split; [|apply IH, successor_lt]. destruct (Hp i None) as (sl & Hsl & Hpr); [by apply lookup_replicate|]. cbn in Hpr. subst. by exists None.
      + exists bufs, (allocated <$> replicate RECEIVE_BUFFERS None). destruct (set_buffers_fields s bufs) as [-> ->].
        rewrite Hi. split_and!; [done|done| |].
        * apply usable_fillable, Forall_fmap, Forall_replicate. cbn. split; [unfold empty_block, mb_length; by rewrite mb_new_bytes|rewrite mb_new_space; lia].
        * apply empty_chain, Forall_fmap, Forall_replicate. cbn. unfold empty_block, mb_length. by rewrite mb_new_bytes. }
  exists bufs. split; [done|]. exists W. split_and!; auto. unfold room. rewrite Hp.
  destruct (ready_iov (set_receive_buffers s bufs) bs (chain_space W)) as (iov & -> & <-); [by exists W|]. done.
Qed.

Lemma fill_ready s bs space bytes : ready s bs space -> (length bytes <= space)%nat ->
  exists bufs, fill_loop (S RECEIVE_BUFFERS) (buffer_index_ s) (buffer_index_ s) bytes (receive_buffers_ s) = Ret (true, bufs) /\
    holds (set_receive_buffers s bufs) (bs ++ bytes).
Proof.
  intros (W & [Hl Hb Hc Hne Hk Hh Hs] & Hf & <- & <-) Hle. cbn in Hc. rewrite Nat.add_0_r in Hc.
  destruct (fill_ok W (S RECEIVE_BUFFERS) (buffer_index_ s) (buffer_index_ s) bytes (receive_buffers_ s))
    as (bufs & W' & E & E1 & E2 & E3 & E4 & E5 & E6); auto.
  - lia.
  - rewrite Hc. by apply adv_ring.
  - intros k Hk' Ek. assert (k = 0%nat); [|lia]. apply (adv_inj _ _ (buffer_index_ s)); [done|lia|lia|done].
  - lia.
  - exists bufs. split; [done|]. destruct (set_buffers_fields s bufs) as [Eb Ei]. assert (W' <> []) by (by destruct W, W').
    exists W', []. rewrite Eb, Ei. split_and!; [|by apply shape_tailed|done]. split; try done; [congruence|cbn; lia].
Qed.
End strategy.
End ring.
End ReceiveBuffers.
Export ReceiveBuffers.
