(* ===== verification/ReceiveDerived.v ===== *)
(** * The state of the derived receive strategy

    A property of the state of the derived class that its virtual functions keep
    is kept by every call of [handle_dds_input], on any input. *)

From S2P Require Import Prelude MessageBlock SequenceNumber Serializer DataSampleHeader TransportReassembly TransportHeader TransportReceiveStrategy.

Module ReceiveDerived.
Section derived.
Context {MB TH DSH X : Type} {MB0 : MessageBlock MB} {SZ : ReceiveSizes}
  {HD : ReceiveHeaders MB TH DSH} {HK : ReceiveHooks MB TH DSH X} (P : X -> Prop).
Hypothesis Hth : forall th x b x', check_transport_header th x = Ret (b, x') -> P x -> P x'.
Hypothesis Hdsh : forall h x, P x -> P (check_sample_header h x).2.
Hypothesis Hre : forall th rds x r x', hook_reassemble th rds x = Ret (r, x') -> P x -> P x'.
Hypothesis Hdel : forall rds g x, P x -> P (deliver_sample rds g x).2.
Hypothesis Hrel : forall x, P x -> P (relink x).
Implicit Types (s : ReceiveStrategy MB TH DSH X).

(** Whatever an operation answers, [P] holds of the state it leaves. *)
Definition keeps {A} (f : A -> ReceiveStrategy MB TH DSH X) (m : outcome A) : Prop := forall a, m = Ret a -> P (derived_ (f a)).
Definition step_state (r : flow) : ReceiveStrategy MB TH DSH X := match r with Next s => s | Return _ s => s end.

Lemma keeps_Ret {A} f (a : A) : P (derived_ (f a)) -> keeps f (Ret a).
Proof. by intros ? ? [= <-]. Qed.

Lemma keeps_bind {A B} f g (m : outcome A) (k : A -> outcome B) : keeps g m -> (forall a, P (derived_ (g a)) -> keeps f (k a)) -> keeps f (m ≫= k).
Proof. intros Hm Hk b (a & Ha & Hb)%outcome_bind_Ret. eapply Hk; [by apply Hm|done]. Qed.

Lemma keeps_pure {A B} f (m : outcome A) (k : A -> outcome B) : (forall a, m = Ret a -> keeps f (k a)) -> keeps f (m ≫= k).
Proof. intros Hk b (a & Ha & Hb)%outcome_bind_Ret. by eapply Hk. Qed.

Lemma keeps_set s : P (derived_ s) ->
  (forall x, P (derived_ (set_graceful s x))) /\ (forall x, P (derived_ (set_sample_remaining s x))) /\
  (forall x, P (derived_ (set_th s x))) /\ (forall x, P (derived_ (set_receive_buffers s x))) /\ (forall x, P (derived_ (set_index s x))) /\
  (forall x, P (derived_ (set_dsh s x))) /\ (forall x, P (derived_ (set_payload s x))) /\ (forall x, P (derived_ (set_good_pdu s x))) /\
  (forall x, P (derived_ (set_pdu s x))).
Proof. destruct s. done. Qed.

Lemma keeps_derived s x : P x -> P (derived_ (set_derived s x)).
Proof. by destruct s. Qed.

(** Setters other than that of the derived state do not matter. *)
Ltac keep := repeat first [assumption | apply keeps_set | apply keeps_derived].

Lemma update_keeps s d : P (derived_ s) -> keeps fst (update_buffer_index s d).
Proof.
  intros Hs. unfold update_buffer_index. eapply (keeps_bind _ fst); [|intros [s1 d1] H1; by apply keeps_Ret].
  generalize (buffer_index_ s) as init. revert s Hs. generalize (S RECEIVE_BUFFERS) as fuel.
  induction fuel as [|fuel IH]; intros s Hs init; [done|]. cbn [update_loop]. apply keeps_pure. intros [w c] _.
  destruct (_ =? 0)%nat; [|by apply keeps_Ret]. case_decide; [apply keeps_Ret; cbn [fst]; keep|]. apply IH. keep.
Qed.

Lemma skip_keeps s : P (derived_ s) -> keeps step_state (skip_step s).
Proof.
  intros Hs. unfold skip_step, skip_bad_pdus. eapply (keeps_bind _ fst); [|intros [s1 c] H1; apply keeps_Ret; by destruct (_ <=? _)].
  destruct (good_pdu_ s); [by apply keeps_Ret|]. eapply (keeps_bind _ fst).
  - generalize (buffer_index_ s) as i. revert s Hs. generalize (S RECEIVE_BUFFERS) as fuel.
    induction fuel as [|fuel IH]; intros s Hs i; [done|]. cbn [skip_loop_pdus]. destruct (0 <? _); [|by apply keeps_Ret].
    apply keeps_pure. intros [w c] _. destruct (_ && _); [apply keeps_Ret; cbn [fst]; keep|]. apply IH. keep.
  - intros [s1 ok] H1. destruct (negb ok); [by apply keeps_Ret|]. eapply (keeps_bind _ fst); [apply update_keeps; keep|].
    intros [s2 d] H2. by apply keeps_Ret.
Qed.

Lemma packet_step_keeps s : P (derived_ s) -> keeps step_state (packet_step s).
Proof.
  intros Hs. unfold packet_step. destruct (_ =? 0); [|by apply skip_keeps]. apply keeps_pure. intros chain _.
  destruct (_ <? _)%nat; [apply keeps_Ret; cbn [step_state]; keep|]. apply keeps_pure. intros [bufs th] _.
  destruct (negb _); [apply keeps_Ret; cbn [step_state]; keep|]. apply keeps_pure. intros [b x] Hx. apply skip_keeps. keep.
  eapply Hth; [exact Hx|]. keep.
Qed.

Lemma header_step_keeps s : P (derived_ s) -> keeps step_state (sample_header_step s).
Proof.
  intros Hs. unfold sample_header_step. destruct (_ =? 0); [|by apply keeps_Ret]. apply keeps_pure. intros chain _.
  apply keeps_pure. intros [] _; [by apply keeps_Ret|]. apply keeps_pure. intros [bufs dsh] _.
  pose proof (Hdsh dsh (derived_ s) Hs) as Hx. destruct (check_sample_header dsh (derived_ s)) as [b x]. apply skip_keeps. keep.
Qed.

Lemma deliver_keeps s rds : P (derived_ s) -> P (derived_ (deliver s rds)).
Proof.
  intros Hs. unfold deliver. pose proof (Hdel rds (gracefully_disconnected_ s) (derived_ s) Hs) as Hx.
  destruct (deliver_sample rds _ _) as [g x]. keep.
Qed.

Lemma dispatch_keeps s : P (derived_ s) -> keeps id (dispatch_step s).
Proof.
  intros Hs. unfold dispatch_step. destruct (_ =? 0); [|by apply keeps_Ret].
  eapply (keeps_bind _ id); [|intros s1 H1; apply keeps_Ret; cbn in *; keep].
  destruct (dsh_into_received_data_sample _ _) as [rds|]; [|apply keeps_Ret; cbn; keep].
  destruct (_ || _); [|apply keeps_Ret; apply deliver_keeps; keep]. apply keeps_pure. intros [r x] Hx.
  assert (P x) by (eapply Hre; [exact Hx|]; keep).
  apply keeps_Ret. cbn. destruct r; [apply deliver_keeps|]; keep.
Qed.

Lemma sample_step_keeps s : P (derived_ s) -> keeps step_state (sample_step s).
Proof.
  intros Hs. unfold sample_step. eapply keeps_bind; [by apply header_step_keeps|]. intros [s1|c s1] H1; [|by apply keeps_Ret].
  cbn [step_state] in H1. unfold sample_rest. eapply (keeps_bind _ fst); [by apply update_keeps|]. intros [s2 d] H2. cbn [fst] in H2.
  eapply (keeps_bind _ id).
  { unfold sample_data_step. destruct (0 <? _); [|by apply keeps_Ret]. apply keeps_pure. intros [w c] _. apply keeps_Ret. cbn [id]. keep. }
  intros s3 H3. eapply (keeps_bind _ id); [by apply dispatch_keeps|]. intros s4 H4.
  eapply (keeps_bind _ fst); [by apply update_keeps|]. intros [s5 d5] H5. apply keeps_Ret. by destruct d5.
Qed.

Lemma process_keeps fuel : forall s, P (derived_ s) -> keeps snd (process_loop fuel s).
Proof.
  assert (forall fuel s, P (derived_ s) -> keeps step_state (samples_loop fuel s)) as Hsl.
  { intros n. induction n as [|n IH]; intros s Hs; [done|]. cbn [samples_loop]. destruct (0 <? _); [|by apply keeps_Ret].
    eapply keeps_bind; [by apply sample_step_keeps|]. intros [s1|c s1] H1; [by apply IH|by apply keeps_Ret]. }
  induction fuel as [|fuel IH]; intros s Hs; [done|]. cbn [process_loop].
  eapply keeps_bind; [by apply packet_step_keeps|]. intros [s1|c s1] H1; [|by apply keeps_Ret].
  eapply keeps_bind; [by apply Hsl|]. intros [s2|c s2] H2; [by apply IH|by apply keeps_Ret].
Qed.

Lemma handle_keeps input s c s' : P (derived_ s) -> handle_dds_input input s = Ret (c, s') -> P (derived_ s').
Proof.
  intros Hs E. assert (keeps snd (handle_dds_input input s)) as Hk; [|exact (Hk _ E)]. clear c s' E.
  unfold handle_dds_input, prepare. eapply (keeps_bind _ id).
  { apply keeps_pure. intros bufs _. apply keeps_Ret. cbn [id]. keep. }
  cbn [id]. intros s1 H1. destruct (form_iov _ _ _); [|by apply keeps_Ret].
  destruct input as [[|x bytes]|]; [destruct (gracefully_disconnected_ s1)| |]; try (apply keeps_Ret; cbn [snd]; keep; by apply Hrel).
  set (s2 := if _ =? 0 then _ else _). assert (P (derived_ s2)) as H2 by (subst s2; destruct (_ =? 0); keep). clearbody s2.
  apply keeps_pure. intros [ok bufs] _. destruct (negb ok); [apply keeps_Ret; cbn [snd]; keep|]. apply process_keeps. keep.
Qed.
End derived.
End ReceiveDerived.
Export ReceiveDerived.
