(* ===== verification/ReceiveDelivery.v ===== *)
(** * Delivery of the received samples

    A stream of well-formed packets, cut into reads in any way, is delivered
    sample by sample, whole and in order, as long as no read leaves data behind
    a drained current buffer ([stranded]).  The proofs use the headers and the
    derived class through their laws only ([ReceiveHeaderLaws], [AcceptingHooks]);
    the DCPS headers and the tcp and udp strategies are instances. *)

From S2P Require Import Prelude MessageBlock SequenceNumber Serializer DataSampleHeader TransportReassembly TransportHeader TransportReceiveStrategy ReceiveStrategies ReceiveBuffers.

Module ReceiveDelivery.

(** ** What the strategy relies on *)

(** The wire image of each header, and what reading it does: it takes its
    image from the front of the chain.  [dsh_got old h] is what a header object
    that held [old] holds after it has read the image of [h]. *)
Class ReceiveHeaderLaws (MB TH DSH : Type) `{MessageBlock MB} `{ReceiveHeaders MB TH DSH} := {
  th_ok : TH -> Prop;
  th_held : TH -> Prop;
  th_image : TH -> list Z;
  dsh_ok : DSH -> Prop;
  dsh_image : DSH -> list Z;
  dsh_got : DSH -> DSH -> DSH;
  dsh_view : DSH -> DataSampleHeader;
  th_max_pos : (0 < th_max_marshaled_size)%nat;
  th_image_length : forall h, th_ok h -> length (th_image h) = th_max_marshaled_size;
  th_assign_ok : forall h old (c : list MB) rest, th_ok h -> th_held old -> chain_bytes c = th_image h ++ rest ->
    exists k, th_assign c old = Ret (consume k c, h) /\ chain_bytes (consume k c) = rest;
  th_ok_held : forall h, th_ok h -> th_held h;
  th_ok_length : forall h, th_ok h -> is_u 32 (th_length h);
  th_held_set_length : forall h n, th_held h -> th_held (th_set_length h n);
  th_held_set_last : forall h x, th_held h -> th_held (th_set_last_fragment h x);
  th_last_set_last : forall h x, th_last_fragment (th_set_last_fragment h x) = x;
  th_last_set_length : forall h n, th_last_fragment (th_set_length h n) = th_last_fragment h;
  th_incomplete_ok : forall c, th_incomplete c = c;
  dsh_image_pos : forall h, dsh_ok h -> (0 < length (dsh_image h))%nat;
  dsh_partial_ok : forall h (c : list MB) rest, dsh_ok h -> chain_bytes c `prefix_of` dsh_image h ++ rest ->
    dsh_partial c = Ret (length (chain_bytes c) <? length (dsh_image h))%nat;
  dsh_assign_ok : forall h old n (c : list MB) rest, dsh_ok h -> chain_bytes c = dsh_image h ++ rest ->
    exists k, dsh_assign c (dsh_pdu_remaining old n) = Ret (consume k c, dsh_got old h) /\ chain_bytes (consume k c) = rest;
  dsh_got_length : forall old h, dsh_message_length (dsh_got old h) = dsh_message_length h;
  dsh_got_size : forall old h, dsh_ok h -> dsh_marshaled_size (dsh_got old h) = Z.of_nat (length (dsh_image h));
  dsh_got_more : forall old h, dsh_more_fragments (dsh_got old h) = dsh_more_fragments h;
  dsh_into_ok : forall h rds, dsh_into_received_data_sample h rds = Some (mkRDS (dsh_view h) (sample_ rds)) }.

(** A derived class that accepts every header; [hook_log] is what it has passed
    on, [event] what it passes on for a sample. *)
Class AcceptingHooks (MB TH DSH X : Type) `{MessageBlock MB} `{ReceiveHooks MB TH DSH X} := {
  call : Type;
  hook_ok : X -> Prop;
  hook_log : X -> list call;
  event : DataSampleHeader -> list Z -> list call;
  check_th_accepts : forall th x, hook_ok x ->
    exists x', check_transport_header th x = Ret (true, x') /\ hook_ok x' /\ hook_log x' = hook_log x;
  check_dsh_accepts : forall h x, hook_ok x ->
    exists x', check_sample_header h x = (true, x') /\ hook_ok x' /\ hook_log x' = hook_log x;
  deliver_logs : forall rds g x, hook_ok x -> let x' := (deliver_sample rds g x).2 in
    hook_ok x' /\ hook_log x' = hook_log x ++ event (header_ rds) (chain_bytes (default [] (sample_ rds))) }.

Section delivery.
Context {MB TH DSH X : Type} {MB0 : MessageBlock MB} {MB1 : MessageBlockLaws MB} {SZ : ReceiveSizes}
  {HD : ReceiveHeaders MB TH DSH} {HK : ReceiveHooks MB TH DSH X}
  {HL : ReceiveHeaderLaws MB TH DSH} {KL : AcceptingHooks MB TH DSH X}.
Hypothesis Hbuffers : (2 <= RECEIVE_BUFFERS)%nat.
Hypothesis Hlow : (1 <= BUFFER_LOW_WATER)%nat.
Hypothesis Hsize : (1 <= RECEIVE_DATA_BUFFER_SIZE)%nat.
Abbreviation State := (ReceiveStrategy MB TH DSH X).
Implicit Types (s : State) (bs : list Z).

(** ** Streams of packets *)

Abbreviation Sample := (prod DSH (list Z)).
Abbreviation Packet := (prod TH (list Sample)).
Definition sample_bytes (x : Sample) : list Z := dsh_image x.1 ++ x.2.
Definition samples_bytes (l : list Sample) : list Z := concat (sample_bytes <$> l).
Definition packet_bytes (p : Packet) : list Z := th_image p.1 ++ samples_bytes p.2.
Definition stream_bytes (ps : list Packet) : list Z := concat (packet_bytes <$> ps).

Record sample_ok (x : Sample) : Prop := {
  smp_header : dsh_ok x.1;
  smp_length : dsh_message_length x.1 = Z.of_nat (length x.2);
  smp_whole : dsh_more_fragments x.1 = false }.
Record packet_ok (p : Packet) : Prop := {
  pkt_header : th_ok p.1;
  pkt_valid : th_valid p.1 = true;
  pkt_whole : th_last_fragment p.1 = false;
  pkt_length : th_length p.1 = Z.of_nat (length (samples_bytes p.2));
  pkt_samples : Forall sample_ok p.2 }.

(** The calls for a sequence of samples, when the header object holds [old]. *)
Fixpoint deliveries (old : DSH) (l : list Sample) : list call :=
  match l with
  | [] => []
  | (h, p) :: l => event (dsh_view (dsh_got old h)) p ++ deliveries (dsh_got old h) l
  end.

(** ** Where the strategy is in the stream *)

(** The rest of the current sample and what of it was received, if it is in
    one; the samples that follow in the packet; the packets that follow. *)
Abbreviation Current := (option (prod (list Z) (list Z))).
Definition pending (cur : Current) : list Z := match cur with Some (_, p2) => p2 | None => [] end.
Definition received_part (cur : Current) : list Z := match cur with Some (p1, _) => p1 | None => [] end.
Definition ahead (cur : Current) (l : list Sample) (ps : list Packet) : list Z :=
  pending cur ++ samples_bytes l ++ stream_bytes ps.
Definition due s (cur : Current) (l : list Sample) (ps : list Packet) : list call :=
  match cur with Some (p1, p2) => event (dsh_view (data_sample_header_ s)) (p1 ++ p2) | None => [] end ++
  deliveries (data_sample_header_ s) (l ++ concat ps.*2).
Definition slog s : list call := hook_log (derived_ s).

Record at_pos s (cur : Current) (l : list Sample) (ps : list Packet) : Prop := {
  ap_good : good_pdu_ s = true;
  ap_th : th_held (receive_transport_header_ s);
  ap_last : th_last_fragment (receive_transport_header_ s) = false;
  ap_samples : Forall sample_ok l;
  ap_packets : Forall packet_ok ps;
  ap_remaining : receive_sample_remaining_ s = Z.of_nat (length (pending cur));
  ap_payload : chain_bytes (payload_ s) = received_part cur;
  ap_null : cur = None -> payload_ s = [];
  ap_rest : forall p1 p2, cur = Some (p1, p2) -> p2 <> [];
  ap_more : cur <> None -> dsh_more_fragments (data_sample_header_ s) = false;
  ap_pdu : pdu_remaining_ s = Z.of_nat (length (pending cur ++ samples_bytes l));
  ap_bound : is_u 64 (pdu_remaining_ s);
  ap_hook : hook_ok (derived_ s) }.

(** The strategy cannot go on without more data. *)
Definition stuck (cur : Current) (l : list Sample) bs : Prop :=
  bs = [] \/ cur = None /\ (l = [] /\ (length bs < th_max_marshaled_size)%nat \/
    exists x l', l = x :: l' /\ (length bs < length (dsh_image x.1))%nat).

Lemma samples_bytes_cons x l : samples_bytes (x :: l) = dsh_image x.1 ++ x.2 ++ samples_bytes l.
Proof. unfold samples_bytes, sample_bytes. cbn. by rewrite <- (assoc_L (++)). Qed.

Lemma stream_bytes_cons p ps : stream_bytes (p :: ps) = th_image p.1 ++ samples_bytes p.2 ++ stream_bytes ps.
Proof. unfold stream_bytes, packet_bytes. cbn. by rewrite <- (assoc_L (++)). Qed.

(** What is buffered ahead of the stream is a prefix of it. *)
Lemma prefix_split (a rest bs : list Z) : bs `prefix_of` a ++ rest -> (length a <= length bs)%nat ->
  exists bs', bs = a ++ bs' /\ bs' `prefix_of` rest.
Proof.
  intros [k Hk] Hl. exists (drop (length a) bs).
  assert (take (length a) bs = a) as Ha.
  { rewrite <- (take_app_le bs k), <- Hk by done. by rewrite take_app_length. }
  split; [by rewrite <- Ha at 1; rewrite take_drop|]. exists k.
  rewrite <- (drop_app_le bs k), <- Hk by done. by rewrite drop_app_length.
Qed.

(** ** One round *)

Lemma skip_good s : good_pdu_ s = true -> skip_step s = Ret (Next s).
Proof. intros Hg. unfold skip_step, skip_bad_pdus. rewrite Hg. done. Qed.

Lemma packet_step_waits s ps bs : at_pos s None [] ps -> holds s bs -> (length bs < th_max_marshaled_size)%nat ->
  packet_step s = Ret (Return 0 s).
Proof.
  intros Hp Hh Hlt. unfold packet_step. rewrite (ap_pdu _ _ _ _ Hp). cbn [pending samples_bytes fmap list_fmap concat app length Z.of_nat Z.eqb].
  destruct (holds_chain Hbuffers Hlow Hsize _ _ Hh) as (chain & Hc & Hb). rewrite Hc. cbn [mbind outcome_bind].
  rewrite Hb, (proj2 (Nat.ltb_lt _ _)) by done.
  rewrite th_incomplete_ok, (holds_same_chain Hbuffers Hlow Hsize _ _ _ Hh Hc). by destruct s.
Qed.

Lemma packet_step_reads s th l ps bs : at_pos s None [] ((th, l) :: ps) -> holds s (th_image th ++ bs) ->
  exists s', packet_step s = Ret (Next s') /\ at_pos s' None l ps /\ holds s' bs /\
    data_sample_header_ s' = data_sample_header_ s /\ slog s' = slog s.
Proof.
  intros [Hg Hth Hlast Hsm Hpk Hrem Hpay Hnull Hrst Hmore Hpdu Hbd Hhk] Hh.
  apply Forall_cons in Hpk as [[Hok Hval Hwh Hlen Hsl] Hpk]. cbn [fst snd] in *.
  unfold packet_step. rewrite Hpdu. cbn [pending samples_bytes fmap list_fmap concat app length Z.of_nat Z.eqb].
  destruct (holds_chain Hbuffers Hlow Hsize _ _ Hh) as (chain & -> & Hb). cbn [mbind outcome_bind].
  rewrite Hb, length_app, th_image_length, (proj2 (Nat.ltb_ge _ _)) by (done || lia).
  destruct (holds_read Hbuffers Hlow Hsize s _ (fun c => th_assign c (receive_transport_header_ s)) th (length (th_image th)) Hh)
    as (bufs & -> & Hh').
  { intros c Hc. destruct (th_assign_ok th (receive_transport_header_ s) c bs) as (k & Ek & Ek'); [done..|].
    exists k. by rewrite drop_app_length. }
  rewrite drop_app_length in Hh'. cbn [mbind outcome_bind]. rewrite Hval. cbn [negb].
  destruct (check_th_accepts th (derived_ (set_th (set_receive_buffers s bufs) th))) as (x' & -> & Hx & Hlog); [by destruct s|].
  cbn [mbind outcome_bind]. rewrite skip_good by (by destruct s).
  eexists. split; [done|]. pose proof (th_ok_length th Hok) as Hbound.
  destruct s as [g r t b ix d pl gp pd x]. cbn in *. split_and!; [|done|done|done].
  split; cbn; auto; [by apply th_ok_held|].
  unfold is_u in *. change (2 ^ 32) with 4294967296 in Hbound. change (2 ^ 64) with 18446744073709551616. lia.
Qed.

(** A position within a sample of which the rest may be empty. *)
Record in_sample s (p1 p2 : list Z) (l : list Sample) (ps : list Packet) : Prop := {
  is_good : good_pdu_ s = true;
  is_th : th_held (receive_transport_header_ s);
  is_last : th_last_fragment (receive_transport_header_ s) = false;
  is_samples : Forall sample_ok l;
  is_packets : Forall packet_ok ps;
  is_remaining : receive_sample_remaining_ s = Z.of_nat (length p2);
  is_payload : chain_bytes (payload_ s) = p1;
  is_more : dsh_more_fragments (data_sample_header_ s) = false;
  is_pdu : pdu_remaining_ s = Z.of_nat (length (p2 ++ samples_bytes l));
  is_bound : is_u 64 (pdu_remaining_ s);
  is_hook : hook_ok (derived_ s) }.

Lemma sub64_exact a b c : is_u 64 a -> a = Z.of_nat (b + c) -> sub64 a (Z.of_nat b) = Z.of_nat c /\ is_u 64 (Z.of_nat c).
Proof.
  intros Ha ->. unfold sub64. replace (Z.of_nat (b + c) - Z.of_nat b) with (Z.of_nat c) by lia.
  assert (is_u 64 (Z.of_nat c)) by (unfold is_u in *; lia). split; [by apply uwrap_small|done].
Qed.

(** The header of the next sample is waited for, or read. *)
Lemma header_step_waits s x l ps bs : at_pos s None (x :: l) ps -> holds s bs ->
  bs `prefix_of` ahead None (x :: l) ps -> (length bs < length (dsh_image x.1))%nat ->
  sample_header_step s = Ret (Return 0 s).
Proof.
  intros Hp Hh Hpre Hlt. unfold sample_header_step. rewrite (ap_remaining _ _ _ _ Hp). cbn [pending length Z.of_nat Z.eqb].
  destruct (holds_chain Hbuffers Hlow Hsize _ _ Hh) as (chain & -> & Hb). cbn [mbind outcome_bind].
  unfold ahead in Hpre. rewrite samples_bytes_cons, <- !(assoc_L (++)) in Hpre. cbn [pending app] in Hpre.
  pose proof (ap_samples _ _ _ _ Hp) as Hs. apply Forall_cons in Hs as [Hx _].
  rewrite (dsh_partial_ok x.1 _ (x.2 ++ samples_bytes l ++ stream_bytes ps)); [|apply Hx|by rewrite Hb].
  rewrite Hb, (proj2 (Nat.ltb_lt _ _)) by done. done.
Qed.

Lemma header_step_reads s h p l ps bs : at_pos s None ((h, p) :: l) ps -> holds s (dsh_image h ++ bs) ->
  bs `prefix_of` p ++ samples_bytes l ++ stream_bytes ps ->
  exists s', sample_header_step s = Ret (Next s') /\ in_sample s' [] p l ps /\ holds s' bs /\
    data_sample_header_ s' = dsh_got (data_sample_header_ s) h /\ slog s' = slog s.
Proof.
  intros [Hg Hth Hlast Hsm Hpk Hrem Hpay Hnull Hrst Hmore Hpdu Hbd Hhk] Hh Hpre.
  apply Forall_cons in Hsm as [[Hok Hlen Hwh] Hsm]. cbn [fst snd pending received_part app] in *.
  unfold sample_header_step. rewrite Hrem. cbn [pending length Z.of_nat Z.eqb].
  destruct (holds_chain Hbuffers Hlow Hsize _ _ Hh) as (chain & -> & Hb). cbn [mbind outcome_bind].
  rewrite (dsh_partial_ok h _ (p ++ samples_bytes l ++ stream_bytes ps)); [|done|rewrite Hb; by apply prefix_app].
  rewrite Hb, length_app, (proj2 (Nat.ltb_ge _ _)) by lia. cbn [mbind outcome_bind].
  destruct (holds_read Hbuffers Hlow Hsize s _ (fun c => dsh_assign c (dsh_pdu_remaining (data_sample_header_ s) (pdu_remaining_ s)))
    (dsh_got (data_sample_header_ s) h) (length (dsh_image h)) Hh) as (bufs & -> & Hh').
  { intros c Hc. destruct (dsh_assign_ok h (data_sample_header_ s) (pdu_remaining_ s) c bs) as (k & Ek & Ek'); [done..|].
    exists k. by rewrite drop_app_length. }
  rewrite drop_app_length in Hh'. cbn [mbind outcome_bind].
  destruct (check_dsh_accepts (dsh_got (data_sample_header_ s) h) (derived_ s) Hhk) as (x' & -> & Hx & Hlog).
  rewrite skip_good by (by destruct s). eexists. split; [done|].
  rewrite samples_bytes_cons, length_app in Hpdu. cbn [fst snd] in Hpdu.
  destruct (sub64_exact _ _ _ Hbd Hpdu) as [Hsub Hsubd]. pose proof (dsh_got_size (data_sample_header_ s) h Hok) as Hsz.
  pose proof (dsh_got_more (data_sample_header_ s) h) as Hgm. pose proof (dsh_got_length (data_sample_header_ s) h) as Hgl.
  destruct s as [g r t b ix d pl gp pd x]. cbn in *. split_and!; [|done|done|done].
  split; cbn; auto; try congruence.
Qed.

Lemma prefix_take (p rest bs : list Z) n : bs `prefix_of` p ++ rest -> (n <= length p)%nat -> (n <= length bs)%nat ->
  take n bs = take n p.
Proof.
  intros [k Hk] Hp Hb. rewrite <- (take_app_le bs k), <- Hk by done. by rewrite take_app_le.
Qed.

Lemma holds_slot s bs : holds s bs -> exists w c, slot_at (receive_buffers_ s) (buffer_index_ s) = Ret (w, c).
Proof.
  intros (W & D & Hr & _ & _). destruct W as [|w W]; [by destruct (ring_chain _ _ _ _ Hr)|].
  destruct (ring_front _ _ _ _ _ Hr) as [c Hc]. eauto.
Qed.

(** The data of the sample in the current buffer. *)
Lemma data_step_ok s p1 p2 l ps bs rest : in_sample s p1 p2 l ps -> holds s bs -> front s bs -> bs `prefix_of` p2 ++ rest ->
  exists s' c p2' bs', sample_data_step s = Ret s' /\ p2 = c ++ p2' /\ bs = c ++ bs' /\ in_sample s' (p1 ++ c) p2' l ps /\
    holds s' bs' /\ data_sample_header_ s' = data_sample_header_ s /\ slog s' = slog s /\ (p2 <> [] -> bs <> [] -> c <> []).
Proof.
  intros [Hg Hth Hlast Hsm Hpk Hrem Hpay Hmore Hpdu Hbd Hhk] Hh Hfr Hpre. unfold sample_data_step. rewrite Hrem.
  destruct (decide (p2 = [])) as [->|Hne].
  { exists s, [], [], bs. split_and!; try done. rewrite (app_nil_r p1). by split. }
  assert (0 < length p2)%nat as Hpos by (destruct p2; [done|cbn [length]; lia]).
  rewrite (proj2 (Z.ltb_lt 0 _)) by lia.
  destruct (holds_slot s bs Hh) as (w & c & Hc). rewrite Hc. cbn [mbind outcome_bind].
  set (n := Nat.min (length p2) (mb_length w)).
  assert (Z.min (Z.of_nat (length p2)) (Z.of_nat (mb_length w)) = Z.of_nat n) as -> by (subst n; lia).
  rewrite Nat2Z.id. assert (n <= mb_length w)%nat as Hnw by (subst n; lia). assert (n <= length p2)%nat as Hnp by (subst n; lia).
  destruct (holds_take Hbuffers Hlow Hsize s bs w c n Hh Hc Hnw) as [Htake Hh'].
  assert (n <= length bs)%nat as Hnb.
  { apply (f_equal length) in Htake. rewrite !length_take in Htake. unfold mb_length in Hnw. lia. }
  rewrite (prefix_take p2 rest bs n Hpre Hnp Hnb) in Htake.
  exists (set_pdu (set_sample_remaining (set_receive_buffers (set_payload s (payload_ s ++ [mb_truncate n w]))
    (set_block (buffer_index_ s) (mb_advance_rd n w) (receive_buffers_ s))) (sub64 (Z.of_nat (length p2)) (Z.of_nat n)))
    (sub64 (pdu_remaining_ s) (Z.of_nat n))), (take n p2), (drop n p2), (drop n bs).
  rewrite length_app in Hpdu.
  assert (length p2 + length (samples_bytes l) = n + length (drop n p2 ++ samples_bytes l))%nat as E
    by (rewrite length_app, length_drop; lia).
  rewrite E in Hpdu. destruct (sub64_exact _ _ _ Hbd Hpdu) as [Hs1 Hb1].
  assert (is_u 64 (Z.of_nat (length p2))) as Hb2 by (unfold is_u in *; lia).
  destruct (sub64_exact (Z.of_nat (length p2)) n (length (drop n p2)) Hb2) as [Hs2 _]; [rewrite length_drop; lia|].
  destruct s as [g r t b ix d pl gp pd x]. cbn in *. subst r. split_and!; try done.
  - by rewrite take_drop.
  - by rewrite <- (prefix_take p2 rest bs n Hpre Hnp Hnb), take_drop.
  - split; cbn; auto; [|congruence]. rewrite fmap_app, concat_app. f_equal; [exact Hpay|].
    cbn. by rewrite mb_truncate_bytes, app_nil_r, Htake.
  - intros _ Hbs. destruct (Hfr Hbs) as (w' & c' & Hc' & Hw'). cbn in Hc'. rewrite Hc in Hc'. injection Hc' as -> ->.
    intros Ht. apply (f_equal length) in Ht. rewrite length_take in Ht. change (length (@nil Z)) with 0%nat in Ht.
    revert Hw' Hpos Ht. subst n. lia.
Qed.

(** A complete sample is handed over. *)
Lemma dispatch_ok s p1 p2 l ps bs (cur := if decide (p2 = []) then None else Some (p1, p2)) :
  in_sample s p1 p2 l ps -> holds s bs ->
  exists s', dispatch_step s = Ret s' /\ at_pos s' cur l ps /\ holds s' bs /\ data_sample_header_ s' = data_sample_header_ s /\
    slog s' ++ due s' cur l ps = slog s ++ event (dsh_view (data_sample_header_ s)) (p1 ++ p2) ++
      deliveries (data_sample_header_ s) (l ++ concat ps.*2).
Proof.
  intros [Hg Hth Hlast Hsm Hpk Hrem Hpay Hmore Hpdu Hbd Hhk] Hh. unfold dispatch_step. rewrite Hrem.
  subst cur. destruct (decide (p2 = [])) as [->|Hne].
  - cbn [length Z.of_nat Z.eqb]. rewrite dsh_into_ok.
    assert (dsh_more_fragments (data_sample_header_ (set_payload s [])) || th_last_fragment (receive_transport_header_ (set_payload s [])) = false) as ->
      by (destruct s; cbn in *; by rewrite Hmore, Hlast).
    cbn [mbind outcome_bind]. eexists. split; [done|]. unfold deliver. cbn [sample_].
    set (rds := mkRDS _ _). destruct (deliver_logs rds (gracefully_disconnected_ s) (derived_ s) Hhk) as [Hok Hlog].
    assert (chain_bytes (default [] (sample_ rds)) = p1) as E by (rewrite <- Hpay; by destruct s as [? ? ? ? ? ? [] ? ? ?]).
    assert (header_ rds = dsh_view (data_sample_header_ s)) as E2 by (by destruct s).
    rewrite E, E2 in Hlog. clearbody rds. destruct s as [g r t b ix d pl gp pd x]. cbn in *.
    destruct (deliver_sample rds g x) as [g' x']. cbn in *. split_and!; [|done|done|].
    + split; cbn; auto; [by apply th_held_set_last|by apply th_last_set_last].
    + unfold slog, due. cbn. by rewrite Hlog, app_nil_r, <- (assoc_L (++)).
  - assert (0 < length p2)%nat as Hpos by (destruct p2; [done|cbn [length]; lia]).
    rewrite (proj2 (Z.eqb_neq _ 0)) by lia. exists s.
    split_and!; try done. split; try done. by intros ? ? [= <- <-].
Qed.

(** The same position in the stream, with some of it gone. *)
Definition moved s s' (cur cur' : Current) (l l' : list Sample) (ps ps' : list Packet) bs bs' : Prop :=
  exists c, bs = c ++ bs' /\ ahead cur l ps = c ++ ahead cur' l' ps' /\
    slog s ++ due s cur l ps = slog s' ++ due s' cur' l' ps'.

Lemma set_index_pos s i cur l ps : at_pos s cur l ps -> at_pos (set_index s i) cur l ps.
Proof. destruct s. intros []. by split. Qed.

Lemma set_index_in s i p1 p2 l ps : in_sample s p1 p2 l ps -> in_sample (set_index s i) p1 p2 l ps.
Proof. destruct s. intros []. by split. Qed.

(** The second half of a round, from within a sample. *)
Lemma sample_tail_ok s p1 p2 l ps bs : in_sample s p1 p2 l ps -> holds s bs ->
  bs `prefix_of` p2 ++ samples_bytes l ++ stream_bytes ps ->
  exists s' cur' bs' r,
    sample_rest s = Ret r /\
    at_pos s' cur' l ps /\ holds s' bs' /\ r = (if bool_decide (bs' = []) then Return 0 s' else Next s') /\
    (exists c, bs = c ++ bs' /\ p2 ++ samples_bytes l ++ stream_bytes ps = c ++ ahead cur' l ps /\ (p2 <> [] -> bs' <> [] -> c <> [])) /\
    slog s ++ event (dsh_view (data_sample_header_ s)) (p1 ++ p2) ++ deliveries (data_sample_header_ s) (l ++ concat ps.*2)
    = slog s' ++ due s' cur' l ps.
Proof.
  intros Hin Hh Hpre. unfold sample_rest. destruct (update_holds Hbuffers Hlow Hsize s bs false Hh) as (i & -> & Hh1 & Hf1). cbn [mbind outcome_bind orb].
  apply (set_index_in s i) in Hin.
  destruct (data_step_ok _ _ _ _ _ _ _ Hin Hh1 Hf1 Hpre) as (s2 & c & p2' & bs2 & -> & -> & -> & Hin2 & Hh2 & Hd2 & Hl2 & Hc).
  cbn [mbind outcome_bind].
  destruct (dispatch_ok _ _ _ _ _ _ Hin2 Hh2) as (s3 & -> & Hp3 & Hh3 & Hd3 & Hl3). cbn [mbind outcome_bind].
  set (cur := if decide (p2' = []) then None else Some (p1 ++ c, p2')) in *.
  set (b1 := bool_decide (c ++ bs2 = [])).
  destruct (update_holds Hbuffers Hlow Hsize s3 bs2 b1 Hh3) as (j & -> & Hh4 & _). cbn [mbind outcome_bind].
  exists (set_index s3 j), cur, bs2. eexists. split; [done|]. split_and!.
  - by apply set_index_pos.
  - done.
  - subst b1. repeat case_bool_decide; try done. destruct c, bs2; done.
  - exists c. split_and!; [done| |].
    + unfold ahead. rewrite <- (assoc_L (++)). f_equal. subst cur. by destruct (decide (p2' = [])) as [->|].
    + intros Hp Hb. apply Hc; [done|]. by destruct c, bs2.
  - assert (slog (set_index s3 j) ++ due (set_index s3 j) cur l ps = slog s3 ++ due s3 cur l ps) as -> by (by destruct s3).
    rewrite Hl3, Hd2, Hl2, <- (assoc_L (++) p1). by destruct s.
Qed.

(** One round of the inner loop: it goes on with less data, or there is too
    little. *)
Lemma sample_step_ok s cur l ps bs : at_pos s cur l ps -> holds s bs -> bs `prefix_of` ahead cur l ps -> 0 < pdu_remaining_ s ->
  exists s' cur' l' bs' r, sample_step s = Ret r /\ at_pos s' cur' l' ps /\ holds s' bs' /\
    moved s s' cur cur' l l' ps ps bs bs' /\
    (r = Next s' /\ (length bs' < length bs)%nat \/ r = Return 0 s' /\ stuck cur' l' bs').
Proof.
  intros Hp Hh Hpre Hpos. unfold sample_step. destruct cur as [[p1 p2]|].
  - assert (in_sample s p1 p2 l ps) as Hin by (destruct Hp; split; auto).
    pose proof (ap_rest _ _ _ _ Hp _ _ eq_refl) as Hne.
    unfold sample_header_step. rewrite (ap_remaining _ _ _ _ Hp). cbn [pending] in *.
    rewrite (proj2 (Z.eqb_neq _ 0)) by (destruct p2; [done|cbn [length]; lia]). cbn [mbind outcome_bind].
    destruct (sample_tail_ok s p1 p2 l ps bs Hin Hh Hpre) as (s' & cur' & bs' & r & -> & Hp' & Hh' & -> & (c & -> & Ha & Hc) & Hl).
    exists s', cur', l, bs'. eexists. split_and!; [done|done|done| |].
    + exists c. split_and!; [done|done|]. unfold due at 1. cbn [app]. exact Hl.
    + case_bool_decide as Hb; [right; split; [done|by left]|left; split; [done|]]. rewrite length_app.
      assert (c <> []) by auto. destruct c; [done|cbn [length]; lia].
  - destruct l as [|[h p] l].
    { rewrite (ap_pdu _ _ _ _ Hp) in Hpos. cbn in Hpos. lia. }
    destruct (Nat.le_gt_cases (length (dsh_image h)) (length bs)) as [Hle|Hlt].
    + pose proof Hpre as Hpre'. unfold ahead in Hpre'. rewrite samples_bytes_cons, <- !(assoc_L (++)) in Hpre'. cbn [pending app fst snd] in Hpre'.
      destruct (prefix_split _ _ _ Hpre' Hle) as (bs1 & -> & Hpre1).
      destruct (header_step_reads s h p l ps bs1 Hp Hh Hpre1) as (s1 & -> & Hin & Hh1 & Hd1 & Hl1). cbn [mbind outcome_bind].
      destruct (sample_tail_ok s1 [] p l ps bs1 Hin Hh1 Hpre1) as (s' & cur' & bs' & r & -> & Hp' & Hh' & -> & (c & -> & Ha & Hc) & Hl).
      exists s', cur', l, bs'. eexists. split_and!; [done|done|done| |].
      * exists (dsh_image h ++ c). split_and!; [by rewrite (assoc_L (++))| |].
        { unfold ahead at 1. cbn [pending app]. rewrite samples_bytes_cons, <- !(assoc_L (++)). cbn [fst snd]. f_equal. exact Ha. }
        { rewrite <- Hl, Hl1, Hd1. unfold due. cbn [app deliveries]. done. }
      * pose proof (ap_samples _ _ _ _ Hp) as Hs. apply Forall_cons in Hs as [[Hok _ _] _].
        pose proof (dsh_image_pos h Hok) as Hpi. rewrite !length_app.
        case_bool_decide; [right; split; [done|by left]|left; split; [done|lia]].
    + rewrite (header_step_waits s (h, p) l ps bs Hp Hh Hpre Hlt). cbn [mbind outcome_bind].
      exists s, None, ((h, p) :: l), bs, (Return 0 s). split_and!; [done|done|done|by exists []|].
      right. split; [done|]. right. split; [done|]. right. by exists (h, p), l.
Qed.

Lemma moved_trans s1 s2 s3 c1 c2 c3 l1 l2 l3 ps1 ps2 ps3 b1 b2 b3 :
  moved s1 s2 c1 c2 l1 l2 ps1 ps2 b1 b2 -> moved s2 s3 c2 c3 l2 l3 ps2 ps3 b2 b3 -> moved s1 s3 c1 c3 l1 l3 ps1 ps3 b1 b3.
Proof.
  intros (c & -> & E1 & L1) (d & -> & E2 & L2). exists (c ++ d). rewrite <- !(assoc_L (++)). split_and!; [done| |congruence].
  by rewrite E1, E2.
Qed.

Lemma moved_prefix s s' cur cur' l l' ps ps' bs bs' :
  moved s s' cur cur' l l' ps ps' bs bs' -> bs `prefix_of` ahead cur l ps -> bs' `prefix_of` ahead cur' l' ps'.
Proof. intros (c & -> & E & _) Hpre. rewrite E in Hpre. by apply prefix_app_inv in Hpre. Qed.

(** No bytes of the packet are left: no sample is open and none follows. *)
Lemma packet_done s cur l ps : at_pos s cur l ps -> pdu_remaining_ s <= 0 -> cur = None /\ l = [].
Proof.
  intros Hp Hle. rewrite (ap_pdu _ _ _ _ Hp), length_app in Hle. split.
  - destruct cur as [[p1 p2]|]; [|done]. pose proof (ap_rest _ _ _ _ Hp _ _ eq_refl). cbn [pending] in Hle.
    destruct p2; [done|cbn [length] in Hle; lia].
  - destruct l as [|[h p] l]; [done|]. pose proof (ap_samples _ _ _ _ Hp) as Hs. apply Forall_cons in Hs as [[Hok _ _] _].
    pose proof (dsh_image_pos h Hok). rewrite samples_bytes_cons, length_app in Hle. cbn [fst] in *. lia.
Qed.

(** The samples of a packet. *)
Lemma samples_loop_ok fuel : forall s cur l ps bs, at_pos s cur l ps -> holds s bs -> bs `prefix_of` ahead cur l ps ->
  (length bs < fuel)%nat ->
  exists s' cur' l' bs' r, samples_loop fuel s = Ret r /\ at_pos s' cur' l' ps /\ holds s' bs' /\
    moved s s' cur cur' l l' ps ps bs bs' /\ (length bs' <= length bs)%nat /\
    (r = Next s' /\ cur' = None /\ l' = [] /\ (0 < pdu_remaining_ s -> (length bs' < length bs)%nat) \/
     r = Return 0 s' /\ stuck cur' l' bs').
Proof.
  induction fuel as [|fuel IH]; intros s cur l ps bs Hp Hh Hpre Hf; [lia|]. cbn [samples_loop].
  destruct (Z.ltb_spec 0 (pdu_remaining_ s)) as [Hpos|Hz].
  - destruct (sample_step_ok s cur l ps bs Hp Hh Hpre Hpos) as (s1 & cur1 & l1 & bs1 & r & -> & Hp1 & Hh1 & Hm1 & Hr).
    cbn [mbind outcome_bind]. destruct Hr as [[-> Hlt]|[-> Hst]].
    + destruct (IH s1 cur1 l1 ps bs1 Hp1 Hh1 (moved_prefix _ _ _ _ _ _ _ _ _ _ Hm1 Hpre)) as (s2 & cur2 & l2 & bs2 & r2 & -> & Hp2 & Hh2 & Hm2 & Hle & Hr2); [lia|].
      exists s2, cur2, l2, bs2, r2. split_and!; [done|done|done|by eapply moved_trans|lia|].
      destruct Hr2 as [(-> & ? & ? & _)|?]; [left; split_and!; [done..|lia]|by right].
    + exists s1, cur1, l1, bs1. eexists. split_and!; [done|done|done|done| |by right].
      destruct Hm1 as (c & -> & _). rewrite length_app. lia.
  - destruct (packet_done _ _ _ _ Hp Hz) as [-> ->].
    exists s, None, [], bs, (Next s). split_and!; [done|done|done|by exists []|lia|]. left. split_and!; [done..|lia].
Qed.

(** The part of the outer loop before the samples: it waits for a packet header,
    or it is in a packet. *)
Lemma packet_step_ok s cur l ps bs : at_pos s cur l ps -> holds s bs -> bs `prefix_of` ahead cur l ps ->
  packet_step s = Ret (Return 0 s) /\ cur = None /\ l = [] /\ (length bs < th_max_marshaled_size)%nat \/
  exists s' l' ps' bs', packet_step s = Ret (Next s') /\ at_pos s' cur l' ps' /\ holds s' bs' /\
    moved s s' cur cur l l' ps ps' bs bs' /\ (length bs' <= length bs)%nat /\
    (0 < pdu_remaining_ s' \/ (length bs' < length bs)%nat).
Proof.
  intros Hp Hh Hpre. destruct (Z.eq_dec (pdu_remaining_ s) 0) as [Hz|Hnz].
  - destruct (packet_done _ _ _ _ Hp ltac:(lia)) as [-> ->].
    destruct (Nat.le_gt_cases th_max_marshaled_size (length bs)) as [Hle|Hlt]; [right|left; split_and!; [by eapply packet_step_waits|done..]].
    unfold ahead in Hpre. cbn [pending app] in Hpre. change (samples_bytes [] ++ ?x) with x in Hpre.
    pose proof th_max_pos. destruct ps as [|[th l] ps]; [apply prefix_length in Hpre; cbn in Hpre; lia|].
    pose proof (ap_packets _ _ _ _ Hp) as Hk. apply Forall_cons in Hk as [[Hok _ _ _ _] _]. cbn [fst] in Hok.
    pose proof (th_image_length th Hok) as Hil. rewrite stream_bytes_cons in Hpre. cbn [fst snd] in Hpre.
    destruct (prefix_split _ _ _ Hpre ltac:(lia)) as (bs1 & -> & Hpre1).
    destruct (packet_step_reads s th l ps bs1 Hp Hh) as (s1 & E & Hp1 & Hh1 & Hd1 & Hl1).
    exists s1, l, ps, bs1. rewrite length_app. split_and!; [done|done|done| |lia|right; lia].
    exists (th_image th). split_and!; [done| |].
    + unfold ahead. cbn [pending app]. change (samples_bytes [] ++ ?x) with x. by rewrite stream_bytes_cons.
    + unfold due. by rewrite Hd1, Hl1.
  - right. exists s, l, ps, bs. split_and!; [|done|done|by exists []|lia|].
    + unfold packet_step. rewrite (proj2 (Z.eqb_neq _ _)) by done. apply skip_good, Hp.
    + left. destruct (ap_bound _ _ _ _ Hp). lia.
Qed.

(** All of it. *)
Lemma process_loop_ok fuel : forall s cur l ps bs, at_pos s cur l ps -> holds s bs -> bs `prefix_of` ahead cur l ps ->
  (length bs + 2 <= fuel)%nat ->
  exists s' cur' l' ps' bs', process_loop fuel s = Ret (0, s') /\ at_pos s' cur' l' ps' /\ holds s' bs' /\
    moved s s' cur cur' l l' ps ps' bs bs' /\ stuck cur' l' bs'.
Proof.
  induction fuel as [|fuel IH]; intros s cur l ps bs Hp Hh Hpre Hf; [lia|]. cbn [process_loop].
  destruct (packet_step_ok s cur l ps bs Hp Hh Hpre) as [(-> & -> & -> & Hlt)|(s1 & l1 & ps1 & bs1 & -> & Hp1 & Hh1 & Hm1 & Hle1 & Hdec)]; cbn [mbind outcome_bind].
  { exists s, None, [], ps, bs. split_and!; [done|done|done|by exists []|]. right. split; [done|]. by left. }
  pose proof (moved_prefix _ _ _ _ _ _ _ _ _ _ Hm1 Hpre) as Hpre1.
  destruct (samples_loop_ok fuel s1 cur l1 ps1 bs1 Hp1 Hh1 Hpre1) as (s2 & cur2 & l2 & bs2 & r & -> & Hp2 & Hh2 & Hm2 & Hle2 & Hr); [lia|].
  cbn [mbind outcome_bind]. destruct Hr as [(-> & -> & -> & Hlt)|[-> Hst]].
  - pose proof (moved_prefix _ _ _ _ _ _ _ _ _ _ Hm2 Hpre1) as Hpre2.
    destruct (IH s2 None [] ps1 bs2 Hp2 Hh2 Hpre2) as (s3 & cur3 & l3 & ps3 & bs3 & -> & Hp3 & Hh3 & Hm3 & Hst).
    { destruct Hdec as [Hd|Hd]; [specialize (Hlt Hd)|]; lia. }
    exists s3, cur3, l3, ps3, bs3. split_and!; [done|done|done| |done].
    eapply moved_trans; [done|]. by eapply moved_trans.
  - exists s2, cur2, l2, ps1, bs2. split_and!; [done|done|done| |done]. by eapply moved_trans.
Qed.

(** ** A call, and a sequence of them *)

Lemma handle_ok s cur l ps bs chunk : at_pos s cur l ps -> idle s bs -> bs ++ chunk `prefix_of` ahead cur l ps ->
  chunk <> [] -> (length chunk <= room s)%nat ->
  exists s' cur' l' ps' bs', handle_dds_input (Some chunk) s = Ret (0, s') /\ at_pos s' cur' l' ps' /\ holds s' bs' /\
    moved s s' cur cur' l l' ps ps' (bs ++ chunk) bs' /\ stuck cur' l' bs'.
Proof.
  intros Hp Hidle Hpre Hne Hroom. unfold handle_dds_input.
  destruct (prepare_idle Hbuffers Hlow Hsize s bs Hidle) as (bufs & -> & Hrd). cbn [mbind outcome_bind].
  destruct (ready_iov Hbuffers Hlow Hsize _ _ _ Hrd) as (iov & -> & _). destruct chunk as [|c0 chunk0]; [done|]. set (chunk := c0 :: chunk0) in *.
  set (s1 := if pdu_remaining_ (set_receive_buffers s bufs) =? 0 then _ else _).
  assert (at_pos s1 cur l ps) as Hp1.
  { subst s1. destruct Hp. destruct s as [g r t b ix d pl gp pd x]. cbn in *.
    destruct (pd =? 0); split; cbn; auto; [by apply th_held_set_length|by rewrite th_last_set_length]. }
  assert (data_sample_header_ s1 = data_sample_header_ s /\ slog s1 = slog s) as [Hd1 Hl1]
    by (subst s1; destruct s; cbn; destruct (_ =? 0); done).
  assert (ready s1 bs (room s)) as Hrd1 by (subst s1; destruct s; cbn in *; by destruct (_ =? 0)).
  clearbody s1. destruct (fill_ready Hbuffers Hlow Hsize s1 bs (room s) chunk Hrd1 Hroom) as (bufs' & -> & Hh). cbn [mbind outcome_bind negb].
  assert (at_pos (set_receive_buffers s1 bufs') cur l ps) as Hp2 by (destruct s1, Hp1; split; auto).
  assert (buffered bufs' = length (bs ++ chunk)) as ->
    by (rewrite <- (buffered_holds Hbuffers Hlow Hsize _ _ Hh); by destruct s1).
  destruct (process_loop_ok (2 + length (bs ++ chunk)) (set_receive_buffers s1 bufs') cur l ps (bs ++ chunk) Hp2 Hh Hpre)
    as (s' & cur' & l' & ps' & bs' & -> & Hp' & Hh' & Hm & Hst); [lia|].
  exists s', cur', l', ps', bs'. split_and!; [done|done|done| |done]. destruct Hm as (c & E1 & E2 & E3). exists c. split_and!; [done|done|].
  rewrite <- E3, <- Hl1. unfold due, slog. rewrite <- Hd1. by destruct s1.
Qed.

(** The calls for the reads [cs]: the answers and the state. *)
Fixpoint feed (cs : list (list Z)) s : outcome (list Z * State) :=
  match cs with
  | [] => Ret ([], s)
  | c :: cs =>
      '(code, s) ← handle_dds_input (Some c) s;
      '(codes, s) ← feed cs s;
      Ret (code :: codes, s)
  end.

(** Every read gives something and no more than the buffers have room for, and
    none finds data stranded. *)
Fixpoint fits (cs : list (list Z)) s : bool :=
  match cs with
  | [] => true
  | c :: cs =>
      negb (bool_decide (c = [])) && (length c <=? room s)%nat && negb (stranded s) &&
      match handle_dds_input (Some c) s with Ret (_, s) => fits cs s | _ => true end
  end.

(** Everything that was to come has come. *)
Lemma stuck_done s cur l ps bs : at_pos s cur l ps -> stuck cur l bs -> bs = ahead cur l ps -> due s cur l ps = [] /\ bs = [].
Proof.
  intros Hp Hst ->. unfold ahead in *. pose proof (ap_packets _ _ _ _ Hp) as Hk. pose proof (ap_samples _ _ _ _ Hp) as Hs.
  assert (cur = None) as ->.
  { destruct cur as [[p1 p2]|]; [|done]. pose proof (ap_rest _ _ _ _ Hp _ _ eq_refl).
    destruct Hst as [[? _]%app_eq_nil|[? _]]; done. }
  cbn [pending app] in *. assert (l = []) as ->.
  { destruct l as [|x l]; [done|]. apply Forall_cons in Hs as [[Hok _ _] _]. pose proof (dsh_image_pos _ Hok) as Hpos.
    rewrite samples_bytes_cons, <- !(assoc_L (++)) in Hst. destruct Hst as [[E _]%app_eq_nil|[_ [[? _]|(y & l' & [= <- <-] & Hlt)]]].
    - rewrite E in Hpos. cbn in Hpos. lia.
    - done.
    - rewrite length_app in Hlt. lia. }
  change (samples_bytes [] ++ ?x) with x in *. assert (ps = []) as ->; [|done].
  destruct ps as [|p ps]; [done|]. apply Forall_cons in Hk as [[Hok _ _ _ _] _]. pose proof (th_image_length _ Hok) as Hl. pose proof th_max_pos.
  rewrite stream_bytes_cons in Hst. destruct Hst as [[E _]%app_eq_nil|[_ [[_ Hlt]|(y & l' & ? & _)]]]; [|rewrite length_app in Hlt; lia|done].
  rewrite E in Hl. cbn in Hl. lia.
Qed.

Lemma feed_ok cs : forall s cur l ps bs total,
  at_pos s cur l ps -> (stranded s = false -> idle s bs) -> buffered (receive_buffers_ s) = length bs -> stuck cur l bs ->
  bs ++ concat cs `prefix_of` ahead cur l ps -> fits cs s = true -> slog s ++ due s cur l ps = total ->
  exists s' cur' l' ps' bs', feed cs s = Ret (replicate (length cs) 0, s') /\ at_pos s' cur' l' ps' /\ stuck cur' l' bs' /\
    buffered (receive_buffers_ s') = length bs' /\ slog s' ++ due s' cur' l' ps' = total /\
    exists c, bs ++ concat cs = c ++ bs' /\ ahead cur l ps = c ++ ahead cur' l' ps'.
Proof.
  induction cs as [|c cs IH]; intros s cur l ps bs total Hp Hi Hb Hst Hpre Hf Ht.
  { exists s, cur, l, ps, bs. split_and!; try done. exists []. by rewrite app_nil_r. }
  cbn [fits] in Hf. destruct (handle_dds_input (Some c) s) as [[code s1]| | |] eqn:Eh;
    rewrite !andb_true_iff, !negb_true_iff, bool_decide_eq_false, Nat.leb_le in Hf; destruct Hf as (((Hne & Hroom) & Hns) & Hf).
  all: cbn [concat] in Hpre; rewrite (assoc_L (++)) in Hpre.
  all: destruct (handle_ok s cur l ps bs c Hp (Hi Hns)) as (s1' & cur1 & l1 & ps1 & bs1 & E & Hp1 & Hh1 & Hm & Hst1);
    [by eapply prefix_app_l|done|done|]; rewrite Eh in E; try done.
  injection E as -> ->. destruct Hm as (d & E1 & E2 & E3). cbn [feed concat]. rewrite Eh. cbn [mbind outcome_bind].
  rewrite E2, E1, <- (assoc_L (++)) in Hpre. apply prefix_app_inv in Hpre.
  destruct (IH s1' cur1 l1 ps1 bs1 total Hp1) as (s2 & cur2 & l2 & ps2 & bs2 & -> & Hp2 & Hst2 & Hb2 & Ht2 & e & F1 & F2); try done.
  - intros Hns1. left. split; [done|]. by apply not_stranded.
  - by apply buffered_holds.
  - congruence.
  - exists s2, cur2, l2, ps2, bs2. split_and!; try done.
    exists (d ++ e). rewrite (assoc_L (++) bs), E1, <- !(assoc_L (++)), F1, E2, F2. done.
Qed.

Lemma new_at_pos th dsh x ps : Forall packet_ok ps -> th_held th -> th_last_fragment th = false -> hook_ok x ->
  at_pos (new_receive_strategy th dsh x) None [] ps.
Proof. intros. split; cbn; auto; done. Qed.

Lemma new_idle th dsh x : idle (new_receive_strategy th dsh x : State) [].
Proof. right. done. Qed.

Lemma new_buffered (th : TH) (dsh : DSH) (x : X) : buffered (receive_buffers_ (new_receive_strategy th dsh x)) = 0%nat.
Proof. unfold buffered, new_receive_strategy. cbn [receive_buffers_]. generalize RECEIVE_BUFFERS as n. induction n as [|n IH]; [done|exact IH]. Qed.

(** Reads that together are the beginning of a stream of packets. *)
Lemma stream_received ps cs th dsh x :
  Forall packet_ok ps -> th_held th -> th_last_fragment th = false -> hook_ok x ->
  concat cs `prefix_of` stream_bytes ps -> fits cs (new_receive_strategy th dsh x) = true ->
  exists s', feed cs (new_receive_strategy th dsh x) = Ret (replicate (length cs) 0, s') /\
    slog s' `prefix_of` hook_log x ++ deliveries dsh (concat ps.*2) /\
    (concat cs = stream_bytes ps ->
       slog s' = hook_log x ++ deliveries dsh (concat ps.*2) /\ buffered (receive_buffers_ s') = 0%nat).
Proof.
  intros Hps Hth Hlast Hx Hpre Hf.
  destruct (feed_ok cs (new_receive_strategy th dsh x) None [] ps [] (hook_log x ++ deliveries dsh (concat ps.*2)))
    as (s' & cur & l & ps' & bs & Hfeed & Hp & Hst & Hb & Ht & c & E1 & E2).
  - by apply new_at_pos.
  - intros _. apply new_idle.
  - apply new_buffered.
  - by left.
  - done.
  - done.
  - done.
  - exists s'. split_and!; [done|rewrite <- Ht; by eexists|]. intros E. change (concat cs = c ++ bs) in E1. change (stream_bytes ps = c ++ ahead cur l ps') in E2.
    rewrite E, E2 in E1. apply app_inv_head in E1.
    destruct (stuck_done s' cur l ps' bs Hp Hst (eq_sym E1)) as [Hd ->]. by rewrite <- Ht, Hd, app_nil_r.
Qed.
End delivery.

(** ** The DCPS headers *)

Section dcps.
Context {MB : Type} {MB0 : MessageBlock MB} {MB1 : MessageBlockLaws MB} {GM0 : GuidMarshal MB} {GM1 : GuidMarshalLaws MB}.

Lemma rd0_chain (T : list MB) (ser : Serializer MB) sw strm : rd0 T ser sw strm ->
  exists k, ser_done ser ++ ser_cur ser = consume k T /\ chain_bytes (consume k T) = strm.
Proof.
  intros Hr. destruct (rd0_from _ _ _ _ Hr) as [k Hk]. exists k. split; [done|].
  rewrite <- Hk, chain_bytes_app, (rd0_drained _ _ _ _ Hr). apply Hr.
Qed.

Lemma prefix_is_take (l1 l2 : list Z) : l1 `prefix_of` l2 -> l1 = take (length l1) l2 /\ (length l1 <= length l2)%nat.
Proof. intros [k ->]. rewrite take_app_length, length_app. split; [done|lia]. Qed.

#[export] Program Instance dcps_header_laws : ReceiveHeaderLaws MB TransportHeader DataSampleHeader := {|
  th_ok := transport_ok;
  th_held h := length (protocol_ h) = 6%nat;
  th_image := transport_bytes;
  dsh_ok := header_ok;
  dsh_image := header_bytes;
  dsh_got := received;
  dsh_view h := h |}.
Next Obligation. cbn. unfold transport_max_marshaled_size. lia. Qed.
Next Obligation. intros h Hok. apply transport_bytes_length, Hok. Qed.
Next Obligation.
  intros h old c rest Hok Hold Hc. cbn [th_assign dcps_headers]. destruct (transport_init_ok h old c rest Hok Hold Hc) as (ser & -> & Hr).
  destruct (rd0_chain _ _ _ _ Hr) as (k & Hk & Hb). exists k. cbn [mbind outcome_bind]. by rewrite Hk.
Qed.
Next Obligation. intros h Hok. apply Hok. Qed.
Next Obligation. intros h Hok. apply Hok. Qed.
Next Obligation. done. Qed.
Next Obligation. done. Qed.
Next Obligation. done. Qed.
Next Obligation. done. Qed.
Next Obligation. done. Qed.
Next Obligation. intros h _. unfold header_bytes, fixed_bytes. rewrite !length_app. cbn [length]. lia. Qed.
Next Obligation.
  intros h c rest Hok Hpre. destruct (prefix_is_take _ _ Hpre) as [Ht Hl]. by apply (partial_ok h c rest).
Qed.
Next Obligation.
  intros h old n c rest Hok Hc. cbn [dsh_assign dsh_pdu_remaining dcps_headers]. destruct (init_ok h old c rest Hok Hc eq_refl) as (ser & -> & Hr).
  destruct (rd0_chain _ _ _ _ Hr) as (k & Hk & Hb). exists k. cbn [mbind outcome_bind]. by rewrite Hk.
Qed.
Next Obligation. done. Qed.
Next Obligation. done. Qed.
Next Obligation. done. Qed.
Next Obligation. done. Qed.
End dcps.

(** ** Tcp and udp *)

(** A call on the data link, with the bytes of the sample. *)
Definition call_view {MB} `{MessageBlock MB} (c : LinkCall MB) : MessageId * option (DataSampleHeader * list Z) :=
  let bytes rds := Some (header_ rds, chain_bytes (default [] (sample_ rds))) in
  match c with
  | DataReceived rds => (SAMPLE_DATA, bytes rds)
  | AckReceived rds => (SAMPLE_ACK, bytes rds)
  | ControlReceived rds => (TRANSPORT_CONTROL, bytes rds)
  | Relink => (GRACEFUL_DISCONNECT, None)
  end.
Definition tcp_event (h : DataSampleHeader) (p : list Z) : list (MessageId * option (DataSampleHeader * list Z)) :=
  if message_id_ h =? id_GRACEFUL_DISCONNECT then []
  else [(if message_id_ h =? id_SAMPLE_ACK then SAMPLE_ACK else SAMPLE_DATA, Some (h, p))].
Definition udp_event (h : DataSampleHeader) (p : list Z) : list (MessageId * option (DataSampleHeader * list Z)) :=
  [(if message_id_ h =? id_SAMPLE_ACK then SAMPLE_ACK
    else if message_id_ h =? id_TRANSPORT_CONTROL then TRANSPORT_CONTROL else SAMPLE_DATA, Some (h, p))].

Section hooks.
Context {MB : Type} {MB0 : MessageBlock MB}.

#[export] Program Instance tcp_accepting : AcceptingHooks MB TransportHeader DataSampleHeader (list (LinkCall MB)) := {|
  call := MessageId * option (DataSampleHeader * list Z);
  hook_ok _ := True;
  hook_log := fmap call_view;
  event := tcp_event |}.
Next Obligation. intros th x _. by exists x. Qed.
Next Obligation. intros h x _. by exists x. Qed.
Next Obligation.
  intros rds g x _. cbn. unfold tcp_deliver_sample, tcp_event. split; [done|].
  destruct (_ =? id_GRACEFUL_DISCONNECT); [by rewrite app_nil_r|]. by destruct (_ =? id_SAMPLE_ACK); cbn; rewrite fmap_app.
Qed.

Context {Addr : Type} `{Countable Addr}.

(** [expected_] is never assigned. *)
#[export] Program Instance udp_accepting : AcceptingHooks MB TransportHeader DataSampleHeader (UdpState MB Addr) := {|
  call := MessageId * option (DataSampleHeader * list Z);
  hook_ok u := expected_ u = SEQUENCENUMBER_UNKNOWN /\ is_Some (remote_address_ u);
  hook_log u := call_view <$> udp_log u;
  event := udp_event |}.
Next Obligation.
  intros th u [He [a Ha]]. cbn. unfold udp_check_header. rewrite Ha, He. cbn [mbind outcome_bind deref].
  destruct (reassembly_info u a) as [tr sn].
  assert (negb (sn_eq SEQUENCENUMBER_UNKNOWN SEQUENCENUMBER_UNKNOWN) = false) as -> by done.
  rewrite andb_false_r. cbn [mbind outcome_bind]. eexists. split; [done|]. cbn. eauto.
Qed.
Next Obligation. intros h u Hu. by exists u. Qed.
Next Obligation.
  intros rds g u Hu. cbn. unfold udp_event. split; [done|]. rewrite fmap_app.
  by destruct (message_id_ (header_ rds) =? id_SAMPLE_ACK), (message_id_ (header_ rds) =? id_TRANSPORT_CONTROL).
Qed.
End hooks.
End ReceiveDelivery.
Export ReceiveDelivery.
