(* ===== verification/ReceiveProps.v ===== *)
(** * Receiving: theorems

    Delivery over tcp, and what happens when data is left behind a drained
    buffer, when a sample is rejected, when a sample does not fit its packet,
    and when datagrams are lost. *)

From S2P Require Import Prelude MessageBlock SequenceNumber Serializer DataSampleHeader TransportReassembly TransportHeader TransportReceiveStrategy ReceiveStrategies ReceiveBuffers ReceiveDerived ReceiveDelivery.

Module ReceiveProps.

Section tcp.
Context {MB : Type} {MB0 : MessageBlock MB} {MB1 : MessageBlockLaws MB} {GM0 : GuidMarshal MB} {GM1 : GuidMarshalLaws MB}
  {SZ : ReceiveSizes}.

(** A new tcp strategy. *)
Definition tcp_new : ReceiveStrategy MB TransportHeader DataSampleHeader (list (LinkCall MB)) :=
  new_receive_strategy default_transport_header default_header [].

(** The calls on the data link for samples received in this order. *)
Definition tcp_calls (l : list (DataSampleHeader * list Z)) : list (MessageId * option (DataSampleHeader * list Z)) :=
  deliveries (KL:=tcp_accepting) default_header l.

(** C2: Any way of cutting a stream of packets into reads gives the same
    deliveries.  The reads [cs] are together a beginning of the packets [ps];
    every call of [handle_dds_input] answers 0, what was passed to the data link
    so far is a beginning of the samples of the packets, whole and in order, and
    when all bytes have come it is all of them and no byte is left.  The reads
    must be non-empty, have room in the buffers, and not find data stranded
    behind a drained buffer. *)
Theorem tcp_stream_delivered ps cs :
  (2 <= RECEIVE_BUFFERS)%nat -> (1 <= BUFFER_LOW_WATER)%nat -> (1 <= RECEIVE_DATA_BUFFER_SIZE)%nat ->
  Forall packet_ok ps -> concat cs `prefix_of` stream_bytes ps -> fits cs tcp_new = true ->
  exists s, feed cs tcp_new = Ret (replicate (length cs) 0, s) /\
    (call_view <$> derived_ s) `prefix_of` tcp_calls (concat ps.*2) /\
    (concat cs = stream_bytes ps ->
       call_view <$> derived_ s = tcp_calls (concat ps.*2) /\ buffered (receive_buffers_ s) = 0%nat).
Proof.
  intros H1 H2 H3 Hps Hpre Hf.
  exact (stream_received H1 H2 H3 ps cs default_transport_header default_header [] Hps eq_refl eq_refl I Hpre Hf).
Qed.
End tcp.

(** ** Packets for the examples *)

Module Example.
#[export] Instance sizes : ReceiveSizes := {| RECEIVE_BUFFERS := 3; BUFFER_LOW_WATER := 16; RECEIVE_DATA_BUFFER_SIZE := 120 |}.
Definition header (id : Z) (n : nat) : DataSampleHeader := set_id (set_length default_header (Z.of_nat n)) id.
Definition sample (id : Z) (n : nat) (x : Z) : DataSampleHeader * list Z := (header id n, replicate n x).
Definition packet (len : Z) (l : list (DataSampleHeader * list Z)) : TransportHeader * list (DataSampleHeader * list Z) :=
  (set_packet_length default_transport_header len, l).
Definition bytes (ps : list (TransportHeader * list (DataSampleHeader * list Z))) : list Z := stream_bytes (MB:=block) ps.
(** Two packets of 110 and 73 bytes; the header of the second one crosses the
    end of the first buffer. *)
Definition ps : list (TransportHeader * list (DataSampleHeader * list Z)) :=
  [packet 86 [sample 0 46 1]; packet 49 [sample 0 9 2]].
End Example.
Import Example.

Lemma example_packets_ok : Forall (packet_ok (MB:=block)) ps.
Proof.
  assert (forall n x, (n < 100)%nat -> sample_ok (MB:=block) (sample 0 n x)) as Hs.
  { intros n x Hn. split; cbn; [|by rewrite length_replicate|done].
    split; cbn; try done; unfold is_u; change (2 ^ 32) with 4294967296; lia. }
  repeat constructor; try (by vm_compute); apply Hs; lia.
Qed.

(** The two packets in two reads, the first of which ends in the header of the
    first sample of a packet that starts in the first buffer. *)
Lemma tcp_stream_delivered_witness : exists s, feed [take 60 (bytes ps); drop 60 (bytes ps)] (tcp_new (MB:=block)) = Ret ([0; 0], s) /\
  call_view <$> derived_ s = tcp_calls (MB:=block) [sample 0 46 1; sample 0 9 2].
Proof.
  destruct (tcp_stream_delivered (MB:=block) ps [take 60 (bytes ps); drop 60 (bytes ps)]) as (s & E & _ & H).
  - cbn. lia.
  - cbn. lia.
  - cbn. lia.
  - exact example_packets_ok.
  - exists []. by vm_compute.
  - by vm_compute.
  - exists s. split; [exact E|]. apply H. by vm_compute.
Defined.

(** ** What goes wrong *)

(** The calls on the data link: their kind, the message id and the length of the
    data. *)
Definition calls_of (l : list (LinkCall block)) : list (MessageId * option (Z * nat)) :=
  (fun c => (c.1, (fun p => (message_id_ p.1, length p.2)) <$> c.2)) <$> (call_view <$> l).

(** Data behind a drained buffer is overtaken.  The second of two good packets
    starts at the end of a buffer, and a read ends in the header of its sample:
    the call returns with the current buffer drained and the beginning of that
    header in the next one.  The next call replaces the drained buffer by an
    empty one in front of that data and reads the rest of the stream into it.
    Every call answers 0 and nothing stays buffered, but the sample is never
    delivered; in one read it is. *)
Theorem stranded_sample_lost : exists s1 s2 s,
  handle_dds_input (Some (take 140 (bytes ps))) (tcp_new (MB:=block)) = Ret (0, s1) /\ stranded s1 = true /\
  (length (drop 140 (bytes ps)) <= room s1)%nat /\
  handle_dds_input (Some (drop 140 (bytes ps))) s1 = Ret (0, s2) /\
  calls_of (derived_ s2) = [(SAMPLE_DATA, Some (0, 46%nat))] /\ buffered (receive_buffers_ s2) = 0%nat /\
  handle_dds_input (Some (bytes ps)) (tcp_new (MB:=block)) = Ret (0, s) /\
  calls_of (derived_ s) = [(SAMPLE_DATA, Some (0, 46%nat)); (SAMPLE_DATA, Some (0, 9%nat))].
Proof.
  eexists _, _, _. split; [vm_compute; reflexivity|]. split; [by vm_compute|]. split; [vm_compute; lia|].
  split; [vm_compute; reflexivity|]. split; [by vm_compute|]. split; [by vm_compute|].
  split; [vm_compute; reflexivity|]. by vm_compute.
Qed.

(** A chain of buffers that stays among linked buffers has no end. *)
Lemma chain_never_ends {MB} (bufs : list (option (MB * option nat))) (P : nat -> Prop) :
  (forall i, P i -> exists w j, bufs !! i = Some (Some (w, Some j)) /\ P j) ->
  forall fuel i, P i -> chain_from fuel bufs i = Fuel.
Proof.
  intros HP. induction fuel as [|fuel IH]; intros i Hi; [done|]. cbn [chain_from].
  destruct (HP i Hi) as (w & j & Hw & Hj). unfold slot_at. rewrite Hw. cbn [mbind outcome_bind deref]. by rewrite IH.
Qed.

(** After that the strategy hangs.  The replaced buffer keeps its link to the
    next one although [buffer_index_] has passed it, so the next call links the
    ring in a circle: [total_length()], which it then calls, never comes to the
    end of the chain. *)
Theorem stranded_ring_is_cyclic : exists s1 s2 s3,
  handle_dds_input (Some (take 140 (bytes ps))) (tcp_new (MB:=block)) = Ret (0, s1) /\
  handle_dds_input (Some (drop 140 (bytes ps))) s1 = Ret (0, s2) /\
  pdu_remaining_ s2 = 0 /\ prepare s2 = Ret s3 /\
  forall fuel, chain_from fuel (receive_buffers_ s3) (buffer_index_ s3) = Fuel.
Proof.
  eexists _, _, _. split; [vm_compute; reflexivity|]. split; [vm_compute; reflexivity|]. split; [by vm_compute|].
  split; [vm_compute; reflexivity|]. intros fuel. apply (chain_never_ends _ (fun i => (i < 3)%nat)); [|cbn; lia].
  intros i Hi. do 3 (destruct i as [|i]; [eexists _, _; split; [vm_compute; reflexivity|lia]|]). lia.
Qed.

(** A sample longer than its packet stops the link.  [pdu_remaining_] is
    unsigned and nothing compares it with the length of the sample: it wraps
    around, the bytes that follow are taken for samples of the same packet, and
    the next packets are never looked at although every call answers 0. *)
Theorem oversized_sample_stops_link : exists s,
  feed [bytes [packet 50 [sample 0 30 1]; packet 49 [sample 0 9 2]]; bytes [packet 49 [sample 0 9 3]]] (tcp_new (MB:=block)) = Ret ([0; 0], s) /\
  calls_of (derived_ s) = [(SAMPLE_DATA, Some (0, 30%nat))] /\ pdu_remaining_ s = 2 ^ 64 - 20 /\
  buffered (receive_buffers_ s) = length (bytes [packet 49 [sample 0 9 2]; packet 49 [sample 0 9 3]]).
Proof. eexists. split; [vm_compute; reflexivity|]. by vm_compute. Qed.

(** A derived class that rejects samples of one kind, as multicast rejects those
    of an unknown session. *)
Record Selective := mkSelective { sel_log : list (LinkCall block) }.
#[export] Instance selective_hooks : ReceiveHooks block TransportHeader DataSampleHeader Selective := {
  check_transport_header _ x := Ret (true, x);
  check_sample_header h x := (negb (message_id_ h =? 2), x);
  hook_reassemble _ _ x := Ret (None, x);
  deliver_sample rds g x := (g, mkSelective (sel_log x ++ [DataReceived rds]));
  relink x := x }.

(** A rejected sample is delivered.  When [check_header] rejects the header of
    a sample, the rest of the packet is skipped; but if another packet follows in
    the buffers the round goes on and hands the rejected header over, with no
    data.  When nothing follows it is not handed over. *)
Theorem rejected_sample_delivered : exists s s',
  feed [bytes [packet 98 [sample 2 9 1; sample 0 9 2]; packet 49 [sample 0 9 3]]]
    (new_receive_strategy default_transport_header default_header (mkSelective [])) = Ret ([0], s) /\
  calls_of (sel_log (derived_ s)) = [(SAMPLE_DATA, Some (2, 0%nat)); (SAMPLE_DATA, Some (0, 9%nat))] /\
  feed [bytes [packet 98 [sample 2 9 1; sample 0 9 2]]; bytes [packet 49 [sample 0 9 3]]]
    (new_receive_strategy default_transport_header default_header (mkSelective [])) = Ret ([0; 0], s') /\
  calls_of (sel_log (derived_ s')) = [(SAMPLE_DATA, Some (0, 9%nat))].
Proof. eexists _, _. split; [vm_compute; reflexivity|]. split; [by vm_compute|]. split; [vm_compute; reflexivity|]. by vm_compute. Qed.

(** ** Lost datagrams *)

Section udp.
Context {MB Addr : Type} `{Countable Addr} {MB0 : MessageBlock MB} {GM0 : GuidMarshal MB} {SZ : ReceiveSizes}.
Abbreviation UdpStrategy := (ReceiveStrategy MB TransportHeader DataSampleHeader (UdpState MB Addr)).

Definition udp_new : UdpStrategy := new_receive_strategy default_transport_header default_header new_udp.

(** The datagrams that arrive, with their senders. *)
Fixpoint udp_run (l : list (Addr * list Z)) (s : UdpStrategy) : outcome UdpStrategy :=
  match l with
  | [] => Ret s
  | (a, bytes) :: l => '(_, s) ← udp_handle_input a (Some bytes) s; udp_run l s
  end.

Definition never_expects (u : UdpState MB Addr) : Prop := expected_ u = SEQUENCENUMBER_UNKNOWN.

Lemma udp_handle_expects a input (s : UdpStrategy) c s' :
  never_expects (derived_ s) -> udp_handle_input a input s = Ret (c, s') -> never_expects (derived_ s').
Proof.
  intros Hs. unfold udp_handle_input. apply handle_keeps; try done.
  - intros th u b u'. cbn. unfold udp_check_header. intros (addr & _ & E)%outcome_bind_Ret.
    destruct (reassembly_info u addr). apply outcome_bind_Ret in E as (tr & _ & E). by injection E as _ <-.
  - intros th rds u r u'. cbn. unfold udp_reassemble. intros (addr & _ & E)%outcome_bind_Ret.
    destruct (reassembly_info u addr) as [tr sn]. destruct (reassemble tr _ _ rds). by injection E as _ <-.
  - by destruct s.
Qed.

Lemma udp_run_expects l : forall (s s' : UdpStrategy), never_expects (derived_ s) -> udp_run l s = Ret s' -> never_expects (derived_ s').
Proof.
  induction l as [|[a bytes] l IH]; intros s s' Hs E; cbn [udp_run] in E; [by injection E as <-|].
  apply outcome_bind_Ret in E as ([c s1] & E1 & E). eapply IH; [|exact E]. by eapply udp_handle_expects.
Qed.

(** The udp transport never notices a lost datagram.  [check_header] is to
    tell the reassembly which packets are missing when the sequence number of a
    packet is not the one it expects, but only if [expected_] is known, and no
    operation ever assigns [expected_]: after any datagrams, whatever sequence
    number comes next, the fragments held for the sender stay as they are. *)
Theorem udp_loss_unnoticed (l : list (Addr * list Z)) (s : UdpStrategy) (h : TransportHeader) (a : Addr) :
  udp_run l udp_new = Ret s -> let u := derived_ s in
  exists u', udp_check_header h (mkUdp (expected_ u) (Some a) (reassembly_ u) (udp_log u)) = Ret (true, u') /\
    reassembly_ u' !! a = Some ((reassembly_info u a).1, next (th_sequence_ h)).
Proof.
  intros E u. assert (expected_ u = SEQUENCENUMBER_UNKNOWN) as Hu by (by apply (udp_run_expects l udp_new s)).
  unfold udp_check_header. cbn [remote_address_ deref mbind outcome_bind expected_]. rewrite Hu.
  unfold reassembly_info. cbn [reassembly_]. destruct (default _ _) as [tr sn] eqn:Ed.
  assert (negb (sn_eq SEQUENCENUMBER_UNKNOWN SEQUENCENUMBER_UNKNOWN) = false) as -> by done.
  rewrite andb_false_r. cbn [mbind outcome_bind]. eexists. split; [done|]. cbn [reassembly_]. by rewrite lookup_insert_eq.
Qed.
End udp.

(** The first fragment of a message, the second of which is lost: packet 1
    arrives, then packet 3. *)
Definition fragment_packet (seq : Z) (frag : bool) : list Z :=
  let h := set_more_fragments (header 0 4) frag in
  let th := mkTH DCPS_PROTOCOL true frag false 0 44 (of_value seq) 0 in
  transport_bytes th ++ header_bytes h ++ [1; 2; 3; 4].

Lemma udp_loss_unnoticed_witness : exists s u',
  udp_run [(7%nat, fragment_packet 1 true)] (udp_new (MB:=block)) = Ret s /\
  length (map_to_list (fragments_ (reassembly_info (derived_ s) 7%nat).1)) = 1%nat /\
  udp_check_header (mkTH DCPS_PROTOCOL true false false 0 44 (of_value 3) 0)
    (mkUdp (expected_ (derived_ s)) (Some 7%nat) (reassembly_ (derived_ s)) (udp_log (derived_ s))) = Ret (true, u') /\
  reassembly_ u' !! 7%nat = Some ((reassembly_info (derived_ s) 7%nat).1, of_value 4).
Proof.
  assert (exists s, udp_run [(7%nat, fragment_packet 1 true)] (udp_new (MB:=block)) = Ret s /\
    length (map_to_list (fragments_ (reassembly_info (derived_ s) 7%nat).1)) = 1%nat) as (s & E & Hl).
  { eexists. split; [vm_compute; reflexivity|]. by vm_compute. }
  destruct (udp_loss_unnoticed [(7%nat, fragment_packet 1 true)] s (mkTH DCPS_PROTOCOL true false false 0 44 (of_value 3) 0) 7%nat E)
    as (u' & E1 & E2).
  exists s, u'. split; [exact E|]. split; [exact Hl|]. split; [exact E1|exact E2].
Defined.
End ReceiveProps.
Export ReceiveProps.
