(* ===== verification/Transfer.v ===== *)
(** * From the sender to the receiver

    The bytes that the send strategy puts on a tcp connection are packets of the
    samples it was given; read in any pieces by the receive strategy of the peer
    they are those samples again.  The packet header of the sender
    (TransportSendStrategy) is marshaled by [operator<<] of TransportHeader. *)

From S2P Require Import Prelude MessageBlock SequenceNumber Serializer DataSampleHeader TransportReassembly TransportHeader TransportReceiveStrategy ReceiveStrategies ReceiveBuffers ReceiveDelivery ReceiveProps TransportSendStrategy TransportSendProps.

Module Transfer.

Abbreviation SendHeader := TransportSendStrategy.TransportHeader.
Abbreviation ReceiveState MB := (TransportReceiveStrategy.ReceiveStrategy MB TransportHeader.TransportHeader DataSampleHeader (list (LinkCall MB))).

(** The header object of the sender: the members that do not change are those of
    the constructor. *)
Definition packet_header (h : SendHeader) : TransportHeader.TransportHeader :=
  TransportHeader.mkTH DCPS_PROTOCOL ACE_CDR_BYTE_ORDER (TransportSendStrategy.first_fragment_ h) (TransportSendStrategy.last_fragment_ h)
    0 (TransportSendStrategy.length_ h) (TransportSendStrategy.sequence_ h) 0.

Section transfer.
Context {MB : Type} {MB0 : MessageBlock MB} {MB1 : MessageBlockLaws MB} {GM0 : GuidMarshal MB} {GM1 : GuidMarshalLaws MB}
  {SZ : ReceiveSizes} (cfg : SendConfig) {TP : Transport MB} {ST : StreamTransport MB TP cfg} (CO : config_ok cfg).

(** [*header_block_ << header_]: the block has what [operator<<] writes into a
    fresh block of the size of a header. *)
Hypothesis Hmarshal : forall h, transport_ok (packet_header h) ->
  exists ser, write_transport_header [mb_new transport_max_marshaled_size] (packet_header h) = Ret ser /\
    chain_bytes (ser_done ser ++ ser_cur ser) = mb_bytes (header_block_of h).

Lemma header_image h : transport_ok (packet_header h) -> mb_bytes (header_block_of h) = transport_bytes (packet_header h).
Proof.
  intros Hok. destruct (Hmarshal h Hok) as (ser & E & <-).
  destruct (write_transport_header_ok (packet_header h) [mb_new transport_max_marshaled_size] Hok eq_refl) as (ser' & E' & Hw).
  - constructor; [apply mb_new_bytes|constructor].
  - constructor; [apply mb_new_off|constructor].
  - rewrite chain_space_cons, mb_new_space. lia.
  - rewrite E in E'. injection E' as <-. apply Hw.
Qed.

(** An element is the image of a header and the data of a sample. *)
Definition carries (e : QueueElement MB) (x : DataSampleHeader * list Z) : Prop :=
  el_bytes e = sample_bytes (MB:=MB) x /\ sample_ok (MB:=MB) x.

Lemma carried_bytes l xs : Forall2 carries l xs -> concat (el_bytes <$> l) = samples_bytes (MB:=MB) xs /\
  lengths l = Z.of_nat (length (samples_bytes (MB:=MB) xs)) /\ Forall (sample_ok (MB:=MB)) xs.
Proof.
  induction 1 as [|e x l xs [He Hx] _ (IH1 & IH2 & IH3)]; [by split_and!|].
  change (samples_bytes (x :: xs)) with (sample_bytes (MB:=MB) x ++ samples_bytes (MB:=MB) xs).
  rewrite fmap_cons. cbn [concat lengths foldr]. fold (lengths l). rewrite He, IH1, IH2, length_app. split_and!; [done| |by constructor].
  unfold el_length, total_length, el_bytes in *. rewrite He. lia.
Qed.

Lemma seqs_valid n : forall q, sn_valid q -> Forall sn_valid (seqs_from q n).
Proof. induction n as [|n IH]; intros q Hq; constructor; auto using next_valid. Qed.

(** The packet of a sender, as the receiver sees it. *)
Lemma packet_received p xs : pk_ok cfg p -> sn_valid (TransportSendStrategy.sequence_ (pk_header p)) -> Forall2 carries (pk_elems p) xs ->
  let q := (packet_header (pk_header p), xs) in ReceiveDelivery.packet_ok (MB:=MB) q /\ pk_bytes p = packet_bytes (MB:=MB) q.
Proof.
  intros [P1 P2 P3 P4 P5 P6] Hsn Hc q. destruct (carried_bytes _ _ Hc) as (Hb & Hl & Hs). destruct CO as [c1 c2 c3 c4].
  assert (transport_ok (packet_header (pk_header p))) as Hok.
  { unfold pk_bytes in P4. rewrite length_app, Hb in P4. split; cbn; [done|unfold is_u; cbn; lia| |by apply sn_valid_ok|unfold is_s; cbn; lia].
    rewrite P3, Hl. unfold is_u. lia. }
  split.
  - split; cbn; [done|done|done| |done]. by rewrite P3, Hl.
  - unfold pk_bytes, packet_bytes. by rewrite header_image, Hb.
Qed.

Lemma packets_received pkts : forall xs, Forall (pk_ok cfg) pkts -> Forall (fun p => sn_valid (TransportSendStrategy.sequence_ (pk_header p))) pkts ->
  Forall2 carries (concat (pk_elems <$> pkts)) xs ->
  exists ps, Forall (ReceiveDelivery.packet_ok (MB:=MB)) ps /\ stream_bytes (MB:=MB) ps = concat (pk_bytes <$> pkts) /\ concat ps.*2 = xs.
Proof.
  induction pkts as [|p pkts IH]; intros xs Hp Hs Hc.
  { apply Forall2_nil_inv_l in Hc as ->. by exists []. }
  apply Forall_cons in Hp as [Hp1 Hp], Hs as [Hs1 Hs]. rewrite fmap_cons in Hc. cbn [concat] in Hc.
  apply Forall2_app_inv_l in Hc as (xs1 & xs2 & Hc1 & Hc2 & ->).
  destruct (packet_received p xs1 Hp1 Hs1 Hc1) as [Hq Hb]. destruct (IH xs2 Hp Hs Hc2) as (ps & H1 & H2 & <-).
  exists ((packet_header (pk_header p), xs1) :: ps). split_and!; [by constructor| |done].
  rewrite fmap_cons. cbn [concat]. rewrite Hb, <- H2. done.
Qed.

Lemma deliveries_prefix (l1 l2 : list (DataSampleHeader * list Z)) : forall old,
  deliveries (MB:=MB) (KL:=tcp_accepting) old l1 `prefix_of` deliveries (MB:=MB) (KL:=tcp_accepting) old (l1 ++ l2).
Proof.
  induction l1 as [|[h p] l1 IH]; intros old; [apply prefix_nil|]. cbn [app deliveries]. apply prefix_app, IH.
Qed.

(** C1: What goes in comes out, for a transport that does not fragment.  The sender
    is given elements that carry the samples [xs] (no empty block, a last block of
    their own), by any sequence of operations on a connection that is not lost but
    blocks and takes bytes as it likes; the receiver reads the bytes on the wire
    in pieces [cs], none empty, each with room for it, and none read while data
    waits behind a drained buffer ([fits]; see [stranded_sample_lost]).
    What the receiver passes to its data link is a beginning of [xs], each sample
    whole and in order; and when the sender has nothing left to send and all
    bytes have been read, it is all of [xs]. *)
Theorem samples_transferred ops net s xs cs :
  (2 <= RECEIVE_BUFFERS)%nat -> (1 <= BUFFER_LOW_WATER)%nat -> (1 <= RECEIVE_DATA_BUFFER_SIZE)%nat ->
  Forall op_ok ops -> net_ok net -> srun cfg ops (TransportSendProps.new_strategy net) = Ret s ->
  Forall2 carries (accepted cfg ops) xs -> concat cs `prefix_of` wire_ s -> ReceiveDelivery.fits cs (tcp_new (MB:=MB)) = true ->
  exists r, feed cs (tcp_new (MB:=MB)) = Ret (replicate (length cs) 0, r) /\
    (call_view <$> derived_ r) `prefix_of` tcp_calls (MB:=MB) xs /\
    (elems_ s = [] -> queue_ s = [] -> concat cs = wire_ s ->
       call_view <$> derived_ r = tcp_calls (MB:=MB) xs /\ buffered (receive_buffers_ r) = 0%nat).
Proof.
  intros H1 H2 H3 Ho Hn Hrun Hxs Hcs Hfits.
  destruct (srun_inv cfg CO ops _ [] _ (new_strategy_inv cfg CO net Hn) Ho) as (s0 & E0 & d & pkts & I). rewrite Hrun in E0. injection E0 as <-.
  assert (exists prep, core cfg (of_value MIN_VALUE) (accepted cfg ops) prep s d pkts /\ (exists rest, elems_ s ++ queue_ s = prep ++ rest) /\
    (elems_ s = [] -> chain_bytes (pkt_chain_ s) = [])) as (prep & [A G T1 T2 P S W Q1 Q2 N R] & [rest Hrest] & Hdone).
  { destruct I as [(Hm & C & D)|(Hm & C & Hp)]; [exists []|exists (elems_ s)]; (split; [exact C|]).
    - split; [by eexists|]. intros _. by rewrite (rd_chain _ _ (do_ready _ _ D)).
    - split; [by eexists|]. intros He. by destruct (packet_empty s Hp He) as [-> _]. }
  rewrite A, Hrest, (assoc_L (++)), <- S in Hxs. apply Forall2_app_inv_l in Hxs as (xs1 & xs2 & Hx1 & Hx2 & ->).
  assert (Forall (fun p => sn_valid (TransportSendStrategy.sequence_ (pk_header p))) pkts) as Hsn.
  { assert (Forall sn_valid ((fun p => TransportSendStrategy.sequence_ (pk_header p)) <$> pkts)) as Hf
      by (rewrite Q1; by apply seqs_valid, of_value_valid). by rewrite Forall_fmap in Hf. }
  destruct (packets_received pkts xs1 P Hsn Hx1) as (ps & Hps & Hstream & <-).
  assert (concat cs `prefix_of` stream_bytes (MB:=MB) ps) as Hpre by (rewrite Hstream, <- W; by apply prefix_app_r).
  destruct (stream_received (KL:=tcp_accepting (MB:=MB)) H1 H2 H3 ps cs default_transport_header default_header [] Hps eq_refl eq_refl Logic.I Hpre Hfits)
    as (r & Hfeed & Hlog & Hall).
  exists r. split_and!; [done|etrans; [exact Hlog|apply deliveries_prefix]|].
  intros He Hq Hc. destruct Hall as [Hl Hb].
  - rewrite Hstream, <- W, Hdone, app_nil_r by done. done.
  - split; [|done]. etrans; [exact Hl|]. rewrite He, Hq in Hrest. symmetry in Hrest. apply app_eq_nil in Hrest as [_ ->].
    apply Forall2_nil_inv_l in Hx2 as ->. by rewrite app_nil_r.
Qed.
End transfer.

(** ** A run *)

Module Example.
#[export] Instance wire_transport : Transport block := {
  header_block_of h := full_block (1000 * getValue (TransportSendStrategy.sequence_ h)) (transport_bytes (packet_header h));
  max_message_size := 0;
  fragment _ e := (e, e);
  TransportSendStrategy.relink _ s := Ret s }.

Definition cfg : SendConfig := mkSC 2 400 500 24 50 false.

#[export] Instance wire_stream : StreamTransport block wire_transport cfg.
Proof.
  split; [done|]. intros h. assert (mb_length (header_block_of h) = 24%nat) as -> by (by apply (transport_bytes_length (packet_header h))).
  cbn. lia.
Qed.

Lemma wire_cfg_ok : config_ok cfg.
Proof. split; cbn; lia. Qed.

Lemma marshals h : transport_ok (packet_header h) ->
  exists ser, write_transport_header [mb_new (MB:=block) transport_max_marshaled_size] (packet_header h) = Ret ser /\
    chain_bytes (ser_done ser ++ ser_cur ser) = mb_bytes (header_block_of h).
Proof.
  intros Hok. destruct (write_transport_header_ok (packet_header h) [mb_new (MB:=block) transport_max_marshaled_size] Hok eq_refl) as (ser & E & Hw);
    [by repeat constructor|by repeat constructor|by vm_compute|]. exists ser. split; [done|]. apply Hw.
Qed.

Definition data (i : Z) : DataSampleHeader * list Z := ReceiveProps.Example.sample 0 3 i.
Definition elem (i : Z) : QueueElement block :=
  mkQE i (replicate 16 i) [full_block (1000 * i) (header_bytes (data i).1); full_block (1000 * i + 500) (data i).2] (Some (1000 * i + 500)) false false false.
Definition ops : list (@sop block) :=
  [OpStart; OpSend (elem 1) true; OpSend (elem 2) true; OpSend (elem 3) true; OpWork; OpWork; OpWork; OpStop (replicate 16 1)].
(** The socket takes 50 bytes of the first packet, then blocks, then the rest. *)
Definition net : list answer := [Accept 50; Blocked; Accept 100; Accept 200].

Lemma wire_elem_ok i : 0 <= i < 256 -> el_wf (elem i) /\ is_fragment (elem i) = false.
Proof.
  intros Hi. split; [|done]. exists (1000 * i + 500). split; [cbn; unfold base_addr; cbn; f_equal; lia|].
  exists [full_block (1000 * i) (header_bytes (data i).1)], (full_block (1000 * i + 500) (data i).2). unfold base_addr. cbn.
  split_and!; [done|lia| |]; repeat constructor; cbn; lia.
Qed.

Lemma elem_carries i : carries (MB:=block) (elem i) (data i).
Proof.
  split; [unfold el_bytes, chain_bytes; cbn; done|]. split; cbn; [|done|done].
  split; cbn; try done; unfold is_u; change (2 ^ 32) with 4294967296; lia.
Qed.

End Example.

Import ReceiveProps.Example.
Import Example.

(** The two packets, read in pieces of 40 bytes and the rest. *)
Lemma samples_transferred_witness : exists s r cs,
  srun Example.cfg Example.ops (TransportSendProps.new_strategy Example.net) = Ret s /\ length cs = 2%nat /\ concat cs = wire_ s /\
  feed cs (tcp_new (MB:=block)) = Ret ([0; 0], r) /\
  call_view <$> derived_ r = tcp_calls (MB:=block) [Example.data 1; Example.data 2; Example.data 3].
Proof.
  assert (exists s, srun Example.cfg Example.ops (TransportSendProps.new_strategy Example.net) = Ret s /\
    elems_ s = [] /\ queue_ s = [] /\ concat [take 40 (wire_ s); drop 40 (wire_ s)] = wire_ s /\
    ReceiveDelivery.fits [take 40 (wire_ s); drop 40 (wire_ s)] (tcp_new (MB:=block)) = true) as (s & E & He & Hq & Hw & Hf).
  { eexists. split; [vm_compute; reflexivity|]. by vm_compute. }
  destruct (samples_transferred Example.cfg Example.wire_cfg_ok Example.marshals Example.ops Example.net s
    [Example.data 1; Example.data 2; Example.data 3] [take 40 (wire_ s); drop 40 (wire_ s)]) as (r & Er & _ & Hr).
  - cbn. lia.
  - cbn. lia.
  - cbn. lia.
  - repeat constructor; apply Example.wire_elem_ok; lia.
  - repeat constructor; done.
  - exact E.
  - repeat constructor; apply Example.elem_carries.
  - rewrite Hw. reflexivity.
  - exact Hf.
  - exists s, r, [take 40 (wire_ s); drop 40 (wire_ s)]. split; [exact E|]. split; [reflexivity|]. split; [exact Hw|].
    split; [exact Er|]. apply Hr; [exact He|exact Hq|exact Hw].
Defined.
End Transfer.
Export Transfer.
