(* ===== verification/Yard.v ===== *)
(** * The YARD parser combinators (dds/DCPS/yard/yard_base_grammar.hpp,
    yard_text_grammar.hpp, yard_char_set.hpp, yard_tree.hpp)

    A rule of YARD is a type with one static function [Match] on the state of the
    parser; here a rule is that function.  An iterator is a pointer into the
    input: the characters from there to the end.  The tree under construction is
    the list of the children of the node [current] points to; [Store] opens a
    node, runs its rule on the empty list of children, and appends the node to
    the children of its parent or drops it.  Only [Store] drops nodes: a rule that
    fails moves the iterator back and leaves the nodes made on the way.

    The second half is the logic of rules: [spec r S F] says that on any input of
    seven-bit characters [r] returns, what it consumes and the nodes it adds
    satisfy [S] when it matches and the nodes it adds satisfy [F] when it does
    not. *)

From Stdlib Require Import Ascii.
From S2P Require Import Prelude.

(* The children of a node are a list of nodes. *)
#[local] Set Warnings "-register-all".

Module Yard.

Abbreviation text := (list ascii).

(** The value of a [char], which is signed. *)
Definition char_value (c : ascii) : Z := swrap 8 (Z.of_N (N_of_ascii c)).

Section Parser.
(** The rules that [Store] records, by which [TypeMatches] tells nodes apart. *)
Context {L : Type}.

Inductive node := Node (GetRuleTypeInfo : L) (mpFirst mpLast : text) (children : list node).

Record parser := mkParser { mIter : text; current : list node }.

Definition rule := parser -> outcome (bool * parser).

Definition AtEnd (p : parser) : bool := bool_decide (mIter p = []).
Definition SetPos (pos : text) (p : parser) : parser := mkParser pos (current p).
Definition GotoNext (p : parser) : parser := mkParser (tail (mIter p)) (current p).

(** ** yard_base_grammar.hpp *)

Definition Store (l : L) (r : rule) : rule := fun p =>
  '(b, q) ← r (mkParser (mIter p) []);
  if (b : bool) then Ret (true, mkParser (mIter q) (current p ++ [Node l (mIter p) (mIter q) (current q)]))
  else Ret (false, mkParser (mIter q) (current p)).

Definition EndOfInput : rule := fun p => Ret (AtEnd p, p).

Definition NotAt (r : rule) : rule := fun p =>
  '(b, q) ← r p;
  if (b : bool) then Ret (false, SetPos (mIter p) q) else Ret (true, q).

Fixpoint Or (rs : list rule) : rule := fun p =>
  match rs with
  | [] => Ret (false, p)
  | r :: rs' => '(b, q) ← r p; if (b : bool) then Ret (true, q) else Or rs' q
  end.

(** The conjunction of [Seq], before the iterator is reset. *)
Fixpoint seq_rules (rs : list rule) : rule := fun p =>
  match rs with
  | [] => Ret (true, p)
  | r :: rs' => '(b, q) ← r p; if (b : bool) then seq_rules rs' q else Ret (false, q)
  end.

Definition Seq (rs : list rule) : rule := fun p =>
  '(b, q) ← seq_rules rs p;
  if (b : bool) then Ret (true, q) else Ret (false, SetPos (mIter p) q).

Fixpoint star_loop (fuel : nat) (r : rule) (p : parser) : outcome (bool * parser) :=
  match fuel with
  | O => Fuel
  | S fuel' => '(b, q) ← r p; if (b : bool) then star_loop fuel' r q else Ret (true, q)
  end.

Definition Star (r : rule) : rule := fun p =>
  if AtEnd p then Ret (true, p) else star_loop (S (length (mIter p))) r p.

Definition Plus (r : rule) : rule := fun p =>
  '(b, q) ← r p;
  if (b : bool) then '(_, q) ← Star r q; Ret (true, q) else Ret (false, q).

Definition Opt (r : rule) : rule := fun p =>
  if AtEnd p then Ret (true, p) else '(_, q) ← r p; Ret (true, q).

(** ** yard_char_set.hpp *)

Definition CharSet (cs : list ascii) (c : ascii) : bool :=
  bool_decide (c ∈ cs) && negb (bool_decide (c = "000"%char)).

Definition CharSetRange (lo hi : ascii) (c : ascii) : bool :=
  (N_of_ascii lo <=? N_of_ascii c)%N && (N_of_ascii c <=? N_of_ascii hi)%N.

Definition CharSetUnion (x0 x1 : ascii -> bool) (c : ascii) : bool := x0 c || x1 c.

Definition LowerCaseLetterCharSet := CharSetRange "a" "z".
Definition UpperCaseLetterCharSet := CharSetRange "A" "Z".
Definition LetterCharSet := CharSetUnion LowerCaseLetterCharSet UpperCaseLetterCharSet.
Definition DigitCharSet := CharSetRange "0" "9".
Definition HexDigitCharSet := CharSetUnion DigitCharSet (CharSetUnion (CharSetRange "a" "f") (CharSetRange "A" "F")).
Definition IdentFirstCharSet := CharSetUnion LetterCharSet (CharSet ["_"%char]).
Definition IdentNextCharSet := CharSetUnion IdentFirstCharSet DigitCharSet.
Definition WhiteSpaceCharSet := CharSet [" "; "009"; "010"; "013"]%char.

(** ** yard_text_grammar.hpp *)

Definition AnyChar : rule := fun p => if AtEnd p then Ret (false, p) else Ret (true, GotoNext p).

Definition Char (c : ascii) : rule := fun p =>
  match mIter p with
  | [] => Ret (false, p)
  | x :: _ => if bool_decide (x = c) then Ret (true, GotoNext p) else Ret (false, p)
  end.

(** The element of the input indexes an array of 256 flags as an [int]: a
    character above 127 is a negative index. *)
Definition CharSetParser (cs : ascii -> bool) : rule := fun p =>
  match mIter p with
  | [] => Ret (false, p)
  | x :: _ =>
      if char_value x <? 0 then UB
      else if cs x then Ret (true, GotoNext p) else Ret (false, p)
  end.

Definition AnyCharExcept (cs : ascii -> bool) : rule := Seq [NotAt (CharSetParser cs); AnyChar].

Definition Digit : rule := CharSetParser DigitCharSet.
Definition HexDigit : rule := CharSetParser HexDigitCharSet.
Definition IdentNextChar : rule := CharSetParser IdentNextCharSet.
Definition Letter : rule := CharSetParser LetterCharSet.
Definition NotAlphaNum : rule := NotAt IdentNextChar.

Definition ToLowercase (x : ascii) : ascii :=
  if UpperCaseLetterCharSet x then ascii_of_N (N_of_ascii "a" + (N_of_ascii x - N_of_ascii "A")) else x.

Fixpoint match_ignore_case (cs : text) (p : parser) : bool * parser :=
  match cs with
  | [] => (true, p)
  | c :: cs' =>
      match mIter p with
      | [] => (false, p)
      | x :: _ => if bool_decide (ToLowercase x = c) then match_ignore_case cs' (GotoNext p) else (false, p)
      end
  end.

Definition CharSeqIgnoreCase (cs : text) : rule := fun p =>
  let '(b, q) := match_ignore_case cs p in
  if b then Ret (true, q) else Ret (false, SetPos (mIter p) q).

End Parser.
Arguments node : clear implicits.
Arguments parser : clear implicits.
Arguments rule : clear implicits.

(** ** The logic of rules *)

Section Logic.
Context {L : Type}.
Implicit Types (r : rule L) (p q : parser L) (ns : list (node L)) (u : text).

(** Characters of seven bits. *)
Definition plain (t : text) : Prop := Forall (fun c => 0 <= char_value c) t.

(** On a plain input of fewer than [N] characters [r] returns; if it matches, the
    text [u] it consumes and the nodes it adds satisfy [S]; if it does not, it
    consumes nothing and the nodes it adds satisfy [F]. *)
Definition spec (N : nat) r (S : text -> list (node L) -> Prop) (F : list (node L) -> Prop) : Prop :=
  forall p, plain (mIter p) -> (length (mIter p) < N)%nat ->
  exists b q ns, r p = Ret (b, q) /\ current q = current p ++ ns
    /\ (if (b : bool) then exists u, mIter p = u ++ mIter q /\ S u ns else mIter q = mIter p /\ F ns).

(** The same of the conjunction of a [Seq], which leaves the iterator where it
    failed. *)
Definition seq_spec (N : nat) (rs : list (rule L)) (S : text -> list (node L) -> Prop)
    (F : list (node L) -> Prop) : Prop :=
  forall p, plain (mIter p) -> (length (mIter p) < N)%nat ->
  exists b q ns, seq_rules rs p = Ret (b, q) /\ current q = current p ++ ns
    /\ (if (b : bool) then exists u, mIter p = u ++ mIter q /\ S u ns else F ns).

Lemma plain_app (t1 t2 : text) : plain (t1 ++ t2) <-> plain t1 /\ plain t2.
Proof. apply Forall_app. Qed.

Lemma spec_mono N N' r (S S' : text -> list (node L) -> Prop) (F F' : list (node L) -> Prop) :
  spec N r S F -> (N' <= N)%nat -> (forall u ns, S u ns -> S' u ns) -> (forall ns, F ns -> F' ns) ->
  spec N' r S' F'.
Proof.
  intros H HN HS HF p Hp Hl. destruct (H p Hp ltac:(lia)) as (b & q & ns & Hr & Hc & Hb).
  exists b, q, ns. split_and!; [done..|]. destruct b; naive_solver.
Qed.

Lemma seq_spec_nil N : seq_spec N [] (fun u ns => u = [] /\ ns = []) (fun _ => False).
Proof. intros p _ _. exists true, p, []. cbn. rewrite app_nil_r. split_and!; [done..|]. by exists []. Qed.

Lemma seq_spec_cons N N' r rs (S1 S2 S : text -> list (node L) -> Prop) (F1 F2 F : list (node L) -> Prop) :
  spec N r S1 F1 -> seq_spec N' rs S2 F2 ->
  (forall u ns, S1 u ns -> (N <= length u + N')%nat) ->
  (forall u1 n1 u2 n2, S1 u1 n1 -> S2 u2 n2 -> S (u1 ++ u2) (n1 ++ n2)) ->
  (forall n1, F1 n1 -> F n1) -> (forall u1 n1 n2, S1 u1 n1 -> F2 n2 -> F (n1 ++ n2)) ->
  seq_spec N (r :: rs) S F.
Proof.
  intros H1 H2 HN HS HF1 HF2 p Hp Hl. destruct (H1 p Hp Hl) as (b & q & ns & Hr & Hc & Hb).
  cbn [seq_rules]. rewrite Hr. cbn [mbind outcome_bind]. destruct b.
  - destruct Hb as (u & Hu & Hs). rewrite Hu in Hp, Hl. apply plain_app in Hp as [_ Hp].
    rewrite length_app in Hl. specialize (HN u ns Hs).
    destruct (H2 q Hp ltac:(lia)) as (b & q' & ns' & Hr' & Hc' & Hb').
    exists b, q', (ns ++ ns'). rewrite Hc', Hc, app_assoc. split_and!; [done..|].
    destruct b; [|by eapply HF2]. destruct Hb' as (u' & Hu' & Hs'). exists (u ++ u').
    rewrite Hu, Hu', app_assoc. eauto.
  - destruct Hb. exists false, q, ns. eauto.
Qed.

Lemma spec_Seq N rs (S : text -> list (node L) -> Prop) (F : list (node L) -> Prop) :
  seq_spec N rs S F -> spec N (Seq rs) S F.
Proof.
  intros H p Hp Hl. destruct (H p Hp Hl) as (b & q & ns & Hr & Hc & Hb). unfold Seq. rewrite Hr. cbn.
  destruct b; [exists true, q, ns | exists false, (SetPos (mIter p) q), ns]; eauto.
Qed.

Lemma spec_Or_nil N : spec N (Or []) (fun _ _ => False) (fun ns => ns = []).
Proof. intros p _ _. exists false, p, []. by rewrite app_nil_r. Qed.

Lemma spec_Or_cons N r rs (S1 S2 S : text -> list (node L) -> Prop) (F1 F2 F : list (node L) -> Prop) :
  spec N r S1 F1 -> spec N (Or rs) S2 F2 ->
  (forall u n, S1 u n -> S u n) -> (forall n1 u n2, F1 n1 -> S2 u n2 -> S u (n1 ++ n2)) ->
  (forall n1 n2, F1 n1 -> F2 n2 -> F (n1 ++ n2)) ->
  spec N (Or (r :: rs)) S F.
Proof.
  intros H1 H2 HS1 HS2 HF p Hp Hl. destruct (H1 p Hp Hl) as (b & q & ns & Hr & Hc & Hb).
  cbn [Or]. rewrite Hr. cbn [mbind outcome_bind]. destruct b.
  - destruct Hb as (u & Hu & Hs). exists true, q, ns. eauto 6.
  - destruct Hb as [Hi Hf]. rewrite <- Hi in Hp, Hl.
    destruct (H2 q Hp Hl) as (b & q' & ns' & Hr' & Hc' & Hb').
    exists b, q', (ns ++ ns'). rewrite Hc', Hc, app_assoc. split_and!; [done..|].
    rewrite <- Hi. destruct b; [destruct Hb' as (u & ? & ?); eauto|]. destruct Hb'. eauto.
Qed.

Lemma spec_Opt N r (S1 S : text -> list (node L) -> Prop) (F1 : list (node L) -> Prop) :
  spec N r S1 F1 -> S [] [] -> (forall u ns, S1 u ns -> S u ns) -> (forall ns, F1 ns -> S [] ns) ->
  spec N (Opt r) S (fun _ => False).
Proof.
  intros H H0 HS HF p Hp Hl. unfold Opt. destruct (AtEnd p).
  { exists true, p, []. rewrite app_nil_r. split_and!; [done..|]. by exists []. }
  destruct (H p Hp Hl) as (b & q & ns & Hr & Hc & Hb). rewrite Hr. cbn.
  exists true, q, ns. split_and!; [done..|]. destruct b.
  - destruct Hb as (u & ? & ?). eauto.
  - destruct Hb. exists []. eauto.
Qed.

Lemma spec_Store N (l : L) r (S : text -> list (node L) -> Prop) (F : list (node L) -> Prop) :
  spec N r S F ->
  spec N (Store l r)
    (fun u ns => exists rest cs, ns = [Node l (u ++ rest) rest cs] /\ S u cs) (fun ns => ns = []).
Proof.
  intros H p Hp Hl. destruct (H (mkParser (mIter p) []) Hp Hl) as (b & q & ns & Hr & Hc & Hb).
  unfold Store. rewrite Hr. cbn [mbind outcome_bind]. destruct b.
  - destruct Hb as (u & Hu & Hs). cbn in Hu, Hc. eexists true, _, _. split_and!; [done..|].
    exists u. cbn. rewrite Hc, Hu. eauto.
  - destruct Hb as [Hi _]. eexists false, _, []. cbn. rewrite app_nil_r. eauto.
Qed.

Lemma spec_star_loop r N (S1 S : text -> list (node L) -> Prop) (F1 : list (node L) -> Prop) :
  spec N r S1 F1 -> (forall u ns, S1 u ns -> u <> []) ->
  S [] [] -> (forall u1 n1 u2 n2, S u1 n1 -> S1 u2 n2 -> S (u1 ++ u2) (n1 ++ n2)) ->
  (forall u n1 n2, S u n1 -> F1 n2 -> S u (n1 ++ n2)) ->
  forall fuel p u0 n0, plain (mIter p) -> (length (mIter p) < N)%nat -> (length (mIter p) < fuel)%nat ->
    S u0 n0 ->
    exists q ns u, star_loop fuel r p = Ret (true, q) /\ current q = current p ++ ns
      /\ mIter p = u ++ mIter q /\ S (u0 ++ u) (n0 ++ ns).
Proof.
  intros H Hne HS0 HS HF fuel. induction fuel as [|fuel IH]; intros p u0 n0 Hp Hl Hf HS'; [lia|].
  destruct (H p Hp Hl) as (b & q & ns & Hr & Hc & Hb). cbn [star_loop]. rewrite Hr. cbn [mbind outcome_bind].
  destruct b.
  - destruct Hb as (u & Hu & Hs). pose proof (Hne u ns Hs) as Hu'.
    rewrite Hu in Hp, Hl, Hf. apply plain_app in Hp as [_ Hp]. rewrite length_app in Hl, Hf.
    assert (0 < length u)%nat by (destruct u; [done|cbn; lia]).
    destruct (IH q (u0 ++ u) (n0 ++ ns) Hp ltac:(lia) ltac:(lia) (HS _ _ _ _ HS' Hs))
      as (q' & ns' & u' & Hr' & Hc' & Hu'' & Hs').
    exists q', (ns ++ ns'), (u ++ u'). rewrite Hr', Hc', Hc, Hu, Hu'', !app_assoc.
    split_and!; done.
  - destruct Hb as [Hi Hn]. exists q, ns, []. rewrite Hi, app_nil_r. eauto.
Qed.

Lemma spec_Star r N (S1 S : text -> list (node L) -> Prop) (F1 : list (node L) -> Prop) :
  spec N r S1 F1 -> (forall u ns, S1 u ns -> u <> []) ->
  S [] [] -> (forall u1 n1 u2 n2, S u1 n1 -> S1 u2 n2 -> S (u1 ++ u2) (n1 ++ n2)) ->
  (forall u n1 n2, S u n1 -> F1 n2 -> S u (n1 ++ n2)) ->
  spec N (Star r) S (fun _ => False).
Proof.
  intros H Hne HS0 HS HF p Hp Hl. unfold Star. destruct (AtEnd p).
  { exists true, p, []. rewrite app_nil_r. split_and!; [done..|]. by exists []. }
  destruct (spec_star_loop r N S1 S F1 H Hne HS0 HS HF _ p [] [] Hp Hl (Nat.lt_succ_diag_r _) HS0)
    as (q & ns & u & Hr & Hc & Hu & Hs).
  exists true, q, ns. rewrite Hr. eauto.
Qed.

(** *** Rules that add no nodes *)

(** [r] adds no nodes and consumes at least [k] characters when it matches. *)
Class Lex (k : nat) r : Prop :=
  lex : forall N, spec N r (fun u ns => ns = [] /\ (k <= length u)%nat) (fun ns => ns = []).

Class LexSeq (k : nat) (rs : list (rule L)) : Prop :=
  lex_seq : forall N, seq_spec N rs (fun u ns => ns = [] /\ (k <= length u)%nat) (fun ns => ns = []).

#[global] Instance lex_seq_nil : LexSeq 0 [].
Proof.
  intros N p _ _. exists true, p, []. cbn. rewrite app_nil_r. split_and!; [done..|]. exists []. done.
Qed.

#[global] Instance lex_seq_cons k1 k2 r rs : Lex k1 r -> LexSeq k2 rs -> LexSeq (k1 + k2) (r :: rs).
Proof.
  intros H1 H2 N. eapply (seq_spec_cons N N); [apply H1|apply H2|..].
  - intros; lia.
  - intros u1 n1 u2 n2 [-> ?] [-> ?]. rewrite length_app. split; [done|lia].
  - done.
  - by intros u1 n1 n2 [-> _] ->.
Qed.

#[global] Instance lex_Seq k rs : LexSeq k rs -> Lex k (Seq rs).
Proof. intros H N. apply spec_Seq, H. Qed.

#[global] Instance lex_Or_one k r : Lex k r -> Lex k (Or [r]).
Proof.
  intros H N. eapply spec_Or_cons; [apply H|apply spec_Or_nil|..]; naive_solver.
Qed.

#[global] Instance lex_Or_cons k1 k2 r r' rs : Lex k1 r -> Lex k2 (Or (r' :: rs)) ->
  Lex (Nat.min k1 k2) (Or (r :: r' :: rs)).
Proof.
  intros H1 H2 N. eapply spec_Or_cons; [apply H1|apply H2|..].
  - intros u n [-> ?]. split; [done|lia].
  - intros n1 u n2 -> [-> ?]. split; [done|lia].
  - by intros ? ? -> ->.
Qed.

#[global] Instance lex_Opt k r : Lex k r -> Lex 0 (Opt r).
Proof.
  intros H N. eapply spec_mono; [eapply spec_Opt; [apply H|..]|done|..].
  - instantiate (1 := fun u ns => ns = [] /\ (0 <= length u)%nat). done.
  - intros u ns [-> ?]. split; [done|lia].
  - by intros ns ->.
  - done.
  - done.
Qed.

#[global] Instance lex_Star k r : Lex k r -> TCEq (0 <? k)%nat true -> Lex 0 (Star r).
Proof.
  intros H Hk0%TCEq_eq%Nat.ltb_lt N. eapply spec_mono; [eapply spec_Star; [apply H|..]|done|..].
  - intros u ns [_ Hk] ->. cbn in Hk. lia.
  - instantiate (1 := fun u ns => ns = [] /\ (0 <= length u)%nat). done.
  - intros u1 n1 u2 n2 [-> ?] [-> ?]. split; [done|lia].
  - by intros u n1 n2 [-> ?] ->.
  - done.
  - done.
Qed.

#[global] Instance lex_Plus k r : Lex k r -> TCEq (0 <? k)%nat true -> Lex k (Plus r).
Proof.
  intros H Hk0 N p Hp Hl. destruct (H N p Hp Hl) as (b & q & ns & Hr & Hc & Hb). unfold Plus. rewrite Hr.
  cbn [mbind outcome_bind]. destruct b; [|exists false, q, ns; naive_solver].
  destruct Hb as (u & Hu & -> & Hk). rewrite Hu in Hp. apply plain_app in Hp as [_ Hp].
  destruct (lex_Star k r H Hk0 (S (length (mIter q))) q Hp ltac:(lia)) as (b & q' & ns & Hr' & Hc' & Hb').
  rewrite Hr'. cbn. exists true, q', ns. rewrite Hc', Hc. rewrite app_nil_r. split_and!; [done..|].
  destruct b.
  - destruct Hb' as (u' & Hu' & -> & _). exists (u ++ u'). rewrite Hu, Hu', app_assoc, length_app.
    split_and!; [done..|lia].
  - destruct Hb' as [Hi ->]. exists u. rewrite Hu, Hi. done.
Qed.

#[global] Instance lex_NotAt k r : Lex k r -> Lex 0 (NotAt r).
Proof.
  intros H N p Hp Hl. destruct (H N p Hp Hl) as (b & q & ns & Hr & Hc & Hb). unfold NotAt. rewrite Hr. cbn.
  destruct b.
  - destruct Hb as (u & Hu & -> & Hk). exists false, (SetPos (mIter p) q), []. done.
  - destruct Hb as [Hi ->]. exists true, q, []. split_and!; [done..|]. exists []. rewrite Hi. done.
Qed.

Lemma lex_le k k' r : Lex k r -> (k' <= k)%nat -> Lex k' r.
Proof.
  intros H Hk N. eapply spec_mono; [apply H|done|..]; [|done]. intros u ns [-> ?]. split; [done|lia].
Qed.

(** A rule that takes one character or fails. *)
Lemma lex_one r (f : ascii -> bool) :
  (forall cs cur, r (mkParser [] cur) = Ret (false, mkParser [] cur)
    /\ forall c, 0 <= char_value c ->
         r (mkParser (c :: cs) cur) = if f c then Ret (true, mkParser cs cur) else Ret (false, mkParser (c :: cs) cur)) ->
  Lex 1 r.
Proof.
  intros H N [[|c cs] cur] Hp _; [destruct (H [] cur) as [H0 _]|destruct (H cs cur) as [_ H1]].
  - rewrite H0. exists false, (mkParser [] cur), []. cbn. by rewrite app_nil_r.
  - rewrite (H1 c) by (by inversion Hp). destruct (f c).
    + exists true, (mkParser cs cur), []. cbn. rewrite app_nil_r. split_and!; [done..|]. by exists [c].
    + exists false, (mkParser (c :: cs) cur), []. cbn. by rewrite app_nil_r.
Qed.

#[global] Instance lex_Char c : Lex 1 (@Char L c).
Proof. apply (lex_one _ (fun x => bool_decide (x = c))). intros. split; [done|]. intros x _. cbn. by case_bool_decide. Qed.

#[global] Instance lex_AnyChar : Lex 1 (@AnyChar L).
Proof. by apply (lex_one _ (fun _ => true)). Qed.

#[global] Instance lex_CharSetParser cs : Lex 1 (@CharSetParser L cs).
Proof.
  apply (lex_one _ cs). intros t cur. split; [done|]. intros c Hc. cbn.
  destruct (Z.ltb_spec (char_value c) 0); [lia|]. by destruct (cs c).
Qed.

Lemma match_ignore_case_spec cs p :
  exists u q, match_ignore_case cs p = (bool_decide (length u = length cs), q) /\ current q = current p
    /\ mIter p = u ++ mIter q.
Proof.
  revert p. induction cs as [|c cs IH]; intros p; cbn [match_ignore_case].
  { exists [], p. done. }
  destruct p as [[|x t] cur]; cbn [mIter current]; [by exists [], (mkParser [] cur)|].
  case_bool_decide as Hx.
  - destruct (IH (GotoNext (mkParser (x :: t) cur))) as (u & q & Hm & Hc & Hi).
    exists (x :: u), q. rewrite Hm. cbn [length]. split_and!; [|done|].
    + f_equal. apply bool_decide_ext. lia.
    + cbn in Hi. cbn. by rewrite Hi.
  - by exists [], (mkParser (x :: t) cur).
Qed.

#[global] Instance lex_CharSeqIgnoreCase cs : Lex (length cs) (@CharSeqIgnoreCase L cs).
Proof.
  intros N p Hp Hl. destruct (match_ignore_case_spec cs p) as (u & q & Hm & Hc & Hi).
  unfold CharSeqIgnoreCase. rewrite Hm. case_bool_decide as Hu.
  - exists true, q, []. rewrite app_nil_r. split_and!; [done..|]. exists u. split_and!; [done..|lia].
  - exists false, (SetPos (mIter p) q), []. cbn. by rewrite app_nil_r.
Qed.

End Logic.

(** ** Runs on a given text *)

Section Runs.
Context {L : Type}.
Implicit Types (r : rule L) (t k : text) (ns : list (node L)).

(** [r] consumes [t] when [k] follows and adds [ns]; [r] fails at [t] and adds
    nothing, or nothing that is kept. *)
Definition accepts r t k ns : Prop :=
  forall cur, r (mkParser (t ++ k) cur) = Ret (true, mkParser k (cur ++ ns)).
Definition rejects r t : Prop := forall cur, r (mkParser t cur) = Ret (false, mkParser t cur).
Definition fails r t : Prop := forall cur, exists ns, r (mkParser t cur) = Ret (false, mkParser t (cur ++ ns)).

Definition seq_accepts (rs : list (rule L)) t k ns : Prop := accepts (seq_rules rs) t k ns.
Definition seq_fails (rs : list (rule L)) t : Prop :=
  forall cur, exists t' ns, seq_rules rs (mkParser t cur) = Ret (false, mkParser t' (cur ++ ns)).
(** As [seq_fails], with no node added. *)
Definition seq_rejects (rs : list (rule L)) t : Prop :=
  forall cur, exists t', seq_rules rs (mkParser t cur) = Ret (false, mkParser t' cur).

Lemma rejects_fails r t : rejects r t -> fails r t.
Proof. intros H cur. exists []. by rewrite app_nil_r. Qed.

Lemma seq_accepts_nil k : seq_accepts [] [] k [].
Proof. intros cur. cbn. by rewrite app_nil_r. Qed.

Lemma seq_accepts_cons r rs t1 t2 k ns1 ns2 :
  accepts r t1 (t2 ++ k) ns1 -> seq_accepts rs t2 k ns2 -> seq_accepts (r :: rs) (t1 ++ t2) k (ns1 ++ ns2).
Proof.
  intros H1 H2 cur. cbn [seq_rules]. rewrite <- app_assoc, H1. cbn [mbind outcome_bind].
  rewrite H2. by rewrite app_assoc.
Qed.

(** The last rule of a sequence. *)
Lemma seq_accepts_one r t k ns : accepts r t k ns -> seq_accepts [r] t k ns.
Proof. intros H cur. cbn [seq_rules]. rewrite H. done. Qed.

(** A rule that consumes and adds nothing. *)
Lemma seq_accepts_skip r rs t k ns : accepts r [] (t ++ k) [] -> seq_accepts rs t k ns -> seq_accepts (r :: rs) t k ns.
Proof. intros H1 H2. exact (seq_accepts_cons r rs [] t k [] ns H1 H2). Qed.

(** The rules after [r] consume and add nothing. *)
Lemma seq_accepts_last r rs t k ns : accepts r t k ns -> seq_accepts rs [] k [] -> seq_accepts (r :: rs) t k ns.
Proof.
  intros H1 H2. pose proof (seq_accepts_cons r rs t [] k ns [] H1 H2) as H. by rewrite !app_nil_r in H.
Qed.

Lemma accepts_Seq rs t k ns : seq_accepts rs t k ns -> accepts (Seq rs) t k ns.
Proof. intros H cur. unfold Seq. rewrite H. done. Qed.

Lemma seq_fails_here r rs t : fails r t -> seq_fails (r :: rs) t.
Proof. intros H cur. destruct (H cur) as [ns Hr]. exists t, ns. cbn [seq_rules]. by rewrite Hr. Qed.

Lemma seq_fails_later r rs t1 t2 ns : accepts r t1 t2 ns -> seq_fails rs t2 -> seq_fails (r :: rs) (t1 ++ t2).
Proof.
  intros H1 H2 cur. destruct (H2 (cur ++ ns)) as (t' & ns' & Hr). exists t', (ns ++ ns').
  cbn [seq_rules]. rewrite H1. cbn [mbind outcome_bind]. by rewrite Hr, app_assoc.
Qed.

Lemma fails_Seq rs t : seq_fails rs t -> fails (Seq rs) t.
Proof. intros H cur. destruct (H cur) as (t' & ns & Hr). exists ns. unfold Seq. by rewrite Hr. Qed.

Lemma seq_rejects_here r rs t : rejects r t -> seq_rejects (r :: rs) t.
Proof. intros H cur. exists t. cbn [seq_rules]. by rewrite H. Qed.

Lemma seq_rejects_later r rs t1 t2 : accepts r t1 t2 [] -> seq_rejects rs t2 -> seq_rejects (r :: rs) (t1 ++ t2).
Proof.
  intros H1 H2 cur. destruct (H2 cur) as (t' & Hr). exists t'. cbn [seq_rules]. rewrite H1.
  cbn [mbind outcome_bind]. by rewrite app_nil_r.
Qed.

Lemma rejects_Seq rs t : seq_rejects rs t -> rejects (Seq rs) t.
Proof. intros H cur. destruct (H cur) as (t' & Hr). unfold Seq. by rewrite Hr. Qed.

Lemma rejects_Seq_here r rs t : rejects r t -> rejects (Seq (r :: rs)) t.
Proof. intros H. by apply rejects_Seq, seq_rejects_here. Qed.

Lemma accepts_Or_here r rs t k ns : accepts r t k ns -> accepts (Or (r :: rs)) t k ns.
Proof. intros H cur. cbn [Or]. by rewrite H. Qed.

Lemma accepts_Or_later r rs t k ns : rejects r (t ++ k) -> accepts (Or rs) t k ns -> accepts (Or (r :: rs)) t k ns.
Proof. intros H1 H2 cur. cbn [Or]. rewrite H1. apply H2. Qed.

Lemma rejects_Or rs t : Forall (fun r => rejects r t) rs -> rejects (Or rs) t.
Proof.
  intros H cur. induction H as [|r rs Hr _ IH]; [done|]. cbn [Or]. rewrite Hr. exact IH.
Qed.

Lemma accepts_Opt r t k ns : t <> [] -> accepts r t k ns -> accepts (Opt r) t k ns.
Proof.
  intros Ht H cur. unfold Opt, AtEnd. cbn [mIter]. rewrite bool_decide_false by (by destruct t).
  by rewrite H.
Qed.

Lemma accepts_Opt_none r k : rejects r k -> accepts (Opt r) [] k [].
Proof.
  intros H cur. unfold Opt, AtEnd. cbn [mIter app]. rewrite app_nil_r. case_bool_decide; [done|]. by rewrite H.
Qed.

Lemma accepts_NotAt r k : rejects r k -> accepts (NotAt r) [] k [].
Proof. intros H cur. unfold NotAt. cbn [app]. rewrite H, app_nil_r. done. Qed.

Lemma rejects_NotAt r t k : accepts r t k [] -> rejects (NotAt r) (t ++ k).
Proof. intros H cur. unfold NotAt. rewrite H, app_nil_r. done. Qed.

Lemma accepts_Store (l : L) r t k ns : accepts r t k ns -> accepts (Store l r) t k [Node l (t ++ k) k ns].
Proof. intros H cur. unfold Store. cbn [mIter]. rewrite H. done. Qed.

Lemma rejects_Store (l : L) r t : fails r t -> rejects (Store l r) t.
Proof. intros H cur. unfold Store. destruct (H []) as [ns Hr]. cbn [mIter]. by rewrite Hr. Qed.

(** The iterations of a [Star], to the text at which its rule fails. *)
Inductive stars r : text -> text -> list (node L) -> Prop :=
| stars_stop k : rejects r k -> stars r [] k []
| stars_step t1 t2 k ns1 ns2 :
    t1 <> [] -> accepts r t1 (t2 ++ k) ns1 -> stars r t2 k ns2 -> stars r (t1 ++ t2) k (ns1 ++ ns2).

Lemma stars_loop r t k ns : stars r t k ns ->
  forall fuel cur, (length t < fuel)%nat ->
    star_loop fuel r (mkParser (t ++ k) cur) = Ret (true, mkParser k (cur ++ ns)).
Proof.
  induction 1 as [k Hk|t1 t2 k ns1 ns2 Hne H1 _ IH]; intros fuel cur Hf; (destruct fuel as [|fuel]; [cbn in Hf; lia|]);
    cbn [star_loop].
  - cbn [app]. rewrite Hk, app_nil_r. done.
  - rewrite <- app_assoc, H1. cbn [mbind outcome_bind]. rewrite IH, app_assoc; [done|].
    rewrite length_app in Hf. destruct t1; [done|cbn in Hf; lia].
Qed.

Lemma accepts_Star r t k ns : stars r t k ns -> accepts (Star r) t k ns.
Proof.
  intros H cur. unfold Star, AtEnd. cbn [mIter]. case_bool_decide as E.
  - apply app_nil in E as [Et Ek]. destruct H as [k _|t1 t2 k ns1 ns2 Hne _ _].
    + subst k. cbn [app]. by rewrite app_nil_r.
    + by apply app_nil in Et as [-> _].
  - apply stars_loop; [done|]. rewrite length_app. lia.
Qed.

Lemma accepts_Plus r t1 t2 k ns1 ns2 :
  accepts r t1 (t2 ++ k) ns1 -> stars r t2 k ns2 -> accepts (Plus r) (t1 ++ t2) k (ns1 ++ ns2).
Proof.
  intros H1 H2 cur. unfold Plus. rewrite <- app_assoc, H1. cbn [mbind outcome_bind].
  rewrite (accepts_Star _ _ _ _ H2). cbn. by rewrite app_assoc.
Qed.

Lemma rejects_Plus r t : rejects r t -> rejects (Plus r) t.
Proof. intros H cur. unfold Plus. by rewrite H. Qed.

(** *** Characters *)

(** A text that is empty or starts with a character that fails [f]. *)
Definition stops (f : ascii -> bool) (s : text) : Prop :=
  match s with [] => True | c :: _ => f c = false end.

Lemma accepts_Char c k : accepts (@Char L c) [c] k [].
Proof. intros cur. cbn. by rewrite bool_decide_true, app_nil_r. Qed.

Lemma rejects_Char c t : head t <> Some c -> rejects (@Char L c) t.
Proof.
  intros H cur. destruct t as [|x t]; cbn; [done|]. rewrite bool_decide_false; [done|].
  intros ->. by apply H.
Qed.

Lemma accepts_AnyChar c k : accepts (@AnyChar L) [c] k [].
Proof. intros cur. cbn. by rewrite app_nil_r. Qed.

Lemma accepts_set f c k : f c = true -> 0 <= char_value c -> accepts (@CharSetParser L f) [c] k [].
Proof.
  intros Hf Hc cur. cbn. destruct (Z.ltb_spec (char_value c) 0); [lia|]. by rewrite Hf, app_nil_r.
Qed.

Lemma rejects_set f t : stops f t -> plain t -> rejects (@CharSetParser L f) t.
Proof.
  intros Hf Hp cur. destruct t as [|c t]; cbn; [done|]. apply Forall_cons in Hp as [Hc _].
  destruct (Z.ltb_spec (char_value c) 0); [lia|]. cbn in Hf. by rewrite Hf.
Qed.

Lemma stars_set f t k : Forall (fun c => f c = true) t -> stops f k -> plain (t ++ k) ->
  stars (@CharSetParser L f) t k [].
Proof.
  intros Ht Hk. induction Ht as [|c t Hc _ IH]; intros Hp.
  - constructor. by apply rejects_set.
  - cbn in Hp. apply Forall_cons in Hp as [Hc' Hp].
    change (c :: t) with ([c] ++ t). change (@nil (node L)) with (@nil (node L) ++ []).
    constructor; [done| |by apply IH]. by apply accepts_set.
Qed.

(** *** Words *)

Fixpoint starts_ci (w t : text) : bool :=
  match w, t with
  | [], _ => true
  | _, [] => false
  | c :: w', x :: t' => bool_decide (ToLowercase x = c) && starts_ci w' t'
  end.

Lemma match_starts w t (cur : list (node L)) :
  match_ignore_case w (mkParser t cur) = (true, mkParser (drop (length w) t) cur) /\ starts_ci w t = true
  \/ (exists t', match_ignore_case w (mkParser t cur) = (false, mkParser t' cur)) /\ starts_ci w t = false.
Proof.
  revert t. induction w as [|c w IH]; intros t; cbn [match_ignore_case starts_ci]; [by left|].
  destruct t as [|x t]; cbn [mIter]; [right; eauto|].
  case_bool_decide; [apply (IH t)|]. right. cbn. eauto.
Qed.

Lemma accepts_word w t k : ToLowercase <$> t = w -> accepts (@CharSeqIgnoreCase L w) t k [].
Proof.
  intros Hw cur. unfold CharSeqIgnoreCase. destruct (match_starts w (t ++ k) cur) as [[-> _]|[_ Hs]].
  - rewrite <- Hw, length_fmap, drop_app_length, app_nil_r. done.
  - exfalso. revert Hs. rewrite <- Hw. clear. induction t as [|c t IH]; cbn; [done|].
    rewrite bool_decide_true by done. exact IH.
Qed.

Lemma rejects_word w t : starts_ci w t = false -> rejects (@CharSeqIgnoreCase L w) t.
Proof.
  intros Hw cur. unfold CharSeqIgnoreCase. destruct (match_starts w t cur) as [[_ Hs]|[[t' ->] _]]; [congruence|done].
Qed.

End Runs.

End Yard.
