(* ===== verification/FilterExpressionGrammar.v ===== *)
(** * The grammar of filter and query expressions
    (dds/DCPS/FilterExpressionGrammar.h)

    One definition per production, with the name of the production; [label] has
    the productions that are stored as nodes of the tree.  The recursion of [Cond]
    and [CondTail] is bounded by the length of the input: each of them consumes a
    character before it calls the other. *)

From Stdlib Require Import Ascii.
From S2P Require Import Prelude Yard.

Module FilterExpressionGrammar.
Import Yard.

Inductive label :=
| IntVal_l | CharVal_l | FloatVal_l | StrVal_l | ParamVal_l
| AND_l | OR_l | NOT_l
| OP_EQ_l | OP_LT_l | OP_GT_l | OP_LTEQ_l | OP_GTEQ_l | OP_NEQ_l | OP_LIKE_l
| FieldName_l | BetweenPred_l | CmpFnParam_l | CmpParamFn_l | CmpBothFn_l
| Cond_l | ORDERBY_l.

#[export] Instance label_eq : EqDecision label.
Proof. solve_decision. Defined.

Abbreviation rule := (rule label).
Abbreviation node := (node label).

(** The characters of a string constant. *)
Definition chars (s : string) : text := String.list_ascii_of_string s.
Arguments chars s%_string.

(** ** GrammarUtils *)

Definition WS : rule := CharSetParser WhiteSpaceCharSet.
Definition Tok (T : rule) : rule := Seq [T; Star WS].
Definition Keyword (T : rule) : rule := Tok (Seq [T; NotAlphaNum]).
Definition ST (l : label) (T : rule) : rule := Tok (Store l T).

Definition LPAREN : rule := Tok (Char "(").
Definition RPAREN : rule := Tok (Char ")").

Definition DelimitedList (R D : rule) : rule := Seq [R; Star (Seq [D; R])].

(** ** Literals *)

Definition OptPlusMinus : rule := Opt (Or [Char "+"; Char "-"]).
Definition IntValDec : rule :=
  Seq [OptPlusMinus; Plus Digit; NotAt Digit; NotAt (Or [Char "x"; Char "X"; Char "."])].
Definition IntValHex : rule := Seq [CharSeqIgnoreCase (chars "0x"); Plus HexDigit; NotAlphaNum].
Definition IntVal : rule := Or [IntValDec; IntValHex].

(** The quotes are the apostrophe and the grave accent. *)
Definition Quote : rule := CharSetParser (CharSet ["'"; "`"]%char).
Definition CharVal : rule := Seq [Quote; AnyChar; Char "'"].

Definition OptExp : rule := Opt (Seq [Char "e"; OptPlusMinus; Plus Digit]).
Definition FloatStartWithDigit : rule := Seq [Plus Digit; Opt (Char "."); Star Digit].
Definition FloatStartWithDot : rule := Seq [Char "."; Plus Digit].
Definition FloatVal : rule :=
  Seq [OptPlusMinus; Or [FloatStartWithDigit; FloatStartWithDot]; OptExp; NotAlphaNum].

Definition StrVal : rule := Seq [Quote; Star (AnyCharExcept (CharSet ["010"; "'"]%char)); Char "'"].

Definition ParamVal : rule := Seq [Char "%"; Digit; Opt Digit].

Definition Param : rule :=
  Tok (Or [Store IntVal_l IntVal; Store CharVal_l CharVal; Store FloatVal_l FloatVal;
           Store StrVal_l StrVal; Store ParamVal_l ParamVal]).

(** ** Keywords, operators, fields *)

Definition AND : rule := Keyword (CharSeqIgnoreCase (chars "and")).
Definition OR : rule := Keyword (CharSeqIgnoreCase (chars "or")).
Definition NOT : rule := Keyword (CharSeqIgnoreCase (chars "not")).
Definition BETWEEN : rule := Keyword (CharSeqIgnoreCase (chars "between")).

Definition OP_EQ : rule := Tok (Char "=").
Definition OP_LT : rule := Tok (Seq [Char "<"; NotAt (Or [Char "="; Char ">"])]).
Definition OP_GT : rule := Tok (Seq [Char ">"; NotAt (Char "=")]).
Definition OP_LTEQ : rule := Tok (Seq [Char "<"; Char "="]).
Definition OP_GTEQ : rule := Tok (Seq [Char ">"; Char "="]).
Definition OP_NEQ : rule := Tok (Seq [Char "<"; Char ">"]).
Definition OP_LIKE : rule := Keyword (CharSeqIgnoreCase (chars "like")).
Definition RelOp : rule :=
  Or [Store OP_EQ_l OP_EQ; Store OP_LT_l OP_LT; Store OP_GT_l OP_GT; Store OP_LTEQ_l OP_LTEQ;
      Store OP_GTEQ_l OP_GTEQ; Store OP_NEQ_l OP_NEQ; Store OP_LIKE_l OP_LIKE].

Definition FieldName : rule := DelimitedList (Seq [Letter; Star IdentNextChar]) (Char ".").

(** ** Predicates and conditions *)

Definition BetweenPred : rule :=
  Seq [ST FieldName_l FieldName; Opt (Store NOT_l NOT); BETWEEN; Param; AND; Param].
Definition CmpFnParam : rule := Seq [ST FieldName_l FieldName; RelOp; Param].
Definition CmpParamFn : rule := Seq [Param; RelOp; ST FieldName_l FieldName].
Definition CmpBothFn : rule := Seq [ST FieldName_l FieldName; RelOp; ST FieldName_l FieldName].
Definition Pred : rule :=
  Or [Store BetweenPred_l BetweenPred; Store CmpFnParam_l CmpFnParam;
      Store CmpParamFn_l CmpParamFn; Store CmpBothFn_l CmpBothFn].

Fixpoint Cond (fuel : nat) (p : parser label) {struct fuel} : outcome (bool * parser label) :=
  match fuel with
  | O => Fuel
  | S n =>
      Or [Seq [Pred; CondTail n];
          Seq [Store NOT_l NOT; Cond n; CondTail n];
          Seq [LPAREN; Store Cond_l (Cond n); RPAREN; CondTail n]] p
  end
with CondTail (fuel : nat) (p : parser label) {struct fuel} : outcome (bool * parser label) :=
  match fuel with
  | O => Fuel
  | S n => Opt (Seq [Or [Store AND_l AND; Store OR_l OR]; Cond n; CondTail n]) p
  end.

Definition FilterCompleteInput : rule := fun p =>
  Seq [Cond (S (length (mIter p))); EndOfInput] p.

Definition ORDERBY : rule := Keyword (CharSeqIgnoreCase (chars "order by")).
Definition Query : rule := fun p =>
  Seq [Opt (Cond (S (length (mIter p))));
       Opt (Seq [Store ORDERBY_l ORDERBY; DelimitedList (ST FieldName_l FieldName) (Tok (Char ","))])] p.
Definition QueryCompleteInput : rule := Seq [Query; EndOfInput].

(** [parser.Parse<Rule>()] on a new parser. *)
Definition Parse (r : rule) (input : text) : outcome (bool * list node) :=
  '(b, p) ← r (mkParser input []); Ret (b, current p).

End FilterExpressionGrammar.
