(* ===== verification/FilterValue.v ===== *)
(** * Values of filter expressions (the struct [Value] of dds/DCPS/FilterEvaluator.{h,cpp})

    A value is a tagged union; its tag and the active member are one constructor
    here.  Two values of different types are compared after [conversion], which
    prints one of them to a stream and reads it back as the type of the other.
    The streams are those of the C++ standard library: the integers, [bool],
    [char] and strings are modelled on the locale "C" and as libstdc++ extracts
    them; floating point, its printing and its extraction are parameters
    ([FloatOps]).  Strings are the characters before the terminating null. *)

From Stdlib Require Import Ascii.
From S2P Require Import Prelude Yard FilterExpressionGrammar.

Module FilterValue.
Import Yard FilterExpressionGrammar.

(** ** Floating point *)

(** [double] and [ACE_CDR::LongDouble] with what the evaluator does with them:
    comparison, [operator<<], [operator>>] (the value extracted and the
    characters left) and [std::atof]. *)
Class FloatOps := {
  double : Type; long_double : Type;
  d_eq : double -> double -> bool; d_lt : double -> double -> bool;
  d_insert : double -> text; d_extract : text -> double * text; atof : text -> double;
  ld_eq : long_double -> long_double -> bool; ld_lt : long_double -> long_double -> bool;
  ld_insert : long_double -> text; ld_extract : text -> long_double * text }.

(** ** Streams *)

Definition digit_value (c : ascii) : Z := Z.of_N (N_of_ascii c) - 48.
Definition digit_char (d : Z) : ascii := ascii_of_N (Z.to_N (48 + d)).

Fixpoint print_digits (fuel : nat) (n : Z) : text :=
  match fuel with
  | O => []
  | S fuel' => if n <? 10 then [digit_char n] else print_digits fuel' (n / 10) ++ [digit_char (n mod 10)]
  end.

(** [os << n] for an integer of at most 64 bits, which has at most 20 digits. *)
Definition insert_int (n : Z) : text :=
  if n <? 0 then "-"%char :: print_digits 20 (- n) else print_digits 20 n.

Definition isspace (c : ascii) : bool :=
  bool_decide (c ∈ [" "; "009"; "010"; "011"; "012"; "013"]%char).

(** The longest prefix of characters that satisfy [f], and what follows it. *)
Fixpoint span (f : ascii -> bool) (s : text) : text * text :=
  match s with
  | [] => ([], [])
  | c :: s' => if f c then let '(a, b) := span f s' in (c :: a, b) else ([], s)
  end.

Definition hex_value (c : ascii) : Z :=
  if DigitCharSet c then digit_value c
  else if CharSetRange "a" "f" c then Z.of_N (N_of_ascii c) - 87
  else Z.of_N (N_of_ascii c) - 55.

Definition value_of (base : Z) (dv : ascii -> Z) (ds : text) : Z :=
  foldl (fun n c => n * base + dv c) 0 ds.

(** The optional sign that [std::num_get] and [strtol] accept. *)
Definition take_sign (s : text) : bool * text :=
  match s with
  | "-"%char :: s' => (true, s')
  | "+"%char :: s' => (false, s')
  | _ => (false, s)
  end.

(** The value [num_get] stores for a magnitude: zero when there are no digits,
    the limit of the type when the number is out of range, and for an unsigned
    type the two's complement of a negative number. *)
Definition int_result (signed : bool) (w : Z) (neg : bool) (ds : text) (m : Z) : Z :=
  if bool_decide (ds = []) then 0
  else
    let max := if signed then (if neg then 2 ^ (w - 1) else 2 ^ (w - 1) - 1) else 2 ^ w - 1 in
    if max <? m then (if neg && signed then - 2 ^ (w - 1) else max)
    else if neg then (if signed then - m else uwrap w (- m)) else m.

Definition extract_int (signed : bool) (w : Z) (s : text) : Z * text :=
  let '(neg, s) := take_sign s in
  let '(ds, rest) := span DigitCharSet s in
  (int_result signed w neg ds (value_of 10 digit_value ds), rest).

(** [is >> std::hex >> value] for an [int]. *)
Definition extract_hex (s : text) : Z * text :=
  let '(neg, s) := take_sign s in
  let '(ds, rest) := span HexDigitCharSet s in
  (int_result true 32 neg ds (value_of 16 hex_value ds), rest).

(** [std::atoi]: the [long] of [strtol], converted to [int]. *)
Definition atoi (s : text) : Z :=
  let '(_, s) := span isspace s in
  let '(neg, s) := take_sign s in
  let '(ds, _) := span DigitCharSet s in
  swrap 32 (int_result true 64 neg ds (value_of 10 digit_value ds)).

(** ** Value *)

Section Value.
Context `{FloatOps}.

Inductive Type_ :=
| VAL_BOOL | VAL_INT | VAL_UINT | VAL_I64 | VAL_UI64 | VAL_FLOAT | VAL_LNGDUB | VAL_CHAR | VAL_STRING.

Definition type_index (t : Type_) : Z :=
  match t with
  | VAL_BOOL => 0 | VAL_INT => 1 | VAL_UINT => 2 | VAL_I64 => 3 | VAL_UI64 => 4
  | VAL_FLOAT => 5 | VAL_LNGDUB => 6 | VAL_CHAR => 7 | VAL_STRING => 8
  end.
Definition VAL_LARGEST_NUMERIC := VAL_LNGDUB.

#[global] Instance Type_eq : EqDecision Type_.
Proof. solve_decision. Defined.

(** The union, with its active member. *)
Inductive member :=
| b_ (b : bool) | i_ (i : Z) | u_ (u : Z) | l_ (l : Z) | m_ (m : Z)
| f_ (f : double) | ld_ (ld : long_double) | c_ (c : ascii) | s_ (s : text).

Record Value := mkValue { union_ : member; conversion_preferred_ : bool }.

Definition member_type (m : member) : Type_ :=
  match m with
  | b_ _ => VAL_BOOL | i_ _ => VAL_INT | u_ _ => VAL_UINT | l_ _ => VAL_I64 | m_ _ => VAL_UI64
  | f_ _ => VAL_FLOAT | ld_ _ => VAL_LNGDUB | c_ _ => VAL_CHAR | s_ _ => VAL_STRING
  end.
Definition type_ (v : Value) : Type_ := member_type (union_ v).

(** [strcmp] compares unsigned characters. *)
Fixpoint strcmp_lt (s t : text) : bool :=
  match s, t with
  | _, [] => false
  | [], _ => true
  | a :: s', b :: t' =>
      (N_of_ascii a <? N_of_ascii b)%N || (bool_decide (a = b) && strcmp_lt s' t')
  end.

(** [Equals] and [Less]: both read the member of the left value that the type of
    the right one selects; the caller has made the types equal. *)
Definition equals (lhs rhs : member) : outcome bool :=
  match lhs, rhs with
  | b_ x, b_ y => Ret (eqb x y)
  | i_ x, i_ y | u_ x, u_ y | l_ x, l_ y | m_ x, m_ y => Ret (x =? y)
  | f_ x, f_ y => Ret (d_eq x y)
  | ld_ x, ld_ y => Ret (ld_eq x y)
  | c_ x, c_ y => Ret (bool_decide (x = y))
  | s_ x, s_ y => Ret (bool_decide (x = y))
  | _, _ => UB
  end.

Definition less (lhs rhs : member) : outcome bool :=
  match lhs, rhs with
  | b_ x, b_ y => Ret (negb x && y)
  | i_ x, i_ y | u_ x, u_ y | l_ x, l_ y | m_ x, m_ y => Ret (x <? y)
  | f_ x, f_ y => Ret (d_lt x y)
  | ld_ x, ld_ y => Ret (ld_lt x y)
  | c_ x, c_ y => Ret (char_value x <? char_value y)
  | s_ x, s_ y => Ret (strcmp_lt x y)
  | _, _ => UB
  end.

(** [StreamInsert]: the text of the stream. *)
Definition StreamInsert (m : member) : text :=
  match m with
  | b_ b => if b then ["1"%char] else ["0"%char]
  | i_ n | u_ n | l_ n | m_ n => insert_int n
  | f_ d => d_insert d
  | ld_ d => ld_insert d
  | c_ c => [c]
  | s_ s => s
  end.

(** [StreamExtract] into the member of type [t], of which only [i_] has been
    written, with zero; the second result is [iss.eof()].  When white space is all
    there is, nothing is stored, and a member wider than [i_] is read without
    having been written.  The extraction of a [char] does not reach the end of the
    stream. *)
Definition StreamExtract (t : Type_) (s : text) : outcome (member * bool) :=
  let '(_, s) := span isspace s in
  if bool_decide (s = []) then
    match t with
    | VAL_BOOL => Ret (b_ false, true)
    | VAL_INT => Ret (i_ 0, true)
    | VAL_UINT => Ret (u_ 0, true)
    | VAL_CHAR => Ret (c_ "000"%char, true)
    | _ => UB
    end
  else
    let num (mk : Z -> member) (x : Z * text) := Ret (mk x.1, bool_decide (x.2 = [])) in
    match t with
    | VAL_BOOL => num (fun l => b_ (negb (l =? 0))) (extract_int true 64 s)
    | VAL_INT => num i_ (extract_int true 32 s)
    | VAL_UINT => num u_ (extract_int false 32 s)
    | VAL_I64 => num l_ (extract_int true 64 s)
    | VAL_UI64 => num m_ (extract_int false 64 s)
    | VAL_FLOAT => let '(d, rest) := d_extract s in Ret (f_ d, bool_decide (rest = []))
    | VAL_LNGDUB => let '(d, rest) := ld_extract s in Ret (ld_ d, bool_decide (rest = []))
    | VAL_CHAR => Ret (c_ (default "000"%char (head s)), false)
    | VAL_STRING => UB
    end.

(** The characters before the first null. *)
Definition c_str (s : text) : text := (span (fun c => negb (bool_decide (c = "000"%char))) s).1.

Definition convert (v : Value) (t : Type_) : outcome (bool * Value) :=
  let asString := StreamInsert (union_ v) in
  if bool_decide (t = VAL_STRING) then Ret (true, mkValue (s_ (c_str asString)) false)
  else
    '(newval, eof) ← StreamExtract t asString;
    if (eof : bool) then Ret (true, mkValue newval false) else Ret (false, v).

(** [conversion]: the two values, converted. *)
Definition conversion (lhs rhs : Value) : outcome (Value * Value) :=
  if bool_decide (type_ lhs = type_ rhs) then Ret (lhs, rhs)
  else
    let left_smaller := type_index (type_ lhs) <? type_index (type_ rhs) in
    let smaller := if left_smaller then lhs else rhs in
    let larger := if left_smaller then rhs else lhs in
    '(ok, smaller, larger) ←
      (if conversion_preferred_ smaller then
         '(ok, v) ← convert smaller (type_ larger); Ret (ok, v, larger)
       else if conversion_preferred_ larger then
         '(ok, v) ← convert larger (type_ smaller); Ret (ok, smaller, v)
       else if bool_decide (type_ smaller = VAL_CHAR) && bool_decide (type_ larger = VAL_STRING) then
         '(ok, v) ← convert smaller VAL_STRING; Ret (ok, v, larger)
       else if type_index (type_ larger) <=? type_index VAL_LARGEST_NUMERIC then
         '(ok, v) ← convert smaller (type_ larger); Ret (ok, v, larger)
       else if bool_decide (type_ larger = VAL_STRING) then
         '(ok, v) ← convert larger (type_ smaller);
         if (ok : bool) then Ret (true, smaller, v)
         else '(ok, v) ← convert smaller VAL_STRING; Ret (ok, v, larger)
       else Ret (false, smaller, larger));
    if (ok : bool) then Ret (if left_smaller then (smaller, larger) else (larger, smaller)) else Throw.

Definition value_eq (x y : Value) : outcome bool :=
  '(lhs, rhs) ← conversion x y; equals (union_ lhs) (union_ rhs).
Definition value_lt (x y : Value) : outcome bool :=
  '(lhs, rhs) ← conversion x y; less (union_ lhs) (union_ rhs).

(** ** [like] *)

(** The loop that puts a backslash before each [?] and [*]. *)
Fixpoint escape_wild (pattern : text) : text :=
  match pattern with
  | [] => []
  | c :: p => if bool_decide (c ∈ ["?"; "*"]%char) then "\"%char :: c :: escape_wild p else c :: escape_wild p
  end.

Definition translate_wild (c : ascii) : ascii :=
  if bool_decide (c = "_"%char) then "?"%char else if bool_decide (c = "%"%char) then "*"%char else c.

Definition like_pattern (pattern : text) : text := translate_wild <$> escape_wild pattern.

(** [ACE::wild_match(str, pattern, true, true)]. *)
Context (wild_match : text -> text -> bool).

Definition like (x y : Value) : outcome bool :=
  match union_ x, union_ y with
  | s_ s, s_ pattern => Ret (wild_match s (like_pattern pattern))
  | _, _ => Throw
  end.

End Value.

(** ** Printing and extracting integers *)

Lemma span_app f s rest : Forall (fun c => f c = true) s -> stops f rest -> span f (s ++ rest) = (s, rest).
Proof.
  induction 1 as [|c s Hc _ IH]; intros Hr; cbn [app].
  - destruct rest as [|c rest]; [done|]. cbn in Hr |- *. by rewrite Hr.
  - cbn [span]. rewrite Hc, (IH Hr). done.
Qed.

Lemma span_all f s : Forall (fun c => f c = true) s -> span f s = (s, []).
Proof. intros H. rewrite <- (app_nil_r s) at 1. by apply span_app. Qed.

Lemma span_none f s : stops f s -> span f s = ([], s).
Proof. intros H. exact (span_app f [] s (Forall_nil_2 _) H). Qed.

Lemma digit_char_code d : 0 <= d < 10 -> Z.of_N (N_of_ascii (digit_char d)) = 48 + d.
Proof. intros Hd. unfold digit_char. rewrite N_ascii_embedding by lia. lia. Qed.

Lemma digit_value_char d : 0 <= d < 10 -> digit_value (digit_char d) = d.
Proof. intros Hd. unfold digit_value. rewrite digit_char_code by done. lia. Qed.

Lemma digit_char_digit d : 0 <= d < 10 -> DigitCharSet (digit_char d) = true.
Proof.
  intros Hd. pose proof (digit_char_code d Hd). unfold DigitCharSet, CharSetRange.
  change (N_of_ascii "0") with 48%N. change (N_of_ascii "9") with 57%N.
  apply andb_true_intro. split; apply N.leb_le; lia.
Qed.

Lemma print_digits_digits fuel n : 0 <= n -> Forall (fun c => DigitCharSet c = true) (print_digits fuel n).
Proof.
  revert n. induction fuel as [|fuel IH]; intros n Hn; cbn [print_digits]; [constructor|].
  destruct (Z.ltb_spec n 10).
  - repeat constructor. apply digit_char_digit. lia.
  - apply Forall_app. split; [apply IH, Z.div_pos; lia|]. repeat constructor.
    apply digit_char_digit, Z.mod_pos_bound. lia.
Qed.

Lemma print_digits_ne fuel n : print_digits (S fuel) n <> [].
Proof. cbn [print_digits]. destruct (n <? 10); [done|]. by intros [_ ?]%app_nil. Qed.

Lemma value_of_snoc b dv ds c : value_of b dv (ds ++ [c]) = value_of b dv ds * b + dv c.
Proof. unfold value_of. by rewrite foldl_app. Qed.

Lemma print_digits_value fuel n : 0 <= n < 10 ^ Z.of_nat fuel ->
  value_of 10 digit_value (print_digits fuel n) = n.
Proof.
  revert n. induction fuel as [|fuel IH]; intros n Hn; cbn [print_digits].
  { change (10 ^ Z.of_nat 0) with 1 in Hn. cbn. lia. }
  destruct (Z.ltb_spec n 10).
  - cbn. rewrite digit_value_char; lia.
  - replace (Z.of_nat (S fuel)) with (Z.succ (Z.of_nat fuel)) in Hn by lia. rewrite Z.pow_succ_r in Hn by lia.
    rewrite value_of_snoc, IH, digit_value_char; [|apply Z.mod_pos_bound; lia|].
    2:{ split; [apply Z.div_pos; lia|apply Z.div_lt_upper_bound; lia]. }
    pose proof (Z.div_mod n 10). lia.
Qed.

(** An integer of at most 64 bits. *)
Definition fits (z : Z) : Prop := - 2 ^ 64 < z < 2 ^ 64.

Lemma digit_not_space c : DigitCharSet c = true -> isspace c = false.
Proof.
  unfold DigitCharSet, CharSetRange, isspace. intros [Hc _]%andb_prop. apply N.leb_le in Hc.
  apply bool_decide_eq_false. intros Hin.
  repeat (apply elem_of_cons in Hin as [->|Hin]; [by vm_compute in Hc|]). by apply not_elem_of_nil in Hin.
Qed.

Lemma digit_no_sign c s : DigitCharSet c = true -> take_sign (c :: s) = (false, c :: s).
Proof.
  intros Hc. destruct (decide (c = "-"%char)) as [->|H1]; [done|].
  destruct (decide (c = "+"%char)) as [->|H2]; [done|].
  destruct c as [[] [] [] [] [] [] [] []]; done.
Qed.

Lemma print_digits_cons n : 0 <= n -> exists c s, print_digits 20 n = c :: s /\ DigitCharSet c = true.
Proof.
  intros Hn. pose proof (print_digits_digits 20 n Hn) as Hd. pose proof (print_digits_ne 19 n) as Hne.
  destruct (print_digits 20 n) as [|c s]; [done|]. exists c, s. by inversion Hd.
Qed.

Lemma fits_digits n : 0 <= n < 2 ^ 64 -> value_of 10 digit_value (print_digits 20 n) = n.
Proof. intros Hn. apply print_digits_value. assert (2 ^ 64 < 10 ^ Z.of_nat 20) by done. lia. Qed.

(** The sign and the digits of a printed integer, with what follows it. *)
Lemma read_sign_digits z k : fits z -> stops DigitCharSet k ->
  exists ds, take_sign (insert_int z ++ k) = (z <? 0, ds ++ k) /\ span DigitCharSet (ds ++ k) = (ds, k)
    /\ ds <> [] /\ value_of 10 digit_value ds = Z.abs z.
Proof.
  intros Hz Hk. unfold fits in Hz. exists (print_digits 20 (Z.abs z)).
  split_and!; [|by apply span_app; [apply print_digits_digits; lia|]|apply print_digits_ne|apply fits_digits; lia].
  unfold insert_int. destruct (Z.ltb_spec z 0).
  - replace (- z) with (Z.abs z) by lia. done.
  - replace (Z.abs z) with z by lia. destruct (print_digits_cons z) as (c & s & -> & Hc); [done|].
    cbn [app]. by apply digit_no_sign.
Qed.

Lemma insert_int_start z : fits z ->
  exists c s, insert_int z = c :: s /\ (DigitCharSet c = true \/ c = "-"%char).
Proof.
  intros Hz. unfold fits in Hz. unfold insert_int. destruct (Z.ltb_spec z 0); [by eexists _, _; split; [done|right]|].
  destruct (print_digits_cons z) as (c & s & -> & Hc); [done|]. by exists c, s; split; [|left].
Qed.

Definition int_range (signed : bool) (w z : Z) : Prop := if signed then is_s w z else is_u w z.

Lemma extract_insert signed w z : 1 <= w <= 64 -> int_range signed w z ->
  extract_int signed w (insert_int z) = (z, []).
Proof.
  intros Hw Hz. assert (2 ^ w <= 2 ^ 64) by (apply Z.pow_le_mono_r; lia).
  assert (2 ^ (w - 1) <= 2 ^ 63) by (apply Z.pow_le_mono_r; lia).
  assert (Hfit : fits z) by (unfold fits; unfold int_range, is_s, is_u in Hz; destruct signed; lia).
  destruct (read_sign_digits z [] Hfit Logic.I) as (ds & Hs & Hd & Hne & Hv). rewrite !app_nil_r in *.
  unfold extract_int. rewrite Hs, Hd, Hv. f_equal. unfold int_result. rewrite bool_decide_false by done.
  unfold int_range, is_s, is_u in Hz.
  destruct signed, (Z.ltb_spec z 0); cbn [andb]; try lia;
    match goal with |- context [?a <? Z.abs z] => destruct (Z.ltb_spec a (Z.abs z)) end; lia.
Qed.

Lemma atoi_insert z : is_s 32 z -> atoi (insert_int z) = z.
Proof.
  intros Hz. assert (Hfit : fits z) by (unfold fits, is_s in *; cbn in *; lia).
  destruct (insert_int_start z Hfit) as (c & s & Hi & Hc).
  destruct (read_sign_digits z [] Hfit Logic.I) as (ds & Hs & Hd & Hne & Hv). rewrite !app_nil_r in *.
  unfold atoi. rewrite span_none.
  - rewrite Hs, Hd, Hv. unfold int_result. rewrite bool_decide_false by done.
    transitivity (swrap 32 z); [f_equal|by apply swrap_small].
    unfold is_s in Hz. change (2 ^ (32 - 1)) with 2147483648 in Hz.
    change (2 ^ (64 - 1)) with 9223372036854775808. destruct (Z.ltb_spec z 0); cbn [andb];
      match goal with |- context [?a <? Z.abs z] => destruct (Z.ltb_spec a (Z.abs z)) end; lia.
  - rewrite Hi. destruct Hc as [Hc| ->]; [by apply digit_not_space|done].
Qed.

End FilterValue.
