(* ===== verification/FilterEvaluator.v ===== *)
(** * The filter evaluator (dds/DCPS/FilterEvaluator.{h,cpp}, AstNodeWrapper.h)

    The constructor parses the expression and folds the nodes of the tree into a
    tree of evaluation nodes ([walkAst]); [eval] computes it on a sample.  A sample
    is seen through [DataForEval]: a [lookup] of fields, which for a serialized
    sample keeps a cache and so threads a state, and the expression parameters. *)

From Stdlib Require Import Ascii.
From S2P Require Import Prelude MessageBlock SequenceNumber Serializer Yard FilterExpressionGrammar FilterValue.

(* The children of an evaluation node are a list of nodes. *)
#[local] Set Warnings "-register-all".

Module FilterEvaluator.
Import MessageBlock Serializer Yard FilterExpressionGrammar FilterValue.

(** ** Nodes of the tree *)

Definition node_rule (n : node) : label := let '(Node l _ _ _) := n in l.
Definition node_children (n : node) : list node := let '(Node _ _ _ c) := n in c.
Definition TypeMatches (l : label) (n : node) : bool := bool_decide (node_rule n = l).

(** The characters between the two iterators of the node. *)
Definition toString (n : node) : text :=
  let '(Node _ first last _) := n in take (length first - length last) first.

(** ** Evaluation nodes *)

Inductive Operator :=
| OPER_EQ | OPER_LT | OPER_GT | OPER_LTEQ | OPER_GTEQ | OPER_NEQ | OPER_LIKE | OPER_INVALID.

#[export] Instance Operator_eq : EqDecision Operator.
Proof. solve_decision. Defined.

Inductive LogicalOp := LG_AND | LG_OR | LG_NOT.
#[export] Instance LogicalOp_eq : EqDecision LogicalOp.
Proof. solve_decision. Defined.

Section Evaluator.
Context `{FloatOps}.
(** [ACE::wild_match(str, pattern, true, true)]. *)
Context (wild_match : text -> text -> bool).

(** The operands; [NoOperand] is the null pointer. *)
Inductive Operand :=
| FieldLookup (fieldName_ : text) | LiteralInt (value_ : Z) | LiteralChar (value_ : ascii)
| LiteralFloat (value_ : double) | LiteralString (value_ : text) | ParameterRef (param_ : Z)
| NoOperand.

(** The children of a comparison and of a range test are its operands, kept to be
    deleted with it; only those of a logical node are evaluated. *)
Inductive EvalNode :=
| Comparison (left_ : Operand) (oper_type_ : Operator) (right_ : Operand)
| Between (invert_ : bool) (field_ left_ right_ : Operand)
| Logical (op_ : LogicalOp) (children_ : list EvalNode).

Definition addChild (parent child : EvalNode) : EvalNode :=
  match parent with
  | Logical op cs => Logical op (cs ++ [child])
  | _ => parent
  end.

(** *** Construction *)

Definition new_LiteralInt (n : node) : Operand :=
  let strVal := toString n in
  match strVal with
  | "0"%char :: x :: _ :: _ =>
      if bool_decide (x ∈ ["x"; "X"]%char) then LiteralInt (extract_hex (drop 2 strVal)).1
      else LiteralInt (atoi strVal)
  | _ => LiteralInt (atoi strVal)
  end.

Definition new_LiteralChar (n : node) : outcome Operand :=
  c ← deref (toString n !! 1%nat); Ret (LiteralChar c).

(** [substr(1)] throws on the empty string; erasing at [length() - 1] of an empty
    string throws. *)
Definition new_LiteralString (n : node) : outcome Operand :=
  match toString n with
  | [] => Throw
  | _ :: s => if bool_decide (s = []) then Throw else Ret (LiteralString (take (length s - 1) s))
  end.

Definition new_Parameter (n : node) : outcome Operand :=
  match toString n with
  | [] => UB
  | _ :: s => Ret (ParameterRef (atoi s))
  end.

Definition createOperand (n : node) : outcome Operand :=
  if TypeMatches FieldName_l n then Ret (FieldLookup (toString n))
  else if TypeMatches IntVal_l n then Ret (new_LiteralInt n)
  else if TypeMatches CharVal_l n then new_LiteralChar n
  else if TypeMatches FloatVal_l n then Ret (LiteralFloat (atof (toString n)))
  else if TypeMatches StrVal_l n then new_LiteralString n
  else if TypeMatches ParamVal_l n then new_Parameter n
  else Ret NoOperand.

Definition setOperator (n : node) : Operator :=
  if TypeMatches OP_EQ_l n then OPER_EQ
  else if TypeMatches OP_LT_l n then OPER_LT
  else if TypeMatches OP_GT_l n then OPER_GT
  else if TypeMatches OP_LTEQ_l n then OPER_LTEQ
  else if TypeMatches OP_GTEQ_l n then OPER_GTEQ
  else if TypeMatches OP_NEQ_l n then OPER_NEQ
  else if TypeMatches OP_LIKE_l n then OPER_LIKE
  else OPER_INVALID.

(** A list of siblings from the one [iter] points to; past the last one [iter] is
    null. *)
Definition new_Comparison (cmpNode : node) : outcome EvalNode :=
  match node_children cmpNode with
  | l :: o :: r :: _ =>
      vl ← createOperand l; vr ← createOperand r;
      Ret (Comparison vl (setOperator o) vr)
  | _ => UB
  end.

Definition new_Between (btwNode : node) : outcome EvalNode :=
  match node_children btwNode with
  | f :: iter =>
      let field := FieldLookup (toString f) in
      n ← deref (head iter);
      let invert := TypeMatches NOT_l n in
      let iter := if invert then tail iter else iter in
      l ← deref (head iter); vl ← createOperand l;
      r ← deref (head (tail iter)); vr ← createOperand r;
      Ret (Between invert field vl vr)
  | [] => UB
  end.

(** A null child, which would be dereferenced by the first evaluation, is undefined
    behaviour at once.

    [Logical(op, prev)]: takes [prev] as its first child unless it is a negation;
    the second result is what is left in [prev]. *)
Definition new_Logical (op : LogicalOp) (prev : option EvalNode) : outcome (EvalNode * option EvalNode) :=
  if bool_decide (op = LG_NOT) then Ret (Logical op [], prev)
  else l ← deref prev; Ret (Logical op [l], None).

(** The end of [walkAst]: the new node becomes a child of [prev], if there is one. *)
Definition attach (eval : option EvalNode) (prev : option EvalNode) : outcome (option EvalNode) :=
  match prev with
  | None => Ret eval
  | Some pn => e ← deref eval; Ret (Some (addChild pn e))
  end.

(** [assert(0)] of an unexpected node is undefined behaviour here. *)
Fixpoint walkAst (n : node) (prev : option EvalNode) {struct n} : outcome (option EvalNode) :=
  let '(Node l _ _ children) := n in
  let logical op := '(e, prev) ← new_Logical op prev; attach (Some e) prev in
  match l with
  | CmpFnParam_l | CmpParamFn_l | CmpBothFn_l => e ← new_Comparison n; attach (Some e) prev
  | BetweenPred_l => e ← new_Between n; attach (Some e) prev
  | AND_l => logical LG_AND
  | OR_l => logical LG_OR
  | NOT_l => logical LG_NOT
  | Cond_l =>
      e ← (fix walk (ns : list node) (eval : option EvalNode) :=
             match ns with
             | [] => Ret eval
             | c :: ns' => e ← walkAst c eval; walk ns' e
             end) children None;
      attach e prev
  | _ => UB
  end.

Fixpoint walk_all (ns : list node) (eval : option EvalNode) : outcome (option EvalNode) :=
  match ns with
  | [] => Ret eval
  | c :: ns' => e ← walkAst c eval; walk_all ns' e
  end.

Record FilterEvaluator := mkFE { filter_root_ : option EvalNode; order_bys_ : list text }.

(** The loop of the constructor over the children of the root. *)
Fixpoint build_loop (ns : list node) (found_order_by : bool) (fe : FilterEvaluator) : outcome FilterEvaluator :=
  match ns with
  | [] => Ret fe
  | n :: ns' =>
      if TypeMatches ORDERBY_l n then build_loop ns' true fe
      else if found_order_by && TypeMatches FieldName_l n then
        build_loop ns' found_order_by (mkFE (filter_root_ fe) (order_bys_ fe ++ [toString n]))
      else
        root ← walkAst n (filter_root_ fe);
        build_loop ns' found_order_by (mkFE root (order_bys_ fe))
  end.

(** [reportErrors] throws. *)
Definition new_FilterEvaluator (filter : text) (allowOrderBy : bool) : outcome FilterEvaluator :=
  '(ok, nodes) ← Parse (if allowOrderBy then QueryCompleteInput else FilterCompleteInput) filter;
  if (ok : bool) then build_loop nodes false (mkFE None []) else Throw.

(** [FilterEvaluator(const AstNodeWrapper&)]. *)
Definition FilterEvaluator_of_node (yardNode : node) : outcome FilterEvaluator :=
  root ← walkAst yardNode None; Ret (mkFE root []).

Definition getOrderBys (fe : FilterEvaluator) : list text := order_bys_ fe.
Definition hasFilter (fe : FilterEvaluator) : bool := bool_decide (is_Some (filter_root_ fe)).

(** *** Evaluation *)

(** A sample and the expression parameters. *)
Record DataForEval (S : Type) := mkData {
  lookup : text -> S -> outcome (Value * S);
  params_ : list text }.
Arguments mkData {S}. Arguments lookup {S}. Arguments params_ {S}.

Section Eval.
Context {S : Type} (data : DataForEval S).

Definition literal (m : member) : Value := mkValue m true.

Definition eval_operand (o : Operand) (st : S) : outcome (Value * S) :=
  match o with
  | FieldLookup f => lookup data f st
  | LiteralInt z => Ret (literal (i_ z), st)
  | LiteralChar c => Ret (literal (c_ c), st)
  | LiteralFloat d => Ret (literal (f_ d), st)
  | LiteralString s => Ret (literal (s_ s), st)
  | ParameterRef n => s ← deref (params_ data !! Z.to_nat n); Ret (literal (s_ s), st)
  | NoOperand => UB
  end.

Definition compare (op : Operator) (left right : Value) : outcome bool :=
  match op with
  | OPER_EQ => value_eq left right
  | OPER_LT => value_lt left right
  | OPER_GT => value_lt right left
  | OPER_LTEQ => b ← value_lt right left; Ret (negb b)
  | OPER_GTEQ => b ← value_lt left right; Ret (negb b)
  | OPER_NEQ => b ← value_eq left right; Ret (negb b)
  | OPER_LIKE => like wild_match left right
  | OPER_INVALID => Ret false
  end.

(** [!(field < left) && !(right < field)]. *)
Definition between (field left right : Value) : outcome bool :=
  below ← value_lt field left;
  if (below : bool) then Ret false else above ← value_lt right field; Ret (negb above).

(** The member [b_] of a value; that of a value of another type has not been
    written. *)
Definition as_bool (v : Value) : outcome bool :=
  match union_ v with b_ b => Ret b | _ => UB end.

Definition of_bool (b : bool) : Value := mkValue (b_ b) false.

Fixpoint eval_node (n : EvalNode) (st : S) {struct n} : outcome (Value * S) :=
  match n with
  | Comparison l op r =>
      '(vl, st) ← eval_operand l st; '(vr, st) ← eval_operand r st;
      b ← compare op vl vr; Ret (of_bool b, st)
  | Between invert f l r =>
      '(field, st) ← eval_operand f st; '(vl, st) ← eval_operand l st; '(vr, st) ← eval_operand r st;
      btwn ← between field vl vr;
      Ret (of_bool (if invert then negb btwn else btwn), st)
  | Logical op children =>
      match children with
      | [] => UB
      | c0 :: rest =>
          '(vl, st) ← eval_node c0 st;
          b ← as_bool vl;
          let second := match rest with [] => UB | c1 :: _ => eval_node c1 st end in
          match op with
          | LG_NOT => Ret (of_bool (negb b), st)
          | LG_AND => if (b : bool) then second else Ret (of_bool false, st)
          | LG_OR => if (b : bool) then Ret (of_bool true, st) else second
          end
      end
  end.

Definition eval_i (fe : FilterEvaluator) (st : S) : outcome (bool * S) :=
  root ← deref (filter_root_ fe);
  '(v, st) ← eval_node root st; b ← as_bool v; Ret (b, st).

End Eval.

(** ** The two kinds of sample *)

(** [DeserializedForEval]: [getValue] of the generated [MetaStruct] on the
    structure. *)
Definition DeserializedForEval (getValue : text -> outcome Value) (params : list text) : DataForEval unit :=
  mkData (fun field st => v ← getValue field; Ret (v, st)) params.

Definition eval_deserialized (fe : FilterEvaluator) (getValue : text -> outcome Value) (params : list text) :
    outcome bool :=
  '(b, _) ← eval_i (DeserializedForEval getValue params) fe (); Ret b.

Section Serialized.
Context {MB : Type} `{MessageBlock MB}.

(** [getValue] on a serializer; the message block is duplicated for each lookup, so
    that the read pointers of the sample stay. *)
Definition serialized_value (getValue : @Serializer MB -> text -> outcome Value) (serialized_ : list MB)
    (swap_ cdr_ : bool) (field : text) : outcome Value :=
  let ser := mk_serializer serialized_ swap_ (if cdr_ then ALIGN_CDR else ALIGN_NONE) in
  ser ← (if cdr_ then '(s, _) ← skip ser 4 1; Ret s else Ret ser);
  getValue ser field.

(** [SerializedForEval]: the state is the cache. *)
Definition cached_lookup (value : text -> outcome Value) (field : text) (cache_ : gmap text Value) :
    outcome (Value * gmap text Value) :=
  match cache_ !! field with
  | Some v => Ret (v, cache_)
  | None => v ← value field; Ret (v, <[field := v]> cache_)
  end.

Definition SerializedForEval (getValue : @Serializer MB -> text -> outcome Value) (data : list MB)
    (params : list text) (swap cdr : bool) : DataForEval (gmap text Value) :=
  mkData (cached_lookup (serialized_value getValue data swap cdr)) params.

Definition eval_serialized (fe : FilterEvaluator) (getValue : @Serializer MB -> text -> outcome Value)
    (data : list MB) (swap cdr : bool) (params : list text) : outcome bool :=
  '(b, _) ← eval_i (SerializedForEval getValue data params swap cdr) fe ∅; Ret b.

End Serialized.
End Evaluator.
Arguments mkData {_ _} _ _.
Arguments lookup {_ _} _ _ _.
Arguments params_ {_ _} _.
End FilterEvaluator.
