(* ===== verification/FilterTree.v ===== *)
(** * The trees of the filter grammar

    Every production of the grammar returns on seven-bit input, and the nodes it
    leaves behind, those of attempts that failed included, have the shape that
    [walkAst] and the constructors of the evaluation nodes rely on. *)

From Stdlib Require Import Ascii.
From S2P Require Import Prelude MessageBlock SequenceNumber Serializer Yard FilterExpressionGrammar FilterValue FilterEvaluator.

(* The shape of a nested node is a list of shapes. *)
#[local] Set Warnings "-register-all".

Module FilterTree.
Import Yard FilterExpressionGrammar FilterValue FilterEvaluator.

(** ** Shapes *)

(** A stored token of at least [k] characters. *)
Definition token (l : label) (k : nat) (n : node) : Prop :=
  exists u rest, n = Node l (u ++ rest) rest [] /\ (k <= length u)%nat.

Definition param_node (n : node) : Prop :=
  token IntVal_l 1 n \/ token CharVal_l 3 n \/ token FloatVal_l 1 n \/ token StrVal_l 2 n \/ token ParamVal_l 2 n.

Definition operand_node (n : node) : Prop := token FieldName_l 1 n \/ param_node n.

Definition pred_node (n : node) : Prop :=
  (exists l first last a o b, n = Node l first last [a; o; b]
     /\ l ∈ [CmpFnParam_l; CmpParamFn_l; CmpBothFn_l] /\ operand_node a /\ operand_node b)
  \/ (exists first last f inv a b, n = Node BetweenPred_l first last (f :: inv ++ [a; b])
        /\ (inv = [] \/ exists m, inv = [m] /\ node_rule m = NOT_l) /\ param_node a /\ param_node b).

(** A node that needs a left operand. *)
Definition infix (n : node) : bool := bool_decide (node_rule n ∈ [AND_l; OR_l]).

Definition starts_operand (ns : list node) : Prop :=
  match ns with [] => True | n :: _ => infix n = false end.

Inductive cond_node : node -> Prop :=
| cond_pred n : pred_node n -> cond_node n
| cond_word l first last : l ∈ [AND_l; OR_l; NOT_l] -> cond_node (Node l first last [])
| cond_nested first last ns :
    ns <> [] -> starts_operand ns -> Forall cond_node ns -> cond_node (Node Cond_l first last ns).

Definition cond_nodes (ns : list node) : Prop := starts_operand ns /\ Forall cond_node ns.

Lemma cond_nodes_nil : cond_nodes [].
Proof. done. Qed.

Lemma cond_nodes_app ns1 ns2 : cond_nodes ns1 -> Forall cond_node ns2 -> (ns1 = [] -> starts_operand ns2) ->
  cond_nodes (ns1 ++ ns2).
Proof.
  intros [H1 H2] H3 H4. split; [|by apply Forall_app].
  destruct ns1; [by apply H4|done].
Qed.

Lemma pred_not_infix n : pred_node n -> infix n = false.
Proof.
  intros [(l & ? & ? & ? & ? & ? & -> & Hl & _)|(? & ? & ? & ? & ? & ? & -> & _)]; [|done].
  unfold infix. cbn. apply bool_decide_eq_false. set_solver.
Qed.

(** ** Tokens *)

(** Finds how much a rule built of combinators consumes at least. *)
Ltac lex_rule := eapply lex_le; [exact _|cbn; lia].

#[export] Instance lex_WS : Lex 1 WS := lex_CharSetParser _.
#[export] Instance lex_Tok k r : Lex k r -> Lex k (Tok r).
Proof. intros H. unfold Tok. eapply lex_le; [exact _|lia]. Qed.
#[export] Instance lex_Keyword k r : Lex k r -> Lex k (Keyword r).
Proof. intros H. unfold Keyword, NotAlphaNum, IdentNextChar. eapply lex_le; [exact _|lia]. Qed.

#[export] Instance lex_IntVal : Lex 1 IntVal.
Proof. unfold IntVal, IntValDec, IntValHex, OptPlusMinus, NotAlphaNum, HexDigit, Digit, IdentNextChar. lex_rule. Qed.
#[export] Instance lex_CharVal : Lex 3 CharVal.
Proof. unfold CharVal, Quote. lex_rule. Qed.
#[export] Instance lex_FloatVal : Lex 1 FloatVal.
Proof.
  unfold FloatVal, FloatStartWithDigit, FloatStartWithDot, OptExp, OptPlusMinus, NotAlphaNum, Digit, IdentNextChar.
  lex_rule.
Qed.
#[export] Instance lex_StrVal : Lex 2 StrVal.
Proof. unfold StrVal, Quote, AnyCharExcept. lex_rule. Qed.
#[export] Instance lex_ParamVal : Lex 2 ParamVal.
Proof. unfold ParamVal, Digit. lex_rule. Qed.
#[export] Instance lex_FieldName : Lex 1 FieldName.
Proof. unfold FieldName, DelimitedList, Letter, IdentNextChar. lex_rule. Qed.

(** ** Stored nodes *)

(** A rule that stores one node with property [P], or nothing. *)
Definition stores (r : rule) (P : node -> Prop) : Prop :=
  forall N, spec N r (fun u ns => (1 <= length u)%nat /\ exists n, ns = [n] /\ P n) (fun ns => ns = []).

Lemma stores_mono r (P Q : node -> Prop) : stores r P -> (forall n, P n -> Q n) -> stores r Q.
Proof. intros H HPQ N. eapply spec_mono; [exact (H N)|done|naive_solver|done]. Qed.

Lemma stores_token l k r : Lex (S k) r -> stores (Store l r) (token l (S k)).
Proof.
  intros Hr N. eapply spec_mono; [eapply spec_Store, (Hr N)|done|..]; [|done].
  intros u ns (rest & cs & -> & -> & Hu). split; [lia|]. eexists. split; [done|]. by exists u, rest.
Qed.

Lemma stores_Or_one r P : stores r P -> stores (Or [r]) P.
Proof. intros H N. eapply spec_Or_cons; [exact (H N)|apply spec_Or_nil|..]; naive_solver. Qed.

Lemma stores_Or r rs P : stores r P -> stores (Or rs) P -> stores (Or (r :: rs)) P.
Proof. intros H1 H2 N. eapply spec_Or_cons; [exact (H1 N)|exact (H2 N)|..]; naive_solver. Qed.

Lemma spec_spaces N : seq_spec N [Star WS] (fun u ns => ns = []) (fun _ => False).
Proof.
  eapply (seq_spec_cons N N); [|apply seq_spec_nil|..].
  - eapply (spec_Star WS N _ (fun u ns => ns = []) _ (lex N)).
    + intros u ns [_ Hk] ->. cbn in Hk. lia.
    + done.
    + by intros u1 n1 u2 n2 -> [-> _].
    + by intros u n1 n2 -> ->.
  - intros; lia.
  - by intros u1 n1 u2 n2 -> [_ ->].
  - done.
  - done.
Qed.

Lemma stores_Tok r P : stores r P -> stores (Tok r) P.
Proof.
  intros H N. apply spec_Seq. eapply (seq_spec_cons N N); [exact (H N)|apply spec_spaces|..].
  - intros; lia.
  - intros u1 n1 u2 n2 [? (n & -> & ?)] ->. rewrite length_app. split; [lia|eauto].
  - done.
  - done.
Qed.

Lemma stores_field : stores (ST FieldName_l FieldName) (token FieldName_l 1).
Proof. apply stores_Tok, stores_token, _. Qed.

Lemma stores_Param : stores Param param_node.
Proof.
  unfold Param. apply stores_Tok.
  repeat first [apply stores_Or_one | apply stores_Or]; (eapply stores_mono; [apply stores_token, _|]);
    unfold param_node; tauto.
Qed.

Lemma stores_RelOp : stores RelOp (fun _ => True).
Proof.
  unfold RelOp, OP_EQ, OP_LT, OP_GT, OP_LTEQ, OP_GTEQ, OP_NEQ, OP_LIKE.
  repeat first [apply stores_Or_one | apply stores_Or];
    (eapply stores_mono; [eapply (stores_token _ 0); lex_rule|done]).
Qed.

(** Sequences, of which what they store when they match is of interest. *)
Lemma seq_stores N r rs (P : node -> Prop) S F :
  stores r P -> seq_spec N rs S F ->
  seq_spec N (r :: rs) (fun u ns => (1 <= length u)%nat /\ exists n u' ns', ns = n :: ns' /\ P n /\ S u' ns')
    (fun _ => True).
Proof.
  intros H1 H2. eapply (seq_spec_cons N N); [exact (H1 N)|exact H2|..]; [intros; lia| |done|done].
  intros u1 n1 u2 n2 [? (n & -> & ?)] ?. rewrite length_app. split; [lia|]. by exists n, u2, n2.
Qed.

Lemma seq_lex N k (r : rule) rs S F :
  Lex k r -> seq_spec N rs S F -> seq_spec N (r :: rs) (fun _ ns => exists u, S u ns) (fun _ => True).
Proof.
  intros H1 H2. eapply (seq_spec_cons N N); [exact (H1 N)|exact H2|..]; [intros; lia| |done|done].
  intros u1 n1 u2 n2 [-> _] ?. by exists u2.
Qed.

Lemma stores_Seq l (rs : list rule) (P : node -> Prop) (S : text -> list node -> Prop) F :
  (forall N, seq_spec N rs S F) ->
  (forall u ns, S u ns -> (1 <= length u)%nat /\ forall first last, P (Node l first last ns)) ->
  stores (Store l (Seq rs)) P.
Proof.
  intros H HP N. eapply spec_mono; [eapply spec_Store, spec_Seq, (H N)|done|..]; [|done].
  intros u ns (rest & cs & -> & Hs). destruct (HP u cs Hs). split; [done|]. eauto.
Qed.

Create HintDb stores.
#[local] Hint Resolve stores_field stores_Param stores_RelOp seq_stores seq_spec_nil : stores.

Lemma stores_Cmp l r1 r2 (P1 P2 : node -> Prop) :
  l ∈ [CmpFnParam_l; CmpParamFn_l; CmpBothFn_l] -> stores r1 P1 -> stores r2 P2 ->
  (forall n, P1 n -> operand_node n) -> (forall n, P2 n -> operand_node n) ->
  stores (Store l (Seq [r1; RelOp; r2])) pred_node.
Proof.
  intros Hl H1 H2 HP1 HP2. eapply stores_Seq.
  { intros N. eauto with stores. }
  intros u ns (? & a & u1 & ? & -> & Ha & _ & o & u2 & ? & -> & _ & _ & b & u3 & ? & -> & Hb & _ & ->).
  split; [done|]. intros first last. left. exists l, first, last, a, o, b. auto.
Qed.

Lemma spec_opt_not N : spec N (Opt (Store NOT_l NOT))
  (fun _ ns => ns = [] \/ exists m, ns = [m] /\ node_rule m = NOT_l) (fun _ => False).
Proof.
  eapply spec_Opt.
  - eapply (stores_token NOT_l 0). unfold NOT. lex_rule.
  - by left.
  - intros u ns (_ & n & -> & v & rest & -> & _). right. eauto.
  - intros ns ->. by left.
Qed.

Lemma stores_Between : stores (Store BetweenPred_l BetweenPred) pred_node.
Proof.
  unfold BetweenPred. eapply stores_Seq.
  { intros N. eapply (seq_spec_cons N N (ST FieldName_l FieldName) _ _ _ 
      (fun u ns => (1 <= length u)%nat /\ exists n inv a b, ns = n :: inv ++ [a; b]
        /\ (inv = [] \/ exists m, inv = [m] /\ node_rule m = NOT_l) /\ param_node a /\ param_node b) _ _ (fun _ => True)).
    - exact (stores_field N).
    - eapply (seq_spec_cons N N (Opt (Store NOT_l NOT)) _ _ _ 
        (fun _ ns => exists inv a b, ns = inv ++ [a; b]
        /\ (inv = [] \/ exists m, inv = [m] /\ node_rule m = NOT_l) /\ param_node a /\ param_node b) _ _ (fun _ => True)).
      + apply spec_opt_not.
      + eapply seq_lex; [unfold BETWEEN; exact _|]. eapply seq_stores; [apply stores_Param|].
        eapply seq_lex; [unfold AND; exact _|]. eauto with stores.
      + intros; lia.
      + intros u1 inv u2 n2 Hinv (u & _ & a & ua & ? & -> & Ha & v & _ & b & ub & ? & -> & Hb & _ & ->).
        by exists inv, a, b.
      + done.
      + done.
    - intros; lia.
    - intros u1 n1 u2 n2 [? (n & -> & _)] (inv & a & b & -> & ?). rewrite length_app. split; [lia|].
      by exists n, inv, a, b.
    - done.
    - done. }
  intros u ns (? & n & inv & a & b & -> & Hinv & Ha & Hb). split; [done|]. intros first last. right.
  by exists first, last, n, inv, a, b.
Qed.

Lemma stores_Pred : stores Pred pred_node.
Proof.
  unfold Pred. repeat first [apply stores_Or_one | apply stores_Or].
  - apply stores_Between.
  - eapply stores_Cmp; [set_solver|apply stores_field|apply stores_Param|by left|by right].
  - eapply stores_Cmp; [set_solver|apply stores_Param|apply stores_field|by right|by left].
  - eapply stores_Cmp; [set_solver|apply stores_field|apply stores_field|by left|by left].
Qed.

Lemma stores_word l r k : l ∈ [AND_l; OR_l; NOT_l] -> Lex (S k) r ->
  stores (Store l r) (fun n => cond_node n /\ node_rule n = l).
Proof.
  intros Hl Hr. eapply stores_mono; [apply stores_token, Hr|].
  intros n (u & rest & -> & _). split; [by constructor|done].
Qed.

(** ** Conditions *)

(** What [Cond] and [CondTail] do with fuel [n] on fewer than [n] characters. *)
Definition cond_ok (n : nat) : Prop :=
  spec n (Cond n) (fun u ns => (1 <= length u)%nat /\ ns <> [] /\ cond_nodes ns) cond_nodes.
Definition tail_ok (n : nat) : Prop :=
  spec n (CondTail n) (fun _ ns => Forall cond_node ns) (fun _ => False).

Lemma tail_seq n : tail_ok n -> seq_spec n [CondTail n] (fun _ ns => Forall cond_node ns) (fun _ => False).
Proof.
  intros H. eapply (seq_spec_cons n n); [exact H|apply seq_spec_nil|..]; [intros; lia| |done|done].
  intros u1 n1 u2 n2 ? [-> ->]. by rewrite app_nil_r.
Qed.

Lemma cond_tail_seq n : cond_ok n -> tail_ok n ->
  seq_spec n [Cond n; CondTail n] (fun _ ns => ns <> [] /\ cond_nodes ns) cond_nodes.
Proof.
  intros Hc Ht. eapply (seq_spec_cons n n); [exact Hc|apply tail_seq, Ht|..]; [intros; lia| |done|done].
  intros u1 n1 u2 n2 (_ & Hne & Hn) Hn2. split; [by destruct n1|]. by apply cond_nodes_app.
Qed.

(** A stored word before a condition. *)
Lemma word_cond_seq n r (P : node -> Prop) : cond_ok n -> tail_ok n ->
  stores r (fun m => cond_node m /\ P m) ->
  seq_spec (S n) [r; Cond n; CondTail n]
    (fun u ns => (1 <= length u)%nat /\ exists m ns', ns = m :: ns' /\ P m /\ Forall cond_node ns)
    (fun ns => ns = [] \/ exists m ns', ns = m :: ns' /\ P m /\ Forall cond_node ns).
Proof.
  intros Hc Ht Hr. eapply (seq_spec_cons (S n) n); [exact (Hr (S n))|by apply cond_tail_seq|..].
  - intros u ns [? _]. lia.
  - intros u1 n1 u2 n2 [? (m & -> & Hm & HP)] [_ [_ Hn]]. rewrite length_app. split; [lia|].
    exists m, n2. split_and!; [done..|]. by constructor.
  - intros n1 ->. by left.
  - intros u1 n1 n2 [_ (m & -> & Hm & HP)] [_ Hn]. right. exists m, n2. split_and!; [done..|]. by constructor.
Qed.

Lemma infix_rule n l : node_rule n = l -> l ∉ [AND_l; OR_l] -> infix n = false.
Proof. intros <- H. by apply bool_decide_eq_false. Qed.

Lemma cond_spec_pred n : tail_ok n ->
  spec (S n) (Seq [Pred; CondTail n])
    (fun u ns => (1 <= length u)%nat /\ ns <> [] /\ cond_nodes ns) (fun ns => ns = []).
Proof.
  intros Ht. apply spec_Seq. eapply (seq_spec_cons (S n) n); [exact (stores_Pred (S n))|by apply tail_seq|..].
  - intros u ns [? _]. lia.
  - intros u1 n1 u2 n2 [? (m & -> & Hm)] Hn2. rewrite length_app. split; [lia|]. split; [done|].
    split; [by apply pred_not_infix|]. constructor; [by constructor|done].
  - done.
  - done.
Qed.

Lemma cond_spec_not n : cond_ok n -> tail_ok n ->
  spec (S n) (Seq [Store NOT_l NOT; Cond n; CondTail n])
    (fun u ns => (1 <= length u)%nat /\ ns <> [] /\ cond_nodes ns) cond_nodes.
Proof.
  intros Hc Ht. eapply spec_mono; [apply spec_Seq, (word_cond_seq n _ (fun m => node_rule m = NOT_l) Hc Ht)|done|..].
  - eapply (stores_word _ _ 0); [set_solver|]. unfold NOT. lex_rule.
  - intros u ns (? & m & ns' & -> & Hm & Hn). split_and!; [done..|].
    split; [|done]. eapply infix_rule; [done|set_solver].
  - intros ns [->|(m & ns' & -> & Hm & Hn)]; [apply cond_nodes_nil|].
    split; [|done]. eapply infix_rule; [done|set_solver].
Qed.

Lemma cond_spec_paren n : cond_ok n -> tail_ok n ->
  spec (S n) (Seq [LPAREN; Store Cond_l (Cond n); RPAREN; CondTail n])
    (fun u ns => (1 <= length u)%nat /\ ns <> [] /\ cond_nodes ns) cond_nodes.
Proof.
  intros Hc Ht. apply spec_Seq.
  assert (Hrest : seq_spec n [RPAREN; CondTail n] (fun _ ns => Forall cond_node ns) (fun ns => ns = [])).
  { eapply (seq_spec_cons n n); [|apply tail_seq, Ht|..]; [|intros; lia|..].
    - assert (Hl : Lex 1 RPAREN) by (unfold RPAREN; exact _). exact (Hl n).
    - by intros u1 n1 u2 n2 [-> _].
    - done.
    - done. }
  assert (Hin : seq_spec n [Store Cond_l (Cond n); RPAREN; CondTail n]
      (fun _ ns => ns <> [] /\ cond_nodes ns) cond_nodes).
  { eapply (seq_spec_cons n n); [eapply spec_Store, Hc|exact Hrest|..]; [intros; lia|..].
    - intros u1 n1 u2 n2 (rest & cs & -> & ? & ? & ? & ?) Hn. split; [done|].
      split; [done|]. constructor; [by constructor|done].
    - intros n1 ->. apply cond_nodes_nil.
    - intros u1 n1 n2 (rest & cs & -> & ? & ? & ? & ?) ->. split; [done|]. constructor; [by constructor|done]. }
  eapply (seq_spec_cons (S n) n); [|exact Hin|..].
  - assert (Hl : Lex 1 LPAREN) by (unfold LPAREN; exact _). exact (Hl (S n)).
  - intros u ns [_ ?]. lia.
  - intros u1 n1 u2 n2 [-> ?] [? ?]. rewrite length_app. split_and!; [lia|done..].
  - intros n1 ->. apply cond_nodes_nil.
  - by intros u1 n1 n2 [-> _].
Qed.

Lemma cond_grammar_ok n : cond_ok n /\ tail_ok n.
Proof.
  induction n as [|n [IHc IHt]]; [split; intros p _ Hl; lia|]. split.
  - unfold cond_ok. cbn [Cond]. change (spec (S n) (Or [Seq [Pred; CondTail n];
          Seq [Store NOT_l NOT; Cond n; CondTail n];
          Seq [LPAREN; Store Cond_l (Cond n); RPAREN; CondTail n]])
      (fun u ns => (1 <= length u)%nat /\ ns <> [] /\ cond_nodes ns) cond_nodes).
    eapply spec_Or_cons; [by apply cond_spec_pred| |done|..].
    { eapply spec_Or_cons; [by apply cond_spec_not| |done|..].
      { eapply spec_Or_cons; [by apply cond_spec_paren|apply spec_Or_nil|done|done|].
        intros n1 n2 Hn ->. by rewrite app_nil_r. }
      - intros n1 u n2 Hn1 (Hu & Hne & Hn2 & Hn2').
        assert (Hn := cond_nodes_app n1 n2 Hn1 Hn2' (fun _ => Hn2)).
        split_and!; [done| |exact Hn]. by destruct n1.
      - intros n1 n2 Hn1 [Hn2 Hn2']. by apply cond_nodes_app. }
    + by intros n1 u n2 ->.
    + by intros n1 n2 ->.
  - unfold tail_ok. cbn [CondTail].
    change (spec (S n) (Opt (Seq [Or [Store AND_l AND; Store OR_l OR]; Cond n; CondTail n]))
      (fun _ ns => Forall cond_node ns) (fun _ => False)).
    eapply spec_Opt; [apply spec_Seq, (word_cond_seq n _ (fun _ => True) IHc IHt)|..].
    + apply stores_Or; [|apply stores_Or_one];
        (eapply stores_mono; [eapply (stores_word _ _ 0); [set_solver|]|]); try (intros m []; done).
      * unfold AND. lex_rule.
      * unfold OR. lex_rule.
    + done.
    + by intros u ns (_ & m & ns' & -> & _ & ?).
    + by intros ns [->|(m & ns' & -> & _ & ?)].
Qed.

(** ** The constructor *)

Lemma toString_node l u rest cs : toString (Node l (u ++ rest) rest cs) = u.
Proof.
  cbn. rewrite length_app. replace (length u + length rest - length rest)%nat with (length u) by lia.
  by rewrite take_app_length.
Qed.

Lemma cond_node_strong (P : node -> Prop) :
  (forall n, pred_node n -> P n) ->
  (forall l first last, l ∈ [AND_l; OR_l; NOT_l] -> P (Node l first last [])) ->
  (forall first last ns, ns <> [] -> starts_operand ns -> Forall P ns -> P (Node Cond_l first last ns)) ->
  forall n, cond_node n -> P n.
Proof.
  intros Hp Hw Hn. fix IH 2. intros n [n' H|l first last H|first last ns Hne Hs Hf].
  - by apply Hp.
  - by apply Hw.
  - apply Hn; [done..|]. clear - IH Hf. induction Hf; constructor; [by apply IH|done].
Qed.

Section Constructor.
Context `{FloatOps}.

Lemma createOperand_total n : operand_node n -> exists o, createOperand n = Ret o.
Proof.
  intros [Hn|[Hn|[Hn|[Hn|[Hn|Hn]]]]]; destruct Hn as (u & rest & -> & Hu); unfold createOperand;
    cbn [TypeMatches node_rule]; try (eexists; reflexivity).
  - unfold new_LiteralChar. cbn -[toString]. rewrite toString_node.
    destruct u as [|a [|b u]]; [cbn in Hu; lia..|]. by eexists.
  - unfold new_LiteralString. cbn -[toString]. rewrite toString_node.
    destruct u as [|a [|b u]]; [cbn in Hu; lia..|]. by eexists.
  - unfold new_Parameter. cbn -[toString]. rewrite toString_node.
    destruct u as [|a u]; [cbn in Hu; lia|]. by eexists.
Qed.

Lemma attach_total (e : EvalNode) prev : exists e', attach (Some e) prev = Ret (Some e').
Proof. destruct prev; by eexists. Qed.

Lemma param_not_not n : param_node n -> TypeMatches NOT_l n = false.
Proof. intros [Hn|[Hn|[Hn|[Hn|Hn]]]]; by destruct Hn as (u & rest & -> & _). Qed.

Lemma walk_pred n prev : pred_node n -> exists e, walkAst n prev = Ret (Some e).
Proof.
  intros [(l & first & last & a & o & b & -> & Hl & Ha & Hb)|(first & last & f & inv & a & b & -> & Hinv & Ha & Hb)].
  - destruct (createOperand_total a Ha) as [oa Ea]. destruct (createOperand_total b Hb) as [ob Eb].
    assert (Hc : new_Comparison (Node l first last [a; o; b]) = Ret (Comparison oa (setOperator o) ob)).
    { unfold new_Comparison. cbn [node_children]. by rewrite Ea, Eb. }
    destruct (attach_total (Comparison oa (setOperator o) ob) prev) as [e He]. exists e.
    rewrite !elem_of_cons in Hl.
    destruct Hl as [->|[->|[->|Hl]]]; [..|by apply not_elem_of_nil in Hl]; cbn [walkAst]; rewrite Hc; exact He.
  - destruct (createOperand_total a (or_intror Ha)) as [oa Ea].
    destruct (createOperand_total b (or_intror Hb)) as [ob Eb].
    assert (exists inv', new_Between (Node BetweenPred_l first last (f :: inv ++ [a; b]))
      = Ret (Between inv' (FieldLookup (toString f)) oa ob)) as [inv' Hc].
    { unfold new_Between. cbn [node_children]. destruct Hinv as [->|(m & -> & Hm)]; cbn [app head deref tail mbind outcome_bind].
      - rewrite (param_not_not a Ha). cbn [head deref tail mbind outcome_bind]. rewrite Ea. cbn. rewrite Eb. by eexists.
      - unfold TypeMatches. rewrite Hm. cbn [bool_decide]. rewrite bool_decide_true by done.
        cbn [head deref tail mbind outcome_bind]. rewrite Ea. cbn. rewrite Eb. by eexists. }
    destruct (attach_total (Between inv' (FieldLookup (toString f)) oa ob) prev) as [e He]. exists e.
    cbn [walkAst]. rewrite Hc. exact He.
Qed.

Lemma walkAst_Cond first last ns prev :
  walkAst (Node Cond_l first last ns) prev = (e ← walk_all ns None; attach e prev).
Proof. reflexivity. Qed.

Definition walks (n : node) : Prop :=
  forall prev, infix n = false \/ is_Some prev -> exists e, walkAst n prev = Ret (Some e).

Lemma walk_all_some ns e : Forall walks ns -> exists e', walk_all ns (Some e) = Ret (Some e').
Proof.
  intros Hns. revert e. induction Hns as [|n ns Hn _ IH]; intros e; [by exists e|].
  destruct (Hn (Some e)) as [e' He]; [by right|]. cbn [walk_all]. rewrite He. apply IH.
Qed.

Lemma walk_all_total ns : Forall walks ns -> starts_operand ns -> ns <> [] ->
  exists e, walk_all ns None = Ret (Some e).
Proof.
  intros Hns Hs Hne. destruct ns as [|n ns]; [done|]. apply Forall_cons in Hns as [Hn Hns].
  destruct (Hn None) as [e He]; [by left|]. cbn [walk_all]. rewrite He. by apply walk_all_some.
Qed.

Lemma walk_cond n : cond_node n -> walks n.
Proof.
  apply cond_node_strong; clear n.
  - intros n Hn prev _. by apply walk_pred.
  - intros l first last Hl prev Hprev. rewrite !elem_of_cons in Hl.
    destruct Hl as [->|[->|[->|Hl]]]; [..|by apply not_elem_of_nil in Hl].
    + destruct Hprev as [Hi|[pe ->]]; [by unfold infix in Hi; cbn in Hi|]. by eexists.
    + destruct Hprev as [Hi|[pe ->]]; [by unfold infix in Hi; cbn in Hi|]. by eexists.
    + destruct prev; by eexists.
  - intros first last ns Hne Hs Hns prev _. rewrite walkAst_Cond.
    destruct (walk_all_total ns Hns Hs Hne) as [e ->]. apply attach_total.
Qed.

(** *** Complete input *)

Definition order_nodes (ns : list node) : Prop :=
  ns = [] \/ exists o fs, ns = o :: fs /\ node_rule o = ORDERBY_l /\ Forall (token FieldName_l 1) fs.

Lemma parse_filter s : plain s ->
  exists b ns, Parse FilterCompleteInput s = Ret (b, ns) /\ (b = true -> ns <> [] /\ cond_nodes ns).
Proof.
  intros Hp. set (n := S (length s)).
  assert (Hs : spec n (Seq [Cond n; EndOfInput]) (fun u ns => ns <> [] /\ cond_nodes ns) (fun _ => True)).
  { apply spec_Seq. eapply (seq_spec_cons n n); [apply cond_grammar_ok| |..].
    - eapply (seq_spec_cons n n EndOfInput [] (fun _ ns => ns = []) _ (fun _ ns => ns = []) (fun _ => True) _ (fun _ => True));
        [|apply seq_spec_nil|intros; lia|by intros ? ? ? ? -> [_ ->]|done|done].
      intros p _ _. exists (AtEnd p), p, []. rewrite app_nil_r. split_and!; [done..|].
      destruct (AtEnd p); [by exists []|done].
    - intros; lia.
    - intros u1 n1 u2 n2 (_ & ? & ?) ->. by rewrite app_nil_r.
    - done.
    - done. }
  destruct (Hs (mkParser s []) Hp) as (b & q & ns & Hr & Hc & Hb); [cbn; lia|].
  exists b, ns. unfold Parse, FilterCompleteInput. cbn [mIter]. fold n. rewrite Hr. cbn. cbn in Hc. rewrite Hc.
  split; [done|]. intros ->. by destruct Hb as (u & _ & ?).
Qed.

Lemma spec_fields N : spec N (DelimitedList (ST FieldName_l FieldName) (Tok (Char ",")))
  (fun _ ns => Forall (token FieldName_l 1) ns) (fun ns => ns = []).
Proof.
  set (R := ST FieldName_l FieldName).
  assert (Hone : spec N (Seq [Tok (Char ","); R])
    (fun u ns => u <> [] /\ Forall (token FieldName_l 1) ns) (fun ns => ns = [])).
  { apply spec_Seq. eapply (seq_spec_cons N N _ _ _ (fun _ ns => Forall (token FieldName_l 1) ns) _ _ (fun ns => ns = []));
      [exact (lex_Tok 1 _ (lex_Char ",") N)| |intros; lia|..].
    - eapply (seq_spec_cons N N); [exact (stores_field N)|apply seq_spec_nil|intros; lia|..].
      + intros u1 n1 u2 n2 [_ (m & -> & Hm)] [_ ->]. by constructor.
      + done.
      + done.
    - intros u1 n1 u2 n2 [-> Hu] Hn. split; [|done]. intros [-> _]%app_nil. cbn in Hu. lia.
    - done.
    - by intros u1 n1 n2 [-> _]. }
  apply spec_Seq. eapply (seq_spec_cons N N); [exact (stores_field N)| |intros; lia|..].
  - eapply (seq_spec_cons N N _ _ (fun _ ns => Forall (token FieldName_l 1) ns) _ (fun _ ns => Forall (token FieldName_l 1) ns) _ _ (fun _ => False));
      [|apply seq_spec_nil|intros; lia|..].
    + eapply spec_Star; [exact Hone|by intros u ns [? _]|done|..].
      * intros u1 n1 u2 n2 ? [_ ?]. by apply Forall_app.
      * intros u n1 n2 ? ->. by rewrite app_nil_r.
    + intros u1 n1 u2 n2 ? [_ ->]. by rewrite app_nil_r.
    + done.
    + done.
  - intros u1 n1 u2 n2 [_ (m & -> & Hm)] Hn. by constructor.
  - done.
  - done.
Qed.

Lemma spec_order N :
  spec N (Opt (Seq [Store ORDERBY_l ORDERBY; DelimitedList (ST FieldName_l FieldName) (Tok (Char ","))]))
    (fun _ ns => order_nodes ns) (fun _ => False).
Proof.
  assert (Ho : stores (Store ORDERBY_l ORDERBY) (fun n => node_rule n = ORDERBY_l)).
  { eapply stores_mono; [eapply (stores_token _ 0); unfold ORDERBY; lex_rule|]. by intros n (u & r & -> & _). }
  eapply (spec_Opt _ _ (fun _ ns => order_nodes ns) _ order_nodes); [|by left|done|done].
  apply spec_Seq. eapply (seq_spec_cons N N); [exact (Ho N)| |intros; lia|..].
  - eapply (seq_spec_cons N N _ _ _ _ (fun _ ns => Forall (token FieldName_l 1) ns) _ _ (fun ns => ns = []));
      [apply spec_fields|apply seq_spec_nil|intros; lia|..].
    + intros u1 n1 u2 n2 Hn [_ ->]. by rewrite app_nil_r.
    + done.
    + done.
  - intros u1 n1 u2 n2 [_ (m & -> & Hm)] Hn. right. by exists m, n2.
  - intros n1 ->. by left.
  - intros u1 n1 n2 [_ (m & -> & Hm)] ->. right. by exists m, [].
Qed.

Lemma parse_query s : plain s ->
  exists b ns, Parse QueryCompleteInput s = Ret (b, ns)
    /\ exists cs os, ns = cs ++ os /\ cond_nodes cs /\ order_nodes os.
Proof.
  intros Hp. set (n := S (length s)).
  set (Q := Seq [Opt (Cond n);
       Opt (Seq [Store ORDERBY_l ORDERBY; DelimitedList (ST FieldName_l FieldName) (Tok (Char ","))])]).
  assert (Hs : spec n Q (fun u ns => exists cs os, ns = cs ++ os /\ cond_nodes cs /\ order_nodes os) (fun _ => False)).
  { apply spec_Seq. eapply (seq_spec_cons n n _ _ (fun _ ns => cond_nodes ns) (fun _ ns => order_nodes ns) _ (fun _ => False) (fun _ => False));
      [| |intros; lia|..].
    - eapply spec_Opt; [apply cond_grammar_ok|apply cond_nodes_nil|by intros u ns (_ & _ & ?)|done].
    - eapply (seq_spec_cons n n); [apply spec_order|apply seq_spec_nil|intros; lia|..].
      + intros u1 n1 u2 n2 Ho [_ ->]. by rewrite app_nil_r.
      + done.
      + done.
    - intros u1 n1 u2 n2 Hc Ho. by exists n1, n2.
    - done.
    - done. }
  destruct (Hs (mkParser s []) Hp) as (b & q & ns & Hr & Hc & Hb); [cbn; lia|].
  destruct b; [|by destruct Hb]. destruct Hb as (u & _ & Hns). cbn in Hc.
  exists (AtEnd q), ns. split; [|done].
  unfold Parse, QueryCompleteInput, Seq at 1. cbn [seq_rules].
  assert (HQ : Query (mkParser s []) = Ret (true, q)) by exact Hr. rewrite HQ. cbn [mbind outcome_bind EndOfInput].
  destruct (AtEnd q); cbn; by rewrite Hc.
Qed.

Lemma cond_not_order n : cond_node n -> TypeMatches ORDERBY_l n = false.
Proof.
  intros [n' [(l & ? & ? & ? & ? & ? & -> & Hl & _)|(? & ? & ? & ? & ? & ? & -> & _)]|l ? ? Hl|]; [|done| |done];
    unfold TypeMatches; cbn; apply bool_decide_eq_false; set_solver.
Qed.

Lemma build_conds cs os fe : Forall cond_node cs ->
  build_loop (cs ++ os) false fe
  = (root ← walk_all cs (filter_root_ fe); build_loop os false (mkFE root (order_bys_ fe))).
Proof.
  intros Hcs. revert fe. induction Hcs as [|n cs Hn _ IH]; intros fe; [by destruct fe|].
  cbn [app build_loop walk_all]. rewrite (cond_not_order n Hn). cbn [andb].
  destruct (walkAst n (filter_root_ fe)); cbn [mbind outcome_bind]; [|done..]. by rewrite IH.
Qed.

Lemma build_fields fs root os : Forall (token FieldName_l 1) fs ->
  build_loop fs true (mkFE root os) = Ret (mkFE root (os ++ (toString <$> fs))).
Proof.
  intros Hfs. revert os. induction Hfs as [|n fs Hn _ IH]; intros os; [by rewrite app_nil_r|].
  assert (Hl : node_rule n = FieldName_l) by (by destruct Hn as (u & r & -> & _)).
  cbn [build_loop]. unfold TypeMatches. rewrite Hl. rewrite bool_decide_false, bool_decide_true by done.
  cbn [andb filter_root_ order_bys_]. rewrite IH, <- app_assoc. done.
Qed.

Lemma build_order os root : order_nodes os -> exists fs, build_loop os false (mkFE root []) = Ret (mkFE root fs).
Proof.
  intros [->|(o & fs & -> & Ho & Hfs)]; [by exists []|].
  exists (toString <$> fs). cbn [build_loop]. unfold TypeMatches. rewrite Ho, bool_decide_true by done.
  exact (build_fields fs root [] Hfs).
Qed.

End Constructor.

End FilterTree.
