(* ===== verification/FilterSyntax.v ===== *)
(** * Filter expressions as text

    An abstract syntax of conditions, in which AND and OR associate to the left
    and NOT applies to the first operand only, its text, and that the grammar of
    FilterExpressionGrammar.h reads the text back: [accepts] for each production,
    with what the evaluator makes of the nodes. *)

From Stdlib Require Import Ascii.
From S2P Require Import Prelude MessageBlock SequenceNumber Serializer Yard FilterExpressionGrammar FilterValue FilterEvaluator FilterTree.

Module FilterSyntax.
Import Yard FilterExpressionGrammar FilterValue FilterEvaluator FilterTree.

(** ** Abstract syntax *)

Inductive param :=
| PInt (z : Z) | PChar (c : ascii) | PFloat (t : text) | PStr (s : text) | PNum (n : Z).

Record field := mkField { first_ident : text; more_idents : list text }.

Inductive pred :=
| PBetween (f : field) (negated : bool) (lo hi : param)
| PFieldParam (f : field) (op : Operator) (p : param)
| PParamField (p : param) (op : Operator) (f : field)
| PFieldField (f : field) (op : Operator) (g : field).

Inductive expr :=
| EAtom (a : atom) | ENot (a : atom) | EAnd (e : expr) (a : atom) | EOr (e : expr) (a : atom)
with atom :=
| APred (p : pred) | AParen (e : expr).

Scheme expr_mut := Induction for expr Sort Prop
  with atom_mut := Induction for atom Sort Prop.
Combined Scheme expr_atom_ind from expr_mut, atom_mut.

(** ** Text *)

Section Text.
(** The white space after each token. *)
Context (sp : text).

Definition tok (t : text) : text := t ++ sp.

Definition param_text (p : param) : text :=
  match p with
  | PInt z => insert_int z
  | PChar c => ["'"; c; "'"]%char
  | PFloat t => t
  | PStr s => "'"%char :: s ++ ["'"%char]
  | PNum n => "%"%char :: print_digits 2 n
  end.

Definition field_text (f : field) : text :=
  first_ident f ++ concat ((fun i => "."%char :: i) <$> more_idents f).

Definition op_text (op : Operator) : text :=
  match op with
  | OPER_EQ => chars "=" | OPER_LT => chars "<" | OPER_GT => chars ">" | OPER_LTEQ => chars "<="
  | OPER_GTEQ => chars ">=" | OPER_NEQ => chars "<>" | OPER_LIKE => chars "LIKE" | OPER_INVALID => []
  end.

Definition pred_text (p : pred) : text :=
  match p with
  | PBetween f neg lo hi =>
      tok (field_text f) ++ (if neg then tok (chars "NOT") else []) ++ tok (chars "BETWEEN")
      ++ tok (param_text lo) ++ tok (chars "AND") ++ tok (param_text hi)
  | PFieldParam f op p => tok (field_text f) ++ tok (op_text op) ++ tok (param_text p)
  | PParamField p op f => tok (param_text p) ++ tok (op_text op) ++ tok (field_text f)
  | PFieldField f op g => tok (field_text f) ++ tok (op_text op) ++ tok (field_text g)
  end.

Fixpoint expr_text (e : expr) : text :=
  match e with
  | EAtom a => atom_text a
  | ENot a => tok (chars "NOT") ++ atom_text a
  | EAnd e a => expr_text e ++ tok (chars "AND") ++ atom_text a
  | EOr e a => expr_text e ++ tok (chars "OR") ++ atom_text a
  end
with atom_text (a : atom) : text :=
  match a with
  | APred p => pred_text p
  | AParen e => tok (chars "(") ++ expr_text e ++ tok (chars ")")
  end.

End Text.

(** ** Well-formed syntax *)

Definition digits (t : text) : Prop := t <> [] /\ Forall (fun c => DigitCharSet c = true) t.
Definition sign (t : text) : Prop := t = [] \/ t = ["+"%char] \/ t = ["-"%char].

(** Digits, a point, digits and an optional exponent. *)
Definition float_text (t : text) : Prop :=
  exists sg ds fs ex, t = sg ++ ds ++ "."%char :: fs ++ ex /\ sign sg /\ digits ds
    /\ Forall (fun c => DigitCharSet c = true) fs
    /\ (ex = [] \/ exists sg' es, ex = "e"%char :: sg' ++ es /\ sign sg' /\ digits es).

(** A string of one character is read as a character. *)
Definition param_ok (p : param) : Prop :=
  match p with
  | PInt z => is_s 32 z
  | PChar c => 0 <= char_value c
  | PFloat t => float_text t
  | PStr s => plain s /\ Forall (fun c => c <> "'"%char /\ c <> "010"%char) s /\ length s <> 1%nat
  | PNum n => 0 <= n < 100
  end.

Definition ident_ok (i : text) : Prop :=
  match i with
  | [] => False
  | c :: i' => LetterCharSet c = true /\ Forall (fun c => IdentNextCharSet c = true) i'
  end.

(** The first identifier is none of the words that may follow NOT. *)
Definition field_ok (f : field) : Prop :=
  ident_ok (first_ident f) /\ Forall ident_ok (more_idents f)
  /\ (ToLowercase <$> first_ident f) ∉ [chars "not"; chars "between"; chars "like"].

Definition pred_ok (p : pred) : Prop :=
  match p with
  | PBetween f _ lo hi => field_ok f /\ param_ok lo /\ param_ok hi
  | PFieldParam f op p | PParamField p op f => field_ok f /\ op <> OPER_INVALID /\ param_ok p
  | PFieldField f op g => field_ok f /\ op <> OPER_INVALID /\ field_ok g
  end.

Fixpoint expr_ok (e : expr) : Prop :=
  match e with
  | EAtom a | ENot a => atom_ok a
  | EAnd e a | EOr e a => expr_ok e /\ atom_ok a
  end
with atom_ok (a : atom) : Prop :=
  match a with
  | APred p => pred_ok p
  | AParen e => expr_ok e
  end.

(** ** The evaluation tree of an expression *)

Section Trees.
Context `{FloatOps}.

Definition param_operand (p : param) : Operand :=
  match p with
  | PInt z => LiteralInt z
  | PChar c => LiteralChar c
  | PFloat t => LiteralFloat (atof t)
  | PStr s => LiteralString s
  | PNum n => ParameterRef n
  end.

Definition pred_tree (p : pred) : EvalNode :=
  match p with
  | PBetween f neg lo hi => Between neg (FieldLookup (field_text f)) (param_operand lo) (param_operand hi)
  | PFieldParam f op p => Comparison (FieldLookup (field_text f)) op (param_operand p)
  | PParamField p op f => Comparison (param_operand p) op (FieldLookup (field_text f))
  | PFieldField f op g => Comparison (FieldLookup (field_text f)) op (FieldLookup (field_text g))
  end.

Fixpoint expr_tree (e : expr) : EvalNode :=
  match e with
  | EAtom a => atom_tree a
  | ENot a => Logical LG_NOT [atom_tree a]
  | EAnd e a => Logical LG_AND [expr_tree e; atom_tree a]
  | EOr e a => Logical LG_OR [expr_tree e; atom_tree a]
  end
with atom_tree (a : atom) : EvalNode :=
  match a with
  | APred p => pred_tree p
  | AParen e => expr_tree e
  end.

End Trees.

(** ** Characters *)

Ltac by_chars c := destruct c as [[] [] [] [] [] [] [] []]; vm_compute; (done || (intros; discriminate)).

Lemma ident_plain c : IdentNextCharSet c = true -> 0 <= char_value c.
Proof. by_chars c. Qed.
Lemma letter_ident c : LetterCharSet c = true -> IdentNextCharSet c = true.
Proof. by_chars c. Qed.
Lemma digit_ident c : DigitCharSet c = true -> IdentNextCharSet c = true.
Proof. by_chars c. Qed.
Lemma space_plain c : WhiteSpaceCharSet c = true -> 0 <= char_value c.
Proof. by_chars c. Qed.
Lemma space_not_ident c : WhiteSpaceCharSet c = true -> IdentNextCharSet c = false.
Proof. by_chars c. Qed.
Lemma ident_not_space c : IdentNextCharSet c = true -> WhiteSpaceCharSet c = false.
Proof. by_chars c. Qed.
Lemma space_not_digit c : WhiteSpaceCharSet c = true -> DigitCharSet c = false.
Proof. by_chars c. Qed.
Lemma letter_not_digit c : LetterCharSet c = true -> DigitCharSet c = false.
Proof. by_chars c. Qed.
Lemma lower_ident c : IdentNextCharSet (ToLowercase c) = IdentNextCharSet c.
Proof. destruct c as [[] [] [] [] [] [] [] []]; vm_compute; reflexivity. Qed.

Lemma plain_class f (t : text) : (forall c, f c = true -> 0 <= char_value c) -> Forall (fun c => f c = true) t -> plain t.
Proof. intros Hf Ht. exact (Forall_impl _ _ _ Ht Hf). Qed.

Lemma digits_plain t : Forall (fun c => DigitCharSet c = true) t -> plain t.
Proof. apply plain_class. intros c Hc. by apply ident_plain, digit_ident. Qed.

Section Tokens.
Context (sp : text).
Hypothesis (Hsp : sp <> [] /\ Forall (fun c => WhiteSpaceCharSet c = true) sp).

(** What follows a token: the next token, or the end. *)
Definition solid (k : text) : Prop := stops WhiteSpaceCharSet k /\ plain k.

Lemma solid_nil : solid [].
Proof. split; [done|constructor]. Qed.

Lemma solid_cons c t : WhiteSpaceCharSet c = false -> plain (c :: t) -> solid (c :: t).
Proof. by split. Qed.

Lemma sp_plain : plain sp.
Proof. exact (plain_class _ _ space_plain (proj2 Hsp)). Qed.

Lemma sp_app_plain k : plain k -> plain (sp ++ k).
Proof. intros Hk. apply plain_app. split; [apply sp_plain|done]. Qed.

Lemma sp_stops f k : (forall c, WhiteSpaceCharSet c = true -> f c = false) -> stops f (sp ++ k).
Proof. intros Hf. destruct Hsp as [Hne H]. destruct sp as [|c s]; [done|]. inversion H. by apply Hf. Qed.

Lemma sp_head c k : WhiteSpaceCharSet c = false -> head (sp ++ k) <> Some c.
Proof.
  intros Hc. destruct Hsp as [Hne H]. destruct sp as [|x s]; [done|]. inversion H; subst. cbn. congruence.
Qed.

Lemma accepts_Tok r t k ns : accepts r t (sp ++ k) ns -> solid k -> accepts (Tok r) (tok sp t) k ns.
Proof.
  intros Hr [Hs Hp]. unfold Tok, tok. apply accepts_Seq. rewrite <- (app_nil_r ns).
  apply seq_accepts_cons; [done|]. apply seq_accepts_one, accepts_Star, stars_set; [apply Hsp|done|].
  by apply sp_app_plain.
Qed.

Lemma rejects_Tok r t : rejects r t -> rejects (Tok r) t.
Proof. apply rejects_Seq_here. Qed.

(** *** Keywords *)

Lemma accepts_Keyword w t k : ToLowercase <$> t = w -> solid k ->
  accepts (Keyword (CharSeqIgnoreCase w)) (tok sp t) k [].
Proof.
  intros Hw Hk. apply accepts_Tok; [|done]. apply accepts_Seq. rewrite <- (app_nil_r t).
  apply (seq_accepts_cons _ _ t [] _ [] []); [by apply accepts_word|].
  apply seq_accepts_one, accepts_NotAt, rejects_set; [apply sp_stops, space_not_ident|].
  by apply sp_app_plain, Hk.
Qed.

Lemma rejects_Keyword w t : starts_ci w t = false -> rejects (Keyword (CharSeqIgnoreCase w)) t.
Proof. intros H. by apply rejects_Tok, rejects_Seq_here, rejects_word. Qed.

(** A keyword is not read at the beginning of another identifier. *)
Lemma rejects_Keyword_ident w i k :
  Forall (fun c => IdentNextCharSet c = true) w -> Forall (fun c => IdentNextCharSet c = true) i ->
  stops IdentNextCharSet k -> plain (i ++ k) -> ToLowercase <$> i <> w ->
  rejects (Keyword (CharSeqIgnoreCase w)) (i ++ k).
Proof.
  intros Hw Hi Hk Hp Hne. apply rejects_Tok.
  destruct (starts_ci w (i ++ k)) eqn:Hs; [|by apply rejects_Seq_here, rejects_word].
  assert (exists c i', i ++ k = take (length w) i ++ c :: i' ++ k /\ IdentNextCharSet c = true
    /\ ToLowercase <$> take (length w) i = w) as (c & i' & E & Hc & Hl).
  { clear Hp. revert w Hw Hne Hs. induction Hi as [|x i Hx Hi IH]; intros w Hw Hne Hs.
    - destruct w as [|c w]; [done|]. inversion Hw; subst. destruct k as [|y k]; [done|].
      cbn in Hs, Hk. apply andb_prop in Hs as [Hs _]. apply bool_decide_eq_true in Hs. subst c.
      rewrite lower_ident in *. congruence.
    - destruct w as [|c w]; [exists x, i; done|]. inversion Hw; subst. cbn in Hs, Hne.
      apply andb_prop in Hs as [Hs1 Hs2]. apply bool_decide_eq_true in Hs1. subst c.
      destruct (IH w) as (c & i' & E & Hc & Hl); [done|congruence|done|].
      exists c, i'. cbn. rewrite E, Hl. done. }
  rewrite E in *. apply rejects_Seq, (seq_rejects_later _ _ (take (length w) i)); [by apply accepts_word|].
  apply seq_rejects_here, (rejects_NotAt IdentNextChar [c]), accepts_set; [done|by apply ident_plain].
Qed.

(** *** Fields *)

Lemma ident_chars i : ident_ok i -> Forall (fun c => IdentNextCharSet c = true) i.
Proof. destruct i as [|c i]; [done|]. intros [Hc Hi]. constructor; [by apply letter_ident|done]. Qed.

Lemma ident_plain_text i : ident_ok i -> plain i.
Proof. intros H. exact (plain_class _ _ ident_plain (ident_chars i H)). Qed.

Lemma accepts_ident i k : ident_ok i -> stops IdentNextCharSet k -> plain k ->
  accepts (Seq [Letter; Star IdentNextChar] : rule) i k [].
Proof.
  intros Hi Hk Hp. pose proof (ident_plain_text i Hi) as Hpi. destruct i as [|c i]; [done|]. destruct Hi as [Hc Hi].
  apply accepts_Seq. apply (seq_accepts_cons _ _ [c] i _ [] []).
  - apply accepts_set; [done|]. by apply ident_plain, letter_ident.
  - apply seq_accepts_one, accepts_Star, stars_set; [done..|]. apply plain_app. by inversion Hpi.
Qed.

Definition dotted (ids : list text) : text := concat ((fun i => "."%char :: i) <$> ids).

Lemma dotted_plain ids : Forall ident_ok ids -> plain (dotted ids).
Proof.
  induction 1 as [|i ids Hi _ IH]; [constructor|]. cbn. constructor; [done|].
  apply plain_app. split; [by apply ident_plain_text|done].
Qed.

Lemma dotted_stops ids k : stops IdentNextCharSet k -> stops IdentNextCharSet (dotted ids ++ k).
Proof. by destruct ids. Qed.

Lemma stars_dotted ids k : Forall ident_ok ids -> stops IdentNextCharSet k -> head k <> Some "."%char -> plain k ->
  stars (Seq [Char "."; Seq [Letter; Star IdentNextChar]] : rule) (dotted ids) k [].
Proof.
  intros His Hk Hd Hp. induction His as [|i ids Hi His IH].
  - constructor. by apply rejects_Seq_here, rejects_Char.
  - change (dotted (i :: ids)) with (("."%char :: i) ++ dotted ids). change (@nil node) with (@nil node ++ []).
    constructor; [done| |done]. apply accepts_Seq. apply (seq_accepts_cons _ _ ["."%char] i _ [] []).
    + apply accepts_Char.
    + apply seq_accepts_one, accepts_ident; [done|by apply dotted_stops|].
      apply plain_app. split; [by apply dotted_plain|done].
Qed.

Lemma field_plain f : field_ok f -> plain (field_text f).
Proof.
  intros (H1 & H2 & _). apply plain_app. split; [by apply ident_plain_text|by apply dotted_plain].
Qed.

Lemma accepts_FieldName f k : ident_ok (first_ident f) -> Forall ident_ok (more_idents f) -> plain k ->
  accepts FieldName (field_text f) (sp ++ k) [].
Proof.
  intros H1 H2 Hk. unfold FieldName, DelimitedList, field_text. apply accepts_Seq.
  apply (seq_accepts_cons _ _ _ _ _ [] []).
  - apply accepts_ident; [done| |].
    + apply dotted_stops, sp_stops, space_not_ident.
    + apply plain_app. split; [by apply dotted_plain|by apply sp_app_plain].
  - apply seq_accepts_one, accepts_Star, stars_dotted; [done| |by apply sp_head|by apply sp_app_plain].
    apply sp_stops, space_not_ident.
Qed.

Lemma accepts_field f k : field_ok f -> solid k ->
  accepts (ST FieldName_l FieldName) (tok sp (field_text f)) k
    [Node FieldName_l (field_text f ++ sp ++ k) (sp ++ k) []].
Proof.
  intros (H1 & H2 & _) Hk. apply accepts_Tok; [|done]. apply accepts_Store, accepts_FieldName; [done..|apply Hk].
Qed.

(** The first character of a field. *)
Lemma field_head f : field_ok f -> exists c t, field_text f = c :: t /\ LetterCharSet c = true.
Proof.
  intros (H1 & _). unfold field_text. destruct (first_ident f) as [|c i]; [done|].
  destruct H1 as [Hc _]. by exists c, (i ++ dotted (more_idents f)).
Qed.

Lemma rejects_FieldName t : stops LetterCharSet t -> plain t -> rejects (ST FieldName_l FieldName) t.
Proof.
  intros Ht Hp. apply rejects_Tok, rejects_Store, rejects_fails.
  apply rejects_Seq_here, rejects_Seq_here. by apply rejects_set.
Qed.

(** *** Operators *)

Lemma rejects_op l r t : rejects r t -> rejects (Store l (Tok r)) t.
Proof. intros H. by apply rejects_Store, rejects_fails, rejects_Tok. Qed.

Lemma rejects_RelOp t :
  head t <> Some "="%char -> head t <> Some "<"%char -> head t <> Some ">"%char -> rejects OP_LIKE t -> rejects RelOp t.
Proof.
  intros H1 H2 H3 H4. apply rejects_Or. repeat constructor.
  7:{ by apply rejects_Store, rejects_fails. }
  all: apply rejects_op; (by apply rejects_Char) || (by apply rejects_Seq_here, rejects_Char).
Qed.

Ltac head_differs := cbn; let E := fresh in intros E; discriminate E.

(** An alternative of [RelOp] that fails on its first or on its second character. *)
Ltac skip_op :=
  apply accepts_Or_later; [apply rejects_op;
    first [ apply rejects_Char; head_differs
          | apply rejects_Seq_here, rejects_Char; head_differs
          | apply rejects_Seq, (seq_rejects_later _ _ ["<"%char]); [apply accepts_Char|];
            apply seq_rejects_here, (rejects_NotAt _ [_]); apply accepts_Or_here, accepts_Char
          | apply rejects_Seq, (seq_rejects_later _ _ ["<"%char]); [apply accepts_Char|];
            apply seq_rejects_here, (rejects_NotAt _ [_]);
            apply accepts_Or_later; [apply rejects_Char; head_differs|apply accepts_Or_here, accepts_Char]
          | apply rejects_Seq, (seq_rejects_later _ _ [">"%char]); [apply accepts_Char|];
            apply seq_rejects_here, (rejects_NotAt _ [_]); apply accepts_Char
          | apply rejects_Seq, (seq_rejects_later _ _ ["<"%char]); [apply accepts_Char|];
            apply seq_rejects_here, rejects_Char; head_differs ]|].

Ltac two_chars a b := apply accepts_Seq, (seq_accepts_cons _ _ [a] [b] _ [] []);
  [apply accepts_Char|apply seq_accepts_one, accepts_Char].

Lemma accepts_RelOp op k : op <> OPER_INVALID -> solid k ->
  exists n, accepts RelOp (tok sp (op_text op)) k [n] /\ setOperator n = op.
Proof.
  intros Hop Hk.
  assert (Hsym : forall c, WhiteSpaceCharSet c = false -> rejects (@Char label c) (sp ++ k))
    by (intros; by apply rejects_Char, sp_head).
  destruct op; [..|done]; unfold RelOp; eexists; split.
  1: { apply accepts_Or_here, accepts_Store, accepts_Tok; [apply accepts_Char|done]. }
  2: { skip_op. apply accepts_Or_here, accepts_Store, accepts_Tok; [|done].
       apply accepts_Seq, (seq_accepts_cons _ _ ["<"%char] [] _ [] []); [apply accepts_Char|].
       apply seq_accepts_one, accepts_NotAt, rejects_Or. repeat constructor; by apply Hsym. }
  3: { do 2 skip_op. apply accepts_Or_here, accepts_Store, accepts_Tok; [|done].
       apply accepts_Seq, (seq_accepts_cons _ _ [">"%char] [] _ [] []); [apply accepts_Char|].
       apply seq_accepts_one, accepts_NotAt. by apply Hsym. }
  4: { do 3 skip_op. apply accepts_Or_here, accepts_Store, accepts_Tok; [two_chars "<"%char "="%char|done]. }
  5: { do 4 skip_op. apply accepts_Or_here, accepts_Store, accepts_Tok; [two_chars ">"%char "="%char|done]. }
  6: { do 5 skip_op. apply accepts_Or_here, accepts_Store, accepts_Tok; [two_chars "<"%char ">"%char|done]. }
  7: { do 6 skip_op. apply accepts_Or_here, accepts_Store, accepts_Keyword; [done|done]. }
  all: reflexivity.
Qed.

(** *** Literals *)

Definition number_start (c : ascii) : bool := DigitCharSet c || bool_decide (c ∈ ["+"; "-"; "."]%char).
Definition quote (c : ascii) : bool := CharSet ["'"; "`"]%char c.
Definition param_start (c : ascii) : bool := number_start c || quote c || bool_decide (c = "%"%char).

Lemma stops_impl (f g : ascii -> bool) t : (forall c, g c = true -> f c = true) -> stops f t -> stops g t.
Proof. destruct t as [|c t]; [done|]. cbn. intros H Hf. destruct (g c) eqn:E; [|done]. by rewrite (H c E) in Hf. Qed.

Lemma stops_head (f : ascii -> bool) c t : stops f t -> f c = true -> head t <> Some c.
Proof. destruct t as [|x t]; [done|]. cbn. intros H1 H2 [= ->]. congruence. Qed.

Lemma number_digit c : DigitCharSet c = true -> number_start c = true.
Proof. intros H. unfold number_start. by rewrite H. Qed.

Lemma rejects_IntVal t : stops number_start t -> plain t -> rejects IntVal t.
Proof.
  intros Ht Hp. apply rejects_Or. repeat constructor.
  - apply rejects_Seq, (seq_rejects_later _ _ [] t).
    + apply accepts_Opt_none, rejects_Or. repeat constructor; apply rejects_Char; by eapply stops_head.
    + apply seq_rejects_here, rejects_Plus, rejects_set; [|done]. eapply stops_impl, Ht. exact number_digit.
  - apply rejects_Seq_here, rejects_word. destruct t as [|c t]; [done|]. cbn in Ht |- *.
    destruct (decide (c = "0"%char)) as [->|Hc]; [done|]. rewrite bool_decide_false; [done|].
    clear - Hc. intros E. apply Hc. revert E. by_chars c.
Qed.

Lemma rejects_FloatVal t : stops number_start t -> plain t -> rejects FloatVal t.
Proof.
  intros Ht Hp. apply rejects_Seq, (seq_rejects_later _ _ [] t).
  - apply accepts_Opt_none, rejects_Or. repeat constructor; apply rejects_Char; by eapply stops_head.
  - apply seq_rejects_here, rejects_Or. repeat constructor; apply rejects_Seq_here.
    + apply rejects_Plus, rejects_set; [|done]. eapply stops_impl, Ht. exact number_digit.
    + apply rejects_Char. by eapply stops_head.
Qed.

Lemma rejects_quoted rs t : stops quote t -> plain t -> rejects (Seq (Quote :: rs)) t.
Proof. intros Ht Hp. apply rejects_Seq_here. by apply rejects_set. Qed.

Lemma rejects_Param t : stops param_start t -> plain t -> rejects Param t.
Proof.
  intros Ht Hp.
  assert (Hn : stops number_start t) by (eapply stops_impl, Ht; unfold param_start; by intros c ->).
  assert (Hq : stops quote t) by (eapply stops_impl, Ht; unfold param_start; intros c ->; by rewrite orb_true_r).
  apply rejects_Tok, rejects_Or. repeat constructor; apply rejects_Store, rejects_fails.
  - by apply rejects_IntVal.
  - by apply rejects_quoted.
  - by apply rejects_FloatVal.
  - by apply rejects_quoted.
  - apply rejects_Seq_here, rejects_Char, (stops_head param_start); [exact Ht|vm_compute; reflexivity].
Qed.

Lemma accepts_sign sg k : sign sg -> (sg = [] -> head k <> Some "+"%char /\ head k <> Some "-"%char) -> accepts OptPlusMinus sg k [].
Proof.
  intros [->|[->| ->]] Hk.
  - apply accepts_Opt_none, rejects_Or. repeat constructor; apply rejects_Char; by apply Hk.
  - apply accepts_Opt; [done|]. apply accepts_Or_here, accepts_Char.
  - apply accepts_Opt; [done|]. apply accepts_Or_later; [apply rejects_Char; head_differs|].
    apply accepts_Or_here, accepts_Char.
Qed.

Lemma accepts_digits ds k : digits ds -> stops DigitCharSet k -> plain k -> accepts (Plus Digit : rule) ds k [].
Proof.
  intros [Hne Hd] Hk Hp. destruct ds as [|d ds]; [done|]. pose proof (digits_plain _ Hd) as Hpd.
  apply Forall_cons in Hd as [Hd1 Hd]. apply Forall_cons in Hpd as [Hpd1 Hpd].
  apply (accepts_Plus _ [d] ds _ [] []); [by apply accepts_set|]. apply stars_set; [done..|]. by apply plain_app.
Qed.

Lemma digits_head ds k c : digits ds -> DigitCharSet c = false -> head (ds ++ k) <> Some c.
Proof. intros [Hne Hd] Hc. destruct ds as [|d ds]; [done|]. inversion Hd; subst. cbn. congruence. Qed.

Lemma insert_int_sign z : fits z -> exists sg ds, insert_int z = sg ++ ds /\ sign sg /\ digits ds.
Proof.
  intros Hz. unfold fits in Hz. unfold insert_int. destruct (Z.ltb_spec z 0).
  - exists ["-"%char], (print_digits 20 (- z)). split; [done|]. split; [by right; right|].
    split; [apply print_digits_ne|apply print_digits_digits; lia].
  - exists [], (print_digits 20 z). split; [done|]. split; [by left|].
    split; [apply print_digits_ne|apply print_digits_digits; lia].
Qed.

Lemma accepts_IntVal sg ds k : sign sg -> digits ds -> plain k -> accepts IntVal (sg ++ ds) (sp ++ k) [].
Proof.
  intros Hs Hd Hk. pose proof (sp_app_plain k Hk) as Hp. apply accepts_Or_here, accepts_Seq.
  apply (seq_accepts_cons _ _ sg ds _ [] []).
  { apply accepts_sign; [done|]. intros _. split; by apply digits_head. }
  rewrite <- (app_nil_r ds). apply (seq_accepts_cons _ _ ds [] _ [] []).
  { apply accepts_digits; [done| |done]. apply sp_stops, space_not_digit. }
  apply seq_accepts_skip.
  { apply accepts_NotAt, rejects_set; [|done]. apply sp_stops, space_not_digit. }
  apply seq_accepts_one, accepts_NotAt, rejects_Or. repeat constructor; by apply rejects_Char, sp_head.
Qed.

Lemma accepts_StrVal_chars str k : plain str -> Forall (fun c => c <> "'"%char /\ c <> "010"%char) str ->
  accepts StrVal ("'"%char :: str ++ ["'"%char]) k [].
Proof.
  intros Hp Hc. apply accepts_Seq. apply (seq_accepts_cons _ _ ["'"%char] (str ++ ["'"%char]) _ [] []).
  { by apply accepts_set. }
  apply (seq_accepts_cons _ _ str ["'"%char] _ [] []); [|apply seq_accepts_one, accepts_Char].
  apply accepts_Star. clear Hsp. induction Hc as [|c str [Hc1 Hc2] Hc IH].
  - constructor. apply rejects_Seq_here. cbn [app]. apply (rejects_NotAt _ ["'"%char]). by apply accepts_set.
  - apply Forall_cons in Hp as [Hp1 Hp]. change (@nil node) with (@nil node ++ []).
    apply (stars_step _ [c] str); [done| |by apply IH]. apply accepts_Seq.
    apply (seq_accepts_cons _ _ [] [c] _ [] []); [|apply seq_accepts_one, accepts_AnyChar].
    apply accepts_NotAt. intros cur. cbn. destruct (Z.ltb_spec (char_value c) 0); [lia|].
    unfold CharSet. rewrite bool_decide_false; [done|]. intros Hin.
    by repeat (apply elem_of_cons in Hin as [->|Hin]; [done|]); apply not_elem_of_nil in Hin.
Qed.

Lemma rejects_CharVal_string str k : plain str -> Forall (fun c => c <> "'"%char /\ c <> "010"%char) str ->
  length str <> 1%nat -> rejects CharVal (("'"%char :: str ++ ["'"%char]) ++ sp ++ k).
Proof.
  intros Hp Hc Hl. apply rejects_Seq. apply (seq_rejects_later _ _ ["'"%char]); [by apply accepts_set|].
  destruct str as [|a [|b str]]; [| done|]; cbn [app].
  - apply (seq_rejects_later _ _ ["'"%char]); [apply accepts_AnyChar|].
    apply seq_rejects_here, rejects_Char. by apply sp_head.
  - apply (seq_rejects_later _ _ [a]); [apply accepts_AnyChar|].
    apply seq_rejects_here, rejects_Char. inversion Hc as [|? ? _ Hc']; subst. inversion Hc' as [|? ? [Hb _] _]; subst.
    cbn. congruence.
Qed.

Section Float.
Context (sg ds fs ex : text).
Hypothesis (Hsg : sign sg) (Hds : digits ds) (Hfs : Forall (fun c => DigitCharSet c = true) fs).
Hypothesis (Hex : ex = [] \/ exists sg' es, ex = "e"%char :: sg' ++ es /\ sign sg' /\ digits es).

Lemma exponent_plain : plain ex.
Proof.
  destruct Hex as [->|(sg' & es & -> & Hs & _ & He)]; [constructor|]. constructor; [done|].
  apply plain_app. split; [|by apply digits_plain]. destruct Hs as [->|[->| ->]]; repeat constructor; done.
Qed.

Lemma exponent_stops k : stops DigitCharSet (ex ++ sp ++ k).
Proof.
  destruct Hex as [->|(sg' & es & -> & _)]; [|done]. apply sp_stops, space_not_digit.
Qed.

Lemma rejects_IntVal_float k : plain k -> rejects IntVal ((sg ++ ds ++ "."%char :: fs ++ ex) ++ sp ++ k).
Proof.
  intros Hk. assert (Hp : plain ("."%char :: (fs ++ ex) ++ sp ++ k)).
  { constructor; [done|]. rewrite !plain_app. split_and!; [by apply digits_plain|apply exponent_plain|apply sp_plain|done]. }
  apply rejects_Or. repeat constructor.
  - apply rejects_Seq. rewrite <- !app_assoc. apply (seq_rejects_later _ _ sg).
    { apply accepts_sign; [done|]. intros _. split; by apply digits_head. }
    apply (seq_rejects_later _ _ ds). { by apply accepts_digits. }
    apply (seq_rejects_later _ _ []). { apply accepts_NotAt, rejects_set; done. }
    apply seq_rejects_here. apply (rejects_NotAt _ ["."%char]).
    do 2 (apply accepts_Or_later; [apply rejects_Char; head_differs|]). apply accepts_Or_here, accepts_Char.
  - apply rejects_Seq_here, rejects_word. destruct Hds as [Hne Hd].
    destruct Hsg as [->|[->| ->]]; [|done..]. destruct ds as [|d ds']; [done|]. cbn [app].
    cbn -[ToLowercase]. apply andb_false_iff. right. inversion Hd as [|? ? _ Hd']; subst.
    destruct ds' as [|d' ds']; [done|]. inversion Hd' as [|? ? Hx _]; subst. cbn [app]. apply andb_false_iff. left.
    apply bool_decide_eq_false. clear - Hx. revert Hx. by_chars d'.
Qed.

Lemma accepts_OptExp k : plain k -> accepts OptExp ex (sp ++ k) [].
Proof.
  intros Hk. destruct Hex as [->|(sg' & es & -> & Hs & He)].
  - apply accepts_Opt_none, rejects_Seq_here, rejects_Char. by apply sp_head.
  - apply accepts_Opt; [done|]. apply accepts_Seq. apply (seq_accepts_cons _ _ ["e"%char] (sg' ++ es) _ [] []); [apply accepts_Char|].
    apply (seq_accepts_cons _ _ sg' es _ [] []).
    { apply accepts_sign; [done|]. intros _. split; by apply digits_head. }
    apply seq_accepts_one, accepts_digits; [done| |by apply sp_app_plain].
    apply sp_stops, space_not_digit.
Qed.

Lemma accepts_FloatVal k : plain k -> accepts FloatVal (sg ++ ds ++ "."%char :: fs ++ ex) (sp ++ k) [].
Proof.
  intros Hk. pose proof (sp_app_plain k Hk) as Hp.
  assert (Hpe : plain (ex ++ sp ++ k)) by (apply plain_app; split; [apply exponent_plain|done]).
  apply accepts_Seq. apply (seq_accepts_cons _ _ sg (ds ++ "."%char :: fs ++ ex) _ [] []).
  { apply accepts_sign; [done|]. intros _. rewrite <- app_assoc. split; by apply digits_head. }
  replace (ds ++ "."%char :: fs ++ ex) with ((ds ++ ["."%char] ++ fs) ++ ex) by (by rewrite <- !app_assoc).
  apply (seq_accepts_cons _ _ (ds ++ ["."%char] ++ fs) ex _ [] []).
  { apply accepts_Or_here, accepts_Seq, (seq_accepts_cons _ _ ds (["."%char] ++ fs) _ [] []).
    - apply accepts_digits; [done|done|]. constructor; [done|]. apply plain_app. split; [by apply digits_plain|done].
    - apply (seq_accepts_cons _ _ ["."%char] fs _ [] []); [apply accepts_Opt; [done|apply accepts_Char]|].
      apply seq_accepts_one, accepts_Star, stars_set; [done|apply exponent_stops|].
      apply plain_app. split; [by apply digits_plain|done]. }
  rewrite <- (app_nil_r ex). apply (seq_accepts_cons _ _ ex [] _ [] []); [by apply accepts_OptExp|].
  apply seq_accepts_one, accepts_NotAt, rejects_set; [apply sp_stops, space_not_ident|done].
Qed.

Lemma float_head k : stops quote (sg ++ ds ++ k).
Proof.
  destruct Hsg as [->|[->| ->]]; [|done..]. destruct Hds as [Hne Hd]. destruct ds as [|d ds']; [done|].
  inversion Hd; subst. cbn. revert H1. clear. by_chars d.
Qed.

End Float.

(** *** Parameters and literals *)

Section Operands.
Context `{FloatOps}.

(** The texts of integers, with no letter in them, are not taken for hexadecimal. *)
Lemma new_LiteralInt_decimal z k : is_s 32 z ->
  new_LiteralInt (Node IntVal_l (insert_int z ++ k) k []) = LiteralInt z.
Proof.
  intros Hz. unfold new_LiteralInt. rewrite toString_node.
  assert (Hfit : fits z) by (unfold fits, is_s in *; cbn in *; lia).
  transitivity (LiteralInt (atoi (insert_int z))); [|by rewrite atoi_insert].
  destruct (insert_int_sign z Hfit) as (sg & ds & Hi & Hs & Hne & Hd).
  destruct (insert_int z) as [|c [|x [|y t]]]; try done; try (by destruct c as [[] [] [] [] [] [] [] []]).
  destruct (decide (c = "0"%char)) as [->|Hc]; [|by destruct c as [[] [] [] [] [] [] [] []]].
  rewrite bool_decide_false; [done|].
  destruct Hs as [->|[->| ->]]; [|done..]. cbn in Hi. subst ds. inversion Hd as [|? ? _ Hd']; subst.
  inversion Hd' as [|? ? Hx _]; subst. intros Hin.
  repeat (apply elem_of_cons in Hin as [->|Hin]; [done|]). by apply not_elem_of_nil in Hin.
Qed.

Lemma param_plain p : param_ok p -> plain (param_text p).
Proof.
  destruct p as [z|c|t|str|n]; cbn [param_ok param_text].
  - intros Hz. assert (Hfit : fits z) by (unfold fits, is_s in *; cbn in *; lia).
    destruct (insert_int_sign z Hfit) as (sg & ds & -> & Hs & _ & Hd). apply plain_app.
    split; [|by apply digits_plain]. destruct Hs as [->|[->| ->]]; repeat constructor; done.
  - intros Hc. repeat constructor; done.
  - intros (sg & ds & fs & ex & -> & Hs & [_ Hd] & Hf & He). rewrite plain_app.
    split; [destruct Hs as [->|[->| ->]]; repeat constructor; done|].
    rewrite plain_app. split; [by apply digits_plain|]. constructor; [done|]. apply plain_app.
    split; [by apply digits_plain|]. by apply exponent_plain.
  - intros (Hp & _ & _). constructor; [done|]. apply plain_app. split; [done|]. by repeat constructor.
  - intros Hn. constructor; [done|]. apply digits_plain, print_digits_digits. lia.
Qed.

Lemma print_two n : 0 <= n < 100 ->
  exists d ds, print_digits 2 n = d :: ds /\ DigitCharSet d = true /\ atoi (d :: ds) = n
    /\ (ds = [] \/ exists d', ds = [d'] /\ DigitCharSet d' = true).
Proof.
  intros Hn.
  assert (Hin : In n (seqZ 0 100)) by (apply list_elem_of_In, elem_of_seqZ; lia).
  assert (Hall : forallb (fun n => match print_digits 2 n with
    | [d] => DigitCharSet d && (atoi [d] =? n)
    | [d; d'] => DigitCharSet d && DigitCharSet d' && (atoi [d; d'] =? n)
    | _ => false end) (seqZ 0 100) = true) by (vm_compute; reflexivity).
  rewrite forallb_forall in Hall. specialize (Hall n Hin). cbv beta in Hall.
  destruct (print_digits 2 n) as [|d [|d' [|]]]; try done.
  - apply andb_prop in Hall as [Hd Ha]. apply Z.eqb_eq in Ha. exists d, []. eauto.
  - apply andb_prop in Hall as [[Hd Hd']%andb_prop Ha]. apply Z.eqb_eq in Ha. exists d, [d']. split_and!; eauto.
Qed.

Lemma accepts_Param p k : param_ok p -> solid k ->
  exists n, accepts Param (tok sp (param_text p)) k [n] /\ createOperand n = Ret (param_operand p)
    /\ TypeMatches NOT_l n = false.
Proof.
  intros Hok Hk. destruct Hk as [Hks Hkp]. pose proof (param_plain p Hok) as Hpl.
  assert (Hpp : plain (param_text p ++ sp ++ k)) by (apply plain_app; split; [done|by apply sp_app_plain]).
  destruct p as [z|c|t|str|n]; cbn [param_ok param_text] in *.
  - assert (Hfit : fits z) by (unfold fits, is_s in *; cbn in *; lia).
    destruct (insert_int_sign z Hfit) as (sg & ds & Hi & Hs & Hd).
    eexists. split; [apply accepts_Tok; [|by split]; apply accepts_Or_here, accepts_Store; rewrite Hi; by apply accepts_IntVal|].
    split; [|done]. unfold createOperand. cbn [TypeMatches node_rule].
    exact (f_equal Ret (new_LiteralInt_decimal z (sp ++ k) Hok)).
  - eexists. split.
    { apply accepts_Tok; [|by split]. apply accepts_Or_later; [by apply rejects_Store, rejects_fails, rejects_IntVal|].
      apply accepts_Or_here, accepts_Store, accepts_Seq, (seq_accepts_cons _ _ ["'"%char] _ _ [] []); [by apply accepts_set|].
      apply (seq_accepts_cons _ _ [c] _ _ [] []); [apply accepts_AnyChar|apply seq_accepts_one, accepts_Char]. }
    split; [|done]. unfold createOperand. cbn [TypeMatches node_rule]. unfold new_LiteralChar. by rewrite toString_node.
  - destruct Hok as (sg & ds & fs & ex & -> & Hs & Hd & Hf & He). eexists. split.
    { apply accepts_Tok; [|by split].
      apply accepts_Or_later; [by apply rejects_Store, rejects_fails, rejects_IntVal_float|].
      apply accepts_Or_later; [apply rejects_Store, rejects_fails, rejects_quoted; [|done]|].
      { rewrite <- !app_assoc. by apply float_head. }
      apply accepts_Or_here, accepts_Store. by apply accepts_FloatVal. }
    split; [|done]. unfold createOperand. cbn [TypeMatches node_rule]. by rewrite toString_node.
  - destruct Hok as (Hp & Hc & Hl). eexists. split.
    { apply accepts_Tok; [|by split]. apply accepts_Or_later; [by apply rejects_Store, rejects_fails, rejects_IntVal|].
      apply accepts_Or_later; [by apply rejects_Store, rejects_fails, rejects_CharVal_string|].
      apply accepts_Or_later; [by apply rejects_Store, rejects_fails, rejects_FloatVal|].
      apply accepts_Or_here, accepts_Store. by apply accepts_StrVal_chars. }
    split; [|done]. unfold createOperand. cbn [TypeMatches node_rule]. unfold new_LiteralString.
    rewrite toString_node. rewrite bool_decide_false by (by intros [_ ?]%app_nil).
    rewrite length_app. cbn [length]. replace (length str + 1 - 1)%nat with (length str) by lia.
    by rewrite take_app_length.
  - destruct (print_two n Hok) as (d & ds & Hpd & Hd & Ha & Hds). rewrite Hpd in *. eexists. split.
    { apply accepts_Tok; [|by split].
      apply accepts_Or_later; [by apply rejects_Store, rejects_fails, rejects_IntVal|].
      apply accepts_Or_later; [by apply rejects_Store, rejects_fails, rejects_quoted|].
      apply accepts_Or_later; [by apply rejects_Store, rejects_fails, rejects_FloatVal|].
      apply accepts_Or_later; [by apply rejects_Store, rejects_fails, rejects_quoted|].
      apply accepts_Or_here, accepts_Store, accepts_Seq, (seq_accepts_cons _ _ ["%"%char] (d :: ds) _ [] []); [apply accepts_Char|].
      apply (seq_accepts_cons _ _ [d] ds _ [] []); [apply accepts_set; [done|by apply ident_plain, digit_ident]|].
      apply seq_accepts_one. destruct Hds as [->|(d' & -> & Hd')].
      - apply accepts_Opt_none, rejects_set; [|by apply sp_app_plain]. apply sp_stops, space_not_digit.
      - apply accepts_Opt; [done|]. apply accepts_set; [done|by apply ident_plain, digit_ident]. }
    split; [|done]. unfold createOperand. cbn [TypeMatches node_rule]. unfold new_Parameter.
    rewrite toString_node. by rewrite Ha.
Qed.

(** The first character of a parameter. *)
Lemma param_head p : param_ok p -> exists c t, param_text p = c :: t /\ param_start c = true.
Proof.
  destruct p as [z|c|t|str|n]; cbn [param_ok param_text]; intros Hok.
  - destruct (insert_int_start z) as (c & t & -> & Hc); [unfold fits, is_s in *; cbn in *; lia|].
    exists c, t. split; [done|]. destruct Hc as [Hc| ->]; [|done]. revert Hc. by_chars c.
  - by eexists _, _.
  - destruct Hok as (sg & ds & fs & ex & -> & Hs & [Hne Hd] & _). destruct ds as [|d ds]; [done|].
    inversion Hd as [|? ? Hd1 _]; subst.
    destruct Hs as [->|[->| ->]]; (eexists _, _; split; [reflexivity|]); [|done..]. revert Hd1. clear. by_chars d.
  - by eexists _, _.
  - by eexists _, _.
Qed.

(** *** Predicates *)

Lemma param_start_facts c : param_start c = true -> WhiteSpaceCharSet c = false /\ LetterCharSet c = false.
Proof. by_chars c. Qed.
Lemma letter_facts c : LetterCharSet c = true -> WhiteSpaceCharSet c = false /\ param_start c = false.
Proof. by_chars c. Qed.

Lemma solid_tok c t k : WhiteSpaceCharSet c = false -> plain (c :: t) -> plain k -> solid (tok sp (c :: t) ++ k).
Proof.
  intros Hc Ht Hk. split; [done|]. unfold tok. rewrite !plain_app. split_and!; [done|apply sp_plain|done].
Qed.

Lemma solid_field f k : field_ok f -> plain k -> solid (tok sp (field_text f) ++ k).
Proof.
  intros Hf Hk. pose proof (field_plain f Hf) as Hp. destruct (field_head f Hf) as (c & t & E & Hc). rewrite E in *.
  by apply solid_tok; [apply letter_facts|..].
Qed.

Lemma solid_param p k : param_ok p -> plain k -> solid (tok sp (param_text p) ++ k).
Proof.
  intros Hf Hk. pose proof (param_plain p Hf) as Hp. destruct (param_head p Hf) as (c & t & E & Hc). rewrite E in *.
  by apply solid_tok; [apply param_start_facts|..].
Qed.

Lemma solid_op op k : op <> OPER_INVALID -> plain k -> solid (tok sp (op_text op) ++ k).
Proof. intros Ho Hk. destruct op; [..|done]; (apply solid_tok; [done| |done]); by repeat constructor. Qed.

Lemma rejects_field_at_param p k : param_ok p -> plain k -> rejects (ST FieldName_l FieldName) (tok sp (param_text p) ++ k).
Proof.
  intros Hp Hk. apply rejects_FieldName; [|by apply solid_param].
  destruct (param_head p Hp) as (c & t & -> & Hc). by apply param_start_facts.
Qed.

Lemma rejects_param_at_field f k : field_ok f -> plain k -> rejects Param (tok sp (field_text f) ++ k).
Proof.
  intros Hf Hk. apply rejects_Param; [|by apply solid_field].
  destruct (field_head f Hf) as (c & t & -> & Hc). by apply letter_facts.
Qed.

Lemma rejects_between f op k : field_ok f -> op <> OPER_INVALID -> plain k ->
  rejects (Store BetweenPred_l BetweenPred) (tok sp (field_text f) ++ tok sp (op_text op) ++ k).
Proof.
  intros Hf Ho Hk. apply rejects_Store, fails_Seq. eapply seq_fails_later; [by apply accepts_field, solid_op|].
  apply (seq_fails_later _ _ [] _ []).
  - apply accepts_Opt_none, rejects_Store, rejects_fails, rejects_Keyword. by destruct op.
  - apply seq_fails_here, rejects_fails, rejects_Keyword. by destruct op.
Qed.

(** A comparison, when its two sides are read. *)
Lemma accepts_cmp l r1 r2 t1 t2 op k n1 n2 : op <> OPER_INVALID ->
  accepts r1 t1 (tok sp (op_text op) ++ t2 ++ k) [n1] -> solid (t2 ++ k) -> accepts r2 t2 k [n2] ->
  exists no, setOperator no = op
    /\ accepts (Store l (Seq [r1; RelOp; r2])) (t1 ++ tok sp (op_text op) ++ t2) k
         [Node l ((t1 ++ tok sp (op_text op) ++ t2) ++ k) k [n1; no; n2]].
Proof.
  intros Ho H1 Hs H2. destruct (accepts_RelOp op (t2 ++ k) Ho Hs) as (no & Hno & Eo). exists no. split; [done|].
  apply accepts_Store, accepts_Seq. apply (seq_accepts_cons _ _ t1 _ _ [n1] [no; n2]); [by rewrite <- app_assoc|].
  apply (seq_accepts_cons _ _ (tok sp (op_text op)) t2 _ [no] [n2]); [done|]. by apply seq_accepts_one.
Qed.

Lemma walk_cmp l first last a no b oa ob prev :
  l ∈ [CmpFnParam_l; CmpParamFn_l; CmpBothFn_l] -> createOperand a = Ret oa -> createOperand b = Ret ob ->
  walkAst (Node l first last [a; no; b]) prev = attach (Some (Comparison oa (setOperator no) ob)) prev.
Proof.
  intros Hl Ea Eb. rewrite !elem_of_cons in Hl.
  destruct Hl as [->|[->|[->|Hl]]]; [..|by apply not_elem_of_nil in Hl];
    cbn [walkAst]; unfold new_Comparison; cbn [node_children]; by rewrite Ea, Eb.
Qed.

Lemma createOperand_field f k : createOperand (Node FieldName_l (field_text f ++ k) k []) = Ret (FieldLookup (field_text f)).
Proof. unfold createOperand. cbn [TypeMatches node_rule]. by rewrite toString_node. Qed.

Lemma accepts_between f neg lo hi k : field_ok f -> param_ok lo -> param_ok hi -> solid k ->
  exists n, accepts (Store BetweenPred_l BetweenPred) (pred_text sp (PBetween f neg lo hi)) k [n]
    /\ forall prev, walkAst n prev = attach (Some (pred_tree (PBetween f neg lo hi))) prev.
Proof.
  intros Hf Hlo Hhi Hk. assert (Hkp := proj2 Hk).
  assert (Hs1 : solid (tok sp (param_text hi) ++ k)) by (by apply solid_param).
  assert (Hs2 : solid (tok sp (chars "AND") ++ tok sp (param_text hi) ++ k))
    by (apply solid_tok; [done|by repeat constructor|apply Hs1]).
  assert (Hs3 : solid (tok sp (param_text lo) ++ tok sp (chars "AND") ++ tok sp (param_text hi) ++ k))
    by (apply solid_param; [done|apply Hs2]).
  set (t3 := tok sp (param_text lo) ++ tok sp (chars "AND") ++ tok sp (param_text hi)).
  assert (Et3 : t3 ++ k = tok sp (param_text lo) ++ tok sp (chars "AND") ++ tok sp (param_text hi) ++ k)
    by (unfold t3; by rewrite <- !app_assoc).
  assert (Hs4 : solid (tok sp (chars "BETWEEN") ++ t3 ++ k))
    by (apply solid_tok; [done|by repeat constructor|rewrite Et3; apply Hs3]).
  destruct (accepts_Param lo (tok sp (chars "AND") ++ tok sp (param_text hi) ++ k) Hlo Hs2) as (nlo & Hnlo & Elo & Nlo).
  destruct (accepts_Param hi k Hhi Hk) as (nhi & Hnhi & Ehi & _).
  assert (Hrest : seq_accepts [BETWEEN; Param; AND; Param] (tok sp (chars "BETWEEN") ++ t3) k [nlo; nhi]).
  { apply (seq_accepts_cons _ _ _ _ _ [] _); [apply accepts_Keyword; [done|by rewrite Et3]|].
    apply (seq_accepts_cons _ _ _ _ _ [nlo] _); [by rewrite <- app_assoc|].
    apply (seq_accepts_cons _ _ _ _ _ [] _); [by apply accepts_Keyword|]. by apply seq_accepts_one. }
  set (nt := if neg then tok sp (chars "NOT") else []).
  assert (exists inv, seq_accepts [Opt (Store NOT_l NOT); BETWEEN; Param; AND; Param]
      (nt ++ tok sp (chars "BETWEEN") ++ t3) k (inv ++ [nlo; nhi])
    /\ solid (nt ++ tok sp (chars "BETWEEN") ++ t3 ++ k)
    /\ (if neg then exists m, inv = [m] /\ TypeMatches NOT_l m = true else inv = [])) as (inv & Hinv & Hs5 & Einv).
  { unfold nt. destruct neg; eexists; (split; [apply seq_accepts_cons; [|exact Hrest]|]).
    - apply accepts_Opt; [by destruct sp|]. apply accepts_Store, accepts_Keyword; [done|by rewrite <- app_assoc].
    - split; [|eexists; split; [reflexivity|done]]. apply solid_tok; [done|by repeat constructor|apply Hs4].
    - apply accepts_Opt_none, rejects_Store, rejects_fails, rejects_Keyword. by rewrite <- app_assoc.
    - split; [exact Hs4|done]. }
  eexists. split.
  { apply accepts_Store, accepts_Seq. cbn [pred_text]. fold t3 nt.
    eapply (seq_accepts_cons _ _ (tok sp (field_text f)) _ _ _ (inv ++ [nlo; nhi])); [|exact Hinv].
    apply accepts_field; [done|]. by rewrite <- !app_assoc. }
  intros prev. cbn [walkAst app]. unfold new_Between. cbn [node_children]. rewrite toString_node.
  destruct neg; [destruct Einv as (m & -> & Em)|subst inv]; cbn [app head tail deref mbind outcome_bind].
  - rewrite Em. cbn [head tail deref mbind outcome_bind]. rewrite Elo. cbn [mbind outcome_bind]. by rewrite Ehi.
  - rewrite Nlo. cbn [head tail deref mbind outcome_bind]. rewrite Elo. cbn [mbind outcome_bind]. by rewrite Ehi.
Qed.

Lemma accepts_Pred p k : pred_ok p -> solid k ->
  exists n, accepts Pred (pred_text sp p) k [n] /\ forall prev, walkAst n prev = attach (Some (pred_tree p)) prev.
Proof.
  intros Hp Hk. assert (Hkp := proj2 Hk). destruct p as [f neg lo hi|f op p|p op f|f op g]; cbn [pred_ok] in Hp.
  - destruct Hp as (Hf & Hlo & Hhi). destruct (accepts_between f neg lo hi k Hf Hlo Hhi Hk) as (n & Hn & En).
    exists n. split; [by apply accepts_Or_here|done].
  - destruct Hp as (Hf & Ho & Hp). destruct (accepts_Param p k Hp Hk) as (n2 & Hn2 & E2 & _).
    assert (Hs := solid_param p k Hp Hkp).
    destruct (accepts_cmp CmpFnParam_l (ST FieldName_l FieldName) Param (tok sp (field_text f)) _ op k _ n2 Ho
      (accepts_field f _ Hf (solid_op op _ Ho (proj2 Hs))) Hs Hn2) as (no & <- & Hc).
    eexists. split.
    { apply accepts_Or_later; [cbn [pred_text]; rewrite <- !app_assoc; by apply rejects_between; [..|apply Hs]|].
      apply accepts_Or_here, Hc. }
    intros prev; apply walk_cmp; [set_solver|apply createOperand_field|exact E2].
  - destruct Hp as (Hf & Ho & Hp). assert (Hs := solid_field f k Hf Hkp).
    assert (Hso := solid_op op _ Ho (proj2 Hs)).
    destruct (accepts_Param p _ Hp Hso) as (n1 & Hn1 & E1 & _).
    destruct (accepts_cmp CmpParamFn_l Param (ST FieldName_l FieldName) (tok sp (param_text p)) _ op k n1 _ Ho
      Hn1 Hs (accepts_field f k Hf Hk)) as (no & <- & Hc).
    eexists. split.
    { do 2 (apply accepts_Or_later; [apply rejects_Store, rejects_fails, rejects_Seq_here; cbn [pred_text];
        rewrite <- !app_assoc; apply rejects_field_at_param; [done|apply Hso]|]).
      apply accepts_Or_here, Hc. }
    intros prev; apply walk_cmp; [set_solver|exact E1|apply createOperand_field].
  - destruct Hp as (Hf & Ho & Hg). assert (Hs := solid_field g k Hg Hkp).
    assert (Hso := solid_op op _ Ho (proj2 Hs)).
    destruct (accepts_cmp CmpBothFn_l (ST FieldName_l FieldName) (ST FieldName_l FieldName) (tok sp (field_text f)) _ op k _ _ Ho
      (accepts_field f _ Hf Hso) Hs (accepts_field g k Hg Hk)) as (no & <- & Hc).
    eexists. split.
    { destruct (accepts_RelOp (setOperator no) _ Ho Hs) as (no' & Hno' & _).
      cbn [pred_text]. apply accepts_Or_later; [rewrite <- !app_assoc; by apply rejects_between; [..|apply Hs]|].
      apply accepts_Or_later.
      { rewrite <- !app_assoc. apply rejects_Store, fails_Seq.
        eapply seq_fails_later; [by apply accepts_field|]. eapply seq_fails_later; [exact Hno'|].
        by apply seq_fails_here, rejects_fails, rejects_param_at_field. }
      apply accepts_Or_later; [|apply accepts_Or_here, Hc].
      rewrite <- !app_assoc. apply rejects_Store, rejects_fails, rejects_Seq_here, rejects_param_at_field; [done|apply Hso]. }
    intros prev; apply walk_cmp; [set_solver|apply createOperand_field..].
Qed.

(** *** Conditions *)

(** A text after which a condition ends. *)
Definition ends (k : text) : Prop := starts_ci (chars "and") k = false /\ starts_ci (chars "or") k = false.

Lemma walk_all_app ns1 ns2 prev : walk_all (ns1 ++ ns2) prev = (e ← walk_all ns1 prev; walk_all ns2 e).
Proof.
  revert prev. induction ns1 as [|n ns1 IH]; intros prev; [done|]. cbn [app walk_all].
  destruct (walkAst n prev); cbn [mbind outcome_bind]; [apply IH|done..].
Qed.

(** [Cond], with any fuel above the length of the input, reads [t] before [k], and
    its nodes turn a tree [prev] in [D] into [F prev]. *)
Definition cond_runs (t k : text) (D : option EvalNode -> Prop) (F : option EvalNode -> EvalNode) : Prop :=
  exists ns, (forall n, (length (t ++ k) < n)%nat -> accepts (Cond n) t k ns)
    /\ forall prev, D prev -> walk_all ns prev = Ret (Some (F prev)).

Definition attach_tree (prev : option EvalNode) (e : EvalNode) : EvalNode :=
  match prev with None => e | Some p => addChild p e end.

Lemma attach_attach e prev : attach (Some e) prev = Ret (Some (attach_tree prev e)).
Proof. by destruct prev. Qed.

(** [CondTail] reads [t] before [k], and its nodes turn the tree [e] into [G e]. *)
Definition tail_runs (t k : text) (G : EvalNode -> EvalNode) : Prop :=
  exists ns, (forall n, (length (t ++ k) < n)%nat -> accepts (CondTail n) t k ns)
    /\ forall e, walk_all ns (Some e) = Ret (Some (G e)).

Lemma tail_runs_nil k : ends k -> tail_runs [] k (fun e => e).
Proof.
  intros [H1 H2]. exists []. split; [|done]. intros [|n] Hn; [lia|].
  apply accepts_Opt_none, rejects_Seq_here, rejects_Or.
  repeat constructor; by apply rejects_Store, rejects_fails, rejects_Keyword.
Qed.

Lemma accepts_tail_nil k n : ends k -> (length k < n)%nat -> accepts (CondTail n) [] k [].
Proof.
  intros [H1 H2] Hn. destruct n as [|n]; [lia|].
  apply accepts_Opt_none, rejects_Seq_here, rejects_Or.
  repeat constructor; by apply rejects_Store, rejects_fails, rejects_Keyword.
Qed.

Definition op_word (op : LogicalOp) : text :=
  match op with LG_AND => chars "AND" | LG_OR => chars "OR" | LG_NOT => chars "NOT" end.

Lemma accepts_op_word op k : op <> LG_NOT -> solid k ->
  exists n, accepts (Or [Store AND_l AND; Store OR_l OR]) (tok sp (op_word op)) k [n]
    /\ forall e, walkAst n (Some e) = Ret (Some (Logical op [e])).
Proof.
  intros Ho Hk. destruct op; [| |done].
  - eexists. split; [apply accepts_Or_here, accepts_Store, accepts_Keyword; done|done].
  - eexists. split.
    { apply accepts_Or_later; [by apply rejects_Store, rejects_fails, rejects_Keyword|].
      apply accepts_Or_here, accepts_Store, accepts_Keyword; done. }
    done.
Qed.

Lemma tok_length t k : (length k < length (tok sp t ++ k))%nat.
Proof. unfold tok. rewrite !length_app. destruct Hsp as [Hne _]. destruct sp; [done|cbn; lia]. Qed.

(** An operator and its right operand. *)
Lemma tail_runs_op op t k F :
  op <> LG_NOT -> ends k -> solid (t ++ k) -> cond_runs t k (fun _ => True) F ->
  tail_runs (tok sp (op_word op) ++ t) k (fun e => F (Some (Logical op [e]))).
Proof.
  intros Ho Hk Hs (ns & Hns & HF). destruct (accepts_op_word op (t ++ k) Ho Hs) as (m & Hm & Em).
  exists (m :: ns). split; [|by intros e; cbn [walk_all]; rewrite Em; apply HF].
  intros n Hn. rewrite <- app_assoc in Hn. pose proof (tok_length (op_word op) (t ++ k)). destruct n as [|n]; [lia|].
  apply accepts_Opt; [unfold tok; by destruct op|]. apply accepts_Seq.
  apply (seq_accepts_cons _ _ _ _ _ [m] ns Hm).
  apply seq_accepts_last; [apply Hns; lia|]. apply seq_accepts_one, accepts_tail_nil; [done|].
  assert (length k <= length (t ++ k))%nat by (rewrite length_app; lia). lia.
Qed.

Lemma cond_runs_pred p t k G : pred_ok p -> solid (t ++ k) -> tail_runs t k G ->
  cond_runs (pred_text sp p ++ t) k (fun _ => True) (fun prev => G (attach_tree prev (pred_tree p))).
Proof.
  intros Hp Hs (ns & Hns & HG). destruct (accepts_Pred p (t ++ k) Hp Hs) as (m & Hm & Em).
  exists (m :: ns). split.
  - intros n Hn. assert (length (t ++ k) < length ((pred_text sp p ++ t) ++ k))%nat.
    { rewrite <- app_assoc. destruct p; cbn [pred_text]; rewrite <- !app_assoc;
        (eapply Nat.le_lt_trans; [|apply tok_length]); rewrite !length_app; lia. }
    destruct n as [|n]; [lia|]. apply accepts_Or_here, accepts_Seq.
    apply (seq_accepts_cons _ _ _ _ _ [m] ns Hm). apply seq_accepts_one, Hns. lia.
  - intros prev _. cbn [walk_all]. rewrite Em, attach_attach. apply HG.
Qed.

Lemma rejects_Pred_paren t : plain t -> rejects Pred ("("%char :: t).
Proof.
  intros Ht. assert (Hp : plain ("("%char :: t)) by (by constructor).
  apply rejects_Or.
  repeat constructor; apply rejects_Store, rejects_fails, rejects_Seq_here;
    first [by apply rejects_FieldName | by apply rejects_Param].
Qed.

Lemma cond_runs_paren t0 e0 t k G :
  solid (t0 ++ tok sp (chars ")") ++ t ++ k) -> solid (t ++ k) ->
  cond_runs t0 (tok sp (chars ")") ++ t ++ k) (fun prev => prev = None) (fun _ => e0) -> tail_runs t k G ->
  cond_runs ((tok sp (chars "(") ++ t0 ++ tok sp (chars ")")) ++ t) k (fun _ => True)
    (fun prev => G (attach_tree prev e0)).
Proof.
  intros Hs1 Hs2 (ns0 & Hns0 & H0) (ns & Hns & HG).
  eexists (_ :: ns). split.
  - intros n Hn. rewrite <- !app_assoc in *.
    pose proof (tok_length (chars "(") (t0 ++ tok sp (chars ")") ++ t ++ k)).
    destruct n as [|n]; [lia|].
    assert (Hpl : plain (sp ++ t0 ++ tok sp (chars ")") ++ t ++ k)) by (apply sp_app_plain, Hs1).
    intros cur. rewrite <- !app_assoc.
    change (tok sp (chars "(") ++ t0 ++ tok sp (chars ")") ++ t ++ k)
      with ("("%char :: sp ++ t0 ++ tok sp (chars ")") ++ t ++ k).
    cbn [Cond Or]. rewrite (rejects_Seq_here _ [CondTail n] _ (rejects_Pred_paren _ Hpl)). cbn [mbind outcome_bind].
    assert (Hnot : rejects (Store NOT_l NOT) ("("%char :: sp ++ t0 ++ tok sp (chars ")") ++ t ++ k))
      by (by apply rejects_Store, rejects_fails, rejects_Keyword).
    rewrite (rejects_Seq_here _ [Cond n; CondTail n] _ Hnot). cbn [mbind outcome_bind].
    assert (Hacc : accepts (Seq [LPAREN; Store Cond_l (Cond n); RPAREN; CondTail n])
      (tok sp (chars "(") ++ t0 ++ tok sp (chars ")") ++ t) k
      (Node Cond_l (t0 ++ tok sp (chars ")") ++ t ++ k) (tok sp (chars ")") ++ t ++ k) ns0 :: ns)).
    { apply accepts_Seq. apply (seq_accepts_cons _ _ _ _ _ [] _).
      { apply accepts_Tok; [apply accepts_Char|]. by rewrite <- !app_assoc. }
      eapply (seq_accepts_cons _ _ t0 _ _ [_] ns).
      { rewrite <- app_assoc. apply accepts_Store, Hns0. lia. }
      apply (seq_accepts_cons _ _ _ _ _ [] ns); [by apply accepts_Tok; [apply accepts_Char|]|].
      apply seq_accepts_one, Hns. rewrite !length_app in *. lia. }
    specialize (Hacc cur). rewrite <- !app_assoc in Hacc.
    change (tok sp (chars "(") ++ t0 ++ tok sp (chars ")") ++ t ++ k)
      with ("("%char :: sp ++ t0 ++ tok sp (chars ")") ++ t ++ k) in Hacc.
    rewrite Hacc. reflexivity.
  - intros prev _. cbn [walk_all]. rewrite walkAst_Cond, H0 by done. cbn [mbind outcome_bind].
    rewrite attach_attach. apply HG.
Qed.

(** What may follow NOT, so that NOT is not read as the name of a field. *)
Definition after_not (k : text) : Prop :=
  rejects NOT k /\ rejects BETWEEN k /\ rejects OP_LIKE k
  /\ head k <> Some "="%char /\ head k <> Some "<"%char /\ head k <> Some ">"%char.

Lemma rejects_Pred_not k : solid k -> after_not k -> rejects Pred (tok sp (chars "NOT") ++ k).
Proof.
  intros Hk (Hn & Hb & Hl & H1 & H2 & H3).
  assert (Hf : exists n, accepts (ST FieldName_l FieldName) (tok sp (chars "NOT")) k [n]).
  { eexists. apply accepts_Tok; [|done]. apply accepts_Store.
    apply (accepts_FieldName (mkField (chars "NOT") [])); [by repeat constructor|constructor|apply Hk]. }
  destruct Hf as [n Hf]. assert (Hop : rejects RelOp k) by (by apply rejects_RelOp).
  apply rejects_Or. repeat (apply Forall_cons_2; [apply rejects_Store|]); [..|apply Forall_nil_2].
  - apply fails_Seq. eapply seq_fails_later; [exact Hf|].
    apply (seq_fails_later _ _ [] _ []); [by apply accepts_Opt_none, rejects_Store, rejects_fails|].
    by apply seq_fails_here, rejects_fails.
  - apply fails_Seq. eapply seq_fails_later; [exact Hf|]. by apply seq_fails_here, rejects_fails.
  - apply rejects_fails, rejects_Seq_here, rejects_Param; [done|]. unfold tok. rewrite !plain_app.
    split_and!; [by repeat constructor|apply sp_plain|apply Hk].
  - apply fails_Seq. eapply seq_fails_later; [exact Hf|]. by apply seq_fails_here, rejects_fails.
Qed.

(** A text that starts with none of the characters of words and of operators. *)
Lemma after_not_char c t : IdentNextCharSet c = false \/ DigitCharSet c = true ->
  c <> "="%char -> c <> "<"%char -> c <> ">"%char -> after_not (c :: t).
Proof.
  intros Hc H1 H2 H3.
  assert (Hw : forall w, Forall (fun c => LowerCaseLetterCharSet c = true) w -> w <> [] -> starts_ci w (c :: t) = false).
  { intros [|x w] Hw Hne; [done|]. inversion Hw as [|? ? Hx _]; subst. cbn. rewrite bool_decide_false; [done|].
    intros <-. clear - Hc Hx. destruct Hc as [Hc|Hc]; revert Hc Hx; by_chars c. }
  split_and!; try (apply rejects_Keyword, Hw; [by repeat constructor|done]); cbn; congruence.
Qed.

Lemma after_not_field f k : field_ok f -> plain k -> after_not (tok sp (field_text f) ++ k).
Proof.
  intros Hf Hk. assert (Hp := proj2 (solid_field f k Hf Hk)). destruct (field_head f Hf) as (c & t & E & Hc).
  destruct Hf as (Hi & Hm & Hw).
  assert (Hkw : forall w, w ∈ [chars "not"; chars "between"; chars "like"] ->
    rejects (Keyword (CharSeqIgnoreCase w)) (tok sp (field_text f) ++ k)).
  { intros w Hin. unfold tok, field_text in *. rewrite <- !app_assoc in *. apply rejects_Keyword_ident.
    - repeat (apply elem_of_cons in Hin as [->|Hin]; [by repeat constructor|]). by apply not_elem_of_nil in Hin.
    - by apply ident_chars.
    - apply dotted_stops, sp_stops, space_not_ident.
    - done.
    - intros <-. by apply Hw. }
  split_and!; [apply Hkw; set_solver..| | |]; rewrite E; cbn; intros [= ->]; done.
Qed.

Lemma after_not_pred p k : pred_ok p -> plain k -> after_not (pred_text sp p ++ k) /\ solid (pred_text sp p ++ k).
Proof.
  intros Hp Hk.
  assert (Hpar : forall q k, param_ok q -> plain k -> after_not (tok sp (param_text q) ++ k)).
  { intros q k' Hq Hk'. destruct (param_head q Hq) as (c & t & -> & Hc).
    apply after_not_char; [clear - Hc; revert Hc; destruct c as [[] [] [] [] [] [] [] []]; vm_compute; tauto|..];
      intros ->; done. }
  destruct p as [f neg lo hi|f op q|q op f|f op g]; cbn [pred_ok pred_text] in *; rewrite <- !app_assoc.
  - destruct Hp as (Hf & Hlo & Hhi).
    assert (Hrest : plain ((if neg then tok sp (chars "NOT") else []) ++ tok sp (chars "BETWEEN")
      ++ tok sp (param_text lo) ++ tok sp (chars "AND") ++ tok sp (param_text hi) ++ k)).
    { unfold tok. rewrite !plain_app. pose proof sp_plain. pose proof (param_plain lo Hlo). pose proof (param_plain hi Hhi).
      split_and!; try done; try (by repeat constructor). destruct neg; [|constructor]. rewrite plain_app. by repeat constructor. }
    split; [by apply after_not_field|by apply solid_field].
  - destruct Hp as (Hf & Ho & Hq). assert (Hs := solid_op op _ Ho (proj2 (solid_param q k Hq Hk))).
    split; [apply after_not_field; [done|apply Hs]|apply solid_field; [done|apply Hs]].
  - destruct Hp as (Hf & Ho & Hq). assert (Hs := solid_op op _ Ho (proj2 (solid_field f k Hf Hk))).
    split; [apply Hpar; [done|apply Hs]|apply solid_param; [done|apply Hs]].
  - destruct Hp as (Hf & Ho & Hg). assert (Hs := solid_op op _ Ho (proj2 (solid_field g k Hg Hk))).
    split; [apply after_not_field; [done|apply Hs]|apply solid_field; [done|apply Hs]].
Qed.

Lemma texts_solid :
  (forall e, expr_ok e -> forall k, plain k -> solid (expr_text sp e ++ k))
  /\ (forall a, atom_ok a -> forall k, plain k -> solid (atom_text sp a ++ k) /\ after_not (atom_text sp a ++ k)).
Proof.
  apply expr_atom_ind; cbn [expr_ok atom_ok expr_text atom_text].
  - intros a IH Ha k Hk. by apply IH.
  - intros a IH Ha k Hk. rewrite <- app_assoc. apply solid_tok; [done|by repeat constructor|]. by apply IH.
  - intros e IHe a IHa [He Ha] k Hk. rewrite <- !app_assoc. apply IHe; [done|].
    apply solid_tok; [done|by repeat constructor|]. by apply IHa.
  - intros e IHe a IHa [He Ha] k Hk. rewrite <- !app_assoc. apply IHe; [done|].
    apply solid_tok; [done|by repeat constructor|]. by apply IHa.
  - intros p Hp k Hk. destruct (after_not_pred p k Hp Hk). done.
  - intros e IHe He k Hk. rewrite <- !app_assoc.
    assert (Hs : plain (expr_text sp e ++ tok sp (chars ")") ++ k))
      by (apply IHe; [done|]; apply solid_tok; [done|by repeat constructor|done]).
    split; [apply solid_tok; [done|by repeat constructor|done]|]. by apply after_not_char; [left|..].
Qed.

Lemma cond_runs_not a t k G : atom_ok a -> ends k -> solid (t ++ k) ->
  cond_runs (atom_text sp a ++ t) k (fun _ => True) (fun prev => G (attach_tree prev (atom_tree a))) ->
  cond_runs ((tok sp (chars "NOT") ++ atom_text sp a) ++ t) k (fun _ => True)
    (fun prev => G (addChild (attach_tree prev (Logical LG_NOT [])) (atom_tree a))).
Proof.
  intros Ha Hk Hs (ns & Hns & HG). destruct (proj2 texts_solid a Ha (t ++ k) (proj2 Hs)) as [Hsa Han].
  set (n0 := Node NOT_l (tok sp (chars "NOT") ++ (atom_text sp a ++ t) ++ k) ((atom_text sp a ++ t) ++ k) []).
  exists (n0 :: ns). split.
  - intros n Hn. rewrite <- !app_assoc in *.
    pose proof (tok_length (chars "NOT") (atom_text sp a ++ t ++ k)). destruct n as [|n]; [lia|].
    assert (Hacc : accepts (Seq [Store NOT_l NOT; Cond n; CondTail n])
      (tok sp (chars "NOT") ++ atom_text sp a ++ t) k (n0 :: ns)).
    { apply accepts_Seq. apply (seq_accepts_cons _ _ _ _ _ [n0] ns).
      { apply accepts_Store, accepts_Keyword; [done|]. by rewrite <- app_assoc. }
      apply seq_accepts_last; [apply Hns; lia|].
      apply seq_accepts_one, accepts_tail_nil; [done|]. rewrite !length_app in *. lia. }
    apply accepts_Or_later; [|by apply accepts_Or_here].
    apply rejects_Seq_here. rewrite <- !app_assoc. by apply rejects_Pred_not.
  - intros prev _. cbn [walk_all n0]. unfold n0. cbn [walkAst]. unfold new_Logical. cbn [bool_decide].
    rewrite bool_decide_true by done. cbn [mbind outcome_bind]. rewrite attach_attach. cbn [mbind outcome_bind].
    rewrite HG by done. done.
Qed.

Lemma exprs_run :
  (forall e, expr_ok e -> forall t k G, ends k -> solid (t ++ k) -> tail_runs t k G ->
     cond_runs (expr_text sp e ++ t) k (fun prev => prev = None) (fun _ => G (expr_tree e)))
  /\ (forall a, atom_ok a -> forall t k G, ends k -> solid (t ++ k) -> tail_runs t k G ->
     cond_runs (atom_text sp a ++ t) k (fun _ => True) (fun prev => G (attach_tree prev (atom_tree a)))).
Proof.
  apply expr_atom_ind; cbn [expr_ok atom_ok expr_text atom_text expr_tree atom_tree].
  - intros a IH Ha t k G Hk Hs Ht. destruct (IH Ha t k G Hk Hs Ht) as (ns & Hns & HG).
    exists ns. split; [done|]. intros prev ->. by apply HG.
  - intros a IH Ha t k G Hk Hs Ht. destruct (cond_runs_not a t k G Ha Hk Hs (IH Ha t k G Hk Hs Ht)) as (ns & Hns & HG).
    exists ns. split; [done|]. intros prev ->. by apply HG.
  - intros e IHe a IHa [He Ha] t k G Hk Hs Ht. rewrite <- !app_assoc.
    pose proof (IHa Ha t k G Hk Hs Ht) as Hc. destruct (proj2 texts_solid a Ha _ (proj2 Hs)) as [Hsa _].
    rewrite app_assoc in Hsa. apply (tail_runs_op LG_AND) in Hc; [|done..].
    apply (IHe He _ k (fun x => G (Logical LG_AND [x; atom_tree a])) Hk); [|exact Hc]. rewrite <- !app_assoc in *.
    apply solid_tok; [done|by repeat constructor|apply Hsa].
  - intros e IHe a IHa [He Ha] t k G Hk Hs Ht. rewrite <- !app_assoc.
    pose proof (IHa Ha t k G Hk Hs Ht) as Hc. destruct (proj2 texts_solid a Ha _ (proj2 Hs)) as [Hsa _].
    rewrite app_assoc in Hsa. apply (tail_runs_op LG_OR) in Hc; [|done..].
    apply (IHe He _ k (fun x => G (Logical LG_OR [x; atom_tree a])) Hk); [|exact Hc]. rewrite <- !app_assoc in *.
    apply solid_tok; [done|by repeat constructor|apply Hsa].
  - intros p Hp t k G Hk Hs Ht. by apply cond_runs_pred.
  - intros e IHe He t k G Hk Hs Ht.
    assert (Hsp' : solid (tok sp (chars ")") ++ t ++ k)) by (apply solid_tok; [done|by repeat constructor|apply Hs]).
    apply cond_runs_paren; [apply (proj1 texts_solid e He), Hsp'|done| |done].
    destruct (IHe He [] (tok sp (chars ")") ++ t ++ k) (fun e => e)) as (ns & Hns & HG); [done|done|by apply tail_runs_nil|].
    rewrite app_nil_r in Hns. by exists ns.
Qed.

End Operands.

End Tokens.

End FilterSyntax.
