(* ===== verification/FilterTyping.v ===== *)
(** * Conversions and a type check for filters

    Which comparisons the conversions of [Value] let through: a static check of an
    evaluation tree against the types of the fields and the values of literals and
    parameters, and that a tree that passes it evaluates to a boolean. *)

From Stdlib Require Import Ascii.
From S2P Require Import Prelude MessageBlock SequenceNumber Serializer Yard FilterExpressionGrammar FilterValue FilterEvaluator.

Module FilterTyping.
Import Yard FilterExpressionGrammar FilterValue FilterEvaluator.

(** [operator>>] of a floating type reads the whole text of an integer. *)
Class FloatLaws `{FloatOps} : Prop := {
  d_reads_int : forall z, fits z -> (d_extract (insert_int z)).2 = [];
  ld_reads_int : forall z, fits z -> (ld_extract (insert_int z)).2 = [] }.

Section Typing.
Context `{FloatOps}.
Context (wild_match : text -> text -> bool).

(** A member holds a number of its type. *)
Definition member_ok (m : member) : Prop :=
  match m with
  | i_ z => is_s 32 z | u_ z => is_u 32 z | l_ z => is_s 64 z | m_ z => is_u 64 z
  | _ => True
  end.

(** ** Conversions *)

Lemma convert_type v t ok v' : convert v t = Ret (ok, v') -> ok = true -> type_ v' = t.
Proof.
  unfold convert. intros Hc ->. case_bool_decide as Ht; [by inversion Hc|].
  apply outcome_bind_Ret in Hc as ((newval & eof) & He & Hc). destruct eof; [|done].
  inversion Hc; subst. unfold type_. cbn [union_]. clear Hc. unfold StreamExtract in He.
  destruct (span isspace _) as [sps txt]. case_bool_decide; [destruct t; inversion He; subst; done|].
  destruct t; cbn -[d_extract ld_extract] in He; try (by inversion He).
  - destruct (d_extract txt). by inversion He.
  - destruct (ld_extract txt). by inversion He.
Qed.

(** A value that prefers conversion is converted to the type of one that does not. *)
Lemma conversion_literal_r v m : conversion_preferred_ v = false -> type_ v <> member_type m ->
  conversion v (literal m)
  = ('(ok, x) ← convert (literal m) (type_ v); if (ok : bool) then Ret (v, x) else Throw).
Proof.
  intros Hv Ht. unfold conversion. rewrite bool_decide_false by done. cbn [union_ literal type_].
  destruct (type_index (type_ v) <? type_index (type_ (literal m))).
  - rewrite Hv. cbn [conversion_preferred_ literal].
    destruct (convert (literal m) (type_ v)) as [[[] x]| | |]; done.
  - cbn [conversion_preferred_ literal]. destruct (convert (literal m) (type_ v)) as [[[] x]| | |]; done.
Qed.

Lemma conversion_literal_l v m : conversion_preferred_ v = false -> type_ v <> member_type m ->
  conversion (literal m) v
  = ('(ok, x) ← convert (literal m) (type_ v); if (ok : bool) then Ret (x, v) else Throw).
Proof.
  intros Hv Ht. unfold conversion. rewrite bool_decide_false by (unfold type_ in *; cbn [union_ literal]; congruence).
  destruct (type_index (type_ (literal m)) <? type_index (type_ v)).
  - cbn [conversion_preferred_ literal]. destruct (convert (literal m) (type_ v)) as [[[] x]| | |]; done.
  - rewrite Hv. cbn [conversion_preferred_ literal].
    destruct (convert (literal m) (type_ v)) as [[[] x]| | |]; done.
Qed.

Lemma conversion_same x y : type_ x = type_ y -> conversion x y = Ret (x, y).
Proof. intros E. unfold conversion. by rewrite bool_decide_true. Qed.

Lemma equals_total m n : member_type m = member_type n -> exists b, equals m n = Ret b.
Proof. destruct m, n; cbn; try done; intros _; by eexists. Qed.

Lemma less_total m n : member_type m = member_type n -> exists b, less m n = Ret b.
Proof. destruct m, n; cbn; try done; intros _; by eexists. Qed.

(** The two values convert to one type. *)
Definition meets (x y : Value) : Prop :=
  exists x' y', conversion x y = Ret (x', y') /\ type_ x' = type_ y'.

Lemma meets_eq x y : meets x y -> exists b, value_eq x y = Ret b.
Proof. intros (x' & y' & Hc & Ht). unfold value_eq. rewrite Hc. by apply equals_total. Qed.

Lemma meets_lt x y : meets x y -> exists b, value_lt x y = Ret b.
Proof. intros (x' & y' & Hc & Ht). unfold value_lt. rewrite Hc. by apply less_total. Qed.

(** Every comparison but [like] is defined when the values meet, both ways. *)
Lemma meets_compare op x y : meets x y -> meets y x -> op <> OPER_LIKE -> exists b, compare wild_match op x y = Ret b.
Proof.
  intros Hxy Hyx Hop. destruct (meets_eq x y Hxy) as [b1 E1].
  destruct (meets_lt x y Hxy) as [b2 E2]. destruct (meets_lt y x Hyx) as [b3 E3].
  destruct op; cbn [compare]; rewrite ?E1, ?E2, ?E3; try done; by eexists.
Qed.

Lemma meets_between f x y : meets f x -> meets y f -> exists b, between f x y = Ret b.
Proof.
  intros H1 H2. unfold between. destruct (meets_lt f x H1) as [[] ->]; cbn [mbind outcome_bind]; [by eexists|].
  destruct (meets_lt y f H2) as [b ->]. by eexists.
Qed.

(** *** Two fields *)

Definition integral (t : Type_) : bool := type_index t <=? type_index VAL_UI64.
Definition numeric (t : Type_) : bool := type_index t <=? type_index VAL_LARGEST_NUMERIC.

(** The smaller type is converted to the larger one, a string to a number where
    that works and the number to a string otherwise; a string is not compared
    with a type of which an empty string leaves the value unset. *)
Definition fields_meet (s l : Type_) : bool :=
  bool_decide (s = l)
  || (integral s && (type_index l <=? type_index VAL_LARGEST_NUMERIC) && (type_index s <? type_index l))
  || (bool_decide (l = VAL_STRING) && bool_decide (s ∈ [VAL_BOOL; VAL_INT; VAL_UINT; VAL_CHAR])).

Definition fields_comparable (t1 t2 : Type_) : bool := fields_meet t1 t2 || fields_meet t2 t1.

Lemma insert_int_text z : fits z -> span isspace (insert_int z) = ([], insert_int z) /\ insert_int z <> [].
Proof.
  intros Hz. destruct (insert_int_start z Hz) as (c & s & -> & Hc). split; [|done]. apply span_none.
  destruct Hc as [Hc| ->]; [by apply digit_not_space|done].
Qed.

Lemma extract_int_rest sg w z : fits z -> (extract_int sg w (insert_int z)).2 = [].
Proof.
  intros Hz. destruct (read_sign_digits z [] Hz Logic.I) as (ds & Hs & Hd & _). rewrite !app_nil_r in *.
  unfold extract_int. by rewrite Hs, Hd.
Qed.

(** The text of a value of an integral type is that of an integer. *)
Lemma integral_text m : member_ok m -> integral (member_type m) = true -> exists z, fits z /\ StreamInsert m = insert_int z.
Proof.
  unfold fits. destruct m as [b|z|z|z|z|f|f|c|s]; cbn [member_type StreamInsert member_ok]; intros Hm Hi; try done.
  - by exists (if b then 1 else 0); destruct b.
  - exists z. unfold is_s in Hm. cbn in Hm. split; [lia|done].
  - exists z. unfold is_u in Hm. cbn in Hm. split; [lia|done].
  - exists z. unfold is_s in Hm. cbn in Hm. split; [lia|done].
  - exists z. unfold is_u in Hm. cbn in Hm. split; [lia|done].
Qed.

Lemma convert_integral `{!FloatLaws} v t : member_ok (union_ v) -> integral (type_ v) = true ->
  type_index t <= type_index VAL_LARGEST_NUMERIC -> exists x, convert v t = Ret (true, x).
Proof.
  intros Hm Hi Ht. destruct (integral_text (union_ v) Hm Hi) as (z & Hz & Et). unfold convert. rewrite Et.
  rewrite bool_decide_false by (by intros ->). unfold StreamExtract.
  destruct (insert_int_text z Hz) as [-> Hne]. rewrite (bool_decide_false (insert_int z = [])) by done.
  destruct t; cbn [type_index VAL_LARGEST_NUMERIC] in Ht; try lia;
    rewrite ?extract_int_rest by done; try (rewrite bool_decide_true by done; by eexists).
  - pose proof (d_reads_int z Hz) as Hd. destruct (d_extract (insert_int z)). cbn in Hd. subst. by eexists.
  - pose proof (ld_reads_int z Hz) as Hd. destruct (ld_extract (insert_int z)). cbn in Hd. subst. by eexists.
Qed.

Lemma convert_string v : exists x, convert v VAL_STRING = Ret (true, x).
Proof. unfold convert. rewrite bool_decide_true by done. by eexists. Qed.

(** Extraction into the small types stores a value or fails, on any text. *)
Lemma convert_small v t : t ∈ [VAL_BOOL; VAL_INT; VAL_UINT; VAL_CHAR] -> exists ok x, convert v t = Ret (ok, x).
Proof.
  intros Ht. unfold convert, StreamExtract. destruct (span isspace _) as [sps txt].
  repeat (apply elem_of_cons in Ht as [->|Ht]; [rewrite bool_decide_false by done; case_bool_decide; cbn;
    [by eexists _, _|]; try case_bool_decide; by eexists _, _|]).
  by apply not_elem_of_nil in Ht.
Qed.

Lemma conversion_sym_smaller x y : conversion_preferred_ x = false -> conversion_preferred_ y = false ->
  type_index (type_ x) < type_index (type_ y) ->
  conversion y x = ('(a, b) ← conversion x y; Ret (b, a)).
Proof.
  intros Hx Hy Hlt. unfold conversion.
  assert (Hne : type_ x <> type_ y) by (intros E; rewrite E in Hlt; lia).
  rewrite (bool_decide_false (type_ x = type_ y)), (bool_decide_false (type_ y = type_ x)) by congruence.
  destruct (Z.ltb_spec (type_index (type_ x)) (type_index (type_ y))); [|lia].
  destruct (Z.ltb_spec (type_index (type_ y)) (type_index (type_ x))); [lia|].
  cbv beta iota zeta.
  match goal with |- (?m ≫= _) = _ => destruct m as [[[[] a] b]| | |] end; done.
Qed.

Lemma fields_meet_ordered `{!FloatLaws} x y :
  member_ok (union_ x) -> conversion_preferred_ x = false -> conversion_preferred_ y = false ->
  fields_meet (type_ x) (type_ y) = true -> meets x y /\ meets y x.
Proof.
  intros Hm Hx Hy Hf. destruct (decide (type_ x = type_ y)) as [E|Hne].
  { split; eexists _, _; (split; [by apply conversion_same|done]). }
  assert (Hlt : type_index (type_ x) < type_index (type_ y)).
  { unfold fields_meet in Hf. rewrite bool_decide_false in Hf by done. cbn [orb] in Hf.
    apply orb_prop in Hf as [Hf|Hf]; apply andb_prop in Hf as [Hf1 Hf2]; [by apply Z.ltb_lt|].
    apply bool_decide_eq_true in Hf1. rewrite Hf1 in *. destruct (type_ x); cbn; try lia; done. }
  assert (Hmeet : meets x y).
  { unfold meets, conversion. rewrite bool_decide_false by done.
    destruct (Z.ltb_spec (type_index (type_ x)) (type_index (type_ y))) as [_|]; [|lia]. rewrite Hx, Hy.
    unfold fields_meet in Hf. rewrite bool_decide_false in Hf by done. cbn [orb] in Hf.
    apply orb_prop in Hf as [Hf|Hf].
    - apply andb_prop in Hf as [[Hi Hl]%andb_prop _]. apply Z.leb_le in Hl.
      rewrite (bool_decide_false (type_ x = VAL_CHAR)) by (intros E; by rewrite E in Hi). cbn [andb].
      destruct (Z.leb_spec (type_index (type_ y)) (type_index VAL_LARGEST_NUMERIC)) as [_|]; [|lia].
      destruct (convert_integral x (type_ y) Hm Hi Hl) as [x' Hc]. rewrite Hc.
      eexists _, _. split; [reflexivity|]. exact (convert_type _ _ _ _ Hc eq_refl).
    - apply andb_prop in Hf as [Hs Hf]. apply bool_decide_eq_true in Hs, Hf. rewrite Hs.
      destruct (convert_string x) as [x' Hc]. rewrite Hc. pose proof (convert_type _ _ _ _ Hc eq_refl) as Ht.
      case_bool_decide as Hch; cbn [andb].
      + eexists _, _. split; [rewrite bool_decide_true by done; reflexivity|]. congruence.
      + cbn [type_index VAL_LARGEST_NUMERIC Z.leb Z.compare Pos.compare Pos.compare_cont].
        rewrite bool_decide_true by done.
        destruct (convert_small y (type_ x) Hf) as (ok & y' & Hcy). rewrite Hcy. cbn [mbind outcome_bind].
        destruct ok; eexists _, _; (split; [reflexivity|]); [|cbn; congruence].
        cbn. symmetry. exact (convert_type _ _ _ _ Hcy eq_refl). }
  split; [done|]. destruct Hmeet as (x' & y' & Hc & Ht).
  exists y', x'. rewrite conversion_sym_smaller, Hc by done. split; done.
Qed.

(** *** Literals and parameters against a field *)

(** The text of an integer: a sign or none, digits, and nothing else. *)
Definition unsigned_numeral (s : text) : bool := bool_decide (s <> []) && forallb DigitCharSet s.
Definition numeral (s : text) : bool :=
  match s with "-"%char :: s' | "+"%char :: s' => unsigned_numeral s' | _ => unsigned_numeral s end.

(** What can be compared with a field of type [t]: anything with a string, a
    value of the same type, an integer with a number, the text of an integer with
    an integer or a boolean. *)
Definition converts (m : member) (t : Type_) : bool :=
  bool_decide (member_type m = t) || bool_decide (t = VAL_STRING)
  || match m with
     | i_ z => numeric t && (- 2 ^ 31 <=? z) && (z <? 2 ^ 31)
     | s_ s => integral t && numeral s
     | _ => false
     end.

Lemma unsigned_numeral_span s : unsigned_numeral s = true -> span DigitCharSet s = (s, []).
Proof.
  unfold unsigned_numeral. intros [_ Hf]%andb_prop. induction s as [|c s IH]; [done|]. cbn [forallb] in Hf. apply andb_prop in Hf as [Hc Hf].
  cbn [span]. by rewrite Hc, IH.
Qed.

Lemma numeral_text s : numeral s = true -> span isspace s = ([], s) /\ s <> [] /\ forall sg w, (extract_int sg w s).2 = [].
Proof.
  intros Hn. assert (exists c s', s = c :: s' /\ isspace c = false /\ unsigned_numeral (take_sign s).2 = true) as (c & s' & -> & Hc & Hu).
  { assert (unsigned_numeral s = true -> exists c s', s = c :: s' /\ isspace c = false) as Hd.
    { unfold unsigned_numeral. intros [Hne Hf]%andb_prop. apply bool_decide_eq_true in Hne. destruct s as [|c s]; [done|]. cbn in Hf.
      apply andb_prop in Hf as [Hc _]. exists c, s. split; [done|by apply digit_not_space]. }
    unfold numeral in Hn. destruct s as [|c s]; [by apply Hd in Hn as (? & ? & ? & _)|].
    exists c, s. split; [done|].
    destruct (decide (c = "-"%char)) as [-> |Hm]; [done|]. destruct (decide (c = "+"%char)) as [-> |Hp]; [done|].
    assert (take_sign (c :: s) = (false, c :: s)) as -> by (cbn; repeat case_match; simplify_eq; done).
    assert (unsigned_numeral (c :: s) = true) as Hu by (revert Hn; repeat case_match; simplify_eq; done).
    split; [|done]. by destruct (Hd Hu) as (? & ? & [= <- _] & ?). }
  split; [by apply span_none|]. split; [done|]. intros sg w. unfold extract_int. destruct (take_sign (c :: s')) as [neg r]. cbn [snd] in Hu.
  by rewrite (unsigned_numeral_span r Hu).
Qed.

Lemma converts_convert `{!FloatLaws} m t : converts m t = true -> member_type m <> t -> exists x, convert (literal m) t = Ret (true, x).
Proof.
  intros Hc Hne. unfold converts in Hc. rewrite (bool_decide_false (member_type m = t)) in Hc by done. cbn [orb] in Hc.
  destruct (decide (t = VAL_STRING)) as [->|Ht]; [apply convert_string|]. rewrite bool_decide_false in Hc by done. cbn [orb] in Hc.
  destruct m as [| z | | | | | | |s]; try done.
  - apply andb_prop in Hc as [[Hn Hl]%andb_prop Hh]. apply convert_integral; [cbn; unfold is_s; lia|done|]. unfold numeric in Hn. lia.
  - apply andb_prop in Hc as [Hi Hn]. destruct (numeral_text s Hn) as (Hs & Hse & He). unfold convert. cbn [literal union_ StreamInsert].
    rewrite bool_decide_false by done. unfold StreamExtract. rewrite Hs, (bool_decide_false (s = [])) by done.
    destruct t; try done; rewrite He, bool_decide_true by done; by eexists.
Qed.

Lemma converts_meets `{!FloatLaws} v m : conversion_preferred_ v = false -> converts m (type_ v) = true ->
  meets v (literal m) /\ meets (literal m) v.
Proof.
  intros Hv Hc. destruct (decide (type_ v = member_type m)) as [E|Hne].
  - split; eexists _, _; (split; [by apply conversion_same|done]).
  - destruct (converts_convert m (type_ v) Hc) as [x Ec]; [congruence|]. pose proof (convert_type _ _ _ _ Ec eq_refl) as Ht.
    split; eexists _, _; rewrite ?conversion_literal_l, ?conversion_literal_r, ?Ec by done; split; done.
Qed.

(** ** The type check *)

(** What is known of an operand before the sample: the type of a field, the value
    of a literal or of a parameter. *)
Inductive static := SField (t : Type_) | SConst (m : member).

Section Check.
Context (Γ : text -> option Type_) (params : list text).

Definition static_of (o : Operand) : option static :=
  match o with
  | FieldLookup f => SField <$> Γ f
  | LiteralInt z => Some (SConst (i_ z))
  | LiteralChar c => Some (SConst (c_ c))
  | LiteralFloat d => Some (SConst (f_ d))
  | LiteralString s => Some (SConst (s_ s))
  | ParameterRef n => (fun s => SConst (s_ s)) <$> params !! Z.to_nat n
  | NoOperand => None
  end.

Definition comparable (a b : option static) : bool :=
  match a, b with
  | Some (SField t1), Some (SField t2) => fields_comparable t1 t2
  | Some (SField t), Some (SConst m) | Some (SConst m), Some (SField t) => converts m t
  | _, _ => false
  end.

Definition static_string (a : option static) : bool :=
  match a with
  | Some (SField t) => bool_decide (t = VAL_STRING)
  | Some (SConst m) => bool_decide (member_type m = VAL_STRING)
  | None => false
  end.

Fixpoint well_typed (n : EvalNode) : bool :=
  match n with
  | Comparison l op r =>
      match op with
      | OPER_LIKE => static_string (static_of l) && static_string (static_of r)
      | _ => comparable (static_of l) (static_of r)
      end
  | Between _ f l r => comparable (static_of f) (static_of l) && comparable (static_of f) (static_of r)
  | Logical LG_NOT [c] => well_typed c
  | Logical (LG_AND | LG_OR) [a; b] => well_typed a && well_typed b
  | Logical _ _ => false
  end.

(** A sample whose fields have the types of [Γ]. *)
Definition data_ok {S} (data : DataForEval S) : Prop :=
  params_ data = params
  /\ forall f t st, Γ f = Some t -> exists m st', lookup data f st = Ret (mkValue m false, st')
       /\ member_type m = t /\ member_ok m.

(** A value that the static knowledge describes. *)
Definition described (a : static) (v : Value) : Prop :=
  match a with
  | SField t => exists m, v = mkValue m false /\ member_type m = t /\ member_ok m
  | SConst m => v = literal m
  end.

Lemma eval_operand_static {S} (data : DataForEval S) o a st : data_ok data -> static_of o = Some a ->
  exists v st', eval_operand data o st = Ret (v, st') /\ described a v.
Proof.
  intros [Hp Hd] Ho. destruct o as [f|z|c|d|s|n|]; cbn [static_of eval_operand] in *; try done;
    try (injection Ho as <-; by eexists _, _).
  - destruct (Γ f) as [t|] eqn:Ef; [|done]. injection Ho as <-. destruct (Hd f t st Ef) as (m & st' & Hl & Ht & Hm).
    rewrite Hl. eexists _, _. split; [done|]. by exists m.
  - rewrite Hp. destruct (params !! Z.to_nat n) as [s|]; [|done]. injection Ho as <-. by eexists _, _.
Qed.

Lemma comparable_meets `{!FloatLaws} a b x y :
  comparable (Some a) (Some b) = true -> described a x -> described b y -> meets x y /\ meets y x.
Proof.
  intros Hc Ha Hb. destruct a as [t1|m1], b as [t2|m2]; cbn in *; [| | |done].
  - destruct Ha as (mx & -> & <- & Hmx), Hb as (my & -> & <- & Hmy).
    unfold fields_comparable in Hc. apply orb_prop in Hc as [Hc|Hc].
    + by apply fields_meet_ordered.
    + apply and_comm. by apply fields_meet_ordered.
  - destruct Ha as (mx & -> & <- & Hmx). subst y. by apply converts_meets.
  - destruct Hb as (my & -> & <- & Hmy). subst x. apply and_comm. by apply converts_meets.
Qed.

Lemma comparable_some a b : comparable a b = true -> exists a' b', a = Some a' /\ b = Some b'.
Proof. destruct a as [a|], b as [b|]; cbn; try done; [by eexists _, _|]. by destruct a. Qed.

Lemma string_like a b x y : static_string (Some a) = true -> static_string (Some b) = true ->
  described a x -> described b y -> exists r, like wild_match x y = Ret r.
Proof.
  intros Ha Hb Hx Hy.
  assert (Hs : forall a v, static_string (Some a) = true -> described a v -> exists s, union_ v = s_ s).
  { clear. intros [t|m] v Ha Hv; cbn in *; apply bool_decide_eq_true in Ha.
    - destruct Hv as (m & -> & Hm & _). cbn. subst t. destruct m; try done. by eexists.
    - subst v. cbn. destruct m; try done. by eexists. }
  destruct (Hs a x Ha Hx) as [s1 E1], (Hs b y Hb Hy) as [s2 E2].
  unfold like. rewrite E1, E2. by eexists.
Qed.

Lemma static_string_some a : static_string a = true -> exists a', a = Some a'.
Proof. destruct a; [by eexists|done]. Qed.

Lemma well_typed_comparison `{!FloatLaws} {S} (data : DataForEval S) l op r st : data_ok data ->
  well_typed (Comparison l op r) = true ->
  exists b st', eval_node wild_match data (Comparison l op r) st = Ret (of_bool b, st').
Proof.
  intros Hd Hw. cbn [eval_node].
  assert (exists a b, static_of l = Some a /\ static_of r = Some b) as (a & b & Ea & Eb).
  { cbn in Hw. destruct op; try (by apply comparable_some). apply andb_prop in Hw as [H1 H2].
    destruct (static_string_some _ H1), (static_string_some _ H2). by eexists _, _. }
  destruct (eval_operand_static data l a st Hd Ea) as (x & st1 & -> & Hx). cbn [mbind outcome_bind].
  destruct (eval_operand_static data r b st1 Hd Eb) as (y & st2 & -> & Hy). cbn [mbind outcome_bind].
  assert (exists b, compare wild_match op x y = Ret b) as [res ->]; [|by eexists _, _].
  cbn in Hw. rewrite Ea, Eb in Hw.
  destruct (decide (op = OPER_LIKE)) as [->|Hop].
  - apply andb_prop in Hw as [H1 H2]. exact (string_like a b x y H1 H2 Hx Hy).
  - assert (Hc : comparable (Some a) (Some b) = true) by (by destruct op).
    destruct (comparable_meets a b x y Hc Hx Hy). by apply meets_compare.
Qed.

Lemma well_typed_between `{!FloatLaws} {S} (data : DataForEval S) inv f l r st : data_ok data ->
  well_typed (Between inv f l r) = true ->
  exists b st', eval_node wild_match data (Between inv f l r) st = Ret (of_bool b, st').
Proof.
  intros Hd Hw. cbn [eval_node well_typed] in *. apply andb_prop in Hw as [H1 H2].
  destruct (comparable_some _ _ H1) as (a & b & Ea & Eb), (comparable_some _ _ H2) as (a' & c & Ea' & Ec).
  rewrite Ea in Ea'. simplify_eq. rewrite Ea, Eb, Ec in *.
  destruct (eval_operand_static data f a' st Hd Ea) as (x & st1 & -> & Hx). cbn [mbind outcome_bind].
  destruct (eval_operand_static data l b st1 Hd Eb) as (y & st2 & -> & Hy). cbn [mbind outcome_bind].
  destruct (eval_operand_static data r c st2 Hd Ec) as (z & st3 & -> & Hz). cbn [mbind outcome_bind].
  destruct (comparable_meets a' b x y H1 Hx Hy) as [M1 _], (comparable_meets a' c x z H2 Hx Hz) as [_ M2].
  destruct (meets_between x y z M1 M2) as [btwn ->]. by eexists _, _.
Qed.

(** A well-typed tree evaluates to a boolean. *)
Lemma well_typed_eval `{!FloatLaws} {S} (data : DataForEval S) (Hd : data_ok data) : forall n st,
  well_typed n = true -> exists b st', eval_node wild_match data n st = Ret (of_bool b, st').
Proof.
  fix IH 1. intros n st Hw. destruct n as [l op r|inv f l r|op cs].
  - by apply well_typed_comparison.
  - by apply well_typed_between.
  - destruct op, cs as [|a [|b [|]]]; try done.
    + cbn [well_typed] in Hw. apply andb_prop in Hw as [Ha Hb]. cbn [eval_node].
      destruct (IH a st Ha) as (x & st1 & ->). cbn [mbind outcome_bind as_bool union_ of_bool].
      destruct x; [|by eexists _, _]. apply (IH b st1 Hb).
    + cbn [well_typed] in Hw. apply andb_prop in Hw as [Ha Hb]. cbn [eval_node].
      destruct (IH a st Ha) as (x & st1 & ->). cbn [mbind outcome_bind as_bool union_ of_bool].
      destruct x; [by eexists _, _|]. apply (IH b st1 Hb).
    + cbn [well_typed] in Hw. cbn [eval_node]. destruct (IH a st Hw) as (x & st1 & ->).
      cbn [mbind outcome_bind as_bool union_ of_bool]. by eexists _, _.
Qed.

End Check.

(** ** Integers *)

(** The member of an integer type that holds [z], and the range of the type. *)
Definition int_member (t : Type_) (z : Z) : member :=
  match t with VAL_UINT => u_ z | VAL_I64 => l_ z | VAL_UI64 => m_ z | _ => i_ z end.
Definition int_signed (t : Type_) : bool := match t with VAL_UINT | VAL_UI64 => false | _ => true end.
Definition int_width (t : Type_) : Z := match t with VAL_I64 | VAL_UI64 => 64 | _ => 32 end.
Definition int_in (t : Type_) (z : Z) : Prop := int_range (int_signed t) (int_width t) z.
Definition int_types : list Type_ := [VAL_INT; VAL_UINT; VAL_I64; VAL_UI64].

Definition int_op (op : Operator) (a b : Z) : bool :=
  match op with
  | OPER_EQ => a =? b | OPER_LT => a <? b | OPER_GT => b <? a | OPER_LTEQ => a <=? b
  | OPER_GTEQ => b <=? a | OPER_NEQ => negb (a =? b) | _ => false
  end.

(** A literal, or a parameter, that stands for the integer [z]. *)
Definition denotes (m : member) (z : Z) : Prop := m = i_ z /\ is_s 32 z \/ m = s_ (insert_int z).

Lemma int_in_fits t z : t ∈ int_types -> int_in t z -> fits z.
Proof.
  unfold int_types, int_in, int_range, fits. intros Ht Hz.
  repeat (apply elem_of_cons in Ht as [->|Ht]; [unfold is_s, is_u in Hz; cbn in Hz; lia|]).
  by apply not_elem_of_nil in Ht.
Qed.

Lemma convert_denoted m z t : denotes m z -> t ∈ int_types -> int_in t z ->
  convert (literal m) t = Ret (true, mkValue (int_member t z) false).
Proof.
  intros Hm Ht Hz. pose proof (int_in_fits t z Ht Hz) as Hfit.
  assert (Et : StreamInsert m = insert_int z) by (by destruct Hm as [[-> _]| ->]).
  unfold convert. cbn [union_ literal]. rewrite Et. unfold StreamExtract.
  destruct (insert_int_text z Hfit) as [-> Hne]. rewrite (bool_decide_false (insert_int z = [])) by done.
  assert (Hx : extract_int (int_signed t) (int_width t) (insert_int z) = (z, []))
    by (apply extract_insert; [destruct t; cbn; lia|exact Hz]).
  unfold int_types in Ht.
  repeat (apply elem_of_cons in Ht as [->|Ht]; [rewrite bool_decide_false by done; cbn [int_signed int_width] in Hx;
    rewrite Hx; done|]).
  by apply not_elem_of_nil in Ht.
Qed.

Lemma member_type_int t z : t ∈ int_types -> member_type (int_member t z) = t.
Proof.
  unfold int_types. intros Ht. repeat (apply elem_of_cons in Ht as [->|Ht]; [done|]). by apply not_elem_of_nil in Ht.
Qed.

Lemma conversion_denoted m z t a : denotes m z -> t ∈ int_types -> int_in t z ->
  exists p, conversion (mkValue (int_member t a) false) (literal m)
            = Ret (mkValue (int_member t a) false, mkValue (int_member t z) p)
    /\ conversion (literal m) (mkValue (int_member t a) false)
       = Ret (mkValue (int_member t z) p, mkValue (int_member t a) false).
Proof.
  intros Hm Ht Hz. pose proof (member_type_int t a Ht) as Ea.
  destruct (decide (member_type m = t)) as [E|Hne].
  - exists true. assert (Em : m = int_member t z).
    { destruct Hm as [[-> _]| ->]; cbn in E; subst t; [done|].
      unfold int_types in Ht. repeat (apply elem_of_cons in Ht as [Ht|Ht]; [done|]). by apply not_elem_of_nil in Ht. }
    rewrite Em. unfold literal. split; apply conversion_same; unfold type_; cbn [union_];
      by rewrite !member_type_int.
  - exists false. assert (Et : type_ (mkValue (int_member t a) false) = t) by (by unfold type_).
    rewrite conversion_literal_l, conversion_literal_r, Et by (rewrite ?Et; done).
    by rewrite (convert_denoted m z t).
Qed.

Lemma equals_int t a z : t ∈ int_types -> equals (int_member t a) (int_member t z) = Ret (a =? z).
Proof.
  unfold int_types. intros Ht. repeat (apply elem_of_cons in Ht as [->|Ht]; [done|]). by apply not_elem_of_nil in Ht.
Qed.
Lemma less_int t a z : t ∈ int_types -> less (int_member t a) (int_member t z) = Ret (a <? z).
Proof.
  unfold int_types. intros Ht. repeat (apply elem_of_cons in Ht as [->|Ht]; [done|]). by apply not_elem_of_nil in Ht.
Qed.

End Typing.
End FilterTyping.
