(* ===== verification/FilterProps.v ===== *)
(** * Content filtering: theorems

    What a filter expression means and that the evaluator computes it, from the
    text to the boolean; which texts the constructor accepts; which filters
    evaluate without an error; and where the code fails. *)

From Stdlib Require Import Ascii.
From S2P Require Import Prelude MessageBlock SequenceNumber Serializer Yard FilterExpressionGrammar FilterValue FilterEvaluator FilterTree FilterSyntax FilterTyping.

Module FilterProps.
Import MessageBlock Serializer Yard FilterExpressionGrammar FilterValue FilterEvaluator FilterTree FilterSyntax FilterTyping.

(** White space of at least one character. *)
Definition spaces (sp : text) : Prop := sp <> [] /\ Forall (fun c => WhiteSpaceCharSet c = true) sp.

(** ** The meaning of an expression *)

Section Meaning.
Context `{FloatOps} (wild_match : text -> text -> bool).
Context {S : Type} (data : DataForEval S).

Definition pred_value (p : pred) (st : S) : outcome (bool * S) :=
  let field f := eval_operand data (FieldLookup (field_text f)) in
  let param p := eval_operand data (param_operand p) in
  let comparison (x y : S -> outcome (Value * S)) op st :=
    '(vx, st) ← x st; '(vy, st) ← y st; b ← compare wild_match op vx vy; Ret (b, st) in
  match p with
  | PBetween f neg lo hi =>
      '(vf, st) ← field f st; '(vl, st) ← param lo st; '(vh, st) ← param hi st;
      b ← between vf vl vh; Ret (xorb neg b, st)
  | PFieldParam f op p => comparison (field f) (param p) op st
  | PParamField p op f => comparison (param p) (field f) op st
  | PFieldField f op g => comparison (field f) (field g) op st
  end.

(** The operators are evaluated from left to right; the right operand only when
    the left one does not decide. *)
Fixpoint expr_value (e : expr) (st : S) : outcome (bool * S) :=
  match e with
  | EAtom a => atom_value a st
  | ENot a => '(b, st) ← atom_value a st; Ret (negb b, st)
  | EAnd e a => '(b, st) ← expr_value e st; if (b : bool) then atom_value a st else Ret (false, st)
  | EOr e a => '(b, st) ← expr_value e st; if (b : bool) then Ret (true, st) else atom_value a st
  end
with atom_value (a : atom) (st : S) : outcome (bool * S) :=
  match a with
  | APred p => pred_value p st
  | AParen e => expr_value e st
  end.

(** A boolean result as a value. *)
Definition as_value (m : outcome (bool * S)) : outcome (Value * S) := '(b, st) ← m; Ret (of_bool b, st).

Lemma pred_tree_value p st : eval_node wild_match data (pred_tree p) st = as_value (pred_value p st).
Proof.
  destruct p as [f neg lo hi|f op p|p op f|f op g]; cbn [pred_tree eval_node pred_value as_value];
    repeat match goal with
    | |- context [eval_operand data ?o ?st] => destruct (eval_operand data o st) as [[? ?]| | |]; cbn [mbind outcome_bind]; [|done..]
    end.
  - destruct (between _ _ _) as [b| | |]; [|done..]. destruct neg; [done|]. by destruct b.
  - by destruct (compare _ _ _ _).
  - by destruct (compare _ _ _ _).
  - by destruct (compare _ _ _ _).
Qed.

Lemma tree_value :
  (forall e st, eval_node wild_match data (expr_tree e) st = as_value (expr_value e st))
  /\ (forall a st, eval_node wild_match data (atom_tree a) st = as_value (atom_value a st)).
Proof.
  apply expr_atom_ind; cbn [expr_tree atom_tree expr_value atom_value].
  - done.
  - intros a IH st. cbn [eval_node]. rewrite IH. by destruct (atom_value a st) as [[b st']| | |].
  - intros e IHe a IHa st. cbn [eval_node]. rewrite IHe.
    destruct (expr_value e st) as [[[] st']| | |]; cbn; [apply IHa|done..].
  - intros e IHe a IHa st. cbn [eval_node]. rewrite IHe.
    destruct (expr_value e st) as [[[] st']| | |]; cbn; [done|apply IHa|done..].
  - intros p st. apply pred_tree_value.
  - done.
Qed.

Lemma eval_expr e st os : eval_i wild_match data (mkFE (Some (expr_tree e)) os) st = expr_value e st.
Proof.
  unfold eval_i. cbn [filter_root_ deref mbind outcome_bind]. rewrite (proj1 tree_value).
  by destruct (expr_value e st) as [[b st']| | |].
Qed.

End Meaning.

(** ** From the text to the tree *)

Section Text.
Context `{FloatOps}.

(** A text the grammar reads as one condition. *)
Lemma constructed t e : plain t -> cond_runs t [] (fun prev => prev = None) (fun _ => e) ->
  new_FilterEvaluator t false = Ret (mkFE (Some e) []).
Proof.
  intros Hp (ns & Hns & He). specialize (He None eq_refl). rewrite app_nil_r in Hns.
  assert (HP : Parse FilterCompleteInput t = Ret (true, ns)).
  { unfold Parse, FilterCompleteInput. cbn [mIter].
    assert (Ha : accepts (Seq [Cond (S (length t)); EndOfInput]) t [] ns).
    { apply accepts_Seq, seq_accepts_last; [apply Hns; lia|]. apply seq_accepts_one. intros cur. cbn. by rewrite app_nil_r. }
    specialize (Ha []). rewrite app_nil_r in Ha. rewrite Ha. done. }
  destruct (parse_filter t Hp) as (b & ns' & HP' & Hc). rewrite HP in HP'. injection HP' as <- <-.
  destruct (Hc eq_refl) as [_ [_ Hcs]].
  unfold new_FilterEvaluator. rewrite HP. cbn [mbind outcome_bind]. rewrite <- (app_nil_r ns).
  rewrite build_conds by done. cbn [filter_root_]. rewrite He. done.
Qed.

Lemma expr_constructed sp e : spaces sp -> expr_ok e ->
  new_FilterEvaluator (expr_text sp e) false = Ret (mkFE (Some (expr_tree e)) []).
Proof.
  intros Hsp He. pose proof (proj1 (texts_solid sp Hsp) e He [] (Forall_nil_2 _)) as [_ Hp].
  rewrite app_nil_r in Hp. apply constructed; [done|].
  pose proof (proj1 (exprs_run sp Hsp) e He [] [] (fun x => x) ltac:(done) solid_nil (tail_runs_nil [] ltac:(done))) as Hr.
  by rewrite app_nil_r in Hr.
Qed.

End Text.

(** ** Parameters of the witnesses *)

(** Floating point as integers: enough to run filters on. *)
Definition int_floats : FloatOps := {|
  double := Z; long_double := Z;
  d_eq := Z.eqb; d_lt := Z.ltb; d_insert := insert_int; d_extract := extract_int true 64;
  atof := fun s => (extract_int true 64 s).1;
  ld_eq := Z.eqb; ld_lt := Z.ltb; ld_insert := insert_int; ld_extract := extract_int true 64 |}.

Lemma int_floats_laws : @FloatLaws int_floats.
Proof. split; intros z Hz; by apply extract_int_rest. Qed.

Definition no_wildcards (s pattern : text) : bool := bool_decide (s = pattern).

(** A sample with four fields, by name. *)
Definition sample `{FloatOps} (field : text) : outcome Value :=
  if bool_decide (field = chars "x") then Ret (mkValue (i_ 5) false)
  else if bool_decide (field = chars "big") then Ret (mkValue (l_ 5000000000) false)
  else if bool_decide (field = chars "name") then Ret (mkValue (s_ (chars "Adam")) false)
  else if bool_decide (field = chars "grade") then Ret (mkValue (c_ "b"%char) false)
  else Throw.

Definition sample_types (field : text) : option Type_ :=
  if bool_decide (field = chars "x") then Some VAL_INT
  else if bool_decide (field = chars "big") then Some VAL_I64
  else if bool_decide (field = chars "name") then Some VAL_STRING
  else if bool_decide (field = chars "grade") then Some VAL_CHAR
  else None.

(** A field of one identifier. *)
Definition fld (s : string) : field := mkField (chars s) [].

(** [NOT x > 5 AND (big BETWEEN 1 AND %0 OR name LIKE 'Ad%')]. *)
Definition example_expr : expr :=
  EAnd (ENot (APred (PFieldParam (fld "x") OPER_GT (PInt 5))))
    (AParen (EOr (EAtom (APred (PBetween (fld "big") false (PInt 1) (PNum 0))))
                 (APred (PFieldParam (fld "name") OPER_LIKE (PStr (chars "Ad%")))))).

Lemma example_ok : expr_ok example_expr.
Proof.
  assert (Hf : forall s, ident_ok (chars s) -> (ToLowercase <$> chars s) ∉ [chars "not"; chars "between"; chars "like"] -> field_ok (fld s))
    by (intros s H1 H2; split_and!; [done|constructor|done]).
  cbn. split_and!; try done; try (apply Hf; [by repeat constructor|vm_compute; set_solver]); try (by repeat constructor).
  all: try (unfold is_s; cbn; lia).
Qed.

(** ** Filters from text to result *)

Section Correct.
Context `{FloatOps}.

(** C7: The text of a condition, with some white space (the same everywhere) after
    each of its tokens, the last one too, is accepted by the constructor, and the
    evaluator it makes computes on every sample what the condition means: literals
    and parameters are those of the text, AND and OR associate to the left and
    leave out an operand that cannot change the result.  A condition has NOT
    before its first operand only, or in parentheses ([A AND NOT B] is not one:
    see [misplaced_not_undefined]). *)
Theorem filter_expression_correct wild_match sp e : spaces sp -> expr_ok e ->
  exists fe, new_FilterEvaluator (expr_text sp e) false = Ret fe
    /\ hasFilter fe = true /\ getOrderBys fe = []
    /\ forall S (data : DataForEval S) st, eval_i wild_match data fe st = expr_value wild_match data e st.
Proof.
  intros Hsp He. eexists. split; [by apply expr_constructed|]. split_and!; [done..|].
  intros S data st. apply eval_expr.
Qed.

(** C9: On every expression of seven-bit characters the constructor returns or
    throws: the parser ends, and no node of its tree is missing, of the wrong kind
    or too short for the evaluation nodes built of it.  A filter has a tree and no
    order; a query may have either. *)
Theorem constructor_total filter allowOrderBy : plain filter ->
  new_FilterEvaluator filter allowOrderBy = Throw
  \/ exists fe, new_FilterEvaluator filter allowOrderBy = Ret fe
       /\ (allowOrderBy = false -> hasFilter fe = true /\ getOrderBys fe = []).
Proof.
  intros Hp. unfold new_FilterEvaluator. destruct allowOrderBy.
  - destruct (parse_query filter Hp) as ([] & ns & HP & cs & os & -> & [Hs Hcs] & Hos); rewrite HP; [|by left].
    right. cbn [mbind outcome_bind]. rewrite build_conds by done. cbn [filter_root_ order_bys_].
    assert (exists root, walk_all cs None = Ret root) as [root ->].
    { destruct cs as [|c cs]; [by eexists|].
      destruct (walk_all_total (c :: cs)) as [e ->]; [|done|done|by eexists].
      eapply Forall_impl; [exact Hcs|]. apply walk_cond. }
    destruct (build_order os root Hos) as [fs Hb]. cbn [mbind outcome_bind]. rewrite Hb. eexists. split; [done|]. done.
  - destruct (parse_filter filter Hp) as ([] & ns & HP & Hc); rewrite HP; [|by left].
    right. destruct (Hc eq_refl) as [Hne [Hs Hcs]]. cbn [mbind outcome_bind]. rewrite <- (app_nil_r ns), build_conds by done.
    cbn [filter_root_]. destruct (walk_all_total ns) as [e ->]; [|done|done|].
    { eapply Forall_impl; [exact Hcs|]. apply walk_cond. }
    eexists. split; [done|]. done.
Qed.

(** C8: A condition (as for C7) whose comparisons pass the type check, against the
    types of the fields and the values of the parameters, evaluates to a boolean
    on every sample of these types: no comparison throws, nothing is undefined.
    The check lets through two fields of one type, of an integral and a larger
    numeric type, or of a small type and a string; a field and a literal or
    parameter of its type, anything with a string field, an integer literal with
    a numeric field and a parameter that is the text of an integer with an
    integral field; and [LIKE] for strings. *)
Theorem well_typed_filter `{!FloatLaws} wild_match sp e Γ params : spaces sp -> expr_ok e ->
  well_typed Γ params (expr_tree e) = true ->
  exists fe, new_FilterEvaluator (expr_text sp e) false = Ret fe
    /\ forall S (data : DataForEval S) st, data_ok Γ params data ->
         exists b st', eval_i wild_match data fe st = Ret (b, st').
Proof.
  intros Hsp He Hw. eexists. split; [by apply expr_constructed|]. intros S data st Hd.
  destruct (well_typed_eval wild_match Γ params data Hd (expr_tree e) st Hw) as (b & st' & Hev).
  exists b, st'. unfold eval_i. cbn [filter_root_ deref mbind outcome_bind]. rewrite Hev. done.
Qed.

(** C10: A field of an integer type is compared with an integer literal, or with a
    parameter that is the text of an integer, as integers, whichever the operator
    and the type, when the number is in the range of the type. *)
Theorem integer_comparison_exact wild_match t a z m op :
  t ∈ int_types -> int_in t z -> denotes m z -> op <> OPER_LIKE ->
  compare wild_match op (mkValue (int_member t a) false) (literal m) = Ret (int_op op a z).
Proof.
  intros Ht Hz Hm Hop. destruct (conversion_denoted m z t a Hm Ht Hz) as (p & H1 & H2).
  destruct op; [..|done|done]; cbn [compare int_op]; unfold value_eq, value_lt; rewrite ?H1, ?H2;
    cbn [mbind outcome_bind union_]; rewrite ?equals_int, ?less_int by done; cbn [mbind outcome_bind]; f_equal; lia.
Qed.

End Correct.

Lemma filter_expression_correct_witness :
  exists fe, @new_FilterEvaluator int_floats (expr_text (chars " ") example_expr) false = Ret fe
    /\ eval_deserialized no_wildcards fe sample [chars "6000000000"] = Ret true.
Proof.
  destruct (@filter_expression_correct int_floats no_wildcards (chars " ") example_expr) as (fe & Hfe & _ & _ & Hev);
    [by split; [done|repeat constructor]|apply example_ok|].
  exists fe. split; [exact Hfe|]. unfold eval_deserialized. rewrite Hev. vm_compute. reflexivity.
Defined.

Lemma constructor_total_witness :
  @new_FilterEvaluator int_floats (chars "x = 3 AND") true = Throw
  \/ exists fe, @new_FilterEvaluator int_floats (chars "x = 3 AND") true = Ret fe
       /\ (true = false -> hasFilter fe = true /\ getOrderBys fe = []).
Proof.
  apply (@constructor_total int_floats (chars "x = 3 AND") true). by repeat (constructor; [vm_compute; discriminate|]).
Defined.

Lemma sample_data_ok : @data_ok int_floats sample_types [chars "6000000000"] unit
  (DeserializedForEval (@sample int_floats) [chars "6000000000"]).
Proof.
  split; [done|]. intros f t st. unfold sample_types, DeserializedForEval, sample. cbn [lookup].
  repeat case_bool_decide; intros [= <-]; cbn; eexists _, _; (split; [reflexivity|]); split; try done.
Qed.

Lemma well_typed_filter_witness :
  exists fe, @new_FilterEvaluator int_floats (expr_text (chars " ") example_expr) false = Ret fe
    /\ exists b st, eval_i no_wildcards (DeserializedForEval (@sample int_floats) [chars "6000000000"]) fe () = Ret (b, st).
Proof.
  destruct (@well_typed_filter int_floats int_floats_laws no_wildcards (chars " ") example_expr sample_types [chars "6000000000"])
    as (fe & Hfe & Hev); [by split; [done|repeat constructor]|apply example_ok|vm_compute; reflexivity|].
  exists fe. split; [exact Hfe|]. apply Hev, sample_data_ok.
Defined.

Lemma integer_comparison_exact_witness :
  compare (H := int_floats) no_wildcards OPER_LTEQ (mkValue (int_member VAL_UINT 7) false)
    (literal (s_ (insert_int 4294967295))) = Ret (int_op OPER_LTEQ 7 4294967295)
  /\ compare (H := int_floats) no_wildcards OPER_GT (mkValue (int_member VAL_I64 (-3)) false)
       (literal (i_ 2)) = Ret (int_op OPER_GT (-3) 2).
Proof.
  split.
  - apply (@integer_comparison_exact int_floats no_wildcards VAL_UINT 7 4294967295 (s_ (insert_int 4294967295)) OPER_LTEQ);
      [repeat constructor|split; [discriminate|reflexivity]|right; reflexivity|discriminate].
  - apply (@integer_comparison_exact int_floats no_wildcards VAL_I64 (-3) 2 (i_ 2) OPER_GT);
      [repeat constructor|split; [discriminate|reflexivity]|left; split; [reflexivity|split; [discriminate|reflexivity]]|discriminate].
Defined.

(** ** Serialized samples *)

Section Cache.
Context `{FloatOps} (wild_match : text -> text -> bool).
Context (value extracted : text -> outcome Value) (params : list text).
Hypothesis Hextracted : forall f, extracted f = value f.

(** The cache holds values of the sample. *)
Definition agrees (cache : gmap text Value) : Prop := forall f v, cache !! f = Some v -> value f = Ret v.

(** Two runs with the same outcome and result, the first of which keeps a cache. *)
Definition same_run {A} (m1 : outcome (A * gmap text Value)) (m2 : outcome (A * unit)) : Prop :=
  match m1, m2 with
  | Ret (a, cache), Ret (b, _) => a = b /\ agrees cache
  | Throw, Throw | UB, UB | Fuel, Fuel => True
  | _, _ => False
  end.

Lemma same_run_bind {A B : Type} (m1 : outcome (A * gmap text Value)) (m2 : outcome (A * unit))
    (k1 : A * gmap text Value -> outcome (B * gmap text Value)) (k2 : A * unit -> outcome (B * unit)) :
  same_run m1 m2 -> (forall a cache, agrees cache -> same_run (k1 (a, cache)) (k2 (a, ()))) -> same_run (m1 ≫= k1) (m2 ≫= k2).
Proof. destruct m1 as [[a c]| | |], m2 as [[b []]| | |]; cbn; try done. intros [-> Hc] Hk. by apply Hk. Qed.

(** A computation that does not look at the sample. *)
Lemma same_run_pure {A B : Type} (m : outcome A) (k1 : A -> outcome (B * gmap text Value)) (k2 : A -> outcome (B * unit)) :
  (forall a, m = Ret a -> same_run (k1 a) (k2 a)) -> same_run (m ≫= k1) (m ≫= k2).
Proof. destruct m as [a| | |]; cbn; [|done..]. intros Hk. by apply Hk. Qed.

Definition cached : DataForEval (gmap text Value) := mkData (cached_lookup extracted) params.
Definition direct : DataForEval unit := DeserializedForEval value params.

Lemma same_operand o cache : agrees cache -> same_run (eval_operand cached o cache) (eval_operand direct o ()).
Proof.
  intros Hc. destruct o as [f|z|c|d|s|n|]; cbn [eval_operand lookup params_ cached direct DeserializedForEval]; try done.
  - unfold cached_lookup. destruct (cache !! f) as [v|] eqn:Ef; [by rewrite (Hc f v Ef)|].
    rewrite Hextracted. destruct (value f) as [v| | |] eqn:Ev; cbn; [|done..]. split; [done|].
    intros g w. rewrite lookup_insert_Some. intros [[<- <-]|[_ Hg]]; [done|by apply Hc].
  - apply same_run_pure. done.
Qed.

Lemma same_eval : forall n cache, agrees cache ->
  same_run (eval_node wild_match cached n cache) (eval_node wild_match direct n ()).
Proof.
  fix IH 1. intros n cache Hc. destruct n as [l op r|inv f l r|op cs].
  - cbn [eval_node]. apply same_run_bind; [by apply same_operand|]. intros x c1 H1.
    apply same_run_bind; [by apply same_operand|]. intros y c2 H2. by apply same_run_pure.
  - cbn [eval_node]. apply same_run_bind; [by apply same_operand|]. intros x c1 H1.
    apply same_run_bind; [by apply same_operand|]. intros y c2 H2.
    apply same_run_bind; [by apply same_operand|]. intros z c3 H3. by apply same_run_pure.
  - destruct cs as [|a rest]; [done|]. cbn [eval_node]. apply same_run_bind; [by apply IH|]. intros x c1 H1.
    apply same_run_pure. intros b _.
    assert (H2 : same_run (match rest with [] => UB | c' :: _ => eval_node wild_match cached c' c1 end)
      (match rest with [] => UB | c' :: _ => eval_node wild_match direct c' () end)) by (destruct rest as [|a' ?]; [done|by apply IH]).
    destruct op, b; try done; by split.
Qed.

Lemma same_eval_i fe : same_run (eval_i wild_match cached fe ∅) (eval_i wild_match direct fe ()).
Proof.
  unfold eval_i. apply same_run_pure. intros root _. apply same_run_bind; [by apply same_eval|].
  intros v c Hc. by apply same_run_pure.
Qed.

End Cache.

Section Extraction.
Context `{FloatOps} {MB : Type} {MB0 : MessageBlock MB} {MB1 : MessageBlockLaws MB}.

(** A serializer at the start of the fields [body] of a sample, in the byte order
    and with the alignment of the sample; [p] bytes are in front of the fields. *)
Definition at_fields (swap cdr : bool) (body : list Z) (ser : @Serializer MB) : Prop :=
  alignment_ ser = (if cdr then ALIGN_CDR else ALIGN_NONE) /\ swap_bytes_ ser = swap /\ good_bit_ ser = true
  /\ rd_stream ser = body /\ rd_pos ser (if cdr then 4 else 0).

(** What the generated [MetaStruct] does: from such a serializer it extracts the
    value of each field. *)
Definition extracts (getValue : @Serializer MB -> text -> outcome Value) (swap cdr : bool) (body : list Z) (value : text -> outcome Value) : Prop :=
  forall ser, at_fields swap cdr body ser -> forall field, getValue ser field = value field.

Lemma extraction_correct getValue swap cdr body value (header : list Z) (data : list MB) field :
  extracts getValue swap cdr body value -> length header = (if cdr then 4 else 0)%nat -> chain_bytes data = header ++ body ->
  serialized_value getValue data swap cdr field = value field.
Proof.
  intros He Hl Hd. unfold serialized_value. pose proof (mk_serializer_rd data swap (if cdr then ALIGN_CDR else ALIGN_NONE)) as Hp. destruct cdr.
  - unfold skip. cbn [Z.ltb Z.compare Pos.compare Pos.compare_cont andb mbind outcome_bind]. change (Z.to_nat (4 * 1)) with 4%nat.
    destruct (skip_loop_spec (2 + length data) (mk_serializer data swap ALIGN_CDR) 4 0) as (s' & Es & Hs & Hp' & [Hm Ha] & Hg).
    + unfold rd_stream. cbn [ser_cur mk_serializer]. rewrite Hd, length_app. lia.
    + cbn. lia.
    + exact Hp.
    + unfold skip1. cbn [ser_cur mk_serializer]. rewrite Es. cbn [mbind outcome_bind]. apply He.
      unfold rd_stream in Hs. cbn [ser_cur mk_serializer] in Hs. rewrite Hd, drop_app_length' in Hs by done.
      unfold at_fields. by split_and!.
  - cbn [mbind outcome_bind]. apply He. destruct header; [|done]. by split_and!.
Qed.
End Extraction.

(** C11: Evaluating a filter on a serialized sample, where each field is extracted
    by a serializer of its own and kept in a cache, gives what evaluating it on the
    values of the fields gives, errors included.  The sample is any chain that holds
    the fields, in its byte order, behind an encapsulation header of four bytes when
    it is CDR encapsulated; the generated [getValue] extracts the values from a
    serializer that stands at the fields with the byte order and the alignment (from
    the start of the header) of the sample. *)
Theorem serialized_eval_correct `{FloatOps} {MB} {MB0 : MessageBlock MB} {MB1 : MessageBlockLaws MB} wild_match fe
    (getValue : @Serializer MB -> text -> outcome Value) swap cdr body value (header : list Z) (data : list MB) params :
  extracts getValue swap cdr body value -> length header = (if cdr then 4 else 0)%nat -> chain_bytes data = header ++ body ->
  eval_serialized wild_match fe getValue data swap cdr params = eval_deserialized wild_match fe value params.
Proof.
  intros He Hl Hd. unfold eval_serialized, eval_deserialized.
  pose proof (same_eval_i wild_match value (serialized_value getValue data swap cdr) params
    (fun f => extraction_correct getValue swap cdr body value header data f He Hl Hd) fe) as Hs.
  unfold cached, direct in Hs. fold (SerializedForEval getValue data params swap cdr) in Hs. revert Hs.
  destruct (eval_i wild_match (SerializedForEval getValue data params swap cdr) fe ∅) as [[b c]| | |],
    (eval_i wild_match (DeserializedForEval value params) fe ()) as [[b' []]| | |];
    cbn; try done. by intros [-> _].
Qed.

(** The sample with the one field [x], a [long] of 5, behind an encapsulation header
    and in two blocks. *)
Definition long_field (ser : @Serializer block) (field : text) : outcome (@Value int_floats) :=
  '(_, x) ← read_sint 4 ser 0; Ret (mkValue (@i_ int_floats x) false).
Definition x_5_data : list block := [full_block 3 [0; 1; 0; 0; 5; 0]; full_block 100 [0; 0]].

Lemma long_field_extracts : @extracts int_floats block _ long_field false true [5; 0; 0; 0] (fun _ => Ret (mkValue (@i_ int_floats 5) false)).
Proof.
  intros ser (Ha & Hsw & Hg & Hs & Hp) field. unfold long_field, read_sint.
  destruct (read_uint_ok 4 ser 0 4 [] 5 [] ltac:(right; right; by left) (or_intror Hp)) as (s' & -> & _).
  - rewrite Hs, Hsw. reflexivity.
  - rewrite Ha. reflexivity.
  - reflexivity.
Qed.

Lemma serialized_eval_correct_witness :
  let fe := @mkFE int_floats (Some (@Comparison int_floats (FieldLookup (chars "x")) OPER_EQ (LiteralInt 5))) [] in
  @eval_serialized int_floats no_wildcards block _ fe long_field x_5_data false true [] = Ret true.
Proof.
  intros fe. rewrite (@serialized_eval_correct int_floats block _ _ no_wildcards fe long_field false true [5; 0; 0; 0] (fun _ => Ret (mkValue (@i_ int_floats 5) false))
    [0; 1; 0; 0] x_5_data [] long_field_extracts eq_refl eq_refl). vm_compute. reflexivity.
Defined.

(** ** LIKE *)

(** A pattern of [ACE::wild_match] without character classes. *)
Inductive glob := GLit (c : ascii) | GOne | GMany.

Fixpoint glob_match (p : list glob) (s : text) {struct p} : bool :=
  match p with
  | [] => bool_decide (s = [])
  | GLit c :: p' => match s with [] => false | x :: s' => bool_decide (x = c) && glob_match p' s' end
  | GOne :: p' => match s with [] => false | _ :: s' => glob_match p' s' end
  | GMany :: p' =>
      (fix many (s : text) := glob_match p' s || match s with [] => false | _ :: s' => many s' end) s
  end.

(** Its text: a wildcard or a backslash that stands for itself is escaped. *)
Definition glob_text (g : glob) : text :=
  match g with
  | GLit c => if bool_decide (c ∈ ["?"; "*"; "\"]%char) then ["\"%char; c] else [c]
  | GOne => ["?"%char]
  | GMany => ["*"%char]
  end.

Definition no_class (g : glob) : Prop := match g with GLit c => c ∉ ["["; "]"]%char | _ => True end.

(** What the documentation of [ACE::wild_match] says of such patterns. *)
Class WildMatch (wild_match : text -> text -> bool) : Prop :=
  wild_match_glob : forall p s, Forall no_class p -> wild_match s (concat (glob_text <$> p)) = glob_match p s.

(** The pattern of the expression: one character, any characters, or itself. *)
Definition sql_token (c : ascii) : glob :=
  if bool_decide (c = "_"%char) then GOne else if bool_decide (c = "%"%char) then GMany else GLit c.

Definition sql_plain (c : ascii) : Prop := c ∉ ["\"; "["; "]"]%char.

Lemma like_pattern_globs p : Forall sql_plain p -> like_pattern p = concat (glob_text <$> (sql_token <$> p)).
Proof.
  induction 1 as [|c p Hc _ IH]; [done|]. unfold like_pattern in *. cbn [escape_wild fmap list_fmap concat].
  unfold sql_token at 1. unfold sql_plain in Hc. rewrite !not_elem_of_cons in Hc. destruct Hc as (Hc1 & Hc2 & Hc3 & _).
  case_bool_decide as Hw.
  - cbn [fmap list_fmap]. rewrite IH. repeat (apply elem_of_cons in Hw as [->|Hw]; [done|]). by apply not_elem_of_nil in Hw.
  - cbn [fmap list_fmap]. rewrite IH. unfold translate_wild. repeat case_bool_decide; try done. cbn [glob_text].
    rewrite bool_decide_false; [done|]. rewrite !not_elem_of_cons in *. naive_solver.
Qed.

(** C40: [LIKE] matches a string against the pattern of the expression, where an
    underscore is any character and a percent sign any characters, and question
    marks and asterisks stand for themselves; the pattern has no backslash and no
    bracket, and [ACE::wild_match] matches its own patterns as documented
    ([WildMatch]). *)
Theorem like_correct `{FloatOps} wild_match `{!WildMatch wild_match} s p px py : Forall sql_plain p ->
  like wild_match (mkValue (s_ s) px) (mkValue (s_ p) py) = Ret (glob_match (sql_token <$> p) s).
Proof.
  intros Hp. unfold like. cbn [union_]. rewrite like_pattern_globs by done. rewrite wild_match_glob; [done|].
  apply Forall_fmap. eapply Forall_impl; [exact Hp|]. intros c Hc. cbn. unfold sql_token.
  repeat case_bool_decide; try done. unfold sql_plain in Hc. cbn. rewrite !not_elem_of_cons in *. naive_solver.
Qed.

(** A matcher with these laws. *)
Fixpoint glob_parse (p : text) : list glob :=
  match p with
  | [] => []
  | c :: p' =>
      if bool_decide (c = "\"%char) then match p' with [] => [] | x :: p'' => GLit x :: glob_parse p'' end
      else if bool_decide (c = "?"%char) then GOne :: glob_parse p'
      else if bool_decide (c = "*"%char) then GMany :: glob_parse p'
      else GLit c :: glob_parse p'
  end.

Definition glob_wild_match (s pattern : text) : bool := glob_match (glob_parse pattern) s.

Lemma glob_parse_text p : glob_parse (concat (glob_text <$> p)) = p.
Proof.
  induction p as [|g p IH]; [done|]. cbn [fmap list_fmap concat]. destruct g as [c| |]; cbn [glob_text]; [|by cbn; rewrite IH..].
  case_bool_decide as Hc; cbn [app glob_parse].
  - by rewrite IH.
  - rewrite !not_elem_of_cons in Hc. destruct Hc as (H1 & H2 & H3 & _). rewrite !bool_decide_false by done. by rewrite IH.
Qed.

Lemma glob_wild_match_laws : WildMatch glob_wild_match.
Proof. intros p s _. unfold glob_wild_match. by rewrite glob_parse_text. Qed.

Lemma like_correct_witness :
  like (H := int_floats) glob_wild_match (mkValue (s_ (chars "what?now")) false) (mkValue (s_ (chars "wh_t?%")) true)
  = Ret (glob_match (sql_token <$> chars "wh_t?%") (chars "what?now")).
Proof.
  refine (@like_correct int_floats glob_wild_match glob_wild_match_laws (chars "what?now") (chars "wh_t?%") false true _).
  unfold sql_plain. repeat (constructor; [rewrite !not_elem_of_cons; split_and!; try discriminate; apply not_elem_of_nil|]).
  constructor.
Defined.

(** ** Where the evaluator fails *)

Section Failures.
Context `{FloatOps}.

(** The tree of a condition whose last operand is negated without parentheses: the
    negation has no operand, and the operator has three. *)
Lemma misplaced_not_tree sp e a op : spaces sp -> expr_ok e -> atom_ok a -> op <> LG_NOT ->
  new_FilterEvaluator (expr_text sp e ++ tok sp (op_word op) ++ tok sp (chars "NOT") ++ atom_text sp a) false
  = Ret (mkFE (Some (Logical op [expr_tree e; Logical LG_NOT []; atom_tree a])) []).
Proof.
  intros Hsp He Ha Hop.
  assert (Hat := proj2 (exprs_run sp Hsp) a Ha [] [] (fun x => x) ltac:(done) solid_nil (tail_runs_nil [] ltac:(done))).
  apply (cond_runs_not sp Hsp a [] [] (fun x => x) Ha ltac:(done) solid_nil) in Hat. rewrite app_nil_r in Hat.
  assert (Hs : solid ((tok sp (chars "NOT") ++ atom_text sp a) ++ [])).
  { rewrite <- app_assoc. apply (solid_tok sp Hsp); [done|by repeat constructor|].
    apply (proj2 (texts_solid sp Hsp) a Ha). constructor. }
  pose proof (tail_runs_op sp Hsp op _ [] _ Hop ltac:(done) Hs Hat) as Ht.
  assert (Hs' : solid ((tok sp (op_word op) ++ tok sp (chars "NOT") ++ atom_text sp a) ++ [])).
  { rewrite <- app_assoc. destruct op; [..|done]; (apply (solid_tok sp Hsp); [done|by repeat constructor|apply Hs]). }
  pose proof (proj1 (exprs_run sp Hsp) e He _ [] _ ltac:(done) Hs' Ht) as Hr.
  rewrite app_nil_r in Hs'.
  refine (constructed _ _ _ Hr). apply (proj1 (texts_solid sp Hsp) e He), Hs'.
Qed.

(** A negated right operand without parentheses, as in [A AND NOT B], is
    accepted by the constructor but not made an operand of the negation: whenever
    the left operand does not decide the result, the evaluation reads the first
    element of an empty vector. *)
Theorem misplaced_not_undefined wild_match sp e a op : spaces sp -> expr_ok e -> atom_ok a -> op <> LG_NOT ->
  exists fe, new_FilterEvaluator (expr_text sp e ++ tok sp (op_word op) ++ tok sp (chars "NOT") ++ atom_text sp a) false = Ret fe
    /\ forall S (data : DataForEval S) st st',
         expr_value wild_match data e st = Ret (bool_decide (op = LG_AND), st') -> eval_i wild_match data fe st = UB.
Proof.
  intros Hsp He Ha Hop. eexists. split; [by apply misplaced_not_tree|]. intros S data st st' Hv.
  unfold eval_i. cbn [filter_root_ deref mbind outcome_bind eval_node]. rewrite (proj1 (tree_value wild_match data)), Hv.
  by destruct op.
Qed.

(** A field of type [char] cannot be compared with a parameter, a string or a
    number: the extraction of a [char] never reaches the end of the stream, so the
    conversion is taken to fail and every comparison throws, unless the text is
    empty or blank. *)
Theorem char_field_throws wild_match c m op :
  member_type m <> VAL_CHAR -> (span isspace (StreamInsert m)).2 <> [] -> op <> OPER_INVALID ->
  compare wild_match op (mkValue (c_ c) false) (literal m) = Throw.
Proof.
  intros Hm Ht Hop.
  assert (Hc : convert (literal m) VAL_CHAR = Ret (false, literal m)).
  { unfold convert. rewrite bool_decide_false by done. cbn [union_ literal]. unfold StreamExtract.
    destruct (span isspace (StreamInsert m)) as [sps txt]. cbn in Ht. by rewrite bool_decide_false. }
  assert (H1 : conversion (mkValue (c_ c) false) (literal m) = Throw)
    by (rewrite conversion_literal_r by (cbn; congruence); cbn [type_ union_ member_type]; by rewrite Hc).
  assert (H2 : conversion (literal m) (mkValue (c_ c) false) = Throw)
    by (rewrite conversion_literal_l by (cbn; congruence); cbn [type_ union_ member_type]; by rewrite Hc).
  destruct op; [..|done]; cbn [compare]; unfold value_eq, value_lt; by rewrite ?H1, ?H2.
Qed.

(** A pattern of one character is a character literal, for which [LIKE] throws. *)
Theorem one_character_pattern_throws wild_match sp f c : spaces sp -> field_ok f -> 0 <= char_value c ->
  exists fe, new_FilterEvaluator (expr_text sp (EAtom (APred (PFieldParam f OPER_LIKE (PChar c))))) false = Ret fe
    /\ forall S (data : DataForEval S) st v st', lookup data (field_text f) st = Ret (v, st') ->
         eval_i wild_match data fe st = Throw.
Proof.
  intros Hsp Hf Hc. eexists. split; [by apply expr_constructed|]. intros S data st v st' Hv.
  rewrite eval_expr. cbn. rewrite Hv. cbn. unfold like. by destruct (union_ v).
Qed.

End Failures.

Definition x_is_5 : pred := PFieldParam (fld "x") OPER_EQ (PInt 5).

Lemma x_is_5_ok : pred_ok x_is_5.
Proof.
  split; [|split; [discriminate|split; [discriminate|reflexivity]]].
  split_and!; [by repeat constructor|constructor|vm_compute; set_solver].
Qed.

Lemma misplaced_not_undefined_witness :
  exists fe, @new_FilterEvaluator int_floats
      (expr_text (chars " ") (EAtom (APred x_is_5)) ++ tok (chars " ") (op_word LG_AND) ++ tok (chars " ") (chars "NOT")
       ++ atom_text (chars " ") (APred x_is_5)) false = Ret fe
    /\ eval_i no_wildcards (DeserializedForEval sample []) fe () = UB.
Proof.
  destruct (@misplaced_not_undefined int_floats no_wildcards (chars " ") (EAtom (APred x_is_5)) (APred x_is_5) LG_AND)
    as (fe & Hfe & Hev); [by split; [done|repeat constructor]|exact x_is_5_ok|exact x_is_5_ok|discriminate|].
  exists fe. split; [exact Hfe|]. apply (Hev unit (DeserializedForEval sample []) () ()). vm_compute. reflexivity.
Defined.

Lemma char_field_throws_witness :
  compare (H := int_floats) no_wildcards OPER_EQ (mkValue (c_ "b"%char) false) (literal (s_ (chars "b"))) = Throw.
Proof.
  apply (@char_field_throws int_floats no_wildcards "b"%char (s_ (chars "b")) OPER_EQ); [discriminate|discriminate|discriminate].
Defined.

(** The result of a filter on the sample. *)
Definition run_text (filter : text) (params : list text) : outcome bool :=
  fe ← @new_FilterEvaluator int_floats filter false;
  @eval_deserialized int_floats no_wildcards fe (@sample int_floats) params.
Definition run (filter : string) (params : list string) : outcome bool := run_text (chars filter) (chars <$> params).

(** Two negations in a row are undefined as well. *)
Theorem double_negation_undefined : run "NOT NOT x = 5" [] = UB.
Proof. vm_compute. reflexivity. Qed.

(** An integer literal out of the range of [int] is cut to 32 bits, a hexadecimal
    one becomes the largest [int]. *)
Theorem literal_out_of_range :
  run "x = 4294967301" [] = Ret true /\ run "x < 0xFFFFFFFF" [] = Ret true /\ run "big = 0xFFFFFFFF" [] = Ret false
  /\ run "big > 0xFFFFFFFF" [] = Ret true /\ run "big = 705032704" [] = Ret false /\ run "big = 5000000000" [] = Ret false.
Proof. vm_compute. split_and!; reflexivity. Qed.

(** A parameter that is no number, or out of range, is compared as if it were one:
    the empty string is zero, a sign is zero, and too large a number the limit of
    the type. *)
Theorem parameter_not_a_number :
  run "x > %0" [""]%string = Ret true /\ run "x > %0" ["-"]%string = Ret true
  /\ run "x < %0" ["99999999999"]%string = Ret true /\ run "x > %0" ["abc"]%string = Throw.
Proof. vm_compute. split_and!; reflexivity. Qed.

(** The index of a parameter is not checked. *)
Theorem parameter_index_unchecked : run "x > %7" ["3"]%string = UB.
Proof. vm_compute. reflexivity. Qed.

(** A number with an exponent and no point is not accepted, nor is white space
    before the expression. *)
Theorem exponent_without_point_rejected :
  run "x < 1e5" [] = Throw /\ run "x < 1.e5" [] <> Throw /\ run " x = 5" [] = Throw.
Proof. vm_compute. split_and!; (reflexivity || discriminate). Qed.

(** A character above 127 indexes the tables of the character sets out of range. *)
Theorem non_ascii_undefined :
  run_text (chars "name = '" ++ ["195"; "169"]%char ++ chars "'") [] = UB.
Proof. vm_compute. reflexivity. Qed.

End FilterProps.
