(* ===== verification/ContentFilters.v ===== *)
(** * Content-filtered topics and the filters of a participant
    (dds/DCPS/ContentFilteredTopicImpl.{h,cpp}, QueryConditionImpl.{h,cpp}, the
    filter cache of DomainParticipantImpl.cpp and [ReaderInfo] and [filter_out] of
    DataWriterImpl.cpp)

    The evaluators a data writer uses for its readers are shared: the participant
    keeps one per expression, with a reference count, and drops it with the last
    reader.  An evaluator is an object of a heap with the count of the handles on
    it; a handle is the number of an object.  Each operation takes the lock of the
    cache once, so that the interleavings of threads are the sequences of these
    operations. *)

From Stdlib Require Import Ascii.
From S2P Require Import Prelude MessageBlock SequenceNumber Serializer Yard FilterExpressionGrammar FilterValue FilterEvaluator FilterTree FilterSyntax FilterTyping FilterProps.

Module ContentFilters.
Import MessageBlock Serializer Yard FilterExpressionGrammar FilterValue FilterEvaluator FilterSyntax FilterProps.

Section ContentFilters.
Context `{FloatOps} (wild_match : text -> text -> bool).

(** ** ContentFilteredTopicImpl *)

Record ContentFilteredTopic := mkCFT {
  filter_expression_ : text; filter_eval_ : FilterEvaluator;
  expression_parameters_ : list text; readers_ : list nat }.

Definition new_ContentFilteredTopic (filter_expression : text) (expression_parameters : list text) :
    outcome ContentFilteredTopic :=
  fe ← new_FilterEvaluator filter_expression false;
  Ret (mkCFT filter_expression fe expression_parameters []).

Definition get_filter_expression (t : ContentFilteredTopic) : text := filter_expression_ t.
Definition get_expression_parameters (t : ContentFilteredTopic) : list text := expression_parameters_ t.

(** The second result are the readers whose subscription is updated, in order. *)
Definition set_expression_parameters (t : ContentFilteredTopic) (p : list text) : ContentFilteredTopic * list nat :=
  if (length p =? length (expression_parameters_ t))%nat
     && forallb (fun xy => bool_decide (xy.1 = xy.2)) (zip p (expression_parameters_ t))
  then (t, [])
  else (mkCFT (filter_expression_ t) (filter_eval_ t) p (readers_ t), readers_ t).

Definition add_reader (t : ContentFilteredTopic) (reader : nat) : ContentFilteredTopic :=
  mkCFT (filter_expression_ t) (filter_eval_ t) (expression_parameters_ t) (readers_ t ++ [reader]).

Definition remove_reader (t : ContentFilteredTopic) (reader : nat) : ContentFilteredTopic :=
  mkCFT (filter_expression_ t) (filter_eval_ t) (expression_parameters_ t)
    (List.filter (fun r => negb (r =? reader)%nat) (readers_ t)).

Definition cft_filter (t : ContentFilteredTopic) (getValue : text -> outcome Value) : outcome bool :=
  eval_deserialized wild_match (filter_eval_ t) getValue (expression_parameters_ t).

(** ** QueryConditionImpl *)

Record QueryCondition := mkQC { query_expression_ : text; query_parameters_ : list text; evaluator_ : FilterEvaluator }.

Definition new_QueryCondition (query_expression : text) (query_parameters : list text) : outcome QueryCondition :=
  fe ← new_FilterEvaluator query_expression true; Ret (mkQC query_expression query_parameters fe).

Definition get_query_parameters (q : QueryCondition) : list text := query_parameters_ q.
Definition set_query_parameters (q : QueryCondition) (p : list text) : QueryCondition :=
  mkQC (query_expression_ q) p (evaluator_ q).

Definition qc_filter (q : QueryCondition) (getValue : text -> outcome Value) : outcome bool :=
  eval_deserialized wild_match (evaluator_ q) getValue (query_parameters_ q).

(** The two tests of the reader are arguments: whether a sample with the states of
    the condition passes the filter, and whether there is one at all. *)
Definition get_trigger_value (q : QueryCondition)
    (contains_sample_filtered : FilterEvaluator -> list text -> bool) (contains_sample : bool) : bool :=
  if hasFilter (evaluator_ q) then contains_sample_filtered (evaluator_ q) (query_parameters_ q) else contains_sample.

(** ** The filter cache *)

(** [filter_cache_] maps an expression to a handle, which may be null; the heap has
    each evaluator with its reference count. *)
Record Filters := mkFilters {
  filter_cache_ : gmap text (option nat);
  objects : gmap nat (FilterEvaluator * Z) }.

Definition no_filters : Filters := mkFilters ∅ ∅.

Definition _add_ref (id : nat) (s : Filters) : Filters :=
  mkFilters (filter_cache_ s) (alter (fun x => (x.1, x.2 + 1)) id (objects s)).

(** The object is deleted with its last reference. *)
Definition _remove_ref (id : nat) (s : Filters) : Filters :=
  match objects s !! id with
  | Some (fe, n) =>
      mkFilters (filter_cache_ s) (if n - 1 =? 0 then delete id (objects s) else <[id := (fe, n - 1)]> (objects s))
  | None => s
  end.

(** [return filter_cache_[filter] = new FilterEvaluator(filter, false);] the order in
    which the element is made and the evaluator is constructed is not specified:
    [element_first] is the choice of the compiler.  [id] is the address of the new
    object.  The state is that after an exception, too. *)
Definition get_filter_eval (element_first : bool) (id : nat) (filter : text) (s : Filters) :
    Filters * outcome (option nat) :=
  match filter_cache_ s !! filter with
  | None =>
      match new_FilterEvaluator filter false with
      | Ret fe =>
          let s := mkFilters (<[filter := Some id]> (filter_cache_ s)) (<[id := (fe, 1)]> (objects s)) in
          (_add_ref id s, Ret (Some id))
      | Throw =>
          (if element_first then mkFilters (<[filter := None]> (filter_cache_ s)) (objects s) else s, Throw)
      | UB => (s, UB)
      | Fuel => (s, Fuel)
      end
  | Some (Some h) => (_add_ref h s, Ret (Some h))
  | Some None => (s, Ret None)
  end.

Definition deref_filter_eval (filter : text) (s : Filters) : outcome Filters :=
  match filter_cache_ s !! filter with
  | None => Ret s
  | Some None => UB
  | Some (Some h) =>
      '(_, n) ← deref (objects s !! h);
      if n =? 1 then Ret (_remove_ref h (mkFilters (delete filter (filter_cache_ s)) (objects s))) else Ret s
  end.

(** [ReaderInfo]: the filter of a reader, its parameters and the handle. *)
Record ReaderInfo := mkReaderInfo { filter_ : text; expression_params_ : list text; eval_ : option nat }.

Definition new_ReaderInfo (element_first : bool) (id : nat) (filter : text) (params : list text) (s : Filters) :
    Filters * outcome ReaderInfo :=
  if bool_decide (filter = []) then (s, Ret (mkReaderInfo filter params None))
  else
    let '(s, r) := get_filter_eval element_first id filter s in
    (s, h ← r; Ret (mkReaderInfo filter params h)).

(** The copy of a [ReaderInfo] copies the handle. *)
Definition copy_ReaderInfo (i : ReaderInfo) (s : Filters) : Filters :=
  match eval_ i with Some h => _add_ref h s | None => s end.

(** The two steps of [~ReaderInfo]. *)
Definition release_eval (i : ReaderInfo) (s : Filters) : Filters :=
  match eval_ i with Some h => _remove_ref h s | None => s end.
Definition forget_filter (i : ReaderInfo) (s : Filters) : outcome Filters :=
  if bool_decide (filter_ i = []) then Ret s else deref_filter_eval (filter_ i) s.

(** [DataWriterImpl::filter_out]: [metaStruct] is the type support, null when the
    cast of it fails; [sample] is the payload of the element. *)
Definition filter_out {MB : Type} `{MessageBlock MB} (metaStruct : option (@Serializer MB -> text -> outcome Value))
    (sample : list MB) (swap cdr : bool) (evaluator : FilterEvaluator) (params : list text) : outcome bool :=
  match metaStruct with
  | None => Ret false
  | Some getValue => b ← eval_serialized wild_match evaluator getValue sample swap cdr params; Ret (negb b)
  end.

(** ** Runs *)

(** The cache, the live [ReaderInfo]s, and those that have released their handle
    but not yet called [deref_filter_eval]. *)
Record world := mkWorld { filters : Filters; infos : list ReaderInfo; leaving : list ReaderInfo }.

(** The order in which the element of the cache and the evaluator are made
    ([element_first]) is up to the compiler; [rejections] is whether readers come
    with expressions that are not accepted. *)
Inductive step (element_first rejections : bool) : world -> world -> Prop :=
| step_new w id filter params s i :
    objects (filters w) !! id = None -> filter <> [] ->
    new_ReaderInfo element_first id filter params (filters w) = (s, Ret i) ->
    step element_first rejections w (mkWorld s (i :: infos w) (leaving w))
| step_new_throws w id filter params s :
    rejections = true -> objects (filters w) !! id = None -> filter <> [] ->
    new_ReaderInfo element_first id filter params (filters w) = (s, Throw) ->
    step element_first rejections w (mkWorld s (infos w) (leaving w))
| step_copy w i :
    i ∈ infos w -> step element_first rejections w (mkWorld (copy_ReaderInfo i (filters w)) (i :: infos w) (leaving w))
| step_release w l1 i l2 :
    infos w = l1 ++ i :: l2 ->
    step element_first rejections w (mkWorld (release_eval i (filters w)) (l1 ++ l2) (i :: leaving w))
| step_forget w l1 i l2 s :
    leaving w = l1 ++ i :: l2 -> forget_filter i (filters w) = Ret s ->
    step element_first rejections w (mkWorld s (infos w) (l1 ++ l2)).

Definition idle_world : world := mkWorld no_filters [] [].

(** The handles on an evaluator that [ReaderInfo]s hold. *)
Fixpoint uses (h : nat) (l : list ReaderInfo) : Z :=
  match l with
  | [] => 0
  | i :: l' => (if bool_decide (eval_ i = Some h) then 1 else 0) + uses h l'
  end.

(** *** The invariant *)

Record shared (w : world) : Prop := {
  (** An entry of the cache is the evaluator of its expression, with a reference
      of the cache and one of each [ReaderInfo] that uses it. *)
  sh_cached : forall f e, filter_cache_ (filters w) !! f = Some e ->
    exists h fe, e = Some h /\ new_FilterEvaluator f false = Ret fe
      /\ objects (filters w) !! h = Some (fe, 1 + uses h (infos w));
  (** A [ReaderInfo] uses the entry of its filter. *)
  sh_infos : forall i, i ∈ infos w ->
    exists h, eval_ i = Some h /\ filter_cache_ (filters w) !! filter_ i = Some (Some h);
  sh_inj : forall f g h, filter_cache_ (filters w) !! f = Some (Some h) ->
    filter_cache_ (filters w) !! g = Some (Some h) -> f = g;
  sh_objects : forall h x, objects (filters w) !! h = Some x ->
    exists f, filter_cache_ (filters w) !! f = Some (Some h);
  (** An entry that is not used is about to be removed. *)
  sh_leaving : forall f h, filter_cache_ (filters w) !! f = Some (Some h) -> uses h (infos w) = 0 ->
    exists i, i ∈ leaving w /\ filter_ i = f;
  sh_named : forall i, i ∈ infos w \/ i ∈ leaving w -> filter_ i <> [] }.

Lemma uses_nonneg h l : 0 <= uses h l.
Proof. induction l as [|i l IH]; cbn [uses]; [done|]. case_bool_decide; lia. Qed.

Lemma uses_app h l1 l2 : uses h (l1 ++ l2) = uses h l1 + uses h l2.
Proof. induction l1 as [|i l1 IH]; cbn [uses app]; [done|]. rewrite IH. lia. Qed.

Lemma uses_cons_ne h i l : eval_ i <> Some h -> uses h (i :: l) = uses h l.
Proof. intros Hne. cbn [uses]. by rewrite bool_decide_false. Qed.

Lemma uses_cons_eq h i l : eval_ i = Some h -> uses h (i :: l) = 1 + uses h l.
Proof. intros E. cbn [uses]. by rewrite bool_decide_true. Qed.

Lemma uses_zero h l : (forall i, i ∈ l -> eval_ i <> Some h) -> uses h l = 0.
Proof.
  induction l as [|i l IH]; intros Hl; [done|]. rewrite uses_cons_ne by (apply Hl; by left).
  apply IH. intros j Hj. apply Hl. by right.
Qed.

Lemma idle_shared : shared idle_world.
Proof. by split; cbn; intros *; try rewrite lookup_empty; try done; intros [Hi|Hi]%or_comm || intros Hi; inversion Hi. Qed.

(** A new handle on an evaluator of the cache, for a [ReaderInfo] of its filter. *)
Lemma shared_add w i h : shared w -> filter_ i <> [] -> eval_ i = Some h ->
  filter_cache_ (filters w) !! filter_ i = Some (Some h) ->
  shared (mkWorld (_add_ref h (filters w)) (i :: infos w) (leaving w)).
Proof.
  intros Hw Hn Eh Hf. split; cbn [filters infos leaving _add_ref filter_cache_ objects].
  - intros f e He. destruct (sh_cached w Hw f e He) as (h' & fe & -> & Hfe & Ho). exists h', fe. split_and!; [done..|].
    destruct (decide (h = h')) as [<-|Hne].
    + rewrite lookup_alter_eq, Ho. rewrite uses_cons_eq by done. cbn. do 2 f_equal. lia.
    + rewrite lookup_alter_ne by done. rewrite uses_cons_ne by congruence. done.
  - intros j [->|Hj]%elem_of_cons; [by exists h|]. by apply (sh_infos w Hw).
  - apply (sh_inj w Hw).
  - intros h' x. destruct (decide (h = h')) as [<-|Hne]; [by eauto|]. rewrite lookup_alter_ne by done.
    apply (sh_objects w Hw).
  - intros f h' Hf' Hu. destruct (decide (h = h')) as [<-|Hne].
    + rewrite uses_cons_eq in Hu by done. pose proof (uses_nonneg h (infos w)). lia.
    + rewrite uses_cons_ne in Hu by congruence. by apply (sh_leaving w Hw f h').
  - intros j [[->|Hj]%elem_of_cons|Hj]; [done|apply (sh_named w Hw); by left|apply (sh_named w Hw); by right].
Qed.

(** A filter that is not in the cache, compiled for a new [ReaderInfo]. *)
Lemma shared_insert w i id fe : shared w -> filter_ i <> [] -> eval_ i = Some id ->
  filter_cache_ (filters w) !! filter_ i = None -> objects (filters w) !! id = None ->
  new_FilterEvaluator (filter_ i) false = Ret fe ->
  shared (mkWorld (_add_ref id (mkFilters (<[filter_ i := Some id]> (filter_cache_ (filters w)))
    (<[id := (fe, 1)]> (objects (filters w))))) (i :: infos w) (leaving w)).
Proof.
  intros Hw Hn Eh Hf Hid Hfe.
  assert (Hfresh : forall g, filter_cache_ (filters w) !! g <> Some (Some id)).
  { intros g Hg. destruct (sh_cached w Hw g _ Hg) as (h & fe' & [= <-] & _ & Ho). congruence. }
  assert (Hu : uses id (infos w) = 0).
  { apply uses_zero. intros j Hj E. destruct (sh_infos w Hw j Hj) as (h & E' & Hg).
    rewrite E in E'. injection E' as <-. by apply (Hfresh (filter_ j)). }
  split; cbn [filters infos leaving _add_ref filter_cache_ objects].
  - intros f e. rewrite lookup_insert_Some. intros [[<- <-]|[Hne He]].
    + exists id, fe. split_and!; [done..|]. rewrite lookup_alter_eq, lookup_insert_eq, uses_cons_eq, Hu by done. done.
    + destruct (sh_cached w Hw f e He) as (h' & fe' & -> & Hfe' & Ho). exists h', fe'. split_and!; [done..|].
      assert (id <> h') by (intros ->; by apply (Hfresh f)).
      rewrite lookup_alter_ne, lookup_insert_ne, uses_cons_ne by congruence. done.
  - intros j [->|Hj]%elem_of_cons; [exists id; split; [done|apply lookup_insert_eq]|].
    destruct (sh_infos w Hw j Hj) as (h & E & Hg). exists h. split; [done|].
    rewrite lookup_insert_ne; [done|]. intros Ef. by rewrite Ef, Hg in Hf.
  - intros f g h. rewrite !lookup_insert_Some. intros [[<- [= <-]]|[_ H1]] [[<- E]|[_ H2]]; try done.
    + by destruct (Hfresh g).
    + injection E as <-. by destruct (Hfresh f).
    + by apply (sh_inj w Hw f g h).
  - intros h x. destruct (decide (id = h)) as [<-|Hne].
    + intros _. exists (filter_ i). apply lookup_insert_eq.
    + rewrite lookup_alter_ne, lookup_insert_ne by done. intros Ho. destruct (sh_objects w Hw h x Ho) as (f & Hg).
      exists f. rewrite lookup_insert_ne; [done|]. intros Ef. by rewrite Ef, Hg in Hf.
  - intros f h. rewrite lookup_insert_Some. intros [[<- [= <-]]|[Hne Hg]] Hu'.
    + rewrite uses_cons_eq, Hu in Hu' by done. lia.
    + assert (id <> h) by (intros ->; by apply (Hfresh f)). rewrite uses_cons_ne in Hu' by congruence.
      by apply (sh_leaving w Hw f h).
  - intros j [[->|Hj]%elem_of_cons|Hj]; [done|apply (sh_named w Hw); by left|apply (sh_named w Hw); by right].
Qed.

Lemma shared_release w l1 i l2 : shared w -> infos w = l1 ++ i :: l2 ->
  shared (mkWorld (release_eval i (filters w)) (l1 ++ l2) (i :: leaving w)).
Proof.
  intros Hw E. assert (Hi : i ∈ infos w) by (rewrite E; set_solver).
  destruct (sh_infos w Hw i Hi) as (h & Eh & Hf). destruct (sh_cached w Hw _ _ Hf) as (h' & fe & [= <-] & Hfe & Ho).
  assert (Hu : uses h (infos w) = 1 + uses h (l1 ++ l2)) by (rewrite E, !uses_app, uses_cons_eq by done; lia).
  pose proof (uses_nonneg h (l1 ++ l2)).
  assert (Hs : release_eval i (filters w) = mkFilters (filter_cache_ (filters w))
    (<[h := (fe, 1 + uses h (l1 ++ l2))]> (objects (filters w)))).
  { unfold release_eval, _remove_ref. rewrite Eh, Ho. destruct (Z.eqb_spec (1 + uses h (infos w) - 1) 0); [lia|].
    do 3 f_equal. lia. }
  assert (Hne_uses : forall h', h <> h' -> uses h' (infos w) = uses h' (l1 ++ l2)).
  { intros h' Hne. rewrite E, !uses_app, uses_cons_ne by congruence. done. }
  rewrite Hs. split; cbn [filters infos leaving filter_cache_ objects].
  - intros f e He. destruct (sh_cached w Hw f e He) as (h' & fe' & -> & Hfe' & Ho'). exists h', fe'. split_and!; [done..|].
    destruct (decide (h = h')) as [<-|Hne].
    + rewrite lookup_insert_eq. rewrite Ho in Ho'. injection Ho' as <-. done.
    + rewrite lookup_insert_ne, <- Hne_uses by done. done.
  - intros j Hj. apply (sh_infos w Hw). rewrite E. set_solver.
  - apply (sh_inj w Hw).
  - intros h' x. rewrite lookup_insert_Some. intros [[<- _]|[_ Hx]]; [eauto|]. by apply (sh_objects w Hw h' x).
  - intros f h' Hf' Hu'. destruct (decide (h = h')) as [<-|Hne].
    + exists i. split; [by left|]. by apply (sh_inj w Hw _ _ h).
    + rewrite <- Hne_uses in Hu' by done. destruct (sh_leaving w Hw f h' Hf' Hu') as (j & Hj & Ej).
      exists j. split; [by right|done].
  - intros j [Hj|[->|Hj]%elem_of_cons]; apply (sh_named w Hw); [left; rewrite E; set_solver|by left|by right].
Qed.

(** [deref_filter_eval] returns, and removes an entry that is not used. *)
Lemma forget_shared w l1 i l2 : shared w -> leaving w = l1 ++ i :: l2 ->
  exists s, forget_filter i (filters w) = Ret s /\ shared (mkWorld s (infos w) (l1 ++ l2)).
Proof.
  intros Hw E. assert (Hi : i ∈ leaving w) by (rewrite E; set_solver).
  pose proof (sh_named w Hw i (or_intror Hi)) as Hn.
  assert (Hkeep : (forall h, filter_cache_ (filters w) !! filter_ i = Some (Some h) -> uses h (infos w) <> 0) ->
    shared (mkWorld (filters w) (infos w) (l1 ++ l2))).
  { intros Hk. split; cbn [filters infos leaving]; try apply Hw.
    - intros f h Hf Hu. destruct (sh_leaving w Hw f h Hf Hu) as (j & Hj & Ej). rewrite E in Hj.
      apply elem_of_app in Hj as [Hj|[->|Hj]%elem_of_cons]; [exists j; set_solver| |exists j; set_solver].
      subst f. by destruct (Hk h).
    - intros j [Hj|Hj]; apply (sh_named w Hw); [by left|]. right. rewrite E. set_solver. }
  unfold forget_filter, deref_filter_eval. rewrite bool_decide_false by done.
  destruct (filter_cache_ (filters w) !! filter_ i) as [e|] eqn:Hf.
  2:{ eexists. split; [done|]. by apply Hkeep. }
  destruct (sh_cached w Hw _ _ Hf) as (h & fe & -> & Hfe & Ho). rewrite Ho. cbn [deref mbind outcome_bind].
  destruct (Z.eqb_spec (1 + uses h (infos w)) 1) as [Hu|Hu].
  2:{ eexists. split; [done|]. apply Hkeep. intros h' [= <-]. lia. }
  assert (Hu0 : uses h (infos w) = 0) by lia.
  eexists. split; [done|]. unfold _remove_ref. cbn [objects filter_cache_]. rewrite Ho, Hu0. change (1 + 0 - 1 =? 0) with true. cbv iota.
  assert (Hother : forall f h', delete (filter_ i) (filter_cache_ (filters w)) !! f = Some (Some h') -> h <> h').
  { intros f h' [Hne Hg]%lookup_delete_Some <-. by apply Hne, (sh_inj w Hw _ _ h). }
  split; cbn [filters infos leaving filter_cache_ objects].
  - intros f e He. pose proof He as [Hne Hg]%lookup_delete_Some.
    destruct (sh_cached w Hw f e Hg) as (h' & fe' & -> & Hfe' & Ho'). exists h', fe'. split_and!; [done..|].
    rewrite lookup_delete_ne; [done|]. by apply (Hother f).
  - intros j Hj. destruct (sh_infos w Hw j Hj) as (h' & Ej & Hg). exists h'. split; [done|].
    rewrite lookup_delete_ne; [done|]. intros Ef. rewrite Ef, Hg in Hf. injection Hf as ->.
    assert (0 < uses h (infos w)); [|lia]. clear - Hj Ej. induction (infos w) as [|k l IH]; [by inversion Hj|].
    pose proof (uses_nonneg h l). apply elem_of_cons in Hj as [<-|Hj]; [rewrite uses_cons_eq by done; lia|].
    specialize (IH Hj). cbn [uses]. case_bool_decide; lia.
  - intros f g h' [_ H1]%lookup_delete_Some [_ H2]%lookup_delete_Some. by apply (sh_inj w Hw f g h').
  - intros h' x [Hne Hx]%lookup_delete_Some. destruct (sh_objects w Hw h' x Hx) as (f & Hg). exists f.
    rewrite lookup_delete_ne; [done|]. intros Ef. rewrite Ef, Hg in Hf. congruence.
  - intros f h' [Hne Hg]%lookup_delete_Some Hu'. destruct (sh_leaving w Hw f h' Hg Hu') as (j & Hj & Ej). rewrite E in Hj.
    apply elem_of_app in Hj as [Hj|[->|Hj]%elem_of_cons]; [exists j; set_solver|done|exists j; set_solver].
  - intros j [Hj|Hj]; apply (sh_named w Hw); [by left|]. right. rewrite E. set_solver.
Qed.

Lemma step_shared ef rj w w' : ef && rj = false -> shared w -> step ef rj w w' -> shared w'.
Proof.
  intros Hfr Hw Hs. destruct Hs as [w id f params s i Hid Hf Hnew|w id f params s -> Hid Hf Hnew|w i Hi|w l1 i l2 E|w l1 i l2 s E Hfg].
  - unfold new_ReaderInfo in Hnew. rewrite bool_decide_false in Hnew by done. unfold get_filter_eval in Hnew.
    destruct (filter_cache_ (filters w) !! f) as [[h|]|] eqn:Hc.
    + injection Hnew as <- <-. by apply (shared_add w (mkReaderInfo f params (Some h)) h).
    + destruct (sh_cached w Hw f _ Hc) as (h & fe & [=] & _).
    + destruct (new_FilterEvaluator f false) as [fe| | |] eqn:Hfe; try done. injection Hnew as <- <-.
      by apply (shared_insert w (mkReaderInfo f params (Some id)) id fe).
  - unfold new_ReaderInfo in Hnew. rewrite bool_decide_false in Hnew by done. unfold get_filter_eval in Hnew.
    destruct (filter_cache_ (filters w) !! f) as [[h|]|] eqn:Hc; try done.
    destruct (new_FilterEvaluator f false) as [fe| | |] eqn:Hfe; try done. rewrite andb_true_r in Hfr. subst ef. injection Hnew as <-.
    by destruct w.
  - unfold copy_ReaderInfo. destruct (sh_infos w Hw i Hi) as (h & Eh & Hf). rewrite Eh.
    apply shared_add; [done| |done|done]. apply (sh_named w Hw). by left.
  - by apply shared_release.
  - destruct (forget_shared w l1 i l2 Hw E) as (s' & Hs' & Hsh). rewrite Hfg in Hs'. by injection Hs' as <-.
Qed.

Lemma run_shared ef rj w : ef && rj = false -> rtc (step ef rj) idle_world w -> shared w.
Proof.
  intros Hfr Hr. assert (Hgen : forall w0, shared w0 -> rtc (step ef rj) w0 w -> shared w); [|by apply (Hgen _ idle_shared)].
  clear -Hfr. intros w0 H0 Hr. induction Hr as [|x y z Hxy _ IH]; [done|]. by apply IH, (step_shared ef rj x).
Qed.

(** C15: In every run of readers that come and go, in which no reader comes with an
    expression that is not accepted, or the compiler constructs the evaluator before
    the element of the cache (C++ leaves the order open), readers with the same
    filter share one evaluator, that of their expression, with one reference for each
    of them and one for the cache; removing a reader never meets a null entry; and
    when the last reader has gone neither the cache nor the heap keeps anything. *)
Theorem filters_shared ef rj w : ef && rj = false -> rtc (step ef rj) idle_world w ->
  (forall i, i ∈ infos w -> exists h fe, eval_ i = Some h /\ new_FilterEvaluator (filter_ i) false = Ret fe
     /\ objects (filters w) !! h = Some (fe, 1 + uses h (infos w)))
  /\ (forall i j, i ∈ infos w -> j ∈ infos w -> filter_ i = filter_ j -> eval_ i = eval_ j)
  /\ (forall l1 i l2, leaving w = l1 ++ i :: l2 -> exists s, forget_filter i (filters w) = Ret s)
  /\ (infos w = [] -> leaving w = [] -> filters w = no_filters).
Proof.
  intros Hfr Hr. pose proof (run_shared ef rj w Hfr Hr) as Hw. split_and!.
  - intros i Hi. destruct (sh_infos w Hw i Hi) as (h & Eh & Hf).
    destruct (sh_cached w Hw _ _ Hf) as (h' & fe & [= <-] & Hfe & Ho). by exists h, fe.
  - intros i j Hi Hj E. destruct (sh_infos w Hw i Hi) as (h & -> & Hf), (sh_infos w Hw j Hj) as (h' & -> & Hf').
    rewrite E, Hf' in Hf. congruence.
  - intros l1 i l2 E. destruct (forget_shared w l1 i l2 Hw E) as (s & Hs & _). by exists s.
  - intros Ei El. destruct w as [[cache objs] il ll]. cbn in *. subst il ll.
    assert (Hc : cache = ∅).
    { apply map_empty. intros f. destruct (cache !! f) as [e|] eqn:He; [|done].
      destruct (sh_cached _ Hw f e He) as (h & fe & -> & _). destruct (sh_leaving _ Hw f h He eq_refl) as (i & Hi & _).
      by inversion Hi. }
    assert (Ho : objs = ∅).
    { apply map_empty. intros h. destruct (objs !! h) as [x|] eqn:Hx; [|done].
      destruct (sh_objects _ Hw h x Hx) as (f & Hf). cbn in Hf. by rewrite Hc, lookup_empty in Hf. }
    by rewrite Hc, Ho.
Qed.

(** When the element of the cache is made first, an expression that is not accepted
    leaves a null entry: the next reader with it has no filter, and removing that
    reader dereferences null. *)
Theorem null_filter_cached id id' f params s : f <> [] -> new_FilterEvaluator f false = Throw ->
  filter_cache_ s !! f = None ->
  let '(s1, r1) := new_ReaderInfo true id f params s in
  let '(s2, r2) := new_ReaderInfo true id' f params s1 in
  r1 = Throw /\ r2 = Ret (mkReaderInfo f params None) /\ forget_filter (mkReaderInfo f params None) s2 = UB.
Proof.
  intros Hf Hn Hs. unfold new_ReaderInfo. rewrite bool_decide_false by done. unfold get_filter_eval at 1.
  rewrite Hs, Hn. unfold get_filter_eval. cbn [filter_cache_]. rewrite lookup_insert_eq.
  split_and!; [done..|]. unfold forget_filter, deref_filter_eval. cbn [filter_ filter_cache_].
  by rewrite bool_decide_false, lookup_insert_eq.
Qed.

(** New parameters take effect, and the subscription of every reader is updated,
    unless they are the ones already there. *)
Theorem set_parameters_correct t p :
  let '(t', updated) := set_expression_parameters t p in
  t' = mkCFT (filter_expression_ t) (filter_eval_ t) p (readers_ t)
  /\ updated = if bool_decide (p = expression_parameters_ t) then [] else readers_ t.
Proof.
  unfold set_expression_parameters.
  assert (Heq : (length p =? length (expression_parameters_ t))%nat
     && forallb (fun xy => bool_decide (xy.1 = xy.2)) (zip p (expression_parameters_ t))
    = bool_decide (p = expression_parameters_ t)).
  { generalize (expression_parameters_ t) as q. induction p as [|x p IH]; intros [|y q]; try done.
    cbn [length zip zip_with forallb Nat.eqb fst snd]. specialize (IH q). cbn [zip] in IH.
    destruct (decide (x = y)) as [->|Hx].
    - rewrite (bool_decide_true (y = y)) by done. cbn [andb]. rewrite IH. apply bool_decide_ext. naive_solver.
    - rewrite (bool_decide_false (x = y)), andb_false_r by done. symmetry. apply bool_decide_eq_false. naive_solver. }
  rewrite Heq. case_bool_decide as E; [|done]. split; [|done]. destruct t. cbn in *. by subst.
Qed.

End ContentFilters.

(** Two readers with the same filter, the first of which leaves. *)
Lemma filters_shared_witness :
  exists w : @world int_floats, rtc (step true false) idle_world w /\ length (infos w) = 1%nat
    /\ forall i, i ∈ infos w -> exists h fe, eval_ i = Some h
         /\ @FilterEvaluator.new_FilterEvaluator int_floats (filter_ i) false = Ret fe
         /\ objects (filters w) !! h = Some (fe, 1 + uses h (infos w)).
Proof.
  set (f := expr_text (chars " ") (EAtom (APred x_is_5))).
  assert (Hfe : @FilterEvaluator.new_FilterEvaluator int_floats f false = Ret (mkFE (Some (expr_tree (EAtom (APred x_is_5)))) [])).
  { apply expr_constructed; [by split; [done|repeat constructor]|exact x_is_5_ok]. }
  assert (Hw : exists w : @world int_floats, rtc (step true false) idle_world w /\ length (infos w) = 1%nat).
  { eexists. split.
    - eapply rtc_l; [eapply (step_new true false idle_world 0 f []); [reflexivity|discriminate|]|].
      { unfold new_ReaderInfo, get_filter_eval. cbn [bool_decide]. rewrite bool_decide_false by discriminate.
        cbn [idle_world filters no_filters filter_cache_]. rewrite lookup_empty, Hfe. reflexivity. }
      eapply rtc_l; [eapply step_copy; cbn [infos]; left|].
      eapply rtc_l; [eapply (step_release true false _ []); reflexivity|]. apply rtc_refl.
    - reflexivity. }
  destruct Hw as (w & Hr & Hl). exists w. split; [exact Hr|]. split; [exact Hl|].
  exact (proj1 (@filters_shared int_floats true false w eq_refl Hr)).
Defined.

End ContentFilters.
