(* ===== verification/InfoRepo.v ===== *)
(** * The information repository: who is associated with whom

    src/dds/InfoRepo: the participants, topics, publications and subscriptions a
    domain holds (DCPS_IR_Domain, DCPS_IR_Participant, DCPS_IR_Topic,
    DCPS_IR_Topic_Description, DCPS_IR_Publication, DCPS_IR_Subscription .cpp) and
    the operations a client calls (DCPSInfo_i.cpp).

    An object is in a heap until it is deleted; a pointer is the RepoId of its
    object (a number for a topic description), so that the use of a deleted object
    is a lookup that fails, which is undefined behaviour.  A [std::map] of pointers
    is the list of its keys in their order; RepoIds are numbers in the order of
    [GUID_tKeyLessThan].  An [ACE_Unbounded_Set] is the list of its elements in the
    order of their insertion; its iterators do not see what is inserted behind the
    end they were compared with and stay valid when an element they have passed is
    removed.  A call to a remote writer or reader takes the next of the [answers_]:
    whether it returns or ends with a CORBA exception.  What is written to the
    built-in topics and pushed to other repositories is recorded with the calls. *)

From S2P Require Import Prelude Qos.

Module InfoRepo.

Definition RepoId : Type := Z.
Definition GUID_UNKNOWN : RepoId := 0.

(** ** Objects *)

(** The policies [compatibleQOS] reads, and a number for the others. *)
Record DataQos := mkDataQos { endpoint_qos : EndpointQos; other_policies : Z }.
Record EntityQos := mkEntityQos { group_qos : GroupQos; other_group_policies : Z }.

#[export] Instance Duration_eq : EqDecision Duration.
Proof. solve_decision. Defined.
#[export] Instance DurabilityKind_eq : EqDecision DurabilityKind.
Proof. solve_decision. Defined.
#[export] Instance AccessScopeKind_eq : EqDecision AccessScopeKind.
Proof. solve_decision. Defined.
#[export] Instance OwnershipKind_eq : EqDecision OwnershipKind.
Proof. solve_decision. Defined.
#[export] Instance LivelinessKind_eq : EqDecision LivelinessKind.
Proof. solve_decision. Defined.
#[export] Instance ReliabilityKind_eq : EqDecision ReliabilityKind.
Proof. solve_decision. Defined.
#[export] Instance EndpointQos_eq : EqDecision EndpointQos.
Proof. solve_decision. Defined.
#[export] Instance GroupQos_eq : EqDecision GroupQos.
Proof. solve_decision. Defined.
#[export] Instance DataQos_eq : EqDecision DataQos.
Proof. solve_decision. Defined.
#[export] Instance EntityQos_eq : EqDecision EntityQos.
Proof. solve_decision. Defined.

(** [DCPS_IR_Publication] and [DCPS_IR_Subscription] have the same members, but for
    the filter of a subscription; the [side] says which one a pointer is of. *)
Inductive side := Pub | Sub.

#[export] Instance side_eq : EqDecision side.
Proof. solve_decision. Defined.
#[export] Instance side_countable : Countable side.
Proof.
  refine (inj_countable' (fun s => match s with Pub => true | Sub => false end) (fun b => if b then Pub else Sub) _).
  by intros [].
Defined.

Definition other (sd : side) : side := match sd with Pub => Sub | Sub => Pub end.

Record Endpoint := mkEndpoint {
  participant_ : RepoId;
  topic_ : RepoId;
  qos_ : DataQos;
  info_ : list TransportLocator;
  entityQos_ : EntityQos;
  filterExpression_ : cstring;
  exprParams_ : list cstring;
  associations_ : list RepoId;
  defunct_ : list RepoId;
  incompatibleQosStatus_ : IncompatibleQosStatus }.

Record Participant := mkParticipant {
  aliveStatus_ : bool;
  owner_ : Z;
  isBitPublisher_ : bool;
  topicRefs_ : list RepoId;
  publications_ : list RepoId;
  subscriptions_ : list RepoId;
  ignoredParticipants_ : list RepoId;
  ignoredTopics_ : list RepoId;
  ignoredPublications_ : list RepoId;
  ignoredSubscriptions_ : list RepoId }.

Record Topic := mkTopic {
  creator_ : RepoId;
  description_ : nat;
  topic_data_ : Z;
  publicationRefs_ : list RepoId;
  topic_subscriptionRefs_ : list RepoId;
  removed_ : bool }.

Record Topic_Description := mkDescription {
  name_ : cstring;
  dataTypeName_ : cstring;
  subscriptionRefs_ : list RepoId;
  topics_ : list RepoId }.

(** Calls to the outside. *)
Inductive call :=
| add_association (sd : side) (e o : RepoId) (active : bool)
| remove_associations_call (sd : side) (e : RepoId) (os : list RepoId) (notify_lost : bool)
| association_complete_call (sd : side) (e o : RepoId)
| update_incompatible_qos_call (sd : side) (e : RepoId) (st : IncompatibleQosStatus)
| update_subscription_params_call (e o : RepoId) (params : list cstring)
| publish_bit (what : side + (RepoId + RepoId)) (id : RepoId)
| dispose_bit (what : side + (RepoId + RepoId)) (id : RepoId)
| um_create (id : RepoId)
| um_update (id : RepoId)
| um_destroy (id : RepoId).

Record Domain := mkDomain {
  endpoints : gmap (side * RepoId) Endpoint;
  participants : gmap RepoId Participant;
  topics : gmap RepoId Topic;
  descriptions : gmap nat Topic_Description;
  next_description : nat;
  participants_ : list RepoId;
  topicDescriptions_ : list nat;
  idToTopicMap_ : list RepoId;
  deadParticipants_ : list RepoId;
  answers_ : list bool;
  calls : list call }.

Definition empty_domain (answers : list bool) : Domain := mkDomain ∅ ∅ ∅ ∅ 0 [] [] [] [] answers [].

(** ** Operations: a state monad with exceptions

    An exception leaves the state as it is when it is thrown. *)

Inductive exception := CORBA_Exception | Invalid_Participant | Invalid_Topic | Invalid_Publication | Invalid_Subscription.

Definition repo (A : Type) : Type := Domain -> outcome ((A + exception) * Domain).

#[export] Instance repo_ret : MRet repo := fun A a d => Ret (inl a, d).
#[export] Instance repo_bind : MBind repo := fun A B k m d =>
  match m d with
  | Ret (inl a, d') => k a d'
  | Ret (inr e, d') => Ret (inr e, d')
  | Throw => Throw
  | UB => UB
  | Fuel => Fuel
  end.

Definition throw {A} (e : exception) : repo A := fun d => Ret (inr e, d).
Definition undefined {A} : repo A := fun _ => UB.
Definition no_fuel {A} : repo A := fun _ => Fuel.
Definition when (b : bool) (m : repo unit) : repo unit := if b then m else mret ().
Definition ignore {A} (m : repo A) : repo unit := _ ← m; mret ().

Fixpoint for_each {A} (l : list A) (f : A -> repo unit) : repo unit :=
  match l with
  | [] => mret ()
  | x :: l' => f x;; for_each l' f
  end.

(** The objects of a heap. *)
Record heap (K V : Type) `{Countable K} := mkHeap {
  objects : Domain -> gmap K V;
  set_objects : gmap K V -> Domain -> Domain }.
Arguments mkHeap {K V _ _} _ _.
Arguments objects {K V _ _} _ _.
Arguments set_objects {K V _ _} _ _ _.

Definition ends : heap (side * RepoId) Endpoint := mkHeap endpoints (fun m d =>
  mkDomain m (participants d) (topics d) (descriptions d) (next_description d) (participants_ d)
    (topicDescriptions_ d) (idToTopicMap_ d) (deadParticipants_ d) (answers_ d) (calls d)).
Definition parts : heap RepoId Participant := mkHeap participants (fun m d =>
  mkDomain (endpoints d) m (topics d) (descriptions d) (next_description d) (participants_ d)
    (topicDescriptions_ d) (idToTopicMap_ d) (deadParticipants_ d) (answers_ d) (calls d)).
Definition tops : heap RepoId Topic := mkHeap topics (fun m d =>
  mkDomain (endpoints d) (participants d) m (descriptions d) (next_description d) (participants_ d)
    (topicDescriptions_ d) (idToTopicMap_ d) (deadParticipants_ d) (answers_ d) (calls d)).
Definition descs : heap nat Topic_Description := mkHeap descriptions (fun m d =>
  mkDomain (endpoints d) (participants d) (topics d) m (next_description d) (participants_ d)
    (topicDescriptions_ d) (idToTopicMap_ d) (deadParticipants_ d) (answers_ d) (calls d)).

Definition load {K V} `{Countable K} (h : heap K V) (p : K) : repo V := fun d =>
  match objects h d !! p with Some v => Ret (inl v, d) | None => UB end.
Definition store {K V} `{Countable K} (h : heap K V) (p : K) (v : V) : repo unit := fun d =>
  Ret (inl (), set_objects h (<[p := v]> (objects h d)) d).
Definition free {K V} `{Countable K} (h : heap K V) (p : K) : repo unit := fun d =>
  Ret (inl (), set_objects h (delete p (objects h d)) d).
Definition modify {K V} `{Countable K} (h : heap K V) (p : K) (f : V -> V) : repo unit :=
  v ← load h p; store h p (f v).

Definition get : repo Domain := fun d => Ret (inl d, d).

(** Members that are neither heaps nor calls. *)
Definition set_participants_ (l : list RepoId) : repo unit := fun d => Ret (inl (),
  mkDomain (endpoints d) (participants d) (topics d) (descriptions d) (next_description d) l
    (topicDescriptions_ d) (idToTopicMap_ d) (deadParticipants_ d) (answers_ d) (calls d)).
Definition set_topicDescriptions_ (l : list nat) : repo unit := fun d => Ret (inl (),
  mkDomain (endpoints d) (participants d) (topics d) (descriptions d) (next_description d) (participants_ d)
    l (idToTopicMap_ d) (deadParticipants_ d) (answers_ d) (calls d)).
Definition set_idToTopicMap_ (l : list RepoId) : repo unit := fun d => Ret (inl (),
  mkDomain (endpoints d) (participants d) (topics d) (descriptions d) (next_description d) (participants_ d)
    (topicDescriptions_ d) l (deadParticipants_ d) (answers_ d) (calls d)).
Definition set_deadParticipants_ (l : list RepoId) : repo unit := fun d => Ret (inl (),
  mkDomain (endpoints d) (participants d) (topics d) (descriptions d) (next_description d) (participants_ d)
    (topicDescriptions_ d) (idToTopicMap_ d) l (answers_ d) (calls d)).

(** [new DCPS_IR_Topic_Description]. *)
Definition new_description (x : Topic_Description) : repo nat := fun d => Ret (inl (next_description d),
  mkDomain (endpoints d) (participants d) (topics d) (<[next_description d := x]> (descriptions d))
    (S (next_description d)) (participants_ d) (topicDescriptions_ d) (idToTopicMap_ d) (deadParticipants_ d)
    (answers_ d) (calls d)).

Definition tell (c : call) : repo unit := fun d => Ret (inl (),
  mkDomain (endpoints d) (participants d) (topics d) (descriptions d) (next_description d) (participants_ d)
    (topicDescriptions_ d) (idToTopicMap_ d) (deadParticipants_ d) (answers_ d) (calls d ++ [c])).

(** A remote call: [false] when it ends with a CORBA exception. *)
Definition remote (c : call) : repo bool := fun d => Ret (inl (default true (head (answers_ d))),
  mkDomain (endpoints d) (participants d) (topics d) (descriptions d) (next_description d) (participants_ d)
    (topicDescriptions_ d) (idToTopicMap_ d) (deadParticipants_ d) (tail (answers_ d)) (calls d ++ [c])).

(** [ACE_Unbounded_Set]: [insert], [remove] and the membership [find] tests; the
    keys of a [std::map] in their order. *)
Definition set_insert {A} `{EqDecision A} (x : A) (l : list A) : list A := if bool_decide (x ∈ l) then l else l ++ [x].
Definition set_remove {A} `{EqDecision A} (x : A) (l : list A) : list A := filter (fun y => y <> x) l.
Fixpoint map_insert (x : Z) (l : list Z) : list Z :=
  match l with
  | [] => [x]
  | y :: l' => if x <? y then x :: l else if x =? y then l else y :: map_insert x l'
  end.

(** ** Members of the objects *)

Definition with_associations (f : list RepoId -> list RepoId) (e : Endpoint) : Endpoint :=
  mkEndpoint (participant_ e) (topic_ e) (qos_ e) (info_ e) (entityQos_ e) (filterExpression_ e) (exprParams_ e)
    (f (associations_ e)) (defunct_ e) (incompatibleQosStatus_ e).
Definition with_defunct (f : list RepoId -> list RepoId) (e : Endpoint) : Endpoint :=
  mkEndpoint (participant_ e) (topic_ e) (qos_ e) (info_ e) (entityQos_ e) (filterExpression_ e) (exprParams_ e)
    (associations_ e) (f (defunct_ e)) (incompatibleQosStatus_ e).
Definition with_status (st : IncompatibleQosStatus) (e : Endpoint) : Endpoint :=
  mkEndpoint (participant_ e) (topic_ e) (qos_ e) (info_ e) (entityQos_ e) (filterExpression_ e) (exprParams_ e)
    (associations_ e) (defunct_ e) st.
Definition with_qos (q : DataQos) (g : EntityQos) (e : Endpoint) : Endpoint :=
  mkEndpoint (participant_ e) (topic_ e) q (info_ e) g (filterExpression_ e) (exprParams_ e)
    (associations_ e) (defunct_ e) (incompatibleQosStatus_ e).
Definition with_exprParams (p : list cstring) (e : Endpoint) : Endpoint :=
  mkEndpoint (participant_ e) (topic_ e) (qos_ e) (info_ e) (entityQos_ e) (filterExpression_ e) p
    (associations_ e) (defunct_ e) (incompatibleQosStatus_ e).

(** The lists of a participant. *)
Definition with_alive (b : bool) (p : Participant) : Participant :=
  mkParticipant b (owner_ p) (isBitPublisher_ p) (topicRefs_ p) (publications_ p) (subscriptions_ p)
    (ignoredParticipants_ p) (ignoredTopics_ p) (ignoredPublications_ p) (ignoredSubscriptions_ p).
Definition with_owner (o : Z) (p : Participant) : Participant :=
  mkParticipant (aliveStatus_ p) o (isBitPublisher_ p) (topicRefs_ p) (publications_ p) (subscriptions_ p)
    (ignoredParticipants_ p) (ignoredTopics_ p) (ignoredPublications_ p) (ignoredSubscriptions_ p).
Definition with_topicRefs (f : list RepoId -> list RepoId) (p : Participant) : Participant :=
  mkParticipant (aliveStatus_ p) (owner_ p) (isBitPublisher_ p) (f (topicRefs_ p)) (publications_ p) (subscriptions_ p)
    (ignoredParticipants_ p) (ignoredTopics_ p) (ignoredPublications_ p) (ignoredSubscriptions_ p).
Definition with_members (sd : side) (f : list RepoId -> list RepoId) (p : Participant) : Participant :=
  match sd with
  | Pub => mkParticipant (aliveStatus_ p) (owner_ p) (isBitPublisher_ p) (topicRefs_ p) (f (publications_ p)) (subscriptions_ p)
             (ignoredParticipants_ p) (ignoredTopics_ p) (ignoredPublications_ p) (ignoredSubscriptions_ p)
  | Sub => mkParticipant (aliveStatus_ p) (owner_ p) (isBitPublisher_ p) (topicRefs_ p) (publications_ p) (f (subscriptions_ p))
             (ignoredParticipants_ p) (ignoredTopics_ p) (ignoredPublications_ p) (ignoredSubscriptions_ p)
  end.
Definition members (sd : side) (p : Participant) : list RepoId :=
  match sd with Pub => publications_ p | Sub => subscriptions_ p end.

(** What a participant can ignore. *)
Inductive ignorable := a_participant | a_topic | a_publication | a_subscription.
Definition with_ignored (k : ignorable) (id : RepoId) (p : Participant) : Participant :=
  mkParticipant (aliveStatus_ p) (owner_ p) (isBitPublisher_ p) (topicRefs_ p) (publications_ p) (subscriptions_ p)
    (if k is a_participant then set_insert id (ignoredParticipants_ p) else ignoredParticipants_ p)
    (if k is a_topic then set_insert id (ignoredTopics_ p) else ignoredTopics_ p)
    (if k is a_publication then set_insert id (ignoredPublications_ p) else ignoredPublications_ p)
    (if k is a_subscription then set_insert id (ignoredSubscriptions_ p) else ignoredSubscriptions_ p).
Definition is_ignored (k : ignorable) (id : RepoId) (p : Participant) : bool :=
  bool_decide (id ∈ match k with
                    | a_participant => ignoredParticipants_ p
                    | a_topic => ignoredTopics_ p
                    | a_publication => ignoredPublications_ p
                    | a_subscription => ignoredSubscriptions_ p
                    end).
Definition endpoint_kind (sd : side) : ignorable := match sd with Pub => a_publication | Sub => a_subscription end.

Definition topic_refs (sd : side) (t : Topic) : list RepoId :=
  match sd with Pub => publicationRefs_ t | Sub => topic_subscriptionRefs_ t end.
Definition with_refs (sd : side) (f : list RepoId -> list RepoId) (t : Topic) : Topic :=
  match sd with
  | Pub => mkTopic (creator_ t) (description_ t) (topic_data_ t) (f (publicationRefs_ t)) (topic_subscriptionRefs_ t) (removed_ t)
  | Sub => mkTopic (creator_ t) (description_ t) (topic_data_ t) (publicationRefs_ t) (f (topic_subscriptionRefs_ t)) (removed_ t)
  end.
Definition with_removed (t : Topic) : Topic :=
  mkTopic (creator_ t) (description_ t) (topic_data_ t) (publicationRefs_ t) (topic_subscriptionRefs_ t) true.
Definition with_topic_data (x : Z) (t : Topic) : Topic :=
  mkTopic (creator_ t) (description_ t) x (publicationRefs_ t) (topic_subscriptionRefs_ t) (removed_ t).

Definition with_subscriptionRefs (f : list RepoId -> list RepoId) (x : Topic_Description) : Topic_Description :=
  mkDescription (name_ x) (dataTypeName_ x) (f (subscriptionRefs_ x)) (topics_ x).
Definition with_topics (f : list RepoId -> list RepoId) (x : Topic_Description) : Topic_Description :=
  mkDescription (name_ x) (dataTypeName_ x) (subscriptionRefs_ x) (f (topics_ x)).

Section Operations.

(** [federationId_], whether there is an update manager, whether the repository
    publishes the built-in topics, and [ACE::wild_match]. *)
Context (federation_id : Z) (um_ : bool) (get_BIT : bool) (wild_match : cstring -> cstring -> bool).

(** ** DCPS_IR_Participant and its liveliness *)

Definition isOwner (p : Participant) : bool := owner_ p =? federation_id.

Definition add_dead_participant (id : RepoId) : repo unit :=
  d ← get; set_deadParticipants_ (set_insert id (deadParticipants_ d)).

Definition mark_dead (id : RepoId) : repo unit := modify parts id (with_alive false);; add_dead_participant id.

(** [participant_->is_alive() && participant_->isOwner()]. *)
Definition reachable (id : RepoId) : repo bool := p ← load parts id; mret (aliveStatus_ p && isOwner p).

(** [get_participant_id] and [get_topic_id] of a publication or subscription. *)
Definition get_participant_id (sd : side) (e : RepoId) : repo RepoId :=
  x ← load ends (sd, e); _ ← load parts (participant_ x); mret (participant_ x).
Definition get_topic_id (sd : side) (e : RepoId) : repo RepoId :=
  x ← load ends (sd, e); _ ← load tops (topic_ x); mret (topic_ x).

(** [is_subscription_ignored] of a publication, [is_publication_ignored] of a
    subscription. *)
Definition is_endpoint_ignored (sd : side) (e partId topicId o : RepoId) : repo bool :=
  x ← load ends (sd, e);
  p ← load parts (participant_ x);
  mret (is_ignored a_participant partId p || is_ignored a_topic topicId p || is_ignored (endpoint_kind (other sd)) o p).

(** ** DCPS_IR_Publication and DCPS_IR_Subscription: single associations *)

(** The new association is told; [-1] when the call ends with an exception. *)
Definition add_associated (sd : side) (e o : RepoId) (active : bool) : repo Z :=
  x ← load ends (sd, e);
  if bool_decide (o ∈ associations_ x) then _ ← load ends (other sd, o); mret 1
  else
    modify ends (sd, e) (with_associations (set_insert o));;
    _ ← load ends (other sd, o);
    can_call ← reachable (participant_ x);
    if (can_call : bool) then
      ok ← remote (add_association sd e o active);
      if (ok : bool) then mret 0 else mark_dead (participant_ x);; mret (-1)
    else mret 0.

Definition add_associated_subscription (pub sub : RepoId) (active : bool) : repo Z := add_associated Pub pub sub active.
Definition add_associated_publication (sub pub : RepoId) (active : bool) : repo Z := add_associated Sub sub pub active.

(** [both] is what is done for the other side when it is to be told as well. *)
Definition remove_associated_with (both : repo unit) (sd : side) (e o : RepoId) (sendNotify notify_lost : bool) : repo Z :=
  x ← load ends (sd, e);
  marked_dead ←
    (if sendNotify then
       _ ← load ends (other sd, o);
       can_call ← reachable (participant_ x);
       if (can_call : bool) then
         ok ← remote (remove_associations_call sd e [o] notify_lost);
         if (ok : bool) then both;; mret false else mark_dead (participant_ x);; mret true
       else mret false
     else mret false);
  x ← load ends (sd, e);
  if bool_decide (o ∈ associations_ x) then
    modify ends (sd, e) (with_associations (set_remove o));; mret (if (marked_dead : bool) then -1 else 0)
  else _ ← load ends (other sd, o); mret (-1).

Definition remove_associated (sd : side) (e o : RepoId) (sendNotify notify_lost notify_both_side : bool) : repo Z :=
  remove_associated_with
    (when notify_both_side (ignore (remove_associated_with (mret ()) (other sd) o e sendNotify notify_lost)))
    sd e o sendNotify notify_lost.

Definition remove_associated_subscription (pub sub : RepoId) (sendNotify notify_lost both : bool) : repo Z :=
  remove_associated Pub pub sub sendNotify notify_lost both.
Definition remove_associated_publication (sub pub : RepoId) (sendNotify notify_lost both : bool) : repo Z :=
  remove_associated Sub sub pub sendNotify notify_lost both.

(** [remove_associations]: a publication passes [notify_lost] on for its own side as
    well, a subscription does not; its own side is not told. *)
Definition remove_associations (sd : side) (e : RepoId) (notify_lost : bool) : repo unit :=
  x ← load ends (sd, e);
  for_each (associations_ x) (fun o =>
    ignore (remove_associated (other sd) o e true notify_lost false);;
    ignore (remove_associated sd e o false (if sd is Pub then notify_lost else false) false));;
  modify ends (sd, e) (with_defunct (fun _ => [])).

(** The destructors. *)
Definition delete_endpoint (sd : side) (e : RepoId) : repo unit :=
  x ← load ends (sd, e);
  when (negb (bool_decide (associations_ x = []))) (remove_associations sd e false);;
  free ends (sd, e).

(** [disassociate_participant], [disassociate_topic] and [disassociate_subscription]
    (or [disassociate_publication]): the associations the test [which] selects end;
    the other sides are told one by one, the own side once with all of them. *)
Definition disassociate_loop (sd : side) (e : RepoId) (which : RepoId -> repo bool) (reassociate : bool) :
    list RepoId -> list RepoId -> repo (list RepoId) :=
  fix loop os idSeq :=
    match os with
    | [] => mret idSeq
    | o :: os' =>
        selected ← which o;
        if (selected : bool) then
          ignore (remove_associated (other sd) o e true false false);;
          ignore (remove_associated sd e o false false false);;
          when reassociate (modify ends (sd, e) (with_defunct (set_insert o)));;
          loop os' (idSeq ++ [o])
        else loop os' idSeq
    end.

Definition disassociate (sd : side) (e : RepoId) (which : RepoId -> repo bool) (reassociate : bool) : repo unit :=
  x ← load ends (sd, e);
  idSeq ← disassociate_loop sd e which reassociate (associations_ x) [];
  if bool_decide (idSeq = []) then mret ()
  else
    can_call ← reachable (participant_ x);
    if (can_call : bool) then
      ok ← remote (remove_associations_call sd e idSeq false);
      if (ok : bool) then mret () else mark_dead (participant_ x)
    else mret ().

Definition disassociate_participant (sd : side) (e id : RepoId) (reassociate : bool) : repo unit :=
  disassociate sd e (fun o => i ← get_participant_id (other sd) o; mret (id =? i)) reassociate.
Definition disassociate_topic (sd : side) (e id : RepoId) : repo unit :=
  disassociate sd e (fun o => i ← get_topic_id (other sd) o; mret (id =? i)) false.
Definition disassociate_endpoint (sd : side) (e id : RepoId) (reassociate : bool) : repo unit :=
  disassociate sd e (fun o => _ ← load ends (other sd, o); mret (id =? o)) reassociate.

(** The status is sent; no exception is caught. *)
Definition update_incompatible_qos (sd : side) (e : RepoId) : repo unit :=
  x ← load ends (sd, e);
  p ← load parts (participant_ x);
  if isOwner p then
    let st := incompatibleQosStatus_ x in
    ok ← remote (update_incompatible_qos_call sd e st);
    if (ok : bool) then modify ends (sd, e) (with_status (mkIQ (total_count st) 0 (last_policy_id st) (policies st)))
    else throw CORBA_Exception
  else mret ().

(** [compatibleQOS] on the members of both sides. *)
Definition check_compatible (pub sub : RepoId) : repo bool :=
  p ← load ends (Pub, pub);
  s ← load ends (Sub, sub);
  match compatibleQOS wild_match (incompatibleQosStatus_ p) (incompatibleQosStatus_ s) (info_ p) (info_ s)
          (endpoint_qos (qos_ p)) (endpoint_qos (qos_ s)) (group_qos (entityQos_ p)) (group_qos (entityQos_ s)) with
  | Ret (b, ps, ss) => store ends (Pub, pub) (with_status ps p);; store ends (Sub, sub) (with_status ss s);; mret b
  | Throw | UB => undefined
  | Fuel => no_fuel
  end.

(** ** DCPS_IR_Topic_Description *)

(** The publication is told first; the subscription only when that worked. *)
Definition associate (pub sub : RepoId) : repo unit :=
  error ← add_associated_subscription pub sub true;
  if error =? -1 then mret () else ignore (add_associated_publication sub pub false).

Definition try_associate (pub sub : RepoId) : repo bool :=
  sp ← get_participant_id Sub sub;
  st ← get_topic_id Sub sub;
  ignored ← is_endpoint_ignored Pub pub sp st sub;
  if (ignored : bool) then mret false
  else
    pp ← get_participant_id Pub pub;
    pt ← get_topic_id Pub pub;
    ignored ← is_endpoint_ignored Sub sub pp pt pub;
    if (ignored : bool) then mret false
    else
      ok ← check_compatible pub sub;
      if (ok : bool) then associate pub sub;; mret true else mret false.

(** The status of an endpoint is sent when it has failures that were not sent. *)
Definition send_status (sd : side) (e : RepoId) : repo unit :=
  x ← load ends (sd, e);
  when (0 <? count_since_last_send (incompatibleQosStatus_ x)) (update_incompatible_qos sd e).

Definition try_associate_publication (desc : nat) (pub : RepoId) : repo unit :=
  x ← load descs desc;
  for_each (subscriptionRefs_ x) (fun sub => ignore (try_associate pub sub);; send_status Sub sub);;
  send_status Pub pub.

(** [DCPS_IR_Topic::try_associate]. *)
Definition topic_try_associate (topic sub : RepoId) : repo unit :=
  t ← load tops topic;
  p ← load parts (creator_ t);
  _ ← load ends (Sub, sub);
  sp ← get_participant_id Sub sub;
  st ← get_topic_id Sub sub;
  if is_ignored a_subscription sub p || is_ignored a_participant sp p || is_ignored a_topic st p then mret ()
  else for_each (publicationRefs_ t) (fun pub => ignore (try_associate pub sub);; send_status Pub pub).

Definition try_associate_subscription (desc : nat) (sub : RepoId) : repo unit :=
  x ← load descs desc;
  for_each (topics_ x) (fun topic => topic_try_associate topic sub);;
  s ← load ends (Sub, sub);
  when (0 <? total_count (incompatibleQosStatus_ s)) (update_incompatible_qos Sub sub).

(** [reevaluate_association] of a publication or a subscription. *)
Definition reevaluate_association (sd : side) (e o : RepoId) : repo bool :=
  let pub := if sd is Pub then e else o in
  let sub := if sd is Pub then o else e in
  x ← load ends (sd, e);
  if bool_decide (o ∈ associations_ x) then
    ok ← check_compatible pub sub;
    if (ok : bool) then mret false
    else ignore (remove_associated sd e o true true true);; mret false
  else
    t ← load tops (topic_ x);
    _ ← load descs (description_ t);
    try_associate pub sub.

Definition reevaluate_existing_associations (sd : side) (e : RepoId) : repo unit :=
  x ← load ends (sd, e);
  for_each (associations_ x) (fun o => ignore (reevaluate_association sd e o)).

Definition reevaluate_defunct_associations (sd : side) (e : RepoId) : repo unit :=
  x ← load ends (sd, e);
  for_each (defunct_ x) (fun o =>
    done ← reevaluate_association sd e o;
    when done (modify ends (sd, e) (with_defunct (set_remove o)))).

(** [DCPS_IR_Topic_Description::reevaluate_associations] for a publication, and for a
    subscription through [DCPS_IR_Topic::reevaluate_associations]. *)
Definition reevaluate_publication (desc : nat) (pub : RepoId) : repo unit :=
  x ← load descs desc;
  for_each (subscriptionRefs_ x) (fun sub =>
    ignore (reevaluate_association Pub pub sub);; ignore (reevaluate_association Sub sub pub)).

Definition topic_reevaluate_associations (topic sub : RepoId) : repo unit :=
  t ← load tops topic;
  for_each (publicationRefs_ t) (fun pub =>
    ignore (reevaluate_association Sub sub pub);; ignore (reevaluate_association Pub pub sub)).

Definition reevaluate_subscription (desc : nat) (sub : RepoId) : repo unit :=
  x ← load descs desc;
  for_each (topics_ x) (fun topic => topic_reevaluate_associations topic sub).

Definition reevaluate_associations (desc : nat) (sd : side) (e : RepoId) : repo unit :=
  match sd with Pub => reevaluate_publication desc e | Sub => reevaluate_subscription desc e end.

(** Association of all publications of a topic, for the built-in topics. *)
Definition reassociate_all_publications (topic : RepoId) : repo unit :=
  t ← load tops topic;
  for_each (publicationRefs_ t) (fun pub => try_associate_publication (description_ t) pub).

(** ** Changes of the policies *)

Definition reevaluate_all (sd : side) (e : RepoId) : repo unit :=
  reevaluate_existing_associations sd e;;
  x ← load ends (sd, e);
  t ← load tops (topic_ x);
  reevaluate_associations (description_ t) sd e.

(** The policies that were changed, for the other repositories. *)
Inductive SpecificQos := NoQos | EndpointQosChanged | GroupQosChanged.

(** [set_qos(qos, publisherQos, specificQos)]. *)
Definition set_qos (sd : side) (e : RepoId) (qos : DataQos) (group : EntityQos) : repo SpecificQos :=
  x ← load ends (sd, e);
  let u_qos := negb (bool_decide (qos_ x = qos)) in
  let u_group := negb (bool_decide (entityQos_ x = group)) in
  let need_evaluate :=
    (u_qos && endpoint_change_checked (endpoint_qos (qos_ x)) (endpoint_qos qos))
    || (u_group && group_change_checked (group_qos (entityQos_ x)) (group_qos group)) in
  modify ends (sd, e) (with_qos qos group);;
  when need_evaluate (reevaluate_all sd e);;
  _ ← load parts (participant_ x);
  tell (publish_bit (inl sd) e);;
  mret (if u_qos then EndpointQosChanged else if u_group then GroupQosChanged else NoQos).

(** [set_qos(qos)] with the policies of the writer or reader alone, and with those of
    its publisher or subscriber alone. *)
Definition set_data_qos (sd : side) (e : RepoId) (qos : DataQos) : repo unit :=
  x ← load ends (sd, e);
  if bool_decide (qos = qos_ x) then mret ()
  else
    let check := endpoint_change_checked (endpoint_qos qos) (endpoint_qos (qos_ x)) in
    modify ends (sd, e) (with_qos qos (entityQos_ x));;
    when check (reevaluate_all sd e);;
    _ ← load parts (participant_ x);
    tell (publish_bit (inl sd) e).
Definition set_entity_qos (sd : side) (e : RepoId) (group : EntityQos) : repo unit :=
  x ← load ends (sd, e);
  if bool_decide (group = entityQos_ x) then mret ()
  else
    let check := group_change_checked (group_qos group) (group_qos (entityQos_ x)) in
    modify ends (sd, e) (with_qos (qos_ x) group);;
    when check (reevaluate_all sd e);;
    _ ← load parts (participant_ x);
    tell (publish_bit (inl sd) e).

(** [update_expr_params] of a subscription, and of the publications it tells. *)
Definition update_expr_params (sub : RepoId) (params : list cstring) : repo unit :=
  modify ends (Sub, sub) (with_exprParams params);;
  x ← load ends (Sub, sub);
  for_each (associations_ x) (fun pub =>
    p ← load ends (Pub, pub);
    ok ← remote (update_subscription_params_call pub sub params);
    if (ok : bool) then mret () else mark_dead (participant_ p)).

(** [association_complete] of an endpoint and [call_association_complete] of the
    others. *)
Definition endpoint_association_complete (sd : side) (e remote_id : RepoId) : repo unit :=
  x ← load ends (sd, e);
  for_each (associations_ x) (fun o =>
    _ ← load ends (other sd, o);
    if bool_decide (o = remote_id) then
      ok ← remote (association_complete_call (other sd) o e);
      if (ok : bool) then mret () else throw CORBA_Exception
    else mret ()).

(** ** DCPS_IR_Topic *)

Definition remove_topic_id_mapping (topic : RepoId) : repo unit :=
  d ← get; set_idToTopicMap_ (set_remove topic (idToTopicMap_ d)).

(** [release]: a removed topic is deleted when nothing refers to it any more. *)
Definition topic_release (topic : RepoId) (removing : bool) : repo unit :=
  when removing (modify tops topic with_removed);;
  t ← load tops topic;
  when (removed_ t && bool_decide (publicationRefs_ t = []) && bool_decide (topic_subscriptionRefs_ t = []))
    (remove_topic_id_mapping topic;; free tops topic).

Definition add_publication_reference (topic pub : RepoId) (associate : bool) : repo Z :=
  t ← load tops topic;
  if bool_decide (pub ∈ publicationRefs_ t) then mret 1
  else
    modify tops topic (with_refs Pub (set_insert pub));;
    tell (publish_bit (inl Pub) pub);;
    when associate (try_associate_publication (description_ t) pub);;
    mret 0.

Definition remove_publication_reference (topic pub : RepoId) : repo Z :=
  t ← load tops topic;
  if bool_decide (pub ∈ publicationRefs_ t) then modify tops topic (with_refs Pub (set_remove pub));; mret 0
  else mret (-1).

(** [add_subscription_reference] and [remove_subscription_reference] of the
    description. *)
Definition desc_add_subscription_reference (desc : nat) (sub : RepoId) (associate : bool) : repo Z :=
  x ← load descs desc;
  if bool_decide (sub ∈ subscriptionRefs_ x) then mret 1
  else
    modify descs desc (with_subscriptionRefs (set_insert sub));;
    tell (publish_bit (inl Sub) sub);;
    when associate (try_associate_subscription desc sub);;
    mret 0.
Definition desc_remove_subscription_reference (desc : nat) (sub : RepoId) : repo Z :=
  x ← load descs desc;
  if bool_decide (sub ∈ subscriptionRefs_ x) then modify descs desc (with_subscriptionRefs (set_remove sub));; mret 0
  else mret (-1).

Definition add_subscription_reference (topic sub : RepoId) (associate : bool) : repo Z :=
  t ← load tops topic;
  if bool_decide (sub ∈ topic_subscriptionRefs_ t) then mret 1
  else
    modify tops topic (with_refs Sub (set_insert sub));;
    desc_add_subscription_reference (description_ t) sub associate.

Definition remove_subscription_reference (topic sub : RepoId) : repo Z :=
  t ← load tops topic;
  if bool_decide (sub ∈ topic_subscriptionRefs_ t) then
    modify tops topic (with_refs Sub (set_remove sub));;
    ignore (desc_remove_subscription_reference (description_ t) sub);;
    mret 0
  else mret (-1).

Definition add_reference (sd : side) (topic e : RepoId) (associate : bool) : repo Z :=
  match sd with Pub => add_publication_reference topic e associate | Sub => add_subscription_reference topic e associate end.
Definition remove_reference (sd : side) (topic e : RepoId) : repo Z :=
  match sd with Pub => remove_publication_reference topic e | Sub => remove_subscription_reference topic e end.

(** Only [topic_data] is copied into the built-in topics of writers and readers. *)
Definition set_topic_qos (topic : RepoId) (topic_data : Z) : repo unit :=
  t ← load tops topic;
  modify tops topic (with_topic_data topic_data);;
  tell (publish_bit (inr (inl topic)) topic);;
  when (negb (topic_data =? topic_data_ t))
    (for_each (publicationRefs_ t) (fun pub => _ ← load ends (Pub, pub); tell (publish_bit (inl Pub) pub));;
     for_each (topic_subscriptionRefs_ t) (fun sub => _ ← load ends (Sub, sub); tell (publish_bit (inl Sub) sub))).

(** ** DCPS_IR_Participant *)

Definition add_topic_reference (part topic : RepoId) : repo Z :=
  p ← load parts part;
  if bool_decide (topic ∈ topicRefs_ p) then mret 1
  else modify parts part (with_topicRefs (map_insert topic));; mret 0.
Definition remove_topic_reference (part topic : RepoId) : repo Z :=
  p ← load parts part;
  if bool_decide (topic ∈ topicRefs_ p) then modify parts part (with_topicRefs (set_remove topic));; mret 0
  else mret (-1).

(** [add_publication] and [add_subscription]. *)
Definition part_add (sd : side) (part e : RepoId) : repo Z :=
  p ← load parts part;
  if bool_decide (e ∈ members sd p) then mret 1
  else modify parts part (with_members sd (map_insert e));; mret 0.

(** [remove_publication] and [remove_subscription]. *)
Definition part_remove (sd : side) (part e : RepoId) : repo Z :=
  p ← load parts part;
  if bool_decide (e ∈ members sd p) then
    x ← load ends (sd, e);
    ignore (remove_reference sd (topic_ x) e);;
    remove_associations sd e false;;
    tell (dispose_bit (inl sd) e);;
    delete_endpoint sd e;;
    topic_release (topic_ x) false;;
    modify parts part (with_members sd (set_remove e));;
    mret 0
  else mret (-1).

(** [ignore_participant], [ignore_topic], [ignore_publication] and
    [ignore_subscription]. *)
Definition ignore_participant (part id : RepoId) : repo unit :=
  modify parts part (with_ignored a_participant id);;
  p ← load parts part;
  for_each (publications_ p) (fun e => disassociate_participant Pub e id false);;
  for_each (subscriptions_ p) (fun e => disassociate_participant Sub e id false).
Definition ignore_topic (part id : RepoId) : repo unit :=
  modify parts part (with_ignored a_topic id);;
  p ← load parts part;
  for_each (publications_ p) (fun e => disassociate_topic Pub e id);;
  for_each (subscriptions_ p) (fun e => disassociate_topic Sub e id).
Definition ignore_publication (part id : RepoId) : repo unit :=
  modify parts part (with_ignored a_publication id);;
  p ← load parts part;
  for_each (subscriptions_ p) (fun e => disassociate_endpoint Sub e id false).
Definition ignore_subscription (part id : RepoId) : repo unit :=
  modify parts part (with_ignored a_subscription id);;
  p ← load parts part;
  for_each (publications_ p) (fun e => disassociate_endpoint Pub e id false).
Definition ignore_entity (k : ignorable) (part id : RepoId) : repo unit :=
  match k with
  | a_participant => ignore_participant part id
  | a_topic => ignore_topic part id
  | a_publication => ignore_publication part id
  | a_subscription => ignore_subscription part id
  end.

Definition OWNER_NONE : Z := 0.

Definition changeOwner (part : RepoId) (sender owner : Z) : repo unit :=
  p ← load parts part;
  if (owner =? OWNER_NONE) && (isOwner p || negb (owner_ p =? sender)) then mret ()
  else modify parts part (with_owner owner).

Definition takeOwnership (part : RepoId) : repo unit :=
  p ← load parts part;
  when (um_ && negb (isBitPublisher_ p)) (tell (um_create part));;
  changeOwner part federation_id federation_id.

(** ** DCPS_IR_Domain *)

(** [find_topic_description]: 0 when found, 1 when the type differs, -1 when there is
    none. *)
Definition find_by_name (name : cstring) (d : Domain) : option nat :=
  List.find (fun i => match descriptions d !! i with Some x => bool_decide (name_ x = name) | None => false end)
    (topicDescriptions_ d).
Definition find_topic_description (name dataTypeName : cstring) : repo (Z * option nat) :=
  d ← get;
  match find_by_name name d with
  | Some i => x ← load descs i; mret (if bool_decide (dataTypeName = dataTypeName_ x) then (0, Some i) else (1, None))
  | None => mret (-1, None)
  end.

Definition add_topic_description (i : nat) : repo Z :=
  x ← load descs i;
  '(found, _) ← find_topic_description (name_ x) (dataTypeName_ x);
  if found =? -1 then d ← get; set_topicDescriptions_ (topicDescriptions_ d ++ [i]);; mret 0
  else mret (if found =? 0 then 1 else 2).

Definition remove_topic_description (i : nat) : repo Z :=
  d ← get;
  if bool_decide (i ∈ topicDescriptions_ d) then set_topicDescriptions_ (set_remove i (topicDescriptions_ d));; mret 0
  else mret (-1).

(** [add_topic] and [remove_topic] of the description. *)
Definition desc_add_topic (i : nat) (topic : RepoId) : repo Z :=
  x ← load descs i;
  if bool_decide (topic ∈ topics_ x) then mret 1 else modify descs i (with_topics (set_insert topic));; mret 0.
Definition desc_remove_topic (i : nat) (topic : RepoId) : repo Z :=
  x ← load descs i;
  if bool_decide (topic ∈ topics_ x) then modify descs i (with_topics (set_remove topic));; mret 0 else mret (-1).

Inductive TopicStatus := CREATED | FOUND | NOT_FOUND | REMOVED | CONFLICTING_TYPENAME.

Definition add_topic_i (topicId : RepoId) (topicName dataTypeName : cstring) (topic_data : Z) (part : RepoId) :
    repo TopicStatus :=
  '(found, old) ← find_topic_description topicName dataTypeName;
  if found =? 1 then mret CONFLICTING_TYPENAME
  else
    description ←
      match old with
      | Some i => mret (inl i)
      | None =>
          i ← new_description (mkDescription topicName dataTypeName [] []);
          added ← add_topic_description i;
          if added =? 0 then mret (inl i)
          else free descs i;; mret (inr (if added =? 2 then CONFLICTING_TYPENAME else NOT_FOUND))
      end;
    match description with
    | inr status => mret status
    | inl i =>
        store tops topicId (mkTopic part i topic_data [] [] false);;
        added ← desc_add_topic i topicId;
        if added =? 0 then
          referenced ← add_topic_reference part topicId;
          if referenced =? 0 then
            d ← get;
            set_idToTopicMap_ (map_insert topicId (idToTopicMap_ d));;
            tell (publish_bit (inr (inl topicId)) topicId);;
            mret CREATED
          else
            ignore (desc_remove_topic i topicId);; free tops topicId;; mret NOT_FOUND
        else free tops topicId;; mret NOT_FOUND
    end.

(** [find_topic] by name: the first topic of the description. *)
Definition find_topic_by_name (topicName : cstring) : repo (option RepoId) :=
  d ← get;
  match find_by_name topicName d with
  | Some i => x ← load descs i; mret (head (topics_ x))
  | None => mret None
  end.
Definition find_topic (topicId : RepoId) : repo bool :=
  d ← get; mret (bool_decide (topicId ∈ idToTopicMap_ d)).

Definition remove_topic (part topic : RepoId) : repo TopicStatus :=
  t ← load tops topic;
  removed ← desc_remove_topic (description_ t) topic;
  if removed =? 0 then
    x ← load descs (description_ t);
    when (bool_decide (topics_ x = []))
      (gone ← remove_topic_description (description_ t); when (gone =? 0) (free descs (description_ t)));;
    ignore (remove_topic_reference part topic);;
    tell (dispose_bit (inr (inl topic)) topic);;
    topic_release topic true;;
    mret REMOVED
  else throw Invalid_Topic.

(** [DCPS_IR_Participant::remove_all_dependents]. *)
Definition leave_topics (sd : side) (notify_lost : bool) (es : list RepoId) : repo unit :=
  for_each es (fun e =>
    x ← load ends (sd, e);
    ignore (remove_reference sd (topic_ x) e);;
    remove_associations sd e notify_lost;;
    topic_release (topic_ x) false).
Definition delete_members (sd : side) (push : bool) (es : list RepoId) : repo unit :=
  for_each es (fun e => when push (tell (um_destroy e));; delete_endpoint sd e).

Definition remove_all_dependents (part : RepoId) (notify_lost : bool) : repo unit :=
  p ← load parts part;
  let push := um_ && negb (isBitPublisher_ p) in
  leave_topics Pub notify_lost (publications_ p);;
  leave_topics Sub notify_lost (subscriptions_ p);;
  for_each (topicRefs_ p) (fun topic =>
    when push (_ ← load tops topic; tell (um_destroy topic);; ignore (remove_topic part topic)));;
  modify parts part (with_topicRefs (fun _ => []));;
  delete_members Pub push (publications_ p);;
  modify parts part (with_members Pub (fun _ => []));;
  delete_members Sub push (subscriptions_ p);;
  modify parts part (with_members Sub (fun _ => [])).

Definition remove_participant (part : RepoId) (notify_lost : bool) : repo Z :=
  d ← get;
  if bool_decide (part ∈ participants_ d) then
    remove_all_dependents part notify_lost;;
    d ← get;
    set_participants_ (set_remove part (participants_ d));;
    tell (dispose_bit (inr (inr part)) part);;
    free parts part;;
    mret 0
  else mret 1.

(** The loop of [remove_dead_participants] takes the first element out of the set,
    to which others may be added meanwhile. *)
Fixpoint remove_dead_loop (fuel : nat) : repo unit :=
  d ← get;
  match deadParticipants_ d with
  | [] => mret ()
  | dead :: rest =>
      match fuel with
      | O => no_fuel
      | S fuel' =>
          set_deadParticipants_ rest;;
          modify parts dead (with_alive false);;
          ignore (remove_participant dead true);;
          remove_dead_loop fuel'
      end
  end.
(** A participant is taken out at most once. *)
Definition remove_dead_participants : repo unit :=
  d ← get; remove_dead_loop (length (participants_ d) + length (deadParticipants_ d)).

(** [add_participant] of the domain, for a participant that was just made. *)
Definition domain_add_participant (part : RepoId) : repo Z :=
  d ← get;
  if bool_decide (part ∈ participants_ d) then mret 1
  else set_participants_ (map_insert part (participants_ d));; tell (publish_bit (inr (inr part)) part);; mret 0.

(** ** TAO_DDS_DCPSInfo_i: the operations of a client, in an existing domain

    The ids that the generators of the participant and the domain give are
    arguments. *)

(** [domain->participant(id)], which throws when there is none. *)
Definition with_participant {A} (part : RepoId) (m : repo A) : repo A :=
  d ← get; if bool_decide (part ∈ participants_ d) then m else throw Invalid_Participant.

Definition add_domain_participant (participantId : RepoId) : repo RepoId :=
  d ← get;
  let bit := bool_decide (participants_ d = []) && get_BIT in
  store parts participantId (mkParticipant true OWNER_NONE bit [] [] [] [] [] [] []);;
  takeOwnership participantId;;
  status ← domain_add_participant participantId;
  if status =? 0 then when (um_ && negb bit) (tell (um_create participantId));; mret participantId
  else free parts participantId;; mret participantId.

Definition attach_participant (part : RepoId) : repo unit := with_participant part (takeOwnership part).

Definition changeOwnership (part : RepoId) (sender owner : Z) : repo bool :=
  d ← get; if bool_decide (part ∈ participants_ d) then changeOwner part sender owner;; mret true else mret false.

Definition assert_topic (topicId part : RepoId) (topicName dataTypeName : cstring) (topic_data : Z) : repo TopicStatus :=
  with_participant part (
    status ← add_topic_i topicId topicName dataTypeName topic_data part;
    p ← load parts part;
    when (um_ && negb (isBitPublisher_ p)) (tell (um_create topicId));;
    mret status).

Definition info_remove_topic (part topic : RepoId) : repo TopicStatus :=
  with_participant part (
    p ← load parts part;
    if bool_decide (topic ∈ topicRefs_ p) then
      status ← remove_topic part topic;
      p ← load parts part;
      when (um_ && isOwner p && negb (isBitPublisher_ p)) (tell (um_destroy topic));;
      mret status
    else throw Invalid_Topic).

(** [add_publication] and [add_subscription]; [None] stands for [GUID_UNKNOWN]. *)
Definition add_endpoint (sd : side) (part topic newId : RepoId) (qos : DataQos) (transInfo : list TransportLocator)
    (group : EntityQos) (filterExpression : cstring) (exprParams : list cstring) : repo (option RepoId) :=
  with_participant part (
    known ← find_topic topic;
    if (known : bool) then
      store ends (sd, newId) (mkEndpoint part topic qos transInfo group filterExpression exprParams [] [] (mkIQ 0 0 0 []));;
      added ← part_add sd part newId;
      result ←
        (if negb (added =? 0) then delete_endpoint sd newId;; mret None
         else
           referenced ← add_reference sd topic newId true;
           if negb (referenced =? 0) then ignore (part_remove sd part newId);; mret None
           else mret (Some newId));
      p ← load parts part;
      when (um_ && negb (isBitPublisher_ p)) (tell (um_create (default GUID_UNKNOWN result)));;
      remove_dead_participants;;
      mret result
    else throw Invalid_Topic).

Definition Invalid_Endpoint (sd : side) : exception := match sd with Pub => Invalid_Publication | Sub => Invalid_Subscription end.

(** [remove_publication] and [remove_subscription]: the former removes the dead
    participants also when it fails.  The participant is used after the dead ones
    were removed. *)
Definition remove_endpoint (sd : side) (part e : RepoId) : repo unit :=
  with_participant part (
    removed ← part_remove sd part e;
    if negb (removed =? 0) then when (if sd is Pub then true else false) remove_dead_participants;; throw (Invalid_Endpoint sd)
    else
      remove_dead_participants;;
      if (um_ : bool) then
        p ← load parts part;
        when (isOwner p && negb (isBitPublisher_ p)) (tell (um_destroy e))
      else mret ()).

Definition remove_domain_participant (part : RepoId) : repo unit :=
  with_participant part (
    p ← load parts part;
    let sendUpdate := isOwner p && negb (isBitPublisher_ p) in
    status ← remove_participant part false;
    if status =? 0 then when (um_ && sendUpdate) (tell (um_destroy part)) else throw Invalid_Participant).

(** [ignore_domain_participant], [ignore_topic], [ignore_publication] and
    [ignore_subscription]. *)
Definition info_ignore (k : ignorable) (part id : RepoId) : repo unit :=
  with_participant part (ignore_entity k part id;; remove_dead_participants).

(** [update_publication_qos] and [update_subscription_qos]. *)
Definition update_qos (sd : side) (part e : RepoId) (qos : DataQos) (group : EntityQos) : repo bool :=
  with_participant part (
    p ← load parts part;
    if bool_decide (e ∈ members sd p) then
      changed ← set_qos sd e qos group;
      p ← load parts part;
      when (um_ && negb (isBitPublisher_ p)) (match changed with NoQos => mret () | _ => tell (um_update e) end);;
      mret true
    else throw (Invalid_Endpoint sd)).

Definition update_subscription_params (part sub : RepoId) (params : list cstring) : repo bool :=
  with_participant part (
    p ← load parts part;
    if bool_decide (sub ∈ subscriptions_ p) then
      update_expr_params sub params;;
      p ← load parts part;
      when (um_ && negb (isBitPublisher_ p)) (tell (um_update sub));;
      mret true
    else throw Invalid_Subscription).

Definition update_topic_qos (part topic : RepoId) (topic_data : Z) : repo bool :=
  with_participant part (
    p ← load parts part;
    if bool_decide (topic ∈ topicRefs_ p) then
      set_topic_qos topic topic_data;;
      when (um_ && isOwner p && negb (isBitPublisher_ p)) (tell (um_update topic));;
      mret true
    else throw Invalid_Topic).

Definition association_complete (part localId remoteId : RepoId) : repo unit :=
  with_participant part (
    p ← load parts part;
    if bool_decide (localId ∈ subscriptions_ p) then endpoint_association_complete Sub localId remoteId
    else if bool_decide (localId ∈ publications_ p) then endpoint_association_complete Pub localId remoteId
    else throw Invalid_Subscription).

(** [disassociate_participant], and [disassociate_subscription] and
    [disassociate_publication], which end associations until the timer makes them
    again. *)
Definition info_disassociate_participant (local_id remote_id : RepoId) : repo unit :=
  with_participant local_id (
    p ← load parts local_id;
    for_each (subscriptions_ p) (fun e => disassociate_participant Sub e remote_id true);;
    for_each (publications_ p) (fun e => disassociate_participant Pub e remote_id true);;
    remove_dead_participants).
Definition info_disassociate_endpoint (sd : side) (part local_id remote_id : RepoId) : repo unit :=
  with_participant part (
    p ← load parts part;
    if bool_decide (local_id ∈ members sd p) then
      disassociate_endpoint sd local_id remote_id true;; remove_dead_participants
    else throw (Invalid_Endpoint sd)).

(** [handle_timeout]: the defunct associations of every endpoint. *)
Definition info_handle_timeout : repo unit :=
  d ← get;
  for_each (participants_ d) (fun part =>
    p ← load parts part;
    for_each (subscriptions_ p) (fun e => reevaluate_defunct_associations Sub e);;
    for_each (publications_ p) (fun e => reevaluate_defunct_associations Pub e)).

(** [remove_by_owner], for the participants of a repository that is gone: the topics
    are taken from their participant only. *)
Definition remove_members (sd : side) (part : RepoId) (es : list RepoId) : repo unit :=
  for_each es (fun e => ignore (part_remove sd part e)).
Definition remove_by_owner (owner : Z) : repo unit :=
  d ← get;
  for_each (filter (fun part => (owner_ <$> participants d !! part) = Some owner) (participants_ d)) (fun part =>
    p ← load parts part;
    remove_members Sub part (subscriptions_ p);;
    remove_members Pub part (publications_ p);;
    for_each (topicRefs_ p) (fun topic => ignore (remove_topic_reference part topic));;
    remove_domain_participant part).

(** ** The methods of the subscriptions, and those named after the kind of an entity *)

Definition Subscription_delete (sub : RepoId) : repo unit := delete_endpoint Sub sub.
Definition Subscription_remove_associations (sub : RepoId) (notify_lost : bool) : repo unit := remove_associations Sub sub notify_lost.
Definition Subscription_disassociate_participant (sub id : RepoId) (reassociate : bool) : repo unit := disassociate_participant Sub sub id reassociate.
Definition Subscription_disassociate_topic (sub id : RepoId) : repo unit := disassociate_topic Sub sub id.
Definition disassociate_publication (sub id : RepoId) (reassociate : bool) : repo unit := disassociate_endpoint Sub sub id reassociate.
Definition Subscription_update_incompatible_qos (sub : RepoId) : repo unit := update_incompatible_qos Sub sub.
Definition is_publication_ignored (sub partId topicId pub : RepoId) : repo bool := is_endpoint_ignored Sub sub partId topicId pub.
Definition Subscription_association_complete (sub remote_id : RepoId) : repo unit := endpoint_association_complete Sub sub remote_id.
Definition Subscription_reevaluate_association (sub pub : RepoId) : repo bool := reevaluate_association Sub sub pub.
Definition Subscription_reevaluate_existing (sub : RepoId) : repo unit := reevaluate_existing_associations Sub sub.
Definition Subscription_reevaluate_defunct (sub : RepoId) : repo unit := reevaluate_defunct_associations Sub sub.
Definition Subscription_set_reader_qos (sub : RepoId) (qos : DataQos) : repo unit := set_data_qos Sub sub qos.
Definition Subscription_set_subscriber_qos (sub : RepoId) (group : EntityQos) : repo unit := set_entity_qos Sub sub group.
Definition Subscription_set_qos (sub : RepoId) (qos : DataQos) (group : EntityQos) : repo SpecificQos := set_qos Sub sub qos group.

Definition Participant_add_subscription (part sub : RepoId) : repo Z := part_add Sub part sub.
Definition Participant_remove_subscription (part sub : RepoId) : repo Z := part_remove Sub part sub.

Definition add_subscription (part topic newId : RepoId) (qos : DataQos) (transInfo : list TransportLocator) (group : EntityQos)
    (filterExpression : cstring) (exprParams : list cstring) : repo (option RepoId) :=
  add_endpoint Sub part topic newId qos transInfo group filterExpression exprParams.
Definition remove_subscription (part sub : RepoId) : repo unit := remove_endpoint Sub part sub.
Definition update_subscription_qos (part sub : RepoId) (qos : DataQos) (group : EntityQos) : repo bool := update_qos Sub part sub qos group.
Definition info_disassociate_subscription (part local_id remote_id : RepoId) : repo unit := info_disassociate_endpoint Sub part local_id remote_id.
Definition info_ignore_topic (part id : RepoId) : repo unit := info_ignore a_topic part id.
Definition info_ignore_subscription (part id : RepoId) : repo unit := info_ignore a_subscription part id.
Definition info_ignore_publication (part id : RepoId) : repo unit := info_ignore a_publication part id.

End Operations.

End InfoRepo.
