(* ===== verification/InfoRepoLogic.v ===== *)
(** * A program logic for the information repository

    Weakest preconditions of the operations of InfoRepo, for runs in which every
    remote call returns, and the view of a domain in which they are stated: its
    objects without associations, the set of associations the endpoints hold, and
    the set of those their writers and readers were told. *)

From stdpp Require Import propset.
From S2P Require Import Prelude Qos InfoRepo.

Module InfoRepoLogic.
Export InfoRepo.

(** ** Weakest preconditions: the operation returns, and [Q] holds of the result *)

Definition wp {A} (m : repo A) (Q : A -> Domain -> Prop) (d : Domain) : Prop :=
  exists a d', m d = Ret (inl a, d') /\ Q a d'.

Lemma wp_ret {A} (a : A) (Q : A -> Domain -> Prop) d : Q a d -> wp (mret a) Q d.
Proof. intros H. by exists a, d. Qed.

Lemma wp_bind {A B} (m : repo A) (k : A -> repo B) Q d : wp m (fun a d' => wp (k a) Q d') d -> wp (m ≫= k) Q d.
Proof.
  intros (a & d' & Hm & b & d'' & Hk & HQ). exists b, d''. split; [|done].
  unfold mbind, repo_bind. rewrite Hm. exact Hk.
Qed.

Lemma wp_mono {A} (m : repo A) (Q R : A -> Domain -> Prop) d : wp m Q d -> (forall a d', Q a d' -> R a d') -> wp m R d.
Proof. intros (a & d' & Hm & HQ) H. exists a, d'. split; [done|by apply H]. Qed.

Lemma wp_ignore {A} (m : repo A) Q d : wp m (fun _ d' => Q () d') d -> wp (ignore m) Q d.
Proof. intros H. apply wp_bind. eapply wp_mono; [exact H|]. intros a d' Ha. by apply wp_ret. Qed.

Lemma wp_when (b : bool) m Q d : (b = true -> wp m Q d) -> (b = false -> Q () d) -> wp (when b m) Q d.
Proof. intros H1 H2. destruct b; [by apply H1|by apply wp_ret, H2]. Qed.

Lemma wp_get Q d : Q d d -> wp get Q d.
Proof. intros H. by exists d, d. Qed.

(** A loop keeps an assertion about the part of the list it has passed. *)
Lemma wp_for_each {A} (l : list A) (f : A -> repo unit) (I : list A -> Domain -> Prop) d : I [] d ->
  (forall pre x post d', l = pre ++ x :: post -> I pre d' -> wp (f x) (fun _ => I (pre ++ [x])) d') ->
  wp (for_each l f) (fun _ => I l) d.
Proof.
  intros H0 Hs. assert (Hgen : forall post pre d', l = pre ++ post -> I pre d' -> wp (for_each post f) (fun _ => I l) d').
  { induction post as [|x post IH]; intros pre d' E H; cbn [for_each].
    - rewrite app_nil_r in E. rewrite E. by apply wp_ret.
    - apply wp_bind. eapply wp_mono; [by apply (Hs pre x post)|]. intros [] d'' H'.
      apply (IH (pre ++ [x])); [by rewrite <- app_assoc|done]. }
  by apply (Hgen l []).
Qed.

(** ** The view of a domain *)

Abbreviation triple := (side * RepoId * RepoId)%type.

Definition no_status : IncompatibleQosStatus := mkIQ 0 0 0 [].
Definition strip (e : Endpoint) : Endpoint := with_status no_status (with_defunct (fun _ => []) (with_associations (fun _ => []) e)).

(** The objects without associations, statuses and calls. *)
Definition static (d : Domain) : Domain :=
  mkDomain (strip <$> endpoints d) (participants d) (topics d) (descriptions d) (next_description d) (participants_ d)
    (topicDescriptions_ d) (idToTopicMap_ d) (deadParticipants_ d) (answers_ d) [].

(** The associations the endpoints hold. *)
Definition linked (d : Domain) : propset triple :=
  {[ t | exists x, endpoints d !! t.1 = Some x /\ t.2 ∈ associations_ x ]}.

(** What the writers and readers were told last. *)
Definition tell_view (t : triple) (b : bool) (c : call) : bool :=
  match c with
  | add_association sd e o _ => b || bool_decide (t = (sd, e, o))
  | remove_associations_call sd e os _ => b && negb (bool_decide (t.1 = (sd, e) /\ t.2 ∈ os))
  | _ => b
  end.
Definition view_of (cs : list call) (t : triple) : bool := foldl (tell_view t) false cs.
Definition told (d : Domain) : propset triple := {[ t | view_of (calls d) t = true ]}.

(** Every status has room for [n] more failures. *)
Definition roomy (n : Z) (d : Domain) : Prop :=
  n <= 2147483647 /\ forall k x, endpoints d !! k = Some x -> room n (incompatibleQosStatus_ x).

Record state_is (S : Domain) (L T : propset triple) (n : Z) (d : Domain) : Prop := {
  st_static : static d = S;
  st_linked : linked d ≡ L;
  st_told : told d ≡ T;
  st_room : roomy n d }.

Lemma state_self d n : roomy n d -> state_is (static d) (linked d) (told d) n d.
Proof. by constructor. Qed.

Lemma state_equiv S L L' T T' n d : L ≡ L' -> T ≡ T' -> state_is S L T n d -> state_is S L' T' n d.
Proof. intros E1 E2 [H1 H2 H3 H4]. split; [done|by rewrite <- E1|by rewrite <- E2|done]. Qed.

Lemma state_room S L T n m d : m <= n -> state_is S L T n d -> state_is S L T m d.
Proof. intros Hm [H1 H2 H3 H4]. split; [done..|]. destruct H4 as [Hn H4]. split; [lia|]. intros k x Hx. eapply room_le; [exact Hm|by apply (H4 k)]. Qed.

#[export] Instance state_is_proper : Proper (eq ==> (≡) ==> (≡) ==> eq ==> eq ==> iff) state_is.
Proof.
  intros S ? <- L L' E1 T T' E2 n ? <- d ? <-. split; apply state_equiv; done.
Qed.

(** ** Reading objects *)

Lemma strip_lookup d k x0 : (strip <$> endpoints d) !! k = Some x0 -> exists x, endpoints d !! k = Some x /\ strip x = x0.
Proof. rewrite lookup_fmap. destruct (endpoints d !! k) as [x|]; [|done]. intros [= <-]. by exists x. Qed.

Lemma endpoints_static d k : endpoints (static d) !! k = strip <$> (endpoints d !! k).
Proof. cbn. apply lookup_fmap. Qed.

Lemma wp_load {K V} `{Countable K} (h : heap K V) k v Q d : objects h d !! k = Some v -> Q v d -> wp (load h k) Q d.
Proof. intros Hv HQ. exists v, d. unfold load. by rewrite Hv. Qed.

Lemma wp_load_end S L T n d k x0 Q : state_is S L T n d -> endpoints S !! k = Some x0 ->
  (forall x, endpoints d !! k = Some x -> strip x = x0 -> Q x d) -> wp (load ends k) Q d.
Proof.
  intros Hd Hk HQ. rewrite <- (st_static _ _ _ _ _ Hd), endpoints_static in Hk.
  destruct (endpoints d !! k) as [x|] eqn:Hx; [|done]. injection Hk as Hk. apply (wp_load _ _ x); [done|by apply HQ].
Qed.

Lemma wp_load_part S L T n d k p Q : state_is S L T n d -> participants S !! k = Some p -> Q p d -> wp (load parts k) Q d.
Proof. intros Hd Hk HQ. rewrite <- (st_static _ _ _ _ _ Hd) in Hk. by apply (wp_load _ _ p). Qed.
Lemma wp_load_top S L T n d k t Q : state_is S L T n d -> topics S !! k = Some t -> Q t d -> wp (load tops k) Q d.
Proof. intros Hd Hk HQ. rewrite <- (st_static _ _ _ _ _ Hd) in Hk. by apply (wp_load _ _ t). Qed.
Lemma wp_load_desc S L T n d k x Q : state_is S L T n d -> descriptions S !! k = Some x -> Q x d -> wp (load descs k) Q d.
Proof. intros Hd Hk HQ. rewrite <- (st_static _ _ _ _ _ Hd) in Hk. by apply (wp_load _ _ x). Qed.

(** ** Calls *)

Lemma view_snoc cs c t : view_of (cs ++ [c]) t = tell_view t (view_of cs t) c.
Proof. unfold view_of. by rewrite foldl_snoc. Qed.

(** Calls that are no news about associations. *)
Definition silent (c : call) : Prop := forall t b, tell_view t b c = b.

Definition added (t : triple) (T : propset triple) : propset triple := T ∪ {[ t ]}.

Lemma wp_tell S L T n d c Q : state_is S L T n d -> silent c ->
  (forall d', state_is S L T n d' -> Q () d') -> wp (tell c) Q d.
Proof.
  intros [H1 H2 H3 H4] Hc HQ. eexists _, _. split; [reflexivity|]. apply HQ. split; [by rewrite <- H1|done| |done].
  rewrite <- H3. intros t. unfold told. rewrite !elem_of_PropSet. cbn [calls]. by rewrite view_snoc, Hc.
Qed.

(** A remote call returns when no exception is to come. *)
Lemma wp_remote S L T n d c Q : state_is S L T n d -> answers_ S = [] ->
  (forall d', state_is S L {[ t | tell_view t (view_of (calls d) t) c = true ]} n d' -> Q true d') ->
  wp (remote c) Q d.
Proof.
  intros [H1 H2 H3 H4] Ha HQ. assert (E : answers_ d = []) by (rewrite <- Ha, <- H1; done).
  eexists _, _. split; [unfold remote; rewrite E; reflexivity|]. apply HQ. split; [|done| |done].
  - rewrite <- H1. unfold static. cbn. by rewrite E.
  - intros t. unfold told. rewrite !elem_of_PropSet. cbn [calls]. by rewrite view_snoc.
Qed.

Lemma wp_remote_silent S L T n d c Q : state_is S L T n d -> answers_ S = [] -> silent c ->
  (forall d', state_is S L T n d' -> Q true d') -> wp (remote c) Q d.
Proof.
  intros Hd Ha Hc HQ. eapply wp_remote; [exact Hd|done|]. intros d' Hd'. apply HQ. eapply state_equiv; [done| |exact Hd'].
  rewrite <- (st_told _ _ _ _ _ Hd). intros t. unfold told. rewrite !elem_of_PropSet. by rewrite Hc.
Qed.

Lemma wp_remote_add S L T n d sd e o b Q : state_is S L T n d -> answers_ S = [] ->
  (forall d', state_is S L (T ∪ {[ (sd, e, o) ]}) n d' -> Q true d') -> wp (remote (add_association sd e o b)) Q d.
Proof.
  intros Hd Ha HQ. eapply wp_remote; [exact Hd|done|]. intros d' Hd'. apply HQ. eapply state_equiv; [done| |exact Hd'].
  rewrite <- (st_told _ _ _ _ _ Hd). intros t. unfold told. rewrite elem_of_union, !elem_of_PropSet, elem_of_singleton.
  cbn [tell_view]. by rewrite orb_true_iff, bool_decide_eq_true.
Qed.

Lemma wp_remote_remove S L T n d sd e os b Q : state_is S L T n d -> answers_ S = [] ->
  (forall d', state_is S L {[ t | t ∈ T /\ ~ (t.1 = (sd, e) /\ t.2 ∈ os) ]} n d' -> Q true d') ->
  wp (remote (remove_associations_call sd e os b)) Q d.
Proof.
  intros Hd Ha HQ. eapply wp_remote; [exact Hd|done|]. intros d' Hd'. apply HQ. eapply state_equiv; [done| |exact Hd'].
  intros t. rewrite !elem_of_PropSet, <- (st_told _ _ _ _ _ Hd t). unfold told. rewrite elem_of_PropSet.
  cbn [tell_view]. by rewrite andb_true_iff, negb_true_iff, bool_decide_eq_false.
Qed.

(** ** Changing endpoints *)

Lemma static_update d k x y : endpoints d !! k = Some x -> strip y = strip x ->
  static (set_objects ends (<[k := y]> (endpoints d)) d) = static d.
Proof.
  intros Hx E. unfold static. cbn. f_equal. rewrite fmap_insert, E. apply insert_id. by rewrite lookup_fmap, Hx.
Qed.

(** [L] with the association [t] in it or not. *)
Definition upd (t : triple) (P : Prop) (L : propset triple) : propset triple :=
  {[ u | (u = t /\ P) \/ (u <> t /\ u ∈ L) ]}.

#[export] Instance upd_proper : Proper (eq ==> iff ==> (≡) ==> (≡)) upd.
Proof. intros t ? <- P P' EP L L' EL u. unfold upd. rewrite !elem_of_PropSet, EP. by rewrite (EL u). Qed.

Lemma elem_upd t P L u : u ∈ upd t P L <-> (u = t /\ P) \/ (u <> t /\ u ∈ L).
Proof. unfold upd. by rewrite elem_of_PropSet. Qed.

(** A change of the associations and the status of one endpoint. *)
Lemma wp_modify_end S L T n d k x f m L' Q : state_is S L T n d -> endpoints d !! k = Some x -> strip (f x) = strip x ->
  m <= n -> room m (incompatibleQosStatus_ (f x)) ->
  (forall t, t ∈ L' <-> if bool_decide (t.1 = k) then t.2 ∈ associations_ (f x) else t ∈ L) ->
  (forall d', state_is S L' T m d' -> Q () d') -> wp (modify ends k f) Q d.
Proof.
  intros [H1 H2 H3 H4] Hx Es Hm Hr HL HQ. unfold modify. apply wp_bind. apply (wp_load _ _ x); [done|].
  eexists _, _. split; [reflexivity|]. apply HQ. split.
  - rewrite <- H1. by apply (static_update d k x).
  - intros t. rewrite HL. unfold linked. rewrite elem_of_PropSet. cbn. case_bool_decide as Hk.
    + rewrite Hk, lookup_insert_eq. naive_solver.
    + rewrite lookup_insert_ne by done. rewrite <- (H2 t). by apply elem_of_PropSet.
  - done.
  - destruct H4 as [Hn H4]. split; [lia|]. intros k' y. cbn. destruct (decide (k' = k)) as [->|Hk].
    + rewrite lookup_insert_eq. by intros [= <-].
    + rewrite lookup_insert_ne by done. intros Hy. eapply room_le; [exact Hm|by apply (H4 k')].
Qed.

Lemma linked_elem S L T n d sd e o x : state_is S L T n d -> endpoints d !! (sd, e) = Some x ->
  (sd, e, o) ∈ L <-> o ∈ associations_ x.
Proof.
  intros Hd Hx. rewrite <- (st_linked _ _ _ _ _ Hd (sd, e, o)). unfold linked. rewrite elem_of_PropSet. cbn. rewrite Hx. naive_solver.
Qed.

Lemma elem_set_insert {A} `{EqDecision A} (x y : A) l : y ∈ set_insert x l <-> y = x \/ y ∈ l.
Proof. unfold set_insert. case_bool_decide; set_solver. Qed.
Lemma elem_set_remove {A} `{EqDecision A} (x y : A) l : y ∈ set_remove x l <-> y <> x /\ y ∈ l.
Proof. unfold set_remove. by rewrite list_elem_of_filter. Qed.
Lemma elem_map_insert x y l : y ∈ map_insert x l <-> y = x \/ y ∈ l.
Proof.
  induction l as [|z l IH]; cbn [map_insert]; [set_solver|].
  destruct (x <? z); [set_solver|]. destruct (Z.eqb_spec x z) as [->|]; set_solver.
Qed.

Lemma room_of S L T n d k x : state_is S L T n d -> endpoints d !! k = Some x -> room n (incompatibleQosStatus_ x).
Proof. intros Hd Hx. by apply (proj2 (st_room _ _ _ _ _ Hd) k). Qed.

Ltac tauto_dec P := destruct (decide P); tauto.

Lemma pair_ne {A B} (a b : A) (x y : B) : a <> b -> (a, x) = (b, y) <-> False.
Proof. intros Hn. split; [|done]. by intros [= -> _]. Qed.

(** Adding and removing one association of an endpoint. *)
Lemma wp_link S L T n d sd e o x Q : state_is S L T n d -> endpoints d !! (sd, e) = Some x ->
  (forall d', state_is S (upd (sd, e, o) True L) T n d' -> Q () d') ->
  wp (modify ends (sd, e) (with_associations (set_insert o))) Q d.
Proof.
  intros Hd Hx HQ. eapply (wp_modify_end S L T n); [done|done|done|reflexivity|exact (room_of _ _ _ _ _ _ _ Hd Hx)| |exact HQ].
  intros [k u]. rewrite elem_upd. cbn. case_bool_decide as Hk; [rewrite elem_set_insert|].
  - subst k. rewrite <- (linked_elem _ _ _ _ _ _ _ u _ Hd Hx), (inj_iff (pair (sd, e)) u o). tauto_dec (u = o).
  - rewrite pair_ne by done. tauto.
Qed.

Lemma wp_unlink S L T n d sd e o x Q : state_is S L T n d -> endpoints d !! (sd, e) = Some x ->
  (forall d', state_is S (upd (sd, e, o) False L) T n d' -> Q () d') ->
  wp (modify ends (sd, e) (with_associations (set_remove o))) Q d.
Proof.
  intros Hd Hx HQ. eapply (wp_modify_end S L T n); [done|done|done|reflexivity|exact (room_of _ _ _ _ _ _ _ Hd Hx)| |exact HQ].
  intros [k u]. rewrite elem_upd. cbn. case_bool_decide as Hk; [rewrite elem_set_remove|].
  - subst k. rewrite <- (linked_elem _ _ _ _ _ _ _ u _ Hd Hx), (inj_iff (pair (sd, e)) u o). tauto_dec (u = o).
  - rewrite pair_ne by done. tauto.
Qed.

(** A change that leaves the associations alone. *)
Lemma wp_modify_same S L T n d k x f Q : state_is S L T n d -> endpoints d !! k = Some x -> strip (f x) = strip x ->
  associations_ (f x) = associations_ x -> room n (incompatibleQosStatus_ (f x)) ->
  (forall d', state_is S L T n d' -> Q () d') -> wp (modify ends k f) Q d.
Proof.
  intros Hd Hx Es Ea Hr HQ. eapply (wp_modify_end S L T n); [done|done|done|reflexivity|done| |exact HQ].
  intros [[sd e] u]. cbn. rewrite Ea. case_bool_decide as Hk; [|done]. subst k. by eapply linked_elem.
Qed.

End InfoRepoLogic.
