(* ===== verification/InfoRepoAssoc.v ===== *)
(** * Associations: what the operations of publications and subscriptions do

    The effect of DCPS_IR_Publication, DCPS_IR_Subscription, DCPS_IR_Topic and
    DCPS_IR_Topic_Description on the sets of associations, when every remote call
    returns. *)

From stdpp Require Import propset.
From S2P Require Import Prelude Qos InfoRepo InfoRepoLogic.

Module InfoRepoAssoc.
Export InfoRepoLogic.

(** ** Pairs of a publication and a subscription *)

Definition pair_of (u : triple) : RepoId * RepoId :=
  match u.1.1 with Pub => (u.1.2, u.2) | Sub => (u.2, u.1.2) end.

Lemma pair_of_spec u p s : pair_of u = (p, s) <-> u = (Pub, p, s) \/ u = (Sub, s, p).
Proof. destruct u as [[[] e] o]; cbn; naive_solver. Qed.

(** For the pairs of [R] an association is there exactly when [F] says so; the others
    stay. *)
Definition revise (R F : RepoId * RepoId -> Prop) (L : propset triple) : propset triple :=
  {[ u | (R (pair_of u) /\ F (pair_of u)) \/ (~ R (pair_of u) /\ u ∈ L) ]}.

Lemma elem_revise R F L u : u ∈ revise R F L <-> (R (pair_of u) /\ F (pair_of u)) \/ (~ R (pair_of u) /\ u ∈ L).
Proof. unfold revise. by rewrite elem_of_PropSet. Qed.

#[export] Instance revise_proper : Proper (pointwise_relation _ iff ==> pointwise_relation _ iff ==> (≡) ==> (≡)) revise.
Proof.
  intros R R' ER F F' EF L L' EL u. rewrite !elem_revise, (ER (pair_of u)), (EF (pair_of u)), (EL u). done.
Qed.

Lemma revise_revise R1 R2 F L : (forall q, R2 q \/ ~ R2 q) ->
  revise R2 F (revise R1 F L) ≡ revise (fun q => R1 q \/ R2 q) F L.
Proof. intros Hd u. rewrite !elem_revise. destruct (Hd (pair_of u)); tauto. Qed.

Lemma revise_none F L : revise (fun _ => False) F L ≡ L.
Proof. intros u. rewrite elem_revise. tauto. Qed.

(** Both sides of a pair agree with each other, and with what was told. *)
Definition sided (q : RepoId * RepoId) (L T : propset triple) : Prop :=
  forall u v, pair_of u = q -> pair_of v = q -> (u ∈ L <-> v ∈ L) /\ (u ∈ T <-> u ∈ L).

Lemma sided_revise q R F L T : (forall q', R q' \/ ~ R q') -> sided q L T -> sided q (revise R F L) (revise R F T).
Proof.
  intros Hd Hs u v Hu Hv. rewrite !elem_revise, Hu, Hv. destruct (Hs u v Hu Hv) as [E1 E2].
  destruct (Hd q); split; try tauto.
Qed.

Lemma upd_revise p s P L : revise (eq (p, s)) (fun _ => P) L ≡ upd (Sub, s, p) P (upd (Pub, p, s) P L).
Proof.
  intros u. rewrite elem_revise, !elem_upd. pose proof (pair_of_spec u p s) as E.
  destruct (decide (u = (Pub, p, s))) as [->|]; [cbn; naive_solver|].
  destruct (decide (u = (Sub, s, p))) as [->|]; [cbn; naive_solver|]. naive_solver.
Qed.

Lemma upd_in t L : t ∈ L -> upd t True L ≡ L.
Proof. intros Ht u. rewrite elem_upd. destruct (decide (u = t)) as [->|]; naive_solver. Qed.
Lemma upd_out t L : t ∉ L -> upd t False L ≡ L.
Proof. intros Ht u. rewrite elem_upd. destruct (decide (u = t)) as [->|]; naive_solver. Qed.

(** ** What makes a pair fit *)

Section Specs.
Context (federation_id : Z) (wild_match : cstring -> cstring -> bool).

(** [p] ignores the endpoint [o]. *)
Definition ignores (p : Participant) (sd : side) (o : RepoId) (y : Endpoint) : bool :=
  is_ignored a_participant (participant_ y) p || is_ignored a_topic (topic_ y) p || is_ignored (endpoint_kind sd) o p.

Definition compatible (x y : Endpoint) : Prop :=
  reported (info_ x) (info_ y) (endpoint_qos (qos_ x)) (endpoint_qos (qos_ y)) (group_qos (entityQos_ x)) (group_qos (entityQos_ y)) = []
  /\ matching_partitions wild_match (partition (group_qos (entityQos_ x))) (partition (group_qos (entityQos_ y))) = Ret true.

(** An endpoint whose participant can be called, and whose topic is there. *)
Record reach (S : Domain) (sd : side) (e : RepoId) (x : Endpoint) (p : Participant) : Prop := {
  re_end : endpoints S !! (sd, e) = Some x;
  re_part : participants S !! participant_ x = Some p;
  re_alive : aliveStatus_ p = true;
  re_owner : isOwner federation_id p = true;
  re_dur : durations_ok (endpoint_qos (qos_ x)) }.

Definition unignored (S : Domain) (q : RepoId * RepoId) : Prop :=
  exists x y px py, reach S Pub q.1 x px /\ reach S Sub q.2 y py
    /\ ignores px Sub q.2 y = false /\ ignores py Pub q.1 x = false.

Definition fits (S : Domain) (q : RepoId * RepoId) : Prop :=
  exists x y px py, reach S Pub q.1 x px /\ reach S Sub q.2 y py
    /\ ignores px Sub q.2 y = false /\ ignores py Pub q.1 x = false /\ compatible x y.

Lemma reach_fun S sd e x p x' p' : reach S sd e x p -> reach S sd e x' p' -> x = x' /\ p = p'.
Proof. intros [] []. simplify_eq. naive_solver. Qed.

Lemma fits_iff S p s x y px py : reach S Pub p x px -> reach S Sub s y py ->
  fits S (p, s) <-> (ignores px Sub s y = false /\ ignores py Pub p x = false /\ compatible x y).
Proof.
  intros Hx Hy. split.
  - intros (x' & y' & px' & py' & Hx' & Hy' & H). destruct (reach_fun _ _ _ _ _ _ _ Hx Hx') as [<- <-].
    destruct (reach_fun _ _ _ _ _ _ _ Hy Hy') as [<- <-]. done.
  - intros H. by exists x, y, px, py.
Qed.

(** ** Single associations *)

Lemma wp_reachable S L T n d id p Q : state_is S L T n d -> participants S !! id = Some p ->
  aliveStatus_ p = true -> isOwner federation_id p = true -> Q true d -> wp (reachable federation_id id) Q d.
Proof.
  intros Hd Hp H1 H2 HQ. apply wp_bind. eapply wp_load_part; [done|done|]. apply wp_ret. by rewrite H1, H2.
Qed.

Lemma wp_add_associated S L T n d sd e o active x p Q : state_is S L T n d -> answers_ S = [] ->
  reach S sd e x p -> is_Some (endpoints S !! (other sd, o)) -> ((sd, e, o) ∈ L -> (sd, e, o) ∈ T) ->
  (forall r d', r <> -1 -> state_is S (upd (sd, e, o) True L) (upd (sd, e, o) True T) n d' -> Q r d') ->
  wp (add_associated federation_id sd e o active) Q d.
Proof.
  intros Hd Ha Hx [y Hy] HT HQ. apply wp_bind. eapply wp_load_end; [exact Hd|apply Hx|]. intros x1 Hx1 Es.
  case_bool_decide as Hin.
  - apply wp_bind. eapply wp_load_end; [exact Hd|exact Hy|]. intros y1 _ _. apply wp_ret, HQ; [lia|].
    assert ((sd, e, o) ∈ L) by (by eapply linked_elem). rewrite !upd_in by auto. done.
  - apply wp_bind. eapply wp_link; [exact Hd|exact Hx1|]. intros d1 Hd1.
    apply wp_bind. eapply wp_load_end; [exact Hd1|exact Hy|]. intros y1 _ _.
    apply wp_bind. replace (participant_ x1) with (participant_ x) by (by rewrite <- Es).
    eapply wp_reachable; [exact Hd1|apply Hx|apply Hx|apply Hx|].
    apply wp_bind. eapply wp_remote_add; [exact Hd1|done|]. intros d2 Hd2. apply wp_ret, HQ; [lia|].
    eapply state_equiv; [reflexivity| |exact Hd2]. intros u. rewrite elem_upd.
    rewrite elem_of_union, elem_of_singleton. destruct (decide (u = (sd, e, o))); tauto.
Qed.

(** Removing one association: told when [sendNotify], and then the other side does
    [both]. *)
Lemma wp_remove_with S L T L2 T2 n d both sd e o sendNotify lost x p Q : state_is S L T n d -> answers_ S = [] ->
  reach S sd e x p -> is_Some (endpoints S !! (other sd, o)) ->
  (sendNotify = false -> L2 ≡ L /\ T2 ≡ T) ->
  (sendNotify = true -> forall d1, state_is S L (upd (sd, e, o) False T) n d1 -> wp both (fun _ => state_is S L2 T2 n) d1) ->
  (forall r d', state_is S (upd (sd, e, o) False L2) T2 n d' -> Q r d') ->
  wp (remove_associated_with federation_id both sd e o sendNotify lost) Q d.
Proof.
  intros Hd Ha Hx [y Hy] H1 H2 HQ. apply wp_bind. eapply wp_load_end; [exact Hd|apply Hx|]. intros x1 Hx1 Es.
  apply wp_bind. apply (wp_mono _ (fun _ => state_is S L2 T2 n)).
  - destruct sendNotify.
    + apply wp_bind. eapply wp_load_end; [exact Hd|exact Hy|]. intros y1 _ _.
      apply wp_bind. replace (participant_ x1) with (participant_ x) by (by rewrite <- Es).
      eapply wp_reachable; [exact Hd|apply Hx|apply Hx|apply Hx|].
      apply wp_bind. eapply wp_remote_remove; [exact Hd|done|]. intros d2 Hd2. apply wp_bind.
      eapply wp_mono; [apply H2; [done|]|].
      * eapply state_equiv; [reflexivity| |exact Hd2]. intros [u1 u2]. rewrite elem_of_PropSet, elem_upd. cbn.
        rewrite list_elem_of_singleton. destruct (decide (u1 = (sd, e))); [|naive_solver]. subst.
        destruct (decide (u2 = o)); naive_solver.
      * intros [] d3 Hd3. by apply wp_ret.
    + apply wp_ret. destruct H1 as [E1 E2]; [done|]. by rewrite E1, E2.
  - intros b d1 Hd1. apply wp_bind. eapply wp_load_end; [exact Hd1|apply Hx|]. intros x2 Hx2 _.
    case_bool_decide as Hin.
    + apply wp_bind. eapply wp_unlink; [exact Hd1|exact Hx2|]. intros d2 Hd2. by apply wp_ret, HQ.
    + apply wp_bind. eapply wp_load_end; [exact Hd1|exact Hy|]. intros y1 _ _. apply wp_ret, HQ.
      rewrite upd_out; [done|]. by rewrite (linked_elem _ _ _ _ _ _ _ o _ Hd1 Hx2).
Qed.

Lemma wp_remove_one S L T n d sd e o (sendNotify lost : bool) x p Q : state_is S L T n d -> answers_ S = [] ->
  reach S sd e x p -> is_Some (endpoints S !! (other sd, o)) ->
  (forall r d', state_is S (upd (sd, e, o) False L) (if sendNotify then upd (sd, e, o) False T else T) n d' -> Q r d') ->
  wp (remove_associated federation_id sd e o sendNotify lost false) Q d.
Proof.
  intros Hd Ha Hx Hy HQ. unfold remove_associated.
  eapply (wp_remove_with S L T L (if sendNotify then upd (sd, e, o) False T else T)); [exact Hd|done|exact Hx|exact Hy|..|exact HQ].
  - by intros ->.
  - intros -> d1 Hd1. by apply wp_ret.
Qed.

Lemma other_other sd : other (other sd) = sd.
Proof. by destruct sd. Qed.

Lemma upd_comm t u P L : upd t P (upd u P L) ≡ upd u P (upd t P L).
Proof. intros v. rewrite !elem_upd. destruct (decide (v = t)), (decide (v = u)); tauto. Qed.

(** Both sides of a pair. *)
Definition the_pair (sd : side) (e o : RepoId) : RepoId * RepoId := match sd with Pub => (e, o) | Sub => (o, e) end.

Lemma upd_both sd e o P L : upd (sd, e, o) P (upd (other sd, o, e) P L) ≡ revise (eq (the_pair sd e o)) (fun _ => P) L.
Proof. destruct sd; cbn [the_pair other]; rewrite upd_revise; [apply upd_comm|done]. Qed.

Lemma wp_remove_both S L T n d sd e o lost x p y p' Q : state_is S L T n d -> answers_ S = [] ->
  reach S sd e x p -> reach S (other sd) o y p' ->
  (forall r d', state_is S (revise (eq (the_pair sd e o)) (fun _ => False) L) (revise (eq (the_pair sd e o)) (fun _ => False) T) n d' -> Q r d') ->
  wp (remove_associated federation_id sd e o true lost true) Q d.
Proof.
  intros Hd Ha Hx Hy HQ. unfold remove_associated. cbn [when].
  eapply (wp_remove_with S L T (upd (other sd, o, e) False L) (upd (other sd, o, e) False (upd (sd, e, o) False T)));
    [exact Hd|done|exact Hx|by exists y; apply Hy|done|..].
  - intros _ d1 Hd1. apply wp_ignore.
    eapply (wp_remove_with S L (upd (sd, e, o) False T) L (upd (other sd, o, e) False (upd (sd, e, o) False T)));
      [exact Hd1|done|exact Hy|rewrite other_other; by exists x; apply Hx|done|..].
    + intros _ d2 Hd2. by apply wp_ret.
    + intros _ d2 Hd2. exact Hd2.
  - intros r d1 Hd1. apply (HQ r). rewrite <- !upd_both. eapply state_equiv; [reflexivity|apply upd_comm|exact Hd1].
Qed.

(** ** The test, and the association of a pair *)

Lemma wp_check_compatible S L T n d pub sub x y px py Q : state_is S L T (8 + n) d -> 0 <= n ->
  reach S Pub pub x px -> reach S Sub sub y py ->
  (forall b d', (b = true <-> compatible x y) -> state_is S L T n d' -> Q b d') ->
  wp (check_compatible wild_match pub sub) Q d.
Proof.
  intros Hd Hn Hx Hy HQ. apply wp_bind. eapply wp_load_end; [exact Hd|apply Hx|]. intros x1 Hx1 Ex.
  apply wp_bind. eapply wp_load_end; [exact Hd|apply Hy|]. intros y1 Hy1 Ey.
  destruct (compatibleQOS_spec wild_match n (incompatibleQosStatus_ x1) (incompatibleQosStatus_ y1) (info_ x1) (info_ y1)
    (endpoint_qos (qos_ x1)) (endpoint_qos (qos_ y1)) (group_qos (entityQos_ x1)) (group_qos (entityQos_ y1)))
    as (b & ps & ss & Hc & _ & _ & R1 & R2 & Hb);
    [done|by eapply room_of|by eapply room_of|replace (qos_ x1) with (qos_ x) by (by rewrite <- Ex); apply Hx
    |replace (qos_ y1) with (qos_ y) by (by rewrite <- Ey); apply Hy|].
  rewrite Hc. assert (Hbc : b = true <-> compatible x y) by (rewrite Hb, <- Ex, <- Ey; done).
  assert (Hd' : state_is S L T n d) by (eapply state_room; [|exact Hd]; lia).
  change (wp (store ends (Pub, pub) (with_status ps x1) ≫= fun _ => store ends (Sub, sub) (with_status ss y1) ≫= fun _ => mret b) Q d).
  assert (Hs : forall k v st Q' d0, state_is S L T n d0 -> (exists v', endpoints d0 !! k = Some v' /\ strip v' = strip v /\ associations_ v' = associations_ v) ->
    room n st -> (forall d', state_is S L T n d' -> (forall k', k' <> k -> endpoints d' !! k' = endpoints d0 !! k') -> Q' () d') ->
    wp (store ends k (with_status st v)) Q' d0).
  { intros k v st Q' d0 [H1 H2 H3 H4] (v' & Hv & Ev & Ea) Hr HQ'. eexists _, _. split; [reflexivity|]. apply HQ'; [|by intros; cbn; rewrite lookup_insert_ne].
    split; [|intros u|done|].
    - rewrite <- H1. eapply static_update; [exact Hv|]. by rewrite Ev.
    - rewrite <- (H2 u). unfold linked. rewrite !elem_of_PropSet. cbn. destruct (decide (u.1 = k)) as [->|].
      + rewrite lookup_insert_eq, Hv. split.
        * intros (w & [= <-] & Hw). exists v'. split; [done|]. by rewrite Ea.
        * intros (w & [= <-] & Hw). eexists. split; [done|]. cbn. by rewrite <- Ea.
      + by rewrite lookup_insert_ne.
    - destruct H4 as [Hm H4]. split; [done|]. intros k' w. cbn. destruct (decide (k' = k)) as [->|]; [rewrite lookup_insert_eq; by intros [= <-]|].
      rewrite lookup_insert_ne by done. apply H4. }
  apply wp_bind. apply Hs; [done|by exists x1|done|]. intros d1 Hd1 Hk.
  apply wp_bind. apply Hs; [done|exists y1; split; [by rewrite Hk|done]|done|]. intros d2 Hd2 _. by apply wp_ret, HQ.
Qed.

Lemma revise_same q F L : (forall u, pair_of u = q -> (u ∈ L <-> F q)) -> revise (eq q) F L ≡ L.
Proof.
  intros H u. rewrite elem_revise. destruct (decide (q = pair_of u)) as [E|E]; [|tauto].
  rewrite <- E, (H u) by done. tauto.
Qed.

Lemma revise_ext R F G L : (forall q, R q -> (F q <-> G q)) -> revise R F L ≡ revise R G L.
Proof. intros H u. rewrite !elem_revise. naive_solver. Qed.

Definition has_topic (S : Domain) (x : Endpoint) : Prop := is_Some (topics S !! topic_ x).

Lemma wp_get_participant_id S L T n d sd e x p Q : state_is S L T n d -> reach S sd e x p ->
  Q (participant_ x) d -> wp (get_participant_id sd e) Q d.
Proof.
  intros Hd Hx HQ. apply wp_bind. eapply wp_load_end; [exact Hd|apply Hx|]. intros x1 _ Es.
  replace (participant_ x1) with (participant_ x) by (by rewrite <- Es).
  apply wp_bind. eapply wp_load_part; [exact Hd|apply Hx|]. by apply wp_ret.
Qed.

Lemma wp_get_topic_id S L T n d sd e x p Q : state_is S L T n d -> reach S sd e x p -> has_topic S x ->
  Q (topic_ x) d -> wp (get_topic_id sd e) Q d.
Proof.
  intros Hd Hx [t Ht] HQ. apply wp_bind. eapply wp_load_end; [exact Hd|apply Hx|]. intros x1 _ Es.
  replace (topic_ x1) with (topic_ x) by (by rewrite <- Es).
  apply wp_bind. eapply wp_load_top; [exact Hd|exact Ht|]. by apply wp_ret.
Qed.

Lemma wp_is_endpoint_ignored S L T n d sd e x p o y Q : state_is S L T n d -> reach S sd e x p ->
  Q (ignores p (other sd) o y) d -> wp (is_endpoint_ignored sd e (participant_ y) (topic_ y) o) Q d.
Proof.
  intros Hd Hx HQ. apply wp_bind. eapply wp_load_end; [exact Hd|apply Hx|]. intros x1 _ Es.
  replace (participant_ x1) with (participant_ x) by (by rewrite <- Es).
  apply wp_bind. eapply wp_load_part; [exact Hd|apply Hx|]. by apply wp_ret.
Qed.

Lemma wp_associate S L T n d pub sub x y px py Q : state_is S L T n d -> answers_ S = [] ->
  reach S Pub pub x px -> reach S Sub sub y py -> sided (pub, sub) L T ->
  (forall d', state_is S (revise (eq (pub, sub)) (fun _ => True) L) (revise (eq (pub, sub)) (fun _ => True) T) n d' -> Q () d') ->
  wp (associate federation_id pub sub) Q d.
Proof.
  intros Hd Ha Hx Hy Hs HQ. apply wp_bind. eapply wp_add_associated; [exact Hd|done|exact Hx|exists y; apply Hy|..].
  { intros H. by apply (Hs (Pub, pub, sub) (Pub, pub, sub)). }
  intros r d1 Hr Hd1. destruct (Z.eqb_spec r (-1)); [done|]. apply wp_ignore.
  eapply wp_add_associated; [exact Hd1|done|exact Hy|exists x; apply Hx|..].
  { rewrite !elem_upd. intros [[? _]|[? H]]; [done|]. right. split; [done|]. by apply (Hs (Sub, sub, pub) (Pub, pub, sub)). }
  intros _ d2 _ Hd2. apply HQ. rewrite !upd_revise. exact Hd2.
Qed.

Lemma wp_try_associate S L T n d pub sub x y px py Q : state_is S L T (8 + n) d -> 0 <= n -> answers_ S = [] ->
  reach S Pub pub x px -> reach S Sub sub y py -> has_topic S x -> has_topic S y ->
  sided (pub, sub) L T -> ((Pub, pub, sub) ∈ L -> fits S (pub, sub)) ->
  (forall b d', state_is S (revise (eq (pub, sub)) (fits S) L) (revise (eq (pub, sub)) (fits S) T) n d' -> Q b d') ->
  wp (try_associate federation_id wild_match pub sub) Q d.
Proof.
  intros Hd Hn Ha Hx Hy Tx Ty Hs Hf HQ. pose proof (fits_iff S pub sub x y px py Hx Hy) as Hfit.
  assert (Hsame : ~ fits S (pub, sub) -> forall b d', state_is S L T n d' -> Q b d').
  { intros Hno b d' Hd'. apply HQ. rewrite !revise_same; [done|..]; intros u Hu;
      destruct (Hs u (Pub, pub, sub) Hu eq_refl) as [E1 E2]; rewrite ?E2, E1; tauto. }
  assert (Hd0 : state_is S L T n d) by (eapply state_room; [|exact Hd]; lia).
  apply wp_bind. eapply wp_get_participant_id; [exact Hd|exact Hy|].
  apply wp_bind. eapply wp_get_topic_id; [exact Hd|exact Hy|done|].
  apply wp_bind. eapply (wp_is_endpoint_ignored S L T (8 + n) d Pub pub x px sub y); [exact Hd|exact Hx|]. cbn [other].
  destruct (ignores px Sub sub y) eqn:I1; [apply wp_ret, Hsame; [rewrite Hfit; naive_solver|done]|].
  apply wp_bind. eapply wp_get_participant_id; [exact Hd|exact Hx|].
  apply wp_bind. eapply wp_get_topic_id; [exact Hd|exact Hx|done|].
  apply wp_bind. eapply (wp_is_endpoint_ignored S L T (8 + n) d Sub sub y py pub x); [exact Hd|exact Hy|]. cbn [other].
  destruct (ignores py Pub pub x) eqn:I2; [apply wp_ret, Hsame; [rewrite Hfit; naive_solver|done]|].
  apply wp_bind. eapply wp_check_compatible; [exact Hd|done|exact Hx|exact Hy|]. intros b d1 Hb Hd1. destruct b.
  - apply wp_bind. eapply wp_associate; [exact Hd1|done|exact Hx|exact Hy|done|]. intros d2 Hd2. apply wp_ret, HQ.
    assert (fits S (pub, sub)) by (rewrite Hfit; naive_solver).
    rewrite (revise_ext _ (fits S) (fun _ => True) L), (revise_ext _ (fits S) (fun _ => True) T) by (by intros ? <-). done.
  - apply wp_ret, Hsame; [rewrite Hfit; naive_solver|done].
Qed.

(** Sending the status changes no association. *)
Lemma wp_update_incompatible S L T n d sd e x p Q : state_is S L T n d -> answers_ S = [] -> reach S sd e x p ->
  (forall d', state_is S L T n d' -> Q () d') -> wp (update_incompatible_qos federation_id sd e) Q d.
Proof.
  intros Hd Ha Hx HQ. apply wp_bind. eapply wp_load_end; [exact Hd|apply Hx|]. intros x1 Hx1 Es.
  replace (participant_ x1) with (participant_ x) by (by rewrite <- Es).
  apply wp_bind. eapply wp_load_part; [exact Hd|apply Hx|]. rewrite (re_owner _ _ _ _ _ Hx).
  apply wp_bind. eexists _, _. split; [unfold remote; rewrite (f_equal answers_ (st_static _ _ _ _ _ Hd) : answers_ d = _), Ha; reflexivity|].
  set (d1 := mkDomain _ _ _ _ _ _ _ _ _ _ _).
  assert (Hd1 : state_is S L T n d1).
  { destruct Hd as [H1 H2 H3 H4]. split; [rewrite <- H1; unfold static; cbn; by rewrite (f_equal answers_ H1 : answers_ d = _), Ha|done| |done].
    rewrite <- H3. intros t. unfold told. rewrite !elem_of_PropSet. cbn [d1 calls]. by rewrite view_snoc. }
  eapply (wp_modify_same _ _ _ _ _ _ x1); [exact Hd1|done|done|done| |exact HQ].
  pose proof (room_of _ _ _ _ _ _ _ Hd Hx1) as (R1 & R2 & R3 & R4). destruct (st_room _ _ _ _ _ Hd) as [Hm _].
  split; [exact R1|]. split; [cbn; lia|]. by split.
Qed.

Lemma wp_send_status S L T n d sd e x p Q : state_is S L T n d -> answers_ S = [] -> reach S sd e x p ->
  (forall d', state_is S L T n d' -> Q () d') -> wp (send_status federation_id sd e) Q d.
Proof.
  intros Hd Ha Hx HQ. apply wp_bind. eapply wp_load_end; [exact Hd|apply Hx|]. intros x1 _ _.
  apply wp_when; [|by intros _; apply HQ]. intros _. by eapply wp_update_incompatible.
Qed.

(** Reevaluating a pair whose association was not ignored. *)
Lemma wp_reevaluate S L T n d sd e o x y p p' t Q : state_is S L T (8 + n) d -> 0 <= n -> answers_ S = [] ->
  reach S sd e x p -> reach S (other sd) o y p' -> topics S !! topic_ x = Some t -> is_Some (descriptions S !! description_ t) ->
  has_topic S y -> sided (the_pair sd e o) L T -> ((sd, e, o) ∈ L -> unignored S (the_pair sd e o)) ->
  (forall b d', state_is S (revise (eq (the_pair sd e o)) (fits S) L) (revise (eq (the_pair sd e o)) (fits S) T) n d' -> Q b d') ->
  wp (reevaluate_association federation_id wild_match sd e o) Q d.
Proof.
  intros Hd Hn Ha Hx Hy Tx [w Hw] Ty Hs Hu HQ. apply wp_bind. eapply wp_load_end; [exact Hd|apply Hx|]. intros x1 Hx1 Es.
  assert (exists pub sub xp ys pp ps, the_pair sd e o = (pub, sub) /\ (if sd is Pub then e else o) = pub /\ (if sd is Pub then o else e) = sub
    /\ reach S Pub pub xp pp /\ reach S Sub sub ys ps /\ has_topic S xp /\ has_topic S ys) as
    (pub & sub & xp & ys & pp & ps & Eq & -> & -> & Hp & Hs' & Tp & Ts).
  { destruct sd; [exists e, o, x, y, p, p'|exists o, e, y, x, p', p]; (split; [done|]; split; [done|]; split; [done|];
      split; [done|]; split; [done|]; split; [|]; (done || by exists t)). }
  rewrite Eq in *. assert (Hpe : pair_of (sd, e, o) = (pub, sub)) by (rewrite <- Eq; by destruct sd).
  pose proof (fits_iff S pub sub _ _ _ _ Hp Hs') as Hfit. case_bool_decide as Hin.
  - assert (HL : (sd, e, o) ∈ L) by (by eapply linked_elem).
    destruct (Hu HL) as (x' & y' & px' & py' & Hx' & Hy' & I1 & I2). cbn in Hx', Hy', I1, I2.
    destruct (reach_fun _ _ _ _ _ _ _ Hp Hx') as [<- <-]. destruct (reach_fun _ _ _ _ _ _ _ Hs' Hy') as [<- <-].
    apply wp_bind. eapply wp_check_compatible; [exact Hd|done|exact Hp|exact Hs'|]. intros b d1 Hb Hd1. destruct b.
    + apply wp_ret, HQ. assert (fits S (pub, sub)) by (rewrite Hfit; naive_solver).
      rewrite !revise_same; [done|..]; intros u Hpu; destruct (Hs u _ Hpu Hpe) as [E1 E2]; rewrite ?E2, E1; tauto.
    + apply wp_bind, wp_ignore. eapply wp_remove_both; [exact Hd1|done|exact Hx|exact Hy|]. intros r d2 Hd2.
      apply wp_ret, HQ. assert (Hno : ~ fits S (pub, sub)) by (rewrite Hfit; naive_solver). rewrite Eq in Hd2.
      rewrite (revise_ext _ (fits S) (fun _ => False) L), (revise_ext _ (fits S) (fun _ => False) T) by (by intros ? <-). done.
  - replace (topic_ x1) with (topic_ x) by (by rewrite <- Es).
    apply wp_bind. eapply wp_load_top; [exact Hd|exact Tx|]. apply wp_bind. eapply wp_load_desc; [exact Hd|exact Hw|].
    eapply wp_try_associate; [exact Hd|done|done|exact Hp|exact Hs'|done|done|done| |exact HQ].
    intros HL. contradict Hin. rewrite <- (linked_elem _ _ _ _ _ _ _ o _ Hd Hx1).
    by apply (proj1 (Hs (sd, e, o) (Pub, pub, sub) Hpe eq_refl)).
Qed.

(** ** Loops over pairs *)

(** The state after the pairs of [R] were revised. *)
Definition revised (S : Domain) (L T : propset triple) (R : RepoId * RepoId -> Prop) (n : Z) : Domain -> Prop :=
  state_is S (revise R (fits S) L) (revise R (fits S) T) n.

Lemma revised_none S L T n d : state_is S L T n d -> revised S L T (fun _ => False) n d.
Proof. unfold revised. by rewrite !revise_none. Qed.

Lemma revised_iff S L T R R' n d : (forall q, R q <-> R' q) -> revised S L T R n d -> revised S L T R' n d.
Proof. intros E. unfold revised. by rewrite (revise_proper R R' E (fits S) (fits S) (fun _ => iff_refl _) L L (reflexivity L)),
  (revise_proper R R' E (fits S) (fits S) (fun _ => iff_refl _) T T (reflexivity T)). Qed.

(** Revising a set of pairs, then more of them. *)
Lemma revised_more S L T R R' n d : (forall q, R' q \/ ~ R' q) ->
  state_is S (revise R' (fits S) (revise R (fits S) L)) (revise R' (fits S) (revise R (fits S) T)) n d ->
  revised S L T (fun q => R q \/ R' q) n d.
Proof. intros Hdec. unfold revised. by rewrite !revise_revise. Qed.

Definition decided (R : RepoId * RepoId -> Prop) : Prop := forall q, R q \/ ~ R q.

Definition total {A} (c : A -> Z) (l : list A) : Z := foldr (fun x z => c x + z) 0 l.

Lemma total_nonneg {A} (c : A -> Z) l : (forall x, 0 <= c x) -> 0 <= total c l.
Proof. intros Hc. unfold total. induction l as [|x l IH]; cbn [foldr]; [lia|]. specialize (Hc x). lia. Qed.
Lemma total_const {A} k (l : list A) : total (fun _ => k) l = k * Z.of_nat (length l).
Proof. unfold total in *. induction l as [|x l IH]; cbn [foldr length]; [lia|]. rewrite IH. lia. Qed.

(** Every loop below is an instance of this one: the pairs [R x] of its elements are
    revised one after the other, each at its cost. *)
Lemma wp_revise_loop {A} S L T n (c : A -> Z) (R : A -> RepoId * RepoId -> Prop) f l : 0 <= n -> (forall x, 0 <= c x) ->
  (forall x, decided (R x)) ->
  (forall x m d R1, x ∈ l -> 0 <= m -> decided R1 -> revised S L T R1 (c x + m) d ->
     wp (f x) (fun _ => revised S L T (fun q => R1 q \/ R x q) m) d) ->
  forall R0 d, decided R0 -> revised S L T R0 (total c l + n) d ->
  wp (for_each l f) (fun _ => revised S L T (fun q => R0 q \/ exists x, x ∈ l /\ R x q) n) d.
Proof.
  intros Hn Hc HR. induction l as [|x l IH]; intros Hf R0 d H0 Hd; cbn [for_each].
  - apply wp_ret. eapply revised_iff; [|exact Hd]. intros q. split; [tauto|]. intros [?|(x & Hx & _)]; [done|].
    by apply not_elem_of_nil in Hx.
  - pose proof (total_nonneg c l Hc). apply wp_bind. eapply wp_mono.
    { apply (Hf x (total c l + n) d R0); [left|lia|done|]. by rewrite Z.add_assoc. }
    intros [] d1 Hd1. eapply wp_mono; [apply (IH (fun y m d' R1 Hy => Hf y m d' R1 (list_elem_of_further _ _ _ Hy)) (fun q => R0 q \/ R x q) d1)|].
    + intros q. destruct (H0 q), (HR x q); tauto.
    + exact Hd1.
    + intros [] d2 Hd2. eapply revised_iff; [|exact Hd2]. intros q. split.
      * intros [[?|?]|(y & Hy & ?)]; [by left|right; exists x; split; [left|done]|right; exists y; split; [by right|done]].
      * intros [?|(y & Hy & ?)]; [by left; left|]. apply elem_of_cons in Hy as [->|Hy]; [by left; right|right; by exists y].
Qed.

(** [pub] can be associated with any of the subscriptions, and [sub] with any of the
    publications. *)
Definition usable (S : Domain) (sd : side) (e : RepoId) : Prop :=
  exists x p t, reach S sd e x p /\ topics S !! topic_ x = Some t /\ is_Some (descriptions S !! description_ t).

(** A pair of two usable endpoints whose association is there only if it is not
    ignored. *)
Definition revisable (S : Domain) (L T : propset triple) (q : RepoId * RepoId) : Prop :=
  usable S Pub q.1 /\ usable S Sub q.2 /\ sided q L T /\ ((Pub, q.1, q.2) ∈ L -> unignored S q).

Lemma fits_unignored S q : fits S q -> unignored S q.
Proof. intros (x & y & px & py & ? & ? & ? & ? & _). by exists x, y, px, py. Qed.

Lemma revisable_revise S L T R q : decided R -> revisable S L T q ->
  revisable S (revise R (fits S) L) (revise R (fits S) T) q.
Proof.
  intros Hdec (H1 & H2 & H3 & H4). split; [done|]. split; [done|]. split; [by apply sided_revise|].
  rewrite elem_revise. change (pair_of (Pub, q.1, q.2)) with (q.1, q.2). rewrite <- surjective_pairing.
  intros [[_ Hf]|[_ HL]]; [by apply fits_unignored|by apply H4].
Qed.

Lemma wp_reevaluate_pair S L T n d sd e o Q : state_is S L T (8 + n) d -> 0 <= n -> answers_ S = [] ->
  revisable S L T (the_pair sd e o) ->
  (forall b d', state_is S (revise (eq (the_pair sd e o)) (fits S) L) (revise (eq (the_pair sd e o)) (fits S) T) n d' -> Q b d') ->
  wp (reevaluate_association federation_id wild_match sd e o) Q d.
Proof.
  intros Hd Hn Ha (H1 & H2 & H3 & H4) HQ.
  assert (usable S sd e /\ usable S (other sd) o) as [(x & p & t & Hx & Ht & Hw) (y & p' & t' & Hy & Ht' & _)].
  { by destruct sd. }
  eapply wp_reevaluate; [exact Hd|done|done|exact Hx|exact Hy|exact Ht|done|by exists t'|done| |exact HQ].
  intros HL. apply H4. destruct sd; cbn in *; [done|]. by apply (proj1 (H3 (Pub, o, e) (Sub, e, o) eq_refl eq_refl)).
Qed.

Lemma wp_try_pair S L T n d pub sub Q : state_is S L T (8 + n) d -> 0 <= n -> answers_ S = [] ->
  revisable S L T (pub, sub) -> ((Pub, pub, sub) ∈ L -> fits S (pub, sub)) ->
  (forall b d', state_is S (revise (eq (pub, sub)) (fits S) L) (revise (eq (pub, sub)) (fits S) T) n d' -> Q b d') ->
  wp (try_associate federation_id wild_match pub sub) Q d.
Proof.
  intros Hd Hn Ha ((x & p & t & Hx & Ht & _) & (y & p' & t' & Hy & Ht' & _) & H3 & _) Hf HQ.
  eapply wp_try_associate; [exact Hd|done|done|exact Hx|exact Hy|by exists t|by exists t'|done|done|exact HQ].
Qed.

Lemma decided_eq q0 : decided (eq q0).
Proof. intros q. destruct (decide (q0 = q)); tauto. Qed.
Hint Resolve decided_eq : core.

Lemma decided_list {A} `{EqDecision A} (g : RepoId * RepoId -> A) (b : RepoId * RepoId -> Prop) (l : list A) :
  decided b -> decided (fun q => b q /\ g q ∈ l).
Proof. intros Hb q. destruct (Hb q), (decide (g q ∈ l)); tauto. Qed.

(** One more pair. *)
Lemma wp_try_step S L T m d pub sub R1 Q : revised S L T R1 (8 + m) d -> 0 <= m -> answers_ S = [] -> decided R1 ->
  revisable S L T (pub, sub) -> ((Pub, pub, sub) ∈ L -> fits S (pub, sub)) ->
  (forall b d', revised S L T (fun q => R1 q \/ (pub, sub) = q) m d' -> Q b d') ->
  wp (try_associate federation_id wild_match pub sub) Q d.
Proof.
  intros Hd Hm Ha H1 Hr Hf HQ. eapply wp_try_pair; [exact Hd|done|done|by apply revisable_revise| |].
  - rewrite elem_revise. change (pair_of (Pub, pub, sub)) with (pub, sub). tauto.
  - intros b d' Hd'. eapply HQ, revised_more; [apply decided_eq|exact Hd'].
Qed.

Lemma wp_reevaluate_step S L T m d sd e o R1 Q : revised S L T R1 (8 + m) d -> 0 <= m -> answers_ S = [] -> decided R1 ->
  revisable S L T (the_pair sd e o) ->
  (forall b d', revised S L T (fun q => R1 q \/ the_pair sd e o = q) m d' -> Q b d') ->
  wp (reevaluate_association federation_id wild_match sd e o) Q d.
Proof.
  intros Hd Hm Ha H1 Hr HQ. eapply wp_reevaluate_pair; [exact Hd|done|done|by apply revisable_revise|].
  intros b d' Hd'. eapply HQ, revised_more; [apply decided_eq|exact Hd'].
Qed.

Lemma wp_status_step S L T m d sd e R1 Q : revised S L T R1 m d -> answers_ S = [] -> usable S sd e ->
  (forall d', revised S L T R1 m d' -> Q () d') -> wp (send_status federation_id sd e) Q d.
Proof. intros Hd Ha (x & p & t & Hx & _) HQ. eapply wp_send_status; [exact Hd|done|exact Hx|exact HQ]. Qed.

(** The pairs of [pub] with the subscriptions of a description, and those of [sub] with
    the publications of its topics. *)
Definition pub_pairs (pub : RepoId) (x : Topic_Description) (q : RepoId * RepoId) : Prop :=
  q.1 = pub /\ q.2 ∈ subscriptionRefs_ x.
Definition refs_of (S : Domain) (t : RepoId) : list RepoId :=
  match topics S !! t with Some U => publicationRefs_ U | None => [] end.
Definition sub_pairs (S : Domain) (sub : RepoId) (x : Topic_Description) (q : RepoId * RepoId) : Prop :=
  q.2 = sub /\ exists t, t ∈ topics_ x /\ q.1 ∈ refs_of S t.

(** What is true of the pairs a new endpoint is tried with. *)
Definition tryable (S : Domain) (L T : propset triple) (q : RepoId * RepoId) : Prop :=
  revisable S L T q /\ ((Pub, q.1, q.2) ∈ L -> fits S q).

Lemma wp_try_associate_publication S L T n d i x pub Q : 0 <= n -> answers_ S = [] -> descriptions S !! i = Some x ->
  usable S Pub pub -> (forall q, pub_pairs pub x q -> tryable S L T q) ->
  state_is S L T (8 * Z.of_nat (length (subscriptionRefs_ x)) + n) d ->
  (forall d', revised S L T (pub_pairs pub x) n d' -> Q () d') ->
  wp (try_associate_publication federation_id wild_match i pub) Q d.
Proof.
  intros Hn Ha Hx Hu Hq Hd HQ. apply wp_bind. eapply wp_load_desc; [exact Hd|exact Hx|]. apply wp_bind.
  eapply wp_mono; [eapply (wp_revise_loop S L T n (fun _ => 8) (fun sub => eq (pub, sub))); [done|lia|done| |
    |rewrite total_const; by apply revised_none]|].
  - intros sub m d1 R1 Hsub Hm HR Hd1. destruct (Hq (pub, sub)) as [Hr Hf]; [done|]. apply wp_bind, wp_ignore.
    eapply wp_try_step; [exact Hd1|done|done|done|done|done|]. intros _ d2 Hd2.
    eapply wp_status_step; [exact Hd2|done|apply Hr|]. done.
  - intros q. tauto.
  - intros [] d1 Hd1. eapply wp_status_step; [exact Hd1|done|done|]. intros d2 Hd2. apply HQ.
    eapply revised_iff; [|exact Hd2]. intros [q1 q2]. unfold pub_pairs. cbn. split.
    + intros [[]|(sub & Hsub & [= <- <-])]. done.
    + intros [-> Hs]. right. by exists q2.
Qed.

Lemma wp_topic_try_associate S L T m d R1 t U p sub y py Q : 0 <= m -> answers_ S = [] -> decided R1 ->
  topics S !! t = Some U -> participants S !! creator_ U = Some p -> reach S Sub sub y py -> has_topic S y ->
  (forall pub, pub ∈ publicationRefs_ U -> tryable S L T (pub, sub) /\ exists x, reach S Pub pub x p) ->
  revised S L T R1 (8 * Z.of_nat (length (publicationRefs_ U)) + m) d ->
  (forall d', revised S L T (fun q => R1 q \/ q.2 = sub /\ q.1 ∈ publicationRefs_ U) m d' -> Q () d') ->
  wp (topic_try_associate federation_id wild_match t sub) Q d.
Proof.
  intros Hm Ha HR Ht Hp Hy Ty Hq Hd HQ. apply wp_bind. eapply wp_load_top; [exact Hd|exact Ht|].
  apply wp_bind. eapply wp_load_part; [exact Hd|exact Hp|]. apply wp_bind. eapply wp_load_end; [exact Hd|apply Hy|]. intros y1 _ _.
  apply wp_bind. eapply wp_get_participant_id; [exact Hd|exact Hy|].
  apply wp_bind. eapply wp_get_topic_id; [exact Hd|exact Hy|done|].
  destruct (is_ignored a_subscription sub p || is_ignored a_participant (participant_ y) p || is_ignored a_topic (topic_ y) p) eqn:Hi.
  - apply wp_ret, HQ. assert (Hno : forall pub, pub ∈ publicationRefs_ U -> ~ fits S (pub, sub)).
    { intros pub Hpub Hfit. destruct (Hq pub Hpub) as [_ [x Hx]]. pose proof (proj1 (fits_iff S pub sub x y p py Hx Hy) Hfit) as [Hg _].
      unfold ignores in Hg. cbn [endpoint_kind] in Hg. bool_hyps. by repeat match goal with H : is_ignored _ _ _ = false |- _ => rewrite H in Hi end. }
    assert (Hd' : revised S L T R1 m d) by (eapply state_room; [|exact Hd]; lia).
    assert (Heq : forall LT, (forall pub, pub ∈ publicationRefs_ U -> forall u, pair_of u = (pub, sub) -> u ∈ LT -> fits S (pub, sub)) ->
      revise R1 (fits S) LT ≡ revise (fun q => R1 q \/ q.2 = sub /\ q.1 ∈ publicationRefs_ U) (fits S) LT).
    { intros LT HLT u. rewrite !elem_revise. destruct (HR (pair_of u)) as [|HnR]; [tauto|].
      destruct (decide ((pair_of u).2 = sub /\ (pair_of u).1 ∈ publicationRefs_ U)) as [[E1 E2]|]; [|tauto].
      assert (Eu : pair_of u = ((pair_of u).1, sub)) by (rewrite <- E1; apply surjective_pairing). split.
      - intros [[? _]|[_ Hu]]; [done|]. destruct (Hno _ E2). exact (HLT _ E2 u Eu Hu).
      - intros [[_ Hu]|[Hn _]]; [|tauto]. rewrite Eu in Hu. by destruct (Hno _ E2). }
    unfold revised. rewrite <- !Heq; [exact Hd'|..]; intros pub Hpub u Hu HLu; destruct (Hq pub Hpub) as [[(_ & _ & Hs & _) Hf] _];
      destruct (Hs u (Pub, pub, sub) Hu eq_refl) as [E1 E2]; apply Hf; cbn; tauto.
  - eapply wp_mono; [eapply (wp_revise_loop S L T m (fun _ => 8) (fun pub => eq (pub, sub))); [done|lia|done| |exact HR|by rewrite total_const]|].
    + intros pub m1 d1 R2 Hpub Hm1 HR2 Hd1. destruct (Hq pub Hpub) as [[Hr Hf] _]. apply wp_bind, wp_ignore.
      eapply wp_try_step; [exact Hd1|done|done|done|done|done|]. intros _ d2 Hd2.
      eapply wp_status_step; [exact Hd2|done|apply Hr|]. done.
    + intros [] d1 Hd1. apply HQ. eapply revised_iff; [|exact Hd1]. intros [q1 q2]. cbn. split.
      * intros [?|(pub & Hpub & [= <- <-])]; [by left|by right].
      * intros [?|[-> Hs]]; [by left|right; by exists q1].
Qed.

(** The cost of the loop over the topics of a description. *)
Definition pub_cost (k : Z) (S : Domain) (x : Topic_Description) : Z :=
  total (fun t => k * Z.of_nat (length (refs_of S t))) (topics_ x).

(** The topics of a description are there, with their creators, and so are their
    publications. *)
Definition topics_ready (S : Domain) (x : Topic_Description) : Prop :=
  forall t, t ∈ topics_ x -> exists U p, topics S !! t = Some U /\ participants S !! creator_ U = Some p
    /\ forall pub, pub ∈ publicationRefs_ U -> exists y, reach S Pub pub y p.

Lemma refs_of_Some S t U : topics S !! t = Some U -> refs_of S t = publicationRefs_ U.
Proof. intros H. unfold refs_of. by rewrite H. Qed.

Lemma wp_try_associate_subscription S L T n d i x sub y py Q : 0 <= n -> answers_ S = [] -> descriptions S !! i = Some x ->
  reach S Sub sub y py -> has_topic S y -> topics_ready S x -> (forall q, sub_pairs S sub x q -> tryable S L T q) ->
  state_is S L T (pub_cost 8 S x + n) d ->
  (forall d', revised S L T (sub_pairs S sub x) n d' -> Q () d') ->
  wp (try_associate_subscription federation_id wild_match i sub) Q d.
Proof.
  intros Hn Ha Hx Hy Ty Ht Hq Hd HQ. apply wp_bind. eapply wp_load_desc; [exact Hd|exact Hx|]. apply wp_bind.
  eapply wp_mono; [eapply (wp_revise_loop S L T n (fun t => 8 * Z.of_nat (length (refs_of S t)))
    (fun t q => q.2 = sub /\ q.1 ∈ refs_of S t)); [done|lia| | | |by apply revised_none]|].
  - intros t. apply (decided_list fst). intros q. destruct (decide (q.2 = sub)); tauto.
  - intros t m d1 R1 Htx Hm HR Hd1. destruct (Ht t Htx) as (U & p & HU & Hp & Hpubs). rewrite (refs_of_Some _ _ _ HU) in *.
    eapply wp_topic_try_associate; [exact Hm|done|done|exact HU|exact Hp|exact Hy|done| |exact Hd1|done].
    intros pub Hpub. split; [|by apply Hpubs]. apply Hq. split; [done|]. exists t. by rewrite (refs_of_Some _ _ _ HU).
  - intros q. tauto.
  - intros [] d1 Hd1. assert (Hd2 : revised S L T (sub_pairs S sub x) n d1).
    { eapply revised_iff; [|exact Hd1]. intros q. unfold sub_pairs. split; [intros [[]|(t & ? & ? & ?)]; split; [done|by exists t]|].
      intros [? (t & ? & ?)]. right. by exists t. }
    apply wp_bind. eapply wp_load_end; [exact Hd2|apply Hy|]. intros y1 _ _.
    apply wp_when; [|by intros _; apply HQ]. intros _. by eapply wp_update_incompatible.
Qed.

(** Reevaluating both ways. *)
Lemma wp_reevaluate_twice S L T m d sd e o R1 : revised S L T R1 (16 + m) d -> 0 <= m -> answers_ S = [] -> decided R1 ->
  revisable S L T (the_pair sd e o) ->
  wp (ignore (reevaluate_association federation_id wild_match sd e o);;
      ignore (reevaluate_association federation_id wild_match (other sd) o e))
    (fun _ => revised S L T (fun q => R1 q \/ the_pair sd e o = q) m) d.
Proof.
  intros Hd Hm Ha HR Hr. apply wp_bind, wp_ignore.
  eapply (wp_reevaluate_step S L T (8 + m)); [rewrite Z.add_assoc; exact Hd|lia|done|done|done|]. intros _ d1 Hd1. apply wp_ignore.
  assert (E : the_pair (other sd) o e = the_pair sd e o) by (by destruct sd).
  eapply wp_reevaluate_step; [exact Hd1|done|done| |by rewrite E|].
  { intros q. destruct (HR q), (decided_eq (the_pair sd e o) q); tauto. }
  intros _ d2 Hd2. rewrite E in Hd2. eapply revised_iff; [|exact Hd2]. tauto.
Qed.

Lemma wp_reevaluate_publication S L T n d R0 i x pub Q : 0 <= n -> answers_ S = [] -> descriptions S !! i = Some x ->
  decided R0 -> (forall q, pub_pairs pub x q -> revisable S L T q) ->
  revised S L T R0 (16 * Z.of_nat (length (subscriptionRefs_ x)) + n) d ->
  (forall d', revised S L T (fun q => R0 q \/ pub_pairs pub x q) n d' -> Q () d') ->
  wp (reevaluate_publication federation_id wild_match i pub) Q d.
Proof.
  intros Hn Ha Hx H0 Hq Hd HQ. apply wp_bind. eapply wp_load_desc; [exact Hd|exact Hx|].
  eapply wp_mono; [eapply (wp_revise_loop S L T n (fun _ => 16) (fun sub => eq (pub, sub))); [done|lia|done| |exact H0|by rewrite total_const]|].
  - intros sub m d1 R1 Hsub Hm HR Hd1. by apply (wp_reevaluate_twice S L T m d1 Pub pub sub R1); [..|apply Hq].
  - intros [] d1 Hd1. apply HQ. eapply revised_iff; [|exact Hd1]. intros [q1 q2]. unfold pub_pairs. cbn. split.
    + intros [?|(sub & Hsub & [= <- <-])]; [by left|by right].
    + intros [?|[-> Hs]]; [by left|right; by exists q2].
Qed.

Lemma wp_reevaluate_subscription S L T n d R0 i x sub Q : 0 <= n -> answers_ S = [] -> descriptions S !! i = Some x ->
  decided R0 -> topics_ready S x -> (forall q, sub_pairs S sub x q -> revisable S L T q) ->
  revised S L T R0 (pub_cost 16 S x + n) d ->
  (forall d', revised S L T (fun q => R0 q \/ sub_pairs S sub x q) n d' -> Q () d') ->
  wp (reevaluate_subscription federation_id wild_match i sub) Q d.
Proof.
  intros Hn Ha Hx H0 Ht Hq Hd HQ. apply wp_bind. eapply wp_load_desc; [exact Hd|exact Hx|].
  eapply wp_mono; [eapply (wp_revise_loop S L T n (fun t => 16 * Z.of_nat (length (refs_of S t)))
    (fun t q => q.2 = sub /\ q.1 ∈ refs_of S t)); [done|lia| | |exact H0|exact Hd]|].
  - intros t. apply (decided_list fst). intros q. destruct (decide (q.2 = sub)); tauto.
  - intros t m d1 R1 Htx Hm HR Hd1. destruct (Ht t Htx) as (U & p & HU & Hp & Hpubs).
    apply wp_bind. eapply wp_load_top; [exact Hd1|exact HU|]. pose proof (refs_of_Some _ _ _ HU) as EU. rewrite EU in *.
    eapply wp_mono; [eapply (wp_revise_loop S L T m (fun _ => 16) (fun pub => eq (pub, sub))); [done|lia|done| |exact HR|by rewrite total_const]|].
    + intros pub m1 d2 R2 Hpub Hm1 HR2 Hd2. apply (wp_reevaluate_twice S L T m1 d2 Sub sub pub R2); [done..|].
      apply Hq. split; [done|]. exists t. by rewrite EU.
    + intros [] d2 Hd2. eapply revised_iff; [|exact Hd2]. intros [q1 q2]. cbn. split.
      * intros [?|(pub & Hpub & [= <- <-])]; [by left|by right].
      * intros [?|[-> Hs]]; [by left|right; by exists q1].
  - intros [] d1 Hd1. apply HQ. eapply revised_iff; [|exact Hd1]. intros q. unfold sub_pairs. split.
    + intros [?|(t & ? & ? & ?)]; [by left|]. right. split; [done|by exists t].
    + intros [?|[? (t & ? & ?)]]; [by left|]. right. by exists t.
Qed.

(** The associations an endpoint has. *)
Definition linked_pairs (sd : side) (e : RepoId) (L : propset triple) (q : RepoId * RepoId) : Prop :=
  exists o, (sd, e, o) ∈ L /\ the_pair sd e o = q.

Lemma wp_reevaluate_existing S L T n d sd e x Q : 0 <= n -> answers_ S = [] -> endpoints d !! (sd, e) = Some x ->
  (forall q, linked_pairs sd e L q -> revisable S L T q) ->
  state_is S L T (8 * Z.of_nat (length (associations_ x)) + n) d ->
  (forall d', revised S L T (linked_pairs sd e L) n d' -> Q () d') ->
  wp (reevaluate_existing_associations federation_id wild_match sd e) Q d.
Proof.
  intros Hn Ha Hx Hq Hd HQ. apply wp_bind. apply (wp_load _ _ x); [done|].
  eapply wp_mono; [eapply (wp_revise_loop S L T n (fun _ => 8) (fun o => eq (the_pair sd e o))); [done|lia|done| |
    |rewrite total_const; by apply revised_none]|].
  - intros o m d1 R1 Ho Hm HR Hd1. apply wp_ignore. eapply wp_reevaluate_step; [exact Hd1|done|done|done| |done].
    apply Hq. exists o. split; [by eapply linked_elem|done].
  - intros q. tauto.
  - intros [] d1 Hd1. apply HQ. eapply revised_iff; [|exact Hd1]. intros q. unfold linked_pairs. split.
    + intros [[]|(o & Ho & E)]. exists o. split; [by eapply linked_elem|done].
    + intros (o & Ho & E). right. exists o. split; [by rewrite <- (linked_elem _ _ _ _ _ _ _ o _ Hd Hx)|done].
Qed.

(** ** Ending associations *)

(** [L] without the pairs [P]. *)
Abbreviation without P L := (revise P (fun _ => False) L).

Lemma without_elem P L u : u ∈ without P L <-> ~ P (pair_of u) /\ u ∈ L.
Proof. rewrite elem_revise. tauto. Qed.

(** [L] without what the endpoint itself holds. *)
Definition forget (sd : side) (e : RepoId) (P : RepoId -> Prop) (L : propset triple) : propset triple :=
  {[ u | u ∈ L /\ ~ (u.1 = (sd, e) /\ P u.2) ]}.

(** An association ends on both sides; the side of [e] is not told. *)
Lemma wp_part_one S L T n d sd e o lost lost' x p y p' : state_is S L T n d -> answers_ S = [] ->
  reach S sd e x p -> reach S (other sd) o y p' ->
  wp (ignore (remove_associated federation_id (other sd) o e true lost false);;
      ignore (remove_associated federation_id sd e o false lost' false))
    (fun _ => state_is S (without (eq (the_pair sd e o)) L) (upd (other sd, o, e) False T) n) d.
Proof.
  intros Hd Ha Hx Hy. apply wp_bind, wp_ignore.
  eapply wp_remove_one; [exact Hd|done|exact Hy|rewrite other_other; exists x; apply Hx|]. intros _ d1 Hd1. apply wp_ignore.
  eapply wp_remove_one; [exact Hd1|done|exact Hx|exists y; apply Hy|]. intros _ d2 Hd2. by rewrite <- upd_both.
Qed.

(** After an endpoint's associations to [os] ended: both sides forgot them, and the
    others were told. *)
Definition ended (sd : side) (e : RepoId) (P : RepoId -> Prop) (q : RepoId * RepoId) : Prop := exists o, P o /\ q = the_pair sd e o.
Definition others_told (sd : side) (e : RepoId) (P : RepoId -> Prop) (T : propset triple) : propset triple :=
  {[ u | u ∈ T /\ ~ (u.1.1 = other sd /\ u.2 = e /\ P u.1.2) ]}.

Lemma ended_iff sd e P u : ended sd e P (pair_of u) <-> (u.1 = (sd, e) /\ P u.2) \/ (u.1.1 = other sd /\ u.2 = e /\ P u.1.2).
Proof.
  unfold ended. destruct u as [[s a] b]; destruct sd, s; cbn; naive_solver.
Qed.

Lemma elem_others_told sd e P T u : u ∈ others_told sd e P T <-> u ∈ T /\ ~ (u.1.1 = other sd /\ u.2 = e /\ P u.1.2).
Proof. unfold others_told. by rewrite elem_of_PropSet. Qed.

Lemma wp_remove_associations S L T n d sd e lost x p : state_is S L T n d -> answers_ S = [] -> reach S sd e x p ->
  (forall o, (sd, e, o) ∈ L -> exists y p', reach S (other sd) o y p') ->
  wp (remove_associations federation_id sd e lost)
    (fun _ => state_is S (without (ended sd e (fun o => (sd, e, o) ∈ L)) L) (others_told sd e (fun o => (sd, e, o) ∈ L) T) n) d.
Proof.
  intros Hd Ha Hx Ho. apply wp_bind. eapply wp_load_end; [exact Hd|apply Hx|]. intros x1 Hx1 _. apply wp_bind.
  eapply wp_mono; [apply (wp_for_each _ _ (fun pre => state_is S (without (ended sd e (fun o => o ∈ pre)) L)
    (others_told sd e (fun o => o ∈ pre) T) n))|].
  - eapply state_equiv; [| |exact Hd]; intros u.
    + rewrite without_elem. split; [|tauto]. intros HL. split; [|done]. intros (o & Hin & _). by apply not_elem_of_nil in Hin.
    + rewrite elem_others_told. split; [|tauto]. intros HT. split; [done|]. intros (_ & _ & Hin). by apply not_elem_of_nil in Hin.
  - intros pre o post d1 E Hd1. assert (HL : (sd, e, o) ∈ L) by (eapply linked_elem; [exact Hd|exact Hx1|rewrite E; set_solver]).
    destruct (Ho o HL) as (y & p' & Hy). eapply wp_mono; [eapply wp_part_one; [exact Hd1|done|exact Hx|exact Hy]|].
    intros [] d2 Hd2. eapply state_equiv; [| |exact Hd2]; intros u.
    + rewrite !without_elem. unfold ended. setoid_rewrite elem_of_app. setoid_rewrite list_elem_of_singleton. naive_solver.
    + rewrite elem_upd, !elem_others_told. rewrite elem_of_app, list_elem_of_singleton. destruct u as [[s a] b]. cbn. naive_solver.
  - intros [] d1 Hd1. destruct (strip_lookup d1 (sd, e) x) as (x2 & Hx2 & _).
    { rewrite <- (re_end _ _ _ _ _ Hx), <- (st_static _ _ _ _ _ Hd1). done. }
    eapply (wp_modify_same _ _ _ _ _ _ x2); [exact Hd1|exact Hx2|done|done|exact (room_of _ _ _ _ _ _ _ Hd1 Hx2)|].
    intros d2 Hd2. eapply state_equiv; [| |exact Hd2]; intros u.
    + rewrite !without_elem. unfold ended. by setoid_rewrite (linked_elem _ _ _ _ _ _ _ _ _ Hd Hx1).
    + rewrite !elem_others_told. by rewrite (linked_elem _ _ _ _ _ _ _ _ _ Hd Hx1).
Qed.

(** [disassociate]: the test [which] is the predicate [w]. *)
Lemma wp_disassociate_loop S L T n sd e which w x p : answers_ S = [] -> reach S sd e x p ->
  (forall o, (sd, e, o) ∈ L -> exists y p', reach S (other sd) o y p') ->
  (forall o L' T' d (Q : bool -> Domain -> Prop), (sd, e, o) ∈ L -> state_is S L' T' n d -> Q (w o) d -> wp (which o) Q d) ->
  forall os idSeq d, (forall o, o ∈ os -> (sd, e, o) ∈ L) ->
  state_is S (without (ended sd e (fun o => o ∈ idSeq)) L) (others_told sd e (fun o => o ∈ idSeq) T) n d ->
  wp (disassociate_loop federation_id sd e which false os idSeq) (fun l d' => l = idSeq ++ List.filter w os
    /\ state_is S (without (ended sd e (fun o => o ∈ l)) L) (others_told sd e (fun o => o ∈ l) T) n d') d.
Proof.
  intros Ha Hx Ho Hw. induction os as [|o os IH]; intros idSeq d Hos Hd; cbn [disassociate_loop List.filter].
  { apply wp_ret. by rewrite app_nil_r. }
  assert (HL : (sd, e, o) ∈ L) by (apply Hos; left). apply wp_bind. eapply Hw; [exact HL|exact Hd|].
  destruct (w o); [|apply IH; [set_solver|done]]. destruct (Ho o HL) as (y & p' & Hy).
  assert (Hassoc : forall (m1 m2 m3 : repo unit) (k : repo (list RepoId)) Q d0, wp (m1;; m2) (fun _ d' => wp (m3;; k) Q d') d0 ->
    wp (m1;; m2;; m3;; k) Q d0).
  { intros m1 m2 m3 k Q d0 (a & d' & E & H). unfold mbind, repo_bind in *. destruct H as (b & d'' & E' & HQ).
    exists b, d''. split; [|done]. destruct (m1 d0) as [[[u|ex] d1]| | |]; try done. by rewrite E. }
  apply Hassoc. eapply wp_mono; [eapply wp_part_one; [exact Hd|done|exact Hx|exact Hy]|].
  intros [] d1 Hd1. apply wp_bind, wp_ret. eapply wp_mono; [apply (IH (idSeq ++ [o])); [set_solver|]|].
  2:{ intros l d2 [-> Hd2]. rewrite <- app_assoc in Hd2 |- *. done. }
  eapply state_equiv; [| |exact Hd1]; intros u.
  - rewrite !without_elem. unfold ended. setoid_rewrite elem_of_app. setoid_rewrite list_elem_of_singleton. naive_solver.
  - rewrite elem_upd, !elem_others_told. rewrite elem_of_app, list_elem_of_singleton. destruct u as [[s a] b]. cbn. naive_solver.
Qed.

Lemma wp_disassociate S L T n d sd e which w x p : state_is S L T n d -> answers_ S = [] -> reach S sd e x p ->
  (forall o, (sd, e, o) ∈ L -> exists y p', reach S (other sd) o y p') ->
  (forall o L' T' d (Q : bool -> Domain -> Prop), (sd, e, o) ∈ L -> state_is S L' T' n d -> Q (w o) d -> wp (which o) Q d) ->
  wp (disassociate federation_id sd e which false)
    (fun _ => state_is S (without (ended sd e (fun o => (sd, e, o) ∈ L /\ w o = true)) L)
                         (without (ended sd e (fun o => (sd, e, o) ∈ L /\ w o = true)) T) n) d.
Proof.
  intros Hd Ha Hx Ho Hw. apply wp_bind. eapply wp_load_end; [exact Hd|apply Hx|]. intros x1 Hx1 Es. apply wp_bind.
  assert (Hin : forall o, o ∈ associations_ x1 <-> (sd, e, o) ∈ L) by (intros o; by rewrite (linked_elem _ _ _ _ _ _ _ o _ Hd Hx1)).
  eapply wp_mono; [eapply (wp_disassociate_loop S L T n sd e which w x p Ha Hx Ho Hw)|].
  - intros o Hos. by apply Hin.
  - eapply state_equiv; [| |exact Hd]; intros u.
    + rewrite without_elem. split; [|tauto]. intros HL. split; [|done]. intros (o & H & _). by apply not_elem_of_nil in H.
    + rewrite elem_others_told. split; [|tauto]. intros HT. split; [done|]. intros (_ & _ & H). by apply not_elem_of_nil in H.
  - intros l d1 [-> Hd1]. cbn [app] in Hd1 |- *.
    assert (Hl : forall o, o ∈ List.filter w (associations_ x1) <-> (sd, e, o) ∈ L /\ w o = true).
    { intros o. rewrite list_elem_of_In, filter_In, <- list_elem_of_In. by rewrite Hin. }
    set (l := List.filter w (associations_ x1)) in *.
    assert (HL : forall M, without (ended sd e (fun o => o ∈ l)) M ≡ without (ended sd e (fun o => (sd, e, o) ∈ L /\ w o = true)) M).
    { intros M u. rewrite !without_elem. unfold ended. by setoid_rewrite Hl. }
    case_bool_decide as Hnil.
    + apply wp_ret. rewrite <- !HL. eapply state_equiv; [reflexivity| |exact Hd1].
      intros u. rewrite elem_others_told, without_elem. rewrite ended_iff, !Hnil, !(elem_of_nil _). tauto.
    + apply wp_bind. replace (participant_ x1) with (participant_ x) by (by rewrite <- Es).
      eapply wp_reachable; [exact Hd1|apply Hx|apply Hx|apply Hx|].
      apply wp_bind. eapply wp_remote_remove; [exact Hd1|done|]. intros d2 Hd2. apply wp_ret.
      rewrite <- !HL. eapply state_equiv; [reflexivity| |exact Hd2].
      intros u. rewrite elem_of_PropSet, elem_others_told, without_elem, ended_iff. tauto.
Qed.

End Specs.
End InfoRepoAssoc.
