(* ===== verification/InfoRepoInv.v ===== *)
(** * The information repository: its invariant

    The references between the objects of a domain, and the associations its
    publications and subscriptions have; how each change of the objects keeps them. *)

From stdpp Require Import propset.
From S2P Require Import Prelude Qos InfoRepo InfoRepoLogic InfoRepoAssoc.

Module InfoRepoInv.
Export InfoRepoAssoc.

Section Invariant.
Context (federation_id : Z) (um_ get_BIT : bool) (wild_match : cstring -> cstring -> bool).

(** ** References

    [D] are the endpoints that were taken out of their topics, and are about to be
    deleted. *)

Record wf (D : propset (side * RepoId)) (S : Domain) : Prop := {
  wf_answers : answers_ S = [];
  wf_dead : deadParticipants_ S = [];
  wf_end : forall sd e x, endpoints S !! (sd, e) = Some x ->
    durations_ok (endpoint_qos (qos_ x)) /\ is_Some (participants S !! participant_ x);
  wf_topic_of : forall sd e x, endpoints S !! (sd, e) = Some x -> (sd, e) ∉ D ->
    exists U, topics S !! topic_ x = Some U /\ creator_ U = participant_ x;
  wf_refs : forall t U sd e, topics S !! t = Some U ->
    (e ∈ topic_refs sd U <-> exists x, endpoints S !! (sd, e) = Some x /\ topic_ x = t /\ (sd, e) ∉ D);
  wf_topic : forall t U, topics S !! t = Some U ->
    removed_ U = false /\ is_Some (participants S !! creator_ U) /\ is_Some (descriptions S !! description_ U);
  wf_ids : forall t, t ∈ idToTopicMap_ S <-> is_Some (topics S !! t);
  wf_part : forall q p, participants S !! q = Some p ->
    aliveStatus_ p = true /\ isOwner federation_id p = true
    /\ NoDup (topicRefs_ p) /\ NoDup (publications_ p) /\ NoDup (subscriptions_ p);
  wf_parts : forall q, q ∈ participants_ S <-> is_Some (participants S !! q);
  wf_members : forall q p sd e, participants S !! q = Some p -> (sd, e) ∉ D ->
    (e ∈ members sd p <-> exists x, endpoints S !! (sd, e) = Some x /\ participant_ x = q);
  wf_topicRefs : forall q p t, participants S !! q = Some p ->
    (t ∈ topicRefs_ p <-> exists U, topics S !! t = Some U /\ creator_ U = q);
  wf_desc_subs : forall i y s, descriptions S !! i = Some y ->
    (s ∈ subscriptionRefs_ y <-> exists x U, endpoints S !! (Sub, s) = Some x /\ (Sub, s) ∉ D
                                   /\ topics S !! topic_ x = Some U /\ description_ U = i);
  wf_desc_topics : forall i y t, descriptions S !! i = Some y ->
    (t ∈ topics_ y <-> exists U, topics S !! t = Some U /\ description_ U = i);
  wf_desc : forall i y, descriptions S !! i = Some y -> topics_ y <> [] /\ (i < next_description S)%nat;
  wf_descs : forall i, i ∈ topicDescriptions_ S <-> is_Some (descriptions S !! i);
  wf_names : forall i j y z, descriptions S !! i = Some y -> descriptions S !! j = Some z -> name_ y = name_ z -> i = j }.

Lemma wf_reach D S sd e x : wf D S -> endpoints S !! (sd, e) = Some x -> exists p, reach federation_id S sd e x p.
Proof.
  intros H Hx. destruct (wf_end D S H sd e x Hx) as (Hdur & p & Hp). exists p. destruct (wf_part D S H _ p Hp) as (? & ? & _).
  by constructor.
Qed.

Lemma wf_equiv D D' S : D ≡ D' -> wf D S -> wf D' S.
Proof.
  intros E [H1 H2 H3 H4 H5 H6 H7 H8 H9 H10 H11 H12 H13 H14 H15 H16].
  assert (Hn : forall k, k ∉ D' <-> k ∉ D) by set_solver. split; try done.
  - intros sd e x ? Hk. apply (H4 sd e x); [done|by apply Hn].
  - intros t U sd e HU. rewrite (H5 t U sd e HU). by setoid_rewrite Hn.
  - intros q p sd e Hp Hk. apply H10; [done|by apply Hn].
  - intros i y s Hy. rewrite (H12 i y s Hy). by setoid_rewrite Hn.
Qed.

(** ** Associations *)

Abbreviation fits := (fits federation_id wild_match).

(** The endpoints use topics of the same name. *)
Definition same_topic (S : Domain) (q : RepoId * RepoId) : Prop :=
  exists x y U V, endpoints S !! (Pub, q.1) = Some x /\ endpoints S !! (Sub, q.2) = Some y
    /\ topics S !! topic_ x = Some U /\ topics S !! topic_ y = Some V /\ description_ U = description_ V.

Definition matched (S : Domain) (q : RepoId * RepoId) : Prop := fits S q /\ same_topic S q.

Definition kept (D : propset (side * RepoId)) (q : RepoId * RepoId) : Prop := (Pub, q.1) ∉ D /\ (Sub, q.2) ∉ D.

(** The associations are those of the pairs that match, and each endpoint was told
    exactly its own. *)
Record assoc_ok (D : propset (side * RepoId)) (S : Domain) (L T : propset triple) : Prop := {
  as_linked : forall u, u ∈ L <-> matched S (pair_of u) /\ kept D (pair_of u);
  as_told : forall u, is_Some (endpoints S !! u.1) -> u.1 ∉ D -> (u ∈ T <-> u ∈ L) }.

Record good (D : propset (side * RepoId)) (n : Z) (d : Domain) : Prop := {
  good_wf : wf D (static d);
  good_assoc : assoc_ok D (static d) (linked d) (told d);
  good_room : roomy n d }.

Lemma assoc_equiv D S L L' T T' : L ≡ L' -> T ≡ T' -> assoc_ok D S L T -> assoc_ok D S L' T'.
Proof.
  intros E1 E2 [H1 H2]. split; [intros u; rewrite <- (E1 u); apply H1|]. intros u ? ?.
  rewrite <- (E1 u), <- (E2 u). by apply H2.
Qed.

Lemma good_state D n d : good D n d <-> exists S L T, state_is S L T n d /\ wf D S /\ assoc_ok D S L T.
Proof.
  split.
  - intros [H1 H2 H3]. exists (static d), (linked d), (told d). split; [by apply state_self|done].
  - intros (S & L & T & [<- E1 E2 Hr] & Hw & Ha). split; [done| |done]. by eapply assoc_equiv; [symmetry..|].
Qed.

(** The side [sd] of a pair. *)
Definition side_of (sd : side) (q : RepoId * RepoId) : RepoId := match sd with Pub => q.1 | Sub => q.2 end.

Lemma pair_of_side u : side_of u.1.1 (pair_of u) = u.1.2 /\ side_of (other u.1.1) (pair_of u) = u.2.
Proof. by destruct u as [[[] ?] ?]. Qed.

Lemma the_pair_of sd e o : pair_of (sd, e, o) = the_pair sd e o.
Proof. by destruct sd. Qed.

Lemma kept_iff D q : kept D q <-> forall sd, (sd, side_of sd q) ∉ D.
Proof. unfold kept. split; [by intros [? ?] []|]. intros H. split; [apply (H Pub)|apply (H Sub)]. Qed.

Lemma matched_ends S q : matched S q -> forall sd, exists x p, reach federation_id S sd (side_of sd q) x p.
Proof. intros [(x & y & px & py & Hx & Hy & _) _] []; eauto. Qed.

Lemma assoc_sided D S L T q : wf D S -> assoc_ok D S L T -> kept D q ->
  (forall sd, is_Some (endpoints S !! (sd, side_of sd q))) -> sided q L T.
Proof.
  intros Hw [H1 H2] Hk He u v Hu Hv. rewrite !H1, Hu, Hv. split; [done|]. rewrite <- Hu, <- H1. apply H2.
  - destruct (pair_of_side u) as [E _]. rewrite (surjective_pairing u.1), <- E, Hu. apply He.
  - destruct (pair_of_side u) as [E _]. rewrite (surjective_pairing u.1), <- E, Hu. by apply kept_iff.
Qed.

(** The endpoints an endpoint is associated with can be called. *)
Lemma assoc_reach D S L T sd e o : wf D S -> assoc_ok D S L T -> (sd, e, o) ∈ L ->
  exists y p, reach federation_id S (other sd) o y p.
Proof.
  intros Hw [H1 _] HL. apply H1 in HL as [Hm _]. destruct (matched_ends _ _ Hm (other sd)) as (y & p & Hy).
  exists y, p. destruct (pair_of_side (sd, e, o)) as [_ E]. cbn in E. by rewrite E in Hy.
Qed.

(** ** Changes of the objects that are not endpoints *)

Class StaticHeap {K V} `{Countable K} (h : heap K V) : Prop := {
  sh_objects : forall d, objects h (static d) = objects h d;
  sh_set : forall m d, static (set_objects h m d) = set_objects h m (static d);
  sh_endpoints : forall m d, endpoints (set_objects h m d) = endpoints d;
  sh_calls : forall m d, calls (set_objects h m d) = calls d }.

#[export] Instance parts_static : StaticHeap parts. Proof. by constructor. Qed.
#[export] Instance tops_static : StaticHeap tops. Proof. by constructor. Qed.
#[export] Instance descs_static : StaticHeap descs. Proof. by constructor. Qed.

Section Heaps.
Context {K V} `{Countable K} (h : heap K V) `{!StaticHeap h}.

Lemma state_set S L T n m d : state_is S L T n d -> state_is (set_objects h m S) L T n (set_objects h m d).
Proof.
  intros [H1 H2 H3 H4]. split.
  - by rewrite sh_set, H1.
  - rewrite <- H2. intros u. unfold linked. rewrite !elem_of_PropSet. by rewrite sh_endpoints.
  - rewrite <- H3. intros u. unfold told. rewrite !elem_of_PropSet. by rewrite sh_calls.
  - destruct H4 as [Hn H4]. split; [done|]. intros k x. rewrite sh_endpoints. apply H4.
Qed.

Lemma state_objects S L T n d : state_is S L T n d -> objects h d = objects h S.
Proof. intros [<- _ _ _]. by rewrite sh_objects. Qed.

Lemma wp_load_s S L T n d k v Q : state_is S L T n d -> objects h S !! k = Some v -> Q v d -> wp (load h k) Q d.
Proof. intros Hd Hv HQ. apply (wp_load _ _ v); [|done]. by rewrite (state_objects _ _ _ _ _ Hd). Qed.

Lemma wp_store_s S L T n d k v Q : state_is S L T n d ->
  (forall d', state_is (set_objects h (<[k := v]> (objects h S)) S) L T n d' -> Q () d') -> wp (store h k v) Q d.
Proof.
  intros Hd HQ. eexists _, _. split; [reflexivity|]. apply HQ. rewrite (state_objects _ _ _ _ _ Hd). by apply state_set.
Qed.

Lemma wp_modify_s S L T n d k f v Q : state_is S L T n d -> objects h S !! k = Some v ->
  (forall d', state_is (set_objects h (<[k := f v]> (objects h S)) S) L T n d' -> Q () d') -> wp (modify h k f) Q d.
Proof. intros Hd Hv HQ. apply wp_bind. eapply wp_load_s; [exact Hd|exact Hv|]. by eapply wp_store_s. Qed.

Lemma wp_free_s S L T n d k Q : state_is S L T n d ->
  (forall d', state_is (set_objects h (delete k (objects h S)) S) L T n d' -> Q () d') -> wp (free h k) Q d.
Proof.
  intros Hd HQ. eexists _, _. split; [reflexivity|]. apply HQ. rewrite (state_objects _ _ _ _ _ Hd). by apply state_set.
Qed.

End Heaps.

(** Members of the domain. *)
Definition put_participants (l : list RepoId) (d : Domain) : Domain :=
  mkDomain (endpoints d) (participants d) (topics d) (descriptions d) (next_description d) l
    (topicDescriptions_ d) (idToTopicMap_ d) (deadParticipants_ d) (answers_ d) (calls d).
Definition put_descriptions (l : list nat) (d : Domain) : Domain :=
  mkDomain (endpoints d) (participants d) (topics d) (descriptions d) (next_description d) (participants_ d)
    l (idToTopicMap_ d) (deadParticipants_ d) (answers_ d) (calls d).
Definition put_ids (l : list RepoId) (d : Domain) : Domain :=
  mkDomain (endpoints d) (participants d) (topics d) (descriptions d) (next_description d) (participants_ d)
    (topicDescriptions_ d) l (deadParticipants_ d) (answers_ d) (calls d).

Lemma wp_set_participants S L T n d l Q : state_is S L T n d ->
  (forall d', state_is (put_participants l S) L T n d' -> Q () d') -> wp (set_participants_ l) Q d.
Proof. intros [<- ? ? ?] HQ. eexists _, _. split; [reflexivity|]. apply HQ. by split. Qed.
Lemma wp_set_descriptions S L T n d l Q : state_is S L T n d ->
  (forall d', state_is (put_descriptions l S) L T n d' -> Q () d') -> wp (set_topicDescriptions_ l) Q d.
Proof. intros [<- ? ? ?] HQ. eexists _, _. split; [reflexivity|]. apply HQ. by split. Qed.
Lemma wp_set_ids S L T n d l Q : state_is S L T n d ->
  (forall d', state_is (put_ids l S) L T n d' -> Q () d') -> wp (set_idToTopicMap_ l) Q d.
Proof. intros [<- ? ? ?] HQ. eexists _, _. split; [reflexivity|]. apply HQ. by split. Qed.

(** What a domain reads of itself. *)
Lemma wp_get_s S L T n d Q : state_is S L T n d ->
  (participants_ d = participants_ S -> topicDescriptions_ d = topicDescriptions_ S -> idToTopicMap_ d = idToTopicMap_ S ->
   deadParticipants_ d = deadParticipants_ S -> descriptions d = descriptions S -> Q d d) -> wp get Q d.
Proof. intros [<- _ _ _] HQ. by apply wp_get, HQ. Qed.

Lemma wp_remove_dead S L T n d Q : state_is S L T n d -> deadParticipants_ S = [] -> Q () d ->
  wp (remove_dead_participants federation_id um_) Q d.
Proof.
  intros Hd Hdead HQ. assert (E : deadParticipants_ d = []) by (rewrite <- Hdead, <- (st_static _ _ _ _ _ Hd); done).
  apply wp_bind, wp_get. exists (), d. split; [|done].
  destruct (length (participants_ d) + length (deadParticipants_ d))%nat; cbn; unfold mbind, repo_bind; cbn; by rewrite E.
Qed.

(** ** Taking an endpoint out of its topic *)

Lemma reach_same S S' sd e x p : endpoints S' = endpoints S -> participants S' = participants S ->
  reach federation_id S sd e x p -> reach federation_id S' sd e x p.
Proof. intros E1 E2 []. split; [by rewrite E1|by rewrite E2|done..]. Qed.

Lemma fits_same S S' q : endpoints S' = endpoints S -> participants S' = participants S -> fits S q <-> fits S' q.
Proof.
  intros E1 E2. split; intros (x & y & px & py & Hx & Hy & H); exists x, y, px, py;
    (split; [|split; [|done]]); eapply reach_same; by try exact Hx; try exact Hy.
Qed.

Lemma same_topic_same S S' q : endpoints S' = endpoints S ->
  (forall t, description_ <$> (topics S' !! t) = description_ <$> (topics S !! t)) -> same_topic S q -> same_topic S' q.
Proof.
  intros E Et (x & y & U & V & Hx & Hy & HU & HV & Hd). pose proof (Et (topic_ x)) as EU. pose proof (Et (topic_ y)) as EV.
  rewrite HU in EU. rewrite HV in EV. destruct (topics S' !! topic_ x) as [U'|] eqn:HU'; [|done].
  destruct (topics S' !! topic_ y) as [V'|] eqn:HV'; [|done]. injection EU as EU. injection EV as EV.
  exists x, y, U', V'. rewrite !E. split_and!; [done..|congruence].
Qed.

Lemma matched_same S S' q : endpoints S' = endpoints S -> participants S' = participants S ->
  (forall t, description_ <$> (topics S' !! t) = description_ <$> (topics S !! t)) -> matched S' q <-> matched S q.
Proof.
  intros E1 E2 Et. unfold matched. rewrite (fits_same S S') by done. split; intros [? ?]; (split; [done|]).
  - eapply (same_topic_same S' S); [done|done|done].
  - eapply (same_topic_same S S'); [done|done|done].
Qed.

Lemma description_insert S t U f : topics S !! t = Some U -> description_ (f U) = description_ U ->
  forall t', description_ <$> (<[t := f U]> (topics S) !! t') = description_ <$> (topics S !! t').
Proof.
  intros HU Ef t'. destruct (decide (t' = t)) as [->|]; [|by rewrite lookup_insert_ne].
  by rewrite lookup_insert_eq, HU; cbn; rewrite Ef.
Qed.

Definition detach_topic (sd : side) (e t : RepoId) (U : Topic) (S : Domain) : Domain :=
  set_objects tops (<[t := with_refs sd (set_remove e) U]> (topics S)) S.
Definition detach_desc (e : RepoId) (i : nat) (y : Topic_Description) (S : Domain) : Domain :=
  set_objects descs (<[i := with_subscriptionRefs (set_remove e) y]> (descriptions S)) S.
Definition detached (sd : side) (e t : RepoId) (U : Topic) (y : Topic_Description) (S : Domain) : Domain :=
  let S' := detach_topic sd e t U S in if sd is Sub then detach_desc e (description_ U) y S' else S'.

Lemma topic_refs_with sd sd' f U : topic_refs sd' (with_refs sd f U) = if decide (sd' = sd) then f (topic_refs sd U) else topic_refs sd' U.
Proof. by destruct sd, sd'. Qed.

Lemma with_refs_same sd f U : creator_ (with_refs sd f U) = creator_ U /\ description_ (with_refs sd f U) = description_ U
  /\ removed_ (with_refs sd f U) = removed_ U.
Proof. by destruct sd. Qed.

Lemma wp_remove_reference S L T n d sd e t U y Q : state_is S L T n d -> topics S !! t = Some U ->
  descriptions S !! description_ U = Some y -> e ∈ topic_refs sd U -> (sd = Sub -> e ∈ subscriptionRefs_ y) ->
  (forall r d', state_is (detached sd e t U y S) L T n d' -> Q r d') -> wp (remove_reference sd t e) Q d.
Proof.
  intros Hd HU Hy He Hs HQ. destruct sd; cbn [remove_reference topic_refs] in *.
  - apply wp_bind. eapply (wp_load_s tops); [exact Hd|exact HU|]. rewrite bool_decide_eq_true_2 by done.
    apply wp_bind. eapply (wp_modify_s tops); [exact Hd|exact HU|]. intros d1 Hd1. by apply wp_ret, HQ.
  - apply wp_bind. eapply (wp_load_s tops); [exact Hd|exact HU|]. rewrite bool_decide_eq_true_2 by done.
    apply wp_bind. eapply (wp_modify_s tops); [exact Hd|exact HU|]. intros d1 Hd1. apply wp_bind, wp_ignore.
    apply wp_bind. eapply (wp_load_s descs); [exact Hd1|exact Hy|]. rewrite bool_decide_eq_true_2 by (by apply Hs).
    apply wp_bind. eapply (wp_modify_s descs); [exact Hd1|exact Hy|]. intros d2 Hd2. by apply wp_ret, wp_ret, HQ.
Qed.

Section Detach.
Context (D : propset (side * RepoId)) (S : Domain) (sd : side) (e : RepoId) (x : Endpoint) (U : Topic) (y : Topic_Description).
Context (H : wf D S) (Hx : endpoints S !! (sd, e) = Some x) (HD : (sd, e) ∉ D).
Context (HU : topics S !! topic_ x = Some U) (Hy : descriptions S !! description_ U = Some y).

Let S' := detached sd e (topic_ x) U y S.

Lemma detached_topics t V : topics S' !! t = Some V -> exists V', topics S !! t = Some V'
  /\ creator_ V = creator_ V' /\ description_ V = description_ V' /\ removed_ V = removed_ V'
  /\ forall sd', topic_refs sd' V = if decide (sd' = sd /\ t = topic_ x) then set_remove e (topic_refs sd V') else topic_refs sd' V'.
Proof.
  assert (topics S' = <[topic_ x := with_refs sd (set_remove e) U]> (topics S)) as -> by (by subst S'; destruct sd).
  destruct (decide (t = topic_ x)) as [->|Hn].
  - rewrite lookup_insert_eq. intros [= <-]. exists U. destruct (with_refs_same sd (set_remove e) U) as (? & ? & ?).
    split_and!; [done..|]. intros sd'. rewrite topic_refs_with.
    destruct (decide (sd' = sd)) as [->|]; [by rewrite decide_True|by rewrite decide_False by tauto].
  - rewrite lookup_insert_ne by done. intros HV. exists V. split_and!; [done..|]. intros sd'. by rewrite decide_False by tauto.
Qed.

Lemma detached_topics_back t V' : topics S !! t = Some V' -> exists V, topics S' !! t = Some V
  /\ creator_ V = creator_ V' /\ description_ V = description_ V'.
Proof.
  assert (topics S' = <[topic_ x := with_refs sd (set_remove e) U]> (topics S)) as -> by (by subst S'; destruct sd).
  intros HV. destruct (decide (t = topic_ x)) as [->|Hn].
  - rewrite lookup_insert_eq. exists (with_refs sd (set_remove e) U). destruct (with_refs_same sd (set_remove e) U). naive_solver.
  - rewrite lookup_insert_ne by done. eauto.
Qed.

Lemma detached_descriptions i z : descriptions S' !! i = Some z -> exists z', descriptions S !! i = Some z'
  /\ topics_ z = topics_ z' /\ name_ z = name_ z'
  /\ subscriptionRefs_ z = if decide (sd = Sub /\ i = description_ U) then set_remove e (subscriptionRefs_ z') else subscriptionRefs_ z'.
Proof.
  subst S'. destruct sd; cbn [detached detach_topic detach_desc].
  - intros Hz. exists z. split_and!; [done..|by rewrite decide_False by naive_solver].
  - cbn. destruct (decide (i = description_ U)) as [->|Hn].
    + rewrite lookup_insert_eq. intros [= <-]. exists y. split_and!; [done..|by rewrite decide_True].
    + rewrite lookup_insert_ne by done. intros Hz. exists z. split_and!; [done..|by rewrite decide_False by naive_solver].
Qed.

Lemma detached_described i : is_Some (descriptions S' !! i) <-> is_Some (descriptions S !! i).
Proof.
  subst S'. destruct sd; cbn; [done|]. destruct (decide (i = description_ U)) as [->|Hn];
    [rewrite lookup_insert_eq, Hy; by split; eauto|by rewrite lookup_insert_ne].
Qed.

Lemma detached_others : endpoints S' = endpoints S /\ participants S' = participants S /\ answers_ S' = answers_ S
  /\ deadParticipants_ S' = deadParticipants_ S /\ idToTopicMap_ S' = idToTopicMap_ S /\ participants_ S' = participants_ S
  /\ topicDescriptions_ S' = topicDescriptions_ S /\ next_description S' = next_description S.
Proof. subst S'. by destruct sd. Qed.

Lemma detached_not k : k ∉ D ∪ {[ (sd, e) ]} <-> k ∉ D /\ k <> (sd, e).
Proof. set_solver. Qed.

Lemma detached_refs t V sd' e' : topics S' !! t = Some V ->
  (e' ∈ topic_refs sd' V <-> exists x', endpoints S !! (sd', e') = Some x' /\ topic_ x' = t /\ (sd', e') ∉ D ∪ {[ (sd, e) ]}).
Proof.
  intros HV. destruct (detached_topics t V HV) as (V' & HV' & _ & _ & _ & ->). pose proof (wf_refs D S H t V' sd' e' HV') as E.
  setoid_rewrite detached_not. destruct (decide (sd' = sd /\ t = topic_ x)) as [[-> ->]|Hne].
  - rewrite elem_set_remove, E. naive_solver.
  - rewrite E. split; [|naive_solver]. intros (x' & Hx' & Ht & Hn). exists x'. split_and!; [done..|].
    intros [= -> ->]. apply Hne. split; [done|]. congruence.
Qed.

Lemma detached_subs i z s : descriptions S' !! i = Some z ->
  (s ∈ subscriptionRefs_ z <-> exists x' V, endpoints S !! (Sub, s) = Some x' /\ (Sub, s) ∉ D ∪ {[ (sd, e) ]}
                                /\ topics S' !! topic_ x' = Some V /\ description_ V = i).
Proof.
  intros Hz. destruct (detached_descriptions i z Hz) as (z' & Hz' & _ & _ & ->). pose proof (wf_desc_subs D S H i z' s Hz') as E.
  assert (Hiff : (exists x' V, endpoints S !! (Sub, s) = Some x' /\ (Sub, s) ∉ D ∪ {[ (sd, e) ]}
      /\ topics S' !! topic_ x' = Some V /\ description_ V = i) <-> s ∈ subscriptionRefs_ z' /\ (Sub, s) <> (sd, e)).
  { rewrite E. setoid_rewrite detached_not. split.
    - intros (x' & V & Hx' & [Hn Hne] & HV & Hi). destruct (detached_topics _ V HV) as (V' & HV' & _ & Hd' & _).
      split; [|done]. exists x', V'. by rewrite <- Hd'.
    - intros [(x' & V & Hx' & Hn & HV & Hi) Hne]. destruct (detached_topics_back _ V HV) as (V' & HV' & _ & Hd').
      exists x', V'. by rewrite Hd'. }
  rewrite Hiff. destruct (decide (sd = Sub /\ i = description_ U)) as [[-> ->]|Hne]; [rewrite elem_set_remove; naive_solver|].
  split; [|tauto]. intros Hs. split; [done|]. intros [= Hsd He]. apply Hne. split; [done|]. subst s.
  apply E in Hs as (x' & V & Hx' & _ & HV & Hi). rewrite Hsd in Hx'. congruence.
Qed.

Lemma wf_detached : wf (D ∪ {[ (sd, e) ]}) S'.
Proof.
  destruct detached_others as (S1 & S2 & S3 & S4 & S5 & S6 & S7 & S8).
  split; rewrite ?S1, ?S2, ?S3, ?S4, ?S5, ?S6, ?S7, ?S8.
  - apply H.
  - apply H.
  - apply (wf_end D S H).
  - intros sd' e' x' Hx' Hn. apply detached_not in Hn as [Hn _]. destruct (wf_topic_of D S H _ _ _ Hx' Hn) as (V & HV & Hc).
    destruct (detached_topics_back _ _ HV) as (V' & HV' & Hc' & _). exists V'. by rewrite Hc'.
  - intros t V sd' e'. apply detached_refs.
  - intros t V HV. destruct (detached_topics t V HV) as (V' & HV' & -> & -> & -> & _). rewrite detached_described. by apply (wf_topic D S H t).
  - intros t. rewrite (wf_ids D S H t). split; [intros [V HV]; destruct (detached_topics_back t V HV) as (V' & HV' & _); by exists V'|].
    intros [V HV]. destruct (detached_topics t V HV) as (V' & HV' & _). by exists V'.
  - apply (wf_part D S H).
  - apply (wf_parts D S H).
  - intros q p sd' e' Hp Hn. apply detached_not in Hn as [Hn _]. by apply (wf_members D S H).
  - intros q p t Hp. rewrite (wf_topicRefs D S H q p t Hp). split; intros (V & HV & Hc).
    + destruct (detached_topics_back t V HV) as (V' & HV' & Hc' & _). exists V'. by rewrite Hc'.
    + destruct (detached_topics t V HV) as (V' & HV' & Hc' & _). exists V'. by rewrite <- Hc'.
  - intros i z s. apply detached_subs.
  - intros i z t Hz. destruct (detached_descriptions i z Hz) as (z' & Hz' & -> & _ & _). rewrite (wf_desc_topics D S H i z' t Hz'). split; intros (V & HV & Hi).
    + destruct (detached_topics_back t V HV) as (V' & HV' & _ & Hd'). exists V'. by rewrite Hd'.
    + destruct (detached_topics t V HV) as (V' & HV' & _ & Hd' & _). exists V'. by rewrite <- Hd'.
  - intros i z Hz. destruct (detached_descriptions i z Hz) as (z' & Hz' & -> & _ & _). by apply (wf_desc D S H i z').
  - intros i. rewrite detached_described. apply (wf_descs D S H).
  - intros i j z1 z2 H1 H2. destruct (detached_descriptions i z1 H1) as (z1' & H1' & _ & -> & _), (detached_descriptions j z2 H2) as (z2' & H2' & _ & -> & _).
    by apply (wf_names D S H i j z1').
Qed.

End Detach.

End Invariant.
End InfoRepoInv.
