(* ===== verification/InfoRepoOps.v ===== *)
(** * The information repository: removing endpoints, topics and participants

    How the operations that delete objects keep the invariant of InfoRepoInv, when
    every remote call returns. *)

From stdpp Require Import propset.
From S2P Require Import Prelude Qos InfoRepo InfoRepoLogic InfoRepoAssoc InfoRepoInv.

Module InfoRepoOps.
Export InfoRepoInv.

Section Operations.
Context (federation_id : Z) (um_ : bool) (wild_match : cstring -> cstring -> bool).

Abbreviation wf := (wf federation_id).
Abbreviation reach := (reach federation_id).
Abbreviation matched := (matched federation_id wild_match).
Abbreviation assoc_ok := (assoc_ok federation_id wild_match).
Abbreviation without P L := (revise P (fun _ => False) L).
Abbreviation good := (good federation_id wild_match).

(** ** States that match alike *)

(** A participant without the lists of what it has. *)
Definition face (p : Participant) : Participant :=
  with_topicRefs (fun _ => []) (with_members Pub (fun _ => []) (with_members Sub (fun _ => []) p)).

(** What [S] has of an endpoint, [S'] has as well. *)
Definition sees (S S' : Domain) (sd : side) (e : RepoId) : Prop :=
  forall x, endpoints S !! (sd, e) = Some x -> endpoints S' !! (sd, e) = Some x
    /\ (forall p, participants S !! participant_ x = Some p -> exists p', participants S' !! participant_ x = Some p' /\ face p' = face p)
    /\ (forall U, topics S !! topic_ x = Some U -> exists U', topics S' !! topic_ x = Some U' /\ description_ U' = description_ U).

Lemma face_ignores p p' sd o y : face p' = face p -> ignores p' sd o y = ignores p sd o y.
Proof. destruct p, p'. unfold face, ignores, is_ignored. cbn. intros [= -> -> -> -> -> -> ->]. by destruct sd. Qed.

Lemma reach_sees S S' sd e x p : sees S S' sd e -> reach S sd e x p ->
  exists p', reach S' sd e x p' /\ face p' = face p.
Proof.
  intros Hs [H1 H2 H3 H4 H5]. destruct (Hs x H1) as (Hx & Hp & _). destruct (Hp p H2) as (p' & Hp' & E). exists p'.
  split; [|done]. pose proof E as E'. destruct p, p'. cbn in E'. injection E' as -> -> _ _ _ _ _. by constructor.
Qed.

Lemma matched_sees S S' q : (forall sd, sees S S' sd (side_of sd q)) -> matched S q -> matched S' q.
Proof.
  intros H [(x & y & px & py & Hx & Hy & I1 & I2 & C) (x' & y' & U & V & Hx' & Hy' & HU & HV & Hd)].
  destruct (reach_sees _ _ _ _ _ _ (H Pub) Hx) as (px' & Rx & Fx). destruct (reach_sees _ _ _ _ _ _ (H Sub) Hy) as (py' & Ry & Fy).
  split.
  - exists x, y, px', py'. split_and!; [done..| | |done]; by rewrite face_ignores with (1 := Fx) || rewrite face_ignores with (1 := Fy).
  - destruct (H Pub x' Hx') as (Ex & _ & Tx). destruct (Tx U HU) as (U' & HU' & EU).
    destruct (H Sub y' Hy') as (Ey & _ & Ty). destruct (Ty V HV) as (V' & HV' & EV).
    exists x', y', U', V'. split_and!; [done..|congruence].
Qed.

Lemma assoc_transfer D D' S S' L T : assoc_ok D S L T ->
  (forall q, matched S' q /\ kept D' q <-> matched S q /\ kept D q) ->
  (forall k, is_Some (endpoints S' !! k) -> k ∉ D' -> is_Some (endpoints S !! k) /\ k ∉ D) -> assoc_ok D' S' L T.
Proof.
  intros [H1 H2] Hm He. split; [intros u; by rewrite H1, Hm|]. intros u Hu Hk. by apply H2; apply He.
Qed.

Lemma matched_pair_sees S S' D D' q : (forall sd e, (sd, e) ∉ D -> (sd, e) ∉ D' /\ sees S S' sd e) ->
  matched S q /\ kept D q -> matched S' q /\ kept D' q.
Proof.
  rewrite !kept_iff. intros H [Hm Hk]. split; [|intros sd; by apply H, Hk]. eapply matched_sees; [|exact Hm]. intros sd. by apply H, Hk.
Qed.

(** ** Deleting endpoints *)

Definition put_ends (m : gmap (side * RepoId) Endpoint) (S : Domain) : Domain := set_objects ends m S.

Lemma wp_free_end S L T n d k Q : state_is S L T n d -> (forall o, (k, o) ∉ L) ->
  (forall d', state_is (put_ends (delete k (endpoints S)) S) L T n d' -> Q () d') -> wp (free ends k) Q d.
Proof.
  intros [<- H2 H3 H4] Hk HQ. eexists _, _. split; [reflexivity|]. apply HQ. split.
  - unfold static, put_ends. cbn. by rewrite fmap_delete.
  - intros u. rewrite <- (H2 u). unfold linked. rewrite !elem_of_PropSet. cbn. destruct (decide (u.1 = k)) as [<-|Hn].
    + rewrite lookup_delete_eq. split; [by intros (? & [=] & _)|]. intros Hu. destruct (Hk u.2). apply H2. unfold linked.
      rewrite elem_of_PropSet. exact Hu.
    + by rewrite lookup_delete_ne.
  - done.
  - destruct H4 as [Hn H4]. split; [done|]. intros k' x. cbn. intros [_ Hx]%lookup_delete_Some. by apply (H4 k').
Qed.

(** An endpoint without associations is just freed. *)
Lemma wp_delete_endpoint S L T n d sd e x Q : state_is S L T n d -> endpoints S !! (sd, e) = Some x -> (forall o, (sd, e, o) ∉ L) ->
  (forall d', state_is (put_ends (delete (sd, e) (endpoints S)) S) L T n d' -> Q () d') ->
  wp (delete_endpoint federation_id sd e) Q d.
Proof.
  intros Hd Hx HL HQ. apply wp_bind. eapply wp_load_end; [exact Hd|exact Hx|]. intros x1 Hx1 _.
  assert (associations_ x1 = []) as ->.
  { destruct (associations_ x1) as [|o l] eqn:E; [done|]. destruct (HL o). eapply linked_elem; [exact Hd|exact Hx1|]. rewrite E. by left. }
  rewrite bool_decide_eq_true_2 by done. cbn [negb when]. apply wp_bind, wp_ret. by eapply wp_free_end.
Qed.

(** Deleting an endpoint that was taken out of its topic. *)
Lemma wf_delete D S sd e : wf D S -> (sd, e) ∈ D -> wf D (put_ends (delete (sd, e) (endpoints S)) S).
Proof.
  intros [H1 H2 H3 H4 H5 H6 H7 H8 H9 H10 H11 H12 H13 H14 H15 H16] Hk.
  assert (Hlk : forall k x, delete (sd, e) (endpoints S) !! k = Some x <-> k <> (sd, e) /\ endpoints S !! k = Some x).
  { intros k x. rewrite lookup_delete_Some. naive_solver. }
  split; cbn; try done.
  - intros sd' e' x Hx. apply Hlk in Hx as [_ Hx]. by apply (H3 sd' e').
  - intros sd' e' x Hx. apply Hlk in Hx as [_ Hx]. by apply (H4 sd' e').
  - intros t U sd' e' HU. rewrite (H5 t U sd' e' HU). setoid_rewrite Hlk. set_solver.
  - intros q p sd' e' Hp HD. rewrite (H10 q p sd' e' Hp HD). setoid_rewrite Hlk. set_solver.
  - intros i y s Hy. rewrite (H12 i y s Hy). setoid_rewrite Hlk. set_solver.
Qed.

Lemma assoc_delete D S L T sd e : assoc_ok D S L T -> (sd, e) ∈ D -> assoc_ok D (put_ends (delete (sd, e) (endpoints S)) S) L T.
Proof.
  intros Ha Hk. eapply assoc_transfer; [exact Ha| |].
  - intros q. split; apply matched_pair_sees; intros sd' e' Hn; (split; [done|]); intros x; cbn.
    + intros [_ Hx]%lookup_delete_Some. split; [done|]. split; eauto.
    + intros Hx. rewrite lookup_delete_ne by set_solver. split; [done|]. split; eauto.
  - intros k [x Hx] Hn. cbn in Hx. apply lookup_delete_Some in Hx as [_ Hx]. split; [by exists x|done].
Qed.

Lemma assoc_none D S L T sd e o : assoc_ok D S L T -> (sd, e) ∈ D -> (sd, e, o) ∉ L.
Proof.
  intros [H _] Hk HL. apply H in HL as [_ Hkept]. rewrite kept_iff in Hkept.
  destruct (pair_of_side (sd, e, o)) as [E _]. cbn in E. apply (Hkept sd). by rewrite E.
Qed.

(** ** Taking endpoints out of their topics *)

(** A sequence of two operations, then more. *)
Lemma wp_seq {A B C} (m1 : repo A) (m2 : repo B) (k : repo C) Q d :
  wp (m1;; m2) (fun _ d' => wp k Q d') d -> wp (m1;; m2;; k) Q d.
Proof.
  intros (a & d' & E & H). unfold mbind, repo_bind in *. destruct H as (b & d'' & E' & HQ).
  exists b, d''. split; [|done]. destruct (m1 d) as [[[u|ex] d1]| | |]; try done. by rewrite E.
Qed.

Lemma assoc_detached D S S' L T sd e : wf D S -> assoc_ok D S L T -> (forall q, matched S' q <-> matched S q) -> endpoints S' = endpoints S ->
  is_Some (endpoints S !! (sd, e)) -> (sd, e) ∉ D ->
  assoc_ok (D ∪ {[ (sd, e) ]}) S' (without (ended sd e (fun o => (sd, e, o) ∈ L)) L) (others_told sd e (fun o => (sd, e, o) ∈ L) T).
Proof.
  intros Hw [H1 H2] Hm He Hx HD.
  assert (Hk : forall q, kept (D ∪ {[ (sd, e) ]}) q <-> kept D q /\ side_of sd q <> e).
  { intros q. unfold kept. destruct sd; cbn; rewrite !not_elem_of_union, !not_elem_of_singleton; naive_solver. }
  assert (Hend : forall u, u ∈ L -> ended sd e (fun o => (sd, e, o) ∈ L) (pair_of u) <-> side_of sd (pair_of u) = e).
  { intros u Hu. pose proof (proj1 (H1 u) Hu) as [Hu1 Hu2]. split.
    - intros (o & _ & ->). by destruct sd.
    - intros Hs. exists (side_of (other sd) (pair_of u)).
      assert (E : pair_of u = the_pair sd e (side_of (other sd) (pair_of u))) by (rewrite <- Hs; destruct sd; apply surjective_pairing).
      split; [|done]. apply H1. rewrite the_pair_of, <- E. done. }
  split.
  - intros u. rewrite without_elem, Hm, Hk. split.
    + intros [Hne Hu]. rewrite Hend in Hne by done. apply H1 in Hu. tauto.
    + intros (Hu1 & Hu2 & Hne). assert (Hu : u ∈ L) by (by apply H1). by rewrite Hend.
  - intros u. rewrite He. intros Hu Hn. assert (u.1 ∉ D /\ u.1 <> (sd, e)) as [Hn1 Hn2] by set_solver.
    pose proof (H2 u Hu Hn1) as E. rewrite elem_others_told, without_elem, ended_iff, E. tauto.
Qed.

Lemma detached_matched S sd e t U y q : topics S !! t = Some U -> matched (detached sd e t U y S) q <-> matched S q.
Proof.
  intros HU. apply matched_same; [by destruct sd|by destruct sd|]. intros t'.
  replace (topics (detached sd e t U y S)) with (<[t := with_refs sd (set_remove e) U]> (topics S)) by (by destruct sd).
  apply (description_insert S t U (with_refs sd (set_remove e))); [done|]. apply with_refs_same.
Qed.

(** [S'] has the same endpoints, participants and topics, but for what refers to the
    endpoints. *)
Record frame (S S' : Domain) : Prop := {
  fr_end : endpoints S' = endpoints S;
  fr_part : participants S' = participants S;
  fr_parts : participants_ S' = participants_ S;
  fr_top : forall t, creator_ <$> topics S' !! t = creator_ <$> topics S !! t }.

Lemma wp_leave D S L T n d sd e x lost Q : wf D S -> assoc_ok D S L T -> state_is S L T n d ->
  endpoints S !! (sd, e) = Some x -> (sd, e) ∉ D ->
  (forall S' L' T' d', wf (D ∪ {[ (sd, e) ]}) S' -> assoc_ok (D ∪ {[ (sd, e) ]}) S' L' T' -> state_is S' L' T' n d' -> frame S S' -> Q () d') ->
  wp (ignore (remove_reference sd (topic_ x) e);; remove_associations federation_id sd e lost) Q d.
Proof.
  intros Hw Ha Hd Hx HD HQ. destruct (wf_topic_of _ _ _ Hw _ _ _ Hx HD) as (U & HU & Hc).
  destruct (wf_topic _ _ _ Hw _ _ HU) as (_ & _ & y & Hy). destruct (wf_reach _ _ _ _ _ _ Hw Hx) as (p & Hp).
  apply wp_bind, wp_ignore. eapply (wp_remove_reference S); [exact Hd|exact HU|exact Hy| | |].
  - apply (wf_refs _ _ _ Hw _ _ _ _ HU). by exists x.
  - intros ->. apply (wf_desc_subs _ _ _ Hw _ _ _ Hy). by exists x, U.
  - intros _ d1 Hd1. set (S1 := detached sd e (topic_ x) U y S) in *.
    assert (endpoints S1 = endpoints S /\ participants S1 = participants S /\ answers_ S1 = answers_ S /\ participants_ S1 = participants_ S)
      as (E1 & E2 & E3 & E4) by (by subst S1; destruct sd).
    eapply wp_mono; [eapply (wp_remove_associations _ S1); [exact Hd1|rewrite E3; apply Hw|by eapply reach_same; [| |exact Hp]|]|].
    + intros o Ho. destruct (assoc_reach _ _ _ _ _ _ _ _ _ Hw Ha Ho) as (y' & p' & Hy'). exists y', p'. by eapply reach_same; [| |exact Hy'].
    + intros [] d2 Hd2. eapply HQ; [| |exact Hd2|].
      * by apply wf_detached.
      * eapply assoc_detached; [exact Hw|done|intros q; by apply detached_matched|done|by exists x|done].
      * split; [done..|]. intros t. subst S1. replace (topics (detached sd e (topic_ x) U y S)) with (<[topic_ x := with_refs sd (set_remove e) U]> (topics S)) by (by destruct sd).
        destruct (decide (t = topic_ x)) as [->|]; [|by rewrite lookup_insert_ne]. rewrite lookup_insert_eq, HU. cbn. by destruct sd.
Qed.

(** A topic that was not removed stays. *)
Lemma wp_release_none S L T n d t U Q : state_is S L T n d -> topics S !! t = Some U -> removed_ U = false -> Q () d ->
  wp (topic_release t false) Q d.
Proof.
  intros Hd HU Hr HQ. apply wp_bind, wp_ret. apply wp_bind. eapply wp_load_top; [exact Hd|exact HU|]. rewrite Hr. by apply wp_ret.
Qed.


(** ** Removing an endpoint *)

Lemma face_members sd f p : face (with_members sd f p) = face p.
Proof. by destruct sd. Qed.

Lemma members_with sd sd' f p : members sd' (with_members sd f p) = if decide (sd' = sd) then f (members sd p) else members sd' p.
Proof. by destruct sd, sd'. Qed.

Definition forget_member (sd : side) (e q : RepoId) (p : Participant) (S : Domain) : Domain :=
  set_objects parts (<[q := with_members sd (set_remove e) p]> (participants S)) S.

(** A participant of the new state, with what it was. *)
Lemma forget_lookup sd e q p S q' p' : participants S !! q = Some p -> participants (forget_member sd e q p S) !! q' = Some p' ->
  exists p0, participants S !! q' = Some p0 /\ aliveStatus_ p' = aliveStatus_ p0 /\ owner_ p' = owner_ p0 /\ topicRefs_ p' = topicRefs_ p0
    /\ forall sd', members sd' p' = if decide (sd' = sd /\ q' = q) then set_remove e (members sd' p0) else members sd' p0.
Proof.
  intros Hp. cbn. destruct (decide (q' = q)) as [->|Hn].
  - rewrite lookup_insert_eq. intros [= <-]. exists p. split_and!; [done|by destruct sd..|]. intros sd'. rewrite members_with.
    destruct (decide (sd' = sd)) as [->|]; [by rewrite decide_True|by rewrite decide_False by tauto].
  - rewrite lookup_insert_ne by done. intros Hp'. exists p'. split_and!; [done..|]. intros sd'. by rewrite decide_False by tauto.
Qed.

Lemma nodup_set_remove {A} `{EqDecision A} (x : A) l : NoDup l -> NoDup (set_remove x l).
Proof. apply NoDup_filter. Qed.

(** The participant forgets an endpoint that was deleted. *)
Lemma wf_forget D S sd e q p : wf (D ∪ {[ (sd, e) ]}) S -> endpoints S !! (sd, e) = None -> participants S !! q = Some p ->
  (forall q' p', q' <> q -> participants S !! q' = Some p' -> e ∉ members sd p') -> wf D (forget_member sd e q p S).
Proof.
  intros [H1 H2 H3 H4 H5 H6 H7 H8 H9 H10 H11 H12 H13 H14 H15 H16] Hx Hp Ho.
  assert (Hsome : forall q', is_Some (participants (forget_member sd e q p S) !! q') <-> is_Some (participants S !! q')).
  { intros q'. cbn. destruct (decide (q' = q)) as [->|]; [rewrite lookup_insert_eq, Hp|by rewrite lookup_insert_ne]. split; eauto. }
  assert (HD : forall sd' e' x, endpoints S !! (sd', e') = Some x -> (sd', e') ∉ D -> (sd', e') ∉ D ∪ {[ (sd, e) ]}) by set_solver.
  split; try done.
  - intros sd' e' x Hx'. rewrite Hsome. by apply (H3 sd' e').
  - intros sd' e' x Hx' Hn. apply (H4 sd' e' x Hx'). by eapply HD.
  - intros t U sd' e' HU. rewrite (H5 t U sd' e' HU). cbn. set_solver.
  - intros t U HU. rewrite Hsome. by apply (H6 t).
  - intros q' p' Hq. destruct (forget_lookup _ _ _ _ _ _ _ Hp Hq) as (p0 & Hp0 & Ea & Eo & Et & Em). destruct (H8 q' p0 Hp0) as (? & Hown & ? & N1 & N2).
    unfold isOwner in *. rewrite Ea, Eo, Et. pose proof (Em Pub) as E1. pose proof (Em Sub) as E2. cbn [members] in E1, E2. rewrite E1, E2. clear E1 E2 Em.
    split_and!; [done..| |]; case_decide; try apply nodup_set_remove; done.
  - intros q'. by rewrite Hsome.
  - intros q' p' sd' e' Hq Hn. destruct (forget_lookup _ _ _ _ _ _ _ Hp Hq) as (p0 & Hp0 & _ & _ & _ & ->). cbn.
    destruct (decide ((sd', e') = (sd, e))) as [[= -> ->]|Hne].
    + rewrite Hx. split; [|by intros (? & [=] & _)]. destruct (decide (sd = sd /\ q' = q)) as [|Hq'].
      * by intros [? _]%elem_set_remove.
      * intros He. destruct (Ho q' p0); [|done|done]. naive_solver.
    + rewrite <- (H10 q' p0 sd' e' Hp0) by set_solver. case_decide as Hc; [|done]. rewrite elem_set_remove. naive_solver.
  - intros q' p' t Hq. destruct (forget_lookup _ _ _ _ _ _ _ Hp Hq) as (p0 & Hp0 & _ & _ & -> & _). by apply H11.
  - intros i y s Hy. rewrite (H12 i y s Hy). cbn. set_solver.
Qed.

Lemma assoc_forget D S L T sd e q p : assoc_ok (D ∪ {[ (sd, e) ]}) S L T -> endpoints S !! (sd, e) = None -> participants S !! q = Some p ->
  assoc_ok D (forget_member sd e q p S) L T.
Proof.
  intros Ha Hx Hp. eapply assoc_transfer; [exact Ha| |].
  - intros q'. split.
    + intros [Hm Hk]. assert (Hsd : forall sd', (sd', side_of sd' q') <> (sd, e)).
      { intros sd' E. destruct (matched_ends _ _ _ _ Hm sd') as (x & p' & Hr). pose proof (re_end _ _ _ _ _ _ Hr) as Hr'. rewrite E in Hr'. cbn in Hr'. congruence. }
      rewrite kept_iff in Hk |- *. split; [|set_solver]. eapply matched_sees; [|exact Hm]. intros sd' x Hx'. split; [done|]. split; [|by eauto].
      intros p'. cbn. destruct (decide (participant_ x = q)) as [->|]; [|rewrite lookup_insert_ne by done; by eauto].
      rewrite lookup_insert_eq. intros [= <-]. exists p. by rewrite face_members.
    + apply matched_pair_sees. intros sd' e' Hn. split; [set_solver|]. intros x Hx'. split; [done|]. split; [|by eauto].
      intros p'. cbn. destruct (decide (participant_ x = q)) as [->|]; [|rewrite lookup_insert_ne by done; by eauto].
      rewrite lookup_insert_eq. intros Hp'. exists (with_members sd (set_remove e) p). split; [done|]. rewrite face_members. congruence.
  - intros k [x Hk] Hn. cbn in Hk. split; [by exists x|]. set_solver.
Qed.

(** What an operation of a client needs and gives. *)
Definition holds (D : propset (side * RepoId)) (S : Domain) (n : Z) (d : Domain) : Prop :=
  wf D S /\ exists L T, state_is S L T n d /\ assoc_ok D S L T.

Lemma holds_equiv D D' S n d : D ≡ D' -> holds D S n d -> holds D' S n d.
Proof.
  intros E (Hw & L & T & Hd & Ha). split; [by eapply wf_equiv|]. exists L, T. split; [done|].
  eapply assoc_transfer; [exact Ha|intros q; unfold kept; by rewrite <- !(E _)|intros k ?; by rewrite <- (E _)].
Qed.

Lemma good_holds D n d : good D n d <-> exists S, holds D S n d.
Proof. rewrite good_state. unfold holds. naive_solver. Qed.

Lemma wp_part_remove S n d sd e x Q : holds ∅ S n d -> endpoints S !! (sd, e) = Some x ->
  (forall S' d', holds ∅ S' n d' -> is_Some (participants S' !! participant_ x) -> Q 0 d') -> wp (part_remove federation_id sd (participant_ x) e) Q d.
Proof.
  intros (Hw & L & T & Hd & Ha) Hx HQ. destruct (wf_end _ _ _ Hw _ _ _ Hx) as (_ & p & Hp).
  assert (Hm : e ∈ members sd p) by (apply (wf_members _ _ _ Hw _ _ _ _ Hp); [set_solver|by exists x]).
  destruct (wf_topic_of _ _ _ Hw _ _ _ Hx) as (U & HU & Hc); [set_solver|].
  apply wp_bind. eapply wp_load_part; [exact Hd|exact Hp|]. rewrite bool_decide_eq_true_2 by done.
  apply wp_bind. eapply wp_load_end; [exact Hd|exact Hx|]. intros x1 _ Es. replace (topic_ x1) with (topic_ x) by (by rewrite <- Es).
  apply wp_seq. eapply wp_leave; [exact Hw|exact Ha|exact Hd|exact Hx|set_solver|]. intros S1 L1 T1 d1 Hw1 Ha1 Hd1 [F1 F2 F3 F4].
  apply wp_bind. eapply wp_tell; [exact Hd1|done|]. intros d2 Hd2.
  apply wp_bind. eapply wp_delete_endpoint; [exact Hd2|by rewrite F1|intros o; by eapply assoc_none; [exact Ha1|set_solver]|]. intros d3 Hd3.
  pose proof (F4 (topic_ x)) as E. rewrite HU in E. destruct (topics S1 !! topic_ x) as [U1|] eqn:HU1; [|done].
  apply wp_bind. eapply wp_release_none; [exact Hd3|exact HU1|by apply (wf_topic _ _ _ Hw1 (topic_ x))|].
  apply wp_bind. eapply (wp_modify_s parts); [exact Hd3|cbn; rewrite F2; exact Hp|]. intros d4 Hd4. apply wp_ret.
  eapply (HQ (forget_member sd e (participant_ x) p (put_ends (delete (sd, e) (endpoints S1)) S1))).
  - split; [|exists L1, T1; split; [exact Hd4|]].
    + apply wf_forget; [apply wf_delete; [done|set_solver]|apply lookup_delete_eq|cbn; by rewrite F2|].
      cbn. rewrite F2. intros q' p' Hne Hq Hin. apply (wf_members _ _ _ Hw _ _ _ _ Hq) in Hin as (x' & Hx' & E'); [congruence|set_solver].
    + apply assoc_forget; [apply assoc_delete; [done|set_solver]|apply lookup_delete_eq|cbn; by rewrite F2].
  - cbn. rewrite lookup_insert_eq. eauto.
Qed.


(** ** Removing a topic *)

Definition drop_topic (t q : RepoId) (U : Topic) (y : Topic_Description) (p : Participant) (S : Domain) : Domain :=
  let y' := with_topics (set_remove t) y in
  let last := bool_decide (topics_ y' = []) in
  mkDomain (endpoints S) (<[q := with_topicRefs (set_remove t) p]> (participants S)) (delete t (topics S))
    (if last then delete (description_ U) (descriptions S) else <[description_ U := y']> (descriptions S))
    (next_description S) (participants_ S)
    (if last then set_remove (description_ U) (topicDescriptions_ S) else topicDescriptions_ S)
    (set_remove t (idToTopicMap_ S)) (deadParticipants_ S) (answers_ S) (calls S).

Section DropTopic.
Context (D : propset (side * RepoId)) (S : Domain) (t : RepoId) (U : Topic) (y : Topic_Description) (p : Participant).
Context (H : wf D S) (HU : topics S !! t = Some U) (Hy : descriptions S !! description_ U = Some y)
  (Hp : participants S !! creator_ U = Some p) (Hr : forall sd, topic_refs sd U = []).

Let S' := drop_topic t (creator_ U) U y p S.

Lemma drop_unused sd e x : endpoints S !! (sd, e) = Some x -> (sd, e) ∉ D -> topic_ x <> t.
Proof.
  intros Hx Hn E. assert (Hin : e ∈ topic_refs sd U) by (apply (wf_refs _ _ _ H t U sd e HU); by exists x).
  rewrite Hr in Hin. by apply not_elem_of_nil in Hin.
Qed.

Lemma drop_topics t' V : topics S' !! t' = Some V <-> t' <> t /\ topics S !! t' = Some V.
Proof. cbn. rewrite lookup_delete_Some. naive_solver. Qed.

Lemma drop_participants q p' : participants S' !! q = Some p' -> exists p0, participants S !! q = Some p0
  /\ aliveStatus_ p' = aliveStatus_ p0 /\ owner_ p' = owner_ p0 /\ (forall sd, members sd p' = members sd p0)
  /\ (topicRefs_ p' = if decide (q = creator_ U) then set_remove t (topicRefs_ p0) else topicRefs_ p0).
Proof.
  cbn. destruct (decide (q = creator_ U)) as [->|Hn].
  - rewrite lookup_insert_eq. intros [= <-]. by exists p.
  - rewrite lookup_insert_ne by done. intros Hq. by exists p'.
Qed.

Lemma drop_is_participant q : is_Some (participants S' !! q) <-> is_Some (participants S !! q).
Proof. cbn. destruct (decide (q = creator_ U)) as [->|]; [rewrite lookup_insert_eq, Hp; by split; eauto|by rewrite lookup_insert_ne]. Qed.

(** The description goes with its last topic. *)
Lemma drop_last : topics_ (with_topics (set_remove t) y) = [] <-> forall t' V, topics S !! t' = Some V -> description_ V = description_ U -> t' = t.
Proof.
  cbn. split.
  - intros E t' V HV Hi. destruct (decide (t' = t)) as [|Hn]; [done|]. assert (Hin : t' ∈ set_remove t (topics_ y)).
    { apply elem_set_remove. split; [done|]. apply (wf_desc_topics _ _ _ H _ _ _ Hy). by exists V. }
    rewrite E in Hin. by apply not_elem_of_nil in Hin.
  - intros Hall. destruct (set_remove t (topics_ y)) as [|t' l] eqn:E; [done|]. assert (Hin : t' ∈ set_remove t (topics_ y)) by (rewrite E; by left).
    apply elem_set_remove in Hin as [Hn Hin]. apply (wf_desc_topics _ _ _ H _ _ _ Hy) in Hin as (V & HV & Hi). by destruct Hn, (Hall t' V).
Qed.

Lemma drop_descriptions i z : descriptions S' !! i = Some z -> exists z', descriptions S !! i = Some z'
  /\ name_ z = name_ z' /\ subscriptionRefs_ z = subscriptionRefs_ z' /\ topics_ z <> []
  /\ (forall t', t' ∈ topics_ z <-> t' <> t /\ t' ∈ topics_ z').
Proof.
  cbn. assert (Hother : forall i z, i <> description_ U -> descriptions S !! i = Some z -> topics_ z <> []
    /\ forall t', t' ∈ topics_ z <-> t' <> t /\ t' ∈ topics_ z).
  { intros j w Hj Hw. split; [by apply (wf_desc _ _ _ H j)|]. intros t'. split; [|tauto]. intros Hin. split; [|done]. intros ->.
    apply (wf_desc_topics _ _ _ H _ _ _ Hw) in Hin as (V & HV & Hi). congruence. }
  case_bool_decide as Hl.
  - intros [Hn Hz]%lookup_delete_Some. exists z. destruct (Hother i z) as [? ?]; [done..|]. done.
  - destruct (decide (i = description_ U)) as [->|Hn].
    + rewrite lookup_insert_eq. intros [= <-]. exists y. split_and!; [done..|]. intros t'. apply elem_set_remove.
    + rewrite lookup_insert_ne by done. intros Hz. exists z. by destruct (Hother i z).
Qed.

Lemma drop_described i : is_Some (descriptions S' !! i) <->
  is_Some (descriptions S !! i) /\ ~ (i = description_ U /\ topics_ (with_topics (set_remove t) y) = []).
Proof.
  subst S'. unfold drop_topic. cbn [descriptions]. case_bool_decide as Hl.
  - destruct (decide (i = description_ U)) as [->|]; [rewrite lookup_delete_eq; split; [by intros [? ?]|naive_solver]|rewrite lookup_delete_ne by done; naive_solver].
  - destruct (decide (i = description_ U)) as [->|]; [rewrite lookup_insert_eq, Hy; naive_solver|rewrite lookup_insert_ne by done; naive_solver].
Qed.

Lemma drop_listed i : i ∈ topicDescriptions_ S' <->
  i ∈ topicDescriptions_ S /\ ~ (i = description_ U /\ topics_ (with_topics (set_remove t) y) = []).
Proof. subst S'. unfold drop_topic. cbn [topicDescriptions_]. case_bool_decide; [rewrite elem_set_remove|]; naive_solver. Qed.

Lemma wf_drop_topic : wf D S'.
Proof.
  split; try apply H.
  - intros sd e x Hx. rewrite drop_is_participant. by apply (wf_end _ _ _ H sd e).
  - intros sd e x Hx Hn. destruct (wf_topic_of _ _ _ H sd e x Hx Hn) as (V & HV & Hc). exists V. split; [|done].
    apply drop_topics. split; [by eapply drop_unused|done].
  - intros t' V sd e [_ HV]%drop_topics. by apply (wf_refs _ _ _ H).
  - intros t' V [Hn HV]%drop_topics. destruct (wf_topic _ _ _ H t' V HV) as (? & ? & ?). rewrite drop_is_participant, drop_described.
    split_and!; [done..|]. intros [Hi Hl]. by eapply Hn, drop_last.
  - intros t'. cbn. rewrite elem_set_remove, (wf_ids _ _ _ H t'). unfold is_Some. setoid_rewrite lookup_delete_Some. naive_solver.
  - intros q p' Hq. destruct (drop_participants q p' Hq) as (p0 & Hp0 & Ea & Eo & Em & Et). destruct (wf_part _ _ _ H q p0 Hp0) as (? & ? & N0 & ? & ?).
    pose proof (Em Pub) as E1. pose proof (Em Sub) as E2. cbn [members] in E1, E2. unfold isOwner in *. rewrite Ea, Eo, Et, E1, E2. clear Ea Eo Et E1 E2.
    split_and!; [done..| |done|done]. case_decide; [by apply nodup_set_remove|done].
  - intros q. rewrite drop_is_participant. apply (wf_parts _ _ _ H).
  - intros q p' sd e Hq Hn. destruct (drop_participants q p' Hq) as (p0 & Hp0 & _ & _ & Em & _). rewrite Em. by apply (wf_members _ _ _ H).
  - intros q p' t' Hq. destruct (drop_participants q p' Hq) as (p0 & Hp0 & _ & _ & _ & ->). pose proof (wf_topicRefs _ _ _ H q p0 t' Hp0) as E.
    setoid_rewrite drop_topics. case_decide as Hc; [rewrite elem_set_remove, E; naive_solver|]. rewrite E. split; [|naive_solver].
    intros (V & HV & HVc). exists V. split_and!; [|done..]. intros ->. congruence.
  - intros i z s Hz. destruct (drop_descriptions i z Hz) as (z' & Hz' & _ & -> & _). rewrite (wf_desc_subs _ _ _ H i z' s Hz').
    setoid_rewrite drop_topics. split; [|naive_solver]. intros (x & V & Hx & Hn & HV & Hi). exists x, V. split_and!; [done..| |done|done]. by eapply drop_unused.
  - intros i z t' Hz. destruct (drop_descriptions i z Hz) as (z' & Hz' & _ & _ & _ & ->). rewrite (wf_desc_topics _ _ _ H i z' t' Hz').
    setoid_rewrite drop_topics. naive_solver.
  - intros i z Hz. destruct (drop_descriptions i z Hz) as (z' & Hz' & _ & _ & Hne & _). split; [done|]. by apply (wf_desc _ _ _ H i z').
  - intros i. rewrite drop_listed, drop_described. by rewrite (wf_descs _ _ _ H i).
  - intros i j z1 z2 H1 H2. destruct (drop_descriptions i z1 H1) as (z1' & H1' & -> & _), (drop_descriptions j z2 H2) as (z2' & H2' & -> & _).
    by apply (wf_names _ _ _ H i j z1').
Qed.

Lemma assoc_drop_topic L T : assoc_ok D S L T -> assoc_ok D S' L T.
Proof.
  intros Ha. eapply assoc_transfer; [exact Ha| |done].
  assert (Hf : face (with_topicRefs (set_remove t) p) = face p) by done.
  intros q. split; apply matched_pair_sees; intros sd e Hn; (split; [done|]); intros x Hx; (split; [done|split]).
  - intros p' Hq. destruct (decide (participant_ x = creator_ U)) as [E|E]; cbn in Hq.
    + rewrite E, lookup_insert_eq in Hq. injection Hq as <-. exists p. by rewrite E.
    + rewrite lookup_insert_ne in Hq by done. by exists p'.
  - intros V [_ HV]%drop_topics. by exists V.
  - intros p' Hq. cbn. destruct (decide (participant_ x = creator_ U)) as [E|E].
    + rewrite E in *. rewrite lookup_insert_eq. eexists. split; [done|]. rewrite Hf. congruence.
    + rewrite lookup_insert_ne by done. by exists p'.
  - intros V HV. exists V. split; [|done]. apply drop_topics. split; [by eapply drop_unused|done].
Qed.

End DropTopic.


(** The part of [remove_topic] that deletes the description. *)
Definition drop_description (t : RepoId) (i : nat) (y : Topic_Description) (S : Domain) : Domain :=
  let y' := with_topics (set_remove t) y in
  let last := bool_decide (topics_ y' = []) in
  put_descriptions (if last then set_remove i (topicDescriptions_ S) else topicDescriptions_ S)
    (set_objects descs (if last then delete i (descriptions S) else <[i := y']> (descriptions S)) S).

Lemma wp_drop_description S L T n d t i y Q : state_is S L T n d -> descriptions S !! i = Some (with_topics (set_remove t) y) ->
  i ∈ topicDescriptions_ S -> (forall d', state_is (drop_description t i y S) L T n d' -> Q () d') ->
  wp (when (bool_decide (topics_ (with_topics (set_remove t) y) = [])) (gone ← remove_topic_description i; when (gone =? 0) (free descs i))) Q d.
Proof.
  intros Hd Hy Hi. unfold drop_description. case_bool_decide; intros HQ.
  - apply wp_bind. apply wp_bind. eapply wp_get_s; [exact Hd|]. intros _ -> _ _ _. rewrite bool_decide_eq_true_2 by done.
    apply wp_bind. eapply wp_set_descriptions; [exact Hd|]. intros d1 Hd1. apply wp_ret. cbn [Z.eqb when].
    eapply (wp_free_s descs); [exact Hd1|]. exact HQ.
  - apply wp_ret, HQ. rewrite insert_id by done. by destruct Hd as [<- ? ? ?].
Qed.

Lemma wp_remove_topic D S n d t U Q : holds D S n d -> topics S !! t = Some U -> (forall sd, topic_refs sd U = []) ->
  (forall y p d', participants S !! creator_ U = Some p -> holds D (drop_topic t (creator_ U) U y p S) n d' -> Q REMOVED d') ->
  wp (remove_topic (creator_ U) t) Q d.
Proof.
  intros (Hw & L & T & Hd & Ha) HU Hr HQ. destruct (wf_topic _ _ _ Hw t U HU) as (Hrem & [p Hp] & [y Hy]).
  apply wp_bind. eapply wp_load_top; [exact Hd|exact HU|]. apply wp_bind. apply wp_bind. eapply wp_load_desc; [exact Hd|exact Hy|].
  rewrite bool_decide_eq_true_2 by (apply (wf_desc_topics _ _ _ Hw _ _ _ Hy); by exists U).
  apply wp_bind. eapply (wp_modify_s descs); [exact Hd|exact Hy|]. intros d1 Hd1. apply wp_ret. cbn [Z.eqb].
  apply wp_bind. eapply wp_load_desc; [exact Hd1|apply lookup_insert_eq|].
  apply wp_bind. eapply wp_drop_description; [exact Hd1|apply lookup_insert_eq|cbn; apply (wf_descs _ _ _ Hw); by exists y|]. intros d2 Hd2.
  apply wp_bind, wp_ignore. apply wp_bind. eapply wp_load_part; [exact Hd2|exact Hp|].
  rewrite bool_decide_eq_true_2 by (apply (wf_topicRefs _ _ _ Hw _ _ _ Hp); by exists U).
  apply wp_bind. eapply (wp_modify_s parts); [exact Hd2|exact Hp|]. intros d3 Hd3. apply wp_ret.
  apply wp_bind. eapply wp_tell; [exact Hd3|done|]. intros d4 Hd4.
  apply wp_bind. apply wp_bind. eapply (wp_modify_s tops); [exact Hd4|exact HU|]. intros d5 Hd5.
  apply wp_bind. eapply wp_load_top; [exact Hd5|apply lookup_insert_eq|]. pose proof (Hr Pub) as E1. pose proof (Hr Sub) as E2. cbn in E1, E2.
  cbn [with_removed removed_ publicationRefs_ topic_subscriptionRefs_]. rewrite E1, E2. cbn [andb]. rewrite !bool_decide_eq_true_2 by done. cbn [andb when].
  apply wp_bind. apply wp_bind. eapply wp_get_s; [exact Hd5|]. intros _ _ -> _ _. eapply wp_set_ids; [exact Hd5|]. intros d6 Hd6.
  eapply (wp_free_s tops); [exact Hd6|]. intros d7 Hd7. apply wp_ret, (HQ y p); [done|].
  split; [by apply wf_drop_topic|]. exists L, T. split; [|by apply assoc_drop_topic].
  unfold drop_topic. unfold drop_description in Hd7. cbn in Hd7. by rewrite delete_insert_eq, delete_insert_eq, insert_insert_eq in Hd7.
Qed.


(** ** Removing a participant *)

(** The participant [q] and the endpoints [D] are gone. *)
Definition drop_participant (q : RepoId) (m : gmap (side * RepoId) Endpoint) (S : Domain) : Domain :=
  put_participants (set_remove q (participants_ S)) (set_objects parts (delete q (participants S)) (put_ends m S)).

Section DropParticipant.
Context (D : propset (side * RepoId)) (S : Domain) (q : RepoId) (m : gmap (side * RepoId) Endpoint).
Context (H : wf D S) (Hm : forall k x, m !! k = Some x <-> endpoints S !! k = Some x /\ k ∉ D).
Context (Ho : forall sd e q' p', (sd, e) ∈ D -> q' <> q -> participants S !! q' = Some p' -> e ∉ members sd p').
Context (Hq : forall sd e x, endpoints S !! (sd, e) = Some x -> (sd, e) ∉ D -> participant_ x <> q).
Context (Ht : forall t U, topics S !! t = Some U -> creator_ U <> q).

Let S' := drop_participant q m S.

Lemma dropped_participants q' p : participants S' !! q' = Some p <-> q' <> q /\ participants S !! q' = Some p.
Proof. cbn. rewrite lookup_delete_Some. naive_solver. Qed.

Lemma wf_drop_participant : wf ∅ S'.
Proof.
  assert (He : forall k x, endpoints S' !! k = Some x <-> endpoints S !! k = Some x /\ k ∉ D) by apply Hm.
  assert (Hs : forall q', is_Some (participants S' !! q') <-> q' <> q /\ is_Some (participants S !! q')).
  { intros q'. unfold is_Some. setoid_rewrite dropped_participants. naive_solver. }
  assert (H0 : forall k : side * RepoId, k ∉ (∅ : propset (side * RepoId))) by set_solver.
  split; try apply H.
  - intros sd e x [Hx Hn]%He. destruct (wf_end _ _ _ H sd e x Hx) as [? ?]. rewrite Hs. split_and!; [done| |done]. by eapply Hq.
  - intros sd e x [Hx Hn]%He _. by apply (wf_topic_of _ _ _ H sd e).
  - intros t U sd e HU. rewrite (wf_refs _ _ _ H t U sd e HU). setoid_rewrite He. naive_solver.
  - intros t U HU. destruct (wf_topic _ _ _ H t U HU) as (? & ? & ?). rewrite Hs. split_and!; [done| |done|done]. by eapply Ht.
  - intros q' p [_ Hp]%dropped_participants. by apply (wf_part _ _ _ H q').
  - intros q'. rewrite Hs. cbn. by rewrite elem_set_remove, (wf_parts _ _ _ H q').
  - intros q' p sd e [Hne Hp]%dropped_participants _. setoid_rewrite He. split.
    + intros Hin. assert (Hn : (sd, e) ∉ D) by (intros HD; by eapply Ho). apply (wf_members _ _ _ H _ _ _ _ Hp Hn) in Hin. naive_solver.
    + intros (x & [Hx Hn] & Hc). apply (wf_members _ _ _ H _ _ _ _ Hp Hn). by exists x.
  - intros q' p t [_ Hp]%dropped_participants. by apply (wf_topicRefs _ _ _ H q').
  - intros i y s Hy. rewrite (wf_desc_subs _ _ _ H i y s Hy). setoid_rewrite He. naive_solver.
Qed.

Lemma assoc_drop_participant L T : assoc_ok D S L T -> assoc_ok ∅ S' L T.
Proof.
  intros Ha. eapply assoc_transfer; [exact Ha| |].
  - intros q'. split.
    + intros [Hmt _]. assert (Hk : kept D q').
      { apply kept_iff. intros sd. destruct (matched_ends _ _ _ _ Hmt sd) as (x & p & [Hx _ _ _ _]). by apply Hm in Hx as [_ ?]. }
      split; [|done]. eapply matched_sees; [|exact Hmt]. intros sd x [Hx _]%Hm. split; [done|]. split; [|by eauto].
      intros p [_ Hp]%dropped_participants. eauto.
    + apply matched_pair_sees. intros sd e Hn. split; [set_solver|]. intros x Hx. split; [by apply Hm|]. split; [|by eauto].
      intros p Hp. exists p. split; [|done]. apply dropped_participants. split; [by eapply Hq|done].
  - intros k [x Hx] _. apply Hm in Hx as [Hx Hn]. split; [by exists x|done].
Qed.

End DropParticipant.

(** The endpoints of [q] leave their topics. *)
Lemma object_frame_trans S1 S2 S3 : frame S1 S2 -> frame S2 S3 -> frame S1 S3.
Proof. intros [] []. split; try congruence. Qed.

Lemma wp_leave_topics D S n d sd es lost : holds D S n d -> NoDup es -> (forall e, e ∈ es -> is_Some (endpoints S !! (sd, e)) /\ (sd, e) ∉ D) ->
  wp (leave_topics federation_id sd lost es)
    (fun _ d' => exists S', holds (D ∪ {[ k | k.1 = sd /\ k.2 ∈ es ]}) S' n d' /\ frame S S') d.
Proof.
  intros Hd Hnd Hes. apply (wp_for_each _ _ (fun pre d' => exists S', holds (D ∪ {[ k | k.1 = sd /\ k.2 ∈ pre ]}) S' n d' /\ frame S S')).
  - exists S. split; [|done]. eapply holds_equiv; [|exact Hd]. intros k. rewrite elem_of_union, elem_of_PropSet, (elem_of_nil k.2). tauto.
  - intros pre e post d1 -> (S1 & (Hw & L & T & Hd1 & Ha) & [F1 F2 F3 F4]). destruct (Hes e) as [[x Hx] HD]; [set_solver|].
    assert (Hn : e ∉ pre) by (apply NoDup_app in Hnd as (_ & Hn & _); intros He; by destruct (Hn e He); left).
    assert (HD1 : (sd, e) ∉ D ∪ {[ k | k.1 = sd /\ k.2 ∈ pre ]}).
    { rewrite elem_of_union, elem_of_PropSet. cbn. tauto. }
    assert (Hx1 : endpoints S1 !! (sd, e) = Some x) by (by rewrite F1). destruct (wf_topic_of _ _ _ Hw _ _ _ Hx1 HD1) as (U & HU & _).
    apply wp_bind. eapply wp_load_end; [exact Hd1|exact Hx1|]. intros x1 _ Es. replace (topic_ x1) with (topic_ x) by (by rewrite <- Es).
    apply wp_seq. eapply wp_leave; [exact Hw|exact Ha|exact Hd1|exact Hx1|done|]. intros S2 L2 T2 d2 Hw2 Ha2 Hd2 [G1 G2 G3 G4].
    pose proof (G4 (topic_ x)) as E. rewrite HU in E. destruct (topics S2 !! topic_ x) as [U2|] eqn:HU2; [|done].
    eapply wp_release_none; [exact Hd2|exact HU2|by apply (wf_topic _ _ _ Hw2 (topic_ x))|]. exists S2.
    split; [|by eapply object_frame_trans; [split|split]]. eapply holds_equiv; [|split; [exact Hw2|by exists L2, T2]].
    intros [sd' e']. rewrite !elem_of_union, !elem_of_PropSet, elem_of_singleton. cbn. rewrite elem_of_app, list_elem_of_singleton. naive_solver.
Qed.


(** The topics of [q] are removed; only the topics and [q] itself change. *)
Record frame_topics (q : RepoId) (S S' : Domain) : Prop := {
  ft_end : endpoints S' = endpoints S;
  ft_parts : participants_ S' = participants_ S;
  ft_other : forall q', q' <> q -> participants S' !! q' = participants S !! q';
  ft_top : forall t U, topics S' !! t = Some U -> topics S !! t = Some U }.

(** Without refs, as all endpoints of [q] were taken out. *)
Lemma refs_none D S q t U sd : wf D S -> topics S !! t = Some U -> creator_ U = q ->
  (forall sd e x, endpoints S !! (sd, e) = Some x -> participant_ x = q -> (sd, e) ∈ D) -> topic_refs sd U = [].
Proof.
  intros Hw HU Hc Hall. destruct (topic_refs sd U) as [|e l] eqn:E; [done|]. assert (Hin : e ∈ topic_refs sd U) by (rewrite E; by left).
  apply (wf_refs _ _ _ Hw t U sd e HU) in Hin as (x & Hx & Ht & Hn). destruct (wf_topic_of _ _ _ Hw _ _ _ Hx Hn) as (V & HV & HVc).
  destruct Hn. eapply Hall; [exact Hx|]. congruence.
Qed.

Lemma wp_remove_topics D S n d q ts : holds D S n d -> NoDup ts ->
  (forall sd e x, endpoints S !! (sd, e) = Some x -> participant_ x = q -> (sd, e) ∈ D) ->
  (forall t, t ∈ ts <-> exists U, topics S !! t = Some U /\ creator_ U = q) ->
  wp (for_each ts (fun topic => _ ← load tops topic; tell (um_destroy topic);; ignore (remove_topic q topic)))
    (fun _ d' => exists S', holds D S' n d' /\ frame_topics q S S' /\ forall t U, topics S' !! t = Some U -> creator_ U <> q) d.
Proof.
  intros Hd Hnd Hall Hts.
  eapply wp_mono; [apply (wp_for_each _ _ (fun pre d' => exists S', holds D S' n d' /\ frame_topics q S S'
    /\ (forall t, t ∉ pre -> topics S' !! t = topics S !! t) /\ (forall t, t ∈ pre -> topics S' !! t = None)))|].
  - exists S. split; [done|]. split; [done|]. split; [done|]. intros t Hin. by apply not_elem_of_nil in Hin.
  - intros pre t post d1 E (S1 & Hd1 & [F1 F2 F3 F4] & Hout & Hin).
    assert (Htn : t ∉ pre) by (rewrite E in Hnd; apply NoDup_app in Hnd as (_ & Hn & _); intros He; by destruct (Hn t He); left).
    destruct (proj1 (Hts t)) as (U & HU & Hc); [rewrite E; set_solver|].
    assert (HU1 : topics S1 !! t = Some U) by (by rewrite Hout). pose proof Hd1 as (Hw1 & L & T & Hs1 & Ha1).
    apply wp_bind. eapply wp_load_top; [exact Hs1|exact HU1|]. apply wp_bind. eapply wp_tell; [exact Hs1|done|]. intros d2 Hs2.
    apply wp_ignore. rewrite <- Hc. eapply wp_remove_topic; [split; [exact Hw1|exists L, T; by split]|exact HU1| |].
    + intros sd. eapply refs_none; [exact Hw1|exact HU1|exact Hc|]. by rewrite F1.
    + intros y p d3 Hp Hd3. eexists. split; [exact Hd3|]. split; [|split].
      * split; cbn; [done|done| |].
        -- intros q' Hne. rewrite lookup_insert_ne by congruence. apply F3. congruence.
        -- intros t' V [_ HV]%lookup_delete_Some. by apply F4.
      * intros t' Hn. cbn. rewrite lookup_delete_ne by set_solver. apply Hout. set_solver.
      * intros t'. cbn. rewrite elem_of_app, list_elem_of_singleton. intros [Ht'| ->]; [|apply lookup_delete_eq].
        apply lookup_delete_None. right. by apply Hin.
  - intros [] d' (S' & Hd' & F & Hout & Hin). exists S'. split; [done|]. split; [done|]. intros t U HU Hc.
    assert (Ht : t ∈ ts) by (apply Hts; exists U; split; [by apply F|done]). by rewrite (Hin t Ht) in HU.
Qed.

(** The endpoints are deleted. *)
Definition without_ends (sd : side) (es : list RepoId) (m : gmap (side * RepoId) Endpoint) : gmap (side * RepoId) Endpoint :=
  foldl (fun m e => delete (sd, e) m) m es.

Lemma without_ends_lookup sd es m k x : without_ends sd es m !! k = Some x <-> m !! k = Some x /\ ~ (k.1 = sd /\ k.2 ∈ es).
Proof.
  unfold without_ends. revert m. induction es as [|e es IH]; intros m; cbn [foldl]; [rewrite (elem_of_nil k.2); tauto|].
  rewrite IH, lookup_delete_Some, elem_of_cons. destruct k. cbn. naive_solver.
Qed.

Lemma wp_delete_members L T n push sd es : NoDup es -> forall S d, state_is S L T n d ->
  (forall e, e ∈ es -> is_Some (endpoints S !! (sd, e)) /\ forall o, (sd, e, o) ∉ L) ->
  wp (delete_members federation_id sd push es) (fun _ => state_is (put_ends (without_ends sd es (endpoints S)) S) L T n) d.
Proof.
  unfold delete_members. induction 1 as [|e es Hne Hnd IH]; intros S d Hd Hes; cbn [for_each].
  { apply wp_ret. by destruct Hd as [<- ? ? ?]. }
  destruct (Hes e) as [[x Hx] HL]; [by left|]. apply wp_bind. apply wp_bind.
  apply (wp_mono _ (fun _ => state_is S L T n)); [apply wp_when; [intros _; by eapply wp_tell|done]|]. intros [] d1 Hd1.
  eapply wp_delete_endpoint; [exact Hd1|exact Hx|done|]. intros d2 Hd2.
  eapply wp_mono; [apply (IH _ _ Hd2)|done]. intros e' He'. destruct (Hes e') as [He'' HL']; [by right|]. split; [|done].
  cbn. rewrite lookup_delete_ne; [done|]. congruence.
Qed.


(** The endpoints of a participant. *)
Definition owned (p : Participant) : propset (side * RepoId) := {[ k | k.2 ∈ members k.1 p ]}.

Lemma wp_leave_all S n d q p lost : holds ∅ S n d -> participants S !! q = Some p ->
  wp (leave_topics federation_id Pub lost (publications_ p);; leave_topics federation_id Sub lost (subscriptions_ p))
    (fun _ d' => exists S', holds (owned p) S' n d' /\ frame S S') d.
Proof.
  intros Hd Hp. pose proof (proj1 Hd) as Hw. destruct (wf_part _ _ _ Hw q p Hp) as (_ & _ & _ & N1 & N2).
  assert (Hmem : forall sd e, e ∈ members sd p -> is_Some (endpoints S !! (sd, e))).
  { intros sd e He. apply (wf_members _ _ _ Hw q p sd e Hp) in He as (x & Hx & _); [by exists x|set_solver]. }
  apply wp_bind. eapply wp_mono; [eapply (wp_leave_topics ∅ S n d Pub); [done|done|]|].
  { intros e He. split; [by apply (Hmem Pub)|set_solver]. }
  intros [] d1 (S1 & Hd1 & F1). eapply wp_mono; [eapply (wp_leave_topics _ S1 n d1 Sub); [exact Hd1|done|]|].
  { intros e He. rewrite (fr_end _ _ F1). split; [by apply (Hmem Sub)|]. rewrite elem_of_union, elem_of_PropSet. set_solver. }
  intros [] d2 (S2 & Hd2 & F2). exists S2. split; [|by eapply object_frame_trans]. eapply holds_equiv; [|exact Hd2].
  intros [[] e]; rewrite !elem_of_union, !elem_of_PropSet; cbn; set_solver.
Qed.

Lemma wp_delete_all S L T n d q p p0 push : state_is S L T n d -> participants S !! q = Some p0 ->
  NoDup (publications_ p) -> NoDup (subscriptions_ p) ->
  (forall sd e, e ∈ members sd p -> is_Some (endpoints S !! (sd, e)) /\ forall o, (sd, e, o) ∉ L) ->
  wp (modify parts q (with_topicRefs (fun _ => []));;
      delete_members federation_id Pub push (publications_ p);; modify parts q (with_members Pub (fun _ => []));;
      delete_members federation_id Sub push (subscriptions_ p);; modify parts q (with_members Sub (fun _ => [])))
    (fun _ d' => exists p', state_is (set_objects parts (<[q := p']> (participants S))
       (put_ends (without_ends Sub (subscriptions_ p) (without_ends Pub (publications_ p) (endpoints S))) S)) L T n d') d.
Proof.
  intros Hs Hp N1 N2 Hes. apply wp_bind. eapply (wp_modify_s parts); [exact Hs|exact Hp|]. intros d3 Hs3.
  apply wp_bind. eapply wp_mono; [apply (wp_delete_members L T n _ Pub _ N1 _ _ Hs3 (Hes Pub))|]. intros [] d4 Hs4.
  apply wp_bind. eapply (wp_modify_s parts); [exact Hs4|apply lookup_insert_eq|]. intros d5 Hs5.
  apply wp_bind. eapply wp_mono; [apply (wp_delete_members L T n _ Sub _ N2 _ _ Hs5)|].
  { intros e He. destruct (Hes Sub e He) as [[x Hx] HL]. split; [|done]. exists x. cbn. rewrite without_ends_lookup. cbn. naive_solver. }
  intros [] d6 Hs6. eapply (wp_modify_s parts); [exact Hs6|apply lookup_insert_eq|]. intros d7 Hs7.
  eexists. cbn in Hs7 |- *. rewrite !insert_insert_eq in Hs7. exact Hs7.
Qed.

(** The state in which nothing of [q] is left but [q] itself. *)
Lemma holds_drop_participant S S2 q p L T n d : wf ∅ S -> participants S !! q = Some p -> wf (owned p) S2 -> assoc_ok (owned p) S2 L T ->
  endpoints S2 = endpoints S -> (forall q', q' <> q -> participants S2 !! q' = participants S !! q') ->
  (forall t U, topics S2 !! t = Some U -> creator_ U <> q) ->
  let S' := drop_participant q (without_ends Sub (subscriptions_ p) (without_ends Pub (publications_ p) (endpoints S2))) S2 in
  state_is S' L T n d -> holds ∅ S' n d.
Proof.
  intros Hw Hp Hw2 Ha2 E1 E2 Hnot S' Hs.
  assert (Hmem : forall sd e, (sd, e) ∈ owned p <-> exists x, endpoints S !! (sd, e) = Some x /\ participant_ x = q).
  { intros sd e. unfold owned. rewrite elem_of_PropSet. apply (wf_members _ _ _ Hw q p sd e Hp). set_solver. }
  assert (Hm : forall k x, without_ends Sub (subscriptions_ p) (without_ends Pub (publications_ p) (endpoints S2)) !! k = Some x
    <-> endpoints S2 !! k = Some x /\ k ∉ owned p).
  { intros [sd e] x. rewrite !without_ends_lookup. unfold owned. rewrite elem_of_PropSet. cbn. destruct sd; naive_solver. }
  assert (Hq : forall sd e x, endpoints S2 !! (sd, e) = Some x -> (sd, e) ∉ owned p -> participant_ x <> q).
  { intros sd e x. rewrite E1. intros Hx Hn Hc. apply Hn, Hmem. by exists x. }
  assert (Ho : forall sd e q' p', (sd, e) ∈ owned p -> q' <> q -> participants S2 !! q' = Some p' -> e ∉ members sd p').
  { intros sd e q' p' [x [Hx Hc]]%Hmem Hne Hp' Hin. rewrite E2 in Hp' by done.
    apply (wf_members _ _ _ Hw _ _ _ _ Hp') in Hin as (x' & Hx' & Hc'); [congruence|set_solver]. }
  subst S'. split; [by apply (wf_drop_participant (owned p))|]. exists L, T. split; [done|]. by apply (assoc_drop_participant (owned p)).
Qed.

Lemma wp_remove_participant S n d q p lost : holds ∅ S n d -> participants S !! q = Some p -> um_ = true -> isBitPublisher_ p = false ->
  wp (remove_participant federation_id um_ q lost) (fun r d' => r = 0 /\ exists S', holds ∅ S' n d') d.
Proof.
  intros Hd Hp Hum Hbit. pose proof Hd as (Hw & L0 & T0 & Hs0 & _). destruct (wf_part _ _ _ Hw q p Hp) as (_ & _ & N0 & N1 & N2).
  assert (Hmem : forall sd e, (sd, e) ∈ owned p <-> exists x, endpoints S !! (sd, e) = Some x /\ participant_ x = q).
  { intros sd e. unfold owned. rewrite elem_of_PropSet. apply (wf_members _ _ _ Hw q p sd e Hp). set_solver. }
  apply wp_bind. eapply wp_get_s; [exact Hs0|]. intros -> _ _ _ _. rewrite bool_decide_eq_true_2 by (apply (wf_parts _ _ _ Hw); by exists p).
  apply wp_bind, wp_bind. eapply wp_load_part; [exact Hs0|exact Hp|]. rewrite Hum, Hbit. cbn [andb negb].
  apply wp_seq. eapply wp_mono; [eapply wp_leave_all; [exact Hd|exact Hp]|]. intros [] d1 (S1 & Hd1 & [F1 F2 F3 F4]).
  apply wp_bind. eapply wp_mono; [apply (wp_remove_topics (owned p) S1 n d1 q (topicRefs_ p) Hd1 N0)|].
  { intros sd e x Hx Hc. apply Hmem. exists x. by rewrite <- F1. }
  { intros t. rewrite (wf_topicRefs _ _ _ Hw q p t Hp). specialize (F4 t). split; intros (U & HU & Hc); rewrite HU in F4.
    - destruct (topics S1 !! t) as [U1|]; [|done]. exists U1. split; [done|]. injection F4. congruence.
    - destruct (topics S !! t) as [U1|]; [|done]. exists U1. split; [done|]. injection F4. congruence. }
  intros [] d2 (S2 & (Hw2 & L & T & Hs2 & Ha2) & [G1 G2 G3 G4] & Hnot).
  assert (is_Some (participants S2 !! q)) as [p2 Hp2] by (apply (wf_parts _ _ _ Hw2); rewrite G2, F3; apply (wf_parts _ _ _ Hw); by exists p).
  eapply wp_mono; [apply (wp_delete_all S2 L T n d2 q p p2); [done|done|done|done|]|].
  { intros sd e He. split; [|intros o; eapply assoc_none; [exact Ha2|by apply elem_of_PropSet]].
    rewrite G1, F1. destruct (proj1 (Hmem sd e)) as (x & Hx & _); [by apply elem_of_PropSet|by exists x]. }
  intros [] d7 (p' & Hs7). apply wp_bind. eapply wp_get_s; [exact Hs7|]. intros -> _ _ _ _.
  apply wp_bind. eapply wp_set_participants; [exact Hs7|]. intros d8 Hs8.
  apply wp_bind. eapply wp_tell; [exact Hs8|done|]. intros d9 Hs9. apply wp_bind. eapply (wp_free_s parts); [exact Hs9|]. intros d10 Hs10.
  apply wp_ret. split; [done|]. eexists. eapply (holds_drop_participant S S2); [done|exact Hp|done|exact Ha2|congruence| |exact Hnot|].
  - intros q' Hne. by rewrite G3, F2.
  - unfold drop_participant. cbn in Hs10 |- *. by rewrite delete_insert_eq in Hs10.
Qed.

End Operations.
End InfoRepoOps.
