(* ===== verification/InfoRepoAdd.v ===== *)
(** * The information repository: new participants, topics and endpoints

    How the operations that make objects keep the invariant of InfoRepoInv, when
    every remote call returns; a new endpoint is associated with all it matches. *)

From stdpp Require Import propset.
From S2P Require Import Prelude Qos InfoRepo InfoRepoLogic InfoRepoAssoc InfoRepoInv InfoRepoOps.

Module InfoRepoAdd.
Export InfoRepoOps.

Section Operations.
Context (federation_id : Z) (um_ get_BIT : bool) (wild_match : cstring -> cstring -> bool).

Abbreviation wf := (wf federation_id).
Abbreviation reach := (reach federation_id).
Abbreviation fits := (fits federation_id wild_match).
Abbreviation matched := (matched federation_id wild_match).
Abbreviation assoc_ok := (assoc_ok federation_id wild_match).
Abbreviation holds := (holds federation_id wild_match).

Lemma not_in_empty (k : side * RepoId) : k ∉ (∅ : propset (side * RepoId)).
Proof. set_solver. Qed.

Lemma nodup_map_insert x l : x ∉ l -> NoDup l -> NoDup (map_insert x l).
Proof.
  intros Hx. induction 1 as [|z l Hz Hl IH]; cbn [map_insert]; [constructor; [done|constructor]|].
  destruct (x <? z); [by repeat constructor|]. destruct (x =? z); [by constructor|].
  constructor; [rewrite elem_map_insert|apply IH]; set_solver.
Qed.

(** ** Participants *)

Definition new_participant (bit : bool) : Participant := mkParticipant true federation_id bit [] [] [] [] [] [] [].
Definition with_participant_added (id : RepoId) (bit : bool) (S : Domain) : Domain :=
  put_participants (map_insert id (participants_ S)) (set_objects parts (<[id := new_participant bit]> (participants S)) S).

Lemma wf_add_participant S id bit : wf ∅ S -> participants S !! id = None -> wf ∅ (with_participant_added id bit S).
Proof.
  intros H Hid. pose proof not_in_empty as H0.
  assert (Hlk : forall q p, participants (with_participant_added id bit S) !! q = Some p ->
    (q = id /\ p = new_participant bit) \/ (q <> id /\ participants S !! q = Some p)).
  { intros q p. cbn. rewrite lookup_insert_Some. naive_solver. }
  assert (Hs : forall q, is_Some (participants (with_participant_added id bit S) !! q) <-> q = id \/ is_Some (participants S !! q)).
  { intros q. cbn. destruct (decide (q = id)) as [->|]; [rewrite lookup_insert_eq; naive_solver|rewrite lookup_insert_ne by done; naive_solver]. }
  split; try apply H.
  - intros sd e x Hx. rewrite Hs. destruct (wf_end _ _ _ H sd e x Hx). tauto.
  - intros t U HU. rewrite Hs. destruct (wf_topic _ _ _ H t U HU) as (? & ? & ?). tauto.
  - intros q p [[-> ->]|[_ Hp]]%Hlk; [|by apply (wf_part _ _ _ H q)]. cbn. unfold isOwner. cbn. rewrite Z.eqb_refl. repeat split; constructor.
  - intros q. rewrite Hs. cbn. by rewrite elem_map_insert, (wf_parts _ _ _ H q).
  - intros q p sd e [[-> ->]|[_ Hp]]%Hlk Hn; [|by apply (wf_members _ _ _ H q)].
    split; [destruct sd; cbn; intros []%elem_of_nil|]. intros (x & Hx & Hc). destruct (wf_end _ _ _ H sd e x Hx) as (_ & ? & Hp). congruence.
  - intros q p t [[-> ->]|[_ Hp]]%Hlk; [|by apply (wf_topicRefs _ _ _ H q)].
    split; [cbn; intros []%elem_of_nil|]. intros (U & HU & Hc). destruct (wf_topic _ _ _ H t U HU) as (_ & [? Hp] & _). congruence.
Qed.

Lemma assoc_add_participant S id bit L T : wf ∅ S -> participants S !! id = None -> assoc_ok ∅ S L T ->
  assoc_ok ∅ (with_participant_added id bit S) L T.
Proof.
  intros Hw Hid Ha. eapply assoc_transfer; [exact Ha| |done]. intros q.
  assert (Hne : forall sd e x, endpoints S !! (sd, e) = Some x -> participant_ x <> id).
  { intros sd e x Hx Hc. destruct (wf_end _ _ _ Hw sd e x Hx) as (_ & ? & ?). congruence. }
  split; apply matched_pair_sees; intros sd e Hn; (split; [done|]); intros x Hx; (split; [done|]; split; [|by eauto]); intros p; cbn;
    rewrite lookup_insert_ne by (apply not_eq_sym; by eapply Hne); eauto.
Qed.

Lemma wp_add_domain_participant S n d id Q : holds ∅ S n d -> participants S !! id = None ->
  (forall S' d', holds ∅ S' n d' -> Q id d') -> wp (add_domain_participant federation_id um_ get_BIT id) Q d.
Proof.
  intros (Hw & L & T & Hd & Ha) Hid HQ. apply wp_bind. eapply wp_get_s; [exact Hd|]. intros -> _ _ _ _. cbv zeta.
  set (bit := bool_decide (participants_ S = []) && get_BIT).
  apply wp_bind. eapply (wp_store_s parts); [exact Hd|]. intros d1 Hd1.
  apply wp_bind. apply wp_bind. eapply (wp_load_s parts); [exact Hd1|apply lookup_insert_eq|].
  apply wp_bind. eapply (wp_mono _ (fun _ => state_is _ L T n)); [apply wp_when; [intros _; eapply wp_tell; [exact Hd1|done|]; by intros|by intros]|].
  intros [] d2 Hd2. apply wp_bind. eapply (wp_load_s parts); [exact Hd2|apply lookup_insert_eq|].
  eapply (wp_mono _ (fun _ => state_is (set_objects parts (<[id := new_participant bit]> (participants S)) S) L T n)).
  - cbn [owner_ isOwner]. unfold isOwner, OWNER_NONE. cbn [owner_]. destruct (Z.eqb_spec federation_id 0) as [E|E]; cbn [andb].
    + rewrite E. cbn [Z.eqb orb andb negb]. apply wp_ret. unfold new_participant. rewrite E. exact Hd2.
    + eapply (wp_modify_s parts); [exact Hd2|apply lookup_insert_eq|]. intros d3 Hd3. cbn in Hd3. rewrite insert_insert_eq in Hd3. exact Hd3.
  - intros [] d3 Hd3. apply wp_bind. apply wp_bind. eapply wp_get_s; [exact Hd3|]. intros -> _ _ _ _.
    rewrite bool_decide_eq_false_2 by (cbn; rewrite (wf_parts _ _ _ Hw id), Hid; by intros [? ?]).
    apply wp_bind. eapply wp_set_participants; [exact Hd3|]. intros d4 Hd4. apply wp_bind. eapply wp_tell; [exact Hd4|done|]. intros d5 Hd5.
    apply wp_ret. cbn [Z.eqb].
    apply wp_bind. eapply (wp_mono _ (fun _ => state_is _ L T n)); [apply wp_when; [intros _; eapply wp_tell; [exact Hd5|done|]; by intros|by intros]|].
    intros [] d6 Hd6. eapply wp_ret, (HQ (with_participant_added id bit S)). split; [by apply wf_add_participant|].
    exists L, T. split; [exact Hd6|by apply assoc_add_participant].
Qed.

(** ** Topics *)

(** The topic [t] with description [i], which is [y] before. *)
Definition with_topic_added (t q : RepoId) (data : Z) (i : nat) (y : Topic_Description) (p : Participant) (next : nat) (tds : list nat) (S : Domain) : Domain :=
  mkDomain (endpoints S) (<[q := with_topicRefs (map_insert t) p]> (participants S)) (<[t := mkTopic q i data [] [] false]> (topics S))
    (<[i := with_topics (set_insert t) y]> (descriptions S)) next (participants_ S) tds (map_insert t (idToTopicMap_ S))
    (deadParticipants_ S) (answers_ S) (calls S).

(** The description is one of the domain, or a new one. *)
Definition described (S : Domain) (i : nat) (y : Topic_Description) (next : nat) (tds : list nat) : Prop :=
  (descriptions S !! i = Some y /\ next = next_description S /\ tds = topicDescriptions_ S)
  \/ (i = next_description S /\ subscriptionRefs_ y = [] /\ topics_ y = [] /\ next = Datatypes.S (next_description S)
      /\ tds = topicDescriptions_ S ++ [i] /\ forall j z, descriptions S !! j = Some z -> name_ z <> name_ y).

Section AddTopic.
Context (S : Domain) (t q : RepoId) (data : Z) (i : nat) (y : Topic_Description) (p : Participant) (next : nat) (tds : list nat).
Context (H : wf ∅ S) (Ht : topics S !! t = None) (Hp : participants S !! q = Some p) (Hi : described S i y next tds).

Let S' := with_topic_added t q data i y p next tds S.

Lemma described_is j z : descriptions S !! j = Some z -> j = i -> z = y.
Proof.
  intros Hz ->. destruct Hi as [(Hy & _)|(E & _)]; [congruence|]. destruct (wf_desc _ _ _ H _ _ Hz). lia.
Qed.

Lemma added_topics t' V : topics S' !! t' = Some V <-> (t' = t /\ V = mkTopic q i data [] [] false) \/ (t' <> t /\ topics S !! t' = Some V).
Proof. cbn. rewrite lookup_insert_Some. naive_solver. Qed.

Lemma added_participants q' p' : participants S' !! q' = Some p' -> exists p0, participants S !! q' = Some p0
  /\ aliveStatus_ p' = aliveStatus_ p0 /\ owner_ p' = owner_ p0 /\ (forall sd, members sd p' = members sd p0)
  /\ (topicRefs_ p' = if decide (q' = q) then map_insert t (topicRefs_ p0) else topicRefs_ p0).
Proof.
  cbn. destruct (decide (q' = q)) as [->|Hn]; [rewrite lookup_insert_eq; intros [= <-]; by exists p|].
  rewrite lookup_insert_ne by done. intros Hq. by exists p'.
Qed.

Lemma added_is_participant q' : is_Some (participants S' !! q') <-> is_Some (participants S !! q').
Proof. cbn. destruct (decide (q' = q)) as [->|]; [rewrite lookup_insert_eq, Hp; by split; eauto|by rewrite lookup_insert_ne]. Qed.

Lemma added_topic_used sd e x : endpoints S !! (sd, e) = Some x -> topic_ x <> t.
Proof. intros Hx Hc. destruct (wf_topic_of _ _ _ H sd e x Hx (not_in_empty _)) as (U & HU & _). congruence. Qed.

(** The elements of the description before. *)
Lemma described_subs s : s ∈ subscriptionRefs_ y <-> exists x U, endpoints S !! (Sub, s) = Some x /\ (Sub, s) ∉ (∅ : propset _) /\ topics S !! topic_ x = Some U /\ description_ U = i.
Proof.
  destruct Hi as [(Hy & _)|(E & -> & _)]; [by apply (wf_desc_subs _ _ _ H)|]. split; [by intros []%elem_of_nil|].
  intros (x & U & _ & _ & HU & Hd). destruct (wf_topic _ _ _ H _ U HU) as (_ & _ & z & Hz). destruct (wf_desc _ _ _ H _ z Hz). lia.
Qed.
Lemma described_topics t' : t' ∈ topics_ y <-> exists U, topics S !! t' = Some U /\ description_ U = i.
Proof.
  destruct Hi as [(Hy & _)|(E & _ & -> & _)]; [by apply (wf_desc_topics _ _ _ H)|]. split; [by intros []%elem_of_nil|].
  intros (U & HU & Hd). destruct (wf_topic _ _ _ H _ U HU) as (_ & _ & z & Hz). destruct (wf_desc _ _ _ H _ z Hz). lia.
Qed.

Lemma added_descriptions j z : descriptions S' !! j = Some z -> exists z', (j = i /\ z' = y \/ j <> i /\ descriptions S !! j = Some z')
  /\ name_ z = name_ z' /\ subscriptionRefs_ z = subscriptionRefs_ z' /\ topics_ z = if decide (j = i) then set_insert t (topics_ z') else topics_ z'.
Proof.
  cbn. destruct (decide (j = i)) as [->|Hn]; [rewrite lookup_insert_eq; intros [= <-]; exists y; naive_solver|].
  rewrite lookup_insert_ne by done. intros Hz. exists z. naive_solver.
Qed.
Lemma added_described j : is_Some (descriptions S' !! j) <-> j = i \/ is_Some (descriptions S !! j).
Proof. cbn. destruct (decide (j = i)) as [->|]; [rewrite lookup_insert_eq|rewrite lookup_insert_ne by done]; naive_solver. Qed.

Lemma wf_add_topic : wf ∅ S'.
Proof.
  split; try apply H.
  - intros sd e x Hx. rewrite added_is_participant. by apply (wf_end _ _ _ H sd e).
  - intros sd e x Hx Hn. destruct (wf_topic_of _ _ _ H sd e x Hx Hn) as (V & HV & Hc). exists V. split; [|done].
    apply added_topics. right. split; [by eapply added_topic_used|done].
  - intros t' V sd e [[-> ->]|[_ HV]]%added_topics; [|by apply (wf_refs _ _ _ H)]. split; [destruct sd; by intros []%elem_of_nil|].
    intros (x & Hx & Hc & _). by destruct (added_topic_used sd e x Hx).
  - intros t' V HV. rewrite added_is_participant, added_described. apply added_topics in HV as [[-> ->]|[_ HV]]; [cbn; by rewrite Hp; eauto|].
    destruct (wf_topic _ _ _ H t' V HV) as (? & ? & ?). tauto.
  - intros t'. cbn. rewrite elem_map_insert, (wf_ids _ _ _ H t'). destruct (decide (t' = t)) as [->|];
      [rewrite lookup_insert_eq|rewrite lookup_insert_ne by done]; naive_solver.
  - intros q' p' Hq. destruct (added_participants q' p' Hq) as (p0 & Hp0 & Ea & Eo & Em & Et). destruct (wf_part _ _ _ H q' p0 Hp0) as (? & ? & N0 & ? & ?).
    pose proof (Em Pub) as E1. pose proof (Em Sub) as E2. cbn [members] in E1, E2. unfold isOwner in *. rewrite Ea, Eo, Et, E1, E2. clear Ea Eo Et E1 E2.
    split_and!; [done..| |done|done]. case_decide; [|done]. apply nodup_map_insert; [|done].
    rewrite (wf_topicRefs _ _ _ H q' p0 t Hp0). intros (V & HV & _). congruence.
  - intros q'. rewrite added_is_participant. apply (wf_parts _ _ _ H).
  - intros q' p' sd e Hq Hn. destruct (added_participants q' p' Hq) as (p0 & Hp0 & _ & _ & Em & _). rewrite Em. by apply (wf_members _ _ _ H).
  - intros q' p' t' Hq. destruct (added_participants q' p' Hq) as (p0 & Hp0 & _ & _ & _ & ->). pose proof (wf_topicRefs _ _ _ H q' p0 t' Hp0) as E.
    setoid_rewrite added_topics. case_decide as Hc; [rewrite elem_map_insert|]; rewrite E; naive_solver.
  - intros j z s Hz. destruct (added_descriptions j z Hz) as (z' & Hz' & _ & -> & _).
    assert (E : s ∈ subscriptionRefs_ z' <-> exists x U, endpoints S !! (Sub, s) = Some x /\ (Sub, s) ∉ (∅ : propset _) /\ topics S !! topic_ x = Some U /\ description_ U = j).
    { destruct Hz' as [[-> ->]|[_ Hz']]; [apply described_subs|by apply (wf_desc_subs _ _ _ H)]. }
    rewrite E. setoid_rewrite added_topics. split; intros (x & U & Hx & Hn & HU & Hd); exists x, U; (split_and!; [done..| |done]).
    + right. split; [by eapply added_topic_used|done].
    + destruct HU as [[E' _]|[_ HU]]; [by destruct (added_topic_used _ _ _ Hx)|done].
  - intros j z t' Hz. destruct (added_descriptions j z Hz) as (z' & Hz' & _ & _ & ->).
    assert (E : t' ∈ topics_ z' <-> exists U, topics S !! t' = Some U /\ description_ U = j).
    { destruct Hz' as [[-> ->]|[_ Hz']]; [apply described_topics|by apply (wf_desc_topics _ _ _ H)]. }
    setoid_rewrite added_topics. case_decide as Hc; [rewrite elem_set_insert|]; rewrite E; naive_solver.
  - intros j z Hz. destruct (added_descriptions j z Hz) as (z' & Hz' & _ & _ & ->). split.
    + case_decide; [intros E; assert (Hin : t ∈ set_insert t (topics_ z')) by (apply elem_set_insert; by left); rewrite E in Hin; by apply elem_of_nil in Hin|].
      destruct Hz' as [[? _]|[_ Hz']]; [done|]. by apply (wf_desc _ _ _ H j).
    + cbn. destruct Hz' as [[-> ->]|[_ Hz']], Hi as [(Hy & -> & _)|(-> & _ & _ & -> & _)]; try lia;
        [by apply (wf_desc _ _ _ H i y)|by apply (wf_desc _ _ _ H j z')|]. destruct (wf_desc _ _ _ H j z' Hz'). lia.
  - intros j. rewrite added_described. cbn. destruct Hi as [(Hy & _ & ->)|(_ & _ & _ & _ & -> & _)].
    + rewrite (wf_descs _ _ _ H j). naive_solver.
    + rewrite elem_of_app, list_elem_of_singleton, (wf_descs _ _ _ H j). tauto.
  - intros j k z1 z2 H1 H2. destruct (added_descriptions j z1 H1) as (z1' & H1' & -> & _), (added_descriptions k z2 H2) as (z2' & H2' & -> & _).
    assert (Hnm : forall l w, l <> i -> descriptions S !! l = Some w -> name_ w <> name_ y).
    { intros l w Hl Hw Hn. destruct Hi as [(Hy & _)|(_ & _ & _ & _ & _ & Hno)]; [|by eapply Hno]. by destruct Hl, (wf_names _ _ _ H l i w y). }
    destruct H1' as [[-> ->]|[N1 H1']], H2' as [[-> ->]|[N2 H2']]; intros En; [done| | |by apply (wf_names _ _ _ H j k z1' z2')].
    + by destruct (Hnm k z2').
    + by destruct (Hnm j z1').
Qed.

Lemma assoc_add_topic L T : assoc_ok ∅ S L T -> assoc_ok ∅ S' L T.
Proof.
  intros Ha. eapply assoc_transfer; [exact Ha| |done].
  assert (Hf : face (with_topicRefs (map_insert t) p) = face p) by done.
  intros q'. split; apply matched_pair_sees; intros sd e Hn; (split; [done|]); intros x Hx; (split; [done|split]).
  - intros p' Hq. destruct (decide (participant_ x = q)) as [E|E]; cbn in Hq.
    + rewrite E, lookup_insert_eq in Hq. injection Hq as <-. exists p. by rewrite E.
    + rewrite lookup_insert_ne in Hq by done. by exists p'.
  - intros V [[E _]|[_ HV]]%added_topics; [by destruct (added_topic_used sd e x Hx)|]. by exists V.
  - intros p' Hq. cbn. destruct (decide (participant_ x = q)) as [E|E].
    + rewrite E in *. rewrite lookup_insert_eq. eexists. split; [done|]. rewrite Hf. congruence.
    + rewrite lookup_insert_ne by done. by exists p'.
  - intros V HV. exists V. split; [|done]. apply added_topics. right. split; [by eapply added_topic_used|done].
Qed.

End AddTopic.


Lemma find_by_name_static S L T n d name : state_is S L T n d -> find_by_name name d = find_by_name name S.
Proof. by intros [<- _ _ _]. Qed.

Lemma find_by_name_spec S name : wf ∅ S ->
  match find_by_name name S with
  | Some i => exists y, descriptions S !! i = Some y /\ name_ y = name
  | None => forall j z, descriptions S !! j = Some z -> name_ z <> name
  end.
Proof.
  intros H. unfold find_by_name. destruct (List.find _ _) as [i|] eqn:E.
  - apply List.find_some in E as [_ E]. destruct (descriptions S !! i) as [y|]; [|done]. exists y. by apply bool_decide_eq_true in E.
  - intros j z Hz Hn. assert (Hj : In j (topicDescriptions_ S)) by (apply list_elem_of_In, (wf_descs _ _ _ H); by exists z).
    pose proof (List.find_none _ _ E j Hj) as F. cbn in F. rewrite Hz in F. by apply bool_decide_eq_false in F.
Qed.

(** The name of a description that is not listed yet is not found. *)
Lemma find_by_name_new S name x : wf ∅ S -> find_by_name name S = None ->
  forall S1, topicDescriptions_ S1 = topicDescriptions_ S -> descriptions S1 = <[next_description S := x]> (descriptions S) -> find_by_name name S1 = None.
Proof.
  intros H Hn S1 E1 E2. destruct (find_by_name name S1) as [i|] eqn:E; [|done]. unfold find_by_name in E, Hn. rewrite E1, E2 in E.
  apply List.find_some in E as [Hi Hf]. pose proof (List.find_none _ _ Hn i Hi) as F. cbn in F.
  rewrite lookup_insert_ne in Hf; [congruence|]. apply list_elem_of_In, (wf_descs _ _ _ H) in Hi as [z Hz]. destruct (wf_desc _ _ _ H i z Hz). lia.
Qed.

Definition with_description_added (x : Topic_Description) (S : Domain) : Domain :=
  mkDomain (endpoints S) (participants S) (topics S) (<[next_description S := x]> (descriptions S)) (Datatypes.S (next_description S))
    (participants_ S) (topicDescriptions_ S) (idToTopicMap_ S) (deadParticipants_ S) (answers_ S) (calls S).

Lemma wp_new_description S L T n d x Q : state_is S L T n d ->
  (forall d', state_is (with_description_added x S) L T n d' -> Q (next_description S) d') -> wp (new_description x) Q d.
Proof. intros [<- ? ? ?] HQ. eexists _, _. split; [reflexivity|]. apply HQ. by split. Qed.

(** The topic itself, its description being there. *)
Definition add_topic_with (i : nat) (t q : RepoId) (data : Z) : repo TopicStatus :=
  store tops t (mkTopic q i data [] [] false);;
  added ← desc_add_topic i t;
  if added =? 0 then
    referenced ← add_topic_reference q t;
    if referenced =? 0 then
      d ← get; set_idToTopicMap_ (map_insert t (idToTopicMap_ d));; tell (publish_bit (inr (inl t)) t);; mret CREATED
    else ignore (desc_remove_topic i t);; free tops t;; mret NOT_FOUND
  else free tops t;; mret NOT_FOUND.

Lemma wp_add_topic_with S L T n d i y t q data p Q : state_is S L T n d -> descriptions S !! i = Some y -> participants S !! q = Some p ->
  t ∉ topics_ y -> t ∉ topicRefs_ p ->
  (forall d', state_is (with_topic_added t q data i y p (next_description S) (topicDescriptions_ S) S) L T n d' -> Q CREATED d') ->
  wp (add_topic_with i t q data) Q d.
Proof.
  intros Hd Hy Hp N1 N2 HQ. apply wp_bind. eapply (wp_store_s tops); [exact Hd|]. intros d1 Hd1.
  apply wp_bind. apply wp_bind. eapply (wp_load_s descs); [exact Hd1|exact Hy|]. rewrite bool_decide_eq_false_2 by done.
  apply wp_bind. eapply (wp_modify_s descs); [exact Hd1|exact Hy|]. intros d2 Hd2. apply wp_ret. cbn [Z.eqb].
  apply wp_bind. apply wp_bind. eapply (wp_load_s parts); [exact Hd2|exact Hp|]. rewrite bool_decide_eq_false_2 by done.
  apply wp_bind. eapply (wp_modify_s parts); [exact Hd2|exact Hp|]. intros d3 Hd3. apply wp_ret. cbn [Z.eqb].
  apply wp_bind. eapply wp_get_s; [exact Hd3|]. intros _ _ -> _ _. apply wp_bind. eapply wp_set_ids; [exact Hd3|]. intros d4 Hd4.
  apply wp_bind. eapply wp_tell; [exact Hd4|done|]. intros d5 Hd5. by apply wp_ret, HQ.
Qed.

Lemma wp_add_topic_i S n d t q name type data p Q : holds ∅ S n d -> topics S !! t = None -> participants S !! q = Some p ->
  (forall r S' d', r = CREATED \/ r = CONFLICTING_TYPENAME -> holds ∅ S' n d' -> is_Some (participants S' !! q) -> Q r d') -> wp (add_topic_i t name type data q) Q d.
Proof.
  intros Hh Ht Hp HQ. pose proof Hh as (Hw & L & T & Hd & Ha).
  assert (N2 : t ∉ topicRefs_ p) by (rewrite (wf_topicRefs _ _ _ Hw q p t Hp); intros (U & HU & _); congruence).
  assert (Hfin : forall i y next tds d', described S i y next tds -> state_is (with_topic_added t q data i y p next tds S) L T n d' -> Q CREATED d').
  { intros i y next tds d' Hi Hd'. apply (HQ _ (with_topic_added t q data i y p next tds S)); [by left| |cbn; rewrite lookup_insert_eq; eauto].
    split; [by apply wf_add_topic|]. exists L, T. split; [done|by apply assoc_add_topic]. }
  pose proof (find_by_name_spec S name Hw) as Hf. apply wp_bind. apply wp_bind, wp_get. rewrite (find_by_name_static _ _ _ _ _ name Hd).
  destruct (find_by_name name S) as [i|] eqn:Ef.
  - destruct Hf as (y & Hy & Hn). apply wp_bind. eapply wp_load_desc; [exact Hd|exact Hy|]. apply wp_ret. case_bool_decide; cbn [Z.eqb Pos.eqb].
    2:{ apply wp_ret. apply (HQ _ S); [by right|done|by rewrite Hp]. }
    apply wp_bind, wp_ret. eapply (wp_add_topic_with S L T n d i y); [done|done|exact Hp| |done|].
    + rewrite (wf_desc_topics _ _ _ Hw i y t Hy). intros (U & HU & _). congruence.
    + intros d1 Hd1. eapply Hfin; [|exact Hd1]. by left.
  - apply wp_ret. cbn [Z.eqb Pos.eqb]. apply wp_bind. apply wp_bind. eapply wp_new_description; [exact Hd|]. intros d1 Hd1.
    apply wp_bind. apply wp_bind. eapply wp_load_desc; [exact Hd1|apply lookup_insert_eq|]. cbn [name_ dataTypeName_].
    apply wp_bind. apply wp_bind, wp_get. rewrite (find_by_name_static _ _ _ _ _ name Hd1), (find_by_name_new S name (mkDescription name type [] [])) by done.
    apply wp_ret. cbn [Z.eqb Pos.eqb]. apply wp_bind. eapply wp_get_s; [exact Hd1|]. intros _ -> _ _ _.
    apply wp_bind. eapply wp_set_descriptions; [exact Hd1|]. intros d2 Hd2. apply wp_ret. cbn [Z.eqb]. apply wp_ret.
    eapply (wp_add_topic_with _ L T n d2 _ (mkDescription name type [] [])); [exact Hd2|apply lookup_insert_eq|exact Hp|apply not_elem_of_nil|done|].
    intros d3 Hd3. eapply (Hfin _ (mkDescription name type [] []) (Datatypes.S (next_description S)) (topicDescriptions_ S ++ [next_description S])); [right; by split_and!|]. unfold with_topic_added in Hd3 |- *. cbn in Hd3. rewrite insert_insert_eq in Hd3. exact Hd3.
Qed.

Lemma wp_assert_topic S n d t q name type data Q : holds ∅ S n d -> topics S !! t = None -> is_Some (participants S !! q) ->
  (forall r S' d', holds ∅ S' n d' -> Q r d') -> wp (assert_topic um_ t q name type data) Q d.
Proof.
  intros Hh Ht [p Hp] HQ. pose proof Hh as (Hw & L & T & Hd & _). apply wp_bind. eapply wp_get_s; [exact Hd|]. intros -> _ _ _ _.
  rewrite bool_decide_eq_true_2 by (apply (wf_parts _ _ _ Hw); by exists p). apply wp_bind.
  eapply wp_add_topic_i; [exact Hh|done|exact Hp|]. intros r S1 d1 _ (Hw1 & L1 & T1 & Hd1 & Ha1) [p1 Hp1].
  apply wp_bind. eapply wp_load_part; [exact Hd1|exact Hp1|]. apply wp_bind.
  eapply (wp_mono _ (fun _ => state_is S1 L1 T1 n)); [apply wp_when; [intros _; by eapply wp_tell|by intros]|].
  intros [] d2 Hd2. apply wp_ret, (HQ _ S1). split; [done|by exists L1, T1].
Qed.


(** ** The pairs of an endpoint *)

Lemma usable_wf S sd e x : wf ∅ S -> endpoints S !! (sd, e) = Some x -> usable federation_id S sd e.
Proof.
  intros H Hx. destruct (wf_reach _ _ _ _ _ _ H Hx) as (p & Hp). destruct (wf_topic_of _ _ _ H _ _ _ Hx (not_in_empty _)) as (U & HU & _).
  exists x, p, U. split; [done|]. split; [done|]. by apply (wf_topic _ _ _ H (topic_ x)).
Qed.

(** The pairs the loops of a description visit are those of the same topic. *)
Definition desc_pairs (S : Domain) (sd : side) (e : RepoId) (y : Topic_Description) : RepoId * RepoId -> Prop :=
  match sd with Pub => pub_pairs e y | Sub => sub_pairs S e y end.

Lemma desc_pairs_iff S sd e x U y q : wf ∅ S -> endpoints S !! (sd, e) = Some x -> topics S !! topic_ x = Some U ->
  descriptions S !! description_ U = Some y -> desc_pairs S sd e y q <-> side_of sd q = e /\ same_topic S q.
Proof.
  intros H Hx HU Hy. pose proof not_in_empty as H0. destruct q as [q1 q2], sd; cbn [desc_pairs side_of]; unfold pub_pairs, sub_pairs, same_topic; cbn.
  - rewrite (wf_desc_subs _ _ _ H _ _ _ Hy). split.
    + intros [-> (z & V & Hz & _ & HV & Hd)]. split; [done|]. by exists x, z, U, V.
    + intros [-> (x' & z & U' & V & Hx' & Hz & HU' & HV & Hd)]. simplify_eq. split; [done|]. by exists z, V.
  - split.
    + intros [-> (t & Ht & Hr)]. split; [done|]. unfold refs_of in Hr. destruct (topics S !! t) as [V|] eqn:HV; [|by apply elem_of_nil in Hr].
      apply (wf_refs _ _ _ H t V Pub q1 HV) in Hr as (z & Hz & Hc & _). apply (wf_desc_topics _ _ _ H _ _ _ Hy) in Ht as (V' & HV' & Hd).
      simplify_eq. by exists z, x, V', U.
    + intros [-> (z & x' & V & U' & Hz & Hx' & HV & HU' & Hd)]. simplify_eq. split; [done|]. exists (topic_ z). split.
      * apply (wf_desc_topics _ _ _ H _ _ _ Hy). by exists V.
      * unfold refs_of. rewrite HV. apply (wf_refs _ _ _ H _ V Pub q1 HV). by exists z.
Qed.

Lemma topics_ready_wf S i y : wf ∅ S -> descriptions S !! i = Some y -> topics_ready federation_id S y.
Proof.
  intros H Hy t Ht. apply (wf_desc_topics _ _ _ H i y t Hy) in Ht as (U & HU & _). destruct (wf_topic _ _ _ H t U HU) as (_ & [p Hp] & _).
  exists U, p. split; [done|]. split; [done|]. intros pub Hpub. apply (wf_refs _ _ _ H t U Pub pub HU) in Hpub as (x & Hx & <- & Hn).
  exists x. destruct (wf_reach _ _ _ _ _ _ H Hx) as (p' & Hp'). destruct (wf_topic_of _ _ _ H _ _ _ Hx Hn) as (U' & HU' & Hc).
  simplify_eq. assert (p' = p) as -> by (pose proof (re_part _ _ _ _ _ _ Hp'); congruence). done.
Qed.

(** How many failures the tests of an endpoint with all of a description can add, [k]
    for each pair. *)
Definition match_cost (k : Z) (sd : side) (S : Domain) (i : nat) : Z :=
  match descriptions S !! i with
  | Some y => match sd with Pub => k * Z.of_nat (length (subscriptionRefs_ y)) | Sub => pub_cost k S y end
  | None => 0
  end.

Lemma match_cost_nonneg k sd S i : 0 <= k -> 0 <= match_cost k sd S i.
Proof.
  intros Hk. unfold match_cost. destruct (descriptions S !! i) as [z|]; [|done]. destruct sd; [lia|]. unfold pub_cost. apply total_nonneg. lia.
Qed.

(** ** Endpoints *)

Definition with_endpoint_added (sd : side) (e : RepoId) (x : Endpoint) (p : Participant) (U : Topic) (y : Topic_Description) (S : Domain) : Domain :=
  mkDomain (<[(sd, e) := x]> (endpoints S)) (<[participant_ x := with_members sd (map_insert e) p]> (participants S))
    (<[topic_ x := with_refs sd (set_insert e) U]> (topics S))
    (match sd with Pub => descriptions S | Sub => <[description_ U := with_subscriptionRefs (set_insert e) y]> (descriptions S) end)
    (next_description S) (participants_ S) (topicDescriptions_ S) (idToTopicMap_ S) (deadParticipants_ S) (answers_ S) (calls S).

Section AddEndpoint.
Context (S : Domain) (sd : side) (e : RepoId) (x : Endpoint) (p : Participant) (U : Topic) (y : Topic_Description).
Context (H : wf ∅ S) (Hfresh : endpoints S !! (sd, e) = None) (Hp : participants S !! participant_ x = Some p).
Context (HU : topics S !! topic_ x = Some U) (Hc : creator_ U = participant_ x) (Hy : descriptions S !! description_ U = Some y).
Context (Hdur : durations_ok (endpoint_qos (qos_ x))).

Let S' := with_endpoint_added sd e x p U y S.

Lemma joined_endpoints k z : endpoints S' !! k = Some z <-> (k = (sd, e) /\ z = x) \/ (k <> (sd, e) /\ endpoints S !! k = Some z).
Proof. clear -S'. cbn. rewrite lookup_insert_Some. naive_solver. Qed.

Lemma joined_endpoint_eq sd' e' z : endpoints S' !! (sd', e') = Some z <->
  (sd' = sd /\ e' = e /\ z = x) \/ (~ (sd' = sd /\ e' = e) /\ endpoints S !! (sd', e') = Some z).
Proof. clear -S'. rewrite joined_endpoints. naive_solver. Qed.

Lemma joined_topics t V : topics S' !! t = Some V -> exists V', topics S !! t = Some V'
  /\ creator_ V = creator_ V' /\ description_ V = description_ V' /\ removed_ V = removed_ V'
  /\ forall sd' e', e' ∈ topic_refs sd' V <-> (sd' = sd /\ e' = e /\ t = topic_ x) \/ e' ∈ topic_refs sd' V'.
Proof.
  cbn. destruct (decide (t = topic_ x)) as [->|Hn].
  - rewrite lookup_insert_eq. intros [= <-]. exists U. destruct (with_refs_same sd (set_insert e) U) as (? & ? & ?).
    split_and!; [done..|]. intros sd' e'. rewrite topic_refs_with. case_decide; [subst; rewrite elem_set_insert; naive_solver|naive_solver].
  - rewrite lookup_insert_ne by done. intros HV. exists V. naive_solver.
Qed.
Lemma joined_topics_back t V' : topics S !! t = Some V' -> exists V, topics S' !! t = Some V
  /\ creator_ V = creator_ V' /\ description_ V = description_ V'.
Proof.
  intros HV. cbn. destruct (decide (t = topic_ x)) as [->|Hn]; [rewrite lookup_insert_eq|rewrite lookup_insert_ne by done; by eauto].
  destruct (with_refs_same sd (set_insert e) U) as (? & ? & ?). eexists. naive_solver.
Qed.

Lemma joined_participants q p' : participants S' !! q = Some p' -> exists p0, participants S !! q = Some p0
  /\ face p' = face p0 /\ topicRefs_ p' = topicRefs_ p0
  /\ forall sd', members sd' p' = if decide (sd' = sd /\ q = participant_ x) then map_insert e (members sd' p0) else members sd' p0.
Proof.
  cbn. destruct (decide (q = participant_ x)) as [->|Hn].
  - rewrite lookup_insert_eq. intros [= <-]. exists p. split_and!; [done|apply face_members|by destruct sd|]. intros sd'. rewrite members_with.
    destruct (decide (sd' = sd)) as [->|]; [by rewrite decide_True|by rewrite decide_False by tauto].
  - rewrite lookup_insert_ne by done. intros Hq. exists p'. split_and!; [done..|]. intros sd'. by rewrite decide_False by tauto.
Qed.
Lemma joined_participants_back q p0 : participants S !! q = Some p0 -> exists p', participants S' !! q = Some p' /\ face p' = face p0.
Proof.
  intros Hq. cbn. destruct (decide (q = participant_ x)) as [->|Hn]; [rewrite lookup_insert_eq|rewrite lookup_insert_ne by done; by eauto].
  eexists. split; [done|]. rewrite face_members. congruence.
Qed.

Lemma joined_descriptions i z : descriptions S' !! i = Some z -> exists z', descriptions S !! i = Some z'
  /\ name_ z = name_ z' /\ topics_ z = topics_ z'
  /\ forall s, s ∈ subscriptionRefs_ z <-> (sd = Sub /\ i = description_ U /\ s = e) \/ s ∈ subscriptionRefs_ z'.
Proof.
  cbn. destruct sd; [intros Hz; exists z; naive_solver|]. destruct (decide (i = description_ U)) as [->|Hn].
  - rewrite lookup_insert_eq. intros [= <-]. exists y. split_and!; [done..|]. intros s. cbn [subscriptionRefs_ with_subscriptionRefs]. rewrite elem_set_insert. naive_solver.
  - rewrite lookup_insert_ne by done. intros Hz. exists z. naive_solver.
Qed.
Lemma joined_described i : is_Some (descriptions S' !! i) <-> is_Some (descriptions S !! i).
Proof.
  cbn. destruct sd; [done|]. destruct (decide (i = description_ U)) as [->|]; [rewrite lookup_insert_eq, Hy; by split; eauto|by rewrite lookup_insert_ne].
Qed.

Lemma face_fields (p1 p2 : Participant) : face p1 = face p2 -> aliveStatus_ p1 = aliveStatus_ p2 /\ owner_ p1 = owner_ p2.
Proof. destruct p1, p2. cbn. by intros [= -> ->]. Qed.

Lemma joined_is_participant q : is_Some (participants S' !! q) <-> is_Some (participants S !! q).
Proof.
  split; intros [p' Hq]; [destruct (joined_participants _ _ Hq) as (p0 & ? & _)|destruct (joined_participants_back _ _ Hq) as (p0 & ? & _)]; by exists p0.
Qed.

Lemma wf_join_topics : forall t V, topics S' !! t = Some V ->
  (removed_ V = false /\ is_Some (participants S' !! creator_ V) /\ is_Some (descriptions S' !! description_ V))
  /\ forall sd' e', e' ∈ topic_refs sd' V <-> exists z, endpoints S' !! (sd', e') = Some z /\ topic_ z = t /\ (sd', e') ∉ (∅ : propset (side * RepoId)).
Proof.
  intros t V HV. destruct (joined_topics t V HV) as (V' & HV' & Ec & Ed & Er & Erefs). split.
  - rewrite Ec, Ed, Er, joined_is_participant, joined_described. by apply (wf_topic _ _ _ H t).
  - intros sd' e'. rewrite Erefs, (wf_refs _ _ _ H t V' sd' e' HV'). setoid_rewrite joined_endpoint_eq. split.
    + intros [(-> & -> & ->)|(z & Hz & Ht & Hn)]; [exists x; split; [by left|]; split; [done|apply not_in_empty]|].
      exists z. split; [|done]. right. split; [|done]. intros [-> ->]. congruence.
    + intros (z & [(-> & -> & ->)|[_ Hz]] & Ht & Hn); [by left|]. right. by exists z.
Qed.

Lemma wf_join_members q p' sd' e' : participants S' !! q = Some p' ->
  e' ∈ members sd' p' <-> exists z, endpoints S' !! (sd', e') = Some z /\ participant_ z = q.
Proof.
  intros Hq. destruct (joined_participants q p' Hq) as (p0 & Hp0 & _ & _ & Em). rewrite Em. clear Em.
  pose proof (wf_members _ _ _ H q p0 sd' e' Hp0 (not_in_empty _)) as E. setoid_rewrite joined_endpoint_eq.
  case_decide as Hd; [rewrite elem_map_insert|]; rewrite E; split.
  - intros [->|(z & Hz & Hz')]; [exists x; naive_solver|]. exists z. split; [|done]. right. split; [|done]. intros [-> ->]. congruence.
  - intros (z & [(-> & -> & ->)|[_ Hz]] & Hz'); [by left|]. right. by exists z.
  - intros (z & Hz & Hz'). exists z. split; [|done]. right. split; [|done]. intros [-> ->]. congruence.
  - intros (z & [(-> & -> & ->)|[_ Hz]] & Hz'); [naive_solver|]. by exists z.
Qed.

Lemma wf_join_subs i z s : descriptions S' !! i = Some z ->
  (s ∈ subscriptionRefs_ z <-> exists w V, endpoints S' !! (Sub, s) = Some w /\ (Sub, s) ∉ (∅ : propset (side * RepoId))
                               /\ topics S' !! topic_ w = Some V /\ description_ V = i).
Proof.
  intros Hz. destruct (joined_descriptions i z Hz) as (z' & Hz' & _ & _ & Es). rewrite Es, (wf_desc_subs _ _ _ H i z' s Hz').
  setoid_rewrite joined_endpoint_eq. pose proof (not_in_empty (Sub, s)) as H0. split.
  - intros [(Esd & -> & ->)|(w & V & Hw & _ & HV & Hd)].
    + destruct (joined_topics_back _ _ HU) as (V & HV & _ & Hd). exists x, V. split_and!; [by left|done..].
    + destruct (joined_topics_back _ _ HV) as (V' & HV' & _ & Hd'). exists w, V'. split_and!; [|done|done|congruence].
      right. split; [|done]. intros [<- ->]. congruence.
  - intros (w & V & Hw & _ & HV & Hd). destruct (joined_topics _ _ HV) as (V' & HV' & _ & Hd' & _).
    destruct Hw as [(<- & -> & ->)|[_ Hw]]; [left; split_and!; [done|congruence|done]|]. right. exists w, V'. split_and!; [done..|congruence].
Qed.

Lemma wf_add_endpoint : wf ∅ S'.
Proof.
  pose proof not_in_empty as H0. split; try apply H.
  - intros sd' e' z. rewrite joined_is_participant, joined_endpoint_eq. intros [(_ & _ & ->)|[_ Hz]]; [by rewrite Hp; eauto|]. by apply (wf_end _ _ _ H sd' e').
  - intros sd' e' z Hz _. assert (Hz' : exists V, topics S !! topic_ z = Some V /\ creator_ V = participant_ z).
    { apply joined_endpoint_eq in Hz as [(_ & _ & ->)|[_ Hz]]; [by exists U|]. by apply (wf_topic_of _ _ _ H sd' e'). }
    destruct Hz' as (V & HV & HVc). destruct (joined_topics_back _ _ HV) as (V' & HV' & Hc' & _). exists V'. by rewrite Hc'.
  - intros t V sd' e' HV. by apply wf_join_topics.
  - intros t V HV. by apply (proj1 (wf_join_topics t V HV)).
  - intros t. cbn [idToTopicMap_ S' with_endpoint_added]. rewrite (wf_ids _ _ _ H t).
    split; intros [V HV]; [destruct (joined_topics_back _ _ HV) as (V' & ? & _)|destruct (joined_topics _ _ HV) as (V' & ? & _)]; by exists V'.
  - intros q p' Hq. destruct (joined_participants q p' Hq) as (p0 & Hp0 & Ef & Et & Em). destruct (wf_part _ _ _ H q p0 Hp0) as (? & ? & ? & N1 & N2).
    destruct (face_fields _ _ Ef) as [Ea Eo]. pose proof (Em Pub) as E1. pose proof (Em Sub) as E2. cbn [members] in E1, E2.
    unfold isOwner in *. rewrite Ea, Eo, Et, E1, E2. clear Ea Eo Et E1 E2 Em.
    assert (Hn : forall sd', e ∈ members sd' p0 -> sd' = sd -> False).
    { intros sd' Hin ->. apply (wf_members _ _ _ H q p0 sd e Hp0 (H0 _)) in Hin as (z & Hz & _). congruence. }
    split_and!; [done..| |]; (case_decide as Hd; [destruct Hd as [Hsd _]; apply nodup_map_insert; [|done]; intros Hin; eapply Hn; [|exact Hsd]; exact Hin|done]).
  - intros q. rewrite joined_is_participant. apply (wf_parts _ _ _ H).
  - intros q p' sd' e' Hq _. by apply wf_join_members.
  - intros q p' t Hq. destruct (joined_participants q p' Hq) as (p0 & Hp0 & _ & -> & _). rewrite (wf_topicRefs _ _ _ H q p0 t Hp0).
    split; intros (V & HV & HVc); [destruct (joined_topics_back _ _ HV) as (V' & HV' & Ec & _)|destruct (joined_topics _ _ HV) as (V' & HV' & Ec & _)];
      exists V'; (split; [done|congruence]).
  - intros i z s. apply wf_join_subs.
  - intros i z t Hz. destruct (joined_descriptions i z Hz) as (z' & Hz' & _ & -> & _). rewrite (wf_desc_topics _ _ _ H i z' t Hz').
    split; intros (V & HV & HVc); [destruct (joined_topics_back _ _ HV) as (V' & HV' & _ & Ed)|destruct (joined_topics _ _ HV) as (V' & HV' & _ & Ed & _)];
      exists V'; (split; [done|congruence]).
  - intros i z Hz. destruct (joined_descriptions i z Hz) as (z' & Hz' & _ & -> & _). by apply (wf_desc _ _ _ H i z').
  - intros i. rewrite joined_described. apply (wf_descs _ _ _ H).
  - intros i j z1 z2 H1 H2. destruct (joined_descriptions i z1 H1) as (z1' & H1' & -> & _), (joined_descriptions j z2 H2) as (z2' & H2' & -> & _).
    by apply (wf_names _ _ _ H i j z1').
Qed.

(** The new endpoint matches nothing before, and the others as they did. *)
Lemma joined_sees sd' e' : sees S S' sd' e'.
Proof.
  intros z Hz. split; [apply joined_endpoint_eq; right; split; [intros [-> ->]; congruence|done]|]. split; [apply joined_participants_back|].
  intros V HV. destruct (joined_topics_back _ _ HV) as (V' & HV' & _ & Ed). by exists V'.
Qed.
Lemma joined_sees_back sd' e' : (sd', e') <> (sd, e) -> sees S' S sd' e'.
Proof.
  intros Hne z Hz. split; [apply joined_endpoint_eq in Hz as [(-> & -> & _)|[_ Hz]]; [done|done]|]. split.
  - intros p' Hq. destruct (joined_participants _ _ Hq) as (p0 & Hp0 & Ef & _). by exists p0.
  - intros V HV. destruct (joined_topics _ _ HV) as (V' & HV' & _ & Ed & _). by exists V'.
Qed.

Lemma not_linked L T u : assoc_ok ∅ S L T -> side_of sd (pair_of u) = e -> u ∉ L.
Proof.
  intros [H1 _] He Hu. apply H1 in Hu as [Hm _]. destruct (matched_ends _ _ _ _ Hm sd) as (z & p' & Hz). rewrite He in Hz.
  pose proof (re_end _ _ _ _ _ _ Hz). congruence.
Qed.

Lemma not_told L T u : assoc_ok ∅ S L T -> (forall o, (sd, e, o) ∉ T) -> side_of sd (pair_of u) = e -> is_Some (endpoints S' !! u.1) -> u ∉ T.
Proof.
  intros Ha HT He Hs Hu. destruct (decide (u.1 = (sd, e))) as [E|E].
  { apply (HT u.2). by rewrite <- E, <- surjective_pairing. }
  destruct Hs as [z Hz]. apply joined_endpoints in Hz as [[? _]|[_ Hz]]; [done|].
  eapply not_linked; [exact Ha|exact He|]. apply (as_told _ _ _ _ _ _ Ha); [by exists z|apply not_in_empty|done].
Qed.

Lemma assoc_add_endpoint L T R : assoc_ok ∅ S L T -> (forall o, (sd, e, o) ∉ T) -> (forall q, R q <-> side_of sd q = e /\ same_topic S' q) ->
  decided R -> assoc_ok ∅ S' (revise R (fits S') L) (revise R (fits S') T).
Proof.
  intros Ha HT HR Hdec. split.
  - intros u. rewrite elem_revise. split.
    + intros [[HRu Hf]|[_ Hu]].
      * split; [split; [done|by apply HR]|split; apply not_in_empty].
      * apply (as_linked _ _ _ _ _ _ Ha) in Hu as [Hm Hk]. split; [|done]. eapply matched_sees; [|exact Hm]. intros sd'. apply joined_sees.
    + intros [Hm Hk]. destruct (decide (side_of sd (pair_of u) = e)) as [He|He].
      * left. split; [apply HR; split; [done|apply Hm]|apply Hm].
      * right. split; [by rewrite HR; intros [? _]|]. apply (as_linked _ _ _ _ _ _ Ha). split; [|done]. eapply matched_sees; [|exact Hm].
        intros sd'. apply joined_sees_back. intros [= -> E]. done.
  - intros u Hs _. rewrite !elem_revise. destruct (decide (side_of sd (pair_of u) = e)) as [He|He].
    + pose proof (not_linked L T u Ha He). pose proof (not_told L T u Ha HT He Hs). tauto.
    + assert (Hu : is_Some (endpoints S !! u.1)).
      { destruct Hs as [z Hz]. apply joined_endpoints in Hz as [[E _]|[_ Hz]]; [|by exists z]. destruct He.
        destruct (pair_of_side u) as [E1 _]. rewrite E in E1. exact E1. }
      pose proof (as_told _ _ _ _ _ _ Ha u Hu (not_in_empty _)). tauto.
Qed.


End AddEndpoint.


Lemma wp_new_end S L T n d k x Q : state_is S L T n d -> endpoints S !! k = None -> associations_ x = [] -> incompatibleQosStatus_ x = no_status ->
  (forall d', state_is (put_ends (<[k := strip x]> (endpoints S)) S) L T n d' -> Q () d') -> wp (store ends k x) Q d.
Proof.
  intros [<- H2 H3 [Hn H4]] Hk Ha Hst HQ. eexists _, _. split; [reflexivity|]. apply HQ. split.
  - unfold static, put_ends. cbn. by rewrite fmap_insert.
  - intros u. rewrite <- (H2 u). unfold linked. rewrite !elem_of_PropSet. cbn. destruct (decide (u.1 = k)) as [->|Hne].
    + cbn in Hk. rewrite lookup_fmap in Hk. destruct (endpoints d !! k); [done|]. rewrite lookup_insert_eq. split; [|by intros (? & [=] & _)].
      intros (z & [= <-] & Hin). rewrite Ha in Hin. by apply elem_of_nil in Hin.
    + by rewrite lookup_insert_ne.
  - done.
  - split; [done|]. intros k' z. cbn. rewrite lookup_insert_Some. intros [[<- <-]|[_ Hz]]; [|by apply (H4 k')].
    rewrite Hst. unfold room, no_status. cbn. split_and!; [lia|lia|intros; lia|constructor].
Qed.

(** A new endpoint is tried with all of its description. *)
Definition associate_all (sd : side) (i : nat) (e : RepoId) : repo unit :=
  match sd with
  | Pub => try_associate_publication federation_id wild_match i e
  | Sub => try_associate_subscription federation_id wild_match i e
  end.

Lemma wp_associate_all S L T n d sd e x U y Q : wf ∅ S -> endpoints S !! (sd, e) = Some x -> topics S !! topic_ x = Some U ->
  descriptions S !! description_ U = Some y -> (forall q, desc_pairs S sd e y q -> tryable federation_id wild_match S L T q) -> 0 <= n ->
  state_is S L T (match_cost 8 sd S (description_ U) + n) d ->
  (forall d', revised federation_id wild_match S L T (desc_pairs S sd e y) n d' -> Q () d') -> wp (associate_all sd (description_ U) e) Q d.
Proof.
  intros Hw Hx HU Hy Hq Hn Hd HQ. unfold match_cost in Hd. rewrite Hy in Hd. destruct sd; cbn [associate_all].
  - eapply (wp_try_associate_publication _ _ S L T n); [done|apply Hw|exact Hy|by eapply usable_wf|exact Hq|exact Hd|exact HQ].
  - destruct (wf_reach _ _ _ _ _ _ Hw Hx) as (p & Hp).
    eapply (wp_try_associate_subscription _ _ S L T n); [done|apply Hw|exact Hy|exact Hp|by exists U|by eapply topics_ready_wf|exact Hq|exact Hd|exact HQ].
Qed.

(** The references to a new endpoint. *)
Lemma wp_add_reference S L T n d sd e t U y Q : state_is S L T n d -> topics S !! t = Some U -> descriptions S !! description_ U = Some y ->
  e ∉ topic_refs sd U -> (sd = Sub -> e ∉ subscriptionRefs_ y) ->
  (forall d', state_is (set_objects descs (match sd with Pub => descriptions S | Sub => <[description_ U := with_subscriptionRefs (set_insert e) y]> (descriptions S) end)
                (set_objects tops (<[t := with_refs sd (set_insert e) U]> (topics S)) S)) L T n d' ->
     wp (associate_all sd (description_ U) e) (fun _ => Q 0) d') ->
  wp (add_reference federation_id wild_match sd t e true) Q d.
Proof.
  intros Hd HU Hy N1 N2 HQ. destruct sd; cbn [add_reference topic_refs] in *.
  - apply wp_bind. eapply (wp_load_s tops); [exact Hd|exact HU|]. rewrite bool_decide_eq_false_2 by done.
    apply wp_bind. eapply (wp_modify_s tops); [exact Hd|exact HU|]. intros d1 Hd1.
    apply wp_bind. eapply wp_tell; [exact Hd1|done|]. intros d2 Hd2. cbn [when]. apply wp_bind. eapply wp_mono; [by apply (HQ d2)|].
    intros [] d3 Hd3. by apply wp_ret.
  - apply wp_bind. eapply (wp_load_s tops); [exact Hd|exact HU|]. rewrite bool_decide_eq_false_2 by done.
    apply wp_bind. eapply (wp_modify_s tops); [exact Hd|exact HU|]. intros d1 Hd1.
    apply wp_bind. eapply (wp_load_s descs); [exact Hd1|exact Hy|]. rewrite bool_decide_eq_false_2 by (by apply N2).
    apply wp_bind. eapply (wp_modify_s descs); [exact Hd1|exact Hy|]. intros d2 Hd2.
    apply wp_bind. eapply wp_tell; [exact Hd2|done|]. intros d3 Hd3. cbn [when]. apply wp_bind. eapply wp_mono; [by apply (HQ d3)|].
    intros [] d4 Hd4. by apply wp_ret.
Qed.

(** The tests of a new endpoint cost as much as they would have before. *)
Lemma match_cost_added k S sd e x p U y : topics S !! topic_ x = Some U -> descriptions S !! description_ U = Some y ->
  match_cost k sd (with_endpoint_added sd e x p U y S) (description_ U) = match_cost k sd S (description_ U).
Proof.
  intros HU Hy. unfold match_cost. destruct sd; cbn [descriptions with_endpoint_added]; [done|]. rewrite lookup_insert_eq, Hy.
  unfold pub_cost. cbn [topics_ with_subscriptionRefs]. unfold total. induction (topics_ y) as [|t l IH]; cbn [foldr]; [done|].
  rewrite IH. do 3 f_equal. unfold refs_of. cbn [topics with_endpoint_added]. destruct (decide (t = topic_ x)) as [->|]; [by rewrite lookup_insert_eq, HU|by rewrite lookup_insert_ne].
Qed.


Lemma decided_desc S sd e y : decided (desc_pairs S sd e y).
Proof.
  destruct sd; intros q; cbn [desc_pairs]; unfold pub_pairs, sub_pairs.
  - destruct (decide (q.1 = e /\ q.2 ∈ subscriptionRefs_ y)); tauto.
  - destruct (decide (q.2 = e)) as [|]; [|tauto]. destruct (decide (Exists (fun t => q.1 ∈ refs_of S t) (topics_ y))) as [Hx|Hx];
      rewrite Exists_exists in Hx; tauto.
Qed.

(** The pairs of a new endpoint can be tried. *)
Lemma tryable_added S sd e x p U y L T q : wf ∅ S -> endpoints S !! (sd, e) = None -> wf ∅ (with_endpoint_added sd e x p U y S) ->
  assoc_ok ∅ S L T -> (forall o, (sd, e, o) ∉ T) -> side_of sd q = e -> same_topic (with_endpoint_added sd e x p U y S) q ->
  tryable federation_id wild_match (with_endpoint_added sd e x p U y S) L T q.
Proof.
  intros Hw Hf Hw' Ha HT He (x1 & y1 & U1 & V1 & Hx1 & Hy1 & _). set (S' := with_endpoint_added sd e x p U y S) in *.
  assert (Hno : forall u, pair_of u = q -> u ∉ L /\ u ∉ T).
  { intros u Hu. assert (Hs : side_of sd (pair_of u) = e) by (by rewrite Hu). split.
    - by eapply (not_linked S sd e).
    - eapply (not_told S sd e x p U y); [done|exact Ha|done|done|]. destruct q as [q1 q2]. apply pair_of_spec in Hu as [->| ->]; eauto. }
  assert (HL : (Pub, q.1, q.2) ∉ L) by (apply Hno; by destruct q). split; [|done]. split; [by eapply usable_wf|]. split; [by eapply usable_wf|].
  split; [|done]. intros u v Hu Hv. destruct (Hno u Hu), (Hno v Hv). tauto.
Qed.

Lemma wp_add_endpoint S L T n d sd q t e qos info group filter params U Q : wf ∅ S -> assoc_ok ∅ S L T ->
  state_is S L T (match_cost 8 sd S (description_ U) + n) d -> 0 <= n -> topics S !! t = Some U -> creator_ U = q ->
  endpoints S !! (sd, e) = None -> (forall o, (sd, e, o) ∉ T) -> durations_ok (endpoint_qos qos) ->
  (forall S' d', holds ∅ S' n d' -> is_Some (endpoints S' !! (sd, e)) -> Q (Some e) d') ->
  wp (add_endpoint federation_id um_ wild_match sd q t e qos info group filter params) Q d.
Proof.
  intros Hw Ha Hd Hn HU Hc Hf HT Hdur HQ. destruct (wf_topic _ _ _ Hw t U HU) as (_ & [p Hp] & [y Hy]). rewrite Hc in Hp.
  set (x := mkEndpoint q t qos info group filter params [] [] no_status).
  assert (Hw' : wf ∅ (with_endpoint_added sd e x p U y S)) by (by apply wf_add_endpoint).
  apply wp_bind. eapply wp_get_s; [exact Hd|]. intros -> _ _ _ _. rewrite bool_decide_eq_true_2 by (apply (wf_parts _ _ _ Hw); by exists p).
  apply wp_bind. apply wp_bind. eapply wp_get_s; [exact Hd|]. intros _ _ -> _ _. apply wp_ret.
  rewrite bool_decide_eq_true_2 by (apply (wf_ids _ _ _ Hw); by exists U).
  apply wp_bind. eapply (wp_new_end S L T _ d _ x); [exact Hd|done|done|done|]. intros d1 Hd1.
  apply wp_bind. apply wp_bind. eapply (wp_load_s parts); [exact Hd1|exact Hp|].
  assert (Nx : forall P : Endpoint -> Prop, ~ exists z, endpoints S !! (sd, e) = Some z /\ P z) by (intros P (z & Hz & _); congruence).
  rewrite bool_decide_eq_false_2 by (rewrite (wf_members _ _ _ Hw q p sd e Hp (not_in_empty _)); apply Nx).
  apply wp_bind. eapply (wp_modify_s parts); [exact Hd1|exact Hp|]. intros d2 Hd2. apply wp_ret. cbn [Z.eqb negb].
  apply wp_bind. apply wp_bind. eapply (wp_add_reference _ L T _ d2 sd e t U y); [exact Hd2|exact HU|exact Hy| | |].
  { rewrite (wf_refs _ _ _ Hw t U sd e HU). apply Nx. }
  { intros ->. rewrite (wf_desc_subs _ _ _ Hw _ _ _ Hy). intros (z & V & Hz & _). congruence. }
  intros d3 Hd3. change (state_is (with_endpoint_added sd e x p U y S) L T (match_cost 8 sd S (description_ U) + n) d3) in Hd3.
  rewrite <- (match_cost_added 8 S sd e x p U y HU Hy) in Hd3.
  assert (Hx' : endpoints (with_endpoint_added sd e x p U y S) !! (sd, e) = Some x) by apply lookup_insert_eq.
  destruct (joined_topics_back S sd e x p U y HU t U HU) as (U' & HU' & _ & Ed). rewrite <- Ed in Hd3 |- *.
  assert (is_Some (descriptions (with_endpoint_added sd e x p U y S) !! description_ U')) as [y' Hy'] by (by apply (wf_topic _ _ _ Hw' t)).
  assert (HR : forall r, desc_pairs (with_endpoint_added sd e x p U y S) sd e y' r <-> side_of sd r = e /\ same_topic (with_endpoint_added sd e x p U y S) r)
    by (intros r; by eapply desc_pairs_iff).
  eapply (wp_associate_all _ L T n d3 sd e x U' y'); [exact Hw'|exact Hx'|exact HU'|exact Hy'| |done|exact Hd3|].
  { intros r Hr. apply HR in Hr as [? ?]. by apply tryable_added. }
  intros d4 Hd4. cbn [Z.eqb negb]. apply wp_ret.
  destruct (joined_participants_back S sd e x p U y Hp q p Hp) as (p' & Hp' & _).
  apply wp_bind. eapply wp_load_part; [exact Hd4|exact Hp'|]. apply wp_bind.
  eapply (wp_mono _ (fun _ => revised federation_id wild_match _ L T _ n)); [apply wp_when; [intros _; eapply wp_tell; [exact Hd4|done|]; by intros|by intros]|].
  intros [] d5 Hd5. apply wp_bind. eapply (wp_remove_dead _ _ _ _ _ _ _ _ Hd5); [apply Hw'|]. apply wp_ret.
  apply (HQ (with_endpoint_added sd e x p U y S)); [|by exists x]. split; [done|]. eexists _, _. split; [exact Hd5|].
  eapply assoc_add_endpoint; try done. apply decided_desc.
Qed.


End Operations.
End InfoRepoAdd.
