(* ===== verification/InfoRepoChange.v ===== *)
(** * The information repository: ignoring entities and changing policies

    [ignore_*] and [update_*_qos] keep the invariant of InfoRepoInv, when every remote
    call returns: the associations that are ignored or do not match any more end, and
    those that match now are made. *)

From stdpp Require Import propset.
From S2P Require Import Prelude Qos InfoRepo InfoRepoLogic InfoRepoAssoc InfoRepoInv InfoRepoOps InfoRepoAdd.

Module InfoRepoChange.
Export InfoRepoAdd.

Section Operations.
Context (federation_id : Z) (um_ : bool) (wild_match : cstring -> cstring -> bool).

Abbreviation wf := (wf federation_id).
Abbreviation reach := (reach federation_id).
Abbreviation fits := (fits federation_id wild_match).
Abbreviation matched := (matched federation_id wild_match).
Abbreviation assoc_ok := (assoc_ok federation_id wild_match).
Abbreviation holds := (holds federation_id wild_match).
Abbreviation without P L := (revise P (fun _ => False) L).

(** ** Ending the associations a test selects *)

(** Both sides of a pair have it or not, and existing endpoints were told so. *)
Record agreed (S : Domain) (L T : propset triple) : Prop := {
  ag_pair : forall u v, pair_of u = pair_of v -> u ∈ L -> v ∈ L;
  ag_told : forall u, is_Some (endpoints S !! u.1) -> (u ∈ T <-> u ∈ L);
  ag_reach : forall u sd, u ∈ L -> exists x p, reach S sd (side_of sd (pair_of u)) x p }.

Lemma assoc_agreed S L T : assoc_ok ∅ S L T -> agreed S L T.
Proof.
  intros [H1 H2]. split.
  - intros u v E Hu. apply H1 in Hu. apply H1. by rewrite <- E.
  - intros u Hu. apply H2; [done|apply not_in_empty].
  - intros u sd Hu. apply H1 in Hu as [Hm _]. by eapply matched_ends.
Qed.

(** The pairs of [e] that the test [w] selects. *)
Definition selected (sd : side) (e : RepoId) (w : RepoId -> bool) (q : RepoId * RepoId) : Prop :=
  side_of sd q = e /\ w (side_of (other sd) q) = true.

Lemma pair_of_sides sd e u : side_of sd (pair_of u) = e -> pair_of u = pair_of (sd, e, side_of (other sd) (pair_of u)).
Proof. intros <-. destruct u as [[[] ?] ?], sd; done. Qed.

Lemma wp_select S L T n d sd e x p which w : agreed S L T -> state_is S L T n d -> answers_ S = [] -> reach S sd e x p ->
  (forall o L' T' d (Q : bool -> Domain -> Prop), (sd, e, o) ∈ L -> state_is S L' T' n d -> Q (w o) d -> wp (which o) Q d) ->
  wp (disassociate federation_id sd e which false)
    (fun _ d' => exists L' T', state_is S L' T' n d' /\ agreed S L' T' /\ forall u, u ∈ L' <-> u ∈ L /\ ~ selected sd e w (pair_of u)) d.
Proof.
  intros [H1 H2 H3] Hd Ha Hx Hw. eapply wp_mono; [eapply (wp_disassociate _ S L T n); [exact Hd|done|exact Hx| |exact Hw]|].
  { intros o Ho. destruct (H3 _ (other sd) Ho) as (y & p' & Hy). exists y, p'. destruct (pair_of_side (sd, e, o)) as [_ E]. cbn in E. by rewrite E in Hy. }
  intros [] d1 Hd1. eexists _, _. split; [exact Hd1|].
  assert (Hsel : forall u, u ∈ L -> ended sd e (fun o => (sd, e, o) ∈ L /\ w o = true) (pair_of u) <-> selected sd e w (pair_of u)).
  { intros u Hu. split.
    - intros (o & [_ Hwo] & ->). unfold selected. by destruct sd.
    - intros [He Hwo]. exists (side_of (other sd) (pair_of u)). pose proof (pair_of_sides _ _ _ He) as E.
      split; [split; [|done]; by eapply H1|]. by rewrite the_pair_of in E. }
  assert (HL : forall u, u ∈ without (ended sd e (fun o => (sd, e, o) ∈ L /\ w o = true)) L <-> u ∈ L /\ ~ selected sd e w (pair_of u)).
  { intros u. rewrite without_elem. split; [intros [? Hu]; by rewrite <- Hsel|intros [Hu ?]; by rewrite Hsel]. }
  split; [|done]. split.
  - intros u v E. rewrite !HL, E. intros [Hu ?]. split; [by eapply H1|done].
  - intros u Hu. rewrite !without_elem. by rewrite (H2 u Hu).
  - intros u sd' [Hu _]%HL. by apply H3.
Qed.

(** A loop of them. *)
Lemma wp_select_all S n sd es (f : RepoId -> repo unit) w :
  (forall L T d e, e ∈ es -> agreed S L T -> state_is S L T n d -> wp (f e)
    (fun _ d' => exists L' T', state_is S L' T' n d' /\ agreed S L' T' /\ forall u, u ∈ L' <-> u ∈ L /\ ~ selected sd e w (pair_of u)) d) ->
  forall L T d, agreed S L T -> state_is S L T n d ->
  wp (for_each es f) (fun _ d' => exists L' T', state_is S L' T' n d' /\ agreed S L' T'
    /\ forall u, u ∈ L' <-> u ∈ L /\ ~ exists e, e ∈ es /\ selected sd e w (pair_of u)) d.
Proof.
  intros Hf. induction es as [|e es IH]; intros L T d Ha Hd; cbn [for_each].
  - apply wp_ret. exists L, T. split; [done|]. split; [done|]. intros u. split; [|tauto]. intros Hu. split; [done|].
    intros (e & He & _). by apply elem_of_nil in He.
  - apply wp_bind. eapply wp_mono; [by apply (Hf L T d e); [left|..]|]. intros [] d1 (L1 & T1 & Hd1 & Ha1 & HL1).
    eapply wp_mono; [apply (IH (fun L T d e He => Hf L T d e (list_elem_of_further _ _ _ He)) L1 T1 d1 Ha1 Hd1)|].
    intros [] d2 (L2 & T2 & Hd2 & Ha2 & HL2). exists L2, T2. split; [done|]. split; [done|].
    intros u. rewrite HL2, HL1. setoid_rewrite elem_of_cons. naive_solver.
Qed.

(** ** Ignoring *)

#[local] Instance ignorable_eq : EqDecision ignorable.
Proof. solve_decision. Defined.

(** The endpoint [o] is, or belongs to, what is ignored now. *)
Definition hits (k : ignorable) (id : RepoId) (sd : side) (o : RepoId) (y : Endpoint) : bool :=
  match k with
  | a_participant => id =? participant_ y
  | a_topic => id =? topic_ y
  | a_publication => (if sd is Pub then true else false) && (id =? o)
  | a_subscription => (if sd is Sub then true else false) && (id =? o)
  end.
Definition hit (S : Domain) (k : ignorable) (id : RepoId) (sd : side) (o : RepoId) : bool :=
  match endpoints S !! (sd, o) with Some y => hits k id sd o y | None => false end.

Lemma ignored_insert k k' id i p : is_ignored k i (with_ignored k' id p) = is_ignored k i p || (if decide (k = k') then id =? i else false).
Proof.
  unfold is_ignored. destruct (decide (k = k')) as [->|Hn].
  - assert (E : forall l, bool_decide (i ∈ set_insert id l) = bool_decide (i ∈ l) || (id =? i)).
    { intros l. apply eq_true_iff_eq. rewrite orb_true_iff, !bool_decide_eq_true, elem_set_insert, Z.eqb_eq. naive_solver. }
    destruct k'; apply E.
  - rewrite orb_false_r. destruct k, k'; done.
Qed.

Lemma ignores_insert k id p sd o y : ignores (with_ignored k id p) sd o y = ignores p sd o y || hits k id sd o y.
Proof.
  unfold ignores. rewrite !ignored_insert. destruct k, sd; cbn [endpoint_kind hits andb];
    repeat match goal with |- context [is_ignored ?a ?b ?c] => destruct (is_ignored a b c) end;
    repeat match goal with |- context [?a =? ?b] => destruct (a =? b) end; done.
Qed.

Definition with_ignoring (q : RepoId) (p : Participant) (S : Domain) : Domain := set_objects parts (<[q := p]> (participants S)) S.

(** A participant that has the same lists. *)
Lemma wf_same_participant S q p p' : wf ∅ S -> participants S !! q = Some p -> aliveStatus_ p' = aliveStatus_ p -> owner_ p' = owner_ p ->
  topicRefs_ p' = topicRefs_ p -> (forall sd, members sd p' = members sd p) -> wf ∅ (with_ignoring q p' S).
Proof.
  intros H Hp Ea Eo Et Em.
  assert (Hlk : forall r p1, participants (with_ignoring q p' S) !! r = Some p1 -> exists p0, participants S !! r = Some p0
    /\ aliveStatus_ p1 = aliveStatus_ p0 /\ owner_ p1 = owner_ p0 /\ topicRefs_ p1 = topicRefs_ p0 /\ forall sd, members sd p1 = members sd p0).
  { intros r p1. cbn. destruct (decide (r = q)) as [->|]; [rewrite lookup_insert_eq; intros [= <-]; by exists p|].
    rewrite lookup_insert_ne by done. intros Hr. by exists p1. }
  assert (Hs : forall r, is_Some (participants (with_ignoring q p' S) !! r) <-> is_Some (participants S !! r)).
  { intros r. cbn. destruct (decide (r = q)) as [->|]; [rewrite lookup_insert_eq, Hp; by split; eauto|by rewrite lookup_insert_ne]. }
  split; try apply H.
  - intros sd e x Hx. rewrite Hs. by apply (wf_end _ _ _ H sd e).
  - intros t U HU. rewrite Hs. by apply (wf_topic _ _ _ H t).
  - intros r p1 Hr. destruct (Hlk r p1 Hr) as (p0 & Hp0 & E1 & E2 & E3 & E4). pose proof (E4 Pub) as E5. pose proof (E4 Sub) as E6.
    cbn [members] in E5, E6. pose proof (wf_part _ _ _ H r p0 Hp0) as Hw. unfold isOwner in *. by rewrite E1, E2, E3, E5, E6.
  - intros r. rewrite Hs. apply (wf_parts _ _ _ H).
  - intros r p1 sd e Hr Hn. destruct (Hlk r p1 Hr) as (p0 & Hp0 & _ & _ & _ & ->). by apply (wf_members _ _ _ H).
  - intros r p1 t Hr. destruct (Hlk r p1 Hr) as (p0 & Hp0 & _ & _ & -> & _). by apply (wf_topicRefs _ _ _ H).
Qed.

Section Ignore.
Context (S : Domain) (k : ignorable) (id q : RepoId) (p : Participant).
Context (H : wf ∅ S) (Hp : participants S !! q = Some p).

Let S' := with_ignoring q (with_ignored k id p) S.

(** The pairs that are ignored now. *)
Definition now_ignored (r : RepoId * RepoId) : Prop :=
  exists sd, side_of sd r ∈ members sd p /\ hit S k id (other sd) (side_of (other sd) r) = true.

Lemma reach_ignoring sd e x px : reach S sd e x px ->
  exists px', reach S' sd e x px' /\ forall sd' o y, ignores px' sd' o y = ignores px sd' o y || (bool_decide (participant_ x = q) && hits k id sd' o y).
Proof.
  intros [H1 H2 H3 H4 H5]. case_bool_decide as E.
  - exists (with_ignored k id px). assert (px = p) as -> by congruence. split; [|intros; by rewrite ignores_insert].
    split; [done| |done..]. cbn. by rewrite E, lookup_insert_eq.
  - exists px. split; [|intros; by rewrite orb_false_r]. split; [done| |done..]. cbn. by rewrite lookup_insert_ne.
Qed.

Lemma now_ignored_side sd e x o y : endpoints S !! (sd, e) = Some x -> endpoints S !! (other sd, o) = Some y ->
  (e ∈ members sd p /\ hit S k id (other sd) o = true) <-> bool_decide (participant_ x = q) && hits k id (other sd) o y = true.
Proof.
  intros Hx Hy. rewrite (wf_members _ _ _ H q p sd e Hp (not_in_empty _)). unfold hit. rewrite Hy, andb_true_iff, bool_decide_eq_true. naive_solver.
Qed.

Lemma matched_ignoring r : matched S' r <-> matched S r /\ ~ now_ignored r.
Proof.
  assert (Ht : same_topic S' r <-> same_topic S r) by done. unfold InfoRepoInv.matched. rewrite Ht.
  enough (same_topic S r -> (fits S' r <-> fits S r /\ ~ now_ignored r)) by tauto.
  intros (x & y & _ & _ & Hx & Hy & _). destruct r as [a b]. cbn in Hx, Hy.
  destruct (wf_reach _ _ _ _ _ _ H Hx) as (px & Rx). destruct (wf_reach _ _ _ _ _ _ H Hy) as (py & Ry).
  destruct (reach_ignoring _ _ _ _ Rx) as (px' & Rx' & Ix). destruct (reach_ignoring _ _ _ _ Ry) as (py' & Ry' & Iy).
  rewrite (fits_iff _ _ S' a b x y px' py' Rx' Ry'), (fits_iff _ _ S a b x y px py Rx Ry), Ix, Iy, !orb_false_iff.
  assert (Hno : now_ignored (a, b) <-> bool_decide (participant_ x = q) && hits k id Sub b y = true \/ bool_decide (participant_ y = q) && hits k id Pub a x = true).
  { rewrite <- (now_ignored_side Pub a x b y Hx Hy), <- (now_ignored_side Sub b y a x Hy Hx). unfold now_ignored. split; [intros [[] ?]; tauto|].
    intros [?|?]; [by exists Pub|by exists Sub]. }
  rewrite Hno. destruct (bool_decide (participant_ x = q) && hits k id Sub b y), (bool_decide (participant_ y = q) && hits k id Pub a x); intuition congruence.
Qed.

End Ignore.


(** The loop over the endpoints of one side, with the test of the kind. *)
Definition disassociate_from (k : ignorable) (sd : side) (id e : RepoId) : repo unit :=
  match k with
  | a_participant => disassociate_participant federation_id sd e id false
  | a_topic => disassociate_topic federation_id sd e id
  | a_publication | a_subscription => disassociate_endpoint federation_id sd e id false
  end.

Lemma wp_disassociate_from S k id n sd e x px L T d : wf ∅ S -> reach S sd e x px ->
  (k = a_participant \/ k = a_topic \/ k = endpoint_kind (other sd)) -> agreed S L T -> state_is S L T n d ->
  wp (disassociate_from k sd id e) (fun _ d' => exists L' T', state_is S L' T' n d' /\ agreed S L' T'
    /\ forall u, u ∈ L' <-> u ∈ L /\ ~ selected sd e (hit S k id (other sd)) (pair_of u)) d.
Proof.
  intros Hw Hx Hk Ha Hd. pose proof (wf_answers _ _ _ Hw) as Hans.
  assert (Ho : forall o, (sd, e, o) ∈ L -> exists y py, reach S (other sd) o y py).
  { intros o HL. destruct (ag_reach _ _ _ Ha _ (other sd) HL) as (y & py & Hy). exists y, py. destruct (pair_of_side (sd, e, o)) as [_ E]. cbn in E. by rewrite E in Hy. }
  assert (Hh : forall o y py, reach S (other sd) o y py -> hit S k id (other sd) o = hits k id (other sd) o y).
  { intros o y py Hy. unfold hit. by rewrite (re_end _ _ _ _ _ _ Hy). }
  assert (Hcase : match k with a_participant | a_topic => True | _ => forall o y, hits k id (other sd) o y = (id =? o) end)
    by (destruct k, sd; try done; naive_solver).
  destruct k; (eapply wp_select; [exact Ha|exact Hd|exact Hans|exact Hx|]); intros o L1 T1 d1 Q HL Hd1 HQ; destruct (Ho o HL) as (y & py & Hy);
    rewrite (Hh o y py Hy) in HQ.
  - apply wp_bind. eapply wp_get_participant_id; [exact Hd1|exact Hy|]. by apply wp_ret.
  - destruct (wf_topic_of _ _ _ Hw _ _ _ (re_end _ _ _ _ _ _ Hy) (not_in_empty _)) as (U & HU & _).
    apply wp_bind. eapply wp_get_topic_id; [exact Hd1|exact Hy|by exists U|]. by apply wp_ret.
  - apply wp_bind. eapply wp_load_end; [exact Hd1|apply Hy|]. intros y1 _ _. apply wp_ret. by rewrite Hcase in HQ.
  - apply wp_bind. eapply wp_load_end; [exact Hd1|apply Hy|]. intros y1 _ _. apply wp_ret. by rewrite Hcase in HQ.
Qed.

(** One side of the endpoints of a participant; the other one has nothing to end when
    the loop for it is not there. *)
Lemma wp_ignore_side S k id n sd q p (loop : bool) L T d : wf ∅ S -> participants S !! q = Some p ->
  (loop = true -> k = a_participant \/ k = a_topic \/ k = endpoint_kind (other sd)) -> (loop = false -> k = endpoint_kind sd) ->
  agreed S L T -> state_is S L T n d ->
  wp (when loop (for_each (members sd p) (fun e => disassociate_from k sd id e)))
    (fun _ d' => exists L' T', state_is S L' T' n d' /\ agreed S L' T'
      /\ forall u, u ∈ L' <-> u ∈ L /\ ~ (side_of sd (pair_of u) ∈ members sd p /\ hit S k id (other sd) (side_of (other sd) (pair_of u)) = true)) d.
Proof.
  intros Hw Hp Hk Hk' Ha Hd. destruct loop; cbn [when].
  - eapply wp_mono; [eapply (wp_select_all S n sd _ _ (hit S k id (other sd))); [|exact Ha|exact Hd]|].
    + intros L1 T1 d1 e He Ha1 Hd1. apply (wf_members _ _ _ Hw q p sd e Hp (not_in_empty _)) in He as (x & Hx & _).
      destruct (wf_reach _ _ _ _ _ _ Hw Hx) as (px & Rx). eapply wp_disassociate_from; [done|exact Rx|by apply Hk|exact Ha1|exact Hd1].
    + intros [] d1 (L1 & T1 & Hd1 & Ha1 & HL1). exists L1, T1. split; [done|]. split; [done|]. intros u. rewrite HL1. unfold selected. naive_solver.
  - apply wp_ret. exists L, T. split; [done|]. split; [done|]. intros u. split; [|tauto]. intros Hu. split; [done|]. intros [_ Hh].
    rewrite (Hk' eq_refl) in Hh. unfold hit in Hh. destruct (endpoints S !! _); [|done]. by destruct sd.
Qed.

Lemma wp_ignore_entity S k id n d q p : holds ∅ S n d -> participants S !! q = Some p ->
  wp (ignore_entity federation_id k q id) (fun _ d' => exists S', holds ∅ S' n d') d.
Proof.
  intros (Hw & L & T & Hd & Ha) Hp. set (p' := with_ignored k id p). set (S' := with_ignoring q p' S).
  assert (Hw' : wf ∅ S') by (eapply wf_same_participant; [exact Hw|exact Hp|done..|by intros []]).
  assert (Hp' : participants S' !! q = Some p') by apply lookup_insert_eq.
  assert (Hag : agreed S' L T).
  { destruct (assoc_agreed _ _ _ Ha) as [A1 A2 A3]. split; [exact A1|exact A2|]. intros u sd Hu. destruct (A3 u sd Hu) as (x & px & Hx).
    destruct (reach_ignoring S k id q p Hp _ _ _ _ Hx) as (px' & Hx' & _). by exists x, px'. }
  assert (Hloops : forall b1 b2 sd1, (b1 = true -> k = a_participant \/ k = a_topic \/ k = endpoint_kind (other sd1)) -> (b1 = false -> k = endpoint_kind sd1) ->
    (b2 = true -> k = a_participant \/ k = a_topic \/ k = endpoint_kind (other (other sd1))) -> (b2 = false -> k = endpoint_kind (other sd1)) ->
    forall d1, state_is S' L T n d1 ->
    wp (when b1 (for_each (members sd1 p') (fun e => disassociate_from k sd1 id e));; when b2 (for_each (members (other sd1) p') (fun e => disassociate_from k (other sd1) id e)))
      (fun _ d' => exists S', holds ∅ S' n d') d1).
  { intros b1 b2 sd1 K1 K1' K2 K2' d1 Hd1. apply wp_bind. eapply wp_mono; [eapply (wp_ignore_side S' k id n sd1 q p' b1); [done|done|done|done|exact Hag|exact Hd1]|].
    intros [] d2 (L2 & T2 & Hd2 & Ha2 & HL2). eapply wp_mono; [eapply (wp_ignore_side S' k id n (other sd1) q p' b2); [done|done|done|done|exact Ha2|exact Hd2]|].
    intros [] d3 (L3 & T3 & Hd3 & Ha3 & HL3). exists S'. split; [done|]. exists L3, T3. split; [done|]. split.
    - intros u. rewrite HL3, HL2, (as_linked _ _ _ _ _ _ Ha). unfold S', p'. rewrite (matched_ignoring S k id q p Hw Hp). unfold now_ignored.
      assert (Em : forall sd, members sd (with_ignored k id p) = members sd p) by (by intros []). rewrite !Em.
      assert (Eh : forall sd o, hit (with_ignoring q (with_ignored k id p) S) k id sd o = hit S k id sd o) by done. rewrite !Eh.
      split; [intros [[[? ?] N1] N2]; split_and!; [done| |done]; intros [sd ?]; destruct sd, sd1; tauto|].
      intros [[? N] ?]. split_and!; [done|done| |]; intros ?; apply N; eauto.
    - intros u Hu _. by apply (ag_told _ _ _ Ha3). }
  destruct k; (apply wp_bind; eapply (wp_modify_s parts); [exact Hd|exact Hp|]; intros d1 Hd1; apply wp_bind; eapply (wp_load_s parts); [exact Hd1|exact Hp'|]).
  - by apply (Hloops true true Pub); [naive_solver..|].
  - by apply (Hloops true true Pub); [naive_solver..|].
  - eapply wp_mono; [by apply (Hloops false true Pub); [naive_solver..|]|done].
  - eapply wp_mono; [by apply (Hloops false true Sub); [naive_solver..|]|done].
Qed.


(** ** Changing policies *)

(** Of the policies that are compared only the deadline, the latency budget and the
    partition can change after an entity is enabled. *)
Definition qos_changeable (x y : EndpointQos) : Prop :=
  durability x = durability y /\ liveliness x = liveliness y /\ lease_duration x = lease_duration y
  /\ reliability x = reliability y /\ ownership x = ownership y.
Definition group_changeable (x y : GroupQos) : Prop :=
  access_scope x = access_scope y /\ coherent_access x = coherent_access y /\ ordered_access x = ordered_access y.

Lemma unchecked_same x y : qos_changeable x y -> endpoint_change_checked x y = false -> x = y.
Proof.
  intros (? & ? & ? & ? & ?) Hc. unfold endpoint_change_checked in Hc. apply negb_false_iff, andb_true_iff in Hc as [Hdl Hlb].
  apply dur_eq_spec in Hdl. apply dur_eq_spec in Hlb. destruct x, y. cbn in *. by subst.
Qed.
Lemma unchecked_group_same x y : group_changeable x y -> group_change_checked x y = false -> x = y.
Proof.
  intros (? & ? & ?) Hc. unfold group_change_checked in Hc. apply negb_false_iff, bool_decide_eq_true in Hc. destruct x, y. cbn in *. by subst.
Qed.

Definition with_end (k : side * RepoId) (x : Endpoint) (S : Domain) : Domain := put_ends (<[k := x]> (endpoints S)) S.

Lemma wp_set_end S L T n d k x f Q : state_is S L T n d -> endpoints S !! k = Some x -> (forall z, strip (f z) = f (strip z)) ->
  (forall z, associations_ (f z) = associations_ z /\ incompatibleQosStatus_ (f z) = incompatibleQosStatus_ z) ->
  (forall d', state_is (with_end k (f x) S) L T n d' ->
     (forall x1, endpoints d !! k = Some x1 -> endpoints d' !! k = Some (f x1)) -> Q () d') -> wp (modify ends k f) Q d.
Proof.
  intros [<- H2 H3 [Hn H4]] Hx Hf1 Hf2 HQ. rewrite endpoints_static in Hx. destruct (endpoints d !! k) as [x1|] eqn:Hx1; [|done]. injection Hx as <-.
  apply wp_bind. apply (wp_load _ _ x1); [done|]. eexists _, _. split; [reflexivity|]. destruct (Hf2 x1) as [E1 E2].
  apply HQ; [|intros z [= <-]; apply lookup_insert_eq]. split.
  - unfold static, with_end, put_ends. cbn. by rewrite fmap_insert, Hf1.
  - intros u. rewrite <- (H2 u). unfold linked. rewrite !elem_of_PropSet. cbn. destruct (decide (u.1 = k)) as [->|]; [|by rewrite lookup_insert_ne].
    rewrite lookup_insert_eq, Hx1. split; intros (z & [= <-] & Hin); eexists; (split; [done|]); [by rewrite <- E1|by rewrite E1].
  - done.
  - split; [done|]. intros k' z. cbn. rewrite lookup_insert_Some. intros [[<- <-]|[_ Hz]]; [rewrite E2; by apply (H4 k x1)|by apply (H4 k')].
Qed.

Section SetQos.
Context (S : Domain) (sd : side) (e : RepoId) (x x' : Endpoint).
Context (H : wf ∅ S) (Hx : endpoints S !! (sd, e) = Some x) (Hpx : participant_ x' = participant_ x) (Htx : topic_ x' = topic_ x).
Context (Hdur : durations_ok (endpoint_qos (qos_ x'))).

Let S' := with_end (sd, e) x' S.

Lemma set_lookup k z : endpoints S' !! k = Some z -> exists z0, endpoints S !! k = Some z0 /\ participant_ z = participant_ z0 /\ topic_ z = topic_ z0
  /\ (durations_ok (endpoint_qos (qos_ z0)) -> durations_ok (endpoint_qos (qos_ z))) /\ (k <> (sd, e) -> z = z0).
Proof.
  cbn. rewrite lookup_insert_Some. intros [[<- <-]|[Hn Hz]]; [by exists x|by exists z].
Qed.
Lemma set_lookup_back k z0 : endpoints S !! k = Some z0 -> exists z, endpoints S' !! k = Some z /\ participant_ z = participant_ z0 /\ topic_ z = topic_ z0.
Proof.
  intros Hz. destruct (decide (k = (sd, e))) as [->|Hn].
  - assert (z0 = x) as -> by congruence. exists x'. split; [apply lookup_insert_eq|done].
  - exists z0. split; [|done]. cbn. by rewrite lookup_insert_ne.
Qed.

(** What is said of endpoints, participants and topics alone carries over. *)
Lemma set_exists k (P : RepoId -> RepoId -> Prop) :
  (exists z, endpoints S' !! k = Some z /\ P (participant_ z) (topic_ z)) <-> exists z, endpoints S !! k = Some z /\ P (participant_ z) (topic_ z).
Proof.
  split; intros (z & Hz & HP); [destruct (set_lookup k z Hz) as (z0 & Hz0 & E1 & E2 & _)|destruct (set_lookup_back k z Hz) as (z0 & Hz0 & E1 & E2)];
    exists z0; (split; [done|]); [by rewrite <- E1, <- E2|by rewrite E1, E2].
Qed.

Lemma wf_set_qos : wf ∅ S'.
Proof.
  split; try apply H.
  - intros sd' e' z Hz. destruct (set_lookup _ _ Hz) as (z0 & Hz0 & -> & _ & Hd & _). destruct (wf_end _ _ _ H _ _ _ Hz0). split; [by apply Hd|done].
  - intros sd' e' z Hz Hn. destruct (set_lookup _ _ Hz) as (z0 & Hz0 & -> & -> & _). by apply (wf_topic_of _ _ _ H sd' e').
  - intros t U sd' e' HU. rewrite (wf_refs _ _ _ H t U sd' e' HU). symmetry. apply (set_exists (sd', e') (fun _ t' => t' = t /\ (sd', e') ∉ (∅ : propset _))).
  - intros q p sd' e' Hq Hn. rewrite (wf_members _ _ _ H q p sd' e' Hq Hn). symmetry. apply (set_exists (sd', e') (fun q' _ => q' = q)).
  - intros i y s Hy. rewrite (wf_desc_subs _ _ _ H i y s Hy).
    pose proof (set_exists (Sub, s) (fun _ t => exists U, (Sub, s) ∉ (∅ : propset (side * RepoId)) /\ topics S !! t = Some U /\ description_ U = i)) as E. naive_solver.
Qed.

Lemma same_topic_set r : same_topic S' r <-> same_topic S r.
Proof.
  unfold same_topic. split; intros (x1 & y1 & U & V & Hx1 & Hy1 & HU & HV & Hd).
  - destruct (set_lookup _ _ Hx1) as (x0 & Hx0 & _ & E1 & _), (set_lookup _ _ Hy1) as (y0 & Hy0 & _ & E2 & _). rewrite E1 in HU. rewrite E2 in HV. by exists x0, y0, U, V.
  - destruct (set_lookup_back _ _ Hx1) as (x0 & Hx0 & _ & E1), (set_lookup_back _ _ Hy1) as (y0 & Hy0 & _ & E2). rewrite <- E1 in HU. rewrite <- E2 in HV. by exists x0, y0, U, V.
Qed.

Lemma matched_set r : side_of sd r <> e -> matched S' r <-> matched S r.
Proof.
  intros Hr. assert (Hk : forall sd', (sd', side_of sd' r) <> (sd, e)) by (intros sd' [= -> ?]; done).
  split; apply matched_sees; intros sd' z Hz; (split; [|split; by eauto]).
  - cbn in Hz. by rewrite lookup_insert_ne in Hz by (apply not_eq_sym, Hk).
  - cbn. by rewrite lookup_insert_ne by (apply not_eq_sym, Hk).
Qed.

(** Policies that are not compared do not change who matches. *)
Lemma matched_set_same r : info_ x' = info_ x -> endpoint_qos (qos_ x') = endpoint_qos (qos_ x) -> group_qos (entityQos_ x') = group_qos (entityQos_ x) -> matched S' r <-> matched S r.
Proof.
  intros E0 E1 E2. destruct (decide (side_of sd r = e)) as [He|He]; [|by apply matched_set].
  unfold InfoRepoInv.matched. rewrite same_topic_set. enough (same_topic S r -> (fits S' r <-> fits S r)) by tauto.
  assert (Hlk : forall k z, endpoints S !! k = Some z -> exists z', endpoints S' !! k = Some z' /\ participant_ z' = participant_ z /\ topic_ z' = topic_ z
    /\ info_ z' = info_ z /\ endpoint_qos (qos_ z') = endpoint_qos (qos_ z) /\ group_qos (entityQos_ z') = group_qos (entityQos_ z)).
  { intros k z Hz. destruct (decide (k = (sd, e))) as [->|Hn].
    - assert (z = x) as -> by congruence. exists x'. split; [apply lookup_insert_eq|done].
    - exists z. cbn. by rewrite lookup_insert_ne. }
  intros (x1 & y1 & _ & _ & Hx1 & Hy1 & _). destruct r as [a b]. cbn in Hx1, Hy1.
  destruct (Hlk _ _ Hx1) as (x2 & Hx2 & P1 & T1 & I1 & Q1 & G1), (Hlk _ _ Hy1) as (y2 & Hy2 & P2 & T2 & I2 & Q2 & G2).
  destruct (wf_reach _ _ _ _ _ _ H Hx1) as (px & Rx), (wf_reach _ _ _ _ _ _ H Hy1) as (py & Ry).
  assert (Rx' : reach S' Pub a x2 px) by (destruct Rx; split; [done|by rewrite P1|done|done|by rewrite Q1]).
  assert (Ry' : reach S' Sub b y2 py) by (destruct Ry; split; [done|by rewrite P2|done|done|by rewrite Q2]).
  rewrite (fits_iff _ _ S' a b x2 y2 px py Rx' Ry'), (fits_iff _ _ S a b x1 y1 px py Rx Ry).
  unfold ignores, compatible. by rewrite P1, P2, T1, T2, I1, I2, Q1, Q2, G1, G2.
Qed.

Lemma revisable_set L T r : assoc_ok ∅ S L T -> same_topic S r -> revisable federation_id S' L T r.
Proof.
  intros Ha Ht. pose proof Ht as (x1 & y1 & _ & _ & Hx1 & Hy1 & _). pose proof wf_set_qos as Hw'.
  destruct (set_lookup_back _ _ Hx1) as (x2 & Hx2 & P1 & T1), (set_lookup_back _ _ Hy1) as (y2 & Hy2 & P2 & T2).
  split; [by eapply usable_wf|]. split; [by eapply usable_wf|]. split.
  { eapply assoc_sided; [exact H|exact Ha|split; apply not_in_empty|]. intros []; cbn; eauto. }
  intros HL. apply (as_linked _ _ _ _ _ _ Ha) in HL as [[Hf _] _]. destruct r as [a b]. cbn in *.
  destruct (wf_reach _ _ _ _ _ _ H Hx1) as (px & Rx), (wf_reach _ _ _ _ _ _ H Hy1) as (py & Ry).
  pose proof (proj1 (fits_iff _ _ S a b x1 y1 px py Rx Ry) Hf) as (I1 & I2 & _).
  destruct (wf_reach _ _ _ _ _ _ Hw' Hx2) as (px' & Rx'), (wf_reach _ _ _ _ _ _ Hw' Hy2) as (py' & Ry').
  assert (px' = px) as -> by (pose proof (re_part _ _ _ _ _ _ Rx') as E1; pose proof (re_part _ _ _ _ _ _ Rx) as E2; rewrite P1 in E1; cbn in E1; congruence).
  assert (py' = py) as -> by (pose proof (re_part _ _ _ _ _ _ Ry') as E1; pose proof (re_part _ _ _ _ _ _ Ry) as E2; rewrite P2 in E1; cbn in E1; congruence).
  exists x2, y2, px, py. unfold ignores in *. by rewrite P1, P2, T1, T2.
Qed.

Lemma linked_same_topic L T r : assoc_ok ∅ S L T -> linked_pairs sd e L r -> side_of sd r = e /\ same_topic S r.
Proof.
  intros Ha (o & Ho & <-). apply (as_linked _ _ _ _ _ _ Ha) in Ho as [[_ Ht] _]. rewrite the_pair_of in Ht. split; [by destruct sd|done].
Qed.

(** The associations after all pairs of [e] were tested again. *)
Lemma assoc_set_qos L T R : assoc_ok ∅ S L T -> (forall r, R r <-> side_of sd r = e /\ same_topic S' r) -> decided R ->
  assoc_ok ∅ S' (revise R (fits S') L) (revise R (fits S') T).
Proof.
  intros Ha HR Hdec. split.
  - intros u. rewrite elem_revise, (as_linked _ _ _ _ _ _ Ha). destruct (Hdec (pair_of u)) as [Hr|Hr].
    + pose proof (proj1 (HR _) Hr) as [_ Ht]. split; [intros [[_ Hf]|[? _]]; [|done]|intros [[Hf _] _]; by left].
      split; [by split|split; apply not_in_empty].
    + assert (E : matched S' (pair_of u) <-> matched S (pair_of u)).
      { destruct (decide (side_of sd (pair_of u) = e)) as [He|He]; [|by apply matched_set]. rewrite HR in Hr.
        split; intros [_ Ht]; destruct Hr; split; [done| |done|]; [done|by apply same_topic_set]. }
      rewrite E. tauto.
  - intros u [z Hz] _. rewrite !elem_revise. destruct (set_lookup _ _ Hz) as (z0 & Hz0 & _).
    pose proof (as_told _ _ _ _ _ _ Ha u (mk_is_Some _ _ Hz0) (not_in_empty _)). tauto.
Qed.


End SetQos.


Lemma decided_linked S L T n d sd e x : state_is S L T n d -> endpoints d !! (sd, e) = Some x -> decided (linked_pairs sd e L).
Proof.
  intros Hd Hx r. unfold linked_pairs. setoid_rewrite (linked_elem _ _ _ _ _ _ _ _ _ Hd Hx).
  destruct (decide (side_of (other sd) r ∈ associations_ x /\ the_pair sd e (side_of (other sd) r) = r)) as [[H1 H2]|Hn]; [left; eauto|].
  right. intros (o & Ho & <-). apply Hn. by destruct sd.
Qed.

(** How many failures a change of policies can add. *)
Definition change_cost (sd : side) (d : Domain) (e : RepoId) : Z :=
  match endpoints d !! (sd, e) with
  | Some x => 8 * Z.of_nat (length (associations_ x))
      + match topics d !! topic_ x with Some U => match_cost 16 sd d (description_ U) | None => 0 end
  | None => 0
  end.

Lemma wp_reevaluate_desc S L T n d sd e R0 x U y Q : wf ∅ S -> endpoints S !! (sd, e) = Some x -> topics S !! topic_ x = Some U ->
  descriptions S !! description_ U = Some y -> decided R0 -> (forall r, desc_pairs S sd e y r -> revisable federation_id S L T r) -> 0 <= n ->
  revised federation_id wild_match S L T R0 (match_cost 16 sd S (description_ U) + n) d ->
  (forall d', revised federation_id wild_match S L T (fun r => R0 r \/ desc_pairs S sd e y r) n d' -> Q () d') ->
  wp (reevaluate_associations federation_id wild_match (description_ U) sd e) Q d.
Proof.
  intros Hw Hx HU Hy H0 Hr Hn Hd HQ. unfold match_cost in Hd. rewrite Hy in Hd. destruct sd; cbn [reevaluate_associations desc_pairs] in *.
  - eapply (wp_reevaluate_publication _ _ S L T n); [done|apply Hw|exact Hy|exact H0|exact Hr|exact Hd|exact HQ].
  - eapply (wp_reevaluate_subscription _ _ S L T n); [done|apply Hw|exact Hy|exact H0|by eapply topics_ready_wf|exact Hr|exact Hd|exact HQ].
Qed.

Lemma wp_reevaluate_all S L T n d sd e x qos group x1 U : wf ∅ S -> assoc_ok ∅ S L T -> endpoints S !! (sd, e) = Some x ->
  durations_ok (endpoint_qos qos) -> topics S !! topic_ x = Some U -> 0 <= n -> endpoints d !! (sd, e) = Some x1 ->
  state_is (with_end (sd, e) (with_qos qos group x) S) L T
    (8 * Z.of_nat (length (associations_ x1)) + (match_cost 16 sd (with_end (sd, e) (with_qos qos group x) S) (description_ U) + n)) d ->
  wp (reevaluate_all federation_id wild_match sd e) (fun _ d' => holds ∅ (with_end (sd, e) (with_qos qos group x) S) n d') d.
Proof.
  intros Hw Ha Hx Hdur HU Hn Hx1 Hd. set (S' := with_end (sd, e) (with_qos qos group x) S) in *.
  assert (Hw' : wf ∅ S') by (by apply (wf_set_qos S sd e x)). destruct (wf_topic _ _ _ Hw _ U HU) as (_ & _ & y & Hy).
  assert (Hx' : endpoints S' !! (sd, e) = Some (with_qos qos group x)) by apply lookup_insert_eq.
  assert (Hpos : 0 <= match_cost 16 sd S' (description_ U)).
  { by apply match_cost_nonneg. }
  assert (Hst : forall r, same_topic S' r <-> same_topic S r) by (intros r; by apply (same_topic_set S sd e x)).
  assert (Hpairs : forall r, desc_pairs S' sd e y r <-> side_of sd r = e /\ same_topic S' r) by (intros r; by eapply desc_pairs_iff).
  assert (Hlinked : forall r, linked_pairs sd e L r -> desc_pairs S' sd e y r).
  { intros r Hr. apply Hpairs. rewrite Hst. by eapply linked_same_topic. }
  assert (Hrev : forall r, desc_pairs S' sd e y r -> revisable federation_id S' L T r).
  { intros r Hr. apply Hpairs in Hr as [_ Hr]. apply Hst in Hr. by apply (revisable_set S sd e x). }
  apply wp_bind. eapply (wp_reevaluate_existing _ _ S' L T _ d sd e x1); [|apply Hw'|exact Hx1| |exact Hd|]; [lia|by intros r Hr; apply Hrev, Hlinked|].
  intros d1 Hd1. apply wp_bind. eapply wp_load_end; [exact Hd1|exact Hx'|]. intros x2 _ Es. replace (topic_ x2) with (topic_ x) by (change (topic_ x = topic_ (strip x2)); by rewrite Es).
  apply wp_bind. eapply wp_load_top; [exact Hd1|exact HU|].
  eapply (wp_reevaluate_desc S' L T n d1 sd e); [done|exact Hx'|exact HU|exact Hy|exact (decided_linked _ _ _ _ _ _ _ _ Hd Hx1)|exact Hrev|done|exact Hd1|].
  intros d2 Hd2. split; [done|]. eexists _, _. split; [exact Hd2|]. eapply (assoc_set_qos S sd e x); [done..|exact Ha| |].
  - intros r. etransitivity; [|apply Hpairs]. split; [intros [?|?]; [by apply Hlinked|done]|by right].
  - intros r. destruct (decided_linked _ _ _ _ _ _ _ _ Hd Hx1 r), (decided_desc S' sd e y r); tauto.
Qed.


Lemma change_cost_static S L T n d sd e x qos group U x1 : state_is S L T n d -> endpoints S !! (sd, e) = Some x -> endpoints d !! (sd, e) = Some x1 ->
  topics S !! topic_ x = Some U -> change_cost sd d e = 8 * Z.of_nat (length (associations_ x1))
    + match_cost 16 sd (with_end (sd, e) (with_qos qos group x) S) (description_ U).
Proof.
  intros [<- _ _ _] Hx Hx1 HU. unfold change_cost. rewrite Hx1. rewrite endpoints_static, Hx1 in Hx. injection Hx as <-.
  cbn in HU. by rewrite HU.
Qed.

Lemma wp_set_qos S L T n d sd e x qos group : wf ∅ S -> assoc_ok ∅ S L T -> endpoints S !! (sd, e) = Some x ->
  state_is S L T (change_cost sd d e + n) d -> 0 <= n -> durations_ok (endpoint_qos qos) ->
  qos_changeable (endpoint_qos (qos_ x)) (endpoint_qos qos) -> group_changeable (group_qos (entityQos_ x)) (group_qos group) ->
  wp (set_qos federation_id wild_match sd e qos group) (fun _ d' => holds ∅ (with_end (sd, e) (with_qos qos group x) S) n d') d.
Proof.
  intros Hw Ha Hx Hd Hn Hdur Hq Hg. destruct (wf_topic_of _ _ _ Hw _ _ _ Hx (not_in_empty _)) as (U & HU & _).
  destruct (wf_end _ _ _ Hw _ _ _ Hx) as (_ & p & Hp). set (S' := with_end (sd, e) (with_qos qos group x) S).
  assert (Hw' : wf ∅ S') by (by apply (wf_set_qos S sd e x)).
  apply wp_bind. eapply wp_load_end; [exact Hd|exact Hx|]. intros x1 Hx1 Es. rewrite (change_cost_static _ _ _ _ _ _ _ _ qos group U _ Hd Hx Hx1 HU) in Hd.
  cbv zeta. apply wp_bind. eapply wp_set_end; [exact Hd|exact Hx|done|done|]. intros d1 Hd1 Hd1'.
  apply wp_bind. apply (wp_mono _ (fun _ d' => holds ∅ S' n d')).
  - assert (Hcost : 0 <= 8 * Z.of_nat (length (associations_ x1)) + match_cost 16 sd S' (description_ U)).
    { pose proof (match_cost_nonneg 16 sd S' (description_ U)). lia. }
    apply wp_when; intros Hc.
    + eapply (wp_reevaluate_all S L T n d1 sd e x qos group (with_qos qos group x1) U); [done..|by apply Hd1'|]. by rewrite Z.add_assoc.
    + split; [done|]. exists L, T. split; [eapply state_room; [|exact Hd1]; unfold S' in Hcost; lia|]. eapply assoc_transfer; [exact Ha| |].
      * intros r. unfold S'. rewrite (matched_set_same S sd e x (with_qos qos group x)); [done..| |];
          replace (qos_ x1) with (qos_ x) in Hc by (by rewrite <- Es); replace (entityQos_ x1) with (entityQos_ x) in Hc by (by rewrite <- Es);
          apply orb_false_iff in Hc as [Hc1 Hc2]; symmetry.
        -- destruct (bool_decide (qos_ x = qos)) eqn:E; [by apply bool_decide_eq_true in E as ->|]. by apply unchecked_same.
        -- destruct (bool_decide (entityQos_ x = group)) eqn:E; [by apply bool_decide_eq_true in E as ->|]. by apply unchecked_group_same.
      * intros k [z Hz] Hk. destruct (set_lookup S sd e x (with_qos qos group x) Hx eq_refl eq_refl Hdur k z Hz) as (z0 & Hz0 & _). split; [by exists z0|done].
  - intros [] d2 (_ & L2 & T2 & Hd2 & Ha2). apply wp_bind. replace (participant_ x1) with (participant_ x) by (by rewrite <- Es).
    eapply wp_load_part; [exact Hd2|exact Hp|]. apply wp_bind. eapply wp_tell; [exact Hd2|done|]. intros d3 Hd3. apply wp_ret.
    split; [done|]. by exists L2, T2.
Qed.


(** ** Requests that leave the associations alone *)

Lemma wp_for_each_same {A} S L T n (l : list A) f d : state_is S L T n d ->
  (forall x d', x ∈ l -> state_is S L T n d' -> wp (f x) (fun _ => state_is S L T n) d') -> wp (for_each l f) (fun _ => state_is S L T n) d.
Proof.
  intros Hd Hf. apply (wp_for_each l f (fun _ => state_is S L T n)); [done|]. intros pre x post d' -> Hd'. apply Hf; [set_solver|done].
Qed.

Lemma wp_update_expr_params S n d sub x params : holds ∅ S n d -> endpoints S !! (Sub, sub) = Some x ->
  wp (update_expr_params sub params) (fun _ d' => holds ∅ (with_end (Sub, sub) (with_exprParams params x) S) n d') d.
Proof.
  intros (Hw & L & T & Hd & Ha) Hx. set (S' := with_end (Sub, sub) (with_exprParams params x) S).
  assert (Hdur : durations_ok (endpoint_qos (qos_ x))) by (by apply (wf_end _ _ _ Hw Sub sub)).
  assert (Hw' : wf ∅ S') by (by apply (wf_set_qos S Sub sub x)).
  assert (Ha' : assoc_ok ∅ S' L T).
  { eapply assoc_transfer; [exact Ha| |].
    - intros r. unfold S'. by rewrite (matched_set_same S Sub sub x).
    - intros k [z Hz] Hk. destruct (set_lookup S Sub sub x (with_exprParams params x) Hx eq_refl eq_refl Hdur k z Hz) as (z0 & Hz0 & _). split; [by exists z0|done]. }
  apply wp_bind. eapply wp_set_end; [exact Hd|exact Hx|done|done|]. intros d1 Hd1 _.
  apply wp_bind. eapply wp_load_end; [exact Hd1|apply lookup_insert_eq|]. intros x1 Hx1 _.
  eapply wp_mono; [eapply (wp_for_each_same S' L T n); [exact Hd1|]|].
  - intros pub d2 Hp Hd2. assert (HL : (Sub, sub, pub) ∈ L) by (by apply (linked_elem _ _ _ _ _ _ _ _ _ Hd1 Hx1)).
    destruct (assoc_reach _ _ _ _ _ _ _ _ _ Hw' Ha' HL) as (y & py & Hy). apply wp_bind. eapply wp_load_end; [exact Hd2|apply Hy|]. intros y1 _ _.
    apply wp_bind. eapply wp_remote_silent; [exact Hd2|apply Hw'|done|]. intros d3 Hd3. by apply wp_ret.
  - intros [] d2 Hd2. split; [done|]. by exists L, T.
Qed.

Lemma wp_association_complete S n d sd e o x : holds ∅ S n d -> endpoints S !! (sd, e) = Some x ->
  wp (endpoint_association_complete sd e o) (fun _ d' => holds ∅ S n d') d.
Proof.
  intros (Hw & L & T & Hd & Ha) Hx. apply wp_bind. eapply wp_load_end; [exact Hd|exact Hx|]. intros x1 Hx1 _.
  eapply wp_mono; [eapply (wp_for_each_same S L T n); [exact Hd|]|].
  - intros o' d2 Ho Hd2. assert (HL : (sd, e, o') ∈ L) by (by apply (linked_elem _ _ _ _ _ _ _ _ _ Hd Hx1)).
    destruct (assoc_reach _ _ _ _ _ _ _ _ _ Hw Ha HL) as (y & py & Hy). apply wp_bind. eapply wp_load_end; [exact Hd2|apply Hy|]. intros y1 _ _.
    case_bool_decide; [|by apply wp_ret]. apply wp_bind. eapply wp_remote_silent; [exact Hd2|apply Hw|done|]. intros d3 Hd3. by apply wp_ret.
  - intros [] d2 Hd2. split; [done|]. by exists L, T.
Qed.

(** A topic with the same references. *)
Lemma wf_same_topic S t U v : wf ∅ S -> topics S !! t = Some U -> wf ∅ (set_objects tops (<[t := with_topic_data v U]> (topics S)) S).
Proof.
  intros H HU. set (S' := set_objects tops (<[t := with_topic_data v U]> (topics S)) S).
  assert (Hlk : forall t' V, topics S' !! t' = Some V -> exists V', topics S !! t' = Some V' /\ creator_ V = creator_ V' /\ description_ V = description_ V'
    /\ removed_ V = removed_ V' /\ forall sd, topic_refs sd V = topic_refs sd V').
  { intros t' V. cbn. rewrite lookup_insert_Some. intros [[<- <-]|[_ HV]]; [exists U|by exists V]. split_and!; [done..|]. by intros []. }
  assert (Hbk : forall t' V, topics S !! t' = Some V -> exists V', topics S' !! t' = Some V' /\ creator_ V' = creator_ V /\ description_ V' = description_ V).
  { intros t' V HV. cbn. destruct (decide (t' = t)) as [->|]; [rewrite lookup_insert_eq; exists (with_topic_data v U); naive_solver|rewrite lookup_insert_ne by done; eauto]. }
  assert (Hex : forall t' (P : RepoId -> nat -> Prop), (exists V, topics S' !! t' = Some V /\ P (creator_ V) (description_ V))
    <-> exists V, topics S !! t' = Some V /\ P (creator_ V) (description_ V)).
  { intros t' P. split; intros (V & HV & HP); [destruct (Hlk t' V HV) as (V' & HV' & E1 & E2 & _)|destruct (Hbk t' V HV) as (V' & HV' & E1 & E2)];
      exists V'; (split; [done|]); [by rewrite <- E1, <- E2|by rewrite E1, E2]. }
  split; try apply H.
  - intros sd e x Hx Hn. destruct (wf_topic_of _ _ _ H sd e x Hx Hn) as (V & HV & Hc). destruct (Hbk _ V HV) as (V' & HV' & Ec & _). exists V'. by rewrite Ec.
  - intros t' V sd e HV. destruct (Hlk _ V HV) as (V' & HV' & _ & _ & _ & ->). by apply (wf_refs _ _ _ H).
  - intros t' V HV. destruct (Hlk _ V HV) as (V' & HV' & -> & -> & -> & _). by apply (wf_topic _ _ _ H t').
  - intros t'. change (idToTopicMap_ S') with (idToTopicMap_ S). rewrite (wf_ids _ _ _ H t'). pose proof (Hex t' (fun _ _ => True)). unfold is_Some. naive_solver.
  - intros q p t' Hq. rewrite (wf_topicRefs _ _ _ H q p t' Hq). symmetry. apply (Hex t' (fun c _ => c = q)).
  - intros i y s Hy. rewrite (wf_desc_subs _ _ _ H i y s Hy). split; intros (x & V & Hx & Hn & HV & Hd).
    + destruct (Hbk _ V HV) as (V' & HV' & _ & Ed). exists x, V'. by rewrite Ed.
    + destruct (Hlk _ V HV) as (V' & HV' & _ & Ed & _). exists x, V'. by rewrite <- Ed.
  - intros i y t' Hy. rewrite (wf_desc_topics _ _ _ H i y t' Hy). symmetry. apply (Hex t' (fun _ j => j = i)).
Qed.

Lemma wp_set_topic_qos S n d t U v : holds ∅ S n d -> topics S !! t = Some U ->
  wp (set_topic_qos t v) (fun _ d' => holds ∅ (set_objects tops (<[t := with_topic_data v U]> (topics S)) S) n d') d.
Proof.
  intros (Hw & L & T & Hd & Ha) HU. set (S' := set_objects tops (<[t := with_topic_data v U]> (topics S)) S).
  apply wp_bind. eapply (wp_load_s tops); [exact Hd|exact HU|]. apply wp_bind. eapply (wp_modify_s tops); [exact Hd|exact HU|]. intros d1 Hd1.
  apply wp_bind. eapply wp_tell; [exact Hd1|done|]. intros d2 Hd2.
  assert (Hloop : forall sd d0, state_is S' L T n d0 -> wp (for_each (topic_refs sd U) (fun e => _ ← load ends (sd, e); tell (publish_bit (inl sd) e))) (fun _ => state_is S' L T n) d0).
  { intros sd d0 Hd0. apply wp_for_each_same; [done|]. intros e d3 He Hd3. apply (wf_refs _ _ _ Hw t U sd e HU) in He as (x & Hx & _).
    apply wp_bind. eapply wp_load_end; [exact Hd3|exact Hx|]. intros x1 _ _. by eapply wp_tell. }
  apply (wp_mono _ (fun _ => state_is S' L T n)).
  - apply wp_when; [|done]. intros _. apply wp_bind. eapply wp_mono; [by apply (Hloop Pub)|]. intros [] d3 Hd3. by apply (Hloop Sub).
  - intros [] d3 Hd3. split; [by apply wf_same_topic|]. exists L, T. split; [done|]. eapply assoc_transfer; [exact Ha| |done].
    intros r. assert (E : matched S' r <-> matched S r); [|by rewrite E].
    apply matched_same; [done|done|]. exact (description_insert S t U (with_topic_data v) HU eq_refl).
Qed.

End Operations.
End InfoRepoChange.
