(* ===== verification/InfoRepoProps.v ===== *)
(** * The information repository: what its clients can rely on

    Requests to a repository, and the runs in which every remote call returns and the
    clients keep the contract; the errors of requests that name unknown entities; and
    runs outside of the contract in which deleted objects are used. *)

From stdpp Require Import propset.
From S2P Require Import Prelude Qos InfoRepo InfoRepoLogic InfoRepoAssoc InfoRepoInv InfoRepoOps InfoRepoAdd InfoRepoChange.

Module InfoRepoProps.
Export InfoRepoChange.

(** ** Requests *)

Inductive request :=
| Add_Participant (id : RepoId)
| Remove_Participant (part : RepoId)
| Assert_Topic (id part : RepoId) (name dataTypeName : cstring) (topic_data : Z)
| Remove_Topic (part topic : RepoId)
| Add_Endpoint (sd : side) (part topic id : RepoId) (qos : DataQos) (transInfo : list TransportLocator) (group : EntityQos)
    (filterExpression : cstring) (exprParams : list cstring)
| Remove_Endpoint (sd : side) (part e : RepoId)
| Ignore_Entity (k : ignorable) (part id : RepoId)
| Update_Qos (sd : side) (part e : RepoId) (qos : DataQos) (group : EntityQos)
| Attach_Participant (part : RepoId)
| Update_Topic_Qos (part topic : RepoId) (topic_data : Z)
| Update_Subscription_Params (part sub : RepoId) (params : list cstring)
| Association_Complete (part localId remoteId : RepoId).

Section Requests.
Context (federation_id : Z) (get_BIT : bool) (wild_match : cstring -> cstring -> bool).

(** The operation of TAO_DDS_DCPSInfo_i, with an update manager. *)
Definition serve (r : request) : repo unit :=
  match r with
  | Add_Participant id => ignore (add_domain_participant federation_id true get_BIT id)
  | Remove_Participant part => remove_domain_participant federation_id true part
  | Assert_Topic id part name type data => ignore (assert_topic true id part name type data)
  | Remove_Topic part topic => ignore (info_remove_topic federation_id true part topic)
  | Add_Endpoint sd part topic id qos info group filter params =>
      ignore (add_endpoint federation_id true wild_match sd part topic id qos info group filter params)
  | Remove_Endpoint sd part e => remove_endpoint federation_id true sd part e
  | Ignore_Entity k part id => info_ignore federation_id true k part id
  | Update_Qos sd part e qos group => ignore (update_qos federation_id true wild_match sd part e qos group)
  | Attach_Participant part => attach_participant federation_id true part
  | Update_Topic_Qos part topic data => ignore (update_topic_qos federation_id true part topic data)
  | Update_Subscription_Params part sub params => ignore (update_subscription_params true part sub params)
  | Association_Complete part localId remoteId => association_complete part localId remoteId
  end.

(** The contract.  Identifiers are new; endpoints use topics of their own participant,
    and those go before the topic; only policies that can be changed are. *)
Definition allowed (d : Domain) (r : request) : Prop :=
  match r with
  | Add_Participant id => participants d !! id = None
  | Remove_Participant part => exists p, participants d !! part = Some p /\ isBitPublisher_ p = false
  | Assert_Topic id part _ _ _ => topics d !! id = None /\ is_Some (participants d !! part)
  | Remove_Topic part topic => exists U, topics d !! topic = Some U /\ creator_ U = part /\ publicationRefs_ U = [] /\ topic_subscriptionRefs_ U = []
  | Add_Endpoint sd part topic id qos _ _ _ _ =>
      (exists U, topics d !! topic = Some U /\ creator_ U = part) /\ endpoints d !! (sd, id) = None
      /\ (forall o, view_of (calls d) (sd, id, o) = false) /\ durations_ok (endpoint_qos qos)
  | Remove_Endpoint sd part e => exists x, endpoints d !! (sd, e) = Some x /\ participant_ x = part
  | Ignore_Entity _ part _ => is_Some (participants d !! part)
  | Update_Qos sd part e qos group => exists x, endpoints d !! (sd, e) = Some x /\ participant_ x = part /\ durations_ok (endpoint_qos qos)
      /\ qos_changeable (endpoint_qos (qos_ x)) (endpoint_qos qos) /\ group_changeable (group_qos (entityQos_ x)) (group_qos group)
  | Attach_Participant part => is_Some (participants d !! part)
  | Update_Topic_Qos part topic _ => exists U, topics d !! topic = Some U /\ creator_ U = part
  | Update_Subscription_Params part sub _ => exists x, endpoints d !! (Sub, sub) = Some x /\ participant_ x = part
  | Association_Complete part localId _ => exists sd x, endpoints d !! (sd, localId) = Some x /\ participant_ x = part
  end.

(** How many more failures a status may count after the request: the counters are
    32-bit integers. *)
Definition cost (d : Domain) (r : request) : Z :=
  match r with
  | Add_Endpoint sd _ topic _ _ _ _ _ _ => match topics d !! topic with Some U => match_cost 8 sd d (description_ U) | None => 0 end
  | Update_Qos sd _ e _ _ => change_cost sd d e
  | _ => 0
  end.

Abbreviation holds := (holds federation_id wild_match).

Lemma with_participant_known {A} S L T n d part (m : repo A) Q : InfoRepoInv.wf federation_id ∅ S -> state_is S L T n d ->
  is_Some (participants S !! part) -> wp m Q d -> wp (with_participant part m) Q d.
Proof.
  intros Hw Hd Hp Hm. apply wp_bind. eapply wp_get_s; [exact Hd|]. intros -> _ _ _ _. rewrite bool_decide_eq_true_2; [done|]. by apply (wf_parts _ _ _ Hw).
Qed.

Lemma serve_remove_participant S n d q p : holds ∅ S n d -> participants S !! q = Some p -> isBitPublisher_ p = false ->
  wp (remove_domain_participant federation_id true q) (fun _ d' => exists S', holds ∅ S' n d') d.
Proof.
  intros Hh Hp Hb. pose proof Hh as (Hw & L & T & Hd & _). eapply with_participant_known; [exact Hw|exact Hd|by exists p|].
  apply wp_bind. eapply wp_load_part; [exact Hd|exact Hp|]. cbv zeta. apply wp_bind.
  eapply wp_mono; [by eapply (wp_remove_participant _ _ wild_match S n d q p)|]. intros r d1 [-> (S1 & Hw1 & L1 & T1 & Hd1 & Ha1)]. cbn [Z.eqb].
  apply wp_when; [intros _; eapply wp_tell; [exact Hd1|done|]; intros d2 Hd2|intros _]; exists S1; (split; [done|by exists L1, T1]).
Qed.

Lemma serve_remove_topic S n d t U : holds ∅ S n d -> topics S !! t = Some U -> publicationRefs_ U = [] -> topic_subscriptionRefs_ U = [] ->
  wp (info_remove_topic federation_id true (creator_ U) t) (fun _ d' => exists S', holds ∅ S' n d') d.
Proof.
  intros Hh HU E1 E2. pose proof Hh as (Hw & L & T & Hd & _). destruct (wf_topic _ _ _ Hw t U HU) as (_ & [p Hp] & _).
  eapply with_participant_known; [exact Hw|exact Hd|by exists p|]. apply wp_bind. eapply wp_load_part; [exact Hd|exact Hp|].
  rewrite bool_decide_eq_true_2 by (apply (wf_topicRefs _ _ _ Hw _ _ _ Hp); by exists U).
  apply wp_bind. eapply wp_remove_topic; [exact Hh|exact HU|by intros []|]. intros y p0 d1 _ Hh1. pose proof Hh1 as (Hw1 & L1 & T1 & Hd1 & Ha1).
  apply wp_bind. eapply wp_load_part; [exact Hd1|apply lookup_insert_eq|]. apply wp_bind.
  eapply (wp_mono _ (fun _ d' => exists S', holds ∅ S' n d')); [|intros [] d2 Hd2; by apply wp_ret].
  apply wp_when; [intros _; eapply wp_tell; [exact Hd1|done|]; intros d2 Hd2|intros _; eauto]. eexists. split; [exact Hw1|by exists L1, T1].
Qed.

Lemma serve_remove_endpoint S n d sd e x : holds ∅ S n d -> endpoints S !! (sd, e) = Some x ->
  wp (remove_endpoint federation_id true sd (participant_ x) e) (fun _ d' => exists S', holds ∅ S' n d') d.
Proof.
  intros Hh Hx. pose proof Hh as (Hw & L & T & Hd & _). eapply with_participant_known; [exact Hw|exact Hd|by apply (wf_end _ _ _ Hw sd e)|].
  apply wp_bind. eapply wp_part_remove; [exact Hh|exact Hx|]. intros S1 d1 (Hw1 & L1 & T1 & Hd1 & Ha1) [p1 Hp1]. cbn [Z.eqb negb].
  apply wp_bind. eapply wp_remove_dead; [exact Hd1|apply Hw1|]. apply wp_bind. eapply wp_load_part; [exact Hd1|exact Hp1|].
  apply wp_when; [intros _; eapply wp_tell; [exact Hd1|done|]; intros d2 Hd2|intros _]; exists S1; (split; [done|by exists L1, T1]).
Qed.

Lemma serve_ignore S n d k q id : holds ∅ S n d -> is_Some (participants S !! q) ->
  wp (info_ignore federation_id true k q id) (fun _ d' => exists S', holds ∅ S' n d') d.
Proof.
  intros Hh [p Hp]. pose proof Hh as (Hw & L & T & Hd & _). eapply with_participant_known; [exact Hw|exact Hd|by exists p|].
  apply wp_bind. eapply wp_mono; [by eapply (wp_ignore_entity _ wild_match S k id n d q p)|]. intros [] d1 (S1 & Hw1 & L1 & T1 & Hd1 & Ha1).
  eapply wp_remove_dead; [exact Hd1|apply Hw1|]. exists S1. split; [done|by exists L1, T1].
Qed.

Lemma serve_update_qos S L T n d sd e x qos group : InfoRepoInv.wf federation_id ∅ S -> assoc_ok federation_id wild_match ∅ S L T ->
  endpoints S !! (sd, e) = Some x -> state_is S L T (change_cost sd d e + n) d -> 0 <= n -> durations_ok (endpoint_qos qos) ->
  qos_changeable (endpoint_qos (qos_ x)) (endpoint_qos qos) -> group_changeable (group_qos (entityQos_ x)) (group_qos group) ->
  wp (update_qos federation_id true wild_match sd (participant_ x) e qos group) (fun _ d' => exists S', holds ∅ S' n d') d.
Proof.
  intros Hw Ha Hx Hd Hn Hdur Hq Hg. destruct (wf_end _ _ _ Hw _ _ _ Hx) as (_ & p & Hp).
  eapply with_participant_known; [exact Hw|exact Hd|by exists p|]. apply wp_bind. eapply wp_load_part; [exact Hd|exact Hp|].
  rewrite bool_decide_eq_true_2 by (apply (wf_members _ _ _ Hw _ _ _ _ Hp (not_in_empty _)); by exists x).
  apply wp_bind. eapply wp_mono; [by eapply (wp_set_qos _ _ S L T n d)|]. intros r d1 (Hw1 & L1 & T1 & Hd1 & Ha1).
  apply wp_bind. eapply wp_load_part; [exact Hd1|exact Hp|]. apply wp_bind.
  apply (wp_mono _ (fun _ => state_is (with_end (sd, e) (with_qos qos group x) S) L1 T1 n)).
  - apply wp_when; [intros _; destruct r; [by apply wp_ret|by eapply wp_tell..]|done].
  - intros [] d2 Hd2. apply wp_ret. eexists. split; [exact Hw1|by exists L1, T1].
Qed.

Lemma serve_attach S n d q : holds ∅ S n d -> is_Some (participants S !! q) ->
  wp (attach_participant federation_id true q) (fun _ d' => exists S', holds ∅ S' n d') d.
Proof.
  intros Hh [p Hp]. pose proof Hh as (Hw & L & T & Hd & Ha). eapply with_participant_known; [exact Hw|exact Hd|by exists p|].
  destruct (wf_part _ _ _ Hw q p Hp) as (_ & Ho & _). apply wp_bind. eapply wp_load_part; [exact Hd|exact Hp|]. apply wp_bind.
  eapply (wp_mono _ (fun _ => state_is S L T n)); [apply wp_when; [intros _; by eapply wp_tell|done]|]. intros [] d1 Hd1.
  apply wp_bind. eapply wp_load_part; [exact Hd1|exact Hp|]. rewrite Ho, orb_true_l, andb_true_r.
  destruct (federation_id =? OWNER_NONE); [apply wp_ret; exists S; split; [done|by exists L, T]|].
  eapply (wp_modify_s parts); [exact Hd1|exact Hp|]. intros d2 Hd2.
  assert (E : with_owner federation_id p = p) by (unfold isOwner in Ho; apply Z.eqb_eq in Ho; destruct p; cbn in *; by subst).
  exists S. split; [done|]. exists L, T. split; [|done]. rewrite E, insert_id in Hd2 by done. destruct S; exact Hd2.
Qed.

Lemma serve_update_topic_qos S n d t U v : holds ∅ S n d -> topics S !! t = Some U ->
  wp (update_topic_qos federation_id true (creator_ U) t v) (fun _ d' => exists S', holds ∅ S' n d') d.
Proof.
  intros Hh HU. pose proof Hh as (Hw & L & T & Hd & _). destruct (wf_topic _ _ _ Hw t U HU) as (_ & [p Hp] & _).
  eapply with_participant_known; [exact Hw|exact Hd|by exists p|]. apply wp_bind. eapply wp_load_part; [exact Hd|exact Hp|].
  rewrite bool_decide_eq_true_2 by (apply (wf_topicRefs _ _ _ Hw _ _ _ Hp); by exists U).
  apply wp_bind. eapply wp_mono; [by eapply (wp_set_topic_qos _ wild_match)|]. intros [] d1 (Hw1 & L1 & T1 & Hd1 & Ha1).
  apply wp_bind. eapply (wp_mono _ (fun _ => state_is _ L1 T1 n)); [apply wp_when; [intros _; eapply wp_tell; [exact Hd1|done|]; by intros|by intros]|].
  intros [] d2 Hd2. apply wp_ret. eexists. split; [exact Hw1|by exists L1, T1].
Qed.

Lemma serve_update_params S n d sub x params : holds ∅ S n d -> endpoints S !! (Sub, sub) = Some x ->
  wp (update_subscription_params true (participant_ x) sub params) (fun _ d' => exists S', holds ∅ S' n d') d.
Proof.
  intros Hh Hx. pose proof Hh as (Hw & L & T & Hd & _). destruct (wf_end _ _ _ Hw _ _ _ Hx) as (_ & p & Hp).
  eapply with_participant_known; [exact Hw|exact Hd|by exists p|]. apply wp_bind. eapply wp_load_part; [exact Hd|exact Hp|].
  rewrite bool_decide_eq_true_2 by (apply (wf_members _ _ _ Hw _ _ Sub _ Hp (not_in_empty _)); by exists x).
  apply wp_bind. eapply wp_mono; [by eapply (wp_update_expr_params federation_id wild_match)|]. intros [] d1 (Hw1 & L1 & T1 & Hd1 & Ha1).
  apply wp_bind. eapply wp_load_part; [exact Hd1|exact Hp|].
  apply wp_bind. eapply (wp_mono _ (fun _ => state_is _ L1 T1 n)); [apply wp_when; [intros _; eapply wp_tell; [exact Hd1|done|]; by intros|by intros]|].
  intros [] d2 Hd2. apply wp_ret. eexists. split; [exact Hw1|by exists L1, T1].
Qed.

Lemma serve_association_complete S n d sd e o x : holds ∅ S n d -> endpoints S !! (sd, e) = Some x ->
  wp (association_complete (participant_ x) e o) (fun _ d' => exists S', holds ∅ S' n d') d.
Proof.
  intros Hh Hx. pose proof Hh as (Hw & L & T & Hd & _). destruct (wf_end _ _ _ Hw _ _ _ Hx) as (_ & p & Hp).
  eapply with_participant_known; [exact Hw|exact Hd|by exists p|]. apply wp_bind. eapply wp_load_part; [exact Hd|exact Hp|].
  assert (Hdone : forall sd', e ∈ members sd' p -> wp (endpoint_association_complete sd' e o) (fun _ d' => exists S', holds ∅ S' n d') d).
  { intros sd' He. apply (wf_members _ _ _ Hw _ _ _ _ Hp (not_in_empty _)) in He as (z & Hz & _).
    eapply wp_mono; [by eapply wp_association_complete|]. intros [] d1 Hd1. by exists S. }
  assert (Hin : e ∈ members sd p) by (apply (wf_members _ _ _ Hw _ _ _ _ Hp (not_in_empty _)); by exists x).
  case_bool_decide as H1; [by apply (Hdone Sub)|]. case_bool_decide as H2; [by apply (Hdone Pub)|]. by destruct sd.
Qed.

(** Every request keeps the invariant. *)
Lemma serve_holds n d r : good federation_id wild_match ∅ (cost d r + n) d -> 0 <= n -> allowed d r -> wp (serve r) (fun _ d' => good federation_id wild_match ∅ n d') d.
Proof.
  intros Hg Hn Hv. apply good_holds in Hg as (S & Hh). pose proof Hh as (Hw & L & T & Hd & Ha).
  eapply (wp_mono _ (fun _ d' => exists S', holds ∅ S' n d')); [|intros [] d' Hd'; by apply good_holds].
  pose proof (st_static _ _ _ _ _ Hd) as Es. destruct r; cbn [serve cost allowed] in *.
  - apply wp_ignore. eapply wp_add_domain_participant; [exact Hh|by rewrite <- Es|]. eauto.
  - destruct Hv as (p & Hp & Hb). eapply serve_remove_participant; [exact Hh|rewrite <- Es; exact Hp|done].
  - destruct Hv as [Ht Hp]. apply wp_ignore. eapply wp_assert_topic; [exact Hh|by rewrite <- Es|by rewrite <- Es|]. eauto.
  - destruct Hv as (U & HU & <- & E1 & E2). apply wp_ignore. eapply serve_remove_topic; [exact Hh|rewrite <- Es; exact HU|done|done].
  - destruct Hv as ((U & HU & Hc) & Hf & Ht & Hdur). apply wp_ignore. rewrite HU in Hd.
    eapply (wp_add_endpoint _ _ _ S L T n d _ _ _ _ _ _ _ _ _ U); [done|exact Ha|rewrite <- Es in Hd |- *; exact Hd|done|rewrite <- Es; exact HU|done|..].
    + by rewrite <- Es, endpoints_static, Hf.
    + intros o Ho. apply (st_told _ _ _ _ _ Hd) in Ho. unfold told in Ho. rewrite elem_of_PropSet, Ht in Ho. done.
    + done.
    + eauto.
  - destruct Hv as (x & Hx & <-). eapply (serve_remove_endpoint S n d sd e (strip x)); [exact Hh|]. by rewrite <- Es, endpoints_static, Hx.
  - eapply serve_ignore; [exact Hh|by rewrite <- Es].
  - destruct Hv as (x & Hx & <- & Hdur & Hq & Hgr). apply wp_ignore.
    eapply (serve_update_qos S L T n d sd e (strip x)); [done|exact Ha|by rewrite <- Es, endpoints_static, Hx|exact Hd|done|done|done|done].
  - eapply serve_attach; [exact Hh|by rewrite <- Es].
  - destruct Hv as (U & HU & <-). apply wp_ignore. eapply serve_update_topic_qos; [exact Hh|rewrite <- Es; exact HU].
  - destruct Hv as (x & Hx & <-). apply wp_ignore. eapply (serve_update_params S n d sub (strip x)); [exact Hh|]. by rewrite <- Es, endpoints_static, Hx.
  - destruct Hv as (sd & x & Hx & <-). eapply (serve_association_complete S n d sd localId remoteId (strip x)); [exact Hh|]. by rewrite <- Es, endpoints_static, Hx.
Qed.

(** ** Runs *)

(** A run from an empty domain, with no failed call to come, of valid requests; [n]
    more failures can be counted after it. *)
Inductive session : Z -> Domain -> Prop :=
| session_start n : 0 <= n <= 2147483647 -> session n (empty_domain [])
| session_next n d r d' : session (cost d r + n) d -> 0 <= n -> allowed d r -> serve r d = Ret (inl (), d') -> session n d'.

Lemma empty_good n : 0 <= n <= 2147483647 -> good federation_id wild_match ∅ n (empty_domain []).
Proof.
  intros Hn. split.
  - split; try done; cbn.
    + intros t. rewrite lookup_empty. split; [by intros []%elem_of_nil|by intros [? ?]].
    + intros q. rewrite lookup_empty. split; [by intros []%elem_of_nil|by intros [? ?]].
    + intros i. rewrite lookup_empty. split; [by intros []%elem_of_nil|by intros [? ?]].
  - split.
    + intros u. split; [|by intros [[(x & y & px & py & [Hx] & _) _] _]]. unfold linked. rewrite elem_of_PropSet. by intros (x & Hx & _).
    + intros u [x Hx]. done.
  - split; [lia|]. intros k x Hx. done.
Qed.

Lemma session_good n d : session n d -> 0 <= n /\ good federation_id wild_match ∅ n d.
Proof.
  induction 1 as [n Hn|n d r d' Hs [_ IH] Hn Hv Hr]; [split; [lia|by apply empty_good]|]. split; [done|].
  destruct (serve_holds n d r IH Hn Hv) as ([] & d1 & E & Hg). congruence.
Qed.

(** An association of an endpoint, and what its writer or reader was told. *)
Definition associated (d : Domain) (sd : side) (e o : RepoId) : Prop := exists x, endpoints d !! (sd, e) = Some x /\ o ∈ associations_ x.
Definition informed (d : Domain) (sd : side) (e o : RepoId) : Prop := view_of (calls d) (sd, e, o) = true.

(** A publication and a subscription that are to be associated: the descriptions of
    their topics have the same name, neither participant ignores the other endpoint, and their policies and
    partitions are compatible. *)
Definition to_be_associated (d : Domain) (pub sub : RepoId) : Prop :=
  exists x y px py U V z w, endpoints d !! (Pub, pub) = Some x /\ endpoints d !! (Sub, sub) = Some y
    /\ participants d !! participant_ x = Some px /\ participants d !! participant_ y = Some py
    /\ topics d !! topic_ x = Some U /\ topics d !! topic_ y = Some V 
    /\ descriptions d !! description_ U = Some z /\ descriptions d !! description_ V = Some w /\ name_ z = name_ w
    /\ ignores px Sub sub y = false /\ ignores py Pub pub x = false /\ compatible wild_match x y.

Lemma matched_associated n d pub sub : good federation_id wild_match ∅ n d ->
  matched federation_id wild_match (static d) (pub, sub) <-> to_be_associated d pub sub.
Proof.
  intros [Hw _ _]. unfold matched, same_topic, to_be_associated. cbn [fst snd]. split.
  - intros [(x & y & px & py & Hx & Hy & I1 & I2 & Hc) (x' & y' & U & V & Hx' & Hy' & HU & HV & Hd)].
    destruct Hx as [Ex Px _ _ _], Hy as [Ey Py _ _ _]. cbn in Ex, Ey, Hx', Hy'. rewrite Ex in Hx'. rewrite Ey in Hy'. injection Hx' as <-. injection Hy' as <-.
    apply strip_lookup in Ex as (x1 & Ex & <-). apply strip_lookup in Ey as (y1 & Ey & <-).
    destruct (wf_topic _ _ _ Hw _ U HU) as (_ & _ & z & Hz).
    exists x1, y1, px, py, U, V, z, z. split_and!; try done. by rewrite <- Hd.
  - intros (x & y & px & py & U & V & z & w & Hx & Hy & Px & Py & HU & HV & Hz & Hz2 & En & I1 & I2 & Hc).
    pose proof (wf_names _ _ _ Hw _ _ z w Hz Hz2 En) as Ei.
    assert (Sx : endpoints (static d) !! (Pub, pub) = Some (strip x)) by (by rewrite endpoints_static, Hx).
    assert (Sy : endpoints (static d) !! (Sub, sub) = Some (strip y)) by (by rewrite endpoints_static, Hy).
    destruct (wf_reach _ _ _ _ _ _ Hw Sx) as (px' & Rx), (wf_reach _ _ _ _ _ _ Hw Sy) as (py' & Ry).
    assert (px' = px) as -> by (pose proof (re_part _ _ _ _ _ _ Rx) as E; cbn in E; congruence).
    assert (py' = py) as -> by (pose proof (re_part _ _ _ _ _ _ Ry) as E; cbn in E; congruence).
    split; [by exists (strip x), (strip y), px, py|]. by exists (strip x), (strip y), U, V.
Qed.

Lemma session_linked n d sd e o : session n d ->
  (associated d sd e o <-> to_be_associated d (the_pair sd e o).1 (the_pair sd e o).2)
  /\ (is_Some (endpoints d !! (sd, e)) -> (informed d sd e o <-> associated d sd e o)).
Proof.
  intros Hs. destruct (session_good n d Hs) as [Hn Hg]. pose proof Hg as [_ [H1 H2] _].
  assert (E1 : (sd, e, o) ∈ linked d <-> associated d sd e o) by (unfold linked; by rewrite elem_of_PropSet).
  assert (E2 : (sd, e, o) ∈ told d <-> informed d sd e o) by (unfold told; by rewrite elem_of_PropSet).
  split.
  - rewrite <- E1, H1, the_pair_of, <- (matched_associated n d _ _ Hg), <- surjective_pairing. split; [tauto|].
    intros ?. split; [done|]. split; apply not_in_empty.
  - intros [x Hx]. rewrite <- E1, <- E2. apply H2; [|apply not_in_empty]. cbn. rewrite lookup_fmap, Hx. by eexists.
Qed.


(** C3: after any run of valid requests in which the remote calls return and no status
    counts more failures than its 32-bit counter holds, a publication and a
    subscription hold each other as associated exactly when their topics have the same
    name (that of their descriptions, which no two descriptions share), neither participant ignores the other endpoint and their policies and
    partitions are compatible; and the writer and the reader were told exactly the
    associations they have. *)
Theorem repository_associations n d : session n d -> forall pub sub,
  (associated d Pub pub sub <-> to_be_associated d pub sub) /\ (associated d Sub sub pub <-> to_be_associated d pub sub)
  /\ (is_Some (endpoints d !! (Pub, pub)) -> (informed d Pub pub sub <-> to_be_associated d pub sub))
  /\ (is_Some (endpoints d !! (Sub, sub)) -> (informed d Sub sub pub <-> to_be_associated d pub sub)).
Proof.
  intros Hs pub sub. destruct (session_linked n d Pub pub sub Hs) as [E1 T1], (session_linked n d Sub sub pub Hs) as [E2 T2]. cbn in E1, E2.
  split; [done|]. split; [done|]. split; intros Hx; [by rewrite (T1 Hx)|by rewrite (T2 Hx)].
Qed.

(** C4: a valid request in such a run, when the counters of the statuses have room for
    the failures it may count, is served: no exception is thrown, no deleted object is
    used, and the run goes on. *)
Theorem repository_serves n d r : session (cost d r + n) d -> 0 <= n -> allowed d r ->
  exists d', serve r d = Ret (inl (), d') /\ session n d'.
Proof.
  intros Hs Hn Hv. destruct (session_good _ _ Hs) as [_ Hg]. destruct (serve_holds n d r Hg Hn Hv) as ([] & d' & E & _).
  exists d'. split; [done|]. by eapply session_next.
Qed.

(** ** Errors *)

(** The participant a request names. *)
Definition requester (r : request) : option RepoId :=
  match r with
  | Add_Participant _ => None
  | Remove_Participant part | Assert_Topic _ part _ _ _ | Remove_Topic part _ | Add_Endpoint _ part _ _ _ _ _ _ _
  | Remove_Endpoint _ part _ | Ignore_Entity _ part _ | Update_Qos _ part _ _ _ | Attach_Participant part | Update_Topic_Qos part _ _
  | Update_Subscription_Params part _ _ | Association_Complete part _ _ => Some part
  end.

(** The requests that name what there is not, and the exception for it.  The ids
    given to ignore are not among them, whatever Info.idl declares: they are not
    looked up. *)
Inductive unknown (d : Domain) : request -> exception -> Prop :=
| unknown_participant r part : requester r = Some part -> participants d !! part = None -> unknown d r Invalid_Participant
| unknown_removed_topic part t : is_Some (participants d !! part) -> (forall U, topics d !! t = Some U -> creator_ U <> part) ->
    unknown d (Remove_Topic part t) Invalid_Topic
| unknown_changed_topic part t data : is_Some (participants d !! part) -> (forall U, topics d !! t = Some U -> creator_ U <> part) ->
    unknown d (Update_Topic_Qos part t data) Invalid_Topic
| unknown_topic_of_endpoint sd part t id qos info group filter params : is_Some (participants d !! part) -> topics d !! t = None ->
    unknown d (Add_Endpoint sd part t id qos info group filter params) Invalid_Topic
| unknown_removed_endpoint sd part e : is_Some (participants d !! part) -> (forall x, endpoints d !! (sd, e) = Some x -> participant_ x <> part) ->
    unknown d (Remove_Endpoint sd part e) (match sd with Pub => Invalid_Publication | Sub => Invalid_Subscription end)
| unknown_changed_endpoint sd part e qos group : is_Some (participants d !! part) -> (forall x, endpoints d !! (sd, e) = Some x -> participant_ x <> part) ->
    unknown d (Update_Qos sd part e qos group) (match sd with Pub => Invalid_Publication | Sub => Invalid_Subscription end)
| unknown_subscription part sub params : is_Some (participants d !! part) -> (forall x, endpoints d !! (Sub, sub) = Some x -> participant_ x <> part) ->
    unknown d (Update_Subscription_Params part sub params) Invalid_Subscription
| unknown_completed part localId remoteId : is_Some (participants d !! part) -> (forall sd x, endpoints d !! (sd, localId) = Some x -> participant_ x <> part) ->
    unknown d (Association_Complete part localId remoteId) Invalid_Subscription.

Lemma with_participant_unknown {A} part (m : repo A) d : part ∉ participants_ d -> with_participant part m d = Ret (inr Invalid_Participant, d).
Proof. intros H. unfold with_participant, mbind, repo_bind. cbn. by rewrite bool_decide_eq_false_2. Qed.
Lemma with_participant_listed {A} part (m : repo A) d : part ∈ participants_ d -> with_participant part m d = m d.
Proof. intros H. unfold with_participant, mbind, repo_bind. cbn. by rewrite bool_decide_eq_true_2. Qed.
Lemma bind_throws {A B} (m : repo A) (k : A -> repo B) d e : m d = Ret (inr e, d) -> (m ≫= k) d = Ret (inr e, d).
Proof. intros H. unfold mbind, repo_bind. by rewrite H. Qed.
Lemma load_known {K V B} `{Countable K} (h : heap K V) k v (f : V -> repo B) d : objects h d !! k = Some v -> (load h k ≫= f) d = f v d.
Proof. intros Hv. unfold mbind, repo_bind, load. by rewrite Hv. Qed.

Lemma participant_not_listed d r part : requester r = Some part -> part ∉ participants_ d -> serve r d = Ret (inr Invalid_Participant, d).
Proof.
  intros Hr Hp. destruct r; cbn in Hr; injection Hr as <- || done; cbn [serve];
    first [by apply with_participant_unknown | by apply bind_throws, with_participant_unknown].
Qed.

(** Who is not in the heaps is not in the lists either. *)
Lemma not_member d sd part e p : InfoRepoInv.wf federation_id ∅ (static d) -> participants d !! part = Some p ->
  (forall x, endpoints d !! (sd, e) = Some x -> participant_ x <> part) -> e ∉ members sd p.
Proof.
  intros Hw Hp Hno He. apply (wf_members _ _ _ Hw part p sd e Hp (not_in_empty _)) in He as (x & Hx & Ex).
  cbn in Hx. apply strip_lookup in Hx as (x1 & Hx1 & <-). by apply (Hno x1 Hx1).
Qed.

Lemma not_topic d part t p : InfoRepoInv.wf federation_id ∅ (static d) -> participants d !! part = Some p ->
  (forall U, topics d !! t = Some U -> creator_ U <> part) -> t ∉ topicRefs_ p.
Proof. intros Hw Hp Hno He. apply (wf_topicRefs _ _ _ Hw part p t Hp) in He as (U & HU & E). by apply (Hno U HU). Qed.

Lemma remove_unknown_endpoint d sd part e p : deadParticipants_ d = [] -> part ∈ participants_ d -> participants d !! part = Some p -> e ∉ members sd p ->
  remove_endpoint federation_id true sd part e d = Ret (inr (Invalid_Endpoint sd), d).
Proof.
  intros Hdead Hin Hp Hn. unfold remove_endpoint. rewrite with_participant_listed by done. unfold part_remove. unfold mbind at 1, repo_bind at 1.
  rewrite (load_known parts _ _ _ _ Hp), bool_decide_eq_false_2 by done. cbn.
  destruct sd; cbn; [|done]. unfold remove_dead_participants, mbind, repo_bind. cbn. rewrite Hdead.
  destruct (length (participants_ d) + length _)%nat; cbn; unfold mbind, repo_bind; cbn; by rewrite Hdead.
Qed.

(** C14: after a run of valid requests, a request that names an unknown participant
    throws Invalid_Participant and changes nothing; so does, with the exception of
    the kind, a removal or change of a topic, publication or subscription that the
    participant does not have, and an endpoint for a topic that does not exist.  The
    completion of an association of an unknown endpoint throws Invalid_Subscription,
    also for a publication; the ids given to ignore are not looked up. *)
Theorem repository_errors n d r ex : session n d -> unknown d r ex -> serve r d = Ret (inr ex, d).
Proof.
  intros Hs Hu. destruct (session_good n d Hs) as [_ [Hw _ _]]. pose proof (wf_dead _ _ _ Hw) as Hdead. cbn in Hdead.
  assert (Hin : forall part, part ∈ participants_ d <-> is_Some (participants d !! part)) by apply (wf_parts _ _ _ Hw).
  assert (Hl : forall part p A (f : Participant -> repo A), participants d !! part = Some p -> with_participant part (p ← load parts part; f p) d = f p d).
  { intros part p A f Hp. rewrite with_participant_listed by (apply Hin; eauto). by apply (load_known parts). }
  destruct Hu as [r part Hr Hno|part t [p Hp] Hno|part t data [p Hp] Hno|sd part t id qos info group filter params [p Hp] Hno|sd part e [p Hp] Hno
    |sd part e qos group [p Hp] Hno|part sub params [p Hp] Hno|part localId remoteId [p Hp] Hno]; cbn [serve].
  - eapply participant_not_listed; [exact Hr|]. rewrite Hin, Hno. by intros [? ?].
  - apply bind_throws. unfold info_remove_topic. rewrite (Hl _ _ _ _ Hp), bool_decide_eq_false_2; [done|]. by eapply not_topic.
  - apply bind_throws. unfold update_topic_qos. rewrite (Hl _ _ _ _ Hp), bool_decide_eq_false_2; [done|]. by eapply not_topic.
  - apply bind_throws. unfold add_endpoint. rewrite with_participant_listed by (apply Hin; eauto).
    unfold find_topic, mbind, repo_bind. cbn. rewrite bool_decide_eq_false_2; [done|]. intros Ht. apply (wf_ids _ _ _ Hw) in Ht as [U HU]. cbn in HU. congruence.
  - rewrite (remove_unknown_endpoint d sd part e p Hdead); [by destruct sd|apply Hin; eauto|done|]. by eapply not_member.
  - apply bind_throws. unfold update_qos. rewrite (Hl _ _ _ _ Hp), bool_decide_eq_false_2; [by destruct sd|]. by eapply not_member.
  - apply bind_throws. unfold update_subscription_params. rewrite (Hl _ _ _ _ Hp), bool_decide_eq_false_2; [done|]. by eapply (not_member d Sub).
  - unfold association_complete. rewrite (Hl _ _ _ _ Hp), !bool_decide_eq_false_2; [done|..]; [exact (not_member d Pub part localId p Hw Hp (Hno Pub))|exact (not_member d Sub part localId p Hw Hp (Hno Sub))].
Qed.

End Requests.
(** ** A run *)

Definition ex_qos (dl : Duration) : DataQos := mkDataQos (ex_offer RELIABLE_RELIABILITY dl) 0.
Definition ex_entity : EntityQos := mkEntityQos ex_group 0.
Definition ex_literal : cstring -> cstring -> bool := fun _ _ => false.
Definition ex_endpoint (sd : side) (part topic id : RepoId) : request :=
  Add_Endpoint sd part topic id (ex_qos DURATION_INFINITY) ex_tcp ex_entity [] [].

(** Two participants, a writer and a reader of the same topic name. *)
Definition ex_requests : list request :=
  [Add_Participant 1; Add_Participant 2; Assert_Topic 11 1 [] [] 0; Assert_Topic 12 2 [] [] 0; ex_endpoint Pub 1 11 111; ex_endpoint Sub 2 12 211].
Definition ex_after (d : Domain) (r : request) : Domain :=
  match serve 7 false ex_literal r d with Ret (_, d') => d' | _ => d end.
Definition ex_domain (k : nat) : Domain := foldl ex_after (empty_domain []) (take k ex_requests).

Lemma ex_durations dl : dl = DURATION_INFINITY \/ dl = mkDur 1 0 -> durations_ok (endpoint_qos (ex_qos dl)).
Proof. intros [-> | ->]; unfold durations_ok, dur_ok, is_s; split_and!; first [by vm_compute|by right|left; by vm_compute]. Qed.

(** The run is one of valid requests. *)
Lemma ex_session n : 0 <= n <= 2147483000 -> session 7 false ex_literal n (ex_domain 6).
Proof.
  intros Hn. assert (Hc : cost (ex_domain 5) (ex_endpoint Sub 2 12 211) = 8 /\ cost (ex_domain 4) (ex_endpoint Pub 1 11 111) = 0
    /\ forall k, (k < 4)%nat -> cost (ex_domain k) (nth k ex_requests (Add_Participant 0)) = 0).
  { split; [by vm_compute|]. split; [by vm_compute|]. intros [|[|[|[|k]]]] Hk; [done..|lia]. }
  destruct Hc as (C6 & C5 & C). pose proof (ex_durations DURATION_INFINITY (or_introl eq_refl)) as Hd.
  eapply (session_next _ _ _ n (ex_domain 5) (ex_endpoint Sub 2 12 211)); [|lia| |by vm_compute].
  2:{ split; [eexists; split; [vm_compute; reflexivity|reflexivity]|]. split; [vm_compute; reflexivity|]. split; [|exact Hd]. intros o. vm_compute. reflexivity. }
  rewrite C6. eapply (session_next _ _ _ _ (ex_domain 4) (ex_endpoint Pub 1 11 111)); [|lia| |by vm_compute].
  2:{ split; [eexists; split; [vm_compute; reflexivity|reflexivity]|]. split; [vm_compute; reflexivity|]. split; [|exact Hd]. intros o. vm_compute. reflexivity. }
  rewrite C5. eapply (session_next _ _ _ _ (ex_domain 3) (Assert_Topic 12 2 [] [] 0)); [|lia|split; [by vm_compute|eexists; vm_compute; reflexivity]|by vm_compute].
  eapply (session_next _ _ _ _ (ex_domain 2) (Assert_Topic 11 1 [] [] 0)); [|cbn; lia|split; [by vm_compute|eexists; vm_compute; reflexivity]|by vm_compute].
  eapply (session_next _ _ _ _ (ex_domain 1) (Add_Participant 2)); [|cbn; lia|by vm_compute|by vm_compute].
  eapply (session_next _ _ _ _ (ex_domain 0) (Add_Participant 1)); [|cbn; lia|by vm_compute|by vm_compute].
  apply session_start. cbn. lia.
Qed.

Lemma repository_associations_witness : session 7 false ex_literal 1000 (ex_domain 6) /\ associated (ex_domain 6) Pub 111 211
  /\ (associated (ex_domain 6) Pub 111 211 <-> to_be_associated ex_literal (ex_domain 6) 111 211)
  /\ (is_Some (endpoints (ex_domain 6) !! (Sub, 211)) -> (informed (ex_domain 6) Sub 211 111 <-> to_be_associated ex_literal (ex_domain 6) 111 211)).
Proof.
  assert (Hs : session 7 false ex_literal 1000 (ex_domain 6)) by (apply ex_session; lia).
  destruct (repository_associations 7 false ex_literal 1000 (ex_domain 6) Hs 111 211) as (H1 & _ & _ & H4).
  split; [exact Hs|]. split; [eexists; split; [vm_compute; reflexivity|left]|]. split; [exact H1|exact H4].
Defined.

Lemma repository_serves_witness : session 7 false ex_literal 1024 (ex_domain 6) /\
  exists d', serve 7 false ex_literal (Update_Qos Sub 2 211 (ex_qos (mkDur 1 0)) ex_entity) (ex_domain 6) = Ret (inl (), d') /\ session 7 false ex_literal 1000 d'.
Proof.
  assert (E : cost (ex_domain 6) (Update_Qos Sub 2 211 (ex_qos (mkDur 1 0)) ex_entity) = 24) by (by vm_compute).
  assert (Hs : session 7 false ex_literal 1024 (ex_domain 6)) by (apply ex_session; lia). split; [exact Hs|].
  apply (repository_serves 7 false ex_literal 1000 (ex_domain 6)); [by rewrite E|lia|].
  eexists. split; [vm_compute; reflexivity|]. split; [reflexivity|]. split; [apply ex_durations; by right|]. split; vm_compute; auto 10.
Defined.

Lemma repository_errors_witness : session 7 false ex_literal 1000 (ex_domain 6)
  /\ serve 7 false ex_literal (Remove_Endpoint Sub 1 211) (ex_domain 6) = Ret (inr Invalid_Subscription, ex_domain 6).
Proof.
  assert (Hs : session 7 false ex_literal 1000 (ex_domain 6)) by (apply ex_session; lia). split; [exact Hs|].
  apply (repository_errors 7 false ex_literal 1000 (ex_domain 6) (Remove_Endpoint Sub 1 211) Invalid_Subscription Hs).
  apply (unknown_removed_endpoint (ex_domain 6) Sub 1 211); [eexists; vm_compute; reflexivity|].
  intros x Hx. vm_compute in Hx. injection Hx as <-. vm_compute. discriminate.
Defined.

(** Info.idl declares Invalid_Topic, Invalid_Publication and Invalid_Subscription for
    the operations that ignore; an id that nothing has is accepted and kept. *)
Theorem ignored_ids_unchecked : Forall (fun k => exists d p, serve 7 false ex_literal (Ignore_Entity k 1 999) (ex_domain 6) = Ret (inl (), d)
    /\ participants d !! 1 = Some p /\ is_ignored k 999 p = true)
  [a_topic; a_publication; a_subscription].
Proof. repeat constructor; eexists _, _; (split; [vm_compute; reflexivity|]); split; vm_compute; reflexivity. Qed.

(** ** Runs outside of the contract *)

(** Requests one after the other, from an empty domain; [answers] says which of the
    remote calls fail. *)
Definition served (answers : list bool) (m : repo unit) : outcome (unit + exception) :=
  match m (empty_domain answers) with Ret (r, _) => Ret r | Throw => Throw | UB => UB | Fuel => Fuel end.
Definition ex_serve (r : request) : repo unit := serve 7 false ex_literal r.
Definition ex_pair : repo unit := for_each ex_requests ex_serve.

(** Two calls of one request fail: the second participant is taken out of its topic
    after the first one was deleted. *)
Theorem two_failed_calls_undefined :
  served [true; false; false]
    (for_each [Add_Participant 1; Add_Participant 2; Add_Participant 3; Assert_Topic 11 1 [] [] 0; Assert_Topic 12 2 [] [] 0; Assert_Topic 13 3 [] [] 0;
       ex_endpoint Pub 1 11 111; ex_endpoint Pub 3 13 311; ex_endpoint Sub 2 12 211] ex_serve) = UB.
Proof. by vm_compute. Qed.

(** A call of [update_subscription_qos] fails: the participant is marked as dead but not
    removed; when its client removes it and another request is served, it is used. *)
Theorem failed_qos_update_undefined :
  served [true; true; true; false]
    (ex_pair;; ex_serve (Update_Qos Sub 2 211 (ex_qos (mkDur 1 0)) ex_entity);; ex_serve (Remove_Participant 1);; ex_serve (ex_endpoint Pub 2 12 212)) = UB.
Proof. by vm_compute. Qed.

(** [remove_publication] of a participant whose own reader does not answer. *)
Theorem failed_removal_undefined :
  served [true; true; false]
    (for_each [Add_Participant 1; Assert_Topic 11 1 [] [] 0; ex_endpoint Pub 1 11 111; ex_endpoint Sub 1 11 112; Remove_Endpoint Pub 1 111] ex_serve) = UB.
Proof. by vm_compute. Qed.

(** A reader of a topic another participant has asserted: the topic loses its
    description with that participant. *)
Theorem foreign_topic_undefined :
  served [] (for_each [Add_Participant 1; Add_Participant 2; Assert_Topic 11 1 [] [] 0; ex_endpoint Sub 2 11 211; Remove_Participant 1;
    Remove_Endpoint Sub 2 211] ex_serve) = UB.
Proof. by vm_compute. Qed.

(** Without an update manager the topics of a participant stay in their descriptions
    when it is removed. *)
Theorem topics_left_without_manager_undefined :
  served [] (for_each [Add_Participant 1; Add_Participant 2; Assert_Topic 11 1 [] [] 0; Assert_Topic 12 2 [] [] 0] ex_serve;;
    remove_domain_participant 7 false 1;; ex_serve (ex_endpoint Sub 2 12 211)) = UB.
Proof. by vm_compute. Qed.

(** [remove_by_owner] leaves the topics of the participants it removes in their
    descriptions. *)
Theorem remove_by_owner_undefined :
  served [] (for_each [Add_Participant 1; Add_Participant 2; Assert_Topic 11 1 [] [] 0; Assert_Topic 12 2 [] [] 0] ex_serve;;
    ignore (changeOwnership 7 1 7 9);; remove_by_owner 7 true 9;; ex_serve (ex_endpoint Sub 2 12 211)) = UB.
Proof. by vm_compute. Qed.

(** The timer tries to make an association again that was ended, with a subscription
    that was deleted since. *)
Theorem defunct_association_undefined :
  served [] (ex_pair;; info_disassociate_participant 7 true 1 2;; ex_serve (Remove_Endpoint Sub 2 211);; info_handle_timeout 7 ex_literal) = UB.
Proof. by vm_compute. Qed.

(** One change of policies that ends an association is counted as three failures, and the
    status with them is not sent. *)
Theorem qos_change_counted_three_times :
  match (ex_pair;; ex_serve (Update_Qos Sub 2 211 (ex_qos (mkDur 1 0)) ex_entity)) (empty_domain []) with
  | Ret (inl (), d) => (incompatibleQosStatus_ <$> endpoints d !! (Sub, 211)) = Some (mkIQ 3 3 DEADLINE_ID [mkPC DEADLINE_ID 3])
      /\ (forall c, c ∈ calls d -> match c with update_incompatible_qos_call _ _ _ => False | _ => True end)
  | _ => False
  end.
Proof. vm_compute. split; [done|]. intros c Hc. repeat (apply elem_of_cons in Hc as [->|Hc]; [done|]). by apply elem_of_nil in Hc. Qed.

End InfoRepoProps.
