(* ===== verification/Multicast.v ===== *)
(** * Sessions of the multicast transport (dds/DCPS/transport/multicast:
    MulticastSession.cpp, ReliableSession.cpp, BestEffortSession.cpp,
    MulticastDataLink.cpp; dds/DCPS/transport/framework/DataLinkWatchdog_T.h)

    All peers of a multicast group hear every datagram.  A link keeps a session
    per remote peer: active on the side of the writer, passive on that of the
    reader.  The writer's session sends SYN until the reader's answers SYNACK.
    From then on a reliable session of a reader records the numbers of the
    datagrams of its peer, asks with NAK for those it misses, and the writer's
    sends again what its send buffer still has and tells with NAKACK from where
    on it has.

    A method of a session is a function from the session to its new state and
    the calls it makes on the link, in order ([Action]).  The clock and whether
    the reactor accepts a timer are arguments; the random and exponential
    lengths of the intervals are not represented, nor are failures of the
    allocator. *)

From S2P Require Import Prelude MessageBlock SequenceNumber DisjointSequence Serializer TransportSendStrategy TransportSendBuffer DataSampleHeader TransportReassembly TransportHeader.
Import TransportSendBuffer DataSampleHeader TransportReassembly TransportHeader.

Module Multicast.

(** ** Data *)

Definition MULTICAST_SYN : Z := 1.
Definition MULTICAST_SYNACK : Z := 2.
Definition MULTICAST_NAK : Z := 3.
Definition MULTICAST_NAKACK : Z := 4.

(** The values of [TRANSPORT_CONTROL] and [SAMPLE_ACK]. *)
Definition TRANSPORT_CONTROL_ID : Z := 9.
Definition SAMPLE_ACK_ID : Z := 7.

(** What the sessions read of the configuration. *)
Record MulticastInst := mkMI {
  syn_timeout_ : Z; nak_delay_intervals_ : Z; nak_max_ : Z; nak_timeout_ : Z }.

(** A [DataLinkWatchdog]: [timer_] is [timer_id_ != -1]. *)
Record Watchdog := mkWD { timer_ : bool; epoch_ : Z; cancelled_ : bool }.
Definition new_watchdog : Watchdog := mkWD false 0 false.

(** [schedule_i]; [registered] is the answer of the reactor. *)
Definition wd_schedule (registered : bool) (now : Z) (wd : Watchdog) : bool * Watchdog :=
  if cancelled_ wd then (true, wd)
  else
    let epoch := if epoch_ wd =? 0 then now else epoch_ wd in
    if registered then (true, mkWD true epoch false) else (false, mkWD (timer_ wd) epoch false).

Definition wd_cancel (wd : Watchdog) : Watchdog :=
  if timer_ wd then mkWD false (epoch_ wd) true else wd.

Section sessions.
Context {MB : Type} `{MessageBlock MB}.

(** [NakRequestMap] is a [std::map]: its entries in the order of the times. *)
Record ReliablePart := mkRP {
  nak_watchdog_ : Watchdog;
  nak_sequence_ : list SequenceRange;
  nak_requests_ : list (Z * SequenceNumber);
  nak_peers_ : list SequenceRange }.

Inductive SessionKind := Reliable (r : ReliablePart) | BestEffort (expected_ : SequenceNumber).

Record MulticastSession := mkMS {
  remote_peer_ : Z; started_ : bool; active_ : bool; acked_ : bool;
  reassembly_ : TransportReassembly MB;
  syn_watchdog_ : Watchdog;
  kind_ : SessionKind }.

Inductive Action :=
| SendControl (header : DataSampleHeader) (data : list MB)
| Resend (range : SequenceRange)
| PassiveConnection (local_peer remote_peer : Z)
| AckReceived (sample : ReceivedDataSample MB)
| DataReceived (sample : ReceivedDataSample MB).

(** What a session reads of its link; [None] is the null pointer. *)
Record SessionLink := mkSL {
  local_peer_ : Z; config_ : MulticastInst; send_buffer_ : option (SingleSendBuffer (MB := MB)) }.

Definition set_kind (k : SessionKind) (s : MulticastSession) : MulticastSession :=
  mkMS (remote_peer_ s) (started_ s) (active_ s) (acked_ s) (reassembly_ s) (syn_watchdog_ s) k.
Definition set_acked (b : bool) (s : MulticastSession) : MulticastSession :=
  mkMS (remote_peer_ s) (started_ s) (active_ s) b (reassembly_ s) (syn_watchdog_ s) (kind_ s).
Definition set_active (b : bool) (s : MulticastSession) : MulticastSession :=
  mkMS (remote_peer_ s) (started_ s) b (acked_ s) (reassembly_ s) (syn_watchdog_ s) (kind_ s).
Definition set_started (b : bool) (s : MulticastSession) : MulticastSession :=
  mkMS (remote_peer_ s) b (active_ s) (acked_ s) (reassembly_ s) (syn_watchdog_ s) (kind_ s).
Definition set_reassembly (tr : TransportReassembly MB) (s : MulticastSession) : MulticastSession :=
  mkMS (remote_peer_ s) (started_ s) (active_ s) (acked_ s) tr (syn_watchdog_ s) (kind_ s).
Definition set_syn (wd : Watchdog) (s : MulticastSession) : MulticastSession :=
  mkMS (remote_peer_ s) (started_ s) (active_ s) (acked_ s) (reassembly_ s) wd (kind_ s).
Definition set_nak_sequence (l : list SequenceRange) (r : ReliablePart) : ReliablePart :=
  mkRP (nak_watchdog_ r) l (nak_requests_ r) (nak_peers_ r).
Definition set_nak_watchdog (wd : Watchdog) (r : ReliablePart) : ReliablePart :=
  mkRP wd (nak_sequence_ r) (nak_requests_ r) (nak_peers_ r).

(** The constructors. *)
Definition new_session (remote_peer : Z) (k : SessionKind) : MulticastSession :=
  mkMS remote_peer false true false (mkTR ∅ ∅) new_watchdog k.
Definition ReliableSession_new (remote_peer : Z) : MulticastSession :=
  new_session remote_peer (Reliable (mkRP new_watchdog [] [] [])).
Definition BestEffortSession_new (remote_peer : Z) : MulticastSession :=
  new_session remote_peer (BestEffort SEQUENCENUMBER_UNKNOWN).

(** ** Control samples *)

(** The header [DataLink::create_control] gives the sample. *)
Definition control_header (submessage_id : Z) (data : list MB) : DataSampleHeader :=
  set_length (set_subid (set_id default_header TRANSPORT_CONTROL_ID) submessage_id)
    (uwrap 32 (Z.of_nat (length (chain_bytes data)))).

Definition send_control (submessage_id : Z) (data : list MB) : Action :=
  SendControl (control_header submessage_id data) data.

Definition written (s : Serializer MB) : list MB := ser_done s ++ ser_cur s.

(** The body of SYN and SYNACK: the peer it is for. *)
Definition peer_data (peer : Z) : outcome (list MB) :=
  s ← write_int 4 (mk_serializer [mb_new 4] false ALIGN_NONE) peer;
  Ret (written s).

(** [MulticastPeer local_peer; serializer >> local_peer]: the variable has no
    value when the read fails. *)
Definition read_peer (s : Serializer MB) : outcome (Serializer MB * Z) :=
  '(s, peer) ← read_sint 4 s 0;
  if good_bit_ s then Ret (s, peer) else UB.

Definition nakack_data (low : SequenceNumber) : outcome (list MB) :=
  s ← write_SequenceNumber (mk_serializer [mb_new 8] false ALIGN_NONE) low;
  Ret (written s).

(** [send_nakack] is empty in the base class. *)
Definition send_nakack (k : SessionKind) (low : SequenceNumber) : outcome (list Action) :=
  match k with
  | Reliable _ => data ← nakack_data low; Ret [send_control MULTICAST_NAKACK data]
  | BestEffort _ => Ret []
  end.

(** ** Headers of datagrams *)

Fixpoint data_unavailable_all (tr : TransportReassembly MB) (dropped : list SequenceRange)
    : outcome (TransportReassembly MB) :=
  match dropped with
  | [] => Ret tr
  | r :: dropped => tr ← data_unavailable tr r; data_unavailable_all tr dropped
  end.

Definition check_header_reliable (header : TransportHeader) (s : MulticastSession) (r : ReliablePart)
    : outcome (bool * MulticastSession) :=
  if negb (remote_peer_ s =? source_ header) then Ret (true, s)
  else
    '(fresh, seqs) ← insert_value (nak_sequence_ r) (th_sequence_ header);
    Ret (fresh, set_kind (Reliable (set_nak_sequence seqs r)) s).

Definition check_header_best_effort (header : TransportHeader) (s : MulticastSession) (expected : SequenceNumber)
    : outcome (bool * MulticastSession) :=
  let seq := th_sequence_ header in
  s ← (if sn_ne seq expected && sn_ne expected SEQUENCENUMBER_UNKNOWN && sn_gt seq expected then
         tr ← data_unavailable (reassembly_ s) (expected, previous seq);
         Ret (set_reassembly tr s)
       else Ret s);
  Ret (true, set_kind (BestEffort (next seq)) s).

Definition session_check_header (header : TransportHeader) (s : MulticastSession) : outcome (bool * MulticastSession) :=
  match kind_ s with
  | Reliable r => check_header_reliable header s r
  | BestEffort expected => check_header_best_effort header s expected
  end.

Definition session_reassemble (data : ReceivedDataSample MB) (header : TransportHeader) (s : MulticastSession)
    : MulticastSession * option (ReceivedDataSample MB) :=
  let '(tr, d) := reassemble (reassembly_ s) (th_sequence_ header) (first_fragment_ header) data in
  (set_reassembly tr s, d).

(** ** The handshake *)

Section with_link.
Context (L : SessionLink).

Definition send_syn (s : MulticastSession) : outcome (list Action) :=
  data ← peer_data (remote_peer_ s);
  Ret [send_control MULTICAST_SYN data].

Definition send_synack (s : MulticastSession) : outcome (list Action) :=
  nakack ← (match send_buffer_ L with
            | Some b =>
                if negb (sb_empty b) then
                  low ← sb_low b;
                  if sn_gt low (next (of_value 1)) then send_nakack (kind_ s) low else Ret []
                else Ret []
            | None => Ret []
            end);
  data ← peer_data (remote_peer_ s);
  Ret (nakack ++ [send_control MULTICAST_SYNACK data]).

(** [syn_hook] is empty in the base class. *)
Definition syn_hook (seq : SequenceNumber) (s : MulticastSession) : outcome MulticastSession :=
  match kind_ s with
  | Reliable r =>
      '(_, seqs) ← insert_range ds_reset (of_value 1, seq);
      Ret (set_kind (Reliable (set_nak_sequence seqs r)) s)
  | BestEffort _ => Ret s
  end.

Definition syn_received (header : TransportHeader) (control : list MB) (s : MulticastSession)
    : outcome (MulticastSession * list Action * list MB) :=
  if active_ s then Ret (s, [], control)
  else if negb (remote_peer_ s =? source_ header) then Ret (s, [], control)
  else
    '(ser, local_peer) ← read_peer (mk_serializer control (transport_swap_bytes header) ALIGN_NONE);
    if negb (local_peer =? local_peer_ L) then Ret (s, [], written ser)
    else
      s ← (if acked_ s then Ret s else syn_hook (th_sequence_ header) (set_acked true s));
      acts ← send_synack s;
      Ret (s, acts ++ [PassiveConnection (local_peer_ L) (remote_peer_ s)], written ser).

Definition synack_received (header : TransportHeader) (control : list MB) (s : MulticastSession)
    : outcome (MulticastSession * list MB) :=
  if negb (active_ s) then Ret (s, control)
  else if acked_ s then Ret (s, control)
  else if negb (remote_peer_ s =? source_ header) then Ret (s, control)
  else
    '(ser, local_peer) ← read_peer (mk_serializer control (transport_swap_bytes header) ALIGN_NONE);
    if negb (local_peer =? local_peer_ L) then Ret (s, written ser)
    else Ret (set_acked true (set_syn (wd_cancel (syn_watchdog_ s)) s), written ser).

(** [MulticastSession::control_received]: the answer, the session, the calls
    and the sample as far as it was read. *)
Definition control_received_base (header : TransportHeader) (submessage_id : Z) (control : list MB) (s : MulticastSession)
    : outcome (bool * MulticastSession * list Action * list MB) :=
  s ← (if negb (acked_ s) && (remote_peer_ s =? source_ header) then
         '(_, s) ← session_check_header header s; Ret s
       else Ret s);
  if submessage_id =? MULTICAST_SYN then
    '(s, acts, control) ← syn_received header control s; Ret (true, s, acts, control)
  else if submessage_id =? MULTICAST_SYNACK then
    '(s, control) ← synack_received header control s; Ret (true, s, [], control)
  else Ret (false, s, [], control).

(** ** Repair requests *)

(** [operator<] of a [std::pair]. *)
Definition range_lt (a b : SequenceRange) : bool := sn_lt a.1 b.1 || (negb (sn_lt b.1 a.1) && sn_lt a.2 b.2).

Fixpoint peers_insert (r : SequenceRange) (l : list SequenceRange) : list SequenceRange :=
  match l with
  | [] => [r]
  | x :: l' => if range_lt r x then r :: l else if range_lt x r then x :: peers_insert r l' else l
  end.

(** Assignment to [nak_requests_[t]]. *)
Fixpoint requests_set (t : Z) (v : SequenceNumber) (l : list (Z * SequenceNumber)) : list (Z * SequenceNumber) :=
  match l with
  | [] => [(t, v)]
  | (t', v') :: l' => if t <? t' then (t, v) :: l
                      else if t =? t' then (t, v) :: l' else (t', v') :: requests_set t v l'
  end.

(** The entries before and from [upper_bound(deadline)]. *)
Fixpoint upper_bound (deadline : Z) (l : list (Z * SequenceNumber))
    : list (Z * SequenceNumber) * list (Z * SequenceNumber) :=
  match l with
  | [] => ([], [])
  | e :: l' => if e.1 <=? deadline then let '(a, b) := upper_bound deadline l' in (e :: a, b) else ([], l)
  end.

Definition expire_naks (now : Z) (s : MulticastSession) (r : ReliablePart) : outcome MulticastSession :=
  if decide (nak_requests_ r = []) then Ret s
  else
    let deadline := now - nak_timeout_ (config_ L) in
    let '(expired, rest) := upper_bound deadline (nak_requests_ r) in
    match last expired with
    | None => Ret s
    | Some newest =>
        let lastSeq := match rest with [] => newest.2 | e :: _ => e.2 end in
        low ← ds_low (nak_sequence_ r);
        '(inserted, seqs, dropped) ← insert_gaps (nak_sequence_ r) (low, lastSeq);
        tr ← (if (inserted : bool) then data_unavailable_all (reassembly_ s) dropped else Ret (reassembly_ s));
        Ret (set_kind (Reliable (mkRP (nak_watchdog_ r) seqs rest (nak_peers_ r))) (set_reassembly tr s))
    end.

(** The loop of [send_naks] over the requests before the newest one, from the
    newest to the oldest; the values of [first], [second] and [ignored] after
    it.  [SequenceNumber()] stands for no value.  The division of the doubles is
    exact for the sizes a map can have. *)
Fixpoint ignore_loop (d m : Z) (oldest : SequenceNumber) (l : list (Z * SequenceNumber)) (i : Z)
    (first second : SequenceNumber) (ignored : list SequenceRange)
    : SequenceNumber * SequenceNumber * list SequenceRange :=
  let none := of_value 1 in
  match l with
  | [] => (first, second, ignored)
  | e :: l =>
      if m * (d + 1) <? i then
        if sn_ne first none then (oldest, second, ignored)
        else (first, second, ignored ++ [(oldest, e.2)])
      else
        let second := if i mod (d + 1) =? 1 then e.2 else second in
        let first := if sn_ne second none then e.2 else first in
        if i mod (d + 1) =? 0 then
          let first := e.2 in
          if sn_ne first none && sn_ne second none
          then ignore_loop d m oldest l (i + 1) none none (ignored ++ [(first, second)])
          else ignore_loop d m oldest l (i + 1) first second ignored
        else ignore_loop d m oldest l (i + 1) first second ignored
  end.

Definition ignored_ranges (d m : Z) (requests : list (Z * SequenceNumber)) : list SequenceRange :=
  let none := of_value 1 in
  match requests, reverse requests with
  | oldest :: _ :: _, _ :: older =>
      let '(first, second, ignored) := ignore_loop d m oldest.2 older 1 none none [] in
      if sn_ne first none && sn_ne second none && sn_ne first second
      then ignored ++ [(first, second)] else ignored
  | _, _ => []
  end.

(** Making the sequence contiguous over the ignored ranges. *)
Fixpoint suppress (received : list SequenceRange) (ignored : list SequenceRange) : outcome (list SequenceRange) :=
  match ignored with
  | [] => Ret received
  | r :: ignored =>
      received ← (if sn_gt r.2 (cumulative_ack received) then
                    let low := if sn_lt r.1 (cumulative_ack received) then cumulative_ack received else r.1 in
                    '(_, received) ← insert_range received (low, r.2); Ret received
                  else Ret received);
      suppress received ignored
  end.

Fixpoint suppress_peers (received : list SequenceRange) (peers : list SequenceRange) : outcome (list SequenceRange) :=
  match peers with
  | [] => Ret received
  | r :: peers => '(_, received) ← insert_range received r; suppress_peers received peers
  end.

Fixpoint write_ranges (s : Serializer MB) (ranges : list SequenceRange) : outcome (Serializer MB) :=
  match ranges with
  | [] => Ret s
  | r :: ranges => s ← write_SequenceNumber s r.1; s ← write_SequenceNumber s r.2; write_ranges s ranges
  end.

(** The body of [send_naks(received)]. *)
Definition nak_data (remote_peer : Z) (ranges : list SequenceRange) : outcome (list MB) :=
  let size := uwrap 32 (Z.of_nat (length ranges)) in
  let len := (4 + 4 + Z.to_nat size * 2 * 8)%nat in
  s ← write_int 4 (mk_serializer [mb_new len] false ALIGN_NONE) remote_peer;
  s ← write_int 4 s size;
  s ← write_ranges s ranges;
  Ret (written s).

Definition send_naks (now : Z) (s : MulticastSession) (r : ReliablePart) : outcome (MulticastSession * list Action) :=
  if negb (acked_ s) then Ret (s, [])
  else if negb (disjoint (nak_sequence_ r)) then Ret (s, [])
  else
    high ← ds_high (nak_sequence_ r);
    let requests := requests_set now high (nak_requests_ r) in
    let ignored := ignored_ranges (nak_delay_intervals_ (config_ L)) (nak_max_ (config_ L)) requests in
    received ← suppress (nak_sequence_ r) ignored;
    received ← suppress_peers received (nak_peers_ r);
    acts ← (if disjoint received then
              data ← nak_data (remote_peer_ s) (missing_sequence_ranges received);
              Ret [send_control MULTICAST_NAK data]
            else Ret []);
    Ret (set_kind (Reliable (mkRP (nak_watchdog_ r) (nak_sequence_ r) requests [])) s, acts).

(** [size] pairs of sequence numbers; a failed read leaves [SequenceNumber()]. *)
Fixpoint read_ranges (n : nat) (s : Serializer MB) : outcome (Serializer MB * list SequenceRange) :=
  match n with
  | O => Ret (s, [])
  | S n =>
      '(s, a) ← read_sn s (of_value 1);
      '(s, b) ← read_sn s (of_value 1);
      '(s, l) ← read_ranges n s;
      Ret (s, (a, b) :: l)
  end.

Definition nak_received (header : TransportHeader) (control : list MB) (s : MulticastSession) (r : ReliablePart)
    : outcome (MulticastSession * list Action * list MB) :=
  if negb (active_ s) then Ret (s, [], control)
  else
    '(ser, local_peer) ← read_peer (mk_serializer control (transport_swap_bytes header) ALIGN_NONE);
    '(ser, size) ← read_uint 4 ser 0;
    '(ser, ranges) ← read_ranges (Z.to_nat size) ser;
    if local_peer =? remote_peer_ s then
      Ret (set_kind (Reliable (mkRP (nak_watchdog_ r) (nak_sequence_ r) (nak_requests_ r)
             (fold_left (fun l x => peers_insert x l) ranges (nak_peers_ r)))) s, [], written ser)
    else if negb (local_peer =? local_peer_ L) || negb (remote_peer_ s =? source_ header) then Ret (s, [], written ser)
    else
      b ← deref (send_buffer_ L);
      nakack ← (if negb (sb_empty b) then
                  low ← sb_low b;
                  begin ← deref (head ranges);
                  if sn_gt low begin.1 then send_nakack (kind_ s) low else Ret []
                else Ret []);
      Ret (s, nakack ++ (Resend <$> ranges), written ser).

Definition nakack_received (header : TransportHeader) (control : list MB) (s : MulticastSession) (r : ReliablePart)
    : outcome (MulticastSession * list MB) :=
  if active_ s then Ret (s, control)
  else if negb (remote_peer_ s =? source_ header) then Ret (s, control)
  else
    '(ser, low) ← read_sn (mk_serializer control (transport_swap_bytes header) ALIGN_NONE) (of_value 1);
    from ← ds_low (nak_sequence_ r);
    '(inserted, seqs, dropped) ← insert_gaps (nak_sequence_ r) (from, previous low);
    tr ← (if (inserted : bool) then data_unavailable_all (reassembly_ s) dropped else Ret (reassembly_ s));
    Ret (set_kind (Reliable (set_nak_sequence seqs r)) (set_reassembly tr s), written ser).

Definition session_control_received (header : TransportHeader) (submessage_id : Z) (control : list MB) (s : MulticastSession)
    : outcome (bool * MulticastSession * list Action * list MB) :=
  '(handled, s, acts, control) ← control_received_base header submessage_id control s;
  if (handled : bool) then Ret (true, s, acts, control)
  else match kind_ s with
       | BestEffort _ => Ret (false, s, acts, control)
       | Reliable r =>
           if submessage_id =? MULTICAST_NAK then
             '(s, more, control) ← nak_received header control s r; Ret (true, s, acts ++ more, control)
           else if submessage_id =? MULTICAST_NAKACK then
             '(s, control) ← nakack_received header control s r; Ret (true, s, acts, control)
           else Ret (true, s, acts, control)
       end.

(** ** Timers *)

(** [handle_timeout] of the NAK watchdog, which never times out; the clock is
    read by [expire_naks], by [send_naks] and for the new timer. *)
Definition nak_timeout (now1 now2 now3 : Z) (registered : bool) (s : MulticastSession) (r : ReliablePart)
    : outcome (MulticastSession * list Action) :=
  s ← expire_naks now1 s r;
  match kind_ s with
  | Reliable r =>
      '(s, acts) ← send_naks now2 s r;
      match kind_ s with
      | Reliable r =>
          Ret (set_kind (Reliable (set_nak_watchdog (wd_schedule registered now3 (nak_watchdog_ r)).2 r)) s, acts)
      | BestEffort _ => Ret (s, acts)
      end
  | BestEffort _ => Ret (s, [])
  end.

(** [handle_timeout] of the SYN watchdog. *)
Definition syn_timeout (now now2 : Z) (registered : bool) (s : MulticastSession) : outcome (MulticastSession * list Action) :=
  let timeout := syn_timeout_ (config_ L) in
  if negb (timeout =? 0) && (timeout + epoch_ (syn_watchdog_ s) <? now) then
    Ret (set_syn (wd_cancel (syn_watchdog_ s)) s, [])
  else
    acts ← send_syn s;
    Ret (set_syn (wd_schedule registered now2 (syn_watchdog_ s)).2 s, acts).

(** [start] of the two classes: the answer and the session. *)
Definition session_start (reactor registered : bool) (now : Z) (active acked : bool) (s : MulticastSession) : bool * MulticastSession :=
  if started_ s then (true, s)
  else if negb reactor then (false, s)
  else
    let s := set_active active s in
    if active then
      let '(ok, wd) := wd_schedule registered now (syn_watchdog_ s) in
      let s := set_syn wd s in
      if ok then (true, set_started true s)
      else (false, match kind_ s with
                   | Reliable r => set_kind (Reliable (set_nak_watchdog (wd_cancel (nak_watchdog_ r)) r)) s
                   | BestEffort _ => s
                   end)
    else
      match kind_ s with
      | BestEffort _ => (true, set_started true s)
      | Reliable r =>
          let s := if acked then set_acked true s else s in
          let '(ok, wd) := wd_schedule registered now (nak_watchdog_ r) in
          let s := set_kind (Reliable (set_nak_watchdog wd r)) s in
          if ok then (true, set_started true s) else (false, s)
      end.

Definition session_stop (s : MulticastSession) : MulticastSession :=
  let s := set_syn (wd_cancel (syn_watchdog_ s)) s in
  match kind_ s with
  | Reliable r => set_kind (Reliable (set_nak_watchdog (wd_cancel (nak_watchdog_ r)) r)) s
  | BestEffort _ => s
  end.

End with_link.
End sessions.
Arguments MulticastSession MB : clear implicits.
Arguments Action MB : clear implicits.
Arguments SessionLink MB : clear implicits.

(** ** The link *)

Section datalink.
Context {MB : Type} `{MessageBlock MB}.

(** [sessions_] is a [std::map]: its entries in the order of the peers.
    [reliable_] is which session factory the link has. *)
Record MulticastDataLink := mkDL {
  link_ : SessionLink MB; is_active_ : bool; reliable_ : bool;
  sessions_ : list (Z * MulticastSession MB) }.

Definition set_sessions (l : list (Z * MulticastSession MB)) (d : MulticastDataLink) : MulticastDataLink :=
  mkDL (link_ d) (is_active_ d) (reliable_ d) l.

Fixpoint sessions_find (peer : Z) (l : list (Z * MulticastSession MB)) : option (MulticastSession MB) :=
  match l with
  | [] => None
  | (p, s) :: l => if peer =? p then Some s else sessions_find peer l
  end.

Fixpoint sessions_insert (peer : Z) (s : MulticastSession MB) (l : list (Z * MulticastSession MB)) : list (Z * MulticastSession MB) :=
  match l with
  | [] => [(peer, s)]
  | (p, s') :: l' => if peer <? p then (peer, s) :: l else if peer =? p then l else (p, s') :: sessions_insert peer s l'
  end.

(** A change of the object an entry points to. *)
Fixpoint sessions_update (peer : Z) (s : MulticastSession MB) (l : list (Z * MulticastSession MB)) : list (Z * MulticastSession MB) :=
  match l with
  | [] => []
  | (p, s') :: l => if peer =? p then (p, s) :: l else (p, s') :: sessions_update peer s l
  end.

Definition find_session (peer : Z) (d : MulticastDataLink) : option (MulticastSession MB) := sessions_find peer (sessions_ d).

Definition find_or_create_session (peer : Z) (d : MulticastDataLink) : MulticastSession MB * MulticastDataLink :=
  match sessions_find peer (sessions_ d) with
  | Some s => (s, d)
  | None =>
      let s := if reliable_ d then ReliableSession_new peer else BestEffortSession_new peer in
      (s, set_sessions (sessions_insert peer s (sessions_ d)) d)
  end.

Definition link_check_header (header : TransportHeader) (d : MulticastDataLink) : outcome (bool * MulticastDataLink) :=
  match sessions_find (source_ header) (sessions_ d) with
  | None => Ret (negb (is_active_ d), d)
  | Some s =>
      if acked_ s then
        '(ok, s) ← session_check_header header s;
        Ret (ok, set_sessions (sessions_update (source_ header) s (sessions_ d)) d)
      else Ret (true, d)
  end.

(** [received] is the header of the datagram the sample came in. *)
Definition link_check_sample (received : TransportHeader) (header : DataSampleHeader) (d : MulticastDataLink) : bool :=
  if message_id_ header =? TRANSPORT_CONTROL_ID then true
  else bool_decide (is_Some (sessions_find (source_ received) (sessions_ d))).

Definition link_reassemble (data : ReceivedDataSample MB) (header : TransportHeader) (d : MulticastDataLink)
    : MulticastDataLink * option (ReceivedDataSample MB) :=
  match sessions_find (source_ header) (sessions_ d) with
  | None => (d, None)
  | Some s =>
      if acked_ s then
        let '(s, r) := session_reassemble data header s in
        (set_sessions (sessions_update (source_ header) s (sessions_ d)) d, r)
      else (d, None)
  end.

Definition syn_received_no_session (source : Z) (data : list MB) (swap_bytes : bool) (d : MulticastDataLink) : outcome (list (Action MB)) :=
  '(_, local_peer) ← read_peer (mk_serializer data swap_bytes ALIGN_NONE);
  if negb (local_peer =? local_peer_ (link_ d)) then Ret []
  else
    synack ← peer_data source;
    Ret [send_control MULTICAST_SYNACK synack; PassiveConnection local_peer source].

(** [sample_->rd_ptr(ptr)] after a session has read: the first block is as it
    was, the blocks after it are not. *)
Definition reset_rd_ptr (control rest : list MB) : list MB :=
  match control with [] => rest | b :: _ => b :: tail rest end.

Fixpoint control_each (L : SessionLink MB) (header : TransportHeader) (submessage_id : Z) (control : list MB) (l : list (Z * MulticastSession MB))
    : outcome (list (Z * MulticastSession MB) * list (Action MB)) :=
  match l with
  | [] => Ret ([], [])
  | (p, s) :: l =>
      '(_, s, acts, rest) ← session_control_received L header submessage_id control s;
      '(l, more) ← control_each L header submessage_id (reset_rd_ptr control rest) l;
      Ret ((p, s) :: l, acts ++ more)
  end.

Definition sample_received (received : TransportHeader) (sample : ReceivedDataSample MB) (d : MulticastDataLink)
    : outcome (MulticastDataLink * list (Action MB)) :=
  let id := message_id_ (header_ sample) in
  if id =? TRANSPORT_CONTROL_ID then
    let sub := submessage_id_ (header_ sample) in
    let control := default [] (sample_ sample) in
    if negb (is_active_ d) && (sub =? MULTICAST_SYN) && negb (bool_decide (is_Some (sessions_find (source_ received) (sessions_ d)))) then
      acts ← syn_received_no_session (source_ received) control (transport_swap_bytes received) d;
      Ret (d, acts)
    else
      '(l, acts) ← control_each (link_ d) received sub control (sessions_ d);
      Ret (set_sessions l d, acts)
  else if id =? SAMPLE_ACK_ID then Ret (d, [AckReceived sample])
  else Ret (d, [DataReceived sample]).

(** [MulticastTransport::start_session]; [acked] is whether the transport knows
    of a finished handshake with the peer. *)
Definition start_session (peer : Z) (reactor registered : bool) (now : Z) (active acked : bool) (d : MulticastDataLink) : bool * MulticastDataLink :=
  let '(s, d) := find_or_create_session peer d in
  let '(ok, s) := session_start reactor registered now active acked s in
  (ok, set_sessions (sessions_update peer s (sessions_ d)) d).

(** [stop_i]: the sessions stop, then the map drops them. *)
Definition link_stop (d : MulticastDataLink) : list (MulticastSession MB) * MulticastDataLink :=
  ((fun e => session_stop e.2) <$> sessions_ d, set_sessions [] d).

End datalink.
Arguments MulticastDataLink MB : clear implicits.

End Multicast.
