(* ===== verification/MulticastLemmas.v ===== *)
(** * Lemmas on the multicast sessions

    The gap-reporting insertion as the sessions use it, the reassembly when data
    is given up, and the bodies of the control samples, written and read. *)

From S2P Require Import Prelude MessageBlock SequenceNumber DisjointSequence Serializer TransportSendStrategy TransportSendBuffer DataSampleHeader TransportReassembly TransportHeader Multicast.
Import TransportSendBuffer DataSampleHeader TransportReassembly TransportHeader Multicast.

Module MulticastLemmas.

(** ** Insertions from the lowest number on *)

Lemma gap_loop_total seqs range above fuel : forall i last_gap gaps,
  (i <= above <= length seqs)%nat -> (above - i < fuel)%nat ->
  exists r, gap_loop fuel seqs range i above last_gap gaps = Ret r.
Proof.
  induction fuel as [|fuel IH]; intros i last_gap gaps Hi Hf; [lia|]. cbn [gap_loop].
  case_bool_decide; [eauto|]. destruct (lookup_lt_is_Some_2 seqs i) as [g Hg]; [lia|].
  rewrite Hg. cbn [deref mbind outcome_bind]. apply IH; lia.
Qed.

Lemma lower_bound_le seqs key : (lower_bound seqs key <= length seqs)%nat.
Proof. induction seqs as [|r seqs IH]; cbn; [lia|]. case_match; lia. Qed.

(** With the lower end in the first range the report is complete and the set is
    the one without a report. *)
Lemma insert_gaps_from_low r0 rest hi :
  wf (r0 :: rest) -> sn_valid hi -> getValue r0.1 <= getValue hi < MAX_VALUE ->
  exists changed seqs' gaps,
    insert_gaps (r0 :: rest) (r0.1, hi) = Ret (changed, seqs', gaps) /\
    insert_range (r0 :: rest) (r0.1, hi) = Ret (changed, seqs').
Proof.
  intros Hw Hv Hb. pose proof Hw as (Hr & _ & _). pose proof Hr as (H1 & H2 & H3).
  assert (range_ok (r0.1, hi)) as Hok by (by split_and!; cbn; try tauto; lia).
  unfold insert_gaps, insert_range. destruct (insert_i_cases (r0 :: rest) (r0.1, hi) Hw Hok) as
    [(r & _ & _ & _ & Hi)|(A & M & R & new & Hins & Hi)]; [rewrite !Hi; by eexists _, _, _|].
  rewrite Hi. cbn [mbind outcome_bind].
  cut (exists gaps, insert_i (r0 :: rest) (r0.1, hi) true = Ret (true, A ++ new :: R, gaps)); [intros [gaps ->]; by eexists _, _, _|].
  revert Hi. unfold insert_i. destruct (validate _) as [[]| | |]; cbn [mbind outcome_bind]; try done.
  set (above := lower_bound (r0 :: rest) (r0.1, hi)).
  set (key := if 0 <? getValue (r0.1, hi).1 - 1 then of_value (getValue (r0.1, hi).1 - 1) else SN_ZERO).
  assert (lower_bound (r0 :: rest) (of_value 1, key) = 0%nat) as ->.
  { cbn [lower_bound]. unfold SequenceRange_LessThan. cbn [snd]. subst key. cbn [fst].
    pose proof (proj2 H1). unfold MIN_VALUE in *. assert (sn_lt r0.2 (if 0 <? getValue r0.1 - 1 then of_value (getValue r0.1 - 1) else SN_ZERO) = false) as ->; [|done].
    destruct (Z.ltb_spec 0 (getValue r0.1 - 1)).
    - rewrite sn_lt_value, getValue_of_value by (auto with dds || lia || (apply sn_valid_ok, of_value_valid; lia)).
      unfold MIN_VALUE. apply Z.ltb_ge. lia.
    - rewrite sn_lt_value by (auto with dds || by vm_compute). apply Z.ltb_ge. change (getValue SN_ZERO) with 0. lia. }
  assert (above <= length (r0 :: rest))%nat as Ha by apply lower_bound_le. clearbody above.
  assert (forall i, (1 <= i <= length (r0 :: rest))%nat -> exists gaps, collect_gaps (r0 :: rest) (r0.1, hi) 0 i = Ret gaps) as Hgaps.
  { intros i Hl. unfold collect_gaps. cbn [lookup list_lookup deref mbind outcome_bind].
    destruct (gap_loop_total (r0 :: rest) (r0.1, hi) i (S (length (r0 :: rest))) 1 r0.2
      (if sn_lt (r0.1, hi).1 r0.2 then [((r0.1, hi).1, previous r0.2)] else [])) as [[lg g] ->]; [lia..|]. cbn [mbind outcome_bind]. eauto. }
  destruct ((r0 :: rest) !! above) as [a|] eqn:Ea.
  - pose proof (lookup_lt_Some _ _ _ Ea) as Hlt. destruct (sn_le a.1 _) eqn:Ele; [done|].
    assert (0 < above)%nat as Hpos.
    { destruct above as [|n]; [|lia]. cbn in Ea. injection Ea as <-. cbn [fst] in Ele.
      rewrite sn_le_value in Ele by auto with dds. apply Z.leb_gt in Ele. lia. }
    destruct (sn_ge _ a.1); cbn [fst snd]; cbn [lookup list_lookup]; [destruct (Hgaps (S above)) as [gaps ->]|destruct (Hgaps above) as [gaps ->]];
      [lia| |lia|]; cbn [mbind outcome_bind]; intros [= <-]; by eexists.
  - apply lookup_ge_None in Ea. cbn [fst snd]. cbn [lookup list_lookup]. destruct (Hgaps above) as [gaps ->]; [cbn in *; lia|].
    cbn [mbind outcome_bind]. intros [= <-]. by eexists.
Qed.

(** ** The lowest and the highest number *)

Definition spans (seqs : list SequenceRange) (lo hi : SequenceNumber) : Prop :=
  ds_low seqs = Ret lo /\ ds_high seqs = Ret hi.

Lemma spans_valid seqs lo hi : wf seqs -> spans seqs lo hi ->
  sn_valid lo /\ sn_valid hi /\ getValue lo <= getValue hi < MAX_VALUE /\ covers seqs (getValue lo) /\ covers seqs (getValue hi) /\
  (forall v, covers seqs v -> getValue lo <= v <= getValue hi) /\
  (forall v, getValue lo <= v <= getValue (cumulative_ack seqs) -> covers seqs v) /\
  sn_valid (cumulative_ack seqs) /\ getValue lo <= getValue (cumulative_ack seqs) /\ covers seqs (getValue (cumulative_ack seqs)).
Proof.
  intros Hw [Hl Hh]. destruct seqs as [|r rest]; [done|].
  destruct (queries_correct (r :: rest) r rest eq_refl Hw) as (lo' & hi' & Hl' & Hh' & _ & Hb & Hcl & Hch & Hack & _).
  rewrite Hl in Hl'. rewrite Hh in Hh'. injection Hl' as <-. injection Hh' as <-. pose proof Hw as ((Hr1 & Hr2 & Hr3) & _). cbn in Hl. injection Hl as <-.
  assert (exists z, range_ok z /\ z.2 = hi) as (z & Hz & <-).
  { unfold ds_high in Hh. destruct (last (r :: rest)) as [z|] eqn:Ez; [|done]. cbn in Hh. injection Hh as <-. exists z. split; [|done].
    pose proof (wf_from_ok _ _ Hw) as Hf. rewrite Forall_forall in Hf. apply Hf, last_Some_elem_of, Ez. }
  pose proof Hz as (_ & Hz2 & Hz3). specialize (Hb _ Hch) as Hb'. split_and!; try done; try (cbn [cumulative_ack]; lia).
  apply Hack. cbn [cumulative_ack]. lia.
Qed.

Lemma spans_intro seqs lo hi : wf seqs -> sn_valid lo -> sn_valid hi -> covers seqs (getValue lo) -> covers seqs (getValue hi) ->
  (forall v, covers seqs v -> getValue lo <= v <= getValue hi) -> spans seqs lo hi.
Proof.
  intros Hw Hl Hh Hcl Hch Hb. destruct seqs as [|r rest]; [by apply Exists_nil in Hcl|].
  destruct (queries_correct (r :: rest) r rest eq_refl Hw) as (lo' & hi' & Hl' & Hh' & _).
  destruct (spans_valid _ _ _ Hw (conj Hl' Hh')) as (Hv1 & Hv2 & _ & Hc1 & Hc2 & Hb' & _).
  pose proof (Hb _ Hc1). pose proof (Hb _ Hc2). pose proof (Hb' _ Hcl). pose proof (Hb' _ Hch).
  assert (lo' = lo) as -> by (apply getValue_inj; [by apply sn_valid_ok..|lia]).
  assert (hi' = hi) as -> by (apply getValue_inj; [by apply sn_valid_ok..|lia]). done.
Qed.

Lemma insert_range_length seqs range changed seqs' : wf seqs -> range_ok range -> insert_range seqs range = Ret (changed, seqs') ->
  (length seqs' <= S (length seqs))%nat.
Proof.
  intros Hw Hr. unfold insert_range. destruct (insert_i_cases seqs range Hw Hr) as [(r & _ & _ & _ & ->)|(A & M & R & new & Hins & ->)];
    cbn [mbind outcome_bind]; intros [= <- <-]; [lia|]. rewrite (ins_split _ _ _ _ _ _ Hins), !length_app. cbn. lia.
Qed.

(** An insertion between the two keeps them. *)
Lemma insert_within seqs lo hi range : wf seqs -> spans seqs lo hi -> range_ok range ->
  getValue lo <= getValue range.1 -> getValue range.2 <= getValue hi ->
  exists changed seqs', insert_range seqs range = Ret (changed, seqs') /\ wf seqs' /\ spans seqs' lo hi /\
    (forall v, covers seqs' v <-> covers seqs v \/ in_range v range) /\ (length seqs' <= S (length seqs))%nat.
Proof.
  intros Hw Hs Hr Hlo Hhi. destruct (insert_range_spec seqs range Hw Hr) as (ch & seqs' & E & Hw' & Hc & _).
  destruct (spans_valid _ _ _ Hw Hs) as (Hv1 & Hv2 & _ & Hc1 & Hc2 & Hb & _).
  exists ch, seqs'. split_and!; [done|done| |done|by eapply insert_range_length].
  apply spans_intro; [done..|rewrite Hc; by left|rewrite Hc; by left|]. intros v [Hv|Hv]%Hc; [by apply Hb|]. unfold in_range in Hv. lia.
Qed.


(** ** Reassembly *)

(** Every message in reassembly has a chunk. *)
Definition has_chunks {B} (tr : TransportReassembly B) : Prop :=
  map_Forall (fun _ (l : list (FragRange B)) => l <> []) (fragments_ tr).

Section reassembly.
Context {B : Type}.
Implicit Types (l : list (FragRange B)) (tr : TransportReassembly B).

Lemma insert_chunk l r d : (insert l r d).2 <> [].
Proof.
  assert (forall (fr : FragRange B) l n, (coalesce fr l n).2 <> []) as Hco by (intros; unfold coalesce; by repeat case_match).
  destruct l as [|fr l]; cbn [insert]; [done|]. by repeat case_match; simplify_eq/=.
Qed.

Lemma set_back_more_chunk l : l <> [] -> set_back_more l <> [].
Proof. intros Hl. unfold set_back_more. destruct (last l); [|done]. intros E. by apply app_eq_nil in E as [_ ?]. Qed.

Lemma unavailable_one_total key l have dropped : l <> [] ->
  exists l' have', unavailable_one key l have dropped = Ret (l', have') /\ l' <> [].
Proof.
  intros Hl. unfold unavailable_one. destruct l as [|fr l0] eqn:El; [done|]. rewrite <- El in *. cbn [head].
  assert (head l = Some fr) as -> by (by rewrite El). cbn [deref mbind outcome_bind].
  destruct (_ && _); [eexists _, _; split; [done|apply insert_chunk]|].
  set (l2 := if fits_gap l dropped then _ else l).
  assert (l2 <> []) as H2 by (subst l2; destruct (fits_gap l dropped); [apply insert_chunk|done]).
  clearbody l2. destruct l2 as [|x l2]; [done|]. destruct (last_cons_default x l2) as [y ->]. cbn [deref mbind outcome_bind].
  destruct (sn_eq _ _); eexists _, _; (split; [done|]); [apply insert_chunk|done].
Qed.

Lemma data_unavailable_total tr dropped : has_chunks tr ->
  exists tr', data_unavailable tr dropped = Ret tr' /\ has_chunks tr'.
Proof.
  intros Hc. unfold data_unavailable.
  assert (forall kv, kv ∈ map_to_list (fragments_ tr) -> kv.2 <> []) as Hl.
  { intros [k l] Hk. apply elem_of_map_to_list in Hk. exact (Hc k l Hk). }
  revert Hl. generalize (map_to_list (fragments_ tr)) as kvs. intros kvs. revert tr Hc.
  induction kvs as [|[k l] kvs IH]; intros tr Hc Hl; cbn [foldl]; [by exists tr|].
  cbn [mbind outcome_bind fst snd]. destruct (unavailable_one_total k l (bool_decide (k ∈ have_first_ tr)) dropped) as (l' & have & -> & Hl').
  { apply (Hl (k, l)). by left. }
  cbn [mbind outcome_bind]. apply IH; [|intros kv Hkv; apply Hl; by right].
  unfold has_chunks in *. cbn [fragments_]. by apply map_Forall_insert_2.
Qed.

Lemma unavailable_all_total dropped : forall (tr : TransportReassembly B), has_chunks tr ->
  exists tr', data_unavailable_all tr dropped = Ret tr' /\ has_chunks tr'.
Proof.
  induction dropped as [|r dropped IH]; intros tr Hc; cbn [data_unavailable_all]; [by exists tr|].
  destruct (data_unavailable_total tr r Hc) as (tr' & -> & Hc'). cbn [mbind outcome_bind]. by apply IH.
Qed.

Lemma reassemble_chunks tr seq first (d : ReceivedDataSample B) : has_chunks tr -> has_chunks (reassemble tr seq first d).1.
Proof.
  intros Hc. unfold reassemble, reassemble_i, has_chunks in *. destruct (fragments_ tr !! _) as [l|]; cbn [fst fragments_].
  - pose proof (insert_chunk l (seq, seq) d) as Hi. destruct (insert l (seq, seq) d) as [ok l']. cbn [snd] in Hi.
    pose proof (map_Forall_insert_2 (fun _ (l : list (FragRange B)) => l <> []) (fragments_ tr)
      (publication_id_ (header_ d), sequence_ (header_ d)) l' Hi Hc) as Hm.
    destruct (negb ok); [done|]. destruct l' as [|fr [|fr2 l']]; [done| |done].
    destruct (_ && _); cbn [fst fragments_]; [by apply map_Forall_delete|done].
  - by apply map_Forall_insert_2.
Qed.
End reassembly.


(** ** The bodies of control samples *)

Definition sn_image (sw : bool) (x : SequenceNumber) : list Z := wire sw 4 (high_ x) ++ wire sw 4 (low_ x).
Definition range_image (sw : bool) (r : SequenceRange) : list Z := sn_image sw r.1 ++ sn_image sw r.2.
Definition nak_image (sw : bool) (peer : Z) (ranges : list SequenceRange) : list Z :=
  wire sw 4 peer ++ wire sw 4 (Z.of_nat (length ranges)) ++ concat (range_image sw <$> ranges).

(** A range both of whose numbers fit their types. *)
Definition range_valid (r : SequenceRange) : Prop := sn_ok r.1 /\ sn_ok r.2.

Section images.
Context {MB : Type} {MBo : MessageBlock MB} {MBl : MessageBlockLaws MB}.
Implicit Types (data : list MB).

(** A new block with the given content. *)
Definition holds data (image : list Z) : Prop := chain_bytes data = image /\ length data = 1%nat.

Lemma wr0_new n : wr0 1 (mk_serializer [mb_new n : MB] false ALIGN_NONE) false [] n.
Proof.
  split; try done.
  - by constructor.
  - unfold wr_out. cbn. by rewrite mb_new_bytes, app_nil_r.
  - unfold wr_space. cbn. rewrite mb_new_space. cbn. lia.
  - cbn. constructor; [apply mb_new_off|constructor].
Qed.

Lemma wr0_written (s : Serializer MB) sw out sp : wr0 1 s sw out sp -> holds (written s) out.
Proof. intros Hw. split; [apply Hw|apply (wr0_blocks _ _ _ _ _ Hw)]. Qed.

Lemma wr0_sn (s : Serializer MB) sw out sp x : wr0 1 s sw out sp -> (8 <= sp)%nat ->
  exists s', write_SequenceNumber s x = Ret s' /\ wr0 1 s' sw (out ++ sn_image sw x) (sp - 8).
Proof.
  intros Hw Hs. unfold write_SequenceNumber.
  destruct (wr0_int 4 s sw out sp (high_ x) Hw) as (s1 & -> & Hw1); [lia..|]. cbn [mbind outcome_bind].
  destruct (wr0_int 4 s1 sw _ (sp - 4) (low_ x) Hw1) as (s2 & -> & Hw2); [lia..|].
  exists s2. split; [done|]. rewrite <- app_assoc in Hw2. by replace (sp - 8)%nat with (sp - 4 - 4)%nat by lia.
Qed.

Lemma wr0_ranges ranges : forall (s : Serializer MB) sw out sp, wr0 1 s sw out sp -> (16 * length ranges <= sp)%nat ->
  exists s', write_ranges s ranges = Ret s' /\ wr0 1 s' sw (out ++ concat (range_image sw <$> ranges)) (sp - 16 * length ranges).
Proof.
  induction ranges as [|r ranges IH]; intros s sw out sp Hw Hs; cbn [write_ranges].
  { exists s. split; [done|]. cbn. by rewrite app_nil_r, Nat.sub_0_r. }
  cbn [length] in Hs. destruct (wr0_sn s sw out sp r.1 Hw) as (s1 & -> & Hw1); [lia|]. cbn [mbind outcome_bind].
  destruct (wr0_sn s1 sw _ _ r.2 Hw1) as (s2 & -> & Hw2); [lia|]. cbn [mbind outcome_bind].
  destruct (IH s2 sw _ _ Hw2) as (s3 & -> & Hw3); [lia|]. exists s3. split; [done|].
  cbn [fmap list_fmap concat length]. unfold range_image at 1. rewrite <- !app_assoc in Hw3. rewrite <- !app_assoc.
  replace (sp - 16 * S (length ranges))%nat with (sp - 8 - 8 - 16 * length ranges)%nat by lia. exact Hw3.
Qed.

Lemma peer_data_ok peer : exists data, peer_data peer = Ret data /\ holds data (wire false 4 peer).
Proof.
  unfold peer_data. destruct (wr0_int 4 _ false [] 4 peer (wr0_new 4)) as (s & -> & Hw); [lia..|].
  cbn [mbind outcome_bind]. eexists. split; [done|]. by eapply wr0_written.
Qed.

Lemma nakack_data_ok low : exists data, nakack_data low = Ret data /\ holds data (sn_image false low).
Proof.
  unfold nakack_data. destruct (wr0_sn _ false [] 8 low (wr0_new 8)) as (s & -> & Hw); [lia|].
  cbn [mbind outcome_bind]. eexists. split; [done|]. by eapply wr0_written.
Qed.

Lemma nak_data_ok peer ranges : is_u 32 (Z.of_nat (length ranges)) ->
  exists data, nak_data peer ranges = Ret data /\ holds data (nak_image false peer ranges).
Proof.
  intros Hl. unfold nak_data. rewrite uwrap_small by done. rewrite Nat2Z.id.
  set (n := (4 + 4 + length ranges * 2 * 8)%nat).
  destruct (wr0_int 4 _ false [] n peer (wr0_new n)) as (s1 & -> & Hw1); [lia..|]. cbn [mbind outcome_bind].
  destruct (wr0_int 4 s1 false _ _ (Z.of_nat (length ranges)) Hw1) as (s2 & -> & Hw2); [lia..|]. cbn [mbind outcome_bind].
  destruct (wr0_ranges ranges s2 false _ _ Hw2) as (s3 & -> & Hw3); [lia|]. cbn [mbind outcome_bind].
  eexists. split; [done|]. apply wr0_written in Hw3. unfold nak_image. by rewrite <- !app_assoc in Hw3.
Qed.

(** *** Reading *)

Lemma rd0_start control sw strm : chain_bytes control = strm -> rd0 control (mk_serializer control sw ALIGN_NONE) sw strm.
Proof. intros Hb. split; [done..|exists 0%nat; by rewrite consume_0]. Qed.

Lemma read_peer_ok (T : list MB) s sw peer rest : is_s 32 peer -> rd0 T s sw (wire sw 4 peer ++ rest) ->
  exists s', read_peer s = Ret (s', peer) /\ rd0 T s' sw rest.
Proof.
  intros Hp Hr. unfold read_peer. destruct (rd0_sint 4 s sw peer rest 0 ltac:(unfold cdr_size; lia) Hp Hr) as (s' & -> & Hr').
  cbn [mbind outcome_bind]. rewrite (rd0_good _ _ _ _ Hr'). by exists s'.
Qed.

Lemma read_ranges_ok (T : list MB) ranges : forall s sw rest, Forall range_valid ranges -> rd0 T s sw (concat (range_image sw <$> ranges) ++ rest) ->
  exists s', read_ranges (length ranges) s = Ret (s', ranges) /\ rd0 T s' sw rest.
Proof.
  induction ranges as [|r ranges IH]; intros s sw rest Hv Hr; cbn [length read_ranges]; [by exists s|].
  apply Forall_cons in Hv as [[H1 H2] Hv]. cbn [fmap list_fmap concat] in Hr. unfold range_image at 1, sn_image in Hr. rewrite <- !app_assoc in Hr.
  destruct (rd0_sn s sw r.1 _ (of_value 1) H1 Hr) as (s1 & -> & Hr1). cbn [mbind outcome_bind].
  destruct (rd0_sn s1 sw r.2 _ (of_value 1) H2 Hr1) as (s2 & -> & Hr2). cbn [mbind outcome_bind].
  destruct (IH s2 sw rest Hv Hr2) as (s3 & -> & Hr3). cbn [mbind outcome_bind]. exists s3. by destruct r.
Qed.

End images.


End MulticastLemmas.
