(* ===== verification/MulticastNaks.v ===== *)
(** * Repair requests of a reliable multicast session

    Which of the missing datagrams a NAK asks for. *)

From S2P Require Import Prelude MessageBlock SequenceNumber DisjointSequence Serializer TransportSendStrategy TransportSendBuffer DataSampleHeader TransportReassembly TransportHeader Multicast MulticastLemmas.
Import TransportSendBuffer DataSampleHeader TransportReassembly TransportHeader Multicast MulticastLemmas.

Module MulticastNaks.

(** ** The ranges that are not asked for *)

(** The high-water marks of the intervals, the newest first. *)
Definition marks (requests : list (Z * SequenceNumber)) : list Z := (fun e => getValue e.2) <$> reverse requests.

(** With [d] intervals of delay and at most [m] repetitions: [v] came to be
    missed between marks [k + 1] and [k] and this is no interval to ask again.
    Without intervals of delay the repetitions are limited only to none. *)
Definition suppressed (d m : Z) (ms : list Z) (v : Z) : Prop :=
  (d = 0 -> m = 0) /\ exists (k : nat) newer older, (1 <= k)%nat /\ ms !! k = Some newer /\ ms !! S k = Some older /\
    older < v < newer /\ (Z.of_nat k mod (d + 1) <> 0 \/ m * (d + 1) < Z.of_nat k).

(** The same from mark [i] on. *)
Fixpoint supp (d m i : Z) (l : list Z) (v : Z) : Prop :=
  match l with
  | a :: (b :: _) as rest => (b < v < a /\ (i mod (d + 1) <> 0 \/ m * (d + 1) < i)) \/ supp d m (i + 1) rest v
  | _ => False
  end.

Lemma supp_exists d m l v : forall i, supp d m i l v <->
  exists (k : nat) newer older, l !! k = Some newer /\ l !! S k = Some older /\ older < v < newer /\
    ((i + Z.of_nat k) mod (d + 1) <> 0 \/ m * (d + 1) < i + Z.of_nat k).
Proof.
  induction l as [|a l IH]; intros i; cbn [supp]; [split; [done|]; intros (k & ? & ? & Hk & _); by rewrite lookup_nil in Hk|].
  destruct l as [|b l]; [split; [done|]; intros (k & ? & ? & _ & Hk & _); by destruct k|].
  rewrite (IH (i + 1)). split.
  - intros [[Hv Hp]|(k & x & y & Hx & Hy & Hv & Hp)].
    + exists 0%nat, a, b. split_and!; [done|done|lia..|]. by rewrite Z.add_0_r.
    + exists (S k), x, y. split_and!; [done|done|lia..|].
      by replace (i + Z.of_nat (S k)) with (i + 1 + Z.of_nat k) by lia.
  - intros (k & x & y & Hx & Hy & Hv & Hp). destruct k as [|k].
    + left. cbn in Hx, Hy. simplify_eq. rewrite Z.add_0_r in Hp. done.
    + right. exists k, x, y. split_and!; [done|done|lia..|].
      by replace (i + 1 + Z.of_nat k) with (i + Z.of_nat (S k)) by lia.
Qed.

Lemma suppressed_supp d m a l v : suppressed d m (a :: l) v <-> (d = 0 -> m = 0) /\ supp d m 1 l v.
Proof.
  rewrite supp_exists. unfold suppressed. apply and_iff_compat_l. split.
  - intros (k & x & y & Hk & Hx & Hy & Hv & Hp). destruct k as [|k]; [lia|]. exists k, x, y.
    split_and!; [done|done|lia..|]. by replace (1 + Z.of_nat k) with (Z.of_nat (S k)) by lia.
  - intros (k & x & y & Hx & Hy & Hv & Hp). exists (S k), x, y.
    split_and!; [lia|done|done|lia..|]. by replace (Z.of_nat (S k)) with (1 + Z.of_nat k) by lia.
Qed.

(** Marks that do not increase with their age. *)
Definition aging (l : list Z) : Prop := StronglySorted (fun a b => b <= a) l.

(** Between two marks there are two neighbours. *)
Lemma supp_all d m i a l v : aging (a :: l) -> v ∉ a :: l -> m * (d + 1) < i ->
  supp d m i (a :: l) v <-> exists z, last (a :: l) = Some z /\ z < v < a.
Proof.
  revert i a. induction l as [|b l IH]; intros i a Ha Hv Hi.
  { cbn. split; [done|]. intros (z & [= <-] & ?). lia. }
  apply StronglySorted_inv in Ha as [Ha Hab]. apply Forall_cons in Hab as [Hab _]. apply not_elem_of_cons in Hv as [Hva Hv].
  change (supp d m i (a :: b :: l) v) with ((b < v < a /\ (i mod (d + 1) <> 0 \/ m * (d + 1) < i)) \/ supp d m (i + 1) (b :: l) v).
  rewrite (IH (i + 1) b Ha Hv) by lia. change (last (a :: b :: l)) with (last (b :: l)).
  assert (v <> b) by (intros ->; apply Hv; by left).
  destruct (last_cons_default b l) as [z Hz]. rewrite Hz.
  assert (z <= b) as Hzb.
  { apply StronglySorted_inv in Ha as [_ Ha]. destruct l as [|c l]; [cbn in Hz; simplify_eq; lia|].
    rewrite Forall_forall in Ha. apply Ha. apply last_Some_elem_of. done. }
  split.
  - intros [[? _]|(? & [= <-] & ?)]; exists z; (split; [done|lia]).
  - intros (? & [= <-] & ?). destruct (Z.lt_ge_cases b v); [left; split; [lia|by right]|right; exists z; split; [done|lia]].
Qed.
(** ** The loop over the marks *)

Definition mark_ok (x : SequenceNumber) : Prop := sn_valid x /\ 2 <= getValue x.

Lemma mark_some x : mark_ok x -> sn_ne x (of_value 1) = true.
Proof.
  intros [Hv Hx]. rewrite sn_ne_negb, sn_eq_value by (auto with dds || by vm_compute). apply negb_true_iff, Z.eqb_neq.
  change (getValue (of_value 1)) with 1. lia.
Qed.

(** The ranges of [ignored_ranges], with the one still open after the loop. *)
Definition close_range (x : SequenceNumber * SequenceNumber * list SequenceRange) : list SequenceRange :=
  let '(first, second, ignored) := x in
  if sn_ne first (of_value 1) && sn_ne second (of_value 1) && sn_ne first second then ignored ++ [(first, second)] else ignored.

Lemma close_none second ignored : close_range (of_value 1, second, ignored) = ignored.
Proof. done. Qed.

Lemma covers_snoc l r v : covers (l ++ [r]) v <-> covers l v \/ in_range v r.
Proof.
  assert (covers [] v <-> False) as Hn by apply Exists_nil. rewrite covers_app, covers_cons, Hn. tauto.
Qed.

Lemma close_some p second ignored v : mark_ok p -> mark_ok second -> v <> getValue p ->
  covers (close_range (p, second, ignored)) v <-> covers ignored v \/ in_range v (p, second).
Proof.
  intros Hp Hs Hv. unfold close_range. rewrite (mark_some p Hp), (mark_some second Hs). cbn [andb].
  rewrite sn_ne_negb, sn_eq_value by (apply sn_valid_ok; apply Hp || apply Hs). destruct (Z.eqb_spec (getValue p) (getValue second)) as [E|E]; cbn [negb].
  - unfold in_range. cbn [fst snd]. rewrite <- E. split; [auto|]. intros [?|?]; [done|lia].
  - apply covers_snoc.
Qed.

Lemma mod_start d i : 1 <= d -> (i - 1) mod (d + 1) = 0 -> i mod (d + 1) = 1.
Proof.
  intros Hd Hi. replace i with (i - 1 + 1) by lia. rewrite <- Z.add_mod_idemp_l, Hi by lia. rewrite Z.add_0_l. apply Z.mod_small. lia.
Qed.

Lemma mod_inside d i : 1 <= d -> (i - 1) mod (d + 1) <> 0 -> i mod (d + 1) <> 1.
Proof.
  intros Hd Hi Hm. apply Hi. rewrite Zminus_mod, Hm, (Z.mod_small 1) by lia. by rewrite Z.sub_diag, Z.mod_0_l by lia.
Qed.

Lemma mod_limit d m i : 1 <= d -> (i - 1) mod (d + 1) <> 0 -> i - 1 <= m * (d + 1) -> i <= m * (d + 1).
Proof. intros Hd Hi Hm. destruct (Z.eq_dec (i - 1) (m * (d + 1))) as [E|]; [|lia]. rewrite E, Z.mod_mul in Hi by lia. done. Qed.

Section loop.
Context (d m : Z) (oldest : SequenceNumber) (v : Z) (Hd : 1 <= d).

Abbreviation vals l := ((fun e : Z * SequenceNumber => getValue e.2) <$> l).

(** From the start of a group, and inside of a group whose last mark is [p] and
    whose first is [second]. *)
Lemma ignore_loop_spec l : Forall (fun e => mark_ok e.2) l -> (l <> [] -> last (vals l) = Some (getValue oldest)) -> aging (vals l) -> v ∉ vals l ->
  (forall i ignored, (i - 1) mod (d + 1) = 0 ->
    covers (close_range (ignore_loop d m oldest l i (of_value 1) (of_value 1) ignored)) v <-> covers ignored v \/ supp d m i (vals l) v) /\
  (forall i p second ignored, (i - 1) mod (d + 1) <> 0 -> i - 1 <= m * (d + 1) -> mark_ok p -> mark_ok second ->
    getValue p <= getValue second -> Forall (fun x => x <= getValue p) (vals l) -> v <> getValue p ->
    covers (close_range (ignore_loop d m oldest l i p second ignored)) v <->
      covers ignored v \/ in_range v (p, second) \/ supp d m (i - 1) (getValue p :: vals l) v).
Proof.
  induction l as [|e l IH]; intros Hok Hlast Ha Hv.
  { split; intros; cbn [ignore_loop]; [rewrite close_none; cbn; tauto|]. rewrite close_some by done. cbn. tauto. }
  apply Forall_cons in Hok as [He Hok]. cbn [fmap list_fmap] in *. pose proof Ha as Ha'. apply StronglySorted_inv in Ha' as [Hal Hle].
  apply not_elem_of_cons in Hv as [Hve Hv].
  destruct IH as [IHA IHB]; [done| |done|done|].
  { intros Hl. specialize (Hlast ltac:(done)). destruct l as [|e2 l]; done. }
  specialize (Hlast ltac:(done)). split.
  - intros i ignored Hi. cbn [ignore_loop]. destruct (Z.ltb_spec (m * (d + 1)) i) as [Hm|Hm].
    + change (sn_ne (of_value 1) (of_value 1)) with false. cbn iota. rewrite close_none, covers_snoc.
      rewrite (supp_all d m i (getValue e.2) (vals l) v) by (done || by apply not_elem_of_cons). unfold in_range. cbn [fst snd].
      assert (v <> getValue oldest).
      { intros ->. apply last_Some_elem_of, elem_of_cons in Hlast as [?|?]; done. }
      rewrite Hlast. split; (intros [?|Hx]; [by left|right]); [exists (getValue oldest); split; [done|lia]|].
      destruct Hx as (? & [= <-] & ?). lia.
    + rewrite (mod_start d i Hd Hi). change (1 =? 1) with true. change (1 =? 0) with false. cbn iota. rewrite (mark_some _ He).
      rewrite (IHB (i + 1) e.2 e.2 ignored); [|rewrite Z.add_simpl_r, (mod_start d i Hd Hi); done|lia|done|done|lia|done|done].
      rewrite Z.add_simpl_r. unfold in_range. cbn [fst snd]. split; [|tauto]. intros [?|[?|?]]; [by left|lia|by right].
  - intros i p second ignored Hi Him Hp Hs Hps Hlp Hvp. pose proof (mod_limit d m i Hd Hi Him) as Hlim.
    apply Forall_cons in Hlp as [Hep Hlp]. cbn [ignore_loop]. destruct (Z.ltb_spec (m * (d + 1)) i); [lia|].
    rewrite (proj2 (Z.eqb_neq _ _) (mod_inside d i Hd Hi)), (mark_some _ Hs).
    change (supp d m (i - 1) (getValue p :: getValue e.2 :: vals l) v) with
      ((getValue e.2 < v < getValue p /\ ((i - 1) mod (d + 1) <> 0 \/ m * (d + 1) < i - 1)) \/ supp d m (i - 1 + 1) (getValue e.2 :: vals l) v).
    rewrite Z.sub_add. destruct (Z.eqb_spec (i mod (d + 1)) 0) as [H0|H0].
    + rewrite (mark_some _ He). cbn [andb]. rewrite (IHA (i + 1)) by (by rewrite Z.add_simpl_r). rewrite covers_snoc. unfold in_range. cbn [fst snd].
      assert (supp d m i (getValue e.2 :: vals l) v <-> supp d m (i + 1) (vals l) v) as ->.
      { destruct l as [|e2 l]; [done|]. cbn [fmap list_fmap]. change (supp d m i (getValue e.2 :: getValue e2.2 :: vals l) v) with
          ((getValue e2.2 < v < getValue e.2 /\ (i mod (d + 1) <> 0 \/ m * (d + 1) < i)) \/ supp d m (i + 1) (getValue e2.2 :: vals l) v).
        split; [|tauto]. intros [[_ [?|?]]|?]; [done|lia|done]. }
      split; [intros [[?|?]|?]; [tauto| |tauto]|intros [?|[?|[[? _]|?]]]; [tauto|left; right; lia|left; right; lia|tauto]].
      destruct (Z.lt_ge_cases v (getValue p)); [right; right; left; split; [lia|tauto]|right; left; lia].
    + rewrite (IHB (i + 1) e.2 second ignored); [|by rewrite Z.add_simpl_r|lia|done|done|lia|done|done].
      rewrite Z.add_simpl_r. unfold in_range. cbn [fst snd].
      split; [intros [?|[?|?]]; [tauto| |tauto]|intros [?|[?|[[? _]|?]]]; [tauto|right; left; lia|right; left; lia|tauto]].
      destruct (Z.lt_ge_cases v (getValue p)); [right; right; left; split; [lia|tauto]|right; left; lia].
Qed.
End loop.

(** Without intervals of delay. *)
Lemma ignore_none m oldest l : Forall (fun e => mark_ok e.2) l -> forall i first, (m < i -> sn_ne first (of_value 1) = true) ->
  close_range (ignore_loop 0 m oldest l i first (of_value 1) []) = [].
Proof.
  intros Hl. induction Hl as [|e l He Hl IH]; intros i first Hf; cbn [ignore_loop].
  { unfold close_range. change (sn_ne (of_value 1) (of_value 1)) with false. by rewrite andb_false_r. }
  change (0 + 1) with 1. rewrite Z.mul_1_r, Z.mod_1_r. change (0 =? 1) with false. change (0 =? 0) with true. cbn iota.
  change (sn_ne (of_value 1) (of_value 1)) with false. rewrite andb_false_r. destruct (Z.ltb_spec m i) as [Hm|Hm].
  - rewrite (Hf Hm). unfold close_range. change (sn_ne (of_value 1) (of_value 1)) with false. by rewrite andb_false_r.
  - apply IH. intros _. by apply mark_some.
Qed.

Lemma ignore_zero m oldest l v : 0 <= m -> Forall (fun e => mark_ok e.2) l ->
  let vals := (fun e : Z * SequenceNumber => getValue e.2) <$> l in
  (l <> [] -> last vals = Some (getValue oldest)) -> aging vals -> v ∉ vals ->
  covers (close_range (ignore_loop 0 m oldest l 1 (of_value 1) (of_value 1) [])) v <-> m = 0 /\ supp 0 m 1 vals v.
Proof.
  intros Hm Hl vals Hlast Ha Hv. assert (covers [] v <-> False) as Hn by apply Exists_nil.
  destruct (Z.eq_dec m 0) as [->|Hm0]; [|rewrite ignore_none, Hn by (done || lia); split; [done|tauto]].
  destruct l as [|e l]; [cbn; rewrite Hn; tauto|]. specialize (Hlast ltac:(done)). cbn [ignore_loop].
  change (0 * (0 + 1) <? 1) with true. change (sn_ne (of_value 1) (of_value 1)) with false. cbn iota. rewrite close_none. subst vals. cbn [fmap list_fmap] in *.
  rewrite (covers_snoc [] _ v), Hn, (supp_all 0 0 1) by (done || lia). unfold in_range. cbn [fst snd].
  assert (v <> getValue oldest) by (intros ->; by apply Hv, last_Some_elem_of). assert (v <> getValue e.2) by (intros ->; by apply Hv; left).
  rewrite Hlast. split; [intros [[]|?]; split; [done|]; exists (getValue oldest); split; [done|lia]|].
  intros [_ (? & [= <-] & ?)]. right. lia.
Qed.


(** The requests of a session: times and marks ascend together. *)
Record requests_ok (requests : list (Z * SequenceNumber)) : Prop := mkRO {
  ro_sorted : StronglySorted (fun a b => a.1 < b.1 /\ getValue a.2 <= getValue b.2) requests;
  ro_marks : Forall (fun e => mark_ok e.2) requests }.

Lemma reverse_sorted requests : requests_ok requests -> StronglySorted (fun a b => getValue b.2 <= getValue a.2) (reverse requests).
Proof.
  intros [Hs _]. induction Hs as [|e l Hs IH He]; [constructor|]. rewrite reverse_cons. apply StronglySorted_app. split_and!; [|done|by repeat constructor].
  intros x y Hx Hy%list_elem_of_singleton. subst y. rewrite elem_of_reverse in Hx. rewrite Forall_forall in He. specialize (He x Hx). lia.
Qed.

Lemma vals_aging (l : list (Z * SequenceNumber)) : StronglySorted (fun a b => getValue b.2 <= getValue a.2) l -> aging ((fun e => getValue e.2) <$> l).
Proof.
  induction 1 as [|e l Hs IH He]; [constructor|]. cbn. constructor; [done|]. apply Forall_fmap. eapply Forall_impl; [exact He|]. done.
Qed.

Section ranges.
Context (d m hi : Z) (oldest : SequenceNumber) (Hhi : hi < MAX_VALUE).

Definition below (x : SequenceNumber) : Prop := mark_ok x /\ getValue x <= hi.
Definition good_range (r : SequenceRange) : Prop := range_ok r /\ getValue r.2 <= hi.

Lemma below_range a b : below a -> below b -> getValue a <= getValue b -> good_range (a, b).
Proof. intros [[Ha _] _] [[Hb _] ?] Hab. split; [|done]. split_and!; cbn; [done|done|lia..]. Qed.

(** Every range of the result ends at marks, in order. *)
Lemma ignore_loop_good l : Forall (fun e => below e.2) l -> (l <> [] -> below oldest /\ Forall (fun e => getValue oldest <= getValue e.2) l) ->
  StronglySorted (fun a b => getValue b.2 <= getValue a.2) l ->
  forall i first second ignored, Forall good_range ignored ->
  (first = of_value 1 \/ below first /\ (second = of_value 1 \/ getValue first <= getValue second)) ->
  (second = of_value 1 \/ below second /\ Forall (fun e => getValue e.2 <= getValue second) l) ->
  Forall good_range (close_range (ignore_loop d m oldest l i first second ignored)).
Proof.
  assert (forall first second ignored, Forall good_range ignored -> (second = of_value 1 \/ below second) ->
    (first = of_value 1 \/ below first /\ (second = of_value 1 \/ getValue first <= getValue second)) ->
    Forall good_range (close_range (first, second, ignored))) as Hclose.
  { intros first second ignored Hi Hs Hf. unfold close_range. destruct (sn_ne first (of_value 1)) eqn:E1; [|done].
    destruct (sn_ne second (of_value 1)) eqn:E2; [|done]. cbn [andb]. destruct (sn_ne first second); [|done].
    destruct Hs as [->|Hs]; [done|]. destruct Hf as [->|[Hf [->|Hfs]]]; [done|done|].
    apply Forall_app. split; [done|]. repeat constructor; by apply below_range. }
  induction l as [|e l IH]; intros Hl Ho Ha i first second ignored Hi Hf Hs; cbn [ignore_loop].
  { apply Hclose; [done|tauto|done]. }
  apply Forall_cons in Hl as [He Hl]. destruct (Ho ltac:(done)) as [Hob Hol]. apply Forall_cons in Hol as [Hoe Hol].
  apply StronglySorted_inv in Ha as [Ha Hea]. specialize (IH Hl (fun _ => conj Hob Hol) Ha). destruct (m * (d + 1) <? i).
  { destruct (sn_ne first _) eqn:E1.
    - apply Hclose; [done|tauto|]. right. split; [done|]. destruct Hs as [?|[_ Hs]]; [by left|right]. apply Forall_cons in Hs as [? _]. lia.
    - apply Hclose; [|tauto|done]. apply Forall_app. split; [done|]. repeat constructor; by apply below_range. }
  set (second' := if i mod (d + 1) =? 1 then e.2 else second).
  assert (second' = of_value 1 \/ below second' /\ getValue e.2 <= getValue second' /\ Forall (fun e => getValue e.2 <= getValue second') l) as Hs'.
  { subst second'. destruct (_ =? 1); [right; split_and!; [done|lia|done]|]. destruct Hs as [?|[Hb Hs]]; [by left|right].
    apply Forall_cons in Hs as [? ?]. done. }
  assert (second' = of_value 1 \/ below second' /\ Forall (fun e => getValue e.2 <= getValue second') l) as Hs2 by tauto.
  assert (below e.2 /\ (second' = of_value 1 \/ getValue e.2 <= getValue second')) as He2 by tauto.
  set (first' := if sn_ne second' (of_value 1) then e.2 else first).
  assert (first' = of_value 1 \/ below first' /\ (second' = of_value 1 \/ getValue first' <= getValue second')) as Hf'.
  { subst first'. destruct (sn_ne second' _) eqn:E; [by right|]. rewrite sn_ne_negb, negb_false_iff, sn_eq_true in E. destruct Hf as [?|[? _]]; tauto. }
  destruct (i mod (d + 1) =? 0); [|by apply IH]. destruct (_ && _) eqn:E; [|apply IH; tauto].
  apply andb_true_iff in E as [_ E]. apply IH; [|by left|by left]. apply Forall_app. split; [done|].
  destruct Hs' as [Hn|(Hb & Hle & _)]; [by rewrite Hn in E|]. repeat constructor; by apply below_range.
Qed.
End ranges.

Lemma ignored_ranges_close d m requests : ignored_ranges d m requests = match requests, reverse requests with
  | oldest :: _ :: _, _ :: older => close_range (ignore_loop d m oldest.2 older 1 (of_value 1) (of_value 1) [])
  | _, _ => [] end.
Proof.
  unfold ignored_ranges. destruct requests as [|o [|x l]]; [done|done|]. destruct (reverse (o :: x :: l)); [done|].
  destruct (ignore_loop _ _ _ _ _ _ _ _) as [[f s] ig]. done.
Qed.

(** The newest mark and the others, with the oldest of them. *)
Lemma requests_split requests oldest x l newest older : requests_ok requests -> requests = oldest :: x :: l -> reverse requests = newest :: older ->
  older <> [] /\ last older = Some oldest /\ (forall e, e ∈ older -> e ∈ requests) /\ StronglySorted (fun a b => getValue b.2 <= getValue a.2) older.
Proof.
  intros Hok E Er. assert (last older = Some oldest /\ older <> []) as [Hlast Hne].
  { pose proof (f_equal last Er) as Hl. rewrite E, !reverse_cons, last_snoc in Hl. destruct older as [|y older]; [|done].
    apply (f_equal length) in Er. rewrite E, length_reverse in Er. done. }
  split_and!; [done|done| |].
  - intros e He. apply elem_of_reverse. rewrite Er. by right.
  - pose proof (reverse_sorted _ Hok) as Hs. rewrite Er in Hs. by apply StronglySorted_inv in Hs as [? _].
Qed.

Lemma ignored_ranges_good d m requests hi : requests_ok requests -> hi < MAX_VALUE -> Forall (fun e => getValue e.2 <= hi) requests -> Forall (good_range hi) (ignored_ranges d m requests).
Proof.
  intros Hok Hhi Hle. rewrite ignored_ranges_close. destruct requests as [|oldest [|x l]] eqn:E; [constructor..|]. rewrite <- E in *.
  destruct (reverse requests) as [|newest older] eqn:Er; [constructor|].
  destruct (requests_split _ _ _ _ _ _ Hok E Er) as (_ & Hlast & Hin & Hs).
  assert (Forall (fun e => below hi e.2) older) as Hb.
  { apply Forall_forall. intros e He%Hin. split; [exact (proj1 (Forall_forall _ _) (ro_marks _ Hok) e He)|exact (proj1 (Forall_forall _ _) Hle e He)]. }
  apply ignore_loop_good; [done|done| |done|constructor|by left|by left].
  intros _. pose proof (last_Some_elem_of _ _ Hlast) as Hel. split; [exact (proj1 (Forall_forall _ _) Hb _ Hel)|].
  apply Forall_forall. intros e He. apply last_Some in Hlast as [front ->]. apply elem_of_app in He as [He| ->%list_elem_of_singleton]; [|lia].
  apply StronglySorted_app in Hs as (Hs & _). apply (Hs e oldest He). by left.
Qed.

(** On numbers that are not marks the ignored ranges are what is suppressed. *)
Lemma ignored_ranges_spec d m requests v : requests_ok requests -> 0 <= d -> 0 <= m -> v ∉ marks requests -> covers (ignored_ranges d m requests) v <-> suppressed d m (marks requests) v.
Proof.
  intros Hok Hd Hm Hv. rewrite ignored_ranges_close. unfold marks in *. assert (covers [] v <-> False) as Hn by apply Exists_nil.
  assert ((length requests <= 1)%nat -> ~ suppressed d m ((fun e => getValue e.2) <$> reverse requests) v) as Hfew.
  { intros Hl [_ (k & x & y & Hk & _ & Hy & _)]. apply lookup_lt_Some in Hy. rewrite length_fmap, length_reverse in Hy. lia. }
  destruct requests as [|oldest [|x l]] eqn:E; [rewrite Hn; split; [done|]; intros Hs; apply Hfew; [cbn; lia|done]..|].
  rewrite <- E in *. destruct (reverse requests) as [|newest older] eqn:Er; [by apply (f_equal length) in Er; rewrite length_reverse, E in Er|].
  destruct (requests_split _ _ _ _ _ _ Hok E Er) as (Hne & Hlast & Hin & Hs). cbn [fmap list_fmap] in *. rewrite suppressed_supp.
  apply not_elem_of_cons in Hv as [_ Hv].
  assert (Forall (fun e => mark_ok e.2) older) as Hmk.
  { apply Forall_forall. intros e He%Hin. exact (proj1 (Forall_forall _ _) (ro_marks _ Hok) e He). }
  assert (older <> [] -> last ((fun e => getValue e.2) <$> older) = Some (getValue oldest.2)) as Hl by (intros _; by rewrite fmap_last, Hlast).
  destruct (Z.eq_dec d 0) as [->|Hd0].
  - rewrite (ignore_zero m oldest.2 older v) by (done || by apply vals_aging). tauto.
  - destruct (ignore_loop_spec d m oldest.2 v ltac:(lia) older) as [HA _]; [done|done|by apply vals_aging|done|].
    rewrite HA by (by rewrite Z.sub_diag, Z.mod_0_l by lia). rewrite Hn. tauto.
Qed.

(** ** What is asked for *)

Lemma suppress_spec ignored : forall received lo hi, wf received -> spans received lo hi -> Forall (good_range (getValue hi)) ignored ->
  exists received', suppress received ignored = Ret received' /\ wf received' /\ spans received' lo hi /\
    (forall v, getValue lo <= v -> covers received' v <-> covers received v \/ covers ignored v) /\
    (length received' <= length received + length ignored)%nat.
Proof.
  induction ignored as [|r ignored IH]; intros received lo hi Hw Hs Hg; cbn [suppress].
  { exists received. split_and!; [done..| |lia]. intros v _. assert (covers [] v <-> False) as -> by apply Exists_nil. tauto. }
  apply Forall_cons in Hg as [[(Hr1 & Hr2 & Hr3) Hrh] Hg].
  destruct (spans_valid _ _ _ Hw Hs) as (Hvl & Hvh & Hlh & Hcl & Hch & Hb & Hack & Hva & Hla & Hca).
  set (ack := cumulative_ack received) in *.
  assert (exists received1, (if sn_gt r.2 ack then
      '(_, received) ← insert_range received (if sn_lt r.1 ack then ack else r.1, r.2); Ret received else Ret received) = Ret received1 /\
    wf received1 /\ spans received1 lo hi /\ (forall v, getValue lo <= v -> covers received1 v <-> covers received v \/ in_range v r) /\
    (length received1 <= S (length received))%nat) as (received1 & E1 & Hw1 & Hs1 & Hc1 & Hl1).
  { rewrite sn_gt_value, sn_lt_value by auto using sn_valid_ok with dds. destruct (Z.ltb_spec (getValue ack) (getValue r.2)) as [Hlt|Hge].
    - set (low := if getValue r.1 <? getValue ack then ack else r.1).
      assert (sn_valid low /\ getValue low = Z.max (getValue r.1) (getValue ack)) as [Hlow Elow].
      { subst low. destruct (Z.ltb_spec (getValue r.1) (getValue ack)); split; try done; lia. }
      destruct (insert_within received lo hi (low, r.2) Hw Hs) as (ch & received1 & E & Hw1 & Hs1 & Hc1 & Hl1).
      + split_and!; cbn; [done|done|lia..].
      + cbn. lia.
      + done.
      + exists received1. rewrite E. cbn [mbind outcome_bind]. split_and!; [done..| |done]. intros v Hv. rewrite Hc1. unfold in_range. cbn [fst snd]. rewrite Elow.
        specialize (Hack v). split; [intros [?|?]; [by left|right; lia]|]. intros [?|?]; [by left|].
        destruct (Z.lt_ge_cases v (getValue ack)); [left; apply Hack; lia|right; lia].
    - exists received. split_and!; [done..| |lia]. intros v Hv. unfold in_range. specialize (Hack v).
      split; [by left|]. intros [?|?]; [done|]. apply Hack. lia. }
  fold ack. rewrite E1. cbn [mbind outcome_bind]. destruct (IH received1 lo hi Hw1 Hs1 Hg) as (received' & -> & Hw' & Hs' & Hc' & Hl').
  exists received'. split_and!; [done..| |cbn; lia]. intros v Hv. rewrite Hc', Hc1, covers_cons by done. tauto.
Qed.

Lemma requests_set_last now high requests : StronglySorted (fun a b : Z * SequenceNumber => a.1 < b.1 /\ getValue a.2 <= getValue b.2) requests ->
  Forall (fun e => e.1 <= now) requests ->
  exists older, requests_set now high requests = older ++ [(now, high)] /\ older `prefix_of` requests /\
    Forall (fun e => e.1 < now) older.
Proof.
  induction 1 as [|[t x] l Hs IH He]; intros Hn; cbn [requests_set]; [exists []; split_and!; [done|by exists []|constructor]|].
  apply Forall_cons in Hn as [Ht Hn]. cbn in Ht. destruct (Z.ltb_spec now t); [lia|]. destruct (Z.eqb_spec now t) as [->|].
  - destruct l as [|[t' x'] l]; [exists []; split_and!; [done|by eexists|constructor]|].
    apply Forall_cons in He as [[He _] _]. apply Forall_cons in Hn as [Hn _]. cbn in *. lia.
  - destruct (IH Hn) as (older & -> & [k ->] & Hlt). exists ((t, x) :: older). split_and!; [done|by eexists|]. constructor; [cbn; lia|done].
Qed.

Lemma requests_set_ok now high requests : requests_ok requests -> Forall (fun e => e.1 <= now) requests -> mark_ok high ->
  Forall (fun e => getValue e.2 <= getValue high) requests -> requests_ok (requests_set now high requests) /\
  (forall e, e ∈ requests_set now high requests -> e ∈ requests \/ e = (now, high)) /\ (length (requests_set now high requests) <= S (length requests))%nat.
Proof.
  intros [Hs Hm] Hn Hh Hle. destruct (requests_set_last now high requests Hs Hn) as (older & -> & [k ->] & Hlt).
  apply Forall_app in Hm as [Hm _]. apply Forall_app in Hle as [Hle _]. apply StronglySorted_app in Hs as (_ & Hs & _). split_and!.
  - split; [|apply Forall_app; split; [done|by apply Forall_singleton]]. apply StronglySorted_app. split_and!; [|done|by repeat constructor].
    intros a b Ha Hb%list_elem_of_singleton. subst b. rewrite Forall_forall in Hlt, Hle. cbn. specialize (Hlt a Ha). specialize (Hle a Ha). lia.
  - intros e [He|He%list_elem_of_singleton]%elem_of_app; [left; apply elem_of_app; by left|by right].
  - rewrite !length_app. cbn. lia.
Qed.

Lemma missing_length seqs : (length (missing_sequence_ranges seqs) <= length seqs)%nat.
Proof.
  assert (forall rest r, (length (missing_loop r rest) <= length rest)%nat) as Hl.
  { induction rest as [|x rest IH]; intros r; cbn [missing_loop]; [done|]. rewrite length_app. specialize (IH x). case_match; cbn; lia. }
  unfold missing_sequence_ranges. destruct (disjoint seqs); [|cbn; lia]. destruct seqs as [|r rest]; [done|]. specialize (Hl rest r). cbn. lia.
Qed.

Lemma disjoint_missing seqs : wf seqs -> disjoint seqs = bool_decide (missing_sequence_ranges seqs <> []).
Proof.
  intros Hw. unfold missing_sequence_ranges. destruct (disjoint seqs) eqn:Hd; [|done]. symmetry. apply bool_decide_eq_true.
  destruct seqs as [|r [|x rest]]; [done|done|]. destruct Hw as (Hr & _ & Hx & Hlt & _). cbn [missing_loop].
  rewrite sn_le_value by (apply sn_valid_ok; first [apply next_valid, Hr|apply previous_ok, Hx]).
  destruct Hr as (_ & Hr2 & Hr3). destruct Hx as (Hx1 & Hx2 & Hx3).
  rewrite getValue_next, getValue_previous by auto with dds. rewrite (proj2 (Z.eqb_neq _ _)) by lia.
  rewrite (proj2 (Z.eqb_neq (getValue x.1) _)) by (destruct Hr2; unfold MIN_VALUE in *; lia). rewrite (proj2 (Z.leb_le _ _)) by lia. done.
Qed.


(** ** Sessions *)

Section sessions.
Context {MB : Type} {MBo : MessageBlock MB} {MBl : MessageBlockLaws MB}.
Implicit Types (L : SessionLink MB) (s : MulticastSession MB) (r : ReliablePart).

(** The invariant of the part of a reliable session. *)
Record part_ok r : Prop := mkPO {
  po_sequence : wf (nak_sequence_ r);
  po_requests : requests_ok (nak_requests_ r);
  po_marks : Forall (fun e => covers (nak_sequence_ r) (getValue e.2)) (nak_requests_ r);
  po_peers : Forall range_ok (nak_peers_ r) }.

(** The number of ranges of a NAK fits its field. *)
Definition countable_gaps r : Prop :=
  Z.of_nat (length (nak_sequence_ r) + length (nak_requests_ r) + length (nak_peers_ r)) < 2 ^ 32 - 1.

Lemma suppress_peers_spec peers : forall received, wf received -> Forall range_ok peers ->
  exists received', suppress_peers received peers = Ret received' /\ wf received' /\ (length received' <= length received + length peers)%nat.
Proof.
  induction peers as [|p peers IH]; intros received Hw Hp; cbn [suppress_peers]; [exists received; split_and!; [done..|lia]|].
  apply Forall_cons in Hp as [Hp Hps]. destruct (insert_range_spec received p Hw Hp) as (ch & received1 & E & Hw1 & _).
  pose proof (insert_range_length _ _ _ _ Hw Hp E) as Hl. rewrite E. cbn [mbind outcome_bind].
  destruct (IH received1 Hw1 Hps) as (received' & -> & Hw' & Hl'). exists received'. split_and!; [done..|cbn; lia].
Qed.

(** The calls of a session that asks for [ranges]. *)
Definition asks (peer : Z) (ranges : list SequenceRange) (acts : list (Action MB)) : Prop :=
  match ranges with
  | [] => acts = []
  | _ => exists data, acts = [send_control MULTICAST_NAK data] /\ holds data (nak_image false peer ranges)
  end.

Lemma ignored_length d m requests : (length (ignored_ranges d m requests) <= length requests)%nat.
Proof.
  assert (forall l oldest i first second ignored, (length (close_range (ignore_loop d m oldest l i first second ignored)) <= length ignored + length l + 1)%nat) as Hl.
  { assert (forall f x ig, (length (close_range (f, x, ig)) <= length ig + 1)%nat) as Hc.
    { intros f x ig. unfold close_range. destruct (_ && _); [rewrite length_app; cbn|]; lia. }
    induction l as [|e l IH]; intros oldest i first second ignored; cbn [ignore_loop length]; [specialize (Hc first second ignored); lia|].
    repeat case_match; (etrans; [apply Hc || apply IH|]); rewrite ?length_app; cbn [length]; lia. }
  rewrite ignored_ranges_close. destruct requests as [|o [|x l]] eqn:E; [cbn; lia..|]. rewrite <- E. destruct (reverse requests) as [|n older] eqn:Er; [cbn; lia|].
  etrans; [apply Hl|]. apply (f_equal length) in Er. rewrite length_reverse in Er. rewrite Er. cbn. lia.
Qed.

Lemma send_naks_spec L now s r lo hi :
  part_ok r -> acked_ s = true -> disjoint (nak_sequence_ r) = true -> spans (nak_sequence_ r) lo hi ->
  Forall (fun e => e.1 <= now) (nak_requests_ r) -> countable_gaps r ->
  let requests := requests_set now hi (nak_requests_ r) in
  let r' := mkRP (nak_watchdog_ r) (nak_sequence_ r) requests [] in
  exists received acts, send_naks L now s r = Ret (set_kind (Reliable r') s, acts) /\ part_ok r' /\ wf received /\
    asks (remote_peer_ s) (missing_sequence_ranges received) acts /\ is_u 32 (Z.of_nat (length (missing_sequence_ranges received))) /\
    (nak_peers_ r = [] -> spans received lo hi /\ forall v, getValue lo <= v -> covers received v <->
       covers (nak_sequence_ r) v \/ covers (ignored_ranges (nak_delay_intervals_ (config_ L)) (nak_max_ (config_ L)) requests) v).
Proof.
  intros [Hw Hr Hm Hp] Ha Hd Hs Hn Hc requests r'. unfold send_naks. rewrite Ha, Hd. cbn [negb]. rewrite (proj2 Hs). cbn [mbind outcome_bind].
  destruct (spans_valid _ _ _ Hw Hs) as (Hvl & Hvh & Hlh & Hcl & Hch & Hb & _).
  assert (mark_ok hi) as Hmh.
  { split; [done|]. clear -Hw Hb Hd Hvl. destruct (nak_sequence_ r) as [|r0 [|r1 rest]]; [done|done|].
    destruct Hw as ((? & ? & ?) & ? & (? & ? & ?) & ? & _). assert (covers (r0 :: r1 :: rest) (getValue r1.2)) as Hx.
    { apply covers_cons. right. apply covers_cons. left. unfold in_range. lia. }
    apply Hb in Hx. destruct Hvl. unfold MIN_VALUE in *. lia. }
  assert (Forall (fun e => getValue e.2 <= getValue hi) (nak_requests_ r)) as Hle.
  { eapply Forall_impl; [exact Hm|]. intros e He. by apply Hb. }
  destruct (requests_set_ok now hi (nak_requests_ r) Hr Hn Hmh Hle) as (Hr' & Hin & Hlen). fold requests in Hr', Hin, Hlen |- *.
  assert (Forall (fun e => covers (nak_sequence_ r) (getValue e.2)) requests) as Hm'.
  { apply Forall_forall. intros e [He| ->]%Hin; [exact (proj1 (Forall_forall _ _) Hm e He)|done]. }
  set (ignored := ignored_ranges _ _ requests).
  assert (Forall (good_range (getValue hi)) ignored) as Hg.
  { apply ignored_ranges_good; [done|lia|]. eapply Forall_impl; [exact Hm'|]. intros e He. by apply Hb. }
  destruct (suppress_spec ignored (nak_sequence_ r) lo hi Hw Hs Hg) as (rec1 & -> & Hw1 & Hs1 & Hc1 & Hl1). cbn [mbind outcome_bind].
  destruct (suppress_peers_spec (nak_peers_ r) rec1 Hw1 Hp) as (received & E & Hw2 & Hl2). rewrite E. cbn [mbind outcome_bind].
  pose proof (ignored_length (nak_delay_intervals_ (config_ L)) (nak_max_ (config_ L)) requests) as Hli. fold ignored in Hli.
  exists received. rewrite (disjoint_missing received Hw2). pose proof (missing_length received) as Hml.
  assert (part_ok r') as Hr2 by (by split).
  assert (nak_peers_ r = [] -> received = rec1) as Hnil by (intros Hpn; rewrite Hpn in E; by injection E).
  assert (is_u 32 (Z.of_nat (length (missing_sequence_ranges received)))) as Hu.
  { unfold countable_gaps in Hc. unfold is_u. change (2 ^ 32) with 4294967296 in *. lia. }
  case_bool_decide as Hne.
  - destruct (nak_data_ok (remote_peer_ s) (missing_sequence_ranges received)) as (data & -> & Hh); [done|].
    cbn [mbind outcome_bind]. eexists. split; [done|]. split_and!; [done..| |done|intros ->%Hnil; done].
    unfold asks. destruct (missing_sequence_ranges received) eqn:Em; [done|]. rewrite <- Em in *. eauto.
  - cbn [mbind outcome_bind]. eexists. split; [done|]. split_and!; [done..| |done|intros ->%Hnil; done].
    by rewrite Hne.
Qed.

(** A NAK asks exactly for the missing numbers that are not suppressed. *)
Lemma send_naks_exact L now s r lo hi :
  part_ok r -> acked_ s = true -> nak_peers_ r = [] -> spans (nak_sequence_ r) lo hi ->
  Forall (fun e => e.1 <= now) (nak_requests_ r) -> countable_gaps r -> 0 <= nak_delay_intervals_ (config_ L) -> 0 <= nak_max_ (config_ L) ->
  exists ranges s' acts, send_naks L now s r = Ret (s', acts) /\ asks (remote_peer_ s) ranges acts /\ wf ranges /\ is_u 32 (Z.of_nat (length ranges)) /\
    forall v, covers ranges v <-> getValue lo < v < getValue hi /\ ~ covers (nak_sequence_ r) v /\
      ~ suppressed (nak_delay_intervals_ (config_ L)) (nak_max_ (config_ L)) (marks (requests_set now hi (nak_requests_ r))) v.
Proof.
  intros Hok Ha Hp Hs Hn Hc Hdi Hmx. pose proof Hok as [Hw _ _ _]. destruct (disjoint (nak_sequence_ r)) eqn:Hd.
  - destruct (send_naks_spec L now s r lo hi Hok Ha Hd Hs Hn Hc) as (received & acts & -> & [_ Hr' Hm' _] & Hwr & Hasks & Hu & Hcov).
    destruct (Hcov Hp) as [Hsr Hcr]. exists (missing_sequence_ranges received). eexists _, _. split; [done|]. split; [done|]. split; [by apply missing_wf|]. split; [done|].
    intros v. destruct (missing_ranges_spec received lo hi v Hwr (proj1 Hsr) (proj2 Hsr)) as [-> _].
    assert (getValue lo < v < getValue hi -> ~ covers (nak_sequence_ r) v -> covers (ignored_ranges (nak_delay_intervals_ (config_ L)) (nak_max_ (config_ L)) (requests_set now hi (nak_requests_ r))) v
      <-> suppressed (nak_delay_intervals_ (config_ L)) (nak_max_ (config_ L)) (marks (requests_set now hi (nak_requests_ r))) v) as Hsup.
    { intros _ Hnc. apply ignored_ranges_spec; [done|done|done|]. intros (e & -> & He)%list_elem_of_fmap. rewrite elem_of_reverse in He.
      cbn [nak_requests_] in Hm'. by apply Hnc, (proj1 (Forall_forall _ _) Hm' e He). }
    split.
    + intros [Hv Hn']. rewrite Hcr in Hn' by lia. assert (~ covers (nak_sequence_ r) v) as Hnc by tauto. specialize (Hsup Hv Hnc). tauto.
    + intros (Hv & Hnc & Hns). split; [done|]. rewrite Hcr by lia. specialize (Hsup Hv Hnc). tauto.
  - exists [], s, []. unfold send_naks. rewrite Ha, Hd. cbn [negb]. split; [reflexivity|]. split; [reflexivity|]. split; [done|]. split; [done|]. intros v. assert (covers [] v <-> False) as -> by apply Exists_nil.
    split; [done|]. intros (Hv & Hnc & _). destruct (missing_ranges_spec (nak_sequence_ r) lo hi v Hw (proj1 Hs) (proj2 Hs)) as [Hmr _].
    unfold missing_sequence_ranges in Hmr. rewrite Hd in Hmr.
    eapply Exists_nil, (proj2 Hmr). done.
Qed.
End sessions.


End MulticastNaks.
