(* ===== verification/MulticastSteps.v ===== *)
(** * The operations of multicast sessions keep their invariant

    Every operation on a session in its invariant with valid arguments returns,
    keeps the invariant, and forgets no number it has recorded once the handshake
    is done. *)

From S2P Require Import Prelude MessageBlock SequenceNumber DisjointSequence Serializer TransportSendStrategy TransportSendBuffer DataSampleHeader TransportReassembly TransportHeader Multicast MulticastLemmas MulticastNaks.
Import TransportSendBuffer DataSampleHeader TransportReassembly TransportHeader Multicast MulticastLemmas MulticastNaks.

Module MulticastSteps.
Section steps.
Context {MB : Type} {MBo : MessageBlock MB} {MBl : MessageBlockLaws MB}.
Implicit Types (L : SessionLink MB) (s : MulticastSession MB) (r : ReliablePart).

(** ** The invariant and what a session never takes back *)

Record session_ok s : Prop := mkSO {
  so_part : forall r, kind_ s = Reliable r -> part_ok r /\ (acked_ s = false -> nak_requests_ r = []);
  so_chunks : has_chunks (reassembly_ s) }.

Record extends s s' : Prop := mkEX {
  ex_peer : remote_peer_ s' = remote_peer_ s;
  ex_acked : acked_ s = true -> acked_ s' = true;
  ex_kind : forall r, kind_ s = Reliable r -> exists r', kind_ s' = Reliable r' /\
    (acked_ s = true -> forall v, covers (nak_sequence_ r) v -> covers (nak_sequence_ r') v);
  ex_back : forall r', kind_ s' = Reliable r' -> exists r, kind_ s = Reliable r;
  ex_started : started_ s = true -> started_ s' = true /\ active_ s' = active_ s }.

#[global] Instance extends_preorder : PreOrder extends.
Proof.
  split.
  - intros s. split; [done|done| |eauto|done]. intros r Hr. by exists r.
  - intros s1 s2 s3 [P1 A1 K1 B1 S1] [P2 A2 K2 B2 S2]. split; [congruence|auto| |intros r3 Hr3; destruct (B2 r3 Hr3); eauto|].
    2: { intros Hs. destruct (S1 Hs) as [Hs2 E]. rewrite <- E. by apply S2. }
    intros r Hr. destruct (K1 r Hr) as (r2 & Hr2 & C1).
    destruct (K2 r2 Hr2) as (r3 & Hr3 & C2). exists r3. split; [done|]. intros Ha v Hv. apply C2, C1; auto.
Qed.

(** The operations on the part of a reliable session. *)
Lemma part_step s r r' tr : kind_ s = Reliable r -> session_ok s -> part_ok r' -> has_chunks tr -> (acked_ s = false -> nak_requests_ r' = []) ->
  (acked_ s = true -> forall v, covers (nak_sequence_ r) v -> covers (nak_sequence_ r') v) ->
  session_ok (set_kind (Reliable r') (set_reassembly tr s)) /\ extends s (set_kind (Reliable r') (set_reassembly tr s)).
Proof.
  intros Hk [_ Hc] Hp Htr Ha Hcov. split.
  - split; [|done]. cbn. intros ? [= <-]. done.
  - split; [done|done| |eauto|done]. cbn. intros ? E. rewrite Hk in E. injection E as <-. by exists r'.
Qed.

Lemma set_same_reassembly s k : set_kind k (set_reassembly (reassembly_ s) s) = set_kind k s.
Proof. by destruct s. Qed.

Lemma part_ok_sequence r seqs : part_ok r -> wf seqs -> (forall v, covers (nak_sequence_ r) v -> covers seqs v) -> part_ok (set_nak_sequence seqs r).
Proof.
  intros [Hw Hr Hm Hp] Hw' Hc. split; [done..| |done]. eapply Forall_impl; [exact Hm|]. intros e He. by apply Hc.
Qed.

(** ** Headers *)

Definition number_ok (x : SequenceNumber) : Prop := sn_valid x /\ getValue x < MAX_VALUE.

Lemma insert_value_spec seqs x : wf seqs -> number_ok x -> exists fresh seqs', insert_value seqs x = Ret (fresh, seqs') /\ wf seqs' /\
  (forall v, covers seqs' v <-> covers seqs v \/ v = getValue x) /\ (fresh = false <-> covers seqs (getValue x)).
Proof.
  intros Hw [Hv Hm]. assert (range_ok (x, x)) as Hr by (split_and!; cbn; [done|done|lia..]).
  destruct (insert_range_spec seqs (x, x) Hw Hr) as (ch & seqs' & E & Hw' & Hc & Hch & _). exists ch, seqs'.
  assert (forall v, in_range v (x, x) <-> v = getValue x) as Hi by (intros v; unfold in_range; cbn; lia).
  split_and!; [exact E|done|intros v; by rewrite Hc, Hi|]. rewrite Hch. split; [intros H; by apply H, Hi|]. by intros H v ->%Hi.
Qed.

Lemma check_header_ok header s : session_ok s -> number_ok (th_sequence_ header) ->
  exists ok s', session_check_header header s = Ret (ok, s') /\ session_ok s' /\ extends s s' /\ acked_ s' = acked_ s /\ active_ s' = active_ s /\
    (forall r, kind_ s = Reliable r -> remote_peer_ s = source_ header -> exists seqs', kind_ s' = Reliable (set_nak_sequence seqs' r) /\
       (forall v, covers seqs' v <-> covers (nak_sequence_ r) v \/ v = getValue (th_sequence_ header)) /\
       (ok = false <-> covers (nak_sequence_ r) (getValue (th_sequence_ header)))).
Proof.
  intros Hok Hn. unfold session_check_header. destruct (kind_ s) as [r|expected] eqn:Hk.
  - unfold check_header_reliable. destruct (Z.eqb_spec (remote_peer_ s) (source_ header)) as [Hp|Hp]; cbn [negb].
    + destruct (so_part _ Hok r Hk) as [Hpart Hreq].
      destruct (insert_value_spec (nak_sequence_ r) _ (po_sequence _ Hpart) Hn) as (fresh & seqs' & -> & Hw & Hc & Hf). cbn [mbind outcome_bind].
      assert (forall v, covers (nak_sequence_ r) v -> covers seqs' v) as Hmono by (intros v Hv; apply Hc; by left).
      destruct (part_step s r (set_nak_sequence seqs' r) (reassembly_ s) Hk Hok) as [H1 H2];
        [by apply part_ok_sequence|apply Hok|exact Hreq|by intros _|]. rewrite set_same_reassembly in H1, H2.
      eexists _, _. split; [done|]. split_and!; [done..|]. intros ? [= <-] _. by exists seqs'.
    + eexists _, _. split; [done|]. split_and!; [done..|]. intros ? _ ?. done.
  - unfold check_header_best_effort. set (b := _ && _). clearbody b.
    assert (exists s1, (if b then tr ← data_unavailable (reassembly_ s) (expected, previous (th_sequence_ header)); Ret (set_reassembly tr s) else Ret s) = Ret s1 /\
      has_chunks (reassembly_ s1) /\ remote_peer_ s1 = remote_peer_ s /\ acked_ s1 = acked_ s /\ active_ s1 = active_ s /\ started_ s1 = started_ s) as (s1 & -> & Hc & E1 & E2 & E3 & E4).
    { destruct b; [|exists s; split_and!; try done; apply Hok].
      destruct (data_unavailable_total (reassembly_ s) (expected, previous (th_sequence_ header)) (so_chunks _ Hok)) as (tr & -> & Ht). by eexists. }
    cbn [mbind outcome_bind]. eexists _, _. split; [done|]. split_and!; [by split| |done|done|by intros].
    split; [done|cbn; congruence| |done|cbn; by rewrite E3, E4]. intros r E. by rewrite Hk in E.
Qed.
(** ** Control samples *)

(** A sample in one block that starts with [image]. *)
Definition block_with (control : list MB) (image : list Z) : Prop :=
  length control = 1%nat /\ exists rest, chain_bytes control = image ++ rest.

(** The body of a control sample as peers send it; a NAKACK offers what the
    sender's buffer has from a number above 1 on. *)
Inductive control_sent (header : TransportHeader) : Z -> list MB -> Prop :=
| cs_peer id control peer : id = MULTICAST_SYN \/ id = MULTICAST_SYNACK -> is_s 32 peer ->
    block_with control (wire (transport_swap_bytes header) 4 peer) -> control_sent header id control
| cs_nak control peer ranges : is_s 32 peer -> is_u 32 (Z.of_nat (length ranges)) -> ranges <> [] -> Forall range_ok ranges ->
    block_with control (nak_image (transport_swap_bytes header) peer ranges) -> control_sent header MULTICAST_NAK control
| cs_nakack control low : number_ok low -> 1 < getValue low -> block_with control (sn_image (transport_swap_bytes header) low) ->
    control_sent header MULTICAST_NAKACK control
| cs_other id control : id <> MULTICAST_SYN -> id <> MULTICAST_SYNACK -> id <> MULTICAST_NAK -> id <> MULTICAST_NAKACK -> length control = 1%nat ->
    control_sent header id control.

(** What a session has recorded when it hears a control sample: before the
    handshake the datagram of the sample is entered first. *)
Definition recorded header s r v : Prop := covers (nak_sequence_ r) v \/ acked_ s = false /\ v = getValue (th_sequence_ header).

(** A session that hears an offer from [low] on without anything below it. *)
Definition late header low s : Prop :=
  exists r, kind_ s = Reliable r /\ active_ s = false /\ remote_peer_ s = source_ header /\ forall v, recorded header s r v -> getValue low <= v.

(** Control samples a session is served; a NAKACK must leave something below the
    number it gives. *)
Inductive control_ok (header : TransportHeader) s : Z -> list MB -> Prop :=
| co_peer id control peer : id = MULTICAST_SYN \/ id = MULTICAST_SYNACK -> is_s 32 peer ->
    block_with control (wire (transport_swap_bytes header) 4 peer) -> control_ok header s id control
| co_nak control peer ranges : is_s 32 peer -> is_u 32 (Z.of_nat (length ranges)) -> ranges <> [] -> Forall range_ok ranges ->
    block_with control (nak_image (transport_swap_bytes header) peer ranges) -> control_ok header s MULTICAST_NAK control
| co_nakack control low : number_ok low -> block_with control (sn_image (transport_swap_bytes header) low) ->
    (forall r, kind_ s = Reliable r -> active_ s = false -> remote_peer_ s = source_ header ->
       exists v, recorded header s r v /\ v < getValue low) -> control_ok header s MULTICAST_NAKACK control
| co_other id control : id <> MULTICAST_SYN -> id <> MULTICAST_SYNACK -> id <> MULTICAST_NAK -> id <> MULTICAST_NAKACK -> length control = 1%nat ->
    control_ok header s id control.

Lemma control_ok_length header s id control : control_ok header s id control -> length control = 1%nat.
Proof. by intros [? ? ? _ _ [? _]|? ? ? _ _ _ _ [? _]|? ? _ [? _] _|]. Qed.

Lemma written_length (T : list MB) ser sw strm : rd0 T ser sw strm -> length (written ser) = length T.
Proof. intros Hr. destruct (rd0_from _ _ _ _ Hr) as [k Hk]. unfold written. by rewrite Hk, consume_length. Qed.

Lemma low_of seqs : wf seqs -> seqs <> [] -> exists lo hi, spans seqs lo hi.
Proof.
  intros Hw Hn. destruct seqs as [|r rest]; [done|]. destruct (queries_correct (r :: rest) r rest eq_refl Hw) as (lo & hi & Hl & Hh & _). by exists lo, hi.
Qed.

Lemma covers_cons_ne seqs v : covers seqs v -> seqs <> [].
Proof. by intros Hc ->; apply Exists_nil in Hc. Qed.

(** Recording everything up to [hi]: the numbers below are given up. *)
Lemma shift_spec seqs lo hi (tr : TransportReassembly MB) : wf seqs -> ds_low seqs = Ret lo -> sn_valid hi -> getValue lo <= getValue hi < MAX_VALUE -> has_chunks tr ->
  exists inserted seqs' dropped tr', insert_gaps seqs (lo, hi) = Ret (inserted, seqs', dropped) /\
    (if (inserted : bool) then data_unavailable_all tr dropped else Ret tr) = Ret tr' /\ has_chunks tr' /\ wf seqs' /\
    (length seqs' <= S (length seqs))%nat /\ (forall v, covers seqs' v <-> covers seqs v \/ getValue lo <= v <= getValue hi).
Proof.
  intros Hw Hl Hv Hb Hc. destruct seqs as [|r0 rest]; [done|]. cbn in Hl. injection Hl as <-.
  destruct (insert_gaps_from_low r0 rest hi Hw Hv Hb) as (ins & seqs' & dropped & E1 & E2). rewrite E1.
  assert (range_ok (r0.1, hi)) as Hr by (destruct Hw as ((? & ? & ?) & _); split_and!; cbn; [done|done|lia..]).
  destruct (insert_range_spec (r0 :: rest) (r0.1, hi) Hw Hr) as (? & ? & E & Hw' & Hcov & _). rewrite E2 in E. injection E as <- <-.
  pose proof (insert_range_length _ _ _ _ Hw Hr E2) as Hlen.
  assert (exists tr', (if ins then data_unavailable_all tr dropped else Ret tr) = Ret tr' /\ has_chunks tr') as (tr' & Et & Ht).
  { destruct ins; [by apply unavailable_all_total|by eexists]. }
  exists ins, seqs', dropped, tr'. by split_and!.
Qed.

Lemma send_nakack_total k low : exists acts, send_nakack (MB := MB) k low = Ret acts.
Proof. destruct k; cbn [send_nakack]; [|eauto]. destruct (nakack_data_ok low) as (data & -> & _). cbn [mbind outcome_bind]. eauto. Qed.

Lemma send_synack_total L s : exists acts, send_synack L s = Ret acts.
Proof.
  unfold send_synack. destruct (peer_data_ok (MB := MB) (remote_peer_ s)) as (data & -> & _).
  assert (forall o : outcome (list (Action MB)), (exists a, o = Ret a) -> exists acts, (o ≫= fun nakack => Ret data ≫= fun data => Ret (nakack ++ [send_control MULTICAST_SYNACK data])) = Ret acts) as Hb.
  { intros o [a ->]. cbn [mbind outcome_bind]. eauto. }
  apply Hb. destruct (send_buffer_ L) as [b|]; [|eauto]. unfold sb_empty, sb_low. destruct (buffers_ b) as [|x l]; cbn [negb mbind outcome_bind]; [eauto|].
  destruct (sn_gt _ _); [apply send_nakack_total|eauto].
Qed.

Lemma syn_received_ok L header control s peer : session_ok s -> number_ok (th_sequence_ header) -> is_s 32 peer ->
  block_with control (wire (transport_swap_bytes header) 4 peer) ->
  exists s' acts rest, syn_received L header control s = Ret (s', acts, rest) /\ session_ok s' /\ extends s s' /\ length rest = 1%nat.
Proof.
  intros Hok Hn Hp [Hl [tl Hb]]. unfold syn_received. destruct (active_ s); [by eexists _, _, _|]. destruct (negb _); [by eexists _, _, _|].
  destruct (read_peer_ok control _ _ peer tl Hp (rd0_start control (transport_swap_bytes header) _ Hb)) as (ser & -> & Hr). cbn [mbind outcome_bind].
  pose proof (written_length _ _ _ _ Hr) as Hwl. rewrite Hl in Hwl. destruct (negb _); [by eexists _, _, _|].
  assert (exists s1, (if acked_ s then Ret s else syn_hook (th_sequence_ header) (set_acked true s)) = Ret s1 /\ session_ok s1 /\ extends s s1) as (s1 & -> & H1 & H2).
  { destruct (acked_ s) eqn:Ha; [by eexists|]. unfold syn_hook. cbn [kind_ set_acked]. destruct Hn as [Hv Hm].
    assert (range_ok (of_value 1, th_sequence_ header)) as Hr1 by (split_and!; cbn; [by vm_compute|done|destruct Hv; done|done]).
    destruct (insert_range_spec [] (of_value 1, th_sequence_ header) I Hr1) as (ch & seqs & E & Hw & _).
    destruct (kind_ s) as [r|e] eqn:Hk.
    - unfold ds_reset. rewrite E. cbn [mbind outcome_bind]. eexists. split; [done|].
      destruct (so_part _ Hok r Hk) as [[? ? ? ?] Hreq]. specialize (Hreq Ha). split.
      + split; [|apply Hok]. cbn. intros ? [= <-]. split; [|done]. split; [done| |cbn; rewrite Hreq; constructor|done]. cbn. rewrite Hreq. split; constructor.
      + split; [done|done| |eauto|done]. cbn. intros ? Ek. rewrite Hk in Ek. injection Ek as <-. eexists. split; [done|]. by rewrite Ha.
    - eexists. split; [done|]. split; [split; [|apply Hok]|split; [done|done| | |done]]; cbn; intros ? Ek; congruence. }
  cbn [mbind outcome_bind]. destruct (send_synack_total L s1) as [acts ->]. cbn [mbind outcome_bind]. by eexists _, _, _.
Qed.

Lemma synack_received_ok L header control s peer : session_ok s -> is_s 32 peer -> block_with control (wire (transport_swap_bytes header) 4 peer) ->
  exists s' rest, synack_received L header control s = Ret (s', rest) /\ session_ok s' /\ extends s s' /\ length rest = 1%nat.
Proof.
  intros Hok Hp [Hl [tl Hb]]. unfold synack_received. destruct (negb (active_ s)); [by eexists _, _|]. destruct (acked_ s) eqn:Ha; [by eexists _, _|].
  destruct (negb _); [by eexists _, _|].
  destruct (read_peer_ok control _ _ peer tl Hp (rd0_start control (transport_swap_bytes header) _ Hb)) as (ser & -> & Hr). cbn [mbind outcome_bind].
  pose proof (written_length _ _ _ _ Hr) as Hwl. rewrite Hl in Hwl. destruct (negb _); [by eexists _, _|]. eexists _, _. split; [done|].
  split_and!; [|split; [done|done|cbn; intros r Hk; exists r; by rewrite Ha|cbn; eauto|done]|done].
  split; [|apply Hok]. cbn. intros r Hk. by destruct (so_part _ Hok r Hk).
Qed.


Lemma peers_insert_ok ranges : Forall range_ok ranges -> forall l, Forall range_ok l -> Forall range_ok (fold_left (fun l x => peers_insert x l) ranges l).
Proof.
  assert (forall x l, range_ok x -> Forall range_ok l -> Forall range_ok (peers_insert x l)) as H1.
  { intros x l Hx. induction 1 as [|y l Hy Hl IH]; cbn [peers_insert]; [by apply Forall_singleton|]. repeat case_match; rewrite ?Forall_cons; tauto. }
  induction 1 as [|x ranges Hx Hr IH]; intros l Hl; cbn [fold_left]; [done|]. by apply IH, H1.
Qed.

Lemma nak_received_ok L header control s r peer ranges : kind_ s = Reliable r -> session_ok s -> is_Some (send_buffer_ L) ->
  is_s 32 peer -> is_u 32 (Z.of_nat (length ranges)) -> ranges <> [] -> Forall range_ok ranges ->
  block_with control (nak_image (transport_swap_bytes header) peer ranges) ->
  exists s' acts rest, nak_received L header control s r = Ret (s', acts, rest) /\ session_ok s' /\ extends s s' /\ length rest = 1%nat.
Proof.
  intros Hk Hok [b Hbuf] Hp Hu Hne Hr [Hl [tl Hb]]. unfold nak_received. destruct (negb (active_ s)); [by eexists _, _, _|].
  unfold nak_image in Hb. rewrite <- !app_assoc in Hb.
  destruct (read_peer_ok control _ _ peer _ Hp (rd0_start control (transport_swap_bytes header) _ Hb)) as (s1 & -> & Hr1). cbn [mbind outcome_bind].
  destruct (rd0_uint 4 s1 _ (Z.of_nat (length ranges)) _ 0 ltac:(unfold cdr_size; lia) Hu Hr1) as (s2 & -> & Hr2). cbn [mbind outcome_bind].
  assert (Forall range_valid ranges) as Hv by (eapply Forall_impl; [exact Hr|]; intros x (? & ? & _); split; by apply sn_valid_ok).
  rewrite Nat2Z.id. destruct (read_ranges_ok control ranges s2 _ tl Hv Hr2) as (s3 & -> & Hr3). cbn [mbind outcome_bind].
  pose proof (written_length _ _ _ _ Hr3) as Hwl. rewrite Hl in Hwl. destruct (so_part _ Hok r Hk) as [Hpart Hreq].
  destruct (peer =? remote_peer_ s).
  { destruct (part_step s r (mkRP (nak_watchdog_ r) (nak_sequence_ r) (nak_requests_ r) (fold_left (fun l x => peers_insert x l) ranges (nak_peers_ r))) (reassembly_ s) Hk Hok) as [H1 H2];
      [|apply Hok|exact Hreq|done|]. { destruct Hpart. split; [done..|]. by apply peers_insert_ok. }
    rewrite set_same_reassembly in H1, H2. by eexists _, _, _. }
  destruct (_ || _); [by eexists _, _, _|]. rewrite Hbuf. cbn [deref mbind outcome_bind]. destruct ranges as [|x ranges]; [done|]. cbn [head].
  unfold sb_empty, sb_low. destruct (buffers_ b) as [|y l]; cbn [negb deref mbind outcome_bind]; [by eexists _, _, _|].
  destruct (sn_gt _ _); [|cbn [mbind outcome_bind]; by eexists _, _, _]. destruct (send_nakack_total (kind_ s) y.1) as [acts ->].
  cbn [mbind outcome_bind]. by eexists _, _, _.
Qed.

Lemma nakack_received_ok header control s r low : kind_ s = Reliable r -> session_ok s -> number_ok low ->
  block_with control (sn_image (transport_swap_bytes header) low) ->
  (active_ s = false -> remote_peer_ s = source_ header -> exists v, covers (nak_sequence_ r) v /\ v < getValue low) ->
  exists s' rest, nakack_received header control s r = Ret (s', rest) /\ session_ok s' /\ extends s s' /\ length rest = 1%nat /\
    (active_ s = false -> remote_peer_ s = source_ header -> exists r' lo, ds_low (nak_sequence_ r) = Ret lo /\ kind_ s' = Reliable r' /\
       nak_requests_ r' = nak_requests_ r /\ nak_peers_ r' = nak_peers_ r /\ acked_ s' = acked_ s /\ active_ s' = false /\
       forall v, covers (nak_sequence_ r') v <-> covers (nak_sequence_ r) v \/ getValue lo <= v < getValue low).
Proof.
  intros Hk Hok [Hv Hm] [Hl [tl Hb]] Hlow. unfold nakack_received. destruct (active_ s) eqn:Ha; [by eexists _, _|].
  destruct (Z.eqb_spec (remote_peer_ s) (source_ header)) as [Hp|Hp]; cbn [negb]; [|by eexists _, _]. unfold sn_image in Hb. rewrite <- !app_assoc in Hb.
  destruct (rd0_sn _ _ low tl (of_value 1) (sn_valid_ok _ Hv) (rd0_start control (transport_swap_bytes header) _ Hb)) as (ser & -> & Hr). cbn [mbind outcome_bind].
  pose proof (written_length _ _ _ _ Hr) as Hwl. rewrite Hl in Hwl. destruct (so_part _ Hok r Hk) as [Hpart Hreq].
  destruct (Hlow eq_refl Hp) as (v & Hcv & Hlt). destruct (low_of (nak_sequence_ r) (po_sequence _ Hpart) (covers_cons_ne _ _ Hcv)) as (lo & hi & Hs).
  destruct (spans_valid _ _ _ (po_sequence _ Hpart) Hs) as (Hvl & _ & _ & _ & _ & Hbnd & _). pose proof (Hbnd v Hcv) as Hbv. rewrite (proj1 Hs). cbn [mbind outcome_bind].
  assert (getValue (previous low) = getValue low - 1) as Hprev.
  { rewrite getValue_previous by done. rewrite (proj2 (Z.eqb_neq _ _)); [done|]. destruct Hvl. unfold MIN_VALUE in *. lia. }
  destruct (shift_spec (nak_sequence_ r) lo (previous low) (reassembly_ s) (po_sequence _ Hpart) (proj1 Hs) (previous_ok _ Hv)) as
    (ins & seqs' & dropped & tr' & -> & Ht & Hc & Hw & _ & Hcov); [lia|apply Hok|]. cbn [mbind outcome_bind]. rewrite Ht. cbn [mbind outcome_bind].
  assert (forall v, covers (nak_sequence_ r) v -> covers seqs' v) as Hmono by (intros w Hw'; apply Hcov; by left).
  destruct (part_step s r (set_nak_sequence seqs' r) tr' Hk Hok) as [H1 H2]; [by apply part_ok_sequence|done|exact Hreq|by intros _|].
  eexists _, _. split; [done|]. split_and!; [done..|]. intros _ _. exists (set_nak_sequence seqs' r), lo. split_and!; [done..|].
  intros w. cbn. rewrite Hcov, Hprev. split; (intros [?|?]; [by left|right; lia]).
Qed.

(** A session before the handshake enters the datagram of a control sample. *)
Lemma enter_ok header s : session_ok s -> number_ok (th_sequence_ header) ->
  exists s1, (if negb (acked_ s) && (remote_peer_ s =? source_ header) then '(_, s) ← session_check_header header s; Ret s else Ret s) = Ret s1 /\
    session_ok s1 /\ extends s s1 /\ active_ s1 = active_ s /\ (forall r, kind_ s1 = Reliable r -> exists r0, kind_ s = Reliable r0 /\
      forall v, remote_peer_ s = source_ header -> recorded header s r0 v <-> covers (nak_sequence_ r) v).
Proof.
  intros Hok Hn. destruct (_ && _) eqn:E.
    2:{ exists s. split_and!; try done. intros r Hr. exists r. split; [done|]. intros v Hp. unfold recorded.
        rewrite Hp, Z.eqb_refl, andb_true_r, negb_false_iff in E. rewrite E. naive_solver. }
    apply andb_true_iff in E as [Hna Hp%Z.eqb_eq]. destruct (check_header_ok header s Hok Hn) as (ok & s1 & Ec & ? & ? & _ & ? & Hk).
    rewrite Ec. cbn [mbind outcome_bind]. exists s1. split_and!; [done..|]. intros r Hr. destruct (kind_ s) as [r0|e] eqn:Hks.
    - destruct (Hk r0 eq_refl Hp) as (seqs' & Hk1 & Hc & _). rewrite Hr in Hk1. injection Hk1 as ->. exists r0. split; [done|]. cbn. intros v _. rewrite Hc. unfold recorded.
      apply negb_true_iff in Hna. rewrite Hna. naive_solver.
    - unfold session_check_header in Ec. rewrite Hks in Ec. unfold check_header_best_effort in Ec.
      apply outcome_bind_Ret in Ec as (s2 & _ & [= <- <-]). done.
Qed.

Lemma control_received_ok L header id control s : session_ok s -> number_ok (th_sequence_ header) ->
  (forall r, kind_ s = Reliable r -> is_Some (send_buffer_ L)) -> control_ok header s id control ->
  exists b s' acts rest, session_control_received L header id control s = Ret (b, s', acts, rest) /\ session_ok s' /\ extends s s' /\ length rest = 1%nat.
Proof.
  intros Hok Hn Hbuf Hco. unfold session_control_received, control_received_base.
  destruct (enter_ok header s Hok Hn) as (s1 & -> & Hok1 & Hex & Hact & Hkind).
  cbn [mbind outcome_bind]. pose proof (control_ok_length _ _ _ _ Hco) as Hlen.
  destruct Hco as [id control peer Hid Hp Hb|control peer ranges Hp Hu Hne Hr Hb|control low Hv Hb Hlow|id control N1 N2 N3 N4 _].
  - destruct Hid as [-> | ->]; cbn [Z.eqb Pos.eqb MULTICAST_SYN MULTICAST_SYNACK].
    + destruct (syn_received_ok L header control s1 peer Hok1 Hn Hp Hb) as (s' & acts & rest & -> & ? & ? & ?). cbn [mbind outcome_bind].
      eexists _, _, _, _. split; [done|]. split_and!; [done|by etrans|done].
    + destruct (synack_received_ok L header control s1 peer Hok1 Hp Hb) as (s' & rest & -> & ? & ? & ?). cbn [mbind outcome_bind].
      eexists _, _, _, _. split; [done|]. split_and!; [done|by etrans|done].
  - cbn [Z.eqb Pos.eqb MULTICAST_SYN MULTICAST_SYNACK MULTICAST_NAK mbind outcome_bind]. destruct (kind_ s1) as [r|e] eqn:Hk; [|by eexists _, _, _, _].
    destruct (Hkind r eq_refl) as (r0 & Hk0 & _).
    destruct (nak_received_ok L header control s1 r peer ranges Hk Hok1 (Hbuf _ Hk0) Hp Hu Hne Hr Hb) as (s' & acts & rest & -> & ? & ? & ?).
    cbn [mbind outcome_bind]. eexists _, _, _, _. split; [done|]. split_and!; [done|by etrans|done].
  - cbn [Z.eqb Pos.eqb MULTICAST_SYN MULTICAST_SYNACK MULTICAST_NAK MULTICAST_NAKACK mbind outcome_bind]. destruct (kind_ s1) as [r|e] eqn:Hk; [|by eexists _, _, _, _].
    destruct (Hkind r eq_refl) as (r0 & Hk0 & Hcov).
    destruct (nakack_received_ok header control s1 r low Hk Hok1 Hv Hb) as (s' & rest & -> & ? & ? & ? & _).
    { intros Ha Hp. rewrite Hact in Ha. rewrite (ex_peer _ _ Hex) in Hp. destruct (Hlow r0 Hk0 Ha Hp) as (v & Hv1 & ?). exists v.
      split; [|done]. by apply Hcov. }
    cbn [mbind outcome_bind]. eexists _, _, _, _. split; [done|]. split_and!; [done|by etrans|done].
  - rewrite !(proj2 (Z.eqb_neq id _)) by done. cbn [mbind outcome_bind]. destruct (kind_ s1); by eexists _, _, _, _.
Qed.

(** An offer that comes too early: the range from the lowest number recorded to
    the one before the offer is empty, or there is no number. *)
Lemma nakack_late header control s r low : kind_ s = Reliable r -> session_ok s -> number_ok low ->
  block_with control (sn_image (transport_swap_bytes header) low) -> 1 < getValue low -> active_ s = false -> remote_peer_ s = source_ header ->
  (forall v, covers (nak_sequence_ r) v -> getValue low <= v) ->
  nakack_received header control s r = Throw \/ nakack_received header control s r = UB.
Proof.
  intros Hk Hok [Hv Hm] [Hl [tl Hb]] Hlow Ha Hp Hno. unfold nakack_received. rewrite Ha, Hp, Z.eqb_refl. cbn [negb].
  unfold sn_image in Hb. rewrite <- !app_assoc in Hb.
  destruct (rd0_sn _ _ low tl (of_value 1) (sn_valid_ok _ Hv) (rd0_start control (transport_swap_bytes header) _ Hb)) as (ser & -> & Hr). cbn [mbind outcome_bind].
  destruct (so_part _ Hok r Hk) as [Hpart _]. destruct (nak_sequence_ r) as [|x seqs] eqn:Es; [by right|left].
  destruct (low_of (x :: seqs)) as (lo & hi & Hs); [rewrite <- Es; apply Hpart|done|].
  assert (wf (x :: seqs)) as Hw by (rewrite <- Es; apply Hpart).
  destruct (spans_valid _ _ _ Hw Hs) as (Hvl & _). rewrite (proj1 Hs). cbn [mbind outcome_bind].
  assert (covers (x :: seqs) (getValue lo)) as Hc.
  { pose proof (proj1 Hs) as E. cbn in E. injection E as <-. apply covers_cons. left. destruct Hw as ((_ & _ & ?) & _). unfold in_range. lia. }
  specialize (Hno _ Hc). unfold insert_gaps, insert_i, validate. cbn [fst snd].
  rewrite sn_gt_value by first [by apply sn_valid_ok|by apply sn_valid_ok, previous_ok].
  assert (getValue (previous low) = getValue low - 1) as -> by (rewrite getValue_previous by done; by rewrite (proj2 (Z.eqb_neq _ _)) by lia).
  by rewrite (proj2 (Z.ltb_lt (getValue low - 1) (getValue lo))) by lia.
Qed.

(** A control sample is served, or it is an offer to a session that is late. *)
Lemma control_sent_cases L header id control s : session_ok s -> number_ok (th_sequence_ header) -> control_sent header id control ->
  control_ok header s id control \/
  exists low, id = MULTICAST_NAKACK /\ number_ok low /\ 1 < getValue low /\ block_with control (sn_image (transport_swap_bytes header) low) /\ late header low s /\
    (session_control_received L header id control s = Throw \/ session_control_received L header id control s = UB).
Proof.
  intros Hok Hn [id0 c peer Hid Hp Hb|c peer ranges Hp Hu Hne Hr Hb|c low Hv H1 Hb|id0 c N1 N2 N3 N4 Hl].
  - left. by eapply co_peer.
  - left. by eapply co_nak.
  - unfold session_control_received, control_received_base.
    destruct (enter_ok header s Hok Hn) as (s1 & -> & Hok1 & Hex & Hact & Hkind).
    cbn [mbind outcome_bind Z.eqb Pos.eqb MULTICAST_SYN MULTICAST_SYNACK MULTICAST_NAK MULTICAST_NAKACK].
    destruct (kind_ s1) as [r|e] eqn:Hk.
    2:{ left. apply (co_nakack _ _ _ low); [done|done|]. intros r Hr. destruct (ex_kind _ _ Hex r Hr) as (? & ? & _). congruence. }
    destruct (Hkind r eq_refl) as (r0 & Hk0 & Hcov).
    destruct (active_ s) eqn:Ha; [left; apply (co_nakack _ _ _ low); [done|done|congruence]|].
    destruct (decide (remote_peer_ s = source_ header)) as [Hp|Hp]; [|left; apply (co_nakack _ _ _ low); [done|done|congruence]].
    destruct (decide (Exists (fun x => getValue x.1 < getValue low) (nak_sequence_ r))) as [Hx|Hx].
    + left. apply (co_nakack _ _ _ low); [done|done|]. intros r1 Hr1 _ _. rewrite Hk0 in Hr1. injection Hr1 as <-.
      apply Exists_exists in Hx as (x & Hin & Hlt). exists (getValue x.1). split; [|done]. apply Hcov; [done|]. apply Exists_exists. exists x. split; [done|].
      destruct (so_part _ Hok1 r Hk) as [Hpart _]. pose proof (proj1 (Forall_forall _ _) (wf_from_ok _ _ (po_sequence _ Hpart)) x Hin) as (_ & _ & ?). unfold in_range. lia.
    + right. exists low. assert (forall v, covers (nak_sequence_ r) v -> getValue low <= v) as Hno.
      { intros v (x & Hin & [Hi _])%Exists_exists. destruct (Z.lt_ge_cases (getValue x.1) (getValue low)); [|lia]. exfalso. apply Hx, Exists_exists. by exists x. }
      split_and!; [done|done|done|done| |].
      * exists r0. split_and!; [done|done|done|]. intros v Hrv. by apply Hno, Hcov.
      * rewrite <- (ex_peer _ _ Hex) in Hp.
        destruct (nakack_late header c s1 r low Hk Hok1 Hv Hb H1 Hact Hp Hno) as [-> | ->]; [by left|by right].
  - left. by apply co_other.
Qed.


(** ** Timers *)

Lemma upper_bound_app deadline l : let '(a, b) := upper_bound deadline l in l = a ++ b.
Proof. induction l as [|e l IH]; cbn [upper_bound]; [done|]. destruct (_ <=? _); [|done]. destruct (upper_bound deadline l). by subst. Qed.

Lemma expire_naks_ok L now s r : kind_ s = Reliable r -> session_ok s ->
  exists s' r', expire_naks L now s r = Ret s' /\ session_ok s' /\ extends s s' /\ kind_ s' = Reliable r' /\ acked_ s' = acked_ s /\ remote_peer_ s' = remote_peer_ s /\
    nak_peers_ r' = nak_peers_ r /\ (forall e, e ∈ nak_requests_ r' -> e ∈ nak_requests_ r) /\
    (length (nak_requests_ r') <= length (nak_requests_ r))%nat /\ (length (nak_sequence_ r') <= S (length (nak_sequence_ r)))%nat.
Proof.
  intros Hk Hok. assert (exists s' r', Ret s = Ret s' /\ session_ok s' /\ extends s s' /\ kind_ s' = Reliable r' /\ acked_ s' = acked_ s /\ remote_peer_ s' = remote_peer_ s /\
    nak_peers_ r' = nak_peers_ r /\ (forall e, e ∈ nak_requests_ r' -> e ∈ nak_requests_ r) /\
    (length (nak_requests_ r') <= length (nak_requests_ r))%nat /\ (length (nak_sequence_ r') <= S (length (nak_sequence_ r)))%nat) as Hsame
    by (exists s, r; split_and!; try done; lia).
  unfold expire_naks. destruct (decide _) as [|Hne]; [done|]. pose proof (upper_bound_app (now - nak_timeout_ (config_ L)) (nak_requests_ r)) as Happ.
  destruct (upper_bound _ _) as [expired rest]. destruct (last expired) as [newest|] eqn:Hlast; [|done].
  set (lastSeq := match rest with [] => newest.2 | e :: _ => e.2 end).
  destruct (so_part _ Hok r Hk) as [Hpart Hreq]. pose proof Hpart as [Hw [Hs Hm] Hcm Hpe].
  assert (exists e, e ∈ nak_requests_ r /\ e.2 = lastSeq) as (e & He & El).
  { subst lastSeq. rewrite Happ. destruct rest as [|e rest]; [exists newest|exists e]; (split; [|done]); apply elem_of_app;
      [left; by apply last_Some_elem_of|right; by left]. }
  assert (covers (nak_sequence_ r) (getValue lastSeq)) as Hcl by (rewrite <- El; exact (proj1 (Forall_forall _ _) Hcm e He)).
  assert (sn_valid lastSeq) as Hvl by (rewrite <- El; apply (proj1 (Forall_forall _ _) Hm e He)).
  destruct (low_of (nak_sequence_ r) Hw (covers_cons_ne _ _ Hcl)) as (lo & hi & Hsp). destruct (spans_valid _ _ _ Hw Hsp) as (_ & _ & Hlh & _ & _ & Hb & _).
  pose proof (Hb _ Hcl). rewrite (proj1 Hsp). cbn [mbind outcome_bind].
  destruct (shift_spec (nak_sequence_ r) lo lastSeq (reassembly_ s) Hw (proj1 Hsp) Hvl) as (ins & seqs' & dropped & tr' & -> & Ht & Hc & Hw' & Hlen & Hcov); [lia|apply Hok|].
  cbn [mbind outcome_bind]. rewrite Ht. cbn [mbind outcome_bind].
  assert (forall v, covers (nak_sequence_ r) v -> covers seqs' v) as Hmono by (intros w Hcw; apply Hcov; by left).
  destruct (part_step s r (mkRP (nak_watchdog_ r) seqs' rest (nak_peers_ r)) tr' Hk Hok) as [H1 H2].
  - rewrite Happ in Hs, Hm, Hcm. apply StronglySorted_app in Hs as (_ & _ & Hs). apply Forall_app in Hm as [_ Hm]. apply Forall_app in Hcm as [_ Hcm].
    split; [done|by split| |done]. eapply Forall_impl; [exact Hcm|]. intros x Hx. by apply Hmono.
  - done.
  - intros Ha. rewrite (Hreq Ha) in Happ. symmetry in Happ. by apply app_eq_nil in Happ as [_ ->].
  - by intros _.
  - eexists _, _. split; [done|]. split_and!; [done..| | |done]; cbn.
    + intros x Hx. rewrite Happ. apply elem_of_app. by right.
    + rewrite Happ, length_app. lia.
Qed.

(** The session as [send_naks] leaves it. *)
Lemma send_naks_ok L now s r : kind_ s = Reliable r -> session_ok s -> Forall (fun e => e.1 <= now) (nak_requests_ r) -> countable_gaps r ->
  exists s' r' acts, send_naks L now s r = Ret (s', acts) /\ session_ok s' /\ extends s s' /\ kind_ s' = Reliable r' /\ part_ok r' /\
    nak_sequence_ r' = nak_sequence_ r /\ acked_ s' = acked_ s /\ remote_peer_ s' = remote_peer_ s /\ (acked_ s' = false -> nak_requests_ r' = []).
Proof.
  intros Hk Hok Hn Hc. destruct (so_part _ Hok r Hk) as [Hpart Hreq].
  destruct (acked_ s) eqn:Ha; [|unfold send_naks; rewrite Ha; exists s, r, []; split_and!; try done; intros _; by apply Hreq].
  destruct (disjoint (nak_sequence_ r)) eqn:Hd; [|unfold send_naks; rewrite Ha, Hd; exists s, r, []; split_and!; try done; by rewrite Ha].
  destruct (low_of (nak_sequence_ r) (po_sequence _ Hpart)) as (lo & hi & Hs); [by intros E; rewrite E in Hd|].
  destruct (send_naks_spec L now s r lo hi Hpart Ha Hd Hs Hn Hc) as (received & acts & -> & Hpart' & _).
  destruct (part_step s r _ (reassembly_ s) Hk Hok Hpart') as [H1 H2]; [apply Hok|by rewrite Ha|by intros _|]. rewrite set_same_reassembly in H1, H2.
  eexists _, _, _. split; [done|]. split_and!; [done..|]. cbn. by rewrite Ha.
Qed.

(** One range of slack for the expired requests. *)
Definition countable_timer r : Prop :=
  Z.of_nat (length (nak_sequence_ r) + length (nak_requests_ r) + length (nak_peers_ r)) < 2 ^ 32 - 2.

Lemma nak_timeout_ok L now1 now2 now3 registered s r : kind_ s = Reliable r -> session_ok s -> Forall (fun e => e.1 <= now2) (nak_requests_ r) -> countable_timer r ->
  exists s' acts, nak_timeout L now1 now2 now3 registered s r = Ret (s', acts) /\ session_ok s' /\ extends s s'.
Proof.
  intros Hk Hok Hn Hc. unfold nak_timeout. destruct (expire_naks_ok L now1 s r Hk Hok) as (s1 & r1 & -> & Hok1 & He1 & Hk1 & _ & _ & Hp & Hin & Hl1 & Hl2).
  cbn [mbind outcome_bind]. rewrite Hk1. destruct (send_naks_ok L now2 s1 r1 Hk1 Hok1) as (s2 & r2 & acts & -> & Hok2 & He2 & Hk2 & Hpart & _ & _ & _ & Hreq).
  - apply Forall_forall. intros e He. exact (proj1 (Forall_forall _ _) Hn e (Hin e He)).
  - unfold countable_timer, countable_gaps in *. rewrite Hp. lia.
  - cbn [mbind outcome_bind]. rewrite Hk2. eexists _, _. split; [done|].
    destruct (part_step s2 r2 (set_nak_watchdog (wd_schedule registered now3 (nak_watchdog_ r2)).2 r2) (reassembly_ s2) Hk2 Hok2) as [H1 H2];
      [by destruct Hpart|apply Hok2|exact Hreq|by intros _|]. rewrite set_same_reassembly in H1, H2. split; [done|]. etrans; [exact He1|]. by etrans.
Qed.

Lemma same_session s s' : kind_ s' = kind_ s -> reassembly_ s' = reassembly_ s -> acked_ s' = acked_ s -> remote_peer_ s' = remote_peer_ s ->
  (started_ s = true -> started_ s' = true /\ active_ s' = active_ s) -> session_ok s -> session_ok s' /\ extends s s'.
Proof.
  intros E1 E2 E3 E4 E5 [Hp Hc]. split.
  - split; rewrite ?E1, ?E2, ?E3; done.
  - split; [done|congruence| |rewrite E1; eauto|done]. intros r Hr. exists r. by rewrite E1.
Qed.

Lemma syn_timeout_ok L now now2 registered s : session_ok s ->
  exists s' acts, syn_timeout L now now2 registered s = Ret (s', acts) /\ session_ok s' /\ extends s s'.
Proof.
  intros Hok. unfold syn_timeout. destruct (_ && _); [eexists _, _; split; [done|]; by apply same_session|].
  unfold send_syn. destruct (peer_data_ok (MB := MB) (remote_peer_ s)) as (data & -> & _). cbn [mbind outcome_bind].
  eexists _, _. split; [done|]. by apply same_session.
Qed.

(** Another watchdog in the part changes nothing else. *)
Lemma watchdog_step s r wd : kind_ s = Reliable r -> session_ok s -> session_ok (set_kind (Reliable (set_nak_watchdog wd r)) s) /\ extends s (set_kind (Reliable (set_nak_watchdog wd r)) s).
Proof.
  intros Hk Hok. destruct (so_part _ Hok r Hk) as [[? ? ? ?] Hreq].
  destruct (part_step s r (set_nak_watchdog wd r) (reassembly_ s) Hk Hok) as [H1 H2]; [by split|apply Hok|exact Hreq|by intros _|].
  by rewrite set_same_reassembly in H1, H2.
Qed.

Lemma session_start_ok reactor registered now active acked s : session_ok s ->
  session_ok (session_start reactor registered now active acked s).2 /\ extends s (session_start reactor registered now active acked s).2.
Proof.
  intros Hok. unfold session_start. destruct (started_ s) eqn:Hst; [done|]. destruct (negb reactor); [done|].
  assert (forall s1 s2, session_ok s1 /\ extends s s1 -> (session_ok s1 -> session_ok s2 /\ extends s1 s2) -> session_ok s2 /\ extends s s2) as Htr.
  { intros s1 s2 [H1 H2] H3. destruct (H3 H1). split; [done|by etrans]. }
  assert (session_ok (set_active active s) /\ extends s (set_active active s)) as Ha by (apply same_session; try done; by rewrite Hst).
  destruct active.
  - destruct (wd_schedule _ _ _) as [ok wd]. assert (session_ok (set_syn wd (set_active true s)) /\ extends s (set_syn wd (set_active true s))) as Hs by (apply same_session; try done; by rewrite Hst).
    destruct ok; cbn [snd]; [by apply (Htr _ _ Hs); apply same_session|]. apply (Htr _ _ Hs). intros Hs1.
    destruct (kind_ (set_syn wd (set_active true s))) as [r|e] eqn:Hk; [|done]. by apply watchdog_step.
  - cbn [kind_ set_active]. destruct (kind_ s) as [r|e] eqn:Hk; cbn [snd]; [|by apply (Htr _ _ Ha); apply same_session].
    set (s1 := if acked then set_acked true (set_active false s) else set_active false s).
    assert (session_ok s1 /\ extends s s1 /\ kind_ s1 = Reliable r) as (H1 & H2 & Hk1).
    { subst s1. destruct acked; [|split_and!; try apply Ha; done]. split_and!; [| |done].
      - split; [|apply Hok]. cbn. intros ? E. rewrite Hk in E. injection E as <-. by destruct (so_part _ Hok r Hk).
      - split; [done|done| |cbn; eauto|by rewrite Hst]. cbn. intros ? E. exists r0. rewrite Hk in E |- *. done. }
    destruct (wd_schedule _ _ _) as [ok wd]. destruct (watchdog_step s1 r wd Hk1 H1) as [H3 H4].
    destruct ok; cbn [snd]; [apply (Htr (set_kind (Reliable (set_nak_watchdog wd r)) s1)); [split; [done|by etrans]|by apply same_session]|split; [done|by etrans]].
Qed.


End steps.
End MulticastSteps.
