(* ===== verification/MulticastProps.v ===== *)
(** * Reliable delivery over multicast

    Runs of a link ([run]): datagrams, samples, fragments, timers and new
    sessions, in any order. *)

From S2P Require Import Prelude MessageBlock SequenceNumber DisjointSequence Serializer TransportSendStrategy TransportSendProps TransportSendBuffer DataSampleHeader TransportReassembly TransportHeader Multicast MulticastLemmas MulticastNaks MulticastSteps.
Import TransportSendBuffer DataSampleHeader TransportReassembly TransportHeader Multicast MulticastLemmas MulticastNaks MulticastSteps.

Module MulticastProps.

(** ** The sessions of a link *)

Section sessions.
Context {MB : Type} `{MessageBlock MB}.
Implicit Types (l : list (Z * MulticastSession MB)).

Lemma sessions_find_elem p l s : sessions_find p l = Some s -> (p, s) ∈ l.
Proof.
  induction l as [|[q s'] l IH]; cbn [sessions_find]; [done|]. destruct (Z.eqb_spec p q) as [->|]; [intros [= ->]; by left|right; auto].
Qed.

Lemma sessions_find_update p q s l :
  sessions_find p (sessions_update q s l) = if p =? q then (match sessions_find p l with Some _ => Some s | None => None end) else sessions_find p l.
Proof.
  induction l as [|[p' s'] l IH]; cbn [sessions_update sessions_find]; [by destruct (p =? q)|].
  destruct (Z.eqb_spec q p') as [->|Hq]; cbn [sessions_find]; [by destruct (p =? p')|].
  destruct (Z.eqb_spec p p') as [->|]; [|done]. by rewrite (proj2 (Z.eqb_neq p' q)).
Qed.

Lemma sessions_find_insert p q s l : sessions_find q l = None ->
  sessions_find p (sessions_insert q s l) = if p =? q then Some s else sessions_find p l.
Proof.
  induction l as [|[p' s'] l IH]; cbn [sessions_insert sessions_find]; [done|]. destruct (Z.eqb_spec q p'); [done|]. intros Hn.
  destruct (q <? p'); cbn [sessions_find]; [done|]. rewrite IH by done. destruct (Z.eqb_spec p p') as [->|]; [|done]. by destruct (Z.eqb_spec p' q).
Qed.

Lemma Forall_update (P : Z * MulticastSession MB -> Prop) q s l : P (q, s) -> Forall P l -> Forall P (sessions_update q s l).
Proof.
  intros Hs. induction 1 as [|[p s'] l Hp Hl IH]; cbn [sessions_update]; [constructor|]. destruct (Z.eqb_spec q p) as [->|]; by constructor.
Qed.

Lemma Forall_insert_session (P : Z * MulticastSession MB -> Prop) q s l : P (q, s) -> Forall P l -> Forall P (sessions_insert q s l).
Proof.
  intros Hs. induction 1 as [|[p s'] l Hp Hl IH]; cbn [sessions_insert]; [by apply Forall_singleton|].
  repeat case_match; rewrite ?Forall_cons; tauto.
Qed.
End sessions.

(** ** Runs *)

Section runs.
Context {MB : Type} {MBo : MessageBlock MB} {MBl : MessageBlockLaws MB}.
Implicit Types (d : MulticastDataLink MB) (s : MulticastSession MB) (r : ReliablePart).

(** The arrival of a datagram and of the samples and fragments in it, the
    timers, a session started by the transport, and the send buffer after
    datagrams were sent. *)
Inductive Event :=
| Datagram (header : TransportHeader)
| Sample (header : TransportHeader) (sample : ReceivedDataSample MB)
| Fragment (header : TransportHeader) (data : ReceivedDataSample MB)
| NakTimer (peer now1 now2 now3 : Z) (registered : bool)
| SynTimer (peer now now2 : Z) (registered : bool)
| StartSession (peer : Z) (reactor registered : bool) (now : Z) (active acked : bool)
| Sent (buffer : SingleSendBuffer (MB := MB)).

(** The answer is that of [check_header]. *)
Definition step (ev : Event) d : outcome (MulticastDataLink MB * bool) :=
  match ev with
  | Datagram header => '(ok, d) ← link_check_header header d; Ret (d, ok)
  | Sample header sample => '(d, _) ← sample_received header sample d; Ret (d, false)
  | Fragment header data => Ret ((link_reassemble data header d).1, false)
  | NakTimer peer now1 now2 now3 registered =>
      match sessions_find peer (sessions_ d) with
      | Some s =>
          match kind_ s with
          | Reliable r => '(s, _) ← nak_timeout (link_ d) now1 now2 now3 registered s r; Ret (set_sessions (sessions_update peer s (sessions_ d)) d, false)
          | BestEffort _ => Ret (d, false)
          end
      | None => Ret (d, false)
      end
  | SynTimer peer now now2 registered =>
      match sessions_find peer (sessions_ d) with
      | Some s => '(s, _) ← syn_timeout (link_ d) now now2 registered s; Ret (set_sessions (sessions_update peer s (sessions_ d)) d, false)
      | None => Ret (d, false)
      end
  | StartSession peer reactor registered now active acked => Ret ((start_session peer reactor registered now active acked d).2, false)
  | Sent buffer => Ret (mkDL (mkSL (local_peer_ (link_ d)) (config_ (link_ d)) (Some buffer)) (is_active_ d) (reliable_ d) (sessions_ d), false)
  end.

(** Valid inputs: numbers below the largest, control samples as peers send them
    and in one block, and a clock that does not go back (with no more gaps and
    marks than 32 bits count). *)
Definition allowed (ev : Event) d : Prop :=
  match ev with
  | Datagram header => number_ok (th_sequence_ header)
  | Sample header sample =>
      number_ok (th_sequence_ header) /\ (message_id_ (TransportReassembly.header_ sample) = TRANSPORT_CONTROL_ID ->
        exists control, sample_ sample = Some control /\ control_sent header (submessage_id_ (TransportReassembly.header_ sample)) control)
  | NakTimer peer _ now2 _ _ => forall s r, sessions_find peer (sessions_ d) = Some s -> kind_ s = Reliable r ->
      Forall (fun e => e.1 <= now2) (nak_requests_ r) /\ countable_timer r
  | _ => True
  end.

(** The same, with offers for sessions that have something below them. *)
Definition timely (ev : Event) d : Prop :=
  match ev with
  | Datagram header => number_ok (th_sequence_ header)
  | Sample header sample =>
      number_ok (th_sequence_ header) /\ (message_id_ (TransportReassembly.header_ sample) = TRANSPORT_CONTROL_ID ->
        exists control, sample_ sample = Some control /\
          (submessage_id_ (TransportReassembly.header_ sample) = MULTICAST_SYN ->
             exists peer, is_s 32 peer /\ block_with control (wire (transport_swap_bytes header) 4 peer)) /\
          Forall (fun e => control_ok header e.2 (submessage_id_ (TransportReassembly.header_ sample)) control) (sessions_ d))
  | NakTimer peer _ now2 _ _ => forall s r, sessions_find peer (sessions_ d) = Some s -> kind_ s = Reliable r ->
      Forall (fun e => e.1 <= now2) (nak_requests_ r) /\ countable_timer r
  | _ => True
  end.

Record link_ok d : Prop := mkLO {
  lk_sessions : Forall (fun e => session_ok e.2 /\ remote_peer_ e.2 = e.1 /\ forall r, kind_ e.2 = Reliable r -> reliable_ d = true) (sessions_ d);
  lk_buffer : reliable_ d = true -> is_Some (send_buffer_ (link_ d)) }.

(** What an operation on one session does to the link. *)
Lemma update_ok d p s s' : link_ok d -> sessions_find p (sessions_ d) = Some s -> session_ok s' -> extends s s' ->
  link_ok (set_sessions (sessions_update p s' (sessions_ d)) d) /\
  forall q s1, sessions_find q (sessions_ d) = Some s1 -> exists s2, sessions_find q (sessions_update p s' (sessions_ d)) = Some s2 /\ extends s1 s2 /\ (q = p -> s2 = s').
Proof.
  intros [Hs Hb] Hf Hok Hex. pose proof (sessions_find_elem _ _ _ Hf) as Hel. pose proof (proj1 (Forall_forall _ _) Hs _ Hel) as (_ & Hp & Hr). cbn in Hp, Hr. split.
  - split; [|done]. cbn. apply Forall_update; [|done]. cbn. split_and!; [done|by rewrite (ex_peer _ _ Hex)|]. intros r' Hr'. destruct (ex_back _ _ Hex r' Hr') as [r ?]. eauto.
  - intros q s1 Hq. rewrite sessions_find_update. destruct (Z.eqb_spec q p) as [->|]; [|exists s1; split_and!; [done|apply extends_preorder|done]].
    rewrite Hf in Hq. injection Hq as <-. exists s'. by rewrite Hf.
Qed.
(** What a control sample does to a session. *)
Definition controlled (L : SessionLink MB) header id control s s' : Prop :=
  exists b acts rest, session_control_received L header id control s = Ret (b, s', acts, rest).

Lemma control_each_ok (L : SessionLink MB) header id control l : number_ok (th_sequence_ header) -> length control = 1%nat ->
  Forall (fun e => session_ok e.2 /\ forall r, kind_ e.2 = Reliable r -> is_Some (send_buffer_ L)) l ->
  Forall (fun e => control_ok header e.2 id control) l ->
  exists l' acts, control_each L header id control l = Ret (l', acts) /\
    Forall2 (fun e e' => e'.1 = e.1 /\ session_ok e'.2 /\ extends e.2 e'.2 /\ controlled L header id control e.2 e'.2) l l'.
Proof.
  intros Hn Hlen. induction l as [|[p s] l IH]; intros Hok Hco; cbn [control_each]; [by eexists _, _|].
  apply Forall_cons in Hok as [[Hs Hb] Hok]. apply Forall_cons in Hco as [Hc Hco].
  destruct (control_received_ok L header id control s Hs Hn Hb Hc) as (b & s' & acts & rest & E & Hs' & Hex & Hl). rewrite E. cbn [mbind outcome_bind].
  assert (reset_rd_ptr control rest = control) as ->.
  { destruct control as [|c [|? ?]]; [done| |done]. destruct rest as [|x [|? ?]]; done. }
  destruct (IH Hok Hco) as (l' & more & -> & HF). cbn [mbind outcome_bind]. eexists _, _. split; [done|]. constructor; [|done].
  split_and!; [done..|]. by exists b, acts, rest.
Qed.

Lemma find_related (P : MulticastSession MB -> MulticastSession MB -> Prop) l l' : Forall2 (fun e e' : Z * MulticastSession MB => e'.1 = e.1 /\ session_ok e'.2 /\ extends e.2 e'.2 /\ P e.2 e'.2) l l' ->
  forall q s, sessions_find q l = Some s -> exists s', sessions_find q l' = Some s' /\ extends s s' /\ P s s'.
Proof.
  induction 1 as [|[p s] [p' s'] l l' (E & Ho & He & Hp) HF IH]; intros q s0; cbn [sessions_find]; [done|]. cbn in E, He, Hp. subst p'.
  destruct (q =? p); [|apply IH]. intros [= <-]. eauto.
Qed.

(** No session is lost and none forgets. *)
Definition keeps d d' : Prop :=
  forall q s, sessions_find q (sessions_ d) = Some s -> exists s', sessions_find q (sessions_ d') = Some s' /\ extends s s'.

Definition served (o : outcome (MulticastDataLink MB * bool)) d : Prop :=
  exists d' ok, o = Ret (d', ok) /\ link_ok d' /\ keeps d d'.

Lemma keeps_refl d : keeps d d.
Proof. intros q s Hf. exists s. split; [done|apply extends_preorder]. Qed.

Lemma served_same d ok : link_ok d -> served (Ret (d, ok)) d.
Proof. intros Hd. eexists _, _. split; [done|]. split; [done|apply keeps_refl]. Qed.

Lemma link_session d p s : link_ok d -> sessions_find p (sessions_ d) = Some s -> session_ok s /\ remote_peer_ s = p.
Proof. intros [Hs _] Hf. pose proof (proj1 (Forall_forall _ _) Hs _ (sessions_find_elem _ _ _ Hf)) as (? & ? & _). done. Qed.

Lemma served_update d p s s' ok : link_ok d -> sessions_find p (sessions_ d) = Some s -> session_ok s' -> extends s s' ->
  served (Ret (set_sessions (sessions_update p s' (sessions_ d)) d, ok)) d.
Proof.
  intros Hd Hf Ho He. destruct (update_ok d p s s' Hd Hf Ho He) as [H1 H2]. eexists _, _. split; [done|]. split; [done|].
  intros q s1 Hq. destruct (H2 q s1 Hq) as (s2 & ? & ? & _). eauto.
Qed.

Lemma control_sample_ok header (sample : ReceivedDataSample MB) control d : link_ok d -> number_ok (th_sequence_ header) ->
  Forall (fun e => control_ok header e.2 (submessage_id_ (TransportReassembly.header_ sample)) control) (sessions_ d) ->
  exists l' acts, control_each (link_ d) header (submessage_id_ (TransportReassembly.header_ sample)) control (sessions_ d) = Ret (l', acts) /\
    link_ok (set_sessions l' d) /\ forall q s, sessions_find q (sessions_ d) = Some s -> exists s', sessions_find q l' = Some s' /\ extends s s' /\
      controlled (link_ d) header (submessage_id_ (TransportReassembly.header_ sample)) control s s'.
Proof.
  intros [Hs Hb] Hn Hall. assert (sessions_ d = [] \/ length control = 1%nat) as [Hnil|Hlen].
  { destruct (sessions_ d); [by left|right]. apply Forall_cons in Hall as [Hc _]. by eapply control_ok_length. }
  { rewrite Hnil. eexists _, _. split; [done|]. split; [split; [constructor|done]|done]. }
  destruct (control_each_ok (link_ d) header (submessage_id_ (TransportReassembly.header_ sample)) control (sessions_ d) Hn Hlen) as (l' & acts & -> & HF);
    [|done|]. { eapply Forall_impl; [exact Hs|]. intros e (? & _ & Hr). split; [done|]. intros r Hk. by eapply Hb, Hr. }
  eexists _, _. split; [done|]. split; [|exact (find_related _ _ _ HF)]. split; [|done]. cbn. clear -Hs HF.
  induction HF as [|e e' l l' (E & Ho & Hex & _) HF IH]; [constructor|]. apply Forall_cons in Hs as [(_ & Hp & Hr) Hs]. constructor; [|auto]. split_and!; [done| |].
  - by rewrite (ex_peer _ _ Hex), E.
  - intros r' Hr'. destruct (ex_back _ _ Hex r' Hr') as [r ?]. eauto.
Qed.

Lemma sample_ok header sample d : link_ok d -> timely (Sample header sample) d -> served (step (Sample header sample) d) d.
Proof.
  intros Hd [Hn Hco]. cbn [step]. unfold sample_received.
  destruct (Z.eqb_spec (message_id_ (TransportReassembly.header_ sample)) TRANSPORT_CONTROL_ID) as [Hid|];
    [|destruct (_ =? SAMPLE_ACK_ID); by apply served_same].
  destruct (Hco Hid) as (control & -> & Hsyn & Hall). change (default [] (Some control)) with control. destruct (_ && _ && _) eqn:Hno.
  - apply andb_true_iff in Hno as [[_ Hsub%Z.eqb_eq]%andb_true_iff _]. destruct (Hsyn Hsub) as (peer & Hp & [_ [tl Hbk]]). unfold syn_received_no_session.
    destruct (read_peer_ok control _ _ peer tl Hp (rd0_start control (transport_swap_bytes header) _ Hbk)) as (ser & -> & _). cbn [mbind outcome_bind].
    destruct (negb _); [by apply served_same|]. destruct (peer_data_ok (MB := MB) (source_ header)) as (data & -> & _). by apply served_same.
  - destruct (control_sample_ok header sample control d Hd Hn Hall) as (l' & acts & -> & Hd' & Hk). cbn [mbind outcome_bind].
    eexists _, _. split; [done|]. split; [done|]. intros q s Hq. destruct (Hk q s Hq) as (s' & ? & ? & _). eauto.
Qed.

Lemma fragment_ok header data d : link_ok d -> served (step (Fragment header data) d) d.
Proof.
  intros Hd. cbn [step]. unfold link_reassemble. destruct (sessions_find (source_ header) (sessions_ d)) as [s|] eqn:Hf; [|by apply served_same].
  destruct (acked_ s); [|by apply served_same]. destruct (link_session _ _ _ Hd Hf) as [Hok Hp]. unfold session_reassemble.
  pose proof (reassemble_chunks (reassembly_ s) (th_sequence_ header) (first_fragment_ header) data (so_chunks _ Hok)) as Hc.
  destruct (reassemble _ _ _ data) as [tr x]. cbn [fst] in Hc |- *. eapply served_update; [done|exact Hf| |by split; eauto]. split; [|done]. apply Hok.
Qed.

Lemma new_session_ok peer k : (forall r, k = Reliable r -> r = mkRP new_watchdog [] [] []) -> session_ok (new_session (MB := MB) peer k).
Proof.
  intros Hk. split; [|apply map_Forall_empty]. intros r Hr. rewrite (Hk r Hr). split; [|done]. split; [done|split; constructor|constructor..].
Qed.

Lemma start_session_ok peer reactor registered now active acked d : link_ok d -> served (step (StartSession peer reactor registered now active acked) d) d.
Proof.
  intros Hd. cbn [step]. unfold start_session, find_or_create_session. destruct (sessions_find peer (sessions_ d)) as [s|] eqn:Hf.
  - destruct (link_session _ _ _ Hd Hf) as [Hok Hp]. destruct (session_start_ok reactor registered now active acked s Hok) as [H1 H2].
    destruct (session_start _ _ _ _ _ s) as [ok s']. by eapply served_update.
  - set (s := if reliable_ d then ReliableSession_new peer else BestEffortSession_new peer).
    assert (session_ok s /\ remote_peer_ s = peer /\ forall r, kind_ s = Reliable r -> reliable_ d = true) as Hs.
    { subst s. destruct (reliable_ d); (split; [apply new_session_ok; by intros ? [=]|by split]). }
    set (d1 := set_sessions (sessions_insert peer s (sessions_ d)) d). assert (link_ok d1) as Hd1.
    { destruct Hd as [Hl Hb]. split; [|done]. by apply Forall_insert_session. }
    assert (sessions_find peer (sessions_ d1) = Some s) as Hf1 by (cbn; by rewrite sessions_find_insert, Z.eqb_refl).
    destruct Hs as (Hok & _ & _). destruct (session_start_ok reactor registered now active acked s Hok) as [H1 H2].
    destruct (session_start _ _ _ _ _ s) as [ok s']. destruct (served_update d1 peer s s' false Hd1 Hf1 H1 H2) as (d' & ? & [= <- <-] & Hd' & Hk).
    eexists _, _. split; [done|]. split; [done|]. intros q s1 Hq. apply Hk. cbn. rewrite sessions_find_insert by done.
    destruct (Z.eqb_spec q peer) as [->|]; [congruence|done].
Qed.

Lemma datagram_ok header d : link_ok d -> number_ok (th_sequence_ header) ->
  exists d' ok, step (Datagram header) d = Ret (d', ok) /\ link_ok d' /\ keeps d d' /\
    forall s r, sessions_find (source_ header) (sessions_ d) = Some s -> acked_ s = true -> kind_ s = Reliable r ->
       exists s' r', sessions_find (source_ header) (sessions_ d') = Some s' /\ kind_ s' = Reliable r' /\
         (forall v, covers (nak_sequence_ r') v <-> covers (nak_sequence_ r) v \/ v = getValue (th_sequence_ header)) /\
         (ok = false <-> covers (nak_sequence_ r) (getValue (th_sequence_ header))).
Proof.
  intros Hd Hn. cbn [step]. unfold link_check_header. destruct (sessions_find (source_ header) (sessions_ d)) as [s|] eqn:Hf;
    [destruct (acked_ s) eqn:Hack|]; [|eexists _, _; split; [done|]; split_and!; [done|apply keeps_refl|]; intros; simplify_eq; congruence..].
  destruct (link_session _ _ _ Hd Hf) as [Hok Hp]. destruct (check_header_ok header s Hok Hn) as (ok & s' & -> & Hok' & Hex & _ & _ & Hk). cbn [mbind outcome_bind].
  destruct (served_update d _ s s' ok Hd Hf Hok' Hex) as (d' & ? & [= <- <-] & H1 & H2). eexists _, _. split; [done|]. split_and!; [done..|].
  intros ? r [= <-] _ Hr. destruct (Hk r Hr Hp) as (seqs' & Hk' & Hc & Hz). exists s', (set_nak_sequence seqs' r). split_and!; [|done..].
  cbn. by rewrite sessions_find_update, Z.eqb_refl, Hf.
Qed.

(** A valid event is served. *)
Lemma step_ok ev d : link_ok d -> timely ev d -> served (step ev d) d.
Proof.
  intros Hd Ha. destruct ev as [header|header sample|header data|peer now1 now2 now3 registered|peer now now2 registered|peer reactor registered now active acked|buffer].
  - destruct (datagram_ok header d Hd Ha) as (d' & ok & ? & ? & ? & _). by exists d', ok.
  - by apply sample_ok.
  - by apply fragment_ok.
  - cbn [step]. destruct (sessions_find peer (sessions_ d)) as [s|] eqn:Hf; [|by apply served_same].
    destruct (kind_ s) as [r|e] eqn:Hk; [|by apply served_same]. destruct (link_session _ _ _ Hd Hf) as [Hok Hp]. destruct (Ha s r Hf Hk) as [Ht Hc].
    destruct (nak_timeout_ok (link_ d) now1 now2 now3 registered s r Hk Hok Ht Hc) as (s' & acts & -> & Hok' & Hex). by eapply served_update.
  - cbn [step]. destruct (sessions_find peer (sessions_ d)) as [s|] eqn:Hf; [|by apply served_same]. destruct (link_session _ _ _ Hd Hf) as [Hok Hp].
    destruct (syn_timeout_ok (link_ d) now now2 registered s Hok) as (s' & acts & -> & Hok' & Hex). by eapply served_update.
  - by apply start_session_ok.
  - destruct Hd as [Hs Hb]. eexists _, _. split; [done|]. split; [split; [done|by eexists]|]. exact (keeps_refl d).
Qed.

(** An offer, with the session that hears it without anything below it. *)
Definition late_offer (ev : Event) d : Prop :=
  exists header sample control low e, ev = Sample header sample /\
    message_id_ (TransportReassembly.header_ sample) = TRANSPORT_CONTROL_ID /\ submessage_id_ (TransportReassembly.header_ sample) = MULTICAST_NAKACK /\
    sample_ sample = Some control /\ block_with control (sn_image (transport_swap_bytes header) low) /\ number_ok low /\ 1 < getValue low /\
    e ∈ sessions_ d /\ late header low e.2.

(** An event the link does not survive. *)
Definition cut (ev : Event) d : Prop := late_offer ev d /\ (step ev d = Throw \/ step ev d = UB).

Lemma control_each_cases (L : SessionLink MB) header id control l : number_ok (th_sequence_ header) -> control_sent header id control ->
  Forall (fun e => session_ok e.2 /\ forall r, kind_ e.2 = Reliable r -> is_Some (send_buffer_ L)) l ->
  Forall (fun e => control_ok header e.2 id control) l \/
  exists low e, id = MULTICAST_NAKACK /\ number_ok low /\ 1 < getValue low /\ block_with control (sn_image (transport_swap_bytes header) low) /\ e ∈ l /\ late header low e.2 /\
    (control_each L header id control l = Throw \/ control_each L header id control l = UB).
Proof.
  intros Hn Hc Hl. induction Hl as [|[p s] l [Hok Hb] Hl IH]; [by left|]. cbn [snd] in *. cbn [control_each].
  destruct (control_sent_cases L header id control s Hok Hn Hc) as [Hco|(low & H1 & H2 & H3 & H4 & H5 & Hf)].
  2:{ right. exists low, (p, s). split_and!; [done..|by left|done|]. destruct Hf as [-> | ->]; [by left|by right]. }
  destruct (control_received_ok L header id control s Hok Hn Hb Hco) as (b & s' & acts & rest & -> & _ & _ & Hlr). cbn [mbind outcome_bind].
  pose proof (control_ok_length _ _ _ _ Hco) as Hlen. assert (reset_rd_ptr control rest = control) as ->.
  { destruct control as [|c [|? ?]]; [done| |done]. destruct rest as [|x [|? ?]]; done. }
  destruct IH as [IH|(low & e & H1 & H2 & H3 & H4 & H5 & H6 & Hf)]; [left; by constructor|right].
  exists low, e. split_and!; [done..|by right|done|]. destruct Hf as [-> | ->]; [by left|by right].
Qed.

Lemma allowed_cases ev d : link_ok d -> allowed ev d -> timely ev d \/ cut ev d.
Proof.
  intros Hd. destruct ev as [header|header sample|header data|peer now1 now2 now3 registered|peer now now2 registered|peer reactor registered now active acked|buffer];
    try (by left). intros [Hn Hc]. cbn [timely].
  destruct (decide (message_id_ (TransportReassembly.header_ sample) = TRANSPORT_CONTROL_ID)) as [Hid|Hid]; [|left; by split].
  destruct (Hc Hid) as (control & Hs & Hcs). destruct (control_each_cases (link_ d) header _ control (sessions_ d) Hn Hcs) as [Hall|(low & e & H1 & H2 & H3 & H4 & H5 & H6 & Hf)].
  { destruct Hd as [Hl Hb]. eapply Forall_impl; [exact Hl|]. intros e (? & _ & Hr). split; [done|]. intros r Hk. by eapply Hb, Hr. }
  - left. split; [done|]. intros _. exists control. split; [done|]. split; [|done]. intros Hsyn. rewrite Hsyn in Hcs.
    inversion Hcs as [? ? peer _ Hp Hbk| | |]; subst; [|done]. by exists peer.
  - right. split; [by exists header, sample, control, low, e|]. cbn [step]. unfold sample_received. rewrite Hid, H1, Hs. cbn iota.
    change (TRANSPORT_CONTROL_ID =? TRANSPORT_CONTROL_ID) with true. change (default [] (Some control)) with control. cbn iota.
    change (MULTICAST_NAKACK =? MULTICAST_SYN) with false. rewrite andb_false_r. cbn [andb]. rewrite H1 in Hf. destruct Hf as [-> | ->]; [by left|by right].
Qed.

(** ** Exactly once *)

(** The events of a run with the answers of [check_header]. *)
Fixpoint run d (evs : list Event) : outcome (MulticastDataLink MB * list (Event * bool)) :=
  match evs with
  | [] => Ret (d, [])
  | ev :: evs => '(d, ok) ← step ev d; '(d, trace) ← run d evs; Ret (d, (ev, ok) :: trace)
  end.

Fixpoint timely_run d (evs : list Event) : Prop :=
  match evs with
  | [] => True
  | ev :: evs => timely ev d /\ forall d' ok, step ev d = Ret (d', ok) -> timely_run d' evs
  end.

(** The numbers of the datagrams of [peer] that got the answer [ok]. *)
Definition answered (peer : Z) (ok : bool) (trace : list (Event * bool)) : list Z :=
  omap (fun e => match e with
                 | (Datagram header, ok') => if (source_ header =? peer) && bool_decide (ok' = ok) then Some (getValue (th_sequence_ header)) else None
                 | _ => None end) trace.

Fixpoint allowed_run d (evs : list Event) : Prop :=
  match evs with
  | [] => True
  | ev :: evs => allowed ev d /\ forall d' ok, step ev d = Ret (d', ok) -> allowed_run d' evs
  end.

(** A run that returns holds no event the link does not survive. *)
Lemma run_not_cut before : forall d ev rest x d' trace, run d (before ++ ev :: rest) = Ret x -> run d before = Ret (d', trace) -> ~ cut ev d'.
Proof.
  induction before as [|e before IH]; intros d ev rest x d' trace; cbn [app run].
  - intros ([d1 ok] & E & _)%outcome_bind_Ret [= <- _] [_ [H|H]]; congruence.
  - intros ([d1 ok] & E & ([d2 t] & Ht & _)%outcome_bind_Ret)%outcome_bind_Ret. rewrite E. cbn [mbind outcome_bind].
    intros ([d3 t3] & Ht3 & [= <- _])%outcome_bind_Ret. exact (IH _ _ _ _ _ _ Ht Ht3).
Qed.

(** The link serves a run of valid inputs up to an offer it does not survive. *)
Lemma run_upto evs : forall d, link_ok d -> allowed_run d evs ->
  exists before after d' trace, evs = before ++ after /\ timely_run d before /\ run d before = Ret (d', trace)
    /\ (after = [] \/ exists ev rest, after = ev :: rest /\ cut ev d').
Proof.
  induction evs as [|ev evs IH]; intros d Hd Ha; [by exists [], [], d, []; split_and!; [..|left]|].
  destruct Ha as [Hev Hrest]. destruct (allowed_cases ev d Hd Hev) as [Ht|Hc].
  2:{ exists [], (ev :: evs), d, []. split_and!; [done..|]. right. by exists ev, evs. }
  destruct (step_ok ev d Hd Ht) as (d1 & ok & E & Hd1 & _). destruct (IH d1 Hd1 (Hrest d1 ok E)) as (before & after & d' & trace & -> & Hb & Hr & Hc).
  exists (ev :: before), after, d', ((ev, ok) :: trace). split_and!; [done| |cbn [run]; rewrite E; cbn [mbind outcome_bind]; by rewrite Hr|done].
  split; [done|]. intros d2 ok2 E2. rewrite E in E2. by injection E2 as <- <-.
Qed.

Lemma run_exactly_once evs : forall d, link_ok d -> timely_run d evs ->
  exists d' trace, run d evs = Ret (d', trace) /\ link_ok d' /\
    forall peer s r, sessions_find peer (sessions_ d) = Some s -> acked_ s = true -> kind_ s = Reliable r ->
      exists s' r', sessions_find peer (sessions_ d') = Some s' /\ acked_ s' = true /\ kind_ s' = Reliable r' /\
        NoDup (answered peer true trace) /\ (forall v, v ∈ answered peer true trace -> ~ covers (nak_sequence_ r) v) /\
        (forall v, covers (nak_sequence_ r) v \/ v ∈ answered peer true trace \/ v ∈ answered peer false trace -> covers (nak_sequence_ r') v).
Proof.
  induction evs as [|ev evs IH]; intros d Hd Ha; cbn [run].
  { eexists _, _. split; [done|]. split; [done|]. intros p s r Hf Hack Hk. exists s, r. split_and!; [done..|constructor|by intros v Hv%elem_of_nil|].
    cbn. intros v [?|[Hv|Hv]]; [done|by apply elem_of_nil in Hv..]. }
  destruct Ha as [Hev Hrest].
  assert (exists d1 ok, step ev d = Ret (d1, ok) /\ link_ok d1 /\ forall peer s r, sessions_find peer (sessions_ d) = Some s -> acked_ s = true -> kind_ s = Reliable r ->
    exists s1 r1, sessions_find peer (sessions_ d1) = Some s1 /\ acked_ s1 = true /\ kind_ s1 = Reliable r1 /\
      (forall v, covers (nak_sequence_ r) v -> covers (nak_sequence_ r1) v) /\
      forall v b, v ∈ answered peer b [(ev, ok)] -> covers (nak_sequence_ r1) v /\ (b = true -> ~ covers (nak_sequence_ r) v)) as (d1 & ok & Est & Hd1 & Hk1).
  { destruct ev as [header| | | | | |]; cycle 1;
      [destruct (step_ok _ d Hd Hev) as (d1 & ok & E & Hd1 & Hkeep); exists d1, ok; split; [done|]; split; [done|];
        intros p s r Hf Hack Hk; destruct (Hkeep p s Hf) as (s1 & Hf1 & Hex); destruct (ex_kind _ _ Hex r Hk) as (r1 & Hk1 & Hc1);
        exists s1, r1; split_and!; [done|by apply Hex|done|by apply Hc1|by intros v b Hv%elem_of_nil]..|].
    destruct (datagram_ok header d Hd Hev) as (d1 & ok & E & Hd1 & Hkeep & Hrec). exists d1, ok. split; [done|]. split; [done|].
    intros p s r Hf Hack Hk. destruct (Hkeep p s Hf) as (s1 & Hf1 & Hex). destruct (ex_kind _ _ Hex r Hk) as (r1 & Hk1 & Hc1).
    exists s1, r1. split_and!; [done|by apply Hex|done|by apply Hc1|]. intros v b. unfold answered. cbn [omap list_omap].
    destruct (Z.eqb_spec (source_ header) p) as [Hp|]; [|by intros Hv%elem_of_nil]. cbn [andb]. case_bool_decide as Hb; [|by intros Hv%elem_of_nil].
    intros ->%list_elem_of_singleton. subst p b. destruct (Hrec s r Hf Hack Hk) as (s2 & r2 & Hf2 & Hk2 & Hc2 & Hok). rewrite Hf1 in Hf2. injection Hf2 as <-.
    rewrite Hk1 in Hk2. injection Hk2 as <-. split; [apply Hc2; by right|]. intros -> Hc. by apply Hok in Hc. }
  rewrite Est. cbn [mbind outcome_bind]. destruct (IH d1 Hd1 (Hrest d1 ok Est)) as (d' & trace & -> & Hd' & Hk2). cbn [mbind outcome_bind].
  eexists _, _. split; [done|]. split; [done|]. intros peer s r Hf Hack Hk. destruct (Hk1 peer s r Hf Hack Hk) as (s1 & r1 & Hf1 & Hack1 & Hkd1 & Hc1 & Ha1).
  destruct (Hk2 peer s1 r1 Hf1 Hack1 Hkd1) as (s' & r' & Hf' & Hack' & Hkd' & Hnd & Hnew & Hc2). exists s', r'.
  assert (forall b, answered peer b ((ev, ok) :: trace) = answered peer b [(ev, ok)] ++ answered peer b trace) as Hsplit.
  { intros b. unfold answered. by rewrite <- omap_app. }
  split_and!; [done..| | |].
  - rewrite Hsplit. apply NoDup_app. split_and!; [|intros v Hv Hv'; apply (Hnew v Hv'), (Ha1 v true Hv)|done].
    unfold answered. cbn [omap list_omap]. destruct (match ev with Datagram _ => _ | _ => _ end); [apply NoDup_singleton|constructor].
  - intros v. rewrite Hsplit. intros [Hv|Hv]%elem_of_app Hc; [by apply (Ha1 v true Hv)|]. by apply (Hnew v Hv), Hc1.
  - intros v. rewrite !Hsplit, !elem_of_app. intros [Hv|[[Hv|Hv]|[Hv|Hv]]]; apply Hc2; [left; by apply Hc1|left; by apply (Ha1 v true)|tauto|left; by apply (Ha1 v false)|tauto].
Qed.

(** ** Repair *)

(** The session of a writer that is asked for [ranges] offers what its buffer
    has from [low] on, and sends the ranges again. *)
Lemma nak_answered (L : SessionLink MB) header data s r0 b low x ranges :
  session_ok s -> kind_ s = Reliable r0 -> active_ s = true -> remote_peer_ s = source_ header -> local_peer_ L <> source_ header -> is_s 32 (local_peer_ L) ->
  number_ok (th_sequence_ header) -> transport_swap_bytes header = false -> send_buffer_ L = Some b -> sb_low b = Ret low -> sn_valid low ->
  holds data (nak_image false (local_peer_ L) (x :: ranges)) -> wf (x :: ranges) -> is_u 32 (Z.of_nat (length (x :: ranges))) ->
  exists s' offer rest, session_control_received L header MULTICAST_NAK data s = Ret (true, s', offer ++ (Resend <$> x :: ranges), rest) /\
    (if getValue x.1 <? getValue low then exists nd, offer = [send_control MULTICAST_NAKACK nd] /\ holds nd (sn_image false low) else offer = []).
Proof.
  intros Hok Hk Hact Hp Hne Hl Hn Hsw Hbuf Hlow Hvl [Hb Hlen] Hw Hu. unfold session_control_received, control_received_base.
  assert (exists s1 r1, (if negb (acked_ s) && (remote_peer_ s =? source_ header) then '(_, s) ← session_check_header header s; Ret s else Ret s) = Ret s1 /\
    kind_ s1 = Reliable r1 /\ active_ s1 = true /\ remote_peer_ s1 = source_ header) as (s1 & r1 & -> & Hk1 & Ha1 & Hp1).
  { rewrite Hp, Z.eqb_refl. destruct (acked_ s); cbn [negb andb]; [by exists s, r0|]. destruct (check_header_ok header s Hok Hn) as (ok & s1 & -> & _ & Hex & _ & Ha & _).
    cbn [mbind outcome_bind]. destruct (ex_kind _ _ Hex r0 Hk) as (r1 & ? & _). exists s1, r1. split_and!; [done|done|by rewrite Ha|by rewrite (ex_peer _ _ Hex)]. }
  cbn [mbind outcome_bind Z.eqb Pos.eqb MULTICAST_SYN MULTICAST_SYNACK MULTICAST_NAK]. rewrite Hk1. unfold nak_received. rewrite Ha1. cbn [negb]. rewrite Hsw.
  assert (Forall range_valid (x :: ranges)) as Hv.
  { eapply Forall_impl; [exact (wf_from_ok _ _ Hw)|]. intros y (? & ? & _). split; by apply sn_valid_ok. }
  unfold nak_image in Hb. rewrite <- (app_nil_r (concat _)) in Hb.
  destruct (read_peer_ok data _ _ (local_peer_ L) _ Hl (rd0_start data false _ Hb)) as (t1 & -> & Hr1). cbn [mbind outcome_bind].
  destruct (rd0_uint 4 t1 _ _ _ 0 ltac:(unfold cdr_size; lia) Hu Hr1) as (t2 & -> & Hr2). cbn [mbind outcome_bind].
  rewrite Nat2Z.id. destruct (read_ranges_ok data (x :: ranges) t2 _ [] Hv Hr2) as (t3 & -> & Hr3). cbn [mbind outcome_bind].
  rewrite Hp1, (proj2 (Z.eqb_neq _ _)), !Z.eqb_refl by done. cbn [negb orb]. rewrite Hbuf. cbn [deref mbind outcome_bind]. rewrite Hlow.
  assert (sb_empty b = false) as -> by (unfold sb_low, sb_empty in *; by destruct (buffers_ b)). cbn [negb mbind outcome_bind head deref].
  pose proof (wf_from_ok _ _ Hw) as Hrok. apply Forall_cons in Hrok as [(Hx1 & _ & _) _]. rewrite sn_gt_value by (by apply sn_valid_ok).
  destruct (getValue x.1 <? getValue low).
  - cbn [send_nakack]. rewrite Hk1. cbn [send_nakack]. destruct (nakack_data_ok (MB := MB) low) as (nd & -> & Hnd). cbn [mbind outcome_bind]. eexists _, [_], _. split; [done|]. by exists nd.
  - cbn [mbind outcome_bind]. by eexists _, [], _.
Qed.

Lemma run_trace evs : forall d d' trace, run d evs = Ret (d', trace) -> trace.*1 = evs.
Proof.
  induction evs as [|ev evs IH]; intros d d' trace; cbn [run]; [by intros [= _ <-]|].
  intros ([d1 ok] & _ & ([d2 t] & Ht & [= <- <-])%outcome_bind_Ret)%outcome_bind_Ret. cbn. by rewrite (IH _ _ _ Ht).
Qed.

Lemma run_split e1 : forall d e2, link_ok d -> timely_run d (e1 ++ e2) ->
  exists d1 t1, run d e1 = Ret (d1, t1) /\ link_ok d1 /\ timely_run d e1 /\ timely_run d1 e2 /\
    run d (e1 ++ e2) = (run d1 e2 ≫= fun '(d', t) => Ret (d', t1 ++ t)).
Proof.
  induction e1 as [|ev e1 IH]; intros d e2 Hd Ha; cbn [run app].
  { exists d, []. split_and!; [done..|]. destruct (run d e2) as [[? ?]| | |]; done. }
  cbn [app timely_run] in Ha. destruct Ha as [Hev Hrest]. destruct (step_ok ev d Hd Hev) as (d0 & ok & E & Hd0 & _). rewrite E. cbn [mbind outcome_bind].
  destruct (IH d0 e2 Hd0 (Hrest d0 ok E)) as (d1 & t1 & E1 & Hd1 & Ha1 & Ha2 & E2). rewrite E1, E2. cbn [mbind outcome_bind]. exists d1, ((ev, ok) :: t1).
  split_and!; [done|done| |done|].
  - split; [done|]. intros d2 ok2 Hs. rewrite E in Hs. by injection Hs as <- <-.
  - destruct (run d1 e2) as [[? ?]| | |]; done.
Qed.

(** Every datagram of the peer that arrives is recorded. *)
Lemma run_records evs d d' trace peer s r : link_ok d -> timely_run d evs -> run d evs = Ret (d', trace) ->
  sessions_find peer (sessions_ d) = Some s -> acked_ s = true -> kind_ s = Reliable r ->
  exists s' r', sessions_find peer (sessions_ d') = Some s' /\ acked_ s' = true /\ kind_ s' = Reliable r' /\
    (forall v, covers (nak_sequence_ r) v -> covers (nak_sequence_ r') v) /\
    (forall header, Datagram header ∈ evs -> source_ header = peer -> covers (nak_sequence_ r') (getValue (th_sequence_ header))).
Proof.
  intros Hd Ha E Hf Hack Hk. destruct (run_exactly_once evs d Hd Ha) as (d2 & t2 & E2 & _ & Hrun). rewrite E in E2. injection E2 as <- <-.
  destruct (Hrun peer s r Hf Hack Hk) as (s' & r' & Hf' & Hack' & Hk' & _ & _ & Hc). exists s', r'. split_and!; [done..|intros v Hv; apply Hc; by left|].
  intros header Hin Hsrc. rewrite <- (run_trace _ _ _ _ E) in Hin. apply list_elem_of_fmap in Hin as ([ev ok] & Eh & Hin). cbn in Eh. subst ev.
  apply Hc. right. assert (getValue (th_sequence_ header) ∈ answered peer ok trace) as Hans.
  { unfold answered. apply list_elem_of_omap. exists (Datagram header, ok). split; [done|]. rewrite Hsrc, Z.eqb_refl, bool_decide_eq_true_2 by done. done. }
  destruct ok; tauto.
Qed.


(** A NAKACK sample from [peer] with the body [nd]. *)
Definition offers peer (nd : list MB) (ev : Event) : Prop :=
  exists header sample, ev = Sample header sample /\ source_ header = peer /\ transport_swap_bytes header = false /\
    TransportReassembly.header_ sample = control_header MULTICAST_NAKACK nd /\ sample_ sample = Some nd.

Lemma nakack_heard ev d peer nd low s r lo : link_ok d -> timely ev d -> offers peer nd ev -> holds nd (sn_image false low) -> sn_valid low ->
  sessions_find peer (sessions_ d) = Some s -> acked_ s = true -> active_ s = false -> kind_ s = Reliable r -> ds_low (nak_sequence_ r) = Ret lo ->
  exists d' ok s' r', step ev d = Ret (d', ok) /\ link_ok d' /\ sessions_find peer (sessions_ d') = Some s' /\ extends s s' /\ kind_ s' = Reliable r' /\
    forall v, getValue lo <= v < getValue low -> covers (nak_sequence_ r') v.
Proof.
  intros Hd Ha (header & sample & -> & Hsrc & Hsw & Hh & Hsm) [Hb Hlen] Hvl Hf Hack Hact Hk Hlo. destruct Ha as [Hn Hco]. rewrite Hh in Hco.
  destruct (Hco eq_refl) as (control & Ec & _ & Hall). rewrite Hsm in Ec. injection Ec as <-.
  assert (number_ok low /\ exists v, covers (nak_sequence_ r) v /\ v < getValue low) as [Hnl Hex].
  { pose proof (proj1 (Forall_forall _ _) Hall _ (sessions_find_elem _ _ _ Hf)) as Hc. cbn in Hc. destruct (link_session _ _ _ Hd Hf) as [_ Hp].
    inversion Hc as [? ? ? [?|?]|?|? low' Hn' [_ [tl Hb']] Hv|]; subst; try done. assert (low' = low) as ->.
    { rewrite Hsw in Hb'. unfold sn_image in Hb'. rewrite <- !app_assoc in Hb'. pose proof (rd0_start nd false _ Hb) as R1. unfold sn_image in R1.
      rewrite <- (app_nil_r (wire _ _ (low_ low))) in R1. destruct (rd0_sn _ _ low _ (of_value 1) (sn_valid_ok _ Hvl) R1) as (t1 & E1 & _).
      destruct (rd0_sn _ _ low' _ (of_value 1) (sn_valid_ok _ (proj1 Hn')) (rd0_start nd false _ Hb')) as (t2 & E2 & _). congruence. }
    split; [done|]. destruct (Hv r Hk Hact) as (v & [Hcv|[? _]] & Hlt); [by rewrite Hp|by exists v|congruence]. }
  cbn [step]. unfold sample_received. rewrite Hh, Hsm. change (default [] (Some nd)) with nd. cbn [message_id_ submessage_id_ control_header].
  destruct (control_sample_ok header sample nd d Hd Hn) as (l' & acts & E & Hd' & Hkp); [by rewrite Hh|]. rewrite Hh in E, Hkp.
  change (submessage_id_ (control_header MULTICAST_NAKACK nd)) with MULTICAST_NAKACK in *.
  change (message_id_ (control_header MULTICAST_NAKACK nd) =? TRANSPORT_CONTROL_ID) with true. cbn iota.
  change (MULTICAST_NAKACK =? MULTICAST_SYN) with false. rewrite andb_false_r. cbn [andb]. rewrite E. cbn [mbind outcome_bind].
  destruct (Hkp peer s Hf) as (s' & Hf' & Hex' & (b & acts' & rest & Hcr)). destruct (link_session _ _ _ Hd Hf) as [Hok Hp].
  unfold session_control_received, control_received_base in Hcr. rewrite Hack in Hcr. cbn [negb andb mbind outcome_bind Z.eqb Pos.eqb MULTICAST_SYN MULTICAST_SYNACK MULTICAST_NAK MULTICAST_NAKACK] in Hcr.
  rewrite Hk in Hcr. destruct (nakack_received_ok header nd s r low Hk Hok Hnl) as (s2 & rest2 & E2 & _ & _ & _ & Hcov);
    [split; [done|exists []; by rewrite Hsw, app_nil_r]|by intros _ _|].
  rewrite E2 in Hcr. cbn [mbind outcome_bind] in Hcr. injection Hcr as _ <- _ _. destruct (Hcov Hact) as (r' & lo' & Hl' & Hk' & _ & _ & _ & _ & Hc); [congruence|].
  rewrite Hlo in Hl'. injection Hl' as <-. eexists _, _, _, r'. split; [done|]. split_and!; [done..|]. intros v Hv. apply Hc. by right.
Qed.


Lemma run_keeps evs : forall d d' trace, link_ok d -> timely_run d evs -> run d evs = Ret (d', trace) -> link_ok d' /\ keeps d d'.
Proof.
  induction evs as [|ev evs IH]; intros d d' trace Hd Ha; cbn [run]; [intros [= <- _]; split; [done|apply keeps_refl]|].
  destruct Ha as [Hev Hrest]. destruct (step_ok ev d Hd Hev) as (d1 & ok & E & Hd1 & Hk1). rewrite E. cbn [mbind outcome_bind].
  intros ([d2 t] & Ht & [= <- _])%outcome_bind_Ret. destruct (IH d1 d2 t Hd1 (Hrest d1 ok E) Ht) as [Hd2 Hk2]. split; [done|].
  intros q s Hq. destruct (Hk1 q s Hq) as (s1 & Hq1 & He1). destruct (Hk2 q s1 Hq1) as (s2 & Hq2 & He2). exists s2. split; [done|]. by transitivity s1.
Qed.

(** What a run with the answer of the writer records. *)
Lemma run_offer evs d d' trace peer nd low s r lo : link_ok d -> timely_run d evs -> run d evs = Ret (d', trace) ->
  (exists ev, ev ∈ evs /\ offers peer nd ev) -> holds nd (sn_image false low) -> sn_valid low ->
  sessions_find peer (sessions_ d) = Some s -> started_ s = true -> acked_ s = true -> active_ s = false -> kind_ s = Reliable r -> ds_low (nak_sequence_ r) = Ret lo -> wf (nak_sequence_ r) ->
  exists s' r', sessions_find peer (sessions_ d') = Some s' /\ kind_ s' = Reliable r' /\ forall v, getValue lo <= v < getValue low -> covers (nak_sequence_ r') v.
Proof.
  intros Hd Ha E (ev & Hin & Hoff) Hnd Hvl Hf Hst Hack Hact Hk Hlo Hw. apply list_elem_of_split in Hin as (e1 & e2 & ->).
  destruct (run_split e1 d (ev :: e2) Hd Ha) as (d1 & t1 & E1 & Hd1 & Ha1 & [Hev Ha2] & E2). rewrite E2 in E.
  destruct (run_records e1 d d1 t1 peer s r Hd Ha1 E1 Hf Hack Hk) as (s1 & r1 & Hf1 & Hack1 & Hk1 & Hc1 & _).
  destruct (run_keeps e1 d d1 t1 Hd Ha1 E1) as [_ Hkeep]. destruct (Hkeep peer s Hf) as (? & Hf1' & Hex). rewrite Hf1 in Hf1'. injection Hf1' as <-.
  destruct (link_session _ _ _ Hd1 Hf1) as [Hok1 _]. destruct (so_part _ Hok1 r1 Hk1) as [[Hw1 _ _ _] _].
  assert (covers (nak_sequence_ r) (getValue lo)) as Hcl.
  { destruct (nak_sequence_ r) as [|r0 rest]; [done|]. cbn in Hlo. injection Hlo as <-. apply covers_cons. left. destruct Hw as ((_ & _ & ?) & _). unfold in_range. lia. }
  destruct (low_of (nak_sequence_ r1) Hw1 (covers_cons_ne _ _ (Hc1 _ Hcl))) as (lo1 & hi1 & Hs1).
  destruct (spans_valid _ _ _ Hw1 Hs1) as (_ & _ & _ & _ & _ & Hb1 & _). pose proof (Hb1 _ (Hc1 _ Hcl)) as Hle.
  destruct (nakack_heard ev d1 peer nd low s1 r1 lo1 Hd1 Hev Hoff Hnd Hvl Hf1 Hack1) as (d2 & ok & s2 & r2 & E3 & Hd2 & Hf2 & Hex2 & Hk2 & Hc2);
    [by rewrite (proj2 (ex_started _ _ Hex Hst))|done|apply Hs1|].
  cbn [run] in E. rewrite E3 in E. cbn [mbind outcome_bind] in E. apply outcome_bind_Ret in E as ([d3 t3] & E4 & [= -> _]).
  apply outcome_bind_Ret in E4 as ([d4 t4] & E5 & [= -> _]).
  destruct (run_records e2 d2 d' t4 peer s2 r2 Hd2 (Ha2 d2 ok E3) E5 Hf2 (ex_acked _ _ Hex2 Hack1) Hk2) as (s' & r' & Hf' & _ & Hk' & Hc' & _).
  exists s', r'. split_and!; [done..|]. intros v Hv. apply Hc', Hc2. lia.
Qed.

(** A reader's session that may ask, and a writer's that hears it. *)
Record asking d (writer : Z) s r lo hi now : Prop := mkAK {
  ak_link : link_ok d; ak_find : sessions_find writer (sessions_ d) = Some s;
  ak_started : started_ s = true; ak_passive : active_ s = false; ak_acked : acked_ s = true;
  ak_kind : kind_ s = Reliable r; ak_peers : nak_peers_ r = []; ak_spans : spans (nak_sequence_ r) lo hi;
  ak_clock : Forall (fun e => e.1 <= now) (nak_requests_ r); ak_count : countable_gaps r;
  ak_delay : 0 <= nak_delay_intervals_ (config_ (link_ d)) /\ 0 <= nak_max_ (config_ (link_ d)) }.

Record answering (L : SessionLink MB) (writer : Z) (w : MulticastSession MB) (header : TransportHeader) (b : SingleSendBuffer (MB := MB)) low : Prop := mkAW {
  aw_session : session_ok w; aw_kind : exists rw, kind_ w = Reliable rw; aw_active : active_ w = true;
  aw_peer : remote_peer_ w = source_ header; aw_local : local_peer_ L = writer; aw_other : writer <> source_ header; aw_fits : is_s 32 writer;
  aw_number : number_ok (th_sequence_ header); aw_order : transport_swap_bytes header = false;
  aw_buffer : send_buffer_ L = Some b; aw_low : sb_low b = Ret low; aw_valid : sn_valid low }.

(** Missing and not suppressed at [now]. *)
Definition wanted d r lo hi now v : Prop :=
  getValue lo < v < getValue hi /\ ~ covers (nak_sequence_ r) v /\
  ~ suppressed (nak_delay_intervals_ (config_ (link_ d))) (nak_max_ (config_ (link_ d))) (marks (requests_set now hi (nak_requests_ r))) v.

(** The calls [acts] of the writer's session reach the reader when the buffer
    [b] is sent from. *)
Definition delivered (writer : Z) (b : SingleSendBuffer (MB := MB)) (acts : list (Action MB)) (evs : list Event) : Prop :=
  (forall nd, send_control MULTICAST_NAKACK nd ∈ acts -> exists ev, ev ∈ evs /\ offers writer nd ev) /\
  (forall range k, Resend range ∈ acts -> sn_valid k -> in_range (getValue k) range -> packets_of b k <> [] ->
     exists header, Datagram header ∈ evs /\ source_ header = writer /\ th_sequence_ header = k).

(** Whether the first of the calls sends an offer. *)
Definition offering (acts : list (Action MB)) : bool := match acts with SendControl _ _ :: _ => true | _ => false end.

(** One round: asking, answering, and the arrival of the answer. *)
Lemma round_repairs d writer s r lo hi now (L : SessionLink MB) (w : MulticastSession MB) header b low :
  asking d writer s r lo hi now -> answering L writer w header b low ->
  exists s1 nak, send_naks (link_ d) now s r = Ret (s1, nak) /\
    ((nak = [] /\ forall v, ~ wanted d r lo hi now v) \/
     exists data w' acts rest, nak = [send_control MULTICAST_NAK data] /\ session_control_received L header MULTICAST_NAK data w = Ret (true, w', acts, rest) /\
       (offering acts = true <-> exists nd, send_control MULTICAST_NAKACK nd ∈ acts) /\
       forall b' evs, timely_run (set_sessions (sessions_update writer s1 (sessions_ d)) d) evs -> delivered writer b' acts evs ->
         exists d' trace s' r', run (set_sessions (sessions_update writer s1 (sessions_ d)) d) evs = Ret (d', trace) /\
           sessions_find writer (sessions_ d') = Some s' /\ kind_ s' = Reliable r' /\ forall v, wanted d r lo hi now v -> (getValue low <= v -> packets_of b' (of_value v) <> []) -> covers (nak_sequence_ r') v).
Proof.
  intros [Hd Hf Hst Hpas Hack Hk Hpe Hsp Hck Hct [Hdl Hdm]] [Hwok [rw Hwk] Hwa Hwp Hwl Hwo Hwf Hwn Hws Hwb Hwlow Hwv].
  destruct (link_session _ _ _ Hd Hf) as [Hok Hrp]. destruct (so_part _ Hok r Hk) as [Hpart _].
  destruct (send_naks_exact (link_ d) now s r lo hi Hpart Hack Hpe Hsp Hck Hct Hdl Hdm) as (ranges & s1 & nak & E & Hasks & Hwr & Hu & Hcov).
  destruct (send_naks_ok (link_ d) now s r Hk Hok Hck Hct) as (? & r1 & ? & E' & Hok1 & Hex1 & Hk1 & Hpart1 & Hseq & Hack1 & _). rewrite E in E'. injection E' as <- <-.
  exists s1, nak. split; [done|]. destruct ranges as [|x ranges].
  { left. split; [done|]. intros v Hv. by apply Hcov, Exists_nil in Hv. }
  right. destruct Hasks as (data & -> & Hdata). rewrite Hrp, <- Hwl in Hdata.
  destruct (nak_answered L header data w rw b low x ranges Hwok Hwk Hwa Hwp) as (w' & offer & rest & Ew & Hoffer); try done; [by rewrite Hwl..|].
  exists data, w', (offer ++ (Resend <$> x :: ranges)), rest. split; [done|]. split; [done|].
  set (d1 := set_sessions _ d). split.
  { destruct (_ <? _); [destruct Hoffer as (nd & -> & _); split; [intros _; exists nd; by left|done]|]. subst offer. cbn [app fmap list_fmap offering]. split; [done|].
    intros (nd & Hnd). change (send_control MULTICAST_NAKACK nd ∈ Resend <$> x :: ranges) in Hnd. apply list_elem_of_fmap in Hnd as (? & ? & _). done. }
  intros b' evs Ha [Hdo Hdr].
  destruct (update_ok d writer s s1 Hd Hf Hok1 Hex1) as [Hd1 Hfd]. destruct (Hfd writer s Hf) as (s2 & Hf1 & _ & Es). rewrite (Es eq_refl) in Hf1. clear s2 Es.
  destruct (run_exactly_once evs d1 Hd1 Ha) as (d' & trace & Er & _). exists d', trace.
  assert (acked_ s1 = true) as Hack1' by (by rewrite Hack1).
  destruct (run_records evs d1 d' trace writer s1 r1 Hd1 Ha Er Hf1 Hack1' Hk1) as (s' & r' & Hf' & _ & Hk' & Hmono & Hrec).
  exists s', r'. split_and!; [done..|]. intros v Hv Hkept. pose proof Hv as Hv'. apply Hcov in Hv'. pose proof (covers_above _ _ _ Hwr Hv') as Hpos.
  assert (getValue x.1 <= v) as Hxv.
  { apply covers_cons in Hv' as [[? _]|Hv']; [done|]. destruct Hwr as ((_ & _ & ?) & _ & Hwr). pose proof (covers_above _ _ _ Hwr Hv'). lia. }
  destruct (Z.lt_ge_cases v (getValue low)) as [Hlt|Hge].
  - rewrite (proj2 (Z.ltb_lt _ _)) in Hoffer by lia. destruct Hoffer as (nd & -> & Hnd). destruct (ex_started _ _ Hex1 Hst) as [Hst1 Hact1].
    destruct (run_offer evs d1 d' trace writer nd low s1 r1 lo Hd1 Ha Er) as (s2 & r2 & Hf2 & Hk2 & Hc2); try done.
    + apply Hdo. by left.
    + by rewrite Hact1.
    + rewrite Hseq. apply Hsp.
    + apply Hpart1.
    + rewrite Hf' in Hf2. injection Hf2 as <-. rewrite Hk' in Hk2. injection Hk2 as <-. apply Hc2. destruct Hv as [? _]. lia.
  - destruct Hv as [Hb _]. destruct (spans_valid _ _ _ (po_sequence _ Hpart) Hsp) as (_ & _ & [_ Hhm] & _).
    assert (getValue (of_value v) = v) as Ev by (rewrite getValue_of_value by lia; unfold MIN_VALUE; lia).
    apply Exists_exists in Hv' as (range & Hin & Hir). destruct (Hdr range (of_value v)) as (h & Hh & Hsrc & Hseqn).
    + apply elem_of_app. right. by apply list_elem_of_fmap_2.
    + apply of_value_valid. lia.
    + by rewrite Ev.
    + apply Hkept. lia.
    + rewrite <- Ev, <- Hseqn. by apply Hrec.
Qed.


(** ** The handshake *)

(** The sessions of a writer and of a reader for each other, with the headers of
    the datagrams that carry the SYN and the SYNACK. *)
Record shaking (La Lb : SessionLink MB) (a b : MulticastSession MB) (ha hb : TransportHeader) : Prop := mkSH {
  sh_active : active_ a = true; sh_passive : active_ b = false; sh_not_acked : acked_ a = false /\ acked_ b = false;
  sh_reliable : exists r, kind_ b = Reliable r; sh_a : session_ok a; sh_b : session_ok b;
  sh_syn : remote_peer_ b = source_ ha /\ local_peer_ La = source_ ha; sh_synack : remote_peer_ a = source_ hb /\ local_peer_ Lb = source_ hb;
  sh_orders : transport_swap_bytes ha = false /\ transport_swap_bytes hb = false;
  sh_numbers : number_ok (th_sequence_ ha) /\ number_ok (th_sequence_ hb); sh_fits : is_s 32 (source_ ha) /\ is_s 32 (source_ hb) }.

Lemma unacked_check (L : SessionLink MB) header s : session_ok s -> number_ok (th_sequence_ header) ->
  exists s1, (if negb (acked_ s) && (remote_peer_ s =? source_ header) then '(_, s) ← session_check_header header s; Ret s else Ret s) = Ret s1 /\
    session_ok s1 /\ extends s s1 /\ active_ s1 = active_ s /\ acked_ s1 = acked_ s.
Proof.
  intros Hok Hn. destruct (_ && _); [|by exists s]. destruct (check_header_ok header s Hok Hn) as (ok & s1 & -> & ? & ? & ? & ? & _).
  cbn [mbind outcome_bind]. by exists s1.
Qed.

Lemma send_synack_body (L : SessionLink MB) s : exists offer synack, send_synack L s = Ret (offer ++ [send_control MULTICAST_SYNACK synack]) /\ holds synack (wire false 4 (remote_peer_ s)).
Proof.
  destruct (send_synack_total L s) as [acts E]. pose proof E as E'. unfold send_synack in E'. destruct (peer_data_ok (MB := MB) (remote_peer_ s)) as (synack & Ed & Hs).
  apply outcome_bind_Ret in E' as (offer & _ & E'). rewrite Ed in E'. cbn [mbind outcome_bind] in E'. injection E' as <-. by exists offer, synack.
Qed.

Lemma handshake La Lb a b ha hb : shaking La Lb a b ha hb ->
  exists syn b' offer synack rest a' rest' r', send_syn a = Ret [send_control MULTICAST_SYN syn] /\
    session_control_received Lb ha MULTICAST_SYN syn b
      = Ret (true, b', offer ++ [send_control MULTICAST_SYNACK synack; PassiveConnection (source_ hb) (source_ ha)], rest) /\
    acked_ b' = true /\ kind_ b' = Reliable r' /\ (forall v, covers (nak_sequence_ r') v <-> 1 <= v <= getValue (th_sequence_ ha)) /\
    session_control_received La hb MULTICAST_SYNACK synack a = Ret (true, a', [], rest') /\ acked_ a' = true.
Proof.
  intros [Haa Hba [Hna Hnb] [r Hk] Hoka Hokb [Hs1 Hs2] [Hs3 Hs4] [Ho1 Ho2] [Hn1 Hn2] [Hf1 Hf2]].
  unfold send_syn. destruct (peer_data_ok (MB := MB) (remote_peer_ a)) as (syn & -> & [Hb1 _]). cbn [mbind outcome_bind].
  destruct (unacked_check Lb ha b Hokb Hn1) as (b1 & Eb & _ & Hexb & Hab1 & Hnb1). destruct (unacked_check La hb a Hoka Hn2) as (a1 & Ea & _ & Hexa & Haa1 & Hna1).
  destruct (ex_kind _ _ Hexb r Hk) as (r1 & Hk1 & _). rewrite <- (app_nil_r (wire _ _ _)) in Hb1. rewrite Hs3 in Hb1.
  destruct (read_peer_ok syn _ _ _ _ Hf2 (rd0_start syn false _ Hb1)) as (t1 & Et1 & _).
  destruct Hn1 as [Hv1 Hm1]. assert (range_ok (of_value 1, th_sequence_ ha)) as Hr1 by (split_and!; cbn; [by vm_compute|done|destruct Hv1; done|done]).
  destruct (insert_range_spec [] (of_value 1, th_sequence_ ha) I Hr1) as (ch & seqs & Ei & _ & Hc & _).
  set (b2 := set_kind (Reliable (set_nak_sequence seqs r1)) (set_acked true b1)).
  destruct (send_synack_body Lb b2) as (offer & synack & Es & [Hb2 _]). rewrite <- (app_nil_r (wire _ _ _)) in Hb2.
  assert (remote_peer_ b2 = source_ ha) as Hrb by (cbn; by rewrite (ex_peer _ _ Hexb)). rewrite Hrb in Hb2.
  destruct (read_peer_ok synack _ _ _ _ Hf1 (rd0_start synack false _ Hb2)) as (t2 & Et2 & _).
  exists syn, b2, offer, synack, (written t1), (set_acked true (set_syn (wd_cancel (syn_watchdog_ a1)) a1)), (written t2), (set_nak_sequence seqs r1).
  split; [done|]. split.
  { unfold session_control_received, control_received_base. rewrite Eb. cbn [mbind outcome_bind Z.eqb Pos.eqb MULTICAST_SYN]. unfold syn_received.
    rewrite Hab1, Hba, (ex_peer _ _ Hexb), Hs1, Z.eqb_refl, Ho1. cbn [negb]. rewrite Et1. cbn [mbind outcome_bind]. rewrite Hs4, Z.eqb_refl. cbn [negb].
    rewrite Hnb1, Hnb. unfold syn_hook. cbn [kind_ set_acked]. rewrite Hk1. unfold ds_reset. rewrite Ei. cbn [mbind outcome_bind]. fold b2. rewrite Es.
    cbn [mbind outcome_bind]. rewrite Hrb, <- app_assoc. done. }
  split_and!; [done|done| | |done].
  - intros v. cbn. rewrite Hc. assert (covers [] v <-> False) as -> by apply Exists_nil. unfold in_range. change (getValue (of_value 1)) with 1. cbn [snd]. tauto.
  - unfold session_control_received, control_received_base. rewrite Ea. cbn [mbind outcome_bind Z.eqb Pos.eqb MULTICAST_SYN MULTICAST_SYNACK]. unfold synack_received.
    rewrite Haa1, Haa, Hna1, Hna, (ex_peer _ _ Hexa), Hs3, Z.eqb_refl, Ho2. cbn [negb]. rewrite Et2. cbn [mbind outcome_bind]. rewrite Hs2, Z.eqb_refl. done.
Qed.


End runs.
(** ** Properties *)

(** C5: over every run of a link with valid inputs (numbers below the largest,
    control samples as peers send them and in one block, a clock that does not go
    back, no more gaps than 32 bits count) every event is served,
    up to the first NAKACK, if there is one, that a passive session hears from its
    peer without having anything recorded below the number offered; that event
    throws or reads the lowest of no numbers.  (A session that had its SYN has
    recorded 1, which is below every offer.)  In the events served, a reliable
    session accepts, from the handshake on, each datagram of its peer at most
    once, accepts none it had recorded or given up before, and has recorded every
    datagram it accepted or refused and everything it had recorded before. *)
Theorem multicast_exactly_once {MB} {MBo : MessageBlock MB} {MBl : MessageBlockLaws MB} (d : MulticastDataLink MB) evs :
  link_ok d -> allowed_run d evs ->
  exists before after d' trace, evs = before ++ after /\ run d before = Ret (d', trace) /\ link_ok d' /\
    (after = [] \/ exists ev rest, after = ev :: rest /\ cut ev d') /\
    forall peer s r, sessions_find peer (sessions_ d) = Some s -> acked_ s = true -> kind_ s = Reliable r ->
      exists s' r', sessions_find peer (sessions_ d') = Some s' /\ acked_ s' = true /\ kind_ s' = Reliable r' /\
        NoDup (answered peer true trace) /\ (forall v, v ∈ answered peer true trace -> ~ covers (nak_sequence_ r) v) /\
        (forall v, covers (nak_sequence_ r) v \/ v ∈ answered peer true trace \/ v ∈ answered peer false trace -> covers (nak_sequence_ r') v).
Proof.
  intros Hd Ha. destruct (run_upto evs d Hd Ha) as (before & after & d' & trace & -> & Ht & E & Hc).
  destruct (run_exactly_once before d Hd Ht) as (d2 & t2 & E2 & Hd' & Hf). rewrite E in E2. injection E2 as <- <-.
  by exists before, after, d', trace.
Qed.

(** C12: a session sends one NAK or none, to its peer, and the ranges in it are
    exactly the numbers between the lowest and the highest it has that it
    misses, without those suppressed: it came to miss them between two high-water
    marks of its record, the newer of them [k >= 1] intervals ago, and [k] is no
    multiple of [nak_delay_intervals] plus one, or more than [nak_max] times
    that (with no intervals of delay a [nak_max] other than 0 is not applied).
    What it misses since before its oldest mark is never suppressed, whatever
    [nak_delay_intervals] and [nak_max] are documented to do.  The session is
    acked and has heard no request of other peers, and the clock did not go
    back. *)
Theorem naks_exact {MB} {MBo : MessageBlock MB} {MBl : MessageBlockLaws MB} (L : SessionLink MB) now s r lo hi :
  part_ok r -> acked_ s = true -> nak_peers_ r = [] -> spans (nak_sequence_ r) lo hi ->
  Forall (fun e => e.1 <= now) (nak_requests_ r) -> countable_gaps r -> 0 <= nak_delay_intervals_ (config_ L) -> 0 <= nak_max_ (config_ L) ->
  exists ranges s' acts, send_naks L now s r = Ret (s', acts) /\ asks (remote_peer_ s) ranges acts /\ wf ranges /\ is_u 32 (Z.of_nat (length ranges)) /\
    forall v, covers ranges v <-> getValue lo < v < getValue hi /\ ~ covers (nak_sequence_ r) v /\
      ~ suppressed (nak_delay_intervals_ (config_ L)) (nak_max_ (config_ L)) (marks (requests_set now hi (nak_requests_ r))) v.
Proof. exact (send_naks_exact L now s r lo hi). Qed.

(** The packets of a writer: numbered in order. *)
Definition numbered {MB} (first : Z) (ps : list (given (MB := MB))) : Prop := (fun p => getValue (gv_seq p)) <$> ps = seqZ first (Z.of_nat (length ps)).

(** The buffer a writer sends from again: the offer, when there is one, is a
    packet that enters it first. *)
Definition after_offer {MB} `{MessageBlock MB} (acts : list (Action MB)) (p : given) (b : SingleSendBuffer (MB := MB)) : SingleSendBuffer (MB := MB) :=
  if offering acts then gv_insert b p else b.

Section stock.
Context {MB : Type} {MBo : MessageBlock MB} {MBl : MessageBlockLaws MB}.
Implicit Types (ps : list (given (MB := MB))).

Lemma seqZ_increasing n : forall first, StronglySorted Z.lt (seqZ first (Z.of_nat n)).
Proof.
  induction n as [|n IH]; intros first; [constructor|]. rewrite Nat2Z.inj_succ, seqZ_cons, Z.pred_succ by lia. constructor; [apply IH|].
  apply Forall_forall. intros x Hx%elem_of_seqZ. lia.
Qed.

Lemma numbered_increasing first ps : numbered first ps -> increasing ps.
Proof. intros H. unfold increasing. unfold numbered in H. rewrite H. apply seqZ_increasing. Qed.

(** The numbers of the packets kept. *)
Lemma numbered_kept first ps capacity v : numbered first ps ->
  (exists p, p ∈ kept capacity ps /\ getValue (gv_seq p) = v) <->
  first + Z.of_nat (length ps - capacity) <= v < first + Z.of_nat (length ps).
Proof.
  intros H. unfold kept. set (n := (length ps - capacity)%nat). assert (n <= length ps)%nat as Hn by lia. clearbody n.
  trans (v ∈ drop n ((fun p => getValue (gv_seq p)) <$> ps)).
  { rewrite <- fmap_drop, list_elem_of_fmap. naive_solver. }
  unfold numbered in H. rewrite H. clear H. revert first Hn. generalize (length ps). induction n as [|n IH]; intros k first Hn.
  { rewrite drop_0, elem_of_seqZ. lia. }
  destruct k as [|k]; [lia|]. rewrite Nat2Z.inj_succ, seqZ_cons, Z.pred_succ by lia. cbn [drop]. rewrite IH by lia. lia.
Qed.

Lemma stock_has capacity ps first v : (0 < capacity)%nat -> Forall gv_ok ps -> numbered first ps ->
  first + Z.of_nat (length ps - capacity) <= v < first + Z.of_nat (length ps) -> v <= MAX_VALUE ->
  packets_of (insert_all ps (new_buffer capacity)) (of_value v) <> [].
Proof.
  intros Hc Ho Hn Hv Hm. rewrite (insert_all_spec capacity ps Hc Ho (numbered_increasing _ _ Hn)).
  pose proof (proj2 (numbered_kept first ps capacity v Hn) Hv) as Hex. pose proof Hex as (p & Hp & Ep).
  assert (Forall gv_ok (kept capacity ps)) as Hk by (rewrite Forall_forall in Ho |- *; intros x Hx; by eapply Ho, kept_incl).
  destruct (go_seq _ (proj1 (Forall_forall _ _) Hk p Hp)) as [_ Hpos].
  destruct (seq_find (of_value v) (entry_of <$> kept capacity ps)) as [x|] eqn:Ef; [|by apply kept_missing in Ef; [|done|unfold MIN_VALUE in *; lia]].
  unfold packets_of. cbn [buffers_]. rewrite Ef. apply seq_find_some, list_elem_of_fmap in Ef as (q & Eq & Hq).
  destruct (has_data_entry q (proj1 (Forall_forall _ _) Hk q Hq)) as (Hd & _). rewrite <- Eq in Hd. cbn [snd] in Hd. by rewrite Hd.
Qed.

(** The lowest number of the buffer. *)
Lemma stock_low capacity ps first low : (0 < capacity)%nat -> Forall gv_ok ps -> numbered first ps ->
  sb_low (insert_all ps (new_buffer capacity)) = Ret low -> getValue low = first + Z.of_nat (length ps - capacity).
Proof.
  intros Hc Ho Hn. rewrite (insert_all_spec capacity ps Hc Ho (numbered_increasing _ _ Hn)). unfold sb_low. cbn [buffers_].
  destruct (kept capacity ps) as [|p l] eqn:Ek; [done|]. intros [= <-]. cbn [entry_of fst].
  unfold kept in Ek. apply (f_equal (fun l => l !! 0%nat)) in Ek. rewrite lookup_drop, Nat.add_0_r in Ek. cbn in Ek. unfold numbered in Hn.
  assert (seqZ first (Z.of_nat (length ps)) !! (length ps - capacity)%nat = Some (getValue (gv_seq p))) as E
    by (rewrite <- Hn, list_lookup_fmap, Ek; done).
  apply lookup_seqZ in E as [-> _]. lia.
Qed.

(** What is still there after the offer was entered: everything from the offer
    on, but for the number offered when the buffer was full. *)
Lemma stock_after capacity ps first low acts p v : (0 < capacity)%nat -> Forall gv_ok ps -> gv_ok p -> numbered first (ps ++ [p]) ->
  sb_low (insert_all ps (new_buffer capacity)) = Ret low -> getValue low <= v < first + Z.of_nat (length ps) -> v <= MAX_VALUE ->
  (offering acts = true -> (capacity <= length ps)%nat -> v <> getValue low) ->
  packets_of (after_offer acts p (insert_all ps (new_buffer capacity))) (of_value v) <> [].
Proof.
  intros Hc Ho Hp Hn Hl Hv Hm Hfull. assert (numbered first ps) as Hn'.
  { unfold numbered in *. rewrite fmap_app, length_app, Nat2Z.inj_add, seqZ_app in Hn by lia. by apply app_inj_1 in Hn as [? _]; [|by rewrite length_fmap, length_seqZ, Nat2Z.id]. }
  pose proof (stock_low capacity ps first low Hc Ho Hn' Hl) as El. unfold after_offer. destruct (offering acts).
  - change (gv_insert (insert_all ps (new_buffer capacity)) p) with (fold_left gv_insert [p] (insert_all ps (new_buffer capacity))).
    unfold insert_all. rewrite <- fold_left_app. apply (stock_has capacity (ps ++ [p]) first v); [done|by apply Forall_app; split; [|constructor]|done| |done].
    rewrite length_app. cbn [length]. destruct (Nat.le_gt_cases capacity (length ps)) as [Hle|]; [specialize (Hfull eq_refl Hle)|]; lia.
  - apply (stock_has capacity ps first v); [done..|lia|done].
Qed.

End stock.

(** C6: a round of repair completes.  The writer, on a host of the reader's byte
    order, has sent numbered datagrams, of which its buffer keeps the last ones up
    to its capacity (at least one), and the reader's highest is one of them.  When
    the session of a reader that had its handshake, and heard no request of other
    peers, misses numbers it may ask for, it sends a NAK; the session of
    the writer reads from it what was written to it, offers with NAKACK what its
    buffer has (if the reader asks for less) and sends the ranges again from the
    buffer, which then holds the offer too.  In every run of the reader's link
    with valid inputs in which the offer and the datagrams sent again arrive, in
    any order and among any other events, every number asked for is recorded at
    the end: received, or given up because it is below the offer - except, when
    the buffer was full and an offer was made, the number offered itself, which
    the offer pushed out; unless the link is stopped by an offer that another
    session hears too early (C5). *)
Theorem repair_round {MB} {MBo : MessageBlock MB} {MBl : MessageBlockLaws MB} (d : MulticastDataLink MB) writer s r lo hi now L w header capacity first ps p low :
  let b := insert_all ps (new_buffer capacity) in
  asking d writer s r lo hi now -> answering L writer w header b low ->
  (0 < capacity)%nat -> Forall gv_ok (ps ++ [p]) -> numbered first (ps ++ [p]) -> getValue hi < first + Z.of_nat (length ps) ->
  exists s1 nak, send_naks (link_ d) now s r = Ret (s1, nak) /\
    ((nak = [] /\ forall v, ~ wanted d r lo hi now v) \/
     exists data w' acts rest, nak = [send_control MULTICAST_NAK data] /\ session_control_received L header MULTICAST_NAK data w = Ret (true, w', acts, rest) /\
       forall evs, let d1 := set_sessions (sessions_update writer s1 (sessions_ d)) d in
         allowed_run d1 evs -> delivered writer (after_offer acts p b) acts evs ->
         exists before after d' trace, evs = before ++ after /\ run d1 before = Ret (d', trace) /\
           ((exists ev rest, after = ev :: rest /\ cut ev d') \/
            after = [] /\ exists s' r', sessions_find writer (sessions_ d') = Some s' /\ kind_ s' = Reliable r' /\
              forall v, wanted d r lo hi now v -> covers (nak_sequence_ r') v \/
                v = getValue low /\ offering acts = true /\ (capacity <= length ps)%nat)).
Proof.
  intros b Hask Hans Hc Ho Hn Hhi. apply Forall_app in Ho as [Ho [Hp _]%Forall_cons].
  destruct (round_repairs d writer s r lo hi now L w header b low Hask Hans) as (s1 & nak & E & [Hno|(data & w' & acts & rest & -> & Ew & _ & Hrun)]);
    exists s1; eexists; (split; [exact E|]); [by left|right]. exists data, w', acts, rest. split; [done|]. split; [done|]. intros evs d1 Ha Hdel.
  destruct Hask as [Hd Hf _ _ _ Hk Hpe Hsp Hck Hct Hdl]. destruct (link_session _ _ _ Hd Hf) as [Hok _]. destruct (so_part _ Hok r Hk) as [Hpart _].
  destruct (send_naks_ok (link_ d) now s r Hk Hok Hck Hct) as (? & r1 & ? & E' & Hok1 & Hex1 & _). rewrite E in E'. injection E' as <- <-.
  destruct (update_ok d writer s s1 Hd Hf Hok1 Hex1) as [Hd1 _].
  destruct (run_upto evs d1 Hd1 Ha) as (before & after & d' & trace & -> & Ht & Er & Hcut). exists before, after, d', trace.
  split; [done|]. split; [done|]. destruct Hcut as [-> |?]; [right|by left]. rewrite app_nil_r in Hdel. split; [done|].
  destruct (Hrun _ before Ht Hdel) as (d2 & t2 & s' & r' & Er2 & Hf' & Hk' & Hcov). pose proof (eq_trans (eq_sym Er) Er2) as E2. injection E2 as <- <-.
  exists s', r'. split; [done|]. split; [done|]. intros v Hv.
  destruct (decide (v = getValue low /\ offering acts = true /\ (capacity <= length ps)%nat)) as [Hx|Hx]; [by right|left].
  apply Hcov; [done|]. intros Hlv. destruct Hv as [Hb _]. destruct (spans_valid _ _ _ (po_sequence _ Hpart) Hsp) as (_ & _ & [_ Hhm] & _).
  apply (stock_after capacity ps first low); [done..|by destruct Hans|lia|lia|tauto].
Qed.

(** C13: the handshake completes in one exchange.  The SYN that an active session
    sends is read by the session of the passive side for what was written: it
    becomes acked, takes every number up to the one of the datagram with the SYN
    as received, answers with a SYNACK (after an offer of what its own buffer
    has, if any) and has the link complete the passive connection; the active
    session reads the SYNACK and becomes acked. *)
Theorem handshake_completes {MB} {MBo : MessageBlock MB} {MBl : MessageBlockLaws MB} (La Lb : SessionLink MB) a b ha hb :
  shaking La Lb a b ha hb ->
  exists syn b' offer synack rest a' rest' r', send_syn a = Ret [send_control MULTICAST_SYN syn] /\
    session_control_received Lb ha MULTICAST_SYN syn b
      = Ret (true, b', offer ++ [send_control MULTICAST_SYNACK synack; PassiveConnection (source_ hb) (source_ ha)], rest) /\
    acked_ b' = true /\ kind_ b' = Reliable r' /\ (forall v, covers (nak_sequence_ r') v <-> 1 <= v <= getValue (th_sequence_ ha)) /\
    session_control_received La hb MULTICAST_SYNACK synack a = Ret (true, a', [], rest') /\ acked_ a' = true.
Proof. exact (handshake La Lb a b ha hb). Qed.

(** ** A concrete group: the reader 5 and the writer 7 *)

Module Group.

Definition sq (a b : Z) : SequenceRange := (of_value a, of_value b).
Definition config : MulticastInst := mkMI 30 4 3 100.
Definition buffer (l : list Z) : SingleSendBuffer (MB := block) :=
  mkSB 3 ((fun v => (of_value v, (Some [], [full_block (1000 * v) [v]]))) <$> l) None.
Definition reader_part (seqs : list SequenceRange) (requests : list (Z * SequenceNumber)) : ReliablePart := mkRP new_watchdog seqs requests [].
Definition reader (r : ReliablePart) : MulticastSession block := mkMS 7 true false true (mkTR ∅ ∅) new_watchdog (Reliable r).
Definition reader_link (s : MulticastSession block) : MulticastDataLink block := mkDL (mkSL 5 config (Some (buffer []))) false true [(7, s)].
Definition writer : MulticastSession block := mkMS 5 true true true (mkTR ∅ ∅) new_watchdog (Reliable (reader_part [] [])).
Definition writer_link (l : list Z) : SessionLink block := mkSL 7 config (Some (buffer l)).
Definition header_from (source v : Z) : TransportHeader := mkTH DCPS_PROTOCOL true false false 0 0 (of_value v) source.

(** 3 and 4 are missing; the writer still has 4, 5 and 6. *)
Definition part : ReliablePart := reader_part [sq 1 2; sq 5 6] [].

Lemma acked_session_good (s : MulticastSession block) r : kind_ s = Reliable r -> part_ok r -> acked_ s = true -> reassembly_ s = mkTR ∅ ∅ -> session_ok s.
Proof.
  intros Hk Hp Ha Hr. split; [|rewrite Hr; apply map_Forall_empty]. intros r' E. rewrite Hk in E. injection E as <-. split; [done|congruence].
Qed.

Lemma part_good : part_ok part.
Proof. split; [solve_concrete|split; constructor|constructor..]. Qed.

Lemma link_good : link_ok (reader_link (reader part)).
Proof.
  split; [|by eexists]. apply Forall_singleton. cbn. split_and!; [|done|done]. apply (acked_session_good _ part); [done|exact part_good|done|done].
Qed.

Lemma spans_good : spans (nak_sequence_ part) (of_value 1) (of_value 6).
Proof. split; reflexivity. Qed.

End Group.


Import Group.

Definition four_events : list (Event (MB := block)) :=
  [Datagram (header_from 7 3); NakTimer 7 10 10 10 true; Datagram (header_from 7 3); Datagram (header_from 7 4)].

Lemma multicast_exactly_once_witness :
  exists d' trace, run (reader_link (reader part)) four_events = Ret (d', trace) /\
    answered 7 true trace = [3; 4] /\ answered 7 false trace = [3] /\
    exists s' r', sessions_find 7 (sessions_ d') = Some s' /\ kind_ s' = Reliable r' /\ covers (nak_sequence_ r') 3 /\ covers (nak_sequence_ r') 4.
Proof.
  destruct (multicast_exactly_once (reader_link (reader part)) four_events link_good)
    as (before & after & d' & trace & Ev & E & _ & Hcut & Hrun).
  { split; [solve_concrete|]. intros d1 ok1 E1. split.
    - intros s r Hf Hk. vm_compute in E1. injection E1 as <- <-. vm_compute in Hf. injection Hf as <-. vm_compute in Hk. injection Hk as <-.
      split; [constructor|reflexivity].
    - intros d2 ok2 _. split; [solve_concrete|]. intros d3 ok3 _. split; [solve_concrete|]. exact (fun _ _ _ => I). }
  assert (after = []) as ->.
  { destruct Hcut as [Hn|(ev & rest & Ea & (h & sm & _ & _ & _ & -> & _) & _)]; [exact Hn|].
    assert (Sample h sm ∈ four_events) as Hin by (rewrite Ev, Ea; apply elem_of_app; right; left).
    unfold four_events in Hin. rewrite !elem_of_cons, elem_of_nil in Hin. destruct Hin as [Hin|[Hin|[Hin|[Hin|[]]]]]; discriminate. }
  rewrite app_nil_r in Ev. rewrite <- Ev in E.
  exists d', trace. split; [exact E|]. destruct (Hrun 7 (reader part) part eq_refl eq_refl eq_refl) as (s' & r' & Hf & _ & Hk & _ & _ & Hc).
  assert (answered 7 true trace = [3; 4] /\ answered 7 false trace = [3]) as [H1 H2] by (vm_compute in E; injection E as _ <-; split; reflexivity).
  split; [exact H1|]. split; [exact H2|]. exists s', r'. split; [exact Hf|]. split; [exact Hk|].
  rewrite H1 in Hc. split; apply Hc; right; left; [left|right; left].
Defined.

(** The third interval of a session that asked before: 3 is asked for, 7 to 8
    is not. *)
Definition later_part : ReliablePart := reader_part [sq 1 2; sq 4 6; sq 9 20] [(1, of_value 6); (2, of_value 9)].

Lemma later_part_good : part_ok later_part.
Proof.
  assert (mark_ok (of_value 6) /\ mark_ok (of_value 9)) as [H6 H9] by (split; solve_concrete).
  split; [solve_concrete| | |constructor].
  - split; [|apply Forall_cons; split; [exact H6|apply Forall_singleton; exact H9]].
    apply SSorted_cons; [apply SSorted_cons; [apply SSorted_nil|apply Forall_nil_2]|]. apply Forall_singleton. vm_compute. split; [reflexivity|discriminate].
  - apply Forall_cons. split; [|apply Forall_singleton]; apply Exists_exists; [exists (sq 4 6)|exists (sq 9 20)];
      (split; [unfold later_part, reader_part; cbn; set_solver|vm_compute; split; discriminate]).
Qed.

Lemma naks_exact_witness :
  exists ranges s' acts, send_naks (link_ (reader_link (reader later_part))) 3 (reader later_part) later_part = Ret (s', acts) /\
    asks 7 ranges acts /\ covers ranges 3 /\ ~ covers ranges 7 /\ ~ covers ranges 8.
Proof.
  destruct (naks_exact (link_ (reader_link (reader later_part))) 3 (reader later_part) later_part (of_value 1) (of_value 20) later_part_good eq_refl eq_refl)
    as (ranges & s' & acts & E & Ha & _ & _ & Hc).
  - split; reflexivity.
  - apply Forall_cons. split; [|apply Forall_singleton]; vm_compute; discriminate.
  - vm_compute. reflexivity.
  - vm_compute. discriminate.
  - vm_compute. discriminate.
  - exists ranges, s', acts. split; [exact E|]. split; [exact Ha|].
    assert (forall v, 6 < v < 9 -> ~ covers ranges v) as Hno.
    { intros v Hv Hcv. apply Hc in Hcv as (_ & _ & Hs). apply Hs. split; [discriminate|]. exists 1%nat, 9, 6. split; [lia|]. split; [reflexivity|]. split; [reflexivity|].
      split; [lia|]. left. discriminate. }
    split; [|split; apply Hno; lia]. apply Hc. split; [vm_compute; split; reflexivity|]. split.
    + intros Hx. apply Exists_exists in Hx as (q & Hq & Hi). apply list_elem_of_In in Hq. vm_compute in Hq, Hi.
      destruct Hq as [<-|[<-|[<-|[]]]]; vm_compute in Hi; destruct Hi as [Hi1 Hi2]; (apply Hi1; reflexivity) || (apply Hi2; reflexivity).
    + intros [_ (k & n & o & Hk & Hn & Ho & Hv & _)]. assert (o <= 3) as Hle by lia. apply list_elem_of_lookup_2, list_elem_of_In in Ho.
      vm_compute in Ho. destruct Ho as [<-|[<-|[<-|[]]]]; lia.
Defined.


(** The round of the reader with [part]: the NAK, the answer, and its arrival. *)
Definition asked_session : MulticastSession block :=
  match send_naks (link_ (reader_link (reader part))) 1 (reader part) part with Ret (s, _) => s | _ => reader part end.
Definition offer_4 : list block := match nakack_data (MB := block) (of_value 4) with Ret data => data | _ => [] end.
Definition nak_3 : list block := match nak_data (MB := block) 7 [sq 3 4] with Ret data => data | _ => [] end.
Definition arrivals : list (Event (MB := block)) :=
  [Sample (header_from 7 7) (mkRDS (control_header MULTICAST_NAKACK offer_4) (Some offer_4)); Datagram (header_from 7 4)].

Lemma part_wanted v : v = 3 \/ v = 4 -> wanted (reader_link (reader part)) part (of_value 1) (of_value 6) 1 v.
Proof.
  intros Hv. assert (getValue (of_value 1) = 1 /\ getValue (of_value 6) = 6) as [E1 E6] by (split; reflexivity). split; [lia|]. split.
  - intros Hx. apply Exists_exists in Hx as (q & Hq & Hi). apply list_elem_of_In in Hq. unfold in_range in Hi.
    destruct Hq as [<-|[<-|[]]]; cbn [fst snd sq] in Hi; change (getValue (of_value 2)) with 2 in Hi; change (getValue (of_value 5)) with 5 in Hi; lia.
  - intros [_ (k & n & o & Hk & _ & Ho & _)]. apply lookup_lt_Some in Ho. vm_compute in Ho. lia.
Qed.

Lemma part_nak : send_naks (link_ (reader_link (reader part))) 1 (reader part) part = Ret (asked_session, [send_control MULTICAST_NAK nak_3]).
Proof. vm_compute. reflexivity. Qed.

Lemma nak_3_answer : exists rest, session_control_received (writer_link [4; 5; 6]) (header_from 5 9) MULTICAST_NAK nak_3 writer
  = Ret (true, writer, [send_control MULTICAST_NAKACK offer_4; Resend (sq 3 4)], rest).
Proof. eexists. vm_compute. reflexivity. Qed.

Lemma part_asks : asking (reader_link (reader part)) 7 (reader part) part (of_value 1) (of_value 6) 1.
Proof.
  split; [exact link_good|done|done|done|done|done|done|exact spans_good|constructor|by vm_compute|by vm_compute].
Qed.

(** The writer that sent 4, 5 and 6 and sends the offer as 7, with room for four
    datagrams. *)
Definition stock : list given := [BufferExample.packet 4 [TransportSendProps.Example.elem 1 false]; BufferExample.packet 5 [TransportSendProps.Example.elem 2 false]; BufferExample.packet 6 [TransportSendProps.Example.elem 3 false]].
Definition offer_packet : given := BufferExample.packet 7 [TransportSendProps.Example.elem 4 false].
Definition stock_link : SessionLink block := mkSL 7 config (Some (insert_all stock (new_buffer 4))).

Lemma stock_good : Forall gv_ok (stock ++ [offer_packet]).
Proof. repeat (apply Forall_cons; split; [BufferExample.packet_ok 2%nat|]). constructor. Qed.

Lemma stock_answer : exists rest, session_control_received stock_link (header_from 5 9) MULTICAST_NAK nak_3 writer
  = Ret (true, writer, [send_control MULTICAST_NAKACK offer_4; Resend (sq 3 4)], rest).
Proof. eexists. vm_compute. reflexivity. Qed.

Lemma writer_answers : answering stock_link 7 writer (header_from 5 9) (insert_all stock (new_buffer 4)) (of_value 4).
Proof.
  split; [|by eexists|done|done|done|done|by vm_compute|by vm_compute|done|done|by vm_compute|by vm_compute].
  apply (acked_session_good _ (reader_part [] [])); [done| |done|done]. split; [done|split; constructor|constructor..].
Qed.

Lemma arrivals_allowed : allowed_run (reader_link asked_session) arrivals.
Proof.
  split.
  - split; [solve_concrete|]. intros _. exists offer_4. split; [reflexivity|]. apply (cs_nakack _ offer_4 (of_value 4)); [solve_concrete|reflexivity|].
    split; [reflexivity|exists []; reflexivity].
  - intros d1 ok1 _. split; [solve_concrete|]. exact (fun _ _ _ => I).
Qed.

Lemma arrivals_delivered b : (forall k, packets_of b k <> [] -> getValue k <> 3) -> 
  delivered 7 b [send_control MULTICAST_NAKACK offer_4; Resend (sq 3 4)] arrivals.
Proof.
  intros Hb. split.
  - intros nd Hnd. eexists. split; [left|]. exists (header_from 7 7), (mkRDS (control_header MULTICAST_NAKACK offer_4) (Some offer_4)).
    apply list_elem_of_In in Hnd. destruct Hnd as [Hnd|[Hnd|[]]]; [|discriminate]. assert (offer_4 = nd) as <- by (injection Hnd; trivial).
    split; [reflexivity|]. split; [reflexivity|]. split; [reflexivity|]. split; reflexivity.
  - intros range k Hr Hk Hi Hp. apply list_elem_of_In in Hr. destruct Hr as [Hr|[Hr|[]]]; [discriminate|]. injection Hr as <-.
    exists (header_from 7 4). split; [right; left|]. split; [reflexivity|]. apply getValue_inj; [solve_concrete|apply Hk|].
    change (3 <= getValue k <= 4) in Hi. change (4 = getValue k). specialize (Hb k Hp). lia.
Qed.

Lemma arrivals_run : exists x, run (reader_link asked_session) arrivals = Ret x.
Proof. eexists. vm_compute. reflexivity. Qed.

Lemma repair_round_witness :
  exists d' trace s' r', run (reader_link asked_session) arrivals = Ret (d', trace) /\
    sessions_find 7 (sessions_ d') = Some s' /\ kind_ s' = Reliable r' /\ covers (nak_sequence_ r') 3 /\ covers (nak_sequence_ r') 4.
Proof.
  destruct (repair_round (reader_link (reader part)) 7 (reader part) part (of_value 1) (of_value 6) 1 stock_link writer (header_from 5 9)
    4 4 stock offer_packet (of_value 4)) as (s1 & nak & E & [[-> Hno]|(data & w' & acts & rest & -> & Ew & Hrun)]).
  - exact part_asks.
  - exact writer_answers.
  - lia.
  - exact stock_good.
  - reflexivity.
  - vm_compute. reflexivity.
  - exfalso. apply (Hno 3), part_wanted. by left.
  - rewrite part_nak in E. injection E as <- _ <-. destruct stock_answer as [rest' Ea]. rewrite Ea in Ew. injection Ew as _ <- _.
    destruct (Hrun arrivals arrivals_allowed) as (before & after & d' & trace & Ev & Er & [(ev & more & Ea' & Hcut)|(-> & s' & r' & Hf & Hk & Hc)]).
    + apply arrivals_delivered. intros k Hp E3. apply Hp. destruct (seq_find k (buffers_ (after_offer [send_control MULTICAST_NAKACK offer_4; Resend (sq 3 4)] offer_packet (insert_all stock (new_buffer 4))))) as [x|] eqn:Ef; [|unfold packets_of; by rewrite Ef].
      exfalso. apply seq_find_some, list_elem_of_In in Ef. vm_compute in Ef. destruct Ef as [Ef|[Ef|[Ef|[Ef|[]]]]]; injection Ef as <- _; discriminate E3.
    + exfalso. rewrite Ea' in Ev. destruct arrivals_run as [x Hx]. rewrite Ev in Hx. exact (run_not_cut _ _ _ _ _ _ _ Hx Er Hcut).
    + rewrite app_nil_r in Ev. subst before. exists d', trace, s', r'. split; [exact Er|]. split; [exact Hf|]. split; [exact Hk|].
      split; [destruct (Hc 3) as [H3|(_ & _ & H3)]; [apply part_wanted; left; reflexivity|exact H3|vm_compute in H3; lia]
             |destruct (Hc 4) as [H4|(_ & _ & H4)]; [apply part_wanted; right; reflexivity|exact H4|vm_compute in H4; lia]].
Defined.


(** Before the handshake: the writer 7 is active, the reader 5 passive. *)
Definition unacked (peer : Z) (active : bool) : MulticastSession block := mkMS peer true active false (mkTR ∅ ∅) new_watchdog (Reliable (reader_part [] [])).

Lemma unacked_good peer active : session_ok (unacked peer active).
Proof.
  split; [|apply map_Forall_empty]. intros r [= <-]. split; [split; [done|split; constructor|constructor..]|done].
Qed.

Lemma handshake_completes_witness :
  exists syn b' offer synack rest a' rest' r', send_syn (unacked 5 true) = Ret [send_control MULTICAST_SYN syn] /\
    session_control_received (link_ (reader_link (unacked 7 false))) (header_from 7 3) MULTICAST_SYN syn (unacked 7 false)
      = Ret (true, b', offer ++ [send_control MULTICAST_SYNACK synack; PassiveConnection 5 7], rest) /\
    acked_ b' = true /\ kind_ b' = Reliable r' /\ covers (nak_sequence_ r') 3 /\ ~ covers (nak_sequence_ r') 4 /\
    session_control_received (writer_link [2; 3]) (header_from 5 1) MULTICAST_SYNACK synack (unacked 5 true) = Ret (true, a', [], rest') /\ acked_ a' = true.
Proof.
  destruct (handshake_completes (writer_link [2; 3]) (link_ (reader_link (unacked 7 false))) (unacked 5 true) (unacked 7 false) (header_from 7 3) (header_from 5 1))
    as (syn & b' & offer & synack & rest & a' & rest' & r' & H1 & H2 & H3 & H4 & Hc & H5 & H6).
  - split; [done|done|done|by eexists|apply unacked_good|apply unacked_good|done|done|done|split; solve_concrete|split; by vm_compute].
  - exists syn, b', offer, synack, rest, a', rest', r'. change (getValue (th_sequence_ (header_from 7 3))) with 3 in Hc. split_and!; try done.
    + apply Hc. lia.
    + intros Hx. apply Hc in Hx. lia.
Defined.


End MulticastProps.
