(* ===== verification/MulticastFailures.v ===== *)
(** * What goes wrong in the multicast sessions

    Concrete runs of the reader 5 and the writer 7 ([Group]) in which the code
    does not do what its comments and the configuration options say. *)

From S2P Require Import Prelude MessageBlock SequenceNumber DisjointSequence Serializer TransportSendStrategy TransportSendBuffer DataSampleHeader TransportReassembly TransportHeader Multicast MulticastLemmas MulticastNaks MulticastSteps MulticastProps.
Import TransportSendBuffer DataSampleHeader TransportReassembly TransportHeader Multicast MulticastLemmas MulticastProps Group.

Module MulticastFailures.

Definition body (o : outcome (list block)) : list block := match o with Ret data => data | _ => [] end.

(** The ranges a session asks for at [now]. *)
Definition asked_at (m : MulticastInst) (now : Z) (r : ReliablePart) : list Z :=
  match send_naks (mkSL 5 m None) now (reader r) r with
  | Ret (_, [SendControl _ data]) => chain_bytes data
  | _ => []
  end.

(** The image of the NAK for the number 3 alone. *)
Definition nak_for_3 : list Z := chain_bytes (body (nak_data 7 [sq 3 3])).

(** [nak_delay_intervals] is "the number of intervals between naks for a sample
    (after initial nak)" and [nak_max] "the maximum number of [times] a missing
    sample will be nak'ed", 4 and 3 here.  The datagram 3, missed since before the
    oldest mark, is asked for in the first interval, in the second, in the third,
    and again when it was asked for twenty times. *)
Theorem nak_delay_not_applied :
  (forall old : list (Z * SequenceNumber),
    old ∈ [[]; [(1, of_value 4)]; [(1, of_value 4); (2, of_value 8)]; (fun i => (i, of_value (4 + i))) <$> [1; 2; 3; 4; 5; 6; 7; 8; 9; 10; 11; 12; 13; 14; 15; 16; 17; 18; 19; 20]] ->
    asked_at config 30 (reader_part [sq 1 2; sq 4 40] old) = nak_for_3).
Proof. intros old Hold. repeat (apply elem_of_cons in Hold as [-> |Hold]; [by vm_compute|]). by apply elem_of_nil in Hold. Qed.

(** Without a delay the maximum has no effect either: 9, missed in an interval
    that is three marks old, is asked for although [nak_max] is 1. *)
Theorem nak_max_without_delay :
  asked_at (mkMI 30 0 1 100) 30 (reader_part [sq 1 8; sq 10 40] [(1, of_value 8); (2, of_value 10); (3, of_value 12); (4, of_value 14)])
    = chain_bytes (body (nak_data 7 [sq 9 9])) /\
  asked_at (mkMI 30 1 1 100) 30 (reader_part [sq 1 8; sq 10 40] [(1, of_value 8); (2, of_value 10); (3, of_value 12); (4, of_value 14)]) = [].
Proof. by vm_compute. Qed.

(** The request made at 1 has timed out, the one made at 50 has not.  The
    numbers given up reach to the mark of the latter: 9, asked for only since 50,
    is given up with 3. *)
Theorem expire_gives_up_early :
  let r := reader_part [sq 1 2; sq 4 8; sq 10 20] [(1, of_value 8); (50, of_value 20)] in
  expire_naks (mkSL 5 config None) 105 (reader r) r = Ret (reader (reader_part [sq 1 20] [(50, of_value 20)])).
Proof. by vm_compute. Qed.

(** The clock of [gettimeofday] set back between two requests orders the marks
    wrongly: a later [send_naks] throws. *)
Theorem clock_set_back_throws :
  let r := reader_part [sq 1 2; sq 4 5; sq 7 20] [(50, of_value 9); (51, of_value 10); (52, of_value 11); (100, of_value 5)] in
  send_naks (mkSL 5 config None) 101 (reader r) r = Throw.
Proof. by vm_compute. Qed.

(** A NAKACK is for the peers that asked, but all hear it.  The session of a
    reader that has not had its SYN yet records the number of the datagram it
    came in, 9, and throws on the empty range from there to 3; so does one that
    started after the handshake ([acked]) and has datagrams from 8 on. *)
Theorem nakack_of_others_throws :
  session_control_received (mkSL 5 config None) (header_from 7 9) MULTICAST_NAKACK offer_4 (set_acked false (reader (reader_part [] []))) = Throw /\
  session_control_received (mkSL 5 config None) (header_from 7 9) MULTICAST_NAKACK offer_4 (reader (reader_part [sq 8 9] [])) = Throw.
Proof. by vm_compute. Qed.

(** [ranges.begin()] of a NAK without ranges, and a SYN shorter than the number
    it should carry. *)
Theorem short_control_undefined :
  session_control_received (writer_link [4; 5; 6]) (header_from 5 9) MULTICAST_NAK (body (nak_data 7 [])) writer = UB /\
  session_control_received (mkSL 5 config None) (header_from 7 9) MULTICAST_SYN [full_block 100 [5; 0]] (set_acked false (reader (reader_part [] []))) = UB.
Proof. by vm_compute. Qed.

(** The same NAK in two blocks, for the second of two sessions of the writer: the
    first session reads all of it, the link sets back the first block only, and
    the second session finds no ranges. *)
Theorem second_session_misreads :
  let other : MulticastSession block := mkMS 3 true true true (mkTR ∅ ∅) new_watchdog (Reliable (reader_part [] [])) in
  let image := chain_bytes nak_3 in
  (exists l, control_each (writer_link [4; 5; 6]) (header_from 5 9) MULTICAST_NAK [full_block 100 image] [(3, other); (5, writer)]
    = Ret (l, [send_control MULTICAST_NAKACK offer_4; Resend (sq 3 4)])) /\
  control_each (writer_link [4; 5; 6]) (header_from 5 9) MULTICAST_NAK [full_block 100 (take 4 image); full_block 200 (drop 4 image)] [(3, other); (5, writer)] = UB.
Proof. split; [eexists|]; vm_compute; reflexivity. Qed.

(** The buffer of three packets is full: sending the NAKACK that offers 4 puts the
    NAKACK itself into it and takes 4 out, before the datagrams are sent again.
    Nothing is sent for the range 3 to 4. *)
Theorem offer_evicts_what_it_offers :
  (exists rest, session_control_received (writer_link [4; 5; 6]) (header_from 5 9) MULTICAST_NAK nak_3 writer
     = Ret (true, writer, [send_control MULTICAST_NAKACK offer_4; Resend (sq 3 4)], rest)) /\
  let b := sb_insert [full_block 0 [0]; full_block 1 [0]] (of_value 7) [] [full_block 2 [7]] (buffer [4; 5; 6]) in
  sb_low b = Ret (of_value 5) /\ packets_of b (of_value 3) = [] /\ packets_of b (of_value 4) = [].
Proof. split; [exact nak_3_answer|]. by vm_compute. Qed.

(** The requests of other peers, which are to suppress a session's own, are
    recorded by the sessions of writers, which never ask, and never cleared
    there; those of readers ignore them. *)
Theorem peer_requests_misplaced :
  let others : MulticastSession block := mkMS 7 true true true (mkTR ∅ ∅) new_watchdog (Reliable (reader_part [] [])) in
  (exists s r rest, session_control_received (mkSL 5 config None) (header_from 3 9) MULTICAST_NAK nak_3 others = Ret (true, s, [], rest) /\
     kind_ s = Reliable r /\ nak_peers_ r = [sq 3 4]) /\
  (exists rest, session_control_received (mkSL 5 config None) (header_from 3 9) MULTICAST_NAK nak_3 (reader part) = Ret (true, reader part, [], rest)).
Proof. split; [eexists _, _, _; split; [vm_compute; reflexivity|]; split; reflexivity|eexists; vm_compute; reflexivity]. Qed.

End MulticastFailures.
